(* ===== verification/_CoqProject ===== *)
-Q . S2P
Prelude.v
Limits.v
LimitsFacts.v
Conn.v
Authority.v
Governor.v
GovernorFacts.v
GovernorInvariant.v
GovernorRuns.v
GovernorHistory.v
Instances.v
GovernorTheorems.v
GovernorReports.v
LimitsTheorems.v
TrustedTime.v
Plans.v
Counters.v
Ledger.v
Presence.v
Decimal.v
Netip.v
BanSet.v
Egress.v
EgressPlane.v
EgressManager.v
EgressFacts.v
EgressSafety.v
EgressConverge.v
EgressPreflight.v
Spool.v
SpoolFacts.v
SpoolTheorems.v
MeterCommit.v
Deployments.v
Rates.v
RateTargets.v
RateTheorems.v
AuthorityWire.v
Fleet.v
FleetLedger.v
FleetRates.v
FleetLifecycle.v
FleetJournals.v
FleetCredit.v
FleetFacts.v
FleetSpend.v
FleetRuns.v
FleetTheorems.v
FleetTerms.v
FleetPool.v
FleetForwarding.v
FleetGrants.v
FleetDelivery.v
FleetDelivered.v
Routing.v
RoutingTheorems.v
Cycle.v
WireguardKeys.v
WgDevice.v
WgKernel.v
WgManager.v
WgFacts.v
WgCore.v
WgTheorems.v
HotDiff.v
XrayApi.v
TunnelMonitor.v
HotApply.v
HotFacts.v
HotRun.v
HotTheorems.v
ShapingNames.v
ShapingKernel.v
Shaping.v
ShapingMinors.v
ShapingPlan.v
ShapingStack.v
ShapingLoops.v
ShapingTheorems.v
ShapingMirrors.v
