(* ===== verification/Prelude.v ===== *)
(** * Penhoon UI (p-ui): a verified model of the node and panel core

    Penhoon UI is a panel for proxy servers.  A panel holds clients, their plans and
    the operator's routing; nodes run the cores that carry traffic, hold every client
    to its grant, measure what it used and report it back.  This development models the
    parts that decide who is served, how much is billed, and what the kernel and the
    cores are told, as executable definitions translated from the Go sources under
    src/internal, with the theorems that make them correct.

    ** Parts and files

    Prelude.v (this file): errors and results, machine integers with their wrap-around,
    time, tactics, hint databases and the list lemmas the other files share.

    Grants on a node.  A client's traffic is admitted against an account
    (node/limits); the account of every grant lives in a store whose reservations are
    durable before bytes are handed out (node/governor).
    - Limits.v, LimitsFacts.v, LimitsTheorems.v: limits/account.go, credit.go,
      authority.go: [Policy], [Account], [allowed], [Apply], [TakeUpTo], [Take].  The
      token bucket of golang.org/x/time/rate and the persistence behind an account are
      type classes ([RateLimiter], [Persistence]) with their laws.
    - Conn.v: limits/conn.go and writer.go, reads and writes through an account.
    - Authority.v: node/authority, identifiers and batches as far as the store uses them;
      AuthorityWire.v: the rest of the package, what panel and node accept of each other.
    - Governor.v: governor/store.go, credit.go, authority.go, authority_update.go: [Open],
      [Apply], [ApplyCredit], [ApplyAuthority], [Reconcile], [Observe] and the
      reservation backing.  The bbolt file is a map whose commits may fail.
      GovernorFacts.v, GovernorInvariant.v, GovernorRuns.v, GovernorHistory.v,
      Instances.v, GovernorTheorems.v, GovernorReports.v prove it: the store implements
      the account's [Persistence], and theorems about every run, crashes included, say
      that a grant is never overspent, that spending is durable, that a client has one
      grant, that suspension is permanent and policies only move forward.
    - TrustedTime.v: node/trustedtime/clock.go, the clock that never goes back.

    Usage on a node (node/state).  Deltas of cumulative counters are billed to meters
    and spooled until the panel has acknowledged them.
    - Counters.v: core/counter.go and counter_checkpoint.go, readings into deltas; over any
      history of a source no more is billed than it moved.
    - Spool.v, SpoolFacts.v, SpoolTheorems.v: store.go and usage_queue.go: [AppendUsage],
      [PendingUsage], [Acknowledge].  An append is filed under its meter, a batch handed
      to a sender never changes, and no accepted usage is lost.
    - MeterCommit.v: counters.go, one observation billed exactly once, with its
      checkpoint in the same transaction.
    - Deployments.v: store.go, [Fence], [Receive], [Desired], [Applied] as a step relation
      whose reachable states never go back in generation or revision.

    Policy and presence on the panel.
    - Plans.v: policy/plan.go, cycle.go, ipcap.go, rate ladders and the device cap;
      Cycle.v: cycle.go, when a cycle's usage is reset next.
    - Ledger.v: radius/ledger.go.  Presence.v: presence/presence.go.
    - BanSet.v: banset/banset.go, the nft set and its converging manager.
    - TunnelMonitor.v: tunnelmonitor/monitor.go, restarts after failing probes.

    What the host is told.
    - Decimal.v, Netip.v: the texts of numbers, the addresses and prefixes of net/netip
      and the interface of their texts.
    - Egress.v: egress/alloc.go, names, tables, marks and gateways of an egress.
    - EgressPlane.v: egress/plane.go, driver.go, errors.go, and egress/egtest/kernel.go,
      the stack that answers as a kernel does; EgressManager.v: egress/manager.go,
      [Ensure], [Remove] and [Reconcile] of a row against any [Plane].  EgressFacts.v
      holds the lemmas; EgressSafety.v proves that, at every write of every run, a flow
      a rule sends to an egress leaves by its front or is dropped; EgressConverge.v that
      one pass makes a row exactly what was planned and the next writes nothing.
      EgressPreflight.v: egress/probe.go, preflight.go, marked.go, forwarding.go.
    - Routing.v, RoutingTheorems.v: routing/plan.go and diag.go, the compile of the
      operator's rules.  Every pair of rule and inbound is reported, every outbound is
      emitted once and named by a rule that exists, and a front or a bridge cannot reach
      private addresses.
    - ShapingNames.v: shaping/alloc.go, rate.go, namespaces.go.
    - ShapingKernel.v: shaping/plane.go, and shaping/shapetest/kernel.go, the stack with
      the answers measured on a kernel; [Plane] is the interface, [KernelPlane] the stack's
      instance of it.
    - Shaping.v: shaping/manager.go against any [Plane].  ShapingPlan.v proves that the
      plan of a device shapes every subject by exactly the addresses it alone claims;
      ShapingMinors.v that class ids are found and never shared; ShapingStack.v
      and ShapingLoops.v relate the manager's view to the stack write by
      write; ShapingTheorems.v concludes that one pass makes a device's tree exactly the
      population asked for and that the next pass writes nothing; ShapingMirrors.v that
      mirrors nobody feeds are collected and no other link is touched.

    Kernel WireGuard (wireguard, cores/internal/wireguard).
    - WgDevice.v: device.go and plane.go: what an inbound asks of its device, and the
      writes that make up the difference; [Plane] is the host's network stack.
      WgKernel.v: wgtest/kernel.go, the stack in memory.  WgManager.v: manager.go and
      identity.go against any [Plane].  WgFacts.v holds the lemmas.
    - WgCore.v: the core's adapter, core.go and convert.go.  A pass removes the devices
      nobody asks for, keeps those it cannot read and touches no other; the totals of an
      inbound are the sums of its clients'.
    - WgTheorems.v: a pass without a failure makes the device exactly the one asked for,
      the next writes nothing, and a collection bills every client for what moved under
      its own key since the last one.

    A running core that is reconfigured (xray).
    - WireguardKeys.v: util/wireguard, the texts of keys.
    - HotDiff.v: xray/hot_diff.go, config.go and core/inbound.go: [ComputeHotDiff].
      XrayApi.v: xray/api.go, the calls that change a core and the accounts they build.
      HotApply.v: xray/hot_apply.go, [ApplyHotDiff], and its callers in
      web/service/xray.go and cores/internal/xray/core.go; [meaning] is what a core
      started with a configuration runs.  encoding/json and the core are interfaces
      ([JSONText], [Conf], [XrayCore]) with laws; HotTheorems.v has a small JSON and a
      core in memory.  HotFacts.v reads a diff tag by tag, HotRun.v the effect of its
      calls, and HotTheorems.v concludes that a diff that is applied makes the core run the new configuration, from any part of the change, and
      that the configuration on record is the one that runs.

    Bandwidth shared by nodes (controlplane).
    - Rates.v: rate_allocation.go and the arithmetic of rates.go, and its words with
      carries as sums.  RateTargets.v has every case of the targets,
      and RateTheorems.v proves that an allocation never oversubscribes a budget whichever
      of the old and new rates each node applies, that shares are exact and even, and that
      two rounds settle.

    The control plane's transactions (controlplane).
    - Fleet.v: the tables of database/model/fleet*.go with the checks of their schema, a
      transaction monad over them, and the guards every transaction begins with.
    - FleetLedger.v: accounting.go, client_credit.go, usage_projection.go: [Reserve],
      [Ingest], [ReserveClientCredit].
    - FleetRates.v: the transactions of rates.go and what an applied configuration proves.
    - FleetLifecycle.v: client_lifecycle.go, client_drain.go, client_cancel.go: binding a
      client, its credentials, and the terms it lives through.
    - FleetJournals.v: journal_registry.go, the identities of a node's journals and the
      hold when one is lost; FleetCredit.v: credit_delivery.go, the outbox of credit.
    - FleetFacts.v inverts transactions that committed; it and FleetSpend.v prove the ledger's invariant of every write, FleetRuns.v of every operation.
      FleetTheorems.v makes them one step relation and concludes: credit is conserved,
      budgets pay exactly for their grants, usage is taken once and in order, and a
      reservation is answered once.  FleetTerms.v: the terms of a client are well formed.
      FleetPool.v and FleetForwarding.v: a client forwards in one term at a time, and its
      nodes never use more together than its pool allows.  FleetGrants.v: a grant keeps
      its place and is only ever issued more.  FleetDelivery.v adds the journals and the
      outbox to the steps, and FleetDelivered.v concludes: the credit a node is handed
      was issued to it, acknowledging settles it, and a held node is issued nothing.

    ** Conventions

    A Go [error] result is [result]; a loop with an early return is [foldM]; a struct is
    a record and a map a [gmap].  Integers are [Z] with the wrap-around of their width
    written out where the code can reach it.  Times are nanoseconds.  A sort that Go
    leaves unstable is a stable one here.  A lock makes a method one step, and so do the
    row locks of a database transaction; a column of JSON text is the value it encodes.

    Fuel: [Take] and [TakeUpTo] loop while a bucket makes them wait, and their theorems
    say what each pass does; [append_batches] runs once per checkpoint at most, and
    [next_free] once per class id, both proved enough; [None] there is the loop that
    does not end.

    Interfaces to code outside the repository are type classes or section variables:
    the rate limiter, UUID parsing, SHA-256, the sizes and texts of protobuf and JSON
    encodings, the text of an address, the parsing of
    addresses, the core's configuration loader and services.  Each has an instance, so
    that every theorem is applied to a concrete run.

    ** Not modelled

    The web panel, subscriptions, migrations and the services of the control plane are
    SQL and HTTP through an ORM and frameworks; the cores, their processes and the devices
    are external programs; netlink and nftables calls are kernel I/O, of which the egress,
    shaping and WireGuard managers and the ban set are proved against an interface.
    Generated protobuf code and the TypeScript front end are left out, and so are, for
    now, the ingress hook of the shaping pass, the journals of node/state, and the
    deployments and reports of the control plane. *)
From stdpp Require Export base gmap strings list fin_maps sorting.
From Stdlib Require Export ZArith Lia QArith.
#[global] Close Scope Q_scope.
#[global] Open Scope Z_scope.

(** ** Errors and results *)

(** Go's sentinel errors, one constructor per package-level [errors.New] the
    modelled code compares against, plus free-form errors and [errors.Join]. *)
Inductive error :=
| ErrBlocked | ErrExpired | ErrQuota | ErrRevision | ErrTerm | ErrSize | ErrClock
| ErrGrant | ErrReport | ErrUntrusted
| ErrorText (msg : string)
| ErrorJoin (first second : error).

#[global] Instance error_eq_dec : EqDecision error.
Proof. solve_decision. Defined.

(** A Go call returning [(T, error)]; [result unit] is a bare [error]. *)
Inductive result (A : Type) :=
| Ok (a : A)
| Fail (e : error).
Arguments Ok {A} a.
Arguments Fail {A} e.

#[global] Instance result_ret : MRet result := fun A a => Ok a.
#[global] Instance result_bind : MBind result :=
  fun A B f m => match m with Ok a => f a | Fail e => Fail e end.

Definition is_ok {A} (r : result A) : bool :=
  match r with Ok _ => true | Fail _ => false end.

(** ** Machine integers

    Go's [uint64] and [int64] are carried as [Z]; the wrap-around is written
    out, and the range predicates say when it cannot happen. *)
Definition MaxUint64 : Z := 18446744073709551615.
Definition MaxInt64 : Z := 9223372036854775807.
Definition MinInt64 : Z := -9223372036854775808.
Definition MaxInt : Z := MaxInt64.

Definition u64 (z : Z) : Z := z mod 18446744073709551616.
Definition add64 (a b : Z) : Z := u64 (a + b).
Definition sub64 (a b : Z) : Z := u64 (a - b).

(** Two's complement wrap of [int64] arithmetic. *)
Definition i64 (z : Z) : Z := (z + 9223372036854775808) mod 18446744073709551616 - 9223372036854775808.

Definition is_u64 (z : Z) : Prop := 0 <= z <= MaxUint64.
Definition is_i64 (z : Z) : Prop := MinInt64 <= z <= MaxInt64.

#[global] Instance is_u64_dec z : Decision (is_u64 z).
Proof. unfold is_u64. apply _. Defined.
#[global] Instance is_i64_dec z : Decision (is_i64 z).
Proof. unfold is_i64. apply _. Defined.

(** ** Time

    A [time.Time] is its nanoseconds since the Unix epoch. *)
Definition Millisecond : Z := 1000000.
Definition Second : Z := 1000000000.
Definition UnixMilli (t : Z) : Z := t / Millisecond.
Definition TimeUnixMilli (ms : Z) : Z := ms * Millisecond.

(** ** Automation *)

(** Unfold the numeric vocabulary and decide. *)
Ltac machine :=
  unfold is_u64, is_i64, MaxInt, MaxUint64, MaxInt64, MinInt64 in *; lia.

(** Split every guard of a translated function body in hypothesis [H]. *)
Ltac guards H :=
  repeat
    match type of H with
    | context [match ?x with _ => _ end] =>
        lazymatch x with
        | _ => let E := fresh "G" in destruct x eqn:E; try discriminate H
        end
    end.

(** Boolean guards as propositions, by rewriting. *)
Create HintDb guards.
#[export] Hint Rewrite orb_true_iff orb_false_iff andb_true_iff andb_false_iff negb_true_iff
  negb_false_iff Z.ltb_lt Z.ltb_ge Z.leb_le Z.leb_gt Z.eqb_eq Z.eqb_neq
  @bool_decide_eq_true @bool_decide_eq_false eqb_true_iff eqb_false_iff : guards.

Ltac bools := autorewrite with guards in *; destruct_and?.

(** Close a goal by splitting the context into cases and deciding each one. *)
Ltac decide_cases :=
  intros; destruct_and?; destruct_or?;
  repeat match goal with H : ~ (_ <> _) |- _ => apply dec_stable in H end;
  subst; first [done | congruence | lia | machine].

(** Case analysis on the next guard of the goal or of hypothesis [H], kept as a
    proposition. *)
Ltac split_guard :=
  match goal with
  | |- context [if ?b then _ else _] =>
      let G := fresh "G" in destruct b eqn:G; autorewrite with guards in G
  end.
Ltac split_guard_in H :=
  match type of H with
  | context [if ?b then _ else _] =>
      let G := fresh "G" in destruct b eqn:G; autorewrite with guards in G
  end.

Create HintDb pui.

(** ** Integer lemmas *)

Lemma u64_small z : is_u64 z -> u64 z = z.
Proof. intros ?. unfold u64. apply Z.mod_small. machine. Qed.

Lemma u64_range z : is_u64 (u64 z).
Proof.
  unfold u64. pose proof (Z.mod_pos_bound z 18446744073709551616). machine.
Qed.

Lemma add64_small a b : is_u64 (a + b) -> add64 a b = a + b.
Proof. apply u64_small. Qed.

Lemma sub64_small a b : is_u64 (a - b) -> sub64 a b = a - b.
Proof. apply u64_small. Qed.

Lemma add64_range a b : is_u64 (add64 a b).
Proof. apply u64_range. Qed.

Lemma sub64_range a b : is_u64 (sub64 a b).
Proof. apply u64_range. Qed.

Lemma i64_small z : is_i64 z -> i64 z = z.
Proof. intros ?. unfold i64. rewrite Z.mod_small; machine. Qed.

#[export] Hint Resolve u64_range add64_range sub64_range : pui.

(** ** Lists *)

Fixpoint sumZ (l : list Z) : Z :=
  match l with [] => 0 | x :: l' => x + sumZ l' end.

Lemma sumZ_app l k : sumZ (l ++ k) = sumZ l + sumZ k.
Proof. induction l; simpl; lia. Qed.

Lemma sumZ_nonneg l : Forall (fun z => 0 <= z) l -> 0 <= sumZ l.
Proof. induction 1; simpl; lia. Qed.

Lemma elem_of_concat {A} (x : A) (ls : list (list A)) : x ∈ concat ls <-> exists l, l ∈ ls /\ x ∈ l.
Proof.
  rewrite list_elem_of_In, in_concat. by setoid_rewrite list_elem_of_In.
Qed.

(** The sum of a measure over the values of a map. *)
Definition map_sum {K A} `{Countable K} (f : A -> Z) (m : gmap K A) : Z :=
  sumZ (f <$> (map_to_list m).*2).

#[global] Instance sumZ_perm : Proper (Permutation ==> eq) sumZ.
Proof. intros l k H. induction H; simpl; lia. Qed.

Lemma map_sum_insert {K A} `{Countable K} (f : A -> Z) (m : gmap K A) k a :
  m !! k = None -> map_sum f (<[ k := a ]> m) = f a + map_sum f m.
Proof. intros Hk. unfold map_sum. by rewrite map_to_list_insert by done. Qed.

Lemma map_sum_delete {K A} `{Countable K} (f : A -> Z) (m : gmap K A) k :
  map_sum f m = from_option f 0 (m !! k) + map_sum f (delete k m).
Proof.
  destruct (m !! k) as [a|] eqn:Hk; simpl.
  - rewrite <- (insert_delete_id m k a Hk) at 1. rewrite map_sum_insert; [done|]. apply lookup_delete_eq.
  - by rewrite delete_id.
Qed.

Lemma map_sum_update {K A} `{Countable K} (f : A -> Z) (m : gmap K A) k a :
  map_sum f (<[ k := a ]> m) = f a + map_sum f m - from_option f 0 (m !! k).
Proof.
  rewrite (map_sum_delete f m k), <- insert_delete_eq, map_sum_insert by apply lookup_delete_eq. lia.
Qed.

(** A sum below another, key by key. *)
Lemma map_sum_le {K A} `{Countable K} (f g : A -> Z) (m m' : gmap K A) :
  (forall k a, m' !! k = Some a -> g a <= from_option f 0 (m !! k)) -> (forall k a, m !! k = Some a -> 0 <= f a) -> map_sum g m' <= map_sum f m.
Proof.
  revert m. induction m' as [|k a m' Hk IH] using map_ind; intros m Hle Hpos.
  - unfold map_sum at 1. rewrite map_to_list_empty. cbn. clear Hle. induction m as [|k a m Hk IH] using map_ind; [done|].
    rewrite map_sum_insert by done. assert (0 <= f a) by (apply (Hpos k); apply lookup_insert_eq).
    assert (0 <= map_sum f m); [|lia]. apply IH. intros k' a' Ha'. apply (Hpos k'). rewrite lookup_insert_ne; [done|congruence].
  - rewrite map_sum_insert by done. rewrite (map_sum_delete f m k).
    assert (g a <= from_option f 0 (m !! k)) by (apply Hle; apply lookup_insert_eq).
    assert (map_sum g m' <= map_sum f (delete k m)); [|lia]. apply IH.
    + intros k' a' Ha'. assert (k <> k') by congruence. rewrite lookup_delete_ne by done. apply Hle. by rewrite lookup_insert_ne.
    + intros k' a' Ha'. apply lookup_delete_Some in Ha' as [_ Ha']. by apply (Hpos k').
Qed.

Lemma map_sum_nonneg {K A} `{Countable K} (f : A -> Z) (m : gmap K A) :
  (forall a, 0 <= f a) -> 0 <= map_sum f m.
Proof. intros Hf. apply sumZ_nonneg. apply Forall_fmap. apply Forall_forall. simpl. auto. Qed.

(** [slices.Compact]. *)
Fixpoint Compact {T} `{!EqDecision T} (l : list T) : list T :=
  match l with
  | [] => []
  | x :: rest =>
      match rest with
      | [] => [x]
      | y :: _ => if bool_decide (x = y) then Compact rest else x :: Compact rest
      end
  end.

(** Distinct keys stay distinct in a part of the list. *)
Lemma NoDup_fmap_filter {A B} (f : A -> B) (P : A -> Prop) `{!forall x, Decision (P x)} l : NoDup (f <$> l) -> NoDup (f <$> filter P l).
Proof.
  induction l as [|x l IH]; [done|]. rewrite fmap_cons, NoDup_cons. intros [Hx Hl]. rewrite filter_cons. case_decide; [|by apply IH].
  rewrite fmap_cons, NoDup_cons. split; [|by apply IH]. intros (y & E & [_ Hy]%list_elem_of_filter)%list_elem_of_fmap. apply Hx, list_elem_of_fmap. eauto.
Qed.

(** It keeps every element, and of a sorted list each one once. *)
Lemma Compact_elem {T} `{!EqDecision T} (l : list T) x : x ∈ Compact l <-> x ∈ l.
Proof.
  induction l as [|y l IH]; [done|]. simpl. destruct l as [|z l]; [done|].
  case_bool_decide; subst; rewrite ?IH, ?elem_of_cons, ?IH, ?elem_of_cons; tauto.
Qed.

Lemma Compact_nodup {T} `{!EqDecision T} (R : relation T) (l : list T) :
  (forall x y, x ∈ l -> y ∈ l -> R x y -> R y x -> x = y) -> StronglySorted R l -> NoDup (Compact l).
Proof.
  induction l as [|x l IH]; intros Ha Hs; [apply NoDup_nil_2|]. inversion Hs as [|? ? Hs' Hx]; subst.
  assert (NoDup (Compact l)) as Hn by (apply IH; [intros; apply Ha; try done; by right|done]).
  simpl. destruct l as [|y l]; [apply NoDup_singleton|]. case_bool_decide as He; [done|].
  apply NoDup_cons. split; [|done]. intros Hin. rewrite Compact_elem in Hin.
  assert (R x y) as Hxy by (rewrite Forall_forall in Hx; apply Hx; by left).
  apply He, Ha; [by left|by right; left|done|].
  apply elem_of_cons in Hin as [Hin|Hin]; [by subst|].
  inversion Hs' as [|? ? ? Hy]; subst. rewrite Forall_forall in Hy. by apply Hy.
Qed.

(** Left-to-right iteration of a fallible step, as a Go [for] loop with an
    early [return err]. *)
Fixpoint foldM {A S} (f : S -> A -> result S) (s : S) (l : list A) : result S :=
  match l with
  | [] => Ok s
  | x :: l' => match f s x with Ok s' => foldM f s' l' | Fail e => Fail e end
  end.

Lemma foldM_ind {A S} (P : S -> Prop) (f : S -> A -> result S) l s s' :
  (forall s x s', x ∈ l -> P s -> f s x = Ok s' -> P s') ->
  P s -> foldM f s l = Ok s' -> P s'.
Proof.
  revert s. induction l as [|x l IH]; intros s Hf Hs; simpl.
  - intros [= <-]; done.
  - destruct (f s x) as [s1|] eqn:E; [|done].
    apply IH; [intros; eapply Hf; eauto; set_solver|].
    eapply Hf; eauto; set_solver.
Qed.
