(* ===== verification/Limits.v ===== *)
(** * Forwarding accounts: internal/node/limits

    An [Account] is the spend authority one client holds on a node: a policy
    (term, revisions, quota, expiry, two rates), the bytes admitted so far, and
    the token bucket of each direction.  Every method of the Go type runs under
    the account's mutex, so a method is one atomic transition here; a [take] that
    has to wait releases the mutex, and its loop body is the atomic unit.

    The token bucket (golang.org/x/time/rate) and the [Persistence] interface are
    class parameters; a clock reading, a context error and a wake-up are inputs. *)
From S2P Require Import Prelude.

(** ** Policies *)

Definition Blocked : Z := 0.
Definition Limited : Z := 1.
Definition Unlimited : Z := 2.

Definition UploadDir : Z := 0.
Definition DownloadDir : Z := 1.

Record Rate := mkRate { Mode : Z; BitsPerSecond : Z; BurstBytes : Z }.

Record Policy := mkPolicy {
  Term : string;
  Revision : Z;
  AuthorityRevision : Z;
  Enabled : bool;
  ExpiresUnixMilli : Z;
  QuotaUnlimited : bool;
  CreditCeiling : Z;
  CreditRevision : Z;
  Upload : Rate;
  Download : Rate }.

#[global] Instance Rate_eq_dec : EqDecision Rate.
Proof. solve_decision. Defined.
#[global] Instance Policy_eq_dec : EqDecision Policy.
Proof. solve_decision. Defined.

(** The field ranges Go's types impose on a policy. *)
Record policy_typed (p : Policy) : Prop := {
  pt_revision : is_u64 (Revision p);
  pt_authority : is_u64 (AuthorityRevision p);
  pt_expires : is_i64 (ExpiresUnixMilli p);
  pt_ceiling : is_u64 (CreditCeiling p);
  pt_credit : is_u64 (CreditRevision p);
  pt_up : is_u64 (BitsPerSecond (Upload p));
  pt_down : is_u64 (BitsPerSecond (Download p)) }.

Definition rates (p : Policy) : Rate * Rate := (Upload p, Download p).

(** Indexing of the two-element arrays and slices the code keys by direction. *)
Definition dget {A} (dir : Z) (x : A * A) : A := if dir =? UploadDir then x.1 else x.2.
Definition dset {A} (dir : Z) (v : A) (x : A * A) : A * A :=
  if dir =? UploadDir then (v, x.2) else (x.1, v).

Definition validate_rate (r : Rate) : result unit :=
  if (Mode r =? Blocked) || (Mode r =? Unlimited) then
    if negb (BitsPerSecond r =? 0) || negb (BurstBytes r =? 0)
    then Fail (ErrorText "non-limited rate carries limit values") else Ok tt
  else if Mode r =? Limited then
    if (BitsPerSecond r =? 0) || (9007199254740992 <? BitsPerSecond r) ||
       (BurstBytes r <? 1) || (1048576 <? BurstBytes r)
    then Fail (ErrorText "invalid limited rate") else Ok tt
  else Fail (ErrorText "unknown rate mode").

Definition validate (p : Policy) : result unit :=
  if bool_decide (Term p = ""%string) || (Revision p =? 0) || (ExpiresUnixMilli p <? 0)
  then Fail (ErrorText "invalid policy identity or expiry")
  else
    _ ← validate_rate (Upload p);
    _ ← validate_rate (Download p);
    if QuotaUnlimited p && negb (CreditCeiling p =? 0)
    then Fail (ErrorText "unlimited quota carries a credit ceiling") else Ok tt.

Definition with_credit (p : Policy) (revision ceiling : Z) : Policy :=
  mkPolicy (Term p) (Revision p) (AuthorityRevision p) (Enabled p) (ExpiresUnixMilli p)
    (QuotaUnlimited p) ceiling revision (Upload p) (Download p).

Definition CreditAdvance (before after : Policy) : bool :=
  if QuotaUnlimited before || (CreditRevision after <=? CreditRevision before) ||
     (CreditCeiling after <=? CreditCeiling before)
  then false
  else bool_decide (with_credit before (CreditRevision after) (CreditCeiling after) = after).

Definition RetainCredit (base persisted : Policy) : Policy :=
  if negb (Revision base =? Revision persisted) ||
     (CreditRevision persisted <=? CreditRevision base) ||
     (CreditCeiling persisted <? CreditCeiling base)
  then base
  else
    let merged := with_credit base (CreditRevision persisted) (CreditCeiling persisted) in
    if bool_decide (merged = persisted) then persisted else base.

Definition AuthorityAdvance (before after : Policy) : bool :=
  if negb (Revision before =? Revision after) || bool_decide (Term before <> Term after) ||
     negb (ExpiresUnixMilli before =? ExpiresUnixMilli after) ||
     negb (eqb (QuotaUnlimited before) (QuotaUnlimited after)) ||
     (AuthorityRevision after <=? AuthorityRevision before) ||
     (negb (Enabled before) && Enabled after) ||
     (CreditRevision after <? CreditRevision before) ||
     (CreditCeiling after <? CreditCeiling before) ||
     ((CreditRevision after =? CreditRevision before) &&
      negb (CreditCeiling after =? CreditCeiling before))
  then false
  else
    let before' :=
      mkPolicy (Term before) (Revision before) (AuthorityRevision after) (Enabled after)
        (ExpiresUnixMilli before) (QuotaUnlimited before) (CreditCeiling after)
        (CreditRevision after) (Upload after) (Download after) in
    bool_decide (before' = after).

Definition MergeAuthority (current desired : Policy) : result Policy :=
  if (AuthorityRevision desired =? 0) || (MaxInt64 <? AuthorityRevision desired) ||
     (CreditRevision desired =? 0) || (MaxInt64 <? CreditRevision desired) ||
     (MaxInt64 <? CreditCeiling desired)
  then Fail ErrRevision
  else
    _ ← validate desired;
    if bool_decide (Term desired <> Term current) then Fail ErrTerm
    else if negb (Revision desired =? Revision current) ||
            negb (ExpiresUnixMilli desired =? ExpiresUnixMilli current) ||
            negb (eqb (QuotaUnlimited desired) (QuotaUnlimited current)) ||
            (negb (Enabled current) && Enabled desired)
    then Fail ErrRevision
    else if (CreditRevision desired <? CreditRevision current) &&
            (CreditCeiling current <? CreditCeiling desired)
    then Fail ErrRevision
    else
      let desired :=
        if CreditRevision desired <? CreditRevision current
        then with_credit desired (CreditRevision current) (CreditCeiling current)
        else desired in
      if bool_decide (desired = current) || AuthorityAdvance current desired
      then Ok desired else Fail ErrRevision.

(** ** Interfaces the account calls *)

(** golang.org/x/time/rate.  A [rate.Limit] is the rational it denotes: with at
    most 2^53 bits per second, [float64(bps)/8] is exact.  [RefillDelay l t n] is
    the wait in nanoseconds computed from [TokensAt] and [Limit]. *)
Class RateLimiter (L : Type) := {
  NewLimiter : Q -> Z -> L;
  AllowN : L -> Z -> Z -> bool * L;
  SetLimitAt : L -> Z -> Q -> L;
  SetBurstAt : L -> Z -> Z -> L;
  Burst : L -> Z;
  RefillDelay : L -> Z -> Z -> Z }.

(** What golang.org/x/time/rate documents of a finite-rate limiter: its burst is
    the configured one, and no call admits more than the burst at once. *)
Class RateLimiterLaws (L : Type) `{!RateLimiter L} := {
  burst_new q b : Burst (NewLimiter q b) = b;
  burst_allow l t n : Burst (AllowN l t n).2 = Burst l;
  burst_set_limit l t q : Burst (SetLimitAt l t q) = Burst l;
  burst_set_burst l t b : Burst (SetBurstAt l t b) = b;
  allow_within_burst l t n : (AllowN l t n).1 = true -> n <= Burst l }.

(** limits.Persistence: a handle [H] over a durable environment [E]. *)
Class Persistence (H E : Type) := {
  StorePolicy : H -> Policy -> E -> E * result unit;
  Reserve : H -> Policy -> Z -> E -> E * result H }.

(** What the account relies on from a persistence: in a well-formed environment
    every handle has an identity, a policy and a reservation high-water mark on
    disk, and the mark it was last granted, at most [reserve_block] ahead of what
    was asked for.  [env_step id] is what calls on the
    handles of [id] may do to the environment: it stays well formed, and nobody
    else's durable value changes.  A failed call changes no durable value. *)
Class PersistenceLaws (H E : Type) `{!Persistence H E} := {
  env_ok : E -> Prop;
  env_step : string -> E -> E -> Prop;
  handle_id : H -> string;
  granted : H -> Z;
  reserve_block : Z;
  durable : string -> E -> option (Policy * Z);
  env_step_refl id e : env_step id e e;
  env_step_ok id e e' : env_ok e -> env_step id e e' -> env_ok e';
  env_step_frame id k e e' : env_step id e e' -> k <> id -> durable k e' = durable k e;
  store_policy_step h p e : env_ok e -> env_step (handle_id h) e (StorePolicy h p e).1;
  store_policy_ok h p e e' u :
    env_ok e -> StorePolicy h p e = (e', Ok u) ->
    exists q r, durable (handle_id h) e = Some (q, r) /\ durable (handle_id h) e' = Some (p, r);
  store_policy_fail h p e e' err :
    env_ok e -> StorePolicy h p e = (e', Fail err) ->
    durable (handle_id h) e' = durable (handle_id h) e;
  reserve_step h p t e : env_ok e -> env_step (handle_id h) e (Reserve h p t e).1;
  reserve_ok h p t e e' h' :
    env_ok e -> is_u64 t -> policy_typed p -> Reserve h p t e = (e', Ok h') ->
    handle_id h' = handle_id h /\
    ((t <= granted h /\ h' = h /\ e' = e) \/
     (granted h < t <= granted h' /\ granted h' <= MaxUint64 /\ granted h' <= t + reserve_block /\
      durable (handle_id h) e' = Some (p, granted h') /\
      (QuotaUnlimited p = false -> granted h' <= CreditCeiling p) /\
      exists r, durable (handle_id h) e = Some (p, r) /\ r <= granted h'));
  reserve_fail h p t e e' err :
    env_ok e -> Reserve h p t e = (e', Fail err) ->
    durable (handle_id h) e' = durable (handle_id h) e }.

(** ** Accounts *)

Record Snapshot := mkSnapshot {
  sPolicy : Policy;
  AdmittedUpload : Z;
  AdmittedDownload : Z;
  PreviouslyReserved : Z;
  MeasuredUpload : Z;
  MeasuredDownload : Z;
  sQuarantined : bool }.

(** [changed] counts the broadcasts on the [changed] channel: a waiter holding
    generation [g] is woken as soon as [changed <> g].  [clock] says whether a
    trusted clock is installed; its readings are inputs. *)
Record Account (L H : Type) := mkAccount {
  quarantined : bool;
  policy : Policy;
  uploaded : Z;
  downloaded : Z;
  previouslyReserved : Z;
  measured : Z * Z;
  persistence : option H;
  buckets : option L * option L;
  changed : nat;
  clock : bool }.
Arguments mkAccount {L H}.
Arguments quarantined {L H}.
Arguments policy {L H}.
Arguments uploaded {L H}.
Arguments downloaded {L H}.
Arguments previouslyReserved {L H}.
Arguments measured {L H}.
Arguments persistence {L H}.
Arguments buckets {L H}.
Arguments changed {L H}.
Arguments clock {L H}.

(** The environment of one pass through the loop of [take]: the context error at
    its head, [time.Now()], and the trusted clock's answer to each of the up to
    three readings the pass makes. *)
Record Pass := mkPass {
  ctx_err : option error;
  wall : Z;
  reading1 : result Z;
  reading2 : result Z;
  reading3 : result Z }.

(** How the [select] at the end of a pass was left. *)
Inductive Wake := WakeDone (e : error) | WakeChanged | WakeTimer.

Inductive TakeOut :=
| Took (n : Z)
| TakeFailed (e : error)
| TakeWait (timer : Z) (generation : nat).

Section Account.
Context {L H E : Type} `{!RateLimiter L} `{!Persistence H E}.

Abbreviation Account := (Account L H).

Definition with_buckets (a : Account) (b : option L * option L) : Account :=
  mkAccount (quarantined a) (policy a) (uploaded a) (downloaded a) (previouslyReserved a)
    (measured a) (persistence a) b (changed a) (clock a).

Definition SetClock (installed : bool) (a : Account) : Account :=
  mkAccount (quarantined a) (policy a) (uploaded a) (downloaded a) (previouslyReserved a)
    (measured a) (persistence a) (buckets a) (changed a) installed.

Definition Quarantine (a : Account) : Account :=
  if quarantined a then a
  else mkAccount true (policy a) (uploaded a) (downloaded a) (previouslyReserved a)
         (measured a) (persistence a) (buckets a) (S (changed a)) (clock a).

Definition bucket (r : Rate) : option L :=
  if negb (Mode r =? Limited) then None
  else Some (NewLimiter (Qmake (BitsPerSecond r) 8) (BurstBytes r)).

Definition New (p : Policy) : result Account :=
  _ ← validate p;
  Ok (mkAccount false p 0 0 0 (0, 0) None (bucket (Upload p), bucket (Download p)) 0 false).

Definition drain (now : Z) (b : option L) : option L :=
  match b with Some l => Some (AllowN l now (Burst l)).2 | None => None end.

(** [nowUp], [nowDown]: the [time.Now()] of each iteration of the loop. *)
Definition Restore_account (nowUp nowDown : Z) (p : Policy) (reserved : Z) (h : option H)
    : result Account :=
  match h with
  | None => Fail (ErrorText "durable account requires persistence")
  | Some h =>
      a ← New p;
      Ok (mkAccount (quarantined a) (policy a) (uploaded a) (downloaded a) reserved
            (measured a) (Some h) (drain nowUp (buckets a).1, drain nowDown (buckets a).2)
            (changed a) (clock a))
  end.

Definition apply_rate (now : Z) (old next : Rate) (b : option L) : option L :=
  if bool_decide (next = old) then b
  else
    match b, Mode next =? Limited with
    | Some l, true =>
        Some (SetBurstAt (SetLimitAt l now (Qmake (BitsPerSecond next) 8)) now (BurstBytes next))
    | _, _ =>
        (* A policy transition must not mint a fresh burst. *)
        match bucket next with
        | Some l => Some (AllowN l now (BurstBytes next)).2
        | None => None
        end
    end.

Definition stale (cur p : Policy) : bool :=
  (AuthorityRevision p <? AuthorityRevision cur) || (CreditRevision p <? CreditRevision cur) ||
  (Revision p <? Revision cur) ||
  ((Revision p =? Revision cur) && negb (bool_decide (p = cur)) &&
   negb (CreditAdvance cur p) && negb (AuthorityAdvance cur p)).

Definition credit_conflict (cur p : Policy) : bool :=
  (negb (CreditRevision p =? 0) || negb (CreditRevision cur =? 0)) &&
  ((CreditCeiling p <? CreditCeiling cur) ||
   ((CreditRevision p =? CreditRevision cur) && negb (CreditCeiling p =? CreditCeiling cur))).

Definition quota_kind_conflict (cur p : Policy) : bool :=
  (negb (AuthorityRevision p =? 0) || negb (AuthorityRevision cur =? 0)) &&
  negb (eqb (QuotaUnlimited p) (QuotaUnlimited cur)).

Definition applyLocked (now : Z) (p : Policy) (a : Account) (e : E) : Account * E * result unit :=
  let cur := policy a in
  if bool_decide (Term p <> Term cur) then (a, e, Fail ErrTerm)
  else if stale cur p then (a, e, Fail ErrRevision)
  else if credit_conflict cur p then (a, e, Fail ErrRevision)
  else if quota_kind_conflict cur p then (a, e, Fail ErrRevision)
  else if bool_decide (p = cur) then (a, e, Ok tt)
  else
    let '(e', stored) :=
      match persistence a with Some h => StorePolicy h p e | None => (e, Ok tt) end in
    match stored with
    | Fail err => (a, e', Fail err)
    | Ok _ =>
        (mkAccount (quarantined a) p (uploaded a) (downloaded a) (previouslyReserved a)
           (measured a) (persistence a)
           (apply_rate now (Upload cur) (Upload p) (buckets a).1,
            apply_rate now (Download cur) (Download p) (buckets a).2)
           (S (changed a)) (clock a), e', Ok tt)
    end.

Definition Apply (now : Z) (p : Policy) (a : Account) (e : E) : Account * E * result unit :=
  match validate p with
  | Fail err => (a, e, Fail err)
  | Ok _ => applyLocked now p a e
  end.

Definition Account_Snapshot (a : Account) : Snapshot :=
  mkSnapshot (policy a) (uploaded a) (downloaded a) (previouslyReserved a)
    (measured a).1 (measured a).2 (quarantined a).

Definition admitted (a : Account) : Z * Z := (uploaded a, downloaded a).

Definition Record (dir n : Z) (a : Account) : Account :=
  if (DownloadDir <? dir) || (n <=? 0) then a
  else
    let m := dget dir (measured a) in
    mkAccount (quarantined a) (policy a) (uploaded a) (downloaded a) (previouslyReserved a)
      (dset dir (add64 m (Z.min (u64 n) (sub64 (dget dir (admitted a)) m))) (measured a))
      (persistence a) (buckets a) (changed a) (clock a).

(** The instant an expiry is judged at: the trusted clock's when one is set. *)
Definition clock_now (a : Account) (now : Z) (reading : result Z) : result Z :=
  if clock a
  then match reading with Ok t => Ok t | Fail e => Fail (ErrorJoin ErrClock e) end
  else Ok now.

Definition expired (p : Policy) (now : Z) : bool :=
  negb (ExpiresUnixMilli p =? 0) && (ExpiresUnixMilli p <=? UnixMilli now).

Definition allowed (now : Z) (reading : result Z) (dir n : Z) (a : Account) : result unit :=
  now ← clock_now a now reading;
  let p := policy a in
  if quarantined a || negb (Enabled p) || (Mode (dget dir (rates p)) =? Blocked)
  then Fail ErrBlocked
  else if expired p now then Fail ErrExpired
  else
    let prev := previouslyReserved a in
    if (sub64 MaxUint64 prev <? uploaded a) ||
       (sub64 (sub64 MaxUint64 prev) (uploaded a) <? downloaded a) ||
       (sub64 (sub64 (sub64 MaxUint64 prev) (uploaded a)) (downloaded a) <? n)
    then Fail ErrQuota
    else
      let total := add64 (add64 prev (uploaded a)) (downloaded a) in
      if negb (QuotaUnlimited p) &&
         ((CreditCeiling p <? total) || (sub64 (CreditCeiling p) total <? n))
      then Fail ErrQuota else Ok tt.

Definition Check_account (now : Z) (reading : result Z) (a : Account) : result unit :=
  allowed now reading UploadDir 1 a.

Definition ApplyCredit (now : Z) (reading : result Z) (term : string)
    (policyRevision creditRevision ceiling : Z) (a : Account) (e : E)
    : Account * E * result unit :=
  if bool_decide (term <> Term (policy a)) then (a, e, Fail ErrTerm)
  else if negb (policyRevision =? Revision (policy a)) || (creditRevision =? 0) ||
          (MaxInt64 <? creditRevision) || (MaxInt64 <? ceiling)
  then (a, e, Fail ErrRevision)
  else
    let p := with_credit (policy a) creditRevision ceiling in
    if bool_decide (p = policy a) then (a, e, Ok tt)
    else if negb (CreditAdvance (policy a) p) then (a, e, Fail ErrRevision)
    else if quarantined a || negb (Enabled p) ||
            ((Mode (Upload p) =? Blocked) && (Mode (Download p) =? Blocked))
    then (a, e, Fail ErrBlocked)
    else
      match clock_now a now reading with
      | Fail err => (a, e, Fail err)
      | Ok t => if expired p t then (a, e, Fail ErrExpired) else applyLocked now p a e
      end.

Definition authorityTime (now : Z) (reading : result Z) (p : Policy) (a : Account) : result unit :=
  if negb (Enabled p) then Ok tt
  else
    t ← clock_now a now reading;
    if expired p t then Fail ErrExpired else Ok tt.

Definition ValidateAuthority (now : Z) (reading : result Z) (desired : Policy) (a : Account)
    : result unit :=
  if quarantined a then Fail ErrBlocked
  else
    merged ← MergeAuthority (policy a) desired;
    authorityTime now reading merged a.

Definition ApplyAuthority (now : Z) (reading : result Z) (desired : Policy) (a : Account) (e : E)
    : Account * E * result unit :=
  if quarantined a then (a, e, Fail ErrBlocked)
  else
    match MergeAuthority (policy a) desired with
    | Fail err => (a, e, Fail err)
    | Ok merged =>
        match authorityTime now reading merged a with
        | Fail err => (a, e, Fail err)
        | Ok _ => applyLocked now merged a e
        end
    end.

(** *** Spending *)

(** The size one pass asks for: the request, or with [partial] what the credit
    left and the burst can carry. *)
Definition take_size (pass : Pass) (dir requested : Z) (partial : bool) (a : Account) : result Z :=
  if partial then
    _ ← allowed (wall pass) (reading1 pass) dir 1 a;
    let n :=
      if QuotaUnlimited (policy a) then requested
      else Z.min (u64 requested)
             (sub64 (sub64 (sub64 (CreditCeiling (policy a)) (previouslyReserved a))
                       (uploaded a)) (downloaded a)) in
    Ok (match dget dir (buckets a) with Some b => Z.min n (Burst b) | None => n end)
  else Ok requested.

(** The admission itself, once the bucket allowed it: reserve, then count. *)
Definition commit_take (dir n : Z) (a : Account) (e : E) : Account * E * TakeOut :=
  let total := add64 (add64 (add64 (previouslyReserved a) (uploaded a)) (downloaded a)) (u64 n) in
  let '(e', stored) :=
    match persistence a with
    | Some h =>
        match Reserve h (policy a) total e with
        | (e', Ok h') => (e', Ok (Some h'))
        | (e', Fail err) => (e', Fail err)
        end
    | None => (e, Ok None)
    end in
  match stored with
  | Fail err => (a, e', TakeFailed err)
  | Ok h' =>
      (mkAccount (quarantined a) (policy a)
         (if dir =? UploadDir then add64 (uploaded a) (u64 n) else uploaded a)
         (if dir =? UploadDir then downloaded a else add64 (downloaded a) (u64 n))
         (previouslyReserved a) (measured a) h' (buckets a) (changed a) (clock a), e', Took n)
  end.

(** The timer of a pass the bucket refused: the refill time, at least a
    millisecond, cut at the expiry, and again at least a millisecond. *)
Definition wait_timer (pass : Pass) (l : L) (n : Z) (a : Account) : result Z :=
  let delay := Z.max Millisecond (RefillDelay l (wall pass) n) in
  if ExpiresUnixMilli (policy a) =? 0 then Ok (Z.max delay Millisecond)
  else
    expiryNow ← clock_now a (wall pass) (reading3 pass);
    Ok (Z.max (Z.min delay (TimeUnixMilli (ExpiresUnixMilli (policy a)) - expiryNow)) Millisecond).

Definition take_pass (pass : Pass) (dir requested : Z) (partial : bool) (a : Account) (e : E)
    : Account * E * TakeOut :=
  match ctx_err pass with
  | Some err => (a, e, TakeFailed err)
  | None =>
      match take_size pass dir requested partial a with
      | Fail err => (a, e, TakeFailed err)
      | Ok n =>
          match allowed (wall pass) (reading2 pass) dir (u64 n) a with
          | Fail err => (a, e, TakeFailed err)
          | Ok _ =>
              match dget dir (buckets a) with
              | None => commit_take dir n a e
              | Some l =>
                  let '(ok, l') := AllowN l (wall pass) n in
                  let a := with_buckets a (dset dir (Some l') (buckets a)) in
                  if ok then commit_take dir n a e
                  else if Burst l' <? n then (a, e, TakeFailed ErrSize)
                  else
                    match wait_timer pass l' n a with
                    | Fail err => (a, e, TakeFailed err)
                    | Ok timer => (a, e, TakeWait timer (changed a))
                    end
              end
          end
      end
  end.

(** The loop, one pass per element of [passes]; between two passes the mutex is
    free and [other] is what the rest of the node did to the account meanwhile.
    [None]: still waiting when the passes run out. *)
Fixpoint take_loop (passes : list (Pass * Wake * (Account * E -> Account * E)))
    (dir requested : Z) (partial : bool) (a : Account) (e : E)
    : Account * E * option (result Z) :=
  match passes with
  | [] => (a, e, None)
  | (pass, wake, other) :: rest =>
      match take_pass pass dir requested partial a e with
      | (a', e', Took n) => (a', e', Some (Ok n))
      | (a', e', TakeFailed err) => (a', e', Some (Fail err))
      | (a', e', TakeWait _ _) =>
          let '(a'', e'') := other (a', e') in
          match wake with
          | WakeDone err => (a'', e'', Some (Fail err))
          | _ => take_loop rest dir requested partial a'' e''
          end
      end
  end.

Definition take (passes : list (Pass * Wake * (Account * E -> Account * E)))
    (dir requested : Z) (partial : bool) (a : Account) (e : E)
    : Account * E * option (result Z) :=
  if (DownloadDir <? dir) || (requested <=? 0) then (a, e, Some (Fail ErrSize))
  else take_loop passes dir requested partial a e.

Definition Take passes dir n a e :=
  match take passes dir n false a e with
  | (a', e', Some (Ok _)) => (a', e', Some (Ok tt))
  | (a', e', Some (Fail err)) => (a', e', Some (Fail err))
  | (a', e', None) => (a', e', None)
  end.

Definition TakeUpTo passes dir n a e := take passes dir n true a e.

End Account.
