(* ===== verification/LimitsFacts.v ===== *)
(** * Facts about forwarding accounts

    The invariant of an account, that every operation keeps it, and what an
    admission means: who may spend, how much, and what is on disk when they do. *)
From S2P Require Import Prelude Limits.

Lemma validate_rates p :
  validate p = Ok tt -> validate_rate (Upload p) = Ok tt /\ validate_rate (Download p) = Ok tt.
Proof.
  unfold validate. split_guard; [done|]. unfold mbind, result_bind.
  destruct (validate_rate (Upload p)) as [[]|] eqn:?; [|done].
  destruct (validate_rate (Download p)) as [[]|] eqn:?; done.
Qed.

Lemma validate_burst r :
  validate_rate r = Ok tt -> Mode r = Limited -> 1 <= BurstBytes r <= 1048576.
Proof.
  unfold validate_rate, Limited, Blocked, Unlimited. intros Hv Hm. rewrite Hm in Hv. simpl in Hv.
  split_guard_in Hv; [done|lia].
Qed.

(** An advance changes credit or authority and nothing else. *)
Lemma CreditAdvance_spec p q :
  CreditAdvance p q = true <->
  QuotaUnlimited p = false /\ CreditRevision p < CreditRevision q /\
  CreditCeiling p < CreditCeiling q /\
  q = with_credit p (CreditRevision q) (CreditCeiling q).
Proof.
  unfold CreditAdvance. split_guard.
  - split; [done|]. decide_cases.
  - autorewrite with guards. naive_solver.
Qed.

Lemma AuthorityAdvance_spec p q :
  AuthorityAdvance p q = true <->
  Revision p = Revision q /\ Term p = Term q /\ ExpiresUnixMilli p = ExpiresUnixMilli q /\
  QuotaUnlimited p = QuotaUnlimited q /\ AuthorityRevision p < AuthorityRevision q /\
  (Enabled q = true -> Enabled p = true) /\ CreditRevision p <= CreditRevision q /\
  CreditCeiling p <= CreditCeiling q /\
  (CreditRevision p = CreditRevision q -> CreditCeiling p = CreditCeiling q).
Proof.
  destruct p as [t r ar en ex qu cc cr up dn], q as [t' r' ar' en' ex' qu' cc' cr' up' dn'].
  unfold AuthorityAdvance; simpl. split_guard.
  - split; [done|]. intros (?&?&?&?&?&He&?&?&Hc).
    destruct en, en'; try specialize (He eq_refl); decide_cases.
  - autorewrite with guards. destruct_and!. split; [|decide_cases].
    intros _. repeat split; try done; try lia; try by apply dec_stable.
    decide_cases.
Qed.

Lemma apply_policy_typed_credit p r c :
  policy_typed p -> is_u64 r -> is_u64 c -> policy_typed (with_credit p r c).
Proof. intros []. by split. Qed.

Lemma validate_with_credit p r c :
  validate p = Ok tt -> QuotaUnlimited p = false -> validate (with_credit p r c) = Ok tt.
Proof.
  intros Hv Hq. revert Hv. unfold validate. simpl. rewrite Hq. simpl.
  split_guard; [done|]. unfold mbind, result_bind.
  destruct (validate_rate (Upload p)); [|done]. destruct (validate_rate (Download p)); done.
Qed.

Lemma validate_iff p :
  validate p = Ok tt <->
  Term p <> ""%string /\ Revision p <> 0 /\ 0 <= ExpiresUnixMilli p /\
  validate_rate (Upload p) = Ok tt /\ validate_rate (Download p) = Ok tt /\
  (QuotaUnlimited p = true -> CreditCeiling p = 0).
Proof.
  unfold validate. split_guard; [split; [done|]; decide_cases|].
  unfold mbind, result_bind. destruct (validate_rate (Upload p)) as [[]|]; [|naive_solver].
  destruct (validate_rate (Download p)) as [[]|]; [|naive_solver].
  split_guard.
  - split; [done|]. intros (_&_&_&_&_&Hq). destruct G0 as [Hu ?]. by apply Hq in Hu.
  - split; [|done]. intros _. destruct_and!. split_and!; try done. intros; decide_cases.
Qed.

(** A merge keeps the term, revision, expiry and quota kind, never re-enables,
    and never loses credit the account already holds. *)
Lemma MergeAuthority_spec cur desired merged :
  validate cur = Ok tt -> policy_typed cur -> policy_typed desired ->
  MergeAuthority cur desired = Ok merged ->
  validate merged = Ok tt /\ policy_typed merged /\
  (merged = cur \/ AuthorityAdvance cur merged = true) /\
  merged = (if CreditRevision desired <? CreditRevision cur
            then with_credit desired (CreditRevision cur) (CreditCeiling cur) else desired).
Proof.
  intros Hc Htc Htd. unfold MergeAuthority. split_guard; [done|].
  unfold mbind, result_bind. destruct (validate desired) as [[]|] eqn:Hv; [|done].
  do 3 (split_guard; [done|]). destruct_and!.
  match goal with |- (if ?b then _ else _) = _ -> _ => destruct b eqn:Ha; [|done] end.
  intros [= <-].
  assert (validate (if CreditRevision desired <? CreditRevision cur
    then with_credit desired (CreditRevision cur) (CreditCeiling cur) else desired) = Ok tt).
  { destruct (_ <? _); [|done]. rewrite validate_iff in Hv, Hc |- *. simpl.
    destruct Hv as (?&?&?&?&?&_), Hc as (_&_&_&_&_&Hq). split_and!; auto.
    intros ?; apply Hq; congruence. }
  split_and!; [done| | |done].
  - destruct (_ <? _); [|done]. destruct Htc. by apply apply_policy_typed_credit.
  - apply orb_true_iff in Ha as [Ha|Ha]; [left; by apply bool_decide_eq_true_1 in Ha|by right].
Qed.

(** ** How a policy may move

    The order every accepted policy change respects. *)
Record policy_le (p q : Policy) : Prop := {
  le_term : Term q = Term p;
  le_revision : Revision p <= Revision q;
  le_authority : AuthorityRevision p <= AuthorityRevision q;
  le_credit : CreditRevision p <= CreditRevision q;
  le_ceiling : 0 < CreditRevision p -> CreditCeiling p <= CreditCeiling q;
  le_quota : 0 < AuthorityRevision p -> QuotaUnlimited q = QuotaUnlimited p;
  le_enabled : Revision q = Revision p -> Enabled q = true -> Enabled p = true;
  le_expiry : Revision q = Revision p -> ExpiresUnixMilli q = ExpiresUnixMilli p }.

#[global] Instance policy_le_preorder : PreOrder policy_le.
Proof.
  split; [by split|]. intros p q r [] [].
  split; intros; try congruence; try lia.
  - rewrite le_quota1 by lia. auto.
  - apply le_enabled0; [lia|]. apply le_enabled1; [lia|done].
Qed.

Lemma accepted_policy_le p q :
  policy_typed p -> policy_typed q -> Term q = Term p -> stale p q = false ->
  credit_conflict p q = false -> quota_kind_conflict p q = false -> policy_le p q.
Proof.
  intros Hp Hq Ht. unfold stale, credit_conflict, quota_kind_conflict. intros Hs Hc Hk.
  bools. assert (Revision q = Revision p ->
    (Enabled q = true -> Enabled p = true) /\ ExpiresUnixMilli q = ExpiresUnixMilli p) as Hrev.
  { clear Hc Hk. intros Hr. destruct H0 as [[[?| ->]|Ha]|Ha]; [done|done| |].
    - apply CreditAdvance_spec in Ha as (_&_&_&->). done.
    - apply AuthorityAdvance_spec in Ha as (_&_&?&_&_&?&_). auto. }
  destruct Hp, Hq. split; try lia; try (intros; by apply Hrev); try done.
  intros ?. destruct Hk as [[]|]; [lia|done].
Qed.

(** ** The invariant *)

Section Facts.
Context {L H E : Type} `{!RateLimiter L} `{!RateLimiterLaws L}.
Context `{!Persistence H E} `{!PersistenceLaws H E}.

Abbreviation Account := (Account L H).

(** Everything the account has admitted, counting what earlier lives reserved. *)
Definition spent (a : Account) : Z := previouslyReserved a + uploaded a + downloaded a.

(** What is on disk agrees with memory: the same policy, and a high-water mark
    that is exactly what the handle was granted and covers all that was spent. *)
Definition backed (a : Account) (e : E) : Prop :=
  match persistence a with
  | None => True
  | Some h =>
      durable (handle_id h) e = Some (policy a, granted h) /\
      spent a <= granted h <= MaxUint64
  end.

(** A direction has a bucket exactly when its rate is limited, of that burst. *)
Definition bucket_ok (r : Rate) (b : option L) : Prop :=
  match b with
  | Some l => Mode r = Limited /\ Burst l = BurstBytes r
  | None => Mode r <> Limited
  end.

Record account_ok (a : Account) (e : E) : Prop := {
  ok_valid : validate (policy a) = Ok tt;
  ok_typed : policy_typed (policy a);
  ok_prev : 0 <= previouslyReserved a;
  ok_up : 0 <= uploaded a;
  ok_down : 0 <= downloaded a;
  ok_spent : spent a <= MaxUint64;
  ok_measured_up : 0 <= (measured a).1 <= uploaded a;
  ok_measured_down : 0 <= (measured a).2 <= downloaded a;
  ok_bucket_up : bucket_ok (Upload (policy a)) (buckets a).1;
  ok_bucket_down : bucket_ok (Download (policy a)) (buckets a).2;
  ok_env : env_ok e;
  ok_backed : backed a e }.

(** ** Who may spend *)

(** Who may spend [n] more bytes at instant [t], in plain arithmetic. *)
Definition may_spend (t dir n : Z) (a : Account) : Prop :=
  quarantined a = false /\ Enabled (policy a) = true /\
  Mode (dget dir (rates (policy a))) <> Blocked /\
  (ExpiresUnixMilli (policy a) = 0 \/ UnixMilli t < ExpiresUnixMilli (policy a)) /\
  spent a + n <= MaxUint64 /\
  (QuotaUnlimited (policy a) = true \/ spent a + n <= CreditCeiling (policy a)).

Lemma total_exact (a : Account) e :
  account_ok a e ->
  add64 (add64 (previouslyReserved a) (uploaded a)) (downloaded a) = spent a.
Proof.
  intros []. unfold spent in *. rewrite (add64_small (previouslyReserved a)) by machine.
  apply add64_small. machine.
Qed.

Lemma headroom_exact (a : Account) e :
  account_ok a e ->
  sub64 MaxUint64 (previouslyReserved a) = MaxUint64 - previouslyReserved a /\
  sub64 (sub64 MaxUint64 (previouslyReserved a)) (uploaded a) =
    MaxUint64 - previouslyReserved a - uploaded a /\
  sub64 (sub64 (sub64 MaxUint64 (previouslyReserved a)) (uploaded a)) (downloaded a) =
    MaxUint64 - spent a.
Proof.
  intros []. unfold spent in *.
  rewrite (sub64_small MaxUint64) by machine.
  rewrite (sub64_small (MaxUint64 - _)) by machine.
  rewrite sub64_small by machine. lia.
Qed.

Lemma allowed_spec (a : Account) e now rd dir n :
  account_ok a e -> 0 <= n ->
  allowed now rd dir n a = Ok tt <->
  exists t, clock_now a now rd = Ok t /\ may_spend t dir n a.
Proof.
  intros Ha Hn. pose proof Ha as []. pose proof (total_exact a e Ha) as Ht.
  destruct (headroom_exact a e Ha) as (H1 & H2 & H3).
  unfold allowed, mbind, result_bind, may_spend.
  destruct (clock_now a now rd) as [t|] eqn:Ec; [|naive_solver].
  rewrite H3, H2, H1, Ht. clear H1 H2 H3 Ht. unfold expired, spent in *.
  split_guard; [split; [done|]; intros (?&[= <-]&?&?&?&?&?&?); decide_cases|].
  split_guard; [split; [done|]; intros (?&[= <-]&?&?&?&?&?&?); decide_cases|].
  split_guard; [split; [done|]; intros (?&[= <-]&?&?&?&?&?&?); decide_cases|].
  destruct ok_typed0. destruct (QuotaUnlimited (policy a)) eqn:Eq; simpl.
  - split; [|done]. intros _. exists t. destruct_and!.
    split_and!; [done..| |lia|by left]. decide_cases.
  - destruct (decide (previouslyReserved a + uploaded a + downloaded a <= CreditCeiling (policy a))).
    + rewrite (sub64_small (CreditCeiling (policy a))) by machine. split_guard.
      * split; [done|]. intros (?&[= <-]&?&?&?&?&?&?). decide_cases.
      * split; [|done]. intros _. exists t. destruct_and!. split_and!; try done; decide_cases.
    + split_guard; [|lia]. split; [done|]. intros (?&[= <-]&?&?&?&?&?&?). decide_cases.
Qed.

(** A refused spend says why, and the reasons are tried in the code's order. *)
Lemma allowed_fail (a : Account) now rd dir n err :
  allowed now rd dir n a = Fail err ->
  (exists e, clock a = true /\ rd = Fail e /\ err = ErrorJoin ErrClock e) \/
  err = ErrBlocked \/ err = ErrExpired \/ err = ErrQuota.
Proof.
  unfold allowed, mbind, result_bind, clock_now.
  destruct (clock a); [destruct rd as [t|e]|]; repeat split_guard; naive_solver.
Qed.

(** ** Operations keep the invariant *)

Lemma bucket_ok_bucket r : bucket_ok r (bucket r).
Proof.
  unfold bucket. split_guard; simpl; [done|]. split; [done|]. apply burst_new.
Qed.

Lemma bucket_ok_apply now old next b :
  bucket_ok old b -> bucket_ok next (apply_rate now old next b).
Proof.
  intros Hb. unfold apply_rate. split_guard; [by subst|].
  pose proof (bucket_ok_bucket next) as Hn.
  assert (bucket_ok next (match bucket next with
            | Some l => Some (AllowN l now (BurstBytes next)).2 | None => None end)).
  { destruct (bucket next); simpl in *; [|done]. by rewrite burst_allow. }
  destruct b as [l|]; [|done]. destruct (Mode next =? Limited) eqn:Em; [|done].
  simpl. apply Z.eqb_eq in Em. split; [done|]. apply burst_set_burst.
Qed.

Lemma bucket_ok_drain now r b : bucket_ok r b -> bucket_ok r (drain now b).
Proof. destruct b; simpl; [|done]. by rewrite burst_allow. Qed.

Lemma New_ok p (a : Account) e :
  env_ok e -> policy_typed p -> New p = Ok a -> account_ok a e.
Proof.
  unfold New, mbind, result_bind. intros He Hp.
  destruct (validate p) as [[]|] eqn:Hv; [|done]. intros [= <-].
  split; simpl; auto using bucket_ok_bucket; unfold spent, backed; simpl; first [done|lia|machine].
Qed.

Lemma Quarantine_ok (a : Account) e : account_ok a e -> account_ok (Quarantine a) e.
Proof. intros []. unfold Quarantine. destruct (quarantined a) eqn:?; by split. Qed.

Lemma SetClock_ok b (a : Account) e : account_ok a e -> account_ok (SetClock b a) e.
Proof. intros []. by split. Qed.

(** Measured usage never passes admitted usage, whatever is recorded. *)
Lemma Record_ok dir n (a : Account) e :
  account_ok a e -> 0 <= n <= MaxInt -> account_ok (Record dir n a) e.
Proof.
  intros Ha Hn. pose proof Ha as []. unfold Record. split_guard; [done|].
  assert (forall m x, 0 <= m <= x -> x <= MaxUint64 ->
     0 <= add64 m (Z.min (u64 n) (sub64 x m)) <= x) as Hrec.
  { intros m x ??. rewrite sub64_small by machine. rewrite u64_small by machine.
    rewrite add64_small by machine. machine. }
  unfold spent in *.
  split; simpl; try done; unfold dset, dget, admitted; destruct (dir =? UploadDir); simpl;
    try done; apply Hrec; machine.
Qed.

(** What an operation on [a] may do to the environment. *)
Definition moves (a : Account) (e e' : E) : Prop :=
  match persistence a with
  | None => e' = e
  | Some h => env_step (handle_id h) e e'
  end.

Lemma moves_refl a e : moves a e e.
Proof. unfold moves. destruct (persistence a); [apply env_step_refl|done]. Qed.
Hint Resolve moves_refl : core.

(** Every outcome of [applyLocked]: a refusal that changes no durable value, a
    replay that changes nothing at all, or the new policy in memory and on disk. *)
Lemma applyLocked_cases now p (a a' : Account) e e' r :
  account_ok a e -> validate p = Ok tt -> policy_typed p ->
  applyLocked now p a e = (a', e', r) ->
  account_ok a' e' /\
  uploaded a' = uploaded a /\ downloaded a' = downloaded a /\
  previouslyReserved a' = previouslyReserved a /\ measured a' = measured a /\
  quarantined a' = quarantined a /\ clock a' = clock a /\ persistence a' = persistence a /\
  moves a e e' /\
  match r with
  | Fail _ => a' = a
  | Ok _ => policy a' = p /\ Term p = Term (policy a) /\ stale (policy a) p = false /\
      credit_conflict (policy a) p = false /\ quota_kind_conflict (policy a) p = false /\
      changed a' = (if bool_decide (p = policy a) then changed a else S (changed a))
  end.
Proof.
  intros Ha Hv Hp. pose proof Ha as []. unfold applyLocked.
  split_guard; [intros [= <- <- <-]; split_and!; auto|]. apply dec_stable in G.
  do 3 (split_guard; [intros [= <- <- <-]; split_and!; auto|]).
  destruct (bool_decide (p = policy a)) eqn:Ep.
  { intros [= <- <- <-]. apply bool_decide_eq_true_1 in Ep. subst p. split_and!; auto. }
  destruct (match persistence a with Some h => StorePolicy h p e | None => (e, Ok tt) end)
    as [e1 st] eqn:Es.
  assert (moves a e e1 /\ env_ok e1) as [Hmv He1].
  { unfold moves. destruct (persistence a) as [h|]; [|by simplify_eq].
    pose proof (store_policy_step h p e ok_env0) as He. rewrite Es in He.
    eauto using env_step_ok. }
  destruct st as [[]|err]; intros [= <- <- <-].
  - split_and!; auto. split; simpl; auto using bucket_ok_apply.
    revert ok_backed0. unfold backed. simpl. destruct (persistence a) as [h|]; [|done].
    intros [Hd Hg]. apply store_policy_ok in Es as (q & r' & Hq & Hq'); [|done].
    rewrite Hd in Hq. simplify_eq. done.
  - split_and!; auto. split; auto. revert ok_backed0. unfold backed.
    destruct (persistence a) as [h|]; [|done]. apply store_policy_fail in Es; [|done].
    by rewrite Es.
Qed.

(** What every operation but [take] does to an account: it may change the policy,
    and it touches neither the admitted counters nor another handle's record. *)
Definition no_spend (a a' : Account) (e e' : E) : Prop :=
  account_ok a' e' /\ admitted a' = admitted a /\ previouslyReserved a' = previouslyReserved a /\
  persistence a' = persistence a /\ quarantined a' = quarantined a /\ clock a' = clock a /\
  moves a e e' /\ policy_le (policy a) (policy a').

Lemma applyLocked_no_spend now p (a a' : Account) e e' r :
  account_ok a e -> validate p = Ok tt -> policy_typed p ->
  applyLocked now p a e = (a', e', r) -> no_spend a a' e e'.
Proof.
  intros Ha Hv Hp Hr. apply applyLocked_cases in Hr; auto.
  destruct Hr as (?&?&?&?&?&?&?&?&?&Hr). unfold no_spend, admitted. split_and!; auto; [congruence|].
  destruct r; [|by subst]. destruct Ha. destruct Hr as (->&?&?&?&?&_). by apply accepted_policy_le.
Qed.

Lemma no_spend_refl (a : Account) e : account_ok a e -> no_spend a a e e.
Proof. intros ?. unfold no_spend. by split_and!; auto. Qed.

Lemma Apply_no_spend now p (a a' : Account) e e' r :
  account_ok a e -> policy_typed p -> Apply now p a e = (a', e', r) -> no_spend a a' e e'.
Proof.
  unfold Apply. intros Ha Hp. destruct (validate p) as [[]|] eqn:Hv.
  - by apply applyLocked_no_spend.
  - intros [= <- <- <-]. by apply no_spend_refl.
Qed.

Lemma ApplyCredit_no_spend now rd term pr cr ceil (a a' : Account) e e' r :
  account_ok a e -> is_u64 cr -> is_u64 ceil ->
  ApplyCredit now rd term pr cr ceil a e = (a', e', r) -> no_spend a a' e e'.
Proof.
  intros Ha Hcr Hce. unfold ApplyCredit.
  split_guard; [intros [= <- <- <-]; by apply no_spend_refl|].
  split_guard; [intros [= <- <- <-]; by apply no_spend_refl|]. cbv zeta.
  split_guard; [intros [= <- <- <-]; by apply no_spend_refl|].
  destruct (CreditAdvance (policy a) _) eqn:Hadv; simpl;
    [|intros [= <- <- <-]; by apply no_spend_refl].
  split_guard; [intros [= <- <- <-]; by apply no_spend_refl|].
  destruct (clock_now a now rd) as [t|]; [|intros [= <- <- <-]; by apply no_spend_refl].
  split_guard; [intros [= <- <- <-]; by apply no_spend_refl|].
  pose proof Ha as []. apply applyLocked_no_spend; auto using apply_policy_typed_credit.
  apply validate_with_credit; [done|]. by apply CreditAdvance_spec in Hadv as [? _].
Qed.

Lemma ApplyAuthority_no_spend now rd desired (a a' : Account) e e' r :
  account_ok a e -> policy_typed desired ->
  ApplyAuthority now rd desired a e = (a', e', r) -> no_spend a a' e e'.
Proof.
  intros Ha Hd. unfold ApplyAuthority.
  split_guard; [intros [= <- <- <-]; by apply no_spend_refl|].
  destruct (MergeAuthority (policy a) desired) as [m|] eqn:Hm;
    [|intros [= <- <- <-]; by apply no_spend_refl].
  destruct (authorityTime now rd m a); [|intros [= <- <- <-]; by apply no_spend_refl].
  pose proof Ha as []. apply MergeAuthority_spec in Hm as (?&?&_); auto.
  by apply applyLocked_no_spend.
Qed.

(** The policy after each of the three ways to change it: untouched on failure. *)
Lemma Apply_policy now p (a a' : Account) e e' r :
  account_ok a e -> policy_typed p -> Apply now p a e = (a', e', r) ->
  match r with Fail _ => a' = a | Ok _ => policy a' = p end.
Proof.
  unfold Apply. intros Ha Hp. destruct (validate p) as [[]|] eqn:Hv; [|by intros [= <- <- <-]].
  intros Hr. apply applyLocked_cases in Hr; auto. destruct Hr as (_&_&_&_&_&_&_&_&_&Hr).
  destruct r; naive_solver.
Qed.

Lemma ApplyCredit_policy now rd term pr cr ceil (a a' : Account) e e' r :
  account_ok a e -> is_u64 cr -> is_u64 ceil ->
  ApplyCredit now rd term pr cr ceil a e = (a', e', r) ->
  match r with Fail _ => a' = a | Ok _ => policy a' = with_credit (policy a) cr ceil end.
Proof.
  intros Ha Hcr Hce. unfold ApplyCredit.
  do 2 (split_guard; [by intros [= <- <- <-]|]). cbv zeta.
  split_guard; [by intros [= <- <- <-]|].
  destruct (CreditAdvance (policy a) _) eqn:Hadv; simpl; [|by intros [= <- <- <-]].
  split_guard; [by intros [= <- <- <-]|].
  destruct (clock_now a now rd) as [t|]; [|by intros [= <- <- <-]].
  split_guard; [by intros [= <- <- <-]|]. pose proof Ha as [].
  intros Hr. apply applyLocked_cases in Hr; auto using apply_policy_typed_credit.
  - destruct Hr as (_&_&_&_&_&_&_&_&_&Hr). destruct r; naive_solver.
  - apply validate_with_credit; [done|]. by apply CreditAdvance_spec in Hadv as [? _].
Qed.

Lemma ApplyAuthority_policy now rd desired (a a' : Account) e e' r :
  account_ok a e -> policy_typed desired ->
  ApplyAuthority now rd desired a e = (a', e', r) ->
  match r with
  | Fail _ => a' = a
  | Ok _ => MergeAuthority (policy a) desired = Ok (policy a') /\ quarantined a = false
  end.
Proof.
  intros Ha Hd. unfold ApplyAuthority.
  destruct (quarantined a); [by intros [= <- <- <-]|].
  destruct (MergeAuthority (policy a) desired) as [m|] eqn:Hm; [|by intros [= <- <- <-]].
  destruct (authorityTime now rd m a); [|by intros [= <- <- <-]].
  pose proof Ha as []. destruct (MergeAuthority_spec _ _ _ ok_valid0 ok_typed0 Hd Hm) as (?&?&_).
  intros Hr. apply applyLocked_cases in Hr; auto. destruct Hr as (_&_&_&_&_&_&_&_&_&Hr).
  destruct r; [|done]. by destruct Hr as [-> _].
Qed.

(** A restored account starts from its durable mark with an empty bucket. *)
Lemma Restore_ok n1 n2 p reserved h e :
  env_ok e -> policy_typed p -> validate p = Ok tt -> 0 <= reserved <= MaxUint64 ->
  durable (handle_id h) e = Some (p, reserved) -> granted h = reserved ->
  exists a : Account, Restore_account n1 n2 p reserved (Some h) = Ok a /\ account_ok a e /\
    spent a = reserved /\ persistence a = Some h /\ policy a = p /\ quarantined a = false.
Proof.
  intros He Hp Hv Hr Hd Hg. unfold Restore_account, New, mbind, result_bind. rewrite Hv. simpl.
  eexists. split_and!; [done| |unfold spent; simpl; lia|done..].
  split; simpl; auto using bucket_ok_drain, bucket_ok_bucket; unfold spent, backed; simpl;
    try lia. rewrite Hg. split; [done|]. unfold spent; simpl; lia.
Qed.

(** ** Spending *)

Lemma with_buckets_ok (a : Account) e dir l l' :
  account_ok a e -> dget dir (buckets a) = Some l -> Burst l' = Burst l ->
  account_ok (with_buckets a (dset dir (Some l') (buckets a))) e.
Proof.
  intros [] Hl Hb. split; simpl; auto; unfold dget, dset in *; destruct (dir =? UploadDir); simpl;
    auto; rewrite Hl in *; simpl in *; intuition congruence.
Qed.

(** How an admission moves the durable side: the same handle, a mark that only
    grows and never past a finite ceiling, nobody else's record touched. *)
Definition handle_step (n : Z) (a a' : Account) (e e' : E) : Prop :=
  match persistence a, persistence a' with
  | None, None => True
  | Some h, Some h' =>
      handle_id h' = handle_id h /\ granted h <= granted h' /\
      (granted h' = granted h \/ QuotaUnlimited (policy a) = true \/
       granted h' <= CreditCeiling (policy a)) /\
      (granted h' = granted h \/ granted h' <= spent a + n + reserve_block)
  | _, _ => False
  end /\
  moves a e e'.

(** What one granted admission of [n] bytes does. *)
Definition spends (dir n : Z) (a a' : Account) (e e' : E) : Prop :=
  account_ok a' e' /\ policy a' = policy a /\ quarantined a' = quarantined a /\
  clock a' = clock a /\ previouslyReserved a' = previouslyReserved a /\ measured a' = measured a /\
  changed a' = changed a /\
  admitted a' = dset dir (dget dir (admitted a) + n) (admitted a) /\ handle_step n a a' e e'.

Lemma commit_take_spec dir n (a a' : Account) e e' out :
  account_ok a e -> 1 <= n <= MaxInt -> spent a + n <= MaxUint64 ->
  commit_take dir n a e = (a', e', out) ->
  match out with
  | Took m => m = n /\ spends dir n a a' e e'
  | TakeFailed _ => no_spend a a' e e' /\ policy a' = policy a /\ changed a' = changed a
  | TakeWait _ _ => False
  end.
Proof.
  intros Ha Hn Hs. pose proof Ha as []. unfold commit_take.
  rewrite (total_exact a e Ha). rewrite (u64_small n) by machine.
  rewrite (add64_small (spent a)) by (unfold spent in *; machine).
  assert (forall h', env_ok e' -> (match h' with
     | None => True
     | Some h => durable (handle_id h) e' = Some (policy a, granted h) /\
         spent a + n <= granted h <= MaxUint64 end) ->
     handle_step n a (mkAccount (quarantined a) (policy a) (uploaded a) (downloaded a)
         (previouslyReserved a) (measured a) h' (buckets a) (changed a) (clock a)) e e' ->
     spends dir n a (mkAccount (quarantined a) (policy a)
         (if dir =? UploadDir then add64 (uploaded a) n else uploaded a)
         (if dir =? UploadDir then downloaded a else add64 (downloaded a) n)
         (previouslyReserved a) (measured a) h' (buckets a) (changed a) (clock a)) e e') as Hgo.
  { intros h' He' Hh Hst. unfold spends. split_and!; auto.
    - assert (spent (mkAccount (quarantined a) (policy a)
         (if dir =? UploadDir then add64 (uploaded a) n else uploaded a)
         (if dir =? UploadDir then downloaded a else add64 (downloaded a) n)
         (previouslyReserved a) (measured a) h' (buckets a) (changed a) (clock a)) = spent a + n)
        as Hsp.
      { unfold spent in *; simpl. destruct (dir =? UploadDir);
          rewrite add64_small by machine; lia. }
      split; try rewrite Hsp; auto;
        try (unfold spent in *; simpl; destruct (dir =? UploadDir);
             try rewrite add64_small by machine; machine).
      unfold backed. rewrite Hsp. by destruct h'.
    - unfold admitted, dset, dget; simpl. destruct (dir =? UploadDir); simpl;
        rewrite add64_small by (unfold spent in *; machine); done. }
  destruct (persistence a) as [h|] eqn:Hp.
  - assert (is_u64 (spent a + n)) by (unfold spent in *; machine).
    pose proof (reserve_step h (policy a) (spent a + n) e ok_env0) as Hst.
    destruct (Reserve h (policy a) (spent a + n) e) as [e1 [h'|err]] eqn:Hr; intros [= <- <- <-];
      simpl in Hst; pose proof (env_step_ok _ _ _ ok_env0 Hst) as He;
      assert (moves a e e1) as Hmv by (unfold moves; by rewrite Hp).
    + split; [done|]. apply Hgo; [done| |unfold handle_step; simpl; rewrite Hp; split; [|done]];
      unfold backed in ok_backed0; rewrite Hp in ok_backed0;
      apply reserve_ok in Hr as (Hid & [(?&->&->)|(?&?&?&?&Hc&?)]); auto; rewrite ?Hid;
        destruct ok_backed0; try (split; auto; lia); split_and!; auto; try lia.
      destruct (QuotaUnlimited (policy a)); auto.
    + split_and!; auto. unfold no_spend. split_and!; auto; [|done].
      split; auto. unfold backed in *. rewrite Hp in *. apply reserve_fail in Hr; auto. by rewrite Hr.
  - intros [= <- <- <-]. split; [done|]. apply (Hgo None); auto. unfold handle_step. by rewrite Hp.
Qed.

Lemma bucket_burst (a : Account) e dir l :
  account_ok a e -> dget dir (buckets a) = Some l ->
  Mode (dget dir (rates (policy a))) = Limited /\
  Burst l = BurstBytes (dget dir (rates (policy a))) /\ 1 <= Burst l <= 1048576.
Proof.
  intros [] Hl. apply validate_rates in ok_valid0 as [Hu Hd].
  unfold dget, rates in *. simpl in *.
  destruct (dir =? UploadDir); rewrite Hl in *; simpl in *.
  - destruct ok_bucket_up0 as [Hm ->]. auto using validate_burst.
  - destruct ok_bucket_down0 as [Hm ->]. auto using validate_burst.
Qed.

(** A partial take asks for the smallest of the request, the credit left and the
    burst; a full one asks for the request. *)
Lemma take_size_spec pass dir req partial (a : Account) e n :
  account_ok a e -> 1 <= req <= MaxInt ->
  take_size pass dir req partial a = Ok n ->
  1 <= n <= req /\
  (partial = false -> n = req) /\
  (partial = true -> n =
    let m := if QuotaUnlimited (policy a) then req
             else Z.min req (CreditCeiling (policy a) - spent a) in
    match dget dir (buckets a) with Some l => Z.min m (Burst l) | None => m end).
Proof.
  intros Ha Hreq. pose proof Ha as []. unfold take_size.
  destruct partial; [|intros [= <-]; split_and!; done || lia].
  unfold mbind, result_bind. destruct (allowed _ _ _ 1 a) as [[]|] eqn:Hal; [|done].
  apply (allowed_spec a e) in Hal as (t & _ & Hmay); [|done|lia].
  destruct Hmay as (_&_&_&_&_&Hq). destruct ok_typed0. unfold spent in *.
  assert (QuotaUnlimited (policy a) = false ->
     sub64 (sub64 (sub64 (CreditCeiling (policy a)) (previouslyReserved a)) (uploaded a))
        (downloaded a) = CreditCeiling (policy a) - spent a) as Hrem.
  { intros Hu. destruct Hq; [congruence|]. unfold spent.
    rewrite (sub64_small (CreditCeiling _)) by machine.
    rewrite (sub64_small (_ - previouslyReserved a)) by machine.
    rewrite sub64_small by machine. lia. }
  rewrite (u64_small req) by machine. unfold spent in *.
  destruct (dget dir (buckets a)) as [l|] eqn:Hl.
  - destruct (bucket_burst a e dir l Ha Hl) as (_&_&?).
    destruct (QuotaUnlimited (policy a)) eqn:Hu; [|rewrite Hrem by done];
      intros [= <-]; split_and!; try done; destruct Hq; try congruence; lia.
  - destruct (QuotaUnlimited (policy a)) eqn:Hu; [|rewrite Hrem by done];
      intros [= <-]; split_and!; try done; destruct Hq; try congruence; lia.
Qed.

(** One pass of [take], on every branch. *)
Lemma take_pass_spec pass dir req partial (a a' : Account) e e' out :
  account_ok a e -> 1 <= req <= MaxInt ->
  take_pass pass dir req partial a e = (a', e', out) ->
  match out with
  | Took n =>
      spends dir n a a' e e' /\
      take_size pass dir req partial a = Ok n /\
      exists t, clock_now a (wall pass) (reading2 pass) = Ok t /\ may_spend t dir n a
  | _ => no_spend a a' e e' /\ policy a' = policy a /\ changed a' = changed a
  end.
Proof.
  intros Ha Hreq. unfold take_pass.
  destruct (ctx_err pass); [intros [= <- <- <-]; auto using no_spend_refl|].
  destruct (take_size pass dir req partial a) as [n|] eqn:Hsz;
    [|intros [= <- <- <-]; auto using no_spend_refl].
  destruct (take_size_spec _ _ _ _ _ _ _ Ha Hreq Hsz) as (Hn & _).
  rewrite (u64_small n) by machine.
  destruct (allowed _ _ dir n a) as [[]|] eqn:Hal;
    [|intros [= <- <- <-]; auto using no_spend_refl].
  apply (allowed_spec a e) in Hal as (t & Ht & Hmay); [|done|lia].
  assert (spent a + n <= MaxUint64) by (unfold may_spend in Hmay; tauto).
  destruct (dget dir (buckets a)) as [l|] eqn:Hl.
  - destruct (AllowN l (wall pass) n) as [ok l'] eqn:Hal.
    assert (Burst l' = Burst l) as Hb by (rewrite <-(burst_allow l (wall pass) n); by rewrite Hal).
    pose proof (with_buckets_ok a e dir l l' Ha Hl Hb) as Ha1.
    set (a1 := with_buckets a _) in *.
    assert (no_spend a a1 e e) as Hns by (unfold no_spend; by split_and!; auto).
    destruct ok.
    + intros Hc. apply commit_take_spec in Hc; [|done..|lia|done].
      destruct out; [|naive_solver|done]. destruct Hc as [-> Hc]. eauto 10.
    + split_guard; [intros [= <- <- <-]; auto|].
      destruct (wait_timer _ _ _ _); intros [= <- <- <-]; auto.
  - intros Hc. apply commit_take_spec in Hc; [|done..|lia|done].
    destruct out; [|naive_solver|done]. destruct Hc as [-> Hc]. eauto 10.
Qed.

End Facts.
