(* ===== verification/Conn.v ===== *)
(** * Metered connections: internal/node/limits/conn.go and writer.go

    A [Conn] passes every byte through the account: what was read but not yet
    admitted waits in [pending].  The wrapped connection and the wrapped writer
    are parameters: each call on them is an input, its answer within the
    contract of [io.Reader] and [io.Writer]. *)
From S2P Require Import Prelude Limits LimitsFacts.

Definition ErrShortWrite : error := ErrorText "short write".

Record Conn := mkConn { pending : list Byte.byte; readErr : option error }.

(** WrapConn *)
Definition WrapConn : Conn := mkConn [] None.

Section Conn.
Context {L H E : Type} `{!RateLimiter L} `{!Persistence H E}.

Abbreviation Account := (Account L H).
Abbreviation Passes := (list (Pass * Wake * (Account * E -> Account * E))).

(** [Conn.Read] with a buffer of [len] bytes.  [net] is what the wrapped
    connection answers if it is asked: the bytes it put in the buffer and its
    error.  The result is the bytes delivered and the error, [None] while the
    admission still waits. *)
Definition Conn_Read (passes : Passes) (len : nat) (net : list Byte.byte * option error)
    (c : Conn) (a : Account) (e : E)
    : Conn * Account * E * option (list Byte.byte * option error) :=
  if bool_decide (len = 0%nat) then (c, a, e, Some ([], None))
  else
    let fetched :=
      if bool_decide (pending c <> []) then
        inl (mkConn (skipn len (pending c)) (readErr c), firstn len (pending c))
      else
        match readErr c with
        | Some err => inr err
        | None => inl (mkConn [] net.2, net.1)
        end in
    match fetched with
    | inr err => (c, a, e, Some ([], Some err))
    | inl (c, p) =>
        if bool_decide (p = []) then (c, a, e, Some ([], readErr c))
        else
          match TakeUpTo passes UploadDir (Z.of_nat (length p)) a e with
          | (a, e, None) => (c, a, e, None)
          | (a, e, Some (Fail err)) => (c, a, e, Some ([], Some err))
          | (a, e, Some (Ok allowed)) =>
              let k := Z.to_nat allowed in
              let c := if bool_decide (k < length p)%nat
                       then mkConn (skipn k p ++ pending c) (readErr c) else c in
              (c, Record UploadDir allowed a, e, Some (firstn k p, None))
          end
    end.

(** The loop of [Conn.Write] and [Writer.Write]: each element of [rounds] is one
    iteration, the passes of its admission and the answer of the wrapped writer
    given the admitted chunk.  The result is the count written and the error,
    [None] while an admission waits or the rounds run out. *)
Fixpoint write_loop (dir : Z)
    (rounds : list (Passes * (list Byte.byte -> nat * option error)))
    (written : nat) (data : list Byte.byte) (a : Account) (e : E)
    : Account * E * list Byte.byte * option (nat * option error) :=
  match data with
  | [] => (a, e, [], Some (written, None))
  | _ =>
      match rounds with
      | [] => (a, e, [], None)
      | (passes, net) :: rest =>
          match TakeUpTo passes dir (Z.of_nat (length data)) a e with
          | (a, e, None) => (a, e, [], None)
          | (a, e, Some (Fail err)) => (a, e, [], Some (written, Some err))
          | (a, e, Some (Ok allowed)) =>
              let chunk := firstn (Z.to_nat allowed) data in
              let '(n, err) := net chunk in
              let a := Record dir (Z.of_nat n) a in
              let sent := firstn n chunk in
              match err with
              | Some err => (a, e, sent, Some ((written + n)%nat, Some err))
              | None =>
                  if bool_decide (n <> Z.to_nat allowed)
                  then (a, e, sent, Some ((written + n)%nat, Some ErrShortWrite))
                  else
                    let '(a, e, more, r) := write_loop dir rest (written + n)%nat (skipn n data) a e in
                    (a, e, sent ++ more, r)
              end
          end
      end
  end.

Definition Conn_Write rounds data a e := write_loop DownloadDir rounds 0 data a e.

Definition Writer_Write (dir : Z) rounds data a e := write_loop dir rounds 0 data a e.

End Conn.
