(* ===== verification/Authority.v ===== *)
(** * Wire validation of grants, credits and authority updates: internal/node/authority

    The validators a node runs on what the control plane sends, and the control
    plane on what a node reports.  Identifiers are UUIDs of github.com/google/uuid,
    a class parameter; protobuf messages are records, a nil message is [None]. *)
From S2P Require Import Prelude Limits.

(** github.com/google/uuid: a UUID is its 128-bit value, [uuid.Nil] is zero. *)
Class UUIDs := {
  uuid_Parse : string -> option Z;
  uuid_String : Z -> string }.

(** [uuid.Parse] refuses the empty string: no accepted form has length 0. *)
Class UUIDLaws `{!UUIDs} := { uuid_Parse_empty : uuid_Parse ""%string = None }.

Definition ValidID `{!UUIDs} (value : string) : bool :=
  match uuid_Parse value with
  | Some id => negb (id =? 0) && bool_decide (uuid_String id = value)
  | None => false
  end.

(** [^[a-z][a-z0-9-]{0,47}$] *)
Definition lower (c : Ascii.ascii) : bool := (97 <=? Z.of_nat (Ascii.nat_of_ascii c)) && (Z.of_nat (Ascii.nat_of_ascii c) <=? 122).
Definition name_char (c : Ascii.ascii) : bool :=
  lower c || (48 <=? Z.of_nat (Ascii.nat_of_ascii c)) && (Z.of_nat (Ascii.nat_of_ascii c) <=? 57) || (Z.of_nat (Ascii.nat_of_ascii c) =? 45).
Definition runtimeName (s : string) : bool :=
  match String.list_ascii_of_string s with
  | [] => false
  | c :: rest => lower c && (Z.of_nat (length rest) <=? 47) && forallb name_char rest
  end.

Definition MaxEntries : nat := 1024.
Definition MaxCreditUpdates : nat := 128.
Definition MaxAuthorityUpdates : nat := 128.

Record Credit := mkCredit {
  cGrantID : string;
  cClientID : string;
  cTermID : string;
  cPolicyRevision : Z;
  cCreditRevision : Z;
  cCreditCeiling : Z }.

Record PolicyUpdate := mkPolicyUpdate {
  uGrantID : string;
  uClientID : string;
  uPolicy : Policy }.

(** nodev1.GrantAuthority, and authority.Grant: the same fields. *)
Record GrantAuthority := mkGrantAuthority {
  gGrantID : string;
  gClientID : string;
  gTermID : string;
  gPolicyRevision : Z;
  gAuthorityRevision : Z;
  gCreditCeiling : Z;
  gQuotaUnlimited : bool;
  gReservedHighWater : Z;
  gBurnedHighWater : Z;
  gAdmissionHighWater : Z;
  gAdmissionKnown : bool;
  gSpendableBytes : Z;
  gSpendableKnown : bool;
  gAuthorizationActive : bool }.

Record Page := mkPage { pGrants : list GrantAuthority; pNext : string }.

Section Validation.
Context `{!UUIDs}.

(** The loop over the credits, with the [seen] set of grant ids. *)
Fixpoint validate_credits (seen : gset string) (credits : list Credit) : result unit :=
  match credits with
  | [] => Ok tt
  | c :: rest =>
      if negb (ValidID (cGrantID c)) || negb (ValidID (cClientID c)) ||
         negb (ValidID (cTermID c)) || (cPolicyRevision c =? 0) ||
         (MaxInt64 <? cPolicyRevision c) || (cCreditRevision c =? 0) ||
         (MaxInt64 <? cCreditRevision c) || (cCreditCeiling c =? 0) ||
         (MaxInt64 <? cCreditCeiling c) || bool_decide (cGrantID c ∈ seen)
      then Fail ErrReport
      else validate_credits ({[ cGrantID c ]} ∪ seen) rest
  end.

Definition ValidateCredits (credits : list Credit) : result unit :=
  if bool_decide (length credits = 0%nat) || bool_decide (MaxCreditUpdates < length credits)%nat
  then Fail ErrReport
  else validate_credits ∅ credits.

Definition ValidateGrant (grant : option GrantAuthority) : result unit :=
  match grant with
  | None => Fail ErrReport
  | Some g =>
      if MaxInt64 <? gAuthorityRevision g then Fail ErrReport
      else if negb (ValidID (gGrantID g)) || negb (ValidID (gClientID g)) ||
              negb (ValidID (gTermID g)) || (gPolicyRevision g =? 0) ||
              (MaxInt64 <? gPolicyRevision g) || (MaxInt64 <? gCreditCeiling g) ||
              (MaxInt64 <? gReservedHighWater g) || (MaxInt64 <? gAdmissionHighWater g) ||
              (MaxInt64 <? gSpendableBytes g)
      then Fail ErrReport
      else if (gQuotaUnlimited g && negb (gCreditCeiling g =? 0)) ||
              (negb (gAdmissionKnown g) && negb (gAdmissionHighWater g =? 0)) ||
              (negb (gSpendableKnown g) && negb (gSpendableBytes g =? 0))
      then Fail ErrReport
      else if gAdmissionKnown g && (gReservedHighWater g <? gAdmissionHighWater g)
      then Fail ErrReport
      else if (gReservedHighWater g <? gBurnedHighWater g) ||
              (gAdmissionKnown g && negb (gBurnedHighWater g =? 0))
      then Fail ErrReport
      else if negb (gQuotaUnlimited g) && (gCreditCeiling g <? gReservedHighWater g)
      then Fail ErrReport
      else if gSpendableKnown g then
        if gQuotaUnlimited g ||
           (sub64 (gCreditCeiling g) (gBurnedHighWater g) <? gSpendableBytes g) ||
           (negb (gAuthorizationActive g) && negb (gSpendableBytes g =? 0))
        then Fail ErrReport
        else if gAdmissionKnown g then
          let remaining :=
            if gAuthorizationActive g && (gAdmissionHighWater g <? gCreditCeiling g)
            then sub64 (gCreditCeiling g) (gAdmissionHighWater g) else 0 in
          if negb (remaining =? gSpendableBytes g) then Fail ErrReport else Ok tt
        else Ok tt
      else Ok tt
  end.

End Validation.
