(* ===== verification/Governor.v ===== *)
(** * The grant store of a runtime: internal/node/governor

    A [Store] keeps one durable record per grant in a bbolt bucket and one live
    [Account] per record; [clients] says which grant a client currently holds.
    A [backing] is the account's persistence: it stores policies and hands out
    reservation blocks.

    The bucket holds JSON: a value either decodes to a record or is corrupt.  A
    commit can fail, and the failures to come are part of the database state, so
    that every error path is reachable. *)
From S2P Require Import Prelude Limits LimitsFacts Authority.

Record Grant := mkGrant {
  ID : string;
  ClientID : string;
  RateRevision : Z;
  gPolicy : Policy }.

Record record := mkRecord { rGrant : Grant; Reserved : Z; Suspended : bool }.

Inductive stored := Stored (r : record) | Corrupt.

(** The grants bucket, the journal id of the identity bucket, and for each commit
    to come whether it fails. *)
Record DB := mkDB {
  grants : gmap string stored;
  journal : option string;
  faults : list bool }.

Definition ErrIO : error := ErrorText "commit failed".
Definition ErrJSON : error := ErrorText "invalid JSON".

(** [json.Unmarshal] of a bucket value; a missing key decodes as an error. *)
Definition unmarshal (v : option stored) : result record :=
  match v with Some (Stored r) => Ok r | _ => Fail ErrJSON end.

Definition save (r : record) (g : gmap string stored) : gmap string stored :=
  <[ ID (rGrant r) := Stored r ]> g.

(** [db.Update] and [db.Batch]: an error of the function rolls back, and so does
    a failed commit. *)
Definition db_update (f : gmap string stored -> result (gmap string stored)) (d : DB)
    : DB * result unit :=
  match f (grants d) with
  | Fail e => (d, Fail e)
  | Ok g =>
      match faults d with
      | true :: rest => (mkDB (grants d) (journal d) rest, Fail ErrIO)
      | false :: rest => (mkDB g (journal d) rest, Ok tt)
      | [] => (mkDB g (journal d) [], Ok tt)
      end
  end.

(** ** The backing of an account *)

Record backing := mkBacking { b_id : string; b_reserved : Z }.

Definition minimumReservationBlock : Z := 262144.
Definition maximumReservationBlock : Z := 8388608.

Definition reservationSize (p : Policy) : Z :=
  if (Mode (Upload p) =? Unlimited) || (Mode (Download p) =? Unlimited)
  then maximumReservationBlock
  else Z.max minimumReservationBlock
         (Z.min maximumReservationBlock
            (add64 (BitsPerSecond (Upload p)) (BitsPerSecond (Download p)) / 80)).

Definition with_policy (g : Grant) (p : Policy) : Grant :=
  mkGrant (ID g) (ClientID g)
    (if negb (AuthorityRevision p =? 0) then AuthorityRevision p else RateRevision g) p.

Definition backing_StorePolicy (b : backing) (p : Policy) (d : DB) : DB * result unit :=
  db_update (fun g =>
    r ← unmarshal (g !! b_id b);
    let q := gPolicy (rGrant r) in
    if bool_decide (Term q <> Term p) || (AuthorityRevision p <? AuthorityRevision q) ||
       ((Revision p <=? Revision q) && negb (CreditAdvance q p) && negb (AuthorityAdvance q p))
    then Fail ErrRevision
    else Ok (save (mkRecord (with_policy (rGrant r) p) (Reserved r) (Suspended r)) g)) d.

(** The mark a reservation for [total] asks for: a block ahead, within the ceiling. *)
Definition reserve_next (p : Policy) (total : Z) : Z :=
  let block := reservationSize p in
  let next := if total <=? sub64 MaxUint64 block then add64 total block else total in
  if QuotaUnlimited p then next else Z.min next (CreditCeiling p).

Definition backing_Reserve (b : backing) (p : Policy) (total : Z) (d : DB)
    : DB * result backing :=
  if total <=? b_reserved b then (d, Ok b)
  else
    let next := reserve_next p total in
    match
      db_update (fun g =>
        r ← unmarshal (g !! b_id b);
        if Suspended r || bool_decide (gPolicy (rGrant r) <> p) || (next <? Reserved r) ||
           (negb (QuotaUnlimited p) && (CreditCeiling p <? total))
        then Fail ErrGrant
        else Ok (save (mkRecord (rGrant r) next (Suspended r)) g)) d
    with
    | (d', Ok _) => (d', Ok (mkBacking (b_id b) next))
    | (d', Fail e) => (d', Fail e)
    end.

#[global] Instance backing_persistence : Persistence backing DB := {|
  StorePolicy := backing_StorePolicy;
  Reserve := backing_Reserve |}.

(** ** The store *)

Record Store (L : Type) := mkStore {
  db : DB;
  accounts : gmap string (Account L backing);
  clients : gmap string string;
  journalID : string;
  s_clock : bool }.
Arguments mkStore {L}.
Arguments db {L}.
Arguments accounts {L}.
Arguments clients {L}.
Arguments journalID {L}.
Arguments s_clock {L}.

Record Observation := mkObservation { oGrant : Grant; oSnapshot : Snapshot }.

(** The instants an operation reads: [time.Now()] and the trusted clock. *)
Record Instants := mkInstants { at_wall : Z; at_clock : result Z }.

Section Store.
Context {L : Type} `{!RateLimiter L} `{!UUIDs}.

Abbreviation Store := (Store L).
Abbreviation Account := (Account L backing).

Definition with_db (s : Store) (d : DB) : Store :=
  mkStore d (accounts s) (clients s) (journalID s) (s_clock s).
Definition with_account (s : Store) (id : string) (a : Account) (d : DB) : Store :=
  mkStore d (<[ id := a ]> (accounts s)) (clients s) (journalID s) (s_clock s).
Definition with_clients (s : Store) (c : gmap string string) : Store :=
  mkStore (db s) (accounts s) c (journalID s) (s_clock s).

(** A missing key of a Go [map[string]string] reads as the empty string. *)
Definition client_grant (s : Store) (client : string) : string :=
  default ""%string (clients s !! client).

Definition Store_SetClock (installed : bool) (s : Store) : Store :=
  mkStore (db s) (SetClock installed <$> accounts s) (clients s) (journalID s) installed.

Definition Validate (g : Grant) : result unit :=
  if negb (ValidID (ID g)) || negb (ValidID (ClientID g)) || negb (ValidID (Term (gPolicy g))) ||
     (negb (AuthorityRevision (gPolicy g) =? 0) &&
      negb (RateRevision g =? AuthorityRevision (gPolicy g)))
  then Fail ErrGrant
  else
    match New (L := L) (H := backing) (gPolicy g) with Ok _ => Ok tt | Fail e => Fail e end.

(** [now]: the [time.Now()] of each of the two buckets [limits.Restore] drains. *)
Definition restore (now : Z * Z) (r : record) (s : Store) : Store * result unit :=
  match Validate (rGrant r) with
  | Fail _ => (s, Fail ErrGrant)
  | Ok _ =>
      let g := rGrant r in
      let active := Enabled (gPolicy g) && negb (Suspended r) in
      if active && bool_decide (is_Some (clients s !! ClientID g)) then (s, Fail ErrGrant)
      else
        let s := if active then with_clients s (<[ ClientID g := ID g ]> (clients s)) else s in
        match Restore_account now.1 now.2 (gPolicy g) (Reserved r)
                (Some (mkBacking (ID g) (Reserved r))) with
        | Fail e => (s, Fail e)
        | Ok a =>
            let a := if Suspended r then Quarantine a else a in
            (with_account s (ID g) (SetClock (s_clock s) a) (db s), Ok tt)
        end
  end.

(** One entry of the bucket walk in [Open]. *)
Definition open_entry (now : Z * Z) (s : Store) (entry : string * stored) : result Store :=
  match unmarshal (Some entry.2) with
  | Fail _ => Fail ErrGrant
  | Ok r =>
      if bool_decide (ID (rGrant r) <> entry.1) then Fail ErrGrant
      else match restore now r s with (s', Ok _) => Ok s' | (_, Fail e) => Fail e end
  end.

(** [Open], past the file system: [fresh] is the id [uuid.NewString] would make. *)
Definition Open (fresh : string) (now : Z * Z) (d : DB) : DB * result Store :=
  let load := fun j =>
    foldM (open_entry now) (mkStore d ∅ ∅ j false) (map_to_list (grants d)) in
  let loaded :=
    match journal d with
    | Some j => if negb (ValidID j) then Fail ErrGrant else load j
    | None => load fresh
    end in
  match loaded with
  | Fail e => (d, Fail e)
  | Ok s =>
      match faults d with
      | true :: rest => (mkDB (grants d) (journal d) rest, Fail ErrIO)
      | other =>
          let d' := mkDB (grants d) (Some (journalID s)) (tail other) in
          (d', Ok (with_db s d'))
      end
  end.

(** The last step of [Apply] and [ApplyAuthority]: who holds the client now. *)
Definition settle_client (enabled : bool) (client id : string) (s : Store) : Store :=
  if enabled then with_clients s (<[ client := id ]> (clients s))
  else if bool_decide (client_grant s client = id)
  then with_clients s (delete client (clients s))
  else s.

(** A record as [json.Unmarshal] leaves the zero value when the key is missing. *)
Definition lookup_record (s : Store) (id : string) : result (option record) :=
  match grants (db s) !! id with
  | None => Ok None
  | Some v => match unmarshal (Some v) with Ok r => Ok (Some r) | Fail e => Fail e end
  end.

(** Save a new record and bring its account to life. *)
Definition create (now : Z * Z) (r : record) (s : Store) : Store * result unit :=
  match db_update (fun g => Ok (save r g)) (db s) with
  | (d, Fail e) => (with_db s d, Fail e)
  | (d, Ok _) => restore now r (with_db s d)
  end.

Definition Store_Apply (now : Z * Z) (grant : Grant) (s : Store) : Store * result unit :=
  match Validate grant with
  | Fail _ => (s, Fail ErrGrant)
  | Ok _ =>
      let existing := client_grant s (ClientID grant) in
      if Enabled (gPolicy grant) && negb (bool_decide (existing = ""%string)) &&
         negb (bool_decide (existing = ID grant))
      then (s, Fail ErrGrant)
      else
        match lookup_record s (ID grant) with
        | Fail e => (s, Fail e)
        | Ok saved =>
            let mismatch :=
              match saved with
              | Some r => negb (bool_decide (ID (rGrant r) = ""%string)) &&
                  (bool_decide (ClientID (rGrant r) <> ClientID grant) ||
                   bool_decide (Term (gPolicy (rGrant r)) <> Term (gPolicy grant)))
              | None => false
              end in
            let suspended := match saved with Some r => Suspended r | None => false end in
            if mismatch then (s, Fail ErrGrant)
            else if suspended then (s, Fail ErrGrant)
            else
              let '(s', r, p) :=
                match accounts s !! ID grant with
                | Some a =>
                    let p := RetainCredit (gPolicy grant) (policy a) in
                    let '(a', d, r) := Apply now.1 p a (db s) in
                    (with_account s (ID grant) a' d, r, p)
                | None =>
                    let '(s', r) := create now (mkRecord grant 0 false) s in
                    (s', r, gPolicy grant)
                end in
              match r with
              | Fail e => (s', Fail e)
              | Ok _ => (settle_client (Enabled p) (ClientID grant) (ID grant) s', Ok tt)
              end
        end
  end.

Definition Lookup (client : string) (s : Store) : option Account :=
  accounts s !! client_grant s client.

(** A live connection spends through the account it looked up, which stays the
    store's own: one pass of its [take]. *)
Definition Store_take (id : string) (pass : Pass) (dir requested : Z) (partial : bool) (s : Store)
    : Store * TakeOut :=
  match accounts s !! id with
  | None => (s, TakeFailed ErrGrant)
  | Some a =>
      let '(a', d, out) := take_pass pass dir requested partial a (db s) in
      (with_account s id a' d, out)
  end.

(** *** Credit and authority batches *)

(** The read-only half of [ApplyCredit]. *)
Definition check_credit (s : Store) (c : Credit) : result unit :=
  match unmarshal (grants (db s) !! cGrantID c) with
  | Fail _ => Fail ErrGrant
  | Ok r =>
      if Suspended r || bool_decide (ClientID (rGrant r) <> cClientID c) ||
         bool_decide (Term (gPolicy (rGrant r)) <> cTermID c) ||
         negb (Revision (gPolicy (rGrant r)) =? cPolicyRevision c) ||
         negb (bool_decide (is_Some (accounts s !! cGrantID c)))
      then Fail ErrGrant else Ok tt
  end.

(** Run a step over a batch, keeping what earlier steps changed when one fails;
    [poll i] is the context's state before step [i]. *)
Fixpoint batch {A} (poll : nat -> option error) (f : nat -> A -> Store -> Store * result unit)
    (i : nat) (l : list A) (s : Store) : Store * result unit :=
  match l with
  | [] => (s, Ok tt)
  | x :: rest =>
      match poll i with
      | Some e => (s, Fail e)
      | None =>
          match f i x s with
          | (s', Ok _) => batch poll f (S i) rest s'
          | (s', Fail e) => (s', Fail e)
          end
      end
  end.

Definition credit_step (at_ : nat -> Instants) (i : nat) (c : Credit) (s : Store)
    : Store * result unit :=
  match accounts s !! cGrantID c with
  | None => (s, Fail ErrGrant)
  | Some a =>
      let '(a', d, r) :=
        ApplyCredit (at_wall (at_ i)) (at_clock (at_ i)) (cTermID c) (cPolicyRevision c)
          (cCreditRevision c) (cCreditCeiling c) a (db s) in
      (with_account s (cGrantID c) a' d, r)
  end.

Definition Store_ApplyCredit (poll : nat -> option error) (at_ : nat -> Instants)
    (credits : list Credit) (s : Store) : Store * result unit :=
  match ValidateCredits credits with
  | Fail _ => (s, Fail ErrGrant)
  | Ok _ =>
      match foldM (fun _ c => check_credit s c) tt credits with
      | Fail e => (s, Fail e)
      | Ok _ => batch poll (credit_step at_) 0 credits s
      end
  end.

Definition update_grant (u : PolicyUpdate) : Grant :=
  mkGrant (uGrantID u) (uClientID u) (AuthorityRevision (uPolicy u)) (uPolicy u).

(** A grant the store does not hold yet. *)
Definition check_new_update (at_ : Instants) (u : PolicyUpdate) (s : Store) : result unit :=
  if negb (bool_decide (client_grant s (uClientID u) = ""%string)) then Fail ErrGrant
  else
    a ← New (L := L) (H := backing) (uPolicy u);
    ValidateAuthority (at_wall at_) (at_clock at_) (uPolicy u) (SetClock (s_clock s) a).

(** One update of [validateAuthorityLocked], past the [seen] sets. *)
Definition check_update (at_ : Instants) (saved : option record) (u : PolicyUpdate) (s : Store)
    : result unit :=
  match saved with
  | Some r =>
      if bool_decide (ID (rGrant r) = ""%string) then check_new_update at_ u s
      else if Suspended r || bool_decide (ClientID (rGrant r) <> uClientID u) ||
              bool_decide (Term (gPolicy (rGrant r)) <> Term (uPolicy u))
      then Fail ErrGrant
      else
        match accounts s !! uGrantID u with
        | None => Fail ErrGrant
        | Some a => ValidateAuthority (at_wall at_) (at_clock at_) (uPolicy u) a
        end
  | None => check_new_update at_ u s
  end.

Fixpoint check_updates (poll : nat -> option error) (at_ : nat -> Instants) (i : nat)
    (seen owners : gset string) (updates : list (PolicyUpdate * option record)) (s : Store)
    : result unit :=
  match updates with
  | [] => Ok tt
  | (u, saved) :: rest =>
      match poll i with
      | Some e => Fail e
      | None =>
          if negb (is_ok (Validate (update_grant u))) || bool_decide (uGrantID u ∈ seen) ||
             bool_decide (uClientID u ∈ owners) ||
             (negb (Enabled (uPolicy u)) &&
              (negb (Mode (Upload (uPolicy u)) =? Blocked) ||
               negb (Mode (Download (uPolicy u)) =? Blocked)))
          then Fail ErrGrant
          else
            _ ← check_update (at_ i) saved u s;
            check_updates poll at_ (S i) ({[ uGrantID u ]} ∪ seen) ({[ uClientID u ]} ∪ owners)
              rest s
      end
  end.

(** The records of the grants a batch names, read in one transaction. *)
Fixpoint saved_records (updates : list PolicyUpdate) (s : Store)
    : result (list (PolicyUpdate * option record)) :=
  match updates with
  | [] => Ok []
  | u :: rest =>
      match lookup_record s (uGrantID u) with
      | Fail _ => Fail ErrGrant
      | Ok saved => l ← saved_records rest s; Ok ((u, saved) :: l)
      end
  end.

Definition validateAuthorityLocked (poll : nat -> option error) (at_ : nat -> Instants)
    (updates : list PolicyUpdate) (s : Store) : result unit :=
  if bool_decide (length updates = 0%nat) || bool_decide (MaxAuthorityUpdates < length updates)%nat
  then Fail ErrGrant
  else
    l ← saved_records updates s;
    check_updates poll at_ 0 ∅ ∅ l s.

Definition update_step (now : nat -> Z * Z) (at_ : nat -> Instants) (i : nat) (u : PolicyUpdate)
    (s : Store) : Store * result unit :=
  let '(s', r) :=
    match accounts s !! uGrantID u with
    | Some a =>
        let '(a', d, r) :=
          ApplyAuthority (at_wall (at_ i)) (at_clock (at_ i)) (uPolicy u) a (db s) in
        (with_account s (uGrantID u) a' d, r)
    | None => create (now i) (mkRecord (update_grant u) 0 false) s
    end in
  match r with
  | Fail e => (s', Fail e)
  | Ok _ => (settle_client (Enabled (uPolicy u)) (uClientID u) (uGrantID u) s', Ok tt)
  end.

(** [poll], [at_] answer the validation; [poll'], [at'] and [now] the application. *)
Definition Store_ApplyAuthority (poll poll' : nat -> option error) (at_ at' : nat -> Instants)
    (now : nat -> Z * Z) (updates : list PolicyUpdate) (s : Store) : Store * result unit :=
  match validateAuthorityLocked poll at_ updates s with
  | Fail e => (s, Fail e)
  | Ok _ => batch poll' (update_step now at') 0 updates s
  end.

(** *** Reconciliation and observation *)

(** The duplicate check at the head of [Reconcile]. *)
Fixpoint check_wanted (wanted owners : gset string) (grants : list Grant) : result (gset string) :=
  match grants with
  | [] => Ok wanted
  | g :: rest =>
      if negb (is_ok (Validate g)) || bool_decide (ID g ∈ wanted) ||
         bool_decide (ClientID g ∈ owners)
      then Fail ErrGrant
      else check_wanted ({[ ID g ]} ∪ wanted) ({[ ClientID g ]} ∪ owners) rest
  end.

(** Suspend on disk every grant that is not wanted, in one transaction. *)
Definition suspend_unwanted (wanted : gset string) (ids : list string)
    (g : gmap string stored) : result (gmap string stored) :=
  foldM (fun g id =>
    if bool_decide (id ∈ wanted) then Ok g
    else
      r ← unmarshal (g !! id);
      Ok (save (mkRecord (rGrant r) (Reserved r) true) g)) g ids.

Definition quarantine_unwanted (wanted : gset string) (id : string) (a : Account) : Account :=
  if bool_decide (id ∈ wanted) then a else Quarantine a.

Fixpoint apply_all (now : nat -> Z * Z) (i : nat) (l : list Grant) (s : Store)
    : Store * result unit :=
  match l with
  | [] => (s, Ok tt)
  | g :: rest =>
      match Store_Apply (now i) g s with
      | (s', Ok _) => apply_all now (S i) rest s'
      | (s', Fail e) => (s', Fail e)
      end
  end.

Definition Reconcile (now : nat -> Z * Z) (wanted_grants : list Grant) (s : Store)
    : Store * result unit :=
  match check_wanted ∅ ∅ wanted_grants with
  | Fail e => (s, Fail e)
  | Ok wanted =>
      match db_update (suspend_unwanted wanted (map_to_list (accounts s)).*1) (db s) with
      | (d, Fail e) => (with_db s d, Fail e)
      | (d, Ok _) =>
          let s' :=
            mkStore d (map_imap (fun id a => Some (quarantine_unwanted wanted id a)) (accounts s))
              (filter (fun kv => kv.2 ∈ wanted) (clients s)) (journalID s) (s_clock s) in
          apply_all now 0 wanted_grants s'
      end
  end.

(** In Go the result follows the map's iteration order. *)
Fixpoint observe_all (ids : list (string * Account)) (s : Store) : result (list Observation) :=
  match ids with
  | [] => Ok []
  | (id, a) :: rest =>
      r ← unmarshal (grants (db s) !! id);
      l ← observe_all rest s;
      match accounts s !! ID (rGrant r) with
      | Some a => Ok (mkObservation (rGrant r) (Account_Snapshot a) :: l)
      | None => Fail (ErrorText "nil account")
      end
  end.

Definition Observe (s : Store) : result (list Observation) :=
  observe_all (map_to_list (accounts s)) s.

(** Keys of the bucket in cursor order, past [after]. *)
Definition keys_after (after : string) (g : gmap string stored) : list string :=
  merge_sort String.le
    (filter (fun k => after = ""%string \/ ~ String.le k after) (map_to_list g).*1).

Definition authority_grant (now : Z) (id : string) (r : record) (snap : Snapshot)
    : result GrantAuthority :=
  let p := sPolicy snap in
  if bool_decide (gPolicy (rGrant r) <> p) ||
     (sub64 MaxUint64 (AdmittedUpload snap) <? PreviouslyReserved snap) ||
     (sub64 MaxUint64 (AdmittedDownload snap) <? add64 (PreviouslyReserved snap) (AdmittedUpload snap))
  then Fail ErrGrant
  else
    let admitted :=
      add64 (add64 (PreviouslyReserved snap) (AdmittedUpload snap)) (AdmittedDownload snap) in
    if Reserved r <? admitted then Fail ErrGrant
    else
      let active := Enabled p && negb (Suspended r) && negb (sQuarantined snap) &&
        ((ExpiresUnixMilli p =? 0) || (UnixMilli now <? ExpiresUnixMilli p)) &&
        (negb (Mode (Upload p) =? Blocked) || negb (Mode (Download p) =? Blocked)) in
      let remaining :=
        if active && negb (QuotaUnlimited p) && (admitted <? CreditCeiling p)
        then sub64 (CreditCeiling p) admitted else 0 in
      let known := PreviouslyReserved snap =? 0 in
      Ok (mkGrantAuthority id (ClientID (rGrant r)) (Term p) (Revision p) (AuthorityRevision p)
            (CreditCeiling p) (QuotaUnlimited p) (Reserved r) (PreviouslyReserved snap)
            (if known then admitted else 0) known remaining (negb (QuotaUnlimited p)) active).

Fixpoint authority_snapshots (poll : nat -> option error) (i : nat) (ids : list string) (s : Store)
    : result (list (string * Snapshot)) :=
  match ids with
  | [] => Ok []
  | id :: rest =>
      match poll i with
      | Some e => Fail e
      | None =>
          match accounts s !! id with
          | None => Fail ErrGrant
          | Some a =>
              l ← authority_snapshots poll (S i) rest s;
              Ok ((id, Account_Snapshot a) :: l)
          end
      end
  end.

Fixpoint authority_grants (now : Z) (snaps : list (string * Snapshot)) (s : Store)
    : result (list GrantAuthority) :=
  match snaps with
  | [] => Ok []
  | (id, snap) :: rest =>
      r ← unmarshal (grants (db s) !! id);
      g ← authority_grant now id r snap;
      l ← authority_grants now rest s;
      Ok (g :: l)
  end.

Definition Store_Authority (poll : nat -> option error) (at_ : Instants) (after : string)
    (limit : Z) (s : Store) : result Page :=
  if (negb (bool_decide (after = ""%string)) && negb (ValidID after)) || (limit <=? 0) ||
     (Z.of_nat MaxEntries <? limit)
  then Fail ErrGrant
  else
    match (if s_clock s then at_clock at_ else Ok (at_wall at_)) with
    | Fail e => Fail e
    | Ok now =>
        let n := Z.to_nat limit in
        let ids := firstn (S n) (keys_after after (grants (db s))) in
        let more := bool_decide (n < length ids)%nat in
        let ids := firstn n ids in
        let next := if more then default ""%string (last ids) else ""%string in
        snaps ← authority_snapshots poll 0 ids s;
        gs ← authority_grants now snaps s;
        Ok (mkPage gs next)
    end.

End Store.
