(* ===== verification/GovernorFacts.v ===== *)
(** * Facts about the grant store

    The backing discharges the account's persistence interface, and every
    operation of the store keeps its invariant. *)
From S2P Require Import Prelude Limits LimitsFacts Authority Governor.

(** ** The backing implements [PersistenceLaws] *)

(** Every decodable record is filed under its own id. *)
Definition filed (d : DB) : Prop :=
  forall k r, grants d !! k = Some (Stored r) -> ID (rGrant r) = k.

Definition db_durable (id : string) (d : DB) : option (Policy * Z) :=
  match grants d !! id with
  | Some (Stored r) => Some (gPolicy (rGrant r), Reserved r)
  | _ => None
  end.

(** A transaction either commits exactly what its function computed, or leaves
    the bucket and the journal id as they were. *)
Lemma db_update_cases f d d' r :
  db_update f d = (d', r) ->
  journal d' = journal d /\
  match r with
  | Ok _ => f (grants d) = Ok (grants d')
  | Fail _ => grants d' = grants d
  end.
Proof.
  unfold db_update. destruct (f (grants d)); [|by intros [= <- <-]].
  destruct (faults d) as [|[]]; by intros [= <- <-].
Qed.

Lemma filed_save d r g' :
  filed d -> grants g' = save r (grants d) -> filed g'.
Proof.
  intros Hf Hg k q. rewrite Hg. unfold save. rewrite lookup_insert.
  case_decide; [|by apply Hf]. intros [= <-]. done.
Qed.

Lemma unmarshal_ok v r : unmarshal v = Ok r -> v = Some (Stored r).
Proof. destruct v as [[]|]; simpl; congruence. Qed.

Lemma durable_grants d d' id : grants d' = grants d -> db_durable id d' = db_durable id d.
Proof. unfold db_durable. by intros ->. Qed.

(** [backing_StorePolicy] as one case analysis. *)
Lemma StorePolicy_cases b p d d' res :
  filed d -> backing_StorePolicy b p d = (d', res) ->
  journal d' = journal d /\ filed d' /\
  match res with
  | Fail _ => grants d' = grants d
  | Ok _ => exists r, grants d !! b_id b = Some (Stored r) /\
      grants d' = <[ b_id b := Stored (mkRecord (with_policy (rGrant r) p) (Reserved r) (Suspended r)) ]>
                    (grants d)
  end.
Proof.
  unfold backing_StorePolicy. intros Hf Hu. apply db_update_cases in Hu as [Hj Hu]. split; [done|].
  destruct res as [u|]; [|split; [|done]; intros k r; rewrite Hu; apply Hf].
  unfold mbind, result_bind in Hu. destruct (unmarshal (grants d !! b_id b)) as [r|] eqn:Hr; [|done].
  apply unmarshal_ok in Hr. cbv zeta in Hu. split_guard_in Hu; [done|]. injection Hu as Hu.
  split; [eapply filed_save; by eauto|]. exists r. split; [done|].
  rewrite <-Hu. unfold save. simpl. by rewrite (Hf _ _ Hr).
Qed.

Lemma reserve_next_bounds p t :
  is_u64 t -> policy_typed p ->
  is_u64 (reserve_next p t) /\ (QuotaUnlimited p = false -> reserve_next p t <= CreditCeiling p) /\
  (QuotaUnlimited p = true \/ t <= CreditCeiling p -> t <= reserve_next p t) /\
  reserve_next p t <= t + maximumReservationBlock.
Proof.
  intros Ht []. assert (0 <= reservationSize p <= 8388608) as Hb.
  { unfold reservationSize, minimumReservationBlock, maximumReservationBlock.
    pose proof (add64_range (BitsPerSecond (Upload p)) (BitsPerSecond (Download p))).
    split_guard; [lia|]. lia. }
  unfold reserve_next, maximumReservationBlock. cbv zeta. rewrite (sub64_small MaxUint64) by machine.
  destruct (t <=? MaxUint64 - reservationSize p) eqn:Hle; bools;
    [rewrite add64_small by machine|]; destruct (QuotaUnlimited p); split_and!; decide_cases.
Qed.

(** [backing_Reserve] as one case analysis. *)
Lemma Reserve_cases b p t d d' res :
  filed d -> backing_Reserve b p t d = (d', res) ->
  journal d' = journal d /\ filed d' /\
  match res with
  | Fail _ => grants d' = grants d
  | Ok b' =>
      (t <= b_reserved b /\ b' = b /\ d' = d) \/
      (b_reserved b < t /\ b' = mkBacking (b_id b) (reserve_next p t) /\
       exists r, grants d !! b_id b = Some (Stored r) /\ Suspended r = false /\
         gPolicy (rGrant r) = p /\ Reserved r <= reserve_next p t /\
         (QuotaUnlimited p = true \/ t <= CreditCeiling p) /\
         grants d' = <[ b_id b := Stored (mkRecord (rGrant r) (reserve_next p t) false) ]> (grants d))
  end.
Proof.
  intros Hf. unfold backing_Reserve.
  destruct (t <=? b_reserved b) eqn:Ht; bools; [intros [= <- <-]; split_and!; auto|].
  destruct (db_update _ d) as [d1 r1] eqn:Hu. apply db_update_cases in Hu as [Hj Hu].
  destruct r1 as [u|]; intros [= <- <-]; (split; [done|]);
    [|split; [|done]; intros k r; rewrite Hu; apply Hf].
  unfold mbind, result_bind in Hu. destruct (unmarshal (grants d !! b_id b)) as [r|] eqn:Hr; [|done].
  apply unmarshal_ok in Hr. split_guard_in Hu; [done|]. injection Hu as Hu. destruct_and!.
  split; [eapply filed_save; by eauto|]. right. split_and!; [done..|].
  exists r. split_and!; auto; try decide_cases.
  rewrite <-Hu. unfold save. simpl. rewrite (Hf _ _ Hr). congruence.
Qed.

Lemma durable_insert id k r g d :
  grants d = <[ k := Stored r ]> g ->
  db_durable id d =
    if decide (k = id) then Some (gPolicy (rGrant r), Reserved r)
    else match g !! id with
         | Some (Stored r) => Some (gPolicy (rGrant r), Reserved r) | _ => None end.
Proof. unfold db_durable. intros ->. rewrite lookup_insert. by case_decide. Qed.

(** What a backing's calls may do to a database: at most rewrite its own record,
    keeping whose it is, whether it is suspended and its term. *)
Definition same_owner (r r' : record) : Prop :=
  ID (rGrant r') = ID (rGrant r) /\ ClientID (rGrant r') = ClientID (rGrant r) /\
  Suspended r' = Suspended r /\ Term (gPolicy (rGrant r')) = Term (gPolicy (rGrant r)) /\
  (rGrant r' = rGrant r \/
   (AuthorityRevision (gPolicy (rGrant r')) <> 0 ->
    RateRevision (rGrant r') = AuthorityRevision (gPolicy (rGrant r')))).

Definition db_step (id : string) (d d' : DB) : Prop :=
  journal d' = journal d /\ (filed d -> filed d') /\
  (forall k, k <> id -> grants d' !! k = grants d !! k) /\
  (grants d' !! id = grants d !! id \/
   exists r r', grants d !! id = Some (Stored r) /\ grants d' !! id = Some (Stored r') /\
     same_owner r r').

Lemma db_step_refl id d : db_step id d d.
Proof. unfold db_step; auto. Qed.

Lemma db_step_same id d d' : journal d' = journal d -> grants d' = grants d -> db_step id d d'.
Proof. intros Hj Hg. unfold db_step, filed. rewrite Hg. auto. Qed.

Lemma StorePolicy_step b p d : filed d -> db_step (b_id b) d (backing_StorePolicy b p d).1.
Proof.
  intros Hf. destruct (backing_StorePolicy b p d) as [d' res] eqn:Hs. simpl.
  pose proof Hs as Hs'. apply StorePolicy_cases in Hs as (Hj & Hf' & Hres); [|done].
  destruct res; [|by apply db_step_same]. destruct Hres as (r & Hr & Hg).
  unfold db_step. rewrite Hg. split_and!; auto.
  - intros k Hk. by rewrite lookup_insert_ne.
  - right. exists r. eexists. split_and!; [done|by rewrite lookup_insert_eq|].
    unfold same_owner, with_policy; simpl. split_and!; auto.
    + unfold backing_StorePolicy in Hs'. apply db_update_cases in Hs' as [_ Hu]. simpl in Hu.
      unfold mbind, result_bind in Hu. rewrite Hr in Hu. simpl in Hu.
      split_guard_in Hu; [done|]. destruct_and!. symmetry. by apply dec_stable.
    + right. destruct (AuthorityRevision p =? 0) eqn:?; bools; done.
Qed.

Lemma Reserve_step b p t d : filed d -> db_step (b_id b) d (backing_Reserve b p t d).1.
Proof.
  intros Hf. destruct (backing_Reserve b p t d) as [d' res] eqn:Hs. simpl.
  apply Reserve_cases in Hs as (Hj & Hf' & Hres); [|done].
  destruct res; [|by apply db_step_same].
  destruct Hres as [(_&_&->)|(_&_&r&Hr&Hsus&_&_&_&Hg)]; [apply db_step_refl|].
  unfold db_step. rewrite Hg. split_and!; auto.
  - intros k Hk. by rewrite lookup_insert_ne.
  - right. exists r. eexists. split_and!; [done|by rewrite lookup_insert_eq|].
    unfold same_owner; simpl. auto 10.
Qed.

#[global] Instance backing_laws : PersistenceLaws backing DB.
Proof.
  refine {| env_ok := filed; env_step := db_step; handle_id := b_id; granted := b_reserved;
            reserve_block := maximumReservationBlock;
            durable := db_durable |}; simpl.
  - apply db_step_refl.
  - intros id e e' He (_ & Hf & _). auto.
  - intros id k e e' (_ & _ & Hk & _) Hne. unfold db_durable. by rewrite Hk.
  - intros. by apply StorePolicy_step.
  - intros h p e e' u He Hs. apply StorePolicy_cases in Hs as (_ & _ & r & Hr & Hg); [|done].
    exists (gPolicy (rGrant r)), (Reserved r). split; [unfold db_durable; by rewrite Hr|].
    erewrite durable_insert by done. by rewrite decide_True.
  - intros h p e e' err He Hs. apply StorePolicy_cases in Hs as (_ & _ & Hg); [|done].
    by apply durable_grants.
  - intros. by apply Reserve_step.
  - intros h p t e e' h' He Ht Hp Hs. apply Reserve_cases in Hs as (_ & _ & Hs); [|done].
    destruct Hs as [(?&->&->)|(?&->&r&Hr&_&<-&?&?&Hg)]; [auto|]. split; [done|]. right. simpl.
    destruct (reserve_next_bounds (gPolicy (rGrant r)) t Ht Hp) as ([? ?]&?&Hge&?).
    split_and!; auto; try (by apply Hge).
    + erewrite durable_insert by done. by rewrite decide_True.
    + exists (Reserved r). unfold db_durable. by rewrite Hr.
  - intros h p t e e' err He Hs. apply Reserve_cases in Hs as (_ & _ & Hs); [|done].
    by apply durable_grants.
Defined.
