(* ===== verification/GovernorInvariant.v ===== *)
(** * The invariant of the grant store

    Memory and disk agree grant by grant, every client is held by at most one
    active grant, and every operation keeps it so. *)
From S2P Require Import Prelude Limits LimitsFacts Authority Governor GovernorFacts.

Section Invariant.
Context {L : Type} `{!RateLimiter L} `{!RateLimiterLaws L} `{!UUIDs} `{!UUIDLaws}.

Abbreviation Store := (Store L).
Abbreviation Account := (Account L backing).

(** One live account and its record. *)
Definition entry_ok (s : Store) (id : string) (a : Account) : Prop :=
  account_ok a (db s) /\ clock a = s_clock s /\
  exists b r, persistence a = Some b /\ b_id b = id /\
    grants (db s) !! id = Some (Stored r) /\ Validate (L := L) (rGrant r) = Ok tt /\
    (Suspended r = true -> quarantined a = true).

Record store_ok (s : Store) : Prop := {
  so_filed : filed (db s);
  so_entry : forall id a, accounts s !! id = Some a -> entry_ok s id a;
  so_record : forall id v, grants (db s) !! id = Some v ->
    exists r, v = Stored r /\ is_Some (accounts s !! id);
  so_holder : forall c id, clients s !! c = Some id ->
    exists r, grants (db s) !! id = Some (Stored r) /\ ClientID (rGrant r) = c /\
      Enabled (gPolicy (rGrant r)) = true /\ Suspended r = false;
  so_active : forall id r, grants (db s) !! id = Some (Stored r) ->
    Enabled (gPolicy (rGrant r)) = true -> Suspended r = false ->
    clients s !! ClientID (rGrant r) = Some id;
  so_journal : journal (db s) = Some (journalID s);
  so_journal_valid : ValidID (journalID s) = true }.

Lemma ValidID_nonempty v : ValidID v = true -> v <> ""%string.
Proof. unfold ValidID. intros Hv ->. by rewrite uuid_Parse_empty in Hv. Qed.

Lemma Validate_iff g :
  Validate (L := L) g = Ok tt <->
  ValidID (ID g) = true /\ ValidID (ClientID g) = true /\ ValidID (Term (gPolicy g)) = true /\
  (AuthorityRevision (gPolicy g) <> 0 -> RateRevision g = AuthorityRevision (gPolicy g)) /\
  validate (gPolicy g) = Ok tt.
Proof.
  unfold Validate, New, mbind, result_bind. split_guard.
  - split; [done|]. intros (?&?&?&Hr&?). decide_cases.
  - destruct_and!. destruct (validate (gPolicy g)) as [[]|] eqn:Hv.
    + split; [|done]. intros _. split_and!; auto. decide_cases.
    + split; [done|]. naive_solver.
Qed.

Lemma same_owner_refl r : same_owner r r.
Proof. unfold same_owner. split_and!; auto. Qed.

Lemma Validate_same_owner r r' :
  Validate (L := L) (rGrant r) = Ok tt -> same_owner r r' ->
  validate (gPolicy (rGrant r')) = Ok tt -> Validate (L := L) (rGrant r') = Ok tt.
Proof.
  rewrite !Validate_iff. intros (?&?&?&?&?) (Hi&Hc&_&Ht&Hr) ?.
  rewrite Hi, Hc, Ht. split_and!; auto. destruct Hr as [->|?]; auto.
Qed.

(** What memory says of a live account's record. *)
Lemma entry_record s id (a : Account) :
  entry_ok s id a ->
  exists b r, persistence a = Some b /\ b_id b = id /\ grants (db s) !! id = Some (Stored r) /\
    gPolicy (rGrant r) = policy a /\ Reserved r = b_reserved b /\ spent a <= Reserved r /\
    Validate (L := L) (rGrant r) = Ok tt /\ (Suspended r = true -> quarantined a = true).
Proof.
  intros ([] & _ & b & r & Hb & Hid & Hr & Hv & Hs).
  unfold backed in ok_backed. rewrite Hb in ok_backed. destruct ok_backed as [Hd Hsp].
  unfold durable in Hd; simpl in Hd. unfold db_durable in Hd. rewrite Hid, Hr in Hd.
  injection Hd as Hp Hres. unfold granted in *; simpl in *. exists b, r. split_and!; auto. lia.
Qed.

Lemma db_step_record id d d' r :
  db_step id d d' -> grants d !! id = Some (Stored r) ->
  exists r', grants d' !! id = Some (Stored r') /\ same_owner r r'.
Proof.
  intros (_&_&_&[Heq|(q&q'&Hq&Hq'&Ho)]) Hr.
  - rewrite Heq. eauto using same_owner_refl.
  - simplify_eq. eauto.
Qed.

(** An entry depends on the database only through its own record. *)
Lemma entry_ok_frame s d' k (a : Account) :
  entry_ok s k a -> filed d' -> grants d' !! k = grants (db s) !! k -> entry_ok (with_db s d') k a.
Proof.
  intros (Ha & Hc & b & r & Hb & Hid & Hr & Hv & Hsus) Hf Hk.
  split_and!; [|done|exists b, r; simpl; rewrite Hk; auto].
  destruct Ha. split; auto. unfold backed in *. rewrite Hb in *.
  destruct ok_backed as [Hd ?]. split; [|done]. rewrite <-Hd.
  unfold durable, handle_id; simpl. unfold db_durable. by rewrite Hid, Hk.
Qed.

(** An account operation rewrote its own account and, through its backing, its
    own record: the entries are all still fine, and the client map is, provided
    it is settled for the record's client. *)
Lemma account_update_entries s id (a a' : Account) d' :
  store_ok s -> accounts s !! id = Some a -> account_ok a' d' ->
  (exists b, persistence a' = Some b /\ b_id b = id) -> db_step id (db s) d' ->
  clock a' = clock a -> quarantined a' = quarantined a ->
  let s' := with_account s id a' d' in
  filed d' /\
  (forall k c, accounts s' !! k = Some c -> entry_ok s' k c) /\
  (forall k v, grants d' !! k = Some v -> exists r, v = Stored r /\ is_Some (accounts s' !! k)) /\
  exists r r', grants (db s) !! id = Some (Stored r) /\ grants d' !! id = Some (Stored r') /\
    same_owner r r' /\ gPolicy (rGrant r') = policy a' /\ gPolicy (rGrant r) = policy a.
Proof.
  intros [] Ha Ha' (b & Hb & Hbid) Hst Hck Hq s'.
  destruct (so_entry0 id a Ha) as (Hold & Hclk & b0 & r & Hb0 & _ & Hr & Hv & Hsus).
  destruct (entry_record s id a (so_entry0 id a Ha)) as (?&r1&?&?&Hr1&Hp&_&_&_&_). simplify_eq.
  destruct (db_step_record _ _ _ _ Hst Hr) as (r' & Hr' & Ho).
  assert (filed d') as Hf by (destruct Hst as (_&Hf&_); auto).
  assert (gPolicy (rGrant r') = policy a') as Hp'.
  { destruct Ha'. unfold backed in ok_backed. rewrite Hb in ok_backed. destruct ok_backed as [Hd _].
    unfold durable, handle_id in Hd; simpl in Hd. unfold db_durable in Hd. rewrite Hr' in Hd.
    by simplify_eq. }
  split_and!; [done| | |exists r, r'; auto].
  - intros k c. simpl. rewrite lookup_insert. case_decide as Hk.
    + intros [= <-]. subst k. split_and!; [done|simpl; congruence|]. exists b, r'. split_and!; auto.
      * eapply Validate_same_owner; eauto. destruct Ha'. congruence.
      * destruct Ho as (_&_&Hs&_). rewrite Hs, Hq. auto.
    + intros Hc. destruct Hst as (_&_&Hfr&_). apply (entry_ok_frame s d' k c); auto.
  - intros k v Hk. simpl. destruct (decide (k = b_id b)) as [->|Hne].
    + rewrite Hr' in Hk. simplify_eq. exists r'. rewrite lookup_insert_eq. eauto.
    + destruct Hst as (_&_&Hfr&_). rewrite Hfr in Hk by done. rewrite lookup_insert_ne by done. eauto.
Qed.

(** The client map stays right as it is when the account stays as enabled as it was. *)
Lemma account_update_same s id (a a' : Account) d' :
  store_ok s -> accounts s !! id = Some a -> account_ok a' d' ->
  (exists b, persistence a' = Some b /\ b_id b = id) -> db_step id (db s) d' ->
  clock a' = clock a -> quarantined a' = quarantined a ->
  Enabled (policy a') = Enabled (policy a) ->
  store_ok (with_account s id a' d').
Proof.
  intros Hs Ha Ha' Hb Hst Hc Hq He.
  destruct (account_update_entries s id a a' d') as (Hf & Hent & Hrec & r & r' & Hr & Hr' & Ho & Hp' & Hp);
    auto. destruct Hs, Hst as (Hj&_&Hfr&_). pose proof Ho as (Hoi&Hoc&Hos&_).
  split; auto; simpl; [| |congruence].
  - intros c k Hk. destruct (so_holder0 c k Hk) as (q & Hq' & ?).
    destruct (decide (k = id)) as [->|Hne]; [|rewrite Hfr by done; eauto].
    simplify_eq. exists r'. rewrite Hoc, Hos, Hp', He, <-Hp. done.
  - intros k q Hk. destruct (decide (k = id)) as [->|Hne].
    + simplify_eq. rewrite Hp', Hos, Hoc, He, <-Hp. by apply so_active0.
    + rewrite Hfr in Hk by done. by apply so_active0.
Qed.

(** And it is right after settling when the account may have been switched. *)
Lemma account_update_settled s id (a a' : Account) d' r :
  store_ok s -> accounts s !! id = Some a -> account_ok a' d' ->
  (exists b, persistence a' = Some b /\ b_id b = id) -> db_step id (db s) d' ->
  clock a' = clock a -> quarantined a' = quarantined a ->
  grants (db s) !! id = Some (Stored r) -> Suspended r = false ->
  (Enabled (policy a') = true ->
   clients s !! ClientID (rGrant r) = None \/ clients s !! ClientID (rGrant r) = Some id) ->
  store_ok (settle_client (Enabled (policy a')) (ClientID (rGrant r)) id (with_account s id a' d')).
Proof.
  intros Hs Ha Ha' Hb Hst Hc Hq Hr Hsus Hfree.
  destruct (account_update_entries s id a a' d') as (Hf & Hent & Hrec & r0 & r' & Hr0 & Hr' & Ho & Hp' & Hp);
    auto. simplify_eq. destruct Hs, Hst as (Hj&_&Hfr&_). rewrite so_journal0 in Hj. pose proof Ho as (Hoi&Hoc&Hos&_).
  unfold settle_client. destruct (Enabled (policy a')) eqn:Hen.
  - split; auto; simpl.
    + intros c k. rewrite lookup_insert. case_decide as Hk; [intros [= <-]; subst c|].
      * exists r'. rewrite Hoc, Hos, Hp'. done.
      * intros Hk'. destruct (so_holder0 c k Hk') as (q & Hq' & Hqc & ?).
        destruct (decide (k = id)) as [->|Hne]; [simplify_eq; done|rewrite Hfr by done; eauto].
    + intros k q Hk He Hsu. destruct (decide (k = id)) as [->|Hne].
      * simplify_eq. rewrite Hoc. by rewrite lookup_insert_eq.
      * rewrite Hfr in Hk by done. pose proof (so_active0 _ _ Hk He Hsu) as Hcl.
        destruct (decide (ClientID (rGrant q) = ClientID (rGrant r))) as [Heq|];
          [|by rewrite lookup_insert_ne]. rewrite Heq in Hcl. destruct (Hfree eq_refl); congruence.
  - assert (forall k q, grants d' !! k = Some (Stored q) -> Enabled (gPolicy (rGrant q)) = true ->
       Suspended q = false -> k <> id /\ clients s !! ClientID (rGrant q) = Some k) as Hact.
    { intros k q Hk He Hsu. destruct (decide (k = id)) as [->|Hne]; [simplify_eq; congruence|].
      rewrite Hfr in Hk by done. auto. }
    unfold client_grant. simpl. split_guard.
    + split; auto; simpl.
      * intros c k. rewrite lookup_delete. case_decide; [done|]. intros Hk.
        destruct (so_holder0 c k Hk) as (q & Hq' & Hqc & ?).
        destruct (decide (k = id)) as [->|Hne]; [simplify_eq; done|rewrite Hfr by done; eauto].
      * intros k q Hk He Hsu. destruct (Hact k q Hk He Hsu) as [Hne Hcl].
        rewrite lookup_delete_ne; [done|]. intros Heq. rewrite Heq in *. by rewrite Hcl in G.
    + split; auto; simpl.
      * intros c k Hk. destruct (so_holder0 c k Hk) as (q & Hq' & Hqc & ?).
        destruct (decide (k = id)) as [->|Hne]; [|rewrite Hfr by done; eauto].
        simplify_eq. by rewrite Hk in G.
      * intros k q Hk He Hsu. by apply Hact.
Qed.

(** ** Spending, crediting *)

Lemma handle_step_backing n (a a' : Account) d d' b :
  handle_step n a a' d d' -> persistence a = Some b ->
  (exists b', persistence a' = Some b' /\ b_id b' = b_id b) /\ db_step (b_id b) d d'.
Proof.
  unfold handle_step, moves. intros [Hh Hm] Hb. rewrite Hb in *. split; [|done].
  destruct (persistence a'); [|done]. destruct Hh as [? _]. eauto.
Qed.

Lemma no_spend_backing (a a' : Account) d d' b :
  no_spend a a' d d' -> persistence a = Some b ->
  (exists b', persistence a' = Some b' /\ b_id b' = b_id b) /\ db_step (b_id b) d d'.
Proof.
  unfold no_spend, moves. intros (_&_&_&Hp&_&_&Hm&_) Hb. rewrite Hb in *. eauto.
Qed.

Lemma entry_backing s id (a : Account) :
  store_ok s -> accounts s !! id = Some a ->
  account_ok a (db s) /\ exists b, persistence a = Some b /\ b_id b = id.
Proof. intros [] Ha. destruct (so_entry0 _ _ Ha) as (?&_&b&r&?&?&_). eauto. Qed.

Lemma Store_take_ok id pass dir req partial s s' out :
  store_ok s -> 1 <= req <= MaxInt ->
  Store_take id pass dir req partial s = (s', out) -> store_ok s'.
Proof.
  intros Hs Hreq. unfold Store_take. destruct (accounts s !! id) as [a|] eqn:Ha;
    [|by intros [= <- <-]].
  destruct (entry_backing s id a Hs Ha) as (Hok & b & Hb & Hid).
  destruct (take_pass pass dir req partial a (db s)) as [[a' d] out'] eqn:Ht. intros [= <- <-].
  apply take_pass_spec in Ht; [|done..]. rewrite <-Hid in *.
  destruct out'.
  - destruct Ht as ((?&Hp&?&?&_&_&_&_&Hh) & _).
    destruct (handle_step_backing _ _ _ _ _ _ Hh Hb). eapply account_update_same; eauto. by rewrite Hp.
  - destruct Ht as (Hn & Hp & _). destruct (no_spend_backing _ _ _ _ _ Hn Hb).
    destruct Hn as (?&_&_&_&?&?&_). eapply account_update_same; eauto. by rewrite Hp.
  - destruct Ht as (Hn & Hp & _). destruct (no_spend_backing _ _ _ _ _ Hn Hb).
    destruct Hn as (?&_&_&_&?&?&_). eapply account_update_same; eauto. by rewrite Hp.
Qed.

Lemma credit_step_ok at_ i c s s' r :
  store_ok s -> is_u64 (cCreditRevision c) -> is_u64 (cCreditCeiling c) ->
  credit_step at_ i c s = (s', r) -> store_ok s'.
Proof.
  intros Hs Hr Hc. unfold credit_step.
  destruct (accounts s !! cGrantID c) as [a|] eqn:Ha; [|by intros [= <- <-]].
  destruct (entry_backing s _ a Hs Ha) as (Hok & b & Hb & Hid).
  destruct (ApplyCredit _ _ _ _ _ _ a (db s)) as [[a' d] r'] eqn:Hap. intros [= <- <-].
  pose proof (ApplyCredit_policy _ _ _ _ _ _ _ _ _ _ _ Hok Hr Hc Hap) as Hp.
  apply ApplyCredit_no_spend in Hap as Hn; [|done..].
  destruct (no_spend_backing _ _ _ _ _ Hn Hb) as [Hb' Hst]. rewrite Hid in *.
  destruct Hn as (?&_&_&_&?&?&_). eapply account_update_same; eauto.
  destruct r'; [by rewrite Hp|by subst].
Qed.

(** A batch keeps whatever each of its steps keeps, failed batches included. *)
Lemma batch_ok {A} poll (f : nat -> A -> Store -> Store * result unit) (P : Store -> Prop) l :
  forall i s s' r,
  (forall i x s s' r, x ∈ l -> P s -> f i x s = (s', r) -> P s') ->
  P s -> batch poll f i l s = (s', r) -> P s'.
Proof.
  induction l as [|x l IH]; intros i s s' r Hf Hs; simpl; [by intros [= <- <-]|].
  destruct (poll i); [by intros [= <- <-]|].
  destruct (f i x s) as [s1 [u|e]] eqn:Hx.
  - apply IH; [intros; eapply Hf; eauto; set_solver|]. eapply Hf; eauto; set_solver.
  - intros [= <- <-]. eapply Hf; eauto; set_solver.
Qed.

Lemma Store_ApplyCredit_ok poll at_ credits s s' r :
  store_ok s ->
  (forall c, c ∈ credits -> is_u64 (cCreditRevision c) /\ is_u64 (cCreditCeiling c)) ->
  Store_ApplyCredit poll at_ credits s = (s', r) -> store_ok s'.
Proof.
  intros Hs Hc. unfold Store_ApplyCredit.
  destruct (ValidateCredits credits); [|by intros [= <- <-]].
  destruct (foldM _ _ _); [|by intros [= <- <-]].
  apply batch_ok; [|done]. intros i x s1 s2 r1 Hx ? Hst. destruct (Hc x Hx).
  eapply credit_step_ok; [| | |exact Hst]; done.
Qed.

(** ** New grants *)

Lemma holder_nonempty s c id : store_ok s -> clients s !! c = Some id -> id <> ""%string.
Proof.
  intros Hs Hc. destruct Hs. destruct (so_holder0 c id Hc) as (r & Hr & _).
  destruct (so_record0 _ _ Hr) as (r' & [= <-] & a & Ha).
  destruct (so_entry0 id a Ha) as (_&_&b&q&_&_&Hq&Hv&_). simplify_eq.
  apply Validate_iff in Hv as (Hv&_). rewrite (so_filed0 _ _ Hr) in Hv.
  by apply ValidID_nonempty.
Qed.

Lemma client_grant_empty s c : store_ok s -> client_grant s c = ""%string -> clients s !! c = None.
Proof.
  unfold client_grant. intros Hs Hc. destruct (clients s !! c) as [id|] eqn:Hl; [|done].
  simpl in Hc. by apply holder_nonempty in Hl.
Qed.

Definition fresh_grant (s : Store) (r : record) : Prop :=
  Validate (L := L) (rGrant r) = Ok tt /\ policy_typed (gPolicy (rGrant r)) /\
  Reserved r = 0 /\ Suspended r = false /\ accounts s !! ID (rGrant r) = None /\
  (Enabled (gPolicy (rGrant r)) = true -> clients s !! ClientID (rGrant r) = None).

Lemma faults_irrelevant s d :
  grants d = grants (db s) -> journal d = journal (db s) -> store_ok s -> store_ok (with_db s d).
Proof.
  intros Hg Hj []. split; simpl; rewrite ?Hg, ?Hj; auto.
  - intros k r Hr. rewrite Hg in Hr. by apply so_filed0.
  - intros id a Ha. apply entry_ok_frame; auto; [|by rewrite Hg].
    intros k r Hr. rewrite Hg in Hr. by apply so_filed0.
Qed.

Definition active (r : record) : bool := Enabled (gPolicy (rGrant r)) && negb (Suspended r).

(** Restoring a valid record whose client is free cannot fail, and starts the
    account at the record's high-water mark. *)
Lemma restore_result now r s :
  filed (db s) -> grants (db s) !! ID (rGrant r) = Some (Stored r) ->
  Validate (L := L) (rGrant r) = Ok tt -> policy_typed (gPolicy (rGrant r)) ->
  0 <= Reserved r <= MaxUint64 ->
  (active r = true -> clients s !! ClientID (rGrant r) = None) ->
  exists a : Account,
    restore now r s =
      (mkStore (db s) (<[ ID (rGrant r) := a ]> (accounts s))
         (if active r then <[ ClientID (rGrant r) := ID (rGrant r) ]> (clients s) else clients s)
         (journalID s) (s_clock s), Ok tt) /\
    account_ok a (db s) /\ persistence a = Some (mkBacking (ID (rGrant r)) (Reserved r)) /\
    policy a = gPolicy (rGrant r) /\ quarantined a = Suspended r /\ clock a = s_clock s /\
    spent a = Reserved r.
Proof.
  intros Hf Hr Hv Hp Hres Hfree. unfold restore. rewrite Hv. fold (active r).
  destruct (Restore_ok (L := L) (H := backing) now.1 now.2 (gPolicy (rGrant r)) (Reserved r)
    (mkBacking (ID (rGrant r)) (Reserved r)) (db s)) as (a & Ha & Hok & Hsp & Hb & Hpol & Hq); auto.
  { by apply Validate_iff in Hv as (_&_&_&_&?). }
  { unfold durable; simpl. unfold db_durable. by rewrite Hr. }
  rewrite Ha. destruct (active r) eqn:Hact; simpl.
  - rewrite (Hfree eq_refl). simpl. unfold active in Hact. apply andb_true_iff in Hact as [_ Hs].
    apply negb_true_iff in Hs. rewrite Hs. simpl.
    exists (SetClock (s_clock s) a). split_and!; auto using SetClock_ok.
  - exists (SetClock (s_clock s) (if Suspended r then Quarantine a else a)).
    unfold Quarantine. rewrite Hq. pose proof (Quarantine_ok a (db s) Hok) as Hok'.
    unfold Quarantine in Hok'. rewrite Hq in Hok'.
    destruct (Suspended r); split_and!; auto using SetClock_ok.
Qed.

(** Bringing a fresh grant to life keeps the invariant, whatever fails. *)
Lemma create_ok now r s s' res :
  store_ok s -> fresh_grant s r -> create now r s = (s', res) ->
  store_ok s' /\
  match res with
  | Fail _ => True
  | Ok _ => grants (db s') !! ID (rGrant r) = Some (Stored r)
  end.
Proof.
  intros Hs (Hv & Hp & Hres & Hsus & Hnone & Hfree). unfold create.
  destruct (db_update _ (db s)) as [d u] eqn:Hu. apply db_update_cases in Hu as [Hj Hu].
  destruct u as [u|]; [|intros [= <- <-]; auto using faults_irrelevant].
  injection Hu as Hu. unfold save in Hu.
  assert (filed d) as Hf by (eapply filed_save; [apply Hs|symmetry; exact Hu]).
  assert (forall k, k <> ID (rGrant r) -> grants d !! k = grants (db s) !! k) as Hfr.
  { intros k Hk. rewrite <-Hu. by rewrite lookup_insert_ne. }
  assert (grants d !! ID (rGrant r) = Some (Stored r)) as Hr by (rewrite <-Hu; apply lookup_insert_eq).
  assert (active r = Enabled (gPolicy (rGrant r))) as Hact.
  { unfold active. rewrite Hsus. apply andb_true_r. }
  destruct (restore_result now r (with_db s d)) as (a & -> & Hok & Hb & Hpol & Hq & Hc & Hsp); auto.
  { rewrite Hres. machine. }
  { rewrite Hact. auto. }
  intros [= <- <-]. rewrite Hact. split; [|done]. destruct Hs. rewrite so_journal0 in Hj. split; simpl; auto.
  - intros k c. rewrite lookup_insert. case_decide as Hk; [intros [= <-]; subst k|intros Hk'].
    + split_and!; auto. exists (mkBacking (ID (rGrant r)) (Reserved r)), r.
      split_and!; auto. congruence.
    + apply (entry_ok_frame s d k c); auto.
  - intros k v. rewrite lookup_insert. case_decide as Hk; [subst k; rewrite Hr; intros [= <-]; eauto|].
    rewrite Hfr by done. apply so_record0.
  - intros c k Hk.
    assert (clients s !! c = Some k -> exists q, grants d !! k = Some (Stored q) /\
      ClientID (rGrant q) = c /\ Enabled (gPolicy (rGrant q)) = true /\ Suspended q = false) as Hold.
    { intros Hc'. destruct (so_holder0 c k Hc') as (q & Hq' & ?). exists q. split; [|done].
      rewrite Hfr; [done|]. intros ->. destruct (so_record0 _ _ Hq') as (?&_&?&?). congruence. }
    destruct (Enabled (gPolicy (rGrant r))) eqn:He; [|auto].
    rewrite lookup_insert in Hk. case_decide; [|auto]. simplify_eq. eauto.
  - intros k q Hk He Hsq. destruct (decide (k = ID (rGrant r))) as [->|Hne].
    + simplify_eq. rewrite He. by rewrite lookup_insert_eq.
    + rewrite Hfr in Hk by done. pose proof (so_active0 k q Hk He Hsq) as Hcl.
      destruct (Enabled (gPolicy (rGrant r))) eqn:He'; [|done].
      rewrite lookup_insert_ne; [done|]. intros Heq. rewrite <-Heq, Hfree in Hcl; done.
Qed.

(** ** Applying grants *)

Lemma settle_noop s id r :
  store_ok s -> grants (db s) !! id = Some (Stored r) -> Suspended r = false ->
  settle_client (Enabled (gPolicy (rGrant r))) (ClientID (rGrant r)) id s = s.
Proof.
  intros Hs Hr Hsus. pose proof Hs as []. unfold settle_client.
  destruct (Enabled (gPolicy (rGrant r))) eqn:He.
  - unfold with_clients. rewrite insert_id by auto. by destruct s.
  - split_guard; [|done]. exfalso. unfold client_grant in G.
    destruct (clients s !! ClientID (rGrant r)) as [k|] eqn:Hk; simpl in G.
    + subst k. destruct (so_holder0 _ _ Hk) as (q & Hq & _ & ? & _). congruence.
    + subst id. destruct (so_record0 _ _ Hr) as (_ & _ & a & Ha).
      destruct (so_entry0 _ _ Ha) as (_&_&b&q&_&_&Hq&Hv&_). simplify_eq.
      apply Validate_iff in Hv as (Hv&_). rewrite (so_filed0 _ _ Hr) in Hv.
      by apply ValidID_nonempty in Hv.
Qed.

Lemma RetainCredit_typed p q : policy_typed p -> policy_typed q -> policy_typed (RetainCredit p q).
Proof. intros. unfold RetainCredit. split_guard; [done|]. cbv zeta. split_guard; done. Qed.

Lemma RetainCredit_enabled p q : Enabled (RetainCredit p q) = Enabled p.
Proof.
  unfold RetainCredit. split_guard; [done|]. cbv zeta. split_guard; [|done]. by rewrite <-G0.
Qed.

(** The record of a live account, as [lookup_record] sees it. *)
Lemma lookup_live s id (a : Account) :
  store_ok s -> accounts s !! id = Some a ->
  exists r, lookup_record s id = Ok (Some r) /\ grants (db s) !! id = Some (Stored r) /\
    ID (rGrant r) <> ""%string /\ gPolicy (rGrant r) = policy a.
Proof.
  intros Hs Ha. pose proof Hs as []. destruct (entry_record s id a (so_entry0 _ _ Ha))
    as (b & r & _ & _ & Hr & Hp & _ & _ & Hv & _).
  exists r. unfold lookup_record. rewrite Hr. simpl. split_and!; auto.
  apply Validate_iff in Hv as (Hv&_). by apply ValidID_nonempty.
Qed.

Lemma lookup_dead s id :
  store_ok s -> accounts s !! id = None -> lookup_record s id = Ok None.
Proof.
  intros [] Ha. unfold lookup_record. destruct (grants (db s) !! id) as [v|] eqn:Hr; [|done].
  destruct (so_record0 _ _ Hr) as (_ & _ & ? & ?). congruence.
Qed.

(** Free or already this grant's: what the guard on [existing] leaves. *)
Lemma client_free s c id :
  store_ok s ->
  client_grant s c = ""%string \/ client_grant s c = id ->
  clients s !! c = None \/ clients s !! c = Some id.
Proof.
  intros Hs Hc. unfold client_grant in Hc. destruct (clients s !! c) as [k|] eqn:Hk; [|auto].
  simpl in Hc. destruct Hc as [->| ->]; [|auto]. by apply holder_nonempty in Hk.
Qed.

Lemma create_settled_ok now r s s' res :
  store_ok s -> fresh_grant s r -> create now r s = (s', res) ->
  store_ok s' /\
  (forall u, res = Ok u ->
   store_ok (settle_client (Enabled (gPolicy (rGrant r))) (ClientID (rGrant r)) (ID (rGrant r)) s')).
Proof.
  intros Hs Hf Hc. pose proof Hf as (_&_&_&Hsus&_). apply create_ok in Hc as [Hs' Hr]; [|done..].
  split; [done|]. intros u ->. by rewrite settle_noop.
Qed.

Lemma Store_Apply_ok now g s s' r :
  store_ok s -> policy_typed (gPolicy g) -> Store_Apply now g s = (s', r) -> store_ok s'.
Proof.
  intros Hs Hp. unfold Store_Apply. destruct (Validate g) as [[]|] eqn:Hv; [|by intros [= <- <-]].
  cbv zeta. split_guard; [by intros [= <- <-]|].
  assert (Enabled (gPolicy g) = true ->
    clients s !! ClientID g = None \/ clients s !! ClientID g = Some (ID g)) as Hfree.
  { intros He. apply client_free; [done|]. destruct_or!; auto; congruence. }
  destruct (accounts s !! ID g) as [a|] eqn:Ha.
  - destruct (lookup_live s _ a Hs Ha) as (q & Hl & Hq & Hne & Hpol). rewrite Hl.
    split_guard; [by intros [= <- <-]|]. split_guard; [by intros [= <- <-]|].
    assert (ClientID (rGrant q) = ClientID g) as Hcl.
    { destruct_or?; destruct_and?; try congruence; by apply dec_stable. }
    destruct (entry_backing s _ a Hs Ha) as (Hok & b & Hb & Hid).
    set (p := RetainCredit (gPolicy g) (policy a)).
    assert (policy_typed p) as Htp by (destruct Hok; by apply RetainCredit_typed).
    destruct (Apply now.1 p a (db s)) as [[a' d] res] eqn:Hap.
    pose proof (Apply_policy _ _ _ _ _ _ _ Hok Htp Hap) as Hpa.
    apply Apply_no_spend in Hap as Hn; [|done..].
    destruct (no_spend_backing _ _ _ _ _ Hn Hb) as [Hb' Hst]. rewrite Hid in *.
    destruct Hn as (?&_&_&_&?&?&_).
    destruct res as [u|]; intros [= <- <-].
    + rewrite <-Hpa, <-Hcl. eapply account_update_settled; eauto.
      rewrite Hcl, Hpa. unfold p. rewrite RetainCredit_enabled. done.
    + eapply account_update_same; eauto. by subst.
  - rewrite lookup_dead by done. simpl.
    destruct (create now (mkRecord g 0 false) s) as [s1 res] eqn:Hc.
    apply create_settled_ok in Hc as [Hs1 Hset]; [|done|].
    + destruct res as [u|]; intros [= <- <-]; [|done]. by eapply Hset.
    + unfold fresh_grant; simpl. split_and!; auto. intros He. destruct (Hfree He) as [?|Hh]; [done|].
      destruct Hs. destruct (so_holder0 _ _ Hh) as (q & Hq & _).
      destruct (so_record0 _ _ Hq) as (_&_&?&?). congruence.
Qed.

(** ** Authority batches *)

(** The step concerned one grant and one client. *)
Definition touches (id c : string) (s s' : Store) : Prop :=
  (forall k, k <> id -> accounts s' !! k = accounts s !! k /\
                        grants (db s') !! k = grants (db s) !! k) /\
  (forall k, k <> c -> clients s' !! k = clients s !! k).

Lemma touches_settle en id c s s' :
  touches id c s s' -> touches id c s (settle_client en c id s').
Proof.
  intros [Ha Hc]. split; [by unfold settle_client; destruct en; [|split_guard]|].
  intros k Hk. unfold settle_client. destruct en; simpl; [by rewrite lookup_insert_ne; auto|].
  split_guard; simpl; [by rewrite lookup_delete_ne; auto|auto].
Qed.

Lemma touches_account s id c (a' : Account) d' :
  db_step id (db s) d' -> touches id c s (with_account s id a' d').
Proof. intros (_&_&Hfr&_). split; [|done]. intros k Hk. simpl. by rewrite lookup_insert_ne; auto. Qed.

Lemma touches_create now r s s' res :
  create now r s = (s', res) -> touches (ID (rGrant r)) (ClientID (rGrant r)) s s'.
Proof.
  unfold create. destruct (db_update _ (db s)) as [d u] eqn:Hu. apply db_update_cases in Hu as [_ Hu].
  destruct u as [u|]; [|intros [= <- <-]; split; [intros; simpl; by rewrite Hu|done]].
  injection Hu as Hu. unfold save in Hu.
  assert (forall k, k <> ID (rGrant r) -> grants d !! k = grants (db s) !! k) as Hfr.
  { intros k Hk. rewrite <-Hu. by rewrite lookup_insert_ne. }
  unfold restore. destruct (Validate (rGrant r)); [|intros [= <- <-]; split; auto].
  cbv zeta. split_guard; [intros [= <- <-]; split; auto|].
  destruct (Restore_account _ _ _ _ _);
    destruct (Enabled (gPolicy (rGrant r)) && negb (Suspended r)); intros [= <- <-];
    split; simpl; auto; intros k Hk; simpl; rewrite ?lookup_insert_ne by done; auto.
Qed.

(** What validation established of an update, kept while others are applied. *)
Definition pending (s : Store) (u : PolicyUpdate) : Prop :=
  Validate (L := L) (update_grant u) = Ok tt /\ policy_typed (uPolicy u) /\
  match accounts s !! uGrantID u with
  | Some _ => exists r, grants (db s) !! uGrantID u = Some (Stored r) /\
      ClientID (rGrant r) = uClientID u /\ Suspended r = false
  | None => clients s !! uClientID u = None
  end.

Lemma pending_touches s s' u id c :
  touches id c s s' -> uGrantID u <> id -> uClientID u <> c -> pending s u -> pending s' u.
Proof.
  intros [Ha Hc] Hi Hcl (?&?&Hm). destruct (Ha _ Hi) as [Ha' Hg]. unfold pending.
  rewrite Ha', Hg, Hc by done. auto.
Qed.

Lemma update_step_ok now at_ i u s s' r :
  store_ok s -> pending s u -> update_step now at_ i u s = (s', r) ->
  store_ok s' /\ touches (uGrantID u) (uClientID u) s s'.
Proof.
  intros Hs (Hv & Hp & Hm). unfold update_step.
  destruct (accounts s !! uGrantID u) as [a|] eqn:Ha.
  - destruct Hm as (q & Hq & Hqc & Hsus). destruct (entry_backing s _ a Hs Ha) as (Hok & b & Hb & Hid).
    destruct (lookup_live s _ a Hs Ha) as (q' & _ & Hq' & _ & Hqp). simplify_eq.
    destruct (ApplyAuthority _ _ _ a (db s)) as [[a' d] res] eqn:Hap.
    pose proof (ApplyAuthority_policy _ _ _ _ _ _ _ _ Hok Hp Hap) as Hpa.
    apply ApplyAuthority_no_spend in Hap as Hn; [|done..].
    destruct (no_spend_backing _ _ _ _ _ Hn Hb) as [Hb' Hst]. rewrite Hid in *.
    destruct Hn as (?&_&_&_&?&?&_).
    destruct res as [[]|]; intros [= <- <-];
      [|split; [eapply account_update_same; eauto; by subst|by apply touches_account]].
    split; [|by apply touches_settle, touches_account].
    destruct Hpa as [Hmg _]. pose proof Hok as [].
    apply MergeAuthority_spec in Hmg as (_&_&Hadv&Heq); [|done..].
    assert (Enabled (policy a') = Enabled (uPolicy u)) as Hen by (rewrite Heq; by destruct (_ <? _)).
    rewrite <-Hen, <-Hqc. eapply account_update_settled; eauto. intros He. right.
    destruct Hs. rewrite <-Hqp in *. apply so_active0; auto.
    destruct Hadv as [Heq'|Hadv]; [by rewrite <-Heq'|].
    apply AuthorityAdvance_spec in Hadv as (_&_&_&_&_&Hen'&_). auto.
  - destruct (create (now i) (mkRecord (update_grant u) 0 false) s) as [s1 res] eqn:Hc.
    pose proof (touches_create _ _ _ _ _ Hc) as Ht. simpl in Ht.
    apply create_settled_ok in Hc as [Hs1 Hset]; [|done|unfold fresh_grant; simpl; split_and!; auto].
    destruct res as [[]|]; intros [= <- <-]; [|auto]. split; [by eapply Hset|by apply touches_settle].
Qed.

Lemma saved_records_spec updates (s : Store) l :
  saved_records updates s = Ok l ->
  l.*1 = updates /\ forall u saved, (u, saved) ∈ l -> lookup_record s (uGrantID u) = Ok saved.
Proof.
  revert l. induction updates as [|u us IH]; simpl; intros l; [intros [= <-]; set_solver|].
  destruct (lookup_record s (uGrantID u)) as [saved|] eqn:Hl; [|done].
  unfold mbind, result_bind. destruct (saved_records us s) as [l'|] eqn:Hs; [|done].
  intros Heq. apply (f_equal (fun r => match r with Ok l => l | _ => [] end)) in Heq as <-.
  destruct (IH l' eq_refl) as [<- Hi]. split; [done|].
  intros u' saved' [[= -> ->]|Hin]%elem_of_cons; eauto.
Qed.

Lemma check_updates_spec poll at_ l s :
  store_ok s -> forall i seen owners,
  (forall u saved, (u, saved) ∈ l ->
     lookup_record s (uGrantID u) = Ok saved /\ policy_typed (uPolicy u)) ->
  check_updates poll at_ i seen owners l s = Ok tt ->
  NoDup (uGrantID <$> l.*1) /\ NoDup (uClientID <$> l.*1) /\
  Forall (fun u => uGrantID u ∉ seen /\ uClientID u ∉ owners /\ pending s u) l.*1.
Proof.
  intros Hs. induction l as [|[u saved] l IH]; simpl; intros i seen owners Hl.
  { intros _. split_and!; constructor. }
  destruct (poll i); [done|]. split_guard; [done|]. unfold mbind, result_bind.
  destruct (check_update (at_ i) saved u s) as [[]|] eqn:Hc; [|done]. intros Hrest.
  apply IH in Hrest as (Hn1 & Hn2 & Hall); [|intros; apply Hl; set_solver].
  rewrite Forall_forall in Hall. destruct_and!.
  split_and!; [apply NoDup_cons; split; [|done]; intros (x&Hx&Hin)%list_elem_of_fmap;
               specialize (Hall _ Hin); set_solver..|].
  apply Forall_cons. split; [|apply Forall_forall; intros x Hx; specialize (Hall x Hx); set_solver].
  split_and!; auto. destruct (Hl u saved) as [Hlk Hp]; [set_solver|].
  split_and!; auto.
  { by destruct (Validate (update_grant u)) as [[]|]. }
  destruct (accounts s !! uGrantID u) as [a|] eqn:Ha.
  - destruct (lookup_live s _ a Hs Ha) as (r & Hr & Hg & Hne & _). rewrite Hr in Hlk. simplify_eq.
    simpl in Hc. rewrite bool_decide_eq_false_2 in Hc by done.
    split_guard_in Hc; [done|]. destruct_and!. exists r. split_and!; auto. by apply dec_stable.
  - rewrite lookup_dead in Hlk by done. simplify_eq. simpl in Hc. unfold check_new_update in Hc.
    split_guard_in Hc; [done|]. by apply client_grant_empty.
Qed.

Lemma batch_updates_ok poll now at_ updates : forall i s s' r,
  store_ok s -> NoDup (uGrantID <$> updates) -> NoDup (uClientID <$> updates) ->
  Forall (pending s) updates ->
  batch poll (update_step now at_) i updates s = (s', r) -> store_ok s'.
Proof.
  induction updates as [|u us IH]; simpl; intros i s s' r Hs Hn1 Hn2 Hp; [by intros [= <- <-]|].
  destruct (poll i); [by intros [= <- <-]|].
  apply NoDup_cons in Hn1 as [Hi1 Hn1]. apply NoDup_cons in Hn2 as [Hi2 Hn2].
  apply Forall_cons in Hp as [Hu Hp].
  destruct (update_step now at_ i u s) as [s1 res] eqn:Hst.
  apply update_step_ok in Hst as [Hs1 Ht]; [|done..].
  destruct res; [|by intros [= <- <-]]. apply IH; auto.
  rewrite Forall_forall in Hp |- *. intros x Hx. eapply pending_touches; eauto.
  - intros Heq. apply Hi1. rewrite <-Heq. by apply list_elem_of_fmap_2.
  - intros Heq. apply Hi2. rewrite <-Heq. by apply list_elem_of_fmap_2.
Qed.

Lemma validated_updates poll at_ updates s :
  store_ok s -> (forall u, u ∈ updates -> policy_typed (uPolicy u)) ->
  validateAuthorityLocked poll at_ updates s = Ok tt ->
  NoDup (uGrantID <$> updates) /\ NoDup (uClientID <$> updates) /\ Forall (pending s) updates.
Proof.
  intros Hs Hp Hv. unfold validateAuthorityLocked in Hv. split_guard_in Hv; [done|].
  unfold mbind, result_bind in Hv.
  destruct (saved_records updates s) as [l|] eqn:Hl; [|done].
  apply saved_records_spec in Hl as [Hm Hl].
  apply check_updates_spec in Hv as (Hn1 & Hn2 & Hall); [|done|].
  - rewrite Hm in *. split_and!; auto.
    rewrite Forall_forall in Hall |- *. intros x Hx. by apply Hall.
  - intros u saved Hu. split; [auto|]. apply Hp. rewrite <-Hm.
    change u with ((u, saved).1). by apply list_elem_of_fmap_2.
Qed.

Lemma Store_ApplyAuthority_ok poll poll' at_ at' now updates s s' r :
  store_ok s -> (forall u, u ∈ updates -> policy_typed (uPolicy u)) ->
  Store_ApplyAuthority poll poll' at_ at' now updates s = (s', r) -> store_ok s'.
Proof.
  intros Hs Hp. unfold Store_ApplyAuthority.
  destruct (validateAuthorityLocked poll at_ updates s) as [[]|] eqn:Hv; [|by intros [= <- <-]].
  apply validated_updates in Hv as (?&?&?); auto. by apply batch_updates_ok.
Qed.

(** ** Clocks and reconciliation *)

Lemma Store_SetClock_ok b s : store_ok s -> store_ok (Store_SetClock b s).
Proof.
  intros []. split; simpl; auto.
  - intros id a. rewrite lookup_fmap. destruct (accounts s !! id) as [a0|] eqn:Ha; [|done].
    intros [= <-]. destruct (so_entry0 _ _ Ha) as (?&_&b'&r&?&?&?&?&?).
    split_and!; auto using SetClock_ok. exists b', r. auto.
  - intros id v Hv. destruct (so_record0 id v Hv) as (r & -> & a & Ha). exists r. split; [done|].
    rewrite lookup_fmap, Ha. simpl. eauto.
Qed.

Lemma suspend_unwanted_spec wanted ids : forall g g',
  (forall k r, g !! k = Some (Stored r) -> ID (rGrant r) = k) ->
  suspend_unwanted wanted ids g = Ok g' ->
  forall k,
    (k ∈ ids /\ k ∉ wanted /\ exists r, g !! k = Some (Stored r) /\
       g' !! k = Some (Stored (mkRecord (rGrant r) (Reserved r) true))) \/
    ((k ∉ ids \/ k ∈ wanted) /\ g' !! k = g !! k).
Proof.
  unfold suspend_unwanted. induction ids as [|id ids IH]; simpl; intros g g' Hf.
  { intros [= <-] k. right. split; [left; set_solver|done]. }
  split_guard.
  - intros Hg k. destruct (IH g g' Hf Hg k) as [(?&?&?)|([]&?)];
      [left; split_and!; [set_solver|done|done]| |right; auto].
    destruct (decide (k ∈ wanted)); [right; auto|]. right. split; [left|done].
    intros [->|?]%elem_of_cons; done.
  - unfold mbind, result_bind. destruct (unmarshal (g !! id)) as [r|] eqn:Hr; [|done].
    apply unmarshal_ok in Hr. unfold save. simpl. rewrite (Hf _ _ Hr). intros Hg k.
    apply IH with (k := k) in Hg.
    2: { intros k' q. rewrite lookup_insert. case_decide as Hk; [|apply Hf].
         intros [= <-]. simpl. rewrite <-Hk. exact (Hf _ _ Hr). }
    rewrite lookup_insert in Hg. case_decide as Hk.
    + subst k. left. split_and!; [set_solver|done|]. exists r. split; [done|].
      destruct Hg as [(_&_&q&[= <-]&->)|(_&->)]; done.
    + destruct Hg as [(?&?&?)|([]&?)]; [left; split_and!; [set_solver|done|done]| |right; auto].
      right. split; [left|done]. intros [->|?]%elem_of_cons; done.
Qed.

(** Suspending whatever is not wanted keeps the invariant. *)
Lemma suspend_ok wanted s d u :
  store_ok s ->
  db_update (suspend_unwanted wanted (map_to_list (accounts s)).*1) (db s) = (d, Ok u) ->
  store_ok (mkStore d (map_imap (fun id a => Some (quarantine_unwanted wanted id a)) (accounts s))
              (filter (fun kv => kv.2 ∈ wanted) (clients s)) (journalID s) (s_clock s)).
Proof.
  intros Hs Hu. pose proof Hs as []. apply db_update_cases in Hu as [Hj Hu].
  pose proof (suspend_unwanted_spec _ _ _ _ so_filed0 Hu) as Hk.
  assert (forall k, k ∈ (map_to_list (accounts s)).*1 <-> is_Some (accounts s !! k)) as Hdom.
  { intros k. rewrite list_elem_of_fmap. split.
    - intros ([k' a]&->&Hin). apply elem_of_map_to_list in Hin. simpl. eauto.
    - intros [a Ha]. exists (k, a). split; [done|]. by apply elem_of_map_to_list. }
  assert (filed d) as Hf.
  { intros k r Hr. destruct (Hk k) as [(_&_&q&Hq&Hq')|(_&Heq)]; [|rewrite Heq in Hr; auto].
    rewrite Hq' in Hr. simplify_eq. simpl. auto. }
  assert (forall k r, grants d !! k = Some (Stored r) ->
    (k ∈ wanted /\ grants (db s) !! k = Some (Stored r)) \/
    (k ∉ wanted /\ Suspended r = true /\ exists q, grants (db s) !! k = Some (Stored q) /\
       rGrant q = rGrant r /\ Reserved q = Reserved r)) as Hback.
  { intros k r Hr. destruct (Hk k) as [(Hi&Hw&q&Hq&Hq')|([Hi|Hw]&Heq)].
    - rewrite Hq' in Hr. simplify_eq. right. split_and!; auto. exists q. done.
    - rewrite Heq in Hr. destruct Hi. apply Hdom. by destruct (so_record0 _ _ Hr) as (?&_&?).
    - rewrite Heq in Hr. auto. }
  split; simpl; auto; [| | | |by rewrite Hj].
  - intros id a. rewrite map_lookup_imap. destruct (accounts s !! id) as [a0|] eqn:Ha; [|done].
    intros [= <-]. destruct (so_entry0 _ _ Ha) as (Hok & Hc & b & r & Hb & Hid & Hr & Hv & Hsus).
    unfold quarantine_unwanted. split_guard.
    + destruct (Hk id) as [(_&?&_)|(_&Heq)]; [done|]. 
      destruct (entry_ok_frame s d id a0 (so_entry0 _ _ Ha) Hf Heq) as (?&?&b'&r'&?).
      split_and!; auto. exists b', r'. auto.
    + destruct (Hk id) as [(_&_&q&Hq&Hq')|([Hn|?]&_)]; [|destruct Hn; apply Hdom; eauto|done].
      simplify_eq. split_and!.
      * apply Quarantine_ok. destruct Hok. split; auto. unfold backed in *. rewrite Hb in *.
        destruct ok_backed as [Hd ?]. split; [|done]. rewrite <-Hd.
        unfold durable, handle_id; simpl. unfold db_durable. by rewrite Hr, Hq'.
      * unfold Quarantine. by destruct (quarantined a0).
      * exists b. eexists. split_and!; [|done|exact Hq'|done|].
        -- unfold Quarantine. by destruct (quarantined a0).
        -- unfold Quarantine. by destruct (quarantined a0) eqn:?.
  - intros id v Hv. destruct (Hk id) as [(Hi&_&q&_&Hq)|(_&Heq)].
    + rewrite Hq in Hv. simplify_eq. eexists. split; [done|]. apply Hdom in Hi as [a Ha].
      rewrite map_lookup_imap, Ha. simpl. eauto.
    + rewrite Heq in Hv. destruct (so_record0 _ _ Hv) as (r&->&a&Ha). exists r. split; [done|].
      rewrite map_lookup_imap, Ha. simpl. eauto.
  - intros c id Hc. apply map_lookup_filter_Some in Hc as [Hc Hw]. simpl in Hw.
    destruct (so_holder0 c id Hc) as (r & Hr & ?). exists r. split; [|done].
    destruct (Hk id) as [(_&?&_)|(_&->)]; done.
  - intros id r Hr He Hsus. destruct (Hback _ _ Hr) as [[Hw Hr']|(_&?&_)]; [|congruence].
    apply map_lookup_filter_Some. split; [by apply so_active0|done].
Qed.

Lemma apply_all_ok now l : forall i s s' r,
  store_ok s -> (forall g, g ∈ l -> policy_typed (gPolicy g)) ->
  apply_all now i l s = (s', r) -> store_ok s'.
Proof.
  induction l as [|g l IH]; simpl; intros i s s' r Hs Hp; [by intros [= <- <-]|].
  destruct (Store_Apply (now i) g s) as [s1 r1] eqn:Ha.
  apply Store_Apply_ok in Ha; [|done|apply Hp; set_solver].
  destruct r1; [|by intros [= <- <-]]. apply IH; [done|]. intros. apply Hp. set_solver.
Qed.

Lemma Reconcile_ok now l s s' r :
  store_ok s -> (forall g, g ∈ l -> policy_typed (gPolicy g)) ->
  Reconcile now l s = (s', r) -> store_ok s'.
Proof.
  intros Hs Hp. unfold Reconcile. destruct (check_wanted ∅ ∅ l) as [wanted|]; [|by intros [= <- <-]].
  destruct (db_update _ (db s)) as [d [u|e]] eqn:Hu.
  - apply apply_all_ok; [|done]. by eapply suspend_ok.
  - apply db_update_cases in Hu as [Hj Hu]. intros [= <- <-]. by apply faults_irrelevant.
Qed.

End Invariant.
