(* ===== verification/GovernorRuns.v ===== *)
(** * Runs of the grant store

    Opening a database, and everything that can happen to a store between two
    openings: the invariant of GovernorInvariant holds in every reachable state,
    and a crash followed by [Open] loses no spend. *)
From S2P Require Import Prelude Limits LimitsFacts Authority Governor GovernorFacts GovernorInvariant.

Section Runs.
Context {L : Type} `{!RateLimiter L} `{!RateLimiterLaws L} `{!UUIDs} `{!UUIDLaws}.

Abbreviation Store := (Store L).
Abbreviation Account := (Account L backing).

(** What the file of a store must satisfy to be opened. *)
Record db_ok (d : DB) : Prop := {
  do_filed : filed d;
  do_record : forall k v, grants d !! k = Some v ->
    exists r, v = Stored r /\ Validate (L := L) (rGrant r) = Ok tt /\
      policy_typed (gPolicy (rGrant r)) /\ 0 <= Reserved r <= MaxUint64;
  do_unique : forall k k' r r',
    grants d !! k = Some (Stored r) -> grants d !! k' = Some (Stored r') ->
    active r = true -> active r' = true ->
    ClientID (rGrant r) = ClientID (rGrant r') -> k = k';
  do_journal : forall j, journal d = Some j -> ValidID j = true }.

Lemma active_iff r :
  active r = true <-> Enabled (gPolicy (rGrant r)) = true /\ Suspended r = false.
Proof. unfold active. by bools. Qed.

Lemma store_db_ok (s : Store) : store_ok s -> db_ok (db s).
Proof.
  intros Hs. pose proof Hs as []. split; auto.
  - intros k v Hv. destruct (so_record _ _ Hv) as (r & -> & a & Ha). exists r. split; [done|].
    destruct (entry_record s k a (so_entry _ _ Ha)) as (b&q&_&_&Hq&Hp&_&Hsp&?&_). simplify_eq.
    destruct (so_entry _ _ Ha) as (Hok&_&b'&q'&Hb'&Hid&_). destruct Hok.
    unfold backed in ok_backed. rewrite Hb' in ok_backed. destruct ok_backed as [Hd ?].
    unfold durable, handle_id in Hd; simpl in Hd. unfold db_durable in Hd.
    rewrite Hid, Hv in Hd. simplify_eq. rewrite Hp. split_and!; auto; unfold spent in *; simpl in *; lia.
  - intros k k' r r' Hr Hr' [He Hn]%active_iff [He' Hn']%active_iff Hc.
    pose proof (so_active _ _ Hr He Hn). pose proof (so_active _ _ Hr' He' Hn'). congruence.
  - intros j Hj. congruence.
Qed.

(** One grant as [Open] leaves it: spent up to its durable mark. *)
Definition opened (s : Store) (k : string) : Prop :=
  exists r a, grants (db s) !! k = Some (Stored r) /\ accounts s !! k = Some a /\
    account_ok a (db s) /\ persistence a = Some (mkBacking k (Reserved r)) /\
    policy a = gPolicy (rGrant r) /\ quarantined a = Suspended r /\ clock a = s_clock s /\
    spent a = Reserved r.

Definition loading (d : DB) (done : list string) (s : Store) : Prop :=
  db s = d /\ s_clock s = false /\ (forall k, k ∈ done -> opened s k) /\
  (forall k a, accounts s !! k = Some a -> k ∈ done) /\
  (forall c k, clients s !! c = Some k <->
     k ∈ done /\ exists r, grants d !! k = Some (Stored r) /\ ClientID (rGrant r) = c /\
       active r = true).

Lemma open_entry_ok now d done s k r :
  db_ok d -> loading d done s -> k ∉ done -> grants d !! k = Some (Stored r) ->
  exists s', open_entry now s (k, Stored r) = Ok s' /\ loading d (k :: done) s' /\
    journalID s' = journalID s.
Proof.
  intros [] (Hdb & Hck & Hdone & Hacc & Hcl) Hk Hr.
  destruct (do_record0 _ _ Hr) as (r' & [= <-] & Hv & Hp & Hres).
  pose proof (do_filed0 _ _ Hr) as Hid. unfold open_entry. simpl.
  rewrite bool_decide_eq_false_2 by auto.
  destruct (restore_result now r s) as (a & -> & Hok & Hb & Hpol & Hq & Hc & Hsp); auto.
  { by rewrite Hdb. } { by rewrite Hdb, Hid. }
  { intros Ha. destruct (clients s !! ClientID (rGrant r)) as [k'|] eqn:Hc; [|done].
    apply Hcl in Hc as (Hin & q & Hq & Hqc & Hqa). destruct Hk.
    assert (k = k') as ->; [|done]. apply (do_unique0 k k' r q); auto; congruence. }
  eexists. split; [done|]. split; [|done]. rewrite Hid in *. split_and!; simpl; auto.
  - intros k' Hin. unfold opened; simpl. rewrite lookup_insert. case_decide as Hkk.
    + subst k'. exists r, a. rewrite Hdb in *. split_and!; auto.
    + apply elem_of_cons in Hin as [->|Hin]; [done|]. apply (Hdone k' Hin).
  - intros k' b. rewrite lookup_insert. case_decide; [subst; left|right; eauto].
  - intros c k'. rewrite elem_of_cons.
    assert (active r = true -> ClientID (rGrant r) = c -> clients s !! c = Some k' -> False) as Hno.
    { intros Ha Hc' (Hin&q&Hq'&Hqc&Hqa)%Hcl. destruct Hk.
      assert (k = k') as ->; [|done]. apply (do_unique0 k k' r q); auto; congruence. }
    split.
    + intros Hk'. assert (clients s !! c = Some k' \/
        (active r = true /\ ClientID (rGrant r) = c /\ k' = k)) as [Ho|(?&?&->)]; [|eauto 6..].
      * destruct (active r); [|auto]. rewrite lookup_insert in Hk'. case_decide; [|auto].
        simplify_eq. auto.
      * apply Hcl in Ho as (?&?). auto.
    + intros ([->|Hin]&q&Hq'&Hqc&Hqa).
      * simplify_eq. rewrite Hqa. by rewrite lookup_insert_eq.
      * assert (clients s !! c = Some k') as Ho by (apply Hcl; eauto).
        destruct (active r) eqn:Ha; [|done]. rewrite lookup_insert_ne; [done|].
        intros Heq. by apply Hno.
Qed.

Lemma load_ok now d l : forall done s,
  db_ok d -> NoDup l.*1 -> (forall k v, (k, v) ∈ l -> grants d !! k = Some v) ->
  (forall k, k ∈ l.*1 -> k ∉ done) -> loading d done s ->
  exists s' done', foldM (open_entry now) s l = Ok s' /\ loading d done' s' /\
    (forall k, k ∈ done' <-> k ∈ l.*1 \/ k ∈ done) /\ journalID s' = journalID s.
Proof.
  induction l as [|[k v] l IH]; simpl; intros done s Hd Hn Hl Hdis Hs.
  { exists s, done. split_and!; auto. set_solver. }
  apply NoDup_cons in Hn as [Hk Hn]. pose proof (Hl k v ltac:(left)) as Hv.
  pose proof Hd as []. destruct (do_record0 _ _ Hv) as (r & -> & _).
  destruct (open_entry_ok now d done s k r) as (s1 & -> & Hs1 & Hj); auto.
  { apply Hdis. left. }
  destruct (IH (k :: done) s1) as (s' & done' & Hf & Hld & Hin & Hj'); auto.
  { intros k' v' Hin. apply Hl. by right. }
  { intros k' Hin [->|Hi]%elem_of_cons; [done|]. apply (Hdis k'); [by right|done]. }
  exists s', done'. split_and!; auto; [|congruence]. intros k'. rewrite Hin, !elem_of_cons. tauto.
Qed.

(** All grants loaded: the store is well formed. *)
Lemma loaded_ok d done s :
  db_ok d -> loading d done s -> (forall k v, grants d !! k = Some v -> k ∈ done) ->
  forall d', grants d' = grants d -> journal d' = Some (journalID s) ->
  ValidID (journalID s) = true -> store_ok (with_db s d').
Proof.
  intros [] (Hdb & Hck & Hdone & Hacc & Hcl) Hall d' Hg Hj Hjv.
  assert (filed d') as Hf by (intros k r; rewrite Hg; apply do_filed0).
  split; simpl; auto; rewrite ?Hg.
  - intros k a Ha. destruct (Hdone k (Hacc _ _ Ha)) as (r&a'&Hr&Ha'&Hok&Hb&Hp&Hq&Hc&Hsp).
    simplify_eq. apply entry_ok_frame; [|done|congruence].
    split_and!; auto. exists (mkBacking k (Reserved r)), r. split_and!; auto; [|congruence].
    by destruct (do_record0 _ _ Hr) as (?&[= <-]&?&_).
  - intros k v Hv. destruct (do_record0 _ _ Hv) as (r&->&_). exists r. split; [done|].
    destruct (Hdone k (Hall _ _ Hv)) as (?&?&_&?&_). eauto.
  - intros c k Hc. apply Hcl in Hc as (_&r&?&?&Ha). apply active_iff in Ha as []. eauto 6.
  - intros k r Hr He Hs. apply Hcl. split; [eauto|]. exists r. rewrite active_iff. auto.
Qed.

Lemma fmap_fst_lookup d k : k ∈ (map_to_list (grants d)).*1 <-> is_Some (grants d !! k).
Proof.
  rewrite list_elem_of_fmap. split.
  - intros ([k' a]&->&Hin). apply elem_of_map_to_list in Hin. simpl. eauto.
  - intros [a Ha]. exists (k, a). split; [done|]. by apply elem_of_map_to_list.
Qed.

(** A well-formed file opens unless the one commit [Open] makes fails, and then
    every account starts at its durable mark. *)
Lemma Open_result fresh now d d' res :
  db_ok d -> ValidID fresh = true -> Open (L := L) fresh now d = (d', res) ->
  grants d' = grants d /\
  match res with
  | Ok s => store_ok s /\ db s = d' /\ forall k, is_Some (grants d !! k) -> opened s k
  | Fail e => e = ErrIO /\ head (faults d) = Some true
  end.
Proof.
  intros Hd Hfresh. unfold Open.
  assert (forall j, ValidID j = true -> exists s,
    foldM (open_entry now) (mkStore d ∅ ∅ j false) (map_to_list (grants d)) = Ok s /\
    journalID s = j /\ (forall d', grants d' = grants d -> journal d' = Some j ->
       store_ok (with_db s d') /\ forall k, is_Some (grants d !! k) -> opened (with_db s d') k)) as Hload.
  { intros j Hj.
    destruct (load_ok now d (map_to_list (grants d)) [] (mkStore d ∅ ∅ j false))
      as (s & done & Hf & Hld & Hin & Hjs); auto.
    - apply NoDup_fst_map_to_list.
    - intros k v. apply elem_of_map_to_list.
    - set_solver.
    - split_and!; simpl; auto; [set_solver|set_solver|]. intros c k. rewrite lookup_empty.
      split; [done|]. set_solver.
    - exists s. split_and!; auto. intros d1 Hg1 Hj1.
      assert (forall k, is_Some (grants d !! k) -> k ∈ done) as Hall.
      { intros k Hk. apply Hin. left. by apply fmap_fst_lookup. }
      assert (store_ok (with_db s d1)) as Hs.
      { apply (loaded_ok d done s Hd Hld); [eauto|done|by rewrite Hjs|by rewrite Hjs]. }
      split; [done|]. intros k Hk. destruct Hld as (Hdb&_&Hop&_).
      destruct (Hop k (Hall k Hk)) as (r&a&Hr&Ha&?). exists r, a. simpl. rewrite Hg1, <-Hdb.
      destruct_and?. split_and!; auto. destruct Hs. by destruct (so_entry _ _ Ha) as (?&_). }
  assert (exists s, match journal d with
    | Some j => if negb (ValidID j) then Fail ErrGrant
        else foldM (open_entry now) (mkStore d ∅ ∅ j false) (map_to_list (grants d))
    | None => foldM (open_entry now) (mkStore d ∅ ∅ fresh false) (map_to_list (grants d))
    end = Ok s /\ (forall d', grants d' = grants d -> journal d' = Some (journalID s) ->
       store_ok (with_db s d') /\ forall k, is_Some (grants d !! k) -> opened (with_db s d') k))
    as (s & -> & Hs).
  { destruct Hd. destruct (journal d) as [j|].
    - rewrite do_journal0 by done. destruct (Hload j) as (s&?&<-&?); eauto.
    - destruct (Hload fresh) as (s&?&<-&?); eauto. }
  destruct (faults d) as [|[] rest]; intros [= <- <-]; simpl; split; auto;
    (split; [apply Hs; done|split; [done|apply Hs; done]]).
Qed.

(** ** Everything that can happen to a store *)

(** What a step let through to the network. *)
Inductive event := Silent | Forwarded (id : string) (dir n : Z).

Definition out_event (id : string) (dir : Z) (out : TakeOut) : event :=
  match out with Took n => Forwarded id dir n | _ => Silent end.

(** One operation, or a crash at any instant followed by a successful [Open],
    with whatever commit failures lie ahead of the new process. *)
Inductive step : Store -> event -> Store -> Prop :=
| step_take id pass dir req partial s s' out :
    1 <= req <= MaxInt -> Store_take id pass dir req partial s = (s', out) ->
    step s (out_event id dir out) s'
| step_record id dir n (a : Account) s :
    0 <= n <= MaxInt -> accounts s !! id = Some a ->
    step s Silent (with_account s id (Record dir n a) (db s))
| step_clock b s : step s Silent (Store_SetClock b s)
| step_apply now g s s' r :
    policy_typed (gPolicy g) -> Store_Apply now g s = (s', r) -> step s Silent s'
| step_credit poll at_ credits s s' r :
    (forall c, c ∈ credits -> is_u64 (cCreditRevision c) /\ is_u64 (cCreditCeiling c)) ->
    Store_ApplyCredit poll at_ credits s = (s', r) -> step s Silent s'
| step_authority poll poll' at_ at' now updates s s' r :
    (forall u, u ∈ updates -> policy_typed (uPolicy u)) ->
    Store_ApplyAuthority poll poll' at_ at' now updates s = (s', r) -> step s Silent s'
| step_reconcile now l s s' r :
    (forall g, g ∈ l -> policy_typed (gPolicy g)) ->
    Reconcile now l s = (s', r) -> step s Silent s'
| step_crash fresh now fl s d' s' :
    ValidID fresh = true ->
    Open fresh now (mkDB (grants (db s)) (journal (db s)) fl) = (d', Ok s') -> step s Silent s'.

Inductive run : Store -> list event -> Store -> Prop :=
| run_nil s : run s [] s
| run_cons s e s1 tr s' : step s e s1 -> run s1 tr s' -> run s (e :: tr) s'.

Lemma Record_entry dir n (a : Account) :
  policy (Record dir n a) = policy a /\ persistence (Record dir n a) = persistence a /\
  spent (Record dir n a) = spent a /\ quarantined (Record dir n a) = quarantined a /\
  clock (Record dir n a) = clock a.
Proof. unfold Record. by split_guard. Qed.

Lemma reopened_ok (s : Store) fl : store_ok s -> db_ok (mkDB (grants (db s)) (journal (db s)) fl).
Proof. intros Hs%store_db_ok. destruct Hs. by split. Qed.

Lemma step_ok s e s' : store_ok s -> step s e s' -> store_ok s'.
Proof.
  intros Hs. destruct 1 as [|id dir n a s Hn Ha| | | | | |? ? ? ? ? ? Hf Ho].
  - by eapply Store_take_ok.
  - destruct (entry_backing _ _ _ Hs Ha) as (Hok & b & Hb & Hid).
    destruct (Record_entry dir n a) as (Hp & Hpe & _ & Hq & Hc).
    eapply account_update_same; eauto using Record_ok, db_step_refl; [rewrite Hpe; eauto|by rewrite Hp].
  - by apply Store_SetClock_ok.
  - by eapply Store_Apply_ok.
  - by eapply Store_ApplyCredit_ok.
  - by eapply Store_ApplyAuthority_ok.
  - by eapply Reconcile_ok.
  - apply Open_result in Ho as (_ & ? & _); auto using reopened_ok.
Qed.

Lemma run_ok s tr s' : store_ok s -> run s tr s' -> store_ok s'.
Proof. intros Hs. induction 1; eauto using step_ok. Qed.

End Runs.
