(* ===== verification/GovernorHistory.v ===== *)
(** * What a run can do to one grant

    The order every step of a run respects, grant by grant: policies only move
    forward, suspension is permanent, spend and reservation only grow, and the
    reservation of a grant under managed credit stays within its ceiling. *)
From S2P Require Import Prelude Limits LimitsFacts Authority Governor GovernorFacts GovernorInvariant GovernorRuns.

(** Quota and credit handed out by revision, so that neither can be taken back. *)
Definition managed (p : Policy) : Prop :=
  0 < CreditRevision p /\ 0 < AuthorityRevision p /\ QuotaUnlimited p = false.

Lemma managed_le p q : managed p -> policy_le p q -> managed q.
Proof.
  intros (?&?&Hq) []. unfold managed. rewrite <-Hq, le_quota by done. split_and!; lia || done.
Qed.

Section History.
Context {L : Type} `{!RateLimiter L} `{!RateLimiterLaws L} `{!UUIDs} `{!UUIDLaws}.

Abbreviation Store := (Store L).
Abbreviation Account := (Account L backing).

(** One grant before and after, [n] bytes of it admitted in between. *)
Record grant_le (n : Z) (r : record) (a : Account) (r' : record) (a' : Account) : Prop := {
  ge_client : ClientID (rGrant r') = ClientID (rGrant r);
  ge_suspended : Suspended r = true -> Suspended r' = true;
  ge_policy : policy_le (policy a) (policy a');
  ge_spent : spent a + n <= spent a';
  ge_reserved : Reserved r <= Reserved r';
  ge_ceiling : managed (policy a) -> Reserved r <= CreditCeiling (policy a) ->
    Reserved r' <= CreditCeiling (policy a');
  ge_ahead : Reserved r <= spent a + maximumReservationBlock ->
    Reserved r' <= spent a' + maximumReservationBlock }.

Lemma grant_le_refl r a : grant_le 0 r a r a.
Proof. split; auto; try lia; reflexivity. Qed.

Lemma grant_le_trans n m r1 a1 r2 a2 r3 a3 :
  grant_le n r1 a1 r2 a2 -> grant_le m r2 a2 r3 a3 -> grant_le (n + m) r1 a1 r3 a3.
Proof.
  intros [] []. split; try congruence; try lia; auto.
  - by etrans.
  - intros Hm Hc. apply ge_ceiling1; [by eapply managed_le|auto].
Qed.

Definition evolves (f : string -> Z) (s s' : Store) : Prop :=
  forall id r a, grants (db s) !! id = Some (Stored r) -> accounts s !! id = Some a ->
  exists r' a', grants (db s') !! id = Some (Stored r') /\ accounts s' !! id = Some a' /\
    grant_le (f id) r a r' a'.

Definition quiet : string -> Z := fun _ => 0.

Lemma evolves_refl s : evolves quiet s s.
Proof. intros id r a Hr Ha. exists r, a. auto using grant_le_refl. Qed.

Lemma evolves_trans f g s1 s2 s3 :
  evolves f s1 s2 -> evolves g s2 s3 -> evolves (fun id => f id + g id) s1 s3.
Proof.
  intros H1 H2 id r a Hr Ha. destruct (H1 id r a Hr Ha) as (r2&a2&Hr2&Ha2&Hg1).
  destruct (H2 id r2 a2 Hr2 Ha2) as (r3&a3&?&?&Hg2). exists r3, a3. split_and!; auto.
  by eapply grant_le_trans.
Qed.

Lemma evolves_quiet_trans s1 s2 s3 : evolves quiet s1 s2 -> evolves quiet s2 s3 -> evolves quiet s1 s3.
Proof. apply evolves_trans. Qed.

Lemma evolves_same s s' :
  grants (db s') = grants (db s) -> accounts s' = accounts s -> evolves quiet s s'.
Proof. intros Hg Ha id r a Hr Hacc. exists r, a. rewrite Hg, Ha. auto using grant_le_refl. Qed.

Lemma evolves_settle en c id s s' :
  evolves quiet s s' -> evolves quiet s (settle_client en c id s').
Proof.
  intros He. eapply evolves_quiet_trans; [exact He|].
  apply evolves_same; unfold settle_client; destruct en; try done; by split_guard.
Qed.

(** An account operation on one grant. *)
Lemma account_update_evolves f s id (a a' : Account) d' b b' :
  store_ok s -> accounts s !! id = Some a -> account_ok a' d' ->
  persistence a = Some b -> persistence a' = Some b' -> b_id b' = id -> db_step id (db s) d' ->
  clock a' = clock a -> quarantined a' = quarantined a -> policy_le (policy a) (policy a') ->
  spent a + f id <= spent a' -> b_reserved b <= b_reserved b' ->
  (b_reserved b' = b_reserved b \/ QuotaUnlimited (policy a) = true \/
   b_reserved b' <= CreditCeiling (policy a)) ->
  (b_reserved b' = b_reserved b \/ b_reserved b' <= spent a' + maximumReservationBlock) ->
  0 <= f id -> (forall k, k <> id -> f k = 0) ->
  evolves f s (with_account s id a' d').
Proof.
  intros Hs Ha Ha' Hb Hb' Hid Hst Hc Hq Hle Hsp Hres Hcap Hahead Hpos Hf k r c Hr Hk.
  destruct (account_update_entries s id a a' d') as (_&_&_&r0&r'&Hr0&Hr'&Ho&_); eauto.
  simpl. destruct (decide (k = id)) as [->|Hne].
  - simplify_eq. exists r', a'. rewrite lookup_insert_eq. split_and!; auto.
    destruct (entry_record s _ a (so_entry s Hs _ _ Ha)) as (b1&q&Hb1&Hid1&Hq1&Hp&Hrr&_). simplify_eq.
    assert (Reserved r' = b_reserved b') as Hrr'.
    { destruct Ha'. unfold backed in ok_backed. rewrite Hb' in ok_backed.
      destruct ok_backed as [Hd _]. unfold durable, handle_id in Hd; simpl in Hd.
      unfold db_durable in Hd. rewrite Hr' in Hd. by simplify_eq. }
    destruct Ho as (?&?&Hsus&_). split; try congruence; auto; try lia.
    intros Hm Hcl. destruct Hle. pose proof Hm as (?&_&?). specialize (le_ceiling ltac:(done)).
    destruct Hcap as [?|[?|?]]; [lia|congruence|lia].
  - destruct Hst as (_&_&Hfr&_). exists r, c. rewrite lookup_insert_ne, Hfr by done.
    split_and!; auto. rewrite Hf by done. apply grant_le_refl.
Qed.

Lemma no_spend_evolves s id (a a' : Account) d' :
  store_ok s -> accounts s !! id = Some a -> no_spend a a' (db s) d' ->
  evolves quiet s (with_account s id a' d').
Proof.
  intros Hs Ha Hn. destruct (entry_backing s id a Hs Ha) as (Hok & b & Hb & Hid).
  destruct (no_spend_backing _ _ _ _ _ Hn Hb) as [(b'&Hb'&Hbid) Hst].
  destruct Hn as (?&Had&Hprev&Hp&?&?&_&?). rewrite Hb, Hb' in Hp. simplify_eq.
  eapply account_update_evolves; eauto; unfold spent, quiet; lia.
Qed.

Lemma dset_spent dir n (a a' : Account) :
  previouslyReserved a' = previouslyReserved a ->
  admitted a' = dset dir (dget dir (admitted a) + n) (admitted a) -> spent a' = spent a + n.
Proof.
  unfold spent, admitted, dset, dget. intros -> Ha.
  destruct (dir =? UploadDir); simpl in Ha; injection Ha as -> ->; lia.
Qed.

Definition event_bytes (e : event) (id : string) : Z :=
  match e with Silent => 0 | Forwarded k _ n => if bool_decide (id = k) then n else 0 end.

Lemma Store_take_evolves id pass dir req partial s s' out :
  store_ok s -> 1 <= req <= MaxInt -> Store_take id pass dir req partial s = (s', out) ->
  evolves (event_bytes (out_event id dir out)) s s'.
Proof.
  intros Hs Hreq. unfold Store_take. destruct (accounts s !! id) as [a|] eqn:Ha;
    [|intros [= <- <-]; apply evolves_refl].
  destruct (entry_backing s id a Hs Ha) as (Hok & b & Hb & Hid).
  destruct (take_pass pass dir req partial a (db s)) as [[a' d] out'] eqn:Ht. intros [= <- <-].
  apply take_pass_spec in Ht; [|done..]. 
  destruct out' as [n| |]; simpl; [|apply no_spend_evolves with (a := a); by try apply Ht..].
  destruct Ht as ((?&Hp&?&?&Hprev&_&_&Had&Hh) & Hsz & _). pose proof Hh as [Hh' _].
  apply take_size_spec with (e := db s) in Hsz as [Hn _]; [|done..].
  destruct (handle_step_backing _ _ _ _ _ _ Hh Hb) as [(b'&Hb'&Hbid) Hst].
  rewrite Hb, Hb' in Hh'. simpl in Hh'. destruct Hh' as (Hi & Hmono & Hcap & Hahead).
  pose proof (dset_spent dir n a a' Hprev Had) as Hsp. subst id.
  eapply account_update_evolves; eauto.
  - by rewrite Hp.
  - simpl. rewrite bool_decide_eq_true_2 by done. lia.
  - unfold reserve_block in Hahead; simpl in Hahead. lia.
  - simpl. rewrite bool_decide_eq_true_2 by done. lia.
  - intros k Hk. simpl. by rewrite bool_decide_eq_false_2.
Qed.

Lemma credit_step_evolves at_ i c s s' r :
  store_ok s -> is_u64 (cCreditRevision c) -> is_u64 (cCreditCeiling c) ->
  credit_step at_ i c s = (s', r) -> evolves quiet s s'.
Proof.
  intros Hs Hr Hc. unfold credit_step.
  destruct (accounts s !! cGrantID c) as [a|] eqn:Ha; [|intros [= <- <-]; apply evolves_refl].
  destruct (entry_backing s _ a Hs Ha) as (Hok & b & Hb & Hid).
  destruct (ApplyCredit _ _ _ _ _ _ a (db s)) as [[a' d] r'] eqn:Hap. intros [= <- <-].
  apply ApplyCredit_no_spend in Hap; auto. by eapply no_spend_evolves.
Qed.

(** Bringing up a grant nobody knew leaves the known ones alone. *)
Lemma create_evolves now r s s' res :
  accounts s !! ID (rGrant r) = None -> create now r s = (s', res) -> evolves quiet s s'.
Proof.
  intros Hn Hc. apply touches_create in Hc as [Ht _]. intros k q a Hq Ha.
  destruct (Ht k) as [Ha' Hg]; [intros ->; congruence|].
  exists q, a. rewrite Ha', Hg. auto using grant_le_refl.
Qed.

Lemma Store_Apply_evolves now g s s' r :
  store_ok s -> policy_typed (gPolicy g) -> Store_Apply now g s = (s', r) -> evolves quiet s s'.
Proof.
  intros Hs Hp. unfold Store_Apply.
  destruct (Validate g) as [[]|]; [|intros [= <- <-]; apply evolves_refl].
  cbv zeta. split_guard; [intros [= <- <-]; apply evolves_refl|].
  destruct (lookup_record s (ID g)) as [saved|]; [|intros [= <- <-]; apply evolves_refl].
  split_guard; [intros [= <- <-]; apply evolves_refl|].
  split_guard; [intros [= <- <-]; apply evolves_refl|].
  destruct (accounts s !! ID g) as [a|] eqn:Ha.
  - destruct (entry_backing s _ a Hs Ha) as (Hok & b & Hb & Hid).
    destruct (Apply now.1 _ a (db s)) as [[a' d] res] eqn:Hap.
    apply Apply_no_spend in Hap; [|done|destruct Hok; by apply RetainCredit_typed].
    destruct res; intros [= <- <-]; [apply evolves_settle|]; by eapply no_spend_evolves.
  - destruct (create now (mkRecord g 0 false) s) as [s1 res] eqn:Hc.
    apply create_evolves in Hc; [|done].
    destruct res; intros [= <- <-]; [by apply evolves_settle|done].
Qed.

Lemma update_step_evolves now at_ i u s s' r :
  store_ok s -> policy_typed (uPolicy u) -> update_step now at_ i u s = (s', r) -> evolves quiet s s'.
Proof.
  intros Hs Hp. unfold update_step. destruct (accounts s !! uGrantID u) as [a|] eqn:Ha.
  - destruct (entry_backing s _ a Hs Ha) as (Hok & b & Hb & Hid).
    destruct (ApplyAuthority _ _ _ a (db s)) as [[a' d] res] eqn:Hap.
    apply ApplyAuthority_no_spend in Hap; [|done..].
    destruct res; intros [= <- <-]; [apply evolves_settle|]; by eapply no_spend_evolves.
  - destruct (create (now i) _ s) as [s1 res] eqn:Hc. apply create_evolves in Hc; [|done].
    destruct res; intros [= <- <-]; [by apply evolves_settle|done].
Qed.

Lemma Store_ApplyCredit_evolves poll at_ credits s s' r :
  store_ok s ->
  (forall c, c ∈ credits -> is_u64 (cCreditRevision c) /\ is_u64 (cCreditCeiling c)) ->
  Store_ApplyCredit poll at_ credits s = (s', r) -> evolves quiet s s'.
Proof.
  intros Hs Hc. unfold Store_ApplyCredit.
  destruct (ValidateCredits credits); [|intros [= <- <-]; apply evolves_refl].
  destruct (foldM _ _ _); [|intros [= <- <-]; apply evolves_refl].
  intros Hb. eapply (batch_ok poll (credit_step at_) (fun t => store_ok t /\ evolves quiet s t));
    [|split; [done|apply evolves_refl]|exact Hb].
  intros i x s1 s2 r1 Hx [Hs1 He] Hst. destruct (Hc x Hx). split.
  - eapply credit_step_ok; [| | |exact Hst]; done.
  - eapply evolves_quiet_trans; [exact He|]. eapply credit_step_evolves; [| | |exact Hst]; done.
Qed.

Lemma batch_updates_evolves poll now at_ updates : forall i s s' r,
  store_ok s -> NoDup (uGrantID <$> updates) -> NoDup (uClientID <$> updates) ->
  Forall (pending s) updates ->
  batch poll (update_step now at_) i updates s = (s', r) -> evolves quiet s s'.
Proof.
  induction updates as [|u us IH]; simpl; intros i s s' r Hs Hn1 Hn2 Hp;
    [intros [= <- <-]; apply evolves_refl|].
  destruct (poll i); [intros [= <- <-]; apply evolves_refl|].
  apply NoDup_cons in Hn1 as [Hi1 Hn1]. apply NoDup_cons in Hn2 as [Hi2 Hn2].
  apply Forall_cons in Hp as [Hu Hp].
  destruct (update_step now at_ i u s) as [s1 res] eqn:Hst.
  pose proof (update_step_evolves _ _ _ _ _ _ _ Hs (proj1 (proj2 Hu)) Hst) as He.
  apply update_step_ok in Hst as [Hs1 Ht]; [|done..].
  destruct res; [|intros [= <- <-]; exact He]. intros Hb.
  eapply evolves_quiet_trans; [exact He|]. eapply IH; [| | | |exact Hb]; auto.
  rewrite Forall_forall in Hp |- *. intros x Hx. eapply pending_touches; eauto.
  - intros Heq. apply Hi1. rewrite <-Heq. by apply list_elem_of_fmap_2.
  - intros Heq. apply Hi2. rewrite <-Heq. by apply list_elem_of_fmap_2.
Qed.

Lemma Store_ApplyAuthority_evolves poll poll' at_ at' now updates s s' r :
  store_ok s -> (forall u, u ∈ updates -> policy_typed (uPolicy u)) ->
  Store_ApplyAuthority poll poll' at_ at' now updates s = (s', r) -> evolves quiet s s'.
Proof.
  intros Hs Hp. unfold Store_ApplyAuthority.
  destruct (validateAuthorityLocked poll at_ updates s) as [[]|] eqn:Hv;
    [|intros [= <- <-]; apply evolves_refl].
  apply validated_updates in Hv as (?&?&?); auto. by apply batch_updates_evolves.
Qed.

Lemma suspend_evolves wanted s d u :
  store_ok s ->
  db_update (suspend_unwanted wanted (map_to_list (accounts s)).*1) (db s) = (d, Ok u) ->
  evolves quiet s
    (mkStore d (map_imap (fun id a => Some (quarantine_unwanted wanted id a)) (accounts s))
       (filter (fun kv => kv.2 ∈ wanted) (clients s)) (journalID s) (s_clock s)).
Proof.
  intros Hs Hu id r a Hr Ha. apply db_update_cases in Hu as [_ Hu].
  pose proof (suspend_unwanted_spec _ _ _ _ (so_filed s Hs) Hu id) as Hk. simpl.
  rewrite map_lookup_imap, Ha. simpl.
  assert (policy (quarantine_unwanted wanted id a) = policy a /\
          spent (quarantine_unwanted wanted id a) = spent a) as [Hp Hsp].
  { unfold quarantine_unwanted, Quarantine. split_guard; [done|]. by destruct (quarantined a). }
  destruct Hk as [(_&_&q&Hq&->)|(_&->)]; simplify_eq.
  - eexists _, _. split_and!; [done..|]. split; simpl; rewrite ?Hp, ?Hsp; auto; reflexivity || (unfold quiet; lia).
  - eexists _, _. split_and!; [done..|]. split; simpl; rewrite ?Hp, ?Hsp; auto; reflexivity || (unfold quiet; lia).
Qed.

Lemma apply_all_evolves now l : forall i s s' r,
  store_ok s -> (forall g, g ∈ l -> policy_typed (gPolicy g)) ->
  apply_all now i l s = (s', r) -> evolves quiet s s'.
Proof.
  induction l as [|g l IH]; simpl; intros i s s' r Hs Hp; [intros [= <- <-]; apply evolves_refl|].
  destruct (Store_Apply (now i) g s) as [s1 r1] eqn:Ha.
  pose proof (Store_Apply_evolves _ _ _ _ _ Hs (Hp g ltac:(left)) Ha) as He.
  apply Store_Apply_ok in Ha; [|done|apply Hp; left].
  destruct r1; [|intros [= <- <-]; exact He]. intros Hr.
  eapply evolves_quiet_trans; [exact He|]. eapply IH; [done| |exact Hr]. intros. apply Hp. by right.
Qed.

Lemma Reconcile_evolves now l s s' r :
  store_ok s -> (forall g, g ∈ l -> policy_typed (gPolicy g)) ->
  Reconcile now l s = (s', r) -> evolves quiet s s'.
Proof.
  intros Hs Hp. unfold Reconcile.
  destruct (check_wanted ∅ ∅ l) as [wanted|]; [|intros [= <- <-]; apply evolves_refl].
  destruct (db_update _ (db s)) as [d [u|e]] eqn:Hu.
  - intros Hr. eapply evolves_quiet_trans; [by eapply suspend_evolves|].
    eapply apply_all_evolves; [by eapply suspend_ok|done|exact Hr].
  - apply db_update_cases in Hu as [_ Hu]. intros [= <- <-]. by apply evolves_same.
Qed.

Lemma reopen_evolves (s s' : Store) :
  store_ok s -> (forall k, is_Some (grants (db s) !! k) -> opened s' k) ->
  grants (db s') = grants (db s) -> evolves quiet s s'.
Proof.
  intros Hs Hop Hg id r a Hr Ha. destruct (Hop id) as (r'&a'&Hr'&Ha'&_&_&Hp&_&_&Hsp); [eauto|].
  rewrite Hg, Hr in Hr'. simplify_eq. exists r', a'. rewrite Hg. split_and!; auto.
  destruct (entry_record s id a (so_entry s Hs _ _ Ha)) as (b&q&_&_&Hq&Hpol&_&Hle&_). simplify_eq.
  assert (policy a' = policy a) as Heq by congruence.
  split; rewrite ?Heq; auto; try lia; [reflexivity|]. unfold quiet. lia.
Qed.

Lemma step_evolves s e s' : store_ok s -> step s e s' -> evolves (event_bytes e) s s'.
Proof.
  intros Hs. destruct 1 as [|id dir n a s Hn Ha|b s| | | | |? ? ? ? ? ? Hf Ho].
  - by eapply Store_take_evolves.
  - eapply no_spend_evolves; eauto.
    destruct (entry_backing _ _ _ Hs Ha) as (Hok & b & Hb & Hid).
    destruct (Record_entry dir n a) as (Hp & Hpe & Hsp & Hq & Hc).
    unfold no_spend. split_and!; auto using Record_ok; [unfold Record; by split_guard..| |by rewrite Hp].
    unfold moves. rewrite Hb. apply env_step_refl.
  - intros id r a Hr Ha. exists r, (SetClock b a). simpl. rewrite lookup_fmap, Ha.
    split_and!; auto. by destruct (grant_le_refl r a).
  - by eapply Store_Apply_evolves.
  - by eapply Store_ApplyCredit_evolves.
  - by eapply Store_ApplyAuthority_evolves.
  - by eapply Reconcile_evolves.
  - apply Open_result in Ho as (Hg & _ & <- & Hop); auto using reopened_ok. by apply reopen_evolves.
Qed.

(** The bytes of grant [id] a run let through. *)
Definition run_bytes (tr : list event) (id : string) : Z :=
  sumZ ((fun e => event_bytes e id) <$> tr).

Lemma run_evolves s tr s' : store_ok s -> run s tr s' -> evolves (run_bytes tr) s s'.
Proof.
  intros Hs Hr. induction Hr as [|s e s1 tr s' Hst Hr IH]; [apply evolves_refl|].
  eapply evolves_trans; [by apply step_evolves|]. apply IH. by eapply step_ok.
Qed.

End History.
