(* ===== verification/Instances.v ===== *)
(** * Concrete parameters

    A token bucket and a UUID syntax that satisfy the interfaces the development
    assumes of golang.org/x/time/rate and github.com/google/uuid, so that every
    theorem stated against them can be evaluated on a concrete input.  They stand
    for nothing in the repository. *)
From S2P Require Import Prelude Limits LimitsFacts Authority Governor GovernorFacts.

(** ** A token bucket *)

Record TokenBucket := mkTokenBucket {
  tb_limit : Q;
  tb_burst : Z;
  tb_tokens : Z;
  tb_last : Z }.

(** Tokens at [t]: whole bytes refilled since the last call, at most the burst. *)
Definition tb_at (l : TokenBucket) (t : Z) : Z :=
  Z.min (tb_burst l)
    (tb_tokens l + Z.max 0 (t - tb_last l) * Qnum (tb_limit l) / (Zpos (Qden (tb_limit l)) * Second)).

Definition tb_allow (l : TokenBucket) (t n : Z) : bool * TokenBucket :=
  let have := tb_at l t in
  if n <=? have then (true, mkTokenBucket (tb_limit l) (tb_burst l) (have - n) t)
  else (false, mkTokenBucket (tb_limit l) (tb_burst l) have t).

#[global] Instance TokenBucket_limiter : RateLimiter TokenBucket := {|
  NewLimiter q b := mkTokenBucket q b b 0;
  AllowN := tb_allow;
  SetLimitAt l t q := mkTokenBucket q (tb_burst l) (tb_at l t) t;
  SetBurstAt l t b := mkTokenBucket (tb_limit l) b (tb_at l t) t;
  Burst := tb_burst;
  RefillDelay l t n :=
    (n - tb_at l t) * Second * Zpos (Qden (tb_limit l)) / Qnum (tb_limit l) |}.

#[global] Instance TokenBucket_laws : RateLimiterLaws TokenBucket.
Proof.
  split; simpl; auto; unfold tb_allow; intros; cbv zeta.
  - by split_guard.
  - revert H. split_guard; [|done]. intros _. unfold tb_at in G. lia.
Qed.

(** ** Identifiers of 36 characters *)

#[global] Instance uuid36 : UUIDs := {|
  uuid_Parse s := if bool_decide (String.length s = 36%nat) then Some (Zpos (encode s)) else None;
  uuid_String z := default ""%string (decode (Z.to_pos z)) |}.

#[global] Instance uuid36_laws : UUIDLaws.
Proof. by split. Qed.

(** ** A node with one grant *)
Module Sample.

Definition grant_id : string := "11111111-1111-4111-8111-111111111111".
Definition client_id : string := "22222222-2222-4222-8222-222222222222".
Definition term_id : string := "33333333-3333-4333-8333-333333333333".
Definition journal_id : string := "44444444-4444-4444-8444-444444444444".

(** 8 Mbit/s each way, a megabyte of credit, handed out by revision. *)
Definition rate : Rate := mkRate Limited 8000000 65536.
Definition policy : Policy := mkPolicy term_id 1 1 true 0 false 1000000 1 rate rate.
Definition grant : Grant := mkGrant grant_id client_id 1 policy.

Definition empty_db : DB := mkDB ∅ None [].
Definition db : DB := mkDB {[ grant_id := Stored (mkRecord grant 0 false) ]} (Some journal_id) [].

Definition store : Store TokenBucket :=
  match Open journal_id (0, 0) db with
  | (_, Ok s) => s
  | _ => mkStore db ∅ ∅ journal_id false
  end.

(** A pass at second [n] of the epoch, nothing failing. *)
Definition pass_at (n : Z) : Pass :=
  mkPass None (n * Second) (Ok (n * Second)) (Ok (n * Second)) (Ok (n * Second)).

Definition account : Account TokenBucket backing :=
  default (mkAccount true policy 0 0 0 (0, 0) None (None, None) 0 false)
    (accounts store !! grant_id).

End Sample.
