(* ===== verification/GovernorTheorems.v ===== *)
(** * The promises of the grant store

    What a node's grant store guarantees over every run: operations in any order,
    failing commits, crashes and restarts. *)
From S2P Require Import Prelude Limits LimitsFacts Authority Governor GovernorFacts GovernorInvariant GovernorRuns GovernorHistory Instances.

(** ** The sample store is a reachable one *)

Lemma sample_db_ok : db_ok (L := TokenBucket) Sample.db.
Proof.
  assert (forall k v, grants Sample.db !! k = Some v ->
    k = Sample.grant_id /\ v = Stored (mkRecord Sample.grant 0 false)) as Hone.
  { intros k v Hv. cbn [grants Sample.db] in Hv. apply lookup_singleton_Some in Hv as [<- <-]. done. }
  split.
  - intros k r [-> [= ->]]%Hone. done.
  - intros k v [-> ->]%Hone. eexists. split_and!; [done|vm_compute; done| |simpl; machine|simpl; machine].
    by split; vm_compute.
  - intros k k' r r' [-> _]%Hone [-> _]%Hone. done.
  - intros j [= <-]. done.
Qed.

Lemma sample_open : Open Sample.journal_id (0, 0) Sample.db = (Sample.db, Ok Sample.store).
Proof. vm_compute. done. Qed.

Lemma sample_store_ok : store_ok Sample.store.
Proof.
  pose proof (Open_result Sample.journal_id (0, 0) Sample.db _ _ sample_db_ok eq_refl sample_open).
  tauto.
Qed.

Lemma sample_entry :
  grants (db Sample.store) !! Sample.grant_id = Some (Stored (mkRecord Sample.grant 0 false)) /\
  accounts Sample.store !! Sample.grant_id = Some Sample.account.
Proof. split; vm_compute; done. Qed.

(** A run of the sample: an upload of 1000 bytes, a crash, a download of 500. *)
Module SampleRun.

Definition s1 : Store TokenBucket :=
  (Store_take Sample.grant_id (Sample.pass_at 10) UploadDir 1000 false Sample.store).1.
Definition s2 : Store TokenBucket :=
  match Open Sample.journal_id (0, 0) (mkDB (grants (db s1)) (journal (db s1)) []) with
  | (_, Ok s) => s
  | _ => s1
  end.
Definition s3 : Store TokenBucket :=
  (Store_take Sample.grant_id (Sample.pass_at 10) DownloadDir 500 false s2).1.
Definition trace : list event :=
  [Forwarded Sample.grant_id UploadDir 1000; Silent; Forwarded Sample.grant_id DownloadDir 500].

End SampleRun.

Lemma sample_run : run Sample.store SampleRun.trace SampleRun.s3.
Proof.
  apply run_cons with (s1 := SampleRun.s1).
  { apply (step_take Sample.grant_id (Sample.pass_at 10) UploadDir 1000 false _ _ (Took 1000));
      [machine|vm_compute; reflexivity]. }
  apply run_cons with (s1 := SampleRun.s2).
  { eapply (step_crash Sample.journal_id (0, 0) []); [done|]. vm_compute. reflexivity. }
  eapply run_cons; [|apply run_nil].
  apply (step_take Sample.grant_id (Sample.pass_at 10) DownloadDir 500 false _ _ (Took 500));
    [machine|vm_compute; reflexivity].
Qed.

(** ** Safety over every run *)

Section Promises.
Context {L : Type} `{!RateLimiter L} `{!RateLimiterLaws L} `{!UUIDs} `{!UUIDLaws}.

(** C2: whatever sequence of takes, applications, credit and authority batches,
    reconciliations, failing commits and crashes a store opened from a
    well-formed file goes through, memory and disk agree on every grant (same
    policy, a high-water mark that covers all spend) and the client map holds
    exactly the active grants. *)
Theorem store_invariant (fresh : string) (now : Z * Z) (d d' : DB) (s s' : Store L)
    (tr : list event) :
  db_ok (L := L) d -> ValidID fresh = true -> Open fresh now d = (d', Ok s) -> run s tr s' ->
  store_ok s'.
Proof.
  intros Hd Hf Ho Hr. apply Open_result in Ho as (_ & Hs & _); [|done..]. by eapply run_ok.
Qed.

(** In every reachable store a client is served by at most one grant: the
    account [Lookup] returns belongs to an enabled, unsuspended grant of that
    client, and any other grant of the client is disabled or suspended. *)
Theorem one_grant_per_client (s s' : Store L) (tr : list event) (c : string)
    (a : Account L backing) :
  store_ok s -> run s tr s' -> Lookup c s' = Some a ->
  exists id r, clients s' !! c = Some id /\ accounts s' !! id = Some a /\
    grants (db s') !! id = Some (Stored r) /\ ClientID (rGrant r) = c /\
    Enabled (policy a) = true /\ Suspended r = false /\
    forall id' r', grants (db s') !! id' = Some (Stored r') -> ClientID (rGrant r') = c ->
      id' <> id -> Enabled (gPolicy (rGrant r')) = false \/ Suspended r' = true.
Proof.
  intros Hs Hr Hl. apply run_ok in Hr; [|done]. clear Hs.
  unfold Lookup, client_grant in Hl. destruct (clients s' !! c) as [id|] eqn:Hc; simpl in Hl.
  - destruct (so_holder s' Hr c id Hc) as (r & Hg & Hcl & He & Hsus). exists id, r.
    destruct (lookup_live s' id a Hr Hl) as (r0 & _ & Hr0 & _ & Hp). simplify_eq.
    split_and!; auto; [by rewrite <-Hp|]. intros id' r' Hg' Hcl' Hne.
    destruct (Enabled (gPolicy (rGrant r'))) eqn:He'; [|auto].
    destruct (Suspended r') eqn:Hs'; [auto|]. exfalso. apply Hne.
    pose proof (so_active s' Hr id' r' Hg' He' Hs'). congruence.
  - destruct (lookup_live s' _ a Hr Hl) as (r0 & _ & Hr0 & Hne & _).
    by rewrite (so_filed s' Hr _ _ Hr0) in Hne.
Qed.

(** C3: no byte a node ever let through is forgotten: after any run, restarts
    included, what the grant has spent covers everything spent before plus every
    byte admitted during the run, and the mark on disk covers that. *)
Theorem spend_is_durable (s s' : Store L) (tr : list event) (id : string) (r : record)
    (a : Account L backing) :
  store_ok s -> run s tr s' -> grants (db s) !! id = Some (Stored r) ->
  accounts s !! id = Some a ->
  exists r' a', grants (db s') !! id = Some (Stored r') /\ accounts s' !! id = Some a' /\
    spent a + run_bytes tr id <= spent a' <= Reserved r' /\ Reserved r <= Reserved r'.
Proof.
  intros Hs Hr Hg Ha. pose proof (run_ok _ _ _ Hs Hr) as Hs'.
  apply run_evolves in Hr; [|done]. destruct (Hr id r a Hg Ha) as (r' & a' & Hg' & Ha' & []).
  exists r', a'. split_and!; auto.
  destruct (entry_record s' id a' (so_entry s' Hs' _ _ Ha')) as (b&q&_&_&Hq&_&_&?&_).
  by simplify_eq.
Qed.

(** C1: a grant whose quota and credit are handed out by revision never lets
    through more than its credit: however often the node crashes in between, the
    bytes spent before plus the bytes admitted during the run stay within the
    credit ceiling in force at the end. *)
Theorem no_overspend (s s' : Store L) (tr : list event) (id : string) (r : record)
    (a : Account L backing) :
  store_ok s -> run s tr s' -> grants (db s) !! id = Some (Stored r) ->
  accounts s !! id = Some a -> managed (policy a) -> Reserved r <= CreditCeiling (policy a) ->
  exists a', accounts s' !! id = Some a' /\
    spent a + run_bytes tr id <= CreditCeiling (policy a').
Proof.
  intros Hs Hr Hg Ha Hm Hc. pose proof (run_ok _ _ _ Hs Hr) as Hs'.
  apply run_evolves in Hr; [|done]. destruct (Hr id r a Hg Ha) as (r' & a' & Hg' & Ha' & []).
  exists a'. split; [done|].
  destruct (entry_record s' id a' (so_entry s' Hs' _ _ Ha')) as (b&q&_&_&Hq&_&_&?&_).
  simplify_eq. specialize (ge_ceiling Hm Hc). lia.
Qed.

(** Policies only move forward: over any run a grant keeps its term and its
    client, none of its three revisions goes back, credit handed out is never
    taken back, an authority-managed quota never changes kind, and within one
    policy revision a disabled grant is never enabled again. *)
Theorem policies_move_forward (s s' : Store L) (tr : list event) (id : string) (r : record)
    (a : Account L backing) :
  store_ok s -> run s tr s' -> grants (db s) !! id = Some (Stored r) ->
  accounts s !! id = Some a ->
  exists r', grants (db s') !! id = Some (Stored r') /\
    ClientID (rGrant r') = ClientID (rGrant r) /\
    let p := gPolicy (rGrant r) in let p' := gPolicy (rGrant r') in
    Term p' = Term p /\ Revision p <= Revision p' /\ AuthorityRevision p <= AuthorityRevision p' /\
    CreditRevision p <= CreditRevision p' /\
    (0 < CreditRevision p -> CreditCeiling p <= CreditCeiling p') /\
    (0 < AuthorityRevision p -> QuotaUnlimited p' = QuotaUnlimited p) /\
    (Revision p' = Revision p -> Enabled p = false -> Enabled p' = false).
Proof.
  intros Hs Hr Hg Ha. pose proof (run_ok _ _ _ Hs Hr) as Hs'.
  apply run_evolves in Hr; [|done]. destruct (Hr id r a Hg Ha) as (r' & a' & Hg' & Ha' & []).
  destruct (lookup_live s id a Hs Ha) as (r0 & _ & Hr0 & _ & Hp).
  destruct (lookup_live s' id a' Hs' Ha') as (r1 & _ & Hr1 & _ & Hp'). simplify_eq.
  exists r'. split_and!; auto. cbv zeta. rewrite Hp, Hp'. destruct ge_policy. split_and!; auto.
  intros Heq Hd. destruct (Enabled (policy a')) eqn:He; [|done]. by rewrite le_enabled in Hd.
Qed.

Lemma suspended_silent s e s' id r :
  store_ok s -> step s e s' -> grants (db s) !! id = Some (Stored r) -> Suspended r = true ->
  event_bytes e id = 0.
Proof.
  intros Hs Hst Hg Hsus. destruct Hst as [k pass dir req partial s s' out Hreq Ht| | | | | | |]; try done.
  unfold Store_take in Ht. destruct (accounts s !! k) as [a|] eqn:Ha; [|by injection Ht as <- <-].
  destruct (entry_backing s k a Hs Ha) as (Hok & _).
  destruct (take_pass pass dir req partial a (db s)) as [[a' d] out'] eqn:Hp.
  injection Ht as <- <-. apply take_pass_spec in Hp; [|done..]. destruct out' as [n| |]; try done.
  simpl. split_guard; [|done]. subst k. destruct Hp as (_ & _ & t & _ & Hq & _).
  destruct (so_entry s Hs _ _ Ha) as (_&_&b&q&_&_&Hq'&_&Hqs). simplify_eq.
  rewrite Hqs in Hq; done.
Qed.

(** C22: suspension is permanent: a grant a reconciliation has suspended stays
    suspended over every later run, restarts included, and not one more byte of
    it is admitted. *)
Theorem suspension_is_permanent (s s' : Store L) (tr : list event) (id : string) (r : record) :
  store_ok s -> run s tr s' -> grants (db s) !! id = Some (Stored r) -> Suspended r = true ->
  run_bytes tr id = 0 /\
  exists r', grants (db s') !! id = Some (Stored r') /\ Suspended r' = true.
Proof.
  intros Hs Hr. revert r. induction Hr as [|s e s1 tr s' Hst Hr IH]; intros r Hg Hsus; [eauto|].
  pose proof (suspended_silent _ _ _ _ _ Hs Hst Hg Hsus) as Hz.
  destruct (so_record s Hs _ _ Hg) as (q & [= <-] & a & Ha).
  pose proof (step_ok _ _ _ Hs Hst) as Hs1. apply step_evolves in Hst; [|done].
  destruct (Hst id r a Hg Ha) as (r1 & a1 & Hg1 & _ & []).
  destruct (IH Hs1 r1 Hg1) as [Hb Hex]; auto. split; [|done].
  unfold run_bytes in *. rewrite fmap_cons. simpl. lia.
Qed.

(** C4: a crash is survivable at every instant: the file a reachable store
    leaves behind opens again as soon as one commit goes through, every grant
    comes back with the same policy, quarantined exactly when suspended, and its
    account restarts at the durable mark, so nothing reserved can be spent twice. *)
Theorem crash_recovers (s s' : Store L) (tr : list event) (fresh : string) (now : Z * Z) :
  store_ok s -> run s tr s' -> ValidID fresh = true ->
  exists d t, Open fresh now (mkDB (grants (db s')) (journal (db s')) []) = (d, Ok t) /\
    store_ok t /\ grants (db t) = grants (db s') /\
    forall id a, accounts s' !! id = Some a ->
      exists r a', grants (db t) !! id = Some (Stored r) /\ accounts t !! id = Some a' /\
        policy a' = policy a /\ quarantined a' = Suspended r /\
        spent a' = Reserved r /\ spent a <= spent a'.
Proof.
  intros Hs Hr Hf. apply run_ok in Hr; [|done]. clear Hs.
  destruct (Open fresh now (mkDB (grants (db s')) (journal (db s')) [])) as [d res] eqn:Ho.
  pose proof Ho as Ho'. apply Open_result in Ho' as [Hg Hres]; [|by apply reopened_ok|done].
  destruct res as [t|e]; [|by destruct Hres]. destruct Hres as (Ht & Hdb & Hop). subst d.
  exists (db t), t. split_and!; auto. intros id a Ha.
  destruct (entry_record s' id a (so_entry s' Hr _ _ Ha)) as (b&q&_&_&Hq&Hp&_&Hle&_).
  destruct (Hop id) as (r&a'&Hr'&Ha'&_&_&Hpol&Hquar&_&Hsp); [by eexists|].
  rewrite Hg in Hr'. simpl in Hr'. simplify_eq. exists q, a'. rewrite Hg. simpl.
  split_and!; auto; try lia; congruence.
Qed.

(** C24: a crash burns at most one reservation block: over any run the mark on
    disk stays within 8 MiB of what the grant really spent, so that is all a
    restart can charge a client for traffic it never had. *)
Theorem crash_loss_is_bounded (s s' : Store L) (tr : list event) (id : string) (r : record)
    (a : Account L backing) :
  store_ok s -> run s tr s' -> grants (db s) !! id = Some (Stored r) ->
  accounts s !! id = Some a -> Reserved r <= spent a + maximumReservationBlock ->
  exists r' a', grants (db s') !! id = Some (Stored r') /\ accounts s' !! id = Some a' /\
    0 <= Reserved r' - spent a' <= maximumReservationBlock.
Proof.
  intros Hs Hr Hg Ha Hah. pose proof (run_ok _ _ _ Hs Hr) as Hs'.
  apply run_evolves in Hr; [|done]. destruct (Hr id r a Hg Ha) as (r' & a' & Hg' & Ha' & []).
  exists r', a'. split_and!; auto; [|specialize (ge_ahead Hah); lia].
  destruct (entry_record s' id a' (so_entry s' Hs' _ _ Ha')) as (b&q&_&_&Hq&_&_&?&_).
  simplify_eq. lia.
Qed.

End Promises.

(** ** Witnesses *)

Lemma store_invariant_witness : store_ok SampleRun.s3.
Proof.
  apply (store_invariant Sample.journal_id (0, 0) Sample.db Sample.db Sample.store SampleRun.s3
           SampleRun.trace sample_db_ok eq_refl sample_open sample_run).
Defined.

Lemma one_grant_per_client_witness :
  exists id r, clients SampleRun.s3 !! Sample.client_id = Some id /\
    grants (db SampleRun.s3) !! id = Some (Stored r) /\ Suspended r = false.
Proof.
  destruct (Lookup Sample.client_id SampleRun.s3) as [a|] eqn:Hl; [|by vm_compute in Hl].
  destruct (one_grant_per_client Sample.store SampleRun.s3 SampleRun.trace Sample.client_id a
              sample_store_ok sample_run Hl) as (id & r & H1 & _ & H2 & _ & _ & H3 & _).
  exact (ex_intro _ id (ex_intro _ r (conj H1 (conj H2 H3)))).
Defined.

Lemma spend_is_durable_witness :
  exists r' a', grants (db SampleRun.s3) !! Sample.grant_id = Some (Stored r') /\
    accounts SampleRun.s3 !! Sample.grant_id = Some a' /\
    spent Sample.account + run_bytes SampleRun.trace Sample.grant_id <= spent a' <= Reserved r' /\
    Reserved (mkRecord Sample.grant 0 false) <= Reserved r'.
Proof.
  apply (spend_is_durable Sample.store SampleRun.s3 SampleRun.trace Sample.grant_id _ Sample.account
           sample_store_ok sample_run (proj1 sample_entry) (proj2 sample_entry)).
Defined.

Lemma no_overspend_witness :
  exists a', accounts SampleRun.s3 !! Sample.grant_id = Some a' /\
    spent Sample.account + run_bytes SampleRun.trace Sample.grant_id <= CreditCeiling (policy a').
Proof.
  apply (no_overspend Sample.store SampleRun.s3 SampleRun.trace Sample.grant_id _ Sample.account
           sample_store_ok sample_run (proj1 sample_entry) (proj2 sample_entry)).
  - by vm_compute.
  - by vm_compute.
Defined.

Lemma policies_move_forward_witness :
  exists r', grants (db SampleRun.s3) !! Sample.grant_id = Some (Stored r') /\
    Term (gPolicy (rGrant r')) = Sample.term_id.
Proof.
  destruct (policies_move_forward Sample.store SampleRun.s3 SampleRun.trace Sample.grant_id _
              Sample.account sample_store_ok sample_run (proj1 sample_entry) (proj2 sample_entry))
    as (r' & H1 & _ & H2 & _). exact (ex_intro _ r' (conj H1 H2)).
Defined.

Lemma crash_recovers_witness :
  exists d t, Open Sample.journal_id (5, 5)
      (mkDB (grants (db SampleRun.s3)) (journal (db SampleRun.s3)) []) = (d, Ok t) /\
    store_ok (L := TokenBucket) t.
Proof.
  destruct (crash_recovers Sample.store SampleRun.s3 SampleRun.trace Sample.journal_id (5, 5)
              sample_store_ok sample_run eq_refl) as (d & t & H1 & H2 & _).
  exact (ex_intro _ d (ex_intro _ t (conj H1 H2))).
Defined.

Lemma crash_loss_is_bounded_witness :
  exists r' a', grants (db SampleRun.s3) !! Sample.grant_id = Some (Stored r') /\
    accounts SampleRun.s3 !! Sample.grant_id = Some a' /\
    0 <= Reserved r' - spent a' <= maximumReservationBlock.
Proof.
  apply (crash_loss_is_bounded Sample.store SampleRun.s3 SampleRun.trace Sample.grant_id _
           Sample.account sample_store_ok sample_run (proj1 sample_entry) (proj2 sample_entry)).
  by vm_compute.
Defined.

(** The sample after a reconciliation that wants nothing: its grant is suspended. *)
Module SampleSuspended.

Definition store : Store TokenBucket := (Reconcile (fun _ => (0, 0)) [] Sample.store).1.

End SampleSuspended.

Lemma sample_suspended_ok : store_ok SampleSuspended.store.
Proof.
  eapply (Reconcile_ok (fun _ => (0, 0)) [] Sample.store _ (Ok tt) sample_store_ok); [set_solver|].
  vm_compute. reflexivity.
Qed.

Lemma suspension_is_permanent_witness :
  run_bytes [out_event Sample.grant_id UploadDir (TakeFailed ErrBlocked)] Sample.grant_id = 0.
Proof.
  refine (proj1 (suspension_is_permanent SampleSuspended.store
    (Store_take Sample.grant_id (Sample.pass_at 10) UploadDir 1000 false SampleSuspended.store).1
    _ Sample.grant_id (mkRecord Sample.grant 0 true) sample_suspended_ok _ _ eq_refl)).
  - eapply run_cons; [|apply run_nil].
    apply (step_take Sample.grant_id (Sample.pass_at 10) UploadDir 1000 false); [machine|].
    vm_compute. reflexivity.
  - vm_compute. reflexivity.
Defined.
