(* ===== verification/GovernorReports.v ===== *)
(** * Authority reports and replay

    The pages of [Store.Authority] are valid wire reports and enumerate every
    grant exactly once; applying a grant twice is applying it once; a reservation
    covers what it was asked for. *)
From S2P Require Import Prelude Limits LimitsFacts Authority Governor GovernorFacts GovernorInvariant GovernorRuns GovernorHistory Instances GovernorTheorems.

Section Reports.
Context {L : Type} `{!RateLimiter L} `{!RateLimiterLaws L} `{!UUIDs} `{!UUIDLaws}.

Abbreviation Store := (Store L).
Abbreviation Account := (Account L backing).

(** ** One entry *)

(** The numbers of a record fit the signed columns of the wire format. *)
Definition reportable (r : record) : Prop :=
  let p := gPolicy (rGrant r) in
  Revision p <= MaxInt64 /\ AuthorityRevision p <= MaxInt64 /\ CreditCeiling p <= MaxInt64 /\
  Reserved r <= MaxInt64 /\ (QuotaUnlimited p = true \/ Reserved r <= CreditCeiling p).

Lemma entry_admitted s id (a : Account) :
  entry_ok s id a ->
  let snap := Account_Snapshot a in
  (sub64 MaxUint64 (AdmittedUpload snap) <? PreviouslyReserved snap) = false /\
  (sub64 MaxUint64 (AdmittedDownload snap) <?
     add64 (PreviouslyReserved snap) (AdmittedUpload snap)) = false /\
  add64 (add64 (PreviouslyReserved snap) (AdmittedUpload snap)) (AdmittedDownload snap) = spent a.
Proof.
  intros (Hok & _). pose proof (total_exact _ _ Hok) as Ht. destruct Hok. simpl.
  unfold spent in *. rewrite Ht. rewrite !sub64_small, add64_small by machine.
  split_and!; [| |done]; apply Z.ltb_ge; machine.
Qed.

Lemma authority_grant_valid s now id (a : Account) r :
  store_ok s -> accounts s !! id = Some a -> grants (db s) !! id = Some (Stored r) ->
  reportable r ->
  exists g, authority_grant now id r (Account_Snapshot a) = Ok g /\ ValidateGrant (Some g) = Ok tt /\
    gGrantID g = id /\ gReservedHighWater g = Reserved r.
Proof.
  intros Hs Ha Hr (H1 & H2 & H3 & H4 & H5).
  pose proof (so_entry s Hs _ _ Ha) as Hent.
  destruct (entry_record s id a Hent) as (b&q&_&_&Hq&Hp&_&Hle&Hv&Hsq). simplify_eq.
  destruct (entry_admitted s _ a Hent) as (G1 & G2 & Ht).
  apply Validate_iff in Hv as (V1&V2&V3&_&V5). apply validate_iff in V5 as (_&Hrev&_&_&_&Hun).
  pose proof (so_filed s Hs _ _ Hr) as Hid. rewrite Hid in V1.
  destruct Hent as ([] & _). unfold authority_grant. cbv zeta in Ht, G1, G2.
  rewrite G1, G2, Ht. rewrite Hp in *. simpl.
  rewrite bool_decide_eq_false_2 by auto. simpl.
  destruct (Reserved r <? spent a) eqn:Hlt; bools; [lia|].
  eexists. split; [done|]. split; [|done].
  unfold ValidateGrant; simpl. rewrite V1, V2, V3. simpl. destruct ok_typed.
  assert (0 <= spent a) by (unfold spent; lia).
  set (active := Enabled _ && _ && _ && _ && _). clearbody active.
  destruct (QuotaUnlimited (policy a)) eqn:Hqu; [rewrite Hun by done|];
    destruct (previouslyReserved a =? 0) eqn:Hprev; bools; simpl;
    destruct active; simpl;
    destruct (spent a <? CreditCeiling (policy a)) eqn:Hsc; simpl; bools;
    rewrite ?sub64_small by (unfold spent in *; machine);
    repeat (split_guard; [exfalso; unfold spent in *; destruct_or?; destruct_and?; try congruence; machine|]);
    try done.
Qed.

(** ** Pages *)

Lemma keys_after_elem after g k :
  k ∈ keys_after after g <-> is_Some (g !! k) /\ (after = ""%string \/ ~ String.le k after).
Proof.
  unfold keys_after. rewrite merge_sort_Permutation, list_elem_of_filter.
  rewrite list_elem_of_fmap. split.
  - intros [? ([k' v]&->&Hin)]. apply elem_of_map_to_list in Hin. simpl in *. eauto.
  - intros [[v Hv] ?]. split; [done|]. exists (k, v). split; [done|]. by apply elem_of_map_to_list.
Qed.

Lemma keys_after_nodup after g : NoDup (keys_after after g).
Proof.
  unfold keys_after. rewrite merge_sort_Permutation. apply NoDup_filter, NoDup_fst_map_to_list.
Qed.

Lemma keys_after_sorted after g : StronglySorted String.le (keys_after after g).
Proof. unfold keys_after. apply (StronglySorted_merge_sort _). Qed.

(** Reading on from the last key of a prefix gives exactly the rest. *)
Lemma keys_after_next after g l1 x l2 :
  keys_after after g = l1 ++ x :: l2 -> x <> ""%string -> keys_after x g = l2.
Proof.
  intros Hks Hx. pose proof (keys_after_nodup after g) as Hn. pose proof (keys_after_sorted after g) as Hs.
  rewrite Hks in Hn, Hs. apply NoDup_app in Hn as (_ & Hd & Hn2).
  apply NoDup_cons in Hn2 as [Hxn Hn2].
  apply StronglySorted_app in Hs as (Hl & _ & Hs2).
  apply StronglySorted_inv in Hs2 as [Hs2 Hxl]. rewrite Forall_forall in Hxl.
  apply (StronglySorted_unique String.le); [apply keys_after_sorted|done|].
  apply NoDup_Permutation; [apply keys_after_nodup|done|]. intros k.
  assert (forall k, k ∈ l1 ++ x :: l2 <-> is_Some (g !! k) /\ (after = ""%string \/ ~ String.le k after))
    as Hall by (intros; rewrite <-Hks; apply keys_after_elem).
  rewrite keys_after_elem. split.
  - intros [Hk [->|Hnk]]; [done|].
    assert (k ∈ l1 ++ x :: l2) as Hin.
    { apply Hall. split; [done|]. destruct (decide (after = ""%string)) as [|Ha]; [auto|right].
      intros Hka. destruct (Hall x) as [Hxa _]. destruct Hxa as (_&[?|Hxa]); [set_solver|done|].
      apply Hnk. etrans; [exact Hka|]. by destruct (total String.le after x). }
    apply elem_of_app in Hin as [Hin|Hin].
    + destruct Hnk. apply (Hl k x); [done|set_solver].
    + apply elem_of_cons in Hin as [->|?]; [|done]. by destruct Hnk.
  - intros Hin. split; [apply Hall; set_solver|right]. intros Hkx.
    assert (k = x) as -> by (apply (anti_symm String.le); auto). done.
Qed.

Lemma authority_snapshots_ok poll ids : forall i (s : Store) l,
  authority_snapshots poll i ids s = Ok l ->
  l.*1 = ids /\ forall id snap, (id, snap) ∈ l -> exists a, accounts s !! id = Some a /\
    snap = Account_Snapshot a.
Proof.
  induction ids as [|id ids IH]; simpl; intros i s l; [intros [= <-]; split; [done|set_solver]|].
  destruct (poll i); [done|]. destruct (accounts s !! id) as [a|] eqn:Ha; [|done].
  unfold mbind, result_bind. destruct (authority_snapshots poll (S i) ids s) as [l'|] eqn:Hl; [|done].
  intros Heq. apply (f_equal (fun r => match r with Ok l => l | _ => [] end)) in Heq as <-.
  destruct (IH _ _ _ Hl) as [<- Hin]. split; [done|].
  intros k snap [[= -> ->]|?]%elem_of_cons; eauto.
Qed.

Lemma authority_snapshots_total poll ids : forall i (s : Store),
  (forall i, poll i = None) -> (forall id, id ∈ ids -> is_Some (accounts s !! id)) ->
  exists l, authority_snapshots poll i ids s = Ok l.
Proof.
  induction ids as [|id ids IH]; simpl; intros i s Hp Hids; [eauto|]. rewrite Hp.
  destruct (Hids id ltac:(left)) as [a ->]. destruct (IH (S i) s) as [l ->]; [done|set_solver|].
  unfold mbind, result_bind. eauto.
Qed.

Lemma authority_grants_ok now snaps (s : Store) :
  store_ok s ->
  (forall id snap, (id, snap) ∈ snaps -> exists a, accounts s !! id = Some a /\
     snap = Account_Snapshot a) ->
  (forall id r, id ∈ snaps.*1 -> grants (db s) !! id = Some (Stored r) -> reportable r) ->
  exists gs, authority_grants now snaps s = Ok gs /\ gGrantID <$> gs = snaps.*1 /\
    Forall (fun g => ValidateGrant (Some g) = Ok tt) gs.
Proof.
  intros Hs. induction snaps as [|[id snap] snaps IH]; simpl; intros Hsn Hrep; [by exists []|].
  destruct (Hsn id snap) as (a & Ha & ->); [left|].
  destruct (lookup_live s id a Hs Ha) as (r & _ & Hr & _ & _).
  destruct (authority_grant_valid s now id a r) as (g & Hg & Hv & Hid & _); auto.
  { apply (Hrep id); [left|done]. }
  destruct IH as (gs & Hgs & Hids & Hall).
  { intros. apply Hsn. by right. } { intros. apply (Hrep id0); [by right|done]. }
  rewrite Hr. unfold mbind, result_bind. simpl. rewrite Hg. simpl. rewrite Hgs.
  exists (g :: gs). split_and!; auto. by rewrite fmap_cons, Hid, Hids.
Qed.

Lemma firstn_last {A} n (l : list A) :
  (0 < n)%nat -> (n <= length l)%nat -> exists l1 x, firstn n l = l1 ++ [x] /\ last (firstn n l) = Some x.
Proof.
  intros H1 H2. destruct (firstn n l) as [|y m _] eqn:Hf using rev_ind.
  - apply (f_equal length) in Hf. rewrite length_take in Hf. simpl in Hf. lia.
  - exists m, y. split; [done|]. by rewrite last_snoc.
Qed.

(** A page is the first [limit] keys past [after], and the next page starts
    where it ends. *)
Lemma page_keys limit after (g : gmap string stored) :
  (0 < limit)%nat -> (forall k, is_Some (g !! k) -> k <> ""%string) ->
  let ids := firstn (S limit) (keys_after after g) in
  let more := bool_decide (limit < length ids)%nat in
  let next := if more then default ""%string (last (firstn limit ids)) else ""%string in
  firstn limit ids = firstn limit (keys_after after g) /\
  if more then keys_after next g = skipn limit (keys_after after g)
  else next = ""%string /\ skipn limit (keys_after after g) = [].
Proof.
  intros Hl Hne. cbv zeta. rewrite take_take, Nat.min_l by lia. split; [done|].
  rewrite length_take. split_guard.
  - destruct (firstn_last limit (keys_after after g)) as (l1 & x & Hf & Hlast); [lia|lia|].
    rewrite Hlast. simpl. apply (keys_after_next after g l1).
    + rewrite <-(take_drop limit (keys_after after g)) at 1. rewrite Hf, <-app_assoc. done.
    + apply Hne. apply (keys_after_elem after). rewrite <-(take_drop limit (keys_after after g)), Hf.
      set_solver.
  - split; [done|]. apply drop_ge. lia.
Qed.

(** A page of the authority report always comes out, every entry of it passes
    the validation the control plane applies to it, and the pages partition the
    bucket: this one holds the first [limit] grants past the cursor in key order,
    and reading on from its cursor gives exactly the rest. *)
Theorem authority_pages (poll : nat -> option error) (at_ : Instants) (after : string) (limit : Z)
    (s : Store) :
  store_ok s -> (forall i, poll i = None) -> (after = ""%string \/ ValidID after = true) ->
  1 <= limit <= Z.of_nat MaxEntries ->
  is_ok (if s_clock s then at_clock at_ else Ok (at_wall at_)) = true ->
  (forall id r, grants (db s) !! id = Some (Stored r) -> reportable r) ->
  exists page, Store_Authority poll at_ after limit s = Ok page /\
    gGrantID <$> pGrants page = firstn (Z.to_nat limit) (keys_after after (grants (db s))) /\
    Forall (fun g => ValidateGrant (Some g) = Ok tt) (pGrants page) /\
    skipn (Z.to_nat limit) (keys_after after (grants (db s))) =
      (if bool_decide (pNext page = ""%string) then [] else keys_after (pNext page) (grants (db s))).
Proof.
  intros Hs Hp Ha Hl Hck Hrep. unfold Store_Authority. split_guard.
  { exfalso. destruct Ha; destruct_or?; destruct_and?; try congruence; lia. }
  destruct (if s_clock s then at_clock at_ else Ok (at_wall at_)) as [now|]; [|done]. clear Hck G.
  assert (forall k, is_Some (grants (db s) !! k) -> k <> ""%string) as Hne.
  { intros k [v Hv] ->. destruct (so_record s Hs _ _ Hv) as (r & -> & a & Ha').
    destruct (lookup_live s _ a Hs Ha') as (q & _ & Hq & Hn & _).
    by rewrite (so_filed s Hs _ _ Hq) in Hn. }
  destruct (page_keys (Z.to_nat limit) after (grants (db s))) as [Hids Hnext]; [lia|done|].
  cbv zeta in *. rewrite Hids in *. set (ids := firstn (Z.to_nat limit) (keys_after after _)) in *.
  assert (forall id, id ∈ ids -> is_Some (grants (db s) !! id)) as Hin.
  { intros id Hid. apply (keys_after_elem after). unfold ids in Hid.
    rewrite <-(take_drop (Z.to_nat limit)). by apply elem_of_app; left. }
  destruct (authority_snapshots_total poll ids 0 s) as [snaps Hsn]; [done| |].
  { intros id [v Hv]%Hin. by destruct (so_record s Hs _ _ Hv) as (?&_&?). }
  pose proof (authority_snapshots_ok _ _ _ _ _ Hsn) as [Hfst Hsnap].
  destruct (authority_grants_ok now snaps s) as (gs & Hgs & Hgid & Hall); [done|done|eauto|].
  unfold mbind, result_bind. rewrite Hsn, Hgs. eexists. split; [done|]. simpl.
  split_and!; [by rewrite Hgid, Hfst|done|].
  destruct (bool_decide (Z.to_nat limit < _)%nat) eqn:Hm; [|destruct Hnext as [_ ->]; done].
  rewrite bool_decide_eq_false_2; [by rewrite Hnext|]. intros He. apply bool_decide_eq_true in Hm.
  rewrite length_take in Hm.
  destruct (firstn_last (Z.to_nat limit) (keys_after after (grants (db s)))) as (l1 & x & Hf & Hlast);
    [lia|lia|]. fold ids in Hf, Hlast. rewrite Hlast in He. simpl in He. subst x.
  destruct (Hne ""%string); [|done]. apply Hin. rewrite Hf. set_solver.
Qed.

(** ** Replay *)

Lemma RetainCredit_idem p q : RetainCredit p (RetainCredit p q) = RetainCredit p q.
Proof.
  unfold RetainCredit at 2 3. split_guard.
  - unfold RetainCredit. cbv zeta. by rewrite (proj2 (Z.leb_le _ _)), orb_true_r by lia.
  - cbv zeta. split_guard.
    + unfold RetainCredit. cbv zeta.
      rewrite (proj2 (orb_false_iff _ _)); [by rewrite bool_decide_eq_true_2|].
      split; [by rewrite (proj2 (orb_false_iff _ _)); bools|bools; lia].
    + unfold RetainCredit. cbv zeta. by rewrite (proj2 (Z.leb_le _ _)), orb_true_r by lia.
Qed.

Lemma applyLocked_same now (a : Account) d : applyLocked now (policy a) a d = (a, d, Ok tt).
Proof.
  unfold applyLocked. cbv zeta. rewrite bool_decide_eq_false_2 by auto.
  assert (stale (policy a) (policy a) = false) as ->.
  { unfold stale. rewrite !Z.ltb_irrefl, (bool_decide_eq_true_2 (policy a = policy a)) by done.
    simpl. by rewrite andb_false_r. }
  assert (credit_conflict (policy a) (policy a) = false) as ->.
  { unfold credit_conflict. rewrite Z.ltb_irrefl, !Z.eqb_refl. simpl. by rewrite andb_false_r. }
  assert (quota_kind_conflict (policy a) (policy a) = false) as ->.
  { unfold quota_kind_conflict. rewrite eqb_reflx. simpl. by rewrite andb_false_r. }
  by rewrite bool_decide_eq_true_2.
Qed.

Lemma settle_frame en c id (s : Store) :
  db (settle_client en c id s) = db s /\ accounts (settle_client en c id s) = accounts s.
Proof. unfold settle_client. destruct en; [done|]. by split_guard. Qed.

(** What a successful application leaves: the grant, unsuspended, under the
    policy asked for with the credit already handed out. *)
Lemma Store_Apply_post now g s s' u :
  store_ok s -> policy_typed (gPolicy g) -> Store_Apply now g s = (s', Ok u) ->
  exists r a, grants (db s') !! ID g = Some (Stored r) /\ accounts s' !! ID g = Some a /\
    ClientID (rGrant r) = ClientID g /\ Suspended r = false /\ gPolicy (rGrant r) = policy a /\
    policy a = match accounts s !! ID g with
               | Some a0 => RetainCredit (gPolicy g) (policy a0)
               | None => gPolicy g
               end.
Proof.
  intros Hs Hp Hap. pose proof (Store_Apply_ok _ _ _ _ _ Hs Hp Hap) as Hs'. revert Hap.
  unfold Store_Apply. destruct (Validate g) as [[]|] eqn:Hv; [|done]. cbv zeta.
  split_guard; [done|]. destruct (accounts s !! ID g) as [a|] eqn:Ha.
  - destruct (lookup_live s _ a Hs Ha) as (q & Hl & Hq & Hne & Hpol). rewrite Hl.
    split_guard; [done|]. split_guard; [done|].
    destruct (entry_backing s _ a Hs Ha) as (Hok & b & Hb & Hid).
    destruct (Apply now.1 _ a (db s)) as [[a' d] res] eqn:Hap.
    assert (policy_typed (RetainCredit (gPolicy g) (policy a))) as Htp
      by (destruct Hok; by apply RetainCredit_typed).
    pose proof (Apply_policy _ _ _ _ _ _ _ Hok Htp Hap) as Hpa.
    apply Apply_no_spend in Hap as Hn; [|done..].
    destruct (no_spend_backing _ _ _ _ _ Hn Hb) as [Hb' Hst]. rewrite Hid in *.
    destruct res as [w|]; intros [= <-].
    destruct (settle_frame (Enabled (RetainCredit (gPolicy g) (policy a))) (ClientID g) (ID g)
      (with_account s (ID g) a' d)) as [Hdb Hacc].
    destruct (db_step_record _ _ _ _ Hst Hq) as (r' & Hr' & _ & Hoc & Hos & _).
    exists r', a'. rewrite Hdb, Hacc. simpl. rewrite lookup_insert_eq. split_and!; auto.
    + rewrite Hoc. destruct_or?; destruct_and?; try congruence; by apply dec_stable.
    + rewrite Hos. congruence.
    + assert (accounts (with_account s (ID g) a' d) !! ID g = Some a') as Ha'
        by (simpl; apply lookup_insert_eq). rewrite <-Hacc in Ha'.
      destruct (lookup_live _ _ a' Hs' Ha') as (r1 & _ & Hr1 & _ & Hp1).
      rewrite Hdb in Hr1. simpl in Hr1. by simplify_eq.
  - rewrite lookup_dead by done. simpl.
    destruct (create now (mkRecord g 0 false) s) as [s1 res] eqn:Hc.
    destruct res as [w|]; intros [= <-].
    destruct (settle_frame (Enabled (gPolicy g)) (ClientID g) (ID g) s1) as [Hdb Hacc].
    assert (grants (db s1) !! ID g = Some (Stored (mkRecord g 0 false))) as Hg1.
    { revert Hc. unfold create. destruct (db_update _ (db s)) as [d [|]] eqn:Hu; [|done].
      apply db_update_cases in Hu as [_ [= Hu]]. unfold restore. cbn [rGrant Suspended Reserved]. rewrite Hv. cbv zeta.
      split_guard; [done|]. destruct (Restore_account _ _ _ _ _); [|done].
      destruct (_ && _); intros [= <- <-]; simpl; rewrite <-Hu; apply lookup_insert_eq. }
    rewrite <-Hdb in Hg1. destruct (so_record _ Hs' _ _ Hg1) as (r & [= <-] & a & Ha').
    destruct (lookup_live _ _ a Hs' Ha') as (r1 & _ & Hr1 & _ & Hp1). rewrite Hg1 in Hr1.
    simplify_eq. exists (mkRecord g 0 false), a. split_and!; auto.
Qed.

(** Applying a grant is idempotent: once it has been applied, applying it
    again succeeds, at any later instant, and changes nothing, not even the credit
    granted to it meanwhile. *)
Theorem apply_is_idempotent (now now' : Z * Z) (g : Grant) (s s' : Store) (u : unit) :
  store_ok s -> policy_typed (gPolicy g) -> Store_Apply now g s = (s', Ok u) ->
  Store_Apply now' g s' = (s', Ok tt).
Proof.
  intros Hs Hp Hap. pose proof (Store_Apply_ok _ _ _ _ _ Hs Hp Hap) as Hs'.
  destruct (Store_Apply_post _ _ _ _ _ Hs Hp Hap) as (r & a & Hr & Ha & Hc & Hsus & Hpol & Heq).
  assert (Validate (L := L) g = Ok tt) as Hv.
  { unfold Store_Apply in Hap. by destruct (Validate g) as [[]|]. }
  assert (RetainCredit (gPolicy g) (policy a) = policy a) as Hret.
  { rewrite Heq. destruct (accounts s !! ID g); [apply RetainCredit_idem|].
    unfold RetainCredit. by rewrite (proj2 (Z.leb_le _ _)), orb_true_r by lia. }
  assert (Enabled (policy a) = Enabled (gPolicy g) /\ Term (policy a) = Term (gPolicy g)) as [He Ht].
  { rewrite <-Hret. split; [apply RetainCredit_enabled|]. unfold RetainCredit.
    split_guard; [done|]. cbv zeta. split_guard; [by rewrite <-G0|done]. }
  unfold Store_Apply. rewrite Hv. cbv zeta.
  assert (Enabled (gPolicy g) && negb (bool_decide (client_grant s' (ClientID g) = ""%string)) &&
    negb (bool_decide (client_grant s' (ClientID g) = ID g)) = false) as ->.
  { destruct (Enabled (gPolicy g)) eqn:Hen; [|done]. unfold client_grant.
    rewrite <-Hc, (so_active s' Hs' _ _ Hr) by congruence. simpl.
    by rewrite (bool_decide_eq_true_2 (ID g = ID g)), andb_false_r by done. }
  unfold lookup_record. rewrite Hr. simpl. rewrite Hc, Hpol, Ht, !(bool_decide_eq_false_2 (_ <> _)) by auto.
  rewrite andb_false_r, Hsus, Ha, Hret.
  destruct (entry_backing s' _ a Hs' Ha) as ([] & _). unfold Apply. rewrite ok_valid, applyLocked_same.
  unfold with_account. rewrite insert_id by done. f_equal.
  etrans; [|apply (settle_noop s' (ID g) r); auto]. rewrite Hpol, Hc. by destruct s'.
Qed.

(** ** Authority batches *)

(** The update is what its grant runs under now: its rates, its revision, whether
    it is enabled, and at least its credit. *)
Definition in_force (s : Store) (u : PolicyUpdate) : Prop :=
  exists r a, grants (db s) !! uGrantID u = Some (Stored r) /\ accounts s !! uGrantID u = Some a /\
    ClientID (rGrant r) = uClientID u /\ Suspended r = false /\ gPolicy (rGrant r) = policy a /\
    AuthorityRevision (policy a) = AuthorityRevision (uPolicy u) /\
    Enabled (policy a) = Enabled (uPolicy u) /\
    Upload (policy a) = Upload (uPolicy u) /\ Download (policy a) = Download (uPolicy u) /\
    CreditCeiling (uPolicy u) <= CreditCeiling (policy a).

Lemma in_force_touches s s' u id c :
  touches id c s s' -> uGrantID u <> id -> in_force s u -> in_force s' u.
Proof.
  intros [Ha _] Hi (r & a & Hg & Hac & Hrest). destruct (Ha _ Hi) as [Ha' Hg'].
  exists r, a. rewrite Ha', Hg'. auto.
Qed.

Lemma MergeAuthority_ceiling cur desired m :
  MergeAuthority cur desired = Ok m -> CreditCeiling desired <= CreditCeiling m.
Proof.
  unfold MergeAuthority. split_guard; [done|]. unfold mbind, result_bind.
  destruct (validate desired); [|done].
  do 3 (split_guard; [done|]). cbv zeta. 
  destruct (CreditRevision desired <? CreditRevision cur) eqn:Hlt; split_guard; try done;
    intros [= <-]; simpl; bools; destruct_or?; lia.
Qed.

Lemma update_step_post now at_ i u s s' w :
  store_ok s -> pending s u -> update_step now at_ i u s = (s', Ok w) -> in_force s' u.
Proof.
  intros Hs Hpe Hst. pose proof (update_step_ok _ _ _ _ _ _ _ Hs Hpe Hst) as [Hs' _].
  destruct Hpe as (Hv & Hp & Hm). unfold update_step in Hst.
  destruct (accounts s !! uGrantID u) as [a|] eqn:Ha.
  - destruct Hm as (q & Hq & Hqc & Hsus). destruct (entry_backing s _ a Hs Ha) as (Hok & b & Hb & Hid).
    destruct (ApplyAuthority _ _ _ a (db s)) as [[a' d] res] eqn:Hap.
    destruct res as [w'|]; [|done]. injection Hst as <- <-.
    pose proof (ApplyAuthority_policy _ _ _ _ _ _ _ _ Hok Hp Hap) as [Hmg _].
    pose proof (MergeAuthority_ceiling _ _ _ Hmg) as Hceil. pose proof Hok as [].
    apply MergeAuthority_spec in Hmg as (_&_&_&Heq); [|done..].
    apply ApplyAuthority_no_spend in Hap as Hn; [|done..].
    destruct (no_spend_backing _ _ _ _ _ Hn Hb) as [Hb' Hdst]. rewrite Hid in *.
    destruct (db_step_record _ _ _ _ Hdst Hq) as (r' & Hr' & _ & Hoc & Hos & _).
    destruct (settle_frame (Enabled (uPolicy u)) (uClientID u) (uGrantID u)
      (with_account s (uGrantID u) a' d)) as [Hdb Hacc].
    assert (accounts (with_account s (uGrantID u) a' d) !! uGrantID u = Some a') as Ha'
      by (simpl; apply lookup_insert_eq). rewrite <-Hacc in Ha'.
    destruct (lookup_live _ _ a' Hs' Ha') as (r1 & _ & Hr1 & _ & Hp1).
    exists r1, a'. pose proof Hr1 as Hr2. rewrite Hdb in Hr2. simpl in Hr2. simplify_eq.
    split_and!; auto; try congruence; rewrite Heq; by destruct (_ <? _).
  - destruct (create (now i) (mkRecord (update_grant u) 0 false) s) as [s1 res] eqn:Hc.
    destruct res as [w'|]; [|done]. injection Hst as <- <-.
    destruct (settle_frame (Enabled (uPolicy u)) (uClientID u) (uGrantID u) s1) as [Hdb Hacc].
    apply create_ok in Hc as [_ Hg1]; [|done|unfold fresh_grant; simpl; split_and!; auto].
    simpl in Hg1. rewrite <-Hdb in Hg1. destruct (so_record _ Hs' _ _ Hg1) as (r & [= <-] & a & Ha').
    destruct (lookup_live _ _ a Hs' Ha') as (r1 & _ & Hr1 & _ & Hp1). rewrite Hg1 in Hr1.
    simplify_eq. eexists _, a. simpl in Hp1. rewrite <-Hp1. split_and!; eauto; simpl; try done; lia.
Qed.

Lemma batch_in_force poll now at_ updates : forall i s s' w,
  store_ok s -> NoDup (uGrantID <$> updates) -> NoDup (uClientID <$> updates) ->
  Forall (pending s) updates ->
  batch poll (update_step now at_) i updates s = (s', Ok w) ->
  Forall (in_force s') updates /\
  forall v, uGrantID v ∉ uGrantID <$> updates -> in_force s v -> in_force s' v.
Proof.
  induction updates as [|u us IH]; simpl; intros i s s' w Hs Hn1 Hn2 Hp.
  { intros [= <- <-]. split; [constructor|done]. }
  destruct (poll i); [done|].
  apply NoDup_cons in Hn1 as [Hi1 Hn1]. apply NoDup_cons in Hn2 as [Hi2 Hn2].
  apply Forall_cons in Hp as [Hu Hp].
  destruct (update_step now at_ i u s) as [s1 [w1|]] eqn:Hst; [|done].
  pose proof (update_step_post _ _ _ _ _ _ _ Hs Hu Hst) as Hin.
  apply update_step_ok in Hst as [Hs1 Ht]; [|done..].
  intros Hb. apply IH in Hb as [Hall Hfr]; auto.
  - split; [apply Forall_cons; auto|]. intros v Hv Hf. apply Hfr; [set_solver|].
    eapply in_force_touches; eauto. set_solver.
  - rewrite Forall_forall in Hp |- *. intros x Hx. eapply pending_touches; eauto.
    + intros Heq. apply Hi1. rewrite <-Heq. by apply list_elem_of_fmap_2.
    + intros Heq. apply Hi2. rewrite <-Heq. by apply list_elem_of_fmap_2.
Qed.

(** C36: an authority batch is validated before anything changes: when it is
    refused the store is untouched, and when it succeeds every update of it is in
    force, for its own client, on an unsuspended grant. *)
Theorem authority_batch (poll poll' : nat -> option error) (at_ at' : nat -> Instants)
    (now : nat -> Z * Z) (updates : list PolicyUpdate) (s s' : Store) (res : result unit) :
  store_ok s -> (forall u, u ∈ updates -> policy_typed (uPolicy u)) ->
  Store_ApplyAuthority poll poll' at_ at' now updates s = (s', res) ->
  (is_ok (validateAuthorityLocked poll at_ updates s) = false -> s' = s /\ is_ok res = false) /\
  (res = Ok tt -> Forall (in_force s') updates).
Proof.
  intros Hs Hp. unfold Store_ApplyAuthority.
  destruct (validateAuthorityLocked poll at_ updates s) as [[]|] eqn:Hv;
    [|intros [= <- <-]; split; done].
  intros Hb. split; [done|]. intros ->. apply validated_updates in Hv as (?&?&?); auto.
  by eapply batch_in_force.
Qed.

(** A reservation covers what was asked for: when it succeeds the durable
    mark is at least the total, never above the credit ceiling nor the 64-bit
    range, at most one 8 MiB block ahead, and belongs to a grant that is not
    suspended and still runs under the very policy the caller holds; no other
    grant's record changes, and a failed reservation changes none. *)
Theorem reservation (b : backing) (p : Policy) (t : Z) (d d' : DB) (res : result backing) :
  filed d -> is_u64 t -> policy_typed p -> b_reserved b < t -> backing_Reserve b p t d = (d', res) ->
  (forall k, k <> b_id b -> grants d' !! k = grants d !! k) /\
  match res with
  | Fail _ => grants d' = grants d
  | Ok b' => b_id b' = b_id b /\ t <= b_reserved b' <= t + maximumReservationBlock /\
      b_reserved b' <= MaxUint64 /\
      (QuotaUnlimited p = false -> b_reserved b' <= CreditCeiling p) /\
      exists r, grants d !! b_id b = Some (Stored r) /\ Suspended r = false /\
        gPolicy (rGrant r) = p /\ Reserved r <= b_reserved b' /\
        grants d' !! b_id b = Some (Stored (mkRecord (rGrant r) (b_reserved b') false))
  end.
Proof.
  intros Hf Ht Hp Hlt Hr. apply Reserve_cases in Hr as (_ & _ & Hr); [|done].
  destruct (reserve_next_bounds p t Ht Hp) as ([? ?]&?&Hge&?).
  destruct res as [b'|e]; [|by rewrite Hr].
  destruct Hr as [(?&_)|(_&->&r&Hg&Hs&Hpol&Hle&Hq&Hg')]; [lia|]. rewrite Hg'. simpl. split.
  - intros k Hk. by rewrite lookup_insert_ne.
  - split_and!; auto. exists r. rewrite lookup_insert_eq. auto.
Qed.

End Reports.

(** ** Witnesses *)

Lemma sample_only k v :
  grants (db Sample.store) !! k = Some v ->
  k = Sample.grant_id /\ v = Stored (mkRecord Sample.grant 0 false).
Proof.
  change (grants (db Sample.store))
    with ({[ Sample.grant_id := Stored (mkRecord Sample.grant 0 false) ]} : gmap string stored).
  intros [<- <-]%lookup_singleton_Some. done.
Qed.

Lemma authority_pages_witness :
  exists page, Store_Authority (fun _ => None) (mkInstants 0 (Ok 0)) "" 10 Sample.store = Ok page /\
    Forall (fun g => ValidateGrant (Some g) = Ok tt) (pGrants page).
Proof.
  destruct (authority_pages (fun _ => None) (mkInstants 0 (Ok 0)) "" 10 Sample.store sample_store_ok
    (fun _ => eq_refl) (or_introl eq_refl) ltac:(unfold MaxEntries; lia) eq_refl)
    as (page & H1 & _ & H2 & _).
  - intros id r [_ [= ->]]%sample_only. unfold reportable; simpl. unfold MaxInt64.
    split_and!; try lia.
  - exact (ex_intro _ page (conj H1 H2)).
Defined.

(** The sample grant under a later policy revision with more credit. *)
Definition sample_upgrade : Grant :=
  mkGrant Sample.grant_id Sample.client_id 2
    (mkPolicy Sample.term_id 2 2 true 0 false 2000000 2 Sample.rate Sample.rate).

Lemma apply_is_idempotent_witness :
  let s' := (Store_Apply (1, 1) sample_upgrade Sample.store).1 in
  Store_Apply (2, 2) sample_upgrade s' = (s', Ok tt).
Proof.
  apply (apply_is_idempotent (1, 1) (2, 2) sample_upgrade Sample.store _ tt sample_store_ok).
  - by split; vm_compute.
  - vm_compute. reflexivity.
Defined.

(** An authority update of the sample grant: blocked in both directions. *)
Definition sample_update : PolicyUpdate :=
  mkPolicyUpdate Sample.grant_id Sample.client_id
    (mkPolicy Sample.term_id 1 2 false 0 false 1000000 1 (mkRate Blocked 0 0) (mkRate Blocked 0 0)).

Lemma authority_batch_witness :
  let at_ := fun _ : nat => mkInstants 0 (Ok 0) in
  let s' := (Store_ApplyAuthority (fun _ => None) (fun _ => None) at_ at_ (fun _ => (0, 0))
               [sample_update] Sample.store).1 in
  Forall (in_force s') [sample_update].
Proof.
  intros at_ s'.
  apply (authority_batch (fun _ => None) (fun _ => None) at_ at_ (fun _ => (0, 0)) [sample_update]
           Sample.store s' (Ok tt) sample_store_ok).
  - intros u ->%list_elem_of_singleton. by split; vm_compute.
  - vm_compute. reflexivity.
  - reflexivity.
Defined.

Lemma reservation_witness :
  exists b', (backing_Reserve (mkBacking Sample.grant_id 0) Sample.policy 5000 Sample.db).2 = Ok b' /\
    5000 <= b_reserved b' <= 5000 + maximumReservationBlock.
Proof.
  destruct (backing_Reserve (mkBacking Sample.grant_id 0) Sample.policy 5000 Sample.db)
    as [d' res] eqn:Hr.
  pose proof (reservation (mkBacking Sample.grant_id 0) Sample.policy 5000 Sample.db d' res
    (do_filed _ sample_db_ok) ltac:(machine) ltac:(by split; vm_compute) eq_refl Hr) as [_ Hres].
  destruct res as [b'|]; [|by vm_compute in Hr]. destruct Hres as (_ & H & _).
  exact (ex_intro _ b' (conj eq_refl H)).
Defined.
