(* ===== verification/LimitsTheorems.v ===== *)
(** * The promises of an account

    Who may spend, what an admission does, and what a metered connection
    delivers. *)
From S2P Require Import Prelude Limits LimitsFacts Governor GovernorFacts GovernorInvariant GovernorRuns Instances GovernorTheorems Conn.

Section Promises.
Context {L H E : Type} `{!RateLimiter L} `{!RateLimiterLaws L}.
Context `{!Persistence H E} `{!PersistenceLaws H E}.

Abbreviation Account := (Account L H).
Abbreviation Passes := (list (Pass * Wake * (Account * E -> Account * E))).

(** What the rest of the node does while a take waits keeps accounts sound. *)
Definition benign (x : Pass * Wake * (Account * E -> Account * E)) : Prop :=
  forall a e, account_ok a e -> account_ok (x.2 (a, e)).1 (x.2 (a, e)).2.

(** ** One pass *)

Lemma allowed_burst pass dir req partial (a : Account) e n l :
  account_ok a e -> 1 <= req <= MaxInt -> take_size pass dir req partial a = Ok n ->
  dget dir (buckets a) = Some l -> partial = true -> n <= Burst l.
Proof.
  intros Ha Hr Hs Hl Hp. destruct (take_size_spec _ _ _ _ _ _ _ Ha Hr Hs) as (_ & _ & Hn).
  rewrite (Hn Hp), Hl. cbv zeta. lia.
Qed.

Lemma take_size_error pass dir req partial (a : Account) err :
  take_size pass dir req partial a = Fail err -> err <> ErrSize.
Proof.
  unfold take_size. destruct partial; [|done]. unfold mbind, result_bind.
  destruct (allowed _ _ dir 1 a) as [[]|e0] eqn:Hal; [done|]. intros [= <-].
  apply allowed_fail in Hal as [(?&_&_&->)|[->|[->| ->]]]; done.
Qed.

Lemma wait_timer_bounds pass l n (a : Account) timer :
  wait_timer pass l n a = Ok timer ->
  Millisecond <= timer /\
  (ExpiresUnixMilli (policy a) <> 0 -> exists t, clock_now a (wall pass) (reading3 pass) = Ok t /\
     timer <= Z.max Millisecond (TimeUnixMilli (ExpiresUnixMilli (policy a)) - t)).
Proof.
  unfold wait_timer. cbv zeta. split_guard.
  - intros [= <-]. split; [lia|done].
  - unfold mbind, result_bind. destruct (clock_now a _ _) as [t|]; [|done]. intros [= <-].
    split; [lia|]. intros _. exists t. split; [done|]. lia.
Qed.

(** Where a size error of a partial pass can come from. *)
Lemma size_error pass dir req (a a' : Account) e e' :
  account_ok a e -> 1 <= req <= MaxInt ->
  take_pass pass dir req true a e = (a', e', TakeFailed ErrSize) ->
  ctx_err pass = Some ErrSize \/
  exists h t, persistence a = Some h /\ (Reserve h (policy a) t e).2 = Fail ErrSize.
Proof.
  intros Ha Hreq. unfold take_pass. destruct (ctx_err pass); [intros [= _ _ ->]; auto|].
  assert (forall n (b b' : Account) f, commit_take dir n b e = (b', f, TakeFailed ErrSize) ->
    persistence b = persistence a -> policy b = policy a ->
    exists h t, persistence a = Some h /\ (Reserve h (policy a) t e).2 = Fail ErrSize) as Hc.
  { intros n b b' f. unfold commit_take. intros Hc Hp Hpol. rewrite Hp, Hpol in Hc.
    destruct (persistence a) as [h|]; [|done].
    destruct (Reserve h _ _ e) as [e1 [h'|err]] eqn:Hr in Hc; [done|]. injection Hc as _ _ ->.
    eexists h, _. split; [done|]. by erewrite Hr. }
  destruct (take_size pass dir req true a) as [n|err] eqn:Hsz;
    [|intros [= _ _ ->]; by apply take_size_error in Hsz].
  destruct (allowed _ _ dir (u64 n) a) as [[]|err] eqn:Hal.
  2: { intros [= _ _ ->]. apply allowed_fail in Hal as [(?&_&_&?)|[?|[?|?]]]; done. }
  destruct (dget dir (buckets a)) as [l|] eqn:Hl; [|intros; right; by eapply Hc].
  pose proof (burst_allow l (wall pass) n) as Hb.
  destruct (AllowN l (wall pass) n) as [[] l'] eqn:Hn; [intros; right; by eapply Hc|].
  simpl in Hb. pose proof (allowed_burst _ _ _ _ _ _ _ _ Ha Hreq Hsz Hl eq_refl) as Hle.
  rewrite <-Hb in Hle. rewrite (proj2 (Z.ltb_ge _ _) Hle).
  destruct (wait_timer _ _ _ _) as [|err] eqn:Hw; [done|]. intros [= _ _ ->]. exfalso.
  unfold wait_timer in Hw. cbv zeta in Hw. split_guard_in Hw; [done|].
  unfold mbind, result_bind, clock_now in Hw. destruct (clock _); [|done].
  by destruct (reading3 pass).
Qed.

Lemma take_wait pass dir req partial (a a' : Account) e e' timer gen :
  take_pass pass dir req partial a e = (a', e', TakeWait timer gen) ->
  exists l n, wait_timer pass l n a = Ok timer /\ gen = changed a'.
Proof.
  unfold take_pass. destruct (ctx_err pass); [done|].
  destruct (take_size pass dir req partial a) as [n|]; [|done].
  assert (forall (b b' : Account) f, commit_take dir n b e = (b', f, TakeWait timer gen) -> False) as Hc.
  { intros b b' f. unfold commit_take. destruct (persistence b); [|done].
    by destruct (Reserve _ _ _ e) as [? []]. }
  destruct (allowed _ _ dir (u64 n) a); [|done].
  destruct (dget dir (buckets a)) as [l|]; [|intros []%Hc].
  destruct (AllowN l (wall pass) n) as [[] l']; [intros []%Hc|]. split_guard; [done|].
  destruct (wait_timer _ _ _ _) as [t|] eqn:Hw; intros [= <- <- <- <-].
  exists l', n. split; [exact Hw|done].
Qed.

(** C23: [allowed] says yes exactly when the account may spend: not quarantined,
    enabled, the direction not blocked, not expired by the clock it trusts, and
    the bytes within the 64-bit range and the credit ceiling; every other answer
    is one of the four documented errors, whatever the state of the counters. *)
Theorem admission_rule (a : Account) (e : E) (now : Z) (rd : result Z) (dir n : Z) :
  account_ok a e -> 0 <= n ->
  (allowed now rd dir n a = Ok tt <->
     exists t, clock_now a now rd = Ok t /\ may_spend t dir n a) /\
  (forall err, allowed now rd dir n a = Fail err ->
     (exists c, rd = Fail c /\ err = ErrorJoin ErrClock c) \/
     err = ErrBlocked \/ err = ErrExpired \/ err = ErrQuota).
Proof.
  intros Ha Hn. split; [by eapply allowed_spec|]. intros err Hf.
  apply allowed_fail in Hf as [(c&_&?&?)|?]; eauto.
Qed.

(** One pass of a take, on every branch.  Admitted: exactly the size asked
    for (or, when partial, what credit and burst leave of it) is counted in its
    direction and nothing else changes, and the account was allowed to spend it.
    Refused: nothing is counted, and the account never refuses a partial take for
    its size (only its context or its persistence could say so).
    Waiting: nothing is counted, the timer runs for at least a millisecond and no
    longer than the expiry, and the generation waited on is the current one, so no
    later change is missed. *)
Theorem take_pass_outcomes (pass : Pass) (dir req : Z) (partial : bool) (a a' : Account)
    (e e' : E) (out : TakeOut) :
  account_ok a e -> 1 <= req <= MaxInt -> take_pass pass dir req partial a e = (a', e', out) ->
  account_ok a' e' /\ policy a' = policy a /\ previouslyReserved a' = previouslyReserved a /\
  match out with
  | Took n =>
      1 <= n <= req /\ (partial = false -> n = req) /\
      admitted a' = dset dir (dget dir (admitted a) + n) (admitted a) /\
      exists t, clock_now a (wall pass) (reading2 pass) = Ok t /\ may_spend t dir n a
  | TakeFailed err => admitted a' = admitted a /\ (err = ErrSize -> partial = true ->
      ctx_err pass = Some ErrSize \/
      exists h t, persistence a = Some h /\ (Reserve h (policy a) t e).2 = Fail ErrSize)
  | TakeWait timer generation =>
      admitted a' = admitted a /\ Millisecond <= timer /\ generation = changed a' /\
      (ExpiresUnixMilli (policy a) <> 0 ->
       exists t, clock_now a (wall pass) (reading3 pass) = Ok t /\
         timer <= Z.max Millisecond (TimeUnixMilli (ExpiresUnixMilli (policy a)) - t))
  end.
Proof.
  intros Ha Hreq Hp. pose proof Hp as Hspec. apply take_pass_spec in Hspec; [|done..].
  assert (account_ok a' e' /\ policy a' = policy a /\ previouslyReserved a' = previouslyReserved a)
    as (?&?&?).
  { destruct out; [destruct Hspec as ((?&?&_&_&?&_) & _)|destruct Hspec as ((?&_&?&_)&?&_)..]; auto. }
  split_and!; auto. destruct out as [n|err|timer gen].
  - destruct Hspec as ((_&_&_&_&_&_&_&?&_) & Hsz & ?).
    destruct (take_size_spec _ _ _ _ _ _ _ Ha Hreq Hsz) as (?&?&_). auto.
  - destruct Hspec as ((_&?&_) & _). split; [done|]. intros -> ->. by eapply size_error.
  - destruct Hspec as ((_&?&_) & _ & Hch). apply take_wait in Hp as (l & n & Hw & ->).
    apply wait_timer_bounds in Hw as [? Hw]. auto.
Qed.

(** Revocation is immediate: a quarantined account, a disabled policy or a
    blocked direction refuses every take at its next pass, whatever was asked and
    however the pass is timed; it neither admits nor waits. *)
Theorem revoked_refuses (pass : Pass) (dir req : Z) (partial : bool) (a : Account) (e : E) :
  account_ok a e -> 1 <= req <= MaxInt ->
  quarantined a = true \/ Enabled (policy a) = false \/
    Mode (dget dir (rates (policy a))) = Blocked ->
  exists err, take_pass pass dir req partial a e = (a, e, TakeFailed err).
Proof.
  intros Ha Hreq Hrev. unfold take_pass. destruct (ctx_err pass); [eauto|].
  destruct (take_size pass dir req partial a) as [n|] eqn:Hsz; [|eauto].
  destruct (allowed _ _ dir (u64 n) a) as [[]|] eqn:Hal; [|eauto]. exfalso.
  apply (allowed_spec a e) in Hal as (t & _ & Hq & He & Hm & _); [|done|apply u64_range].
  destruct Hrev as [?|[?|?]]; congruence.
Qed.

(** ** Whole takes *)

Lemma take_loop_ok passes dir req partial : forall (a a' : Account) e e' res,
  1 <= req <= MaxInt -> account_ok a e -> Forall benign passes ->
  take_loop passes dir req partial a e = (a', e', res) ->
  account_ok a' e' /\
  (forall n, res = Some (Ok n) -> 1 <= n <= req /\ (partial = false -> n = req) /\
     n <= dget dir (admitted a') - dget dir (measured a') /\
     exists pass a0 e0, account_ok a0 e0 /\ take_pass pass dir req partial a0 e0 = (a', e', Took n)).
Proof.
  induction passes as [|[[pass wake] other] rest IH]; simpl; intros a a' e e' res Hreq Ha Hb.
  { by intros [= <- <- <-]. }
  apply Forall_cons in Hb as [Hb Hrest].
  destruct (take_pass pass dir req partial a e) as [[a1 e1] out] eqn:Hp.
  pose proof Hp as Hs. apply take_pass_spec in Hs; [|done..].
  destruct out as [n|err|timer gen].
  - intros [= <- <- <-]. destruct Hs as ((Hok&_&_&_&_&Hm&_&Had&_) & Hsz & _).
    split; [done|]. intros n' [= <-].
    destruct (take_size_spec _ _ _ _ _ _ _ Ha Hreq Hsz) as (?&?&_). split_and!; auto; try lia; eauto.
    rewrite Had, Hm. destruct Ha. unfold dget, dset, admitted. destruct (dir =? UploadDir); simpl; lia.
  - intros [= <- <- <-]. destruct Hs as ((?&_)&_). split; done.
  - destruct Hs as ((Hok&_)&_). specialize (Hb a1 e1 Hok). simpl in Hb.
    destruct (other (a1, e1)) as [a2 e2]. simpl in Hb.
    destruct wake; [intros [= <- <- <-]; split; done|by eapply IH..].
Qed.

Lemma take_ok passes dir req partial (a a' : Account) e e' res :
  req <= MaxInt -> account_ok a e -> Forall benign passes ->
  take passes dir req partial a e = (a', e', res) ->
  account_ok a' e' /\
  (forall n, res = Some (Ok n) -> 1 <= n <= req /\ (partial = false -> n = req) /\
     n <= dget dir (admitted a') - dget dir (measured a') /\
     exists pass a0 e0, account_ok a0 e0 /\ take_pass pass dir req partial a0 e0 = (a', e', Took n)).
Proof.
  intros Hreq Ha Hb. unfold take. split_guard; [intros [= <- <- <-]; split; done|].
  apply take_loop_ok; auto. lia.
Qed.

(** ** Metered connections *)

(** A metered connection delivers the stream unchanged and only what was
    admitted: a successful read hands over a non-empty prefix of what is pending
    (or, if nothing is, of what the connection just gave), keeps all the rest for
    later in order, and one admission of exactly that many upload bytes was
    committed for it; nothing is delivered with an error. *)
Theorem conn_read_delivers (passes : Passes) (len : nat) (net : list Byte.byte * option error)
    (c c' : Conn) (a a' : Account) (e e' : E) (got : list Byte.byte) (err : option error) :
  account_ok a e -> Forall benign passes -> (length net.1 <= len)%nat -> Z.of_nat len <= MaxInt ->
  Conn_Read passes len net c a e = (c', a', e', Some (got, err)) ->
  account_ok a' e' /\
  (err <> None -> got = []) /\
  (got <> [] ->
     got ++ pending c' = (if bool_decide (pending c = []) then net.1 else pending c) /\
     (length got <= len)%nat /\
     exists pass a0 a1 e0 req, account_ok a0 e0 /\
       take_pass pass UploadDir req true a0 e0 = (a1, e', Took (Z.of_nat (length got))) /\
       a' = Record UploadDir (Z.of_nat (length got)) a1).
Proof.
  intros Ha Hb Hnet Hlen. unfold Conn_Read. split_guard; [by intros [= <- <- <- <- <-]|].
  cbv zeta. set (fetched := if bool_decide (pending c <> []) then _ else _).
  assert (match fetched with
    | inl (c1, p) => p ++ pending c1 = (if bool_decide (pending c = []) then net.1 else pending c) /\
        (length p <= len)%nat
    | inr _ => True end) as Hf.
  { unfold fetched. split_guard.
    - rewrite bool_decide_eq_false_2 by done. simpl. rewrite take_drop, length_take. split; [done|lia].
    - apply dec_stable in G0. rewrite G0. simpl. destruct (readErr c); [done|]. simpl.
      by rewrite app_nil_r. }
  destruct fetched as [[c1 p]|err1]; [|intros [= <- <- <- <- <-]; split_and!; [done|auto|done]].
  destruct Hf as [Hstream Hlp]. split_guard; [intros [= <- <- <- <- <-]; split_and!; [done|auto|done]|].
  unfold TakeUpTo. destruct (take passes UploadDir _ true a e) as [[a1 e1] res] eqn:Ht.
  apply take_ok in Ht as [Hok Hres]; [|lia|done..].
  destruct res as [[n|err1]|]; [|intros [= <- <- <- <- <-]; split_and!; [done|auto|done]|done].
  destruct (Hres n eq_refl) as (Hn & _ & _ & pass & a0 & e0 & Ha0 & Hp).
  intros [= <- <- <- <- <-].
  assert (length (firstn (Z.to_nat n) p) = Z.to_nat n) as Hk by (rewrite length_take; lia).
  split_and!; [apply Record_ok; [done|lia]|done|]. intros _. split_and!.
  - rewrite <-Hstream. split_guard; simpl; [by rewrite app_assoc, take_drop|].
    by rewrite take_ge by lia.
  - lia.
  - exists pass, a0, a1, e0, (Z.of_nat (length p)). rewrite Hk, Z2Nat.id by lia. auto.
Qed.

(** The wrapped writer honours [io.Writer]. *)
Definition writes_within (net : list Byte.byte -> nat * option error) : Prop :=
  forall chunk, ((net chunk).1 <= length chunk)%nat.

Lemma write_loop_ok dir rounds : forall written data (a a' : Account) e e' sent res,
  account_ok a e -> Z.of_nat (length data) <= MaxInt ->
  Forall (fun x => Forall benign x.1 /\ writes_within x.2) rounds ->
  write_loop dir rounds written data a e = (a', e', sent, res) ->
  account_ok a' e' /\ (exists rest, data = sent ++ rest) /\
  match res with
  | None => True
  | Some (n, err) => n = (written + length sent)%nat /\ (err = None -> sent = data)
  end.
Proof.
  induction rounds as [|[passes net] rounds IH]; intros written data a a' e e' sent res Ha Hlen Hr.
  { destruct data as [|x data]; simpl; intros [= <- <- <- <-]; split_and!; eauto. }
  destruct data as [|x data]; [simpl; intros [= <- <- <- <-]; split_and!; eauto|].
  cbn [write_loop]. set (whole := x :: data) in *.
  apply Forall_cons in Hr as [[Hb Hw] Hr]. simpl in Hb, Hw.
  unfold TakeUpTo. destruct (take passes dir _ true a e) as [[a1 e1] tk] eqn:Ht.
  apply take_ok in Ht as [Hok Hres]; [|lia|done..].
  destruct tk as [[n|err1]|];
    [|intros [= <- <- <- <-]; split_and!; [done|by exists whole|simpl; lia|done]
     |intros [= <- <- <- <-]; split_and!; [done|by exists whole|done]].
  destruct (Hres n eq_refl) as (Hn & _). set (chunk := firstn (Z.to_nat n) whole).
  assert (length chunk = Z.to_nat n) as Hc by (unfold chunk; rewrite length_take; lia).
  specialize (Hw chunk). destruct (net chunk) as [k err]. simpl in Hw.
  assert (firstn k chunk = firstn k whole) as Hk
    by (unfold chunk; rewrite take_take, Nat.min_l by lia; done).
  assert (length (firstn k chunk) = k) as Hkl by (rewrite length_take; lia).
  assert (account_ok (Record dir (Z.of_nat k) a1) e1) as Hok' by (apply Record_ok; [done|lia]).
  destruct err as [err|].
  { intros [= <- <- <- <-]. split_and!; [done| |lia|done]. exists (skipn k whole).
    by rewrite Hk, take_drop. }
  split_guard.
  { intros [= <- <- <- <-]. split_and!; [done| |lia|done]. exists (skipn k whole).
    by rewrite Hk, take_drop. }
  destruct (write_loop dir rounds (written + k) (skipn k whole) _ e1) as [[[a2 e2] more] r] eqn:Hl.
  intros [= <- <- <- <-]. apply IH in Hl as (Hok2 & [rest Hrest] & Hfin); [|done| |done].
  2: { rewrite length_drop. lia. }
  split_and!; [done| |].
  - exists rest. by rewrite <-app_assoc, <-Hrest, Hk, take_drop.
  - destruct r as [[m err]|]; [|done]. rewrite length_app, Hkl. destruct Hfin as [-> Hfin].
    split; [lia|]. intros He. by rewrite (Hfin He), Hk, take_drop.
Qed.

(** Writing through the account sends a prefix of the data, in order, reports
    exactly its length, and reports success only when all of it was sent; the
    account stays sound throughout, however the admissions and the wrapped writer
    behave. *)
Theorem write_is_exact (dir : Z) (rounds : list (Passes * (list Byte.byte -> nat * option error)))
    (data : list Byte.byte) (a a' : Account) (e e' : E) (sent : list Byte.byte)
    (res : option (nat * option error)) :
  account_ok a e -> Z.of_nat (length data) <= MaxInt ->
  Forall (fun x => Forall benign x.1 /\ writes_within x.2) rounds ->
  Writer_Write dir rounds data a e = (a', e', sent, res) ->
  account_ok a' e' /\ (exists rest, data = sent ++ rest) /\
  match res with
  | None => True
  | Some (n, err) => n = length sent /\ (err = None -> sent = data)
  end.
Proof.
  unfold Writer_Write. intros Ha Hl Hr Hw. apply write_loop_ok in Hw as (?&?&Hres); auto.
Qed.

End Promises.

(** ** A node serves what it may *)

Section Serving.
Context {L : Type} `{!RateLimiter L} `{!RateLimiterLaws L} `{!UUIDs} `{!UUIDLaws}.

Lemma reserve_succeeds (s : Store L) id (a : Account L backing) t :
  store_ok s -> accounts s !! id = Some a -> faults (db s) = [] -> quarantined a = false ->
  is_u64 t -> (QuotaUnlimited (policy a) = true \/ t <= CreditCeiling (policy a)) ->
  exists b d b', persistence a = Some b /\ backing_Reserve b (policy a) t (db s) = (d, Ok b').
Proof.
  intros Hs Ha Hf Hq Ht Hcap.
  destruct (entry_record s id a (so_entry s Hs _ _ Ha)) as (b&r&Hb&Hid&Hr&Hp&Hres&_&_&Hsus).
  exists b. unfold backing_Reserve. split_guard; [eauto|].
  destruct (entry_backing s id a Hs Ha) as (Hok & _). destruct Hok.
  destruct (reserve_next_bounds (policy a) t Ht ok_typed) as (_ & _ & Hge & _). specialize (Hge Hcap).
  unfold db_update, mbind, result_bind. rewrite Hid, Hr. simpl. rewrite Hp.
  assert (Suspended r = false) as -> by (destruct (Suspended r); [rewrite Hsus in Hq|]; done).
  split_guard; [exfalso; destruct_or?; destruct_and?; congruence || lia|].
  rewrite Hf. eauto.
Qed.

(** A node serves whoever may spend: in a store whose commits go through, a
    partial take on an account that is allowed to spend, in a direction without a
    rate limit, is granted at once, for all that was asked or all the credit that
    is left, whichever is less. *)
Theorem unlimited_direction_is_served (s : Store L) (id : string) (a : Account L backing)
    (pass : Pass) (dir req t1 t2 : Z) :
  store_ok s -> accounts s !! id = Some a -> faults (db s) = [] -> ctx_err pass = None ->
  1 <= req <= MaxInt -> spent a + req <= MaxUint64 ->
  Mode (dget dir (rates (policy a))) = Unlimited ->
  clock_now a (wall pass) (reading1 pass) = Ok t1 -> may_spend t1 dir 1 a ->
  clock_now a (wall pass) (reading2 pass) = Ok t2 -> may_spend t2 dir 1 a ->
  exists s', Store_take id pass dir req true s =
    (s', Took (if QuotaUnlimited (policy a) then req
               else Z.min req (CreditCeiling (policy a) - spent a))).
Proof.
  intros Hs Ha Hf Hc Hreq Hroom Hmode H1 M1 H2 M2. unfold Store_take. rewrite Ha.
  destruct (entry_backing s id a Hs Ha) as (Hok & _).
  assert (dget dir (buckets a) = None) as Hnb.
  { destruct Hok. unfold dget, rates in *. destruct (dir =? UploadDir); simpl in *.
    - unfold bucket_ok in ok_bucket_up. destruct (buckets a) as [[]]; simpl in *; [|done].
      destruct ok_bucket_up. unfold Limited, Unlimited in *. congruence.
    - unfold bucket_ok in ok_bucket_down. destruct (buckets a) as [? []]; simpl in *; [|done].
      destruct ok_bucket_down. unfold Limited, Unlimited in *. congruence. }
  assert (exists n, take_size pass dir req true a = Ok n) as [n Hsz].
  { unfold take_size, mbind, result_bind.
    rewrite (proj2 (allowed_spec a (db s) _ _ dir 1 Hok ltac:(lia))) by eauto. eauto. }
  destruct (take_size_spec _ _ _ _ _ _ _ Hok Hreq Hsz) as (Hn & _ & Hval).
  specialize (Hval eq_refl). rewrite Hnb in Hval. cbv zeta in Hval. rewrite <-Hval.
  pose proof M2 as (Hq & He & Hm & Hexp & _ & Hcr). pose proof Hok as [].
  assert (QuotaUnlimited (policy a) = true \/ spent a + n <= CreditCeiling (policy a)) as Hcap.
  { destruct (QuotaUnlimited (policy a)); [auto|]. destruct Hcr; [done|]. right. lia. }
  unfold take_pass. rewrite Hc, Hsz, (u64_small n) by machine.
  rewrite (proj2 (allowed_spec a (db s) _ _ dir n Hok ltac:(lia))).
  2: { exists t2. split; [done|]. unfold may_spend. split_and!; auto. lia. }
  rewrite Hnb. unfold commit_take. rewrite (total_exact a (db s) Hok), (u64_small n) by machine.
  assert (is_u64 (spent a + n)) by (unfold spent in *; machine).
  rewrite add64_small by done.
  destruct (reserve_succeeds s id a (spent a + n)) as (b & d & b' & Hb & Hr); auto.
  rewrite Hb. simpl. rewrite Hr. eauto.
Qed.

End Serving.

(** ** Witnesses *)

Lemma sample_account_ok : account_ok Sample.account (db Sample.store).
Proof. apply (entry_backing _ _ _ sample_store_ok (proj2 sample_entry)). Qed.

Lemma admission_rule_witness :
  allowed 5 (Ok 5) UploadDir 1000 Sample.account = Ok tt /\
  allowed 5 (Ok 5) UploadDir 1000001 Sample.account = Fail ErrQuota.
Proof.
  split.
  - apply (proj2 (proj1 (admission_rule Sample.account (db Sample.store) 5 (Ok 5) UploadDir 1000
             sample_account_ok ltac:(lia)))).
    exists 5. split; [by vm_compute|]. unfold may_spend.
    split_and!; [| | |left| |right]; by vm_compute.
  - by vm_compute.
Defined.

Lemma take_pass_outcomes_witness :
  let '(a', d', out) := take_pass (Sample.pass_at 10) UploadDir 5000000 true Sample.account
                          (db Sample.store) in
  out = Took 65536 /\ account_ok a' d'.
Proof.
  destruct (take_pass _ _ _ _ _ _) as [[a' d'] out] eqn:Ht. split.
  - by vm_compute in Ht; simplify_eq.
  - apply (take_pass_outcomes (Sample.pass_at 10) UploadDir 5000000 true _ _ _ _ _ sample_account_ok ltac:(machine) Ht).
Defined.

Lemma revoked_refuses_witness :
  exists err, take_pass (Sample.pass_at 10) UploadDir 1 true (Quarantine Sample.account)
    (db Sample.store) = (Quarantine Sample.account, db Sample.store, TakeFailed err).
Proof.
  apply (revoked_refuses (Sample.pass_at 10) UploadDir 1 true _ _ (Quarantine_ok _ _ sample_account_ok) ltac:(machine)).
  left. by vm_compute.
Defined.

(** Nobody else acts while the take waits. *)
Definition alone (t : Z) : list (Pass * Wake * (Account TokenBucket backing * DB ->
    Account TokenBucket backing * DB)) := [(Sample.pass_at t, WakeTimer, id)].

Lemma alone_benign t : Forall benign (alone t).
Proof. apply Forall_singleton. intros a e Ha. exact Ha. Qed.

Lemma conn_read_delivers_witness :
  let net := ([Byte.x01; Byte.x02; Byte.x03], None) in
  exists c' a' d',
    Conn_Read (alone 10) 8 net WrapConn Sample.account (db Sample.store) =
      (c', a', d', Some ([Byte.x01; Byte.x02; Byte.x03], None)) /\ account_ok a' d'.
Proof.
  intros net.
  destruct (Conn_Read (alone 10) 8 net WrapConn Sample.account (db Sample.store))
    as [[[c' a'] d'] [[got err]|]] eqn:Hr; [|by vm_compute in Hr].
  pose proof (conn_read_delivers (alone 10) 8 net WrapConn c' Sample.account a' (db Sample.store) d'
    got err sample_account_ok (alone_benign 10) ltac:(simpl; lia) ltac:(machine) Hr) as [Hok _].
  assert (got = [Byte.x01; Byte.x02; Byte.x03] /\ err = None) as [-> ->]
    by (vm_compute in Hr; injection Hr as _ _ _ <- <-; done).
  exists c', a', d'. exact (conj eq_refl Hok).
Defined.

Lemma write_is_exact_witness :
  exists a' d' sent,
    Writer_Write DownloadDir [(alone 10, fun chunk => (length chunk, None))]
      [Byte.x01; Byte.x02] Sample.account (db Sample.store) =
      (a', d', sent, Some (2%nat, None)) /\ sent = [Byte.x01; Byte.x02].
Proof.
  destruct (Writer_Write DownloadDir [(alone 10, fun chunk => (length chunk, None))]
      [Byte.x01; Byte.x02] Sample.account (db Sample.store)) as [[[a' d'] sent] res] eqn:Hr.
  assert (res = Some (2%nat, None)) as -> by (vm_compute in Hr; injection Hr as _ _ _ <-; done).
  exists a', d', sent. split; [reflexivity|].
  apply (write_is_exact DownloadDir [(alone 10, fun chunk => (length chunk, None))]
    [Byte.x01; Byte.x02] Sample.account a' (db Sample.store) d' sent (Some (2%nat, None))
    sample_account_ok ltac:(simpl; machine)); [|exact Hr|reflexivity].
  apply Forall_singleton. split; [apply alone_benign|]. intros chunk. simpl. lia.
Defined.

(** The sample grant with the download direction unlimited. *)
Definition sample_open_grant : Grant :=
  mkGrant Sample.grant_id Sample.client_id 2
    (mkPolicy Sample.term_id 2 2 true 0 false 2000000 2 Sample.rate (mkRate Unlimited 0 0)).
Definition sample_open_store : Store TokenBucket :=
  (Store_Apply (1, 1) sample_open_grant Sample.store).1.

Lemma sample_open_store_ok : store_ok sample_open_store.
Proof.
  eapply (Store_Apply_ok (1, 1) sample_open_grant Sample.store _ (Ok tt) sample_store_ok).
  - by split; vm_compute.
  - vm_compute. reflexivity.
Qed.

Definition sample_open_account : Account TokenBucket backing :=
  default Sample.account (accounts sample_open_store !! Sample.grant_id).

Lemma sample_open_spends t : may_spend t DownloadDir 1 sample_open_account.
Proof. unfold may_spend. split_and!; [| | |left| |right]; by vm_compute. Qed.

Lemma unlimited_direction_is_served_witness :
  exists s', Store_take Sample.grant_id (Sample.pass_at 10) DownloadDir 5000000 true
    sample_open_store = (s', Took 2000000).
Proof.
  assert (accounts sample_open_store !! Sample.grant_id = Some sample_open_account) as Ha
    by (vm_compute; reflexivity).
  destruct (unlimited_direction_is_served sample_open_store Sample.grant_id sample_open_account
    (Sample.pass_at 10) DownloadDir 5000000 10000000000 10000000000 sample_open_store_ok Ha)
    as [s' Hs'].
  1,2,5,6,8: vm_compute; reflexivity.
  1: machine.
  1: by vm_compute.
  1,2: apply sample_open_spends.
  exists s'. rewrite Hs'. f_equal.
Defined.
