(* ===== verification/TrustedTime.v ===== *)
(** * Authenticated time: internal/node/trustedtime/clock.go

    The master's time, carried forward on the monotonic clock of one boot.  The
    monotonic source, the storage's answers and the fresh nonces are inputs of the
    operations; [time.Time] results are Unix milliseconds. *)
From S2P Require Import Prelude Limits Authority Instances.

Record Instant := mkInstant { Boot : string; Nano : Z }.

Record anchor := mkAnchor { Version : Z; aBoot : string; aNano : Z; aUnixMilli : Z }.

(** The bytes the storage holds: nothing, a JSON anchor, or something else. *)
Inductive ClockData := NoClock | ClockAnchor (a : anchor) | ClockGarbage.

Record Clock := mkClock {
  saved : option anchor;
  request : option anchor;
  nonce : string;
  started : Instant }.

Definition MaxRoundTrip : Z := 5 * Second.

Definition validBoot `{!UUIDs} (value : string) : bool := ValidID value.

(** [New], past the nil checks. *)
Definition New_clock `{!UUIDs} (read : result ClockData) : result Clock :=
  data ← read;
  match data with
  | NoClock => Ok (mkClock None None "" (mkInstant "" 0))
  | ClockGarbage => Fail ErrUntrusted
  | ClockAnchor a =>
      if negb (Version a =? 1) || negb (validBoot (aBoot a)) || (aNano a <? 0) || (aUnixMilli a <=? 0)
      then Fail ErrUntrusted
      else Ok (mkClock (Some a) None "" (mkInstant "" 0))
  end.

(** The upper bound an anchor gives for the instant [at_]. *)
Definition now (at_ : Instant) (s : option anchor) : result Z :=
  match s with
  | None => Fail ErrUntrusted
  | Some s =>
      if bool_decide (Boot at_ <> aBoot s) || (Nano at_ <? aNano s) || (aUnixMilli s <=? 0)
      then Fail ErrUntrusted
      else
        let delta := i64 (Nano at_ - aNano s) in
        let elapsed := Z.quot delta Millisecond in
        let elapsed := if negb (Z.rem delta Millisecond =? 0) then elapsed + 1 else elapsed in
        if i64 (MaxInt64 - elapsed) <? aUnixMilli s then Fail ErrUntrusted
        else Ok (i64 (aUnixMilli s + elapsed))
  end.

Definition Clock_Now (source : result Instant) (c : Clock) : result Z :=
  at_ ← source; now at_ (saved c).

Definition RequestTime (source : result Instant) (c : Clock) : result Z :=
  match source, request c with
  | Ok at_, Some s =>
      if bool_decide (Boot at_ <> aBoot s) || (Nano at_ <? aNano s) then Fail ErrUntrusted
      else
        let elapsed := Z.quot (i64 (Nano at_ - aNano s)) Millisecond in
        if i64 (MaxInt64 - elapsed) <? aUnixMilli s then Fail ErrUntrusted
        else Ok (i64 (aUnixMilli s + elapsed))
  | _, _ => Fail ErrUntrusted
  end.

(** [fresh]: the nonce [uuid.NewString] makes. *)
Definition Begin `{!UUIDs} (source : result Instant) (fresh : string) (c : Clock)
    : Clock * result string :=
  match source with
  | Fail e => (c, Fail e)
  | Ok at_ =>
      if negb (validBoot (Boot at_)) || (Nano at_ <? 0) then (c, Fail ErrUntrusted)
      else (mkClock (saved c) (request c) fresh at_, Ok fresh)
  end.

Definition clear_nonce (c : Clock) : Clock := mkClock (saved c) (request c) "" (started c).

Definition roundTrip (c : Clock) (at_ : Instant) : Z :=
  Z.quot (i64 (Nano at_ - Nano (started c) + Millisecond - 1)) Millisecond.

Definition stamp (c : Clock) (at_ : Instant) (serverUnixMilli : Z) : Z :=
  let s := i64 (serverUnixMilli + roundTrip c at_) in
  let s := match saved c with Some a => Z.max s (aUnixMilli a) | None => s end in
  match now at_ (saved c) with Ok previous => Z.max s previous | Fail _ => s end.

(** [write]: the storage's answer to the new anchor. *)
Definition Accept (source : result Instant) (write : result unit) (given : string)
    (serverUnixMilli : Z) (c : Clock) : Clock * result unit :=
  if bool_decide (given = ""%string) || bool_decide (given <> nonce c) then (c, Fail ErrUntrusted)
  else
    let c := clear_nonce c in
    match source with
    | Fail e => (c, Fail e)
    | Ok at_ =>
        if bool_decide (Boot at_ <> Boot (started c)) || (Nano at_ <? Nano (started c)) ||
           (MaxRoundTrip <? i64 (Nano at_ - Nano (started c))) || (serverUnixMilli <=? 0)
        then (c, Fail ErrUntrusted)
        else if i64 (MaxInt64 - roundTrip c at_) <? serverUnixMilli then (c, Fail ErrUntrusted)
        else
          match write with
          | Fail e => (c, Fail e)
          | Ok _ =>
              (mkClock (Some (mkAnchor 1 (Boot at_) (Nano at_) (stamp c at_ serverUnixMilli)))
                 (Some (mkAnchor 1 (Boot at_) (Nano at_) serverUnixMilli))
                 (nonce c) (started c), Ok tt)
          end
    end.

(** ** Facts *)

(** Whole milliseconds covering [n] nanoseconds. *)
Definition ceil_ms (n : Z) : Z := (n + Millisecond - 1) / Millisecond.

Lemma ceil_ms_bounds n : n <= ceil_ms n * Millisecond < n + Millisecond.
Proof.
  unfold ceil_ms. pose proof (Z.div_mod (n + Millisecond - 1) Millisecond).
  pose proof (Z.mod_pos_bound (n + Millisecond - 1) Millisecond). unfold Millisecond in *. lia.
Qed.

(** The anchors a clock can hold. *)
Definition anchor_ok (a : anchor) : Prop :=
  0 <= aNano a <= MaxInt64 /\ 0 < aUnixMilli a <= MaxInt64.

Lemma now_spec at_ a t :
  anchor_ok a -> is_i64 (Nano at_) -> now at_ (Some a) = Ok t ->
  Boot at_ = aBoot a /\ aNano a <= Nano at_ /\ t = aUnixMilli a + ceil_ms (Nano at_ - aNano a) /\
  0 < t <= MaxInt64.
Proof.
  intros [Hn Hm] Ha. unfold now. split_guard; [done|].
  destruct_and!. apply dec_stable in H1. cbv zeta.
  rewrite (i64_small (Nano at_ - aNano a)) by machine.
  set (d := Nano at_ - aNano a) in *. assert (0 <= d) by (unfold d; lia).
  assert ((if negb (Z.rem d Millisecond =? 0) then Z.quot d Millisecond + 1 else Z.quot d Millisecond)
    = ceil_ms d) as ->.
  { rewrite Z.quot_div_nonneg, Z.rem_mod_nonneg by (unfold Millisecond; lia).
    pose proof (ceil_ms_bounds d). pose proof (Z.div_mod d Millisecond).
    pose proof (Z.mod_pos_bound d Millisecond). unfold Millisecond in *.
    destruct (negb (d mod 1000000 =? 0)) eqn:Hz; bools; lia. }
  pose proof (ceil_ms_bounds d). assert (d <= MaxInt64) by (unfold d; machine).
  assert (0 <= ceil_ms d <= MaxInt64) by (unfold Millisecond in *; machine).
  rewrite i64_small by machine. split_guard; [done|]. intros [= <-].
  rewrite i64_small by machine. split_and!; auto; machine.
Qed.

Lemma roundTrip_spec c at_ :
  Nano (started c) <= Nano at_ <= Nano (started c) + MaxRoundTrip ->
  roundTrip c at_ = ceil_ms (Nano at_ - Nano (started c)).
Proof.
  intros H. unfold roundTrip, ceil_ms, MaxRoundTrip, Second, Millisecond in *.
  rewrite i64_small by machine. by rewrite Z.quot_div_nonneg by lia.
Qed.

(** What a successful [Accept] leaves behind. *)
Lemma Accept_spec source write given server c c' u :
  is_i64 server -> (forall a, saved c = Some a -> anchor_ok a) ->
  0 <= Nano (started c) <= MaxInt64 -> (forall i, source = Ok i -> is_i64 (Nano i)) ->
  Accept source write given server c = (c', Ok u) ->
  exists at_ a, source = Ok at_ /\ given = nonce c /\ given <> ""%string /\ nonce c' = ""%string /\
    saved c' = Some a /\ anchor_ok a /\ aBoot a = Boot at_ /\ aNano a = Nano at_ /\
    Boot at_ = Boot (started c) /\ Nano (started c) <= Nano at_ /\
    server + ceil_ms (Nano at_ - Nano (started c)) <= aUnixMilli a /\
    (forall old, saved c = Some old -> aUnixMilli old <= aUnixMilli a /\
       forall t, now at_ (saved c) = Ok t -> t <= aUnixMilli a) /\
    request c' = Some (mkAnchor 1 (Boot at_) (Nano at_) server).
Proof.
  intros Hsv Hold Hst Hsrc. unfold Accept. split_guard; [done|].
  destruct source as [at_|]; [|done]. specialize (Hsrc at_ eq_refl). cbv zeta.
  split_guard; [done|]. destruct_and!. split_guard; [done|].
  destruct write as [w|]; [|done]. intros [= <- <-]. simpl in *. bools.
  rewrite i64_small in * by machine.
  assert (roundTrip (clear_nonce c) at_ = ceil_ms (Nano at_ - Nano (started c))) as Hrt
    by (apply (roundTrip_spec (clear_nonce c)); simpl; lia).
  pose proof (ceil_ms_bounds (Nano at_ - Nano (started c))) as Hceil.
  assert (0 <= ceil_ms (Nano at_ - Nano (started c)) <= 5001)
    by (unfold MaxRoundTrip, Second, Millisecond in *; lia).
  rewrite Hrt in *. rewrite i64_small in * by machine.
  exists at_. eexists. 
  assert (is_i64 (server + ceil_ms (Nano at_ - Nano (started c)))) by machine.
  assert (forall t, now at_ (saved c) = Ok t -> t <= MaxInt64 /\ 0 < t) as Hnow.
  { intros t Ht. destruct (saved c) as [a|] eqn:Hs; [|done].
    apply now_spec in Ht; [|auto|done]. lia. }
  assert (stamp (clear_nonce c) at_ server <= MaxInt64 /\
    server + ceil_ms (Nano at_ - Nano (started c)) <= stamp (clear_nonce c) at_ server /\
    (forall old, saved c = Some old -> aUnixMilli old <= stamp (clear_nonce c) at_ server) /\
    (forall t, now at_ (saved c) = Ok t -> t <= stamp (clear_nonce c) at_ server)) as (S1&S2&S3&S4).
  { unfold stamp. rewrite Hrt. simpl. rewrite i64_small by done.
    destruct (now at_ (saved c)) as [t|]; [specialize (Hnow t eq_refl)|];
      (destruct (saved c) as [a|]; [specialize (Hold a eq_refl); destruct Hold|]);
      split_and!; intros; simplify_eq; machine. }
  split_and!; [done|by apply dec_stable|done|done|done|split; simpl; machine|done|done|
    by apply dec_stable|done|done| |done].
  intros old Ho. split; [by apply S3|]. exact S4.
Qed.

(** What every clock built by [New_clock] satisfies, and every operation keeps. *)
Definition clock_ok (c : Clock) : Prop :=
  (forall a, saved c = Some a -> anchor_ok a) /\ 0 <= Nano (started c) <= MaxInt64.

(** Everything that happens to a clock, at an instant of the boot: a
    synchronisation begins, is answered, or the worker restarts from its storage. *)
Inductive clock_step `{!UUIDs} : Instant -> Clock -> Clock -> Prop :=
| clock_begin i fresh c : clock_step i c (Begin (Ok i) fresh c).1
| clock_accept i write given server c :
    is_i64 server -> clock_step i c (Accept (Ok i) write given server c).1
| clock_restart i c c' :
    New_clock (Ok (match saved c with Some a => ClockAnchor a | None => NoClock end)) = Ok c' ->
    clock_step i c c'.

Section Facts.
Context `{!UUIDs}.

Lemma Accept_cases source write given server c c' r :
  Accept source write given server c = (c', r) ->
  (saved c' = saved c /\ request c' = request c /\ started c' = started c /\ is_ok r = false) \/
  (is_ok r = true /\ started c' = started c).
Proof.
  unfold Accept. split_guard; [intros [= <- <-]; auto|]. cbv zeta.
  destruct source; [|intros [= <- <-]; auto]. split_guard; [intros [= <- <-]; auto|].
  split_guard; [intros [= <- <-]; auto|]. destruct write; intros [= <- <-]; auto.
Qed.

(** A synchronisation, answered or not, keeps or raises every later reading. *)
Lemma Accept_raises i write given server c j t t' :
  clock_ok c -> is_i64 server -> is_i64 (Nano i) -> is_i64 (Nano j) ->
  Nano i <= Nano j -> Boot i = Boot j ->
  now j (saved c) = Ok t -> now j (saved (Accept (Ok i) write given server c).1) = Ok t' -> t <= t'.
Proof.
  intros [Hs Hst] Hsv Hi Hj Hij Hb Ht.
  destruct (Accept (Ok i) write given server c) as [c' r] eqn:Ha. simpl. intros Ht'.
  destruct r as [u|e].
  2: { destruct (Accept_cases _ _ _ _ _ _ _ Ha) as [(Hsv' & _)|[? _]]; [|done]. rewrite Hsv' in Ht'.
       rewrite Ht in Ht'. by simplify_eq. }
  apply Accept_spec in Ha as (i' & a & [= <-] & _ & _ & _ & Hsa & Hok & Hab & Han & _ & _ & _ & Hold & _);
    [|done..|intros ? [= <-]; done].
  rewrite Hsa in Ht'. destruct (saved c) as [o|] eqn:Ho; [|done].
  apply now_spec in Ht as (Hbo & Hno & -> & Hpos); [|auto|done].
  apply now_spec in Ht' as (_ & _ & -> & _); [|done|done].
  destruct (Hold o eq_refl) as [Hge Hnow].
  pose proof (ceil_ms_bounds (Nano j - aNano o)). pose proof (ceil_ms_bounds (Nano j - aNano a)).
  destruct (decide (aNano o <= Nano i)) as [Hle|Hgt].
  - pose proof (ceil_ms_bounds (Nano i - aNano o)).
    assert (now i (Some o) = Ok (aUnixMilli o + ceil_ms (Nano i - aNano o))) as Hni.
    { destruct (Hs o eq_refl) as [? ?]. unfold now.
      rewrite bool_decide_eq_false_2 by (intros Hne; apply Hne; congruence). simpl.
      rewrite (proj2 (Z.ltb_ge _ _)), (proj2 (Z.leb_gt _ _)) by lia. simpl.
      rewrite (i64_small (Nano i - aNano o)) by machine. set (d := Nano i - aNano o) in *.
      assert ((if negb (Z.rem d Millisecond =? 0) then Z.quot d Millisecond + 1
               else Z.quot d Millisecond) = ceil_ms d) as ->.
      { rewrite Z.quot_div_nonneg, Z.rem_mod_nonneg by (unfold Millisecond; lia).
        pose proof (Z.div_mod d Millisecond). pose proof (Z.mod_pos_bound d Millisecond).
        unfold Millisecond in *. destruct (negb (d mod 1000000 =? 0)) eqn:Hz; bools; lia. }
      assert (0 <= ceil_ms d <= ceil_ms (Nano j - aNano o)) by (unfold Millisecond in *; lia).
      rewrite i64_small by machine. rewrite (proj2 (Z.ltb_ge _ _)) by machine.
      by rewrite i64_small by machine. }
    specialize (Hnow _ Hni). rewrite Han in *. unfold Millisecond in *. lia.
  - rewrite Han in *. unfold Millisecond in *. lia.
Qed.

(** C37: trusted time never goes back: whatever happens to the clock (a
    synchronisation begun, answered, refused or forged, a restart of the worker),
    at every later instant of the boot it reads at least what it would have read
    had nothing happened. *)
Theorem time_never_goes_back (i j : Instant) (c c' : Clock) (t t' : Z) :
  clock_ok c -> clock_step i c c' -> is_i64 (Nano i) -> is_i64 (Nano j) ->
  Nano i <= Nano j -> Boot i = Boot j ->
  Clock_Now (Ok j) c = Ok t -> Clock_Now (Ok j) c' = Ok t' -> t <= t'.
Proof.
  intros Hc Hst Hi Hj Hij Hb. unfold Clock_Now, mbind, result_bind.
  destruct Hst as [i fresh c|i write given server c Hsv|i c c' Hn].
  - unfold Begin. destruct (_ || _); simpl; intros Ht Ht'; rewrite Ht in Ht'; by simplify_eq.
  - by apply Accept_raises.
  - assert (saved c' = saved c) as ->; [|intros Ht Ht'; rewrite Ht in Ht'; by simplify_eq].
    revert Hn. unfold New_clock, mbind, result_bind.
    destruct (saved c); [destruct (_ || _); [done|]|]; by intros [= <-].
Qed.

(** The true time in Unix milliseconds at monotonic instant [n] of a boot that
    started [origin] nanoseconds after the epoch. *)
Definition true_ms (origin n : Z) : Z := (origin + n) / Millisecond.

(** An accepted answer brackets the true time: when the master read its clock
    at some instant between the request and the answer, then ever after in this
    boot the expiry clock reads no earlier than the true time, so transport delay
    can only shorten authority, and the request clock reads no later. *)
Theorem accepted_time_brackets (origin sent : Z) (i j : Instant) (write : result unit)
    (given : string) (server : Z) (c c' : Clock) (t : Z) :
  clock_ok c -> is_i64 server -> is_i64 (Nano i) -> is_i64 (Nano j) ->
  Accept (Ok i) write given server c = (c', Ok tt) ->
  Nano (started c) <= sent <= Nano i -> server = true_ms origin sent ->
  (Clock_Now (Ok j) c' = Ok t -> true_ms origin (Nano j) <= t) /\
  (RequestTime (Ok j) c' = Ok t -> t <= true_ms origin (Nano j)).
Proof.
  intros [Hs Hst] Hsv Hi Hj Ha Hsent Hserver.
  apply Accept_spec in Ha as (i' & a & [= <-] & _ & _ & _ & Hsa & Hok & _ & Han & _ & Hle & Hge & _ & Hreq);
    [|done..|intros ? [= <-]; done].
  pose proof (Z.div_mod (origin + sent) Millisecond). pose proof (Z.div_mod (origin + Nano j) Millisecond).
  pose proof (Z.mod_pos_bound (origin + sent) Millisecond).
  pose proof (Z.mod_pos_bound (origin + Nano j) Millisecond).
  pose proof (ceil_ms_bounds (Nano i - Nano (started c))). unfold true_ms in *. split.
  - unfold Clock_Now, mbind, result_bind. rewrite Hsa. intros Ht.
    apply now_spec in Ht as (_ & Hn & -> & _); [|done|done].
    pose proof (ceil_ms_bounds (Nano j - aNano a)). rewrite Han in *. unfold Millisecond in *. lia.
  - unfold RequestTime. rewrite Hreq. simpl. split_guard; [done|]. destruct_and!.
    assert (0 <= Nano i) by lia.
    rewrite (i64_small (Nano j - Nano i)) by machine.
    rewrite Z.quot_div_nonneg by (unfold Millisecond; lia).
    pose proof (Z.div_mod (Nano j - Nano i) Millisecond).
    pose proof (Z.mod_pos_bound (Nano j - Nano i) Millisecond).
    assert (0 <= (Nano j - Nano i) / Millisecond <= MaxInt64) by (unfold Millisecond in *; machine).
    rewrite i64_small by machine. split_guard; [done|]. intros [= <-].
    rewrite i64_small by (unfold Millisecond in *; machine). unfold Millisecond in *. lia.
Qed.

(** An answer counts once and only for the request it answers: a wrong or empty
    nonce is refused and changes nothing, and after any attempt with the right one
    the clock holds no nonce any more, so every replay is refused. *)
Theorem answer_counts_once (source source' : result Instant) (write write' : result unit)
    (given given' : string) (server server' : Z) (c : Clock) :
  (given <> nonce c -> Accept source write given server c = (c, Fail ErrUntrusted)) /\
  (given = nonce c ->
   let c' := (Accept source write given server c).1 in
   Accept source' write' given' server' c' = (c', Fail ErrUntrusted)).
Proof.
  assert (forall s w g sv (d : Clock), nonce d = ""%string -> Accept s w g sv d = (d, Fail ErrUntrusted))
    as Hempty.
  { intros s w g sv d Hd. unfold Accept. rewrite Hd.
    destruct (decide (g = ""%string)) as [->|Hg]; [done|].
    by rewrite (bool_decide_eq_true_2 (g <> ""%string)), orb_true_r by done. }
  split.
  - intros Hne. unfold Accept. by rewrite (bool_decide_eq_true_2 (given <> nonce c)), orb_true_r by done.
  - intros -> c'. apply Hempty. unfold c', Accept.
    destruct (decide (nonce c = ""%string)) as [He|He]; [by rewrite He|].
    rewrite (bool_decide_eq_false_2 (nonce c = ""%string)), (bool_decide_eq_false_2 (nonce c <> nonce c)) by auto.
    simpl. destruct source; [|done]. split_guard; [done|]. split_guard; [done|]. by destruct write.
Qed.

End Facts.

(** ** Witnesses *)

(** A clock that asked at nanosecond 0 of its boot, was answered two milliseconds
    later with a reading of 5001, and asked again. *)
Definition sample_boot : string := "55555555-5555-4555-8555-555555555555".
Definition sample_instant (n : Z) : Instant := mkInstant sample_boot n.
Definition sample_asked : Clock := mkClock None None "n" (sample_instant 0).
Definition sample_synced : Clock :=
  (Accept (Ok (sample_instant 2000000)) (Ok tt) "n" 5001 sample_asked).1.
Definition sample_again : Clock := (Begin (Ok (sample_instant 3000000)) "m" sample_synced).1.

Lemma sample_asked_ok : clock_ok sample_asked.
Proof. split; [done|simpl; machine]. Qed.

Lemma sample_again_ok : clock_ok sample_again.
Proof.
  split; [|split; by vm_compute]. intros a Ha. vm_compute in Ha. injection Ha as <-.
  split; split; by vm_compute.
Qed.

Lemma time_never_goes_back_witness :
  exists t t', Clock_Now (Ok (sample_instant 5000000)) sample_again = Ok t /\
    Clock_Now (Ok (sample_instant 5000000))
      (Accept (Ok (sample_instant 4000000)) (Ok tt) "m" 9002 sample_again).1 = Ok t' /\ t <= t'.
Proof.
  eexists _, _. split; [vm_compute; reflexivity|]. split; [vm_compute; reflexivity|].
  refine (time_never_goes_back (sample_instant 4000000) (sample_instant 5000000) sample_again
    (Accept (Ok (sample_instant 4000000)) (Ok tt) "m" 9002 sample_again).1 _ _
    sample_again_ok (clock_accept _ _ _ _ _ _) _ _ _ eq_refl _ _).
  - machine.
  - simpl. machine.
  - simpl. machine.
  - simpl. machine.
  - vm_compute. reflexivity.
  - vm_compute. reflexivity.
Defined.

Lemma accepted_time_brackets_witness :
  Clock_Now (Ok (sample_instant 5000000)) sample_synced = Ok 5006 /\
  true_ms 5000500000 5000000 <= 5006.
Proof.
  split; [vm_compute; reflexivity|].
  apply (accepted_time_brackets 5000500000 1000000 (sample_instant 2000000)
    (sample_instant 5000000) (Ok tt) "n" 5001 sample_asked sample_synced 5006 sample_asked_ok);
    try (simpl; machine); vm_compute; reflexivity.
Defined.

Lemma answer_counts_once_witness :
  Accept (Ok (sample_instant 4000000)) (Ok tt) "n" 5001 sample_synced =
    (sample_synced, Fail ErrUntrusted).
Proof.
  apply (proj2 (answer_counts_once (Ok (sample_instant 2000000)) (Ok (sample_instant 4000000))
    (Ok tt) (Ok tt) "n" "n" 5001 5001 sample_asked) eq_refl).
Defined.
