(* ===== verification/Plans.v ===== *)
(** * Client plans and device caps: internal/policy

    Rate ladders (plan.go, the depletion ladder of cycle.go) and the cap on the
    addresses a client may be live from (ipcap.go).  Go maps are [gmap]s: where
    the code ranges over one it sorts the result by a total order, so the
    iteration order does not matter. *)
From S2P Require Import Prelude.

(** ** Ladders: plan.go *)

Record Tier := mkTier { FromBytes : Z; UpBps : Z; DownBps : Z }.
Abbreviation Plan := (list Tier).
Record Limits := mkLimits { lUpBps : Z; lDownBps : Z }.

(** One iteration of the loop in [Evaluate]; [None] is [found == false]. *)
Definition evaluate_step (usedBytes : Z) (best : option Tier) (tier : Tier) : option Tier :=
  if usedBytes <? FromBytes tier then best
  else
    match best with
    | None => Some tier
    | Some b => if FromBytes b <=? FromBytes tier then Some tier else best
    end.

Definition Evaluate (p : Plan) (usedBytes : Z) : Limits :=
  match foldl (evaluate_step usedBytes) None p with
  | None => mkLimits 0 0
  | Some best => mkLimits (UpBps best) (DownBps best)
  end.

Definition capRate (rate : Z) : Z :=
  if rate =? 0 then 8 * 1024 * 1024 else Z.min rate (8 * 1024 * 1024).

Definition DepletionLadder (p : Plan) (quota : Z) : Plan :=
  if quota <=? 0 then p
  else
    let limits := Evaluate p quota in
    filter (fun tier => FromBytes tier < quota) p ++
    [mkTier quota (capRate (lUpBps limits)) (capRate (lDownBps limits))].

(** ** Device caps: ipcap.go *)

Record Observation := mkObs {
  IP : string; LastSeenUnixMilli : Z; FirstSeenUnixMilli : Z }.

Record Verdict := mkVerdict {
  Keep : list Observation; Over : list Observation; Retain : list Observation }.

Definition with_first (o : Observation) (first : Z) : Observation :=
  mkObs (IP o) (LastSeenUnixMilli o) first.

Definition earliest (a b : Z) : Z :=
  if a =? 0 then b else if b =? 0 then a else Z.min a b.

Definition merge_persisted (staleCutoff : Z) (byIP : gmap string Observation) (o : Observation)
    : gmap string Observation :=
  if LastSeenUnixMilli o <? staleCutoff then byIP else <[ IP o := o ]> byIP.

Definition merge_observed (byIP : gmap string Observation) (o : Observation)
    : gmap string Observation :=
  match byIP !! IP o with
  | None => <[ IP o := o ]> byIP
  | Some prev =>
      <[ IP o := mkObs (IP prev) (Z.max (LastSeenUnixMilli prev) (LastSeenUnixMilli o))
                   (earliest (FirstSeenUnixMilli prev) (FirstSeenUnixMilli o)) ]> byIP
  end.

(** [sort.Slice] with the orders of [sortByArrival] and [sortOldestFirst]. *)
Definition arrival_le (a b : Observation) : Prop :=
  FirstSeenUnixMilli a < FirstSeenUnixMilli b \/
  (FirstSeenUnixMilli a = FirstSeenUnixMilli b /\ String.le (IP a) (IP b)).
Definition oldest_le (a b : Observation) : Prop :=
  LastSeenUnixMilli a < LastSeenUnixMilli b \/
  (LastSeenUnixMilli a = LastSeenUnixMilli b /\ String.le (IP a) (IP b)).

#[global] Instance arrival_le_dec a b : Decision (arrival_le a b).
Proof. unfold arrival_le. apply _. Defined.
#[global] Instance oldest_le_dec a b : Decision (oldest_le a b).
Proof. unfold oldest_le. apply _. Defined.

Definition sortByArrival (l : list Observation) : list Observation := merge_sort arrival_le l.
Definition sortOldestFirst (l : list Observation) : list Observation := merge_sort oldest_le l.

(** Which side of the split one entry of [byIP] lands on. *)
Definition classify (now : Z) (seenThisPass heldElsewhere : gset string) (o : Observation)
    : Observation + Observation :=
  if bool_decide (IP o ∈ seenThisPass) then
    inl (if FirstSeenUnixMilli o =? 0 then with_first o now else o)
  else if bool_decide (IP o ∈ heldElsewhere) then
    inl (if FirstSeenUnixMilli o =? 0 then with_first o (LastSeenUnixMilli o) else o)
  else inr (with_first o 0).

Definition lefts {A B} (l : list (A + B)) : list A :=
  omap (fun x => match x with inl a => Some a | inr _ => None end) l.
Definition rights {A B} (l : list (A + B)) : list B :=
  omap (fun x => match x with inl _ => None | inr b => Some b end) l.

Definition byIP (persisted observed : list Observation) (staleCutoff : Z)
    : gmap string Observation :=
  foldl merge_observed (foldl (merge_persisted staleCutoff) ∅ persisted) observed.

Definition merge (persisted observed : list Observation) (now staleCutoff : Z)
    (heldElsewhere : gset string) : list Observation * list Observation :=
  let seenThisPass := list_to_set (IP <$> observed) in
  let all := (classify now seenThisPass heldElsewhere <$>
               (map_to_list (byIP persisted observed staleCutoff)).*2) in
  (sortByArrival (lefts all), sortOldestFirst (rights all)).

Definition overCap (live : list Observation) (limit : Z)
    : list Observation * list Observation :=
  if (limit <=? 0) || (Z.of_nat (length live) <=? limit) then (live, [])
  else (firstn (Z.to_nat limit) live, skipn (Z.to_nat limit) live).

Definition Decide (persisted observed : list Observation) (limit nowUnixMilli staleCutoff : Z)
    (heldElsewhere : gset string) : Verdict :=
  let '(live, retain) := merge persisted observed nowUnixMilli staleCutoff heldElsewhere in
  let '(keep, over) := overCap live limit in
  mkVerdict keep over retain.

(** The loop of [Admit]: [None] once the source is found. *)
Fixpoint admit_scan (distinct : gset string) (held : list string) (source : string)
    : option (gset string) :=
  match held with
  | [] => Some distinct
  | h :: rest => if bool_decide (h = source) then None else admit_scan ({[ h ]} ∪ distinct) rest source
  end.

Definition Admit (held : list string) (source : string) (limit : Z) : bool :=
  if limit <=? 0 then true
  else
    match admit_scan ∅ held source with
    | None => true
    | Some distinct => Z.of_nat (size distinct) <? limit
    end.

(** ** Facts about ladders *)

(** [t] is what the ladder says at [used]: the last of the highest applicable tiers. *)
Definition applies (p : Plan) (used : Z) (t : Tier) : Prop :=
  exists before after, p = before ++ t :: after /\ FromBytes t <= used /\
    Forall (fun x => FromBytes x <= used -> FromBytes x <= FromBytes t) before /\
    Forall (fun x => FromBytes x <= used -> FromBytes x < FromBytes t) after.

Lemma evaluate_fold p used :
  match foldl (evaluate_step used) None p with
  | None => Forall (fun x => used < FromBytes x) p
  | Some t => applies p used t
  end.
Proof.
  induction p as [|x p IH] using rev_ind; [constructor|].
  rewrite foldl_app. simpl. unfold evaluate_step at 1.
  destruct (foldl (evaluate_step used) None p) as [t|].
  - destruct IH as (b & a & -> & Ht & Hb & Ha).
    destruct (used <? FromBytes x) eqn:Hx; bools.
    + exists b, (a ++ [x]). rewrite <-app_assoc. split_and!; auto.
      apply Forall_app. split; [done|]. apply Forall_singleton. lia.
    + destruct (FromBytes t <=? FromBytes x) eqn:Htx; bools.
      * exists (b ++ t :: a), []. split_and!; auto. apply Forall_app. rewrite Forall_cons.
        split_and!; [..|eapply Forall_impl; [exact Ha|]; naive_solver lia];
          [eapply Forall_impl; [exact Hb|]; naive_solver lia|naive_solver lia].
      * exists b, (a ++ [x]). rewrite <-app_assoc. split_and!; auto.
        apply Forall_app. split; [done|]. apply Forall_singleton. lia.
  - destruct (used <? FromBytes x) eqn:Hx; bools.
    + apply Forall_app. split; [done|]. by apply Forall_singleton.
    + exists p, []. split_and!; auto. eapply Forall_impl; [exact IH|]. intros; simpl in *; lia.
Qed.

Lemma applies_unique p used t t' : applies p used t -> applies p used t' -> t = t'.
Proof.
  intros (b & a & Hp & Ht & Hb & Ha) (b' & a' & Hp' & Ht' & Hb' & Ha'). rewrite Hp in Hp'.
  apply app_eq_inv in Hp' as [(k & Hb1 & Ha1)|(k & Hb1 & Ha1)].
  - destruct k as [|x k]; simpl in Ha1; [by injection Ha1|]. injection Ha1 as -> ->.
    subst b. apply Forall_app in Hb as [_ Hb]. apply Forall_cons in Hb as [Hb _].
    apply Forall_app in Ha' as [_ Ha']. apply Forall_cons in Ha' as [Ha' _]. lia.
  - destruct k as [|x k]; simpl in Ha1; [by injection Ha1|]. injection Ha1 as -> ->.
    subst b'. apply Forall_app in Hb' as [_ Hb']. apply Forall_cons in Hb' as [Hb' _].
    apply Forall_app in Ha as [_ Ha]. apply Forall_cons in Ha as [Ha _]. lia.
Qed.

Lemma Evaluate_applies p used t :
  applies p used t -> Evaluate p used = mkLimits (UpBps t) (DownBps t).
Proof.
  intros Ht. unfold Evaluate. pose proof (evaluate_fold p used) as Hf.
  destruct (foldl _ _ p) as [t'|]; [by rewrite (applies_unique _ _ _ _ Ht Hf)|].
  destruct Ht as (b & a & -> & Hle & _). apply Forall_app in Hf as [_ Hf].
  apply Forall_cons in Hf as [? _]. lia.
Qed.

Lemma Evaluate_none p used :
  Forall (fun x => used < FromBytes x) p -> Evaluate p used = mkLimits 0 0.
Proof.
  intros Hall. unfold Evaluate. pose proof (evaluate_fold p used) as Hf.
  destruct (foldl _ _ p) as [t|]; [|done]. destruct Hf as (b & a & -> & Hle & _).
  apply Forall_app in Hall as [_ Hall]. apply Forall_cons in Hall as [? _]. lia.
Qed.

(** Tiers above the usage do not count. *)
Lemma Evaluate_filter p used q :
  used < q -> Evaluate (filter (fun tier => FromBytes tier < q) p) used = Evaluate p used.
Proof.
  intros Hq. unfold Evaluate. f_equal.
  assert (forall o, foldl (evaluate_step used) o (filter (fun tier => FromBytes tier < q) p) =
                    foldl (evaluate_step used) o p) as ->; [|done].
  induction p as [|x p IH]; intros o; [done|]. rewrite filter_cons. case_decide; simpl; [apply IH|].
  rewrite IH. f_equal. unfold evaluate_step. rewrite (proj2 (Z.ltb_lt _ _)) by lia. done.
Qed.

(** A ladder answers with the highest tier the usage has reached, the last of
    equal ones; with none reached it answers unlimited; and when no two tiers
    start at the same usage the answer does not depend on the order of the list. *)
Theorem ladder_answer (p p' : Plan) (used : Z) :
  ((exists t, applies p used t /\ Evaluate p used = mkLimits (UpBps t) (DownBps t)) \/
   (Forall (fun x => used < FromBytes x) p /\ Evaluate p used = mkLimits 0 0)) /\
  (NoDup (FromBytes <$> p) -> p ≡ₚ p' -> Evaluate p' used = Evaluate p used).
Proof.
  split.
  { pose proof (evaluate_fold p used) as Hf. destruct (foldl _ _ p) as [t|].
    - left. exists t. auto using Evaluate_applies.
    - right. auto using Evaluate_none. }
  intros Hn Hp. pose proof (evaluate_fold p used) as Hf.
  destruct (foldl _ _ p) as [t|]; [|rewrite !Evaluate_none by (done || by rewrite <-Hp); done].
  rewrite (Evaluate_applies p used t Hf). apply Evaluate_applies.
  destruct Hf as (b & a & -> & Ht & Hb & Ha).
  assert (t ∈ p') as Hin by (rewrite <-Hp; set_solver).
  apply list_elem_of_split in Hin as (b' & a' & ->). exists b', a'. split_and!; auto.
  - apply Forall_forall. intros x Hx Hle.
    assert (x ∈ b ++ t :: a) as Hx' by (rewrite Hp; set_solver).
    rewrite Forall_forall in Hb, Ha.
    apply elem_of_app in Hx' as [?|[->|?]%elem_of_cons]; [auto|lia|].
    specialize (Ha x ltac:(done) Hle). lia.
  - apply Forall_forall. intros x Hx Hle.
    assert (x ∈ b ++ t :: a) as Hx' by (rewrite Hp; set_solver).
    assert (FromBytes x <> FromBytes t) as Hne.
    { rewrite Hp, fmap_app, fmap_cons in Hn. apply NoDup_app in Hn as (_ & _ & Hn).
      apply NoDup_cons in Hn as [Hn _]. intros Heq. apply Hn. rewrite <-Heq.
      by apply list_elem_of_fmap_2. }
    rewrite Forall_forall in Hb, Ha.
    apply elem_of_app in Hx' as [Hx'|[->|Hx']%elem_of_cons]; [|done|auto].
    specialize (Hb x Hx' Hle). lia.
Qed.

(** The depletion ladder leaves a client alone below its quota and caps it from
    the quota on: there each direction gets what the plan says at the quota, cut to
    8 Mi bits per second, an unlimited direction included. *)
Theorem depletion_ladder_spec (p : Plan) (quota used : Z) :
  0 < quota ->
  Evaluate (DepletionLadder p quota) used =
    if used <? quota then Evaluate p used
    else mkLimits (capRate (lUpBps (Evaluate p quota))) (capRate (lDownBps (Evaluate p quota))).
Proof.
  intros Hq. unfold DepletionLadder. rewrite (proj2 (Z.leb_gt _ _)) by lia.
  cbv zeta. destruct (used <? quota) eqn:Hu; bools.
  - rewrite <-(Evaluate_filter p used quota Hu). unfold Evaluate at 1. rewrite foldl_app. simpl.
    unfold evaluate_step at 1. simpl. by rewrite (proj2 (Z.ltb_lt _ _)) by lia.
  - rewrite (Evaluate_applies _ used (mkTier quota (capRate (lUpBps (Evaluate p quota)))
      (capRate (lDownBps (Evaluate p quota))))); [done|].
    exists (filter (fun tier => FromBytes tier < quota) p), []. split_and!; auto.
    apply Forall_forall. intros x [Hx _]%list_elem_of_filter _. simpl. lia.
Qed.

(** ** Facts about device caps *)

#[global] Instance arrival_le_trans : Transitive arrival_le.
Proof.
  intros a b c [?|[? ?]] [?|[? ?]]; unfold arrival_le; [left; lia..|right].
  split; [lia|]. by etrans.
Qed.
#[global] Instance arrival_le_total : Total arrival_le.
Proof.
  intros a b. unfold arrival_le.
  destruct (Z.lt_trichotomy (FirstSeenUnixMilli a) (FirstSeenUnixMilli b)) as [?|[?|?]]; auto.
  destruct (total String.le (IP a) (IP b)); auto.
Qed.

Lemma arrival_antisym a b : arrival_le a b -> arrival_le b a -> IP a = IP b.
Proof. intros [?|[? ?]] [?|[? ?]]; try lia. by apply (anti_symm String.le). Qed.

Lemma lefts_in {A B} (l : list (A + B)) a : a ∈ lefts l <-> inl a ∈ l.
Proof.
  unfold lefts. rewrite list_elem_of_omap. split.
  - intros ([x|x] & Hx & [= ->]); done.
  - intros H. by exists (inl a).
Qed.
Lemma rights_in {A B} (l : list (A + B)) b : b ∈ rights l <-> inr b ∈ l.
Proof.
  unfold rights. rewrite list_elem_of_omap. split.
  - intros ([x|x] & Hx & [= ->]); done.
  - intros H. by exists (inr b).
Qed.

Definition keyed (m : gmap string Observation) : Prop := forall k o, m !! k = Some o -> IP o = k.

Lemma keyed_persisted cut m o : keyed m -> keyed (merge_persisted cut m o).
Proof.
  intros Hm k x. unfold merge_persisted. split_guard; [apply Hm|]. rewrite lookup_insert.
  case_decide; [|apply Hm]. congruence.
Qed.

Lemma keyed_observed m o : keyed m -> keyed (merge_observed m o).
Proof.
  intros Hm k x. unfold merge_observed. destruct (m !! IP o) as [prev|] eqn:Hp; rewrite lookup_insert;
    (case_decide; [|apply Hm]); [|congruence]. intros [= <-]. simpl. apply Hm in Hp. congruence.
Qed.

Lemma foldl_keeps {A B} (P : A -> Prop) (f : A -> B -> A) l a :
  (forall a b, b ∈ l -> P a -> P (f a b)) -> P a -> P (foldl f a l).
Proof.
  revert a. induction l as [|b l IH]; simpl; intros a Hf Ha; [done|].
  apply IH; [intros; apply Hf; [by right|done]|]. apply Hf; [left|done].
Qed.

Lemma byIP_keyed persisted observed cut : keyed (byIP persisted observed cut).
Proof.
  unfold byIP. apply foldl_keeps; [intros; by apply keyed_observed|].
  apply foldl_keeps; [intros; by apply keyed_persisted|]. intros k o. by rewrite lookup_empty.
Qed.

Lemma classify_IP now seen held o :
  match classify now seen held o with inl x => IP x | inr x => IP x end = IP o.
Proof. unfold classify. repeat (split_guard; try done). Qed.

(** What [merge] returns, entry by entry of the map. *)
Lemma merge_live persisted observed now cut held x :
  x ∈ (merge persisted observed now cut held).1 <->
  exists o, byIP persisted observed cut !! IP x = Some o /\
    classify now (list_to_set (IP <$> observed)) held o = inl x.
Proof.
  unfold merge, sortByArrival. cbn [fst]. rewrite merge_sort_Permutation, lefts_in.
  rewrite list_elem_of_fmap. split.
  - intros (o & Hc & Ho). apply list_elem_of_fmap in Ho as ([k o'] & -> & Hin).
    apply elem_of_map_to_list in Hin. exists o'. split; [|done]. simpl in Hc.
    pose proof (classify_IP now (list_to_set (IP <$> observed)) held o') as Hip. rewrite <-Hc in Hip.
    by rewrite Hip, (byIP_keyed _ _ _ _ _ Hin).
  - intros (o & Ho & Hc). exists o. split; [done|]. apply list_elem_of_fmap.
    exists (IP x, o). split; [done|]. by apply elem_of_map_to_list.
Qed.

Lemma merge_retain persisted observed now cut held x :
  x ∈ (merge persisted observed now cut held).2 <->
  exists o, byIP persisted observed cut !! IP x = Some o /\
    classify now (list_to_set (IP <$> observed)) held o = inr x.
Proof.
  unfold merge, sortOldestFirst. cbn [snd]. rewrite merge_sort_Permutation, rights_in.
  rewrite list_elem_of_fmap. split.
  - intros (o & Hc & Ho). apply list_elem_of_fmap in Ho as ([k o'] & -> & Hin).
    apply elem_of_map_to_list in Hin. exists o'. split; [|done]. simpl in Hc.
    pose proof (classify_IP now (list_to_set (IP <$> observed)) held o') as Hip. rewrite <-Hc in Hip.
    by rewrite Hip, (byIP_keyed _ _ _ _ _ Hin).
  - intros (o & Ho & Hc). exists o. split; [done|]. apply list_elem_of_fmap.
    exists (IP x, o). split; [done|]. by apply elem_of_map_to_list.
Qed.

(** No address appears twice in a verdict. *)
Lemma classified_nodup (f : Observation -> Observation + Observation) (l : list Observation) :
  (forall o, match f o with inl x => IP x | inr x => IP x end = IP o) -> NoDup (IP <$> l) ->
  NoDup (IP <$> (lefts (f <$> l) ++ rights (f <$> l))).
Proof.
  intros Hf. assert (IP <$> (lefts (f <$> l) ++ rights (f <$> l)) ≡ₚ IP <$> l) as ->; [|done].
  induction l as [|o l IH]; [done|]. specialize (Hf o).
  assert (lefts (f <$> o :: l) ++ rights (f <$> o :: l) ≡ₚ
    match f o with inl x => x | inr x => x end :: (lefts (f <$> l) ++ rights (f <$> l))) as ->.
  { rewrite fmap_cons. unfold lefts, rights. cbn [omap list_omap].
    destruct (f o); cbn; [done|]. by rewrite Permutation_middle. }
  rewrite !fmap_cons, IH. f_equiv. by destruct (f o).
Qed.

Lemma verdict_nodup persisted observed now cut held :
  let m := merge persisted observed now cut held in NoDup (IP <$> (m.1 ++ m.2)).
Proof.
  cbv zeta. unfold merge, sortByArrival, sortOldestFirst. cbn [fst snd].
  rewrite !merge_sort_Permutation. apply classified_nodup; [apply classify_IP|].
  assert (IP <$> (map_to_list (byIP persisted observed cut)).*2 =
          (map_to_list (byIP persisted observed cut)).*1) as ->; [|apply NoDup_fst_map_to_list].
  rewrite <-list_fmap_compose. apply list_fmap_ext. intros i [k o] Hi. simpl.
  apply (byIP_keyed persisted observed cut). apply elem_of_map_to_list.
  by eapply list_elem_of_lookup_2.
Qed.

Lemma overCap_app live limit : (overCap live limit).1 ++ (overCap live limit).2 = live.
Proof. unfold overCap. split_guard; simpl; [by rewrite app_nil_r|apply take_drop]. Qed.

Lemma merge_sorted persisted observed now cut held :
  StronglySorted arrival_le (merge persisted observed now cut held).1.
Proof. unfold merge, sortByArrival. cbn [fst]. apply (StronglySorted_merge_sort _). Qed.

Lemma merge_nodup_live persisted observed now cut held :
  NoDup (IP <$> (merge persisted observed now cut held).1).
Proof.
  pose proof (verdict_nodup persisted observed now cut held) as H. cbv zeta in H.
  rewrite fmap_app in H. by apply NoDup_app in H as [? _].
Qed.

Lemma Decide_unfold persisted observed limit now cut held :
  let v := Decide persisted observed limit now cut held in
  let m := merge persisted observed now cut held in
  Keep v = (overCap m.1 limit).1 /\ Over v = (overCap m.1 limit).2 /\ Retain v = m.2 /\
  Keep v ++ Over v = m.1.
Proof.
  cbv zeta. unfold Decide. destruct (merge _ _ _ _ _) as [live retain] eqn:Hm. simpl.
  pose proof (overCap_app live limit) as Ha.
  destruct (overCap live limit) as [keep over]. done.
Qed.

(** A kept address is among the first [limit] arrivals. *)
Lemma Keep_iff persisted observed limit now cut held x :
  0 < limit ->
  x ∈ Keep (Decide persisted observed limit now cut held) <->
  exists l1 l2, (merge persisted observed now cut held).1 = l1 ++ x :: l2 /\
    Z.of_nat (length l1) < limit.
Proof.
  intros Hl. destruct (Decide_unfold persisted observed limit now cut held) as (-> & _).
  set (live := (merge _ _ _ _ _).1). unfold overCap. split_guard; simpl.
  - split.
    + intros (l1 & l2 & Heq)%list_elem_of_split. exists l1, l2. split; [done|].
      destruct G; [lia|]. rewrite Heq, length_app in *. simpl in *. lia.
    + intros (l1 & l2 & -> & _). set_solver.
  - split.
    + intros (l1 & l2 & Heq)%list_elem_of_split. exists l1, (l2 ++ skipn (Z.to_nat limit) live).
      split.
      * rewrite <-(take_drop (Z.to_nat limit) live) at 1. rewrite Heq. by rewrite <-app_assoc.
      * assert (length (firstn (Z.to_nat limit) live) <= Z.to_nat limit)%nat as Hle
          by (rewrite length_take; lia).
        rewrite Heq, length_app in Hle. simpl in Hle. lia.
    + intros (l1 & l2 & -> & Hlen). rewrite take_app, elem_of_app. right.
      destruct (Z.to_nat limit - length l1)%nat eqn:Hd; [lia|]. simpl. left.
Qed.

(** A verdict sorts a client's addresses by arrival and splits them at the cap:
    kept and over together are the live addresses, once each, in order of arrival;
    no cap means nobody is over; and with a cap the first [limit] are kept. *)
Theorem verdict_split (persisted observed : list Observation) (limit now cut : Z)
    (held : gset string) :
  let v := Decide persisted observed limit now cut held in
  StronglySorted arrival_le (Keep v ++ Over v) /\
  NoDup (IP <$> (Keep v ++ Over v ++ Retain v)) /\
  (forall ip, ip ∈ IP <$> observed -> ip ∈ IP <$> (Keep v ++ Over v)) /\
  (limit <= 0 -> Over v = []) /\
  (0 < limit -> Z.of_nat (length (Keep v)) =
                Z.min limit (Z.of_nat (length (Keep v ++ Over v)))).
Proof.
  cbv zeta. destruct (Decide_unfold persisted observed limit now cut held) as (Hk & Ho & Hr & Happ).
  cbv zeta in *. rewrite Happ. split_and!.
  - apply merge_sorted.
  - rewrite app_assoc, Happ, Hr. apply verdict_nodup.
  - intros ip Hip.
    assert (exists o, byIP persisted observed cut !! ip = Some o) as [o Hm].
    { unfold byIP. clear -Hip. generalize (foldl (merge_persisted cut) ∅ persisted).
      induction observed as [|x l IH] using rev_ind; intros m; [set_solver|].
      rewrite foldl_app. simpl. rewrite fmap_app in Hip.
      destruct (decide (ip = IP x)) as [->|Hne].
      - unfold merge_observed at 1. destruct (foldl merge_observed m l !! IP x);
          rewrite lookup_insert_eq; eauto.
      - assert (ip ∈ IP <$> l) as Hl by set_solver. destruct (IH Hl m) as [o Hmo].
        exists o. unfold merge_observed at 1.
        by destruct (foldl merge_observed m l !! IP x); rewrite lookup_insert_ne. }
    pose proof (byIP_keyed _ _ _ _ _ Hm) as Hio.
    pose proof (classify_IP now (list_to_set (IP <$> observed)) held o) as Hc.
    destruct (classify now (list_to_set (IP <$> observed)) held o) as [x|x] eqn:Hcl.
    + apply list_elem_of_fmap. exists x. split; [congruence|]. apply merge_live. exists o.
      split; [congruence|done].
    + exfalso. unfold classify in Hcl. rewrite bool_decide_eq_true_2 in Hcl; [done|].
      rewrite Hio. by apply elem_of_list_to_set.
  - intros Hl. rewrite Ho. unfold overCap. by rewrite (proj2 (Z.leb_le _ _)) by lia.
  - intros Hl. rewrite Hk. generalize (merge persisted observed now cut held).1 as live.
    intros live. unfold overCap. split_guard; simpl; [destruct G; lia|]. rewrite length_take. lia.
Qed.

(** ** A slot once held is kept *)

(** Where the run starts of the next pass's map can come from: nowhere, after
    [now1], or a run the last verdict [l1] knew as live. *)
Definition start_known (now1 : Z) (l1 : list Observation) (m : gmap string Observation) : Prop :=
  forall ip o, m !! ip = Some o ->
    FirstSeenUnixMilli o = 0 \/ now1 < FirstSeenUnixMilli o \/
    exists x, x ∈ l1 /\ IP x = ip /\ FirstSeenUnixMilli x = FirstSeenUnixMilli o.

Lemma start_known_observed now1 l1 m o :
  Forall (fun x => 0 < FirstSeenUnixMilli x <= now1) l1 ->
  FirstSeenUnixMilli o = 0 \/ now1 < FirstSeenUnixMilli o ->
  start_known now1 l1 m -> start_known now1 l1 (merge_observed m o).
Proof.
  intros Hl1 Ho Hm ip x. rewrite Forall_forall in Hl1. unfold merge_observed.
  destruct (m !! IP o) as [prev|] eqn:Hp; rewrite lookup_insert; case_decide as Hip;
    [intros [= <-]|apply Hm|intros [= <-]; tauto|apply Hm].
  simpl. subst ip. unfold earliest. destruct (FirstSeenUnixMilli prev =? 0) eqn:Hz; bools; [tauto|].
  destruct (Hm _ _ Hp) as [?|[?|(y & Hy & Hyip & Hyf)]]; [done| |].
  - right. left. split_guard; lia.
  - right. right. exists y. split_and!; auto. specialize (Hl1 y Hy).
    destruct Ho as [->|Ho]; [done|]. split_guard; lia.
Qed.

Lemma holder_observed ip f m o :
  0 < f -> (FirstSeenUnixMilli o = 0 \/ f < FirstSeenUnixMilli o) ->
  (exists x, m !! ip = Some x /\ FirstSeenUnixMilli x = f) ->
  exists x, merge_observed m o !! ip = Some x /\ FirstSeenUnixMilli x = f.
Proof.
  intros Hf Ho (x & Hx & Hfx). unfold merge_observed.
  destruct (decide (IP o = ip)) as [<-|Hne].
  - rewrite Hx, lookup_insert_eq. eexists. split; [done|]. simpl. unfold earliest. rewrite Hfx.
    destruct Ho as [->|Ho]; repeat split_guard; lia.
  - exists x. destruct (m !! IP o); by rewrite lookup_insert_ne.
Qed.

Lemma persisted_lookup cut l k :
  NoDup (IP <$> l) -> k ∈ l -> cut <= LastSeenUnixMilli k ->
  foldl (merge_persisted cut) ∅ l !! IP k = Some k.
Proof.
  intros Hn Hk Hc. induction l as [|o l IH] using rev_ind; [set_solver|].
  rewrite foldl_app. simpl. rewrite fmap_app in Hn. apply NoDup_app in Hn as (Hn & Hd & _).
  unfold merge_persisted at 1. apply elem_of_app in Hk as [Hk| ->%list_elem_of_singleton].
  - assert (IP k <> IP o) as Hne.
    { intros Heq. apply (Hd (IP k)); [by apply list_elem_of_fmap_2|]. rewrite Heq. set_solver. }
    split_guard; [|rewrite lookup_insert_ne by done]; auto.
  - rewrite (proj2 (Z.ltb_ge _ _)) by done. apply lookup_insert_eq.
Qed.

Lemma NoDup_incl_le {A} (l k : list A) :
  NoDup l -> (forall x, x ∈ l -> x ∈ k) -> (length l <= length k)%nat.
Proof. intros Hn Hi. apply submseteq_length. by apply NoDup_submseteq. Qed.

Lemma classify_first now seen held o x :
  classify now seen held o = inl x ->
  FirstSeenUnixMilli o <> 0 -> FirstSeenUnixMilli x = FirstSeenUnixMilli o.
Proof. unfold classify. repeat (split_guard; try done); intros [= <-]; done. Qed.

(** The next pass: everything the verdict named is persisted; what is observed is
    new or reported without a start, and an address that had left the live set
    comes back by being seen here. *)
Record next_pass (v : Verdict) (observed : list Observation) (held : gset string)
    (now1 now2 cut2 : Z) : Prop := {
  np_later : now1 < now2;
  np_started : Forall (fun x => 0 < FirstSeenUnixMilli x <= now1) (Keep v ++ Over v);
  np_observed : Forall (fun o => FirstSeenUnixMilli o = 0 \/ now1 < FirstSeenUnixMilli o) observed;
  np_back : Forall (fun r => IP r ∈ held -> IP r ∈ IP <$> observed) (Retain v) }.

Lemma byIP_unobserved persisted observed cut ip o :
  byIP persisted observed cut !! ip = Some o -> ip ∉ IP <$> observed -> o ∈ persisted.
Proof.
  unfold byIP. intros Hm Hn. assert (foldl (merge_persisted cut) ∅ persisted !! ip = Some o) as Hp.
  { revert Hm. generalize (foldl (merge_persisted cut) ∅ persisted) as m.
    induction observed as [|x l IH] using rev_ind; intros m; [done|]. rewrite foldl_app. simpl.
    unfold merge_observed at 1. rewrite fmap_app in Hn.
    destruct (foldl merge_observed m l !! IP x); (rewrite lookup_insert_ne by set_solver);
      apply IH; set_solver. }
  clear Hm Hn. revert Hp. induction persisted as [|x l IH] using rev_ind; [done|].
  rewrite foldl_app. simpl. unfold merge_persisted at 1. split_guard; [intros; set_solver|].
  rewrite lookup_insert. case_decide; [intros [= <-]; set_solver|]. intros; set_solver.
Qed.

Section NextPass.
Context (persisted observed1 observed2 : list Observation).
Context (limit now1 cut1 now2 cut2 : Z) (held1 held2 : gset string).
Let v1 := Decide persisted observed1 limit now1 cut1 held1.
Let p2 := Keep v1 ++ Over v1 ++ Retain v1.
Let live1 := (merge persisted observed1 now1 cut1 held1).1.
Let m2 := byIP p2 observed2 cut2.
Context (Hnext : next_pass v1 observed2 held2 now1 now2 cut2).

Lemma p2_split : p2 = live1 ++ Retain v1.
Proof.
  unfold p2. rewrite app_assoc. f_equal.
  by destruct (Decide_unfold persisted observed1 limit now1 cut1 held1) as (_ & _ & _ & ?).
Qed.

Lemma live1_started : Forall (fun x => 0 < FirstSeenUnixMilli x <= now1) live1.
Proof.
  destruct Hnext. destruct (Decide_unfold persisted observed1 limit now1 cut1 held1) as (_ & _ & _ & H).
  cbv zeta in H. unfold live1. rewrite <-H. done.
Qed.

Lemma retain_unstarted o : o ∈ Retain v1 -> FirstSeenUnixMilli o = 0.
Proof.
  destruct (Decide_unfold persisted observed1 limit now1 cut1 held1) as (_ & _ & Hr & _).
  cbv zeta in Hr. unfold v1. rewrite Hr. intros (w & _ & Hc)%merge_retain. unfold classify in Hc.
  repeat (split_guard_in Hc; try done). by injection Hc as <-.
Qed.

Lemma next_known : start_known now1 live1 m2.
Proof.
  unfold m2, byIP. destruct Hnext. apply foldl_keeps.
  - intros m o Ho. rewrite Forall_forall in np_observed0. specialize (np_observed0 o Ho).
    apply start_known_observed; [apply live1_started|done].
  - apply foldl_keeps; [|intros ip o; by rewrite lookup_empty].
    intros m o Ho Hm ip y. unfold merge_persisted. split_guard; [apply Hm|].
    rewrite lookup_insert. case_decide as Hip; [|apply Hm]. intros [= <-].
    rewrite p2_split in Ho. apply elem_of_app in Ho as [Ho|Ho].
    + right. right. by exists o.
    + left. by apply retain_unstarted.
Qed.

Lemma next_holder k :
  k ∈ live1 -> cut2 <= LastSeenUnixMilli k ->
  exists x, m2 !! IP k = Some x /\ FirstSeenUnixMilli x = FirstSeenUnixMilli k.
Proof.
  intros Hk Hcut. pose proof live1_started as Hst. rewrite Forall_forall in Hst.
  specialize (Hst k Hk). unfold m2, byIP.
  apply (foldl_keeps (fun m => exists x, m !! IP k = Some x /\ FirstSeenUnixMilli x = _)).
  - intros m o Ho. destruct Hnext. rewrite Forall_forall in np_observed0. specialize (np_observed0 o Ho).
    apply holder_observed; lia.
  - exists k. split; [|done]. apply persisted_lookup; [|rewrite p2_split; set_solver|done].
    rewrite p2_split. unfold live1, v1.
    destruct (Decide_unfold persisted observed1 limit now1 cut1 held1) as (_ & _ & Hr & _).
    cbv zeta in Hr. rewrite Hr. apply verdict_nodup.
Qed.

(** Whatever starts before the next pass was already live. *)
Lemma next_live_known y :
  y ∈ (merge p2 observed2 now2 cut2 held2).1 -> FirstSeenUnixMilli y <= now1 ->
  exists z, z ∈ live1 /\ IP z = IP y /\ FirstSeenUnixMilli z = FirstSeenUnixMilli y.
Proof.
  intros (o & Ho & Hco)%merge_live Hy. fold m2 in Ho.
  destruct (Z.eq_dec (FirstSeenUnixMilli o) 0) as [Hz|Hz].
  - exfalso. pose proof (byIP_keyed p2 observed2 cut2 _ _ Ho) as Hio.
    unfold classify in Hco. rewrite Hio, Hz in Hco. simpl in Hco. destruct Hnext.
    case_bool_decide as Hseen; [injection Hco as <-; simpl in *; lia|].
    case_bool_decide as Hh; [|done]. rewrite elem_of_list_to_set in Hseen.
    pose proof (byIP_unobserved p2 observed2 cut2 _ _ Ho Hseen) as Hin.
    rewrite p2_split in Hin. apply elem_of_app in Hin as [Hin|Hin].
    + pose proof live1_started as Hst. rewrite Forall_forall in Hst. specialize (Hst o Hin). lia.
    + rewrite Forall_forall in np_back0. specialize (np_back0 o Hin). rewrite Hio in np_back0. auto.
  - rewrite (classify_first _ _ _ _ _ Hco Hz) in *.
    destruct (next_known _ _ Ho) as [?|[?|(z & ?)]]; [done|lia|eauto].
Qed.

End NextPass.

(** In a sorted list without repeated addresses, whatever comes no later than [k]
    and is not [k] stands before it. *)
Lemma stands_before l1 k l2 z :
  StronglySorted arrival_le (l1 ++ k :: l2) -> z ∈ l1 ++ k :: l2 -> arrival_le z k -> IP z <> IP k ->
  z ∈ l1.
Proof.
  intros Hs Hz Hzk Hne. apply elem_of_app in Hz as [Hz|Hz]; [done|]. exfalso.
  apply elem_of_cons in Hz as [->|Hz]; [done|]. apply StronglySorted_app in Hs as (_ & _ & Hs).
  apply StronglySorted_inv in Hs as [_ Hs]. rewrite Forall_forall in Hs.
  specialize (Hs z Hz). by pose proof (arrival_antisym _ _ Hzk Hs).
Qed.

(** Whoever holds a slot keeps it: as long as a kept device stays live (seen
    again, or held on another node) and its record is not stale, no number of new
    arrivals displaces it; the latest arrival is the one over. *)
Theorem slot_is_kept (persisted observed1 observed2 : list Observation)
    (limit now1 cut1 now2 cut2 : Z) (held1 held2 : gset string) (k : Observation) :
  let v1 := Decide persisted observed1 limit now1 cut1 held1 in
  let v2 := Decide (Keep v1 ++ Over v1 ++ Retain v1) observed2 limit now2 cut2 held2 in
  0 < limit -> next_pass v1 observed2 held2 now1 now2 cut2 ->
  k ∈ Keep v1 -> cut2 <= LastSeenUnixMilli k ->
  IP k ∈ IP <$> observed2 \/ IP k ∈ held2 ->
  IP k ∈ IP <$> Keep v2.
Proof.
  intros v1 v2 Hl Hnext Hk Hcut Hlive.
  apply Keep_iff in Hk as (l1 & l2 & Hl1 & Hlen1); [|done].
  assert (k ∈ (merge persisted observed1 now1 cut1 held1).1) as Hkl by (rewrite Hl1; set_solver).
  pose proof (live1_started _ _ _ _ _ _ _ _ _ _ Hnext) as Hst. rewrite Forall_forall in Hst.
  specialize (Hst k Hkl). pose proof (merge_sorted persisted observed1 now1 cut1 held1) as Hs1.
  destruct (next_holder _ _ _ _ _ _ _ _ _ _ Hnext k Hkl Hcut) as (x & Hx & Hfx). fold v1 in Hx.
  pose proof (next_live_known _ _ _ _ _ _ _ _ _ _ Hnext) as Hknown. fold v1 in Hknown.
  set (p2 := Keep v1 ++ Over v1 ++ Retain v1) in *.
  pose proof (byIP_keyed p2 observed2 cut2 _ _ Hx) as Hipx.
  assert (exists k2, classify now2 (list_to_set (IP <$> observed2)) held2 x = inl k2 /\
    IP k2 = IP k /\ FirstSeenUnixMilli k2 = FirstSeenUnixMilli k) as (k2 & Hc2 & Hip2 & Hf2).
  { unfold classify. rewrite Hipx. rewrite (proj2 (Z.eqb_neq (FirstSeenUnixMilli x) 0)) by lia.
    destruct Hlive as [Hlive|Hlive].
    - rewrite bool_decide_eq_true_2 by (by apply elem_of_list_to_set). eauto.
    - rewrite (bool_decide_eq_true_2 (IP k ∈ held2)) by done. case_bool_decide; eauto. }
  assert (k2 ∈ (merge p2 observed2 now2 cut2 held2).1) as Hk2
    by (apply merge_live; exists x; rewrite Hip2; auto).
  apply list_elem_of_fmap. exists k2. split; [done|]. apply Keep_iff; [done|].
  pose proof (merge_sorted p2 observed2 now2 cut2 held2) as Hs2.
  pose proof (merge_nodup_live p2 observed2 now2 cut2 held2) as Hn2.
  apply list_elem_of_split in Hk2 as (b & a & Hb). rewrite Hb in Hs2, Hn2, Hknown |- *.
  exists b, a. split; [done|]. rewrite fmap_app, fmap_cons in Hn2.
  apply NoDup_app in Hn2 as (Hnb & Hnd & _). apply StronglySorted_app in Hs2 as (Hsb & _ & _).
  assert (length (IP <$> b) <= length (IP <$> l1))%nat as Hle; [|rewrite !length_fmap in Hle; lia].
  apply NoDup_incl_le; [done|]. intros ip (y & -> & Hy)%list_elem_of_fmap.
  assert (arrival_le y k2) as Hyk by (apply (Hsb y k2); [done|set_solver]).
  destruct (Hknown y) as (z & Hz & Hzip & Hzf); [set_solver|destruct Hyk as [?|[? _]]; lia|].
  rewrite <-Hzip. apply list_elem_of_fmap_2. rewrite Hl1 in Hs1, Hz. eapply stands_before; eauto.
  - unfold arrival_le in *. rewrite Hzf, Hzip, <-Hf2, <-Hip2. done.
  - rewrite Hzip. intros Heq. apply (Hnd (IP y)); [by apply list_elem_of_fmap_2|].
    rewrite Heq, <-Hip2. left.
Qed.

Lemma admit_scan_spec held source : forall distinct,
  match admit_scan distinct held source with
  | None => source ∈ held
  | Some d => source ∉ held /\ d = list_to_set held ∪ distinct
  end.
Proof.
  induction held as [|h held IH]; simpl; intros distinct; [split; set_solver|].
  case_bool_decide as Hh; [subst; left|]. specialize (IH ({[h]} ∪ distinct)).
  destruct (admit_scan _ held source) as [d|]; [|by right].
  destruct IH as [? ->]. split; [set_solver|]. set_solver.
Qed.

(** A login is admitted exactly when there is no cap, the device already holds
    a slot, or fewer distinct devices than the cap are live. *)
Theorem admit_rule (held : list string) (source : string) (limit : Z) :
  Admit held source limit = true <->
  limit <= 0 \/ source ∈ held \/ Z.of_nat (size (list_to_set held : gset string)) < limit.
Proof.
  unfold Admit. destruct (limit <=? 0) eqn:Hl; bools; [tauto|].
  pose proof (admit_scan_spec held source ∅) as Hs.
  destruct (admit_scan ∅ held source) as [d|]; [|tauto].
  destruct Hs as [Hn ->]. rewrite union_empty_r_L, Z.ltb_lt. split; [auto|].
  intros [?|[?|?]]; [lia|done|done].
Qed.

(** An address that left the live set long ago and is now held on another node is
    given its old last sighting as the start of its run, and takes the slot of a
    device that has been live all along. *)
Example returning_device_displaces :
  let owner := mkObs "10.0.0.1" 300 100 in
  let former := mkObs "10.0.0.2" 90 0 in
  let v := Decide [owner; former] [mkObs "10.0.0.1" 400 0] 1 400 0 {[ "10.0.0.2" ]} in
  (IP <$> Keep v, IP <$> Over v) = (["10.0.0.2"], ["10.0.0.1"]).
Proof. vm_compute. reflexivity. Qed.

(** ** Witnesses *)

Lemma depletion_ladder_spec_witness :
  Evaluate (DepletionLadder [mkTier 0 0 0; mkTier 500 1000 2000] 1000) 1000 = mkLimits 1000 2000.
Proof. rewrite (depletion_ladder_spec _ 1000 1000 ltac:(lia)). reflexivity. Defined.

Lemma ladder_answer_witness :
  Evaluate [mkTier 500 1 1; mkTier 0 2 2] 700 = Evaluate [mkTier 0 2 2; mkTier 500 1 1] 700.
Proof.
  apply (proj2 (ladder_answer [mkTier 0 2 2; mkTier 500 1 1] [mkTier 500 1 1; mkTier 0 2 2] 700)).
  - apply NoDup_cons. split; [set_solver|]. apply NoDup_singleton.
  - apply Permutation_swap.
Defined.

Lemma verdict_split_witness :
  Over (Decide [] [mkObs "a" 1 0; mkObs "b" 1 0] 0 5 0 ∅) = [].
Proof. apply (verdict_split [] [mkObs "a" 1 0; mkObs "b" 1 0] 0 5 0 ∅). lia. Defined.

Lemma slot_is_kept_witness :
  let v1 := Decide [] [mkObs "owner" 10 0] 1 10 0 ∅ in
  let v2 := Decide (Keep v1 ++ Over v1 ++ Retain v1) [mkObs "aaa" 20 0; mkObs "owner" 20 0] 1 20 0 ∅ in
  "owner" ∈ IP <$> Keep v2.
Proof.
  apply (slot_is_kept [] [mkObs "owner" 10 0] [mkObs "aaa" 20 0; mkObs "owner" 20 0] 1 10 0 20 0 ∅ ∅
           (mkObs "owner" 10 10)).
  - lia.
  - split; [lia|..]; vm_compute; repeat constructor; try done.
  - vm_compute. left.
  - simpl. lia.
  - left. vm_compute. right. left.
Defined.
