(* ===== verification/Counters.v ===== *)
(** * Cumulative counters: internal/core/counter.go and counter_checkpoint.go

    A [Counter] turns successive cumulative readings of a source into per-key
    deltas.  The loops over Go maps treat each key on its own, so they are maps of
    the results here. *)
From S2P Require Import Prelude.

Definition baselineGrace : Z := 10.

Record Counter := mkCounter {
  last : gmap string Z;
  absent : gmap string Z;
  epoch : string;
  primed : bool }.

Definition NewCounter : Counter := mkCounter ∅ ∅ "" false.

Definition restarted (c : Counter) (ep : string) : bool :=
  primed c && negb (bool_decide (ep = ""%string)) && negb (bool_decide (epoch c = ""%string)) &&
  negb (bool_decide (ep = epoch c)).

(** The delta of one key: nothing for a broken reading, the whole reading for a
    new subject or one that went backwards, the difference otherwise. *)
Definition delta (base : option Z) (value : Z) : option Z :=
  if value <? 0 then None
  else
    let baseline := match base with
                    | Some b => if value <? b then 0 else b
                    | None => 0
                    end in
    if 0 <? value - baseline then Some (value - baseline) else None.

(** [expire]: one reading further, for every baseline held. *)
Definition missing (readings ab : gmap string Z) (k : string) (_ : Z) : option Z :=
  match readings !! k with
  | Some _ => None
  | None => Some (default 0 (ab !! k) + 1)
  end.

Definition expire (readings : gmap string Z) (c : Counter) : Counter :=
  if bool_decide (readings = ∅) then c
  else
    let counted := map_imap (missing readings (absent c)) (last c) in
    let gone := filter (fun kv => baselineGrace <= kv.2) counted in
    mkCounter
      (last c ∖ gone)
      (filter (fun kv => kv.2 < baselineGrace) counted ∪
       filter (fun kv => last c !! kv.1 = None) (absent c))
      (epoch c) (primed c).

Definition observe (ep : string) (readings : gmap string Z) (c : Counter)
    : Counter * gmap string Z :=
  let r := restarted c ep in
  let last0 := if r then ∅ else last c in
  let absent0 := if r then ∅ else absent c in
  let ep' := if bool_decide (ep = ""%string) then epoch c else ep in
  let last1 := filter (fun kv => 0 <= kv.2) readings ∪ last0 in
  if negb (primed c) then (mkCounter last1 absent0 ep' true, ∅)
  else (expire readings (mkCounter last1 absent0 ep' true),
        map_imap (fun k v => delta (last0 !! k) v) readings).

Definition Counter_Observe := observe.

Definition Tracked (c : Counter) : nat := size (last c).

Definition NoteSourceRestart (c : Counter) : Counter := mkCounter ∅ ∅ (epoch c) (primed c).

Definition Forget (key : string) (c : Counter) : Counter :=
  mkCounter (delete key (last c)) (delete key (absent c)) (epoch c) (primed c).

(** ** Checkpoints *)

Record CounterCheckpoint := mkCheckpoint {
  Epoch : string; Primed : bool; Last : gmap string Z; Absent : gmap string Z }.

Definition ErrCounterCheckpoint : error := ErrorText "invalid cumulative counter checkpoint".

Definition checkpoint (c : Counter) : CounterCheckpoint :=
  mkCheckpoint (epoch c) (primed c) (last c) (absent c).

Definition valid_checkpoint (p : CounterCheckpoint) : Prop :=
  (String.length (Epoch p) <= 1024)%nat /\
  (Primed p = true \/ (Last p = ∅ /\ Absent p = ∅)) /\
  map_Forall (fun k v => k <> ""%string /\ (String.length k <= 1024)%nat /\ 0 <= v) (Last p) /\
  map_Forall (fun k n => is_Some (Last p !! k) /\ 1 <= n < baselineGrace) (Absent p).

#[global] Instance valid_checkpoint_dec p : Decision (valid_checkpoint p).
Proof. unfold valid_checkpoint. apply _. Defined.

Definition CounterFromCheckpoint (p : CounterCheckpoint) : result Counter :=
  if bool_decide (valid_checkpoint p) then Ok (mkCounter (Last p) (Absent p) (Epoch p) (Primed p))
  else Fail ErrCounterCheckpoint.

(** [commit]: the caller's transaction, given the checkpoints before and after. *)
Definition ObserveDurably (ep : string) (readings : gmap string Z)
    (commit : CounterCheckpoint -> CounterCheckpoint -> gmap string Z -> result unit) (c : Counter)
    : Counter * result (gmap string Z) :=
  match CounterFromCheckpoint (checkpoint c) with
  | Fail e => (c, Fail e)
  | Ok next =>
      let '(next, deltas) := observe ep readings next in
      match commit (checkpoint c) (checkpoint next) deltas with
      | Fail e => (c, Fail e)
      | Ok _ => (next, Ok deltas)
      end
  end.

(** ** Facts *)

Definition counter_ok (c : Counter) : Prop := valid_checkpoint (checkpoint c).

(** What a source reports: non-empty names of at most 1024 bytes. *)
Definition named (readings : gmap string Z) : Prop :=
  map_Forall (fun k _ => k <> ""%string /\ (String.length k <= 1024)%nat) readings.

Lemma checkpoint_restore c : counter_ok c -> CounterFromCheckpoint (checkpoint c) = Ok c.
Proof. intros Hc. unfold CounterFromCheckpoint. rewrite bool_decide_eq_true_2 by done. by destruct c. Qed.

Lemma expire_last readings c k :
  last (expire readings c) !! k =
    match last c !! k with
    | Some v =>
        if bool_decide (readings <> ∅ /\ readings !! k = None /\
             baselineGrace <= default 0 (absent c !! k) + 1)
        then None else Some v
    | None => None
    end.
Proof.
  unfold expire. case_bool_decide as He.
  - destruct (last c !! k); [|done]. rewrite bool_decide_eq_false_2 by tauto. done.
  - simpl. rewrite lookup_difference, map_lookup_filter, map_lookup_imap. unfold missing.
    destruct (last c !! k) as [v|] eqn:Hl; simpl; [|done].
    destruct (readings !! k) as [r|] eqn:Hr; simpl.
    + rewrite bool_decide_eq_false_2 by (intros (_&?&_); congruence). done.
    + case_guard as Hg; simpl; [rewrite bool_decide_eq_true_2 by done; done|].
      rewrite bool_decide_eq_false_2 by tauto. done.
Qed.

Lemma expire_absent readings c k n :
  absent (expire readings c) !! k = Some n ->
  (absent c !! k = Some n /\ (readings = ∅ \/ last c !! k = None)) \/
  (is_Some (last c !! k) /\ readings !! k = None /\ n = default 0 (absent c !! k) + 1 /\
   n < baselineGrace).
Proof.
  unfold expire. case_bool_decide; [auto|]. simpl. intros [Hk|[_ Hk]]%lookup_union_Some_raw.
  - apply map_lookup_filter_Some in Hk as [Hk Hn]. rewrite map_lookup_imap in Hk. unfold missing in Hk.
    destruct (last c !! k) eqn:Hl; [|done]. simpl in Hk. destruct (readings !! k); [done|].
    injection Hk as <-. right. eauto.
  - apply map_lookup_filter_Some in Hk as [Hk Hn]. auto.
Qed.

Lemma lookup_fresh readings (m : gmap string Z) k :
  (filter (fun kv => 0 <= kv.2) readings ∪ m) !! k =
    match readings !! k with
    | Some v => if bool_decide (0 <= v) then Some v else m !! k
    | None => m !! k
    end.
Proof.
  rewrite lookup_union, map_lookup_filter. destruct (readings !! k) as [v|]; simpl.
  - case_guard; simpl; [rewrite bool_decide_eq_true_2 by done|rewrite bool_decide_eq_false_2 by done];
      by destruct (m !! k).
  - by destruct (m !! k).
Qed.

(** One reading, key by key. *)
Lemma observe_delta ep readings c k :
  (observe ep readings c).2 !! k =
    if primed c then
      match readings !! k with
      | Some v => delta (if restarted c ep then None else last c !! k) v
      | None => None
      end
    else None.
Proof.
  unfold observe. destruct (primed c); simpl; [|by rewrite lookup_empty].
  rewrite map_lookup_imap. destruct (readings !! k); simpl; [|done].
  destruct (restarted c ep); [by rewrite lookup_empty|done].
Qed.

Lemma observe_seen ep readings c k v :
  readings !! k = Some v -> 0 <= v -> last (observe ep readings c).1 !! k = Some v.
Proof.
  intros Hr Hv. unfold observe. destruct (primed c); simpl; [rewrite expire_last|];
    cbn [last]; rewrite lookup_fresh, Hr, bool_decide_eq_true_2 by done; [|done].
  rewrite bool_decide_eq_false_2; [done|]. intros (_&?&_). congruence.
Qed.

Lemma observe_primed ep readings c : primed (observe ep readings c).1 = true.
Proof. unfold observe. destruct (primed c); simpl; [|done]. unfold expire. by case_bool_decide. Qed.

Module Billing.
(** ** A source and what is billed for it

    The source as it is, whatever the counter believes: the cumulative value it shows for
    one key, all the traffic that key ever moved, its epoch, and for how many readings in
    a row it has been missing. *)
Record source := mkSource { value : Z; moved : Z; src_epoch : string; misses : Z }.

(** What happens: traffic; a restart, which may change the epoch, whether or not the
    counter is told; the key is removed and made again, its baseline forgotten; a reading
    with or without the key, next to those of other keys; the daemon reloading its
    checkpoint. *)
Inductive event :=
| Moves (n : Z) | Restarts (ep : string) | RestartNoted (ep : string) | Recreated
| Reads (others : gmap string Z) | Misses (others : gmap string Z) | Reloads.

(** The source, the counter, and all that was billed so far. *)
Definition world : Type := source * Counter * Z.
Definition reload (c : Counter) : Counter := match CounterFromCheckpoint (checkpoint c) with Ok c' => c' | Fail _ => c end.
Definition step (k : string) (w : world) (e : event) : world :=
  let '(s, c, billed) := w in
  match e with
  | Moves n => (mkSource (value s + n) (moved s + n) (src_epoch s) (misses s), c, billed)
  | Restarts ep => (mkSource 0 (moved s) ep (misses s), c, billed)
  | RestartNoted ep => (mkSource 0 (moved s) ep (misses s), NoteSourceRestart c, billed)
  | Recreated => (mkSource 0 (moved s) (src_epoch s) (misses s), Forget k c, billed)
  | Reads others =>
      let '(c', deltas) := observe (src_epoch s) (<[k := value s]> others) c in
      (mkSource (value s) (moved s) (src_epoch s) 0, c', billed + default 0 (deltas !! k))
  | Misses others =>
      let '(c', deltas) := observe (src_epoch s) (delete k others) c in
      (mkSource (value s) (moved s) (src_epoch s) (misses s + 1), c', billed + default 0 (deltas !! k))
  | Reloads => (s, reload c, billed)
  end.
(** Traffic is not negative, and the key is missing from fewer readings in a row than the grace. *)
Definition possible (s : source) (e : event) : Prop :=
  match e with Moves n => 0 <= n | Misses _ => misses s + 1 < baselineGrace | _ => True end.
Fixpoint history (k : string) (w : world) (l : list event) : Prop :=
  match l with [] => True | e :: rest => possible w.1.1 e /\ history k (step k w e) rest end.
Definition ends (k : string) (w : world) (l : list event) : world := foldl (step k) w l.
(** The counter and the source agree: the key was just read, or is new to both. *)
Definition in_step (k : string) (s : source) (c : Counter) : Prop :=
  primed c = true /\ 0 <= value s /\ default 0 (last c !! k) = value s /\ absent c !! k = None /\ misses s = 0 /\ restarted c (src_epoch s) = false.
Definition uninterrupted (e : event) : bool := match e with Restarts _ | RestartNoted _ | Recreated => false | _ => true end.

(** What a reading would bill now. *)
Definition due (base v : Z) : Z := if v <? base then v else v - base.
Record covered (k : string) (w : world) (start : Z) : Prop := {
  cov_primed : primed w.1.2 = true;
  cov_value : 0 <= value w.1.1;
  cov_base : 0 <= default 0 (last w.1.2 !! k);
  cov_absent : 0 <= misses w.1.1 /\ default 0 (absent w.1.2 !! k) <= misses w.1.1;
  cov_due : w.2 + due (default 0 (last w.1.2 !! k)) (value w.1.1) <= moved w.1.1 - start;
  cov_epoch : restarted w.1.2 (src_epoch w.1.1) = true -> w.2 + value w.1.1 <= moved w.1.1 - start }.
(** Nothing was lost: the difference to the baseline is all that is not yet billed. *)
Record exact (k : string) (w : world) (start : Z) : Prop := {
  ex_base : default 0 (last w.1.2 !! k) <= value w.1.1;
  ex_due : w.2 + value w.1.1 - default 0 (last w.1.2 !! k) = moved w.1.1 - start;
  ex_epoch : restarted w.1.2 (src_epoch w.1.1) = false }.

Lemma delta_due base v : 0 <= v -> 0 <= default 0 base -> default 0 (delta base v) = due (default 0 base) v.
Proof.
  intros Hv Hb. unfold delta, due. rewrite (proj2 (Z.ltb_ge v 0)) by lia. cbv zeta. destruct base as [b|]; cbn in *; [destruct (Z.ltb_spec v b)|rewrite (proj2 (Z.ltb_ge v 0)) by lia].
  all: split_guard; cbn; lia.
Qed.
Lemma observe_epoch ep readings c : restarted (observe ep readings c).1 ep = false.
Proof.
  assert (epoch (observe ep readings c).1 = if bool_decide (ep = ""%string) then epoch c else ep) as E.
  { unfold observe. destruct (primed c); simpl; [|done]. unfold expire. by destruct (bool_decide (readings = ∅)). }
  unfold restarted. rewrite E. destruct (bool_decide (ep = ""%string)); [by rewrite !andb_false_r|]. rewrite (bool_decide_eq_true_2 (ep = ep)) by done. by rewrite !andb_false_r.
Qed.
Lemma observe_absent ep readings c k v : primed c = true -> readings !! k = Some v -> 0 <= v -> absent (observe ep readings c).1 !! k = None.
Proof.
  intros Hp Hr Hv. unfold observe. rewrite Hp. cbn [negb fst]. set (c1 := mkCounter _ _ _ _). destruct (absent (expire readings c1) !! k) as [n|] eqn:E; [|done].
  apply expire_absent in E as [[_ [->|Hl]]|(_ & Hn & _)]; [by rewrite lookup_empty in Hr| |congruence]. cbn [last c1] in Hl. by rewrite lookup_fresh, Hr, bool_decide_eq_true_2 in Hl.
Qed.
Lemma observe_missing ep readings c k : primed c = true -> readings !! k = None -> default 0 (absent c !! k) + 1 < baselineGrace ->
  last (observe ep readings c).1 !! k = (if restarted c ep then None else last c !! k) /\ default 0 (absent (observe ep readings c).1 !! k) <= Z.max 0 (default 0 (absent c !! k)) + 1.
Proof.
  intros Hp Hr Hab. unfold observe. rewrite Hp. cbn [negb fst]. set (c1 := mkCounter _ _ _ _).
  assert (default 0 (absent c1 !! k) <= Z.max 0 (default 0 (absent c !! k))) as Ha. { cbn [absent c1]. destruct (restarted c ep); [rewrite lookup_empty; cbn; lia|lia]. }
  split.
  - rewrite expire_last. cbn [last c1]. rewrite lookup_fresh, Hr. destruct (restarted c ep); [by rewrite lookup_empty|]. destruct (last c !! k); [|done]. rewrite bool_decide_eq_false_2; [done|].
    intros (_ & _ & H). cbn in H. cbn in Ha. lia.
  - destruct (absent (expire readings c1) !! k) as [n|] eqn:E; [|cbn; lia]. apply expire_absent in E as [[E _]|(_ & _ & -> & _)]; [rewrite E in Ha|]; cbn in *; lia.
Qed.
Lemma reload_same c : reload c = c.
Proof. unfold reload, CounterFromCheckpoint. destruct c. by case_bool_decide. Qed.
Lemma forget_restarted k c ep : restarted (Forget k c) ep = restarted c ep /\ restarted (NoteSourceRestart c) ep = restarted c ep.
Proof. done. Qed.

Lemma step_covered k w e start : covered k w start -> possible w.1.1 e -> covered k (step k w e) start.
Proof.
  destruct w as [[s c] billed]. intros [Hp Hv Hb [Hm Ha] Hd He] Hpos. cbn [fst snd] in *. assert (0 <= due (default 0 (last c !! k)) (value s)) as Hdue by (unfold due; split_guard; lia).
  destruct e; cbn [step possible] in *.
  - split; cbn; [done|lia|done|done| |intros Hr; specialize (He Hr); lia]. revert Hd. unfold due. destruct (Z.ltb_spec (value s) (default 0 (last c !! k))), (Z.ltb_spec (value s + n) (default 0 (last c !! k))); lia.
  - split; cbn; [done|lia|done|done| |intros; lia]. unfold due. split_guard; lia.
  - split; cbn; [done|lia|by rewrite lookup_empty| | |intros; lia]; rewrite lookup_empty; cbn; lia.
  - split; cbn; [done|lia|by rewrite lookup_delete_eq|rewrite lookup_delete_eq; cbn; lia|rewrite lookup_delete_eq; cbn; lia|intros; lia].
  - pose proof (observe_delta (src_epoch s) (<[k:=value s]> others) c k) as Hdl. pose proof (observe_seen (src_epoch s) (<[k:=value s]> others) c k (value s) ltac:(apply lookup_insert_eq) Hv) as Hl.
    pose proof (observe_absent (src_epoch s) (<[k:=value s]> others) c k (value s) Hp ltac:(apply lookup_insert_eq) Hv) as Hab. pose proof (observe_epoch (src_epoch s) (<[k:=value s]> others) c) as Hep. pose proof (observe_primed (src_epoch s) (<[k:=value s]> others) c) as Hpr.
    destruct (observe _ _ c) as [c' ds]. cbn [fst snd] in *. rewrite Hp, lookup_insert_eq in Hdl. split; cbn [fst snd value moved misses src_epoch]; [done|done|by rewrite Hl|by rewrite Hab| |by rewrite Hep].
    rewrite Hl, Hdl. change (default 0 (Some (value s))) with (value s). assert (due (value s) (value s) = 0) as -> by (unfold due; split_guard; lia). destruct (restarted c (src_epoch s)).
    + rewrite delta_due by (cbn; lia). specialize (He eq_refl). unfold due in *. cbn. split_guard; lia.
    + rewrite delta_due by done. lia.
  - pose proof (observe_delta (src_epoch s) (delete k others) c k) as Hdl. destruct (observe_missing (src_epoch s) (delete k others) c k Hp ltac:(apply lookup_delete_eq) ltac:(lia)) as [Hl Hab].
    pose proof (observe_epoch (src_epoch s) (delete k others) c) as Hep. pose proof (observe_primed (src_epoch s) (delete k others) c) as Hpr. destruct (observe _ _ c) as [c' ds]. cbn [fst snd] in *. rewrite Hp, lookup_delete_eq in Hdl.
    rewrite Hdl. split; cbn [fst snd value moved misses src_epoch default]; [done|done| | | |by rewrite Hep]; rewrite ?Hl, ?Z.add_0_r.
    + by destruct (restarted c (src_epoch s)).
    + lia.
    + destruct (restarted c (src_epoch s)); [|done]. specialize (He eq_refl). cbn. unfold due. split_guard; lia.
  - rewrite reload_same. by split.
Qed.
Lemma step_exact k w e start : covered k w start -> exact k w start -> possible w.1.1 e -> uninterrupted e = true -> exact k (step k w e) start.
Proof.
  destruct w as [[s c] billed]. intros [Hp Hv Hb [Hm Ha] _ _] [Eb Ed Ee] Hpos Hu. cbn [fst snd] in *. destruct e; try done; cbn [step possible] in *.
  - split; cbn; [lia|lia|done].
  - pose proof (observe_delta (src_epoch s) (<[k:=value s]> others) c k) as Hdl. pose proof (observe_seen (src_epoch s) (<[k:=value s]> others) c k (value s) ltac:(apply lookup_insert_eq) Hv) as Hl.
    pose proof (observe_epoch (src_epoch s) (<[k:=value s]> others) c) as Hep. destruct (observe _ _ c) as [c' ds]. cbn [fst snd] in *. rewrite Hp, lookup_insert_eq, Ee in Hdl.
    split; cbn [fst snd value moved src_epoch]; rewrite ?Hl; [cbn; lia| |done]. change (default 0 (Some (value s))) with (value s). rewrite Hdl, delta_due by done. unfold due. rewrite (proj2 (Z.ltb_ge _ _)) by lia. lia.
  - pose proof (observe_delta (src_epoch s) (delete k others) c k) as Hdl. destruct (observe_missing (src_epoch s) (delete k others) c k Hp ltac:(apply lookup_delete_eq) ltac:(lia)) as [Hl _].
    pose proof (observe_epoch (src_epoch s) (delete k others) c) as Hep. destruct (observe _ _ c) as [c' ds]. cbn [fst snd] in *. rewrite Hp, lookup_delete_eq in Hdl. rewrite Ee in Hl.
    split; cbn [fst snd value moved src_epoch]; rewrite ?Hl, ?Hdl; [done|cbn; lia|done].
  - rewrite reload_same. by split.
Qed.
Lemma ends_covered k l start : forall w, covered k w start -> history k w l -> covered k (ends k w l) start.
Proof. induction l as [|e l IH]; intros w Hc; [done|]. intros [Hp Hl]. apply IH; [by apply step_covered|done]. Qed.
Lemma ends_exact k l start : forall w, covered k w start -> exact k w start -> history k w l -> forallb uninterrupted l = true -> exact k (ends k w l) start.
Proof. induction l as [|e l IH]; intros w Hc He; [done|]. intros [Hp Hl] [Hu Hul]%andb_true_iff. apply IH; [by apply step_covered|by apply step_exact|done|done]. Qed.
Lemma in_step_covered k s c : in_step k s c -> covered k (s, c, 0) (moved s) /\ exact k (s, c, 0) (moved s).
Proof.
  intros (Hp & Hv & Hb & Ha & Hm & He). split; split; cbn; rewrite ?Hb, ?Ha; cbn; try done; try lia. { unfold due. rewrite (proj2 (Z.ltb_ge _ _)) by lia. lia. }
  intros E. congruence.
Qed.
End Billing.
Import Billing.

(** C38: the panel never bills more than a source moved, over any history of it: traffic,
    restarts that change the epoch or not and that the counter is told of or not, the key
    removed and made again, the daemon reloading its checkpoint, and readings that miss
    the key, fewer in a row than the grace.  And when nothing interrupts the source, the
    next reading has billed exactly what it moved. *)
Theorem never_overbills (k : string) (s : source) (c : Counter) (l : list event) :
  in_step k s c -> history k (s, c, 0) l ->
  let w := ends k (s, c, 0) l in
  w.2 <= moved w.1.1 - moved s /\
  (forallb uninterrupted l = true -> forall others, (step k w (Reads others)).2 = moved w.1.1 - moved s).
Proof.
  intros Hin Hh. destruct (in_step_covered k s c Hin) as [Hc He]. pose proof (ends_covered k l (moved s) _ Hc Hh) as Hc'. pose proof (ends_exact k l (moved s) _ Hc He Hh) as He'.
  destruct (ends k (s, c, 0) l) as [[s' c'] billed]. split.
  - destruct Hc' as [_ Hv Hb _ Hd _]. cbn in *. revert Hd. unfold due. split_guard; lia.
  - intros Hu others. pose proof (step_exact k (s', c', billed) (Reads others) (moved s) Hc' (He' Hu) I eq_refl) as [_ E _]. cbn [step] in *.
    pose proof (observe_seen (src_epoch s') (<[k:=value s']> others) c' k (value s') ltac:(apply lookup_insert_eq) (cov_value _ _ _ Hc')) as Hl.
    destruct (observe _ _ c') as [c2 ds]. cbn [fst snd value moved] in *. rewrite Hl in E. cbn in E. cbn. lia.
Qed.

(** One reading bills exactly what moved: nothing before the first reading, the
    difference for a counter that advanced, the whole reading for a new subject, a
    restarted source or a counter that went backwards, nothing for a broken or
    missing reading; and the reading becomes the next baseline. *)
Theorem bills_the_difference (ep : string) (readings : gmap string Z) (c : Counter) (k : string) :
  let '(c', deltas) := observe ep readings c in
  (primed c = false -> deltas = ∅) /\
  (forall v, readings !! k = Some v -> 0 <= v -> last c' !! k = Some v) /\
  (primed c = true -> forall v, readings !! k = Some v -> 0 <= v ->
     default 0 (deltas !! k) =
       match last c !! k with
       | Some b => if restarted c ep || (v <? b) then v else v - b
       | None => v
       end) /\
  (forall v, deltas !! k = Some v -> 0 < v) /\
  (readings !! k = None -> deltas !! k = None).
Proof.
  destruct (observe ep readings c) as [c' ds] eqn:Ho.
  assert (c' = (observe ep readings c).1 /\ ds = (observe ep readings c).2) as [-> ->] by by rewrite Ho.
  clear Ho. split_and!.
  - unfold observe. intros ->. done.
  - intros v Hr Hv. by apply observe_seen.
  - intros Hp v Hr Hv. rewrite observe_delta, Hp, Hr. unfold delta.
    rewrite (proj2 (Z.ltb_ge v 0)) by lia. cbv zeta.
    destruct (restarted c ep); [destruct (last c !! k); split_guard; simpl; lia|].
    destruct (last c !! k) as [b|]; simpl; [|split_guard; simpl; lia].
    destruct (v <? b) eqn:?; bools; split_guard; simpl; lia.
  - intros v. rewrite observe_delta. destruct (primed c); [|done].
    destruct (readings !! k); [|done]. unfold delta. split_guard; [done|]. cbv zeta.
    split_guard; [|done]. intros [= <-]. lia.
  - intros Hr. rewrite observe_delta, Hr. by destruct (primed c).
Qed.

Lemma observe_counter_ok ep readings c :
  counter_ok c -> named readings -> (String.length ep <= 1024)%nat ->
  counter_ok (observe ep readings c).1.
Proof.
  intros (He & Hp & Hl & Ha) Hn Hep. simpl in *. unfold observe.
  set (last0 := if restarted c ep then ∅ else last c).
  set (absent0 := if restarted c ep then ∅ else absent c).
  set (ep' := if bool_decide (ep = ""%string) then epoch c else ep).
  assert (String.length ep' <= 1024)%nat by (unfold ep'; by case_bool_decide).
  assert (map_Forall (fun k v => k <> ""%string /\ (String.length k <= 1024)%nat /\ 0 <= v)
    (filter (fun kv => 0 <= kv.2) readings ∪ last0)) as Hl1.
  { intros k v Hk. rewrite lookup_fresh in Hk.
    assert (last0 !! k = Some v -> k <> ""%string /\ (String.length k <= 1024)%nat /\ 0 <= v) as H0.
    { unfold last0. destruct (restarted c ep); [by rewrite lookup_empty|apply Hl]. }
    destruct (readings !! k) as [r|] eqn:Hr; [|auto]. case_bool_decide; [|auto]. simplify_eq.
    destruct (Hn k v Hr). auto. }
  assert (map_Forall (fun k n => is_Some (last0 !! k) /\ 1 <= n < baselineGrace) absent0) as Ha0.
  { unfold last0, absent0. destruct (restarted c ep); [done|exact Ha]. }
  destruct (primed c) eqn:Hpr; simpl.
  - set (c1 := mkCounter _ absent0 ep' true).
    assert (epoch (expire readings c1) = ep' /\ primed (expire readings c1) = true) as [E1 E2]
      by (unfold expire; by case_bool_decide).
    split_and!; simpl; rewrite ?E1, ?E2; auto.
    + intros k v Hk. rewrite expire_last in Hk. destruct (last c1 !! k) as [w|] eqn:Hw; [|done].
      split_guard_in Hk; [done|]. injection Hk as <-. exact (Hl1 k w Hw).
    + intros k n Hk. apply expire_absent in Hk as [[Hk Hwhy]|(Hk & Hr & -> & Hlt)].
      * destruct (Ha0 k n Hk) as [[w Hw] ?]. split; [|done].
        assert (is_Some (last c1 !! k)) as Hz.
        { cbn [last c1]. rewrite lookup_fresh. destruct (readings !! k); [case_bool_decide|]; eauto. }
        destruct Hwhy as [->|Hwhy]; [|rewrite Hwhy in Hz; by destruct Hz].
        unfold expire. by rewrite bool_decide_eq_true_2.
      * split.
        -- rewrite expire_last. destruct Hk as [z Hz]. rewrite Hz.
           rewrite bool_decide_eq_false_2; [eauto|]. intros (_&_&?). lia.
        -- assert (0 <= default 0 (absent c1 !! k)); [|lia]. cbn [absent c1].
           destruct (absent0 !! k) as [m|] eqn:Hm; [|done]. destruct (Ha0 k m Hm). simpl. lia.
  - split_and!; simpl; auto. destruct Hp as [?|[_ Hp]]; [done|].
    assert (absent0 = ∅) as -> by (unfold absent0; rewrite Hp; by destruct (restarted c ep)).
    apply map_Forall_empty.
Qed.

(** A durable observation is all or nothing: when the commit fails the counter
    is what it was and bills nothing; when it goes through, the counter moved exactly
    as an ordinary observation moves it, and the checkpoint that was committed
    restores to exactly that counter after a crash. *)
Theorem durable_observation (ep : string) (readings : gmap string Z)
    (commit : CounterCheckpoint -> CounterCheckpoint -> gmap string Z -> result unit)
    (c c' : Counter) (res : result (gmap string Z)) :
  counter_ok c -> named readings -> (String.length ep <= 1024)%nat ->
  ObserveDurably ep readings commit c = (c', res) ->
  counter_ok c' /\ CounterFromCheckpoint (checkpoint c') = Ok c' /\
  match res with
  | Fail _ => c' = c
  | Ok deltas => (c', deltas) = observe ep readings c /\
      is_ok (commit (checkpoint c) (checkpoint c') deltas) = true
  end.
Proof.
  intros Hc Hn Hep. unfold ObserveDurably. rewrite checkpoint_restore by done.
  pose proof (observe_counter_ok ep readings c Hc Hn Hep) as Hc'.
  destruct (observe ep readings c) as [next ds] eqn:Ho. simpl in Hc'.
  destruct (commit (checkpoint c) (checkpoint next) ds) eqn:Hcm; intros [= <- <-];
    split_and!; auto using checkpoint_restore. by rewrite Hcm.
Qed.

(** ** Witnesses *)

Definition sample_counter : Counter := (observe "boot" {[ "alice" := 100 ]} NewCounter).1.

(** A source that moves 50, is missing once, moves 30, restarts unnoticed and moves 7. *)
Definition sample_source : source := mkSource 100 1000 "boot" 0.
Definition sample_history : list event :=
  [Moves 50; Reads ∅; Misses {[ "bob" := 3 ]}; Moves 30; Reloads; Reads {[ "bob" := 9 ]}; Moves 4; Restarts "again"; Moves 7; Reads ∅].
Lemma never_overbills_witness : (ends "alice" (sample_source, sample_counter, 0) sample_history).2 = 87 /\ 87 <= 1091 - 1000 /\
  (step "alice" (ends "alice" (sample_source, sample_counter, 0) (take 4 sample_history)) (Reads ∅)).2 = 1080 - 1000.
Proof.
  assert (in_step "alice" sample_source sample_counter) as Hin by (split_and!; by vm_compute).
  pose proof (never_overbills "alice" sample_source sample_counter sample_history Hin ltac:(vm_compute; split_and!; done)) as H.
  pose proof (never_overbills "alice" sample_source sample_counter (take 4 sample_history) Hin ltac:(vm_compute; split_and!; done)) as H4.
  split; [by vm_compute|]. split; [exact (proj1 H)|]. pose proof (proj2 H4 eq_refl ∅) as E. rewrite E. by vm_compute.
Defined.

Lemma bills_the_difference_witness :
  default 0 ((observe "boot" {[ "alice" := 150 ]} sample_counter).2 !! "alice") = 50.
Proof.
  pose proof (bills_the_difference "boot" {[ "alice" := 150 ]} sample_counter "alice") as H.
  destruct (observe "boot" {[ "alice" := 150 ]} sample_counter) as [c' ds].
  destruct H as (_ & _ & H & _). specialize (H eq_refl 150 eq_refl ltac:(lia)).
  simpl in *. exact H.
Defined.

Lemma durable_observation_witness :
  counter_ok (ObserveDurably "boot" {[ "alice" := 150 ]} (fun _ _ _ => Ok tt) sample_counter).1.
Proof.
  destruct (ObserveDurably "boot" {[ "alice" := 150 ]} (fun _ _ _ => Ok tt) sample_counter)
    as [c' res] eqn:Hd.
  apply (durable_observation "boot" {[ "alice" := 150 ]} (fun _ _ _ => Ok tt) sample_counter c' res);
    [| | |exact Hd].
  - apply (bool_decide_unpack _). vm_compute. exact I.
  - apply (bool_decide_unpack _). vm_compute. exact I.
  - simpl. lia.
Defined.
