(* ===== verification/Ledger.v ===== *)
(** * RADIUS accounting: internal/radius/ledger.go

    A [Ledger] turns per-session accounting records into per-user deltas.  The
    clock is an input: [now i] is the answer to the [i]-th [l.now()] of a call.
    Addresses are opaque here; an invalid [netip.Addr] is [None]. *)
From S2P Require Import Prelude.

Inductive Status := Start | Interim | Stop.
#[global] Instance Status_eq_dec : EqDecision Status.
Proof. solve_decision. Defined.

Record Peer := mkPeer { Source : option string; FramedIP : option string }.

Record Event := mkEvent {
  eStatus : Status; SessionID : string; Username : string; ePeer : Peer; In : Z; Out : Z }.

(** A zero [time.Time] is [None]. *)
Record session := mkSession {
  username : string;
  peer : Peer;
  s_in : Z;
  s_out : Z;
  lastSeen : option Z;
  lastRecord : Z;
  started : Z }.

Record TrafficDelta := mkDelta { Email : string; Tag : string; Up : Z; Down : Z }.

Record Ledger := mkLedger {
  sessions : gmap string session;
  pending : gmap string TrafficDelta;
  tag : string;
  Stale : Z }.

Definition NewLedger (t : string) : Ledger := mkLedger ∅ ∅ t 0.

Definition with_sessions (l : Ledger) (s : gmap string session) : Ledger :=
  mkLedger s (pending l) (tag l) (Stale l).

(** What moved since the last record: a total that went backwards counts whole. *)
Definition moved (total before : Z) : Z := if total - before <? 0 then total else total - before.

Definition add_pending (user : string) (dIn dOut : Z) (l : Ledger) : Ledger :=
  if (0 <? dIn) || (0 <? dOut) then
    let agg := default (mkDelta user (tag l) 0 0) (pending l !! user) in
    mkLedger (sessions l)
      (<[ user := mkDelta (Email agg) (Tag agg) (i64 (Up agg + dIn)) (i64 (Down agg + dOut)) ]>
         (pending l)) (tag l) (Stale l)
  else l.

Definition close_session (ev : Event) (l : Ledger) : Ledger :=
  if bool_decide (eStatus ev = Stop) then with_sessions l (delete (SessionID ev) (sessions l)) else l.

(** A record of an open session, its user resolved. *)
Definition apply_open (now : nat -> Z) (ev : Event) (user : string) (cur : session) (l : Ledger)
    : Ledger :=
  let p := mkPeer (match Source (ePeer ev) with Some a => Some a | None => Source (peer cur) end)
             (match FramedIP (ePeer ev) with Some a => Some a | None => FramedIP (peer cur) end) in
  let dIn := moved (In ev) (s_in cur) in
  let dOut := moved (Out ev) (s_out cur) in
  let seen := if (0 <? dIn) || (0 <? dOut) || bool_decide (lastSeen cur = None)
              then Some (now 3%nat) else lastSeen cur in
  let cur' := mkSession (username cur) p (In ev) (Out ev) seen (now 2%nat) (started cur) in
  close_session ev
    (add_pending user dIn dOut (with_sessions l (<[ SessionID ev := cur' ]> (sessions l)))).

Definition Ledger_Apply (now : nat -> Z) (ev : Event) (l : Ledger) : Ledger :=
  if bool_decide (SessionID ev = ""%string) then l
  else
    match sessions l !! SessionID ev with
    | Some cur =>
        let user := if bool_decide (Username ev = ""%string) then username cur else Username ev in
        apply_open now ev user cur l
    | None =>
        if bool_decide (Username ev = ""%string) then l
        else
          let cur := mkSession (Username ev) (ePeer ev) 0 0 None (now 1%nat) (now 0%nat) in
          if bool_decide (eStatus ev = Start) then apply_open now ev (Username ev) cur l
          else
            close_session ev
              (with_sessions l
                 (<[ SessionID ev := mkSession (Username ev) (ePeer ev) (In ev) (Out ev)
                                       (Some (now 2%nat)) (now 1%nat) (now 0%nat) ]> (sessions l)))
    end.

Definition sorted_keys {A} (m : gmap string A) : list string :=
  merge_sort String.le (map_to_list m).*1.

Definition Drain (l : Ledger) : Ledger * list TrafficDelta :=
  (mkLedger (sessions l) ∅ (tag l) (Stale l),
   omap (fun email => pending l !! email) (sorted_keys (pending l))).

Record Session := mkCoreSession {
  sEmail : string; sSource : option string; sLocal : option string;
  LastSeenUnixMilli : option Z; StartedUnixMilli : Z }.

Definition fresh (now : Z) (l : Ledger) (cur : session) : bool :=
  negb ((0 <? Stale l) && (Stale l <? now - lastRecord cur)).

Definition Ledger_Sessions (now : Z) (l : Ledger) : Ledger * list Session :=
  let kept := filter (fun kv => fresh now l kv.2 = true) (sessions l) in
  (with_sessions l kept,
   omap (fun id =>
     match kept !! id with
     | Some cur => Some (mkCoreSession (username cur) (Source (peer cur)) (FramedIP (peer cur))
                           (UnixMilli <$> lastSeen cur) (UnixMilli (started cur)))
     | None => None
     end) (sorted_keys kept)).

Definition Ledger_Online (now : Z) (l : Ledger) : Ledger * list string :=
  let '(l', ss) := Ledger_Sessions now l in
  (l', sorted_keys (list_to_map ((fun s => (sEmail s, tt)) <$> ss) : gmap string unit)).

(** ** Facts *)

Definition owed (l : Ledger) (user : string) : Z * Z :=
  match pending l !! user with Some d => (Up d, Down d) | None => (0, 0) end.

Lemma moved_spec total before :
  0 <= total -> 0 <= before ->
  moved total before = (if total <? before then total else total - before) /\ 0 <= moved total before.
Proof. intros. unfold moved. repeat split_guard; lia. Qed.

Lemma owed_add user u dIn dOut l :
  is_i64 ((owed l user).1 + dIn) -> is_i64 ((owed l user).2 + dOut) -> 0 <= dIn -> 0 <= dOut ->
  owed (add_pending user dIn dOut l) u =
    if bool_decide (u = user) then ((owed l user).1 + dIn, (owed l user).2 + dOut) else owed l u.
Proof.
  intros H1 H2 HI HO. unfold add_pending. split_guard.
  - unfold owed in *. cbv zeta. cbn [pending]. rewrite lookup_insert.
    destruct (decide (user = u)) as [<-|Hne].
    + rewrite bool_decide_eq_true_2 by done. cbn [Up Down].
      destruct (pending l !! user) as [d|]; simpl in *; by rewrite !i64_small.
    + by rewrite bool_decide_eq_false_2 by auto.
  - assert (dIn = 0 /\ dOut = 0) as [-> ->] by lia. rewrite !Z.add_0_r.
    case_bool_decide; [subst|done]. by destruct (owed l user).
Qed.

Lemma owed_sessions l s u : owed (with_sessions l s) u = owed l u.
Proof. done. Qed.

Lemma owed_close ev l u : owed (close_session ev l) u = owed l u.
Proof. unfold close_session. by split_guard. Qed.

(** A record bills the session's user exactly what moved since the session's
    last record, in each direction (all of it when a total went backwards), and
    nobody else; a session first heard of in mid-flight is billed nothing, one that
    opens with a Start is billed its totals; a record that names no session, or no
    user for an unknown session, changes nothing; and a Stop closes the session. *)
Theorem record_bills_growth (now : nat -> Z) (ev : Event) (l : Ledger) (u : string) :
  let old := sessions l !! SessionID ev in
  let user := if bool_decide (Username ev = ""%string)
              then match old with Some s => username s | None => ""%string end else Username ev in
  let dIn := match old with
             | Some s => if In ev <? s_in s then In ev else In ev - s_in s
             | None => if bool_decide (eStatus ev = Start) then In ev else 0
             end in
  let dOut := match old with
              | Some s => if Out ev <? s_out s then Out ev else Out ev - s_out s
              | None => if bool_decide (eStatus ev = Start) then Out ev else 0
              end in
  SessionID ev <> ""%string -> user <> ""%string -> 0 <= In ev -> 0 <= Out ev ->
  (forall s, old = Some s -> 0 <= s_in s /\ 0 <= s_out s) ->
  is_i64 ((owed l user).1 + dIn) -> is_i64 ((owed l user).2 + dOut) ->
  owed (Ledger_Apply now ev l) u =
    (if bool_decide (u = user) then ((owed l user).1 + dIn, (owed l user).2 + dOut) else owed l u) /\
  (eStatus ev = Stop -> sessions (Ledger_Apply now ev l) !! SessionID ev = None) /\
  (eStatus ev <> Stop -> exists s, sessions (Ledger_Apply now ev l) !! SessionID ev = Some s /\
     s_in s = In ev /\ s_out s = Out ev) /\
  (forall id, id <> SessionID ev -> sessions (Ledger_Apply now ev l) !! id = sessions l !! id).
Proof.
  intros old user dIn dOut Hsid Huser Hin Hout Hold Hi1 Hi2.
  assert (forall cur v, 0 <= s_in cur -> 0 <= s_out cur ->
    moved (In ev) (s_in cur) = dIn -> moved (Out ev) (s_out cur) = dOut -> v = user ->
    owed (apply_open now ev v cur l) u =
      (if bool_decide (u = user) then ((owed l user).1 + dIn, (owed l user).2 + dOut) else owed l u) /\
    (eStatus ev = Stop -> sessions (apply_open now ev v cur l) !! SessionID ev = None) /\
    (eStatus ev <> Stop -> exists s, sessions (apply_open now ev v cur l) !! SessionID ev = Some s /\
       s_in s = In ev /\ s_out s = Out ev) /\
    (forall id, id <> SessionID ev -> sessions (apply_open now ev v cur l) !! id = sessions l !! id))
    as Hopen.
  { intros cur v Hc1 Hc2 Hd1 Hd2 ->. unfold apply_open. rewrite Hd1, Hd2.
    destruct (moved_spec (In ev) (s_in cur) Hin Hc1) as [_ Hn1].
    destruct (moved_spec (Out ev) (s_out cur) Hout Hc2) as [_ Hn2]. rewrite Hd1 in Hn1. rewrite Hd2 in Hn2.
    set (cur' := mkSession _ _ _ _ _ _ _).
    set (l1 := with_sessions l (<[ SessionID ev := cur' ]> (sessions l))).
    assert (sessions (add_pending user dIn dOut l1) = sessions l1) as Hs
      by (unfold add_pending; by split_guard).
    rewrite owed_close. split_and!.
    - by rewrite (owed_add user u dIn dOut l1).
    - intros Hst. unfold close_session. rewrite bool_decide_eq_true_2 by done. simpl.
      apply lookup_delete_eq.
    - intros Hst. unfold close_session. rewrite bool_decide_eq_false_2, Hs by done. simpl.
      rewrite lookup_insert_eq. eexists. split; [done|]. done.
    - intros id Hid. unfold close_session. split_guard; simpl; rewrite ?Hs; simpl;
        rewrite ?lookup_delete_ne by done; by rewrite lookup_insert_ne. }
  unfold Ledger_Apply. rewrite (bool_decide_eq_false_2 (SessionID ev = _)) by done.
  subst old user dIn dOut.
  destruct (sessions l !! SessionID ev) as [cur|] eqn:Hl.
  - destruct (Hold cur eq_refl). apply Hopen; auto; by apply moved_spec.
  - destruct (decide (Username ev = ""%string)) as [Hu|Hu];
      [rewrite bool_decide_eq_true_2 in Huser by done; done|].
    rewrite !(bool_decide_eq_false_2 (Username ev = ""%string)) in * by done.
    destruct (decide (eStatus ev = Start)) as [Hst|Hst];
      [rewrite !(bool_decide_eq_true_2 (eStatus ev = Start)) in * by done
      |rewrite !(bool_decide_eq_false_2 (eStatus ev = Start)) in * by done].
    + apply Hopen; simpl; auto; try lia; unfold moved; rewrite Z.sub_0_r; by split_guard.
    + rewrite owed_close, owed_sessions, !Z.add_0_r. split_and!.
      * case_bool_decide; [subst|done]. by destruct (owed l (Username ev)).
      * intros Hs. unfold close_session. rewrite bool_decide_eq_true_2 by done. simpl.
        apply lookup_delete_eq.
      * intros Hs. unfold close_session. rewrite bool_decide_eq_false_2 by done. simpl.
        rewrite lookup_insert_eq. eexists. split; [done|]. done.
      * intros id Hid. unfold close_session. split_guard; simpl;
          rewrite ?lookup_delete_ne by done; by rewrite lookup_insert_ne.
Qed.

(** Every pending entry carries its own user. *)
Definition ledger_ok (l : Ledger) : Prop := forall u d, pending l !! u = Some d -> Email d = u.

Lemma ledger_ok_apply now ev l : ledger_ok l -> ledger_ok (Ledger_Apply now ev l).
Proof.
  intros Hl.
  assert (forall u dI dO l, ledger_ok l -> ledger_ok (add_pending u dI dO l)) as Hadd.
  { intros u dI dO l0 H0. unfold add_pending. split_guard; [|done]. intros v d. simpl.
    rewrite lookup_insert. case_decide as Hv; [|apply H0]. intros [= <-]. simpl. subst v.
    destruct (pending l0 !! u) eqn:Hp; simpl; [by apply H0|done]. }
  assert (forall l, ledger_ok l -> ledger_ok (close_session ev l)) as Hcl.
  { intros l0 H0. unfold close_session. by split_guard. }
  unfold Ledger_Apply. split_guard; [done|].
  destruct (sessions l !! SessionID ev); [unfold apply_open; apply Hcl, Hadd; exact Hl|].
  split_guard; [done|]. cbv zeta. split_guard; [unfold apply_open; apply Hcl, Hadd; exact Hl|].
  apply Hcl. exact Hl.
Qed.

Lemma sorted_keys_elem {A} (m : gmap string A) k : k ∈ sorted_keys m <-> is_Some (m !! k).
Proof.
  unfold sorted_keys. rewrite merge_sort_Permutation, list_elem_of_fmap. split.
  - intros ([k' v]&->&Hin). apply elem_of_map_to_list in Hin. simpl. eauto.
  - intros [v Hv]. exists (k, v). split; [done|]. by apply elem_of_map_to_list.
Qed.

Lemma omap_keys {A} (f : A -> string) (m : gmap string A) (ks : list string) :
  (forall k a, m !! k = Some a -> f a = k) -> (forall k, k ∈ ks -> is_Some (m !! k)) ->
  f <$> omap (fun k => m !! k) ks = ks.
Proof.
  intros Hf. induction ks as [|k ks IH]; intros Hk; [done|]. cbn.
  destruct (Hk k ltac:(left)) as [a Ha]. rewrite Ha. cbn. rewrite (Hf k a Ha). f_equal.
  apply IH. intros. apply Hk. by right.
Qed.

(** Draining hands out what is owed exactly once: one delta per user owed
    anything, in order of the user's name, with the inbound's totals, and nothing is
    owed afterwards, so a second drain hands out nothing; open sessions stay as they
    are. *)
Theorem drain_hands_out_once (l : Ledger) :
  ledger_ok l ->
  let '(l', out) := Drain l in
  StronglySorted String.le (Email <$> out) /\ NoDup (Email <$> out) /\
  (forall d, d ∈ out <-> pending l !! Email d = Some d) /\
  (forall u, owed l' u = (0, 0)) /\ sessions l' = sessions l /\ Drain l' = (l', []).
Proof.
  intros Hl. unfold Drain. cbv zeta.
  assert (Email <$> omap (fun email => pending l !! email) (sorted_keys (pending l)) =
          sorted_keys (pending l)) as Hk.
  { apply omap_keys; [exact Hl|]. intros k. apply sorted_keys_elem. }
  rewrite Hk. split_and!; auto.
  - unfold sorted_keys. apply (StronglySorted_merge_sort _).
  - unfold sorted_keys. rewrite merge_sort_Permutation. apply NoDup_fst_map_to_list.
  - intros d. rewrite list_elem_of_omap. split.
    + intros (k & _ & Hd). by rewrite (Hl k d Hd).
    + intros Hd. exists (Email d). split; [|done]. apply sorted_keys_elem. eauto.
Qed.

(** ** Witnesses *)

Definition sample_event (status : Status) (i o : Z) : Event :=
  mkEvent status "s1" "alice" (mkPeer None None) i o.
Definition sample_clock (i : nat) : Z := Z.of_nat i.
Definition sample_ledger : Ledger :=
  Ledger_Apply sample_clock (sample_event Interim 500 600)
    (Ledger_Apply sample_clock (sample_event Start 0 0) (NewLedger "in-1")).

Lemma record_bills_growth_witness :
  owed (Ledger_Apply sample_clock (sample_event Stop 700 650) sample_ledger) "alice" = (700, 650).
Proof.
  refine (proj1 (record_bills_growth sample_clock (sample_event Stop 700 650) sample_ledger "alice"
    _ _ _ _ _ _ _)); try (by vm_compute); try (split; by vm_compute).
  intros s Hs. vm_compute in Hs. injection Hs as <-. simpl. lia.
Defined.

Lemma drain_hands_out_once_witness : owed (Drain sample_ledger).1 "alice" = (0, 0).
Proof.
  pose proof (drain_hands_out_once sample_ledger) as H.
  destruct (Drain sample_ledger) as [l' out]. apply H.
  intros u d Hd.
  destruct (decide (u = "alice"%string)) as [->|Hne];
    [vm_compute in Hd; by injection Hd as <-|exfalso].
  assert (pending sample_ledger !! u = None) as Hn; [|congruence].
  change (pending sample_ledger) with
    (<[ "alice"%string := mkDelta "alice" "in-1" 500 600 ]> (∅ : gmap string TrafficDelta)).
  rewrite lookup_insert_ne by auto. apply lookup_empty.
Defined.
