(* ===== verification/Presence.v ===== *)
(** * Who is connected: internal/presence

    The grace-windowed stamps of what this host saw, and the subtrees its nodes
    reported.  Slices built by ranging over a Go map follow [map_to_list] here; the
    theorems say nothing about their order. *)
From S2P Require Import Prelude.

Record Set_ := mkSet {
  local : gmap string Z;
  localTags : gmap string Z;
  online : list string;
  activeTags : list string;
  nodeTrees : gmap Z (gmap string (list string)) }.

Definition empty_set : Set_ := mkSet ∅ ∅ [] [] ∅.

Definition within (now graceMs at_ : Z) : Prop := i64 (now - at_) < graceMs.
#[global] Instance within_dec n g a : Decision (within n g a).
Proof. unfold within. apply _. Defined.

Definition stamp (now : Z) (stamps : gmap string Z) (seen : list string) : gmap string Z :=
  foldl (fun m key => <[ key := now ]> m) stamps seen.

(** The stamps left, and the keys inside the window. *)
Definition refreshWindow (stamps : gmap string Z) (seen : list string) (now graceMs : Z)
    : gmap string Z * list string :=
  let kept := filter (fun kv => within now graceMs kv.2) (stamp now stamps seen) in
  (kept, (map_to_list kept).*1).

Definition RefreshLocal (activeEmails activeInboundTags : list string) (now graceMs : Z) (s : Set_)
    : Set_ :=
  let '(l, on) := refreshWindow (local s) activeEmails now graceMs in
  let '(t, tags) := refreshWindow (localTags s) activeInboundTags now graceMs in
  mkSet l t on tags (nodeTrees s).

(** [add]: append what was not there yet. *)
Definition add (out emails : list string) : list string :=
  foldl (fun out email => if bool_decide (email ∈ out) then out else out ++ [email]) out emails.

Definition tree_emails (tree : gmap string (list string)) : list (list string) :=
  (map_to_list tree).*2.

Definition Online (s : Set_) : list string :=
  if bool_decide (nodeTrees s = ∅) then online s
  else foldl add [] (online s :: ((map_to_list (nodeTrees s)).*2 ≫= tree_emails)).

Definition copyOf (l : list string) : list string := l.
Definition LocalOnline (s : Set_) : list string := copyOf (online s).
Definition LocalActiveTags (s : Set_) : list string := copyOf (activeTags s).

(** One guid of one tree folded into the union. *)
Definition merge_guid (out : gmap string (list string)) (entry : string * list string)
    : gmap string (list string) :=
  if bool_decide (entry.1 = ""%string) || bool_decide (entry.2 = []) then out
  else <[ entry.1 := add (default [] (out !! entry.1)) entry.2 ]> out.

Definition MergedNodeTrees (s : Set_) : gmap string (list string) :=
  foldl (fun out tree => foldl merge_guid out (map_to_list tree)) ∅ (map_to_list (nodeTrees s)).*2.

Definition with_trees (s : Set_) (t : gmap Z (gmap string (list string))) : Set_ :=
  mkSet (local s) (localTags s) (online s) (activeTags s) t.

Definition SetNodeTree (nodeID : Z) (tree : gmap string (list string)) (s : Set_) : Set_ :=
  with_trees s (<[ nodeID := tree ]> (nodeTrees s)).

Definition ClearNodeTree (nodeID : Z) (s : Set_) : Set_ :=
  with_trees s (delete nodeID (nodeTrees s)).

Definition RetainNodeTrees (keep : gset Z) (s : Set_) : Set_ :=
  with_trees s (filter (fun kv => kv.1 ∈ keep) (nodeTrees s)).

(** ** Facts *)

Lemma stamp_lookup now m seen k :
  stamp now m seen !! k = if bool_decide (k ∈ seen) then Some now else m !! k.
Proof.
  unfold stamp. induction seen as [|x l IH] using rev_ind; [done|].
  rewrite foldl_app. simpl. destruct (decide (x = k)) as [<-|Hx].
  - by rewrite lookup_insert_eq, bool_decide_eq_true_2 by set_solver.
  - rewrite lookup_insert_ne, IH by done.
    by rewrite (bool_decide_ext (k ∈ l) (k ∈ l ++ [x])) by set_solver.
Qed.

Lemma add_elem out emails x : x ∈ add out emails <-> x ∈ out \/ x ∈ emails.
Proof.
  unfold add. revert out. induction emails as [|e l IH]; intros out; simpl; [set_solver|].
  rewrite IH. case_bool_decide; set_solver.
Qed.

Lemma add_nodup out emails : NoDup out -> NoDup (add out emails).
Proof.
  unfold add. revert out. induction emails as [|e l IH]; intros out Hn; simpl; [done|].
  apply IH. case_bool_decide; [done|]. apply NoDup_app. split_and!; [done|set_solver|].
  apply NoDup_singleton.
Qed.

Lemma foldl_add ls : forall out,
  (NoDup out -> NoDup (foldl add out ls)) /\
  (forall x, x ∈ foldl add out ls <-> x ∈ out \/ exists l, l ∈ ls /\ x ∈ l).
Proof.
  induction ls as [|l ls IH]; intros out; simpl; [split; [done|set_solver]|].
  destruct (IH (add out l)) as [H1 H2]. split; [intros; apply H1; by apply add_nodup|].
  intros x. rewrite H2, add_elem. set_solver.
Qed.

(** A presence view as [RefreshLocal] leaves it: the derived slice lists each
    stamped key once. *)
Definition set_ok (s : Set_) : Prop :=
  NoDup (online s) /\ forall x, x ∈ online s <-> is_Some (local s !! x).

Lemma kept_keys (m : gmap string Z) y : y ∈ (map_to_list m).*1 <-> is_Some (m !! y).
Proof.
  rewrite list_elem_of_fmap. split.
  - intros ([k v]&->&Hin). apply elem_of_map_to_list in Hin. simpl. eauto.
  - intros [v Hv]. exists (y, v). split; [done|]. by apply elem_of_map_to_list.
Qed.

Lemma presence_window_ok emails tags now grace s : set_ok (RefreshLocal emails tags now grace s).
Proof.
  unfold RefreshLocal, refreshWindow. split; simpl; [apply NoDup_fst_map_to_list|].
  intros x. apply kept_keys.
Qed.

(** Presence is exactly the grace window: after a refresh a client is online
    here iff it had traffic now, or its last traffic is less than the grace ago;
    older stamps are gone for good, and no client is listed twice. *)
Theorem presence_window (emails tags : list string) (now grace : Z) (s : Set_) (x : string) :
  let s' := RefreshLocal emails tags now grace s in
  set_ok s' /\
  (x ∈ online s' <->
     (x ∈ emails /\ within now grace now) \/
     (x ∉ emails /\ exists t, local s !! x = Some t /\ within now grace t)) /\
  (x ∉ online s' -> local s' !! x = None) /\ nodeTrees s' = nodeTrees s.
Proof.
  cbv zeta. split; [apply presence_window_ok|].
  unfold RefreshLocal, refreshWindow. cbn [local online nodeTrees].
  set (kept := filter _ _). split_and!; [| |done].
  - rewrite kept_keys. unfold kept. unfold is_Some. setoid_rewrite map_lookup_filter_Some.
    setoid_rewrite stamp_lookup. case_bool_decide as Hin; split.
    + intros (t & [= <-] & Ht). auto.
    + intros [[_ Ht]|[? _]]; [eauto|done].
    + intros (t & Hl & Ht). eauto.
    + intros [[? _]|(_ & t & ? & ?)]; [done|eauto].
  - intros Hn. rewrite kept_keys in Hn. by apply eq_None_not_Some.
Qed.

(** The panel-wide view is the union of this host and every node's subtree,
    each client once, and dropping a node drops exactly what no one else reports. *)
Theorem online_is_the_union (s : Set_) (nodeID : Z) (x : string) :
  set_ok s ->
  NoDup (Online s) /\
  (x ∈ Online s <-> x ∈ online s \/
     exists n tree guid emails, nodeTrees s !! n = Some tree /\ tree !! guid = Some emails /\
       x ∈ emails) /\
  (x ∈ Online (ClearNodeTree nodeID s) <-> x ∈ online s \/
     exists n tree guid emails, n <> nodeID /\ nodeTrees s !! n = Some tree /\
       tree !! guid = Some emails /\ x ∈ emails).
Proof.
  assert (forall t, set_ok t ->
    NoDup (Online t) /\ forall y, y ∈ Online t <-> y ∈ online t \/
     exists n tree guid emails, nodeTrees t !! n = Some tree /\ tree !! guid = Some emails /\
       y ∈ emails) as Hall.
  { intros t [Hn _]. unfold Online. case_bool_decide as He.
    - split; [done|]. intros y. split; [auto|]. intros [?|(n&tr&g&em&Hl&_)]; [done|].
      by rewrite He, lookup_empty in Hl.
    - destruct (foldl_add (online t :: ((map_to_list (nodeTrees t)).*2 ≫= tree_emails)) []) as [H1 H2].
      split; [apply H1; constructor|]. intros y. rewrite H2. split.
      + intros [?|(l & Hl & Hy)]; [set_solver|]. apply elem_of_cons in Hl as [->|Hl]; [auto|].
        right. apply list_elem_of_bind in Hl as (tree & Hl & Ht).
        apply list_elem_of_fmap in Ht as ([n tr] & -> & Hin). apply elem_of_map_to_list in Hin.
        unfold tree_emails in Hl. apply list_elem_of_fmap in Hl as ([g em] & -> & Hin').
        apply elem_of_map_to_list in Hin'. simpl in *. eauto 8.
      + intros [Hy|(n & tree & g & em & Hn' & Hg & Hy)].
        * right. exists (online t). split; [left|done].
        * right. exists em. split; [|done]. right. apply list_elem_of_bind. exists tree. split.
          -- apply list_elem_of_fmap. exists (g, em). split; [done|]. by apply elem_of_map_to_list.
          -- apply list_elem_of_fmap. exists (n, tree). split; [done|]. by apply elem_of_map_to_list. }
  intros Hs. destruct (Hall s Hs) as [H1 H2]. destruct (Hall (ClearNodeTree nodeID s) Hs) as [_ H3].
  split_and!; auto. rewrite H3. simpl. split.
  - intros [?|(n&tr&g&em&Hl&?)]; [auto|]. apply lookup_delete_Some in Hl as [? ?]. right.
    exists n, tr, g, em. auto.
  - intros [?|(n&tr&g&em&?&?&?&?)]; [auto|]. right. exists n, tr, g, em.
    rewrite lookup_delete_ne by auto. auto.
Qed.

(** ** Witness *)

Definition sample_set : Set_ :=
  SetNodeTree 7 {[ "guid" := ["bob"] ]} (RefreshLocal ["alice"] [] 100 50 empty_set).

Lemma sample_set_ok : set_ok sample_set.
Proof. apply (presence_window_ok ["alice"] [] 100 50 empty_set). Qed.

Lemma online_is_the_union_witness : "bob" ∈ Online sample_set.
Proof.
  refine (proj2 (proj1 (proj2 (online_is_the_union sample_set 7 "bob" sample_set_ok))) _).
  right. exists 7, {[ "guid" := ["bob"] ]}, "guid", ["bob"].
  split_and!; [reflexivity|reflexivity|left].
Defined.
