(* ===== verification/Decimal.v ===== *)
(** * Decimal text: strconv.Itoa and strconv.Atoi

    [Itoa] is the decimal form of an integer, [Atoi] reads an optional sign and
    decimal digits within the range of an [int].  The components that derive names
    from numbers, or compare texts built from numbers, share the facts here. *)
From stdpp Require Import pretty.
From Stdlib Require Import Ascii.
From S2P Require Import Prelude.

Open Scope string_scope.
Open Scope Z_scope.

Definition Itoa (z : Z) : string := pretty z.
#[global] Arguments Itoa : simpl never.

Definition digit (c : ascii) : option Z :=
  let n := Z.of_nat (nat_of_ascii c) in
  if (48 <=? n) && (n <=? 57) then Some (n - 48) else None.

(** The value of a run of digits read after [acc]. *)
Fixpoint digits (acc : Z) (s : string) : option Z :=
  match s with
  | EmptyString => Some acc
  | String c rest =>
      match digit c with Some d => digits (10 * acc + d) rest | None => None end
  end.

Definition Atoi (s : string) : option Z :=
  let read := fun t => if bool_decide (t = ""%string) then None else digits 0 t in
  let value :=
    match s with
    | String "-" rest => Z.opp <$> read rest
    | String "+" rest => read rest
    | _ => read s
    end in
  match value with
  | Some z => if bool_decide (is_i64 z) then Some z else None
  | None => None
  end.

(** ** Round trip *)

Lemma digit_char x : (x < 10)%N -> digit (pretty_N_char x) = Some (Z.of_N x).
Proof.
  intros Hx. assert (x = 0 \/ x = 1 \/ x = 2 \/ x = 3 \/ x = 4 \/ x = 5 \/ x = 6 \/ x = 7 \/ x = 8 \/
    x = 9)%N as Hc by lia. destruct_or!; subst; reflexivity.
Qed.

(** The scale a text shifts the value before it by. *)
Fixpoint scale (s : string) : Z :=
  match s with EmptyString => 1 | String _ rest => 10 * scale rest end.

Lemma digits_go x : forall s acc v,
  digits 0 s = Some v ->
  (forall a, digits a s = Some (a * scale s + v)) ->
  digits acc (pretty_N_go x s) = Some (acc * scale (pretty_N_go x s) + (Z.of_N x * scale s + v)).
Proof.
  induction (N.lt_wf_0 x) as [x _ IH]; intros s acc v Hv Hs.
  destruct (decide (x = 0)%N) as [->|Hx].
  { rewrite pretty_N_go_0, Hs. done. }
  rewrite pretty_N_go_step by lia.
  assert (forall a, digits a (String (pretty_N_char (x `mod` 10)) s) =
    Some (a * (10 * scale s) + (Z.of_N (x `mod` 10) * scale s + v))) as Hd.
  { intros a. cbn [digits]. rewrite digit_char by (apply N.mod_lt; lia). rewrite Hs. f_equal. ring. }
  rewrite (IH (x `div` 10)%N) with (v := Z.of_N (x `mod` 10) * scale s + v).
  - f_equal. cbn [scale].
    assert (Z.of_N x = 10 * Z.of_N (x `div` 10) + Z.of_N (x `mod` 10)) as ->
      by (pose proof (N.div_mod x 10 ltac:(lia)); lia). ring.
  - apply N.div_lt; lia.
  - rewrite Hd. f_equal.
  - intros a. rewrite Hd. cbn [scale]. done.
Qed.

Lemma digits_N x : digits 0 (pretty x) = Some (Z.of_N x).
Proof.
  unfold pretty, pretty_N. case_decide as Hx; [by subst|].
  rewrite (digits_go x "" 0 0); [|done|intros a; simpl; f_equal; lia]. f_equal. simpl. lia.
Qed.

Lemma pretty_N_nonempty (x : N) : pretty x <> ""%string.
Proof.
  intros Heq. pose proof (digits_N x) as Hd. rewrite Heq in Hd. simpl in Hd.
  assert (x = 0)%N as -> by (injection Hd; lia). done.
Qed.

Lemma pretty_N_head (x : N) c rest : pretty x = String c rest -> is_Some (digit c).
Proof.
  intros Heq. pose proof (digits_N x) as Hd. rewrite Heq in Hd. simpl in Hd.
  destruct (digit c); [eauto|done].
Qed.

Lemma Atoi_Itoa z : is_i64 z -> Atoi (Itoa z) = Some z.
Proof.
  intros Hz. unfold Itoa, Atoi.
  assert (forall (n : N), (if bool_decide (pretty n = ""%string) then None else digits 0 (pretty n)) =
    Some (Z.of_N n)) as Hn.
  { intros n. rewrite bool_decide_eq_false_2 by apply pretty_N_nonempty. apply digits_N. }
  assert (match pretty z with
    | String "-" rest => Z.opp <$> (if bool_decide (rest = ""%string) then None else digits 0 rest)
    | String "+" rest => if bool_decide (rest = ""%string) then None else digits 0 rest
    | _ => if bool_decide (pretty z = ""%string) then None else digits 0 (pretty z)
    end = Some z) as Hv.
  { unfold pretty, pretty_Z. destruct z as [|p|p]; [reflexivity| |].
    - change (@pretty positive _ p) with (pretty (Npos p)).
      pose proof (pretty_N_head (Npos p)) as Hh. specialize (Hn (Npos p)).
      destruct (pretty (Npos p)) as [|c rest] eqn:Hp; [done|].
      specialize (Hh c rest eq_refl).
      destruct (decide (c = "-"%char)) as [->|]; [by destruct Hh|].
      destruct (decide (c = "+"%char)) as [->|]; [by destruct Hh|].
      destruct c as [[] [] [] [] [] [] [] []]; try exact Hn; try done.
    - specialize (Hn (Npos p)).
      change (Z.opp <$> (if bool_decide (pretty (Npos p) = ""%string) then None
                         else digits 0 (pretty (Npos p))) = Some (Z.neg p)). by rewrite Hn. }
  cbv zeta. rewrite Hv. by rewrite bool_decide_eq_true_2.
Qed.

Lemma Itoa_inj x y : Itoa x = Itoa y -> x = y.
Proof. apply (inj pretty). Qed.

(** ** Separators *)

(** The character does not occur in the text. *)
Fixpoint free (c : ascii) (s : string) : bool :=
  match s with EmptyString => true | String d rest => negb (bool_decide (d = c)) && free c rest end.

Lemma free_app c s t : free c (s +:+ t) = free c s && free c t.
Proof. induction s as [|d s IH]; simpl; [done|]. rewrite IH. by rewrite andb_assoc. Qed.

Lemma free_pretty_N c (x : N) : digit c = None -> free c (pretty x) = true.
Proof.
  intros Hc. unfold pretty, pretty_N. case_decide.
  - simpl. by rewrite bool_decide_eq_false_2 by (intros <-; done).
  - assert (forall s, free c s = true -> free c (pretty_N_go x s) = true) as Hgo; [|by apply Hgo].
    clear H. induction (N.lt_wf_0 x) as [x _ IH]; intros s Hs.
    destruct (decide (x = 0)%N) as [->|Hx]; [by rewrite pretty_N_go_0|].
    rewrite pretty_N_go_step by lia. apply IH; [apply N.div_lt; lia|]. simpl. rewrite Hs, andb_true_r.
    rewrite bool_decide_eq_false_2; [done|]. intros Heq. rewrite <-Heq, digit_char in Hc; [done|].
    apply N.mod_lt. lia.
Qed.

Lemma free_Itoa c z : digit c = None -> c <> "-"%char -> free c (Itoa z) = true.
Proof.
  intros Hc Hd. unfold Itoa, pretty, pretty_Z. destruct z as [|p|p].
  - by apply (free_pretty_N c 0).
  - by apply free_pretty_N.
  - simpl. rewrite bool_decide_eq_false_2 by auto. by apply free_pretty_N.
Qed.

Lemma split_at c s s' t t' :
  free c s = true -> free c s' = true -> s +:+ String c t = s' +:+ String c t' -> s = s' /\ t = t'.
Proof.
  revert s'. induction s as [|d s IH]; intros [|d' s'] Hs Hs' Heq; simpl in *.
  - by injection Heq.
  - injection Heq as <- _. by rewrite bool_decide_eq_true_2 in Hs'.
  - injection Heq as -> _. by rewrite bool_decide_eq_true_2 in Hs.
  - apply andb_true_iff in Hs as [_ Hs]. apply andb_true_iff in Hs' as [_ Hs'].
    injection Heq as -> Heq. destruct (IH s' Hs Hs' Heq) as [-> ->]. done.
Qed.

(** ** Prefixes of texts *)

(** [strings.CutPrefix] *)
Fixpoint CutPrefix (s prefix : string) {struct prefix} : option string :=
  match prefix, s with
  | EmptyString, _ => Some s
  | String c prefix, String d s => if bool_decide (c = d) then CutPrefix s prefix else None
  | _, _ => None
  end.

Lemma CutPrefix_spec prefix name rest : CutPrefix name prefix = Some rest <-> name = prefix +:+ rest.
Proof.
  revert name. induction prefix as [|c prefix IH]; intros name; simpl;
    [split; [by intros [= ->]|by intros ->]|].
  destruct name as [|d name]; [done|]. case_bool_decide as Hc.
  - subst d. rewrite IH. split; [by intros ->|by intros [= ->]].
  - split; [done|]. intros [= ? _]. congruence.
Qed.

(** ** Text functions of the standard library: strings.TrimSpace, strings.Cut

    On ASCII text; the white space is tab to carriage return, and the space. *)

Definition space (c : Ascii.ascii) : bool := let n := Z.of_N (Ascii.N_of_ascii c) in (n =? 32) || (9 <=? n) && (n <=? 13).
Fixpoint trim_left (s : string) : string := match s with String c rest => if space c then trim_left rest else s | EmptyString => EmptyString end.
Fixpoint trim_right (s : string) : string :=
  match s with
  | EmptyString => EmptyString
  | String c rest => match trim_right rest with EmptyString => if space c then EmptyString else String c EmptyString | t => String c t end
  end.
Definition TrimSpace (s : string) : string := trim_right (trim_left s).

(** The text before and after the first [c], the second empty when there is none. *)
Fixpoint Cut (c : Ascii.ascii) (s : string) : string * string :=
  match s with
  | EmptyString => ("", "")
  | String a rest => if bool_decide (a = c) then ("", rest) else let '(x, y) := Cut c rest in (String a x, y)
  end.
