(* ===== verification/Netip.v ===== *)
(** * Addresses: net/netip

    The part of the standard library's [netip] the modelled code uses: addresses of
    both families, their order and 16-byte form, and prefixes. *)
From stdpp Require Import pretty.
From Stdlib Require Import Ascii.
From S2P Require Import Prelude Decimal.
Open Scope string_scope.
Open Scope Z_scope.

(** [netip.Addr]: the zero value, a 32-bit or a 128-bit address with its zone. *)
Inductive Addr := AddrInvalid | Addr4 (ip : Z) | Addr6 (ip : Z) (zone : string).
#[global] Instance Addr_eq_dec : EqDecision Addr.
Proof. solve_decision. Defined.

Definition IsValid (a : Addr) : bool := negb (bool_decide (a = AddrInvalid)).
Definition Is4 (a : Addr) : bool := match a with Addr4 _ => true | _ => false end.
Definition v4_mapped : Z := 65535 * 4294967296.

Definition Unmap (a : Addr) : Addr :=
  match a with
  | Addr6 ip _ =>
      if bool_decide (v4_mapped <= ip < v4_mapped + 4294967296) then Addr4 (ip - v4_mapped) else a
  | _ => a
  end.
Definition WithoutZone (a : Addr) : Addr := match a with Addr6 ip _ => Addr6 ip "" | _ => a end.

(** [Less]: by bit length, then value, then zone. *)
Definition addr_rank (a : Addr) : Z * Z * string :=
  match a with
  | AddrInvalid => (0, 0, "")
  | Addr4 ip => (32, ip, "")
  | Addr6 ip zone => (128, ip, zone)
  end.
Definition addr_le (a b : Addr) : Prop :=
  let '(la, va, za) := addr_rank a in let '(lb, vb, zb) := addr_rank b in
  la < lb \/ (la = lb /\ (va < vb \/ (va = vb /\ String.le za zb))).

#[global] Instance addr_le_dec a b : Decision (addr_le a b).
Proof. unfold addr_le. destruct (addr_rank a) as [[] ]. destruct (addr_rank b) as [[] ]. apply _. Defined.
Lemma addr_le_antisym a b : addr_le a b -> addr_le b a -> a = b.
Proof.
  unfold addr_le. destruct a as [|x|x zx], b as [|y|y zy]; simpl; intros H1 H2; try lia; try done.
  - f_equal. lia.
  - assert (x = y) as -> by lia. f_equal. apply (anti_symm String.le); naive_solver lia.
Qed.

#[global] Instance addr_le_trans : Transitive addr_le.
Proof.
  intros a b c. unfold addr_le. destruct (addr_rank a) as [[la va] za].
  destruct (addr_rank b) as [[lb vb] zb]. destruct (addr_rank c) as [[lc vc] zc].
  intros [?|[? [?|[? H1]]]] [?|[? [?|[? H2]]]]; try (left; lia); right; (split; [lia|]);
    try (left; lia); right. split; [lia|]. by etrans.
Qed.

Lemma addr_le_total a b : addr_le a b \/ addr_le b a.
Proof.
  unfold addr_le. destruct (addr_rank a) as [[la va] za]. destruct (addr_rank b) as [[lb vb] zb].
  destruct (Z.lt_trichotomy la lb) as [?|[->|?]]; [auto| |auto].
  destruct (Z.lt_trichotomy va vb) as [?|[->|?]]; [auto 6| |auto 6].
  destruct (total String.le za zb); auto 8.
Qed.

(** ** Prefixes and the 16-byte form *)

Definition BitLen (a : Addr) : Z :=
  match a with AddrInvalid => 0 | Addr4 _ => 32 | Addr6 _ _ => 128 end.

Definition addr_value (a : Addr) : Z :=
  match a with AddrInvalid => 0 | Addr4 ip => ip | Addr6 ip _ => ip end.

(** The value is one of its family. *)
Definition addr_ok (a : Addr) : Prop := 0 <= addr_value a < 2 ^ BitLen a.

(** [netip.Prefix]: bits out of range, or a zone, make it invalid. *)
Record Prefix := mkPrefix { pAddr : Addr; pBits : Z }.

Definition Prefix_IsValid (p : Prefix) : bool :=
  IsValid (pAddr p) && (0 <=? pBits p) && (pBits p <=? BitLen (pAddr p)) &&
  match pAddr p with Addr6 _ zone => bool_decide (zone = "") | _ => true end.

(** The network part of a value, the host bits cleared. *)
Definition network (bits len v : Z) : Z := v - v mod 2 ^ (len - bits).

Definition Masked (p : Prefix) : Prefix :=
  if negb (Prefix_IsValid p) then mkPrefix AddrInvalid 0
  else
    mkPrefix match pAddr p with
             | AddrInvalid => AddrInvalid
             | Addr4 ip => Addr4 (network (pBits p) 32 ip)
             | Addr6 ip _ => Addr6 (network (pBits p) 128 ip) ""
             end (pBits p).

Definition Contains (p : Prefix) (a : Addr) : bool :=
  Prefix_IsValid p &&
  match pAddr p, a with
  | Addr4 n, Addr4 ip => network (pBits p) 32 n =? network (pBits p) 32 ip
  | Addr6 n _, Addr6 ip zone =>
      bool_decide (zone = "") && (network (pBits p) 128 n =? network (pBits p) 128 ip)
  | _, _ => false
  end.

Lemma Masked_valid p : Prefix_IsValid p = true -> Prefix_IsValid (Masked p) = true.
Proof.
  intros Hv. unfold Masked. rewrite Hv. cbn [negb]. unfold Prefix_IsValid in *. simpl.
  destruct (pAddr p) as [|ip|ip z]; [done|exact Hv|]. simpl in *.
  apply andb_true_iff in Hv as [Hv _]. by rewrite Hv.
Qed.

(** [n] bytes of a value, the least significant first. *)
Fixpoint le_bytes (n : nat) (v : Z) : list Z :=
  match n with O => [] | S n => v mod 256 :: le_bytes n (v / 256) end.

Fixpoint le_value (l : list Z) : Z :=
  match l with [] => 0 | b :: rest => b + 256 * le_value rest end.

(** [As16], least significant byte first: an IPv4 address in its mapped form. *)
Definition As16 (a : Addr) : list Z :=
  le_bytes 16 (match a with Addr4 ip => v4_mapped + ip | _ => addr_value a end).

Definition AddrFrom16 (l : list Z) : Addr := Addr6 (le_value l) "".

Lemma le_bytes_length n v : length (le_bytes n v) = n.
Proof. revert v. induction n as [|n IH]; intros v; simpl; [done|]. by rewrite IH. Qed.

Lemma le_bytes_range n v : Forall (fun b => 0 <= b < 256) (le_bytes n v).
Proof.
  revert v. induction n as [|n IH]; intros v; simpl; constructor; [|apply IH].
  apply Z.mod_pos_bound. lia.
Qed.

Lemma le_value_bytes n v : 0 <= v < 256 ^ Z.of_nat n -> le_value (le_bytes n v) = v.
Proof.
  revert v. induction n as [|n IH]; intros v Hv; [simpl in *; lia|]. cbn [le_bytes le_value].
  rewrite Nat2Z.inj_succ, Z.pow_succ_r in Hv by lia. rewrite IH.
  - pose proof (Z.div_mod v 256). lia.
  - split; [apply Z.div_pos; lia|]. apply Z.div_lt_upper_bound; lia.
Qed.

(** ** Texts of prefixes *)

#[global] Instance Prefix_eq_dec : EqDecision Prefix.
Proof. solve_decision. Defined.
#[global] Instance Addr_countable : Countable Addr.
Proof.
  apply (inj_countable'
    (fun a => match a with
              | AddrInvalid => inl tt | Addr4 ip => inr (inl ip) | Addr6 ip z => inr (inr (ip, z)) end)
    (fun s : unit + (Z + Z * string) =>
       match s with inl _ => AddrInvalid | inr (inl ip) => Addr4 ip | inr (inr (ip, z)) => Addr6 ip z end)).
  by intros [].
Defined.
#[global] Instance Prefix_countable : Countable Prefix.
Proof.
  apply (inj_countable' (fun p => (pAddr p, pBits p)) (fun p => mkPrefix p.1 p.2)). by intros [].
Defined.

(** [netip.Prefix.String]: distinct valid prefixes have distinct texts, none with a comma. *)
Class PrefixText := { prefix_string : Prefix -> string }.
Class PrefixTextLaws `{!PrefixText} := {
  prefix_string_inj p q :
    Prefix_IsValid p = true -> Prefix_IsValid q = true -> prefix_string p = prefix_string q -> p = q;
  prefix_string_comma p : free ","%char (prefix_string p) = true;
  prefix_string_nonempty p : prefix_string p <> "";
}.

Module SampleText.
(** A text of prefixes with the properties of [netip.Prefix.String]. *)
Definition text (p : Prefix) : string :=
  match pAddr p with
  | AddrInvalid => "invalid"
  | Addr4 ip => "4." +:+ (Itoa ip +:+ String "/" (Itoa (pBits p)))
  | Addr6 ip _ => "6." +:+ (Itoa ip +:+ String "/" (Itoa (pBits p)))
  end.
#[export] Instance sample_text : PrefixText := {| prefix_string := text |}.

#[export] Instance sample_text_laws : PrefixTextLaws.
Proof.
  split.
  - intros [a b] [a' b'] Hv Hv' Heq. unfold prefix_string, text in Heq. simpl in Heq.
    assert (forall z, free "/" (Itoa z) = true) as Hfree by (intros z; by apply free_Itoa).
    destruct a as [|ip|ip z], a' as [|ip'|ip' z']; try done.
    + injection Heq as Heq. apply split_at in Heq as [H1 H2]; [|done|done].
      by rewrite (Itoa_inj _ _ H1), (Itoa_inj _ _ H2).
    + injection Heq as Heq. apply split_at in Heq as [H1 H2]; [|done|done].
      unfold Prefix_IsValid in *. simpl in *. apply andb_true_iff in Hv as [_ Hz]. apply andb_true_iff in Hv' as [_ Hz'].
      bools. by rewrite (Itoa_inj _ _ H1), (Itoa_inj _ _ H2), Hz, Hz'.
  - assert (forall ip b, free "," (Itoa ip +:+ String "/" (Itoa b)) = true) as Hfree.
    { intros ip b. rewrite free_app, free_Itoa by done. exact (free_Itoa "," b eq_refl ltac:(done)). }
    intros [[|ip|ip z] b]; [done|exact (Hfree ip b)|exact (Hfree ip b)].
  - intros [a b]. unfold prefix_string, text. simpl. by destruct a.
Qed.
End SampleText.
