(* ===== verification/BanSet.v ===== *)
(** * Firewall bans: internal/banset

    The wanted set of bans as the kernel can hold it, the nft script that installs
    it, and the level-triggered [Manager] that writes the firewall when the set
    changed.  The plane (nft) is a parameter: the answer to each [Apply] is an
    input.  The textual form of an address ([netip.Addr.String]) is a parameter
    too.  Instants are nanoseconds; a duration in seconds is taken exactly. *)
From Stdlib Require Import Ascii.
From S2P Require Import Prelude Decimal Netip.
Open Scope string_scope.
Open Scope Z_scope.

Record Entry := mkEntry { Source : Addr; Port : Z; Until : Z }.

(** The order of the sort in [liveSorted], as "not after". *)
Definition entry_le (a b : Entry) : Prop :=
  if decide (Source a = Source b) then
    if decide (Port a = Port b) then Until b <= Until a else Port a < Port b
  else addr_le (Source a) (Source b).

#[global] Instance entry_le_dec a b : Decision (entry_le a b).
Proof. unfold entry_le. repeat case_decide; apply _. Defined.

Definition same_ban (a b : Entry) : bool :=
  bool_decide (Source a = Source b) && (Port a =? Port b).

(** [slices.CompactFunc]: the first of every run of equal elements. *)
Fixpoint compact (l : list Entry) : list Entry :=
  match l with
  | [] => []
  | x :: rest =>
      match compact rest with
      | y :: ys => if same_ban x y then x :: ys else x :: y :: ys
      | [] => [x]
      end
  end.

Definition wanted (now : Z) (e : Entry) : bool :=
  IsValid (Source e) && negb (Port e =? 0) && (now <? Until e).

Definition bare (e : Entry) : Entry := mkEntry (WithoutZone (Unmap (Source e))) (Port e) (Until e).

Definition liveSorted (now : Z) (entries : list Entry) : list Entry :=
  compact (merge_sort entry_le (bare <$> filter (fun e => wanted now e = true) entries)).

(** ** The script *)

Definition Table : string := "p-ui-ipl".
Definition NL : string := String (Ascii.ascii_of_nat 10) "".
Definition TAB : string := String (Ascii.ascii_of_nat 9) "".

Definition teardown : string := "add table inet " +:+ Table +:+ NL +:+ "delete table inet " +:+ Table +:+ NL.

Fixpoint join (sep : string) (l : list string) : string :=
  match l with
  | [] => ""
  | [x] => x
  | x :: rest => x +:+ sep +:+ join sep rest
  end.

Definition writeSet (name addrType : string) (elements : list string) : string :=
  TAB +:+ "set " +:+ name +:+ " {" +:+ NL +:+ TAB +:+ TAB +:+ "type " +:+ addrType +:+
  " . inet_service" +:+ NL +:+ TAB +:+ TAB +:+ "flags timeout" +:+ NL +:+
  (if bool_decide (elements = []) then ""
   else TAB +:+ TAB +:+ "elements = { " +:+ join ", " elements +:+ " }" +:+ NL) +:+
  TAB +:+ "}" +:+ NL.

(** Whole seconds until the deadline, at least one. *)
Definition timeout_secs (now until : Z) : Z :=
  Z.max 1 (- ((- (until - now)) / Second)).

Section Manager.
Context (addr_string : Addr -> string).

Definition element (now : Z) (e : Entry) : string :=
  addr_string (Source e) +:+ " . " +:+ Itoa (Port e) +:+ " timeout " +:+
  Itoa (timeout_secs now (Until e)) +:+ "s".

Definition render (now : Z) (live : list Entry) : string :=
  let v4 := element now <$> filter (fun e => Is4 (Source e) = true) live in
  let v6 := element now <$> filter (fun e => Is4 (Source e) = false) live in
  teardown +:+ "table inet " +:+ Table +:+ " {" +:+ NL +:+
  writeSet "v4" "ipv4_addr" v4 +:+ writeSet "v6" "ipv6_addr" v6 +:+
  TAB +:+ "chain input {" +:+ NL +:+
  TAB +:+ TAB +:+ "type filter hook input priority -1; policy accept;" +:+ NL +:+
  TAB +:+ TAB +:+ "ip saddr . tcp dport @v4 drop" +:+ NL +:+
  TAB +:+ TAB +:+ "ip saddr . udp dport @v4 drop" +:+ NL +:+
  TAB +:+ TAB +:+ "ip6 saddr . tcp dport @v6 drop" +:+ NL +:+
  TAB +:+ TAB +:+ "ip6 saddr . udp dport @v6 drop" +:+ NL +:+
  TAB +:+ "}" +:+ NL +:+ "}" +:+ NL.

Definition Ruleset (now : Z) (entries : list Entry) : string := render now (liveSorted now entries).

Definition fingerprint_line (e : Entry) : string :=
  addr_string (Source e) +:+ "|" +:+ Itoa (Port e) +:+ "@" +:+ Itoa (Until e / Second) +:+ NL.

Fixpoint fingerprint (live : list Entry) : string :=
  match live with
  | [] => ""
  | e :: rest => fingerprint_line e +:+ fingerprint rest
  end.

Record Manager := mkManager { applied : string; primed : bool }.

Definition NewManager : Manager := mkManager "" false.

(** The script handed to the plane, if any; [apply] is the plane's answer to it. *)
Definition Converge (apply : result unit) (now : Z) (entries : list Entry) (m : Manager)
    : Manager * option string * result unit :=
  let live := liveSorted now entries in
  let want := fingerprint live in
  if primed m && bool_decide (want = applied m) then (m, None, Ok tt)
  else
    let script := if bool_decide (live = []) then teardown else render now live in
    match apply with
    | Fail e => (m, Some script, Fail e)
    | Ok _ => (mkManager want true, Some script, Ok tt)
    end.

End Manager.

(** ** The wanted set *)

#[global] Instance entry_le_trans : Transitive entry_le.
Proof.
  intros a b c. unfold entry_le.
  destruct (decide (Source a = Source b)) as [Hab|Hab], (decide (Source b = Source c)) as [Hbc|Hbc].
  - rewrite (decide_True (P := Source a = Source c)) by congruence. repeat case_decide; lia.
  - intros _ H. rewrite decide_False by congruence. by rewrite Hab.
  - intros H _. rewrite decide_False by congruence. by rewrite <-Hbc.
  - intros H1 H2. destruct (decide (Source a = Source c)) as [Hac|Hac]; [|by etrans].
    destruct Hab. rewrite Hac in *. by apply addr_le_antisym.
Qed.

#[global] Instance entry_le_total : Total entry_le.
Proof.
  intros a b. unfold entry_le.
  destruct (decide (Source a = Source b)) as [Hs|Hs].
  - rewrite (decide_True (P := Source b = Source a)) by done. repeat case_decide; lia.
  - rewrite (decide_False (P := Source b = Source a)) by done. apply addr_le_total.
Qed.

Definition key (e : Entry) : Addr * Z := (Source e, Port e).

Lemma same_ban_key a b : same_ban a b = true <-> key a = key b.
Proof.
  unfold same_ban, key. rewrite andb_true_iff, bool_decide_eq_true, Z.eqb_eq.
  split; [by intros [-> ->]|by intros [= -> ->]].
Qed.

(** Equal keys stand together, the latest deadline first. *)
Lemma between x y z : entry_le x y -> entry_le y z -> key x = key z -> key x = key y.
Proof.
  unfold key, entry_le. intros Hxy Hyz [= Hs Hp]. destruct (decide (Source x = Source y)) as [E|E].
  - rewrite (decide_True (P := Source y = Source z)) in Hyz by congruence.
    rewrite E. f_equal. repeat case_decide; lia.
  - rewrite (decide_False (P := Source y = Source z)) in Hyz by congruence.
    destruct E. apply addr_le_antisym; [done|by rewrite Hs].
Qed.

Lemma entry_le_until x y : entry_le x y -> key x = key y -> Until y <= Until x.
Proof.
  unfold key, entry_le. intros Hle [= Hs Hp]. by rewrite decide_True, decide_True in Hle by done.
Qed.

Lemma compact_head x l : exists rest, compact (x :: l) = x :: rest.
Proof. simpl. destruct (compact l) as [|y ys]; [eauto|]. split_guard; eauto. Qed.

Lemma compact_in l x : x ∈ compact l -> x ∈ l.
Proof.
  revert x. induction l as [|a l IH]; intros x; simpl; [done|].
  destruct (compact l) as [|y ys]; [set_solver|]. split_guard; set_solver.
Qed.

Lemma compact_covers l : StronglySorted entry_le l ->
  forall x, x ∈ l -> exists y, y ∈ compact l /\ key y = key x /\ Until x <= Until y.
Proof.
  induction 1 as [|a l Hs IH Ha]; intros x; [set_solver|]. rewrite Forall_forall in Ha.
  destruct (compact_head a l) as [rest Hc]. intros [->|Hx]%elem_of_cons.
  { exists a. rewrite Hc. split_and!; [left|done|lia]. }
  destruct (IH x Hx) as (y & Hy & Hk & Hu). simpl. destruct (compact l) as [|y0 ys] eqn:Hl; [set_solver|].
  destruct (same_ban a y0) eqn:Hsb; [|exists y; split; [set_solver|done]].
  apply elem_of_cons in Hy as [->|Hy]; [|exists y; split; [set_solver|done]].
  apply same_ban_key in Hsb. exists a. split_and!; [left|congruence|].
  assert (y0 ∈ l) as Hin by (apply compact_in; rewrite Hl; left).
  pose proof (entry_le_until a y0 (Ha _ Hin) Hsb). lia.
Qed.

Lemma compact_nodup l : StronglySorted entry_le l -> NoDup (key <$> compact l).
Proof.
  induction 1 as [|a l Hs IH Ha]; [constructor|]. rewrite Forall_forall in Ha. simpl.
  destruct l as [|b l]; [apply NoDup_singleton|].
  destruct (compact_head b l) as [rest Hc]. rewrite Hc in *.
  assert (same_ban a b = false -> key a ∉ key <$> b :: rest) as Hnot.
  { intros Hsb Hin. apply list_elem_of_fmap in Hin as (z & Hk & Hz).
    assert (z ∈ b :: l) as Hzl by (apply compact_in; by rewrite Hc).
    assert (key a = key b) as Hab.
    { apply elem_of_cons in Hzl as [->|Hzl]; [done|].
      apply (between a b z); [apply Ha; left| |done].
      apply StronglySorted_inv in Hs as [_ Hb]. rewrite Forall_forall in Hb. auto. }
    apply same_ban_key in Hab. congruence. }
  destruct (same_ban a b) eqn:Hsb; [|rewrite fmap_cons; apply NoDup_cons; auto].
  apply same_ban_key in Hsb. rewrite fmap_cons in IH |- *. by rewrite Hsb.
Qed.

(** The set handed to the kernel holds every wanted ban exactly once: one
    element per bare source and port among the entries that name a valid source and
    port and have not expired, carrying the latest of their deadlines, and nothing
    else. *)
Theorem live_set_is_exact (now : Z) (entries : list Entry) :
  NoDup (key <$> liveSorted now entries) /\
  (forall e, e ∈ liveSorted now entries ->
     now < Until e /\ exists f, f ∈ entries /\ wanted now f = true /\ e = bare f) /\
  (forall f, f ∈ entries -> wanted now f = true ->
     exists e, e ∈ liveSorted now entries /\ key e = key (bare f) /\ Until f <= Until e).
Proof.
  unfold liveSorted. set (l := bare <$> filter (fun e => wanted now e = true) entries).
  assert (StronglySorted entry_le (merge_sort entry_le l)) as Hs by apply (StronglySorted_merge_sort _).
  assert (forall e, e ∈ merge_sort entry_le l <->
    exists f, f ∈ entries /\ wanted now f = true /\ e = bare f) as Hin.
  { intros e. rewrite merge_sort_Permutation. unfold l. rewrite list_elem_of_fmap. split.
    - intros (f & -> & [Hw Hf]%list_elem_of_filter). eauto.
    - intros (f & Hf & Hw & ->). exists f. split; [done|]. by apply list_elem_of_filter. }
  split_and!.
  - by apply compact_nodup.
  - intros e He. apply compact_in, Hin in He as (f & Hf & Hw & ->). split; [|eauto].
    unfold wanted in Hw. bools. done.
  - intros f Hf Hw. destruct (compact_covers _ Hs (bare f)) as (e & He & Hk & Hu); [apply Hin; eauto|].
    eauto.
Qed.

(** ** Convergence *)

Section Convergence.
Context (addr_string : Addr -> string).

(** [netip.Addr.String]: different addresses print differently, and one without a zone
    never with a bar. *)
Context (addr_string_inj : forall a b, addr_string a = addr_string b -> a = b).
Context (addr_string_bar : forall a, WithoutZone a = a -> free "|"%char (addr_string a) = true).

(** What the fingerprint is of. *)
Definition wants (e : Entry) : Addr * Z * Z := (Source e, Port e, Until e / Second).

Lemma app_assoc_string (s t u : string) : (s +:+ t) +:+ u = s +:+ (t +:+ u).
Proof. induction s as [|c s IH]; [done|]. change (String c ((s +:+ t) +:+ u) = String c (s +:+ (t +:+ u))). by rewrite IH. Qed.

Lemma fingerprint_cons e rest :
  fingerprint addr_string (e :: rest) =
    addr_string (Source e) +:+ String "|" (Itoa (Port e) +:+ String "@"
      (Itoa (Until e / Second) +:+ String (Ascii.ascii_of_nat 10) (fingerprint addr_string rest))).
Proof.
  cbn [fingerprint]. unfold fingerprint_line, NL. rewrite ?app_assoc_string. simpl.
  by rewrite ?app_assoc_string.
Qed.

Lemma fingerprint_nonempty e rest : fingerprint addr_string (e :: rest) <> "".
Proof. rewrite fingerprint_cons. by destruct (addr_string (Source e)). Qed.

(** The sources of a live set have no zone. *)
Definition unzoned (l : list Entry) : Prop := Forall (fun e => WithoutZone (Source e) = Source e) l.
Lemma live_unzoned now entries : unzoned (liveSorted now entries).
Proof.
  apply Forall_forall. intros e He. destruct (live_set_is_exact now entries) as (_ & H & _). destruct (H e He) as (_ & f & _ & _ & ->). cbn. by destruct (Unmap (Source f)).
Qed.

(** Equal fingerprints are equal wants, up to the second. *)
Lemma fingerprint_inj l : forall l', unzoned l -> unzoned l' ->
  fingerprint addr_string l = fingerprint addr_string l' -> wants <$> l = wants <$> l'.
Proof.
  induction l as [|e l IH]; intros [|e' l'] Hz Hz' Heq; [done| | |].
  - symmetry in Heq. by apply fingerprint_nonempty in Heq.
  - by apply fingerprint_nonempty in Heq.
  - apply Forall_cons in Hz as [He Hz], Hz' as [He' Hz']. rewrite !fingerprint_cons in Heq. apply split_at in Heq as [Ha Heq]; [|by apply addr_string_bar..].
    apply split_at in Heq as [Hp Heq]; [|by apply free_Itoa..].
    apply split_at in Heq as [Hu Heq]; [|by apply free_Itoa..].
    apply addr_string_inj in Ha. apply Itoa_inj in Hp. apply Itoa_inj in Hu.
    rewrite !fmap_cons, (IH l' Hz Hz' Heq). f_equal. unfold wants. by rewrite Ha, Hp, Hu.
Qed.

(** [installed] is the live set of the last script the plane accepted; its sources are
    bare, as those of every live set. *)
Definition reflects (m : Manager) (installed : option (list Entry)) : Prop :=
  match installed with
  | Some live => primed m = true /\ applied m = fingerprint addr_string live /\ unzoned live
  | None => primed m = false
  end.

(** C40: a converged firewall is the wanted one: whenever [Converge] reports success,
    the last script the plane accepted was made of exactly the sources, ports and
    deadlines (to the second) wanted now, whether it wrote now or found nothing to
    do; a write that failed is not recorded, so the next pass writes again; and an
    empty want still clears the table. *)
Theorem converge_installs_the_want (apply : result unit) (now : Z) (entries : list Entry)
    (m m' : Manager) (installed : option (list Entry)) (script : option string) (r : result unit) :
  reflects m installed ->
  Converge addr_string apply now entries m = (m', script, r) ->
  let live := liveSorted now entries in
  let installed' := if is_ok r then
      match script with Some _ => Some live | None => installed end else installed in
  reflects m' installed' /\
  (is_ok r = true -> exists held, installed' = Some held /\ wants <$> held = wants <$> live) /\
  (is_ok r = false -> m' = m) /\
  (forall text, script = Some text ->
     text = if bool_decide (live = []) then teardown else render addr_string now live).
Proof.
  intros Hm Hc live installed'. unfold Converge in Hc. cbv zeta in Hc. fold live in Hc.
  destruct (primed m && bool_decide (fingerprint addr_string live = applied m)) eqn:Hg.
  - injection Hc as <- <- <-. bools. unfold installed'. simpl.
    split; [exact Hm|]. split_and!; [|done|done]. intros _. destruct installed as [h|]; simpl in Hm; [|congruence]. destruct Hm as (_ & Ha & Hz).
    exists h. split; [done|]. apply fingerprint_inj; [done|apply live_unzoned|congruence].
  - destruct apply as [[]|e]; injection Hc as <- <- <-; unfold installed'; simpl.
    + split; [split_and!; [done|done|apply live_unzoned]|]. split_and!; [eauto|done|]. by intros text [= <-].
    + split; [exact Hm|]. split_and!; [done|done|]. by intros text [= <-].
Qed.

End Convergence.

(** ** Witness *)

(** A textual form that satisfies what is assumed of addresses. *)
Definition sample_text (a : Addr) : string :=
  match a with
  | AddrInvalid => "invalid"
  | Addr4 ip => "4." +:+ Itoa ip
  | Addr6 ip zone => "6." +:+ Itoa ip +:+ "%" +:+ Itoa (Zpos (encode zone))
  end.

Lemma sample_text_inj a b : sample_text a = sample_text b -> a = b.
Proof.
  destruct a as [|x|x zx], b as [|y|y zy]; simpl; try done; intros [= Heq].
  - by apply Itoa_inj in Heq as ->.
  - apply split_at in Heq as [H1 H2]; [|by apply free_Itoa..].
    apply Itoa_inj in H1 as ->. apply Itoa_inj in H2. injection H2 as H2.
    by apply (inj encode) in H2 as ->.
Qed.

Lemma sample_text_bar a : WithoutZone a = a -> free "|"%char (sample_text a) = true.
Proof.
  intros _. destruct a as [|x|x z]; unfold sample_text; [done| |]; rewrite ?free_app, ?free_Itoa by done; done.
Qed.

Definition sample_bans : list Entry := [mkEntry (Addr4 7) 443 9000000000; mkEntry (Addr4 7) 443 5000000000].

Lemma converge_installs_the_want_witness :
  exists held, wants <$> held = wants <$> liveSorted 0 sample_bans.
Proof.
  destruct (Converge sample_text (Ok tt) 0 sample_bans NewManager) as [[m' script] r] eqn:Hc.
  destruct (converge_installs_the_want sample_text sample_text_inj sample_text_bar (Ok tt) 0
    sample_bans NewManager m' None script r eq_refl Hc) as (_ & H & _).
  destruct H as (held & _ & Hw); [|exact (ex_intro _ held Hw)].
  unfold Converge in Hc. simpl in Hc. by injection Hc as _ _ <-.
Defined.
