(* ===== verification/Egress.v ===== *)
(** * Egress allocation: internal/egress/alloc.go

    Every kernel object of an egress is a function of its id: routing table, rule
    priority, device names, fwmark and gateway address.  The reverse readings
    decide what on the host belongs to the panel. *)
From stdpp Require Import pretty.
From S2P Require Import Prelude Decimal Netip.
Open Scope string_scope.
Open Scope Z_scope.

Definition MinID : Z := 1.
Definition MaxID : Z := 999.
Definition tableBase : Z := 30000.
Definition prioBase : Z := 31000.
Definition devicePrefix : string := "peg".
Definition uplinkPrefix : string := "pux".
Definition awgUplinkPrefix : string := "paux".
Definition markBase : Z := 234881024. (* 0x0e000000 *)

Definition ErrIDOutOfRange : error := ErrorText "egress id out of range".
Definition ErrGatewayBase : error := ErrorText "invalid egress gateway base".

Definition ValidID (id : Z) : bool := (MinID <=? id) && (id <=? MaxID).

Definition checkID (id : Z) : result unit := if ValidID id then Ok tt else Fail ErrIDOutOfRange.

Definition Table (id : Z) : Z := tableBase + id.
Definition Prio (id : Z) : Z := prioBase + id.
Definition Device (id : Z) : string := devicePrefix +:+ Itoa id.
Definition Uplink (id : Z) : string := uplinkPrefix +:+ Itoa id.
Definition Mark (id : Z) : Z := Z.lor markBase (id mod 4294967296).

(** An id read back under a prefix: the name must rebuild exactly. *)
Definition named_id (prefix name : string) : option Z :=
  match CutPrefix name prefix with
  | None => None
  | Some rest =>
      match Atoi rest with
      | Some id => if negb (ValidID id) || bool_decide (prefix +:+ Itoa id <> name) then None else Some id
      | None => None
      end
  end.

Definition ownedUplinkID (name : string) : option Z :=
  match named_id uplinkPrefix name with
  | Some id => Some id
  | None => named_id awgUplinkPrefix name
  end.

Definition ownedEgressID (name : string) : option Z := named_id devicePrefix name.

Definition NamesAFront (name : string) : bool := bool_decide (is_Some (ownedEgressID name)).

Definition tableEgressID (table : Z) : Z * bool :=
  let id := table - tableBase in (id, ValidID id).
Definition prioEgressID (prio : Z) : Z * bool :=
  let id := prio - prioBase in (id, ValidID id).

(** The loop of [offsetAddr], least significant byte first: the bytes and the
    carry left. *)
Fixpoint add_carry (bytes : list Z) (carry : Z) : list Z * Z :=
  match bytes with
  | [] => ([], carry)
  | b :: rest =>
      if carry =? 0 then (bytes, 0)
      else
        let sum := add64 carry b in
        let '(rest', out) := add_carry rest (Z.shiftr sum 8) in
        (sum mod 256 :: rest', out)
  end.

Definition offsetAddr (addr : Addr) (n : Z) : option Addr :=
  if negb (IsValid addr) || (n <? 0) then None
  else
    let '(bytes, carry) := add_carry (As16 addr) (u64 n) in
    if 0 <? carry then None
    else
      let out := AddrFrom16 bytes in
      if Is4 addr then
        let out := Unmap out in
        if negb (Is4 out) then None else Some out
      else Some out.

Definition Gateway (base : Prefix) (id : Z) : result Prefix :=
  _ ← checkID id;
  if negb (Prefix_IsValid base) then Fail ErrGatewayBase
  else
    match offsetAddr (pAddr (Masked base)) id with
    | Some addr =>
        if Contains base addr then Ok (mkPrefix addr (BitLen addr)) else Fail ErrGatewayBase
    | None => Fail ErrGatewayBase
    end.

Definition CheckGatewayBase (base : Prefix) : result unit :=
  match Gateway base MaxID with Ok _ => Ok tt | Fail e => Fail e end.

(** ** Names *)

Lemma ValidID_i64 id : ValidID id = true -> is_i64 id.
Proof. unfold ValidID, MinID, MaxID. intros H. bools. machine. Qed.

Lemma named_id_spec prefix name id :
  named_id prefix name = Some id <-> ValidID id = true /\ name = prefix +:+ Itoa id.
Proof.
  unfold named_id. destruct (CutPrefix name prefix) as [rest|] eqn:Hc.
  - apply CutPrefix_spec in Hc. destruct (Atoi rest) as [z|] eqn:Ha.
    + split_guard.
      * split; [done|]. intros [Hv Hn]. exfalso.
        assert (rest = Itoa id) as -> by (apply (inj (String.append prefix)); congruence).
        rewrite Atoi_Itoa in Ha by (by apply ValidID_i64). simplify_eq.
        destruct G as [G|G]; [congruence|done].
      * destruct_and!. split.
        -- intros [= <-]. split; [done|]. symmetry. by apply dec_stable.
        -- intros [Hv Hn]. f_equal.
           assert (rest = Itoa id) as -> by (apply (inj (String.append prefix)); congruence).
           rewrite Atoi_Itoa in Ha by (by apply ValidID_i64). by simplify_eq.
    + split; [done|]. intros [Hv Hn].
      assert (rest = Itoa id) as -> by (apply (inj (String.append prefix)); congruence).
      by rewrite Atoi_Itoa in Ha by (by apply ValidID_i64).
  - split; [done|]. intros [_ Hn]. apply CutPrefix_spec in Hn. congruence.
Qed.

(** The low bits of the mark are the id: checked for the whole band. *)
Lemma mark_sum id : MinID <= id <= MaxID -> Mark id = markBase + id.
Proof.
  intros Hi. assert (Forall (fun i => Mark i = markBase + i) (seqZ 1 999)) as Hall
    by (apply (bool_decide_unpack _); vm_compute; exact I).
  rewrite Forall_forall in Hall. apply Hall. apply elem_of_seqZ. unfold MinID, MaxID in Hi. lia.
Qed.

(** What an egress derives from its id is its own and reads back to it: a device
    or uplink name is recognised exactly when it is the name of a valid id (a near
    miss such as a leading zero is somebody else's), a table or priority number in
    the band gives back its id, no table number is also a rule priority, and marks of
    different egresses differ and stay inside the reserved byte. *)
Theorem egress_names_round_trip (id id' table : Z) (name : string) :
  (ownedEgressID name = Some id <-> ValidID id = true /\ name = Device id) /\
  (ownedUplinkID name = Some id <->
     ValidID id = true /\ (name = Uplink id \/ name = awgUplinkPrefix +:+ Itoa id)) /\
  (tableEgressID table = (id, true) <-> ValidID id = true /\ table = Table id) /\
  (prioEgressID table = (id, true) <-> ValidID id = true /\ table = Prio id) /\
  (ValidID id = true -> ValidID id' = true ->
     Table id <> Prio id' /\ (Mark id = Mark id' -> id = id') /\
     Z.shiftr (Mark id) 24 = Z.shiftr markBase 24).
Proof.
  split_and!.
  - apply named_id_spec.
  - unfold ownedUplinkID.
    pose proof (named_id_spec uplinkPrefix name) as H1.
    pose proof (named_id_spec awgUplinkPrefix name) as H2.
    destruct (named_id uplinkPrefix name) as [z|] eqn:Hz.
    + destruct (proj1 (H1 z) eq_refl) as [Hv Hn]. split.
      * intros [= <-]. auto.
      * intros [Hv' [Hn'|Hn']].
        -- apply (H1 id). auto.
        -- rewrite Hn in Hn'. unfold uplinkPrefix, awgUplinkPrefix in Hn'. discriminate.
    + rewrite H2. split; [tauto|]. intros [Hv' [Hn'|Hn']]; [|auto]. exfalso.
      assert (None = Some id) as He by (by apply H1). done.
  - unfold tableEgressID, Table. split; [intros [= <- H]; split; [done|lia]|].
    intros [Hv ->]. replace (tableBase + id - tableBase) with id by lia. by rewrite Hv.
  - unfold prioEgressID, Prio. split; [intros [= <- H]; split; [done|lia]|].
    intros [Hv ->]. replace (prioBase + id - prioBase) with id by lia. by rewrite Hv.
  - intros Hv Hv'. unfold ValidID in *. bools.
    unfold Table, Prio, tableBase, prioBase. split_and!; [unfold MinID, MaxID in *; lia|rewrite !mark_sum by lia; lia|].
    rewrite mark_sum by lia. rewrite !Z.shiftr_div_pow2 by lia. unfold markBase.
    unfold MinID, MaxID in *. symmetry.
    change (234881024 / 2 ^ 24) with 14. apply Z.div_unique with (r := id); lia.
Qed.

(** ** Gateways *)

Lemma add_carry_spec l : forall carry,
  Forall (fun b => 0 <= b < 256) l -> 0 <= carry < 2 ^ 56 ->
  let '(l', out) := add_carry l carry in
  length l' = length l /\ Forall (fun b => 0 <= b < 256) l' /\ 0 <= out /\
  le_value l' + 256 ^ Z.of_nat (length l) * out = le_value l + carry.
Proof.
  induction l as [|b l IH]; intros carry Hl Hc; [simpl; split_and!; auto; lia|].
  apply Forall_cons in Hl as [Hb Hl]. cbn [add_carry].
  destruct (carry =? 0) eqn:Hz; bools.
  { split_and!; [done|by constructor|lia|lia]. }
  rewrite add64_small by (unfold is_u64, MaxUint64; lia).
  rewrite Z.shiftr_div_pow2 by lia. change (2 ^ 8) with 256.
  assert (0 <= (carry + b) / 256 < 2 ^ 56) as Hq.
  { split; [apply Z.div_pos; lia|]. apply Z.div_lt_upper_bound; lia. }
  specialize (IH ((carry + b) / 256) Hl Hq). destruct (add_carry l ((carry + b) / 256)) as [l' out].
  destruct IH as (IH1 & IH2 & IH3 & IH4).
  pose proof (Z.mod_pos_bound (carry + b) 256). pose proof (Z.div_mod (carry + b) 256).
  cbn [length le_value]. rewrite Nat2Z.inj_succ, Z.pow_succ_r by lia.
  split_and!; [by rewrite IH1|constructor; [lia|done]|done|lia].
Qed.

Lemma le_value_range l :
  Forall (fun b => 0 <= b < 256) l -> 0 <= le_value l < 256 ^ Z.of_nat (length l).
Proof.
  induction 1 as [|b l Hb Hl IH]; [simpl; lia|]. cbn [le_value length].
  rewrite Nat2Z.inj_succ, Z.pow_succ_r by lia. lia.
Qed.

(** [offsetAddr] adds, within the family, and reports the overflow. *)
Lemma offsetAddr_spec a n :
  addr_ok a -> IsValid a = true -> 0 <= n < 2 ^ 56 ->
  offsetAddr a n =
    if addr_value a + n <? 2 ^ BitLen a then
      Some (match a with Addr4 ip => Addr4 (ip + n) | _ => Addr6 (addr_value a + n) "" end)
    else None.
Proof.
  intros Ha Hv Hn. unfold offsetAddr. rewrite Hv, (proj2 (Z.ltb_ge n 0)) by lia. cbn [negb orb].
  rewrite u64_small by (unfold is_u64, MaxUint64; lia).
  set (v := match a with Addr4 ip => v4_mapped + ip | _ => addr_value a end).
  assert (256 ^ Z.of_nat 16 = 2 ^ 128) as Hpow by (vm_compute; reflexivity).
  assert (2 ^ 128 = 340282366920938463463374607431768211456) as H128 by (vm_compute; reflexivity).
  assert (2 ^ 32 = 4294967296) as H32 by (vm_compute; reflexivity).
  assert (0 <= v < 2 ^ 128) as Hvr.
  { unfold v, addr_ok, v4_mapped in *. destruct a; simpl in *; [done|lia|lia]. }
  pose proof (add_carry_spec (As16 a) n (le_bytes_range 16 _) Hn) as Hc.
  unfold As16 in *. fold v in Hc |- *. destruct (add_carry (le_bytes 16 v) n) as [l out].
  rewrite le_value_bytes, le_bytes_length, Hpow in Hc by (by rewrite Hpow).
  destruct Hc as (Hlen & Hb & Hout & Hsum). apply le_value_range in Hb. rewrite Hlen, Hpow in Hb.
  rewrite H128 in *. unfold addr_ok in Ha.
  destruct a as [|ip|ip zone]; [done| |]; cbn [addr_value BitLen Is4] in *; unfold v in *.
  - unfold v4_mapped in *. rewrite H32 in *. assert (out = 0) as -> by lia.
    rewrite Z.ltb_irrefl. rewrite Z.mul_0_r, Z.add_0_r in Hsum. unfold AddrFrom16, Unmap. rewrite Hsum.
    unfold v4_mapped. destruct (ip + n <? 4294967296) eqn:Hlt; bools.
    + rewrite bool_decide_eq_true_2 by lia. simpl. do 2 f_equal. lia.
    + by rewrite bool_decide_eq_false_2 by lia.
  - rewrite H128 in *. destruct (0 <? out) eqn:Ho; bools.
    + by rewrite (proj2 (Z.ltb_ge _ _)) by lia.
    + assert (out = 0) as -> by lia. rewrite Z.mul_0_r, Z.add_0_r in Hsum.
      rewrite (proj2 (Z.ltb_lt _ _)) by lia. unfold AddrFrom16. by rewrite Hsum.
Qed.

Lemma network_spec bits len v :
  0 <= bits <= len -> 0 <= v -> 
  0 <= network bits len v <= v /\ (exists q, network bits len v = q * 2 ^ (len - bits)).
Proof.
  intros Hb Hv. unfold network. pose proof (Z.pow_pos_nonneg 2 (len - bits)).
  pose proof (Z.mod_pos_bound v (2 ^ (len - bits))). pose proof (Z.div_mod v (2 ^ (len - bits))).
  pose proof (Z.mod_le v (2 ^ (len - bits))).
  split; [lia|]. exists (v / 2 ^ (len - bits)). lia.
Qed.

(** A network holds the values less than its size past its first. *)
Lemma network_offset bits len v n :
  0 <= bits <= len -> 0 <= v -> 0 <= n ->
  network bits len (network bits len v + n) = network bits len v <-> n < 2 ^ (len - bits).
Proof.
  intros Hb Hv Hn. destruct (network_spec bits len v Hb Hv) as [_ [q Hq]].
  pose proof (Z.pow_pos_nonneg 2 (len - bits) ltac:(lia) ltac:(lia)) as Hp.
  rewrite Hq. unfold network. set (s := 2 ^ (len - bits)) in *.
  replace ((q * s + n) mod s) with (n mod s) by (rewrite Z.add_comm, Z.mod_add; lia).
  pose proof (Z.mod_pos_bound n s). split; intros H1; [lia|]. rewrite Z.mod_small by lia. lia.
Qed.

Definition base_ok (base : Prefix) : Prop := Prefix_IsValid base = true /\ addr_ok (pAddr base).

(** How many addresses the base leaves for hosts. *)
Definition room (base : Prefix) : Z := 2 ^ (BitLen (pAddr base) - pBits base).

(** An offset inside the network stays inside the family. *)
Lemma network_fits bits len v n :
  0 <= bits <= len -> 0 <= v < 2 ^ len -> 0 <= n < 2 ^ (len - bits) ->
  network bits len v + n < 2 ^ len.
Proof.
  intros Hb Hv Hn. unfold network. assert (2 ^ len = 2 ^ bits * 2 ^ (len - bits)) as Hs.
  { rewrite <- Z.pow_add_r by lia. f_equal. lia. }
  rewrite Hs in Hv |- *. set (s := 2 ^ (len - bits)) in *.
  assert (v / s < 2 ^ bits) by (apply Z.div_lt_upper_bound; lia).
  pose proof (Z.div_mod v s). nia.
Qed.

(** The address of the host [id] of a base. *)
Definition host (base : Prefix) (id : Z) : Addr :=
  match pAddr base with
  | Addr4 ip => Addr4 (network (pBits base) 32 ip + id)
  | a => Addr6 (network (pBits base) 128 (addr_value a) + id) ""
  end.

(** [Gateway] in one line: the first address of the base plus the id, if it fits. *)
Lemma Gateway_spec base id :
  base_ok base ->
  Gateway base id =
    if negb (ValidID id) then Fail ErrIDOutOfRange
    else if id <? room base then Ok (mkPrefix (host base id) (BitLen (pAddr base)))
    else Fail ErrGatewayBase.
Proof.
  intros [Hv Ha]. unfold Gateway, checkID. destruct (ValidID id) eqn:Hid; [|done].
  cbn [mbind result_bind negb]. rewrite Hv. cbn [negb]. unfold Masked. rewrite Hv. cbn [negb pAddr].
  assert (1 <= id <= 999) as Hr by (unfold ValidID, MinID, MaxID in Hid; bools; lia).
  pose proof Hv as Hv'. unfold Prefix_IsValid in Hv'. bools.
  unfold room, host, addr_ok in *. destruct (pAddr base) as [|ip|ip zone] eqn:Hp; [done| |];
    cbn [BitLen addr_value] in *.
  - pose proof (network_spec (pBits base) 32 ip ltac:(lia) ltac:(lia)) as [Hn _].
    rewrite offsetAddr_spec; [|unfold addr_ok; cbn [addr_value BitLen]; lia|done|lia].
    cbn [addr_value BitLen]. pose proof (network_offset (pBits base) 32 ip id ltac:(lia) ltac:(lia) ltac:(lia)) as Hoff.
    destruct (id <? 2 ^ (32 - pBits base)) eqn:Hlt; bools.
    + rewrite (proj2 (Z.ltb_lt _ _)) by (apply network_fits; lia). unfold Contains. rewrite Hv, Hp.
      rewrite (proj2 Hoff) by done. by rewrite Z.eqb_refl.
    + destruct (_ <? 2 ^ 32); [|done]. unfold Contains. rewrite Hv, Hp. cbn [andb].
      rewrite (proj2 (Z.eqb_neq _ _)); [done|]. intros Heq. symmetry in Heq. apply Hoff in Heq. lia.
  - pose proof (network_spec (pBits base) 128 ip ltac:(lia) ltac:(lia)) as [Hn _].
    rewrite offsetAddr_spec; [|unfold addr_ok; cbn [addr_value BitLen]; lia|done|lia].
    cbn [addr_value BitLen]. pose proof (network_offset (pBits base) 128 ip id ltac:(lia) ltac:(lia) ltac:(lia)) as Hoff.
    destruct (id <? 2 ^ (128 - pBits base)) eqn:Hlt; bools.
    + rewrite (proj2 (Z.ltb_lt _ _)) by (apply network_fits; lia). unfold Contains. rewrite Hv, Hp.
      rewrite (proj2 Hoff) by done. rewrite Z.eqb_refl, bool_decide_eq_true_2 by done. done.
    + destruct (_ <? 2 ^ 128); [|done]. unfold Contains. rewrite Hv, Hp. cbn [andb].
      rewrite (proj2 (Z.eqb_neq _ _)); [by rewrite andb_false_r|].
      intros Heq. symmetry in Heq. apply Hoff in Heq. lia.
Qed.

(** The base the panel ships: 100.127.0.0/16. *)
Definition DefaultGatewayBase : Prefix := mkPrefix (Addr4 1686044672) 16.

(** A gateway address is the base's network address plus the egress id and lies
    inside the base as a host prefix; two egresses never share one; and a base that
    [CheckGatewayBase] accepts has a gateway for every id of the band, while one it
    refuses is short of the last id. *)
Theorem gateways_are_distinct (base : Prefix) (id : Z) (g : Prefix) :
  base_ok base -> Gateway base id = Ok g ->
  ValidID id = true /\ Contains base (pAddr g) = true /\ pBits g = BitLen (pAddr base) /\
  addr_value (pAddr g) = addr_value (pAddr (Masked base)) + id /\
  (forall id', Gateway base id' = Ok g -> id' = id) /\
  (CheckGatewayBase base = Ok tt ->
     forall id', ValidID id' = true -> exists g', Gateway base id' = Ok g') /\
  (CheckGatewayBase base <> Ok tt -> room base <= MaxID).
Proof.
  intros Hok Hg. pose proof (Gateway_spec base) as Hspec.
  assert (Contains base (pAddr g) = true) as Hin.
  { revert Hg. unfold Gateway. destruct (checkID id) as [u|]; [|done]. cbn [mbind result_bind].
    destruct (negb _); [done|]. destruct (offsetAddr _ _) as [addr|]; [|done].
    destruct (Contains base addr) eqn:Hc; [|done]. by intros [= <-]. }
  pose proof Hg as Hg'. rewrite Hspec in Hg' by done. destruct (ValidID id) eqn:Hid; [|done].
  cbn [negb] in Hg'. destruct (id <? room base) eqn:Hr; [|done]. injection Hg' as <-.
  split_and!; try done.
  - destruct Hok as [Hv _]. unfold Masked, host. rewrite Hv. cbn [negb pAddr].
    pose proof Hv as Hv'. unfold Prefix_IsValid in Hv'. by destruct (pAddr base).
  - intros id' Hid'. rewrite Hspec in Hid' by done.
    destruct (negb (ValidID id')); [done|]. destruct (id' <? room base); [|done].
    injection Hid' as He. unfold host in He. destruct (pAddr base); injection He; lia.
  - unfold CheckGatewayBase. rewrite Hspec by done. change (ValidID MaxID) with true. cbn [negb].
    destruct (MaxID <? room base) eqn:Hm; [|done]. intros _ id' Hid'. rewrite Hspec, Hid' by done.
    unfold ValidID in Hid'. bools. cbn [negb]. rewrite (proj2 (Z.ltb_lt _ _)) by lia. eauto.
  - unfold CheckGatewayBase. rewrite Hspec by done. change (ValidID MaxID) with true. cbn [negb].
    destruct (MaxID <? room base) eqn:Hm; [done|]. bools. lia.
Qed.

Lemma gateways_are_distinct_witness :
  pAddr (mkPrefix (Addr4 1686044679) 32) = Addr4 (1686044672 + 7) /\
  Contains DefaultGatewayBase (Addr4 1686044679) = true.
Proof.
  split; [reflexivity|].
  assert (base_ok DefaultGatewayBase) as Hok by (split; [reflexivity|vm_compute; split; [discriminate|reflexivity]]).
  exact (proj1 (proj2 (gateways_are_distinct DefaultGatewayBase 7 (mkPrefix (Addr4 1686044679) 32) Hok
           ltac:(vm_compute; reflexivity)))).
Defined.

Lemma egress_names_round_trip_witness : ownedEgressID "peg7" = Some 7.
Proof. apply (egress_names_round_trip 7 7 0 "peg7"). split; reflexivity. Defined.
