(* ===== verification/EgressPlane.v ===== *)
(** * Egress: the host routing stack

    internal/egress/plane.go, errors.go, driver.go and egtest/kernel.go: the policy rules
    and routes the manager reads and writes, the interface it uses them through
    ([Plane]), the drivers that say what fills an egress's table, and the in-memory stack
    the repository drives the manager with, whose answers are the ones measured on a
    kernel.  Errors are identified by the sentinel they wrap; the texts of objects, the
    lock, the count of reads and the accessors of the tests are left out. *)
From stdpp Require Import pretty.
From S2P Require Import Prelude Decimal Netip Egress.
Open Scope string_scope.
Open Scope Z_scope.
Open Scope list_scope.

(** ** Errors *)

Definition ErrNoDevice : error := ErrorText "egress: the front device is gone".
Definition ErrFamilyDisabled : error :=
  ErrorText "egress: the address family is disabled on the front device".
Definition ErrNotRouted : error := ErrorText "egress: no rule catches this egress's mark".
Definition ErrUnknownDriver : error := ErrorText "egress: no driver is registered for this type".
Definition ErrDuplicateDriver : error :=
  ErrorText "egress: a driver is already registered for this type".
Definition ErrForeignResource : error :=
  ErrorText "egress: an object in the reserved band belongs to somebody else".
Definition ErrStrictRPFilter : error :=
  ErrorText "egress: strict reverse-path filtering kills the front's return path".
Definition ErrAlreadyInstalled : error := ErrorText "egress: the object is already installed".
Definition ErrNotInstalled : error := ErrorText "egress: the object is not installed".

(** ** Objects *)

Inductive Family := FamilyV4 | FamilyV6.
Definition Families : list Family := [FamilyV4; FamilyV6].

Definition DefaultRoute (f : Family) : Prefix :=
  match f with FamilyV6 => mkPrefix (Addr6 0 "") 0 | FamilyV4 => mkPrefix (Addr4 0) 0 end.

(** The zero [netip.Prefix]: no source. *)
Definition NoPrefix : Prefix := mkPrefix AddrInvalid 0.

Record RuleSpec := mkRule {
  ruFamily : Family; Priority : Z; Iif : string; ruTable : Z; ruMark : Z; Src : Prefix }.

Inductive RouteType := RouteUnicast | RouteBlackhole | RouteThrow | RouteOther.

Definition FrontMetric : Z := 100.
Definition BlackholeMetric : Z := 4096.

Record RouteSpec := mkRoute {
  roFamily : Family; roTable : Z; roType : RouteType; Dst : Prefix; roDevice : string; Metric : Z }.

Record AddrSpec := mkAddr { aPrefix : Prefix; aDevice : string }.

Record Snapshot := mkSnapshot {
  Rules : list RuleSpec; Routes : list RouteSpec; Links : list string; Addrs : list AddrSpec }.

#[global] Instance Family_eq_dec : EqDecision Family.
Proof. solve_decision. Defined.
#[global] Instance RuleSpec_eq_dec : EqDecision RuleSpec.
Proof. solve_decision. Defined.
#[global] Instance RouteType_eq_dec : EqDecision RouteType.
Proof. solve_decision. Defined.
#[global] Instance RouteSpec_eq_dec : EqDecision RouteSpec.
Proof. solve_decision. Defined.
#[global] Instance AddrSpec_eq_dec : EqDecision AddrSpec.
Proof. solve_decision. Defined.

(** ** The interface *)

(** Reads leave the host as it is; a write answers with the host after it. *)
Class Plane (W : Type) := {
  plane_Probe : W -> result unit;
  plane_Snapshot : W -> result Snapshot;
  AddRule : W -> RuleSpec -> W * result unit;
  DelRule : W -> RuleSpec -> W * result unit;
  AddRoute : W -> RouteSpec -> W * result unit;
  DelRoute : W -> RouteSpec -> W * result unit;
  Sysctl : W -> string -> result string;
  SetSysctl : W -> string -> string -> W * result unit;
  PersistSysctl : W -> string -> string -> W * result unit;
  RouterAdvertisedDevices : W -> result (list string);
  CanMasquerade : W -> bool;
}.

(** ** Rows and drivers *)

Record Egress := mkEgress {
  ID : Z; Type_ : string; Enable : bool; Target : string; Settings : string;
  Ingress : list string; Sources : list Prefix }.

(** [Families] of a fill: [None] is nil, both families. *)
Record Fill := mkFill {
  fiDevice : string; fiAddr : Prefix; Sysctls : gmap string string; Marked : bool;
  fiFamilies : option (list Family) }.
Definition NoFill : Fill := mkFill "" NoPrefix ∅ false None.

Record Provisioner (W : Type) := mkProvisioner {
  Provision : W -> Egress -> W * result unit;
  Deprovision : W -> Z -> W * result unit }.
Arguments mkProvisioner {W}.
Arguments Provision {W}.
Arguments Deprovision {W}.

(** A driver with the optional halves the manager asks for. *)
Record Driver (W : Type) := mkDriver {
  dType : string;
  dFill : Egress -> result Fill;
  dProvisioner : option (Provisioner W);
  dNamer : option (Z -> result string) }.
Arguments mkDriver {W}.
Arguments dType {W}.
Arguments dFill {W}.
Arguments dProvisioner {W}.
Arguments dNamer {W}.

Record Registry (W : Type) := mkRegistry { byType : gmap string (Driver W); ordered : list string }.
Arguments mkRegistry {W}.
Arguments byType {W}.
Arguments ordered {W}.

Definition NewRegistry {W} : Registry W := mkRegistry ∅ [].

(** [d = None] is a nil driver. *)
Definition Register {W} (r : Registry W) (d : option (Driver W)) : Registry W * result unit :=
  match d with
  | None => (r, Fail (ErrorText "egress: Register(nil)"))
  | Some d =>
      let name := dType d in
      if bool_decide (name = "") then (r, Fail (ErrorText "egress: a driver registered an empty type"))
      else
        match byType r !! name with
        | Some _ => (r, Fail ErrDuplicateDriver)
        | None => (mkRegistry (<[name := d]> (byType r)) (ordered r ++ [name]), Ok tt)
        end
  end.

Definition For {W} (r : Registry W) (name : string) : option (Driver W) := byType r !! name.

Definition Types {W} (r : Registry W) : list string := merge_sort String.le (ordered r).

(** ** The stack *)

(** An entry of the log of writes. *)
Inductive op :=
| OpRuleAdd (r : RuleSpec) | OpRuleDel (r : RuleSpec)
| OpRouteAdd (r : RouteSpec) | OpRouteDel (r : RouteSpec)
| OpSysctl (key value : string).

Record Kernel := mkKernel {
  rules : list RuleSpec; routes : list RouteSpec; links : list string; addrs : list AddrSpec;
  sysctls : gmap string string; dropIns : gmap string string;
  ops : list op;
  ProbeErr : option error; SnapshotErr : option error; Fails : op -> option error;
  NoNft : bool; RADevices : list string }.

Definition New_kernel : Kernel :=
  mkKernel [] [] [] [] ∅ ∅ [] None None (fun _ => None) false [].

(** The lists and maps a write changes, one at a time. *)
Definition with_rules (k : Kernel) (l : list RuleSpec) : Kernel :=
  mkKernel l (routes k) (links k) (addrs k) (sysctls k) (dropIns k) (ops k)
    (ProbeErr k) (SnapshotErr k) (Fails k) (NoNft k) (RADevices k).
Definition with_routes (k : Kernel) (l : list RouteSpec) : Kernel :=
  mkKernel (rules k) l (links k) (addrs k) (sysctls k) (dropIns k) (ops k)
    (ProbeErr k) (SnapshotErr k) (Fails k) (NoNft k) (RADevices k).
Definition with_host (k : Kernel) (l : list string) (a : list AddrSpec) (m : gmap string string) : Kernel :=
  mkKernel (rules k) (routes k) l a m (dropIns k) (ops k)
    (ProbeErr k) (SnapshotErr k) (Fails k) (NoNft k) (RADevices k).
Definition with_dropIns (k : Kernel) (m : gmap string string) : Kernel :=
  mkKernel (rules k) (routes k) (links k) (addrs k) (sysctls k) m (ops k)
    (ProbeErr k) (SnapshotErr k) (Fails k) (NoNft k) (RADevices k).
Definition with_ops (k : Kernel) (l : list op) : Kernel :=
  mkKernel (rules k) (routes k) (links k) (addrs k) (sysctls k) (dropIns k) l
    (ProbeErr k) (SnapshotErr k) (Fails k) (NoNft k) (RADevices k).

Definition kernel_Snapshot (k : Kernel) : result Snapshot :=
  match SnapshotErr k with
  | Some e => Fail e
  | None => Ok (mkSnapshot (rules k) (routes k) (links k) (addrs k))
  end.

(** The attempt is logged before the injected failure is answered. *)
Definition attempt (k : Kernel) (o : op) : Kernel * option error :=
  (with_ops k (ops k ++ [o]), Fails k o).

(** [slices.Delete] of the first element equal to [x], if there is one. *)
Fixpoint delete_first {A} `{EqDecision A} (x : A) (l : list A) : option (list A) :=
  match l with
  | [] => None
  | y :: rest => if bool_decide (y = x) then Some rest else cons y <$> delete_first x rest
  end.

Definition kernel_AddRule (k : Kernel) (spec : RuleSpec) : Kernel * result unit :=
  let '(k, err) := attempt k (OpRuleAdd spec) in
  match err with
  | Some e => (k, Fail e)
  | None =>
      if bool_decide (spec ∈ rules k) then (k, Fail ErrAlreadyInstalled)
      else (with_rules k (rules k ++ [spec]), Ok tt)
  end.

Definition kernel_DelRule (k : Kernel) (spec : RuleSpec) : Kernel * result unit :=
  let '(k, err) := attempt k (OpRuleDel spec) in
  match err with
  | Some e => (k, Fail e)
  | None =>
      match delete_first spec (rules k) with
      | None => (k, Fail ErrNotInstalled)
      | Some l => (with_rules k l, Ok tt)
      end
  end.

Definition sameRoute (a b : RouteSpec) : bool :=
  bool_decide (roFamily a = roFamily b) && (roTable a =? roTable b) &&
  bool_decide (Dst a = Dst b) && (Metric a =? Metric b).

Definition kernel_AddRoute (k : Kernel) (spec : RouteSpec) : Kernel * result unit :=
  let '(k, err) := attempt k (OpRouteAdd spec) in
  match err with
  | Some e => (k, Fail e)
  | None =>
      if bool_decide (roType spec = RouteUnicast) && negb (bool_decide (roDevice spec ∈ links k))
      then (k, Fail ErrNoDevice)
      else if existsb (fun r => sameRoute r spec) (routes k) then (k, Fail ErrAlreadyInstalled)
      else (with_routes k (routes k ++ [spec]), Ok tt)
  end.

Definition kernel_DelRoute (k : Kernel) (spec : RouteSpec) : Kernel * result unit :=
  let '(k, err) := attempt k (OpRouteDel spec) in
  match err with
  | Some e => (k, Fail e)
  | None =>
      match delete_first spec (routes k) with
      | None => (k, Fail ErrNotInstalled)
      | Some l => (with_routes k l, Ok tt)
      end
  end.

Definition kernel_Sysctl (k : Kernel) (key : string) : result string :=
  match sysctls k !! key with None => Fail ErrNoDevice | Some value => Ok value end.

Definition kernel_SetSysctl (k : Kernel) (key value : string) : Kernel * result unit :=
  let '(k, err) := attempt k (OpSysctl key value) in
  match err with
  | Some e => (k, Fail e)
  | None =>
      match sysctls k !! key with
      | None => (k, Fail ErrNoDevice)
      | Some _ => (with_host k (links k) (addrs k) (<[key := value]> (sysctls k)), Ok tt)
      end
  end.

Definition kernel_PersistSysctl (k : Kernel) (path body : string) : Kernel * result unit :=
  (with_dropIns k (<[path := body]> (dropIns k)), Ok tt).

#[global] Instance KernelPlane : Plane Kernel := {|
  plane_Probe k := match ProbeErr k with Some e => Fail e | None => Ok tt end;
  plane_Snapshot := kernel_Snapshot;
  AddRule := kernel_AddRule;
  DelRule := kernel_DelRule;
  AddRoute := kernel_AddRoute;
  DelRoute := kernel_DelRoute;
  Sysctl := kernel_Sysctl;
  SetSysctl := kernel_SetSysctl;
  PersistSysctl := kernel_PersistSysctl;
  RouterAdvertisedDevices k := Ok (RADevices k);
  CanMasquerade k := negb (NoNft k);
|}.

(** *** What happens on the host without the manager *)

Definition AddLink (k : Kernel) (name : string) (keys : list string) : Kernel :=
  with_host k (if bool_decide (name ∈ links k) then links k else links k ++ [name]) (addrs k)
    (foldl (fun m key => match m !! key with Some _ => m | None => <[key := "2"]> m end) (sysctls k) keys).

(** [strings.Contains]. *)
Fixpoint contains_text (s sub : string) : bool :=
  String.prefix sub s ||
  match s with EmptyString => false | String _ rest => contains_text rest sub end.

Definition DelLink (k : Kernel) (name : string) : Kernel :=
  let k := with_routes k (filter (fun r => ~ (roType r = RouteUnicast /\ roDevice r = name)) (routes k)) in
  with_host k (filter (fun l => l <> name) (links k)) (filter (fun a => aDevice a <> name) (addrs k))
    (filter (fun kv => contains_text kv.1 ("." +:+ name +:+ ".") = false) (sysctls k)).

Definition AddAddr (k : Kernel) (device : string) (prefix : Prefix) : Kernel :=
  let spec := mkAddr prefix device in
  with_host k (links k) (if bool_decide (spec ∈ addrs k) then addrs k else addrs k ++ [spec]) (sysctls k).

Definition SeedRule (k : Kernel) (specs : list RuleSpec) : Kernel := with_rules k (rules k ++ specs).
Definition SeedRoute (k : Kernel) (specs : list RouteSpec) : Kernel := with_routes k (routes k ++ specs).
