(* ===== verification/EgressManager.v ===== *)
(** * Egress: the manager

    internal/egress/manager.go, probe.go, marked.go, preflight.go and forwarding.go over any
    [Plane] and any registered drivers.  The manager keeps no view of what it wrote: every
    entry point reads the host and makes it agree with the rows.  A failure is reported
    with the object it is about and the error it wraps; log lines are left out. *)
From stdpp Require Import pretty functions.
From S2P Require Import Prelude Decimal Netip Egress EgressPlane.
Open Scope string_scope.
Open Scope Z_scope.
Open Scope list_scope.

(** [errors.Is]: the target is the error or one it wraps or joins. *)
Fixpoint errors_Is (e target : error) : bool :=
  bool_decide (e = target) ||
  match e with ErrorJoin a b => errors_Is a target || errors_Is b target | _ => false end.

Definition retryable (e : error) : bool := errors_Is e ErrNoDevice || errors_Is e ErrFamilyDisabled.
Definition settledDel (e : error) : bool := errors_Is e ErrNotInstalled.

(** An object of the band, as a failure names it. *)
Inductive object := ARule (r : RuleSpec) | ARoute (r : RouteSpec).

(** What a pass reports, one constructor per [fmt.Errorf] of the code. *)
Inductive failure :=
| Problem (e : error)
| Removing (r : RuleSpec) (e : error)
| Containing (r : RouteSpec) (e : error)
| Excepting (r : RouteSpec) (e : error)
| Refusing (r : RuleSpec)
| Installing (r : RuleSpec) (e : error)
| Withdrawing (r : RouteSpec) (e : error)
| Routing (r : RouteSpec) (e : error)
| Unexcepting (r : RouteSpec) (e : error)
| Keeping (r : RouteSpec)
| Uncontaining (r : RouteSpec) (e : error)
| Setting (key value : string) (e : error)
| Shadowed (o : object).

Definition problem_of (e : option error) : list failure :=
  match e with None => [] | Some e => [Problem e] end.

(** ** The difference of two multisets *)

Section Diff.
Context {T : Type} `{EqDecision T}.

(** [pool[item]++] and [pool[item]--] on a map that reads zero where it has no key. *)
Definition bump (pool : T -> nat) (item : T) : T -> nat := <[item := S (pool item)]> pool.
Definition drop_one (pool : T -> nat) (item : T) : T -> nat := <[item := Nat.pred (pool item)]> pool.

(** The first loop takes what is wanted out of the pool, the second empties it. *)
Fixpoint diff_add (want : list T) (pool : T -> nat) : list T * (T -> nat) :=
  match want with
  | [] => ([], pool)
  | item :: rest =>
      if (0 <? pool item)%nat then diff_add rest (drop_one pool item)
      else let '(add, pool) := diff_add rest pool in (item :: add, pool)
  end.

Fixpoint diff_del (have : list T) (pool : T -> nat) : list T :=
  match have with
  | [] => []
  | item :: rest =>
      if (0 <? pool item)%nat then item :: diff_del rest (drop_one pool item) else diff_del rest pool
  end.

Definition diff (want have : list T) : list T * list T :=
  let pool := foldl bump (fun _ => O) have in
  let '(add, pool) := diff_add want pool in
  (add, diff_del have pool).
End Diff.

(** ** What a row wants *)

Record want := mkWant {
  device : string; blackholes : list RouteSpec; throws : list RouteSpec; fronts : list RouteSpec;
  wrules : list RuleSpec; wsysctls : gmap string string }.
Definition no_want : want := mkWant "" [] [] [] [] ∅.

Definition frontIsUp (fill : Fill) (snap : Snapshot) : bool :=
  if bool_decide (fiDevice fill = "") || negb (bool_decide (fiDevice fill ∈ Links snap)) then false
  else if negb (Prefix_IsValid (fiAddr fill)) then true
  else bool_decide (mkAddr (fiAddr fill) (fiDevice fill) ∈ Addrs snap).

Definition fillCarries (fill : Fill) (family : Family) : bool :=
  match fiFamilies fill with None => true | Some l => bool_decide (family ∈ l) end.

Definition uniqueSorted (in_ : list string) : list string :=
  Compact (merge_sort String.le (filter (fun item => item <> "") in_)).

Definition Is6 (a : Addr) : bool := match a with Addr6 _ _ => true | _ => false end.

Section Manager.
Context {PT : PrefixText}.

Definition prefix_text_le (p q : Prefix) : Prop := String.le (prefix_string p) (prefix_string q).
#[global] Instance prefix_text_le_dec p q : Decision (prefix_text_le p q).
Proof. unfold prefix_text_le. apply _. Defined.

Definition uniqueSortedPrefixes (in_ : list Prefix) : list Prefix :=
  Compact (merge_sort prefix_text_le (Masked <$> filter (fun p => Prefix_IsValid p = true) in_)).

Definition blackhole_route (id : Z) (family : Family) : RouteSpec :=
  mkRoute family (Table id) RouteBlackhole (DefaultRoute family) "" BlackholeMetric.
Definition front_route (id : Z) (dev : string) (family : Family) : RouteSpec :=
  mkRoute family (Table id) RouteUnicast (DefaultRoute family) dev FrontMetric.
Definition iif_rule (id : Z) (iif : string) (family : Family) : RuleSpec :=
  mkRule family (Prio id) iif (Table id) 0 NoPrefix.
Definition family_of (src : Prefix) : Family := if Is6 (pAddr src) then FamilyV6 else FamilyV4.
Definition src_rule (id : Z) (src : Prefix) : RuleSpec :=
  mkRule (family_of src) (Prio id) "" (Table id) 0 src.
Definition throw_route (id : Z) (src : Prefix) : RouteSpec :=
  mkRoute (family_of src) (Table id) RouteThrow src "" 0.
Definition mark_rule (id : Z) (family : Family) : RuleSpec :=
  mkRule family (Prio id) "" (Table id) (Mark id) NoPrefix.

Context {W : Type} `{!Plane W}.

Definition plan (drivers : Registry W) (e : Egress) (snap : Snapshot) : want * option error :=
  if negb (Enable e) then (no_want, None)
  else
    let '(fill, problem) :=
      match For drivers (Type_ e) with
      | None => (NoFill, Some ErrUnknownDriver)
      | Some driver => match dFill driver e with Ok fill => (fill, None) | Fail err => (NoFill, Some err) end
      end in
    let present := frontIsUp fill snap in
    let id := ID e in
    let sources := uniqueSortedPrefixes (Sources e) in
    let fronted := filter (fun f => negb (bool_decide (fiDevice fill = "")) && present && fillCarries fill f = true) Families in
    (mkWant (fiDevice fill)
       (blackhole_route id <$> Families)
       (throw_route id <$> sources)
       (front_route id (fiDevice fill) <$> fronted)
       ((iif ← uniqueSorted (Ingress e); iif_rule id iif <$> Families) ++
        (src_rule id <$> sources) ++
        (if Marked fill then mark_rule id <$> Families else []))
       (if present then Sysctls fill else ∅), problem).

(** ** What the host holds *)

Record have := mkHave {
  hblackholes : list RouteSpec; hfronts : list RouteSpec; hthrows : list RouteSpec;
  hrules : list RuleSpec; foreign : list object; shadowing : list object }.

Definition ownsDevice (want got : string) : bool :=
  if bool_decide (got = "") then false
  else if negb (bool_decide (want = "")) && bool_decide (got = want) then true
  else bool_decide (is_Some (ownedEgressID got)) || bool_decide (is_Some (ownedUplinkID got)).

Definition view_rule (id : Z) (h : have) (rule : RuleSpec) : have :=
  if negb (Priority rule =? Prio id) then h
  else if negb (ruTable rule =? Table id)
  then mkHave (hblackholes h) (hfronts h) (hthrows h) (hrules h) (foreign h ++ [ARule rule]) (shadowing h ++ [ARule rule])
  else mkHave (hblackholes h) (hfronts h) (hthrows h) (hrules h ++ [rule]) (foreign h) (shadowing h).

Definition view_route (id : Z) (dev : string) (named : string -> bool) (h : have) (route : RouteSpec) : have :=
  let default := bool_decide (Dst route = DefaultRoute (roFamily route)) in
  if negb (roTable route =? Table id) then h
  else if bool_decide (roType route = RouteBlackhole) && default
  then mkHave (hblackholes h ++ [route]) (hfronts h) (hthrows h) (hrules h) (foreign h) (shadowing h)
  else if bool_decide (roType route = RouteUnicast) && default &&
          (ownsDevice dev (roDevice route) || named (roDevice route))
  then mkHave (hblackholes h) (hfronts h ++ [route]) (hthrows h) (hrules h) (foreign h) (shadowing h)
  else if bool_decide (roType route = RouteThrow)
  then mkHave (hblackholes h) (hfronts h) (hthrows h ++ [route]) (hrules h) (foreign h) (shadowing h)
  else mkHave (hblackholes h) (hfronts h) (hthrows h) (hrules h) (foreign h ++ [ARoute route])
         (if bool_decide (roType route = RouteUnicast) then shadowing h ++ [ARoute route] else shadowing h).

Definition ownedView (snap : Snapshot) (id : Z) (dev : string) (named : string -> bool) : have :=
  foldl (view_route id dev named)
    (foldl (view_rule id) (mkHave [] [] [] [] [] []) (Rules snap)) (Routes snap).

(** ** Devices the panel makes *)

(** One provisioner of [deprovisionAll]. *)
Definition deprovision_one (drivers : Registry W) (id : Z) (s : W * list error) (name : string) : W * list error :=
  match For drivers name with
  | None => s
  | Some driver =>
      match dProvisioner driver with
      | None => s
      | Some p =>
          let '(w, r) := Deprovision p s.1 id in
          (w, match r with Fail err => s.2 ++ [err] | Ok _ => s.2 end)
      end
  end.

(** [errors.Join]. *)
Definition join (failures : list error) : option error :=
  match failures with [] => None | e :: rest => Some (foldl ErrorJoin e rest) end.

Definition deprovisionAll (drivers : Registry W) (w : W) (id : Z) : W * option error :=
  let '(w, failures) := foldl (deprovision_one drivers id) (w, []) (Types drivers) in
  (w, join failures).

Definition error_of (r : result unit) : option error := match r with Ok _ => None | Fail e => Some e end.

Definition provision (drivers : Registry W) (w : W) (e : Egress) : W * (bool * option error) :=
  if bool_decide (Type_ e = "") then
    let '(w, err) := deprovisionAll drivers w (ID e) in (w, (false, err))
  else
    match For drivers (Type_ e) with
    | None => (w, (false, None))
    | Some driver =>
        match dProvisioner driver with
        | None => (w, (false, None))
        | Some p =>
            if negb (Enable e) then let '(w, r) := Deprovision p w (ID e) in (w, (false, error_of r))
            else let '(w, r) := Provision p w e in (w, (is_ok r, error_of r))
        end
    end.

Definition namedFor (drivers : Registry W) (id : Z) (name : string) : bool :=
  existsb (fun driverType =>
    match For drivers driverType with
    | None => false
    | Some driver =>
        match dNamer driver with
        | None => false
        | Some deviceName => match deviceName id with Ok got => bool_decide (got = name) | Fail _ => false end
        end
    end) (Types drivers).

(** ** Convergence *)

(** What [converge] carries through its loops: the host, the rules counted live and the
    families known to be contained, and the failures so far. *)
Record pass := mkPass {
  host : W; live : Family -> Z; contained : Family -> bool; failures : list failure }.

Definition failing (s : pass) (w : W) (f : failure) : pass :=
  mkPass w (live s) (contained s) (failures s ++ [f]).
Definition onto (s : pass) (w : W) : pass := mkPass w (live s) (contained s) (failures s).

Definition del_rule (s : pass) (rule : RuleSpec) : pass :=
  let '(w, r) := DelRule (host s) rule in
  let gone := mkPass w (<[ruFamily rule := live s (ruFamily rule) - 1]> (live s)) (contained s) (failures s) in
  match r with
  | Fail err => if settledDel err then gone else failing s w (Removing rule err)
  | Ok _ => gone
  end.

Definition add_blackhole (s : pass) (route : RouteSpec) : pass :=
  let '(w, r) := AddRoute (host s) route in
  match r with
  | Fail err => failing s w (Containing route err)
  | Ok _ => mkPass w (live s) (<[roFamily route := true]> (contained s)) (failures s)
  end.

Definition add_throw (s : pass) (route : RouteSpec) : pass :=
  let '(w, r) := AddRoute (host s) route in
  match r with Fail err => failing s w (Excepting route err) | Ok _ => onto s w end.

Definition add_rule (s : pass) (rule : RuleSpec) : pass :=
  if negb (contained s (ruFamily rule)) then failing s (host s) (Refusing rule)
  else
    let '(w, r) := AddRule (host s) rule in
    match r with
    | Fail err => failing s w (Installing rule err)
    | Ok _ => mkPass w (<[ruFamily rule := live s (ruFamily rule) + 1]> (live s)) (contained s) (failures s)
    end.

Definition del_route (what : RouteSpec -> error -> failure) (s : pass) (route : RouteSpec) : pass :=
  let '(w, r) := DelRoute (host s) route in
  match r with
  | Fail err => if settledDel err then onto s w else failing s w (what route err)
  | Ok _ => onto s w
  end.

Definition add_front (s : pass) (route : RouteSpec) : pass :=
  let '(w, r) := AddRoute (host s) route in
  match r with
  | Fail err => if retryable err then onto s w else failing s w (Routing route err)
  | Ok _ => onto s w
  end.

Definition del_blackhole (s : pass) (route : RouteSpec) : pass :=
  if 0 <? live s (roFamily route) then failing s (host s) (Keeping route)
  else del_route Uncontaining s route.

Definition set_sysctl (m : gmap string string) (s : pass) (key : string) : pass :=
  let value := default "" (m !! key) in
  let write :=
    let '(w, r) := SetSysctl (host s) key value in
    match r with
    | Ok _ => onto s w
    | Fail err => if retryable err then onto s w else failing s w (Setting key value err)
    end in
  match Sysctl (host s) key with
  | Ok current => if bool_decide (current = value) then s else write
  | Fail err => if retryable err then s else write
  end.

Definition applySysctls (m : gmap string string) (s : pass) : pass :=
  foldl (set_sysctl m) s (merge_sort String.le (map_to_list m).*1).

(** The writes that turn what a row has into what it wants, in their order. *)
Definition install (w : want) (h : have) (start : pass) : pass :=
  let '(addRules, delRules) := diff (wrules w) (hrules h) in
  let '(addBlack, delBlack) := diff (blackholes w) (hblackholes h) in
  let '(addThrow, delThrow) := diff (throws w) (hthrows h) in
  let '(addFront, delFront) := diff (fronts w) (hfronts h) in
  let s := foldl del_rule start delRules in
  let s := foldl add_blackhole s addBlack in
  let s := foldl add_throw s addThrow in
  let s := foldl add_rule s addRules in
  let s := foldl (del_route Withdrawing) s delFront in
  let s := foldl add_front s addFront in
  let s := foldl (del_route Unexcepting) s delThrow in
  let s := foldl del_blackhole s delBlack in
  applySysctls (wsysctls w) s.

(** [live] and [contained] as the loops over the view leave them. *)
Definition live_of (h : have) : Family -> Z :=
  foldl (fun m rule => <[ruFamily rule := m (ruFamily rule) + 1]> m) (fun _ => 0) (hrules h).
Definition contained_of (h : have) : Family -> bool :=
  foldl (fun m route => <[roFamily route := true]> m) (fun _ => false) (hblackholes h).

Definition converge (drivers : Registry W) (w : W) (snap : Snapshot) (e : Egress) : W * list failure :=
  match checkID (ID e) with
  | Fail err => (w, [Problem err])
  | Ok _ =>
      let '(w, (provisioned, provisionErr)) := provision drivers w e in
      let '(wt, planErr) := plan drivers e snap in
      let '(snap, (wt, planErr)) :=
        if provisioned && negb (bool_decide (device wt = "")) && bool_decide (fronts wt = []) then
          match plane_Snapshot w with
          | Ok fresh => (fresh, plan drivers e fresh)
          | Fail _ => (snap, (wt, planErr))
          end
        else (snap, (wt, planErr)) in
      let h := ownedView snap (ID e) (device wt) (namedFor drivers (ID e)) in
      let s := install wt h
                 (mkPass w (live_of h) (contained_of h) (problem_of planErr ++ problem_of provisionErr)) in
      (host s, failures s ++ (Shadowed <$> shadowing h))
  end.

Definition Ensure (drivers : Registry W) (w : W) (e : Egress) : W * list failure :=
  match plane_Snapshot w with
  | Fail err => (w, [Problem err])
  | Ok snap => converge drivers w snap e
  end.

(** A row that is only an id. *)
Definition bare (id : Z) : Egress := mkEgress id "" false "" "" [] [].

Definition Remove (drivers : Registry W) (w : W) (id : Z) : W * list failure :=
  Ensure drivers w (bare id).

(** The ids the host still shows: rules, then routes, then links. *)
Definition seen_ids (snap : Snapshot) : list Z :=
  omap (fun rule => let '(id, mine) := prioEgressID (Priority rule) in if mine then Some id else None) (Rules snap) ++
  omap (fun route => let '(id, mine) := tableEgressID (roTable route) in if mine then Some id else None) (Routes snap) ++
  omap ownedUplinkID (Links snap).

Definition rows_by_id (rows : list Egress) (snap : Snapshot) : gmap Z Egress :=
  foldl (fun m id => match m !! id with Some _ => m | None => <[id := bare id]> m end)
    (foldl (fun m row => <[ID row := row]> m) ∅ rows) (seen_ids snap).

Definition reconcile_one (drivers : Registry W) (snap : Snapshot) (byID : gmap Z Egress)
    (s : W * list (Z * list failure)) (id : Z) : W * list (Z * list failure) :=
  match byID !! id with
  | None => s
  | Some e =>
      let '(w, fs) := converge drivers s.1 snap e in
      (w, match fs with [] => s.2 | _ => s.2 ++ [(id, fs)] end)
  end.

Definition Reconcile (drivers : Registry W) (w : W) (rows : list Egress) : W * result (list (Z * list failure)) :=
  match plane_Snapshot w with
  | Fail err => (w, Fail err)
  | Ok snap =>
      let byID := rows_by_id rows snap in
      let '(w, fs) := foldl (reconcile_one drivers snap byID) (w, []) (merge_sort Z.le (map_to_list byID).*1) in
      (w, Ok fs)
  end.
End Manager.
