(* ===== verification/EgressFacts.v ===== *)
(** * Egress: facts about the difference, the view and the stack

    The difference of two lists as multisets, the parts of the host one id owns, and what
    each write of the stack changes. *)
From stdpp Require Import pretty functions.
From Stdlib Require Import Permutation.
From S2P Require Import Prelude Decimal Netip Egress EgressPlane EgressManager.
Open Scope string_scope.
Open Scope Z_scope.
Open Scope list_scope.

(** ** Counting *)

Section Count.
Context {T : Type} `{!EqDecision T}.
Implicit Types (want have l k : list T) (x y : T).

Definition times (l : list T) (x : T) : nat := count_occ (decide_rel eq) l x.
#[local] Arguments times : simpl never.

Lemma times_nil x : times [] x = O.
Proof. done. Qed.

Lemma times_cons y l x : times (y :: l) x = ((if decide (y = x) then 1 else 0) + times l x)%nat.
Proof. unfold times. simpl. unfold decide, decide_rel. by destruct (EqDecision0 y x). Qed.
Lemma times_app l k x : times (l ++ k) x = (times l x + times k x)%nat.
Proof. apply count_occ_app. Qed.
Lemma times_elem l x : x ∈ l <-> (0 < times l x)%nat.
Proof. rewrite list_elem_of_In. unfold times. apply count_occ_In. Qed.
Lemma times_perm l k : l ≡ₚ k <-> forall x, times l x = times k x.
Proof. apply Permutation_count_occ. Qed.
Lemma times_nodup l x : NoDup l -> (times l x <= 1)%nat.
Proof. intros H. apply (NoDup_count_occ (decide_rel eq)). by apply NoDup_ListNoDup. Qed.

Lemma times_filter (P : T -> Prop) `{!forall x, Decision (P x)} l x :
  times (filter P l) x = if decide (P x) then times l x else O.
Proof.
  induction l as [|y l IH]; [by case_decide|]. rewrite filter_cons.
  destruct (decide (P y)) as [Hy|Hy]; rewrite ?times_cons, IH; clear IH;
    destruct (decide (P x)), (decide (y = x)); subst; try done; lia.
Qed.

Lemma bump_pool (l : list T) (pool : T -> nat) x :
  foldl bump pool l x = (pool x + times l x)%nat.
Proof.
  revert pool. induction l as [|y l IH]; intros pool; [simpl; rewrite ?times_nil; lia|].
  simpl. rewrite IH, times_cons. unfold bump.
  destruct (decide (y = x)) as [->|Hne]; [rewrite fn_lookup_insert; lia|].
  rewrite fn_lookup_insert_ne by done. lia.
Qed.

Lemma drop_one_eq (pool : T -> nat) y x :
  drop_one pool y x = (pool x - (if decide (y = x) then 1 else 0))%nat.
Proof.
  unfold drop_one. case_decide; [subst; rewrite fn_lookup_insert; lia|].
  rewrite fn_lookup_insert_ne by done. lia.
Qed.

Lemma diff_add_times want (pool : T -> nat) x :
  times (diff_add want pool).1 x = (times want x - pool x)%nat /\
  (diff_add want pool).2 x = (pool x - times want x)%nat.
Proof.
  revert pool. induction want as [|y want IH]; intros pool; [simpl; rewrite ?times_nil; lia|]. simpl.
  destruct (Nat.ltb_spec 0 (pool y)) as [Hp|Hp].
  - destruct (IH (drop_one pool y)) as [H1 H2]. rewrite H1, H2, drop_one_eq, times_cons.
    case_decide; subst; lia.
  - specialize (IH pool). destruct (diff_add want pool) as [add pool']. simpl in *.
    rewrite !times_cons. case_decide; subst; lia.
Qed.

Lemma diff_del_times have (pool : T -> nat) x :
  times (diff_del have pool) x = Nat.min (times have x) (pool x).
Proof.
  revert pool. induction have as [|y have IH]; intros pool; [simpl; rewrite ?times_nil; lia|]. simpl.
  destruct (Nat.ltb_spec 0 (pool y)) as [Hp|Hp]; rewrite ?times_cons, IH, ?drop_one_eq, ?times_cons;
    case_decide; subst; lia.
Qed.

(** The difference counts: what is added and what is removed make one multiset of the other. *)
Lemma diff_times want have x :
  times (diff want have).1 x = (times want x - times have x)%nat /\
  times (diff want have).2 x = (times have x - times want x)%nat.
Proof.
  unfold diff. pose proof (diff_add_times want (foldl bump (fun _ => O) have) x) as [H1 H2].
  destruct (diff_add want _) as [add pool]. simpl in *. rewrite bump_pool in *.
  rewrite diff_del_times, H2. lia.
Qed.

Lemma diff_add_in want have x : x ∈ (diff want have).1 -> x ∈ want.
Proof. rewrite !times_elem. destruct (diff_times want have x). lia. Qed.
Lemma diff_del_in want have x : x ∈ (diff want have).2 -> x ∈ have.
Proof. rewrite !times_elem. destruct (diff_times want have x). lia. Qed.

Lemma diff_same l : diff l l = ([], []).
Proof.
  destruct (diff l l) as [a d] eqn:E.
  assert (forall x, times a x = O /\ times d x = O) as H
    by (intros x; pose proof (diff_times l l x) as Hx; rewrite E in Hx; simpl in Hx; lia).
  f_equal; [destruct a as [|x a]|destruct d as [|x d]]; try done; destruct (H x) as [Ha Hd];
    rewrite times_cons, decide_True in *; try done; lia.
Qed.

Lemma diff_perm want have : want ≡ₚ have -> diff want have = ([], []).
Proof.
  intros Hp. destruct (diff want have) as [a d] eqn:E.
  assert (forall x, times a x = O /\ times d x = O) as H.
  { intros x. pose proof (diff_times want have x) as Hx. rewrite E in Hx. simpl in Hx.
    pose proof (proj1 (times_perm want have) Hp x). lia. }
  f_equal; [destruct a as [|x a]|destruct d as [|x d]]; try done; destruct (H x) as [Ha Hd];
    rewrite times_cons, decide_True in *; try done; lia.
Qed.

Lemma delete_first_some x (l l' : list T) :
  delete_first x l = Some l' -> exists l1 l2, l = l1 ++ x :: l2 /\ l' = l1 ++ l2.
Proof.
  revert l'. induction l as [|y l IH]; intros l'; [done|]. simpl. case_bool_decide; subst.
  - intros [= <-]. by exists [], l.
  - destruct (delete_first x l) as [r|]; [|done]. intros [= <-].
    destruct (IH r eq_refl) as (l1 & l2 & -> & ->). by exists (y :: l1), l2.
Qed.
Lemma delete_first_none x (l : list T) : delete_first x l = None <-> x ∉ l.
Proof.
  induction l as [|y l IH]; simpl; [split; [intros _; apply not_elem_of_nil|done]|].
  rewrite elem_of_cons. case_bool_decide; subst; [split; [done|tauto]|].
  destruct (delete_first x l) as [r|]; simpl.
  - split; [done|]. intros Hn. exfalso. assert (x ∉ l) as Hx by tauto. by apply IH in Hx.
  - split; [|done]. intros _ [->|Hx]; [done|]. by apply IH in Hx.
Qed.
End Count.
#[global] Arguments times {_ _} _ _ : simpl never.

(** ** What one id owns *)

Definition mine_rule (id : Z) (r : RuleSpec) : Prop := Priority r = Prio id /\ ruTable r = Table id.
Definition strange_rule (id : Z) (r : RuleSpec) : Prop := Priority r = Prio id /\ ruTable r <> Table id.
Definition is_blackhole (id : Z) (r : RouteSpec) : Prop :=
  roTable r = Table id /\ roType r = RouteBlackhole /\ Dst r = DefaultRoute (roFamily r).
Definition is_throw (id : Z) (r : RouteSpec) : Prop := roTable r = Table id /\ roType r = RouteThrow.
Definition is_front (id : Z) (dev : string) (named : string -> bool) (r : RouteSpec) : Prop :=
  roTable r = Table id /\ roType r = RouteUnicast /\ Dst r = DefaultRoute (roFamily r) /\
  ownsDevice dev (roDevice r) || named (roDevice r) = true.
Definition strange_route (id : Z) (dev : string) (named : string -> bool) (r : RouteSpec) : Prop :=
  roTable r = Table id /\ roType r = RouteUnicast /\
  ~ (Dst r = DefaultRoute (roFamily r) /\ ownsDevice dev (roDevice r) || named (roDevice r) = true).

#[global] Instance mine_rule_dec id r : Decision (mine_rule id r).
Proof. unfold mine_rule. apply _. Defined.
#[global] Instance strange_rule_dec id r : Decision (strange_rule id r).
Proof. unfold strange_rule. apply _. Defined.
#[global] Instance is_blackhole_dec id r : Decision (is_blackhole id r).
Proof. unfold is_blackhole. apply _. Defined.
#[global] Instance is_throw_dec id r : Decision (is_throw id r).
Proof. unfold is_throw. apply _. Defined.
#[global] Instance is_front_dec id dev named r : Decision (is_front id dev named r).
Proof. unfold is_front. apply _. Defined.
#[global] Instance strange_route_dec id dev named r : Decision (strange_route id dev named r).
Proof. unfold strange_route. apply _. Defined.

Lemma view_rules id l h :
  let h' := foldl (view_rule id) h l in
  hblackholes h' = hblackholes h /\ hfronts h' = hfronts h /\ hthrows h' = hthrows h /\
  hrules h' = hrules h ++ filter (mine_rule id) l /\
  shadowing h' = shadowing h ++ (ARule <$> filter (strange_rule id) l).
Proof.
  cbv zeta. revert h. induction l as [|r l IH]; intros h; simpl.
  { rewrite !app_nil_r. done. }
  destruct (IH (view_rule id h r)) as (-> & -> & -> & -> & ->). clear IH.
  rewrite !filter_cons. unfold view_rule, mine_rule, strange_rule.
  destruct (Z.eqb_spec (Priority r) (Prio id)) as [Hp|Hp]; simpl.
  - destruct (Z.eqb_spec (ruTable r) (Table id)) as [Ht|Ht]; simpl.
    + rewrite decide_True, decide_False by tauto. by rewrite <-app_assoc.
    + rewrite decide_False, decide_True by tauto. simpl. by rewrite <-app_assoc.
  - by rewrite !decide_False by tauto.
Qed.

(** Settle a case of the view whose conditions are all in the context. *)
Ltac view_case := unfold is_blackhole, is_front, is_throw, strange_route; repeat intro;
  repeat match goal with H : _ /\ _ |- _ => destruct H | |- _ /\ _ => split end;
  repeat intro; repeat match goal with H : _ /\ _ |- _ => destruct H end; first [congruence | tauto].
Ltac view_decide :=
  match goal with
  | |- context [decide ?P] =>
      first [rewrite (decide_True (P := P)) by view_case | rewrite (decide_False (P := P)) by view_case]
  end.

Lemma view_routes id dev named l h :
  let h' := foldl (view_route id dev named) h l in
  hrules h' = hrules h /\
  hblackholes h' = hblackholes h ++ filter (is_blackhole id) l /\
  hfronts h' = hfronts h ++ filter (is_front id dev named) l /\
  hthrows h' = hthrows h ++ filter (is_throw id) l /\
  shadowing h' = shadowing h ++ (ARoute <$> filter (strange_route id dev named) l).
Proof.
  cbv zeta. revert h. induction l as [|r l IH]; intros h; simpl.
  { rewrite !app_nil_r. done. }
  destruct (IH (view_route id dev named h r)) as (-> & -> & -> & -> & ->). clear IH.
  rewrite !filter_cons. unfold view_route.
  destruct (Z.eqb_spec (roTable r) (Table id)) as [Ht|Ht]; simpl; [|by rewrite !decide_False by (intros [? ?]; done)].
  destruct (ownsDevice dev (roDevice r) || named (roDevice r)) eqn:Ho;
  repeat case_bool_decide; try congruence; simpl; repeat view_decide; simpl; by rewrite <-?app_assoc.
Qed.

(** The view of an id is the part of the snapshot it owns. *)
Lemma ownedView_spec snap id dev named :
  let h := ownedView snap id dev named in
  hrules h = filter (mine_rule id) (Rules snap) /\
  hblackholes h = filter (is_blackhole id) (Routes snap) /\
  hfronts h = filter (is_front id dev named) (Routes snap) /\
  hthrows h = filter (is_throw id) (Routes snap) /\
  shadowing h = (ARule <$> filter (strange_rule id) (Rules snap)) ++
                (ARoute <$> filter (strange_route id dev named) (Routes snap)).
Proof.
  cbv zeta. unfold ownedView.
  destruct (view_rules id (Rules snap) (mkHave [] [] [] [] [] [])) as (H1 & H2 & H3 & H4 & H5).
  destruct (view_routes id dev named (Routes snap) (foldl (view_rule id) (mkHave [] [] [] [] [] []) (Rules snap)))
    as (-> & -> & -> & -> & ->).
  by rewrite H1, H2, H3, H4, H5.
Qed.

Lemma live_times h f :
  live_of h f = Z.of_nat (length (filter (fun r => ruFamily r = f) (hrules h))).
Proof.
  unfold live_of.
  assert (forall l (m : Family -> Z), foldl (fun m rule => <[ruFamily rule := m (ruFamily rule) + 1]> m) m l f =
    m f + Z.of_nat (length (filter (fun r => ruFamily r = f) l))) as Hg; [|rewrite Hg; lia].
  induction l as [|r l IH]; intros m; simpl; [lia|]. rewrite IH, filter_cons.
  destruct (decide (ruFamily r = f)) as [<-|Hf]; [rewrite fn_lookup_insert; simpl; lia|].
  by rewrite fn_lookup_insert_ne.
Qed.

(** The families a list of blackholes covers, on top of those known before. *)
Definition cover (m : Family -> bool) (route : RouteSpec) : Family -> bool := <[roFamily route := true]> m.

Lemma cover_in l (m : Family -> bool) f :
  foldl cover m l f = true <-> m f = true \/ exists r, r ∈ l /\ roFamily r = f.
Proof.
  revert m. induction l as [|r l IH]; intros m; simpl.
  - split; [auto|]. intros [?|(r & ?%not_elem_of_nil & _)]; done.
  - rewrite IH. unfold cover. destruct (decide (roFamily r = f)) as [<-|Hf].
    + rewrite fn_lookup_insert. split; [|auto]. intros _. right. exists r. split; [by left|done].
    + rewrite fn_lookup_insert_ne by done. split; intros [?|(r' & Hr & He)]; auto.
      * right. exists r'. split; [by right|done].
      * apply elem_of_cons in Hr as [->|Hr]; [done|]. right. eauto.
Qed.

Lemma contained_in h f : contained_of h f = true <-> exists r, r ∈ hblackholes h /\ roFamily r = f.
Proof.
  change (contained_of h) with (foldl cover (fun _ => false) (hblackholes h)). rewrite cover_in.
  split; [intros [?|?]; done|auto].
Qed.
