(* ===== verification/EgressSafety.v ===== *)
(** * Egress: containment

    A rule that points at a table with no match falls through to the main table, and the
    flow leaves with the host's own address.  A host is contained when no rule of any id
    points at a table of that id without a blackhole of its family.  The passes of the
    manager on the stack of [EgressPlane] go through contained hosts only, write by
    write, whatever write fails. *)
From stdpp Require Import pretty functions.
From S2P Require Import Prelude Decimal Netip Egress EgressPlane EgressManager EgressFacts.
Open Scope string_scope.
Open Scope Z_scope.
Open Scope list_scope.

Definition contained_host (k : Kernel) : Prop :=
  forall rule id, rule ∈ rules k -> mine_rule id rule ->
  exists route, route ∈ routes k /\ is_blackhole id route /\ roFamily route = ruFamily rule.

(** The host after a write of the log. *)
Definition apply_op (k : Kernel) (o : op) : Kernel :=
  match o with
  | OpRuleAdd r => (AddRule k r).1
  | OpRuleDel r => (DelRule k r).1
  | OpRouteAdd r => (AddRoute k r).1
  | OpRouteDel r => (DelRoute k r).1
  | OpSysctl key value => (SetSysctl k key value).1
  end.

(** What a provisioner may do to the host: make and unmake devices, which purges the
    unicast routes through them, and nothing of what the manager writes. *)
Record tame (k k' : Kernel) : Prop := {
  tm_rules : rules k' = rules k;
  tm_routes : filter (fun r => roType r <> RouteUnicast) (routes k') = filter (fun r => roType r <> RouteUnicast) (routes k);
  tm_ops : ops k' = ops k;
  tm_fails : Fails k' = Fails k;
  tm_snapshot : SnapshotErr k' = SnapshotErr k;
}.

(** The writes [l], in this order and with steps of provisioners between them, lead from
    one host to another through hosts that satisfy [P]. *)
Inductive history (P : Kernel -> Prop) (k : Kernel) : list op -> Kernel -> Prop :=
| history_start : P k -> history P k [] k
| history_write l k1 o : history P k l k1 -> P (apply_op k1 o) -> history P k (l ++ [o]) (apply_op k1 o)
| history_driver l k1 k2 : history P k l k1 -> tame k1 k2 -> P k2 -> history P k l k2.

Lemma history_last P k l k' : history P k l k' -> P k'.
Proof. by destruct 1. Qed.

(** The stack answers "not installed" only for a rule that is not. *)
Definition honest (k : Kernel) : Prop :=
  forall r e, Fails k (OpRuleDel r) = Some e -> settledDel e = false.

(** ** What each write changes *)

(** Everything but rules, routes, knobs and the log. *)
Record steady (k k' : Kernel) : Prop := {
  st_links : links k' = links k;
  st_addrs : addrs k' = addrs k;
  st_fails : Fails k' = Fails k;
  st_snapshot : SnapshotErr k' = SnapshotErr k;
}.

Lemma steady_refl k : steady k k.
Proof. by split. Qed.
Lemma steady_trans k1 k2 k3 : steady k1 k2 -> steady k2 k3 -> steady k1 k3.
Proof. intros [? ? ? ?] [? ? ? ?]. split; congruence. Qed.
Lemma steady_honest k k' : steady k k' -> honest k -> honest k'.
Proof. intros [_ _ Hf _] Hh r e. rewrite Hf. apply Hh. Qed.

Lemma AddRule_spec k spec :
  let '(k', r) := AddRule k spec in
  k' = apply_op k (OpRuleAdd spec) /\ ops k' = ops k ++ [OpRuleAdd spec] /\ steady k k' /\
  routes k' = routes k /\ sysctls k' = sysctls k /\
  match r with
  | Ok _ => Fails k (OpRuleAdd spec) = None /\ spec ∉ rules k /\ rules k' = rules k ++ [spec]
  | Fail e => rules k' = rules k /\ (Fails k (OpRuleAdd spec) = None -> spec ∈ rules k)
  end.
Proof.
  cbn [AddRule KernelPlane apply_op]. unfold kernel_AddRule. unfold attempt.
  destruct (Fails k (OpRuleAdd spec)) as [e|]; [by split_and!; try by split|]. simpl.
  case_bool_decide; simpl; by split_and!; try by split.
Qed.

Lemma DelRule_spec k spec :
  let '(k', r) := DelRule k spec in
  k' = apply_op k (OpRuleDel spec) /\ ops k' = ops k ++ [OpRuleDel spec] /\ steady k k' /\
  routes k' = routes k /\ sysctls k' = sysctls k /\
  match r with
  | Ok _ => Fails k (OpRuleDel spec) = None /\ exists l1 l2, rules k = l1 ++ spec :: l2 /\ rules k' = l1 ++ l2
  | Fail e => rules k' = rules k /\
      (Fails k (OpRuleDel spec) = Some e \/ Fails k (OpRuleDel spec) = None /\ e = ErrNotInstalled /\ spec ∉ rules k)
  end.
Proof.
  cbn [DelRule KernelPlane apply_op]. unfold kernel_DelRule. unfold attempt.
  destruct (Fails k (OpRuleDel spec)) as [e|]; [split_and!; try (by split); auto|]. simpl.
  destruct (delete_first spec (rules k)) as [l|] eqn:E; simpl; split_and!; try (by split).
  - by apply delete_first_some.
  - right. split_and!; try done. by apply delete_first_none.
Qed.

Lemma AddRoute_spec k spec :
  let '(k', r) := AddRoute k spec in
  k' = apply_op k (OpRouteAdd spec) /\ ops k' = ops k ++ [OpRouteAdd spec] /\ steady k k' /\
  rules k' = rules k /\ sysctls k' = sysctls k /\
  match r with
  | Ok _ => Fails k (OpRouteAdd spec) = None /\ (roType spec = RouteUnicast -> roDevice spec ∈ links k) /\
      (forall x, x ∈ routes k -> sameRoute x spec = false) /\ routes k' = routes k ++ [spec]
  | Fail e => routes k' = routes k /\
      (Fails k (OpRouteAdd spec) = None ->
       roType spec = RouteUnicast /\ roDevice spec ∉ links k \/
       exists x, x ∈ routes k /\ sameRoute x spec = true)
  end.
Proof.
  cbn [AddRoute KernelPlane apply_op]. unfold kernel_AddRoute. unfold attempt.
  destruct (Fails k (OpRouteAdd spec)) as [e|]; [by split_and!; try by split|]. simpl.
  destruct (bool_decide (roType spec = RouteUnicast) && negb (bool_decide (roDevice spec ∈ links k))) eqn:Ed;
    autorewrite with guards in Ed; simpl.
  - destruct Ed. split_and!; try (by split). intros _. left. by split.
  - destruct (existsb (fun r => sameRoute r spec) (routes k)) eqn:E; simpl; split_and!; try (by split).
    + intros _. right. apply existsb_exists in E as (x & Hx & Hs). exists x. by rewrite list_elem_of_In.
    + intros Hu. by destruct Ed.
    + intros x Hx. apply not_true_is_false. intros Hs. apply not_true_iff_false in E. apply E.
      apply existsb_exists. exists x. by rewrite <-list_elem_of_In.
Qed.

Lemma DelRoute_spec k spec :
  let '(k', r) := DelRoute k spec in
  k' = apply_op k (OpRouteDel spec) /\ ops k' = ops k ++ [OpRouteDel spec] /\ steady k k' /\
  rules k' = rules k /\ sysctls k' = sysctls k /\
  match r with
  | Ok _ => exists l1 l2, routes k = l1 ++ spec :: l2 /\ routes k' = l1 ++ l2
  | Fail e => routes k' = routes k /\
      (Fails k (OpRouteDel spec) = Some e \/ Fails k (OpRouteDel spec) = None /\ e = ErrNotInstalled /\ spec ∉ routes k)
  end.
Proof.
  cbn [DelRoute KernelPlane apply_op]. unfold kernel_DelRoute. unfold attempt.
  destruct (Fails k (OpRouteDel spec)) as [e|]; [split_and!; try (by split); auto|]. simpl.
  destruct (delete_first spec (routes k)) as [l|] eqn:E; simpl; split_and!; try (by split).
  - by apply delete_first_some.
  - right. split_and!; try done. by apply delete_first_none.
Qed.

Lemma SetSysctl_spec k key value :
  let '(k', r) := SetSysctl k key value in
  k' = apply_op k (OpSysctl key value) /\ ops k' = ops k ++ [OpSysctl key value] /\ steady k k' /\
  rules k' = rules k /\ routes k' = routes k /\
  match r with
  | Ok _ => sysctls k' = <[key := value]> (sysctls k)
  | Fail e => sysctls k' = sysctls k /\ (Fails k (OpSysctl key value) = None -> sysctls k !! key = None)
  end.
Proof.
  cbn [SetSysctl KernelPlane apply_op]. unfold kernel_SetSysctl. unfold attempt.
  destruct (Fails k (OpSysctl key value)) as [e|]; [by split_and!; try by split|]. simpl.
  destruct (sysctls k !! key) eqn:E; simpl; by split_and!; try by split.
Qed.

(** ** The invariant of a pass *)

(** The rules of an id in one family. *)
Definition nrules (l : list RuleSpec) (id : Z) (f : Family) : Z :=
  Z.of_nat (length (filter (fun r => mine_rule id r /\ ruFamily r = f) l)).

(** Only objects of [id] and the knobs differ. *)
Record frame (id : Z) (k k' : Kernel) : Prop := {
  fr_steady : steady k k';
  fr_rules : filter (fun r => ~ mine_rule id r) (rules k') = filter (fun r => ~ mine_rule id r) (rules k);
  fr_routes : filter (fun r => roTable r <> Table id) (routes k') = filter (fun r => roTable r <> Table id) (routes k);
}.

Lemma frame_refl id k : frame id k k.
Proof. split; [apply steady_refl|done|done]. Qed.

(** The host is reached from [k0] by contained hosts, from [k1] by writes to [id]. *)
Record counted (k0 k1 : Kernel) (id : Z) (s : pass (W := Kernel)) : Prop := {
  ct_history : exists l, ops (host s) = ops k0 ++ l /\ history contained_host k0 l (host s);
  ct_honest : honest (host s);
  ct_live : forall f, live s f = nrules (rules (host s)) id f;
  ct_frame : frame id k1 (host s);
}.

Lemma counted_host k0 k1 id s : counted k0 k1 id s -> contained_host (host s).
Proof. intros [(l & _ & H) _ _ _]. by eapply history_last. Qed.

(** One write more. *)
Lemma counted_write k0 k1 id s s' o :
  counted k0 k1 id s -> host s' = apply_op (host s) o -> ops (host s') = ops (host s) ++ [o] ->
  steady (host s) (host s') -> contained_host (host s') ->
  filter (fun r => ~ mine_rule id r) (rules (host s')) = filter (fun r => ~ mine_rule id r) (rules (host s)) ->
  filter (fun r => roTable r <> Table id) (routes (host s')) = filter (fun r => roTable r <> Table id) (routes (host s)) ->
  (forall f, live s' f = nrules (rules (host s')) id f) -> counted k0 k1 id s'.
Proof.
  intros [(l & Ho & Hh) Hn Hl [Hs Hr Hro]] He Hops Hst Hc Hr' Hro' Hl'. split.
  - exists (l ++ [o]). split; [by rewrite Hops, Ho, app_assoc|]. rewrite He in *. by constructor.
  - by eapply steady_honest.
  - done.
  - split; [by eapply steady_trans|congruence|congruence].
Qed.

(** A pass that only learned of a failure. *)
Lemma counted_failing k0 k1 id s f : counted k0 k1 id s -> counted k0 k1 id (failing s (host s) f).
Proof. by intros [? ? ? ?]. Qed.

Lemma filter_dropped {A} (P : A -> Prop) `{!forall x, Decision (P x)} l1 x l2 :
  ~ P x -> filter P (l1 ++ x :: l2) = filter P (l1 ++ l2).
Proof. intros Hx. by rewrite !filter_app, filter_cons, decide_False. Qed.
Lemma filter_added {A} (P : A -> Prop) `{!forall x, Decision (P x)} l x :
  ~ P x -> filter P (l ++ [x]) = filter P l.
Proof. intros Hx. by rewrite filter_app, filter_cons, decide_False, filter_nil, app_nil_r. Qed.

Lemma nrules_added id l r f :
  mine_rule id r -> nrules (l ++ [r]) id f = nrules l id f + (if decide (ruFamily r = f) then 1 else 0).
Proof.
  intros Hr. unfold nrules. rewrite filter_app, length_app, filter_cons, filter_nil.
  case_decide as H1; case_decide as H2; simpl; try lia; tauto.
Qed.
Lemma nrules_dropped id l1 r l2 f :
  mine_rule id r ->
  nrules (l1 ++ r :: l2) id f = nrules (l1 ++ l2) id f + (if decide (ruFamily r = f) then 1 else 0).
Proof.
  intros Hr. unfold nrules. rewrite !filter_app, filter_cons, !length_app.
  case_decide as H1; case_decide as H2; simpl; rewrite ?length_app; try lia; tauto.
Qed.

Lemma nrules_none l id f rule : nrules l id f <= 0 -> rule ∈ l -> mine_rule id rule -> ruFamily rule <> f.
Proof.
  intros Hn Hr Hm Hf. unfold nrules in Hn.
  assert (rule ∈ filter (fun r => mine_rule id r /\ ruFamily r = f) l) as Hin by (by apply list_elem_of_filter).
  destruct (filter _ l) as [|x t]; [by apply not_elem_of_nil in Hin|]. simpl in Hn. lia.
Qed.

(** Fewer rules, more routes. *)
Lemma contained_mono k k' :
  (forall r, r ∈ rules k' -> r ∈ rules k) ->
  (forall r id, r ∈ routes k -> is_blackhole id r -> r ∈ routes k') ->
  contained_host k -> contained_host k'.
Proof.
  intros Hru Hro Hc rule id Hr Hm. destruct (Hc rule id (Hru _ Hr) Hm) as (route & ? & Hb & ?).
  exists route. eauto.
Qed.

Lemma mine_id id id' r : mine_rule id r -> mine_rule id' r -> id = id'.
Proof. unfold mine_rule, Prio. lia. Qed.
Lemma blackhole_id id id' r : is_blackhole id r -> is_blackhole id' r -> id = id'.
Proof. unfold is_blackhole, Table. lia. Qed.

(** ** The loops *)

(** A write of routes outside the blackholes, or of blackholes to add. *)
Lemma counted_routes k0 k1 id s s' o :
  counted k0 k1 id s -> host s' = apply_op (host s) o -> ops (host s') = ops (host s) ++ [o] ->
  steady (host s) (host s') -> live s' = live s -> rules (host s') = rules (host s) ->
  (forall r i, r ∈ routes (host s) -> is_blackhole i r -> r ∈ routes (host s')) ->
  filter (fun r => roTable r <> Table id) (routes (host s')) = filter (fun r => roTable r <> Table id) (routes (host s)) ->
  counted k0 k1 id s'.
Proof.
  intros Hc He Ho Hst Hl Hr Hb Hro. eapply counted_write; eauto.
  - apply (contained_mono (host s)); [by rewrite Hr|exact Hb|by eapply counted_host].
  - by rewrite Hr.
  - intros f. rewrite Hl, Hr. apply Hc.
Qed.

Lemma del_rule_counted k0 k1 id s rule :
  counted k0 k1 id s -> rule ∈ rules (host s) -> mine_rule id rule ->
  counted k0 k1 id (del_rule s rule) /\ routes (host (del_rule s rule)) = routes (host s) /\
  contained (del_rule s rule) = contained s /\
  forall x, (times (rules (host s)) x <= times (rules (host (del_rule s rule))) x + (if decide (rule = x) then 1 else 0))%nat.
Proof.
  intros Hc Hin Hm. unfold del_rule. pose proof (DelRule_spec (host s) rule) as Hd.
  destruct (DelRule (host s) rule) as [w r]. destruct Hd as (He & Ho & Hst & Hro & _ & Hr).
  assert (forall fs, rules w = rules (host s) -> counted k0 k1 id (mkPass w (live s) (contained s) fs)) as Hfail.
  { intros fs Hrw. eapply counted_routes; eauto; simpl; by rewrite ?Hro. }
  destruct r as [[]|e]; simpl.
  - destruct Hr as (_ & l1 & l2 & H1 & H2). split_and!; try done.
    + eapply counted_write; eauto; simpl.
      * apply (contained_mono (host s)); [|by rewrite Hro|by eapply counted_host]. rewrite H1, H2.
        intros x. rewrite !elem_of_app, elem_of_cons. tauto.
      * rewrite H1, H2. symmetry. apply filter_dropped. tauto.
      * by rewrite Hro.
      * intros f. pose proof (ct_live _ _ _ _ Hc f) as Hl. rewrite H1, nrules_dropped in Hl by done. rewrite H2.
        destruct (decide (ruFamily rule = f)) as [<-|Hne].
        -- rewrite fn_lookup_insert. lia.
        -- rewrite fn_lookup_insert_ne by done. lia.
    + intros x. rewrite H1, H2, !times_app, times_cons. lia.
  - destruct Hr as (Hrw & Hr). assert (settledDel e = false) as ->.
    { destruct Hr as [Hr|(_ & _ & Hr)]; [|done]. by eapply ct_honest. }
    split_and!; simpl; try done; [by apply Hfail|]. intros x. rewrite Hrw. lia.
Qed.

Lemma del_rules_counted k0 k1 id l s :
  counted k0 k1 id s -> (forall x, times l x <= times (rules (host s)) x)%nat ->
  (forall x, x ∈ l -> mine_rule id x) ->
  let s' := foldl del_rule s l in
  counted k0 k1 id s' /\ routes (host s') = routes (host s) /\ contained s' = contained s.
Proof.
  revert s. induction l as [|rule l IH]; intros s Hc Ht Hm; simpl; [done|].
  destruct (del_rule_counted k0 k1 id s rule) as (Hc' & Hro & Hco & Hx); [done| |apply Hm; by left|].
  { apply times_elem. specialize (Ht rule). rewrite times_cons, decide_True in Ht by done. lia. }
  destruct (IH (del_rule s rule)) as (H1 & H2 & H3); [done| |intros x ?; apply Hm; by right|].
  - intros x. specialize (Ht x). specialize (Hx x). rewrite times_cons in Ht. lia.
  - split_and!; congruence.
Qed.

(** The families known to be contained are. *)
Definition truthful (id : Z) (s : pass (W := Kernel)) : Prop :=
  forall f, contained s f = true -> exists r, r ∈ routes (host s) /\ is_blackhole id r /\ roFamily r = f.

Definition safe (k0 k1 : Kernel) (id : Z) (s : pass) : Prop := counted k0 k1 id s /\ truthful id s.

Lemma truthful_same id s s' :
  routes (host s') = routes (host s) -> contained s' = contained s -> truthful id s -> truthful id s'.
Proof. intros Hr Hc Ht f. rewrite Hr, Hc. apply Ht. Qed.

Lemma foldl_inv {A S} (P : S -> Prop) (f : S -> A -> S) l s :
  (forall s x, x ∈ l -> P s -> P (f s x)) -> P s -> P (foldl f s l).
Proof.
  revert s. induction l as [|x l IH]; intros s Hf Hs; [done|]. simpl.
  apply IH; [intros; apply Hf; [by right|done]|apply Hf; [by left|done]].
Qed.

(** Adding a route of the table keeps everything. *)
Lemma add_route_safe k0 k1 id s route s' :
  safe k0 k1 id s -> roTable route = Table id ->
  (AddRoute (host s) route).1 = host s' -> live s' = live s ->
  (contained s' = contained s \/
   contained s' = <[roFamily route := true]> (contained s) /\ is_blackhole id route /\ is_ok (AddRoute (host s) route).2 = true) ->
  safe k0 k1 id s'.
Proof.
  intros [Hc Ht] Htab Hw Hl Hco. pose proof (AddRoute_spec (host s) route) as Hd.
  destruct (AddRoute (host s) route) as [w r]. simpl in Hw. subst w.
  destruct Hd as (He & Ho & Hst & Hru & _ & Hr).
  assert (forall x, x ∈ routes (host s) -> x ∈ routes (host s')) as Hmore.
  { intros x Hx. destruct r as [[]|e]; [destruct Hr as (_ & _ & _ & ->)|destruct Hr as [-> _]]; [|done].
    apply elem_of_app. by left. }
  split.
  - eapply counted_routes; eauto. destruct r as [[]|e]; [destruct Hr as (_ & _ & _ & ->)|by destruct Hr as [-> _]].
    apply filter_added. tauto.
  - intros f Hf.
    assert (contained s f = true -> exists r, r ∈ routes (host s') /\ is_blackhole id r /\ roFamily r = f) as Hold.
    { intros Hx. destruct (Ht f Hx) as (x & ? & ? & ?). exists x. auto. }
    destruct Hco as [Hco|(Hco & Hb & Hok)]; rewrite Hco in Hf; [auto|].
    destruct (decide (roFamily route = f)) as [<-|Hne].
    + exists route. destruct r as [[]|e]; [|done]. destruct Hr as (_ & _ & _ & ->). split_and!; try done.
      apply elem_of_app. right. by left.
    + rewrite fn_lookup_insert_ne in Hf by done. auto.
Qed.

Lemma add_blackhole_safe k0 k1 id s route :
  is_blackhole id route -> safe k0 k1 id s -> safe k0 k1 id (add_blackhole s route).
Proof.
  intros Hb Hs. unfold add_blackhole. destruct (AddRoute (host s) route) as [w [[]|e]] eqn:E;
    apply (add_route_safe k0 k1 id s route); rewrite ?E; simpl; auto; try apply Hb.
Qed.
Lemma add_throw_safe k0 k1 id s route :
  roTable route = Table id -> safe k0 k1 id s -> safe k0 k1 id (add_throw s route).
Proof.
  intros Hb Hs. unfold add_throw. destruct (AddRoute (host s) route) as [w [[]|e]] eqn:E;
    apply (add_route_safe k0 k1 id s route); rewrite ?E; simpl; auto.
Qed.
Lemma add_front_safe k0 k1 id s route :
  roTable route = Table id -> safe k0 k1 id s -> safe k0 k1 id (add_front s route).
Proof.
  intros Hb Hs. unfold add_front. destruct (AddRoute (host s) route) as [w [[]|e]] eqn:E; [|destruct (retryable e)];
    apply (add_route_safe k0 k1 id s route); rewrite ?E; simpl; auto.
Qed.

Lemma add_rule_safe k0 k1 id s rule :
  mine_rule id rule -> safe k0 k1 id s -> safe k0 k1 id (add_rule s rule).
Proof.
  intros Hm [Hc Ht]. unfold add_rule. destruct (contained s (ruFamily rule)) eqn:Hf; cbn [negb];
    [|split; [by apply counted_failing|exact Ht]].
  pose proof (AddRule_spec (host s) rule) as Hd. destruct (AddRule (host s) rule) as [w r].
  destruct Hd as (He & Ho & Hst & Hro & _ & Hr). destruct r as [[]|e]; simpl.
  - destruct Hr as (_ & _ & Hr). split; [|by apply (truthful_same id s)].
    eapply counted_write; eauto; simpl.
    + intros x i Hx Hi. rewrite Hr in Hx. rewrite Hro. apply elem_of_app in Hx as [Hx|Hx].
      * by apply (counted_host _ _ _ _ Hc).
      * apply list_elem_of_singleton in Hx as ->. rewrite (mine_id i id rule) by done. by apply Ht.
    + rewrite Hr. apply filter_added. tauto.
    + by rewrite Hro.
    + intros f. rewrite Hr, nrules_added by done. pose proof (ct_live _ _ _ _ Hc) as Hl.
      destruct (decide (ruFamily rule = f)) as [<-|Hne]; rewrite ?fn_lookup_insert, ?fn_lookup_insert_ne by done;
        rewrite Hl; lia.
  - destruct Hr as [Hr _]. split; [|by apply (truthful_same id s)].
    eapply counted_routes; eauto; simpl; by rewrite ?Hro.
Qed.

(** Removing a route of the table: a blackhole only where no rule is left. *)
Lemma del_route_counted k0 k1 id what s route :
  counted k0 k1 id s -> roTable route = Table id ->
  (is_blackhole id route -> nrules (rules (host s)) id (roFamily route) <= 0) ->
  counted k0 k1 id (del_route what s route).
Proof.
  intros Hc Htab Hb. unfold del_route. pose proof (DelRoute_spec (host s) route) as Hd.
  destruct (DelRoute (host s) route) as [w r]. destruct Hd as (He & Ho & Hst & Hru & _ & Hr).
  assert (forall fs, counted k0 k1 id (mkPass w (live s) (contained s) fs)) as Hgo.
  { intros fs. eapply counted_write; eauto; simpl.
    - intros x i Hx Hi. rewrite Hru in Hx. destruct (counted_host _ _ _ _ Hc x i Hx Hi) as (y & Hy & Hby & Hfy).
      exists y. split_and!; try done. destruct r as [[]|e]; [|by destruct Hr as [-> _]].
      destruct Hr as (l1 & l2 & H1 & ->). rewrite H1, elem_of_app, elem_of_cons in Hy. rewrite elem_of_app.
      destruct Hy as [?|[->|?]]; auto. exfalso.
      assert (i = id) as -> by (destruct Hby as [Hy _]; unfold Table in *; lia).
      eapply nrules_none; [apply (Hb Hby)|exact Hx|done|done].
    - by rewrite Hru.
    - destruct r as [[]|e]; [|by destruct Hr as [-> _]]. destruct Hr as (l1 & l2 & -> & ->). symmetry.
      apply filter_dropped. tauto.
    - intros f. rewrite Hru. apply Hc. }
  destruct r as [[]|e]; [apply Hgo|]. destruct (settledDel e); apply Hgo.
Qed.

Lemma del_route_safe k0 k1 id what s route :
  roTable route = Table id -> ~ is_blackhole id route -> safe k0 k1 id s -> safe k0 k1 id (del_route what s route).
Proof.
  intros Htab Hb [Hc Ht]. split; [apply del_route_counted; try done|].
  intros f. unfold del_route. pose proof (DelRoute_spec (host s) route) as Hd.
  destruct (DelRoute (host s) route) as [w r]. destruct Hd as (He & Ho & Hst & Hru & _ & Hr).
  assert (contained s f = true -> exists r, r ∈ routes w /\ is_blackhole id r /\ roFamily r = f) as Hgo.
  { intros Hf. destruct (Ht f Hf) as (y & Hy & Hby & Hfy). exists y. split_and!; try done.
    destruct r as [[]|e]; [|by destruct Hr as [-> _]]. destruct Hr as (l1 & l2 & H1 & ->).
    rewrite H1, elem_of_app, elem_of_cons in Hy. rewrite elem_of_app. destruct Hy as [?|[->|?]]; tauto. }
  destruct r as [[]|e]; [apply Hgo|]. destruct (settledDel e); apply Hgo.
Qed.

Lemma del_blackhole_counted k0 k1 id s route :
  roTable route = Table id -> counted k0 k1 id s -> counted k0 k1 id (del_blackhole s route).
Proof.
  intros Htab Hc. unfold del_blackhole. destruct (Z.ltb_spec 0 (live s (roFamily route))); [by apply counted_failing|].
  apply del_route_counted; [done|done|]. intros _. by rewrite <-(ct_live _ _ _ _ Hc).
Qed.

Lemma set_sysctl_counted k0 k1 id m s key : counted k0 k1 id s -> counted k0 k1 id (set_sysctl m s key).
Proof.
  intros Hc. unfold set_sysctl.
  assert (forall fs, counted k0 k1 id
    (mkPass (SetSysctl (host s) key (default "" (m !! key))).1 (live s) (contained s) fs)) as Hgo.
  { intros fs. pose proof (SetSysctl_spec (host s) key (default "" (m !! key))) as Hd.
    destruct (SetSysctl (host s) key (default "" (m !! key))) as [w r]. destruct Hd as (He & Ho & Hst & Hru & Hro & _).
    eapply counted_routes; eauto; simpl; by rewrite ?Hro. }
  assert (forall s', s' = (let '(w, r) := SetSysctl (host s) key (default "" (m !! key)) in
    match r with Ok _ => onto s w | Fail err => if retryable err then onto s w else failing s w (Setting key (default "" (m !! key)) err) end) ->
    counted k0 k1 id s') as Hwrite.
  { intros s' ->. destruct (SetSysctl (host s) key (default "" (m !! key))) as [w [[]|e]]; [apply Hgo|].
    destruct (retryable e); apply Hgo. }
  destruct (Sysctl (host s) key) as [current|e]; [case_bool_decide|destruct (retryable e)]; auto.
Qed.

(** ** A pass *)

Section Pass.
Context {PT : PrefixText}.
Implicit Types (drivers : Registry Kernel) (k : Kernel).

(** Everything a row asks for is of its id. *)
Lemma plan_owned drivers e snap :
  let w := (plan drivers e snap).1 in
  (forall r, r ∈ wrules w -> mine_rule (ID e) r) /\
  (forall r, r ∈ blackholes w -> is_blackhole (ID e) r) /\
  (forall r, r ∈ throws w -> is_throw (ID e) r) /\
  (forall r, r ∈ fronts w -> roTable r = Table (ID e) /\ roType r = RouteUnicast).
Proof.
  cbv zeta. unfold plan. destruct (Enable e); cbn [negb];
    [|split_and!; by intros r ?%not_elem_of_nil].
  destruct (match For drivers (Type_ e) with None => _ | Some _ => _ end) as [fill problem].
  cbn [fst wrules blackholes throws fronts]. split_and!.
  - intros r. rewrite !elem_of_app. intros [Hr|[Hr|Hr]].
    + apply list_elem_of_bind in Hr as (iif & Hr & _). apply list_elem_of_fmap in Hr as (f & -> & _). by split.
    + apply list_elem_of_fmap in Hr as (src & -> & _). by split.
    + destruct (Marked fill); [|by apply not_elem_of_nil in Hr].
      apply list_elem_of_fmap in Hr as (f & -> & _). by split.
  - intros r Hr. apply list_elem_of_fmap in Hr as (f & -> & _). by split_and!.
  - intros r Hr. apply list_elem_of_fmap in Hr as (src & -> & _). by split.
  - intros r Hr. apply list_elem_of_fmap in Hr as (f & -> & _). by split.
Qed.

(** The snapshot still says what [id] owns. *)
Definition agrees (snap : Snapshot) (k : Kernel) (id : Z) : Prop :=
  filter (mine_rule id) (Rules snap) = filter (mine_rule id) (rules k) /\
  filter (is_blackhole id) (Routes snap) = filter (is_blackhole id) (routes k).

Lemma install_counted drivers k0 k1 e snap snap' dev named start :
  counted k0 k1 (ID e) start -> agrees snap' (host start) (ID e) ->
  let h := ownedView snap' (ID e) dev named in contained start = contained_of h ->
  counted k0 k1 (ID e) (install (plan drivers e snap).1 h start).
Proof.
  intros Hc [Hru Hbl]. cbv zeta. intros Hcon.
  destruct (plan_owned drivers e snap) as (Pr & Pb & Pt & Pf).
  destruct (ownedView_spec snap' (ID e) dev named) as (Vr & Vb & Vf & Vt & _).
  set (h := ownedView snap' (ID e) dev named) in *. set (w := (plan drivers e snap).1) in *.
  unfold install. pose proof (diff_times (wrules w) (hrules h)) as Tr.
  pose proof (diff_add_in (wrules w) (hrules h)) as Ar. pose proof (diff_del_in (wrules w) (hrules h)) as Dr.
  pose proof (diff_add_in (blackholes w) (hblackholes h)) as Ab. pose proof (diff_del_in (blackholes w) (hblackholes h)) as Db.
  pose proof (diff_add_in (throws w) (hthrows h)) as At. pose proof (diff_del_in (throws w) (hthrows h)) as Dt.
  pose proof (diff_add_in (fronts w) (hfronts h)) as Af. pose proof (diff_del_in (fronts w) (hfronts h)) as Df.
  destruct (diff (wrules w) (hrules h)) as [addRules delRules], (diff (blackholes w) (hblackholes h)) as [addBlack delBlack],
    (diff (throws w) (hthrows h)) as [addThrow delThrow], (diff (fronts w) (hfronts h)) as [addFront delFront].
  simpl in *.
  assert (forall r, r ∈ hfronts h -> roTable r = Table (ID e) /\ ~ is_blackhole (ID e) r) as Hf.
  { rewrite Vf. intros r ((Ht & Hy & _) & _)%list_elem_of_filter. split; [done|]. intros (_ & Hb & _). congruence. }
  assert (forall r, r ∈ hthrows h -> roTable r = Table (ID e) /\ ~ is_blackhole (ID e) r) as Hth.
  { rewrite Vt. intros r ((Ht & Hy) & _)%list_elem_of_filter. split; [done|]. intros (_ & Hb & _). congruence. }
  unfold applySysctls. apply foldl_inv; [intros; by apply set_sysctl_counted|].
  apply foldl_inv.
  { intros s r Hr. apply del_blackhole_counted. apply Db in Hr. rewrite Vb in Hr.
    by apply list_elem_of_filter in Hr as [[? _] _]. }
  cut (safe k0 k1 (ID e) (foldl (del_route Unexcepting) (foldl add_front (foldl (del_route Withdrawing)
    (foldl add_rule (foldl add_throw (foldl add_blackhole (foldl del_rule start delRules) addBlack) addThrow) addRules)
    delFront) addFront) delThrow)); [by intros [? _]|].
  apply foldl_inv; [intros s r Hr; destruct (Hth r (Dt r Hr)); by apply del_route_safe|].
  apply foldl_inv; [intros s r Hr; apply add_front_safe; by apply Pf, Af|].
  apply foldl_inv; [intros s r Hr; destruct (Hf r (Df r Hr)); by apply del_route_safe|].
  apply foldl_inv; [intros s r Hr; by apply add_rule_safe, Pr, Ar|].
  apply foldl_inv; [intros s r Hr; by apply add_throw_safe, Pt, At|].
  apply foldl_inv; [intros s r Hr; by apply add_blackhole_safe, Pb, Ab|].
  destruct (del_rules_counted k0 k1 (ID e) delRules start) as (H1 & H2 & H3); [done| | |].
  - intros x. rewrite (proj2 (Tr x)), Vr, Hru, times_filter. case_decide; lia.
  - intros x Hx. apply Dr in Hx. rewrite Vr in Hx. by apply list_elem_of_filter in Hx as [? _].
  - split; [exact H1|]. apply (truthful_same _ start); [done|done|].
    intros f. rewrite Hcon, contained_in, Vb, Hbl. intros (r & Hr & ?). apply list_elem_of_filter in Hr as [? ?]. eauto.
Qed.

(** ** Provisioners *)

Lemma tame_refl k : tame k k.
Proof. by split. Qed.
Lemma tame_trans k1 k2 k3 : tame k1 k2 -> tame k2 k3 -> tame k1 k3.
Proof. intros [? ? ? ? ?] [? ? ? ? ?]. split; congruence. Qed.

(** Every registered provisioner keeps to devices. *)
Definition tame_drivers drivers : Prop :=
  forall name d p, For drivers name = Some d -> dProvisioner d = Some p ->
  (forall k e, tame k (Provision p k e).1) /\ (forall k id, tame k (Deprovision p k id).1).

Lemma deprovisionAll_tame drivers k id : tame_drivers drivers -> tame k (deprovisionAll drivers k id).1.
Proof.
  intros Ht. unfold deprovisionAll.
  assert (tame k (foldl (deprovision_one drivers id) (k, []) (Types drivers)).1) as Hgo.
  { apply (foldl_inv (fun s : Kernel * list error => tame k s.1)); [|apply tame_refl].
    intros [k1 fs] name _ H1. unfold deprovision_one. destruct (For drivers name) as [d|] eqn:Hd; [|done].
    destruct (dProvisioner d) as [p|] eqn:Hp; [|done]. destruct (Ht _ _ _ Hd Hp) as [_ Hdp].
    specialize (Hdp k1 id). simpl. destruct (Deprovision p k1 id) as [k2 r]. by eapply tame_trans. }
  by destruct (foldl _ _ _) as [k' fs].
Qed.

Lemma provision_tame drivers k e : tame_drivers drivers -> tame k (provision drivers k e).1.
Proof.
  intros Ht. unfold provision. case_bool_decide.
  - pose proof (deprovisionAll_tame drivers k (ID e) Ht) as Hd. by destruct (deprovisionAll drivers k (ID e)).
  - destruct (For drivers (Type_ e)) as [d|] eqn:Hd; [|apply tame_refl].
    destruct (dProvisioner d) as [p|] eqn:Hp; [|apply tame_refl]. destruct (Ht _ _ _ Hd Hp) as [Hpr Hdp].
    specialize (Hpr k e). specialize (Hdp k (ID e)). destruct (Enable e); simpl.
    + by destruct (Provision p k e).
    + by destruct (Deprovision p k (ID e)).
Qed.

Lemma tame_blackholes k k' id : tame k k' -> filter (is_blackhole id) (routes k') = filter (is_blackhole id) (routes k).
Proof.
  intros [_ Hr _ _ _].
  assert (forall l : list RouteSpec, filter (is_blackhole id) (filter (fun r => roType r <> RouteUnicast) l) = filter (is_blackhole id) l) as Hf.
  { intros l. apply list_filter_filter_l. intros x (_ & Hy & _). congruence. }
  by rewrite <-(Hf (routes k')), Hr, Hf.
Qed.

Lemma tame_contained k k' : tame k k' -> contained_host k -> contained_host k'.
Proof.
  intros Ht. apply contained_mono; [by rewrite (tm_rules _ _ Ht)|].
  intros r id Hr Hb. assert (r ∈ filter (is_blackhole id) (routes k)) as Hin by (by apply list_elem_of_filter).
  rewrite <-(tame_blackholes k k' id Ht) in Hin. by apply list_elem_of_filter in Hin as [_ ?].
Qed.

Lemma tame_agrees snap k k' id : tame k k' -> agrees snap k id -> agrees snap k' id.
Proof. intros Ht [H1 H2]. split; [by rewrite (tm_rules _ _ Ht)|by rewrite (tame_blackholes k k' id Ht)]. Qed.

(** The writes to one id leave what another one owns. *)
Lemma frame_agrees snap k k' id id' : id <> id' -> frame id k k' -> agrees snap k id' -> agrees snap k' id'.
Proof.
  intros Hne [_ Hr Hro] [H1 H2].
  assert (forall l : list RuleSpec, filter (mine_rule id') (filter (fun r => ~ mine_rule id r) l) = filter (mine_rule id') l) as F1.
  { intros l. apply list_filter_filter_l. intros x Hx Hy. by rewrite (mine_id id id' x) in Hne. }
  assert (forall l : list RouteSpec, filter (is_blackhole id') (filter (fun r => roTable r <> Table id) l) = filter (is_blackhole id') l) as F2.
  { intros l. apply list_filter_filter_l. intros x (Hx & _). unfold Table in *. lia. }
  split; [by rewrite H1, <-F1, <-Hr, F1|by rewrite H2, <-F2, <-Hro, F2].
Qed.

(** Reached from [k0] by contained hosts, the writes being those of the log. *)
Definition reached (k0 k : Kernel) : Prop :=
  (exists l, ops k = ops k0 ++ l /\ history contained_host k0 l k) /\ honest k.

Lemma reached_tame k0 k k' : reached k0 k -> tame k k' -> reached k0 k'.
Proof.
  intros [(l & Ho & Hh) Hn] Ht. split.
  - exists l. split; [by rewrite (tm_ops _ _ Ht)|]. eapply history_driver; [done..|].
    eapply tame_contained; [done|by eapply history_last].
  - intros r e. rewrite (tm_fails _ _ Ht). apply Hn.
Qed.

Lemma converge_reached drivers k0 k snap e :
  tame_drivers drivers -> reached k0 k -> agrees snap k (ID e) ->
  let k' := (converge drivers k snap e).1 in
  reached k0 k' /\ exists k1, tame k k1 /\ frame (ID e) k1 k'.
Proof.
  intros Ht Hr Ha. cbv zeta. unfold converge. destruct (checkID (ID e)) as [[]|err];
    [|split; [done|]; exists k; split; [apply tame_refl|apply frame_refl]].
  pose proof (provision_tame drivers k e Ht) as Hp. destruct (provision drivers k e) as [k1 [provisioned perr]].
  simpl in Hp. destruct (plan drivers e snap) as [wt planErr] eqn:Hplan.
  match goal with |- context [if ?c then ?a else ?b] => set (X := if c then a else b) end.
  assert (exists snap1 snap2, X = (snap1, plan drivers e snap2) /\ agrees snap1 k1 (ID e)) as (snap1 & snap2 & HX & Ha1).
  { subst X. assert (agrees snap k1 (ID e)) by (by eapply tame_agrees).
    destruct (_ && _); [|exists snap, snap; by rewrite Hplan].
    cbn [plane_Snapshot KernelPlane]. unfold kernel_Snapshot. destruct (SnapshotErr k1).
    - exists snap, snap. by rewrite Hplan.
    - by eexists _, _. }
  rewrite HX. clear X HX. destruct (plan drivers e snap2) as [wt2 planErr2] eqn:Hplan2.
  pose proof (reached_tame k0 k k1 Hr Hp) as [Hh Hn].
  set (h := ownedView snap1 (ID e) (device wt2) (namedFor drivers (ID e))).
  set (start := mkPass k1 (live_of h) (contained_of h) (problem_of planErr2 ++ problem_of perr)).
  destruct (ownedView_spec snap1 (ID e) (device wt2) (namedFor drivers (ID e))) as (Vr & _).
  assert (counted k0 k1 (ID e) (install (plan drivers e snap2).1 h start)) as Hc.
  { apply install_counted; [|done|done]. split; [exact Hh|exact Hn| |apply frame_refl].
    intros f. simpl. rewrite live_times. fold h in Vr. rewrite Vr, (proj1 Ha1). unfold nrules.
    f_equal. f_equal. rewrite list_filter_filter. apply list_filter_iff. intros x. tauto. }
  rewrite Hplan2 in Hc. simpl in *. split; [split; apply Hc|]. exists k1. split; [done|apply Hc].
Qed.
(** ** The entry points *)

Lemma Ensure_reached drivers k0 k e :
  tame_drivers drivers -> reached k0 k -> reached k0 (Ensure drivers k e).1.
Proof.
  intros Ht Hr. unfold Ensure. cbn [plane_Snapshot KernelPlane]. unfold kernel_Snapshot.
  destruct (SnapshotErr k); [done|]. by apply converge_reached.
Qed.

(** The table of rows keys every row by its id. *)
Lemma rows_by_id_key rows snap id e : rows_by_id rows snap !! id = Some e -> ID e = id.
Proof.
  unfold rows_by_id.
  set (keyed := fun m : gmap Z Egress => forall i r, m !! i = Some r -> ID r = i).
  assert (keyed (foldl (fun m row => <[ID row := row]> m) ∅ rows)) as H1.
  { apply (foldl_inv keyed).
    - intros m row _ Hm i r [[<- <-]|[_ ?]]%lookup_insert_Some; [done|by apply Hm].
    - intros i r. by rewrite lookup_empty. }
  match goal with |- foldl ?f ?m ?l !! _ = _ -> _ => assert (keyed (foldl f m l)) as H2 end; [|apply H2].
  apply (foldl_inv keyed); [|done]. intros m i _ Hm. destruct (m !! i) eqn:E; [done|].
  intros j r [[<- <-]|[_ ?]]%lookup_insert_Some; [done|by apply Hm].
Qed.

Lemma reconcile_loop_reached drivers snap (byID : gmap Z Egress) k0 ids s :
  tame_drivers drivers -> (forall id e, byID !! id = Some e -> ID e = id) -> NoDup ids ->
  reached k0 s.1 -> (forall id, id ∈ ids -> agrees snap s.1 id) ->
  reached k0 (foldl (reconcile_one drivers snap byID) s ids).1.
Proof.
  intros Ht Hkey. revert s. induction ids as [|id ids IH]; intros s Hnd Hr Ha; [done|]. simpl.
  apply NoDup_cons in Hnd as [Hni Hnd].
  assert (reached k0 (reconcile_one drivers snap byID s id).1 /\
    forall id', id' ∈ ids -> agrees snap (reconcile_one drivers snap byID s id).1 id') as [H1 H2]; [|by apply IH].
  unfold reconcile_one. destruct (byID !! id) as [e|] eqn:He; [|split; [done|intros; apply Ha; by right]].
  pose proof (Hkey _ _ He) as Hid.
  destruct (converge_reached drivers k0 s.1 snap e Ht Hr) as (H1 & k1 & Hk1 & Hf); [rewrite Hid; apply Ha; by left|].
  destruct (converge drivers s.1 snap e) as [k' fs]. simpl in *. split; [done|].
  intros id' Hin. apply (frame_agrees snap k1 k' (ID e)); [|done|].
  - rewrite Hid. by intros ->.
  - eapply tame_agrees; [done|]. apply Ha. by right.
Qed.

Lemma Reconcile_reached drivers k0 k rows :
  tame_drivers drivers -> reached k0 k -> reached k0 (Reconcile drivers k rows).1.
Proof.
  intros Ht Hr. unfold Reconcile. cbn [plane_Snapshot KernelPlane]. unfold kernel_Snapshot.
  destruct (SnapshotErr k); [done|]. set (snap := mkSnapshot _ _ _ _).
  pose proof (reconcile_loop_reached drivers snap (rows_by_id rows snap) k0
    (merge_sort Z.le (map_to_list (rows_by_id rows snap)).*1) (k, []) Ht (rows_by_id_key rows snap)) as H.
  destruct (foldl _ _ _) as [k' fs]. simpl in *. apply H; [|done|by split].
  rewrite merge_sort_Permutation. apply NoDup_fst_map_to_list.
Qed.

(** What happens on a host: passes of the manager, and devices that come and go. *)
Inductive event :=
| Ensures (e : Egress) | Removes (id : Z) | Reconciles (rows : list Egress)
| LinkUp (name : string) (keys : list string) | LinkDown (name : string) | AddrUp (device : string) (prefix : Prefix).

Definition perform drivers k (v : event) : Kernel :=
  match v with
  | Ensures e => (Ensure drivers k e).1
  | Removes id => (Remove drivers k id).1
  | Reconciles rows => (Reconcile drivers k rows).1
  | LinkUp name keys => AddLink k name keys
  | LinkDown name => DelLink k name
  | AddrUp dev prefix => AddAddr k dev prefix
  end.

Lemma DelLink_tame k name : tame k (DelLink k name).
Proof.
  split; try done. simpl. apply list_filter_filter_l. intros x Hx [? _]. done.
Qed.

Lemma perform_reached drivers k0 k v : tame_drivers drivers -> reached k0 k -> reached k0 (perform drivers k v).
Proof.
  intros Ht Hr. destruct v; simpl.
  - by apply Ensure_reached.
  - by apply Ensure_reached.
  - by apply Reconcile_reached.
  - eapply reached_tame; [done|]. by split.
  - eapply reached_tame; [done|]. apply DelLink_tame.
  - eapply reached_tame; [done|]. by split.
Qed.

(** C21: no attached flow is ever released to the main table.  Whatever rows are ensured,
    removed or reconciled, whatever devices come and go between the passes, and whatever
    writes fail on the way, every host that the writes of the log lead through, one write
    at a time, is contained: a rule of an id always has a blackhole of its own family in
    the table of that id.  Conditions: the host is contained at the start; provisioners
    make and unmake devices and touch no rule and no route but unicast ones
    ([tame_drivers]); and the kernel answers a rule's deletion with "not installed" only
    where the rule is not ([honest]). *)
Theorem flows_stay_contained drivers k (events : list event) :
  tame_drivers drivers -> honest k -> contained_host k ->
  let k' := foldl (perform drivers) k events in
  contained_host k' /\ exists l, ops k' = ops k ++ l /\ history contained_host k l k'.
Proof.
  intros Ht Hh Hc. cbv zeta.
  assert (reached k (foldl (perform drivers) k events)) as [(l & Ho & Hi) _].
  { apply (foldl_inv (reached k)); [intros s v _; by apply perform_reached|]. split; [|done].
    exists []. split; [by rewrite app_nil_r|by constructor]. }
  split; [by eapply history_last|]. eauto.
Qed.
End Pass.

(** ** A concrete host *)

#[local] Existing Instance SampleText.sample_text.

Module SampleUplink.
(** An uplink the panel dials, reached by mark. *)
Definition dialler : Provisioner Kernel :=
  mkProvisioner (fun k e => (AddLink k (Uplink (ID e)) [], Ok tt)) (fun k id => (DelLink k (Uplink id), Ok tt)).
Definition driver : Driver Kernel :=
  mkDriver "wireguard" (fun e => Ok (mkFill (Uplink (ID e)) NoPrefix ∅ true None)) (Some dialler) None.
Definition drivers : Registry Kernel := (Register NewRegistry (Some driver)).1.
Definition row : Egress :=
  mkEgress 7 "wireguard" true "proxy" "" ["pwg7"] [mkPrefix (Addr4 167772160) 8].

(** The stack refuses the blackhole of one family. *)
Definition refusing (o : op) : option error :=
  match o with
  | OpRouteAdd r => if bool_decide (roFamily r = FamilyV6) then Some (ErrorText "no space") else None
  | _ => None
  end.
Definition host0 : Kernel := mkKernel [] [] [] [] ∅ ∅ [] None None refusing false [].

Lemma drivers_tame : tame_drivers drivers.
Proof.
  intros name d p Hd Hp. unfold For in Hd.
  change (byType drivers) with (<["wireguard" := driver]> (∅ : gmap string (Driver Kernel))) in Hd.
  apply lookup_insert_Some in Hd as [[_ <-]|[_ Hd]]; [|by rewrite lookup_empty in Hd].
  injection Hp as <-. split; [by split|intros; apply DelLink_tame].
Qed.

Lemma host0_honest : honest host0.
Proof. by intros r e. Qed.

Definition events : list event := [Ensures row; LinkDown "pux7"; Reconciles [row]; Removes 7].
End SampleUplink.

Lemma flows_stay_contained_witness :
  length (rules (foldl (perform SampleUplink.drivers) SampleUplink.host0 (firstn 3 SampleUplink.events))) = 3%nat /\
  contained_host (foldl (perform SampleUplink.drivers) SampleUplink.host0 SampleUplink.events).
Proof.
  split; [vm_compute; reflexivity|].
  refine (proj1 (flows_stay_contained SampleUplink.drivers SampleUplink.host0 SampleUplink.events
    SampleUplink.drivers_tame SampleUplink.host0_honest _)).
  intros rule id Hr. apply not_elem_of_nil in Hr. destruct Hr.
Defined.
