(* ===== verification/EgressConverge.v ===== *)
(** * Egress: convergence

    One pass over a host that answers makes what an id owns exactly what its row wants,
    leaves everything else alone, and a second pass writes nothing. *)
From stdpp Require Import pretty functions.
From S2P Require Import Prelude Decimal Netip Egress EgressPlane EgressManager EgressFacts EgressSafety.
Open Scope string_scope.
Open Scope Z_scope.
Open Scope list_scope.

(** ** The loops on a host where no write fails *)

Definition answers (k : Kernel) : Prop := forall o, Fails k o = None.

Lemma steady_answers k k' : steady k k' -> answers k -> answers k'.
Proof. intros [_ _ Hf _] Ha o. rewrite Hf. apply Ha. Qed.

(** The state of a pass that reported nothing new, with the rules and routes given. *)
Record went (s s' : pass (W := Kernel)) : Prop := {
  we_steady : steady (host s) (host s');
  we_failures : failures s' = failures s;
}.
Lemma went_refl s : went s s.
Proof. split; [apply steady_refl|done]. Qed.
Lemma went_trans s1 s2 s3 : went s1 s2 -> went s2 s3 -> went s1 s3.
Proof. intros [H1 ?] [H2 ?]. split; [by eapply steady_trans|congruence]. Qed.

Lemma times_removed {A} `{!EqDecision A} (l1 l2 : list A) y x :
  times (l1 ++ l2) x = (times (l1 ++ y :: l2) x - (if decide (y = x) then 1 else 0))%nat.
Proof. rewrite !times_app, times_cons. case_decide; lia. Qed.

Lemma del_rules_went l s :
  answers (host s) ->
  let s' := foldl del_rule s l in
  went s s' /\ routes (host s') = routes (host s) /\ sysctls (host s') = sysctls (host s) /\
  contained s' = contained s /\
  (forall f, live s' f = live s f - Z.of_nat (length (filter (fun r => ruFamily r = f) l))) /\
  forall x, times (rules (host s')) x = (times (rules (host s)) x - times l x)%nat.
Proof.
  cbv zeta. revert s. induction l as [|r l IH]; intros s Ha; simpl.
  { split_and!; [apply went_refl|done|done|done|intros f; simpl; lia|]. intros x. rewrite times_nil. lia. }
  assert (went s (del_rule s r) /\ routes (host (del_rule s r)) = routes (host s) /\
    sysctls (host (del_rule s r)) = sysctls (host s) /\ contained (del_rule s r) = contained s /\
    live (del_rule s r) = <[ruFamily r := live s (ruFamily r) - 1]> (live s) /\
    forall x, times (rules (host (del_rule s r))) x = (times (rules (host s)) x - (if decide (r = x) then 1 else 0))%nat)
    as (H1 & H2 & H3 & H4 & Hl & H5).
  { unfold del_rule. pose proof (DelRule_spec (host s) r) as Hd. destruct (DelRule (host s) r) as [w [[]|e]];
      destruct Hd as (_ & _ & Hst & Hro & Hsy & Hr).
    - destruct Hr as (_ & l1 & l2 & E1 & E2). split_and!; try done. intros x. rewrite E1. simpl. rewrite E2. apply times_removed.
    - destruct Hr as [Hr [Hf|(_ & -> & Hni)]]; [by rewrite Ha in Hf|]. change (settledDel ErrNotInstalled) with true.
      split_and!; try done. intros x. simpl. rewrite Hr. case_decide; [|lia]. subst.
      rewrite times_elem in Hni. lia. }
  destruct (IH (del_rule s r)) as (I1 & I2 & I3 & I4 & Il & I5); [eapply steady_answers; [apply H1|done]|].
  split_and!; try congruence; [by eapply went_trans| |].
  - intros f. rewrite Il, Hl, filter_cons. destruct (decide (ruFamily r = f)) as [<-|Hne].
    + rewrite fn_lookup_insert. simpl. lia.
    + by rewrite fn_lookup_insert_ne.
  - intros x. rewrite I5, H5, times_cons. lia.
Qed.

Lemma del_routes_went what l s :
  answers (host s) ->
  let s' := foldl (del_route what) s l in
  went s s' /\ rules (host s') = rules (host s) /\ sysctls (host s') = sysctls (host s) /\
  live s' = live s /\
  forall x, times (routes (host s')) x = (times (routes (host s)) x - times l x)%nat.
Proof.
  cbv zeta. revert s. induction l as [|r l IH]; intros s Ha; simpl.
  { split_and!; [apply went_refl|done|done|done|]. intros x. rewrite times_nil. lia. }
  assert (went s (del_route what s r) /\ rules (host (del_route what s r)) = rules (host s) /\
    sysctls (host (del_route what s r)) = sysctls (host s) /\ live (del_route what s r) = live s /\
    forall x, times (routes (host (del_route what s r))) x = (times (routes (host s)) x - (if decide (r = x) then 1 else 0))%nat)
    as (H1 & H2 & H3 & H4 & H5).
  { unfold del_route. pose proof (DelRoute_spec (host s) r) as Hd. destruct (DelRoute (host s) r) as [w [[]|e]];
      destruct Hd as (_ & _ & Hst & Hro & Hsy & Hr).
    - destruct Hr as (l1 & l2 & E1 & E2). split_and!; try done. intros x. rewrite E1. simpl. rewrite E2. apply times_removed.
    - destruct Hr as [Hr [Hf|(_ & -> & Hni)]]; [by rewrite Ha in Hf|]. change (settledDel ErrNotInstalled) with true.
      split_and!; try done. intros x. simpl. rewrite Hr. case_decide; [|lia]. subst.
      rewrite times_elem in Hni. lia. }
  destruct (IH (del_route what s r)) as (I1 & I2 & I3 & I4 & I5); [eapply steady_answers; [apply H1|done]|].
  split_and!; try congruence; [by eapply went_trans|]. intros x. rewrite I5, H5, times_cons. lia.
Qed.

Lemma del_blackholes_went l s :
  answers (host s) -> (forall r, r ∈ l -> live s (roFamily r) <= 0) ->
  foldl del_blackhole s l = foldl (del_route Uncontaining) s l.
Proof.
  revert s. induction l as [|r l IH]; intros s Ha Hl; [done|]. simpl.
  assert (del_blackhole s r = del_route Uncontaining s r) as ->.
  { unfold del_blackhole. destruct (Z.ltb_spec 0 (live s (roFamily r))) as [Hx|]; [|done].
    assert (live s (roFamily r) <= 0) by (apply Hl; by left). lia. }
  destruct (del_routes_went Uncontaining [r] s Ha) as (H1 & _ & _ & H4 & _). simpl in H1, H4.
  apply IH; [eapply steady_answers; [apply H1|done]|]. rewrite H4. intros x Hx. apply Hl. by right.
Qed.

(** A route that finds its place free. *)
Definition fits (k : Kernel) (r : RouteSpec) : Prop :=
  (roType r = RouteUnicast -> roDevice r ∈ links k) /\ forall x, x ∈ routes k -> sameRoute x r = false.

Lemma AddRoute_fits k r :
  answers k -> fits k r ->
  exists w, AddRoute k r = (w, Ok tt) /\ steady k w /\ rules w = rules k /\ sysctls w = sysctls k /\ routes w = routes k ++ [r].
Proof.
  intros Ha [Hd Hs]. pose proof (AddRoute_spec k r) as H. destruct (AddRoute k r) as [w [[]|e]];
    destruct H as (_ & _ & Hst & Hru & Hsy & Hr).
  - destruct Hr as (_ & _ & _ & Hr). exists w. done.
  - destruct Hr as [_ Hr]. destruct (Hr (Ha _)) as [[Hu Hn]|(x & Hx & Hsx)]; [tauto|]. by rewrite (Hs x Hx) in Hsx.
Qed.

(** Adding a list of routes whose places are free and distinct, by any of the three loops. *)
Lemma add_routes_went (step : pass (W := Kernel) -> RouteSpec -> pass) (learn : (Family -> bool) -> RouteSpec -> Family -> bool) l s :
  (forall s r w, AddRoute (host s) r = (w, Ok tt) -> step s r = mkPass w (live s) (learn (contained s) r) (failures s)) ->
  answers (host s) -> (forall r, r ∈ l -> fits (host s) r) ->
  StronglySorted (fun a b => sameRoute a b = false) l ->
  let s' := foldl step s l in
  went s s' /\ rules (host s') = rules (host s) /\ sysctls (host s') = sysctls (host s) /\
  live s' = live s /\ contained s' = foldl learn (contained s) l /\ routes (host s') = routes (host s) ++ l.
Proof.
  intros Hstep. cbv zeta. revert s. induction l as [|r l IH]; intros s Ha Hf Hsort; simpl.
  { rewrite app_nil_r. by split_and!; [apply went_refl|..]. }
  inversion Hsort as [|? ? Hsort' Hr]; subst. rewrite Forall_forall in Hr.
  destruct (AddRoute_fits (host s) r Ha) as (w & He & Hst & Hru & Hsy & Hro); [apply Hf; by left|].
  rewrite (Hstep s r w He). set (s1 := mkPass w (live s) (learn (contained s) r) (failures s)).
  destruct (IH s1) as (I1 & I2 & I3 & I4 & I5 & I6).
  - by eapply steady_answers.
  - intros x Hx. destruct (Hf x) as [F1 F2]; [by right|]. split; [simpl; by rewrite (st_links _ _ Hst)|].
    intros y. simpl. rewrite Hro, elem_of_app, list_elem_of_singleton. intros [?| ->]; [by apply F2|by apply Hr].
  - done.
  - simpl in *. split_and!; try congruence.
    + eapply went_trans; [|done]. by split.
    + by rewrite I6, Hro, <-app_assoc.
Qed.

Lemma add_rules_went l s :
  answers (host s) -> (forall r, r ∈ l -> contained s (ruFamily r) = true) ->
  (forall r, r ∈ l -> r ∉ rules (host s)) -> NoDup l ->
  let s' := foldl add_rule s l in
  went s s' /\ routes (host s') = routes (host s) /\ sysctls (host s') = sysctls (host s) /\
  rules (host s') = rules (host s) ++ l.
Proof.
  cbv zeta. revert s. induction l as [|r l IH]; intros s Ha Hc Hn Hnd; simpl.
  { rewrite app_nil_r. by split_and!; [apply went_refl|..]. }
  apply NoDup_cons in Hnd as [Hni Hnd].
  assert (went s (add_rule s r) /\ routes (host (add_rule s r)) = routes (host s) /\
    sysctls (host (add_rule s r)) = sysctls (host s) /\ contained (add_rule s r) = contained s /\
    rules (host (add_rule s r)) = rules (host s) ++ [r]) as (H1 & H2 & H3 & H4 & H5).
  { unfold add_rule. rewrite (Hc r) by (by left). cbn [negb]. pose proof (AddRule_spec (host s) r) as Hd.
    destruct (AddRule (host s) r) as [w [[]|e]]; destruct Hd as (_ & _ & Hst & Hro & Hsy & Hr).
    - destruct Hr as (_ & _ & Hr). by split_and!.
    - destruct Hr as [_ Hr]. exfalso. eapply Hn; [by left|]. by apply Hr, Ha. }
  destruct (IH (add_rule s r)) as (I1 & I2 & I3 & I4).
  - eapply steady_answers; [apply H1|done].
  - intros x Hx. rewrite H4. apply Hc. by right.
  - intros x Hx. rewrite H5, elem_of_app, list_elem_of_singleton. intros [Hx'| ->]; [|done]. eapply Hn; [by right|done].
  - done.
  - split_and!; try congruence; [by eapply went_trans|]. by rewrite I4, H5, <-app_assoc.
Qed.

(** The knobs: a present one takes the value, an absent one stays absent. *)
Lemma set_sysctls_went m l s :
  answers (host s) ->
  let s' := foldl (set_sysctl m) s l in
  went s s' /\ rules (host s') = rules (host s) /\ routes (host s') = routes (host s) /\
  (forall key, sysctls (host s') !! key =
    if decide (key ∈ l) then (fun _ => default "" (m !! key)) <$> sysctls (host s) !! key else sysctls (host s) !! key).
Proof.
  cbv zeta. revert s. induction l as [|key l IH]; intros s Ha.
  { split_and!; [apply went_refl|done|done|]. intros key. by rewrite decide_False by apply not_elem_of_nil. }
  cbn [foldl].
  assert (went s (set_sysctl m s key) /\ rules (host (set_sysctl m s key)) = rules (host s) /\
    routes (host (set_sysctl m s key)) = routes (host s) /\
    (forall key', sysctls (host (set_sysctl m s key)) !! key' =
      if decide (key' = key) then (fun _ => default "" (m !! key')) <$> sysctls (host s) !! key' else sysctls (host s) !! key'))
    as (H1 & H2 & H3 & H4).
  { unfold set_sysctl. cbn [Sysctl KernelPlane]. unfold kernel_Sysctl. destruct (sysctls (host s) !! key) as [v|] eqn:Ev.
    - case_bool_decide as Hv; [split_and!; [apply went_refl|done|done|]|].
      { intros key'. case_decide; [subst|done]. rewrite Ev. simpl. by subst. }
      pose proof (SetSysctl_spec (host s) key (default "" (m !! key))) as Hd.
      destruct (SetSysctl (host s) key (default "" (m !! key))) as [w [[]|e]]; destruct Hd as (_ & _ & Hst & Hru & Hro & Hr).
      + split_and!; try done. intros key'. simpl. rewrite Hr. case_decide; [subst; by rewrite lookup_insert_eq, Ev|].
        by rewrite lookup_insert_ne by done.
      + destruct Hr as [_ Hr]. by rewrite Hr in Ev by apply Ha.
    - change (retryable ErrNoDevice) with true. split_and!; [apply went_refl|done|done|].
      intros key'. case_decide; [subst; by rewrite Ev|done]. }
  destruct (IH (set_sysctl m s key)) as (I1 & I2 & I3 & I4); [eapply steady_answers; [apply H1|done]|].
  split_and!; [by eapply went_trans|congruence|congruence|]. intros key'. rewrite I4, !H4.
  destruct (decide (key' ∈ l)), (decide (key' = key)), (decide (key' ∈ key :: l)) as [Hk|Hk];
    rewrite ?elem_of_cons in Hk; try tauto; subst; by destruct (sysctls (host s) !! _).
Qed.

Lemma set_sysctls_quiet m l (s : pass (W := Kernel)) :
  (forall key v, key ∈ l -> sysctls (host s) !! key = Some v -> v = default "" (m !! key)) -> foldl (set_sysctl m) s l = s.
Proof.
  induction l as [|key l IH]; intros Hs; [done|]. simpl.
  assert (set_sysctl m s key = s) as ->; [|apply IH; intros; apply Hs; [by right|done]].
  unfold set_sysctl. cbn [Sysctl KernelPlane]. unfold kernel_Sysctl. destruct (sysctls (host s) !! key) as [v|] eqn:Ev; [|done].
  by rewrite bool_decide_eq_true_2 by (apply Hs; [by left|done]).
Qed.

(** ** What a plan looks like *)

Record shape (id : Z) (w : want) : Prop := {
  sh_rules : forall r, r ∈ wrules w -> mine_rule id r;
  sh_nodup : NoDup (wrules w);
  sh_black : blackholes w = (blackhole_route id <$> Families) \/
    blackholes w = [] /\ wrules w = [] /\ throws w = [] /\ fronts w = [];
  sh_throws : exists srcs, NoDup srcs /\ throws w = throw_route id <$> srcs;
  sh_fronts : exists fs, NoDup fs /\ fronts w = front_route id (device w) <$> fs /\ (fs <> [] -> device w <> "");
}.

Section Shape.
Context {PT : PrefixText} {PTL : PrefixTextLaws}.

#[local] Instance prefix_text_le_trans : Transitive prefix_text_le.
Proof. intros a b c. unfold prefix_text_le. apply transitivity. Qed.
#[local] Instance prefix_text_le_total : Total prefix_text_le.
Proof. intros a b. unfold prefix_text_le. apply total. apply _. Qed.

Lemma uniqueSortedPrefixes_spec l :
  NoDup (uniqueSortedPrefixes l) /\
  forall p, p ∈ uniqueSortedPrefixes l <-> exists q, q ∈ l /\ Prefix_IsValid q = true /\ p = Masked q.
Proof.
  unfold uniqueSortedPrefixes. set (m := Masked <$> filter (fun p => Prefix_IsValid p = true) l).
  assert (forall p, p ∈ merge_sort prefix_text_le m <-> exists q, q ∈ l /\ Prefix_IsValid q = true /\ p = Masked q) as Hm.
  { intros p. rewrite merge_sort_Permutation. unfold m. rewrite list_elem_of_fmap. setoid_rewrite list_elem_of_filter.
    naive_solver. }
  split; [|intros p; by rewrite Compact_elem].
  apply (Compact_nodup prefix_text_le); [|apply (StronglySorted_merge_sort _)].
  intros x y (p & _ & Hp & ->)%Hm (q & _ & Hq & ->)%Hm H1 H2.
  apply prefix_string_inj; [by apply Masked_valid..|]. by apply (anti_symm String.le).
Qed.

Lemma uniqueSorted_spec l :
  NoDup (uniqueSorted l) /\ forall x, x ∈ uniqueSorted l <-> x ∈ l /\ x <> "".
Proof.
  unfold uniqueSorted. split.
  - apply (Compact_nodup String.le); [|apply (StronglySorted_merge_sort _)].
    intros x y _ _. apply (anti_symm String.le).
  - intros x. rewrite Compact_elem, merge_sort_Permutation, list_elem_of_filter. tauto.
Qed.

#[local] Instance iif_rule_inj id iif : Inj eq eq (iif_rule id iif).
Proof. by intros f f' [=]. Qed.
#[local] Instance mark_rule_inj id : Inj eq eq (mark_rule id).
Proof. by intros f f' [=]. Qed.
#[local] Instance src_rule_inj id : Inj eq eq (src_rule id).
Proof. by intros f f' [=]. Qed.

Lemma Families_nodup : NoDup Families.
Proof. apply (bool_decide_unpack _). vm_compute. exact I. Qed.

Lemma plan_shape {W} (drivers : Registry W) e snap : shape (ID e) (plan drivers e snap).1.
Proof.
  unfold plan. destruct (Enable e); cbn [negb].
  2: { split; simpl; [by intros r ?%not_elem_of_nil|apply NoDup_nil_2|by right|..].
       - exists []. split; [apply NoDup_nil_2|done].
       - exists []. split; [apply NoDup_nil_2|done]. }
  destruct (match For drivers (Type_ e) with None => _ | Some _ => _ end) as [fill problem].
  destruct (uniqueSortedPrefixes_spec (Sources e)) as [Hnd Hel].
  destruct (uniqueSorted_spec (Ingress e)) as [Hnd' Hel'].
  set (srcs := uniqueSortedPrefixes (Sources e)) in *. set (iifs := uniqueSorted (Ingress e)) in *.
  assert (forall p, p ∈ srcs -> p <> NoPrefix) as Hsrc.
  { intros p (q & _ & Hq & ->)%Hel Hn. apply Masked_valid in Hq. by rewrite Hn in Hq. }
  split; cbn [fst wrules blackholes throws fronts device].
  - intros r. rewrite !elem_of_app. intros [Hr|[Hr|Hr]].
    + apply list_elem_of_bind in Hr as (iif & Hr & _). apply list_elem_of_fmap in Hr as (f & -> & _). by split.
    + apply list_elem_of_fmap in Hr as (src & -> & _). by split.
    + destruct (Marked fill); [|by apply not_elem_of_nil in Hr].
      apply list_elem_of_fmap in Hr as (f & -> & _). by split.
  - apply NoDup_app. split_and!.
    + apply NoDup_bind; [| |done].
      * intros x1 x2 y _ _ (f & -> & _)%list_elem_of_fmap (f' & He & _)%list_elem_of_fmap. by injection He.
      * intros x _. apply NoDup_fmap; [apply _|apply Families_nodup].
    + intros r (iif & (f & -> & _)%list_elem_of_fmap & Hi)%list_elem_of_bind. apply Hel' in Hi as [_ Hi].
      rewrite elem_of_app. intros [(s & He & _)%list_elem_of_fmap|Hr]; [by injection He|].
      destruct (Marked fill); [|by apply not_elem_of_nil in Hr].
      apply list_elem_of_fmap in Hr as (f' & He & _). by injection He.
    + apply NoDup_app. split_and!.
      * apply NoDup_fmap; [apply _|done].
      * intros r (s & -> & Hs)%list_elem_of_fmap. apply Hsrc in Hs. destruct (Marked fill); [|apply not_elem_of_nil].
        intros (f' & He & _)%list_elem_of_fmap. injection He. intros. done.
      * destruct (Marked fill); [|apply NoDup_nil_2]. apply NoDup_fmap; [apply _|apply Families_nodup].
  - by left.
  - by exists srcs.
  - eexists. split; [|split; [reflexivity|]].
    + apply NoDup_filter, Families_nodup.
    + intros Hne He. apply Hne. rewrite He. simpl. done.
Qed.
End Shape.

(** ** The writes of one pass *)

(** A route this package writes into the table of [id]. *)
Definition written (id : Z) (dev : string) (named : string -> bool) (r : RouteSpec) : Prop :=
  (exists f, r = blackhole_route id f) \/
  (exists d f, r = front_route id d f /\ ownsDevice dev d || named d = true) \/
  (exists src, r = throw_route id src).

(** The host [k1] a pass writes to against the snapshot it works from: a device that went
    away took unwanted unicast routes with it, everything else is as it was read, and the
    table holds nothing this package would not write. *)
Record ready (snap : Snapshot) (k1 : Kernel) (id : Z) (w : want) (named : string -> bool) : Prop := {
  rd_answers : answers k1;
  rd_rules : Rules snap = rules k1;
  rd_less : forall x, (times (routes k1) x <= times (Routes snap) x)%nat;
  rd_same : forall x, roType x <> RouteUnicast \/ x ∈ fronts w -> times (routes k1) x = times (Routes snap) x;
  rd_written : forall r, r ∈ Routes snap -> roTable r = Table id -> written id (device w) named r;
  rd_once : forall x, roTable x = Table id -> (times (Routes snap) x <= 1)%nat;
  rd_link : fronts w <> [] -> device w ∈ links k1;
}.

Lemma sameRoute_spec a b :
  sameRoute a b = true <-> roFamily a = roFamily b /\ roTable a = roTable b /\ Dst a = Dst b /\ Metric a = Metric b.
Proof. unfold sameRoute. autorewrite with guards. tauto. Qed.

Section Install.
Context (snap : Snapshot) (k1 : Kernel) (id : Z) (w : want) (named : string -> bool).
Context (Hshape : shape id w) (Hready : ready snap k1 id w named).

Let h := ownedView snap id (device w) named.

Lemma have_rules x : mine_rule id x -> times (hrules h) x = times (rules k1) x.
Proof.
  intros Hx. unfold h. destruct (ownedView_spec snap id (device w) named) as (-> & _).
  by rewrite (rd_rules _ _ _ _ _ Hready), times_filter, decide_True.
Qed.
Lemma have_blackholes x : is_blackhole id x -> times (hblackholes h) x = times (routes k1) x.
Proof.
  intros Hx. unfold h. destruct (ownedView_spec snap id (device w) named) as (_ & -> & _).
  rewrite times_filter, decide_True by done. symmetry. apply (rd_same _ _ _ _ _ Hready). left.
  destruct Hx as (_ & Hy & _). congruence.
Qed.
Lemma have_throws x : is_throw id x -> times (hthrows h) x = times (routes k1) x.
Proof.
  intros Hx. unfold h. destruct (ownedView_spec snap id (device w) named) as (_ & _ & _ & -> & _).
  rewrite times_filter, decide_True by done. symmetry. apply (rd_same _ _ _ _ _ Hready). left.
  destruct Hx as (_ & Hy). congruence.
Qed.
Lemma have_fronts x : is_front id (device w) named x -> times (hfronts h) x = times (Routes snap) x.
Proof.
  intros Hx. unfold h. destruct (ownedView_spec snap id (device w) named) as (_ & _ & -> & _).
  by rewrite times_filter, decide_True.
Qed.
Lemma have_in :
  (forall x, x ∈ hrules h -> mine_rule id x) /\ (forall x, x ∈ hblackholes h -> is_blackhole id x) /\
  (forall x, x ∈ hthrows h -> is_throw id x) /\ (forall x, x ∈ hfronts h -> is_front id (device w) named x).
Proof.
  unfold h. destruct (ownedView_spec snap id (device w) named) as (-> & -> & -> & -> & _).
  split_and!; intros x Hx; by apply list_elem_of_filter in Hx as [? _].
Qed.

Lemma table_written x : x ∈ routes k1 -> roTable x = Table id -> written id (device w) named x.
Proof.
  rewrite times_elem. intros Hx. apply (rd_written _ _ _ _ _ Hready). rewrite times_elem.
  pose proof (rd_less _ _ _ _ _ Hready x). lia.
Qed.

(** What the three kinds of routes wanted are. *)
Lemma want_blackhole x : x ∈ blackholes w -> exists f, x = blackhole_route id f.
Proof.
  destruct (sh_black _ _ Hshape) as [->|(-> & _)]; [|by intros ?%not_elem_of_nil].
  intros (f & -> & _)%list_elem_of_fmap. by exists f.
Qed.
Lemma want_throw x : x ∈ throws w -> exists src, x = throw_route id src.
Proof. destruct (sh_throws _ _ Hshape) as (srcs & _ & ->). intros (src & -> & _)%list_elem_of_fmap. by exists src. Qed.
Lemma want_front x : x ∈ fronts w -> exists f, x = front_route id (device w) f.
Proof. destruct (sh_fronts _ _ Hshape) as (fs & _ & -> & _). intros (f & -> & _)%list_elem_of_fmap. by exists f. Qed.

Lemma front_owned x : x ∈ fronts w -> is_front id (device w) named x.
Proof.
  intros Hx. destruct (want_front x Hx) as (f & ->). split_and!; try done. simpl.
  destruct (sh_fronts _ _ Hshape) as (fs & _ & Hf & Hd). unfold ownsDevice.
  assert (device w <> "") as Hne by (apply Hd; intros ->; rewrite Hf in Hx; by apply not_elem_of_nil in Hx).
  by rewrite bool_decide_eq_false_2, bool_decide_eq_true_2.
Qed.

Lemma distinct_routes l : NoDup l -> (forall a b, a ∈ l -> b ∈ l -> sameRoute a b = true -> a = b) ->
  StronglySorted (fun a b => sameRoute a b = false) l.
Proof.
  induction l as [|x l IH]; intros Hn Hs; constructor.
  - apply NoDup_cons in Hn as [_ Hn]. apply IH; [done|]. intros. apply Hs; [by right|by right|done].
  - apply Forall_forall. intros y Hy. apply not_true_is_false. intros He.
    apply NoDup_cons in Hn as [Hn _]. apply Hn. rewrite (Hs x y); [done|by left|by right|done].
Qed.

Lemma times_le_nodup {A} `{!EqDecision A} (l : list A) : (forall x, (times l x <= 1)%nat) -> NoDup l.
Proof. intros Hl. apply NoDup_ListNoDup, (NoDup_count_occ (decide_rel eq)). exact Hl. Qed.

(** What is added to the table is written once. *)
Lemma added_once {A} `{!EqDecision A} (want have : list A) : NoDup want -> NoDup (diff want have).1.
Proof.
  intros Hn. apply times_le_nodup. intros x. rewrite (proj1 (diff_times want have x)).
  pose proof (times_nodup want x Hn). lia.
Qed.
Lemma added_absent {A} `{!EqDecision A} (want have : list A) x :
  NoDup want -> x ∈ (diff want have).1 -> times have x = O.
Proof.
  intros Hn. rewrite times_elem, (proj1 (diff_times want have x)). pose proof (times_nodup want x Hn). lia.
Qed.

Lemma blackholes_nodup : NoDup (blackholes w).
Proof.
  destruct (sh_black _ _ Hshape) as [->|(-> & _)]; [|apply NoDup_nil_2].
  apply NoDup_fmap; [|apply Families_nodup]. by intros f f' [=].
Qed.
Lemma throws_nodup : NoDup (throws w).
Proof. destruct (sh_throws _ _ Hshape) as (srcs & Hn & ->). apply NoDup_fmap; [|done]. by intros f f' [=]. Qed.
Lemma fronts_nodup : NoDup (fronts w).
Proof. destruct (sh_fronts _ _ Hshape) as (fs & Hn & -> & _). apply NoDup_fmap; [|done]. by intros f f' [=]. Qed.

(** A route in the place of a wanted one is that one. *)
Lemma written_place a b :
  written id (device w) named a -> sameRoute a b = true ->
  (forall f, b = blackhole_route id f -> a = b) /\ (forall src, b = throw_route id src -> a = b) /\
  (forall d f, b = front_route id d f -> exists d', a = front_route id d' f).
Proof.
  intros Hw (Hf & _ & Hd & Hm)%sameRoute_spec.
  destruct Hw as [(f & ->)|[(d & f & -> & _)|(src & ->)]]; (split_and!; [intros f' ->|intros src' ->|intros d' f' ->]);
    simpl in *; unfold BlackholeMetric, FrontMetric in *; try lia; subst; try done. by exists d.
Qed.

Lemma AddRoute_learns (learn : (Family -> bool) -> RouteSpec -> Family -> bool) step :
  (step, learn) ∈ [(add_blackhole (W := Kernel), cover); (add_throw, fun c _ => c); (add_front, fun c _ => c)] ->
  forall s r k, AddRoute (host s) r = (k, Ok tt) -> step s r = mkPass k (live s) (learn (contained s) r) (failures s).
Proof.
  rewrite !elem_of_cons. intros Hs s r k He. destruct_or!; simplify_eq;
    [unfold add_blackhole|unfold add_throw|unfold add_front|by apply not_elem_of_nil in Hs]; by rewrite He.
Qed.

(** The places of what is added are free, and apart. *)
Lemma blackhole_free x y :
  x ∈ (diff (blackholes w) (hblackholes h)).1 -> y ∈ routes k1 -> sameRoute y x = false.
Proof.
  intros Hx Hy. apply not_true_is_false. intros Hs.
  destruct (want_blackhole x) as (f & Hf); [by apply diff_add_in in Hx|].
  assert (written id (device w) named y) as Hwy.
  { apply table_written; [done|]. apply sameRoute_spec in Hs as (_ & -> & _). by rewrite Hf. }
  destruct (written_place y x Hwy Hs) as (Hyx & _). rewrite (Hyx f Hf) in Hy.
  apply times_elem in Hy. rewrite <-(have_blackholes x) in Hy by (rewrite Hf; by split_and!).
  apply added_absent in Hx; [lia|apply blackholes_nodup].
Qed.

Lemma throw_free x y :
  x ∈ (diff (throws w) (hthrows h)).1 -> y ∈ routes k1 ++ (diff (blackholes w) (hblackholes h)).1 -> sameRoute y x = false.
Proof.
  intros Hx Hy. apply not_true_is_false. intros Hs.
  destruct (want_throw x) as (src & Hf); [by apply diff_add_in in Hx|]. apply elem_of_app in Hy as [Hy|Hy].
  - assert (written id (device w) named y) as Hwy.
    { apply table_written; [done|]. apply sameRoute_spec in Hs as (_ & -> & _). by rewrite Hf. }
    destruct (written_place y x Hwy Hs) as (_ & Hyx & _). rewrite (Hyx src Hf) in Hy.
    apply times_elem in Hy. rewrite <-(have_throws x) in Hy by (rewrite Hf; by split).
    apply added_absent in Hx; [lia|apply throws_nodup].
  - destruct (want_blackhole y) as (f & ->); [by apply diff_add_in in Hy|].
    apply sameRoute_spec in Hs as (_ & _ & _ & Hm). rewrite Hf in Hm. simpl in Hm. unfold BlackholeMetric in Hm. lia.
Qed.

Lemma blackholes_apart : StronglySorted (fun a b => sameRoute a b = false) (diff (blackholes w) (hblackholes h)).1.
Proof.
  apply distinct_routes; [apply added_once, blackholes_nodup|]. intros a b Ha Hb (Hf & _)%sameRoute_spec.
  destruct (want_blackhole a) as (fa & ->); [by apply diff_add_in in Ha|].
  destruct (want_blackhole b) as (fb & ->); [by apply diff_add_in in Hb|]. simpl in Hf. by subst.
Qed.
Lemma throws_apart : StronglySorted (fun a b => sameRoute a b = false) (diff (throws w) (hthrows h)).1.
Proof.
  apply distinct_routes; [apply added_once, throws_nodup|]. intros a b Ha Hb (_ & _ & Hd & _)%sameRoute_spec.
  destruct (want_throw a) as (fa & ->); [by apply diff_add_in in Ha|].
  destruct (want_throw b) as (fb & ->); [by apply diff_add_in in Hb|]. simpl in Hd. by subst.
Qed.
Lemma fronts_apart : StronglySorted (fun a b => sameRoute a b = false) (diff (fronts w) (hfronts h)).1.
Proof.
  apply distinct_routes; [apply added_once, fronts_nodup|]. intros a b Ha Hb (Hf & _)%sameRoute_spec.
  destruct (want_front a) as (fa & ->); [by apply diff_add_in in Ha|].
  destruct (want_front b) as (fb & ->); [by apply diff_add_in in Hb|]. simpl in Hf. by subst.
Qed.

(** With the blackholes in place every family is contained. *)
Lemma covered f : blackholes w <> [] -> foldl cover (contained_of h) (diff (blackholes w) (hblackholes h)).1 f = true.
Proof.
  intros Hne. apply cover_in. rewrite contained_in. destruct (sh_black _ _ Hshape) as [Hb|(Hb & _)]; [|done].
  assert (blackhole_route id f ∈ blackholes w) as Hin.
  { rewrite Hb. apply list_elem_of_fmap. exists f. split; [done|]. destruct f; [by left|by right; left]. }
  destruct (decide (times (hblackholes h) (blackhole_route id f) = O)) as [Hz|Hz].
  - right. exists (blackhole_route id f). split; [|done]. apply times_elem.
    rewrite (proj1 (diff_times _ _ _)). apply times_elem in Hin. lia.
  - left. exists (blackhole_route id f). split; [apply times_elem; lia|done].
Qed.

Lemma foldl_const {A B} (l : list B) (c : A) : foldl (fun c _ => c) c l = c.
Proof. induction l as [|y l IH]; [done|]. exact IH. Qed.

(** Deleting the rules, then adding the blackholes and the exceptions. *)
Lemma phase_contain start : host start = k1 -> contained start = contained_of h ->
  let s := foldl add_throw (foldl add_blackhole (foldl del_rule start (diff (wrules w) (hrules h)).2)
             (diff (blackholes w) (hblackholes h)).1) (diff (throws w) (hthrows h)).1 in
  went start s /\ sysctls (host s) = sysctls k1 /\
  (forall x, times (rules (host s)) x = (times (rules k1) x - times (diff (wrules w) (hrules h)).2 x)%nat) /\
  routes (host s) = routes k1 ++ (diff (blackholes w) (hblackholes h)).1 ++ (diff (throws w) (hthrows h)).1 /\
  (forall f, blackholes w <> [] -> contained s f = true) /\
  (forall f, live s f = live start f - Z.of_nat (length (filter (fun r => ruFamily r = f) (diff (wrules w) (hrules h)).2))).
Proof.
  intros Hst Hco. cbv zeta. set (delRules := (diff (wrules w) (hrules h)).2).
  set (addBlack := (diff (blackholes w) (hblackholes h)).1). set (addThrow := (diff (throws w) (hthrows h)).1).
  pose proof (rd_answers _ _ _ _ _ Hready) as Ha.
  destruct (del_rules_went delRules start) as (A1 & A2 & A3 & A4 & A5 & A6); [by rewrite Hst|]. rewrite Hst in *.
  set (s1 := foldl del_rule start delRules) in *.
  assert (answers (host s1)) as Ha1 by (eapply steady_answers; [apply A1|by rewrite Hst]).
  destruct (add_routes_went add_blackhole cover addBlack s1) as (B1 & B2 & B3 & B4 & B5 & B6);
    [apply (AddRoute_learns cover), elem_of_cons; by left|done| |apply blackholes_apart|].
  { intros x Hx. split; [|intros y; rewrite A2; by apply blackhole_free].
    apply diff_add_in in Hx. destruct (want_blackhole x Hx) as (f & ->). done. }
  set (s2 := foldl add_blackhole s1 addBlack) in *.
  assert (answers (host s2)) as Ha2 by (eapply steady_answers; [apply B1|done]).
  destruct (add_routes_went add_throw (fun c _ => c) addThrow s2) as (C1 & C2 & C3 & C4 & C5 & C6);
    [apply (AddRoute_learns (fun c _ => c)), elem_of_cons; right; apply elem_of_cons; by left|done| |apply throws_apart|].
  { intros x Hx. split; [|intros y; rewrite B6, A2; by apply throw_free].
    apply diff_add_in in Hx. destruct (want_throw x Hx) as (f & ->). done. }
  split_and!.
  - eapply went_trans; [exact A1|]. by eapply went_trans.
  - congruence.
  - intros x. by rewrite C2, B2, A6.
  - by rewrite C6, B6, A2, <-app_assoc.
  - intros f Hne. rewrite C5, foldl_const, B5, A4, Hco. by apply covered.
  - intros f. by rewrite C4, B4, A5.
Qed.

(** ** What is wanted and held, counted by kind *)

Lemma times_out {A} `{!EqDecision A} (l : list A) x : x ∉ l -> times l x = O.
Proof. rewrite times_elem. lia. Qed.

Lemma blackholes_out x : ~ is_blackhole id x -> times (blackholes w) x = O /\ times (hblackholes h) x = O.
Proof.
  intros Hx. split; apply times_out; intros Hin; apply Hx.
  - destruct (want_blackhole x Hin) as (f & ->). by split_and!.
  - by apply have_in.
Qed.
Lemma throws_out x : ~ is_throw id x -> times (throws w) x = O /\ times (hthrows h) x = O.
Proof.
  intros Hx. split; apply times_out; intros Hin; apply Hx.
  - destruct (want_throw x Hin) as (f & ->). by split.
  - by apply have_in.
Qed.
Lemma fronts_out x : ~ is_front id (device w) named x -> times (fronts w) x = O /\ times (hfronts h) x = O.
Proof.
  intros Hx. split; apply times_out; intros Hin; apply Hx.
  - by apply front_owned.
  - by apply have_in.
Qed.
Lemma rules_out x : ~ mine_rule id x -> times (wrules w) x = O /\ times (hrules h) x = O.
Proof.
  intros Hx. split; apply times_out; intros Hin; apply Hx.
  - by apply (sh_rules _ _ Hshape).
  - by apply have_in.
Qed.

(** The kinds exclude each other, and cover the table. *)
Lemma kinds_apart x :
  ~ (is_blackhole id x /\ is_throw id x) /\ ~ (is_blackhole id x /\ is_front id (device w) named x) /\
  ~ (is_throw id x /\ is_front id (device w) named x).
Proof. unfold is_blackhole, is_throw, is_front. split_and!; intros ?; destruct_and?; congruence. Qed.

Lemma kinds_cover x :
  x ∈ routes k1 -> roTable x = Table id -> is_blackhole id x \/ is_throw id x \/ is_front id (device w) named x.
Proof.
  intros Hx Ht. destruct (table_written x Hx Ht) as [(f & ->)|[(d & f & -> & Ho)|(src & ->)]].
  - left. by split_and!.
  - right. right. by split_and!.
  - right. left. by split.
Qed.

(** What the additions and removals of the routes come to. *)
Lemma table_sum x :
  let aB := times (diff (blackholes w) (hblackholes h)).1 x in let dB := times (diff (blackholes w) (hblackholes h)).2 x in
  let aT := times (diff (throws w) (hthrows h)).1 x in let dT := times (diff (throws w) (hthrows h)).2 x in
  let aF := times (diff (fronts w) (hfronts h)).1 x in let dF := times (diff (fronts w) (hfronts h)).2 x in
  (times (routes k1) x + (aB + aT) - dF + aF - dT - dB)%nat =
  if decide (roTable x = Table id) then times (blackholes w ++ throws w ++ fronts w) x else times (routes k1) x.
Proof.
  cbv zeta. rewrite !(proj1 (diff_times _ _ x)), !(proj2 (diff_times _ _ x)), !times_app.
  destruct (kinds_apart x) as (K1 & K2 & K3).
  destruct (decide (is_blackhole id x)) as [Hb|Hb].
  { destruct (throws_out x) as [-> ->]; [tauto|]. destruct (fronts_out x) as [-> ->]; [tauto|].
    rewrite (have_blackholes x Hb), decide_True by apply Hb. lia. }
  destruct (blackholes_out x Hb) as [-> ->]. destruct (decide (is_throw id x)) as [Ht|Ht].
  { destruct (fronts_out x) as [-> ->]; [tauto|]. rewrite (have_throws x Ht), decide_True by apply Ht. lia. }
  destruct (throws_out x Ht) as [-> ->]. destruct (decide (is_front id (device w) named x)) as [Hf|Hf].
  - rewrite (have_fronts x Hf), decide_True by apply Hf.
    pose proof (rd_less _ _ _ _ _ Hready x) as Hl. pose proof (times_nodup (fronts w) x fronts_nodup) as Hn.
    pose proof (rd_same _ _ _ _ _ Hready x) as Hs. pose proof (rd_once _ _ _ _ _ Hready x (proj1 Hf)) as Ho.
    rewrite times_elem in Hs. destruct (times (fronts w) x) as [|[|n]]; lia.
  - destruct (fronts_out x Hf) as [-> ->]. case_decide as Htab; [|lia].
    rewrite times_out; [lia|]. intros Hin. destruct (kinds_cover x Hin Htab) as [?|[?|?]]; done.
Qed.

(** A front finds its place free once the others are withdrawn. *)
Lemma front_free x y :
  x ∈ (diff (fronts w) (hfronts h)).1 ->
  (0 < times (routes k1 ++ (diff (blackholes w) (hblackholes h)).1 ++ (diff (throws w) (hthrows h)).1) y -
       times (diff (fronts w) (hfronts h)).2 y)%nat -> sameRoute y x = false.
Proof.
  intros Hx Hy. apply not_true_is_false. intros Hs.
  destruct (want_front x) as (f & Hf); [by apply diff_add_in in Hx|].
  assert (roTable y = Table id /\ Metric y = FrontMetric) as [Hty Hmy].
  { apply sameRoute_spec in Hs as (_ & -> & _ & ->). by rewrite Hf. }
  rewrite !times_app, !(proj1 (diff_times _ _ y)), (proj2 (diff_times _ _ y)) in Hy.
  assert (times (blackholes w) y = O) as Hb.
  { apply times_out. intros (g & ->)%want_blackhole. done. }
  assert (times (throws w) y = O) as Ht.
  { apply times_out. intros (g & ->)%want_throw. done. }
  assert (y ∈ routes k1) as Hyk by (apply times_elem; lia).
  destruct (written_place y x (table_written y Hyk Hty) Hs) as (_ & _ & Hfr). destruct (Hfr _ _ Hf) as (d' & Hd').
  assert (is_front id (device w) named y) as Hfy.
  { destruct (kinds_cover y Hyk Hty) as [Hk|[Hk|Hk]]; [| |done]; rewrite Hd' in Hk; destruct_and?; unfold is_blackhole, is_throw in Hk; simpl in Hk; destruct_and?; done. }
  rewrite (have_fronts y Hfy) in Hy. pose proof (rd_less _ _ _ _ _ Hready y) as Hl.
  assert (y ∈ fronts w) as Hyw by (apply times_elem; lia). destruct (want_front y Hyw) as (g & Hg).
  assert (y = x) as -> by (rewrite Hf, Hg; apply sameRoute_spec in Hs as (Hfam & _); rewrite Hf, Hg in Hfam; simpl in Hfam; by subst).
  apply added_absent in Hx; [|apply fronts_nodup]. rewrite (have_fronts x Hfy) in Hx. apply times_elem in Hyk. lia.
Qed.

(** A blackhole is removed only from a row that wants nothing. *)
Lemma no_del_blackhole : blackholes w <> [] -> (diff (blackholes w) (hblackholes h)).2 = [].
Proof.
  intros Hne. destruct (sh_black _ _ Hshape) as [Hb|(Hb & _)]; [|done].
  destruct (diff (blackholes w) (hblackholes h)).2 as [|x l] eqn:E; [done|]. exfalso.
  assert (x ∈ (diff (blackholes w) (hblackholes h)).2) as Hx by (rewrite E; by left).
  pose proof (diff_del_in _ _ _ Hx) as Hin. apply times_elem in Hx. rewrite (proj2 (diff_times _ _ x)) in Hx.
  apply have_in in Hin. rewrite (have_blackholes x Hin) in Hx.
  pose proof (rd_less _ _ _ _ _ Hready x) as Hl. pose proof (rd_once _ _ _ _ _ Hready x (proj1 Hin)) as Ho.
  assert (x ∈ routes k1) as Hk by (apply times_elem; lia).
  destruct (table_written x Hk (proj1 Hin)) as [(f & ->)|[(d & f & -> & _)|(src & ->)]];
    [|destruct Hin as (_ & ? & _); done|destruct Hin as (_ & ? & _); done].
  assert (blackhole_route id f ∈ blackholes w) as Hw.
  { rewrite Hb. apply list_elem_of_fmap. exists f. split; [done|]. destruct f; [by left|by right; left]. }
  apply times_elem in Hw. lia.
Qed.

(** After all the rules of a row that wants nothing are gone, none counts as live. *)
Lemma live_after f :
  blackholes w = [] ->
  live_of h f - Z.of_nat (length (filter (fun r => ruFamily r = f) (diff (wrules w) (hrules h)).2)) = 0.
Proof.
  intros Hb. assert (wrules w = []) as Hr by (destruct (sh_black _ _ Hshape) as [H|(_ & ? & _)]; [by rewrite Hb in H|done]).
  rewrite live_times. assert (hrules h ≡ₚ (diff (wrules w) (hrules h)).2) as Hp; [|rewrite <-Hp; lia].
  apply times_perm. intros x. rewrite (proj2 (diff_times _ _ x)), Hr, times_nil. lia.
Qed.

Lemma wants_rules r : r ∈ wrules w -> blackholes w <> [].
Proof.
  intros Hr Hb. destruct (sh_black _ _ Hshape) as [H|(_ & H & _)]; [by rewrite Hb in H|].
  rewrite H in Hr. by apply not_elem_of_nil in Hr.
Qed.

(** The rules, once their tables are contained. *)
Lemma phase_rules start : host start = k1 -> contained start = contained_of h -> live start = live_of h ->
  let s := foldl add_rule (foldl add_throw (foldl add_blackhole (foldl del_rule start (diff (wrules w) (hrules h)).2)
             (diff (blackholes w) (hblackholes h)).1) (diff (throws w) (hthrows h)).1) (diff (wrules w) (hrules h)).1 in
  went start s /\ sysctls (host s) = sysctls k1 /\
  (forall x, times (rules (host s)) x = if decide (mine_rule id x) then times (wrules w) x else times (rules k1) x) /\
  routes (host s) = routes k1 ++ (diff (blackholes w) (hblackholes h)).1 ++ (diff (throws w) (hthrows h)).1 /\
  (forall f, blackholes w = [] -> live s f = 0).
Proof.
  intros Hh Hc Hl. cbv zeta. destruct (phase_contain start Hh Hc) as (P1 & P2 & P3 & P4 & P5 & P6).
  set (s3 := foldl add_throw _ _) in *. set (addRules := (diff (wrules w) (hrules h)).1).
  assert (answers (host s3)) as A3 by (eapply steady_answers; [apply P1|rewrite Hh; apply Hready]).
  destruct (add_rules_went addRules s3) as (Q1 & Q2 & Q3 & Q4); [done| | |apply added_once, Hshape|].
  { intros r Hr. apply P5. apply diff_add_in in Hr. by eapply wants_rules. }
  { intros r Hr. pose proof (diff_add_in _ _ _ Hr) as Hw.
    rewrite times_elem, P3, <-have_rules by (by apply (sh_rules _ _ Hshape)).
    rewrite (added_absent _ _ _ (sh_nodup _ _ Hshape) Hr). lia. }
  split_and!; [by eapply went_trans|congruence| |congruence|].
  - intros x. rewrite Q4, times_app, P3. unfold addRules. destruct (diff_times (wrules w) (hrules h) x) as [-> ->].
    case_decide as Hm; [rewrite (have_rules x Hm); lia|]. destruct (rules_out x Hm) as [-> ->]. lia.
  - intros f Hb. assert (addRules = []) as ->; [|simpl; rewrite P6, Hl; by apply live_after].
    unfold addRules. destruct (diff (wrules w) (hrules h)).1 as [|r l] eqn:E; [done|]. exfalso.
    apply (wants_rules r); [|done]. apply (diff_add_in _ (hrules h)). rewrite E. by left.
Qed.

(** The fronts, withdrawn before they are replaced. *)
Lemma phase_fronts s : answers (host s) -> links (host s) = links k1 ->
  routes (host s) = routes k1 ++ (diff (blackholes w) (hblackholes h)).1 ++ (diff (throws w) (hthrows h)).1 ->
  let s' := foldl add_front (foldl (del_route Withdrawing) s (diff (fronts w) (hfronts h)).2) (diff (fronts w) (hfronts h)).1 in
  went s s' /\ rules (host s') = rules (host s) /\ sysctls (host s') = sysctls (host s) /\ live s' = live s /\
  (forall x, times (routes (host s')) x = (times (routes (host s)) x - times (diff (fronts w) (hfronts h)).2 x +
                                          times (diff (fronts w) (hfronts h)).1 x)%nat).
Proof.
  intros Ha Hli Hro. cbv zeta. set (delFront := (diff (fronts w) (hfronts h)).2). set (addFront := (diff (fronts w) (hfronts h)).1).
  destruct (del_routes_went Withdrawing delFront s Ha) as (R1 & R2 & R3 & R4 & R5).
  set (s5 := foldl (del_route Withdrawing) s delFront) in *.
  assert (answers (host s5)) as A5 by (eapply steady_answers; [apply R1|done]).
  destruct (add_routes_went add_front (fun c _ => c) addFront s5) as (T1 & T2 & T3 & T4 & _ & T6);
    [apply (AddRoute_learns (fun c _ => c)); do 2 (apply elem_of_cons; right); apply elem_of_cons; by left|done| |apply fronts_apart|].
  { intros x Hx. pose proof (diff_add_in _ _ _ Hx) as Hw. split.
    - intros _. destruct (want_front x Hw) as (f & ->). simpl. rewrite (st_links _ _ (we_steady _ _ R1)), Hli.
      apply (rd_link _ _ _ _ _ Hready). intros Hn. rewrite Hn in Hw. by apply not_elem_of_nil in Hw.
    - intros y Hy. apply (front_free x y Hx). apply times_elem in Hy. by rewrite R5, Hro in Hy. }
  split_and!; [by eapply went_trans|congruence|congruence|congruence|].
  intros x. by rewrite T6, times_app, R5.
Qed.

Lemma install_converges fs :
  let s := install w h (mkPass k1 (live_of h) (contained_of h) fs) in
  steady k1 (host s) /\ failures s = fs /\
  (forall x, times (rules (host s)) x = if decide (mine_rule id x) then times (wrules w) x else times (rules k1) x) /\
  (forall x, times (routes (host s)) x =
    if decide (roTable x = Table id) then times (blackholes w ++ throws w ++ fronts w) x else times (routes k1) x) /\
  (forall key, sysctls (host s) !! key =
    match wsysctls w !! key with Some v => (fun _ => v) <$> sysctls k1 !! key | None => sysctls k1 !! key end).
Proof.
  cbv zeta. set (start := mkPass k1 (live_of h) (contained_of h) fs).
  destruct (phase_rules start eq_refl eq_refl eq_refl) as (P1 & P2 & P3 & P4 & P5).
  pose proof phase_fronts as HF. pose proof table_sum as Hsum. pose proof no_del_blackhole as Hnb.
  unfold install. destruct (diff (wrules w) (hrules h)) as [addRules delRules], (diff (blackholes w) (hblackholes h)) as [addBlack delBlack],
    (diff (throws w) (hthrows h)) as [addThrow delThrow], (diff (fronts w) (hfronts h)) as [addFront delFront].
  cbn [fst snd] in *. set (s4 := foldl add_rule _ addRules) in *.
  assert (answers (host s4)) as A4 by (eapply steady_answers; [apply P1|apply Hready]).
  destruct (HF s4 A4 (st_links _ _ (we_steady _ _ P1)) P4) as (T1 & T2 & T3 & T4 & T5).
  set (s6 := foldl add_front _ addFront) in *.
  assert (answers (host s6)) as A6 by (eapply steady_answers; [apply T1|done]).
  destruct (del_routes_went Unexcepting delThrow s6 A6) as (U1 & U2 & U3 & U4 & U5).
  set (s7 := foldl (del_route Unexcepting) s6 delThrow) in *.
  assert (answers (host s7)) as A7 by (eapply steady_answers; [apply U1|done]).
  rewrite del_blackholes_went; [|done|].
  2: { intros r Hr. destruct (decide (blackholes w = [])) as [Hb|Hb]; [|rewrite Hnb in Hr by done; by apply not_elem_of_nil in Hr].
       rewrite U4, T4, P5 by done. lia. }
  destruct (del_routes_went Uncontaining delBlack s7 A7) as (V1 & V2 & V3 & _ & V5).
  set (s8 := foldl (del_route Uncontaining) s7 delBlack) in *.
  assert (answers (host s8)) as A8 by (eapply steady_answers; [apply V1|done]).
  unfold applySysctls. destruct (set_sysctls_went (wsysctls w) (merge_sort String.le (map_to_list (wsysctls w)).*1) s8 A8) as (X1 & X2 & X3 & X4).
  assert (went start (foldl (set_sysctl (wsysctls w)) s8 (merge_sort String.le (map_to_list (wsysctls w)).*1))) as W9.
  { apply (went_trans _ _ _ P1). apply (went_trans _ _ _ T1). apply (went_trans _ _ _ U1).
    exact (went_trans _ _ _ V1 X1). }
  split_and!; [apply W9|apply W9|..].
  - intros x. by rewrite X2, V2, U2, T2, P3.
  - intros x. rewrite X3, V5, U5, T5, P4, (times_app (routes k1)), (times_app addBlack). apply Hsum.
  - intros key. rewrite X4. assert (sysctls (host s8) = sysctls k1) as -> by congruence.
    destruct (wsysctls w !! key) as [v|] eqn:Hv.
    + rewrite decide_True; [done|]. rewrite merge_sort_Permutation. apply list_elem_of_fmap.
      exists (key, v). split; [done|]. by apply elem_of_map_to_list.
    + rewrite decide_False; [done|]. rewrite merge_sort_Permutation. intros (kv & -> & Hk)%list_elem_of_fmap.
      destruct kv as [key' v']. apply elem_of_map_to_list in Hk. simpl in Hv. congruence.
Qed.
End Install.

(** ** One pass over a row *)

Definition snapshot_of (k : Kernel) : Snapshot := mkSnapshot (rules k) (routes k) (links k) (addrs k).

(** What a provisioner did: for an enabled row it made devices at most, for a disabled
    one it may have taken unicast routes with the device. *)
Definition settles (k k1 : Kernel) (enabled : bool) : Prop :=
  tame k k1 /\
  if enabled then routes k1 = routes k /\ links k ⊆ links k1 /\ addrs k ⊆ addrs k1
  else forall x, (times (routes k1) x <= times (routes k) x)%nat.

(** The priority and the table of [id] hold only what this package writes there. *)
Record clean (k : Kernel) (id : Z) (dev : string) (named : string -> bool) : Prop := {
  cl_rules : forall r, r ∈ rules k -> Priority r = Prio id -> ruTable r = Table id;
  cl_routes : forall r, r ∈ routes k -> roTable r = Table id -> written id dev named r;
  cl_once : forall x, roTable x = Table id -> (times (routes k) x <= 1)%nat;
}.

Lemma filter_none {A} (P : A -> Prop) `{!forall x, Decision (P x)} l : (forall x, x ∈ l -> ~ P x) -> filter P l = [].
Proof.
  intros Hn. destruct (filter P l) as [|x t] eqn:E; [done|]. exfalso.
  assert (x ∈ filter P l) as [? ?]%list_elem_of_filter by (rewrite E; by left). by eapply Hn.
Qed.

Lemma clean_unshadowed snap id dev named :
  (forall r, r ∈ Rules snap -> Priority r = Prio id -> ruTable r = Table id) ->
  (forall r, r ∈ Routes snap -> roTable r = Table id -> written id dev named r) ->
  shadowing (ownedView snap id dev named) = [].
Proof.
  intros Hr Hro. destruct (ownedView_spec snap id dev named) as (_ & _ & _ & _ & ->).
  assert (filter (strange_rule id) (Rules snap) = []) as ->.
  { apply filter_none. intros r Hin [Hp Ht]. by apply Ht, Hr. }
  assert (filter (strange_route id dev named) (Routes snap) = []) as ->; [|done].
  apply filter_none. intros r Hin (Ht & Hy & Hn).
  destruct (Hro r Hin Ht) as [(f & ->)|[(d & f & -> & Ho)|(src & ->)]]; [done|by apply Hn|done].
Qed.

Section Row.
Context {PT : PrefixText} {PTL : PrefixTextLaws} (drivers : Registry Kernel) (e : Egress).
Context (Hnil : For drivers "" = None).

Lemma plan_front fill snap snap' :
  frontIsUp fill snap = frontIsUp fill snap' ->
  forall driver, For drivers (Type_ e) = Some driver -> dFill driver e = Ok fill -> plan drivers e snap = plan drivers e snap'.
Proof. intros Hf driver Hd He. unfold plan. destruct (Enable e); [|done]. by rewrite Hd, He, Hf. Qed.

Lemma frontIsUp_mono fill snap snap' :
  Links snap ⊆ Links snap' -> Addrs snap ⊆ Addrs snap' -> frontIsUp fill snap = true -> frontIsUp fill snap' = true.
Proof.
  intros Hl Ha. unfold frontIsUp. destruct (bool_decide (fiDevice fill = "")); [done|]. simpl.
  case_bool_decide as H1; [|done]. rewrite (bool_decide_eq_true_2 (fiDevice fill ∈ Links snap')) by auto. simpl.
  destruct (Prefix_IsValid (fiAddr fill)); [|done]. simpl. rewrite !bool_decide_eq_true. auto.
Qed.

Lemma front_up_device fill snap : frontIsUp fill snap = true -> fiDevice fill <> "" /\ fiDevice fill ∈ Links snap.
Proof.
  unfold frontIsUp. case_bool_decide; [done|]. simpl. by case_bool_decide.
Qed.

Lemma provision_idle k k1 driver :
  For drivers (Type_ e) = Some driver -> Enable e = true -> provision drivers k e = (k1, (false, None)) -> k1 = k.
Proof.
  intros Hd He. unfold provision. case_bool_decide as Ht; [by rewrite Ht, Hnil in Hd|]. rewrite Hd.
  destruct (dProvisioner driver) as [p|]; [|by intros [= <-]]. rewrite He. simpl.
  destruct (Provision p k e) as [w [[]|err]]; done.
Qed.

(** The plan a pass works with is the one of the host after provisioning. *)
Lemma plan_effective k k1 b :
  SnapshotErr k1 = None -> provision drivers k e = (k1, (b, None)) -> settles k k1 (Enable e) ->
  (plan drivers e (snapshot_of k1)).2 = None ->
  exists snap, (snap = snapshot_of k \/ snap = snapshot_of k1) /\
  (if b && negb (bool_decide (device (plan drivers e (snapshot_of k)).1 = "")) &&
        bool_decide (fronts (plan drivers e (snapshot_of k)).1 = []) then
     match plane_Snapshot k1 with
     | Ok fresh => (fresh, plan drivers e fresh)
     | Fail _ => (snapshot_of k, plan drivers e (snapshot_of k))
     end
   else (snapshot_of k, plan drivers e (snapshot_of k))) = (snap, plan drivers e (snapshot_of k1)).
Proof.
  intros Hs Hp [_ Hset] Herr. cbn [plane_Snapshot KernelPlane]. unfold kernel_Snapshot. rewrite Hs.
  change (mkSnapshot (rules k1) (routes k1) (links k1) (addrs k1)) with (snapshot_of k1).
  destruct (_ && _) eqn:Hc; [eauto|]. exists (snapshot_of k). split; [auto|]. f_equal.
  destruct (Enable e) eqn:He; [|unfold plan; by rewrite He]. destruct Hset as (_ & Hl & Ha).
  destruct (For drivers (Type_ e)) as [driver|] eqn:Hd; [|unfold plan in Herr; by rewrite He, Hd in Herr].
  destruct (dFill driver e) as [fill|err] eqn:Hf; [|unfold plan in Herr; by rewrite He, Hd, Hf in Herr].
  apply (plan_front fill _ _) with (driver := driver); [|done|done].
  destruct (frontIsUp fill (snapshot_of k)) eqn:Hup.
  { symmetry. eapply frontIsUp_mono; [| |exact Hup]; done. }
  destruct b.
  - unfold plan in Hc. rewrite He, Hd, Hf, Hup in Hc. simpl in Hc. rewrite !andb_false_r in Hc. simpl in Hc.
    destruct (bool_decide (fiDevice fill = "")) eqn:Hdev.
    + symmetry. unfold frontIsUp. by rewrite Hdev.
    + simpl in Hc. done.
  - by rewrite (provision_idle k k1 driver Hd He Hp).
Qed.

Lemma plan_fronts_up (snap : Snapshot) :
  fronts (plan drivers e snap).1 <> [] -> Enable e = true /\ device (plan drivers e snap).1 ∈ Links snap.
Proof.
  unfold plan. destruct (Enable e); cbn [negb]; [|done].
  destruct (match For drivers (Type_ e) with None => _ | Some _ => _ end) as [fill problem].
  cbn [fst fronts device]. intros Hf. split; [done|]. destruct (frontIsUp fill snap) eqn:Hup; [by apply front_up_device in Hup as [_ ?]|].
  exfalso. apply Hf. rewrite andb_false_r. simpl. done.
Qed.

Lemma settles_times k k1 x :
  settles k k1 (Enable e) -> (times (routes k1) x <= times (routes k) x)%nat /\
  (roType x <> RouteUnicast \/ Enable e = true -> times (routes k1) x = times (routes k) x).
Proof.
  intros [Ht Hs]. assert (roType x <> RouteUnicast -> times (routes k1) x = times (routes k) x) as Hnu.
  { intros Hx. pose proof (f_equal (fun l => times l x) (tm_routes _ _ Ht)) as Heq. simpl in Heq.
    by rewrite !times_filter, !decide_True in Heq. }
  destruct (Enable e).
  - destruct Hs as (-> & _). done.
  - split; [apply Hs|]. intros [?|?]; [auto|done].
Qed.

Lemma settles_ready k k1 snap :
  answers k -> settles k k1 (Enable e) -> snap = snapshot_of k \/ snap = snapshot_of k1 ->
  let w := (plan drivers e (snapshot_of k1)).1 in
  clean k (ID e) (device w) (namedFor drivers (ID e)) -> ready snap k1 (ID e) w (namedFor drivers (ID e)).
Proof.
  intros Ha Hset Hsnap. cbv zeta. set (w := (plan drivers e (snapshot_of k1)).1). intros [Cr Cro Co].
  assert (forall x, (times (routes k1) x <= times (Routes snap) x)%nat /\ (times (Routes snap) x <= times (routes k) x)%nat) as Hle.
  { intros x. destruct (settles_times k k1 x Hset) as [Hl _]. destruct Hsnap as [-> | ->]; simpl; lia. }
  pose proof (proj1 Hset) as Ht. split.
  - intros o. rewrite (tm_fails _ _ Ht). apply Ha.
  - destruct Hsnap as [-> | ->]; simpl; [by rewrite (tm_rules _ _ Ht)|done].
  - intros x. apply Hle.
  - intros x Hx. assert (roType x <> RouteUnicast \/ Enable e = true) as Hx'.
    { destruct Hx as [?|Hx]; [auto|]. right.
      apply (plan_fronts_up (snapshot_of k1)). intros Hn. fold w in Hn. rewrite Hn in Hx. by apply not_elem_of_nil in Hx. }
    destruct (settles_times k k1 x Hset) as [_ Heq]. specialize (Heq Hx'). specialize (Hle x). lia.
  - intros r Hr. apply Cro. apply times_elem. apply times_elem in Hr. specialize (Hle r). lia.
  - intros x Hx. specialize (Co x Hx). specialize (Hle x). lia.
  - intros Hf. by apply plan_fronts_up in Hf as [_ ?].
Qed.

(** What a converged host holds: exactly the objects of the plan, and everything else as
    it was. *)
Record converged (k1 k' : Kernel) (w : want) : Prop := {
  cv_steady : steady k1 k';
  cv_rules : rules k' ≡ₚ wrules w ++ filter (fun r => ~ mine_rule (ID e) r) (rules k1);
  cv_routes : routes k' ≡ₚ (blackholes w ++ throws w ++ fronts w) ++ filter (fun r => roTable r <> Table (ID e)) (routes k1);
  cv_sysctls : forall key, sysctls k' !! key =
    match wsysctls w !! key with Some v => (fun _ => v) <$> sysctls k1 !! key | None => sysctls k1 !! key end;
}.

Lemma converge_once k k1 b :
  ValidID (ID e) = true -> answers k -> SnapshotErr k = None ->
  provision drivers k e = (k1, (b, None)) -> settles k k1 (Enable e) ->
  (plan drivers e (snapshot_of k1)).2 = None ->
  let w := (plan drivers e (snapshot_of k1)).1 in
  clean k (ID e) (device w) (namedFor drivers (ID e)) ->
  exists k', Ensure drivers k e = (k', []) /\ converged k1 k' w.
Proof.
  intros Hid Ha Hs Hp Hset Herr. cbv zeta. intros Hcl.
  assert (SnapshotErr k1 = None) as Hs1 by (by rewrite (tm_snapshot _ _ (proj1 Hset))).
  destruct (plan_effective k k1 b Hs1 Hp Hset Herr) as (snap & Hsnap & Heff).
  pose proof (settles_ready k k1 snap Ha Hset Hsnap Hcl) as Hready.
  unfold Ensure. cbn [plane_Snapshot KernelPlane]. unfold kernel_Snapshot. rewrite Hs.
  change (mkSnapshot (rules k) (routes k) (links k) (addrs k)) with (snapshot_of k).
  unfold converge, checkID. rewrite Hid, Hp. destruct (plan drivers e (snapshot_of k)) as [wt0 err0] eqn:Hp0.
  simpl in Heff. cbn [plane_Snapshot KernelPlane] in *. rewrite Heff. clear Heff.
  pose proof (plan_shape drivers e (snapshot_of k1)) as Hshape.
  destruct (plan drivers e (snapshot_of k1)) as [w err] eqn:Hp1. simpl in Herr, Hready, Hshape, Hcl |- *. subst err.
  destruct (install_converges snap k1 (ID e) w (namedFor drivers (ID e)) Hshape Hready []) as (I1 & I2 & I3 & I4 & I5).
  rewrite (clean_unshadowed snap); [|intros r; rewrite (rd_rules _ _ _ _ _ Hready), (tm_rules _ _ (proj1 Hset)); apply Hcl|apply Hready].
  simpl. rewrite I2. eexists. split; [reflexivity|]. split; [exact I1| | |exact I5]; apply times_perm; intros x.
  - rewrite I3, times_app, times_filter. case_decide as Hm; [|].
    + rewrite decide_False by tauto. lia.
    + rewrite decide_True by done. rewrite (times_out (wrules w)); [lia|]. intros Hin. by apply Hm, (sh_rules _ _ Hshape).
  - rewrite I4, (times_app (blackholes w ++ throws w ++ fronts w)), times_filter. case_decide as Hm.
    + rewrite decide_False by tauto. lia.
    + rewrite decide_True by done. rewrite (times_out (_ ++ _)); [lia|].
      rewrite !elem_of_app. intros [(f & ->)%(want_blackhole (ID e) w Hshape)|[(f & ->)%(want_throw (ID e) w Hshape)|(f & ->)%(want_front (ID e) w Hshape)]]; done.
Qed.

Lemma plan_links snap snap' : Links snap = Links snap' -> Addrs snap = Addrs snap' -> plan drivers e snap = plan drivers e snap'.
Proof.
  intros Hl Ha. unfold plan. destruct (Enable e); [|done]. cbn [negb].
  destruct (match For drivers (Type_ e) with None => _ | Some _ => _ end) as [fill problem].
  assert (frontIsUp fill snap = frontIsUp fill snap') as ->; [|done]. unfold frontIsUp. by rewrite Hl, Ha.
Qed.

(** The view of a converged host is the plan. *)
Lemma converged_view k1 k' w named :
  shape (ID e) w -> converged k1 k' w ->
  (forall r, r ∈ rules k1 -> Priority r = Prio (ID e) -> ruTable r = Table (ID e)) ->
  let h := ownedView (snapshot_of k') (ID e) (device w) named in
  wrules w ≡ₚ hrules h /\ blackholes w ≡ₚ hblackholes h /\ throws w ≡ₚ hthrows h /\ fronts w ≡ₚ hfronts h /\ shadowing h = [].
Proof.
  intros Hsh [_ Hr Hro _] Hcl. cbv zeta.
  assert (forall x, x ∈ routes k' -> roTable x = Table (ID e) -> x ∈ blackholes w ++ throws w ++ fronts w) as Hin.
  { intros x. rewrite Hro, elem_of_app, list_elem_of_filter. tauto. }
  assert (forall x, roTable x = Table (ID e) -> times (routes k') x = (times (blackholes w) x + times (throws w) x + times (fronts w) x)%nat) as Ht.
  { intros x Hx. rewrite (proj1 (times_perm _ _) Hro x), times_app, times_filter, decide_False, !times_app by tauto. lia. }
  rewrite clean_unshadowed; simpl.
  2: { intros r. rewrite Hr, elem_of_app, list_elem_of_filter. intros [Hw|[_ ?]]; [|auto]. by apply (sh_rules _ _ Hsh) in Hw as [_ ?]. }
  2: { intros r Hr' Hx. specialize (Hin r Hr' Hx). rewrite !elem_of_app in Hin. destruct Hin as [Hw|[Hw|Hw]].
       - left. by apply (want_blackhole (ID e) w Hsh).
       - right. right. by apply (want_throw (ID e) w Hsh).
       - right. left. pose proof (front_owned (ID e) w named Hsh r Hw) as (_ & _ & _ & Ho).
         destruct (want_front (ID e) w Hsh r Hw) as (f & ->). eauto. }
  destruct (ownedView_spec (snapshot_of k') (ID e) (device w) named) as (-> & -> & -> & -> & _). simpl.
  assert (forall x, is_blackhole (ID e) x -> times (throws w) x = O /\ times (fronts w) x = O) as Kb.
  { intros x (_ & Hy & _). split; apply times_out; [intros (s & ->)%(want_throw (ID e) w Hsh)|intros (f & ->)%(want_front (ID e) w Hsh)]; done. }
  assert (forall x, is_throw (ID e) x -> times (blackholes w) x = O /\ times (fronts w) x = O) as Kt.
  { intros x (_ & Hy). split; apply times_out; [intros (s & ->)%(want_blackhole (ID e) w Hsh)|intros (f & ->)%(want_front (ID e) w Hsh)]; done. }
  assert (forall x, is_front (ID e) (device w) named x -> times (blackholes w) x = O /\ times (throws w) x = O) as Kf.
  { intros x (_ & Hy & _). split; apply times_out; [intros (s & ->)%(want_blackhole (ID e) w Hsh)|intros (f & ->)%(want_throw (ID e) w Hsh)]; done. }
  split_and!; try done; apply times_perm; intros x; rewrite times_filter; case_decide as Hk.
  - rewrite (proj1 (times_perm _ _) Hr x), times_app, times_filter, decide_False by tauto. lia.
  - apply times_out. intros Hw. by apply Hk, (sh_rules _ _ Hsh).
  - rewrite Ht by apply Hk. destruct (Kb x Hk) as [-> ->]. lia.
  - apply times_out. intros (f & ->)%(want_blackhole (ID e) w Hsh). by apply Hk.
  - rewrite Ht by apply Hk. destruct (Kt x Hk) as [-> ->]. lia.
  - apply times_out. intros (f & ->)%(want_throw (ID e) w Hsh). by apply Hk.
  - rewrite Ht by apply Hk. destruct (Kf x Hk) as [-> ->]. lia.
  - apply times_out. intros Hw. by apply Hk, (front_owned (ID e) w named Hsh).
Qed.

Lemma converge_again k1 k' b' :
  ValidID (ID e) = true -> SnapshotErr k' = None ->
  (forall r, r ∈ rules k1 -> Priority r = Prio (ID e) -> ruTable r = Table (ID e)) ->
  (plan drivers e (snapshot_of k1)).2 = None -> converged k1 k' (plan drivers e (snapshot_of k1)).1 ->
  provision drivers k' e = (k', (b', None)) -> Ensure drivers k' e = (k', []).
Proof.
  intros Hid Hs Hcl Herr Hcv Hp. pose proof (plan_shape drivers e (snapshot_of k1)) as Hsh.
  assert (plan drivers e (snapshot_of k') = plan drivers e (snapshot_of k1)) as Hplan.
  { apply plan_links; simpl; apply Hcv. }
  unfold Ensure. cbn [plane_Snapshot KernelPlane]. unfold kernel_Snapshot. rewrite Hs.
  change (mkSnapshot (rules k') (routes k') (links k') (addrs k')) with (snapshot_of k').
  unfold converge, checkID. rewrite Hid, Hp, Hplan. destruct (plan drivers e (snapshot_of k1)) as [w err]. simpl in Herr, Hcv, Hsh.
  subst err. cbn [plane_Snapshot KernelPlane]. unfold kernel_Snapshot. rewrite Hs.
  change (mkSnapshot (rules k') (routes k') (links k') (addrs k')) with (snapshot_of k'). rewrite Hplan.
  match goal with |- context [if ?c then ?a else ?b] => assert ((if c then a else b) = (snapshot_of k', (w, None))) as -> by (by destruct c) end.
  destruct (converged_view k1 k' w (namedFor drivers (ID e)) Hsh Hcv Hcl) as (V1 & V2 & V3 & V4 & ->).
  set (h := ownedView (snapshot_of k') (ID e) (device w) (namedFor drivers (ID e))) in *.
  unfold install. rewrite (diff_perm _ _ V1), (diff_perm _ _ V2), (diff_perm _ _ V3), (diff_perm _ _ V4). simpl.
  unfold applySysctls. rewrite set_sysctls_quiet; [done|]. simpl. intros key v Hk.
  rewrite merge_sort_Permutation in Hk. apply list_elem_of_fmap in Hk as ([key' v'] & -> & Hk). apply elem_of_map_to_list in Hk.
  simpl. rewrite (cv_sysctls _ _ _ Hcv key'), Hk. simpl. destruct (sysctls k1 !! key'); [|done]. by intros [= <-].
Qed.

(** C27: one pass settles a row.  On a host that answers, whose priority and table of the
    row's id hold nothing foreign, ensuring a row (enabled or being torn down, its device
    provisioned or taken away on the way) reports no failure and leaves exactly the rules,
    blackholes, exceptions and fronts the row's plan asks for beside the rules and routes
    of everybody else, with the knobs of the front set where they exist; and once the
    provisioner has nothing left to do, a second pass writes nothing.  Conditions: the id
    is valid, provisioning succeeds and touches devices only ([settles]), and the row's
    driver resolves, so that its plan has no error. *)
Theorem row_converges k k1 b :
  ValidID (ID e) = true -> answers k -> SnapshotErr k = None ->
  provision drivers k e = (k1, (b, None)) -> settles k k1 (Enable e) ->
  let '(w, planErr) := plan drivers e (snapshot_of k1) in
  planErr = None -> clean k (ID e) (device w) (namedFor drivers (ID e)) ->
  exists k', Ensure drivers k e = (k', []) /\ converged k1 k' w /\
    (forall b', provision drivers k' e = (k', (b', None)) -> Ensure drivers k' e = (k', [])).
Proof.
  intros Hid Ha Hs Hp Hset. destruct (plan drivers e (snapshot_of k1)) as [w planErr] eqn:Hpl. intros -> Hcl.
  destruct (converge_once k k1 b Hid Ha Hs Hp Hset) as (k' & He & Hcv); rewrite ?Hpl; try done.
  rewrite Hpl in Hcv. exists k'. split_and!; [done|done|]. intros b' Hp'. apply (converge_again k1 k' b'); rewrite ?Hpl; try done.
  - rewrite (st_snapshot _ _ (cv_steady _ _ _ Hcv)). by rewrite (tm_snapshot _ _ (proj1 Hset)).
  - rewrite (tm_rules _ _ (proj1 Hset)). apply Hcl.
Qed.
End Row.

(** ** A concrete row *)

Import SampleUplink.
#[local] Existing Instance SampleText.sample_text.
#[local] Existing Instance SampleText.sample_text_laws.

Definition healthy : Kernel := AddLink New_kernel "pwg7" [].
Definition dialled : Kernel := AddLink healthy "pux7" [].

Lemma healthy_clean dev named : clean healthy 7 dev named.
Proof.
  split; [by intros r ?%not_elem_of_nil|by intros r ?%not_elem_of_nil|].
  intros x _. change (0 <= 1)%nat. lia.
Qed.

Lemma healthy_settles : settles healthy dialled true.
Proof.
  split; [by split|]. split_and!; [done| |done]. change (links dialled) with ["pwg7"; "pux7"].
  change (links healthy) with ["pwg7"]. intros x ->%list_elem_of_singleton. by left.
Qed.

Lemma row_converges_witness :
  exists k', Ensure drivers healthy row = (k', []) /\ rules k' <> [].
Proof.
  pose proof (row_converges drivers row eq_refl healthy dialled true eq_refl (fun _ => eq_refl) eq_refl eq_refl healthy_settles) as H.
  destruct (plan drivers row (snapshot_of dialled)) as [w err] eqn:E.
  assert (err = None) as He by (change err with ((w, err).2); rewrite <-E; vm_compute; reflexivity).
  assert (length (wrules w) = 5%nat) as Hw by (change w with ((w, err).1); rewrite <-E; vm_compute; reflexivity).
  destruct (H He (healthy_clean _ _)) as (k' & Hk & Hc & _). exists k'. split; [exact Hk|].
  intros Hn. apply cv_rules in Hc. rewrite Hn in Hc. apply Permutation_nil_l in Hc.
  apply (f_equal length) in Hc. rewrite length_app, Hw in Hc. discriminate Hc.
Defined.
