(* ===== verification/EgressPreflight.v ===== *)
(** * Egress: preflight, marked exits and forwarding

    internal/egress/probe.go, preflight.go, marked.go and forwarding.go over any [Plane]:
    the reversible write that proves the manager may write, the report on what in the
    reserved band is not the panel's, the device a marked socket leaves through, and the
    knobs of the host.  Refusals and notes carry what they name; their sentences are left
    out. *)
From stdpp Require Import pretty.
From Stdlib Require Import Ascii.
From S2P Require Import Prelude Decimal Netip Egress EgressPlane EgressManager EgressFacts EgressSafety.
Open Scope string_scope.
Open Scope Z_scope.
Open Scope list_scope.

Definition AllRPFilterKey : string := "net.ipv4.conf.all.rp_filter".
Definition IPForwardKey : string := "net.ipv4.ip_forward".
Definition IPForward6Key : string := "net.ipv6.conf.all.forwarding".

Definition ProbeRule : RuleSpec := mkRule FamilyV4 prioBase "pui-probe0" tableBase 0 NoPrefix.

Inductive refusal :=
| RefusedBy (e : error)
| RefusedForeign (o : object)
| RefusedGateway (a : AddrSpec)
| RefusedStrict.

Inductive note :=
| NoteUnread (key : string) (e : error)
| NoteForwarding (key : string)
| NoteNoNft
| NoteDark (id : Z) (dev : string) (addr : Prefix).

Record Report := mkReport { Refusals : list refusal; Notes : list note }.
Definition Report_OK (r : Report) : bool := bool_decide (length (Refusals r) = O).

(** [netip.Prefix.Overlaps]. *)
Definition Overlaps (p q : Prefix) : bool :=
  let m := Z.min (pBits p) (pBits q) in
  Prefix_IsValid p && Prefix_IsValid q &&
  match pAddr p, pAddr q with
  | Addr4 a, Addr4 b => network m 32 a =? network m 32 b
  | Addr6 a _, Addr6 b _ => network m 128 a =? network m 128 b
  | _, _ => false
  end.

Definition ownGateway (base : Prefix) (addr : AddrSpec) : bool :=
  match ownedEgressID (aDevice addr) with
  | None => false
  | Some id => match Gateway base id with Ok gateway => bool_decide (gateway = aPrefix addr) | Fail _ => false end
  end.

Definition foreign_rule (rule : RuleSpec) : bool :=
  let '(id, mine) := prioEgressID (Priority rule) in negb (mine && (ruTable rule =? Table id)).

Definition foreign_route (route : RouteSpec) : bool :=
  let '(_, mine) := tableEgressID (roTable route) in
  if negb mine then false
  else if bool_decide (roType route = RouteThrow) then false
  else if bool_decide (Dst route = DefaultRoute (roFamily route)) &&
          (bool_decide (roType route = RouteBlackhole) ||
           bool_decide (roType route = RouteUnicast) && ownsDevice "" (roDevice route))
  then false
  else true.

Definition foreignBandObjects (snap : Snapshot) : list refusal :=
  ((fun r => RefusedForeign (ARule r)) <$> filter (fun r => foreign_rule r = true) (Rules snap)) ++
  ((fun r => RefusedForeign (ARoute r)) <$> filter (fun r => foreign_route r = true) (Routes snap)).

Section Preflight.
Context {W : Type} `{!Plane W}.

Definition probeHost (w : W) : W * result unit :=
  match plane_Probe w with
  | Fail err => (w, Fail err)
  | Ok _ =>
      let '(w, r) := AddRule w ProbeRule in
      match r with
      | Fail err => if errors_Is err ErrAlreadyInstalled then (w, Ok tt) else (w, Fail err)
      | Ok _ => DelRule w ProbeRule
      end
  end.

Definition ForwardingNotes (w : W) : list note :=
  omap (fun key => match Sysctl w key with
                   | Ok value => if bool_decide (value = "0") then Some (NoteForwarding key) else None
                   | Fail _ => None
                   end) [IPForwardKey; IPForward6Key] ++
  (if CanMasquerade w then [] else [NoteNoNft]).

Definition darkFronts (drivers : Registry W) (snap : Snapshot) (rows : list Egress) : list note :=
  omap (fun row =>
    match For drivers (Type_ row) with
    | None => None
    | Some driver =>
        if negb (Enable row) then None
        else match dFill driver row with
             | Fail _ => None
             | Ok fill => if bool_decide (fiDevice fill = "") || frontIsUp fill snap then None
                          else Some (NoteDark (ID row) (fiDevice fill) (fiAddr fill))
             end
    end) rows.

Definition Preflight (drivers : Registry W) (w : W) (gatewayBase : Prefix) (rows : list Egress) : W * Report :=
  let '(w, probe) := probeHost w in
  match probe with
  | Fail err => (w, mkReport [RefusedBy err] [])
  | Ok _ =>
      let base := match CheckGatewayBase gatewayBase with Fail err => [RefusedBy err] | Ok _ => [] end in
      match plane_Snapshot w with
      | Fail err => (w, mkReport (base ++ [RefusedBy err]) [])
      | Ok snap =>
          let collisions :=
            if Prefix_IsValid gatewayBase
            then RefusedGateway <$> filter (fun addr =>
                   Overlaps gatewayBase (aPrefix addr) && negb (ownGateway gatewayBase addr) = true) (Addrs snap)
            else [] in
          let '(strict, unread) :=
            match Sysctl w AllRPFilterKey with
            | Fail err => ([], [NoteUnread AllRPFilterKey err])
            | Ok value => (if bool_decide (value = "1") then [RefusedStrict] else [], [])
            end in
          (w, mkReport (base ++ foreignBandObjects snap ++ collisions ++ strict)
                (unread ++ ForwardingNotes w ++ darkFronts drivers snap rows))
      end
  end.

(** ** Where a marked socket leaves *)

Record MarkedRoute := mkMarked { mDevice : string; V4 : bool; V6 : bool }.
Definition Routed (r : MarkedRoute) : bool := negb (bool_decide (mDevice r = "")) && (V4 r || V6 r).
Definition Network (r : MarkedRoute) : string :=
  if V4 r && V6 r then "tcp" else if V4 r then "tcp4" else if V6 r then "tcp6" else "".

Definition marked_step (id : Z) (routed : MarkedRoute) (route : RouteSpec) : MarkedRoute :=
  if negb (roTable route =? Table id) || negb (bool_decide (roType route = RouteUnicast)) ||
     bool_decide (roDevice route = "") then routed
  else match roFamily route with
       | FamilyV4 => mkMarked (roDevice route) true (V6 routed)
       | FamilyV6 => mkMarked (roDevice route) (V4 routed) true
       end.

Definition MarkedExit (w : W) (id : Z) : result MarkedRoute :=
  _ ← checkID id;
  snap ← plane_Snapshot w;
  if existsb (fun rule => (ruMark rule =? Mark id) && (ruTable rule =? Table id)) (Rules snap)
  then Ok (foldl (marked_step id) (mkMarked "" false false) (Routes snap))
  else Fail ErrNotRouted.

(** ** Forwarding *)

Definition ForwardingDropIn : string := "/etc/sysctl.d/99-p-ui-forwarding.conf".
Definition AcceptRADropIn : string := "/etc/sysctl.d/98-p-ui-accept-ra.conf".
Definition newline : string := String "010"%char "".
Definition quote : string := String "034"%char "".
Definition forwardingDropInBody : string :=
  "# Written by Penhoon UI: an L3 inbound on this host forwards packets, and" +:+ newline +:+
  "# without these it completes handshakes and routes nothing. Removed by uninstall." +:+ newline +:+
  "net.ipv4.ip_forward=1" +:+ newline +:+ "net.ipv6.conf.all.forwarding=1" +:+ newline.
Definition acceptRAHead : string :=
  "# Written by Penhoon UI. accept_ra=1 means " +:+ quote +:+ "accept unless forwarding is" +:+ newline +:+
  "# enabled" +:+ quote +:+ ", and this panel enables forwarding. Removed by uninstall." +:+ newline.
Definition acceptRAKey (dev : string) : string := "net.ipv6.conf." +:+ dev +:+ ".accept_ra".

(** One device of the loop: the host, the body of the drop-in and the failures. *)
Definition keep_ra (s : W * string * list error) (dev : string) : W * string * list error :=
  let '(w, body, failures) := s in
  let key := acceptRAKey dev in
  let body := body +:+ key +:+ "=2" +:+ newline in
  match Sysctl w key with
  | Ok value =>
      if negb (bool_decide (value = "1")) then (w, body, failures)
      else let '(w, r) := SetSysctl w key "2" in
           (w, body, match r with Fail err => failures ++ [err] | Ok _ => failures end)
  | Fail _ => (w, body, failures)
  end.

Definition keepRouterAdvertisements (w : W) : W * option error :=
  match RouterAdvertisedDevices w with
  | Fail err => (w, Some err)
  | Ok [] => (w, None)
  | Ok devices =>
      let '(w, body, failures) := foldl keep_ra (w, acceptRAHead, []) (merge_sort String.le devices) in
      let '(w, r) := PersistSysctl w AcceptRADropIn body in
      (w, join (match r with Fail err => failures ++ [err] | Ok _ => failures end))
  end.

Definition forward_key (s : W * list error) (key : string) : W * list error :=
  let '(w, failures) := s in
  match Sysctl w key with
  | Fail err => (w, if errors_Is err ErrNoDevice then failures else failures ++ [err])
  | Ok value =>
      if bool_decide (value = "1") then (w, failures)
      else let '(w, r) := SetSysctl w key "1" in
           (w, match r with Fail err => failures ++ [err] | Ok _ => failures end)
  end.

Definition EnsureForwarding (w : W) : W * option error :=
  let '(w, kept) := keepRouterAdvertisements w in
  let '(w, failures) := foldl forward_key (w, option_list kept) [IPForwardKey; IPForward6Key] in
  let '(w, r) := PersistSysctl w ForwardingDropIn forwardingDropInBody in
  (w, join (match r with Fail err => failures ++ [err] | Ok _ => failures end)).
End Preflight.

(** ** Preflight *)

(** What preflight lets pass does not shadow any id's containment. *)
Lemma passed_unshadowed snap id dev named :
  ValidID id = true -> foreignBandObjects snap = [] -> shadowing (ownedView snap id dev named) = [].
Proof.
  intros Hid Hf. unfold foreignBandObjects in Hf. apply app_eq_nil in Hf as [H1 H2].
  apply fmap_nil_inv in H1, H2. destruct (ownedView_spec snap id dev named) as (_ & _ & _ & _ & ->).
  assert (forall r, r ∈ Rules snap -> foreign_rule r = false) as Hru.
  { intros r Hr. apply not_true_is_false. intros Hx.
    assert (r ∈ filter (fun r => foreign_rule r = true) (Rules snap)) as Hin by (by apply list_elem_of_filter).
    rewrite H1 in Hin. by apply not_elem_of_nil in Hin. }
  assert (forall r, r ∈ Routes snap -> foreign_route r = false) as Hro.
  { intros r Hr. apply not_true_is_false. intros Hx.
    assert (r ∈ filter (fun r => foreign_route r = true) (Routes snap)) as Hin by (by apply list_elem_of_filter).
    rewrite H2 in Hin. by apply not_elem_of_nil in Hin. }
  assert (filter (strange_rule id) (Rules snap) = []) as ->.
  { destruct (filter (strange_rule id) (Rules snap)) as [|r l] eqn:E; [done|]. exfalso.
    assert (r ∈ filter (strange_rule id) (Rules snap)) as [[Hp Ht] Hr]%list_elem_of_filter by (rewrite E; by left).
    specialize (Hru r Hr). unfold foreign_rule, prioEgressID in Hru. rewrite Hp in Hru.
    replace (Prio id - prioBase) with id in Hru by (unfold Prio; lia). rewrite Hid in Hru. simpl in Hru. bools. done. }
  destruct (filter (strange_route id dev named) (Routes snap)) as [|r l] eqn:E; [done|]. exfalso.
  assert (r ∈ filter (strange_route id dev named) (Routes snap)) as [(Ht & Hy & Hn) Hr]%list_elem_of_filter by (rewrite E; by left).
  specialize (Hro r Hr). unfold foreign_route, tableEgressID in Hro. rewrite Ht in Hro.
  replace (Table id - tableBase) with id in Hro by (unfold Table; lia). rewrite Hid, Hy in Hro. simpl in Hro.
  destruct (bool_decide (Dst r = DefaultRoute (roFamily r))) eqn:Hd; [|done]. simpl in Hro.
  destruct (ownsDevice "" (roDevice r)) eqn:Ho; [|done]. apply Hn. split; [by apply bool_decide_eq_true in Hd|].
  assert (ownsDevice dev (roDevice r) = true) as ->; [|done]. unfold ownsDevice in *.
  destruct (bool_decide (roDevice r = "")); [done|]. simpl in Ho. by destruct (negb _ && _).
Qed.

Lemma probe_restores (k : Kernel) :
  Fails k (OpRuleDel ProbeRule) = None ->
  let '(k', r) := probeHost k in
  steady k k' /\ rules k' = rules k /\ routes k' = routes k /\ sysctls k' = sysctls k /\
  (is_ok r = true -> ProbeErr k = None /\ (Fails k (OpRuleAdd ProbeRule) = None \/
     exists e, Fails k (OpRuleAdd ProbeRule) = Some e /\ errors_Is e ErrAlreadyInstalled = true)).
Proof.
  intros Hd. unfold probeHost. cbn [plane_Probe KernelPlane]. destruct (ProbeErr k) as [e|] eqn:Hp.
  { by split_and!; [apply steady_refl|..]. }
  cbn [AddRule KernelPlane]. unfold kernel_AddRule, attempt. destruct (Fails k (OpRuleAdd ProbeRule)) as [e|] eqn:Hf.
  { destruct (errors_Is e ErrAlreadyInstalled) eqn:He; split_and!; try done; try (by split). intros _. eauto. }
  cbn [rules with_ops]. case_bool_decide as Hin.
  { change (errors_Is ErrAlreadyInstalled ErrAlreadyInstalled) with true. split_and!; try done; try (by split). auto. }
  cbn [DelRule KernelPlane]. unfold kernel_DelRule, attempt. cbn [Fails with_rules with_ops]. rewrite Hd.
  cbn [rules with_rules with_ops].
  assert (delete_first ProbeRule (rules k ++ [ProbeRule]) = Some (rules k)) as ->.
  { clear Hd Hp Hf. induction (rules k) as [|r l IH]; [done|]. simpl. rewrite elem_of_cons in Hin.
    rewrite bool_decide_eq_false_2 by (intros ->; tauto). rewrite IH by tauto. done. }
  split_and!; try done; try (by split). auto.
Qed.

(** Preflight is honest and leaves no trace.  The probe's write is undone: rules,
    routes, devices and knobs are as they were found.  A report without refusals means
    that the plane answered, that no rule or route of the host defeats the containment of
    any id, whatever device its row names, that the gateway base serves the whole band and
    collides with no address that is not a front's own, and that reverse-path filtering is
    not strict. *)
Theorem preflight_is_honest (drivers : Registry Kernel) (k : Kernel) (base : Prefix) (rows : list Egress) :
  Fails k (OpRuleDel ProbeRule) = None ->
  let '(k', report) := Preflight drivers k base rows in
  rules k' = rules k /\ routes k' = routes k /\ steady k k' /\ sysctls k' = sysctls k /\
  (Report_OK report = true ->
    (forall id dev named, ValidID id = true ->
      shadowing (ownedView (mkSnapshot (rules k) (routes k) (links k) (addrs k)) id dev named) = []) /\
    is_ok (CheckGatewayBase base) = true /\
    (forall a, a ∈ addrs k -> Prefix_IsValid base = true -> Overlaps base (aPrefix a) = true -> ownGateway base a = true) /\
    sysctls k !! AllRPFilterKey <> Some "1").
Proof.
  intros Hd. unfold Preflight. pose proof (probe_restores k Hd) as Hp. destruct (probeHost k) as [k1 [[]|err]].
  2: { destruct Hp as (H1 & H2 & H3 & H4 & _). by split_and!. }
  destruct Hp as (H1 & H2 & H3 & H4 & _). cbn [plane_Snapshot KernelPlane]. unfold kernel_Snapshot.
  destruct (SnapshotErr k1) as [e|] eqn:Hs.
  { split_and!; try done. unfold Report_OK. simpl. destruct (CheckGatewayBase base); simpl; intros Hx; bools; done. }
  cbn [Sysctl KernelPlane]. unfold kernel_Sysctl. rewrite H2, H3, H4, (st_links _ _ H1), (st_addrs _ _ H1). cbn [Addrs].
  set (snap := mkSnapshot _ _ _ _). set (collisions := if Prefix_IsValid base then _ else _).
  match goal with |- context [match ?m with Ok value => (@?a value, _) | Fail err => _ end] =>
    destruct (match m with Ok value => (a value, []) | Fail err => ([], [NoteUnread AllRPFilterKey err]) end) as [strict unread] eqn:Hrp end.
  split_and!; try done. unfold Report_OK. cbn [Refusals]. intros Hok. bools.
  rewrite !length_app in Hok.
  assert (foreignBandObjects snap = [] /\ collisions = [] /\ strict = []) as (Ef & Ec & Es)
    by (split_and!; apply nil_length_inv; lia).
  split_and!.
  - intros id dev named Hid. by apply passed_unshadowed.
  - destruct (CheckGatewayBase base); [done|]. simpl in Hok. lia.
  - intros a Ha Hv Ho. subst collisions. rewrite Hv in Ec. apply fmap_nil_inv in Ec.
    destruct (ownGateway base a) eqn:Hg; [done|]. exfalso.
    assert (a ∈ filter (fun addr => Overlaps base (aPrefix addr) && negb (ownGateway base addr) = true) (addrs k)) as Hin
      by (apply list_elem_of_filter; rewrite Ho, Hg; done).
    rewrite Ec in Hin. by apply not_elem_of_nil in Hin.
  - intros Hx. rewrite Hx in Hrp. change (bool_decide ("1" = "1")) with true in Hrp. simplify_eq.
Qed.

Lemma preflight_is_honest_witness :
  rules (Preflight SampleUplink.drivers (SeedRule SampleUplink.host0 [mkRule FamilyV4 (Prio 7) "pwg7" 254 0 NoPrefix])
           (mkPrefix (Addr4 1686044672) 16) []).1 = [mkRule FamilyV4 (Prio 7) "pwg7" 254 0 NoPrefix].
Proof.
  pose proof (preflight_is_honest SampleUplink.drivers (SeedRule SampleUplink.host0 [mkRule FamilyV4 (Prio 7) "pwg7" 254 0 NoPrefix])
    (mkPrefix (Addr4 1686044672) 16) [] eq_refl) as H.
  destruct (Preflight _ _ _ _) as [k' r]. exact (proj1 H).
Defined.

(** ** Forwarding *)

(** What the forwarding calls never touch. *)
Record undisturbed (k k' : Kernel) : Prop := {
  ud_steady : steady k k';
  ud_rules : rules k' = rules k;
  ud_routes : routes k' = routes k;
  ud_devices : RADevices k' = RADevices k;
}.
Lemma undisturbed_refl k : undisturbed k k.
Proof. split; [apply steady_refl|done..]. Qed.
Lemma undisturbed_trans k1 k2 k3 : undisturbed k1 k2 -> undisturbed k2 k3 -> undisturbed k1 k3.
Proof. intros [H1 ? ? ?] [H2 ? ? ?]. split; [by eapply steady_trans|congruence..]. Qed.

(** One knob written where it is there. *)
Lemma SetSysctl_knob (k : Kernel) key value v :
  sysctls k !! key = Some v ->
  let '(k', r) := SetSysctl k key value in
  undisturbed k k' /\ ops k' = ops k ++ [OpSysctl key value] /\ dropIns k' = dropIns k /\
  (Fails k (OpSysctl key value) = None -> r = Ok tt /\ sysctls k' = <[key := value]> (sysctls k)).
Proof.
  intros Hv. cbn [SetSysctl KernelPlane]. unfold kernel_SetSysctl, attempt.
  destruct (Fails k (OpSysctl key value)) as [e|]; [by split_and!; try by split|].
  cbn [sysctls with_ops]. rewrite Hv. by split_and!; try by split.
Qed.

Lemma no_ops (k : Kernel) (Q : op -> Prop) : exists l, ops k = ops k ++ l /\ forall o, o ∈ l -> Q o.
Proof. exists []. rewrite app_nil_r. split; [done|]. by intros o ?%not_elem_of_nil. Qed.

Lemma keep_ra_step k body fs dev :
  let '(k', _, fs') := keep_ra (k, body, fs) dev in
  undisturbed k k' /\ dropIns k' = dropIns k /\
  (exists ra, ops k' = ops k ++ ra /\ forall o, o ∈ ra -> o = OpSysctl (acceptRAKey dev) "2") /\
  ((forall o, Fails k o = None) -> fs' = fs /\
    sysctls k' = if bool_decide (sysctls k !! acceptRAKey dev = Some "1") then <[acceptRAKey dev := "2"]> (sysctls k) else sysctls k).
Proof.
  unfold keep_ra. cbn [Sysctl KernelPlane]. unfold kernel_Sysctl.
  destruct (sysctls k !! acceptRAKey dev) as [v|] eqn:Hv; [|by split_and!; [apply undisturbed_refl|done|apply no_ops|]].
  destruct (bool_decide (v = "1")) eqn:Hone; cbn [negb].
  - apply bool_decide_eq_true in Hone as ->. pose proof (SetSysctl_knob k (acceptRAKey dev) "2" "1" Hv) as Hs.
    destruct (SetSysctl k (acceptRAKey dev) "2") as [k2 r]. destruct Hs as (U & O & D & R). split_and!; try done.
    + exists [OpSysctl (acceptRAKey dev) "2"]. split; [done|]. by intros o ->%list_elem_of_singleton.
    + intros Ha. destruct (R (Ha _)) as [-> ->]. by rewrite bool_decide_eq_true_2.
  - apply bool_decide_eq_false in Hone. split_and!; [apply undisturbed_refl|done|apply no_ops|].
    intros _. split; [done|]. rewrite bool_decide_eq_false_2; [done|congruence].
Qed.

Lemma keep_ra_loop l k body fs :
  let '(k', body', fs') := foldl keep_ra (k, body, fs) l in
  undisturbed k k' /\ dropIns k' = dropIns k /\
  (exists ra, ops k' = ops k ++ ra /\ forall o, o ∈ ra -> exists dev, dev ∈ l /\ o = OpSysctl (acceptRAKey dev) "2") /\
  ((forall o, Fails k o = None) -> fs' = fs /\ forall key, sysctls k' !! key =
    if bool_decide (key ∈ acceptRAKey <$> l) && bool_decide (sysctls k !! key = Some "1") then Some "2" else sysctls k !! key).
Proof.
  revert k body fs. induction l as [|dev l IH]; intros k body fs.
  { split_and!; [apply undisturbed_refl|done|apply no_ops|].
    intros _. split; [done|]. intros key. by rewrite bool_decide_eq_false_2 by apply not_elem_of_nil. }
  cbn [foldl]. pose proof (keep_ra_step k body fs dev) as Hstep. destruct (keep_ra (k, body, fs) dev) as [[k1 body1] fs1].
  destruct Hstep as (H1 & H2 & (ra1 & H3 & H3') & H4).
  specialize (IH k1 body1 fs1). destruct (foldl keep_ra (k1, body1, fs1) l) as [[k' body'] fs'].
  destruct IH as (I1 & I2 & (ra2 & I3 & I3') & I4). split_and!; [by eapply undisturbed_trans|congruence| |].
  - exists (ra1 ++ ra2). split; [by rewrite I3, H3, app_assoc|]. intros o. rewrite elem_of_app. intros [Ho|Ho].
    + exists dev. split; [by left|auto].
    + destruct (I3' o Ho) as (d & ? & ?). exists d. split; [by right|done].
  - intros Ha. destruct (H4 Ha) as [-> H4s]. destruct I4 as [-> I4s].
    { intros o. by rewrite (st_fails _ _ (ud_steady _ _ H1)). }
    split; [done|]. intros key. rewrite I4s, fmap_cons. rewrite H4s.
    destruct (decide (key = acceptRAKey dev)) as [->|Hne].
    + rewrite (bool_decide_eq_true_2 (acceptRAKey dev ∈ acceptRAKey dev :: _)) by (by left). cbn [andb].
      case_bool_decide as Hx; [rewrite lookup_insert_eq; by destruct (_ && _)|]. by repeat case_bool_decide.
    + assert (bool_decide (key ∈ acceptRAKey dev :: (acceptRAKey <$> l)) = bool_decide (key ∈ acceptRAKey <$> l)) as ->.
      { apply bool_decide_ext. rewrite elem_of_cons. tauto. }
      by case_bool_decide; rewrite ?lookup_insert_ne by done.
Qed.

Lemma forward_step k fs key :
  let '(k', fs') := forward_key (k, fs) key in
  undisturbed k k' /\ dropIns k' = dropIns k /\
  (exists fw, ops k' = ops k ++ fw /\ forall o, o ∈ fw -> o = OpSysctl key "1") /\
  ((forall o, Fails k o = None) -> fs' = fs /\ forall key', sysctls k' !! key' =
    if bool_decide (key' = key) then (fun _ => "1") <$> sysctls k !! key' else sysctls k !! key').
Proof.
  unfold forward_key. cbn [Sysctl KernelPlane]. unfold kernel_Sysctl. destruct (sysctls k !! key) as [v|] eqn:Hv.
  - destruct (bool_decide (v = "1")) eqn:Hone.
    + apply bool_decide_eq_true in Hone as ->. split_and!; [apply undisturbed_refl|done|apply no_ops|].
      intros _. split; [done|]. intros key'. case_bool_decide; [subst; by rewrite Hv|done].
    + pose proof (SetSysctl_knob k key "1" v Hv) as Hs. destruct (SetSysctl k key "1") as [k2 r].
      destruct Hs as (U & O & D & R). split_and!; try done.
      * exists [OpSysctl key "1"]. split; [done|]. by intros o ->%list_elem_of_singleton.
      * intros Ha. destruct (R (Ha _)) as [-> ->]. split; [done|]. intros key'.
        destruct (bool_decide_reflect (key' = key)) as [->|]; [by rewrite lookup_insert_eq, Hv|by rewrite lookup_insert_ne].
  - change (errors_Is ErrNoDevice ErrNoDevice) with true. split_and!; [apply undisturbed_refl|done|apply no_ops|].
    intros _. split; [done|]. intros key'. case_bool_decide; [subst; by rewrite Hv|done].
Qed.

(** An advertisement knob is not a forwarding knob. *)
Lemma accept_not_forward dev : acceptRAKey dev <> IPForwardKey /\ acceptRAKey dev <> IPForward6Key.
Proof.
  split; [by unfold acceptRAKey, IPForwardKey|]. unfold acceptRAKey, IPForward6Key. intros H.
  apply (inj (String.append "net.ipv6.conf.") (dev +:+ ".accept_ra") "all.forwarding") in H.
  repeat (destruct dev as [|? dev]; simpl in H; [discriminate H|injection H as _ H]).
  destruct dev; discriminate H.
Qed.

Lemma undisturbed_dropIns k k' m : undisturbed k k' -> undisturbed k (with_dropIns k' m).
Proof. intros [[] ? ? ?]. split; [by split|done..]. Qed.

Lemma keep_spec (k : Kernel) :
  let '(k', err) := keepRouterAdvertisements k in
  undisturbed k k' /\
  (exists ra, ops k' = ops k ++ ra /\ forall o, o ∈ ra -> exists dev, dev ∈ RADevices k /\ o = OpSysctl (acceptRAKey dev) "2") /\
  ((forall o, Fails k o = None) -> err = None /\ forall key, sysctls k' !! key =
    if bool_decide (key ∈ acceptRAKey <$> RADevices k) && bool_decide (sysctls k !! key = Some "1") then Some "2" else sysctls k !! key).
Proof.
  unfold keepRouterAdvertisements. cbn [RouterAdvertisedDevices KernelPlane].
  destruct (RADevices k) as [|d ds] eqn:Hd.
  { split_and!; [apply undisturbed_refl|apply no_ops|]. intros _. split; [done|]. intros key.
    by rewrite bool_decide_eq_false_2 by apply not_elem_of_nil. }
  rewrite <-Hd. pose proof (keep_ra_loop (merge_sort String.le (RADevices k)) k acceptRAHead []) as Hl.
  destruct (foldl keep_ra _ _) as [[k1 body] fs]. destruct Hl as (H1 & _ & (ra & H3 & H3') & H4).
  cbn [PersistSysctl KernelPlane]. unfold kernel_PersistSysctl. split_and!.
  - by apply undisturbed_dropIns.
  - exists ra. split; [done|]. intros o Ho. destruct (H3' o Ho) as (dev & Hin & ->). rewrite merge_sort_Permutation in Hin. eauto.
  - intros Ha. destruct (H4 Ha) as [-> Hs]. split; [done|]. intros key. simpl. rewrite Hs.
    erewrite (bool_decide_ext (key ∈ acceptRAKey <$> merge_sort _ _)); [done|].
    by rewrite merge_sort_Permutation.
Qed.

Lemma forwarding_spec (k : Kernel) :
  let '(k', err) := EnsureForwarding k in
  undisturbed k k' /\
  (exists ra fw, ops k' = ops k ++ ra ++ fw /\
    (forall o, o ∈ ra -> exists dev, dev ∈ RADevices k /\ o = OpSysctl (acceptRAKey dev) "2") /\
    (forall o, o ∈ fw -> exists key, key ∈ [IPForwardKey; IPForward6Key] /\ o = OpSysctl key "1")) /\
  ((forall o, Fails k o = None) -> err = None /\
    (forall key, sysctls k' !! key =
      if bool_decide (key ∈ [IPForwardKey; IPForward6Key]) then (fun _ => "1") <$> sysctls k !! key
      else if bool_decide (key ∈ acceptRAKey <$> RADevices k) && bool_decide (sysctls k !! key = Some "1") then Some "2"
      else sysctls k !! key)).
Proof.
  unfold EnsureForwarding. pose proof (keep_spec k) as Hkeep.
  destruct (keepRouterAdvertisements k) as [k1 kept]. destruct Hkeep as (K1 & (ra & K2 & K2') & K3). cbn [foldl].
  pose proof (forward_step k1 (option_list kept) IPForwardKey) as HA.
  destruct (forward_key (k1, option_list kept) IPForwardKey) as [k2 fs2]. destruct HA as (A1 & _ & (fa & A2 & A2') & A3).
  pose proof (forward_step k2 fs2 IPForward6Key) as HB.
  destruct (forward_key (k2, fs2) IPForward6Key) as [k3 fs3]. destruct HB as (B1 & _ & (fb & B2 & B2') & B3).
  cbn [PersistSysctl KernelPlane]. unfold kernel_PersistSysctl. split_and!.
  - apply undisturbed_dropIns. eapply undisturbed_trans; [exact K1|]. by eapply undisturbed_trans.
  - exists ra, (fa ++ fb). split; [simpl; by rewrite B2, A2, K2, <-!app_assoc|]. split; [done|].
    intros o. rewrite elem_of_app. intros [Ho|Ho]; [exists IPForwardKey|exists IPForward6Key]; (split; [|auto]);
      rewrite !elem_of_cons; auto.
  - intros Ha. destruct (K3 Ha) as [-> Ks].
    assert (forall o, Fails k1 o = None) as Ha1 by (intros o; by rewrite (st_fails _ _ (ud_steady _ _ K1))).
    destruct (A3 Ha1) as [-> As].
    assert (forall o, Fails k2 o = None) as Ha2 by (intros o; by rewrite (st_fails _ _ (ud_steady _ _ A1))).
    destruct (B3 Ha2) as [-> Bs]. split; [done|]. intros key. simpl. rewrite Bs, As, Ks.
    destruct (bool_decide_reflect (key = IPForward6Key)) as [->|H6]; [|destruct (bool_decide_reflect (key = IPForwardKey)) as [->|H4]].
    + rewrite (bool_decide_eq_true_2 (IPForward6Key ∈ [IPForwardKey; IPForward6Key])) by (rewrite !elem_of_cons; auto).
      change (bool_decide (IPForward6Key = IPForwardKey)) with false. cbv iota.
      case_match eqn:Hc; [|done]. apply andb_true_iff in Hc as [_ ->%bool_decide_eq_true]. done.
    + rewrite (bool_decide_eq_true_2 (IPForwardKey ∈ [IPForwardKey; IPForward6Key])) by (rewrite !elem_of_cons; auto).
      case_match eqn:Hc; [|done]. apply andb_true_iff in Hc as [_ ->%bool_decide_eq_true]. done.
    + rewrite (bool_decide_eq_false_2 (key ∈ [IPForwardKey; IPForward6Key])); [done|]. rewrite !elem_of_cons, elem_of_nil. tauto.
Qed.

(** Forwarding is turned on without costing the host its own IPv6.  Whatever write
    fails, the writes are advertisement knobs of devices the kernel configures from a
    router advertisement first, and only then forwarding knobs, so no interface stops
    accepting advertisements because forwarding came on; rules, routes and devices are
    untouched.  On a host that answers, both forwarding knobs that exist read 1 afterwards,
    an advertisement knob that read 1 reads 2, every other knob (an operator's 0 among
    them) is as it was, and a second call changes no knob. *)
Theorem forwarding_keeps_advertisements (k : Kernel) :
  let '(k', err) := EnsureForwarding k in
  undisturbed k k' /\
  (exists ra fw, ops k' = ops k ++ ra ++ fw /\
    (forall o, o ∈ ra -> exists dev, dev ∈ RADevices k /\ o = OpSysctl (acceptRAKey dev) "2") /\
    (forall o, o ∈ fw -> exists key, key ∈ [IPForwardKey; IPForward6Key] /\ o = OpSysctl key "1")) /\
  ((forall o, Fails k o = None) -> err = None /\
    (forall key, sysctls k' !! key =
      if bool_decide (key ∈ [IPForwardKey; IPForward6Key]) then (fun _ => "1") <$> sysctls k !! key
      else if bool_decide (key ∈ acceptRAKey <$> RADevices k) && bool_decide (sysctls k !! key = Some "1") then Some "2"
      else sysctls k !! key) /\
    sysctls (EnsureForwarding k').1 = sysctls k').
Proof.
  pose proof (forwarding_spec k) as H1. destruct (EnsureForwarding k) as [k' err]. destruct H1 as (U & O & R).
  split_and!; [done|done|]. intros Ha. destruct (R Ha) as [-> Rs]. split_and!; [done|done|].
  pose proof (forwarding_spec k') as Hone. destruct (EnsureForwarding k') as [k'' err']. destruct Hone as (_ & _ & R').
  destruct R' as [_ Rs']; [intros o; by rewrite (st_fails _ _ (ud_steady _ _ U))|].
  apply map_eq. intros key. simpl. rewrite Rs', (ud_devices _ _ U), !Rs.
  case_bool_decide as Hk; [by destruct (sysctls k !! key)|].
  destruct (bool_decide (key ∈ acceptRAKey <$> RADevices k)); [|done]. cbn [andb].
  destruct (bool_decide_reflect (sysctls k !! key = Some "1")) as [Hx|Hx]; [done|].
  cbv iota. by rewrite bool_decide_eq_false_2.
Qed.

(** ** Marked exits *)

(** A route a marked socket of [id] can leave through. *)
Definition exits (id : Z) (f : Family) (r : RouteSpec) : Prop :=
  roTable r = Table id /\ roType r = RouteUnicast /\ roDevice r <> "" /\ roFamily r = f.

Lemma marked_loop id l m :
  let m' := foldl (marked_step id) m l in
  (V4 m' = true <-> V4 m = true \/ exists r, r ∈ l /\ exits id FamilyV4 r) /\
  (V6 m' = true <-> V6 m = true \/ exists r, r ∈ l /\ exits id FamilyV6 r) /\
  (mDevice m' = mDevice m \/ exists r f, r ∈ l /\ exits id f r /\ mDevice m' = roDevice r).
Proof.
  cbv zeta. revert m. induction l as [|r l IH]; intros m.
  { simpl. split_and!; [..|by left]; (split; [auto|]); intros [?|(r & ?%not_elem_of_nil & _)]; done. }
  cbn [foldl]. destruct (IH (marked_step id m r)) as (I1 & I2 & I3). clear IH.
  setoid_rewrite elem_of_cons. rewrite I1, I2. unfold marked_step in *.
  destruct (negb (roTable r =? Table id) || negb (bool_decide (roType r = RouteUnicast)) || bool_decide (roDevice r = "")) eqn:Hg.
  - assert (forall f, ~ exits id f r) as Hn.
    { intros f (Ht & Hy & Hd & _). rewrite Ht, Z.eqb_refl, bool_decide_eq_true_2, bool_decide_eq_false_2 in Hg by done. done. }
    split_and!; [naive_solver..|]. destruct I3 as [?|(x & f & ? & ? & ?)]; [by left|]. right. exists x, f. auto.
  - apply orb_false_iff in Hg as [[Ht Hy]%orb_false_iff Hd]. bools. destruct (roFamily r) eqn:Hf; simpl.
    + assert (exits id FamilyV4 r) as Hx by (by split_and!). assert (~ exits id FamilyV6 r) by (intros (_ & _ & _ & ?); congruence).
      split_and!; [naive_solver..|]. right. destruct I3 as [?|(x & f & ? & ? & ?)]; [exists r, FamilyV4|exists x, f]; auto.
    + assert (exits id FamilyV6 r) as Hx by (by split_and!). assert (~ exits id FamilyV4 r) by (intros (_ & _ & _ & ?); congruence).
      split_and!; [naive_solver..|]. right. destruct I3 as [?|(x & f & ? & ? & ?)]; [exists r, FamilyV6|exists x, f]; auto.
Qed.

(** Where a marked socket leaves: refused exactly when no rule catches the mark, and
    otherwise the families and the device of the unicast routes of the table, an empty
    device when the table only contains. *)
Theorem marked_exit_reads_the_host (k : Kernel) (id : Z) :
  ValidID id = true -> SnapshotErr k = None ->
  match MarkedExit k id with
  | Fail e => e = ErrNotRouted /\ forall r, r ∈ rules k -> ~ (ruMark r = Mark id /\ ruTable r = Table id)
  | Ok m => (exists r, r ∈ rules k /\ ruMark r = Mark id /\ ruTable r = Table id) /\
      (V4 m = true <-> exists r, r ∈ routes k /\ exits id FamilyV4 r) /\
      (V6 m = true <-> exists r, r ∈ routes k /\ exits id FamilyV6 r) /\
      (mDevice m = "" \/ exists r f, r ∈ routes k /\ exits id f r /\ mDevice m = roDevice r)
  end.
Proof.
  intros Hid Hs. unfold MarkedExit, checkID. rewrite Hid. cbn [mbind result_bind plane_Snapshot KernelPlane].
  unfold kernel_Snapshot. rewrite Hs. cbn [mbind result_bind Rules Routes].
  destruct (existsb _ (rules k)) eqn:E.
  - apply existsb_exists in E as (r & Hr & Hb). bools. destruct (marked_loop id (routes k) (mkMarked "" false false)) as (M1 & M2 & M3).
    split_and!; [exists r; by rewrite list_elem_of_In|naive_solver|naive_solver|done].
  - split; [done|]. intros r Hr [H1 H2]. apply not_true_iff_false in E. apply E, existsb_exists.
    exists r. rewrite <-list_elem_of_In, H1, H2, !Z.eqb_refl. done.
Qed.
