(* ===== verification/Spool.v ===== *)
(** * The durable usage spool: internal/node/state/store.go and usage_queue.go

    A node's meters report cumulative usage.  [AppendUsage] files each checkpoint in
    numbered batches, amending in place while a batch has not been shown to a sender;
    [PendingUsage] freezes the batches it hands out; [Acknowledge] drops what the
    control plane has made durable.

    The bbolt file is a record of buckets; a transaction that fails leaves it as it
    was, and a commit may fail.  Protobuf is a parameter: a stored value is the message
    it encodes or bytes that do not decode, and the length of an encoding is the
    message's [proto.Size].  The nil checkpoint, which [meterKey] refuses, is not a
    value of the model; the JSON text of a meter key is the list of its five names. *)
From S2P Require Import Prelude Limits Authority.

Definition ErrIdentity : error := ErrorText "node store identity mismatch".
Definition ErrUsage : error := ErrorText "invalid usage checkpoint".
Definition ErrSpoolFull : error := ErrorText "durable usage spool is full".
Definition ErrUnmarshal : error := ErrorText "proto: cannot parse invalid wire-format data".
Definition ErrMarshal : error := ErrorText "proto: cannot marshal".

Definition MaxDeploymentBytes : Z := 33554432.
Definition MaxBatchBytes : Z := 1048576.
Definition MaxSpoolBytes : Z := 67108864.

Record Identity := mkIdentity { NodeID : string; InstallationID : string; ControlPlaneID : string }.

Record UsageCheckpoint := mkUsageCheckpoint {
  cClientId : string; cTermId : string; cMeterId : string; cMeterIncarnation : string;
  Uploaded : Z; Downloaded : Z; ObservedUnixMilli : Z; cGrantId : string }.

Record UsageBatch := mkUsageBatch {
  bNodeId : string; bInstallationId : string; Sequence : Z; Checkpoints : list UsageCheckpoint }.

Record UsageReceipt := mkUsageReceipt { DurableSequence : Z; AccountedSequence : Z }.

#[global] Instance UsageCheckpoint_eq_dec : EqDecision UsageCheckpoint.
Proof. solve_decision. Defined.

(** google.golang.org/protobuf on the two messages. *)
Class Wire := {
  checkpoint_Size : UsageCheckpoint -> Z;
  batch_Size : UsageBatch -> Z;
  batch_encodes : UsageBatch -> bool;
  SizeTag : Z -> Z;
  SizeVarint : Z -> Z }.

(** A size is a number of bytes. *)
Class WireLaws `{!Wire} := { batch_Size_nonneg b : 0 <= batch_Size b }.

(** A value of a bucket: an encoded message, or bytes that do not decode. *)
Inductive blob (A : Type) := Message (a : A) | Garbage (len : Z).
Arguments Message {A} a.
Arguments Garbage {A} len.

#[global] Instance blob_eq_dec {A} `{EqDecision A} : EqDecision (blob A).
Proof. solve_decision. Defined.

Definition Unmarshal {A} (b : blob A) : result A :=
  match b with Message a => Ok a | Garbage _ => Fail ErrUnmarshal end.

(** The five names that identify a meter. *)
Abbreviation meter := (list string).

(** The buckets [usage] (with its sequence), [meters] and [mutable_usage], and the
    numbers of [meta] they go with. *)
Record Spool := mkSpool {
  usage : gmap Z (blob UsageBatch);
  usage_seq : Z;
  meters : gmap meter (blob UsageCheckpoint);
  mutable : gmap meter (blob Z);
  exposed_usage : Z;
  durable_usage : Z;
  accounted_usage : Z;
  spooled_bytes : Z }.

(** [db.Update]: a failed transaction, or a failed commit, leaves the file alone. *)
Definition Update {D A} (commit : result unit) (d : D) (tx : result (D * A)) : D * result A :=
  match tx with
  | Fail e => (d, Fail e)
  | Ok (d', a) => match commit with Ok _ => (d', Ok a) | Fail e => (d, Fail e) end
  end.

Section Queue.
Context `{!UUIDs, !Wire}.

Definition meter_of (c : UsageCheckpoint) : meter :=
  [cGrantId c; cClientId c; cTermId c; cMeterId c; cMeterIncarnation c].

Definition meterKey (c : UsageCheckpoint) : result meter :=
  if negb (ValidID (cGrantId c)) || negb (ValidID (cClientId c)) || negb (ValidID (cTermId c)) ||
     negb (ValidID (cMeterIncarnation c)) || bool_decide (cMeterId c = ""%string) ||
     (128 <? Z.of_nat (String.length (cMeterId c))) || (ObservedUnixMilli c <=? 0) ||
     (4096 <? checkpoint_Size c)
  then Fail ErrUsage
  else Ok (meter_of c).

Definition checkpointSize (c : UsageCheckpoint) : Z :=
  let n := checkpoint_Size c in SizeTag 4 + SizeVarint (u64 n) + n.

Definition blob_len (b : blob UsageBatch) : Z :=
  match b with Message m => batch_Size m | Garbage n => n end.

(** ** usage_queue.go *)

Record usageEdit := mkEdit {
  e_batch : UsageBatch; e_indices : gmap meter nat; e_size : Z; e_previousBytes : Z }.

(** The locals of [queueUsage]: the bucket's sequence, the index and the edits. *)
Record queueing := mkQueueing {
  q_seq : Z; q_index : gmap meter (blob Z); q_edits : gmap Z usageEdit }.

(** The positions of a loaded batch's checkpoints. *)
Definition index_checkpoint (acc : gmap meter nat * nat) (c : UsageCheckpoint)
    : result (gmap meter nat * nat) :=
  k ← meterKey c;
  if bool_decide (is_Some (acc.1 !! k)) then Fail ErrUsage
  else Ok (<[ k := acc.2 ]> acc.1, S acc.2).

Definition load (node installation : string) (queue : gmap Z (blob UsageBatch))
    (edits : gmap Z usageEdit) (sequence : Z) : result usageEdit :=
  match edits !! sequence with
  | Some edit => Ok edit
  | None =>
      match queue !! sequence with
      | None => Fail ErrUsage
      | Some data =>
          batch ← Unmarshal data;
          if negb (Sequence batch =? sequence) || bool_decide (bNodeId batch <> node) ||
             bool_decide (bInstallationId batch <> installation)
          then Fail ErrIdentity
          else
            indices ← foldM index_checkpoint (∅, O) (Checkpoints batch);
            Ok (mkEdit batch indices.1 (batch_Size batch) (blob_len data))
      end
  end.

(** [queue.NextSequence] and the empty batch it numbers. *)
Definition newBatch (node installation : string) (seq : Z) : result (Z * usageEdit) :=
  let sequence := add64 seq 1 in
  if sequence =? 0 then Fail ErrUsage
  else
    let batch := mkUsageBatch node installation sequence [] in
    Ok (sequence, mkEdit batch ∅ (batch_Size batch) 0).

Definition with_checkpoints (b : UsageBatch) (cs : list UsageCheckpoint) : UsageBatch :=
  mkUsageBatch (bNodeId b) (bInstallationId b) (Sequence b) cs.

(** Amending a checkpoint whose batch has not been exposed. *)
Definition replace_checkpoint (m : meter) (c : UsageCheckpoint) (edit : usageEdit)
    : result usageEdit :=
  match e_indices edit !! m with
  | None => Fail ErrUsage
  | Some position =>
      match Checkpoints (e_batch edit) !! position with
      | None => Fail ErrUsage
      | Some old =>
          let size := e_size edit + (checkpointSize c - checkpointSize old) in
          if MaxBatchBytes <? size then Fail ErrUsage
          else
            Ok (mkEdit
                  (with_checkpoints (e_batch edit)
                     (<[ position := c ]> (Checkpoints (e_batch edit))))
                  (e_indices edit) size (e_previousBytes edit))
      end
  end.

Definition append_checkpoint (m : meter) (c : UsageCheckpoint) (tail : usageEdit) : usageEdit :=
  mkEdit (with_checkpoints (e_batch tail) (Checkpoints (e_batch tail) ++ [c]))
    (<[ m := length (Checkpoints (e_batch tail)) ]> (e_indices tail))
    (e_size tail + checkpointSize c) (e_previousBytes tail).

(** The tail cannot take one more checkpoint. *)
Definition tail_full (c : UsageCheckpoint) (tail : usageEdit) : bool :=
  (4096 <=? Z.of_nat (length (Checkpoints (e_batch tail)))) ||
  (MaxBatchBytes / 2 <? e_size tail + checkpointSize c).

(** The unexposed tail, or a new batch when there is none or it is full. *)
Definition tail_edit (node installation : string) (queue : gmap Z (blob UsageBatch))
    (exposed : Z) (q : queueing) (c : UsageCheckpoint) : result (Z * usageEdit) :=
  if exposed <? q_seq q then
    edit ← load node installation queue (q_edits q) (q_seq q);
    if tail_full c edit then newBatch node installation (q_seq q) else Ok (q_seq q, edit)
  else newBatch node installation (q_seq q).

(** One turn of the loop over the incoming checkpoints. *)
Definition queue_step (node installation : string) (queue : gmap Z (blob UsageBatch))
    (exposed : Z) (q : queueing) (c : UsageCheckpoint) : result queueing :=
  m ← meterKey c;
  previous ← match q_index q !! m with
             | None => Ok 0
             | Some (Message n) => Ok n
             | Some (Garbage _) => Fail ErrUsage
             end;
  if exposed <? previous then
    edit ← load node installation queue (q_edits q) previous;
    edit ← replace_checkpoint m c edit;
    Ok (mkQueueing (q_seq q) (q_index q) (<[ previous := edit ]> (q_edits q)))
  else
    tail ← tail_edit node installation queue exposed q c;
    Ok (mkQueueing tail.1 (<[ m := Message (Sequence (e_batch tail.2)) ]> (q_index q))
          (<[ tail.1 := append_checkpoint m c tail.2 ]> (q_edits q))).

(** The bytes the edits replace and add. *)
Definition weigh (acc : Z * Z) (edit : usageEdit) : result (Z * Z) :=
  if negb (batch_encodes (e_batch edit)) then Fail ErrMarshal
  else if MaxBatchBytes <? batch_Size (e_batch edit) then Fail ErrUsage
  else Ok (add64 acc.1 (e_previousBytes edit), add64 acc.2 (batch_Size (e_batch edit))).

Definition queueUsage (node installation : string) (incoming : list UsageCheckpoint) (s : Spool)
    : result (Spool * Z) :=
  q ← foldM (queue_step node installation (usage s) (exposed_usage s))
        (mkQueueing (usage_seq s) (mutable s) ∅) incoming;
  let spooled := spooled_bytes s in
  if MaxSpoolBytes <? spooled then Fail ErrSpoolFull
  else
    w ← foldM weigh (0, 0) (map_to_list (q_edits q)).*2;
    if spooled <? w.1 then Fail ErrUsage
    else
      let spooled := spooled - w.1 in
      if MaxSpoolBytes - spooled <? w.2 then Fail ErrSpoolFull
      else
        Ok (mkSpool (((fun e => Message (e_batch e)) <$> q_edits q) ∪ usage s) (q_seq q)
              (meters s) (q_index q) (exposed_usage s) (durable_usage s) (accounted_usage s)
              (spooled + w.2),
            q_seq q).

(** ** store.go *)

(** One checkpoint of a batch against its meter. *)
Definition meter_step (acc : gset meter * gmap meter (blob UsageCheckpoint)) (c : UsageCheckpoint)
    : result (gset meter * gmap meter (blob UsageCheckpoint)) :=
  k ← meterKey c;
  if bool_decide (k ∈ acc.1) then Fail ErrUsage
  else
    let put := Ok ({[ k ]} ∪ acc.1, <[ k := Message c ]> acc.2) in
    match acc.2 !! k with
    | None => put
    | Some previous =>
        old ← Unmarshal previous;
        if (Uploaded c <? Uploaded old) || (Downloaded c <? Downloaded old) then Fail ErrUsage
        else put
    end.

Definition with_meters (s : Spool) (m : gmap meter (blob UsageCheckpoint)) : Spool :=
  mkSpool (usage s) (usage_seq s) m (mutable s) (exposed_usage s) (durable_usage s)
    (accounted_usage s) (spooled_bytes s).

Definition appendUsage (id : Identity) (checkpoints : list UsageCheckpoint) (s : Spool)
    : result (Spool * Z) :=
  let batch := mkUsageBatch (NodeID id) (InstallationID id) 0 checkpoints in
  if bool_decide (checkpoints = []) || (4096 <? Z.of_nat (length checkpoints)) ||
     (MaxBatchBytes - 16 <? batch_Size batch)
  then Fail ErrUsage
  else
    m ← foldM meter_step (∅, meters s) checkpoints;
    queueUsage (NodeID id) (InstallationID id) checkpoints (with_meters s m.2).

Definition AppendUsage (id : Identity) (commit : result unit) (checkpoints : list UsageCheckpoint)
    (s : Spool) : Spool * result Z :=
  Update commit s (appendUsage id checkpoints s).

(** The first [limit] entries of a bucket, in key order. *)
Definition first_keys (limit : nat) (queue : gmap Z (blob UsageBatch)) : list Z :=
  firstn limit (merge_sort Z.le (map_to_list queue).*1).

Definition read_entry (id : Identity) (queue : gmap Z (blob UsageBatch))
    (result : list UsageBatch) (k : Z) : Prelude.result (list UsageBatch) :=
  match queue !! k with
  | None => Ok result
  | Some v =>
      b ← Unmarshal v;
      if negb (Sequence b =? k) || bool_decide (bNodeId b <> NodeID id) ||
         bool_decide (bInstallationId b <> InstallationID id)
      then Fail ErrUsage else Ok (result ++ [b])
  end.

Definition read (id : Identity) (limit : Z) (s : Spool) : Prelude.result (list UsageBatch) :=
  foldM (read_entry id (usage s)) [] (first_keys (Z.to_nat limit) (usage s)).

Definition with_exposed (s : Spool) (n : Z) : Spool :=
  mkSpool (usage s) (usage_seq s) (meters s) (mutable s) n (durable_usage s)
    (accounted_usage s) (spooled_bytes s).

Definition last_sequence (batches : list UsageBatch) : Z :=
  match last batches with Some b => Sequence b | None => 0 end.

(** The writing transaction of [PendingUsage]. *)
Definition freeze (id : Identity) (limit : Z) (s : Spool) : result (Spool * list UsageBatch) :=
  batches ← read id limit s;
  if bool_decide (batches = []) then Ok (s, batches)
  else Ok (with_exposed s (Z.max (exposed_usage s) (last_sequence batches)), batches).

(** [PendingUsage]: a reading transaction on [s], then, unless all of it is frozen
    already, a writing one on [later], the file as other transactions left it. *)
Definition PendingUsage (id : Identity) (commit : result unit) (limit : Z) (s later : Spool)
    : Spool * result (list UsageBatch) :=
  if (limit <? 1) || (128 <? limit) then (later, Fail ErrUsage)
  else
    match read id limit s with
    | Fail e => (later, Fail e)
    | Ok batches =>
        if bool_decide (batches = []) || (last_sequence batches <=? exposed_usage s)
        then (later, Ok batches)
        else Update commit later (freeze id limit later)
    end.

Definition reclaim (durable : Z) (queue : gmap Z (blob UsageBatch)) : gmap Z (blob UsageBatch) :=
  filter (fun e => e.1 <= durable) queue.

Definition acknowledge (r : UsageReceipt) (s : Spool) : result (Spool * unit) :=
  if usage_seq s <? DurableSequence r then Fail ErrUsage
  else if exposed_usage s <? DurableSequence r then Fail ErrUsage
  else
    let durable := Z.max (DurableSequence r) (durable_usage s) in
    let accounted := Z.max (AccountedSequence r) (accounted_usage s) in
    let removed := reclaim durable (usage s) in
    let reclaimed := foldl (fun n v => add64 n (u64 (blob_len v))) 0 (map_to_list removed).*2 in
    if spooled_bytes s <? reclaimed then Fail ErrUsage
    else
      Ok (mkSpool (usage s ∖ removed) (usage_seq s) (meters s) (mutable s) (exposed_usage s)
            durable accounted (spooled_bytes s - reclaimed), tt).

Definition Acknowledge (commit : result unit) (r : option UsageReceipt) (s : Spool)
    : Spool * result unit :=
  match r with
  | None => (s, Fail ErrUsage)
  | Some r =>
      if DurableSequence r <? AccountedSequence r then (s, Fail ErrUsage)
      else Update commit s (acknowledge r s)
  end.

End Queue.
