(* ===== verification/SpoolFacts.v ===== *)
(** * The invariant of the usage spool *)
From S2P Require Import Prelude Limits Authority Spool.

(** Cumulative counters: a later checkpoint of a meter is at least an earlier one. *)
Definition checkpoint_le (c c' : UsageCheckpoint) : Prop :=
  Uploaded c <= Uploaded c' /\ Downloaded c <= Downloaded c'.

#[global] Instance checkpoint_le_po : PreOrder checkpoint_le.
Proof. split; unfold checkpoint_le; [intros ?; lia|intros ???; lia]. Qed.

Section Spool.
Context {HUU : UUIDs} {HWW : Wire} {HWL : WireLaws}.

(** The pending batches [V], the latest checkpoint [M] of every meter and the batch
    [I] it was last filed in. *)
Record queue_ok (id : Identity) (V : gmap Z UsageBatch) (M : gmap meter UsageCheckpoint)
    (I : gmap meter Z) (durable exposed seq : Z) : Prop := {
  qo_range : 0 <= durable <= exposed /\ exposed <= seq <= MaxUint64;
  qo_keys : forall k, is_Some (V !! k) <-> durable < k <= seq;
  qo_batch : forall k b, V !! k = Some b ->
    Sequence b = k /\ bNodeId b = NodeID id /\ bInstallationId b = InstallationID id /\
    NoDup (meter_of <$> Checkpoints b) /\ Forall (fun c => meterKey c = Ok (meter_of c)) (Checkpoints b);
  qo_index : forall m j, I !! m = Some j -> 0 < j <= seq /\
    exists c, M !! m = Some c /\ meter_of c = m /\
      (durable < j -> exists b, V !! j = Some b /\ c ∈ Checkpoints b);
  qo_latest : forall m, is_Some (M !! m) -> is_Some (I !! m);
  qo_past : forall k b c, V !! k = Some b -> c ∈ Checkpoints b ->
    exists j c', I !! meter_of c = Some j /\ k <= j /\ M !! meter_of c = Some c' /\ checkpoint_le c c';
  qo_order : forall k k' b b' c c', V !! k = Some b -> V !! k' = Some b' -> k < k' ->
    c ∈ Checkpoints b -> c' ∈ Checkpoints b' -> meter_of c = meter_of c' -> checkpoint_le c c' }.

Lemma meterKey_ok c m : meterKey c = Ok m -> m = meter_of c.
Proof. unfold meterKey. destruct (_ || _); [done|]. by intros [= <-]. Qed.

(** Amending the checkpoint of a meter in its unexposed batch. *)
Lemma queue_ok_replace id V M I durable exposed seq k b pos c c0 :
  queue_ok id V M I durable exposed seq -> meterKey c = Ok (meter_of c) ->
  I !! meter_of c = Some k -> V !! k = Some b -> Checkpoints b !! pos = Some c0 ->
  meter_of c0 = meter_of c ->
  (forall c1, M !! meter_of c = Some c1 -> checkpoint_le c1 c) ->
  queue_ok id (<[ k := with_checkpoints b (<[ pos := c ]> (Checkpoints b)) ]> V)
    (<[ meter_of c := c ]> M) I durable exposed seq.
Proof.
  intros [] Hc Hi Hk Hpos Hm Hmono.
  assert (meter_of <$> <[ pos := c ]> (Checkpoints b) = meter_of <$> Checkpoints b) as Hmap.
  { rewrite list_fmap_insert. apply list_insert_id. by rewrite list_lookup_fmap, Hpos, <- Hm. }
  assert (forall c', c' ∈ <[ pos := c ]> (Checkpoints b) -> c' = c \/ c' ∈ Checkpoints b) as Hin.
  { intros c' Hc'. apply list_elem_of_lookup in Hc' as [i Hi'].
    apply list_lookup_insert_Some in Hi' as [(_ & -> & _)|[_ Hi']]; [auto|].
    right. by eapply list_elem_of_lookup_2. }
  assert (forall c', c' ∈ Checkpoints b -> meter_of c' <> meter_of c ->
            c' ∈ <[ pos := c ]> (Checkpoints b)) as Hkeep.
  { intros c' Hc' Hne. apply list_elem_of_lookup in Hc' as [i Hi'].
    apply (list_elem_of_lookup_2 _ i). rewrite list_lookup_insert_ne; [done|].
    intros ->. congruence. }
  assert (forall k1 b1 c1, V !! k1 = Some b1 -> c1 ∈ Checkpoints b1 -> meter_of c1 = meter_of c ->
            k1 <= k /\ checkpoint_le c1 c) as Hpast.
  { intros k1 b1 c1 H1 H2 H3. destruct (qo_past0 _ _ _ H1 H2) as (j & c' & Hj & Hle & Hc' & Hcl).
    rewrite H3 in *. simplify_eq. split; [done|]. etrans; [done|auto]. }
  split; [done|..].
  - intros k'. rewrite lookup_insert_is_Some', <-qo_keys0. split; [|auto]. intros [<-|?]; [|done].
    by rewrite Hk.
  - intros k' b' [[<- <-]|[_ Hb]]%lookup_insert_Some; [|auto]. simpl.
    destruct (qo_batch0 _ _ Hk) as (?&?&?&?&Hall). split_and!; auto; [by rewrite Hmap|].
    by apply Forall_insert.
  - intros m j Hj. destruct (qo_index0 _ _ Hj) as (Hr & c' & Hc' & Hmc & Hin'). split; [done|].
    destruct (decide (m = meter_of c)) as [->|Hne].
    + assert (j = k) as -> by congruence. exists c. rewrite lookup_insert_eq. split_and!; [done..|].
      intros _. eexists. rewrite lookup_insert_eq. split; [done|]. simpl.
      apply (list_elem_of_lookup_2 _ pos). apply list_lookup_insert_eq. by eapply lookup_lt_Some.
    + exists c'. rewrite lookup_insert_ne by done. split_and!; [done..|]. intros Hd.
      destruct (Hin' Hd) as (b' & Hb' & Hcb). destruct (decide (j = k)) as [->|Hjk].
      * simplify_eq. eexists. rewrite lookup_insert_eq. split; [done|]. simpl.
        apply Hkeep; [done|congruence].
      * exists b'. by rewrite lookup_insert_ne by done.
  - intros m. rewrite lookup_insert_is_Some'. intros [<-|?]; [by rewrite Hi|auto].
  - intros k' b' c' [[<- <-]|[Hne Hb]]%lookup_insert_Some Hc'; simpl in *.
    + destruct (decide (meter_of c' = meter_of c)) as [He|Hne].
      * rewrite He. exists k, c. rewrite lookup_insert_eq. split_and!; [done..|].
        destruct (Hin _ Hc') as [->|Hc2]; [done|]. by eapply Hpast.
      * rewrite lookup_insert_ne by done. destruct (Hin _ Hc') as [->|Hc2]; [done|]. by eapply qo_past0.
    + destruct (decide (meter_of c' = meter_of c)) as [He|Hne'].
      * rewrite He. exists k, c. rewrite lookup_insert_eq. destruct (Hpast _ _ _ Hb Hc' He). auto.
      * rewrite lookup_insert_ne by done. by eapply qo_past0.
  - intros k1 k2 b1 b2 c1 c2 [[<- <-]|[Hn1 H1]]%lookup_insert_Some [[<- <-]|[Hn2 H2]]%lookup_insert_Some
      Hlt Hc1 Hc2 He; simpl in *; [lia| | |eauto].
    + destruct (Hin _ Hc1) as [->|Hc1']; [|eauto].
      destruct (Hpast _ _ _ H2 Hc2 (eq_sym He)). lia.
    + destruct (Hin _ Hc2) as [->|Hc2']; [|eauto]. by destruct (Hpast _ _ _ H1 Hc1 He).
Qed.

(** Filing a checkpoint at the tail: in the last batch, or in the next one. *)
Lemma queue_ok_grow id V M I durable exposed seq k b c :
  queue_ok id V M I durable exposed seq -> meterKey c = Ok (meter_of c) ->
  (forall j, I !! meter_of c = Some j -> j <= exposed) ->
  exposed < k <= MaxUint64 ->
  (k = seq /\ V !! k = Some b) \/
  (k = seq + 1 /\ b = mkUsageBatch (NodeID id) (InstallationID id) k []) ->
  (forall c1, M !! meter_of c = Some c1 -> checkpoint_le c1 c) ->
  queue_ok id (<[ k := with_checkpoints b (Checkpoints b ++ [c]) ]> V)
    (<[ meter_of c := c ]> M) (<[ meter_of c := k ]> I) durable exposed k.
Proof.
  intros Hq Hc Hi Hk Hb Hmono. pose proof Hq as [].
  assert (forall k1 b1 c1, V !! k1 = Some b1 -> c1 ∈ Checkpoints b1 -> meter_of c1 = meter_of c ->
            k1 <= exposed /\ checkpoint_le c1 c) as Hpast.
  { intros k1 b1 c1 Hv1 Hc1 He. destruct (qo_past0 _ _ _ Hv1 Hc1) as (j & c' & Hj & Hle & Hc' & Hcl).
    rewrite He in *. specialize (Hi _ Hj). split; [lia|]. etrans; [done|auto]. }
  assert (Sequence b = k /\ bNodeId b = NodeID id /\ bInstallationId b = InstallationID id /\
          NoDup (meter_of <$> Checkpoints b) /\ Forall (fun c => meterKey c = Ok (meter_of c)) (Checkpoints b))
    as (Hs & Hn & Hins & Hnd & Hall).
  { destruct Hb as [[-> Hb]|[-> ->]]; [by apply qo_batch0|]. split_and!; try done; constructor. }
  assert (forall c1, c1 ∈ Checkpoints b -> V !! k = Some b) as Hold.
  { intros c1 Hc1. destruct Hb as [[-> Hb]|[-> ->]]; [done|]. by apply elem_of_nil in Hc1. }
  assert (forall c1, c1 ∈ Checkpoints b -> meter_of c1 <> meter_of c) as Hnew.
  { intros c1 Hc1 He. destruct (Hpast _ _ _ (Hold _ Hc1) Hc1 He). lia. }
  assert (seq <= k) as Hsk by (destruct Hb as [[? _]|[? _]]; lia).
  split.
  - lia.
  - intros k'. rewrite lookup_insert_is_Some', qo_keys0. destruct Hb as [[-> _]|[-> _]]; lia.
  - intros k' b' [[<- <-]|[_ Hb']]%lookup_insert_Some; [|auto]. simpl. split_and!; auto.
    + rewrite fmap_app. apply NoDup_app. split_and!; [done| |apply NoDup_singleton].
      intros m (c1 & -> & Hc1)%list_elem_of_fmap Hm. apply list_elem_of_singleton in Hm.
      by apply (Hnew c1).
    + apply Forall_app. split; [done|]. by constructor.
  - intros m j [[<- <-]|[Hne Hj]]%lookup_insert_Some.
    + split; [lia|]. exists c. rewrite lookup_insert_eq. split_and!; [done..|]. intros _.
      eexists. rewrite lookup_insert_eq. split; [done|]. simpl. set_solver.
    + destruct (qo_index0 _ _ Hj) as (Hr & c' & Hc' & Hmc & Hin'). split; [lia|].
      exists c'. rewrite lookup_insert_ne by done. split_and!; [done..|]. intros Hd.
      destruct (Hin' Hd) as (b' & Hb' & Hcb). destruct (decide (j = k)) as [->|Hjk].
      * destruct Hb as [[-> Hb]|[-> ->]]; [|lia]. simplify_eq. eexists. rewrite lookup_insert_eq.
        split; [done|]. simpl. set_solver.
      * exists b'. by rewrite lookup_insert_ne by done.
  - intros m. rewrite !lookup_insert_is_Some'. naive_solver.
  - assert (forall k' b' c', V !! k' = Some b' -> c' ∈ Checkpoints b' ->
      exists j c'', <[meter_of c := k]> I !! meter_of c' = Some j /\ k' <= j /\
        <[meter_of c := c]> M !! meter_of c' = Some c'' /\ checkpoint_le c' c'') as Hgo.
    { intros k' b' c' Hv Hc'. destruct (decide (meter_of c' = meter_of c)) as [He|Hne].
      - rewrite He, !lookup_insert_eq. destruct (Hpast _ _ _ Hv Hc' He). exists k, c. split_and!; auto; lia.
      - rewrite !lookup_insert_ne by done. by eapply qo_past0. }
    intros k' b' c' [[<- <-]|[Hne Hb']]%lookup_insert_Some Hc'; simpl in *; [|eauto].
    apply elem_of_app in Hc' as [Hc'|Hc'%list_elem_of_singleton]; [by eapply Hgo; eauto|]. subst c'.
    rewrite !lookup_insert_eq. exists k, c. split_and!; done.
  - assert (forall c1, c1 ∈ Checkpoints b ++ [c] -> c1 = c \/ (c1 ∈ Checkpoints b /\ V !! k = Some b)) as Hin.
    { intros c1 [Hc1|Hc1%list_elem_of_singleton]%elem_of_app; eauto. }
    intros k1 k2 b1 b2 c1 c2 [[<- <-]|[Hn1 Hv1]]%lookup_insert_Some [[<- <-]|[Hn2 Hv2]]%lookup_insert_Some
      Hlt Hc1 Hc2 He; simpl in *; [lia| | |eauto].
    + exfalso. assert (k2 <= seq) by (apply qo_keys0; eauto). lia.
    + destruct (Hin _ Hc2) as [->|[Hc2' Hv]]; [|eauto]. by destruct (Hpast _ _ _ Hv1 Hc1 He).
Qed.

(** ** The loop of [queueUsage] *)

(** The positions an edit records are those of its checkpoints. *)
Definition edit_ok (e : usageEdit) : Prop :=
  forall m pos, e_indices e !! m = Some pos ->
    exists c, Checkpoints (e_batch e) !! pos = Some c /\ meter_of c = m.

(** The batches as the edits leave them. *)
Definition view (V : gmap Z UsageBatch) (edits : gmap Z usageEdit) : gmap Z UsageBatch :=
  (e_batch <$> edits) ∪ V.

Record queueing_ok (id : Identity) (V : gmap Z UsageBatch) (M : gmap meter UsageCheckpoint)
    (durable exposed : Z) (q : queueing) : Prop := {
  go_queue : exists I, q_index q = Message <$> I /\
    queue_ok id (view V (q_edits q)) M I durable exposed (q_seq q);
  go_edits : forall k e, q_edits q !! k = Some e ->
    exposed < k /\ edit_ok e /\
    e_previousBytes e = match V !! k with Some b => batch_Size b | None => 0 end }.

Lemma view_edit V edits k e : edits !! k = Some e -> view V edits !! k = Some (e_batch e).
Proof. intros He. unfold view. apply lookup_union_Some_l. by rewrite lookup_fmap, He. Qed.

Lemma view_other V edits k : edits !! k = None -> view V edits !! k = V !! k.
Proof. intros He. unfold view. rewrite lookup_union_r; [done|]. by rewrite lookup_fmap, He. Qed.

Lemma view_insert V edits k e : view V (<[ k := e ]> edits) = <[ k := e_batch e ]> (view V edits).
Proof. unfold view. by rewrite fmap_insert, insert_union_l. Qed.

Lemma index_checkpoints l : forall acc acc',
  foldM index_checkpoint acc l = Ok acc' ->
  (forall m pos, acc.1 !! m = Some pos -> (pos < acc.2)%nat) ->
  forall m pos, acc'.1 !! m = Some pos ->
    acc.1 !! m = Some pos \/
    exists c, (acc.2 <= pos)%nat /\ l !! (pos - acc.2)%nat = Some c /\ meter_of c = m.
Proof.
  induction l as [|c l IH]; intros acc acc' Hf Hacc m pos Hm; simpl in Hf; [simplify_eq; auto|].
  destruct (index_checkpoint acc c) as [acc1|] eqn:E; [|done].
  unfold index_checkpoint in E. destruct (meterKey c) as [k|] eqn:Hk; [|done].
  cbn [mbind result_bind] in E. case_bool_decide; [done|]. injection E as <-.
  apply meterKey_ok in Hk as ->. apply IH with (m := m) (pos := pos) in Hf; [|simpl|done].
  - destruct Hf as [Hf|(c' & Hle & Hl & Hc')].
    + simpl in Hf. apply lookup_insert_Some in Hf as [[<- <-]|[_ Hf]]; [|auto].
      right. exists c. split_and!; [lia| |done]. by rewrite Nat.sub_diag.
    + right. exists c'. simpl in *. split_and!; [lia| |done].
      replace (pos - acc.2)%nat with (S (pos - S acc.2)) by lia. done.
  - intros m' pos' [[<- <-]|[_ Hp]]%lookup_insert_Some; [lia|]. specialize (Hacc _ _ Hp). lia.
Qed.

(** A loaded edit shows the batch of the view. *)
Lemma load_spec id V M durable exposed q k e :
  queueing_ok id V M durable exposed q -> exposed < k ->
  load (NodeID id) (InstallationID id) (Message <$> V) (q_edits q) k = Ok e ->
  view V (q_edits q) !! k = Some (e_batch e) /\ edit_ok e /\
  e_previousBytes e = match V !! k with Some b => batch_Size b | None => 0 end.
Proof.
  intros [] Hk. unfold load. destruct (q_edits q !! k) as [e'|] eqn:He.
  - intros [= <-]. destruct (go_edits0 _ _ He) as (_ & ? & ?). by rewrite (view_edit _ _ _ _ He).
  - rewrite lookup_fmap. destruct (V !! k) as [b|] eqn:Hb; simpl; [|done].
    split_guard; [done|]. destruct (foldM index_checkpoint (∅, 0%nat) (Checkpoints b)) as [acc|] eqn:Hf; [|done].
    simpl. intros [= <-]. rewrite view_other by done. split_and!; [done| |done].
    intros m pos Hm. destruct (index_checkpoints _ _ _ Hf) with (m := m) (pos := pos) as [Hx|(c & _ & Hl & Hc)];
      [intros ?? Hx; simpl in Hx; by rewrite lookup_empty in Hx|done|simpl in Hx; by rewrite lookup_empty in Hx|].
    simpl in Hl. rewrite Nat.sub_0_r in Hl. eauto.
Qed.

(** The tail is the last batch of the view, or the next one, empty. *)
Definition tail_fits (id : Identity) (V : gmap Z UsageBatch) (exposed : Z) (q : queueing) (k : Z)
    (e : usageEdit) : Prop :=
  exposed < k <= MaxUint64 /\
  ((k = q_seq q /\ view V (q_edits q) !! k = Some (e_batch e)) \/
   (k = q_seq q + 1 /\ e_batch e = mkUsageBatch (NodeID id) (InstallationID id) k [])) /\
  Sequence (e_batch e) = k /\ edit_ok e /\
  e_previousBytes e = match V !! k with Some b => batch_Size b | None => 0 end.

Lemma newBatch_fits id V M durable exposed q k e :
  queueing_ok id V M durable exposed q ->
  newBatch (NodeID id) (InstallationID id) (q_seq q) = Ok (k, e) -> tail_fits id V exposed q k e.
Proof.
  intros [(I & HI & []) Hed]. unfold newBatch. split_guard; [done|]. intros [= <- <-].
  assert (add64 (q_seq q) 1 = q_seq q + 1) as Ha.
  { apply add64_small. destruct (decide (q_seq q = MaxUint64)) as [He|]; [|machine].
    exfalso. apply G. rewrite He. reflexivity. }
  rewrite Ha in *. pose proof (add64_range (q_seq q) 1) as Hr. rewrite Ha in Hr.
  assert (V !! (q_seq q + 1) = None) as Hv.
  { apply eq_None_not_Some. intros [b Hb].
    assert (is_Some (view V (q_edits q) !! (q_seq q + 1))) as [_ Hx]%qo_keys0; [|lia].
    destruct (q_edits q !! (q_seq q + 1)) as [e'|] eqn:He; [by rewrite (view_edit _ _ _ _ He)|].
    rewrite view_other by done. eauto. }
  split_and!; [lia|machine|by right|done| |by rewrite Hv].
  intros m pos. simpl. by rewrite lookup_empty.
Qed.

Lemma tail_edit_spec id V M durable exposed q c k e :
  queueing_ok id V M durable exposed q ->
  tail_edit (NodeID id) (InstallationID id) (Message <$> V) exposed q c = Ok (k, e) ->
  tail_fits id V exposed q k e.
Proof.
  intros Hq. pose proof Hq as [(I & HI & []) Hed]. unfold tail_edit.
  split_guard; [|by eapply newBatch_fits].
  destruct (load _ _ _ _ _) as [e'|] eqn:Hl; [|done]. simpl. split_guard; [by eapply newBatch_fits|].
  intros [= <- <-]. apply (load_spec _ _ _ _ _ _ _ _ Hq G) in Hl as (Hv & He & Hp).
  destruct (qo_batch0 _ _ Hv) as [Hs _]. split_and!; auto; lia.
Qed.

(** One turn keeps the invariant, with the checkpoint now its meter's latest. *)
Lemma queue_step_ok id V M durable exposed q c q' :
  queueing_ok id V M durable exposed q ->
  (forall c1, M !! meter_of c = Some c1 -> checkpoint_le c1 c) ->
  queue_step (NodeID id) (InstallationID id) (Message <$> V) exposed q c = Ok q' ->
  queueing_ok id V (<[ meter_of c := c ]> M) durable exposed q' /\ q_seq q <= q_seq q'.
Proof.
  intros Hq Hmono. pose proof Hq as [(I & HI & Hqo) Hed]. unfold queue_step.
  destruct (meterKey c) as [m|] eqn:Hm; [|done]. cbn [mbind result_bind].
  pose proof (meterKey_ok _ _ Hm). subst m. rewrite HI, lookup_fmap.
  match goal with |- context [mbind _ ?p] => assert (exists j, p = Ok j /\
    (exposed < j -> I !! meter_of c = Some j) /\
    (j <= exposed -> forall j', I !! meter_of c = Some j' -> j' <= exposed)) as (j & -> & Hj1 & Hj2) end.
  { pose proof (qo_range _ _ _ _ _ _ _ Hqo).
    destruct (I !! meter_of c) as [j|]; simpl; eexists; (split; [done|]); split; naive_solver lia. }
  cbn [mbind result_bind]. split_guard.
  - destruct (load _ _ _ _ _) as [e|] eqn:Hl; [|done]. simpl.
    destruct (load_spec _ _ _ _ _ _ _ _ Hq G Hl) as (Hv & He & Hp).
    unfold replace_checkpoint. destruct (e_indices e !! meter_of c) as [pos|] eqn:Hpos; [|done].
    destruct (He _ _ Hpos) as (c0 & Hc0 & Hmc). rewrite Hc0.
    destruct (_ <? _); [done|]. simpl. intros [= <-]. split; [|done]. split; simpl.
    + exists I. split; [done|]. rewrite view_insert. simpl. by eapply queue_ok_replace; eauto.
    + intros k e' [[<- <-]|[_ Hk]]%lookup_insert_Some; [|auto]. simpl. split_and!; [done| |done].
      intros m pos'. simpl. intros Hm'. destruct (He _ _ Hm') as (c' & Hc' & Hmc').
      destruct (decide (pos' = pos)) as [->|Hne].
      * exists c. rewrite list_lookup_insert_eq by (by eapply lookup_lt_Some). split; [done|]. congruence.
      * exists c'. by rewrite list_lookup_insert_ne by done.
  - destruct (tail_edit _ _ _ _ _ _) as [[k e]|] eqn:Ht; [|done]. simpl. intros [= <-].
    destruct (tail_edit_spec _ _ _ _ _ _ _ _ _ Hq Ht) as (Hk & Hb & Hs & He & Hp).
    split; [|simpl; lia]. split; simpl.
    + exists (<[ meter_of c := k ]> I). rewrite fmap_insert, Hs. split; [done|]. rewrite view_insert.
      eapply queue_ok_grow; eauto.
    + intros k' e' [[<- <-]|[_ Hk']]%lookup_insert_Some; [|auto]. simpl. split_and!; [lia| |done].
      intros m pos. simpl. intros [[<- <-]|[_ Hm']]%lookup_insert_Some.
      * exists c. split; [|done]. by rewrite lookup_app_r, Nat.sub_diag.
      * destruct (He _ _ Hm') as (c' & Hc' & Hmc'). exists c'. split; [|done].
        by apply lookup_app_l_Some.
Qed.

Lemma queue_steps_size node ins V exposed cs : forall q q',
  foldM (queue_step node ins V exposed) q cs = Ok q' ->
  (size (q_edits q') <= size (q_edits q) + length cs)%nat.
Proof.
  induction cs as [|c cs IH]; intros q q' Hf; simpl in Hf; [simplify_eq; simpl; lia|].
  destruct (queue_step node ins V exposed q c) as [q1|] eqn:E; [|done]. apply IH in Hf. simpl.
  assert (forall (k : Z) (e : usageEdit) (m : gmap Z usageEdit), (size (<[ k := e ]> m) <= S (size m))%nat) as Hsz.
  { intros k e m. destruct (m !! k) eqn:Hk; [rewrite map_size_insert_Some by eauto; lia|].
    rewrite map_size_insert_None by done. lia. }
  enough (size (q_edits q1) <= S (size (q_edits q)))%nat by lia. clear Hf IH. unfold queue_step in E.
  destruct (meterKey c) as [m|]; [|done]. simpl in E.
  destruct (match _ with None => _ | _ => _ end) as [j|]; [|done]. simpl in E.
  destruct (exposed <? j); [destruct (load _ _ _ _ _) as [e|]; [|done]; simpl in E;
    destruct (replace_checkpoint _ _ _); [|done]|destruct (tail_edit _ _ _ _ _ _); [|done]];
    injection E as <-; apply Hsz.
Qed.

Lemma weigh_spec es : forall acc w,
  foldM weigh acc es = Ok w -> 0 <= acc.1 -> 0 <= acc.2 ->
  Forall (fun e => 0 <= e_previousBytes e <= MaxBatchBytes) es ->
  acc.1 + Z.of_nat (length es) * MaxBatchBytes <= MaxUint64 ->
  acc.2 + Z.of_nat (length es) * MaxBatchBytes <= MaxUint64 ->
  w.1 = acc.1 + sumZ (e_previousBytes <$> es) /\
  w.2 = acc.2 + sumZ ((fun e => batch_Size (e_batch e)) <$> es) /\
  Forall (fun e => batch_Size (e_batch e) <= MaxBatchBytes) es.
Proof.
  induction es as [|e es IH]; intros acc w Hf H1 H2 Hall B1 B2; simpl in Hf.
  { simplify_eq. simpl. split_and!; [lia|lia|constructor]. }
  apply Forall_cons in Hall as [He Hall]. unfold weigh at 1 in Hf.
  destruct (negb _); [done|]. destruct (MaxBatchBytes <? _) eqn:Hs; [done|]. bools.
  pose proof (batch_Size_nonneg (e_batch e)). rewrite length_cons in *.
  unfold MaxBatchBytes, MaxUint64 in *.
  rewrite !add64_small in Hf by (unfold is_u64, MaxUint64; lia).
  apply IH in Hf as (Hw1 & Hw2 & Hw); cbn [fst snd] in *; try lia; [|done].
  rewrite !fmap_cons. cbn [sumZ]. split_and!; [lia|lia|by constructor].
Qed.

(** The edits take the place of the batches they were loaded from. *)
Lemma view_total V edits :
  (forall k e, edits !! k = Some e ->
     e_previousBytes e = match V !! k with Some b => batch_Size b | None => 0 end) ->
  map_sum batch_Size (view V edits) =
    map_sum batch_Size V - map_sum e_previousBytes edits +
    map_sum (fun e => batch_Size (e_batch e)) edits.
Proof.
  induction edits as [|k e edits Hk Hfr IH] using map_first_key_ind; intros Hp.
  { unfold view. rewrite fmap_empty, (left_id_L ∅ (∪)). unfold map_sum at 3 4.
    rewrite map_to_list_empty. simpl. lia. }
  rewrite view_insert, map_sum_update, !map_sum_insert by done.
  rewrite IH by (intros k' e' Hk'; apply Hp; rewrite lookup_insert_ne; [done|congruence]).
  rewrite view_other by done. rewrite (Hp k e) by apply lookup_insert_eq.
  destruct (V !! k); simpl; lia.
Qed.

(** A checkpoint is filed past the exposed mark, and stays in that batch. *)
Lemma queue_step_index id V M durable exposed q c q' :
  queueing_ok id V M durable exposed q ->
  queue_step (NodeID id) (InstallationID id) (Message <$> V) exposed q c = Ok q' ->
  (exists j, q_index q' !! meter_of c = Some (Message j) /\ exposed < j) /\
  (forall m j, q_index q !! m = Some (Message j) -> exposed < j -> q_index q' !! m = Some (Message j)).
Proof.
  intros Hq. pose proof Hq as [(I & HI & []) _]. unfold queue_step.
  destruct (meterKey c) as [m|] eqn:Hm; [|done]. cbn [mbind result_bind].
  apply meterKey_ok in Hm as ->. destruct (q_index q !! meter_of c) as [[j|]|] eqn:Hj; [|done|];
    cbn [mbind result_bind]; split_guard; try lia.
  - destruct (load _ _ _ _ _) as [e|]; [|done]. simpl. destruct (replace_checkpoint _ _ _); [|done].
    intros [= <-]. simpl. eauto.
  - destruct (tail_edit _ _ _ _ _ _) as [[k e]|] eqn:Ht; [|done]. simpl. intros [= <-]. simpl.
    destruct (tail_edit_spec _ _ _ _ _ _ _ _ _ Hq Ht) as (Hk & _ & -> & _). rewrite lookup_insert_eq.
    split; [exists k; split; [done|lia]|]. intros m j' Hm' Hlt. rewrite lookup_insert_ne; [done|].
    intros <-. simplify_eq. lia.
  - destruct (tail_edit _ _ _ _ _ _) as [[k e]|] eqn:Ht; [|done]. simpl. intros [= <-]. simpl.
    destruct (tail_edit_spec _ _ _ _ _ _ _ _ _ Hq Ht) as (Hk & _ & -> & _). rewrite lookup_insert_eq.
    split; [exists k; split; [done|lia]|]. intros m j' Hm' Hlt. rewrite lookup_insert_ne; [done|].
    intros <-. simplify_eq.
Qed.

(** ** The whole file *)

(** The file holds the batches [V], the latest checkpoints [M] and the index [I]. *)
Record spool_rep (id : Identity) (s : Spool) (V : gmap Z UsageBatch)
    (M : gmap meter UsageCheckpoint) (I : gmap meter Z) : Prop := {
  sr_usage : usage s = Message <$> V;
  sr_meters : meters s = Message <$> M;
  sr_mutable : mutable s = Message <$> I;
  sr_queue : queue_ok id V M I (durable_usage s) (exposed_usage s) (usage_seq s);
  sr_bytes : spooled_bytes s = map_sum batch_Size V /\ spooled_bytes s <= MaxSpoolBytes;
  sr_small : forall k b, V !! k = Some b -> batch_Size b <= MaxBatchBytes;
  sr_accounted : 0 <= accounted_usage s <= durable_usage s }.

Definition spool_ok (id : Identity) (s : Spool) : Prop := exists V M I, spool_rep id s V M I.

Definition latest (M : gmap meter UsageCheckpoint) (cs : list UsageCheckpoint)
    : gmap meter UsageCheckpoint := foldl (fun M c => <[ meter_of c := c ]> M) M cs.

(** A checkpoint that passed [meter_step] is valid, new to the batch and not behind
    its meter. *)
Lemma meter_step_ok seen M c acc :
  meter_step (seen, Message <$> M) c = Ok acc ->
  meterKey c = Ok (meter_of c) /\ meter_of c ∉ seen /\
  acc = ({[ meter_of c ]} ∪ seen, Message <$> <[ meter_of c := c ]> M) /\
  (forall c0, M !! meter_of c = Some c0 -> checkpoint_le c0 c).
Proof.
  unfold meter_step. destruct (meterKey c) as [k|] eqn:Hk; [|done]. cbn [mbind result_bind fst snd].
  pose proof (meterKey_ok _ _ Hk). subst k. case_bool_decide; [done|].
  rewrite fmap_insert, lookup_fmap. destruct (M !! meter_of c) as [c0|] eqn:Hm; simpl.
  - split_guard; [done|]. intros [= <-]. split_and!; auto. intros ? [= <-].
    unfold checkpoint_le. lia.
  - intros [= <-]. split_and!; auto. done.
Qed.

Lemma meters_queue_ok id V durable exposed cs : forall seen M q acc q',
  foldM meter_step (seen, Message <$> M) cs = Ok acc ->
  queueing_ok id V M durable exposed q ->
  foldM (queue_step (NodeID id) (InstallationID id) (Message <$> V) exposed) q cs = Ok q' ->
  acc.2 = Message <$> latest M cs /\ queueing_ok id V (latest M cs) durable exposed q' /\
  q_seq q <= q_seq q' /\
  (forall m j, q_index q !! m = Some (Message j) -> exposed < j -> q_index q' !! m = Some (Message j)) /\
  (forall c, c ∈ cs -> exists j, q_index q' !! meter_of c = Some (Message j) /\ exposed < j).
Proof.
  induction cs as [|c cs IH]; intros seen M q acc q' Hm Hq Hf; simpl in Hm, Hf; [simplify_eq; split_and!; try done; by intros c ?%elem_of_nil|].
  destruct (meter_step _ c) as [acc1|] eqn:E1; [|done].
  destruct (queue_step _ _ _ _ _ c) as [q1|] eqn:E2; [|done].
  apply meter_step_ok in E1 as (_ & _ & -> & Hle).
  destruct (queue_step_index _ _ _ _ _ _ _ _ Hq E2) as [(j & Hj & Hlt) Hkeep].
  eapply queue_step_ok in E2 as [E2 Hs2]; [|done..].
  destruct (IH _ _ _ _ _ Hm E2 Hf) as (? & ? & ? & Hk2 & Hc2). split_and!; [done|done|lia|auto|].
  intros c0 [->|Hin]%elem_of_cons; eauto.
Qed.

(** A batch moves every meter forward, and each of its checkpoints is its meter's
    latest. *)
Lemma latest_spec cs : forall seen M acc,
  foldM meter_step (seen, Message <$> M) cs = Ok acc ->
  (forall m, m ∈ seen -> latest M cs !! m = M !! m) /\
  (forall m c, M !! m = Some c -> exists c', latest M cs !! m = Some c' /\ checkpoint_le c c') /\
  (forall c, c ∈ cs -> meter_of c ∉ seen /\ latest M cs !! meter_of c = Some c).
Proof.
  induction cs as [|c cs IH]; intros seen M acc Hf; simpl in Hf.
  { split_and!; [done|intros m c Hc; by exists c|by intros c ?%elem_of_nil]. }
  destruct (meter_step _ c) as [acc1|] eqn:E1; [|done].
  apply meter_step_ok in E1 as (_ & Hseen & -> & Hle). apply IH in Hf as (Hs & Hm & Hc). simpl.
  split_and!.
  - intros m Hin. rewrite Hs by set_solver. rewrite lookup_insert_ne; [done|]. congruence.
  - intros m c0 Hc0. destruct (decide (m = meter_of c)) as [->|Hne].
    + destruct (Hm (meter_of c) c) as (c' & Hc' & Hle'); [by rewrite lookup_insert_eq|].
      exists c'. split; [done|]. etrans; [by apply Hle|done].
    + apply Hm. by rewrite lookup_insert_ne.
  - intros c0 [->|Hin]%elem_of_cons.
    + split; [done|]. rewrite Hs by set_solver. by rewrite lookup_insert_eq.
    + destruct (Hc _ Hin). set_solver.
Qed.

(** What [appendUsage] does to the file. *)
Lemma appendUsage_rep id cs s V M I s' n :
  spool_rep id s V M I -> appendUsage id cs s = Ok (s', n) ->
  exists V' I', spool_rep id s' V' (latest M cs) I' /\
    exposed_usage s' = exposed_usage s /\ durable_usage s' = durable_usage s /\
    accounted_usage s' = accounted_usage s /\ usage_seq s' = n /\ usage_seq s <= n /\ cs <> [] /\
    (forall k, k <= exposed_usage s -> V' !! k = V !! k) /\
    (forall m c, M !! m = Some c -> exists c', latest M cs !! m = Some c' /\ checkpoint_le c c') /\
    (forall c, c ∈ cs -> latest M cs !! meter_of c = Some c /\
       exists j, I' !! meter_of c = Some j /\ exposed_usage s < j).
Proof.
  intros Hrep. pose proof Hrep as [Hu Hm Hi Hq [Hby Hmax] Hsm Hac]. unfold appendUsage. split_guard; [done|].
  destruct G as [[Hne Hlen] _]. rewrite Hm.
  destruct (foldM meter_step _ cs) as [acc|] eqn:Hms; [|done]. cbn [mbind result_bind].
  destruct (latest_spec _ _ _ _ Hms) as (_ & Hmono & Hnew).
  unfold queueUsage. cbn [with_meters usage usage_seq mutable exposed_usage durable_usage accounted_usage
    spooled_bytes meters]. rewrite Hu, Hi.
  destruct (foldM (queue_step _ _ _ _) _ cs) as [q|] eqn:Hqs; [|done]. cbn [mbind result_bind].
  pose proof (queue_steps_size _ _ _ _ _ _ _ Hqs) as Hsize. cbn [q_edits] in Hsize.
  rewrite map_size_empty in Hsize.
  assert (queueing_ok id V M (durable_usage s) (exposed_usage s)
    (mkQueueing (usage_seq s) (Message <$> I) ∅)) as Hstart.
  { split; [|by intros k e]. exists I. split; [done|]. unfold view. simpl.
    by rewrite fmap_empty, (left_id_L ∅ (∪)). }
  destruct (meters_queue_ok _ _ _ _ _ _ _ _ _ _ Hms Hstart Hqs) as (Hacc & [(I' & HI & Hqo) Hed] & Hseq & _ & Hidx).
  cbn [q_seq] in Hseq. split_guard; [done|]. destruct (foldM weigh _ _) as [w|] eqn:Hw; [|done]. cbn [mbind result_bind].
  assert (forall e, e ∈ (map_to_list (q_edits q)).*2 -> exists k, q_edits q !! k = Some e) as Hin.
  { intros e ([k e'] & -> & Hke)%list_elem_of_fmap. exists k. by apply elem_of_map_to_list. }
  apply weigh_spec in Hw as (Hw1 & Hw2 & Hw); simpl;
    [|lia|lia| |rewrite length_fmap, length_map_to_list; unfold MaxBatchBytes, MaxUint64; lia..].
  2:{ apply Forall_forall. intros e He. destruct (Hin _ He) as [k Hk].
      destruct (Hed _ _ Hk) as (_ & _ & ->). destruct (V !! k) as [b|] eqn:Hb; [|unfold MaxBatchBytes; lia].
      split; [apply batch_Size_nonneg|by eapply Hsm]. }
  split_guard; [done|]. split_guard; [done|]. intros [= <- <-].
  exists (view V (q_edits q)), I'. cbn [exposed_usage durable_usage accounted_usage usage_seq].
  split_and!; try done; [|intros k Hk; apply view_other|intros c Hc; split; [by apply Hnew|]].
  2:{ destruct (q_edits q !! k) as [e|] eqn:He; [|done]. destruct (Hed _ _ He). lia. }
  2:{ destruct (Hidx _ Hc) as (j & Hj & ?). rewrite HI, lookup_fmap in Hj.
      destruct (I' !! meter_of c); simplify_eq/=. eauto. }
  split; cbn [usage meters mutable durable_usage exposed_usage usage_seq spooled_bytes accounted_usage];
    try done.
  - unfold view. rewrite map_fmap_union. f_equal. by rewrite <- map_fmap_compose.
  - rewrite view_total by (intros k e Hk; apply (Hed _ _ Hk)). unfold map_sum at 2 3.
    simpl in Hw1, Hw2. split; [lia|]. lia.
  - intros k b. destruct (q_edits q !! k) as [e|] eqn:He.
    + rewrite (view_edit _ _ _ _ He). intros [= <-]. rewrite Forall_forall in Hw. apply Hw.
      apply list_elem_of_fmap. exists (k, e). split; [done|]. by apply elem_of_map_to_list.
    + rewrite view_other by done. eauto.
Qed.

End Spool.
