(* ===== verification/SpoolTheorems.v ===== *)
(** * What the usage spool promises

    Over any interleaving of appends, hand-outs and acknowledgements, whichever of
    their commits fail. *)
From S2P Require Import Prelude Limits Authority Spool SpoolFacts Instances.

(** ** Reading in key order *)

Lemma seqZ_sorted n : forall a, StronglySorted Z.le (seqZ a (Z.of_nat n)).
Proof.
  induction n as [|n IH]; intros a; [constructor|].
  rewrite seqZ_cons by lia. replace (Z.pred (Z.of_nat (S n))) with (Z.of_nat n) by lia.
  constructor; [apply IH|]. apply Forall_seqZ. lia.
Qed.

(** The integers of an interval, sorted. *)
Lemma sorted_interval (l : list Z) a n :
  NoDup l -> 0 <= n -> (forall k, k ∈ l <-> a <= k < a + n) -> merge_sort Z.le l = seqZ a n.
Proof.
  intros Hnd Hn Hin. apply (StronglySorted_unique Z.le).
  - apply (StronglySorted_merge_sort _).
  - rewrite <- (Z2Nat.id n) by done. apply seqZ_sorted.
  - rewrite merge_sort_Permutation. apply NoDup_Permutation; [done|apply NoDup_seqZ|].
    intros k. by rewrite Hin, elem_of_seqZ.
Qed.

Lemma firstn_seqZ a n limit :
  0 <= n -> 0 <= limit -> firstn (Z.to_nat limit) (seqZ a n) = seqZ a (Z.min limit n).
Proof.
  intros Hn Hl. destruct (decide (limit <= n)).
  - replace n with (limit + (n - limit)) at 1 by lia. rewrite seqZ_app by lia.
    rewrite take_app_length' by (rewrite length_seqZ; lia). f_equal. lia.
  - rewrite take_ge by (rewrite length_seqZ; lia). f_equal. lia.
Qed.

Section Promises.
Context {HUU : UUIDs} {HWW : Wire} {HWL : WireLaws}.

(** The pending batches are numbered consecutively past the durable mark. *)
Lemma first_keys_spec id s V M I limit :
  spool_rep id s V M I -> 0 <= limit ->
  first_keys (Z.to_nat limit) (usage s) =
    seqZ (durable_usage s + 1) (Z.min limit (usage_seq s - durable_usage s)).
Proof.
  intros [Hu _ _ [] _ _ _] Hl. unfold first_keys.
  rewrite (sorted_interval _ (durable_usage s + 1) (usage_seq s - durable_usage s)).
  - apply firstn_seqZ; lia.
  - apply NoDup_fst_map_to_list.
  - lia.
  - intros k. rewrite Hu. transitivity (is_Some (V !! k)); [|rewrite qo_keys; lia].
    rewrite list_elem_of_fmap. split.
    + intros ([k' v] & -> & Hk%elem_of_map_to_list). simpl. rewrite lookup_fmap in Hk.
      by destruct (V !! k').
    + intros [b Hb]. exists (k, Message b). split; [done|]. apply elem_of_map_to_list.
      by rewrite lookup_fmap, Hb.
Qed.

(** [read] succeeds and returns the oldest batches. *)
Lemma read_spec id s V M I limit :
  spool_rep id s V M I -> 0 <= limit ->
  exists batches, read id limit s = Ok batches /\
    Sequence <$> batches = seqZ (durable_usage s + 1) (Z.min limit (usage_seq s - durable_usage s)) /\
    Forall (fun b => usage s !! Sequence b = Some (Message b)) batches.
Proof.
  intros Hrep Hl. unfold read. rewrite (first_keys_spec _ _ _ _ _ _ Hrep Hl).
  pose proof Hrep as [Hu _ _ [] _ _ _].
  assert (forall l acc, (forall k, k ∈ l -> is_Some (V !! k)) ->
    exists bs, foldM (read_entry id (usage s)) acc l = Ok (acc ++ bs) /\ Sequence <$> bs = l /\
      Forall (fun b => usage s !! Sequence b = Some (Message b)) bs) as Hgo.
  { induction l as [|k l IH]; intros acc Hk; simpl.
    { exists []. by rewrite app_nil_r. }
    destruct (Hk k) as [b Hb]; [by left|]. destruct (qo_batch _ _ Hb) as (Hs & Hn & Hi & _).
    unfold read_entry at 1. rewrite Hu, lookup_fmap, Hb. simpl. rewrite Hs, Hn, Hi, Z.eqb_refl.
    rewrite !bool_decide_eq_false_2 by (intros Hx; by apply Hx). simpl.
    destruct (IH (acc ++ [b])) as (bs & Hf & Hbs & Hall); [intros k' ?; apply Hk; by right|].
    exists (b :: bs). rewrite <- Hu, Hf, <- (assoc_L (++)). split_and!; [done|by rewrite fmap_cons, Hs, Hbs|].
    constructor; [|done]. by rewrite Hu, Hs, lookup_fmap, Hb. }
  destruct (Hgo (seqZ (durable_usage s + 1) (Z.min limit (usage_seq s - durable_usage s))) [])
    as (bs & -> & ? & ?); [|eauto].
  intros k Hk%elem_of_seqZ. apply qo_keys. lia.
Qed.

Lemma last_seqZ a n : 0 < n -> last (seqZ a n) = Some (a + n - 1).
Proof.
  intros Hn. replace n with ((n - 1) + 1) at 1 by lia. rewrite seqZ_app by lia.
  rewrite (seqZ_cons (a + (n - 1))) by lia. rewrite last_app. simpl. f_equal. lia.
Qed.

Lemma last_sequence_spec batches a n :
  Sequence <$> batches = seqZ a n -> batches <> [] -> 0 < n /\ last_sequence batches = a + n - 1.
Proof.
  intros Hb Hne. assert (0 < n) as Hn.
  { apply Z.nle_gt. intros Hn. rewrite seqZ_nil in Hb by done. by destruct batches. }
  split; [done|]. unfold last_sequence. pose proof (last_seqZ a n Hn) as Hl.
  rewrite <- Hb, fmap_last in Hl. destruct (last batches); simplify_eq/=. done.
Qed.

(** ** The writing transactions *)

Lemma freeze_rep id limit s V M I s' batches :
  spool_rep id s V M I -> 0 <= limit -> freeze id limit s = Ok (s', batches) ->
  spool_rep id s' V M I /\ exposed_usage s <= exposed_usage s' /\
  usage s' = usage s /\ meters s' = meters s /\ mutable s' = mutable s /\ usage_seq s' = usage_seq s /\
  durable_usage s' = durable_usage s /\ accounted_usage s' = accounted_usage s /\
  read id limit s = Ok batches /\ Forall (fun b => Sequence b <= exposed_usage s') batches.
Proof.
  intros Hrep Hl. unfold freeze.
  destruct (read_spec _ _ _ _ _ _ Hrep Hl) as (bs & Hr & Hbs & Hall). rewrite Hr.
  cbn [mbind result_bind]. case_bool_decide as Hne.
  - intros [= <- <-]. split_and!; try done. by rewrite Hne.
  - intros [= <- <-]. destruct (last_sequence_spec _ _ _ Hbs Hne) as [Hn Hlast].
    pose proof Hrep as [Hu Hm Hi Hq Hby Hsm Hac]. pose proof Hq as [].
    cbn [with_exposed usage meters mutable usage_seq durable_usage accounted_usage exposed_usage].
    split_and!; try done; [|lia|].
    + split; cbn [with_exposed usage meters mutable usage_seq durable_usage accounted_usage
        exposed_usage spooled_bytes]; try done. split; try done. lia.
    + apply Forall_forall. intros b Hb.
      assert (Sequence b ∈ Sequence <$> bs) as Hin by (by apply list_elem_of_fmap_2).
      rewrite Hbs in Hin. apply elem_of_seqZ in Hin. lia.
Qed.

Lemma reclaimed_sum (l : list (blob UsageBatch)) : forall acc,
  0 <= acc -> Forall (fun v => 0 <= blob_len v) l -> acc + sumZ (blob_len <$> l) <= MaxUint64 ->
  foldl (fun n v => add64 n (u64 (blob_len v))) acc l = acc + sumZ (blob_len <$> l).
Proof.
  induction l as [|v l IH]; intros acc Ha Hall Hb; [simpl; lia|].
  apply Forall_cons in Hall as [Hv Hall]. rewrite fmap_cons in *. cbn [sumZ foldl] in *.
  assert (0 <= sumZ (blob_len <$> l)) by (apply sumZ_nonneg; by apply Forall_fmap).
  rewrite u64_small, add64_small by machine. rewrite IH; [lia|lia|done|lia].
Qed.

Lemma map_sum_fmap {K A B} `{Countable K} (f : B -> Z) (g : A -> B) (m : gmap K A) :
  map_sum f (g <$> m) = map_sum (f ∘ g) m.
Proof.
  unfold map_sum. f_equal. rewrite map_to_list_fmap, <- !list_fmap_compose.
  apply list_fmap_ext. by intros i [k x].
Qed.

Lemma map_sum_filter {K A} `{Countable K} (f : A -> Z) (P Q : K * A -> Prop)
    `{!forall x, Decision (P x)} `{!forall x, Decision (Q x)} (m : gmap K A) :
  (forall x, Q x <-> ~ P x) ->
  map_sum f m = map_sum f (filter P m) + map_sum f (filter Q m).
Proof.
  intros HQ. induction m as [|k a m Hk Hfr IH] using map_first_key_ind.
  { by rewrite !map_filter_empty. }
  rewrite map_sum_insert by done. destruct (decide (P (k, a))) as [Hp|Hp].
  - rewrite map_filter_insert_True by done. rewrite (map_filter_insert_False Q) by (rewrite HQ; auto).
    rewrite delete_id by done. rewrite map_sum_insert by (apply map_lookup_filter_None; auto). lia.
  - rewrite (map_filter_insert_True Q) by (by rewrite HQ). rewrite map_filter_insert_False by done.
    rewrite delete_id by done. rewrite (map_sum_insert f (filter Q m)) by (apply map_lookup_filter_None; auto).
    lia.
Qed.

(** Dropping what is durable. *)
Lemma queue_ok_drop id V M I durable exposed seq durable' :
  queue_ok id V M I durable exposed seq -> durable <= durable' <= exposed ->
  queue_ok id (filter (fun e => durable' < e.1) V) M I durable' exposed seq.
Proof.
  intros [] Hd. split.
  - lia.
  - intros k. split.
    + intros [b [Hb Hk]%map_lookup_filter_Some]. simpl in Hk.
      assert (is_Some (V !! k)) as Hx%qo_keys by eauto. lia.
    + intros Hk. assert (is_Some (V !! k)) as [b Hb] by (apply qo_keys; lia). exists b.
      apply map_lookup_filter_Some. simpl. split; [done|lia].
  - intros k b [Hb _]%map_lookup_filter_Some. auto.
  - intros m j Hj. destruct (qo_index _ _ Hj) as (Hr & c & Hc & Hm & Hin). split; [done|].
    exists c. split_and!; [done..|]. intros Hlt. destruct Hin as (b & Hb & Hcb); [lia|].
    exists b. split; [|done]. apply map_lookup_filter_Some. simpl. split; [done|lia].
  - done.
  - intros k b c [Hb _]%map_lookup_filter_Some. eauto.
  - intros k k' b b' c c' [Hb _]%map_lookup_filter_Some [Hb' _]%map_lookup_filter_Some. eauto.
Qed.

Lemma acknowledge_rep id r s V M I :
  spool_rep id s V M I -> 0 <= AccountedSequence r <= DurableSequence r ->
  acknowledge r s =
    if exposed_usage s <? DurableSequence r then Fail ErrUsage
    else
      let durable := Z.max (DurableSequence r) (durable_usage s) in
      let V' := filter (fun e => durable < e.1) V in
      Ok (mkSpool (Message <$> V') (usage_seq s) (meters s) (mutable s) (exposed_usage s) durable
            (Z.max (AccountedSequence r) (accounted_usage s)) (map_sum batch_Size V'), tt).
Proof.
  intros [Hu Hm Hi [] [Hby Hmax] Hsm Hac] Hr. unfold acknowledge.
  destruct (exposed_usage s <? DurableSequence r) eqn:He; [by destruct (usage_seq s <? _)|]. bools.
  rewrite (proj2 (Z.ltb_ge _ _)) by lia.
  set (durable := Z.max (DurableSequence r) (durable_usage s)). cbv zeta.
  assert (reclaim durable (usage s) = Message <$> filter (fun e => e.1 <= durable) V) as Hrec.
  { unfold reclaim. rewrite Hu. apply map_eq. intros k. rewrite map_lookup_filter, !lookup_fmap, map_lookup_filter.
    destruct (V !! k); simpl; [|done]. by repeat case_guard. }
  pose proof (map_sum_filter batch_Size (fun e => e.1 <= durable) (fun e => durable < e.1) V ltac:(intros; simpl; split; lia)) as Hsplit.
  pose proof (map_sum_nonneg batch_Size (filter (fun e => durable < e.1) V) batch_Size_nonneg).
  pose proof (map_sum_nonneg batch_Size (filter (fun e => e.1 <= durable) V) batch_Size_nonneg).
  rewrite Hrec.
  assert (sumZ (blob_len <$> (map_to_list (Message <$> filter (fun e => e.1 <= durable) V)).*2) =
          map_sum batch_Size (filter (fun e => e.1 <= durable) V)) as Hsum.
  { change (map_sum blob_len (Message <$> filter (fun e => e.1 <= durable) V) =
            map_sum batch_Size (filter (fun e => e.1 <= durable) V)).
    by rewrite map_sum_fmap. }
  rewrite reclaimed_sum; [rewrite Hsum, Z.add_0_l|lia| |rewrite Hsum; unfold MaxSpoolBytes in *; machine].
  - rewrite (proj2 (Z.ltb_ge _ _)) by lia. f_equal. f_equal. f_equal; [|lia].
    rewrite Hu. apply map_eq. intros k.
    destruct (decide (k <= durable)) as [Hk|Hk].
    + transitivity (@None (blob UsageBatch)).
      * apply lookup_difference_None. rewrite !lookup_fmap, map_lookup_filter.
        destruct (V !! k); simpl; [right|by left]. rewrite option_guard_True by done. eauto.
      * rewrite lookup_fmap, map_lookup_filter. destruct (V !! k); simpl; [|done].
        by rewrite option_guard_False by (simpl; lia).
    + rewrite lookup_difference, !lookup_fmap, !map_lookup_filter.
      destruct (V !! k); simpl; [|done]. rewrite option_guard_False, option_guard_True by (simpl; lia). done.
  - apply Forall_forall. intros v ([k v'] & -> & Hv%elem_of_map_to_list)%list_elem_of_fmap.
    rewrite lookup_fmap in Hv. destruct (filter _ V !! k); simplify_eq/=. apply batch_Size_nonneg.
Qed.

(** ** Runs *)

(** A receipt's numbers are unsigned. *)
Definition receipt_typed (r : option UsageReceipt) : Prop :=
  forall x, r = Some x -> 0 <= AccountedSequence x /\ 0 <= DurableSequence x.

(** One operation, on the file as it is; the commit may fail. *)
Inductive spool_step (id : Identity) : Spool -> Spool -> Prop :=
| step_append commit cs s : spool_step id s (AppendUsage id commit cs s).1
| step_pending commit limit seen s : spool_step id s (PendingUsage id commit limit seen s).1
| step_acknowledge commit r s :
    receipt_typed r -> spool_step id s (Acknowledge commit r s).1.

(** What no operation undoes. *)
Record spool_evolves (s s' : Spool) : Prop := {
  se_marks : exposed_usage s <= exposed_usage s' /\ durable_usage s <= durable_usage s' /\
    accounted_usage s <= accounted_usage s' /\ usage_seq s <= usage_seq s';
  se_meters : forall m c, meters s !! m = Some (Message c) ->
    exists c', meters s' !! m = Some (Message c') /\ checkpoint_le c c';
  se_frozen : forall k v, usage s !! k = Some v -> k <= exposed_usage s ->
    usage s' !! k = Some v \/ (usage s' !! k = None /\ k <= durable_usage s') }.

Lemma spool_evolves_refl s : spool_evolves s s.
Proof. split; [lia|intros m c Hc; by exists c|auto]. Qed.

Lemma appendUsage_evolves id cs s s' n :
  spool_ok id s -> appendUsage id cs s = Ok (s', n) -> spool_ok id s' /\ spool_evolves s s'.
Proof.
  intros (V & M & I & Hrep) Ha.
  destruct (appendUsage_rep _ _ _ _ _ _ _ _ Hrep Ha)
    as (V' & I' & Hrep' & He & Hd & Hac & Hn & Hle & _ & Hfr & Hm & _).
  split; [by exists V', (latest M cs), I'|]. destruct Hrep as [Hu Hme _ _ _ _ _].
  destruct Hrep' as [Hu' Hme' _ _ _ _ _]. split.
  - lia.
  - intros m c Hc. rewrite Hme, lookup_fmap in Hc. rewrite Hme', lookup_fmap.
    destruct (M !! m) as [c0|] eqn:Hc0; simplify_eq/=. destruct (Hm _ _ Hc0) as (c' & -> & ?). eauto.
  - intros k v Hv Hk. left. rewrite Hu, lookup_fmap in Hv. by rewrite Hu', lookup_fmap, Hfr.
Qed.

Lemma freeze_evolves id limit s s' bs :
  spool_ok id s -> 0 <= limit -> freeze id limit s = Ok (s', bs) -> spool_ok id s' /\ spool_evolves s s'.
Proof.
  intros (V & M & I & Hrep) Hl Hf.
  destruct (freeze_rep _ _ _ _ _ _ _ _ Hrep Hl Hf) as (? & ? & Hu & Hm & _ & ? & ? & ? & _).
  split; [by exists V, M, I|]. split; [lia|rewrite Hm; intros m c Hc; by exists c|rewrite Hu; auto].
Qed.

Lemma acknowledge_evolves id r s s' u :
  spool_ok id s -> 0 <= AccountedSequence r <= DurableSequence r ->
  acknowledge r s = Ok (s', u) -> spool_ok id s' /\ spool_evolves s s'.
Proof.
  intros (V & M & I & Hrep) Hr. rewrite (acknowledge_rep _ _ _ _ _ _ Hrep Hr). split_guard; [done|].
  cbv zeta. set (durable := Z.max _ (durable_usage s)). intros [= <- _].
  pose proof Hrep as [Hu Hm Hi Hq [Hby Hmax] Hsm Hac]. pose proof Hq as [].
  assert (durable_usage s <= durable <= exposed_usage s) as Hd by lia. split.
  - exists (filter (fun e => durable < e.1) V), M, I. split;
      cbn [usage meters mutable durable_usage exposed_usage usage_seq spooled_bytes accounted_usage]; try done.
    + by eapply queue_ok_drop.
    + split; [done|]. pose proof (map_sum_filter batch_Size (fun e => e.1 <= durable)
        (fun e => durable < e.1) V ltac:(intros; simpl; split; lia)) as Hsplit.
      pose proof (map_sum_nonneg batch_Size (filter (fun e => e.1 <= durable) V) batch_Size_nonneg). lia.
    + intros k b [Hb _]%map_lookup_filter_Some. eauto.
    + lia.
  - split; cbn [usage meters durable_usage exposed_usage usage_seq accounted_usage]; [lia|intros m c Hc; by exists c|].
    intros k v. rewrite Hu, !lookup_fmap, map_lookup_filter. intros Hv Hk.
    destruct (V !! k) as [b|]; simplify_eq/=. case_guard; [by left|right]. split; [done|lia].
Qed.

Lemma step_keeps id s s' : spool_step id s s' -> spool_ok id s -> spool_ok id s' /\ spool_evolves s s'.
Proof.
  intros Hst Hs. pose proof (spool_evolves_refl s) as Hrefl. destruct Hst as [commit cs s|commit limit seen s|commit r s Hr].
  - unfold AppendUsage, Update. destruct (appendUsage id cs s) as [[s' n]|] eqn:E; [|done].
    destruct commit; [by eapply appendUsage_evolves|done].
  - unfold PendingUsage, Update. split_guard; [done|]. destruct (read _ _ _) as [bs|]; [|done].
    destruct (_ || _); [done|]. destruct (freeze id limit s) as [[s' n]|] eqn:E; [|done].
    destruct commit; [|done]. eapply freeze_evolves; [done| |done]. lia.
  - unfold Acknowledge, Update. destruct r as [r|]; [|done]. split_guard; [done|].
    destruct (Hr r eq_refl). destruct (acknowledge r s) as [[s' n]|] eqn:E; [|done].
    destruct commit; [|done]. eapply acknowledge_evolves; [done| |done]. lia.
Qed.

Lemma run_keeps id s s' :
  rtc (spool_step id) s s' -> spool_ok id s -> spool_ok id s' /\ spool_evolves s s'.
Proof.
  induction 1 as [s|s s1 s2 Hst _ IH]; intros Hs; [split; [done|apply spool_evolves_refl]|].
  destruct (step_keeps _ _ _ Hst Hs) as [Hs1 [Hm1 Hc1 Hf1]]. destruct (IH Hs1) as [Hs2 [Hm2 Hc2 Hf2]].
  split; [done|]. split.
  - lia.
  - intros m c Hc. destruct (Hc1 _ _ Hc) as (c' & Hc' & ?). destruct (Hc2 _ _ Hc') as (c'' & Hc'' & ?).
    exists c''. split; [done|]. by etrans.
  - intros k v Hv Hk. destruct (Hf1 _ _ Hv Hk) as [Hv1|[Hv1 Hd]]; [apply Hf2; [done|lia]|].
    right. split; [|lia]. destruct Hs2 as (V & M & I & [Hu _ _ [] _ _ _]). rewrite Hu, lookup_fmap.
    destruct (V !! k) eqn:Hk2; [|done]. assert (is_Some (V !! k)) as Hx%qo_keys by eauto. lia.
Qed.

(** An accepted append is filed: every checkpoint of it is its meter's latest and
    sits in a batch that has not been shown to a sender yet, no checkpoint is behind
    what its meter had, every batch and the whole spool stay within their limits and
    the byte count is exact; an append that fails, or whose commit fails, changes
    nothing. *)
Theorem append_is_filed (id : Identity) (commit : result unit) (cs : list UsageCheckpoint)
    (s s' : Spool) (r : result Z) :
  spool_ok id s -> AppendUsage id commit cs s = (s', r) ->
  match r with
  | Fail _ => s' = s
  | Ok n =>
      usage_seq s' = n /\ cs <> [] /\ spooled_bytes s' <= MaxSpoolBytes /\
      spooled_bytes s' = map_sum blob_len (usage s') /\
      forall c, c ∈ cs ->
        meters s' !! meter_of c = Some (Message c) /\
        (forall c0, meters s !! meter_of c = Some (Message c0) -> checkpoint_le c0 c) /\
        exists k b, mutable s' !! meter_of c = Some (Message k) /\ exposed_usage s' < k /\
          usage s' !! k = Some (Message b) /\ c ∈ Checkpoints b /\ batch_Size b <= MaxBatchBytes
  end.
Proof.
  intros (V & M & I & Hrep). unfold AppendUsage, Update.
  destruct (appendUsage id cs s) as [[s1 n]|e] eqn:Ha; [|by intros [= <- <-]].
  destruct commit; [|by intros [= <- <-]]. intros [= <- <-].
  destruct (appendUsage_rep _ _ _ _ _ _ _ _ Hrep Ha)
    as (V' & I' & [Hu Hm Hi [] [Hby Hmax] Hsm _] & He & _ & _ & Hn & _ & Hne & _ & Hfw & Hcs).
  split_and!; try done. { by rewrite Hby, Hu, map_sum_fmap. }
  intros c Hc. destruct (Hcs _ Hc) as (Hl & j & Hj & Hlt).
  rewrite Hm, Hi, !lookup_fmap, Hl, Hj. split_and!; [done| |].
  - intros c0. rewrite (sr_meters _ _ _ _ _ Hrep), lookup_fmap. intros Hc0.
    destruct (M !! meter_of c) as [c1|] eqn:Hc1; simplify_eq/=. destruct (Hfw _ _ Hc1) as (c' & ? & ?).
    by simplify_eq.
  - destruct (qo_index _ _ Hj) as (_ & c' & Hc' & _ & Hin). simplify_eq.
    destruct Hin as (b & Hb & Hcb); [lia|]. exists j, b. rewrite Hu, lookup_fmap, Hb, He.
    split_and!; eauto.
Qed.

(** ** Nothing is lost *)

Definition empty_spool : Spool := mkSpool ∅ 0 ∅ ∅ 0 0 0 0.
(** A node: its file, the files its reading transactions saw, every batch a sender was
    given and every checkpoint an append accepted. *)
Record node := mkNode { file : Spool; looks : list Spool; handed : list UsageBatch; accepted : list UsageCheckpoint }.
Definition new_node : node := mkNode empty_spool [] [] [].
Inductive node_step (id : Identity) (n : node) : node -> Prop :=
| ns_append commit cs f r : AppendUsage id commit cs (file n) = (f, r) ->
    node_step id n (mkNode f (looks n) (handed n) (accepted n ++ if is_ok r then cs else []))
| ns_look : node_step id n (mkNode (file n) (file n :: looks n) (handed n) (accepted n))
| ns_pending commit limit seen f r : seen ∈ looks n -> PendingUsage id commit limit seen (file n) = (f, r) ->
    node_step id n (mkNode f (looks n) (handed n ++ match r with Ok bs => bs | Fail _ => [] end) (accepted n))
| ns_acknowledge commit r : receipt_typed r ->
    node_step id n (mkNode (Acknowledge commit r (file n)).1 (looks n) (handed n) (accepted n)).

(** The batch a checkpoint was filed in is pending, or a sender was given it and the
    control plane acknowledged it. *)
Definition delivered (n : node) (m : meter) (c : UsageCheckpoint) : Prop :=
  exists k, mutable (file n) !! m = Some (Message k) /\
    ((exists b, usage (file n) !! k = Some (Message b) /\ c ∈ Checkpoints b) \/
     (k <= durable_usage (file n) /\ exists b, b ∈ handed n /\ Sequence b = k /\ c ∈ Checkpoints b)).
Record node_ok (id : Identity) (n : node) : Prop := {
  no_spool : spool_ok id (file n);
  no_exposed : forall k b, usage (file n) !! k = Some (Message b) -> k <= exposed_usage (file n) -> b ∈ handed n;
  no_latest : forall m c, meters (file n) !! m = Some (Message c) -> delivered n m c;
  no_accepted : forall c, c ∈ accepted n -> exists c', meters (file n) !! meter_of c = Some (Message c') /\ checkpoint_le c c' }.

Lemma queue_step_other node ins queue exposed q c q' m :
  queue_step node ins queue exposed q c = Ok q' -> meter_of c <> m -> q_index q' !! m = q_index q !! m.
Proof.
  unfold queue_step. destruct (meterKey c) as [k|] eqn:Hk; [|done]. apply meterKey_ok in Hk as ->. cbn [mbind result_bind]. intros H Hne.
  destruct (match q_index q !! meter_of c with None => _ | Some _ => _ end) as [p|]; [|done]. cbn [mbind result_bind] in H. destruct (exposed <? p).
  - destruct (load _ _ _ _ _); [|done]. cbn [mbind result_bind] in H. destruct (replace_checkpoint _ _ _); [|done]. by injection H as <-.
  - destruct (tail_edit _ _ _ _ _ _); [|done]. injection H as <-. cbn. by rewrite lookup_insert_ne.
Qed.
Lemma append_other id cs s s' n m :
  appendUsage id cs s = Ok (s', n) -> (forall c, c ∈ cs -> meter_of c <> m) -> mutable s' !! m = mutable s !! m /\ meters s' !! m = meters s !! m.
Proof.
  unfold appendUsage. split_guard; [done|]. destruct (foldM meter_step _ cs) as [acc|] eqn:Hm; [|done]. cbn [mbind result_bind]. unfold queueUsage. cbn [with_meters usage usage_seq mutable exposed_usage spooled_bytes meters].
  destruct (foldM (queue_step _ _ _ _) _ cs) as [q|] eqn:Hq; [|done]. cbn [mbind result_bind]. split_guard; [done|]. destruct (foldM weigh _ _); [|done]. cbn [mbind result_bind]. split_guard; [done|]. split_guard; [done|].
  intros [= <- _] Hcs. cbn [mutable meters]. split.
  - change (mutable s) with (q_index (mkQueueing (usage_seq s) (mutable s) ∅)). revert Hq Hcs. generalize (mkQueueing (usage_seq s) (mutable s) ∅). clear. induction cs as [|c cs IH]; intros q0 Hq Hcs; cbn in Hq; [by injection Hq as <-|].
    destruct (queue_step _ _ _ _ q0 c) as [q1|] eqn:E; [|done]. rewrite (IH q1 Hq) by (intros; apply Hcs; by right). eapply queue_step_other; [exact E|]. apply Hcs. by left.
  - change (meters s) with ((∅ : gset meter, meters s).2). revert Hm Hcs. generalize (∅ : gset meter, meters s). clear. induction cs as [|c cs IH]; intros a0 Hm Hcs; cbn in Hm; [by injection Hm as <-|].
    destruct (meter_step a0 c) as [a1|] eqn:E; [|done]. rewrite (IH a1 Hm) by (intros; apply Hcs; by right). assert (meter_of c <> m) as Hne by (apply Hcs; left). unfold meter_step in E.
    destruct (meterKey c) as [k|] eqn:Hk; [|done]. apply meterKey_ok in Hk as ->. cbn [mbind result_bind] in E. case_bool_decide; [done|]. destruct (a0.2 !! meter_of c) as [p|]; [|injection E as <-; cbn; by rewrite lookup_insert_ne].
    destruct (Unmarshal p); [|done]. cbn [mbind result_bind] in E. destruct (_ || _); [done|]. injection E as <-. cbn. by rewrite lookup_insert_ne.
Qed.

(** A pending checkpoint stays where it was filed, or its meter has moved on. *)
Lemma rep_pending id s V M I m c k : spool_rep id s V M I -> meters s !! m = Some (Message c) -> mutable s !! m = Some (Message k) -> durable_usage s < k ->
  exists b, usage s !! k = Some (Message b) /\ c ∈ Checkpoints b.
Proof.
  intros [Hu Hm Hi [] _ _ _] Hc Hk Hlt. rewrite Hm, lookup_fmap in Hc. rewrite Hi, lookup_fmap in Hk. destruct (M !! m) as [c'|] eqn:Ec; [|done]. injection Hc as ->. destruct (I !! m) as [j|] eqn:Ej; [|done]. injection Hk as ->.
  destruct (qo_index _ _ Ej) as (_ & c' & Ec' & _ & Hin). rewrite Ec in Ec'. injection Ec' as <-. destruct (Hin Hlt) as (b & Hb & Hcb). exists b. by rewrite Hu, lookup_fmap, Hb.
Qed.
Lemma rep_indexed id s V M I m c : spool_rep id s V M I -> meters s !! m = Some (Message c) -> exists k, mutable s !! m = Some (Message k).
Proof. intros [_ Hm Hi [] _ _ _] Hc. rewrite Hm, lookup_fmap in Hc. destruct (qo_latest m) as [k Hk]; [by destruct (M !! m)|]. exists k. by rewrite Hi, lookup_fmap, Hk. Qed.

Lemma append_keeps id commit cs n : node_ok id n -> let '(f, r) := AppendUsage id commit cs (file n) in node_ok id (mkNode f (looks n) (handed n) (accepted n ++ if is_ok r then cs else [])).
Proof.
  intros Hok. pose proof (append_is_filed id commit cs (file n)) as Hf. unfold AppendUsage, Update in *. destruct (appendUsage id cs (file n)) as [[s' m0]|e] eqn:Ha.
  2:{ cbn. rewrite app_nil_r. by destruct n. }
  destruct commit as [[]|e]; [|cbn; rewrite app_nil_r; by destruct n]. destruct Hok as [Hs Hx Hl Hacc]. destruct (appendUsage_evolves _ _ _ _ _ Hs Ha) as [Hs' [_ Hmono _]]. specialize (Hf s' (Ok m0) Hs eq_refl) as (_ & _ & _ & _ & Hfiled).
  pose proof Hs as (V & M & I & Hrep). destruct (appendUsage_rep _ _ _ _ _ _ _ _ Hrep Ha) as (V' & I' & Hrep' & He & Hd & _ & _ & _ & _ & Hfr & _). split; cbn [file handed accepted is_ok].
  - done.
  - intros k b Hb Hk. apply (Hx k); [|lia]. rewrite (sr_usage _ _ _ _ _ Hrep), lookup_fmap. rewrite (sr_usage _ _ _ _ _ Hrep'), lookup_fmap, Hfr in Hb by lia. done.
  - intros m c Hc. destruct (rep_indexed _ _ _ _ _ m c Hrep' Hc) as [k Hk]. exists k. split; [done|]. cbn. destruct (decide (durable_usage s' < k)) as [Hlt|Hge]; [left; by eapply rep_pending|right]. split; [lia|].
    assert (forall c0, c0 ∈ cs -> meter_of c0 <> m) as Hother. { intros c0 Hc0 <-. destruct (Hfiled c0 Hc0) as (_ & _ & k' & b & Hk' & Hex & _). rewrite Hk in Hk'. injection Hk' as <-. destruct Hrep' as [_ _ _ [] _ _ _]. lia. }
    destruct (append_other _ _ _ _ _ m Ha Hother) as [E1 E2]. rewrite E1 in Hk. rewrite E2 in Hc. destruct (Hl m c Hc) as (k' & Hk' & [(b & Hb & _)|[_ Hb]]); rewrite Hk in Hk'; injection Hk' as <-; [|done].
    exfalso. rewrite (sr_usage _ _ _ _ _ Hrep), lookup_fmap in Hb. destruct (V !! k) eqn:Ev; [|done]. destruct Hrep as [_ _ _ [] _ _ _]. assert (is_Some (V !! k)) as Hk2%qo_keys by eauto. lia.
  - intros c [Hc|Hc]%elem_of_app; [|exists c; split; [by apply Hfiled|done]]. destruct (Hacc c Hc) as (c1 & Hc1 & Hle). destruct (Hmono _ _ Hc1) as (c2 & Hc2 & Hle2). exists c2. split; [done|]. by etrans.
Qed.

Lemma freeze_hands id limit s s' bs : spool_ok id s -> 0 <= limit -> freeze id limit s = Ok (s', bs) ->
  usage s' = usage s /\ forall k b, usage s !! k = Some (Message b) -> exposed_usage s < k <= exposed_usage s' -> b ∈ bs.
Proof.
  intros (V & M & I & Hrep) Hl. unfold freeze. destruct (read_spec _ _ _ _ _ _ Hrep Hl) as (bs0 & Hr & Hbs & Hall). rewrite Hr. cbn [mbind result_bind]. case_bool_decide as Hne; intros [= <- <-]; [split; [done|lia]|]. split; [done|].
  cbn [with_exposed exposed_usage]. destruct (last_sequence_spec _ _ _ Hbs Hne) as [Hn ->]. intros k b Hb Hk. pose proof Hrep as [Hu _ _ [] _ _ _]. assert (k ∈ Sequence <$> bs0) as Hin.
  { rewrite Hbs. apply elem_of_seqZ. rewrite Hu, lookup_fmap in Hb. destruct (V !! k) eqn:Ev; [|done]. assert (is_Some (V !! k)) as Hk2%qo_keys by eauto. lia. }
  apply list_elem_of_fmap in Hin as (b' & -> & Hb'). rewrite Forall_forall in Hall. pose proof (Hall b' Hb') as E. rewrite Hb in E. by injection E as ->.
Qed.
Lemma pending_keeps id commit limit seen n : node_ok id n ->
  let '(f, r) := PendingUsage id commit limit seen (file n) in node_ok id (mkNode f (looks n) (handed n ++ match r with Ok bs => bs | Fail _ => [] end) (accepted n)).
Proof.
  intros Hok. assert (forall more, node_ok id (mkNode (file n) (looks n) (handed n ++ more) (accepted n))) as Hmore.
  { intros more. destruct Hok as [Hs Hx Hl Hacc]. split; cbn; [done| |intros m c Hc|done]; [intros k b Hb Hk; apply elem_of_app; left; by apply (Hx k)|].
    destruct (Hl m c Hc) as (k & Hk & [Hb|(Hd & b & Hb & E & Hcb)]); exists k; (split; [done|]); [by left|right]. split; [done|]. exists b. split; [by apply elem_of_app; left|done]. }
  unfold PendingUsage. split_guard; [apply Hmore|]. destruct (read id limit seen) as [bs|]; [|apply Hmore]. destruct (_ || _); [apply Hmore|]. unfold Update. destruct (freeze id limit (file n)) as [[s' bs']|] eqn:Hf; [|apply Hmore].
  destruct commit as [[]|]; [|apply Hmore]. destruct Hok as [Hs Hx Hl Hacc]. assert (0 <= limit) as Hlim by lia. destruct (freeze_hands _ _ _ _ _ Hs Hlim Hf) as [Hu Hnew]. destruct Hs as (V & M & I & Hrep).
  destruct (freeze_rep _ _ _ _ _ _ _ _ Hrep Hlim Hf) as (Hrep' & He & _ & Hm & Hi & _ & Hd & _). split; cbn [file handed accepted]; [by exists V, M, I| | |by rewrite Hm].
  - intros k b Hb Hk. rewrite Hu in Hb. apply elem_of_app. destruct (decide (k <= exposed_usage (file n))); [left; by apply (Hx k)|right]. apply (Hnew k); [done|lia].
  - intros m c Hc. rewrite Hm in Hc. destruct (Hl m c Hc) as (k & Hk & Hb). exists k. cbn. rewrite Hi, Hu, Hd. split; [done|]. destruct Hb as [Hb|(Hkd & b & Hb & E)]; [by left|right]. split; [done|]. exists b. split; [by apply elem_of_app; left|done].
Qed.

Lemma acknowledge_keeps id commit r n : node_ok id n -> receipt_typed r -> node_ok id (mkNode (Acknowledge commit r (file n)).1 (looks n) (handed n) (accepted n)).
Proof.
  intros Hok Ht. assert (node_ok id (mkNode (file n) (looks n) (handed n) (accepted n))) as Hsame by by destruct n. unfold Acknowledge. destruct r as [r|]; [|done]. split_guard; [done|]. unfold Update.
  destruct (acknowledge r (file n)) as [[s' []]|] eqn:Ha; [|done]. destruct commit as [[]|]; [|done]. destruct (Ht r eq_refl) as [Hr1 Hr2]. destruct Hok as [Hs Hx Hl Hacc].
  destruct (acknowledge_evolves id r _ _ _ Hs ltac:(lia) Ha) as [Hs' [_ Hmono _]]. destruct Hs as (V & M & I & Hrep). rewrite (acknowledge_rep id r (file n) V M I Hrep ltac:(lia)) in Ha. destruct (Z.ltb_spec (exposed_usage (file n)) (DurableSequence r)) as [|Hex]; [done|].
  injection Ha as <-. set (durable := Z.max _ _) in *. pose proof Hrep as [Hu Hm Hi [] _ _ _].
  assert (forall k b, Message <$> (filter (fun e => durable < e.1) V !! k) = Some (Message b) <-> usage (file n) !! k = Some (Message b) /\ durable < k) as Hkept.
  { intros k b. rewrite Hu, lookup_fmap, map_lookup_filter. destruct (V !! k) as [b'|]; cbn; [|naive_solver]. case_guard as Gk; cbn; cbn in Gk; naive_solver lia. }
  split; cbn [fst file handed accepted usage meters mutable exposed_usage durable_usage]; [done| | |done].
  - intros k b Hb Hk. rewrite lookup_fmap in Hb. apply Hkept in Hb as [Hb _]. by apply (Hx k).
  - intros m c Hc. destruct (Hl m c Hc) as (k & Hk & Hb). exists k. cbn. split; [done|]. destruct (decide (durable < k)) as [Hlt|Hge].
    + left. destruct Hb as [(b & Hb & Hcb)|[Hd _]]; [|lia]. exists b. rewrite lookup_fmap. split; [by apply Hkept|done].
    + right. split; [lia|]. destruct Hb as [(b & Hb & Hcb)|[_ Hb]]; [|done]. exists b. split; [apply (Hx k); [done|lia]|]. split; [|done]. rewrite Hu, lookup_fmap in Hb. destruct (V !! k) eqn:Ev; [|done]. injection Hb as ->. by apply (qo_batch k).
Qed.

Lemma new_node_ok id : node_ok id new_node.
Proof.
  split; cbn.
  - exists ∅, ∅, ∅. split; cbn; try by rewrite ?fmap_empty. split; cbn; try (intros *; rewrite lookup_empty; done); [machine|]. intros k. rewrite lookup_empty. split; [by intros [? ?]|lia].
  - intros k b. by rewrite lookup_empty.
  - intros m c. by rewrite lookup_empty.
  - intros c Hc. by apply not_elem_of_nil in Hc.
Qed.
Lemma node_runs_ok id n n' : rtc (node_step id) n n' -> node_ok id n -> node_ok id n'.
Proof.
  induction 1 as [|n n1 n2 Hst _ IH]; intros Hok; [done|]. apply IH. destruct Hst as [commit cs f r E| |commit limit seen f r _ E|commit r Hr].
  1: pose proof (append_keeps id commit cs n Hok) as H; by rewrite E in H.
  2: pose proof (pending_keeps id commit limit seen n Hok) as H; by rewrite E in H.
  2: by apply acknowledge_keeps.
  destruct Hok. by split.
Qed.

(** C31: no usage is lost.  From a new file, over any interleaving of appends, readings,
    hand-outs and acknowledgements, failed commits included, every checkpoint an append
    ever accepted is covered by the latest of its meter, which is at least as far, and
    that one is in a batch: a pending one, or one that a sender was given and the control
    plane has acknowledged. *)
Theorem no_usage_is_lost (id : Identity) (n : node) (c : UsageCheckpoint) :
  rtc (node_step id) new_node n -> c ∈ accepted n ->
  exists c' k, meters (file n) !! meter_of c = Some (Message c') /\ checkpoint_le c c' /\ mutable (file n) !! meter_of c = Some (Message k) /\
    ((exists b, usage (file n) !! k = Some (Message b) /\ c' ∈ Checkpoints b) \/
     (k <= durable_usage (file n) /\ exists b, b ∈ handed n /\ Sequence b = k /\ c' ∈ Checkpoints b)).
Proof.
  intros Hrun Hc. destruct (node_runs_ok id _ _ Hrun (new_node_ok id)) as [_ _ Hl Hacc]. destruct (Hacc c Hc) as (c' & Hc' & Hle). destruct (Hl _ _ Hc') as (k & Hk & Hb). exists c', k. done.
Qed.

(** A batch that has been shown to a sender never changes: afterwards it is either
    still there byte for byte, or gone because an acknowledgement covered it; and the
    marks (sequence, exposed, durable, accounted) never go back. *)
Theorem frozen_batches_never_change (id : Identity) (s s' : Spool) (k : Z) (v : blob UsageBatch) :
  spool_ok id s -> rtc (spool_step id) s s' -> usage s !! k = Some v -> k <= exposed_usage s ->
  (usage s' !! k = Some v \/ (usage s' !! k = None /\ k <= durable_usage s')) /\
  exposed_usage s <= exposed_usage s' /\ durable_usage s <= durable_usage s' /\
  accounted_usage s <= accounted_usage s' /\ usage_seq s <= usage_seq s' /\
  accounted_usage s' <= durable_usage s' <= exposed_usage s' /\ exposed_usage s' <= usage_seq s'.
Proof.
  intros Hs Hr Hv Hk. destruct (run_keeps _ _ _ Hr Hs) as [(V & M & I & [_ _ _ [] _ _ ?]) [? _ Hf]].
  split; [by apply Hf|]. lia.
Qed.

(** A hand-out always comes, in order: [PendingUsage] returns the oldest pending
    batches, numbered consecutively from the first one not yet durable, and what it
    returned is frozen from then on; an acknowledgement of exposed batches always
    goes through, and drops exactly the batches it covers. *)
Theorem hand_out_and_acknowledge (id : Identity) (limit : Z) (s : Spool) (r : UsageReceipt) :
  spool_ok id s -> 1 <= limit <= 128 -> 0 <= AccountedSequence r <= DurableSequence r ->
  (exists s' bs, PendingUsage id (Ok tt) limit s s = (s', Ok bs) /\ usage s' = usage s /\
     Sequence <$> bs = seqZ (durable_usage s + 1) (Z.min limit (usage_seq s - durable_usage s)) /\
     Forall (fun b => usage s' !! Sequence b = Some (Message b) /\ Sequence b <= exposed_usage s') bs) /\
  (DurableSequence r <= exposed_usage s ->
     exists s', Acknowledge (Ok tt) (Some r) s = (s', Ok tt) /\
       durable_usage s' = Z.max (DurableSequence r) (durable_usage s) /\
       forall k, usage s' !! k = if decide (k <= DurableSequence r) then None else usage s !! k).
Proof.
  intros (V & M & I & Hrep) Hl Hr. pose proof Hrep as [Hu _ _ [] _ _ _]. split.
  - unfold PendingUsage. rewrite (proj2 (Z.ltb_ge limit 1)), (proj2 (Z.ltb_ge 128 limit)) by lia.
    destruct (read_spec _ _ _ _ _ limit Hrep ltac:(lia)) as (bs & Hread & Hbs & Hall). rewrite Hread.
    cbn [orb]. split_guard.
    + exists s, bs. split_and!; try done. apply Forall_forall. intros b Hb.
      rewrite Forall_forall in Hall. split; [by apply Hall|].
      assert (bs <> []) as Hne by (by intros ->; apply elem_of_nil in Hb).
      destruct (last_sequence_spec _ _ _ Hbs Hne) as [_ Hlast]. destruct G as [?|G]; [done|].
      assert (Sequence b ∈ Sequence <$> bs) as Hin by (by apply list_elem_of_fmap_2).
      rewrite Hbs in Hin. apply elem_of_seqZ in Hin. lia.
    + unfold Update. destruct (freeze id limit s) as [[s' bs']|e] eqn:Hf.
      * destruct (freeze_rep id limit s V M I s' bs' Hrep ltac:(lia) Hf)
          as (_ & _ & Hu' & _ & _ & _ & _ & _ & Hread' & Hfr). rewrite Hread in Hread'. simplify_eq.
        exists s', bs'. split_and!; try done. rewrite Hu'. apply Forall_and. auto.
      * exfalso. unfold freeze in Hf. rewrite Hread in Hf. simpl in Hf. by case_bool_decide.
  - intros Hd. unfold Acknowledge, Update. rewrite (proj2 (Z.ltb_ge _ _)) by lia.
    rewrite (acknowledge_rep _ _ _ _ _ _ Hrep Hr), (proj2 (Z.ltb_ge _ _)) by lia. cbv zeta.
    eexists. split; [done|]. cbn [durable_usage usage]. split; [done|]. intros k.
    rewrite Hu, !lookup_fmap, map_lookup_filter. destruct (V !! k) as [b|] eqn:Hb; simpl;
      [|by destruct (decide _)].
    assert (durable_usage s < k <= usage_seq s) by (apply qo_keys; eauto).
    case_guard; destruct (decide (k <= DurableSequence r)); try done; lia.
Qed.

End Promises.

(** ** A concrete spool *)

(** Messages of a fixed size each, as wide as those of short names. *)
#[local] Instance sample_wire : Wire := {|
  checkpoint_Size := fun _ => 200;
  batch_Size := fun b => 80 + 203 * Z.of_nat (length (Checkpoints b));
  batch_encodes := fun _ => true;
  SizeTag := fun _ => 1;
  SizeVarint := fun _ => 2 |}.

#[local] Instance sample_wire_laws : WireLaws.
Proof. split. intros b. cbn. lia. Qed.

Definition sample_identity : Identity := mkIdentity Sample.client_id Sample.term_id Sample.journal_id.
Definition sample_usage (up : Z) : UsageCheckpoint :=
  mkUsageCheckpoint Sample.client_id Sample.term_id "wg0" Sample.journal_id up 10 1 Sample.grant_id.

(** One checkpoint appended, amended, then shown to a sender. *)
Definition sample_spool1 : Spool := (AppendUsage sample_identity (Ok tt) [sample_usage 5] empty_spool).1.
Definition sample_spool2 : Spool := (AppendUsage sample_identity (Ok tt) [sample_usage 9] sample_spool1).1.
Definition sample_spool3 : Spool := (PendingUsage sample_identity (Ok tt) 8 sample_spool2 sample_spool2).1.

Lemma empty_spool_ok : spool_ok sample_identity empty_spool.
Proof.
  exists ∅, ∅, ∅. split; cbn; try by rewrite ?fmap_empty.
  - split; cbn; try (intros *; rewrite lookup_empty; done).
    + machine.
    + intros k. rewrite lookup_empty. split; [by intros [? ?]|lia].
Qed.

Lemma sample_spool_run : rtc (spool_step sample_identity) empty_spool sample_spool3.
Proof.
  eapply rtc_l; [apply step_append|]. eapply rtc_l; [apply step_append|].
  eapply rtc_l; [apply step_pending|]. apply rtc_refl.
Qed.

Lemma sample_append :
  AppendUsage sample_identity (Ok tt) [sample_usage 5] empty_spool = (sample_spool1, Ok 1).
Proof. vm_cast_no_check (@eq_refl (Spool * result Z) (sample_spool1, Ok 1)). Qed.

Lemma sample_frozen :
  usage sample_spool3 !! 1 =
    Some (Message (mkUsageBatch Sample.client_id Sample.term_id 1 [sample_usage 9])) /\
  exposed_usage sample_spool3 = 1 /\ durable_usage sample_spool3 = 0.
Proof.
  split_and!; [|vm_cast_no_check (eq_refl 1)|vm_cast_no_check (eq_refl 0)].
  vm_cast_no_check (eq_refl (Some (Message
    (mkUsageBatch Sample.client_id Sample.term_id 1 [sample_usage 9])))).
Qed.

Lemma sample_spool3_ok : spool_ok sample_identity sample_spool3.
Proof. apply (run_keeps _ _ _ sample_spool_run empty_spool_ok). Qed.

Lemma append_is_filed_witness : usage_seq sample_spool1 = 1.
Proof. exact (proj1 (append_is_filed _ _ _ _ _ _ empty_spool_ok sample_append)). Defined.

(** Appended, amended, handed out and acknowledged, then appended once more. *)
Definition sample_node (f : Spool) (seen : list Spool) (out : list UsageBatch) (up : list Z) : node := mkNode f seen out (sample_usage <$> up).
Definition sample_batches : list UsageBatch := [mkUsageBatch Sample.client_id Sample.term_id 1 [sample_usage 9]].
Definition sample_spool4 : Spool := (Acknowledge (Ok tt) (Some (mkUsageReceipt 1 1)) sample_spool3).1.
Definition sample_spool5 : Spool := (AppendUsage sample_identity (Ok tt) [sample_usage 20] sample_spool4).1.
Definition sample_end : node := sample_node sample_spool5 [sample_spool2] sample_batches [5; 9; 20].
Lemma frozen_batches_never_change_witness : exposed_usage sample_spool3 <= exposed_usage sample_spool3.
Proof.
  destruct sample_frozen as (Hv & He & _).
  exact (proj1 (proj2 (frozen_batches_never_change _ _ _ _ _ sample_spool3_ok
    (rtc_refl _ sample_spool3) Hv ltac:(rewrite He; lia)))).
Defined.

Lemma hand_out_and_acknowledge_witness :
  exists s', Acknowledge (Ok tt) (Some (mkUsageReceipt 1 0)) sample_spool3 = (s', Ok tt) /\
    durable_usage s' = 1.
Proof.
  destruct sample_frozen as (_ & He & Hd0).
  destruct (proj2 (hand_out_and_acknowledge sample_identity 8 sample_spool3 (mkUsageReceipt 1 0)
    sample_spool3_ok ltac:(lia) ltac:(cbn; lia)) ltac:(rewrite He; cbn; lia)) as (s' & Ha & Hd & _).
  exists s'. split; [exact Ha|]. rewrite Hd, Hd0. reflexivity.
Defined.

Lemma sample_amend : AppendUsage sample_identity (Ok tt) [sample_usage 9] sample_spool1 = (sample_spool2, Ok 1).
Proof. vm_cast_no_check (@eq_refl (Spool * result Z) (sample_spool2, Ok 1)). Qed.
Lemma sample_pending : PendingUsage sample_identity (Ok tt) 8 sample_spool2 sample_spool2 = (sample_spool3, Ok sample_batches).
Proof. vm_cast_no_check (@eq_refl (Spool * result (list UsageBatch)) (sample_spool3, Ok sample_batches)). Qed.
Lemma sample_append2 : AppendUsage sample_identity (Ok tt) [sample_usage 20] sample_spool4 = (sample_spool5, Ok 2).
Proof. vm_cast_no_check (@eq_refl (Spool * result Z) (sample_spool5, Ok 2)). Qed.
Lemma sample_node_run : rtc (node_step sample_identity) new_node sample_end.
Proof.
  eapply rtc_l; [exact (ns_append sample_identity new_node (Ok tt) [sample_usage 5] sample_spool1 (Ok 1) sample_append)|]. eapply rtc_l; [exact (ns_append sample_identity (sample_node sample_spool1 [] [] [5]) (Ok tt) [sample_usage 9] sample_spool2 (Ok 1) sample_amend)|].
  eapply rtc_l; [exact (ns_look sample_identity (sample_node sample_spool2 [] [] [5; 9]))|].
  eapply rtc_l; [exact (ns_pending sample_identity (sample_node sample_spool2 [sample_spool2] [] [5; 9]) (Ok tt) 8 sample_spool2 sample_spool3 (Ok sample_batches) ltac:(left) sample_pending)|].
  eapply rtc_l; [exact (ns_acknowledge sample_identity (sample_node sample_spool3 [sample_spool2] sample_batches [5; 9]) (Ok tt) (Some (mkUsageReceipt 1 1)) ltac:(intros ? [= <-]; cbn; lia))|].
  eapply rtc_l; [exact (ns_append sample_identity (sample_node sample_spool4 [sample_spool2] sample_batches [5; 9]) (Ok tt) [sample_usage 20] sample_spool5 (Ok 2) sample_append2)|]. apply rtc_refl.
Qed.
Lemma no_usage_is_lost_witness : exists c' k, meters sample_spool5 !! meter_of (sample_usage 9) = Some (Message c') /\ checkpoint_le (sample_usage 9) c' /\
  mutable sample_spool5 !! meter_of (sample_usage 9) = Some (Message k) /\
  ((exists b, usage sample_spool5 !! k = Some (Message b) /\ c' ∈ Checkpoints b) \/ (k <= durable_usage sample_spool5 /\ exists b, b ∈ sample_batches /\ Sequence b = k /\ c' ∈ Checkpoints b)).
Proof. exact (no_usage_is_lost sample_identity sample_end (sample_usage 9) sample_node_run ltac:(right; left)). Defined.
