(* ===== verification/MeterCommit.v ===== *)
(** * Committing counters and usage together: internal/node/state/counters.go

    [CommitCounterUsage] is the commit of a durable observation (Counters): in one
    transaction it advances the source's counter checkpoint and appends the usage the
    observation measured (Spool).  JSON of a checkpoint is the checkpoint itself
    ([json.Marshal] orders map keys); its length, the JSON text of a meter key and the
    SHA-256 of a batch are parameters. *)
From S2P Require Import Prelude Limits Authority Counters Spool SpoolFacts SpoolTheorems Instances.

#[global] Instance CounterCheckpoint_eq_dec : EqDecision CounterCheckpoint.
Proof. solve_decision. Defined.

Class Encoding := {
  checkpoint_text_len : CounterCheckpoint -> Z;
  meter_text : meter -> string;
  batch_sha256 : list UsageCheckpoint -> string }.

(** [json.Marshal] on a list of valid strings can be decoded back. *)
Class EncodingLaws `{!Encoding} := { meter_text_inj m m' : meter_text m = meter_text m' -> m = m' }.

Record MeterDelta := mkMeterDelta {
  dIdentity : UsageCheckpoint; dUploaded : Z; dDownloaded : Z }.

(** The usage buckets and the bucket [counter_checkpoints], whose keys are the sources
    and, past a NUL no source contains, their digests. *)
Record State := mkState {
  spool : Spool;
  counters : gmap string (blob CounterCheckpoint);
  digests : gmap string string }.

(** [strings.ContainsRune(source, 0)] *)
Fixpoint contains_nul (s : string) : bool :=
  match s with
  | EmptyString => false
  | String c rest => bool_decide (c = Ascii.zero) || contains_nul rest
  end.

Definition validCounterSource (source : string) : bool :=
  negb (bool_decide (source = ""%string)) && (Z.of_nat (String.length source) <=? 128) &&
  negb (contains_nul source).

(** The zero [CounterCheckpoint]. *)
Definition zero_checkpoint : CounterCheckpoint := mkCheckpoint "" false ∅ ∅.

Section Commit.
Context {HUU : UUIDs} {HWW : Wire} {HE : Encoding}.

Definition LoadCounter (source : string) (s : State) : result Counter :=
  if negb (validCounterSource source) then Fail ErrCounterCheckpoint
  else
    match counters s !! source with
    | None => CounterFromCheckpoint zero_checkpoint
    | Some (Message c) => CounterFromCheckpoint c
    | Some (Garbage _) => Fail ErrUnmarshal
    end.

Definition encodeCheckpoint (c : CounterCheckpoint) : result CounterCheckpoint :=
  counter ← CounterFromCheckpoint c;
  if MaxDeploymentBytes <? checkpoint_text_len (checkpoint counter) then Fail ErrCounterCheckpoint
  else Ok (checkpoint counter).

Definition with_counts (c : UsageCheckpoint) (up down observed : Z) : UsageCheckpoint :=
  mkUsageCheckpoint (cClientId c) (cTermId c) (cMeterId c) (cMeterIncarnation c) up down observed
    (cGrantId c).

(** One delta as the digest sees it, its time erased. *)
Definition digest_entry (acc : list UsageCheckpoint) (d : MeterDelta)
    : result (list UsageCheckpoint) :=
  _ ← meterKey (dIdentity d);
  if negb (Uploaded (dIdentity d) =? 0) || negb (Downloaded (dIdentity d) =? 0) then Fail ErrUsage
  else Ok (acc ++ [with_counts (dIdentity d) (dUploaded d) (dDownloaded d) 1]).

Definition text_le (a b : UsageCheckpoint) : Prop :=
  String.le (meter_text (meter_of a)) (meter_text (meter_of b)).

#[global] Instance text_le_dec a b : Decision (text_le a b).
Proof. unfold text_le. apply _. Defined.

(** Two neighbours with the same key. *)
Fixpoint repeated (l : list UsageCheckpoint) : bool :=
  match l with
  | a :: rest =>
      match rest with
      | b :: _ => bool_decide (meter_text (meter_of a) = meter_text (meter_of b)) || repeated rest
      | [] => false
      end
  | [] => false
  end.

Definition deltaDigest (deltas : list MeterDelta) : result string :=
  checkpoints ← foldM digest_entry [] deltas;
  let checkpoints := merge_sort text_le checkpoints in
  if repeated checkpoints then Fail ErrUsage
  else
    let batch := mkUsageBatch "" "" 0 checkpoints in
    if negb (batch_encodes batch) then Fail ErrMarshal
    else if MaxDeploymentBytes <? batch_Size batch then Fail ErrUsage
    else Ok (batch_sha256 checkpoints).

(** The cumulative checkpoint a delta asks for. *)
Definition accumulate (s : Spool) (acc : list UsageCheckpoint) (d : MeterDelta)
    : result (list UsageCheckpoint) :=
  k ← meterKey (dIdentity d);
  if negb (Uploaded (dIdentity d) =? 0) || negb (Downloaded (dIdentity d) =? 0) then Fail ErrUsage
  else
    before ← match meters s !! k with
             | None => Ok (Uploaded (dIdentity d), Downloaded (dIdentity d))
             | Some data => previous ← Unmarshal data; Ok (Uploaded previous, Downloaded previous)
             end;
    if (sub64 MaxUint64 before.1 <? dUploaded d) || (sub64 MaxUint64 before.2 <? dDownloaded d)
    then Fail ErrUsage
    else
      Ok (acc ++ [with_counts (dIdentity d) (add64 before.1 (dUploaded d))
                    (add64 before.2 (dDownloaded d)) (ObservedUnixMilli (dIdentity d))]).

(** The loop over batches of 1,024; every turn takes at least one checkpoint, so the
    number of checkpoints is fuel enough. *)
Fixpoint append_batches (fuel : nat) (id : Identity) (cs : list UsageCheckpoint) (s : Spool)
    : result Spool :=
  match fuel with
  | O => Ok s
  | S fuel =>
      if bool_decide (cs = []) then Ok s
      else
        r ← appendUsage id (firstn 1024 cs) s;
        append_batches fuel id (skipn 1024 cs) r.1
  end.

(** The transaction of [CommitCounterUsage]. *)
Definition commit_tx (id : Identity) (source : string) (before encoded : CounterCheckpoint)
    (digest : string) (deltas : list MeterDelta) (s : State) : result (State * unit) :=
  let current := default (Message zero_checkpoint) (counters s !! source) in
  if bool_decide (current = Message encoded) then
    if bool_decide (deltas = []) || bool_decide (digests s !! source = Some digest) then Ok (s, tt)
    else Fail ErrCounterCheckpoint
  else if bool_decide (current <> Message before) then Fail ErrCounterCheckpoint
  else
    cs ← foldM (accumulate (spool s)) [] deltas;
    sp ← append_batches (length cs) id cs (spool s);
    Ok (mkState sp (<[ source := Message encoded ]> (counters s)) (<[ source := digest ]> (digests s)),
        tt).

Definition CommitCounterUsage (id : Identity) (commit : result unit) (source : string)
    (previous next : CounterCheckpoint) (deltas : list MeterDelta) (s : State)
    : State * result unit :=
  if negb (validCounterSource source) || (131072 <? Z.of_nat (length deltas))
  then (s, Fail ErrCounterCheckpoint)
  else
    match encodeCheckpoint previous, encodeCheckpoint next, deltaDigest deltas with
    | Fail e, _, _ => (s, Fail e)
    | _, Fail e, _ => (s, Fail e)
    | _, _, Fail e => (s, Fail e)
    | Ok before, Ok encoded, Ok digest =>
        Update commit s (commit_tx id source before encoded digest deltas s)
    end.

End Commit.

(** ** Facts *)

Lemma latest_other (M : gmap meter UsageCheckpoint) cs m :
  m ∉ meter_of <$> cs -> latest M cs !! m = M !! m.
Proof.
  revert M. induction cs as [|c cs IH]; intros M Hm; [done|]. rewrite fmap_cons in Hm. cbn [latest foldl].
  unfold latest in IH. rewrite IH by set_solver. rewrite lookup_insert_ne; [done|]. set_solver.
Qed.

Section Facts.
Context {HUU : UUIDs} {HWW : Wire} {HWL : WireLaws} {HE : Encoding} {HEL : EncodingLaws}.

#[local] Instance text_le_trans : Transitive text_le.
Proof. intros a b c. unfold text_le. by etrans. Qed.
#[local] Instance text_le_total : Total text_le.
Proof. intros a b. unfold text_le. apply (total String.le). Qed.

Lemma repeated_nodup l :
  StronglySorted text_le l -> repeated l = false -> NoDup (meter_of <$> l).
Proof.
  induction l as [|a l IH]; intros Hs Hr; [constructor|]. apply StronglySorted_inv in Hs as [Hs Ha].
  destruct l as [|b l]; [apply NoDup_singleton|]. cbn [repeated] in Hr. fold (repeated (b :: l)) in Hr.
  apply orb_false_iff in Hr as [Hne Hr]. apply bool_decide_eq_false in Hne.
  rewrite fmap_cons. constructor; [|by apply IH].
  intros (z & Hz & Hin)%list_elem_of_fmap. assert (text_le b z) as Hbz.
  { apply elem_of_cons in Hin as [->|Hin]; [unfold text_le; reflexivity|].
    apply StronglySorted_inv in Hs as [_ Hb].
    rewrite Forall_forall in Hb. auto. }
  rewrite Forall_forall in Ha. assert (text_le a b) as Hab by (apply Ha; by left).
  apply Hne. unfold text_le in *. rewrite Hz in *. by apply (anti_symm String.le).
Qed.

Abbreviation delta_meters deltas := ((fun d => meter_of (dIdentity d)) <$> deltas).

Lemma deltaDigest_nodup deltas digest : deltaDigest deltas = Ok digest -> NoDup (delta_meters deltas).
Proof.
  unfold deltaDigest. destruct (foldM digest_entry [] deltas) as [cs|] eqn:Hf; [|done].
  cbn [mbind result_bind]. destruct (repeated _) eqn:Hr; [done|]. intros _.
  assert (forall ds acc cs, foldM digest_entry acc ds = Ok cs ->
            meter_of <$> cs = (meter_of <$> acc) ++ delta_meters ds) as Hgo.
  { clear. induction ds as [|d ds IH]; intros acc cs Hf; simpl in Hf; [simplify_eq; by rewrite app_nil_r|].
    unfold digest_entry at 1 in Hf. destruct (meterKey _); [|done]. cbn [mbind result_bind] in Hf.
    destruct (_ || _); [done|]. apply IH in Hf. rewrite Hf, fmap_app, fmap_cons, <- (assoc_L (++)). done. }
  apply Hgo in Hf. simpl in Hf. rewrite <- Hf.
  rewrite <- (merge_sort_Permutation text_le cs). apply repeated_nodup; [|done].
  apply (StronglySorted_merge_sort _).
Qed.

(** The old totals of a meter. *)
Definition totals (s : Spool) (m : meter) : Z * Z :=
  match meters s !! m with Some (Message c) => (Uploaded c, Downloaded c) | _ => (0, 0) end.

Definition meters_typed (s : Spool) : Prop :=
  forall m c, meters s !! m = Some (Message c) -> is_u64 (Uploaded c) /\ is_u64 (Downloaded c).

Definition billed (s : Spool) (d : MeterDelta) (c : UsageCheckpoint) : Prop :=
  meter_of c = meter_of (dIdentity d) /\
  Uploaded c = (totals s (meter_of (dIdentity d))).1 + dUploaded d /\
  Downloaded c = (totals s (meter_of (dIdentity d))).2 + dDownloaded d.

Lemma accumulate_spec s ds : forall acc cs,
  meters_typed s -> Forall (fun d => is_u64 (dUploaded d) /\ is_u64 (dDownloaded d)) ds ->
  foldM (accumulate s) acc ds = Ok cs -> exists new, cs = acc ++ new /\ Forall2 (billed s) ds new.
Proof.
  intros acc cs Ht. revert acc cs. induction ds as [|d ds IH]; intros acc cs Hall Hf; simpl in Hf.
  { simplify_eq. exists []. by rewrite app_nil_r. }
  apply Forall_cons in Hall as [[Hu Hd] Hall]. unfold accumulate at 1 in Hf.
  destruct (meterKey (dIdentity d)) as [k|] eqn:Hk; [|done]. cbn [mbind result_bind] in Hf.
  apply meterKey_ok in Hk. subst k. split_guard_in Hf; [done|].
  match type of Hf with context [mbind _ ?p] =>
    assert (p = Ok (totals s (meter_of (dIdentity d))) \/ exists e, p = Fail e) as [Hp|[e Hp]] end.
  { unfold totals. destruct (meters s !! meter_of (dIdentity d)) as [[c|]|]; simpl; eauto.
    left. do 2 f_equal; tauto. }
  2:{ by rewrite Hp in Hf. }
  rewrite Hp in Hf. cbn [mbind result_bind] in Hf.
  assert (is_u64 (totals s (meter_of (dIdentity d))).1 /\ is_u64 (totals s (meter_of (dIdentity d))).2) as [H1 H2].
  { unfold totals. destruct (meters s !! meter_of (dIdentity d)) as [[c|]|] eqn:Hm; simpl; [eauto|machine..]. }
  split_guard_in Hf; [done|]. destruct G0 as [G1 G2]. rewrite sub64_small in G1, G2 by machine.
  apply IH in Hf as (new & -> & Hnew); [|done]. eexists (_ :: new). rewrite <- (assoc_L (++)).
  split; [done|]. constructor; [|done]. unfold billed. simpl. rewrite !add64_small by machine. done.
Qed.

Lemma append_batches_spec id fuel : forall cs s s',
  spool_ok id s -> NoDup (meter_of <$> cs) -> (length cs <= fuel)%nat ->
  append_batches fuel id cs s = Ok s' ->
  rtc (spool_step id) s s' /\
  (forall c, c ∈ cs -> meters s' !! meter_of c = Some (Message c)) /\
  (forall m, m ∉ meter_of <$> cs -> meters s' !! m = meters s !! m).
Proof.
  induction fuel as [|fuel IH]; intros cs s s' Hs Hnd Hlen Hf; simpl in Hf.
  { simplify_eq. destruct cs; [|simpl in Hlen; lia]. split_and!; [apply rtc_refl|by intros c ?%elem_of_nil|done]. }
  case_bool_decide as Hcs.
  { simplify_eq. split_and!; [apply rtc_refl|by intros c ?%elem_of_nil|done]. }
  destruct (appendUsage id (firstn 1024 cs) s) as [[s1 n]|] eqn:Ha; [|done]. cbn [mbind result_bind fst] in Hf.
  destruct Hs as (V & M & I & Hrep).
  destruct (appendUsage_rep _ _ _ _ _ _ _ _ Hrep Ha) as (V' & I' & Hrep' & _ & _ & _ & _ & _ & _ & _ & _ & Hin).
  rewrite <- (firstn_skipn 1024 cs), fmap_app in Hnd |- *. apply NoDup_app in Hnd as (_ & Hdis & Hnd).
  apply IH in Hf as (Hrun & Hc & Hm); [|by exists V', (latest M (firstn 1024 cs)), I'|done|].
  2:{ rewrite length_skipn. destruct cs; [done|]. simpl in *. lia. }
  assert (forall m, meters s1 !! m = Message <$> (latest M (firstn 1024 cs) !! m)) as Hl.
  { intros m. by rewrite (sr_meters _ _ _ _ _ Hrep'), lookup_fmap. }
  split_and!.
  - eapply rtc_l; [|done]. pose proof (step_append id (Ok tt) (firstn 1024 cs) s) as Hst.
    unfold AppendUsage, Update in Hst. by rewrite Ha in Hst.
  - intros c [Hcin|Hcin]%elem_of_app; [|auto]. rewrite Hm.
    + rewrite Hl. by rewrite (proj1 (Hin _ Hcin)).
    + apply Hdis. by apply list_elem_of_fmap_2.
  - intros m Hnot. rewrite Hm by set_solver. rewrite Hl, latest_other by set_solver.
    by rewrite (sr_meters _ _ _ _ _ Hrep), lookup_fmap.
Qed.

Lemma encodeCheckpoint_ok c c' : encodeCheckpoint c = Ok c' -> c' = c /\ counter_ok (mkCounter (Last c) (Absent c) (Epoch c) (Primed c)).
Proof.
  unfold encodeCheckpoint, CounterFromCheckpoint. case_bool_decide as Hv; [|done]. cbn [mbind result_bind].
  destruct (_ <? _); [done|]. intros [= <-]. destruct c. by split.
Qed.

(** What the transaction does when it goes through. *)
Lemma commit_tx_spec id source before encoded digest deltas s s' u :
  spool_ok id (spool s) -> meters_typed (spool s) ->
  Forall (fun d => is_u64 (dUploaded d) /\ is_u64 (dDownloaded d)) deltas ->
  NoDup (delta_meters deltas) ->
  commit_tx id source before encoded digest deltas s = Ok (s', u) ->
  default (Message zero_checkpoint) (counters s' !! source) = Message encoded /\
  (deltas = [] \/ digests s' !! source = Some digest) /\
  spool_ok id (spool s') /\
  if bool_decide (default (Message zero_checkpoint) (counters s !! source) = Message encoded) then s' = s
  else
    (forall d, d ∈ deltas -> exists c, meters (spool s') !! meter_of (dIdentity d) = Some (Message c) /\
       billed (spool s) d c) /\
    (forall m, m ∉ delta_meters deltas -> meters (spool s') !! m = meters (spool s) !! m).
Proof.
  intros Hs Ht Hall Hnd. unfold commit_tx. cbv zeta. case_bool_decide as Hcur.
  - split_guard; [|done]. intros [= <- _]. destruct_or!; auto.
  - case_bool_decide; [done|]. destruct (foldM (accumulate (spool s)) [] deltas) as [cs|] eqn:Hf; [|done].
    cbn [mbind result_bind]. destruct (append_batches _ _ _ _) as [sp|] eqn:Ha; [|done].
    cbn [mbind result_bind]. intros [= <- _]. cbn [counters digests spool].
    apply accumulate_spec in Hf as (new & -> & Hnew); [|done..]. simpl in Ha.
    assert (meter_of <$> new = delta_meters deltas) as Hme.
    { clear -Hnew. induction Hnew as [|d c ds cs [Hm _] _ IH]; [done|]. by rewrite !fmap_cons, IH, Hm. }
    apply append_batches_spec in Ha as (Hrun & Hin & Hout); [|done|by rewrite Hme|done].
    rewrite Hme in Hout. rewrite !lookup_insert_eq. split_and!; auto; [by eapply run_keeps|].
    intros d Hd. apply list_elem_of_lookup in Hd as [i Hi].
    destruct (Forall2_lookup_l _ _ _ _ _ Hnew Hi) as (c & Hc & Hb). exists c. split; [|done].
    destruct Hb as [<- _]. apply Hin. by eapply list_elem_of_lookup_2.
Qed.

(** C32: an observation is billed exactly once: when the commit goes through, the
    counter a restart loads is the new checkpoint and every meter named by a delta has
    grown by exactly that delta, no other meter moving; committing the same
    observation again (after a crash or a lost answer) changes nothing; and a commit
    that fails changes nothing. *)
Theorem observation_is_billed_once (id : Identity) (commit : result unit) (source : string)
    (previous next : CounterCheckpoint) (deltas : list MeterDelta) (s s' : State) (r : result unit) :
  spool_ok id (spool s) -> meters_typed (spool s) ->
  Forall (fun d => is_u64 (dUploaded d) /\ is_u64 (dDownloaded d)) deltas ->
  CommitCounterUsage id commit source previous next deltas s = (s', r) ->
  match r with
  | Fail _ => s' = s
  | Ok _ =>
      LoadCounter source s' = CounterFromCheckpoint next /\ is_ok (CounterFromCheckpoint next) = true /\
      spool_ok id (spool s') /\
      (forall previous', CommitCounterUsage id (Ok tt) source previous' next deltas s' = (s', Ok tt) \/
         is_ok (encodeCheckpoint previous') = false) /\
      if bool_decide (default (Message zero_checkpoint) (counters s !! source) = Message next) then s' = s
      else
        (forall d, d ∈ deltas -> exists c, meters (spool s') !! meter_of (dIdentity d) = Some (Message c) /\
           billed (spool s) d c) /\
        (forall m, m ∉ delta_meters deltas -> meters (spool s') !! m = meters (spool s) !! m)
  end.
Proof.
  intros Hs Ht Hall. unfold CommitCounterUsage, Update. split_guard; [by intros [= <- <-]|].
  destruct (encodeCheckpoint previous) as [before|] eqn:Hp; [|by intros [= <- <-]].
  destruct (encodeCheckpoint next) as [encoded|] eqn:Hn; [|by intros [= <- <-]].
  destruct (deltaDigest deltas) as [digest|] eqn:Hd; [|by intros [= <- <-]].
  destruct (commit_tx _ _ _ _ _ _ _) as [[s1 u]|] eqn:Htx; [|by intros [= <- <-]].
  destruct commit; [|by intros [= <- <-]]. intros [= <- <-].
  destruct (encodeCheckpoint_ok _ _ Hn) as [-> Hok]. pose proof (deltaDigest_nodup _ _ Hd) as Hnd.
  destruct (commit_tx_spec _ _ _ _ _ _ _ _ _ Hs Ht Hall Hnd Htx) as (Hcur & Hdg & Hs' & Heff).
  destruct G as [Hsrc Hlen]. split_and!; [|unfold CounterFromCheckpoint; by rewrite bool_decide_eq_true_2| |..].
  - unfold LoadCounter. rewrite Hsrc. cbn [negb].
    destruct (counters s1 !! source) as [[c|]|]; simplify_eq/=; done.
  - done.
  - intros previous'. destruct (encodeCheckpoint previous') as [b|]; [left|by right].
    unfold commit_tx. cbv zeta.
    rewrite bool_decide_eq_true_2 by done.
    destruct Hdg as [->|Hdg]; [by rewrite bool_decide_eq_true_2|].
    by rewrite (bool_decide_eq_true_2 _ Hdg), orb_true_r.
  - done.
Qed.

End Facts.

(** ** A concrete commit *)

(** A text of a list of strings that reads back: every character is announced. *)
Fixpoint quoted (s rest : string) : string :=
  match s with
  | EmptyString => String Ascii.zero rest
  | String c s => String Ascii.one (String c (quoted s rest))
  end.
Fixpoint quoted_list (m : list string) : string :=
  match m with [] => ""%string | s :: m => quoted s (quoted_list m) end.

Lemma quoted_inj s : forall s' r r', quoted s r = quoted s' r' -> s = s' /\ r = r'.
Proof.
  induction s as [|c s IH]; intros [|c' s'] r r' H; simpl in H; [by injection H as ->|done|done|].
  injection H as -> H. by destruct (IH _ _ _ H) as [-> ->].
Qed.

Lemma quoted_list_inj m : forall m', quoted_list m = quoted_list m' -> m = m'.
Proof.
  induction m as [|s m IH]; intros [|s' m'] H; simpl in H; [done|by destruct s'|by destruct s|].
  apply quoted_inj in H as [-> H]. f_equal. auto.
Qed.

#[local] Instance sample_encoding : Encoding := {|
  checkpoint_text_len := fun _ => 100;
  meter_text := quoted_list;
  batch_sha256 := fun cs => quoted_list ((fun c => quoted_list (meter_of c)) <$> cs) |}.
#[local] Instance sample_encoding_laws : EncodingLaws.
Proof. split. apply quoted_list_inj. Qed.
#[local] Existing Instance sample_wire.
#[local] Existing Instance sample_wire_laws.

Definition sample_state : State := mkState empty_spool ∅ ∅.
Definition sample_delta : MeterDelta :=
  mkMeterDelta (mkUsageCheckpoint Sample.client_id Sample.term_id "wg0" Sample.journal_id 0 0 1
                  Sample.grant_id) 5 7.
Definition sample_next : CounterCheckpoint := mkCheckpoint "boot" true {[ "alice" := 12 ]} ∅.
Definition sample_committed : State :=
  (CommitCounterUsage sample_identity (Ok tt) "wg0" zero_checkpoint sample_next [sample_delta]
     sample_state).1.

Lemma sample_commit :
  CommitCounterUsage sample_identity (Ok tt) "wg0" zero_checkpoint sample_next [sample_delta]
    sample_state = (sample_committed, Ok tt).
Proof. vm_cast_no_check (@eq_refl (State * result unit) (sample_committed, Ok tt)). Qed.

Lemma observation_is_billed_once_witness :
  LoadCounter "wg0" sample_committed = CounterFromCheckpoint sample_next.
Proof.
  assert (meters_typed (spool sample_state)) as Ht
    by (intros m c; cbn; rewrite lookup_empty; discriminate).
  assert (Forall (fun d => is_u64 (dUploaded d) /\ is_u64 (dDownloaded d)) [sample_delta]) as Hd
    by (constructor; [cbn; machine|constructor]).
  exact (proj1 (observation_is_billed_once sample_identity (Ok tt) "wg0" zero_checkpoint sample_next
    [sample_delta] sample_state sample_committed (Ok tt) empty_spool_ok Ht Hd sample_commit)).
Defined.
