(* ===== verification/Deployments.v ===== *)
(** * Deployments and fencing: internal/node/state/store.go

    The deployment half of a node's journal: the control plane's session generation
    fences out older masters, a received deployment becomes the desired one, and what
    the node reports as applied is what it was last asked for.  SHA-256 and protobuf
    are parameters; the payload is its bytes as a string. *)
From S2P Require Import Prelude Limits Authority Spool Instances.

Definition ErrRevision : error := ErrorText "stale or conflicting deployment".
Definition ErrDigest : error := ErrorText "deployment digest mismatch".

Record SessionAuthority := mkSession {
  aNodeId : string; aControlPlaneId : string; Generation : Z }.

Record Deployment := mkDeployment {
  dNodeId : string; dControlPlaneId : string; AuthorityGeneration : Z; dRevision : Z;
  PayloadSha256 : string; Payload : string }.

(** [sha256.Sum256], and [proto.Marshal] succeeding. *)
Class Digests := { sha256_sum : string -> string; deployment_encodes : Deployment -> bool }.

(** The numbers of [meta] that concern deployments, the digest last applied and the
    bucket [deployments]. *)
Record Deploys := mkDeploys {
  authority : Z; desired : Z; applied : Z; applied_digest : option string;
  deployments : gmap Z (blob Deployment) }.

Section Operations.
Context {HD : Digests}.

Definition fence (a : SessionAuthority) (s : Deploys) : result (Deploys * unit) :=
  if Generation a <? authority s then Fail ErrRevision
  else Ok (mkDeploys (Generation a) (desired s) (applied s) (applied_digest s) (deployments s), tt).

Definition Fence (id : Identity) (commit : result unit) (a : option SessionAuthority) (s : Deploys)
    : Deploys * result unit :=
  match a with
  | None => (s, Fail ErrIdentity)
  | Some a =>
      if bool_decide (aNodeId a <> NodeID id) || bool_decide (aControlPlaneId a <> ControlPlaneID id) ||
         (Generation a =? 0)
      then (s, Fail ErrIdentity)
      else Update commit s (fence a s)
  end.

(** An earlier deployment stored under the same revision must agree. *)
Definition conflicts (d : Deployment) (s : Deploys) : result bool :=
  match deployments s !! dRevision d with
  | None => Ok false
  | Some prev =>
      old ← Unmarshal prev;
      Ok (bool_decide (PayloadSha256 old <> PayloadSha256 d) ||
          (AuthorityGeneration d <? AuthorityGeneration old))
  end.

Definition receive (d : Deployment) (s : Deploys) : result (Deploys * unit) :=
  if (AuthorityGeneration d <? authority s) || (dRevision d <? desired s) then Fail ErrRevision
  else
    clash ← conflicts d s;
    if (clash : bool) then Fail ErrRevision
    else
      let deploys := <[ dRevision d := Message d ]> (deployments s) in
      Ok (mkDeploys (AuthorityGeneration d) (dRevision d) (applied s) (applied_digest s)
            (filter (fun e => e.1 = dRevision d \/ e.1 = applied s) deploys), tt).

Definition Receive (id : Identity) (commit : result unit) (d : option Deployment) (s : Deploys)
    : Deploys * result unit :=
  match d with
  | None => (s, Fail ErrIdentity)
  | Some d =>
      if bool_decide (dNodeId d <> NodeID id) || bool_decide (dControlPlaneId d <> ControlPlaneID id)
      then (s, Fail ErrIdentity)
      else if (dRevision d =? 0) || (AuthorityGeneration d =? 0) ||
              bool_decide (Payload d = ""%string) ||
              (MaxDeploymentBytes <? Z.of_nat (String.length (Payload d)))
      then (s, Fail ErrRevision)
      else if bool_decide (sha256_sum (Payload d) <> PayloadSha256 d) then (s, Fail ErrDigest)
      else if negb (deployment_encodes d) then (s, Fail ErrMarshal)
      else Update commit s (receive d s)
  end.

Definition Desired (s : Deploys) : result (option Deployment) :=
  if desired s =? 0 then Ok None
  else
    match deployments s !! desired s with
    | None => Fail ErrRevision
    | Some data => d ← Unmarshal data; Ok (Some d)
    end.

Definition apply_revision (generation revision : Z) (digest : string) (s : Deploys)
    : result (Deploys * unit) :=
  if negb (generation =? authority s) || negb (revision =? desired s) || (revision <? applied s)
  then Fail ErrRevision
  else
    match deployments s !! revision with
    | None => Fail ErrRevision
    | Some data =>
        d ← Unmarshal data;
        if negb (AuthorityGeneration d =? generation) || bool_decide (PayloadSha256 d <> digest)
        then Fail ErrRevision
        else
          Ok (mkDeploys (authority s) (desired s) revision (Some digest)
                (filter (fun e => ~ e.1 < revision) (deployments s)), tt)
    end.

Definition Applied (commit : result unit) (generation revision : Z) (digest : string) (s : Deploys)
    : Deploys * result unit :=
  Update commit s (apply_revision generation revision digest s).

End Operations.

Section Promises.
Context {HD : Digests}.

(** A deployment as [Receive] lets it in. *)
Definition received (id : Identity) (d : Deployment) : Prop :=
  dNodeId d = NodeID id /\ dControlPlaneId d = ControlPlaneID id /\ 0 < dRevision d /\
  0 < AuthorityGeneration d /\ Payload d <> ""%string /\
  Z.of_nat (String.length (Payload d)) <= MaxDeploymentBytes /\
  sha256_sum (Payload d) = PayloadSha256 d.

Record deploys_ok (id : Identity) (s : Deploys) : Prop := {
  do_marks : 0 <= authority s /\ 0 <= applied s <= desired s;
  do_stored : forall k v, deployments s !! k = Some v ->
    (k = desired s \/ k = applied s) /\
    exists d, v = Message d /\ dRevision d = k /\ received id d /\ AuthorityGeneration d <= authority s;
  do_desired : desired s <> 0 -> is_Some (deployments s !! desired s);
  do_applied : applied s <> 0 -> exists d, deployments s !! applied s = Some (Message d) /\
    applied_digest s = Some (PayloadSha256 d) }.

(** The numbers of a message are unsigned. *)
Definition deployment_typed (d : option Deployment) : Prop :=
  forall x, d = Some x -> 0 <= dRevision x /\ 0 <= AuthorityGeneration x.
Definition session_typed (a : option SessionAuthority) : Prop :=
  forall x, a = Some x -> 0 <= Generation x.

Inductive deploy_step (id : Identity) : Deploys -> Deploys -> Prop :=
| step_fence commit a s : session_typed a -> deploy_step id s (Fence id commit a s).1
| step_receive commit d s : deployment_typed d -> deploy_step id s (Receive id commit d s).1
| step_applied commit generation revision digest s :
    deploy_step id s (Applied commit generation revision digest s).1.

(** What no step undoes. *)
Record deploys_evolve (s s' : Deploys) : Prop := {
  de_marks : authority s <= authority s' /\ desired s <= desired s' /\ applied s <= applied s';
  de_digest : forall d d', desired s = desired s' -> deployments s !! desired s = Some (Message d) ->
    deployments s' !! desired s' = Some (Message d') -> PayloadSha256 d = PayloadSha256 d' }.

Lemma deploys_evolve_refl s : deploys_evolve s s.
Proof. split; [lia|]. intros d d' _ Hd Hd'. congruence. Qed.

Lemma receive_ok id d s s' u :
  deploys_ok id s -> received id d -> receive d s = Ok (s', u) ->
  deploys_ok id s' /\ deploys_evolve s s'.
Proof.
  intros [Hm Hst Hde Hap] Hd. unfold receive. split_guard; [done|]. destruct G as [Hg Hr].
  destruct (conflicts d s) as [clash|] eqn:Hc; [|done]. cbn [mbind result_bind].
  destruct clash; [done|]. intros [= <- _].
  assert (forall old, deployments s !! dRevision d = Some (Message old) ->
            PayloadSha256 old = PayloadSha256 d) as Hold.
  { intros old Ho. unfold conflicts in Hc. rewrite Ho in Hc. simpl in Hc. injection Hc as Hc.
    apply orb_false_iff in Hc as [Hc _]. apply bool_decide_eq_false in Hc. by apply dec_stable. }
  pose proof Hd as (_ & _ & Hpos & Hgen & _). split.
  - split; cbn [authority desired applied applied_digest deployments].
    + lia.
    + intros k v [Hv Hk]%map_lookup_filter_Some. simpl in Hk. split; [tauto|].
      apply lookup_insert_Some in Hv as [[<- <-]|[Hne Hv]].
      * exists d. split_and!; auto. lia.
      * destruct (Hst _ _ Hv) as (_ & d' & -> & ? & ? & ?). exists d'. split_and!; auto. lia.
    + intros _. exists (Message d). apply map_lookup_filter_Some. split; [apply lookup_insert_eq|by left].
    + intros Hne. destruct (Hap Hne) as (d' & Hd' & Hdig). destruct (decide (applied s = dRevision d)) as [He|Hn].
      * exists d. split; [apply map_lookup_filter_Some; rewrite He; split; [apply lookup_insert_eq|by left]|].
        rewrite Hdig. f_equal. apply Hold. by rewrite <- He.
      * exists d'. split; [|done]. apply map_lookup_filter_Some.
        split; [by rewrite lookup_insert_ne by congruence|by right].
  - split; cbn [authority desired applied deployments]; [lia|].
    intros d1 d2 He H1 [H2 _]%map_lookup_filter_Some. rewrite lookup_insert_eq in H2. simplify_eq.
    apply Hold. congruence.
Qed.

Lemma apply_revision_ok id generation revision digest s s' u :
  deploys_ok id s -> apply_revision generation revision digest s = Ok (s', u) ->
  deploys_ok id s' /\ deploys_evolve s s'.
Proof.
  intros [Hm Hst Hde Hap]. unfold apply_revision. split_guard; [done|]. destruct G as [[-> ->] Hr].
  destruct (deployments s !! desired s) as [data|] eqn:Hd; [|done].
  destruct (Hst _ _ Hd) as (_ & d & -> & Hrev & Hrec & Hau). simpl. split_guard; [done|].
  destruct G as [_ Hdig]. apply dec_stable in Hdig. intros [= <- _].
  split; split; cbn [authority desired applied applied_digest deployments]; try lia.
  - intros k v [Hv Hk]%map_lookup_filter_Some. simpl in Hk. destruct (Hst _ _ Hv) as [[-> | ->] Hex]; split; auto.
    left. lia.
  - intros _. exists (Message d). apply map_lookup_filter_Some. split; [done|simpl; lia].
  - intros _. exists d. split; [|by rewrite Hdig]. apply map_lookup_filter_Some. split; [done|simpl; lia].
  - intros d1 d2 _ H1 [H2 _]%map_lookup_filter_Some. congruence.
Qed.

Lemma deploy_step_ok id s s' :
  deploy_step id s s' -> deploys_ok id s -> deploys_ok id s' /\ deploys_evolve s s'.
Proof.
  intros Hstep Hs. pose proof (deploys_evolve_refl s) as Hrefl.
  destruct Hstep as [commit a s Ha|commit d s Hd|commit generation revision digest s].
  - unfold Fence, Update. destruct a as [a|]; [|done]. split_guard; [done|]. unfold fence.
    specialize (Ha a eq_refl). split_guard; [done|]. destruct commit; [|done]. destruct Hs as [Hm Hst Hde Hap].
    split; [split|split]; cbn; try done; try lia.
    + intros k v Hv. destruct (Hst _ _ Hv) as (? & d & ? & ? & ? & ?). split; [done|]. exists d.
      split_and!; auto. lia.
    + intros d1 d2 _. congruence.
  - unfold Receive, Update. destruct d as [d|]; [|done]. destruct (Hd d eq_refl).
    split_guard; [done|]. split_guard; [done|]. split_guard; [done|]. split_guard; [done|].
    destruct (receive d s) as [[s' u]|] eqn:Hr; [|done]. destruct commit; [|done].
    eapply receive_ok; [done| |done]. destruct_and!.
    repeat match goal with H : ~ (_ <> _) |- _ => apply dec_stable in H end.
    unfold received. split_and!; auto; lia.
  - unfold Applied, Update. destruct (apply_revision _ _ _ _) as [[s' u]|] eqn:Hr; [|done].
    destruct commit; [|done]. by eapply apply_revision_ok.
Qed.

Lemma deploy_run_ok id s s' :
  rtc (deploy_step id) s s' -> deploys_ok id s -> deploys_ok id s' /\ deploys_evolve s s'.
Proof.
  induction 1 as [s|s s1 s2 Hst _ IH]; intros Hs; [split; [done|apply deploys_evolve_refl]|].
  destruct (deploy_step_ok _ _ _ Hst Hs) as [Hs1 [Hm1 Hd1]]. destruct (IH Hs1) as [Hs2 [Hm2 Hd2]].
  split; [done|]. split; [lia|]. intros d d2 He Hd Hd'.
  assert (desired s = desired s1) as He1 by lia. assert (desired s1 = desired s2) as He2 by lia.
  destruct (decide (desired s1 = 0)) as [Hz|Hnz].
  - destruct Hs as [_ Hst0 _ _]. destruct (Hst0 _ _ Hd) as (_ & d0 & [= <-] & Hr & (_ & _ & ? & _) & _). lia.
  - destruct Hs1 as [_ Hst1 Hde1 _]. destruct (Hde1 Hnz) as [v Hv].
    destruct (Hst1 _ _ Hv) as (_ & d1 & -> & _). transitivity (PayloadSha256 d1); eauto.
Qed.

(** C33: deployments are fenced and never swapped: over any run of fencing, delivery and
    application, failed commits included, the generation and the desired and applied
    revisions only go up, with the applied one never past the desired one; the desired
    deployment can always be read back, was addressed to this node and matches its
    digest; a revision keeps the payload digest it first had; and a delivery or a
    report from a generation that has been fenced out is refused. *)
Theorem deployments_are_fenced (id : Identity) (s s' : Deploys) :
  deploys_ok id s -> rtc (deploy_step id) s s' ->
  authority s <= authority s' /\ desired s <= desired s' /\ applied s <= applied s' <= desired s' /\
  (exists want, Desired s' = Ok want /\ forall d, want = Some d -> dRevision d = desired s' /\ received id d) /\
  (forall d d', Desired s = Ok (Some d) -> Desired s' = Ok (Some d') -> dRevision d = dRevision d' ->
     PayloadSha256 d = PayloadSha256 d') /\
  (forall commit d, AuthorityGeneration d < authority s ->
     is_ok (Receive id commit (Some d) s').2 = false /\ (Receive id commit (Some d) s').1 = s') /\
  (forall commit generation revision digest, generation < authority s ->
     Applied commit generation revision digest s' = (s', Fail ErrRevision)).
Proof.
  intros Hs Hr. destruct (deploy_run_ok _ _ _ Hr Hs) as [Hs' [Hm Hd]].
  assert (forall t, deploys_ok id t -> exists want, Desired t = Ok want /\ forall d, want = Some d ->
    dRevision d = desired t /\ received id d /\ deployments t !! desired t = Some (Message d)) as Hread.
  { intros t [_ Hst Hde _]. unfold Desired. destruct (desired t =? 0) eqn:Hz; bools; [by exists None|].
    destruct (Hde Hz) as [v Hv]. destruct (Hst _ _ Hv) as (_ & d & -> & Hrev & Hrec & _).
    rewrite Hv. exists (Some d). split; [done|]. by intros ? [= <-]. }
  destruct (Hread _ Hs') as (want & Hwant & Hall). pose proof Hs' as [Hm' _ _ _].
  split_and!; try lia.
  - exists want. split; [done|]. intros d ->. destruct (Hall d eq_refl). tauto.
  - intros d d' H1 H2 He. destruct (Hread _ Hs) as (w1 & Hw1 & Ha1). rewrite Hw1 in H1. rewrite Hwant in H2.
    simplify_eq. destruct (Ha1 d eq_refl) as (Hr1 & _ & ?). destruct (Hall d' eq_refl) as (Hr2 & _ & ?).
    apply Hd; [congruence|done..].
  - intros commit d Hlt. unfold Receive, Update. repeat (split_guard; [done|]). unfold receive.
    by rewrite (proj2 (Z.ltb_lt _ _)) by lia.
  - intros commit g rev dig Hlt. unfold Applied, Update, apply_revision.
    by rewrite (proj2 (Z.eqb_neq g (authority s'))) by lia.
Qed.

End Promises.

(** ** A concrete journal *)

#[local] Instance sample_digests : Digests := {|
  sha256_sum := fun payload => payload; deployment_encodes := fun _ => true |}.

Definition sample_node : Identity := mkIdentity Sample.client_id Sample.term_id Sample.journal_id.
Definition sample_deployment : Deployment :=
  mkDeployment Sample.client_id Sample.journal_id 3 1 "config" "config".
Definition empty_deploys : Deploys := mkDeploys 0 0 0 None ∅.
Definition sample_deploys : Deploys := (Receive sample_node (Ok tt) (Some sample_deployment) empty_deploys).1.

Lemma empty_deploys_ok : deploys_ok sample_node empty_deploys.
Proof. split; cbn; try lia; done. Qed.

Lemma deployments_are_fenced_witness :
  authority sample_deploys = 3 /\ authority empty_deploys <= authority sample_deploys.
Proof.
  split; [vm_cast_no_check (eq_refl 3)|].
  assert (rtc (deploy_step sample_node) empty_deploys sample_deploys) as Hr.
  { eapply rtc_l; [apply (step_receive _ (Ok tt) (Some sample_deployment))|apply rtc_refl].
    intros x [= <-]. cbn. lia. }
  exact (proj1 (deployments_are_fenced sample_node empty_deploys sample_deploys empty_deploys_ok Hr)).
Defined.
