(* ===== verification/Rates.v ===== *)
(** * Shared bandwidth: internal/controlplane/rates.go and rate_allocation.go, the arithmetic

    A client's bandwidth budget is shared by the nodes that serve it.  Rates are those of
    [Limits]; a rate a node was ever sent counts against the budget until the node has
    proved that it applies another one, so an increase is only handed out when everything
    outstanding still fits.  Sums are kept in 64-bit words with their carries. *)
From S2P Require Import Prelude Limits Authority.
Open Scope string_scope.
Open Scope Z_scope.
Open Scope list_scope.

Definition ErrInvalid : error := ErrorText "invalid control-plane operation".

(** ** Rates *)

Record Rates := mkRates { rUpload : Rate; rDownload : Rate }.
#[global] Instance Rates_eq_dec : EqDecision Rates.
Proof. solve_decision. Defined.

(** The zero [limits.Rate] and the zero [Rates]: blocked. *)
Definition NoRate : Rate := mkRate Blocked 0 0.
Definition NoRates : Rates := mkRates NoRate NoRate.

(** [limits.New] fails exactly when [Limits.validate] does. *)
Definition Rates_validate (r : Rates) : result unit :=
  validate (mkPolicy "rate-validation" 1 0 false 0 false 0 0 (rUpload r) (rDownload r)).

Definition envelope (a b : Rate) : Rate :=
  if (Mode a =? Unlimited) || (Mode b =? Unlimited) then mkRate Unlimited 0 0
  else if Mode a =? Blocked then b
  else if Mode b =? Blocked then a
  else mkRate Limited (Z.max (BitsPerSecond a) (BitsPerSecond b)) (Z.max (BurstBytes a) (BurstBytes b)).

Definition lowerRate (a b : Rate) : Rate :=
  if (Mode a =? Blocked) || (Mode b =? Blocked) then NoRate
  else if Mode a =? Unlimited then b
  else if Mode b =? Unlimited then a
  else mkRate Limited (Z.min (BitsPerSecond a) (BitsPerSecond b)) (Z.min (BurstBytes a) (BurstBytes b)).

(** The loop of [fitsRates] with its two sums. *)
Fixpoint fits_loop (bound : Rate) (values : list Rate) (bits burst : Z) : bool :=
  match values with
  | [] => (bits <=? BitsPerSecond bound) && (burst <=? u64 (BurstBytes bound))
  | value :: rest =>
      if Mode value =? Blocked then fits_loop bound rest bits burst
      else if (Mode value =? Unlimited) || (Mode bound =? Blocked) ||
              (MaxUint64 - bits <? BitsPerSecond value) || (MaxUint64 - burst <? u64 (BurstBytes value))
      then false
      else fits_loop bound rest (add64 bits (BitsPerSecond value)) (add64 burst (u64 (BurstBytes value)))
  end.

Definition fitsRates (bound : Rate) (values : list Rate) : bool :=
  if Mode bound =? Unlimited then true else fits_loop bound values 0 0.

Definition Rates_Contains (r other : Rates) : bool :=
  is_ok (Rates_validate r) && is_ok (Rates_validate other) &&
  fitsRates (rUpload r) [rUpload other] && fitsRates (rDownload r) [rDownload other].

(** ** Sums with carries *)

Record rateTotals := mkTotals { bits : Z; high : Z; burst : Z; unlimited : Z }.
Definition NoTotals : rateTotals := mkTotals 0 0 0 0.

(** [bits.Add64] and [bits.Sub64] without a carry in. *)
Definition bits_Add64 (x y : Z) : Z * Z := (u64 (x + y), (x + y) / 18446744073709551616).
Definition bits_Sub64 (x y : Z) : Z * Z := (u64 (x - y), if x <? y then 1 else 0).

Definition totals_add (s : rateTotals) (value : Rate) : rateTotals :=
  if Mode value =? Unlimited then mkTotals (bits s) (high s) (burst s) (i64 (unlimited s + 1))
  else if Mode value =? Limited then
    let '(b, carry) := bits_Add64 (bits s) (BitsPerSecond value) in
    mkTotals b (add64 (high s) carry) (add64 (burst s) (u64 (BurstBytes value))) (unlimited s)
  else s.

Definition totals_remove (s : rateTotals) (value : Rate) : rateTotals :=
  if Mode value =? Unlimited then mkTotals (bits s) (high s) (burst s) (i64 (unlimited s - 1))
  else if Mode value =? Limited then
    let '(b, borrow) := bits_Sub64 (bits s) (BitsPerSecond value) in
    mkTotals b (sub64 (high s) borrow) (sub64 (burst s) (u64 (BurstBytes value))) (unlimited s)
  else s.

Definition totals_fits (s : rateTotals) (bound : Rate) : bool :=
  (Mode bound =? Unlimited) ||
  ((unlimited s =? 0) && (high s =? 0) && (bits s <=? BitsPerSecond bound) && (burst s <=? u64 (BurstBytes bound))).

(** ** Allocation *)

Record RateParticipant := mkParticipant {
  ID : string; Outstanding : Rates; Eligible : bool; Frozen : bool; MinimumBurst : Z }.
Record RateAllocation := mkAllocation { aID : string; Target : Rates; Next : Rates }.
Record RateCapacityError := mkCapacityError {
  Direction : Z; AvailableBits : Z; AvailableBurst : Z; Participants : Z; RequiredBurst : Z }.

Definition served (p : RateParticipant) : bool := Eligible p && negb (Frozen p).

Definition retainFeasibleRates (bound : Rate) (participants : list RateParticipant) (current result : list Rate) : list Rate :=
  if fitsRates bound current then
    zip_with (fun p '(c, r) => if served p then c else r) participants (zip current result)
  else result.

(** One participant of the first loop of [fairRateTargets]: the frozen keep what they have
    and take it out of what is left, the eligible are listed by index. *)
Record fair := mkFair { f_bits : Z; f_burst : Z; insufficient : bool; eligible : list nat }.

Definition fair_step (bound : Rate) (s : fair * nat) (pc : RateParticipant * Rate) : fair * nat :=
  let '(f, i) := s in
  let '(p, c) := pc in
  (if Frozen p then
     if negb (Mode bound =? Unlimited) && negb (Mode c =? Blocked) then
       if (Mode c =? Unlimited) || (f_bits f <? BitsPerSecond c) || (f_burst f <? u64 (BurstBytes c))
       then mkFair (f_bits f) (f_burst f) true (eligible f)
       else mkFair (sub64 (f_bits f) (BitsPerSecond c)) (sub64 (f_burst f) (u64 (BurstBytes c))) (insufficient f) (eligible f)
     else f
   else if Eligible p then mkFair (f_bits f) (f_burst f) (insufficient f) (eligible f ++ [i])
   else f, S i).

Definition minimum_of (participants : list RateParticipant) (indices : list nat) : Z :=
  foldl (fun m i => add64 m (u64 (match participants !! i with Some p => MinimumBurst p | None => 0 end))) 0 indices.

(** The share of the eligible participant of a rank. *)
Definition fair_share (participants : list RateParticipant) (left_ extra count : Z) (rank : Z) (i : nat) : Rate :=
  let assignedBits := left_ / count in
  let assignedBurst := add64 (u64 (match participants !! i with Some p => MinimumBurst p | None => 0 end)) (extra / count) in
  let assignedBits := if rank <? left_ mod count then add64 assignedBits 1 else assignedBits in
  let assignedBurst := if rank <? extra mod count then add64 assignedBurst 1 else assignedBurst in
  mkRate Limited assignedBits (i64 assignedBurst).

Fixpoint fair_assign (participants : list RateParticipant) (left_ extra count rank : Z) (indices : list nat) (result : list Rate) : list Rate :=
  match indices with
  | [] => result
  | i :: rest =>
      fair_assign participants left_ extra count (rank + 1) rest
        (<[i := fair_share participants left_ extra count rank i]> result)
  end.

Definition fairRateTargets (bound : Rate) (participants : list RateParticipant) (current : list Rate) : list Rate :=
  let result := zip_with (fun p c => if Frozen p then c else NoRate) participants current in
  let '(f, _) := foldl (fair_step bound)
    (mkFair (BitsPerSecond bound) (u64 (BurstBytes bound)) (Mode bound =? Blocked) [], O) (zip participants current) in
  if bool_decide (eligible f = []) || insufficient f then result
  else if Mode bound =? Unlimited then foldl (fun r i => <[i := mkRate Unlimited 0 0]> r) result (eligible f)
  else if f_bits f <? Z.of_nat (length (eligible f)) then retainFeasibleRates bound participants current result
  else
    let minimum := minimum_of participants (eligible f) in
    if f_burst f <? minimum then retainFeasibleRates bound participants current result
    else
      let count := Z.of_nat (length (eligible f)) in
      fair_assign participants (f_bits f) (sub64 (f_burst f) minimum) count 0 (eligible f) result.

(** The last loop: a participant moves to its target when everything outstanding still
    fits with it, and otherwise only down. *)
Definition next_rate (bound : Rate) (total : rateTotals) (p : RateParticipant) (current target : Rate) : Rate :=
  if Frozen p then current
  else if totals_fits (totals_add (totals_remove total current) (envelope current target)) bound then target
  else lowerRate current target.

Fixpoint next_loop (bound : Rate) (total : rateTotals) (l : list (RateParticipant * (Rate * Rate))) : list Rate :=
  match l with
  | [] => []
  | (p, (current, target)) :: rest =>
      let next := next_rate bound total p current target in
      next :: next_loop bound (totals_add (totals_remove total current) (envelope current next)) rest
  end.

(** One direction: the targets, what to send next, and the shortage if there is one. *)
Definition allocate_direction (direction : Z) (bound : Rate) (participants : list RateParticipant) (current : list Rate)
    : list Rate * list Rate * list RateCapacityError :=
  let shortage :=
    if Mode bound =? Limited then
      let count := Z.of_nat (length (filter (fun p => served p = true) participants)) in
      let minimum := foldl (fun m p => if served p then add64 m (u64 (MinimumBurst p)) else m) 0 participants in
      if (BitsPerSecond bound <? count) || (u64 (BurstBytes bound) <? minimum)
      then [mkCapacityError direction (BitsPerSecond bound) (BurstBytes bound) count minimum] else []
    else [] in
  let target := fairRateTargets bound participants current in
  let total := foldl totals_add NoTotals current in
  (target, next_loop bound total (zip participants (zip current target)), shortage).

Section Allocate.
Context `{!UUIDs}.

Definition id_le (a b : RateParticipant) : Prop := String.le (ID a) (ID b).
#[global] Instance id_le_dec a b : Decision (id_le a b).
Proof. unfold id_le. apply _. Defined.

(** The checks of the sorted participants. *)
Fixpoint check_participants (previous : option string) (l : list RateParticipant) : bool :=
  match l with
  | [] => true
  | p :: rest =>
      ValidID (ID p) && is_ok (Rates_validate (Outstanding p)) && negb (MinimumBurst p <? 1) &&
      negb (1048576 <? MinimumBurst p) && negb (bool_decide (previous = Some (ID p))) &&
      check_participants (Some (ID p)) rest
  end.

Definition AllocateSharedRates (budget : Rates) (participants : list RateParticipant)
    : result (list RateAllocation * list RateCapacityError) :=
  if negb (is_ok (Rates_validate budget)) || (32768 <? Z.of_nat (length participants)) then Fail ErrInvalid
  else
    let participants := merge_sort id_le participants in
    if negb (check_participants None participants) then Fail ErrInvalid
    else
      let '(targetUp, nextUp, short0) :=
        allocate_direction UploadDir (rUpload budget) participants ((fun p => rUpload (Outstanding p)) <$> participants) in
      let '(targetDown, nextDown, short1) :=
        allocate_direction DownloadDir (rDownload budget) participants ((fun p => rDownload (Outstanding p)) <$> participants) in
      Ok (zip_with (fun p '((tu, nu), (td, nd)) => mkAllocation (ID p) (mkRates tu td) (mkRates nu nd))
            participants (zip (zip targetUp nextUp) (zip targetDown nextDown)), short0 ++ short1).
End Allocate.

(** ** Shared bandwidth: the order of rates and their sums

    [le_rate] is the order in which [envelope] is the least upper bound and [lowerRate] a
    lower one.  The sums with carries of [rateTotals] and the sums with overflow checks of
    [fitsRates] are the mathematical ones for as many rates as an allocation accepts. *)

(** ** One rate *)

(** A rate that validates; its bits are a [uint64]. *)
Definition ok_rate (r : Rate) : Prop := validate_rate r = Ok tt /\ 0 <= BitsPerSecond r.

Lemma ok_rate_cases r :
  ok_rate r <->
  r = mkRate Blocked 0 0 \/ r = mkRate Unlimited 0 0 \/
  exists b u, r = mkRate Limited b u /\ 1 <= b <= 9007199254740992 /\ 1 <= u <= 1048576.
Proof.
  destruct r as [m b u]. unfold ok_rate, validate_rate. cbn [Mode BitsPerSecond BurstBytes]. split.
  - intros [Hv Hpos]. revert Hv. destruct ((m =? Blocked) || (m =? Unlimited)) eqn:Hm.
    + destruct (negb (b =? 0) || negb (u =? 0)) eqn:Hz; [done|]. intros _.
      autorewrite with guards in Hm, Hz. destruct Hz as [-> ->]. destruct Hm as [-> | ->]; auto.
    + destruct (Z.eqb_spec m Limited) as [->|]; [|done]. split_guard; [done|]. intros _. right. right. exists b, u.
      split; [done|]. lia.
  - intros [[= -> -> ->]|[[= -> -> ->]|(b' & u' & [= -> -> ->] & Hb & Hu)]]; [done|done|]. split; [|lia].
    unfold Blocked, Limited, Unlimited. cbn. split_guard; [exfalso; lia|done].
Qed.

(** [a] grants no more than [b]. *)
Definition le_rate (a b : Rate) : Prop :=
  Mode b = Unlimited \/ Mode a = Blocked \/
  Mode a = Limited /\ Mode b = Limited /\ BitsPerSecond a <= BitsPerSecond b /\ BurstBytes a <= BurstBytes b.

Ltac rates :=
  unfold le_rate, envelope, lowerRate, NoRate, Blocked, Limited, Unlimited in *; cbn in *.

Ltac ok_cases H :=
  apply ok_rate_cases in H as [-> | [-> | (? & ? & -> & ? & ?)]].

Lemma le_rate_refl a : ok_rate a -> le_rate a a.
Proof. intros H. ok_cases H; rates; lia. Qed.
Lemma le_rate_trans a b c : ok_rate b -> le_rate a b -> le_rate b c -> le_rate a c.
Proof. intros Hb. rates. ok_cases Hb; rates; lia. Qed.
Lemma envelope_ok a b : ok_rate a -> ok_rate b -> ok_rate (envelope a b).
Proof.
  intros Ha Hb. ok_cases Ha; ok_cases Hb; apply ok_rate_cases; rates; auto;
    right; right; eexists _, _; (split; [reflexivity|lia]).
Qed.
Lemma lowerRate_ok a b : ok_rate a -> ok_rate b -> ok_rate (lowerRate a b).
Proof.
  intros Ha Hb. ok_cases Ha; ok_cases Hb; apply ok_rate_cases; rates; auto;
    right; right; eexists _, _; (split; [reflexivity|lia]).
Qed.

(** [envelope] is the least rate above both. *)
Lemma envelope_l a b : ok_rate a -> ok_rate b -> le_rate a (envelope a b).
Proof. intros Ha Hb. ok_cases Ha; ok_cases Hb; rates; lia. Qed.
Lemma envelope_r a b : ok_rate a -> ok_rate b -> le_rate b (envelope a b).
Proof. intros Ha Hb. ok_cases Ha; ok_cases Hb; rates; lia. Qed.
Lemma envelope_least a b c : ok_rate a -> ok_rate b -> ok_rate c -> le_rate a c -> le_rate b c -> le_rate (envelope a b) c.
Proof. intros Ha Hb Hc. ok_cases Ha; ok_cases Hb; ok_cases Hc; rates; lia. Qed.
Lemma envelope_absorbs a b : ok_rate a -> ok_rate b -> le_rate b a -> envelope a b = a.
Proof. intros Ha Hb Hl. ok_cases Ha; ok_cases Hb; rates; try done; try lia; f_equal; lia. Qed.
Lemma envelope_grows a b : ok_rate a -> ok_rate b -> le_rate a b -> envelope a b = b.
Proof. intros Ha Hb Hl. ok_cases Ha; ok_cases Hb; rates; try done; try lia; f_equal; lia. Qed.
Lemma lowerRate_below a b : ok_rate a -> ok_rate b -> le_rate (lowerRate a b) a /\ le_rate (lowerRate a b) b.
Proof. intros Ha Hb. ok_cases Ha; ok_cases Hb; rates; lia. Qed.
Lemma lowerRate_stays a b : ok_rate a -> ok_rate b -> le_rate a b -> lowerRate a b = a.
Proof. intros Ha Hb Hl. ok_cases Ha; ok_cases Hb; rates; try done; try lia; f_equal; lia. Qed.
Lemma ok_NoRate : ok_rate NoRate.
Proof. done. Qed.

(** ** Sums *)

Definition sum_bits (l : list Rate) : Z := sumZ (BitsPerSecond <$> l).
Definition sum_burst (l : list Rate) : Z := sumZ (BurstBytes <$> l).
Definition unlimiteds (l : list Rate) : Z := sumZ ((fun r => if Mode r =? Unlimited then 1 else 0) <$> l).

(** The rates of [l] together stay within [bound]. *)
Definition within (l : list Rate) (bound : Rate) : Prop :=
  Mode bound = Unlimited \/
  unlimiteds l = 0 /\ sum_bits l <= BitsPerSecond bound /\ sum_burst l <= BurstBytes bound.

Lemma sums_app l k :
  sum_bits (l ++ k) = sum_bits l + sum_bits k /\ sum_burst (l ++ k) = sum_burst l + sum_burst k /\
  unlimiteds (l ++ k) = unlimiteds l + unlimiteds k.
Proof. unfold sum_bits, sum_burst, unlimiteds. by rewrite !fmap_app, !sumZ_app. Qed.

Lemma sums_cons r l :
  sum_bits (r :: l) = BitsPerSecond r + sum_bits l /\ sum_burst (r :: l) = BurstBytes r + sum_burst l /\
  unlimiteds (r :: l) = (if Mode r =? Unlimited then 1 else 0) + unlimiteds l.
Proof. done. Qed.

Lemma sums_bounds l : Forall ok_rate l ->
  0 <= sum_bits l <= Z.of_nat (length l) * 9007199254740992 /\
  0 <= sum_burst l <= Z.of_nat (length l) * 1048576 /\ 0 <= unlimiteds l <= Z.of_nat (length l).
Proof.
  induction 1 as [|r l Hr _ IH]; [done|]. destruct (sums_cons r l) as (-> & -> & ->). cbn [length].
  rewrite Nat2Z.inj_succ. ok_cases Hr; cbn in *; lia.
Qed.

(** Only blocked rates add up to nothing. *)
Lemma within_blocked l bound : Forall ok_rate l -> Mode bound = Blocked -> BitsPerSecond bound = 0 -> within l bound ->
  Forall (fun r => Mode r = Blocked) l.
Proof.
  intros Hl Hm Hb [Hu|(Hn & Hs & _)]; [rewrite Hm in Hu; done|]. rewrite Hb in Hs. clear Hb Hm.
  induction Hl as [|r l Hr Hl IH]; constructor; destruct (sums_cons r l) as (E1 & _ & E3); rewrite E1 in Hs; rewrite E3 in Hn;
    pose proof (sums_bounds l Hl) as (B1 & _ & B3).
  - ok_cases Hr; cbn in *; [done|lia|lia].
  - apply IH; ok_cases Hr; cbn in *; lia.
Qed.

Lemma within_mono l l' bound : Forall ok_rate l -> Forall ok_rate l' -> Forall2 le_rate l' l -> within l bound -> within l' bound.
Proof.
  intros Hl Hl' H2. unfold within. intros [?|(Hn & Hb & Hu)]; [by left|]. right.
  assert (unlimiteds l' = 0 /\ sum_bits l' <= sum_bits l /\ sum_burst l' <= sum_burst l) as (? & ? & ?); [|lia].
  clear Hb Hu. revert Hl Hl' Hn. induction H2 as [|a b l' l Hab _ IH]; intros Hl Hl' Hn; [done|].
  apply Forall_cons in Hl as [Hb Hl]. apply Forall_cons in Hl' as [Ha Hl'].
  destruct (sums_cons a l') as (-> & -> & ->). destruct (sums_cons b l) as (-> & -> & E). rewrite E in Hn. clear E.
  pose proof (sums_bounds l Hl) as (_ & _ & Hp).
  assert (unlimiteds l = 0) as Hn0 by (destruct (Mode b =? Unlimited); lia). destruct (IH Hl Hl' Hn0) as (I1 & I2 & I3). rewrite I1.
  ok_cases Ha; ok_cases Hb; rates; lia.
Qed.

(** ** The totals are the sums *)

(** [s] holds the sums of [l] in its words. *)
Definition totals (s : rateTotals) (l : list Rate) : Prop :=
  bits s = sum_bits l mod 18446744073709551616 /\ high s = sum_bits l / 18446744073709551616 /\
  burst s = sum_burst l /\ unlimited s = unlimiteds l.

(** As many rates as an allocation accepts. *)
Definition few (l : list Rate) : Prop := Forall ok_rate l /\ Z.of_nat (length l) <= 32768.

Lemma few_bounds l : few l ->
  0 <= sum_bits l <= 295147905179352825856 /\ 0 <= sum_burst l <= 34359738368 /\ 0 <= unlimiteds l <= 32768.
Proof. intros [Hl Hn]. pose proof (sums_bounds l Hl). nia. Qed.

Lemma totals_nil : totals NoTotals [].
Proof. done. Qed.

Lemma totals_add_spec s l r : few (l ++ [r]) -> totals s l -> totals (totals_add s r) (l ++ [r]).
Proof.
  intros Hf (H1 & H2 & H3 & H4). pose proof (few_bounds _ Hf) as (B1 & B2 & B3). destruct Hf as [Hl _].
  apply Forall_app in Hl as [Hl Hr]. apply Forall_cons in Hr as [Hr _]. pose proof (sums_bounds l Hl) as (C1 & C2 & C3).
  destruct (sums_app l [r]) as (E1 & E2 & E3). unfold totals. rewrite E1, E2, E3 in *.
  change (sum_bits [r]) with (BitsPerSecond r + 0) in *. change (sum_burst [r]) with (BurstBytes r + 0) in *.
  change (unlimiteds [r]) with ((if (Mode r =? Unlimited)%Z then 1 else 0) + 0) in *. rewrite !Z.add_0_r in *.
  ok_cases Hr; unfold totals_add, bits_Add64, Blocked, Limited, Unlimited in *; cbn in *; rewrite ?Z.add_0_r.
  - done.
  - split_and!; try done. rewrite i64_small by machine. lia.
  - rewrite H1, H2, H3, H4. unfold add64. rewrite (u64_small x0) by machine. rewrite (u64_small (sum_burst l + x0)) by machine.
    rewrite (u64_small (_ / _ + _)).
    + unfold u64. split_and!; [by rewrite Z.add_mod_idemp_l by lia| |done|lia].
      Z.div_mod_to_equations. lia.
    + unfold is_u64, MaxUint64. Z.div_mod_to_equations. lia.
Qed.

Lemma totals_all l : few l -> totals (foldl totals_add NoTotals l) l.
Proof.
  intros [Hl Hn]. induction l as [|r l IH] using rev_ind; [apply totals_nil|].
  rewrite foldl_app. simpl. apply totals_add_spec; [by split|]. rewrite length_app in Hn. apply Forall_app in Hl as [Hl _].
  apply IH; [done|]. simpl in Hn. lia.
Qed.

(** Only the sums matter. *)
Lemma totals_perm s l k : l ≡ₚ k -> totals s l -> totals s k.
Proof.
  intros Hp. assert (forall f : Rate -> Z, sumZ (f <$> l) = sumZ (f <$> k)) as Hs.
  { intros f. induction Hp; csimpl in *; lia. }
  unfold totals, sum_bits, sum_burst, unlimiteds. by rewrite !Hs.
Qed.
Lemma few_perm l k : l ≡ₚ k -> few l -> few k.
Proof. intros Hp [Hl Hn]. split; [by rewrite <-Hp|by rewrite <-Hp]. Qed.
Lemma within_perm l k bound : l ≡ₚ k -> within l bound -> within k bound.
Proof.
  intros Hp. assert (forall f : Rate -> Z, sumZ (f <$> l) = sumZ (f <$> k)) as Hs.
  { intros f. induction Hp; csimpl in *; lia. }
  unfold within, sum_bits, sum_burst, unlimiteds. by rewrite !Hs.
Qed.

Lemma totals_remove_spec s l r : few (l ++ [r]) -> totals s (l ++ [r]) -> totals (totals_remove s r) l.
Proof.
  intros Hf (H1 & H2 & H3 & H4). pose proof (few_bounds _ Hf) as (B1 & B2 & B3). destruct Hf as [Hl _].
  apply Forall_app in Hl as [Hl Hr]. apply Forall_cons in Hr as [Hr _]. pose proof (sums_bounds l Hl) as (C1 & C2 & C3).
  destruct (sums_app l [r]) as (E1 & E2 & E3). rewrite E1, E2, E3 in *.
  change (sum_bits [r]) with (BitsPerSecond r + 0) in *. change (sum_burst [r]) with (BurstBytes r + 0) in *.
  change (unlimiteds [r]) with ((if (Mode r =? Unlimited)%Z then 1 else 0) + 0) in *. rewrite !Z.add_0_r in *.
  unfold totals. ok_cases Hr; unfold totals_remove, bits_Sub64, Blocked, Limited, Unlimited in *; cbn in *; rewrite ?Z.add_0_r in *.
  - done.
  - split_and!; try done. rewrite i64_small by machine. lia.
  - rewrite H1, H2, H3, H4. unfold sub64. rewrite (u64_small x0) by machine. rewrite (u64_small (sum_burst l + x0 - x0)) by machine.
    rewrite (u64_small (_ / _ - _)).
    + unfold u64. split_and!; [|destruct (Z.ltb_spec ((sum_bits l + x) mod 18446744073709551616) x); Z.div_mod_to_equations; lia|lia|lia].
      rewrite Zminus_mod_idemp_l. f_equal. lia.
    + unfold is_u64, MaxUint64. destruct (Z.ltb_spec ((sum_bits l + x) mod 18446744073709551616) x); Z.div_mod_to_equations; lia.
Qed.

Lemma totals_fits_spec s l bound : few l -> ok_rate bound -> totals s l -> totals_fits s bound = true <-> within l bound.
Proof.
  intros Hf Hb (H1 & H2 & H3 & H4). pose proof (few_bounds _ Hf) as (B1 & B2 & B3).
  unfold totals_fits, within. rewrite H1, H2, H3, H4. clear H1 H2 H3 H4.
  assert (forall b, 0 <= b <= 9007199254740992 ->
    (sum_bits l / 18446744073709551616 = 0 /\ sum_bits l mod 18446744073709551616 <= b <-> sum_bits l <= b)) as Hq
    by (intros b Hb'; Z.div_mod_to_equations; lia).
  ok_cases Hb; unfold Blocked, Limited, Unlimited; cbn [Mode BitsPerSecond BurstBytes]; autorewrite with guards; rewrite <-Hq by lia;
    rewrite u64_small by machine; try tauto; lia.
Qed.

Lemma fits_loop_spec bound l b u :
  Forall ok_rate l -> ok_rate bound -> Mode bound <> Unlimited -> 0 <= b -> 0 <= u ->
  b <= MaxUint64 -> u <= MaxUint64 ->
  fits_loop bound l b u = true <->
  (Mode bound = Blocked -> Forall (fun r => Mode r = Blocked) l) /\
  unlimiteds l = 0 /\ b + sum_bits l <= BitsPerSecond bound /\ u + sum_burst l <= BurstBytes bound.
Proof.
  intros Hl Hbound Hm.
  assert (u64 (BurstBytes bound) = BurstBytes bound /\ BitsPerSecond bound < MaxUint64 /\ BurstBytes bound < MaxUint64) as (Hu & Hlb & Hlu)
    by (ok_cases Hbound; cbn; (split; [apply u64_small|]); machine).
  clear Hbound.
  revert b u. induction Hl as [|r l Hr Hl IH]; intros b u Hb Hu0 Hsb Hsu.
  { simpl. rewrite Hu, andb_true_iff, !Z.leb_le. unfold sum_bits, sum_burst, unlimiteds. simpl. rewrite !Z.add_0_r.
    split; [intros [? ?]; split_and!; try done; intros; constructor|tauto]. }
  destruct (sums_cons r l) as (E1 & E2 & E3). rewrite E1, E2, E3, Forall_cons.
  pose proof (sums_bounds l Hl) as (B1 & B2 & B3). cbn [fits_loop].
  ok_cases Hr; unfold Blocked, Limited, Unlimited in *; cbn [Mode BitsPerSecond BurstBytes] in *; cbn [Z.eqb Pos.eqb orb].
  - rewrite IH by lia. split; intros; destruct_and?; split_and!; try done; try lia; tauto.
  - split; [done|]. intros (_ & Hx & _). lia.
  - destruct (Z.eqb_spec (Mode bound) 0) as [He|He]; cbn [orb].
    + split; [done|]. intros (Hx & _). destruct (Hx He) as [? _]. done.
    + rewrite (u64_small x0) by machine.
      destruct (Z.ltb_spec (MaxUint64 - b) x); [split; [done|lia]|].
      destruct (Z.ltb_spec (MaxUint64 - u) x0); [split; [done|lia]|]. cbn [orb].
      unfold add64. rewrite !u64_small by machine. rewrite IH by lia. split; intros; destruct_and?; split_and!; try done; try lia.
Qed.

(** The two ways to ask whether rates fit agree with the sums. *)
Lemma fits_within bound l : Forall ok_rate l -> ok_rate bound -> fitsRates bound l = true <-> within l bound.
Proof.
  intros Hl Hb. unfold fitsRates. destruct (Z.eqb_spec (Mode bound) Unlimited) as [Hu|Hu]; [unfold within; tauto|].
  rewrite fits_loop_spec by (done || (unfold MaxUint64; lia)). unfold within. rewrite !Z.add_0_l. split; [tauto|].
  intros Hw. split; [|tauto]. intros Hm. apply (within_blocked l bound); try done.
  ok_cases Hb; done.
Qed.
Lemma fitsRates_spec bound l : few l -> ok_rate bound -> fitsRates bound l = true <-> within l bound.
Proof. intros [Hl _]. by apply fits_within. Qed.
