(* ===== verification/RateTargets.v ===== *)
(** * Shared bandwidth: the targets and the loop that hands them out

    The first loop of [fairRateTargets] under each kind of bound, the shares it computes and
    what they add up to, every case of the targets, and the loop of [AllocateSharedRates]
    that decides what each participant is sent next. *)
From S2P Require Import Prelude Limits Authority Rates.
Open Scope Z_scope.
Open Scope list_scope.

(** ** What is sent next *)

(** What may be in force once the next rates are sent: the old rate or the new one. *)
Definition in_force (current next : list Rate) : list Rate := zip_with envelope current next.

Lemma next_rate_cases bound total p c t :
  ok_rate c -> ok_rate t ->
  next_rate bound total p c t = t /\ Frozen p = false /\
    totals_fits (totals_add (totals_remove total c) (envelope c t)) bound = true \/
  envelope c (next_rate bound total p c t) = c /\ ok_rate (next_rate bound total p c t).
Proof.
  intros Hc Ht. unfold next_rate. destruct (Frozen p).
  - right. split; [|done]. apply envelope_absorbs; [done|done|by apply le_rate_refl].
  - destruct (totals_fits _ bound); [by left|]. right. split; [|by apply lowerRate_ok].
    apply envelope_absorbs; [done|by apply lowerRate_ok|by apply lowerRate_below].
Qed.

Lemma totals_replace s D c R r :
  few (D ++ c :: R) -> ok_rate r -> totals s (D ++ c :: R) ->
  totals (totals_add (totals_remove s c) r) ((D ++ [r]) ++ R).
Proof.
  intros Hf Hr Hs. assert (D ++ c :: R ≡ₚ (D ++ R) ++ [c]) as Hp by solve_Permutation.
  assert (few ((D ++ R) ++ [r])) as Hf'.
  { apply (few_perm _ _ Hp) in Hf as [Hl Hn]. apply Forall_app in Hl as [Hl _]. split; [by apply Forall_app_2; [|constructor]|].
    by rewrite !length_app in *. }
  apply (totals_perm _ ((D ++ R) ++ [r])); [solve_Permutation|]. apply totals_add_spec; [done|].
  apply totals_remove_spec; [by apply (few_perm _ _ Hp)|by apply (totals_perm _ _ _ Hp)].
Qed.

Lemma few_replace D c R r : few (D ++ c :: R) -> ok_rate r -> few ((D ++ [r]) ++ R).
Proof.
  intros [Hl Hn] Hr. split.
  - apply Forall_app in Hl as [HD [Hc HR]%Forall_cons]. apply Forall_app_2; [|done]. apply Forall_app_2; [done|by constructor].
  - rewrite !length_app in *. simpl in *. lia.
Qed.

(** The current rate of an entry of the loop. *)
Definition cur_of (x : RateParticipant * (Rate * Rate)) : Rate := x.2.1.

(** The loop keeps its total right, and a fitting total fitting. *)
Lemma next_loop_spec bound l : forall D total,
  ok_rate bound -> Forall (fun x : RateParticipant * (Rate * Rate) => ok_rate x.2.2) l ->
  few (D ++ (cur_of <$> l)) -> totals total (D ++ (cur_of <$> l)) ->
  let current := cur_of <$> l in
  let next := next_loop bound total l in
  length next = length l /\ Forall ok_rate next /\
  (within (D ++ current) bound -> within (D ++ in_force current next) bound) /\
  (within (D ++ in_force current next) bound \/ in_force current next = current).
Proof.
  induction l as [|[p [c t]] l IH]; intros D total Hb Ht Hf Htot; cbv zeta; cbn [next_loop fmap list_fmap snd fst cur_of] in *.
  { split_and!; [done|constructor|done|by right]. }
  apply Forall_cons in Ht as [Ht Hts]. cbn [snd] in Ht.
  assert (ok_rate c) as Hc by (destruct Hf as [Hf _]; rewrite Forall_app, Forall_cons in Hf; tauto).
  set (n := next_rate bound total p c t).
  assert (ok_rate n /\ (within (D ++ c :: (cur_of <$> l)) bound -> within ((D ++ [envelope c n]) ++ (cur_of <$> l)) bound) /\
    (within ((D ++ [envelope c n]) ++ (cur_of <$> l)) bound \/ envelope c n = c)) as (Hn & Hkeep & Hcase).
  { destruct (next_rate_cases bound total p c t Hc Ht) as [(He & _ & Hfit)|[He Hn]]; fold n in He.
    - rewrite He. split; [done|]. apply (totals_fits_spec _ ((D ++ [envelope c t]) ++ (cur_of <$> l))) in Hfit;
        [auto|by eapply few_replace; [|apply envelope_ok]|done|by apply totals_replace; [..|apply envelope_ok|]].
    - fold n in Hn. rewrite He. split_and!; [done| |by right]. by rewrite <-app_assoc. }
  destruct (IH (D ++ [envelope c n]) (totals_add (totals_remove total c) (envelope c n))) as (I1 & I2 & I3 & I4);
    [done|done|by eapply few_replace; [|apply envelope_ok]|by apply totals_replace; [..|apply envelope_ok|]|].
  split_and!; [simpl; by rewrite I1|by constructor| |].
  - intros Hw. specialize (I3 (Hkeep Hw)). by rewrite <-app_assoc in I3.
  - destruct Hcase as [Hw|He].
    + left. specialize (I3 Hw). by rewrite <-app_assoc in I3.
    + unfold in_force in *. cbn [zip_with]. destruct I4 as [Hw|Heq].
      * left. by rewrite <-app_assoc in Hw.
      * right. by rewrite Heq, He.
Qed.

(** ** The targets *)

(** What the frozen participants keep, in place. *)
Definition frozen_rates (ps : list RateParticipant) (cs : list Rate) : list Rate :=
  zip_with (fun p c => if Frozen p then c else NoRate) ps cs.

(** The indices of the participants that are served, from [i] on. *)
Fixpoint served_from (i : nat) (ps : list RateParticipant) : list nat :=
  match ps with [] => [] | p :: rest => (if served p then [i] else []) ++ served_from (S i) rest end.

Lemma served_from_elem i ps j :
  j ∈ served_from i ps <-> (i <= j)%nat /\ exists p, ps !! (j - i)%nat = Some p /\ served p = true.
Proof.
  revert i. induction ps as [|p ps IH]; intros i; simpl.
  { split; [by intros ?%not_elem_of_nil|]. intros (_ & p & Hp & _). done. }
  rewrite elem_of_app, IH. split.
  - intros [Hj|(Hle & q & Hq & Hs)].
    + destruct (served p) eqn:Hs; [|by apply not_elem_of_nil in Hj]. apply list_elem_of_singleton in Hj as ->.
      split; [done|]. exists p. by rewrite Nat.sub_diag.
    + split; [lia|]. exists q. replace (j - i)%nat with (S (j - S i)) by lia. done.
  - intros (Hle & q & Hq & Hs). destruct (decide (j = i)) as [->|Hne].
    + left. rewrite Nat.sub_diag in Hq. simplify_eq/=. rewrite Hs. by left.
    + right. split; [lia|]. exists q. by replace (j - i)%nat with (S (j - S i)) in Hq by lia.
Qed.

Lemma served_from_nodup i ps : NoDup (served_from i ps).
Proof.
  revert i. induction ps as [|p ps IH]; intros i; simpl; [apply NoDup_nil_2|].
  destruct (served p); [|apply IH]. apply NoDup_cons. split; [|apply IH].
  intros [? _]%served_from_elem. lia.
Qed.

(** One participant of the first loop under a limited bound. *)
Lemma fair_step_spec bound f i p c :
  Mode bound = Limited -> ok_rate c -> 0 <= f_bits f <= MaxUint64 -> 0 <= f_burst f <= MaxUint64 ->
  let c' := if Frozen p then c else NoRate in
  exists f1, fair_step bound (f, i) (p, c) = (f1, S i) /\
  eligible f1 = eligible f ++ (if served p then [i] else []) /\
  (Mode c' <> Unlimited /\ BitsPerSecond c' <= f_bits f /\ BurstBytes c' <= f_burst f /\ insufficient f1 = insufficient f /\
   f_bits f1 = f_bits f - BitsPerSecond c' /\ f_burst f1 = f_burst f - BurstBytes c' \/
   (Mode c' = Unlimited \/ f_bits f < BitsPerSecond c' \/ f_burst f < BurstBytes c') /\ insufficient f1 = true /\
   f_bits f1 = f_bits f /\ f_burst f1 = f_burst f).
Proof.
  intros Hm Hc Hb Hu. cbv zeta. unfold fair_step, served. rewrite Hm. cbn [Z.eqb Pos.eqb negb andb Limited Unlimited].
  destruct (Frozen p); [rewrite andb_false_r|rewrite andb_true_r]; rewrite ?app_nil_r; eexists; (split; [reflexivity|]).
  - ok_cases Hc; cbn [Mode BitsPerSecond BurstBytes Blocked Limited Unlimited Z.eqb Pos.eqb negb andb orb] in *.
    + split; [done|]. left. split_and!; try done; lia.
    + split; [done|]. right. split_and!; try done. by left.
    + rewrite (u64_small x0) by machine.
      destruct (Z.ltb_spec (f_bits f) x); [|destruct (Z.ltb_spec (f_burst f) x0)]; cbn [orb eligible insufficient f_bits f_burst];
        (split; [done|]); [right; split_and!; auto..|].
      left. unfold sub64. rewrite !u64_small by machine. split_and!; try done.
  - cbn [NoRate Mode BitsPerSecond BurstBytes Blocked]. destruct (Eligible p); cbn [eligible insufficient f_bits f_burst];
      rewrite ?app_nil_r; (split; [done|]); left; split_and!; try done; lia.
Qed.

Lemma frozen_ok ps cs : Forall ok_rate cs -> Forall ok_rate (frozen_rates ps cs).
Proof.
  intros Hok. revert cs Hok. induction ps as [|q ps IH]; intros [|d cs] Hok; simpl; try constructor;
    apply Forall_cons in Hok as [Hd Hok]; [by destruct (Frozen q)|by apply IH].
Qed.

(** The first loop of [fairRateTargets] under a limited bound: who is served, whether the
    frozen rates fit, and what they leave. *)
Lemma fair_loop bound ps cs f i :
  Mode bound = Limited -> length ps = length cs -> Forall ok_rate cs -> 0 <= f_bits f <= MaxUint64 -> 0 <= f_burst f <= MaxUint64 ->
  let f' := (foldl (fair_step bound) (f, i) (zip ps cs)).1 in
  eligible f' = eligible f ++ served_from i ps /\
  (insufficient f' = false <->
   insufficient f = false /\ unlimiteds (frozen_rates ps cs) = 0 /\
   sum_bits (frozen_rates ps cs) <= f_bits f /\ sum_burst (frozen_rates ps cs) <= f_burst f) /\
  (insufficient f' = false -> f_bits f' = f_bits f - sum_bits (frozen_rates ps cs) /\
   f_burst f' = f_burst f - sum_burst (frozen_rates ps cs)).
Proof.
  intros Hm. cbv zeta. revert cs f i. induction ps as [|p ps IH]; intros [|c cs] f i Hlen Hok Hb Hu; try done.
  { change (frozen_rates [] []) with (@nil Rate). change (sum_bits []) with 0. change (sum_burst []) with 0.
    change (unlimiteds []) with 0. cbn [zip zip_with foldl fst served_from]. rewrite app_nil_r.
    split_and!; [done| |intros; lia]. split; [intros ->; split_and!; try done; lia|tauto]. }
  apply Forall_cons in Hok as [Hc Hok]. injection Hlen as Hlen.
  destruct (fair_step_spec bound f i p c Hm Hc Hb Hu) as (f1 & Hf1 & He & Hcase).
  change (zip (p :: ps) (c :: cs)) with ((p, c) :: zip ps cs). cbn [foldl]. rewrite Hf1.
  change (frozen_rates (p :: ps) (c :: cs)) with ((if Frozen p then c else NoRate) :: frozen_rates ps cs).
  set (c' := if Frozen p then c else NoRate) in *. destruct (sums_cons c' (frozen_rates ps cs)) as (-> & -> & ->).
  pose proof (sums_bounds _ (frozen_ok ps cs Hok)) as (B1 & B2 & B3).
  assert (ok_rate c') as Hc' by (unfold c'; by destruct (Frozen p)).
  assert (0 <= BitsPerSecond c' /\ 0 <= BurstBytes c') as [P1 P2] by (ok_cases Hc'; cbn; lia).
  destruct (IH cs f1 (S i) Hlen Hok) as (I1 & I2 & I3); [destruct Hcase; lia..|].
  split; [by rewrite I1, He, <-app_assoc|].
  destruct Hcase as [(Hu' & Hb1 & Hb2 & Ei & Eb & Eu)|(Hbad & Ei & Eb & Eu)]; rewrite Ei, Eb, Eu in *.
  - destruct (Z.eqb_spec (Mode c') Unlimited); [done|]. split; [|intros Hi; destruct (I3 Hi); lia].
    rewrite I2. split; intros (? & ? & ? & ?); split_and!; try done; lia.
  - split; [|intros Hi; by apply I2 in Hi as [? _]]. rewrite I2. split; [by intros [? _]|].
    intros (_ & Hn & Hx & Hy). exfalso. destruct Hbad as [Hbad|Hbad]; [rewrite Hbad in Hn; cbn in Hn; lia|lia].
Qed.

(** ** The shares *)

Definition minimum_at (ps : list RateParticipant) (i : nat) : Z :=
  match ps !! i with Some p => MinimumBurst p | None => 0 end.

Definition fair_minimum (p : RateParticipant) : Prop := 1 <= MinimumBurst p <= 1048576.

Lemma minimum_of_sum ps idx :
  Forall fair_minimum ps -> Z.of_nat (length idx) <= 32768 -> minimum_of ps idx = sumZ (minimum_at ps <$> idx).
Proof.
  intros Hps. assert (forall i, 0 <= minimum_at ps i <= 1048576) as Hm.
  { intros i. unfold minimum_at. destruct (ps !! i) as [p|] eqn:E; [|lia]. rewrite Forall_lookup in Hps. specialize (Hps i p E).
    unfold fair_minimum in Hps. lia. }
  assert (forall m, 0 <= m -> m + Z.of_nat (length idx) * 1048576 <= MaxUint64 ->
    foldl (fun m i => add64 m (u64 (match ps !! i with Some p => MinimumBurst p | None => 0 end))) m idx =
      m + sumZ (minimum_at ps <$> idx)) as Hgo.
  { induction idx as [|i idx IH]; intros m H0 Hb; [simpl; lia|]. cbn [foldl]. cbn [length] in Hb. rewrite Nat2Z.inj_succ in Hb.
    change (match ps !! i with Some p => MinimumBurst p | None => 0 end) with (minimum_at ps i). specialize (Hm i).
    rewrite (u64_small (minimum_at ps i)) by (unfold is_u64, MaxUint64; lia). rewrite add64_small by (unfold is_u64 in *; lia).
    rewrite IH by lia. rewrite fmap_cons. cbn [sumZ]. lia. }
  intros Hn. unfold minimum_of. rewrite Hgo; unfold MaxUint64; lia.
Qed.

Section Shares.
Context (ps : list RateParticipant) (L X n : Z).
Context (Hps : Forall fair_minimum ps) (Hn : 1 <= n) (HL : n <= L <= 9007199254740992) (HX : 0 <= X <= 1048576).

Definition spare (total rank : Z) : Z := total / n + (if rank <? total mod n then 1 else 0).

Lemma spare_bounds total rank : 0 <= total -> 0 <= rank -> 0 <= spare total rank <= total.
Proof.
  intros Ht Hr. unfold spare. pose proof (Z.div_mod total n) as Hd. pose proof (Z.mod_pos_bound total n) as Hm.
  assert (0 <= total / n) by (apply Z.div_pos; lia). destruct (Z.ltb_spec rank (total mod n)); nia.
Qed.

Lemma fair_share_spec rank i p :
  ps !! i = Some p -> 0 <= rank -> MinimumBurst p + X <= 1048576 ->
  fair_share ps L X n rank i = mkRate Limited (spare L rank) (MinimumBurst p + spare X rank) /\ ok_rate (fair_share ps L X n rank i).
Proof.
  intros Hp Hr Hb. rewrite Forall_lookup in Hps. pose proof (Hps i p Hp) as Hm. unfold fair_minimum in Hm.
  pose proof (spare_bounds L rank ltac:(lia) Hr) as SL. pose proof (spare_bounds X rank ltac:(lia) Hr) as SX.
  assert (1 <= spare L rank) as SL1.
  { unfold spare. assert (1 <= L / n) by (apply Z.div_le_lower_bound; lia). destruct (rank <? L mod n); lia. }
  assert (0 <= L / n /\ 0 <= X / n) as [D1 D2] by (split; apply Z.div_pos; lia).
  assert (fair_share ps L X n rank i = mkRate Limited (spare L rank) (MinimumBurst p + spare X rank)) as ->.
  { unfold fair_share. rewrite Hp. unfold spare in *. rewrite (u64_small (MinimumBurst p)) by machine.
    revert SL SX SL1. destruct (rank <? L mod n), (rank <? X mod n); intros SL SX SL1; rewrite ?Z.add_0_r in *;
      rewrite (add64_small (MinimumBurst p)) by machine; rewrite ?add64_small by machine; rewrite i64_small by machine; f_equal; lia. }
  split; [done|]. apply ok_rate_cases. right. right. eexists _, _. split; [reflexivity|]. lia.
Qed.

Lemma spare_sum total r k : 0 <= r ->
  sumZ ((fun j => spare total (r + Z.of_nat j)) <$> seq 0 k) =
  Z.of_nat k * (total / n) + Z.min (Z.of_nat k) (Z.max 0 (total mod n - r)).
Proof.
  intros Hr. induction k as [|k IH]; [simpl; lia|]. rewrite seq_S, fmap_app, sumZ_app, IH. unfold spare. cbn [fmap list_fmap sumZ].
  rewrite Nat.add_0_l, Nat2Z.inj_succ. destruct (Z.ltb_spec (r + Z.of_nat k) (total mod n)); lia.
Qed.

(** Everything is handed out. *)
Lemma spare_total total : sumZ ((fun j => spare total (Z.of_nat j)) <$> seq 0 (Z.to_nat n)) = total.
Proof.
  rewrite (spare_sum total 0 (Z.to_nat n) ltac:(lia) : sumZ ((fun j => spare total (Z.of_nat j)) <$> seq 0 (Z.to_nat n)) = _).
  pose proof (Z.div_mod total n) as Hd. pose proof (Z.mod_pos_bound total n) as Hm. rewrite Z2Nat.id by lia. lia.
Qed.
End Shares.

Lemma fair_assign_lookup ps L X n idx : forall r res, NoDup idx ->
  let out := fair_assign ps L X n r idx res in
  length out = length res /\
  (forall j i, idx !! j = Some i -> (i < length res)%nat -> out !! i = Some (fair_share ps L X n (r + Z.of_nat j) i)) /\
  (forall i, i ∉ idx -> out !! i = res !! i).
Proof.
  induction idx as [|i idx IH]; intros r res Hnd; cbn [fair_assign]; [done|]. apply NoDup_cons in Hnd as [Hni Hnd].
  destruct (IH (r + 1) (<[i := fair_share ps L X n r i]> res) Hnd) as (I1 & I2 & I3). rewrite length_insert in *.
  split_and!; [done| |].
  - intros [|j] i' Hj Hlt; simpl in Hj.
    + injection Hj as <-. rewrite I3, list_lookup_insert_eq, Z.add_0_r by done. done.
    + rewrite (I2 j i' Hj Hlt). by replace (r + 1 + Z.of_nat j) with (r + Z.of_nat (S j)) by lia.
  - intros i'. rewrite elem_of_cons. intros Hx. rewrite I3 by tauto. apply list_lookup_insert_ne. intros ->. tauto.
Qed.

Lemma sums_insert l i r : l !! i = Some NoRate ->
  sum_bits (<[i := r]> l) = sum_bits l + BitsPerSecond r /\ sum_burst (<[i := r]> l) = sum_burst l + BurstBytes r /\
  unlimiteds (<[i := r]> l) = unlimiteds l + (if Mode r =? Unlimited then 1 else 0).
Proof.
  revert i. induction l as [|x l IH]; intros [|i] Hi; try done; simpl in Hi.
  - injection Hi as ->. change (<[0%nat := r]> (NoRate :: l)) with (r :: l).
    destruct (sums_cons r l) as (-> & -> & ->). destruct (sums_cons NoRate l) as (-> & -> & ->). cbn. lia.
  - change (<[S i := r]> (x :: l)) with (x :: <[i := r]> l). destruct (IH i Hi) as (H1 & H2 & H3).
    destruct (sums_cons x (<[i := r]> l)) as (-> & -> & ->). destruct (sums_cons x l) as (-> & -> & ->). lia.
Qed.

Lemma seq_shift {A} (f : nat -> A) k : f <$> seq 0 (S k) = f O :: ((fun j => f (S j)) <$> seq 0 k).
Proof. cbn [seq fmap list_fmap]. f_equal. rewrite <-fmap_S_seq. by rewrite <-list_fmap_compose. Qed.

Lemma fair_assign_sums ps L X n idx : forall r res,
  Forall fair_minimum ps -> 1 <= n -> n <= L <= 9007199254740992 -> 0 <= X <= 1048576 -> 0 <= r -> NoDup idx ->
  (forall i, i ∈ idx -> res !! i = Some NoRate /\ exists p, ps !! i = Some p /\ MinimumBurst p + X <= 1048576) ->
  let out := fair_assign ps L X n r idx res in
  sum_bits out = sum_bits res + sumZ ((fun j => spare n L (r + Z.of_nat j)) <$> seq 0 (length idx)) /\
  sum_burst out = sum_burst res + sumZ (minimum_at ps <$> idx) + sumZ ((fun j => spare n X (r + Z.of_nat j)) <$> seq 0 (length idx)) /\
  unlimiteds out = unlimiteds res.
Proof.
  induction idx as [|i idx IH]; intros r res Hps Hn HL HX Hr Hnd Hi; cbn [fair_assign]; [simpl; lia|].
  apply NoDup_cons in Hnd as [Hni Hnd]. destruct (Hi i) as (Hz & p & Hp & Hb); [by left|].
  destruct (IH (r + 1) (<[i := fair_share ps L X n r i]> res)) as (I1 & I2 & I3); try done; [lia| |].
  { intros j Hj. rewrite list_lookup_insert_ne by (by intros ->). apply Hi. by right. }
  destruct (sums_insert res i (fair_share ps L X n r i) Hz) as (S1 & S2 & S3).
  destruct (fair_share_spec ps L X n Hps Hn HL HX r i p Hp Hr Hb) as [E _]. rewrite E in *. cbn [Mode BitsPerSecond BurstBytes] in *.
  rewrite I1, I2, I3, S1, S2, S3. cbn [length]. rewrite !seq_shift, fmap_cons. cbn [sumZ]. rewrite !Z.add_0_r.
  assert (forall t, (fun j => spare n t (r + Z.of_nat (S j))) <$> seq 0 (length idx) = (fun j => spare n t (r + 1 + Z.of_nat j)) <$> seq 0 (length idx)) as Heq.
  { intros t. apply list_fmap_ext. intros _ j _. f_equal. lia. }
  rewrite !Heq. unfold minimum_at at 2. rewrite Hp. unfold Limited, Unlimited. cbn. lia.
Qed.

(** The frozen rates sit where the participants served have none. *)
Lemma frozen_lookup ps cs i p c : ps !! i = Some p -> cs !! i = Some c ->
  frozen_rates ps cs !! i = Some (if Frozen p then c else NoRate).
Proof. intros Hp Hc. unfold frozen_rates. by rewrite lookup_zip_with, Hp, Hc. Qed.

Lemma frozen_length ps cs : length ps = length cs -> length (frozen_rates ps cs) = length ps.
Proof. intros Hl. unfold frozen_rates. rewrite length_zip_with. lia. Qed.

(** ** Every case of the targets *)

Lemma fair_loop_insufficient bound l f i : insufficient f = true -> insufficient (foldl (fair_step bound) (f, i) l).1 = true.
Proof.
  revert f i. induction l as [|[p c] l IH]; intros f i Hf; [done|]. cbn [foldl fair_step]. apply IH.
  repeat case_match; simpl; done.
Qed.

Lemma fair_loop_unlimited bound ps cs f i : Mode bound = Unlimited -> length ps = length cs ->
  let f' := (foldl (fair_step bound) (f, i) (zip ps cs)).1 in
  eligible f' = eligible f ++ served_from i ps /\ insufficient f' = insufficient f.
Proof.
  intros Hm. cbv zeta. revert cs f i. induction ps as [|p ps IH]; intros [|c cs] f i Hl; try done.
  { simpl. by rewrite app_nil_r. }
  injection Hl as Hl. change (zip (p :: ps) (c :: cs)) with ((p, c) :: zip ps cs). cbn [foldl fair_step]. rewrite Hm.
  cbn [Z.eqb Pos.eqb negb andb Unlimited served_from]. unfold served.
  destruct (Frozen p); [rewrite andb_false_r|rewrite andb_true_r; destruct (Eligible p)]; cbn [app].
  - exact (IH cs f (S i) Hl).
  - destruct (IH cs (mkFair (f_bits f) (f_burst f) (insufficient f) (eligible f ++ [i])) (S i) Hl) as [-> ->].
    cbn [eligible insufficient]. by rewrite <-app_assoc.
  - exact (IH cs f (S i) Hl).
Qed.

Lemma insert_all_lookup (r : Rate) idx res i :
  let out := foldl (fun l i => <[i := r]> l) res idx in
  length out = length res /\ out !! i = if bool_decide (i ∈ idx) then (fun _ => r) <$> res !! i else res !! i.
Proof.
  cbv zeta. revert res. induction idx as [|j idx IH]; intros res.
  { split; [done|]. by rewrite bool_decide_eq_false_2 by apply not_elem_of_nil. }
  cbn [foldl]. destruct (IH (<[j := r]> res)) as [I1 I2]. rewrite I2, length_insert in *. split; [done|].
  destruct (decide (j = i)) as [->|Hne].
  - rewrite (bool_decide_eq_true_2 (i ∈ i :: idx)) by (by left).
    destruct (decide (i < length res)%nat) as [Hlt|Hlt].
    + destruct (lookup_lt_is_Some_2 res i Hlt) as [x ->]. rewrite list_lookup_insert_eq by done. by case_bool_decide.
    + rewrite list_insert_ge by lia. rewrite lookup_ge_None_2 by lia. by case_bool_decide.
  - rewrite list_lookup_insert_ne by done. case_bool_decide as H1; case_bool_decide as H2; try done; rewrite elem_of_cons in H2; exfalso; naive_solver.
Qed.

Section Targets.
Context (bound : Rate) (ps : list RateParticipant) (cs : list Rate).
Context (Hbound : ok_rate bound) (Hlen : length ps = length cs) (Hcs : Forall ok_rate cs).
Context (Hps : Forall fair_minimum ps) (Hfew : Z.of_nat (length ps) <= 32768).

(** What the frozen leave of the bits, and of the burst once everyone served has its
    minimum. *)
Definition left_bits : Z := BitsPerSecond bound - sum_bits (frozen_rates ps cs).
Definition left_burst : Z := BurstBytes bound - sum_burst (frozen_rates ps cs) - sumZ (minimum_at ps <$> served_from 0 ps).
Definition served_count : Z := Z.of_nat (length (served_from 0 ps)).

(** There is someone to serve and enough to serve everyone. *)
Definition can_share : Prop :=
  Mode bound = Limited /\ unlimiteds (frozen_rates ps cs) = 0 /\ sum_burst (frozen_rates ps cs) <= BurstBytes bound /\
  1 <= served_count <= left_bits /\ 0 <= left_burst.

Lemma served_from_length i l : (length (served_from i l) <= length l)%nat.
Proof. revert i. induction l as [|p l IH]; intros i; simpl; [done|]. specialize (IH (S i)). destruct (served p); simpl; lia. Qed.

Lemma bound_words : u64 (BurstBytes bound) = BurstBytes bound /\ 0 <= BitsPerSecond bound <= 9007199254740992 /\ 0 <= BurstBytes bound <= 1048576.
Proof. clear -Hbound. ok_cases Hbound; cbn; (split; [apply u64_small|]); machine. Qed.

Lemma retained_cases :
  retainFeasibleRates bound ps cs (frozen_rates ps cs) = frozen_rates ps cs \/ within cs bound.
Proof.
  unfold retainFeasibleRates. destruct (fitsRates bound cs) eqn:Hf; [|by left]. right.
  apply fitsRates_spec in Hf; [done|split; [done|by rewrite <-Hlen]|done].
Qed.

Lemma minimums_pos : Forall (fun z => 0 <= z) (minimum_at ps <$> served_from 0 ps).
Proof.
  apply Forall_fmap, Forall_forall. intros i _. unfold compose, minimum_at. destruct (ps !! i) as [p|] eqn:E; [|lia].
  rewrite Forall_lookup in Hps. specialize (Hps i p E). unfold fair_minimum in Hps. lia.
Qed.
Lemma minimums_nonneg : 0 <= sumZ (minimum_at ps <$> served_from 0 ps).
Proof. apply sumZ_nonneg, minimums_pos. Qed.

Lemma targets_cases :
  ~ can_share /\
  (fairRateTargets bound ps cs = frozen_rates ps cs \/
   within cs bound /\ fairRateTargets bound ps cs = retainFeasibleRates bound ps cs (frozen_rates ps cs) \/
   Mode bound = Unlimited /\
     fairRateTargets bound ps cs = foldl (fun r i => <[i := mkRate Unlimited 0 0]> r) (frozen_rates ps cs) (served_from 0 ps)) \/
  can_share /\ fairRateTargets bound ps cs =
    fair_assign ps left_bits left_burst served_count 0 (served_from 0 ps) (frozen_rates ps cs).
Proof.
  unfold fairRateTargets. fold (frozen_rates ps cs).
  set (st := mkFair (BitsPerSecond bound) (u64 (BurstBytes bound)) (Mode bound =? Blocked) []).
  destruct (foldl (fair_step bound) (st, O) (zip ps cs)) as [f k] eqn:Hfold.
  destruct bound_words as (Hu & Hb & Hbu).
  destruct (Z.eqb_spec (Mode bound) Blocked) as [Hm|Hm].
  { pose proof (fair_loop_insufficient bound (zip ps cs) st O eq_refl) as Hi. rewrite Hfold in Hi. cbn [fst] in Hi.
    rewrite Hi, orb_true_r. left. split; [|by left]. intros [HL _]. by rewrite Hm in HL. }
  destruct (Z.eqb_spec (Mode bound) Unlimited) as [Hm'|Hm'].
  { destruct (fair_loop_unlimited bound ps cs st O Hm' Hlen) as [He Hi]. rewrite Hfold in He, Hi. cbn [fst st eligible insufficient app] in He, Hi.
    rewrite He, Hi, orb_false_r. left. split; [intros [HL _]; by rewrite Hm' in HL|]. case_bool_decide; [by left|]. right. by right. }
  assert (Mode bound = Limited) as HL by (clear -Hbound Hm Hm'; ok_cases Hbound; done).
  destruct (fair_loop bound ps cs st O HL Hlen Hcs) as (He & Hi & Hl);
    [cbn [st f_bits f_burst]; rewrite ?Hu; unfold MaxUint64; lia..|].
  rewrite Hfold in He, Hi, Hl. cbn [fst st f_bits f_burst eligible insufficient app] in He, Hi, Hl. rewrite Hu in Hi, Hl. rewrite He.
  case_bool_decide as Hnil; [left; split; [|by left]; intros (_ & _ & _ & Hc & _); unfold served_count in Hc; rewrite Hnil in Hc; simpl in Hc; lia|].
  pose proof (served_from_length 0 ps) as Hsl. pose proof (sums_bounds _ (frozen_ok ps cs Hcs)) as (B1 & B2 & _). pose proof minimums_nonneg as Hmin.
  unfold can_share, left_bits, left_burst in *. fold served_count.
  destruct (insufficient f); [left; split; [|by left]; intros (_ & ? & ? & ? & ?); destruct Hi as [_ Hi]; discriminate Hi; split_and!; done || lia|].
  destruct Hi as [Hi _]. destruct (Hi eq_refl) as (_ & Hun & Hsb & Hsu). destruct (Hl eq_refl) as [-> ->]. clear Hi Hl. cbn [orb].
  rewrite minimum_of_sum by (done || lia).
  assert (1 <= served_count) by (unfold served_count; destruct (served_from 0 ps); [done|simpl; lia]).
  destruct (Z.ltb_spec (BitsPerSecond bound - sum_bits (frozen_rates ps cs)) served_count) as [Hlt|Hge];
    [left; split; [lia|destruct retained_cases; auto]|].
  destruct (Z.ltb_spec (BurstBytes bound - sum_burst (frozen_rates ps cs)) (sumZ (minimum_at ps <$> served_from 0 ps))) as [Hlt'|Hge'];
    [left; split; [lia|destruct retained_cases; auto]|].
  right. split; [split_and!; done || lia|].
  unfold sub64. rewrite u64_small by (unfold is_u64, MaxUint64; lia). done.
Qed.

Lemma served_lookup i : i ∈ served_from 0 ps <-> exists p, ps !! i = Some p /\ served p = true.
Proof. rewrite served_from_elem, Nat.sub_0_r. split; [tauto|]. split; [lia|done]. Qed.

Lemma current_at i p : ps !! i = Some p -> exists c, cs !! i = Some c /\ ok_rate c.
Proof.
  intros Hp. apply lookup_lt_Some in Hp. rewrite Hlen in Hp. destruct (lookup_lt_is_Some_2 cs i Hp) as [c Hc].
  exists c. split; [done|]. rewrite Forall_lookup in Hcs. by apply (Hcs i).
Qed.

Lemma served_not_frozen p : served p = true -> Frozen p = false.
Proof. unfold served. by destruct (Eligible p), (Frozen p). Qed.

Lemma share_room : can_share ->
  served_count <= left_bits <= 9007199254740992 /\ 0 <= left_burst <= 1048576 /\ (forall i : nat, i ∈ served_from 0 ps -> frozen_rates ps cs !! i = Some NoRate /\ exists p, ps !! i = Some p /\ MinimumBurst p + left_burst <= 1048576).
Proof.
  intros (Hm & Hun & Hsu & Hn & Hb). destruct bound_words as (_ & Bb & Bu).
  pose proof (sums_bounds _ (frozen_ok ps cs Hcs)) as (B1 & B2 & _).
  pose proof minimums_pos as Hmin.
  pose proof (sumZ_nonneg _ Hmin). unfold left_bits, left_burst in *.
  split; [lia|]. split; [lia|]. intros i Hi. pose proof Hi as Hi'. apply served_lookup in Hi as (p & Hp & Hs).
  destruct (current_at i p Hp) as (c & Hc & _). split; [by rewrite (frozen_lookup _ _ _ _ _ Hp Hc), (served_not_frozen p Hs)|].
  exists p. split; [done|]. apply list_elem_of_split in Hi' as (l1 & l2 & El). rewrite El in *. rewrite fmap_app, fmap_cons, sumZ_app in *.
  apply Forall_app in Hmin as [M1 [_ M2]%Forall_cons]. pose proof (sumZ_nonneg _ M1). pose proof (sumZ_nonneg _ M2).
  cbn [sumZ] in *. replace (minimum_at ps i) with (MinimumBurst p) in * by (unfold minimum_at; by rewrite Hp). lia.
Qed.

(** The shares hand out everything that is left, and no more. *)
Lemma shares_sum : can_share ->
  sum_bits (fairRateTargets bound ps cs) = BitsPerSecond bound /\
  sum_burst (fairRateTargets bound ps cs) = BurstBytes bound /\
  unlimiteds (fairRateTargets bound ps cs) = 0.
Proof.
  intros Hs. destruct targets_cases as [[? _]|[_ ->]]; [done|]. destruct (share_room Hs) as (R1 & R2 & R3).
  pose proof Hs as (_ & Hun & _ & Hn & _).
  destruct (fair_assign_sums ps left_bits left_burst served_count (served_from 0 ps) 0 (frozen_rates ps cs)) as (-> & -> & ->);
    try done; try lia; [apply served_from_nodup|].
  assert (length (served_from 0 ps) = Z.to_nat served_count) as -> by (unfold served_count; by rewrite Nat2Z.id).
  rewrite (spare_total served_count ltac:(lia) left_bits : sumZ ((fun j => spare served_count left_bits (0 + Z.of_nat j)) <$> seq 0 (Z.to_nat served_count)) = left_bits).
  rewrite (spare_total served_count ltac:(lia) left_burst : sumZ ((fun j => spare served_count left_burst (0 + Z.of_nat j)) <$> seq 0 (Z.to_nat served_count)) = left_burst).
  unfold left_bits, left_burst. lia.
Qed.

Lemma retained_lookup i p c : fitsRates bound cs = true -> ps !! i = Some p -> cs !! i = Some c ->
  retainFeasibleRates bound ps cs (frozen_rates ps cs) !! i = Some (if served p || Frozen p then c else NoRate).
Proof.
  intros Hf Hp Hc. unfold retainFeasibleRates. rewrite Hf, lookup_zip_with, Hp. cbn [mbind option_bind].
  rewrite lookup_zip_with, Hc. cbn [mbind option_bind]. rewrite (frozen_lookup _ _ _ _ _ Hp Hc). cbn. by destruct (served p).
Qed.

(** What the target of each participant is, by case. *)
Lemma target_at i p c : ps !! i = Some p -> cs !! i = Some c ->
  exists t, fairRateTargets bound ps cs !! i = Some t /\ ok_rate t /\
  (served p = false -> t = if Frozen p then c else NoRate) /\
  (can_share -> served p = true ->
   exists rank, 0 <= rank /\ t = mkRate Limited (spare served_count left_bits rank) (MinimumBurst p + spare served_count left_burst rank)) /\
  (~ can_share -> within cs bound -> Mode bound <> Unlimited -> le_rate t c).
Proof.
  intros Hp Hc. assert (ok_rate c) as Hok by (rewrite Forall_lookup in Hcs; by apply (Hcs i)).
  assert (ok_rate (if Frozen p then c else NoRate)) as Hz by (by destruct (Frozen p)).
  assert (le_rate (if Frozen p then c else NoRate) c) as Hle by (destruct (Frozen p); [by apply le_rate_refl|right; by left]).
  pose proof (frozen_lookup ps cs i p c Hp Hc) as Hfz.
  destruct targets_cases as [[Hno [->|[[Hw ->]|[Hm ->]]]]|[Hs ->]].
  - eexists. split; [done|]. by split_and!.
  - assert (fitsRates bound cs = true) as Hf by (apply fitsRates_spec; [split; [done|by rewrite <-Hlen]|done..]).
    eexists. split; [by apply retained_lookup|]. destruct (served p); cbn [orb]; split_and!; try done. intros. by apply le_rate_refl.
  - destruct (insert_all_lookup (mkRate Unlimited 0 0) (served_from 0 ps) (frozen_rates ps cs) i) as [_ ->]. rewrite Hfz.
    case_bool_decide as Hi; eexists; (split; [done|]); split_and!; try done. intros Hsv. apply served_lookup in Hi as (q & Hq & Hsq). simplify_eq. congruence.
  - destruct (share_room Hs) as (R1 & R2 & R3). pose proof Hs as (_ & _ & _ & Hn & _).
    destruct (fair_assign_lookup ps left_bits left_burst served_count (served_from 0 ps) 0 (frozen_rates ps cs) (served_from_nodup _ _)) as (F1 & F2 & F3).
    destruct (served p) eqn:Hsv.
    + assert (i ∈ served_from 0 ps) as Hi by (apply served_lookup; eauto). destruct (R3 i Hi) as (_ & p' & Hp' & Hb). simplify_eq.
      apply list_elem_of_lookup in Hi as [j Hj].
      destruct (fair_share_spec ps left_bits left_burst served_count Hps ltac:(lia) R1 R2 (0 + Z.of_nat j) i p Hp ltac:(lia) Hb) as [Ef Hokf].
      eexists. split; [apply (F2 j i Hj); apply lookup_lt_Some in Hfz; done|]. split_and!; try done. intros _ _. exists (0 + Z.of_nat j). split; [lia|done].
    + eexists. rewrite F3; [split; [done|]; by split_and!|]. intros Hi. apply served_lookup in Hi as (q & Hq & Hsq). simplify_eq. congruence.
Qed.

Lemma targets_length : length (fairRateTargets bound ps cs) = length ps.
Proof.
  pose proof (frozen_length ps cs Hlen) as Hfl.
  destruct targets_cases as [[Hno [->|[[Hw ->]|[Hm ->]]]]|[Hs ->]]; [done| | |].
  - unfold retainFeasibleRates. case_match; [|done]. rewrite !length_zip_with. lia.
  - by destruct (insert_all_lookup (mkRate Unlimited 0 0) (served_from 0 ps) (frozen_rates ps cs) 0) as [-> _].
  - destruct (fair_assign_lookup ps left_bits left_burst served_count (served_from 0 ps) 0 (frozen_rates ps cs) (served_from_nodup _ _)) as (-> & _). done.
Qed.

Lemma targets_ok : Forall ok_rate (fairRateTargets bound ps cs).
Proof.
  apply Forall_lookup. intros i t Ht. pose proof (lookup_lt_Some _ _ _ Ht) as Hi. rewrite targets_length in Hi.
  destruct (lookup_lt_is_Some_2 ps i Hi) as [p Hp]. destruct (current_at i p Hp) as (c & Hc & _).
  destruct (target_at i p c Hp Hc) as (t' & Ht' & Hok & _). by simplify_eq.
Qed.

(** The targets stay within the bound when what is frozen does. *)
Lemma targets_within : within (frozen_rates ps cs) bound -> within (fairRateTargets bound ps cs) bound.
Proof.
  intros Hfz. destruct targets_cases as [[Hno [->|[[Hw _]|[Hm _]]]]|[Hs _]]; [done| |by left|].
  - destruct (decide (Mode bound = Unlimited)) as [?|Hm]; [by left|].
    apply (within_mono cs); [done|apply targets_ok| |done]. apply Forall2_same_length_lookup. split; [by rewrite targets_length|].
    intros i t c Ht Hc. pose proof (lookup_lt_Some _ _ _ Hc) as Hi. rewrite <-Hlen in Hi.
    destruct (lookup_lt_is_Some_2 ps i Hi) as [p Hp]. destruct (target_at i p c Hp Hc) as (t' & Ht' & _ & _ & _ & Hle). simplify_eq. by apply Hle.
  - destruct (shares_sum Hs) as (E1 & E2 & E3). right. lia.
Qed.
End Targets.

(** ** One direction of an allocation *)

Section Direction.
Context (bound : Rate) (ps : list RateParticipant) (cs : list Rate).
Context (Hbound : ok_rate bound) (Hlen : length ps = length cs) (Hcs : Forall ok_rate cs).
Context (Hps : Forall fair_minimum ps) (Hfew : Z.of_nat (length ps) <= 32768).

Definition next_rates (d : Z) : list Rate := (allocate_direction d bound ps cs).1.2.

Lemma cur_of_zip ts : length ts = length ps -> cur_of <$> zip ps (zip cs ts) = cs.
Proof.
  clear -Hlen. revert cs ts Hlen. induction ps as [|p l IH]; intros [|c cs] [|t ts] H1 H2; try done.
  injection H1 as H1. injection H2 as H2. cbn. f_equal. by apply IH.
Qed.

Lemma targets_of_zip ts : Forall ok_rate ts -> Forall (fun x : RateParticipant * (Rate * Rate) => ok_rate x.2.2) (zip ps (zip cs ts)).
Proof.
  clear -Hlen. revert cs ts Hlen. induction ps as [|p l IH]; intros [|c cs] [|t ts] H1 H2; try constructor; try done.
  - by apply Forall_cons in H2 as [? _].
  - apply IH; [by injection H1|by apply Forall_cons in H2 as [_ ?]].
Qed.

(** The rates sent next, and the total they may add up to while nodes catch up. *)
Lemma next_rates_spec d :
  length (next_rates d) = length ps /\ Forall ok_rate (next_rates d) /\
  (within cs bound -> within (in_force cs (next_rates d)) bound) /\
  (within (in_force cs (next_rates d)) bound \/ in_force cs (next_rates d) = cs).
Proof.
  pose proof (targets_length bound ps cs Hbound Hlen Hcs Hps Hfew) as HT. pose proof (targets_ok bound ps cs Hbound Hlen Hcs Hps Hfew) as HO.
  unfold next_rates, allocate_direction. cbn [fst snd].
  pose proof (cur_of_zip _ HT) as Hcur. assert (few cs) as Hf by (split; [done|by rewrite <-Hlen]).
  destruct (next_loop_spec bound (zip ps (zip cs (fairRateTargets bound ps cs))) [] (foldl totals_add NoTotals cs)) as (I1 & I2 & I3 & I4);
    [done|by apply targets_of_zip|by rewrite Hcur|rewrite Hcur; by apply totals_all|].
  rewrite Hcur in I3, I4. cbn [app] in I3, I4. split_and!; try done. rewrite I1, !length_zip_with, HT. lia.
Qed.
End Direction.

Lemma next_loop_settles bound l : forall D total,
  ok_rate bound -> Forall (fun x : RateParticipant * (Rate * Rate) => ok_rate x.2.2 /\ le_rate x.2.1 x.2.2 /\ (Frozen x.1 = true -> x.2.1 = x.2.2)) l ->
  few (D ++ (cur_of <$> l)) -> totals total (D ++ (cur_of <$> l)) ->
  within (D ++ ((fun x => x.2.2) <$> l)) bound ->
  next_loop bound total l = (fun x => x.2.2) <$> l.
Proof.
  induction l as [|[p [c t]] l IH]; intros D total Hb Hl Hf Htot Hw; [done|].
  cbn [next_loop fmap list_fmap snd fst cur_of] in *. fold (cur_of <$> l) in *.
  apply Forall_cons in Hl as [(Ht & Hle & Hfz) Hl]. cbn [snd fst] in *.
  assert (ok_rate c) as Hc by (destruct Hf as [Hf _]; rewrite Forall_app, Forall_cons in Hf; tauto).
  assert (envelope c t = t) as He by (by apply envelope_grows).
  pose proof (few_replace D c (cur_of <$> l) t Hf Ht) as Hf'. pose proof (totals_replace total D c (cur_of <$> l) t Hf Ht Htot) as Ht'.
  assert (next_rate bound total p c t = t) as Hn.
  { unfold next_rate. destruct (Frozen p); [by apply Hfz|]. rewrite He.
    replace (totals_fits _ bound) with true; [done|]. symmetry. apply (totals_fits_spec _ _ bound Hf' Hb Ht').
    revert Hw. rewrite <-app_assoc. cbn [app]. destruct Hf' as [Hf' _]. rewrite <-app_assoc in Hf'. cbn [app] in Hf'. apply within_mono; [|done|].
    - apply Forall_app in Hf' as [HD [_ HR]%Forall_cons]. apply Forall_app_2; [done|]. constructor; [done|]. apply Forall_fmap.
      eapply Forall_impl; [exact Hl|]. by intros x (? & _).
    - apply Forall_app in Hf' as [HD _]. apply Forall2_app; [|constructor; [by apply le_rate_refl|]].
      + clear -HD. induction HD; constructor; [by apply le_rate_refl|done].
      + clear -Hl. induction Hl as [|x l (? & ? & ?) _ IH]; cbn; constructor; done. }
  rewrite Hn, He. f_equal. apply (IH (D ++ [t])); try done. by rewrite <-app_assoc.
Qed.

Lemma next_loop_below bound l : forall total,
  Forall (fun x : RateParticipant * (Rate * Rate) => ok_rate x.2.1 /\ ok_rate x.2.2 /\ (Frozen x.1 = true -> x.2.1 = x.2.2)) l ->
  Forall2 (fun x n => le_rate n x.2.2 /\ (Frozen x.1 = true -> n = x.2.1)) l (next_loop bound total l).
Proof.
  induction l as [|[p [c t]] l IH]; intros total Hl; [constructor|]. apply Forall_cons in Hl as [(Hc & Ht & Hfz) Hl]. cbn [fst snd] in *.
  cbn [next_loop]. constructor; [|by apply IH]. cbn [fst snd]. unfold next_rate. destruct (Frozen p).
  - rewrite Hfz by done. split; [by apply le_rate_refl|done].
  - split; [|done]. case_match; [by apply le_rate_refl|by apply lowerRate_below].
Qed.
