(* ===== verification/RateTheorems.v ===== *)
(** * Shared bandwidth: what an allocation promises

    The rates an allocation hands out never oversubscribe a budget that held, in whatever
    order and subset the nodes apply them; the targets share the whole budget evenly; and
    two rounds that the nodes apply hand every target out. *)
From S2P Require Import Prelude Limits Authority Instances Rates RateTargets.
Open Scope Z_scope.
Open Scope list_scope.

(** One direction of a pair of rates. *)
Definition side (upload : bool) (r : Rates) : Rate := if upload then rUpload r else rDownload r.

(** The bits of both directions are [uint64]s. *)
Definition words (r : Rates) : Prop := forall d, is_u64 (BitsPerSecond (side d r)).

Lemma validated_sides r d : words r -> is_ok (Rates_validate r) = true -> ok_rate (side d r).
Proof.
  intros Hw. unfold Rates_validate, validate. cbn [Term Revision ExpiresUnixMilli QuotaUnlimited CreditCeiling Upload Download].
  rewrite bool_decide_eq_false_2 by done. cbn [Z.eqb Z.ltb orb Z.compare]. intros Hv. specialize (Hw d). unfold is_u64 in Hw.
  destruct (validate_rate (rUpload r)) as [[]|] eqn:E1; [|done]. cbn in Hv.
  destruct (validate_rate (rDownload r)) as [[]|] eqn:E2; [|done]. destruct d; split; done || cbn in *; lia.
Qed.

Section Allocation.
Context `{!UUIDs}.

Lemma checked_participants prev l : check_participants prev l = true -> Forall (fun p => words (Outstanding p)) l ->
  Forall fair_minimum l /\ Forall (fun p => forall d, ok_rate (side d (Outstanding p))) l.
Proof.
  revert prev. induction l as [|p l IH]; intros prev Hc Hw; [by split|]. cbn [check_participants] in Hc.
  rewrite !andb_true_iff, !negb_true_iff, !Z.ltb_ge in Hc. destruct Hc as (((((_ & Hv) & H1) & H2) & _) & Hc).
  apply Forall_cons in Hw as [Hp Hw]. destruct (IH _ Hc Hw) as [I1 I2].
  split; constructor; try done. intros d. by apply validated_sides.
Qed.

Lemma sides_ok l d : Forall (fun p => forall d, ok_rate (side d (Outstanding p))) l ->
  Forall ok_rate ((fun p => side d (Outstanding p)) <$> l).
Proof. intros Hl. apply Forall_fmap. eapply Forall_impl; [exact Hl|]. intros p Hp. apply Hp. Qed.

Lemma direction_lengths budget l d k : words budget -> is_ok (Rates_validate budget) = true ->
  Forall (fun p => forall d, ok_rate (side d (Outstanding p))) l -> Forall fair_minimum l -> Z.of_nat (length l) <= 32768 ->
  let r := allocate_direction k (side d budget) l ((fun p => side d (Outstanding p)) <$> l) in
  length r.1.1 = length l /\ length r.1.2 = length l.
Proof.
  intros Hw Hv Hok Hmin Hn. pose proof (validated_sides budget d Hw Hv) as Hb. pose proof (sides_ok l d Hok) as Hcs.
  assert (length l = length ((fun p => side d (Outstanding p)) <$> l)) as Hl by (by rewrite length_fmap).
  split; [by apply targets_length|]. by destruct (next_rates_spec (side d budget) l _ Hb Hl Hcs Hmin Hn k).
Qed.

Lemma zip_allocations l : forall tu nu td nd,
  length tu = length l -> length nu = length l -> length td = length l -> length nd = length l ->
  let out := zip_with (fun p '((tu, nu), (td, nd)) => mkAllocation (ID p) (mkRates tu td) (mkRates nu nd)) l (zip (zip tu nu) (zip td nd)) in
  length out = length l /\ (aID <$> out) = (ID <$> l) /\
  ((fun a => side true (Target a)) <$> out) = tu /\ ((fun a => side false (Target a)) <$> out) = td /\
  ((fun a => side true (Next a)) <$> out) = nu /\ ((fun a => side false (Next a)) <$> out) = nd.
Proof.
  induction l as [|p l IH]; intros [|a tu] [|b nu] [|c td] [|e nd] H1 H2 H3 H4; try done.
  injection H1 as H1. injection H2 as H2. injection H3 as H3. injection H4 as H4.
  destruct (IH tu nu td nd H1 H2 H3 H4) as (I1 & I2 & I3 & I4 & I5 & I6).
  cbn [zip zip_with fmap list_fmap length aID Target Next side rUpload rDownload]. split_and!; f_equal; done.
Qed.

(** What an accepted allocation holds, participant by participant. *)
Lemma allocation_shape budget ps allocs short :
  AllocateSharedRates budget ps = Ok (allocs, short) -> words budget -> Forall (fun p => words (Outstanding p)) ps ->
  let sorted := merge_sort id_le ps in
  Z.of_nat (length sorted) <= 32768 /\ Forall fair_minimum sorted /\
  forall d, let bound := side d budget in let cs := (fun p => side d (Outstanding p)) <$> sorted in
    ok_rate bound /\ Forall ok_rate cs /\ length allocs = length sorted /\ (aID <$> allocs) = (ID <$> sorted) /\
    ((fun a => side d (Target a)) <$> allocs) = fairRateTargets bound sorted cs /\
    ((fun a => side d (Next a)) <$> allocs) = next_rates bound sorted cs (if d then UploadDir else DownloadDir).
Proof.
  unfold AllocateSharedRates. intros Ha Hwb Hwp. cbv zeta.
  destruct (is_ok (Rates_validate budget)) eqn:Hv; cbn [negb orb] in Ha; [|done].
  destruct (Z.ltb_spec 32768 (Z.of_nat (length ps))) as [|Hn]; [done|].
  assert (Forall (fun p => words (Outstanding p)) (merge_sort id_le ps)) as Hws by (by rewrite merge_sort_Permutation).
  assert (Z.of_nat (length (merge_sort id_le ps)) <= 32768) as Hn' by (by rewrite merge_sort_Permutation).
  set (sorted := merge_sort id_le ps) in *.
  destruct (check_participants None sorted) eqn:Hc; cbn [negb] in Ha; [|done].
  destruct (checked_participants _ _ Hc Hws) as [Hmin Hok].
  destruct (allocate_direction UploadDir _ _ _) as [[tu nu] s0] eqn:Eu.
  destruct (allocate_direction DownloadDir _ _ _) as [[td nd] s1] eqn:Ed. injection Ha as <- <-.
  pose proof (direction_lengths budget sorted true UploadDir Hwb Hv Hok Hmin Hn') as [Lu Mu].
  pose proof (direction_lengths budget sorted false DownloadDir Hwb Hv Hok Hmin Hn') as [Ld Md].
  change (fun p => rUpload (Outstanding p)) with (fun p => side true (Outstanding p)) in Eu.
  change (fun p => rDownload (Outstanding p)) with (fun p => side false (Outstanding p)) in Ed.
  change (rUpload budget) with (side true budget) in Eu. change (rDownload budget) with (side false budget) in Ed.
  unfold next_rates in *. rewrite Eu in Lu, Mu. rewrite Ed in Ld, Md. cbn [fst snd] in *.
  assert (tu = fairRateTargets (side true budget) sorted ((fun p => side true (Outstanding p)) <$> sorted)) as Htu by (injection Eu; done).
  assert (td = fairRateTargets (side false budget) sorted ((fun p => side false (Outstanding p)) <$> sorted)) as Htd by (injection Ed; done).
  split_and!; [done..|]. intros d. split; [by apply validated_sides|]. split; [by apply sides_ok|].
  destruct (zip_allocations sorted tu nu td nd) as (Z1 & Z2 & Z3 & Z4 & Z5 & Z6); [done..|].
  split; [done|]. split; [done|]. destruct d; [rewrite Eu|rewrite Ed]; cbn [fst snd]; (split; [congruence|done]).
Qed.

Lemma applied_below cs ns applied : Forall ok_rate cs -> Forall ok_rate ns ->
  Forall3 (fun c n r => r = c \/ r = n) cs ns applied -> Forall ok_rate applied /\ Forall2 le_rate applied (in_force cs ns).
Proof.
  intros Hc Hn H3. induction H3 as [|c n r cs ns rs Hr H3 IH]; [by split|].
  apply Forall_cons in Hc as [Hc Hcs]. apply Forall_cons in Hn as [Hn Hns]. destruct (IH Hcs Hns) as [I1 I2].
  unfold in_force in *. cbn [zip_with]. split; constructor; try done; destruct Hr as [-> | ->]; auto using envelope_l, envelope_r.
Qed.

Lemma in_force_ok cs ns : Forall ok_rate cs -> Forall ok_rate ns -> Forall ok_rate (in_force cs ns).
Proof.
  intros Hc. revert ns. induction Hc as [|c cs Hc _ IH]; intros [|n ns] Hn; unfold in_force; cbn [zip_with]; try constructor;
    apply Forall_cons in Hn as [Hn Hns]; [by apply envelope_ok|by apply IH].
Qed.

Lemma in_force_same cs ns : Forall ok_rate cs -> Forall ok_rate ns -> length ns = length cs -> in_force cs ns = cs -> Forall2 le_rate ns cs.
Proof.
  intros Hc. revert ns. induction Hc as [|c cs Hc Hcs IH]; intros [|n ns] Hn Hl He; try done.
  apply Forall_cons in Hn as [Hn Hns]. injection Hl as Hl. unfold in_force in He. cbn [zip_with] in He. injection He as He1 He2.
  constructor; [|by apply IH]. rewrite <-He1. by apply envelope_r.
Qed.

(** C28: An accepted allocation answers every participant, in the order of their ids, and
    never oversubscribes: while some nodes still apply the rate they had and others
    already the next one, in any mix, what is in force stays within the budget of the
    direction if what was outstanding did; and if it did not, either the mix fits again
    or no rate of the direction was raised. *)
Theorem shared_rates_never_oversubscribe budget ps allocs short d applied :
  AllocateSharedRates budget ps = Ok (allocs, short) -> words budget -> Forall (fun p => words (Outstanding p)) ps ->
  let current := (fun p => side d (Outstanding p)) <$> merge_sort id_le ps in
  let next := (fun a => side d (Next a)) <$> allocs in
  Forall3 (fun c n r => r = c \/ r = n) current next applied ->
  (aID <$> allocs) = (ID <$> merge_sort id_le ps) /\
  (within current (side d budget) -> within applied (side d budget)) /\
  (within applied (side d budget) \/ Forall2 le_rate next current).
Proof.
  intros Ha Hwb Hwp. cbv zeta. destruct (allocation_shape _ _ _ _ Ha Hwb Hwp) as (Hn & Hmin & Hd). specialize (Hd d) as (Hb & Hcs & Hl & Hid & _ & Hnx).
  cbv zeta in *. set (sorted := merge_sort id_le ps) in *. set (cs := (fun p => side d (Outstanding p)) <$> sorted) in *.
  rewrite Hnx. intros H3. split; [done|].
  assert (length sorted = length cs) as Hlen by (unfold cs; by rewrite length_fmap).
  destruct (next_rates_spec (side d budget) sorted cs Hb Hlen Hcs Hmin Hn (if d then UploadDir else DownloadDir)) as (N1 & N2 & N3 & N4).
  set (ns := next_rates _ _ _ _) in *. destruct (applied_below cs ns applied Hcs N2 H3) as [A1 A2].
  pose proof (in_force_ok cs ns Hcs N2) as Hf.
  split; [intros Hw; apply (within_mono (in_force cs ns)); auto|].
  destruct N4 as [Hw|He]; [left; by apply (within_mono (in_force cs ns))|right]. apply in_force_same; try done. by rewrite N1.
Qed.
End Allocation.

(** ** The shares *)

Lemma spare_even n total r s : Z.abs (spare n total r - spare n total s) <= 1.
Proof. unfold spare. destruct (r <? total mod n), (s <? total mod n); lia. Qed.

Lemma spare_nonneg n total r : 1 <= n -> 0 <= total -> 0 <= spare n total r.
Proof. intros Hn Ht. unfold spare. assert (0 <= total / n) by (apply Z.div_pos; lia). destruct (r <? total mod n); lia. Qed.

(** C29: When a limited bound leaves every participant served at least a bit per second
    and its minimum burst, the targets of a direction hand out the bound exactly: bits
    and burst add up to it; whoever is frozen keeps its rate and whoever is not eligible
    gets none; and any two participants served differ by at most one bit per second, and
    by at most one byte above their minimum bursts, which everyone gets. *)
Theorem shares_are_exact_and_even k bound ps cs T N short :
  ok_rate bound -> length ps = length cs -> Forall ok_rate cs -> Forall fair_minimum ps -> Z.of_nat (length ps) <= 32768 ->
  can_share bound ps cs -> allocate_direction k bound ps cs = (T, N, short) ->
  sum_bits T = BitsPerSecond bound /\ sum_burst T = BurstBytes bound /\
  (forall i p c, ps !! i = Some p -> cs !! i = Some c -> served p = false -> T !! i = Some (if Frozen p then c else NoRate)) /\
  (forall i j p q, ps !! i = Some p -> ps !! j = Some q -> served p = true -> served q = true ->
    exists t u, T !! i = Some t /\ T !! j = Some u /\ ok_rate t /\ Mode t = Limited /\ MinimumBurst p <= BurstBytes t /\
      Z.abs (BitsPerSecond t - BitsPerSecond u) <= 1 /\
      Z.abs ((BurstBytes t - MinimumBurst p) - (BurstBytes u - MinimumBurst q)) <= 1).
Proof.
  intros Hb Hl Hc Hm Hn Hs Hk. assert (T = fairRateTargets bound ps cs) as -> by (injection Hk; done). clear Hk.
  destruct (shares_sum bound ps cs Hb Hl Hc Hm Hn Hs) as (E1 & E2 & _). split_and!; [done|done| |].
  - intros i p c Hp Hci Hsv. destruct (target_at bound ps cs Hb Hl Hc Hm Hn i p c Hp Hci) as (t & -> & _ & Ht & _). by rewrite Ht.
  - intros i j p q Hp Hq Hsp Hsq. destruct (current_at ps cs Hl Hc i p Hp) as (c & Hci & _). destruct (current_at ps cs Hl Hc j q Hq) as (e & Hej & _).
    destruct (target_at bound ps cs Hb Hl Hc Hm Hn i p c Hp Hci) as (t & Ht & Hok & _ & Hst & _).
    destruct (target_at bound ps cs Hb Hl Hc Hm Hn j q e Hq Hej) as (u & Hu & _ & _ & Hsu & _).
    destruct (Hst Hs Hsp) as (r & Hr & Et). destruct (Hsu Hs Hsq) as (r' & Hr' & Eu). exists t, u. split_and!; [done..| | | |].
    + by rewrite Et.
    + rewrite Et. cbn [BurstBytes]. destruct Hs as (_ & _ & _ & Hcount & Hburst). pose proof (spare_nonneg (served_count ps) _ r (proj1 Hcount) Hburst). lia.
    + rewrite Et, Eu. apply spare_even.
    + rewrite Et, Eu. cbn [BurstBytes]. pose proof (spare_even (served_count ps) (left_burst bound ps cs) r r'). lia.
Qed.

(** ** Two rounds *)

Lemma zip3_lookup (ps : list RateParticipant) (cs ts : list Rate) i x :
  zip ps (zip cs ts) !! i = Some x <-> ps !! i = Some x.1 /\ cs !! i = Some x.2.1 /\ ts !! i = Some x.2.2.
Proof.
  destruct x as [p [c t]]. rewrite lookup_zip_with, lookup_zip_with. cbn [fst snd].
  destruct (ps !! i), (cs !! i), (ts !! i); cbn; naive_solver.
Qed.

Lemma targets_of_zip3 (ps : list RateParticipant) (cs ts : list Rate) :
  length ps = length cs -> length ts = length ps -> (fun x => x.2.2) <$> zip ps (zip cs ts) = ts.
Proof.
  revert cs ts. induction ps as [|p l IH]; intros [|c cs] [|t ts] H1 H2; try done.
  injection H1 as H1. injection H2 as H2. cbn. f_equal. by apply IH.
Qed.

(** What a round sends is at most the target, and what is frozen stays. *)
Lemma round_below k bound ps cs i p c t n :
  ok_rate bound -> length ps = length cs -> Forall ok_rate cs -> Forall fair_minimum ps -> Z.of_nat (length ps) <= 32768 ->
  ps !! i = Some p -> cs !! i = Some c -> fairRateTargets bound ps cs !! i = Some t -> next_rates bound ps cs k !! i = Some n ->
  le_rate n t /\ (Frozen p = true -> n = c /\ c = t).
Proof.
  intros Hb Hl Hc Hm Hn Hp Hci Ht Hni. unfold next_rates, allocate_direction in Hni. cbn [fst snd] in Hni.
  pose proof (targets_ok bound ps cs Hb Hl Hc Hm Hn) as OT. set (T := fairRateTargets bound ps cs) in *.
  assert (forall j q d u, ps !! j = Some q -> cs !! j = Some d -> T !! j = Some u -> Frozen q = true -> d = u) as Hfz.
  { intros j q d u Hq Hd Hu Hf. destruct (target_at bound ps cs Hb Hl Hc Hm Hn j q d Hq Hd) as (u' & Hu' & _ & Hz & _).
    unfold T in Hu. rewrite Hu in Hu'. injection Hu' as <-. rewrite Hz; [by rewrite Hf|]. unfold served. by rewrite Hf, andb_false_r. }
  pose proof (next_loop_below bound (zip ps (zip cs T)) (foldl totals_add NoTotals cs)) as Hbelow. rewrite Forall2_lookup in Hbelow.
  assert (zip ps (zip cs T) !! i = Some (p, (c, t))) as Hz by (by apply zip3_lookup).
  assert (Forall (fun x : RateParticipant * (Rate * Rate) => ok_rate x.2.1 /\ ok_rate x.2.2 /\ (Frozen x.1 = true -> x.2.1 = x.2.2)) (zip ps (zip cs T))) as Hall.
  { apply Forall_lookup. intros j x (H1 & H2 & H3)%zip3_lookup. rewrite Forall_lookup in Hc, OT. split_and!; eauto. }
  specialize (Hbelow Hall i). rewrite Hz, Hni in Hbelow. inversion Hbelow as [? ? [Hle Hfr] E1 E2|]; subst. cbn [fst snd] in *. split; [done|].
  intros Hf. split; [by apply Hfr|eauto].
Qed.

(** C30: When there is enough to share, two rounds settle: once every node applies what the
    first round sent it, the second round computes the same targets and sends exactly
    them, whatever was outstanding at first. *)
Theorem two_rounds_settle k bound ps cs T N short :
  ok_rate bound -> length ps = length cs -> Forall ok_rate cs -> Forall fair_minimum ps -> Z.of_nat (length ps) <= 32768 ->
  can_share bound ps cs -> allocate_direction k bound ps cs = (T, N, short) ->
  exists short', allocate_direction k bound ps N = (T, T, short').
Proof.
  intros Hb Hl Hc Hm Hn Hs Hk.
  assert (T = fairRateTargets bound ps cs) as ET by (injection Hk; done).
  assert (N = next_rates bound ps cs k) as EN by (unfold next_rates; by rewrite Hk).
  destruct (next_rates_spec bound ps cs Hb Hl Hc Hm Hn k) as (N1 & N2 & _). rewrite <-EN in N1, N2.
  pose proof (targets_length bound ps cs Hb Hl Hc Hm Hn) as LT. pose proof (targets_ok bound ps cs Hb Hl Hc Hm Hn) as OT.
  assert (length ps = length N) as Hl' by done.
  assert (forall i p t n, ps !! i = Some p -> T !! i = Some t -> N !! i = Some n ->
    exists c, cs !! i = Some c /\ ok_rate t /\ le_rate n t /\ (Frozen p = true -> n = c /\ c = t)) as Hround.
  { intros i p t n Hp Ht Hni. destruct (current_at ps cs Hl Hc i p Hp) as (c & Hci & _). exists c. subst T N.
    rewrite Forall_lookup in OT. destruct (round_below k bound ps cs i p c t n Hb Hl Hc Hm Hn Hp Hci Ht Hni). eauto. }
  assert (frozen_rates ps N = frozen_rates ps cs) as Hfz.
  { apply list_eq_same_length with (length ps); [by rewrite frozen_length|by rewrite frozen_length|].
    intros i x y Hi Hx Hy. destruct (lookup_lt_is_Some_2 ps i ltac:(lia)) as [p Hp]. destruct (lookup_lt_is_Some_2 N i ltac:(lia)) as [n Hni].
    destruct (lookup_lt_is_Some_2 T i ltac:(rewrite ET; lia)) as [t Ht]. destruct (Hround i p t n Hp Ht Hni) as (c & Hci & _ & _ & Hf).
    rewrite (frozen_lookup _ _ _ _ _ Hp Hni) in Hx. rewrite (frozen_lookup _ _ _ _ _ Hp Hci) in Hy.
    destruct (Frozen p); [|congruence]. destruct (Hf eq_refl). congruence. }
  assert (fairRateTargets bound ps N = T) as ET'.
  { destruct (targets_cases bound ps cs Hb Hl Hc Hm Hn) as [[? _]|[_ E1]]; [done|].
    destruct (targets_cases bound ps N Hb Hl' N2 Hm Hn) as [[Hno _]|[_ E2]].
    - exfalso. apply Hno. unfold can_share, left_bits, left_burst in *. by rewrite Hfz.
    - rewrite ET, E1, E2. unfold left_bits, left_burst. by rewrite Hfz. }
  unfold allocate_direction. rewrite ET'. eexists. f_equal. f_equal. rewrite <-ET in LT, OT.
  rewrite (next_loop_settles bound (zip ps (zip N T)) [] (foldl totals_add NoTotals N)); [by apply targets_of_zip3|done| | | |].
  - apply Forall_lookup. intros i x (H1 & H2 & H3)%zip3_lookup. destruct (Hround _ _ _ _ H1 H3 H2) as (c & _ & Hok & Hle & Hf).
    split_and!; [done|done|]. intros Hx. destruct (Hf Hx). congruence.
  - cbn [app]. rewrite cur_of_zip by done. split; [done|by rewrite <-Hl'].
  - cbn [app]. rewrite cur_of_zip by done. apply totals_all. split; [done|by rewrite <-Hl'].
  - cbn [app]. rewrite targets_of_zip3 by done. destruct (shares_sum bound ps cs Hb Hl Hc Hm Hn Hs) as (E1 & E2 & E3). rewrite ET. right. lia.
Qed.

(** ** A shared budget *)
Module SampleRates.
Definition budget : Rates := mkRates (mkRate Limited 1000 100) (mkRate Unlimited 0 0).
Definition holds (b u : Z) : Rates := mkRates (mkRate Limited b u) NoRate.
(** One node holds most of the budget, one is frozen, one is new. *)
Definition participants : list RateParticipant :=
  [mkParticipant Sample.term_id NoRates true false 10;
   mkParticipant Sample.client_id (holds 300 40) true true 10;
   mkParticipant Sample.grant_id (holds 600 50) true false 10].
Definition sorted : list RateParticipant := merge_sort id_le participants.
Definition current : list Rate := (fun p => side true (Outstanding p)) <$> sorted.
Definition answer : list RateAllocation * list RateCapacityError :=
  match AllocateSharedRates budget participants with Ok r => r | Fail _ => ([], []) end.
Definition bound : Rate := rUpload budget.
End SampleRates.

Lemma shared_rates_never_oversubscribe_witness :
  within [mkRate Limited 350 30; mkRate Limited 300 40; NoRate] (side true SampleRates.budget).
Proof.
  apply (shared_rates_never_oversubscribe SampleRates.budget SampleRates.participants SampleRates.answer.1 SampleRates.answer.2 true).
  - vm_compute. reflexivity.
  - intros []; vm_compute; split; congruence.
  - unfold SampleRates.participants. rewrite !Forall_cons. split_and!; [..|by apply Forall_nil]; intros []; vm_compute; split; congruence.
  - vm_compute. repeat (apply Forall3_cons; [auto|]). apply Forall3_nil.
  - right. vm_compute. repeat split; congruence.
Defined.

(** The second and third theorems on the same participants. *)
Lemma sample_rates_ok : ok_rate SampleRates.bound /\ length SampleRates.sorted = length SampleRates.current /\
  Forall ok_rate SampleRates.current /\ Forall fair_minimum SampleRates.sorted /\ Z.of_nat (length SampleRates.sorted) <= 32768 /\
  can_share SampleRates.bound SampleRates.sorted SampleRates.current.
Proof.
  split; [by vm_compute|]. split; [done|]. split; [|split; [|split; [by vm_compute|by vm_compute]]].
  - apply Forall_forall. intros x Hx. vm_compute in Hx. repeat (apply elem_of_cons in Hx as [->|Hx]; [by vm_compute|]). by apply not_elem_of_nil in Hx.
  - apply Forall_forall. intros x Hx. vm_compute in Hx. repeat (apply elem_of_cons in Hx as [->|Hx]; [by vm_compute|]). by apply not_elem_of_nil in Hx.
Qed.

Lemma shares_are_exact_and_even_witness :
  sum_bits [mkRate Limited 350 30; mkRate Limited 300 40; mkRate Limited 350 30] = 1000.
Proof.
  destruct sample_rates_ok as (H1 & H2 & H3 & H4 & H5 & H6).
  apply (shares_are_exact_and_even UploadDir SampleRates.bound SampleRates.sorted SampleRates.current
    [mkRate Limited 350 30; mkRate Limited 300 40; mkRate Limited 350 30] [mkRate Limited 350 30; mkRate Limited 300 40; NoRate] []);
    done || by vm_compute.
Defined.

Lemma two_rounds_settle_witness :
  exists short', allocate_direction UploadDir SampleRates.bound SampleRates.sorted [mkRate Limited 350 30; mkRate Limited 300 40; NoRate] =
    ([mkRate Limited 350 30; mkRate Limited 300 40; mkRate Limited 350 30], [mkRate Limited 350 30; mkRate Limited 300 40; mkRate Limited 350 30], short').
Proof.
  destruct sample_rates_ok as (H1 & H2 & H3 & H4 & H5 & H6).
  apply (two_rounds_settle UploadDir SampleRates.bound SampleRates.sorted SampleRates.current
    [mkRate Limited 350 30; mkRate Limited 300 40; mkRate Limited 350 30] [mkRate Limited 350 30; mkRate Limited 300 40; NoRate] []);
    done || by vm_compute.
Defined.
