(* ===== verification/AuthorityWire.v ===== *)
(** * Messages about authority: the rest of internal/node/authority

    Registrations of journals, requests and batches of credit, reports, and updates of a
    grant's authority, with the checks both ends make.  Protobuf messages are records and
    a nil element of a list is [None]; the scope six messages share is one record. *)
From S2P Require Import Prelude Limits Authority.
Open Scope Z_scope.
Open Scope list_scope.

(** node, installation, agent journal, runtime and its two journals *)
Record RuntimeScope := mkScope {
  NodeId : string; InstallationId : string; AgentStateJournalId : string; RuntimeId : string; StateJournalId : string; CreditJournalId : string }.
#[global] Instance RuntimeScope_eq_dec : EqDecision RuntimeScope.
Proof. solve_decision. Defined.

(** [nodev1.CreditDeliveryRequest] is its scope. *)
Record CreditUpdate := mkWireCredit { wGrantId : string; wClientId : string; wTermId : string; wCreditRevision : Z; wCreditCeiling : Z }.
Record CreditUpdateBatch := mkCreditBatch { cbScope : RuntimeScope; BaseConfigurationRevision : Z; Updates : list (option CreditUpdate) }.

Record RuntimeJournalIdentity := mkIdentity { riRuntimeId : string; riCoreId : string; riStateJournalId : string; riCreditJournalId : string }.
Record JournalRegistration := mkRegistration {
  jrNodeId : string; jrInstallationId : string; jrAgentStateJournalId : string; jrRuntimes : list (option RuntimeJournalIdentity) }.

Record AuthorityReport := mkReport {
  arScope : RuntimeScope; arSequence : Z; arObservedUnixMilli : Z; RuntimeReady : bool; arGrants : list (option GrantAuthority) }.

Record AuthorityRate := mkAuthorityRate { aMode : Z; aBitsPerSecond : Z; aBurstBytes : Z }.
Record AuthorityUpdate := mkAuthorityUpdate {
  auGrantId : string; auClientId : string; auTermId : string; auAuthorityRevision : Z; auCreditRevision : Z; auCreditCeiling : Z;
  auQuotaUnlimited : bool; auEnabled : bool; auExpiresUnixMilli : Z; auUpload : option AuthorityRate; auDownload : option AuthorityRate;
  auCredentialGeneration : Z; auPlacementId : string; auPlacementRevision : Z; auDescriptorSha256 : string }.
Record AuthorityDeliveryRequest := mkAuthorityRequest { adScope : RuntimeScope; adBase : Z; BasePayloadSha256 : string }.
Record AuthorityUpdateBatch := mkAuthorityBatch { abRequest : AuthorityDeliveryRequest; abUpdates : list (option AuthorityUpdate) }.

(** SHA-256 of deterministic encodings; encoding may fail. *)
Class WireDigests := {
  registration_digest : JournalRegistration -> result string;
  credit_batch_digest : CreditUpdateBatch -> result string;
  report_encoding : AuthorityReport -> result (Z * string) }.

Section Wire.
Context `{!UUIDs}.

(** ** Journals *)

Definition ValidRuntime (journal : option RuntimeJournalIdentity) : bool :=
  match journal with
  | None => false
  | Some j => runtimeName (riRuntimeId j) && runtimeName (riCoreId j) && ValidID (riStateJournalId j) && ValidID (riCreditJournalId j) &&
              negb (bool_decide (riStateJournalId j = riCreditJournalId j))
  end.

(** The loop over the runtimes, with its two sets. *)
Fixpoint registration_ok (seen names : gset string) (l : list (option RuntimeJournalIdentity)) : bool :=
  match l with
  | [] => true
  | r :: rest =>
      match r with
      | None => false
      | Some j =>
          ValidRuntime r && negb (bool_decide (riRuntimeId j ∈ names)) && negb (bool_decide (riStateJournalId j ∈ seen)) &&
          negb (bool_decide (riCreditJournalId j ∈ seen)) &&
          registration_ok ({[riStateJournalId j; riCreditJournalId j]} ∪ seen) ({[riRuntimeId j]} ∪ names) rest
      end
  end.

Definition identity_le (a b : RuntimeJournalIdentity) : Prop := String.le (riRuntimeId a) (riRuntimeId b).
#[global] Instance identity_le_dec a b : Decision (identity_le a b).
Proof. unfold identity_le. apply _. Defined.
Definition sorted_runtimes (l : list (option RuntimeJournalIdentity)) : list RuntimeJournalIdentity := merge_sort identity_le (omap id l).

Definition NormalizeRegistration `{!WireDigests} (request : option JournalRegistration) : result (JournalRegistration * string) :=
  match request with
  | None => Fail ErrReport
  | Some r =>
      if negb (ValidID (jrNodeId r)) || negb (ValidID (jrInstallationId r)) || negb (ValidID (jrAgentStateJournalId r)) ||
         bool_decide (jrRuntimes r = []) || (32 <? Z.of_nat (length (jrRuntimes r))) ||
         negb (registration_ok {[jrAgentStateJournalId r]} ∅ (jrRuntimes r)) then Fail ErrReport
      else
        let normalized := mkRegistration (jrNodeId r) (jrInstallationId r) (jrAgentStateJournalId r) (Some <$> sorted_runtimes (jrRuntimes r)) in
        digest ← registration_digest normalized;
        mret (normalized, digest)
  end.

(** ** Credit *)

Definition ValidateCreditRequest (request : option RuntimeScope) : result unit :=
  match request with
  | None => Fail ErrReport
  | Some q =>
      if negb (ValidID (NodeId q)) || negb (ValidID (InstallationId q)) || negb (ValidID (AgentStateJournalId q)) || negb (runtimeName (RuntimeId q)) ||
         negb (ValidID (StateJournalId q)) || negb (ValidID (CreditJournalId q)) || bool_decide (StateJournalId q = CreditJournalId q) ||
         bool_decide (AgentStateJournalId q = StateJournalId q) || bool_decide (AgentStateJournalId q = CreditJournalId q)
      then Fail ErrReport else Ok tt
  end.

(** [Credits] is empty when an update is nil. *)
Fixpoint credits_from (base : Z) (acc : list Credit) (l : list (option CreditUpdate)) : list Credit :=
  match l with
  | [] => acc
  | None :: _ => []
  | Some u :: rest => credits_from base (acc ++ [mkCredit (wGrantId u) (wClientId u) (wTermId u) base (wCreditRevision u) (wCreditCeiling u)]) rest
  end.
Definition Credits (batch : CreditUpdateBatch) : list Credit := credits_from (BaseConfigurationRevision batch) [] (Updates batch).

Definition ValidateCreditBatch (batch : option CreditUpdateBatch) (allowEmpty : bool) : result unit :=
  match batch with
  | None => Fail ErrReport
  | Some b =>
      _ ← ValidateCreditRequest (Some (cbScope b));
      if bool_decide (Updates b = []) && allowEmpty && (BaseConfigurationRevision b =? 0) then Ok tt
      else ValidateCredits (Credits b)
  end.

(** ** Reports *)

Fixpoint report_grants_ok (seen : gset string) (l : list (option GrantAuthority)) : bool :=
  match l with
  | [] => true
  | g :: rest =>
      match g with
      | None => false
      | Some a => is_ok (ValidateGrant g) && negb (bool_decide (gGrantID a ∈ seen)) && report_grants_ok ({[gGrantID a]} ∪ seen) rest
      end
  end.

Definition ValidateReport (report : option AuthorityReport) (agent : bool) : result unit :=
  match report with
  | None => Fail ErrReport
  | Some r =>
      let q := arScope r in
      if negb (ValidID (NodeId q)) || negb (ValidID (InstallationId q)) || agent && negb (ValidID (AgentStateJournalId q)) ||
         negb (runtimeName (RuntimeId q)) || negb (ValidID (StateJournalId q)) || negb (ValidID (CreditJournalId q)) || (arSequence r =? 0) ||
         (MaxInt64 <? arSequence r) || (arObservedUnixMilli r <=? 0) || (MaxEntries <? length (arGrants r))%nat || negb (report_grants_ok ∅ (arGrants r))
      then Fail ErrReport else Ok tt
  end.

(** ** Updates of authority *)

Definition ValidateAuthorityRequest (request : option AuthorityDeliveryRequest) : result unit :=
  match request with
  | None => Fail ErrReport
  | Some q =>
      if negb (is_ok (ValidateCreditRequest (Some (adScope q)))) || (adBase q =? 0) || (MaxInt64 <? adBase q) ||
         negb (Nat.eqb (String.length (BasePayloadSha256 q)) 32) then Fail ErrReport else Ok tt
  end.

Definition authorityRate (value : option AuthorityRate) : result Rate :=
  match value with
  | None => Fail ErrReport
  | Some v => if (aMode v <? 0) || (2 <? aMode v) || (1048576 <? aBurstBytes v) then Fail ErrReport
              else Ok (mkRate (aMode v) (aBitsPerSecond v) (aBurstBytes v))
  end.

Definition invalid_update (base : Z) (u : AuthorityUpdate) : bool :=
  (base =? 0) || (MaxInt64 <? base) || negb (ValidID (auGrantId u)) || negb (ValidID (auClientId u)) || negb (ValidID (auTermId u)) ||
  negb (ValidID (auPlacementId u)) || negb (Nat.eqb (String.length (auDescriptorSha256 u)) 32) || (auAuthorityRevision u =? 0) ||
  (MaxInt64 <? auAuthorityRevision u) || (auCreditRevision u =? 0) || (MaxInt64 <? auCreditRevision u) || (MaxInt64 <? auCreditCeiling u) ||
  (auCredentialGeneration u =? 0) || (MaxInt64 <? auCredentialGeneration u) || (auPlacementRevision u =? 0) || (MaxInt64 <? auPlacementRevision u).

(** [limits.New] fails exactly when [Limits.validate] does. *)
Definition AuthorityPolicy (base : Z) (update : option AuthorityUpdate) : result Policy :=
  match update with
  | None => Fail ErrReport
  | Some u =>
      if invalid_update base u then Fail ErrReport
      else
        up ← authorityRate (auUpload u);
        down ← authorityRate (auDownload u);
        let policy := mkPolicy (auTermId u) base (auAuthorityRevision u) (auEnabled u) (auExpiresUnixMilli u) (auQuotaUnlimited u)
                        (auCreditCeiling u) (auCreditRevision u) up down in
        if negb (is_ok (validate policy)) || negb (Enabled policy) && (negb (Mode up =? Blocked) || negb (Mode down =? Blocked)) then Fail ErrReport
        else Ok policy
  end.

Fixpoint authority_updates_ok (base : Z) (grants clients : gset string) (l : list (option AuthorityUpdate)) : result unit :=
  match l with
  | [] => Ok tt
  | u :: rest =>
      _ ← AuthorityPolicy base u;
      match u with
      | None => Fail ErrReport
      | Some v =>
          if bool_decide (auGrantId v ∈ grants) || bool_decide (auClientId v ∈ clients) then Fail ErrReport
          else authority_updates_ok base ({[auGrantId v]} ∪ grants) ({[auClientId v]} ∪ clients) rest
      end
  end.

Definition ValidateAuthorityBatch (batch : option AuthorityUpdateBatch) (allowEmpty : bool) : result unit :=
  match batch with
  | None => Fail ErrReport
  | Some b =>
      if (MaxAuthorityUpdates <? length (abUpdates b))%nat then Fail ErrReport
      else if negb (is_ok (ValidateAuthorityRequest (Some (abRequest b)))) || bool_decide (abUpdates b = []) && negb allowEmpty then Fail ErrReport
      else authority_updates_ok (adBase (abRequest b)) ∅ ∅ (abUpdates b)
  end.

Definition policy_update (base : Z) (acc : list PolicyUpdate) (u : option AuthorityUpdate) : result (list PolicyUpdate) :=
  policy ← AuthorityPolicy base u;
  match u with
  | None => Fail ErrReport
  | Some v => Ok (acc ++ [mkPolicyUpdate (auGrantId v) (auClientId v) policy])
  end.
Definition AuthorityPolicies (batch : AuthorityUpdateBatch) : result (list PolicyUpdate) :=
  _ ← ValidateAuthorityBatch (Some batch) false;
  foldM (policy_update (adBase (abRequest batch))) [] (abUpdates batch).
End Wire.
