(* ===== verification/Fleet.v ===== *)
(** * The control plane's database: internal/controlplane and database/model/fleet*.go

    The PostgreSQL tables the control plane keeps about its fleet, as maps from primary
    keys to rows, with the columns its transactions read or write and the constraints the
    schema declares on them.  A transaction is a function on the tables that fails without
    a trace: rows are locked before they are read, so one transaction is one step.  Texts
    of JSON columns are the values they encode; SHA-256 digests of requests are a
    parameter. *)
From S2P Require Import Prelude Limits Authority Spool Rates.
Open Scope string_scope.
Open Scope Z_scope.
Open Scope list_scope.

Definition ErrBudget : error := ErrorText "insufficient or inconsistent budget".
Definition ErrConflict : error := ErrorText "conflicting operation replay".
Definition ErrSequence : error := ErrorText "noncontiguous accounting sequence".
Definition ErrScope : error := ErrorText "accounting scope is not authorized".
Definition ErrFleetRevision : error := ErrorText "stale or conflicting deployment revision".
Definition ErrRecovery : error := ErrorText "control-plane recovery reconciliation required".
Definition ErrDrain : error := ErrorText "previous forwarding authority has not been durably stopped".
(** gorm's [ErrRecordNotFound], a violated constraint, and JSON that does not decode. *)
Definition ErrRecordNotFound : error := ErrorText "record not found".
Definition ErrConstraint : error := ErrorText "violates constraint".
Definition ErrRange : error := ErrorText "value out of range".
Definition ErrJSON : error := ErrorText "unexpected end of JSON input".

(** ** Rows *)

Record FleetFence := mkFence { RecoveryRequired : bool; Reason : string }.

Record FleetNode := mkNode {
  fn_InstallationID : string; fn_Enabled : bool; AuthorityGeneration : Z;
  DesiredRevision : Z; AppliedRevision : Z; SentRevision : Z; LastSeenUnixMilli : Z }.

Record FleetNodeJournal := mkNodeJournal {
  nj_InstallationID : string; nj_StateJournalID : option string; nj_RecoveryRequired : bool; nj_Reason : string }.

Record FleetRuntimeJournal := mkRuntimeJournal {
  rj_RuntimeID : string; rj_InstallationID : string; rj_CoreID : string; rj_StateJournalID : string; rj_CreditJournalID : string;
  rj_Sequence : Z; rj_Digest : string; rj_Ready : bool; rj_Received : Z; rj_Observed : Z }.

Record FleetBudget := mkBudget { LimitBytes : Z; bUnlimited : bool; UsedBytes : Z; ReservedBytes : Z }.

Record FleetGrant := mkFleetGrant {
  fg_ID : string; fg_PlacementID : option string; fg_NodeID : string; fg_InstallationID : string; fg_RuntimeID : string;
  fg_ClientID : string; fg_TermID : string; fg_Unlimited : bool; IssuedBytes : Z; ConsumedBytes : Z; fg_Revision : Z }.

Record FleetUsageCursor := mkCursor { cu_Sequence : Z; cu_Digest : string }.
Record FleetMeter := mkMeter { me_GrantID : string; me_Uploaded : Z; me_Downloaded : Z }.

Record FleetClient := mkClient {
  fc_PanelClientID : option Z; fc_Revision : Z; CredentialGeneration : Z; CredentialDigest : string;
  CurrentTermID : option string; PendingTermID : option string; Owned : bool }.

Inductive TermState := Pending | Active | Draining | Closed.
#[global] Instance TermState_eq_dec : EqDecision TermState.
Proof. solve_decision. Defined.
Inductive TermKind := Activation | Renewal | TrafficReset.
#[global] Instance TermKind_eq_dec : EqDecision TermKind.
Proof. solve_decision. Defined.

Record FleetTerm := mkTerm {
  ft_ID : string; ft_ClientID : string; ft_Generation : Z; PredecessorID : option string; ft_Kind : TermKind; ft_State : TermState;
  ft_CredentialGeneration : Z; SourcePolicyDigest : string; ft_BudgetID : string; DurationMillis : Z;
  StartedUnixMilli : Z; ft_ExpiresUnixMilli : Z; ft_Rates : Rates; OpeningUploaded : Z; OpeningDownloaded : Z }.

Record FleetTermUsage := mkTermUsage { tu_Uploaded : Z; tu_Downloaded : Z; tu_Observed : Z; tu_Received : Z }.
Record FleetTermUsageDay := mkUsageDay { ud_Uploaded : Z; ud_Downloaded : Z }.
Record FleetGrantStop := mkStop { DeploymentRevision : Z; RateRevision : Z }.

Record FleetRateBudget := mkRateBudget { rb_ClientID : string; rb_TermID : string; rb_Revision : Z; rb_Desired : Rates }.
Record FleetRateShare := mkRateShare {
  rs_ID : string; rs_BudgetID : string; rs_NodeID : string; rs_InstallationID : string; rs_RuntimeID : string;
  rs_Revision : Z; rs_AppliedRevision : Z; rs_Desired : Rates; rs_Outstanding : Rates }.

Record FleetPlacement := mkPlacement {
  pl_ClientID : string; pl_NodeID : string; pl_InstallationID : string; pl_RuntimeID : string; pl_Revision : Z; pl_Enabled : bool;
  pl_CredentialGeneration : Z; pl_SourcePolicyDigest : string; pl_GraphDigest : string;
  CurrentGrantID : option string; CurrentGrantTermID : option string }.

(** What a node is sent and what it reports of its grants. *)
Record FleetCreditUpdate := mkCreditUpdate {
  cr_GrantID : string; cr_NodeID : string; cr_InstallationID : string; cr_RuntimeID : string; cr_StateJournalID : string; cr_CreditJournalID : string;
  cr_ClientID : string; cr_TermID : string; cr_Base : Z; cr_Revision : Z; cr_Ceiling : Z; cr_AckRevision : Z; cr_AckCeiling : Z }.
Record FleetGrantAuthority := mkFleetAuthority {
  ga_NodeID : string; ga_RuntimeID : string; ga_ReportSequence : Z; ga_PolicyRevision : Z; ga_AuthorityRevision : Z; ga_CreditCeiling : Z;
  ga_QuotaUnlimited : bool; ga_Reserved : Z; ga_Burned : Z; ga_Admission : Z; ga_AdmissionKnown : bool; ga_Spendable : Z; ga_SpendableKnown : bool;
  ga_Active : bool; ga_Received : Z }.
#[global] Instance FleetGrantAuthority_eq_dec : EqDecision FleetGrantAuthority.
Proof. solve_decision. Defined.
Record FleetCreditCandidate := mkCandidate { ca_NodeID : string; ca_Sequence : Z; ca_Available : Z; ca_Attempts : Z }.
Record FleetCreditNodeQueue := mkNodeQueue { nq_Pending : bool; nq_Available : Z; nq_ClaimID : option string; nq_LeaseUntil : Z }.
Record Delivery := mkDelivery {
  credit_updates : gmap string FleetCreditUpdate;
  grant_authorities : gmap string FleetGrantAuthority;
  credit_candidates : gmap string FleetCreditCandidate;
  credit_queues : gmap string FleetCreditNodeQueue }.

Record TransitionResult := mkTransitionResult { tr_Client : FleetClient; tr_Term : FleetTerm; PendingDrain : bool }.

(** The [result] column of an operation: what it answered, as JSON. *)
Inductive OpResult := NoResult | GrantResult (g : FleetGrant) | ShareResult (s : FleetRateShare) | TermResult (r : TransitionResult).
Record FleetOperation := mkOperation { op_Digest : string; op_Result : OpResult }.

(** ** The tables *)
Record Fleet := mkFleet {
  fence : FleetFence;
  nodes : gmap string FleetNode;
  node_journals : gmap string FleetNodeJournal;
  runtime_journals : gmap (string * string) FleetRuntimeJournal;
  budgets : gmap string FleetBudget;
  grants : gmap string FleetGrant;
  links : gset (string * string);
  cursors : gmap (string * string) FleetUsageCursor;
  fmeters : gmap (string * string * string) FleetMeter;
  operations : gmap string FleetOperation;
  clients : gmap string FleetClient;
  terms : gmap string FleetTerm;
  term_usages : gmap string FleetTermUsage;
  usage_days : gmap (string * Z) FleetTermUsageDay;
  stops : gmap string FleetGrantStop;
  rate_budgets : gmap string FleetRateBudget;
  rate_shares : gmap string FleetRateShare;
  placements : gmap string FleetPlacement;
  placement_inbounds : gmap (string * string) (option Z);
  delivery : Delivery }.

(** ** Transactions *)

Definition Tx (A : Type) : Type := Fleet -> result (A * Fleet).
#[global] Instance Tx_ret : MRet Tx := fun A a s => Ok (a, s).
#[global] Instance Tx_bind : MBind Tx := fun A B f m s => match m s with Ok (a, s') => f a s' | Fail e => Fail e end.

Definition get : Tx Fleet := fun s => Ok (s, s).
Definition put (s : Fleet) : Tx unit := fun _ => Ok (tt, s).
Definition fail {A} (e : error) : Tx A := fun _ => Fail e.
(** [if bad { return e }] *)
Definition refuse (bad : bool) (e : error) : Tx unit := fun s => if bad then Fail e else Ok (tt, s).
Definition lift {A} (r : result A) : Tx A := fun s => match r with Ok a => Ok (a, s) | Fail e => Fail e end.
(** A row that must be there. *)
Definition found {A} (o : option A) (e : error) : Tx A := fun s => match o with Some a => Ok (a, s) | None => Fail e end.
Fixpoint foldTx {A S} (f : S -> A -> Tx S) (s : S) (l : list A) : Tx S :=
  match l with [] => mret s | x :: l' => s' ← f s x; foldTx f s' l' end.

(** [db.Transaction]: committed when the function returns nil, and otherwise undone.  A
    statement or a commit that fails for a reason of the database is a [fault]. *)
Definition Transaction {A} (fault : option error) (body : Tx A) (s : Fleet) : Fleet * result A :=
  match fault with
  | Some e => (s, Fail e)
  | None => match body s with Ok (a, s') => (s', Ok a) | Fail e => (s, Fail e) end
  end.

(** *** Writing one table *)
Definition set_fence f s := mkFleet f (nodes s) (node_journals s) (runtime_journals s) (budgets s) (grants s) (links s) (cursors s) (fmeters s) (operations s) (clients s) (terms s) (term_usages s) (usage_days s) (stops s) (rate_budgets s) (rate_shares s) (placements s) (placement_inbounds s) (delivery s).
Definition set_nodes x s := mkFleet (fence s) x (node_journals s) (runtime_journals s) (budgets s) (grants s) (links s) (cursors s) (fmeters s) (operations s) (clients s) (terms s) (term_usages s) (usage_days s) (stops s) (rate_budgets s) (rate_shares s) (placements s) (placement_inbounds s) (delivery s).
Definition set_node_journals x s := mkFleet (fence s) (nodes s) x (runtime_journals s) (budgets s) (grants s) (links s) (cursors s) (fmeters s) (operations s) (clients s) (terms s) (term_usages s) (usage_days s) (stops s) (rate_budgets s) (rate_shares s) (placements s) (placement_inbounds s) (delivery s).
Definition set_runtime_journals x s := mkFleet (fence s) (nodes s) (node_journals s) x (budgets s) (grants s) (links s) (cursors s) (fmeters s) (operations s) (clients s) (terms s) (term_usages s) (usage_days s) (stops s) (rate_budgets s) (rate_shares s) (placements s) (placement_inbounds s) (delivery s).
Definition set_budgets x s := mkFleet (fence s) (nodes s) (node_journals s) (runtime_journals s) x (grants s) (links s) (cursors s) (fmeters s) (operations s) (clients s) (terms s) (term_usages s) (usage_days s) (stops s) (rate_budgets s) (rate_shares s) (placements s) (placement_inbounds s) (delivery s).
Definition set_grants x s := mkFleet (fence s) (nodes s) (node_journals s) (runtime_journals s) (budgets s) x (links s) (cursors s) (fmeters s) (operations s) (clients s) (terms s) (term_usages s) (usage_days s) (stops s) (rate_budgets s) (rate_shares s) (placements s) (placement_inbounds s) (delivery s).
Definition set_links x s := mkFleet (fence s) (nodes s) (node_journals s) (runtime_journals s) (budgets s) (grants s) x (cursors s) (fmeters s) (operations s) (clients s) (terms s) (term_usages s) (usage_days s) (stops s) (rate_budgets s) (rate_shares s) (placements s) (placement_inbounds s) (delivery s).
Definition set_cursors x s := mkFleet (fence s) (nodes s) (node_journals s) (runtime_journals s) (budgets s) (grants s) (links s) x (fmeters s) (operations s) (clients s) (terms s) (term_usages s) (usage_days s) (stops s) (rate_budgets s) (rate_shares s) (placements s) (placement_inbounds s) (delivery s).
Definition set_fmeters x s := mkFleet (fence s) (nodes s) (node_journals s) (runtime_journals s) (budgets s) (grants s) (links s) (cursors s) x (operations s) (clients s) (terms s) (term_usages s) (usage_days s) (stops s) (rate_budgets s) (rate_shares s) (placements s) (placement_inbounds s) (delivery s).
Definition set_operations x s := mkFleet (fence s) (nodes s) (node_journals s) (runtime_journals s) (budgets s) (grants s) (links s) (cursors s) (fmeters s) x (clients s) (terms s) (term_usages s) (usage_days s) (stops s) (rate_budgets s) (rate_shares s) (placements s) (placement_inbounds s) (delivery s).
Definition set_clients x s := mkFleet (fence s) (nodes s) (node_journals s) (runtime_journals s) (budgets s) (grants s) (links s) (cursors s) (fmeters s) (operations s) x (terms s) (term_usages s) (usage_days s) (stops s) (rate_budgets s) (rate_shares s) (placements s) (placement_inbounds s) (delivery s).
Definition set_terms x s := mkFleet (fence s) (nodes s) (node_journals s) (runtime_journals s) (budgets s) (grants s) (links s) (cursors s) (fmeters s) (operations s) (clients s) x (term_usages s) (usage_days s) (stops s) (rate_budgets s) (rate_shares s) (placements s) (placement_inbounds s) (delivery s).
Definition set_term_usages x s := mkFleet (fence s) (nodes s) (node_journals s) (runtime_journals s) (budgets s) (grants s) (links s) (cursors s) (fmeters s) (operations s) (clients s) (terms s) x (usage_days s) (stops s) (rate_budgets s) (rate_shares s) (placements s) (placement_inbounds s) (delivery s).
Definition set_usage_days x s := mkFleet (fence s) (nodes s) (node_journals s) (runtime_journals s) (budgets s) (grants s) (links s) (cursors s) (fmeters s) (operations s) (clients s) (terms s) (term_usages s) x (stops s) (rate_budgets s) (rate_shares s) (placements s) (placement_inbounds s) (delivery s).
Definition set_stops x s := mkFleet (fence s) (nodes s) (node_journals s) (runtime_journals s) (budgets s) (grants s) (links s) (cursors s) (fmeters s) (operations s) (clients s) (terms s) (term_usages s) (usage_days s) x (rate_budgets s) (rate_shares s) (placements s) (placement_inbounds s) (delivery s).
Definition set_rate_budgets x s := mkFleet (fence s) (nodes s) (node_journals s) (runtime_journals s) (budgets s) (grants s) (links s) (cursors s) (fmeters s) (operations s) (clients s) (terms s) (term_usages s) (usage_days s) (stops s) x (rate_shares s) (placements s) (placement_inbounds s) (delivery s).
Definition set_rate_shares x s := mkFleet (fence s) (nodes s) (node_journals s) (runtime_journals s) (budgets s) (grants s) (links s) (cursors s) (fmeters s) (operations s) (clients s) (terms s) (term_usages s) (usage_days s) (stops s) (rate_budgets s) x (placements s) (placement_inbounds s) (delivery s).
Definition set_placements x s := mkFleet (fence s) (nodes s) (node_journals s) (runtime_journals s) (budgets s) (grants s) (links s) (cursors s) (fmeters s) (operations s) (clients s) (terms s) (term_usages s) (usage_days s) (stops s) (rate_budgets s) (rate_shares s) x (placement_inbounds s) (delivery s).
Definition set_delivery x s := mkFleet (fence s) (nodes s) (node_journals s) (runtime_journals s) (budgets s) (grants s) (links s) (cursors s) (fmeters s) (operations s) (clients s) (terms s) (term_usages s) (usage_days s) (stops s) (rate_budgets s) (rate_shares s) (placements s) (placement_inbounds s) x.
Definition set_credit_updates x s := set_delivery (mkDelivery x (grant_authorities (delivery s)) (credit_candidates (delivery s)) (credit_queues (delivery s))) s.
Definition set_grant_authorities x s := set_delivery (mkDelivery (credit_updates (delivery s)) x (credit_candidates (delivery s)) (credit_queues (delivery s))) s.
Definition set_credit_candidates x s := set_delivery (mkDelivery (credit_updates (delivery s)) (grant_authorities (delivery s)) x (credit_queues (delivery s))) s.
Definition set_credit_queues x s := set_delivery (mkDelivery (credit_updates (delivery s)) (grant_authorities (delivery s)) (credit_candidates (delivery s)) x) s.
Definition write (f : Fleet -> Fleet) : Tx unit := fun s => Ok (tt, f s).

(** ** Locks and guards *)

Definition validID `{!UUIDs} (s : string) : bool := ValidID s.

Definition exceeds (a b : Z) : bool := (a <? 0) || (b <? 0) || (MaxInt64 - a <? b).

(** ErrIdentity of node/identity is only tested for nil. *)
Record Principal := mkPrincipal { pNodeID : string; pInstallationID : string }.
Definition Require (p : Principal) (nodeID installationID : string) : bool :=
  bool_decide (pNodeID p = nodeID) && bool_decide (pInstallationID p = installationID).

Definition lockAuthority : Tx unit := s ← get; refuse (RecoveryRequired (fence s)) ErrRecovery.

Definition HoldForRecovery : Tx unit := write (set_fence (mkFence true "OPERATOR_RESTORE")).

Definition lockNode (nodeID installationID : string) : Tx unit :=
  s ← get;
  node ← found (nodes s !! nodeID) ErrRecordNotFound;
  refuse (negb (fn_Enabled node) || negb (bool_decide (fn_InstallationID node = installationID))) ErrScope.

(** [authorizeRegisteredPeer] compares the TLS session's certificate with the registered
    one; [peer] is its answer. *)
Definition lockAuthenticatedNode (peer : result unit) (p : Principal) : Tx unit :=
  _ ← lockNode (pNodeID p) (pInstallationID p);
  lift peer.

(** The rows found, chunk by chunk. *)
Definition lockBudgets (ids : list string) : Tx (gmap string FleetBudget) :=
  _ ← refuse (bool_decide (ids = [])) ErrScope;
  s ← get;
  let result := filter (fun row => row.1 ∈ ids) (budgets s) in
  _ ← refuse (negb (Nat.eqb (size result) (length ids))) ErrScope;
  mret result.

Definition requireNodeJournalTx (nodeID installationID agentJournal : string) : Tx unit :=
  s ← get;
  node ← found (node_journals s !! nodeID) ErrScope;
  _ ← refuse (nj_RecoveryRequired node || negb (bool_decide (nj_InstallationID node = installationID)) ||
              bool_decide (nj_StateJournalID node = None)) ErrRecovery;
  refuse (negb (bool_decide (agentJournal = "")) && negb (bool_decide (nj_StateJournalID node = Some agentJournal))) ErrRecovery.

Definition RequireRuntimeJournalTx (nodeID installationID runtimeID : string) : Tx unit :=
  _ ← requireNodeJournalTx nodeID installationID "";
  s ← get;
  runtime ← found (runtime_journals s !! (nodeID, runtimeID)) ErrScope;
  refuse (negb (bool_decide (rj_InstallationID runtime = installationID))) ErrRecovery.

Definition lockClient (id : string) : Tx FleetClient :=
  s ← get;
  client ← found (clients s !! id) ErrRecordNotFound;
  _ ← refuse (bool_decide (fc_PanelClientID client = None)) ErrScope;
  mret client.

(** A term of the client. *)
Definition first_term (id clientID : string) : Tx FleetTerm :=
  s ← get;
  found (match terms s !! id with Some t => if bool_decide (ft_ClientID t = clientID) then Some t else None | None => None end) ErrRecordNotFound.

(** Clients the fleet does not manage have no row, and no term to answer for. *)
Definition managedAuthority (clientID termID : string) (active : bool) : Tx (option FleetTerm) :=
  s ← get;
  match clients s !! clientID with
  | None => mret None
  | Some client =>
      term ← first_term termID clientID;
      _ ← refuse (active && (bool_decide (fc_PanelClientID client = None) || negb (bool_decide (CurrentTermID client = Some (ft_ID term))) ||
                             negb (bool_decide (ft_State term = Active)))) ErrScope;
      mret (Some term)
  end.

(** The claim of an operation id: [Some] row when it was claimed before. *)
Definition claim (id digest : string) : Tx (option FleetOperation) :=
  s ← get;
  match operations s !! id with
  | Some op => mret (Some op)
  | None => _ ← write (set_operations (<[id := mkOperation digest NoResult]> (operations s))); mret None
  end.

Definition record_result (id digest : string) (r : OpResult) : Tx unit :=
  s ← get; write (set_operations (<[id := mkOperation digest r]> (operations s))).

(** ** The schema's checks *)

Definition budget_check (b : FleetBudget) : bool :=
  (0 <=? LimitBytes b) && (0 <=? UsedBytes b) && (0 <=? ReservedBytes b) &&
  (bUnlimited b || (UsedBytes b <=? LimitBytes b) && (ReservedBytes b <=? LimitBytes b - UsedBytes b)).
Definition grant_check (g : FleetGrant) : bool :=
  (0 <=? IssuedBytes g) && (0 <=? ConsumedBytes g) && (fg_Unlimited g || (ConsumedBytes g <=? IssuedBytes g)) && (0 <? fg_Revision g).
Definition meter_check (m : FleetMeter) : bool := (0 <=? me_Uploaded m) && (0 <=? me_Downloaded m).
Definition usage_check (u : FleetTermUsage) : bool :=
  (0 <=? tu_Uploaded u) && (0 <=? tu_Downloaded u) && (tu_Uploaded u <=? MaxInt64 - tu_Downloaded u).
Definition usage_day_check (day : Z) (u : FleetTermUsageDay) : bool :=
  (0 <=? day) && (0 <=? ud_Uploaded u) && (0 <=? ud_Downloaded u) && (ud_Uploaded u <=? MaxInt64 - ud_Downloaded u).
Definition rate_share_check (r : FleetRateShare) : bool :=
  (0 <? rs_Revision r) && (0 <=? rs_AppliedRevision r) && (rs_AppliedRevision r <=? rs_Revision r).

Definition save_budget (id : string) (b : FleetBudget) : Tx unit :=
  _ ← refuse (negb (budget_check b)) ErrConstraint; s ← get; write (set_budgets (<[id := b]> (budgets s))).
Definition save_grant (g : FleetGrant) : Tx unit :=
  _ ← refuse (negb (grant_check g)) ErrConstraint; s ← get; write (set_grants (<[fg_ID g := g]> (grants s))).
