(* ===== verification/FleetLedger.v ===== *)
(** * The control plane's ledger: controlplane/accounting.go, client_credit.go, usage_projection.go

    Credit is reserved against budgets and issued to a grant on a node; the usage a node
    reports moves it from reserved to used.  [Reserve] answers an operation id once and
    repeats the answer; [Ingest] takes the batches of a node in sequence. *)
From S2P Require Import Prelude Limits Authority Spool Rates Fleet.
Open Scope string_scope.
Open Scope Z_scope.
Open Scope list_scope.

Record ReserveRequest := mkReserve {
  rq_OperationID : string; rq_GrantID : string; rq_NodeID : string; rq_InstallationID : string; rq_RuntimeID : string;
  rq_ClientID : string; rq_TermID : string; rq_BudgetIDs : list string; rq_Bytes : Z; rq_Unlimited : bool }.

Record ClientCreditRequest := mkCreditRequest {
  cq_OperationID : string; cq_PlacementID : string; cq_ExpectedPlacementRevision : Z; cq_ExpectedRevision : Z;
  cq_ExpectedCredentialGeneration : Z; cq_TermID : string; cq_SourcePolicyDigest : string; cq_ParentBudgetIDs : list string;
  cq_ParentLimitBytes : gmap string Z; cq_Bytes : Z; cq_AuthorityCeiling : Z; cq_AllowPartial : bool }.

(** SHA-256 of the JSON or protobuf text of a request, and [uuid.NewSHA1] of an operation. *)
Class LedgerDigests := {
  reserve_digest : ReserveRequest -> string;
  credit_digest : ClientCreditRequest -> string;
  usage_digest : UsageBatch -> string;
  ledger_operation : string -> string }.

Section Ledger.
Context `{!UUIDs, !Wire, !LedgerDigests}.

(** Sorted, every one an id, none twice. *)
Fixpoint distinct_ids (previous : option string) (l : list string) : bool :=
  match l with
  | [] => true
  | id :: rest => validID id && negb (bool_decide (previous = Some id)) && distinct_ids (Some id) rest
  end.

(** ** Reserving *)

Definition guardManagedReservation (now : Z) (request : ReserveRequest) (placementID : string) : Tx unit :=
  term ← managedAuthority (rq_ClientID request) (rq_TermID request) true;
  match term with
  | None => mret tt
  | Some term =>
      _ ← refuse (negb (bool_decide (ft_BudgetID term ∈ rq_BudgetIDs request)) ||
                  negb (ft_ExpiresUnixMilli term =? 0) && (ft_ExpiresUnixMilli term <=? UnixMilli now)) ErrScope;
      s ← get;
      refuse (match clients s !! rq_ClientID request with Some c => Owned c | None => false end && bool_decide (placementID = "")) ErrScope
  end.

(** The budgets a grant draws on, in order. *)
Definition links_of (s : Fleet) (grantID : string) : list string :=
  merge_sort String.le (snd <$> filter (fun l => l.1 = grantID) (elements (links s))).

(** The grant's row with its next revision, or a new one; and whether it is new. *)
Definition reserve_grant (request : ReserveRequest) (placementID : string) : Tx (FleetGrant * bool) :=
  s ← get;
  match grants s !! rq_GrantID request with
  | None =>
      mret (mkFleetGrant (rq_GrantID request) (if bool_decide (placementID = "") then None else Some placementID)
              (rq_NodeID request) (rq_InstallationID request) (rq_RuntimeID request)
              (rq_ClientID request) (rq_TermID request) (rq_Unlimited request) 0 0 1, true)
  | Some g =>
      _ ← refuse (negb (bool_decide (fg_NodeID g = rq_NodeID request)) || negb (bool_decide (fg_InstallationID g = rq_InstallationID request)) ||
                  negb (bool_decide (fg_ClientID g = rq_ClientID request)) || negb (bool_decide (fg_TermID g = rq_TermID request)) ||
                  negb (bool_decide (fg_RuntimeID g = rq_RuntimeID request)) || negb (eqb (fg_Unlimited g) (rq_Unlimited request)) ||
                  (fg_Revision g =? MaxInt64)) ErrScope;
      _ ← refuse (negb (bool_decide (placementID = "")) && negb (bool_decide (fg_PlacementID g = Some placementID))) ErrScope;
      _ ← refuse (negb (bool_decide (links_of s (rq_GrantID request) = rq_BudgetIDs request))) ErrScope;
      mret (mkFleetGrant (fg_ID g) (fg_PlacementID g) (fg_NodeID g) (fg_InstallationID g) (fg_RuntimeID g)
              (fg_ClientID g) (fg_TermID g) (fg_Unlimited g) (IssuedBytes g) (ConsumedBytes g) (fg_Revision g + 1), false)
  end.

Definition issue (g : FleetGrant) (bytes : Z) : FleetGrant :=
  mkFleetGrant (fg_ID g) (fg_PlacementID g) (fg_NodeID g) (fg_InstallationID g) (fg_RuntimeID g)
    (fg_ClientID g) (fg_TermID g) (fg_Unlimited g) (IssuedBytes g + bytes) (ConsumedBytes g) (fg_Revision g).

Definition with_reserved (b : FleetBudget) (z : Z) : FleetBudget := mkBudget (LimitBytes b) (bUnlimited b) (UsedBytes b) z.

(** One budget of the request. *)
Definition reserve_budget (request : ReserveRequest) (id : string) : Tx unit :=
  s ← get;
  b ← found (budgets s !! id) ErrScope;
  _ ← refuse (rq_Unlimited request && negb (bUnlimited b)) ErrBudget;
  if bUnlimited b then mret tt
  else
    _ ← refuse ((LimitBytes b <? UsedBytes b) || (LimitBytes b - UsedBytes b <? ReservedBytes b) ||
                (LimitBytes b - UsedBytes b - ReservedBytes b <? rq_Bytes request)) ErrBudget;
    save_budget id (with_reserved b (ReservedBytes b + rq_Bytes request)).

Definition create_links (grantID : string) (ids : list string) : Tx unit :=
  s ← get;
  let rows : gset (string * string) := list_to_set ((fun id => (grantID, id)) <$> ids) in
  _ ← refuse (negb (bool_decide (rows ## links s))) ErrConstraint;
  write (set_links (rows ∪ links s)).

(** The body of the transaction after the operation was claimed. *)
Definition reserve_claimed (now : Z) (request : ReserveRequest) (placementID digest : string) : Tx FleetGrant :=
  _ ← lockNode (rq_NodeID request) (rq_InstallationID request);
  _ ← RequireRuntimeJournalTx (rq_NodeID request) (rq_InstallationID request) (rq_RuntimeID request);
  _ ← guardManagedReservation now request placementID;
  _ ← lockBudgets (rq_BudgetIDs request);
  row ← reserve_grant request placementID;
  let '(g, isNew) := row in
  _ ← refuse (exceeds (IssuedBytes g) (rq_Bytes request)) ErrBudget;
  _ ← foldTx (fun _ id => reserve_budget request id) tt (rq_BudgetIDs request);
  let g := issue g (rq_Bytes request) in
  _ ← save_grant g;
  _ ← (if isNew : bool then create_links (fg_ID g) (rq_BudgetIDs request) else mret tt);
  _ ← record_result (rq_OperationID request) digest (GrantResult g);
  mret g.

Definition invalid_reserve (request : ReserveRequest) : bool :=
  negb (validID (rq_OperationID request)) || negb (validID (rq_GrantID request)) || negb (validID (rq_NodeID request)) ||
  negb (validID (rq_InstallationID request)) || negb (validID (rq_ClientID request)) || negb (validID (rq_TermID request)) ||
  negb (runtimeName (rq_RuntimeID request)) || bool_decide (rq_BudgetIDs request = []) || (64 <? Z.of_nat (length (rq_BudgetIDs request))) ||
  rq_Unlimited request && negb (rq_Bytes request =? 0) || negb (rq_Unlimited request) && (rq_Bytes request <=? 0).

Definition with_budgets (request : ReserveRequest) (ids : list string) : ReserveRequest :=
  mkReserve (rq_OperationID request) (rq_GrantID request) (rq_NodeID request) (rq_InstallationID request) (rq_RuntimeID request)
    (rq_ClientID request) (rq_TermID request) ids (rq_Bytes request) (rq_Unlimited request).

(** What was answered to the operation before. *)
Definition replayed_grant (digest : string) (op : FleetOperation) : Tx FleetGrant :=
  _ ← refuse (negb (bool_decide (op_Digest op = digest))) ErrConflict;
  match op_Result op with GrantResult g => mret g | _ => fail ErrJSON end.

Definition reserve_tx (now : Z) (request : ReserveRequest) (placementID : string) : Tx FleetGrant :=
  let digest := reserve_digest request in
  _ ← lockAuthority;
  op ← claim (rq_OperationID request) digest;
  match op with
  | Some op => replayed_grant digest op
  | None => reserve_claimed now request placementID digest
  end.

(** [reserve] inside a transaction: its own is a savepoint of the one around it. *)
Definition reserve (now : Z) (request : ReserveRequest) (placementID : string) : Tx FleetGrant :=
  _ ← refuse (invalid_reserve request) ErrInvalid;
  let request := with_budgets request (merge_sort String.le (rq_BudgetIDs request)) in
  _ ← refuse (negb (distinct_ids None (rq_BudgetIDs request))) ErrInvalid;
  reserve_tx now request placementID.

Definition Reserve (fault : option error) (now : Z) (request : ReserveRequest) (s : Fleet) : Fleet * result FleetGrant :=
  Transaction fault (reserve now request "") s.

(** ** Taking in usage *)

Definition checkpoint_key (c : UsageCheckpoint) : string * string * string := (cGrantId c, cMeterId c, cMeterIncarnation c).

Definition valid_checkpoint (c : UsageCheckpoint) : bool :=
  validID (cGrantId c) && validID (cClientId c) && validID (cTermId c) && validID (cMeterIncarnation c) &&
  negb (bool_decide (cMeterId c = "")) && (Z.of_nat (String.length (cMeterId c)) <=? 128) && (0 <? ObservedUnixMilli c) &&
  (Uploaded c <=? MaxInt64) && (Downloaded c <=? MaxInt64).

Fixpoint valid_checkpoints (seen : gset (string * string * string)) (l : list UsageCheckpoint) : bool :=
  match l with
  | [] => true
  | c :: rest => valid_checkpoint c && negb (bool_decide (checkpoint_key c ∈ seen)) && valid_checkpoints ({[checkpoint_key c]} ∪ seen) rest
  end.

Definition validBatch (b : UsageBatch) : bool :=
  validID (bNodeId b) && validID (bInstallationId b) && negb (Sequence b =? 0) && (Sequence b <=? MaxInt64) &&
  negb (bool_decide (Checkpoints b = [])) && (Z.of_nat (length (Checkpoints b)) <=? 4096) && (batch_Size b <=? 1048576) &&
  valid_checkpoints ∅ (Checkpoints b).

Record termUsageDelta := mkDelta { d_Uploaded : Z; d_Downloaded : Z; d_Observed : Z }.

(** The rows in memory while a batch is taken in, and what of them changed. *)
Record taking := mkTaking {
  t_grants : gmap string FleetGrant; t_budgets : gmap string FleetBudget;
  changedMeters : list (string * string * string * FleetMeter); changedGrants : gset string; changedBudgets : gset string;
  termDeltas : gmap (string * string) termUsageDelta }.

(** The growth of a meter, added to its term. *)
Definition add_delta (deltas : gmap (string * string) termUsageDelta) (g : FleetGrant) (dUp dDown observed : Z)
    : result (gmap (string * string) termUsageDelta) :=
  if 0 <? dUp + dDown then
    let key := (fg_ClientID g, fg_TermID g) in
    let total := default (mkDelta 0 0 0) (deltas !! key) in
    if exceeds (d_Uploaded total) dUp || exceeds (d_Downloaded total) dDown then Fail ErrBudget
    else Ok (<[key := mkDelta (d_Uploaded total + dUp) (d_Downloaded total + dDown) (Z.max (d_Observed total) observed)]> deltas)
  else Ok deltas.

(** One budget of the grant. *)
Definition charge_budget (delta : Z) (bs : gmap string FleetBudget) (id : string) : result (gmap string FleetBudget) :=
  match bs !! id with
  | None => Fail ErrScope
  | Some b =>
      if exceeds (UsedBytes b) delta || negb (bUnlimited b) && (ReservedBytes b <? delta) then Fail ErrBudget
      else Ok (<[id := mkBudget (LimitBytes b) (bUnlimited b) (UsedBytes b + delta)
                        (if bUnlimited b then ReservedBytes b else ReservedBytes b - delta)]> bs)
  end.

Definition consume (g : FleetGrant) (delta : Z) : FleetGrant :=
  mkFleetGrant (fg_ID g) (fg_PlacementID g) (fg_NodeID g) (fg_InstallationID g) (fg_RuntimeID g)
    (fg_ClientID g) (fg_TermID g) (fg_Unlimited g) (IssuedBytes g) (ConsumedBytes g + delta) (fg_Revision g).

(** One checkpoint: [byGrant] and [meters] were read before the loop. *)
Definition take_checkpoint (byGrant : string -> list string) (old_meters : gmap (string * string * string) FleetMeter)
    (t : taking) (c : UsageCheckpoint) : result taking :=
  match t_grants t !! cGrantId c with
  | None => Fail ErrScope
  | Some g =>
      if negb (bool_decide (fg_ClientID g = cClientId c)) || negb (bool_decide (fg_TermID g = cTermId c)) ||
         negb (bool_decide (fg_RuntimeID g = cMeterId c)) then Fail ErrScope
      else
        let meter := default (mkMeter (cGrantId c) 0 0) (old_meters !! checkpoint_key c) in
        if (Uploaded c <? me_Uploaded meter) || (Downloaded c <? me_Downloaded meter) then Fail ErrInvalid
        else
          let dUp := Uploaded c - me_Uploaded meter in
          let dDown := Downloaded c - me_Downloaded meter in
          if exceeds dUp dDown then Fail ErrBudget
          else
            let delta := dUp + dDown in
            deltas ← add_delta (termDeltas t) g dUp dDown (ObservedUnixMilli c);
            if exceeds (ConsumedBytes g) delta || negb (fg_Unlimited g) && (IssuedBytes g - ConsumedBytes g <? delta) then Fail ErrBudget
            else
              bs ← foldM (charge_budget delta) (t_budgets t) (byGrant (fg_ID g));
              Ok (mkTaking (<[cGrantId c := consume g delta]> (t_grants t)) bs
                    (changedMeters t ++ [(checkpoint_key c, mkMeter (cGrantId c) (Uploaded c) (Downloaded c))])
                    (if 0 <? delta then {[cGrantId c]} ∪ changedGrants t else changedGrants t)
                    (if 0 <? delta then list_to_set (byGrant (fg_ID g)) ∪ changedBudgets t else changedBudgets t) deltas)
  end.

(** [CreateInBatches] with its conflict clause: every row checked and written. *)
Definition write_meter (_ : unit) (row : string * string * string * FleetMeter) : Tx unit :=
  _ ← refuse (negb (meter_check row.2)) ErrConstraint; s ← get; write (set_fmeters (<[row.1 := row.2]> (fmeters s))).
Definition write_budget (bs : gmap string FleetBudget) (_ : unit) (id : string) : Tx unit :=
  b ← found (bs !! id) ErrScope; save_budget id b.
Definition write_grant (gs : gmap string FleetGrant) (_ : unit) (id : string) : Tx unit :=
  g ← found (gs !! id) ErrScope; save_grant g.

(** *** usage_projection.go *)

Definition note_owner (owners : gmap string string) (key : string * string) : result (gmap string string) :=
  match owners !! key.2 with
  | Some owner => if bool_decide (owner = "") || bool_decide (owner = key.1) then Ok (<[key.2 := key.1]> owners) else Fail ErrScope
  | None => Ok (<[key.2 := key.1]> owners)
  end.

(** One term's row and its day, added to. *)
Definition add_usage (now : Z) (deltas : gmap (string * string) termUsageDelta) (owners : gmap string string)
    (_ : unit) (id : string) : Tx unit :=
  s ← get;
  match terms s !! id with
  | None => mret tt
  | Some term =>
      _ ← refuse (negb (bool_decide (owners !! ft_ID term = Some (ft_ClientID term)))) ErrScope;
      d ← found (deltas !! (ft_ClientID term, ft_ID term)) ErrScope;
      let old := default (mkTermUsage 0 0 0 0) (term_usages s !! id) in
      let row := mkTermUsage (tu_Uploaded old + d_Uploaded d) (tu_Downloaded old + d_Downloaded d)
                   (Z.max (tu_Observed old) (Z.min (UnixMilli now) (d_Observed d))) (Z.max (tu_Received old) (UnixMilli now)) in
      let day := now / Second / 86400 * 86400 in
      let oldDay := default (mkUsageDay 0 0) (usage_days s !! (id, day)) in
      let dayRow := mkUsageDay (ud_Uploaded oldDay + d_Uploaded d) (ud_Downloaded oldDay + d_Downloaded d) in
      _ ← refuse (negb (usage_check row) || negb (usage_day_check day dayRow)) ErrConstraint;
      _ ← write (fun s => set_term_usages (<[id := row]> (term_usages s)) s);
      write (fun s => set_usage_days (<[(id, day) := dayRow]> (usage_days s)) s)
  end.

Definition recordTermUsage (now : Z) (deltas : gmap (string * string) termUsageDelta) : Tx unit :=
  owners ← lift (foldM note_owner ∅ (map_to_list deltas).*1);
  foldTx (add_usage now deltas owners) tt (Compact (merge_sort String.le ((map_to_list deltas).*1).*2)).

(** *** Ingest *)

Definition sorted_grants (b : UsageBatch) : list string := Compact (merge_sort String.le (cGrantId <$> Checkpoints b)).

(** The node's cursor, created on its first batch. *)
Definition node_cursor (p : Principal) : Tx FleetUsageCursor :=
  s ← get;
  match cursors s !! (pNodeID p, pInstallationID p) with
  | Some c => mret c
  | None =>
      _ ← write (set_cursors (<[(pNodeID p, pInstallationID p) := mkCursor 0 ""]> (cursors s)));
      mret (mkCursor 0 "")
  end.

(** The rows a batch needs: its grants with their budgets. *)
Definition lock_batch (p : Principal) (grantIDs : list string) : Tx (gmap string FleetGrant * gmap string FleetBudget * list string) :=
  s ← get;
  let budgetIDs := Compact (merge_sort String.le (snd <$> filter (fun l => l.1 ∈ grantIDs) (elements (links s)))) in
  bs ← lockBudgets budgetIDs;
  let rows := filter (fun row => row.1 ∈ grantIDs) (grants s) in
  _ ← refuse (negb (Nat.eqb (size rows) (length grantIDs))) ErrScope;
  _ ← refuse (negb (bool_decide (map_Forall (fun id g =>
        fg_NodeID g = pNodeID p /\ fg_InstallationID g = pInstallationID p /\ links_of s id <> []) rows))) ErrScope;
  mret (rows, bs, budgetIDs).

(** The batch after the cursor admitted it. *)
Definition take_batch (now : Z) (p : Principal) (b : UsageBatch) : Tx unit :=
  let grantIDs := sorted_grants b in
  rows ← lock_batch p grantIDs;
  let '(gs, bs, budgetIDs) := rows in
  s ← get;
  t ← lift (foldM (take_checkpoint (links_of s) (fmeters s)) (mkTaking gs bs [] ∅ ∅ ∅) (Checkpoints b));
  _ ← foldTx write_meter tt (changedMeters t);
  _ ← foldTx (write_budget (t_budgets t)) tt (filter (fun id => id ∈ changedBudgets t) budgetIDs);
  _ ← foldTx (write_grant (t_grants t)) tt (filter (fun id => id ∈ changedGrants t) grantIDs);
  _ ← recordTermUsage now (termDeltas t);
  write (fun s => set_cursors (<[(pNodeID p, pInstallationID p) := mkCursor (Sequence b) (usage_digest b)]> (cursors s)) s).

Definition ingest (now : Z) (peer : result unit) (p : Principal) (b : UsageBatch) : Tx Z :=
  _ ← lockAuthority;
  _ ← lockAuthenticatedNode peer p;
  cursor ← node_cursor p;
  if Sequence b <=? cu_Sequence cursor then
    _ ← refuse ((Sequence b =? cu_Sequence cursor) && negb (bool_decide (cu_Digest cursor = usage_digest b))) ErrConflict;
    mret (cu_Sequence cursor)
  else
    _ ← refuse ((cu_Sequence cursor =? MaxInt64) || negb (Sequence b =? cu_Sequence cursor + 1)) ErrSequence;
    _ ← take_batch now p b;
    mret (Sequence b).

Definition Ingest (fault : option error) (now : Z) (peer : result unit) (p : Principal) (b : UsageBatch) (s : Fleet)
    : Fleet * result UsageReceipt :=
  if negb (validBatch b) then (s, Fail ErrInvalid)
  else if negb (Require p (bNodeId b) (bInstallationId b)) then (s, Fail ErrScope)
  else if negb (batch_encodes b) then (s, Fail ErrMarshal)
  else
    let '(s', r) := Transaction fault (ingest now peer p b) s in
    (s', ack ← r; mret (mkUsageReceipt ack ack)).

(** ** Credit for a placement: client_credit.go *)

Definition invalid_credit (r : ClientCreditRequest) : bool :=
  negb (validID (cq_OperationID r)) || negb (validID (cq_PlacementID r)) || negb (validID (cq_TermID r)) ||
  (cq_ExpectedPlacementRevision r =? 0) || (MaxInt64 <? cq_ExpectedPlacementRevision r) || (cq_ExpectedRevision r =? 0) ||
  (MaxInt64 <? cq_ExpectedRevision r) || (cq_ExpectedCredentialGeneration r =? 0) || (MaxInt64 <? cq_ExpectedCredentialGeneration r) ||
  negb (Nat.eqb (String.length (cq_SourcePolicyDigest r)) 32) || (cq_Bytes r <=? 0) || (cq_AuthorityCeiling r <? 0) ||
  (63 <? Z.of_nat (length (cq_ParentBudgetIDs r))).

Definition with_parents (r : ClientCreditRequest) (ids : list string) : ClientCreditRequest :=
  mkCreditRequest (cq_OperationID r) (cq_PlacementID r) (cq_ExpectedPlacementRevision r) (cq_ExpectedRevision r)
    (cq_ExpectedCredentialGeneration r) (cq_TermID r) (cq_SourcePolicyDigest r) ids (cq_ParentLimitBytes r) (cq_Bytes r)
    (cq_AuthorityCeiling r) (cq_AllowPartial r).

Definition parent_limits_ok (r : ClientCreditRequest) : bool :=
  Nat.eqb (size (cq_ParentLimitBytes r)) (length (cq_ParentBudgetIDs r)) &&
  forallb (fun id => match cq_ParentLimitBytes r !! id with Some limit => 0 <=? limit | None => false end) (cq_ParentBudgetIDs r).

Definition with_limit (b : FleetBudget) (z : Z) : FleetBudget := mkBudget z (bUnlimited b) (UsedBytes b) (ReservedBytes b).

(** A parent budget takes the limit of the request if what is used and reserved fits it. *)
Definition limit_parent (r : ClientCreditRequest) (_ : unit) (id : string) : Tx unit :=
  s ← get;
  parent ← found (budgets s !! id) ErrScope;
  let limit := default 0 (cq_ParentLimitBytes r !! id) in
  _ ← refuse (bUnlimited parent || (limit <? UsedBytes parent) || (limit - UsedBytes parent <? ReservedBytes parent)) ErrBudget;
  if LimitBytes parent =? limit then mret tt else save_budget id (with_limit parent limit).

(** What every limited budget still has. *)
Definition partial_amount (amount : Z) (b : FleetBudget) : result Z :=
  if bUnlimited b then Ok amount
  else if (LimitBytes b <? UsedBytes b) || (LimitBytes b - UsedBytes b <? ReservedBytes b) then Fail ErrBudget
  else Ok (Z.min amount (LimitBytes b - UsedBytes b - ReservedBytes b)).

(** Under a rate ceiling: what of it is spoken for, by the term's own budget or by the
    credit its grants were issued. *)
Definition ceiling_amount (r : ClientCreditRequest) (own : FleetBudget) (of_term : list FleetGrant) (amount : Z) : result Z :=
  if cq_AuthorityCeiling r =? 0 then Ok amount
  else
    let issued := sumZ (IssuedBytes <$> of_term) in
    let consumed := sumZ (ConsumedBytes <$> of_term) in
    if bUnlimited own && (existsb fg_Unlimited of_term || (UsedBytes own <? consumed) || (issued <? consumed)) then Fail ErrBudget
    else if bUnlimited own && (MaxInt64 <? issued) then Fail ErrRange
    else
      let used := if bUnlimited own then UsedBytes own - consumed else UsedBytes own in
      let reserved := if bUnlimited own then issued else ReservedBytes own in
      if (cq_AuthorityCeiling r <? used) || (cq_AuthorityCeiling r - used <? reserved) then Fail ErrBudget
      else
        let remaining := cq_AuthorityCeiling r - used - reserved in
        if cq_AllowPartial r then Ok (Z.min amount remaining)
        else if remaining <? amount then Fail ErrBudget else Ok amount.

Definition with_grant (p : FleetPlacement) (grantID termID : string) : FleetPlacement :=
  mkPlacement (pl_ClientID p) (pl_NodeID p) (pl_InstallationID p) (pl_RuntimeID p) (pl_Revision p) (pl_Enabled p)
    (pl_CredentialGeneration p) (pl_SourcePolicyDigest p) (pl_GraphDigest p) (Some grantID) (Some termID).

(** The placement, its client and term, checked against what the caller expects. *)
Definition credit_scope (r : ClientCreditRequest) : Tx (FleetPlacement * FleetTerm) :=
  s ← get;
  placement ← found (placements s !! cq_PlacementID r) ErrRecordNotFound;
  _ ← lockNode (pl_NodeID placement) (pl_InstallationID placement);
  _ ← RequireRuntimeJournalTx (pl_NodeID placement) (pl_InstallationID placement) (pl_RuntimeID placement);
  client ← lockClient (pl_ClientID placement);
  _ ← refuse (negb (Owned client) || negb (fc_Revision client =? cq_ExpectedRevision r) ||
              negb (CredentialGeneration client =? cq_ExpectedCredentialGeneration r) ||
              negb (bool_decide (CurrentTermID client = Some (cq_TermID r)))) ErrFleetRevision;
  _ ← refuse (negb (pl_Enabled placement) || negb (Nat.eqb (String.length (pl_GraphDigest placement)) 32) ||
              negb (pl_Revision placement =? cq_ExpectedPlacementRevision r) ||
              negb (pl_CredentialGeneration placement =? CredentialGeneration client) ||
              negb (bool_decide (pl_SourcePolicyDigest placement = cq_SourcePolicyDigest r))) ErrScope;
  let references := filter (fun row => row.1.1 = cq_PlacementID r) (map_to_list (placement_inbounds s)) in
  _ ← refuse (bool_decide (references = []) || existsb (fun row => bool_decide (row.2 = None)) references) ErrScope;
  term ← managedAuthority (pl_ClientID placement) (cq_TermID r) true;
  term ← found term ErrScope;
  mret (placement, term).

(** The amount that may be issued, after the parents took their limits. *)
Definition credit_amount (r : ClientCreditRequest) (placement : FleetPlacement) (term : FleetTerm) : Tx (list string * Z) :=
  let ids := ft_BudgetID term :: cq_ParentBudgetIDs r in
  _ ← lockBudgets ids;
  _ ← foldTx (limit_parent r) tt (cq_ParentBudgetIDs r);
  s ← get;
  own ← found (budgets s !! ft_BudgetID term) ErrScope;
  amount ← lift (if cq_AllowPartial r then foldM partial_amount (cq_Bytes r) (map_to_list (filter (fun row => row.1 ∈ ids) (budgets s))).*2
                 else Ok (cq_Bytes r));
  let of_term := filter (fun g => fg_ClientID g = pl_ClientID placement /\ fg_TermID g = ft_ID term) (map_to_list (grants s)).*2 in
  amount ← lift (ceiling_amount r own of_term amount);
  _ ← refuse (amount <=? 0) ErrBudget;
  mret (ids, amount).

(** [fresh] is [uuid.NewString()]. *)
Definition credit_tx (now : Z) (fresh : string) (r : ClientCreditRequest) : Tx FleetGrant :=
  let digest := credit_digest r in
  _ ← lockAuthority;
  scope ← credit_scope r;
  let '(placement, term) := scope in
  op ← claim (cq_OperationID r) digest;
  match op with
  | Some op => replayed_grant digest op
  | None =>
      amount ← credit_amount r placement term;
      let '(ids, amount) := amount in
      let grantID := match CurrentGrantID placement, CurrentGrantTermID placement with
                     | Some g, Some t => if bool_decide (t = ft_ID term) then g else fresh
                     | _, _ => fresh end in
      grant ← reserve now (mkReserve (ledger_operation (cq_OperationID r)) grantID (pl_NodeID placement) (pl_InstallationID placement)
                             (pl_RuntimeID placement) (pl_ClientID placement) (ft_ID term) ids amount false) (cq_PlacementID r);
      _ ← write (fun s => set_placements (<[cq_PlacementID r := with_grant placement (fg_ID grant) (ft_ID term)]> (placements s)) s);
      _ ← record_result (cq_OperationID r) digest (GrantResult grant);
      mret grant
  end.

Definition ReserveClientCredit (fault : option error) (now : Z) (fresh : string) (r : ClientCreditRequest) (s : Fleet)
    : Fleet * result FleetGrant :=
  if invalid_credit r then (s, Fail ErrInvalid)
  else
    let r := with_parents r (merge_sort String.le (cq_ParentBudgetIDs r)) in
    if negb (distinct_ids None (cq_ParentBudgetIDs r)) || negb (parent_limits_ok r) then (s, Fail ErrInvalid)
    else Transaction fault (credit_tx now fresh r) s.
End Ledger.
