(* ===== verification/FleetRates.v ===== *)
(** * Bandwidth shares: the transactions of controlplane/rates.go

    A client's rate budget bounds what its grants may use together.  A share records the
    rates a grant was asked to use and those it may still be using: they are given back
    only when the node confirms that it applies the new ones. *)
From S2P Require Import Prelude Limits Authority Spool Rates Fleet.
Open Scope string_scope.
Open Scope Z_scope.
Open Scope list_scope.

Record RateRequest := mkRateRequest {
  rr_OperationID : string; rr_GrantID : string; rr_BudgetID : string; rr_NodeID : string; rr_InstallationID : string;
  rr_RuntimeID : string; rr_Desired : Rates }.

(** SHA-256 of the JSON text of a request. *)
Class RateDigests := { share_digest : RateRequest -> string }.

Definition decodeRates (r : Rates) : result Rates := _ ← Rates_validate r; mret r.

(** ** The budget *)

Section Budget.
Context `{!UUIDs}.

(** The row of the id, inserted unless the id or the client has one. *)
Definition create_rate_budget (id : string) (row : FleetRateBudget) : Tx unit :=
  s ← get;
  if bool_decide (is_Some (rate_budgets s !! id)) ||
     bool_decide (map_Exists (fun _ r => rb_ClientID r = rb_ClientID row) (rate_budgets s))
  then mret tt
  else write (set_rate_budgets (<[id := row]> (rate_budgets s))).

Definition set_rate_budget (id clientID termID : string) (revision : Z) (desired : Rates) : Tx unit :=
  _ ← lockAuthority;
  _ ← managedAuthority clientID termID true;
  _ ← create_rate_budget id (mkRateBudget clientID termID revision desired);
  s ← get;
  current ← found (rate_budgets s !! id) ErrScope;
  _ ← refuse (negb (bool_decide (rb_ClientID current = clientID))) ErrScope;
  previous ← lift (decodeRates (rb_Desired current));
  _ ← refuse ((revision <? rb_Revision current) ||
              (rb_Revision current =? revision) && (negb (bool_decide (previous = desired)) || negb (bool_decide (rb_TermID current = termID)))) ErrFleetRevision;
  write (set_rate_budgets (<[id := mkRateBudget (rb_ClientID current) termID revision desired]> (rate_budgets s))).

Definition invalid_rate_budget (id clientID termID : string) (revision : Z) (desired : Rates) : bool :=
  negb (validID id) || negb (validID clientID) || negb (validID termID) || (revision =? 0) || (MaxInt64 <? revision) ||
  negb (is_ok (Rates_validate desired)).

(** [SetRateBudget] inside another transaction. *)
Definition SetRateBudget_tx (id clientID termID : string) (revision : Z) (desired : Rates) : Tx unit :=
  _ ← refuse (invalid_rate_budget id clientID termID revision desired) ErrInvalid;
  set_rate_budget id clientID termID revision desired.

Definition SetRateBudget (fault : option error) (id clientID termID : string) (revision : Z) (desired : Rates) (s : Fleet) : Fleet * result unit :=
  Transaction fault (SetRateBudget_tx id clientID termID revision desired) s.
End Budget.

(** ** Shares *)

Definition share_le (a b : FleetRateShare) : Prop := String.le (rs_ID a) (rs_ID b).
#[global] Instance share_le_dec a b : Decision (share_le a b).
Proof. unfold share_le. apply _. Defined.

(** The shares of a budget, by id. *)
Definition shares_of (s : Fleet) (budgetID : string) : list FleetRateShare :=
  merge_sort share_le (filter (fun r => rs_BudgetID r = budgetID) (map_to_list (rate_shares s)).*2).

(** The loop over the budget's shares: the grant's own, and what the others may use. *)
Record sharing := mkSharing { own : option FleetRateShare; previous : Rates; uploads : list Rate; downloads : list Rate }.

Definition note_share (request : RateRequest) (acc : sharing) (share : FleetRateShare) : result sharing :=
  outstanding ← decodeRates (rs_Outstanding share);
  if bool_decide (rs_ID share = rr_GrantID request) then
    if negb (bool_decide (rs_NodeID share = rr_NodeID request)) || negb (bool_decide (rs_InstallationID share = rr_InstallationID request)) ||
       negb (bool_decide (rs_RuntimeID share = rr_RuntimeID request)) then Fail ErrScope
    else mret (mkSharing (Some share) outstanding (uploads acc) (downloads acc))
  else mret (mkSharing (own acc) (previous acc) (uploads acc ++ [rUpload outstanding]) (downloads acc ++ [rDownload outstanding])).

Definition envelope_rates (a b : Rates) : Rates := mkRates (envelope (rUpload a) (rUpload b)) (envelope (rDownload a) (rDownload b)).

(** The grant, its term and its budget. *)
Definition share_scope (request : RateRequest) : Tx (FleetGrant * option FleetTerm * FleetRateBudget) :=
  _ ← lockNode (rr_NodeID request) (rr_InstallationID request);
  s ← get;
  grant ← found (grants s !! rr_GrantID request) ErrRecordNotFound;
  term ← managedAuthority (fg_ClientID grant) (fg_TermID grant) false;
  budget ← found (rate_budgets s !! rr_BudgetID request) ErrRecordNotFound;
  _ ← refuse (negb (bool_decide (fg_NodeID grant = rr_NodeID request)) || negb (bool_decide (fg_InstallationID grant = rr_InstallationID request)) ||
              negb (bool_decide (fg_RuntimeID grant = rr_RuntimeID request)) || negb (bool_decide (fg_ClientID grant = rb_ClientID budget))) ErrScope;
  mret (grant, term, budget).

(** An increase is for the budget's term, while it is active, and must fit. *)
Definition admit_increase (now : Z) (grant : FleetGrant) (term : option FleetTerm) (budget : FleetRateBudget) (acc : sharing) (outstanding : Rates) : Tx unit :=
  let grows := negb (bool_decide (outstanding = previous acc)) in
  _ ← refuse (negb (bool_decide (fg_TermID grant = rb_TermID budget)) && grows) ErrScope;
  _ ← match term with
      | Some term =>
          if grows then
            _ ← refuse (negb (ft_ExpiresUnixMilli term =? 0) && (ft_ExpiresUnixMilli term <=? UnixMilli now)) ErrScope;
            _ ← managedAuthority (fg_ClientID grant) (fg_TermID grant) true;
            mret tt
          else mret tt
      | None => mret tt
      end;
  bound ← lift (decodeRates (rb_Desired budget));
  refuse (grows && (negb (fitsRates (rUpload bound) (uploads acc ++ [rUpload outstanding])) ||
                    negb (fitsRates (rDownload bound) (downloads acc ++ [rDownload outstanding])))) ErrBudget.

(** The share's row: created if there is none, then given its revision and rates. *)
Definition save_share (request : RateRequest) (acc : sharing) (outstanding : Rates) : Tx FleetRateShare :=
  let row := default (mkRateShare (rr_GrantID request) (rr_BudgetID request) (rr_NodeID request) (rr_InstallationID request) (rr_RuntimeID request)
                        0 0 NoRates NoRates) (own acc) in
  _ ← refuse (rs_Revision row =? MaxInt64) ErrFleetRevision;
  let result := mkRateShare (rs_ID row) (rs_BudgetID row) (rs_NodeID row) (rs_InstallationID row) (rs_RuntimeID row)
                  (rs_Revision row + 1) (rs_AppliedRevision row) (rr_Desired request) outstanding in
  _ ← refuse (negb (rate_share_check result)) ErrConstraint;
  s ← get;
  let owner := default result (rate_shares s !! rr_GrantID request) in
  _ ← refuse (negb (bool_decide (rs_BudgetID owner = rr_BudgetID request))) ErrScope;
  _ ← write (set_rate_shares (<[rr_GrantID request :=
         mkRateShare (rs_ID owner) (rs_BudgetID owner) (rs_NodeID owner) (rs_InstallationID owner) (rs_RuntimeID owner)
           (rs_Revision result) (rs_AppliedRevision owner) (rr_Desired request) outstanding]> (rate_shares s)));
  mret result.

Section Shares.
Context `{!UUIDs, !RateDigests}.

Definition replayed_share (digest : string) (op : FleetOperation) : Tx FleetRateShare :=
  _ ← refuse (negb (bool_decide (op_Digest op = digest))) ErrConflict;
  match op_Result op with ShareResult r => mret r | _ => fail ErrJSON end.

Definition request_share (now : Z) (request : RateRequest) : Tx FleetRateShare :=
  let digest := share_digest request in
  _ ← lockAuthority;
  op ← claim (rr_OperationID request) digest;
  match op with
  | Some op => replayed_share digest op
  | None =>
      scope ← share_scope request;
      let '(grant, term, budget) := scope in
      s ← get;
      acc ← lift (foldM (note_share request) (mkSharing None NoRates [] []) (shares_of s (rr_BudgetID request)));
      let outstanding := envelope_rates (previous acc) (rr_Desired request) in
      _ ← admit_increase now grant term budget acc outstanding;
      result ← save_share request acc outstanding;
      _ ← record_result (rr_OperationID request) digest (ShareResult result);
      mret result
  end.

Definition RequestRateShare (fault : option error) (now : Z) (request : RateRequest) (s : Fleet) : Fleet * result FleetRateShare :=
  if negb (validID (rr_OperationID request)) || negb (validID (rr_GrantID request)) || negb (validID (rr_BudgetID request)) ||
     negb (validID (rr_NodeID request)) || negb (validID (rr_InstallationID request)) || negb (runtimeName (rr_RuntimeID request)) ||
     negb (is_ok (Rates_validate (rr_Desired request)))
  then (s, Fail ErrInvalid)
  else Transaction fault (request_share now request) s.

Definition confirm_share (p : Principal) (grantID : string) (revision : Z) (applied : Rates) : Tx unit :=
  _ ← lockAuthority;
  _ ← lockNode (pNodeID p) (pInstallationID p);
  s ← get;
  share ← found (rate_shares s !! grantID) ErrRecordNotFound;
  _ ← refuse (negb (bool_decide (rs_NodeID share = pNodeID p)) || negb (bool_decide (rs_InstallationID share = pInstallationID p))) ErrScope;
  _ ← found (rate_budgets s !! rs_BudgetID share) ErrRecordNotFound;
  desired ← lift (decodeRates (rs_Desired share));
  _ ← refuse (negb (rs_Revision share =? revision) || negb (bool_decide (desired = applied))) ErrFleetRevision;
  write (set_rate_shares (<[grantID := mkRateShare (rs_ID share) (rs_BudgetID share) (rs_NodeID share) (rs_InstallationID share)
    (rs_RuntimeID share) (rs_Revision share) revision (rs_Desired share) applied]> (rate_shares s))).

Definition ConfirmRateShare (fault : option error) (p : Principal) (grantID : string) (revision : Z) (applied : Rates) (s : Fleet) : Fleet * result unit :=
  if negb (validID grantID) || (revision =? 0) || (MaxInt64 <? revision) || negb (is_ok (Rates_validate applied)) then (s, Fail ErrInvalid)
  else Transaction fault (confirm_share p grantID revision applied) s.

Definition decode_outstanding (acc : list Rates) (share : FleetRateShare) : result (list Rates) :=
  match decodeRates (rs_Outstanding share) with Ok r => Ok (acc ++ [r]) | Fail e => Fail (ErrorJoin ErrBudget e) end.

Definition rate_budget_pending (budgetID : string) : Tx bool :=
  s ← get;
  budget ← found (rate_budgets s !! budgetID) ErrRecordNotFound;
  bound ← lift (decodeRates (rb_Desired budget));
  rates ← lift (foldM decode_outstanding [] (shares_of s budgetID));
  mret (negb (fitsRates (rUpload bound) (rUpload <$> rates)) || negb (fitsRates (rDownload bound) (rDownload <$> rates))).

Definition RateBudgetPending (fault : option error) (budgetID : string) (s : Fleet) : Fleet * result bool :=
  if negb (validID budgetID) then (s, Fail ErrInvalid) else Transaction fault (rate_budget_pending budgetID) s.
End Shares.

(** ** What an applied configuration proves

    A bundle is what [configuration.Decode] reads in a payload: its runtimes with their
    grants, of which the rate revision and the policy matter here. *)
Record BundleGrant := mkBundleGrant { bg_ID : string; bg_RateRevision : Z; bg_Policy : Policy }.
Record BundleRuntime := mkBundleRuntime { br_ID : string; br_Grants : list BundleGrant }.

(** The last grant of an id counts, and every mention asks for its row. *)
Definition bundle_claims (keep : BundleGrant -> bool) (bundle : list BundleRuntime) : list (string * (BundleGrant * string)) :=
  concat ((fun rt => (fun g => (bg_ID g, (g, br_ID rt))) <$> filter (fun g => keep g = true) (br_Grants rt)) <$> bundle).
Definition claim_map (l : list (string * (BundleGrant * string))) : gmap string (BundleGrant * string) :=
  foldl (fun m row => <[row.1 := row.2]> m) ∅ l.

(** One share of the bundle, at the revision the bundle carries. *)
Definition acknowledge_share (p : Principal) (claims : gmap string (BundleGrant * string)) (acc : list FleetRateShare) (share : FleetRateShare)
    : result (list FleetRateShare) :=
  match claims !! rs_ID share with
  | None => Fail ErrScope
  | Some (grant, runtime) =>
      if negb (bool_decide (rs_NodeID share = pNodeID p)) || negb (bool_decide (rs_InstallationID share = pInstallationID p)) ||
         negb (bool_decide (rs_RuntimeID share = runtime)) then Fail ErrScope
      else if negb (rs_Revision share =? bg_RateRevision grant) then Ok acc
      else
        desired ← decodeRates (rs_Desired share);
        if negb (bool_decide (rUpload desired = Upload (bg_Policy grant))) || negb (bool_decide (rDownload desired = Download (bg_Policy grant)))
        then Fail ErrScope
        else Ok (acc ++ [mkRateShare (rs_ID share) (rs_BudgetID share) (rs_NodeID share) (rs_InstallationID share) (rs_RuntimeID share)
                           (rs_Revision share) (rs_Revision share) (rs_Desired share) (rs_Desired share)])
  end.

Definition write_share (_ : unit) (share : FleetRateShare) : Tx unit :=
  _ ← refuse (negb (rate_share_check share)) ErrConstraint;
  write (fun s => set_rate_shares (<[rs_ID share := share]> (rate_shares s)) s).

(** The chunks of ids are one list. *)
Definition acknowledgeConfiguration (p : Principal) (bundle : option (list BundleRuntime)) : Tx unit :=
  match bundle with
  | None => mret tt
  | Some bundle =>
      let rows := bundle_claims (fun g => negb (bg_RateRevision g =? 0)) bundle in
      s ← get;
      let shares := filter (fun r => rs_ID r ∈ rows.*1) (map_to_list (rate_shares s)).*2 in
      _ ← refuse (negb (Nat.eqb (length shares) (length rows))) ErrScope;
      changed ← lift (foldM (acknowledge_share p (claim_map rows)) [] shares);
      _ ← refuse (existsb (fun r => bool_decide (~ is_Some (rate_budgets s !! rs_BudgetID r))) changed) ErrScope;
      foldTx write_share tt changed
  end.

(** Grants the applied bundle disables and blocks, whose shares are given back. *)
Definition stopped_grant (g : BundleGrant) : bool :=
  negb (Enabled (bg_Policy g)) && (Mode (Upload (bg_Policy g)) =? Blocked) && (Mode (Download (bg_Policy g)) =? Blocked) && negb (bg_RateRevision g =? 0).

Definition stop_of (claims : gmap string (BundleGrant * string)) (revision : Z) (acc : list (string * FleetGrantStop)) (share : FleetRateShare)
    : result (list (string * FleetGrantStop)) :=
  match claims !! rs_ID share with
  | None => Ok acc
  | Some (grant, runtime) =>
      if negb (bool_decide (rs_RuntimeID share = runtime)) || negb (rs_Revision share =? bg_RateRevision grant) ||
         negb (rs_AppliedRevision share =? rs_Revision share) then Ok acc
      else
        outstanding ← decodeRates (rs_Outstanding share);
        Ok (if bool_decide (outstanding = NoRates) then acc ++ [(rs_ID share, mkStop revision (rs_Revision share))] else acc)
  end.

Definition recordStoppedGrants (nodeID : string) (revision : Z) (bundle : option (list BundleRuntime)) : Tx unit :=
  match bundle with
  | None => mret tt
  | Some bundle =>
      let rows := bundle_claims stopped_grant bundle in
      s ← get;
      let shares := filter (fun r => rs_ID r ∈ rows.*1 /\ rs_NodeID r = nodeID) (map_to_list (rate_shares s)).*2 in
      found ← lift (foldM (stop_of (claim_map rows) revision) [] shares);
      _ ← refuse (existsb (fun row => (DeploymentRevision row.2 <=? 0) || (RateRevision row.2 <=? 0)) found) ErrConstraint;
      write (fun s => set_stops (foldl (fun m row => <[row.1 := row.2]> m) (stops s) found) s)
  end.
