(* ===== verification/FleetLifecycle.v ===== *)
(** * The life of a client: controlplane/client_lifecycle.go, client_drain.go, client_cancel.go

    A client is bound to a panel client, holds the generation of its credentials, and lives
    through terms: one is active, or draining while its successor is pending.  A successor
    starts when every grant of the term before it is proved stopped. *)
From S2P Require Import Prelude Limits Authority Spool Rates Fleet FleetRates.
Open Scope string_scope.
Open Scope Z_scope.
Open Scope list_scope.

Record TermSpec := mkTermSpec {
  QuotaBytes : Z; tsUnlimited : bool; OpeningUsedBytes : Z; tsOpeningUploaded : Z; tsOpeningDownloaded : Z;
  tsDurationMillis : Z; tsExpiresUnixMilli : Z; tsRates : Rates }.

Record TransitionRequest := mkTransition {
  tq_OperationID : string; tq_ClientID : string; tq_ExpectedRevision : Z; tq_ExpectedCredentialGeneration : Z;
  tq_ExpectedTermID : string; tq_SourcePolicyDigest : string; tq_Kind : TermKind; tq_Spec : TermSpec }.
Record CompleteTransitionRequest := mkComplete {
  ct_OperationID : string; ct_ClientID : string; ct_PendingTermID : string; ct_ExpectedRevision : Z;
  ct_ExpectedCredentialGeneration : Z; ct_SourcePolicyDigest : string }.
Record CancelTransitionRequest := mkCancel {
  cn_OperationID : string; cn_ClientID : string; cn_PendingTermID : string; cn_ExpectedRevision : Z; cn_ExpectedCredentialGeneration : Z }.

Inductive LifecycleRequest := LTransition (r : TransitionRequest) | LComplete (r : CompleteTransitionRequest) | LCancel (r : CancelTransitionRequest).

(** SHA-256 of the kind and the JSON text of a request. *)
Class LifecycleDigests := { lifecycle_digest : LifecycleRequest -> string }.

Definition sha256_Size : nat := 32.

Section Lifecycle.
Context `{!UUIDs, !LifecycleDigests}.

(** ** Binding and credentials *)

(** The panel's client record is locked; [panel] says that it is there, [fresh] is the new id. *)
Definition bind_client (panel : bool) (fresh : string) (panelClientID : Z) (credentialDigest : string) : Tx FleetClient :=
  _ ← lockAuthority;
  _ ← refuse (negb panel) ErrRecordNotFound;
  s ← get;
  match filter (fun row => fc_PanelClientID row.2 = Some panelClientID) (map_to_list (clients s)) with
  | (_, client) :: _ =>
      _ ← refuse (negb (bool_decide (CredentialDigest client = credentialDigest))) ErrConflict; mret client
  | [] =>
      _ ← refuse (bool_decide (is_Some (clients s !! fresh))) ErrRecordNotFound;
      let client := mkClient (Some panelClientID) 1 1 credentialDigest None None false in
      _ ← write (set_clients (<[fresh := client]> (clients s))); mret client
  end.

Definition BindClient (fault : option error) (panel : bool) (fresh : string) (panelClientID : Z) (credentialDigest : string) (s : Fleet) : Fleet * result FleetClient :=
  if (panelClientID <=? 0) || negb (Nat.eqb (String.length credentialDigest) sha256_Size) then (s, Fail ErrInvalid)
  else Transaction fault (bind_client panel fresh panelClientID credentialDigest) s.

Definition with_credentials (c : FleetClient) (digest : string) : FleetClient :=
  mkClient (fc_PanelClientID c) (fc_Revision c + 1) (CredentialGeneration c + 1) digest (CurrentTermID c) (PendingTermID c) (Owned c).

Definition reconcile_credentials (clientID : string) (expectedGeneration : Z) (digest : string) : Tx FleetClient :=
  _ ← lockAuthority;
  client ← lockClient clientID;
  if bool_decide (CredentialDigest client = digest) && (expectedGeneration <=? CredentialGeneration client) then mret client
  else
    _ ← refuse (negb (CredentialGeneration client =? expectedGeneration) || (CredentialGeneration client =? MaxInt64) ||
                (fc_Revision client =? MaxInt64)) ErrFleetRevision;
    let client := with_credentials client digest in
    _ ← write (fun s => set_clients (<[clientID := client]> (clients s)) s);
    mret client.

Definition ReconcileCredentials (fault : option error) (clientID : string) (expectedGeneration : Z) (digest : string) (s : Fleet) : Fleet * result FleetClient :=
  if negb (validID clientID) || (expectedGeneration =? 0) || (MaxInt64 <? expectedGeneration) || negb (Nat.eqb (String.length digest) sha256_Size)
  then (s, Fail ErrInvalid)
  else Transaction fault (reconcile_credentials clientID expectedGeneration digest) s.

(** ** Terms *)

Definition validTermSpec (kind : TermKind) (spec : TermSpec) : bool :=
  if (tsOpeningUploaded spec <? 0) || (tsOpeningDownloaded spec <? 0) || exceeds (tsOpeningUploaded spec) (tsOpeningDownloaded spec) ||
     negb (tsOpeningUploaded spec + tsOpeningDownloaded spec =? OpeningUsedBytes spec) then false
  else if (QuotaBytes spec <? 0) || (OpeningUsedBytes spec <? 0) || tsUnlimited spec && negb (QuotaBytes spec =? 0) ||
          negb (tsUnlimited spec) && (QuotaBytes spec <? OpeningUsedBytes spec) || (tsDurationMillis spec <? 0) || (tsExpiresUnixMilli spec <? 0) ||
          negb (tsDurationMillis spec =? 0) && negb (tsExpiresUnixMilli spec =? 0) || negb (is_ok (Rates_validate (tsRates spec))) then false
  else match kind with
       | Activation => true
       | Renewal => (OpeningUsedBytes spec =? 0) && (0 <? tsDurationMillis spec) && (tsExpiresUnixMilli spec =? 0)
       | TrafficReset => (OpeningUsedBytes spec =? 0) && (tsDurationMillis spec =? 0) && (tsExpiresUnixMilli spec =? 0)
       end.

Definition with_term_state (t : FleetTerm) (state : TermState) : FleetTerm :=
  mkTerm (ft_ID t) (ft_ClientID t) (ft_Generation t) (PredecessorID t) (ft_Kind t) state (ft_CredentialGeneration t) (SourcePolicyDigest t)
    (ft_BudgetID t) (DurationMillis t) (StartedUnixMilli t) (ft_ExpiresUnixMilli t) (ft_Rates t) (OpeningUploaded t) (OpeningDownloaded t).

(** [now] in milliseconds; the sum is an [int64]. *)
Definition startTerm (t : FleetTerm) (now : Z) : result FleetTerm :=
  if MaxInt64 - now <? DurationMillis t then Fail ErrInvalid
  else
    let expires := if 0 <? DurationMillis t then now + DurationMillis t else ft_ExpiresUnixMilli t in
    if negb (bool_decide (ft_Kind t = TrafficReset)) && negb (expires =? 0) && (expires <=? now) then Fail ErrInvalid
    else Ok (mkTerm (ft_ID t) (ft_ClientID t) (ft_Generation t) (PredecessorID t) (ft_Kind t) (ft_State t) (ft_CredentialGeneration t)
               (SourcePolicyDigest t) (ft_BudgetID t) (DurationMillis t) now expires (ft_Rates t) (OpeningUploaded t) (OpeningDownloaded t)).

Definition save_term (t : FleetTerm) : Tx unit := write (fun s => set_terms (<[ft_ID t := t]> (terms s)) s).
Definition save_client (id : string) (c : FleetClient) : Tx unit := write (fun s => set_clients (<[id := c]> (clients s)) s).

(** A new row, refused when its key is taken or a check of the schema fails. *)
Definition create_budget (id : string) (b : FleetBudget) : Tx unit :=
  s ← get;
  _ ← refuse (bool_decide (is_Some (budgets s !! id)) || negb (budget_check b)) ErrConstraint;
  write (set_budgets (<[id := b]> (budgets s))).
Definition create_term (t : FleetTerm) : Tx unit :=
  s ← get;
  _ ← refuse (bool_decide (is_Some (terms s !! ft_ID t)) ||
              bool_decide (map_Exists (fun _ t' => ft_ClientID t' = ft_ClientID t /\ ft_Generation t' = ft_Generation t \/ ft_BudgetID t' = ft_BudgetID t) (terms s)))
        ErrConstraint;
  _ ← write (set_terms (<[ft_ID t := t]> (terms s)));
  s ← get;
  _ ← refuse (bool_decide (is_Some (term_usages s !! ft_ID t))) ErrConstraint;
  write (set_term_usages (<[ft_ID t := mkTermUsage 0 0 0 0]> (term_usages s))).

(** The client's rate pool follows the term. *)
Definition activateRatePool (clientID : string) (term : FleetTerm) : Tx unit :=
  s ← get;
  let revision := from_option rb_Revision 0 (rate_budgets s !! clientID) in
  _ ← refuse (revision =? MaxInt64) ErrFleetRevision;
  rates ← lift (decodeRates (ft_Rates term));
  SetRateBudget_tx clientID clientID (ft_ID term) (revision + 1) rates.

(** ** Operations answered once *)

Definition lifecycleOperation (operationID : string) (request : LifecycleRequest) (apply : Tx TransitionResult) : Tx TransitionResult :=
  _ ← refuse (negb (validID operationID)) ErrInvalid;
  let digest := lifecycle_digest request in
  _ ← lockAuthority;
  op ← claim operationID digest;
  match op with
  | Some op =>
      _ ← refuse (negb (bool_decide (op_Digest op = digest))) ErrConflict;
      match op_Result op with TermResult r => mret r | _ => fail ErrJSON end
  | None =>
      result ← apply;
      _ ← record_result operationID digest (TermResult result);
      mret result
  end.

(** ** Starting, completing and cancelling a transition *)

Definition with_terms (c : FleetClient) (current pending : option string) : FleetClient :=
  mkClient (fc_PanelClientID c) (fc_Revision c + 1) (CredentialGeneration c) (CredentialDigest c) current pending (Owned c).

Definition term_generations (s : Fleet) (clientID : string) : Z :=
  foldr Z.max 0 (ft_Generation <$> filter (fun t => ft_ClientID t = clientID) (map_to_list (terms s)).*2).

Definition new_term (r : TransitionRequest) (client : FleetClient) (fresh : string) (generation : Z) : FleetTerm :=
  mkTerm fresh (tq_ClientID r) (generation + 1) None (tq_Kind r) Active (CredentialGeneration client) (tq_SourcePolicyDigest r) fresh
    (tsDurationMillis (tq_Spec r)) 0 (tsExpiresUnixMilli (tq_Spec r)) (tsRates (tq_Spec r)) (tsOpeningUploaded (tq_Spec r)) (tsOpeningDownloaded (tq_Spec r)).

(** The successor of the current term, which starts to drain. *)
Definition succeed_term (now : Z) (r : TransitionRequest) (currentID : string) (term : FleetTerm) : Tx FleetTerm :=
  previous ← first_term currentID (tq_ClientID r);
  _ ← refuse (negb (bool_decide (ft_State previous = Active)) || (ft_Generation previous =? MaxInt64) ||
              bool_decide (tq_Kind r = Renewal) && ((ft_ExpiresUnixMilli previous =? 0) || (UnixMilli now <? ft_ExpiresUnixMilli previous))) ErrFleetRevision;
  _ ← save_term (with_term_state previous Draining);
  mret (mkTerm (ft_ID term) (ft_ClientID term) (ft_Generation term) (Some (ft_ID previous)) (ft_Kind term) Pending (ft_CredentialGeneration term)
          (SourcePolicyDigest term) (ft_BudgetID term) (DurationMillis term) (StartedUnixMilli term)
          (if bool_decide (tq_Kind r = TrafficReset) then ft_ExpiresUnixMilli previous else ft_ExpiresUnixMilli term)
          (ft_Rates term) (OpeningUploaded term) (OpeningDownloaded term)).

Definition transition (now : Z) (fresh : string) (r : TransitionRequest) : Tx TransitionResult :=
  client ← lockClient (tq_ClientID r);
  _ ← refuse (negb (fc_Revision client =? tq_ExpectedRevision r) || negb (CredentialGeneration client =? tq_ExpectedCredentialGeneration r) ||
              (fc_Revision client =? MaxInt64)) ErrFleetRevision;
  _ ← refuse (bool_decide (is_Some (PendingTermID client))) ErrDrain;
  let currentID := default "" (CurrentTermID client) in
  _ ← refuse (negb (bool_decide (currentID = tq_ExpectedTermID r))) ErrFleetRevision;
  s ← get;
  let generation := term_generations s (tq_ClientID r) in
  _ ← refuse (generation =? MaxInt64) ErrFleetRevision;
  let term := new_term r client fresh generation in
  term ← (if bool_decide (tq_Kind r = Activation) then
            _ ← refuse (negb (bool_decide (currentID = ""))) ErrConflict;
            lift (startTerm term (UnixMilli now))
          else
            _ ← refuse (bool_decide (currentID = "")) ErrScope;
            succeed_term now r currentID term);
  let client := if bool_decide (tq_Kind r = Activation) then with_terms client (Some (ft_ID term)) (PendingTermID client)
                else with_terms client (CurrentTermID client) (Some (ft_ID term)) in
  _ ← create_budget (ft_BudgetID term) (mkBudget (QuotaBytes (tq_Spec r)) (tsUnlimited (tq_Spec r)) (OpeningUsedBytes (tq_Spec r)) 0);
  _ ← create_term term;
  _ ← save_client (tq_ClientID r) client;
  _ ← (if bool_decide (ft_State term = Active) then activateRatePool (tq_ClientID r) term else mret tt);
  mret (mkTransitionResult client term (bool_decide (ft_State term = Pending))).

Definition Transition (fault : option error) (now : Z) (fresh : string) (r : TransitionRequest) (s : Fleet) : Fleet * result TransitionResult :=
  if negb (validID (tq_ClientID r)) || (tq_ExpectedRevision r =? 0) || (MaxInt64 <? tq_ExpectedRevision r) ||
     (tq_ExpectedCredentialGeneration r =? 0) || (MaxInt64 <? tq_ExpectedCredentialGeneration r) ||
     negb (bool_decide (tq_ExpectedTermID r = "")) && negb (validID (tq_ExpectedTermID r)) ||
     negb (Nat.eqb (String.length (tq_SourcePolicyDigest r)) sha256_Size) || negb (validTermSpec (tq_Kind r) (tq_Spec r))
  then (s, Fail ErrInvalid)
  else Transaction fault (lifecycleOperation (tq_OperationID r) (LTransition r) (transition now fresh r)) s.

(** A grant of the term before: its share was given back in full, and the node proved the
    stop at a revision of the share that was applied. *)
Definition stopped (s : Fleet) (term : FleetTerm) (grantID : string) : result unit :=
  match rate_shares s !! grantID, stops s !! grantID with
  | Some share, Some stop =>
      if negb (bool_decide (rs_BudgetID share = ft_ClientID term)) || (DeploymentRevision stop =? 0) || (rs_AppliedRevision share <? RateRevision stop)
      then Fail ErrDrain
      else outstanding ← decodeRates (rs_Outstanding share); if bool_decide (outstanding = NoRates) then Ok tt else Fail ErrDrain
  | _, _ => Fail ErrDrain
  end.

(** The batches of a thousand are one list; a share or a stop that is missing is found first. *)
Definition requireStoppedGrants (term : FleetTerm) : Tx unit :=
  s ← get;
  let ids := fg_ID <$> filter (fun g => fg_ClientID g = ft_ClientID term /\ fg_TermID g = ft_ID term) (map_to_list (grants s)).*2 in
  _ ← refuse (existsb (fun id => bool_decide (~ is_Some (rate_shares s !! id)) || bool_decide (~ is_Some (stops s !! id))) ids) ErrDrain;
  lift (foldM (fun _ id => stopped s term id) tt ids).

(** The pending term and the one it replaces. *)
Definition pending_terms (clientID : string) (client : FleetClient) (pendingID : string) : Tx (FleetTerm * FleetTerm) :=
  term ← first_term pendingID clientID;
  previous ← first_term (default "" (CurrentTermID client)) clientID;
  _ ← refuse (negb (bool_decide (ft_State term = Pending)) || negb (bool_decide (ft_State previous = Draining)) ||
              negb (bool_decide (PredecessorID term = Some (ft_ID previous)))) ErrFleetRevision;
  mret (term, previous).

Definition with_credential_generation (t : FleetTerm) (g : Z) : FleetTerm :=
  mkTerm (ft_ID t) (ft_ClientID t) (ft_Generation t) (PredecessorID t) (ft_Kind t) (ft_State t) g (SourcePolicyDigest t)
    (ft_BudgetID t) (DurationMillis t) (StartedUnixMilli t) (ft_ExpiresUnixMilli t) (ft_Rates t) (OpeningUploaded t) (OpeningDownloaded t).

Definition complete (now : Z) (r : CompleteTransitionRequest) : Tx TransitionResult :=
  client ← lockClient (ct_ClientID r);
  _ ← refuse (negb (fc_Revision client =? ct_ExpectedRevision r) || negb (CredentialGeneration client =? ct_ExpectedCredentialGeneration r) ||
              (fc_Revision client =? MaxInt64) || negb (bool_decide (PendingTermID client = Some (ct_PendingTermID r))) ||
              bool_decide (CurrentTermID client = None)) ErrFleetRevision;
  both ← pending_terms (ct_ClientID r) client (ct_PendingTermID r);
  let '(term, previous) := both in
  _ ← refuse (negb (bool_decide (SourcePolicyDigest term = ct_SourcePolicyDigest r))) ErrFleetRevision;
  s ← get;
  rates ← found (rate_budgets s !! ct_ClientID r) ErrRecordNotFound;
  _ ← refuse (negb (bool_decide (rb_ClientID rates = ct_ClientID r))) ErrRecordNotFound;
  _ ← requireStoppedGrants previous;
  started ← lift (startTerm term (UnixMilli now));
  let term := with_credential_generation (with_term_state started Active) (CredentialGeneration client) in
  _ ← save_term term;
  _ ← save_term (with_term_state previous Closed);
  let client := with_terms client (Some (ft_ID term)) None in
  _ ← save_client (ct_ClientID r) client;
  _ ← activateRatePool (ct_ClientID r) term;
  mret (mkTransitionResult client term false).

Definition CompleteTransition (fault : option error) (now : Z) (r : CompleteTransitionRequest) (s : Fleet) : Fleet * result TransitionResult :=
  if negb (validID (ct_ClientID r)) || negb (validID (ct_PendingTermID r)) || (ct_ExpectedRevision r =? 0) || (MaxInt64 <? ct_ExpectedRevision r) ||
     (ct_ExpectedCredentialGeneration r =? 0) || (MaxInt64 <? ct_ExpectedCredentialGeneration r) ||
     negb (Nat.eqb (String.length (ct_SourcePolicyDigest r)) sha256_Size)
  then (s, Fail ErrInvalid)
  else Transaction fault (lifecycleOperation (ct_OperationID r) (LComplete r) (complete now r)) s.

Definition cancel (r : CancelTransitionRequest) : Tx TransitionResult :=
  client ← lockClient (cn_ClientID r);
  _ ← refuse (negb (fc_Revision client =? cn_ExpectedRevision r) || negb (CredentialGeneration client =? cn_ExpectedCredentialGeneration r) ||
              (fc_Revision client =? MaxInt64) || negb (bool_decide (PendingTermID client = Some (cn_PendingTermID r))) ||
              bool_decide (CurrentTermID client = None)) ErrFleetRevision;
  both ← pending_terms (cn_ClientID r) client (cn_PendingTermID r);
  let '(term, previous) := both in
  _ ← save_term (with_term_state term Closed);
  let previous := with_term_state previous Active in
  _ ← save_term previous;
  let client := with_terms client (CurrentTermID client) None in
  _ ← save_client (cn_ClientID r) client;
  mret (mkTransitionResult client previous false).

Definition CancelTransition (fault : option error) (r : CancelTransitionRequest) (s : Fleet) : Fleet * result TransitionResult :=
  if negb (validID (cn_ClientID r)) || negb (validID (cn_PendingTermID r)) || (cn_ExpectedRevision r =? 0) || (MaxInt64 <? cn_ExpectedRevision r) ||
     (cn_ExpectedCredentialGeneration r =? 0) || (MaxInt64 <? cn_ExpectedCredentialGeneration r)
  then (s, Fail ErrInvalid)
  else Transaction fault (lifecycleOperation (cn_OperationID r) (LCancel r) (cancel r)) s.
End Lifecycle.
