(* ===== verification/FleetJournals.v ===== *)
(** * Journals of nodes: controlplane/journal_registry.go

    A node registers the identities of its journals once.  Losing or replacing one means
    that authority may have been forgotten: the node is held for recovery, and held nodes
    are issued nothing. *)
From S2P Require Import Prelude Limits Authority AuthorityWire Spool Rates Fleet.
Open Scope string_scope.
Open Scope Z_scope.
Open Scope list_scope.

Section Journals.
Context `{!UUIDs, !WireDigests}.

(** The first reason stays. *)
Definition holdNodeJournal (p : Principal) (reason : string) : Tx unit :=
  s ← get;
  let row := match node_journals s !! pNodeID p with
             | Some n => mkNodeJournal (nj_InstallationID n) (nj_StateJournalID n) true (if nj_RecoveryRequired n then nj_Reason n else reason)
             | None => mkNodeJournal (pInstallationID p) None true reason
             end in
  write (set_node_journals (<[pNodeID p := row]> (node_journals s))).

(** Whether the node, or one of its runtimes, was ever issued a grant. *)
Definition anyRuntimeAuthority (s : Fleet) (p : Principal) (runtime : string) : bool :=
  bool_decide (map_Exists (fun _ g => fg_NodeID g = pNodeID p /\ (runtime = "" \/ fg_RuntimeID g = runtime)) (grants s)).

Definition new_runtime (p : Principal) (j : RuntimeJournalIdentity) : FleetRuntimeJournal :=
  mkRuntimeJournal (riRuntimeId j) (pInstallationID p) (riCoreId j) (riStateJournalId j) (riCreditJournalId j) 0 "" false 0 0.

(** The node's rows. *)
Definition runtimes_of (s : Fleet) (node : string) : gmap (string * string) FleetRuntimeJournal :=
  filter (fun row => row.1.1 = node) (runtime_journals s).

Definition same_identity (p : Principal) (j : RuntimeJournalIdentity) (r : FleetRuntimeJournal) : bool :=
  bool_decide (rj_InstallationID r = pInstallationID p) && bool_decide (rj_CoreID r = riCoreId j) &&
  bool_decide (rj_StateJournalID r = riStateJournalId j) && bool_decide (rj_CreditJournalID r = riCreditJournalId j).

(** The loop over the runtimes: why the node must be held, or the rows to add. *)
Fixpoint plan_runtimes (s : Fleet) (p : Principal) (added : list RuntimeJournalIdentity) (l : list RuntimeJournalIdentity)
    : result (string + list RuntimeJournalIdentity) :=
  let saved := Z.of_nat (size (runtimes_of s (pNodeID p))) in
  match l with
  | [] => if 32 <? saved + Z.of_nat (length added) then Fail ErrInvalid else Ok (inr added)
  | j :: rest =>
      match runtime_journals s !! (pNodeID p, riRuntimeId j) with
      | Some previous => if same_identity p j previous then plan_runtimes s p added rest else Ok (inl "RUNTIME_JOURNAL_REPLACED")
      | None =>
          if 32 <=? saved + Z.of_nat (length added) then Fail ErrInvalid
          else if anyRuntimeAuthority s p (riRuntimeId j) then Ok (inl "RUNTIME_JOURNAL_HISTORY_MISSING")
          else plan_runtimes s p (added ++ [j]) rest
      end
  end.

(** Journal ids are unique in the schema. *)
Definition create_node_journal (p : Principal) (journal : string) : Tx unit :=
  s ← get;
  _ ← refuse (bool_decide (is_Some (node_journals s !! pNodeID p)) ||
              bool_decide (map_Exists (fun _ n => nj_StateJournalID n = Some journal) (node_journals s))) ErrConstraint;
  write (set_node_journals (<[pNodeID p := mkNodeJournal (pInstallationID p) (Some journal) false ""]> (node_journals s))).
Definition create_runtime (p : Principal) (_ : unit) (j : RuntimeJournalIdentity) : Tx unit :=
  s ← get;
  _ ← refuse (bool_decide (is_Some (runtime_journals s !! (pNodeID p, riRuntimeId j))) ||
              bool_decide (map_Exists (fun _ r => rj_StateJournalID r = riStateJournalId j \/ rj_CreditJournalID r = riCreditJournalId j) (runtime_journals s)))
        ErrConstraint;
  write (set_runtime_journals (<[(pNodeID p, riRuntimeId j) := new_runtime p j]> (runtime_journals s))).

(** [isNew] says that the node has no row yet.  The answer is whether the node is held. *)
Definition register_runtimes (p : Principal) (r : JournalRegistration) (isNew : bool) : Tx bool :=
  s ← get;
  plan ← lift (plan_runtimes s p [] (omap id (jrRuntimes r)));
  match plan with
  | inl reason => _ ← holdNodeJournal p reason; mret true
  | inr added =>
      _ ← (if isNew then create_node_journal p (jrAgentStateJournalId r) else mret tt);
      _ ← foldTx (create_runtime p) tt added;
      mret false
  end.

Definition register (peer : result unit) (p : Principal) (r : JournalRegistration) : Tx bool :=
  _ ← lockAuthenticatedNode peer p;
  s ← get;
  match node_journals s !! pNodeID p with
  | Some node =>
      if nj_RecoveryRequired node then mret true
      else if negb (bool_decide (nj_InstallationID node = pInstallationID p)) ||
              negb (bool_decide (nj_StateJournalID node = Some (jrAgentStateJournalId r)))
      then _ ← holdNodeJournal p "NODE_STATE_JOURNAL_REPLACED"; mret true
      else register_runtimes p r false
  | None =>
      if anyRuntimeAuthority s p "" then _ ← holdNodeJournal p "NODE_JOURNAL_HISTORY_MISSING"; mret true
      else register_runtimes p r true
  end.

Record JournalRegistrationReceipt := mkJournalReceipt { jcAgentStateJournalId : string; RegistrationSha256 : string }.

Definition RegisterJournals (fault : option error) (peer : result unit) (p : Principal) (request : option JournalRegistration) (s : Fleet)
    : Fleet * result JournalRegistrationReceipt :=
  match NormalizeRegistration request with
  | Fail _ => (s, Fail ErrInvalid)
  | Ok (r, digest) =>
      if negb (Require p (jrNodeId r) (jrInstallationId r)) then (s, Fail ErrScope)
      else
        let '(s', held) := Transaction fault (register peer p r) s in
        (s', held ← held; if held : bool then Fail ErrRecovery else Ok (mkJournalReceipt (jrAgentStateJournalId r) digest))
  end.

(** The agent's journal at the start of a session. *)
Definition agent_journal (peer : result unit) (p : Principal) (journalID : string) : Tx bool :=
  _ ← lockAuthenticatedNode peer p;
  s ← get;
  match requireNodeJournalTx (pNodeID p) (pInstallationID p) journalID s with
  | Ok _ => mret false
  | Fail e =>
      if bool_decide (e = ErrRecovery) then _ ← holdNodeJournal p "NODE_STATE_JOURNAL_REPLACED"; mret true
      else if negb (bool_decide (e = ErrScope)) then fail e
      else if anyRuntimeAuthority s p "" then _ ← holdNodeJournal p "NODE_JOURNAL_HISTORY_MISSING"; mret true
      else fail ErrScope
  end.

Definition RequireAgentJournal (fault : option error) (peer : result unit) (p : Principal) (journalID : string) (s : Fleet) : Fleet * result unit :=
  if negb (ValidID journalID) then (s, Fail ErrInvalid)
  else
    let '(s', held) := Transaction fault (agent_journal peer p journalID) s in
    (s', held ← held; if held : bool then Fail ErrRecovery else Ok tt).
End Journals.
