(* ===== verification/FleetCredit.v ===== *)
(** * Credit on its way to a node: controlplane/credit_delivery.go

    A grant's new ceiling is queued for its node, fetched by the runtime it is for, and
    acknowledged.  The outbox holds one row per grant. *)
From S2P Require Import Prelude Limits Authority AuthorityWire Spool Rates Fleet FleetJournals.
Open Scope string_scope.
Open Scope Z_scope.
Open Scope list_scope.

Definition errCreditJournal : error := ErrorText "credit runtime journal changed".

(** The checks of the schema. *)
Definition credit_update_check (r : FleetCreditUpdate) : bool :=
  (0 <? cr_Base r) && (0 <? cr_Revision r) && (0 <=? cr_Ceiling r) && (0 <=? cr_AckRevision r) && (cr_AckRevision r <=? cr_Revision r) &&
  (0 <=? cr_AckCeiling r) && (cr_AckCeiling r <=? cr_Ceiling r).
Definition save_credit_update (r : FleetCreditUpdate) : Tx unit :=
  _ ← refuse (negb (credit_update_check r)) ErrConstraint;
  s ← get; write (set_credit_updates (<[cr_GrantID r := r]> (credit_updates (delivery s)))).

Definition with_ack (r : FleetCreditUpdate) (revision ceiling : Z) : FleetCreditUpdate :=
  mkCreditUpdate (cr_GrantID r) (cr_NodeID r) (cr_InstallationID r) (cr_RuntimeID r) (cr_StateJournalID r) (cr_CreditJournalID r)
    (cr_ClientID r) (cr_TermID r) (cr_Base r) (cr_Revision r) (cr_Ceiling r) revision ceiling.

Section Credit.
Context `{!UUIDs, !WireDigests}.

(** ** Queueing *)

Definition queue_credit (grantID : string) (baseRevision : Z) : Tx unit :=
  _ ← lockAuthority;
  s ← get;
  grant ← found (grants s !! grantID) ErrRecordNotFound;
  _ ← lockNode (fg_NodeID grant) (fg_InstallationID grant);
  _ ← refuse (fg_Unlimited grant || bool_decide (fg_PlacementID grant = None)) ErrScope;
  _ ← managedAuthority (fg_ClientID grant) (fg_TermID grant) true;
  _ ← RequireRuntimeJournalTx (fg_NodeID grant) (fg_InstallationID grant) (fg_RuntimeID grant);
  node ← found (nodes s !! fg_NodeID grant) ErrRecordNotFound;
  _ ← refuse (negb (AppliedRevision node =? baseRevision) || negb (DesiredRevision node =? AppliedRevision node)) ErrFleetRevision;
  runtime ← found (runtime_journals s !! (fg_NodeID grant, fg_RuntimeID grant)) ErrRecordNotFound;
  let incoming := mkCreditUpdate (fg_ID grant) (fg_NodeID grant) (fg_InstallationID grant) (fg_RuntimeID grant) (rj_StateJournalID runtime)
                    (rj_CreditJournalID runtime) (fg_ClientID grant) (fg_TermID grant) baseRevision (fg_Revision grant) (IssuedBytes grant) 0 0 in
  match credit_updates (delivery s) !! fg_ID grant with
  | Some previous =>
      _ ← refuse ((cr_Revision incoming <? cr_Revision previous) || (cr_Ceiling incoming <? cr_Ceiling previous) || (cr_Base incoming <? cr_Base previous)) ErrRecovery;
      save_credit_update (if cr_Base previous =? cr_Base incoming then with_ack incoming (cr_AckRevision previous) (cr_AckCeiling previous) else incoming)
  | None => save_credit_update incoming
  end.

Definition QueueCreditUpdate (fault : option error) (grantID : string) (baseRevision : Z) (s : Fleet) : Fleet * result unit :=
  if negb (validID grantID) || (baseRevision =? 0) || (MaxInt64 <? baseRevision) then (s, Fail ErrInvalid)
  else Transaction fault (queue_credit grantID baseRevision) s.

(** ** Fetching *)

Definition creditScope (peer : result unit) (p : Principal) (q : RuntimeScope) : Tx FleetNode :=
  _ ← lockAuthority;
  _ ← lockAuthenticatedNode peer p;
  _ ← requireNodeJournalTx (pNodeID p) (pInstallationID p) (AgentStateJournalId q);
  s ← get;
  runtime ← found (runtime_journals s !! (pNodeID p, RuntimeId q)) ErrRecordNotFound;
  _ ← refuse (negb (bool_decide (rj_InstallationID runtime = pInstallationID p)) || negb (bool_decide (rj_StateJournalID runtime = StateJournalId q)) ||
              negb (bool_decide (rj_CreditJournalID runtime = CreditJournalId q))) errCreditJournal;
  found (nodes s !! pNodeID p) ErrRecordNotFound.

(** The runtime behind the request must be the registered one: otherwise the node is held. *)
Definition scoped {A} (peer : result unit) (p : Principal) (q : RuntimeScope) (body : FleetNode -> Tx (option A)) : Tx (option A) :=
  s ← get;
  match creditScope peer p q s with
  | Ok (node, _) => body node
  | Fail e =>
      if bool_decide (e = errCreditJournal) then _ ← holdNodeJournal p "CREDIT_RUNTIME_JOURNAL_REPLACED"; mret None else fail e
  end.

Definition update_le (a b : FleetCreditUpdate) : Prop := String.le (cr_GrantID a) (cr_GrantID b).
#[global] Instance update_le_dec a b : Decision (update_le a b).
Proof. unfold update_le. apply _. Defined.

(** What the runtime has not acknowledged, by grant, 32 at most. *)
Definition due (s : Fleet) (p : Principal) (runtime : string) (base : Z) : list FleetCreditUpdate :=
  firstn 32 (merge_sort update_le (filter (fun r => cr_NodeID r = pNodeID p /\ cr_InstallationID r = pInstallationID p /\ cr_RuntimeID r = runtime /\
    cr_Base r = base /\ cr_AckRevision r < cr_Revision r) (map_to_list (credit_updates (delivery s))).*2)).

Definition wire_update (r : FleetCreditUpdate) : CreditUpdate := mkWireCredit (cr_GrantID r) (cr_ClientID r) (cr_TermID r) (cr_Revision r) (cr_Ceiling r).

(** One row: discarded, or part of the answer. *)
Definition sort_update (q : RuntimeScope) (allowed : gset string) (acc : list FleetCreditUpdate * list string) (r : FleetCreditUpdate)
    : result (list FleetCreditUpdate * list string) :=
  if negb (bool_decide (cr_GrantID r ∈ allowed)) then Ok (acc.1, acc.2 ++ [cr_GrantID r])
  else if negb (bool_decide (cr_StateJournalID r = StateJournalId q)) || negb (bool_decide (cr_CreditJournalID r = CreditJournalId q)) then Fail ErrRecovery
  else Ok (acc.1 ++ [r], acc.2).

(** [validator] says which grants may still have what was queued; it reads the tables. *)
Definition fetch_credit (validator : option (list FleetCreditUpdate -> Fleet -> result (gset string))) (p : Principal) (q : RuntimeScope) (node : FleetNode)
    : Tx (option CreditUpdateBatch) :=
  let empty := mkCreditBatch q 0 [] in
  if (AppliedRevision node =? 0) || negb (AppliedRevision node =? DesiredRevision node) then mret (Some empty)
  else
    s ← get;
    if negb (from_option rj_Ready false (runtime_journals s !! (pNodeID p, RuntimeId q))) then mret (Some empty)
    else
      let updates := due s p (RuntimeId q) (AppliedRevision node) in
      if bool_decide (updates = []) then mret (Some empty)
      else
        validator ← found validator ErrScope;
        allowed ← lift (validator updates s);
        sorted ← lift (foldM (sort_update q allowed) ([], []) updates);
        let '(kept, discarded) := sorted in
        _ ← write (fun s => set_credit_updates (filter (fun row => row.1 ∉ discarded) (credit_updates (delivery s))) s);
        mret (Some (if bool_decide (kept = []) then empty else mkCreditBatch q (AppliedRevision node) (Some <$> (wire_update <$> kept)))).

Definition held_or {A} (r : result (option A)) : result A :=
  o ← r; match o with Some a => Ok a | None => Fail ErrRecovery end.

(** The agent's journal is checked in a transaction of its own. *)
Definition FetchCredit (fault fault' : option error) (peer : result unit) (p : Principal) (request : option RuntimeScope)
    (validator : option (list FleetCreditUpdate -> Fleet -> result (gset string))) (s : Fleet) : Fleet * result CreditUpdateBatch :=
  match request with
  | None => (s, Fail ErrScope)
  | Some q =>
      if negb (is_ok (ValidateCreditRequest request)) || negb (Require p (NodeId q) (InstallationId q)) then (s, Fail ErrScope)
      else
        let '(s', r) := RequireAgentJournal fault peer p (AgentStateJournalId q) s in
        match r with
        | Fail e => (s', Fail e)
        | Ok _ => let '(s'', r) := Transaction fault' (scoped peer p q (fetch_credit validator p q)) s' in (s'', held_or r)
        end
  end.

(** ** Acknowledging *)

Definition acknowledge_update (p : Principal) (b : CreditUpdateBatch) (_ : unit) (u : option CreditUpdate) : Tx unit :=
  match u with
  | None => fail ErrReport
  | Some u =>
      s ← get;
      row ← found (credit_updates (delivery s) !! wGrantId u) ErrFleetRevision;
      let q := cbScope b in
      _ ← refuse (negb (bool_decide (cr_NodeID row = pNodeID p)) || negb (bool_decide (cr_InstallationID row = pInstallationID p)) ||
                  negb (bool_decide (cr_RuntimeID row = RuntimeId q)) || negb (bool_decide (cr_ClientID row = wClientId u)) ||
                  negb (bool_decide (cr_TermID row = wTermId u)) || negb (bool_decide (cr_StateJournalID row = StateJournalId q)) ||
                  negb (bool_decide (cr_CreditJournalID row = CreditJournalId q)) || negb (cr_Base row =? BaseConfigurationRevision b)) ErrScope;
      if (cr_AckRevision row =? wCreditRevision u) && (cr_AckCeiling row =? wCreditCeiling u) then mret tt
      else
        _ ← refuse (negb (cr_Revision row =? wCreditRevision u) || negb (cr_Ceiling row =? wCreditCeiling u)) ErrFleetRevision;
        save_credit_update (with_ack row (cr_Revision row) (cr_Ceiling row))
  end.

Definition acknowledge_credit (p : Principal) (b : CreditUpdateBatch) (node : FleetNode) : Tx (option unit) :=
  _ ← refuse (negb (AppliedRevision node =? BaseConfigurationRevision b) || negb (DesiredRevision node =? AppliedRevision node)) ErrFleetRevision;
  _ ← foldTx (acknowledge_update p b) tt (Updates b);
  mret (Some tt).

Definition AcknowledgeCredit (fault fault' : option error) (peer : result unit) (p : Principal) (batch : option CreditUpdateBatch) (s : Fleet)
    : Fleet * result string :=
  match batch with
  | None => (s, Fail ErrInvalid)
  | Some b =>
      let q := cbScope b in
      if negb (is_ok (ValidateCreditBatch batch false)) then (s, Fail ErrInvalid)
      else if negb (Require p (NodeId q) (InstallationId q)) then (s, Fail ErrScope)
      else
        match credit_batch_digest b with
        | Fail e => (s, Fail e)
        | Ok digest =>
            let '(s', r) := RequireAgentJournal fault peer p (AgentStateJournalId q) s in
            match r with
            | Fail e => (s', Fail e)
            | Ok _ => let '(s'', r) := Transaction fault' (scoped peer p q (acknowledge_credit p b)) s' in (s'', _ ← held_or r; Ok digest)
            end
        end
  end.
End Credit.
