(* ===== verification/FleetFacts.v ===== *)
(** * Reading a transaction that committed

    Inversion of the transaction monad, the guards that write nothing, and sums over the
    rows of a table. *)
From S2P Require Import Prelude Limits Authority Spool Rates Fleet FleetLedger.
Open Scope Z_scope.
Open Scope list_scope.

(** ** Inversion *)

Lemma tx_bind_ok {A B} (f : A -> Tx B) (m : Tx A) s b s'' :
  (x ← m; f x) s = Ok (b, s'') <-> exists a s', m s = Ok (a, s') /\ f a s' = Ok (b, s'').
Proof.
  unfold mbind, Tx_bind. destruct (m s) as [[a s']|e]; [|naive_solver]. split; [eauto|]. intros (? & ? & [= <- <-] & ?). done.
Qed.
Lemma tx_ret_ok {A} (a : A) s b s' : (mret a : Tx A) s = Ok (b, s') <-> b = a /\ s' = s.
Proof. unfold mret, Tx_ret. naive_solver. Qed.
Lemma tx_get_ok s a s' : get s = Ok (a, s') <-> a = s /\ s' = s.
Proof. unfold get. naive_solver. Qed.
Lemma tx_write_ok f s a s' : write f s = Ok (a, s') <-> s' = f s.
Proof. unfold write. destruct a. naive_solver. Qed.
Lemma tx_refuse_ok b e s a s' : refuse b e s = Ok (a, s') <-> b = false /\ s' = s.
Proof. unfold refuse. destruct b, a; naive_solver. Qed.
Lemma tx_lift_ok {A} (r : result A) s a s' : lift r s = Ok (a, s') <-> r = Ok a /\ s' = s.
Proof. unfold lift. destruct r; naive_solver. Qed.
Lemma tx_found_ok {A} (o : option A) e s a s' : found o e s = Ok (a, s') <-> o = Some a /\ s' = s.
Proof. unfold found. destruct o; naive_solver. Qed.
Lemma tx_fail_ok {A} e s (a : A) s' : fail e s = Ok (a, s') <-> False.
Proof. unfold fail. naive_solver. Qed.
Create HintDb tx.
#[export] Hint Rewrite @tx_bind_ok @tx_ret_ok tx_get_ok tx_write_ok tx_refuse_ok @tx_lift_ok @tx_found_ok @tx_fail_ok : tx.

(** Take a committed transaction apart, step by step. *)
Ltac tx_step H :=
  match type of H with
  | (mbind _ _) _ = Ok (_, _) => apply tx_bind_ok in H as (? & ? & ? & H)
  | _ => idtac
  end.
Ltac tx H := autorewrite with tx in H; repeat (destruct_and? H || destruct H as [? H]); subst.

(** ** What guards leave alone *)
Class ReadOnly {A} (m : Tx A) : Prop := read_only : forall s a s', m s = Ok (a, s') -> s' = s.

#[global] Instance bind_ro {A B} (m : Tx A) (f : A -> Tx B) : ReadOnly m -> (forall a, ReadOnly (f a)) -> ReadOnly (mbind f m).
Proof. intros Hm Hf s b s'' (a & s' & H1 & H2)%tx_bind_ok. rewrite (Hf a _ _ _ H2). by apply (Hm _ _ _ H1). Qed.
#[global] Instance ret_ro {A} (a : A) : ReadOnly (mret a : Tx A).
Proof. intros s b s' ?%tx_ret_ok. naive_solver. Qed.
#[global] Instance get_ro : ReadOnly get.
Proof. intros s b s' ?%tx_get_ok. naive_solver. Qed.
#[global] Instance refuse_ro b e : ReadOnly (refuse b e).
Proof. intros s a s' ?%tx_refuse_ok. naive_solver. Qed.
#[global] Instance lift_ro {A} (r : result A) : ReadOnly (lift r).
Proof. intros s a s' ?%tx_lift_ok. naive_solver. Qed.
#[global] Instance found_ro {A} (o : option A) e : ReadOnly (found o e).
Proof. intros s a s' ?%tx_found_ok. naive_solver. Qed.
#[global] Instance fail_ro {A} e : ReadOnly (fail e : Tx A).
Proof. intros s a s' H%tx_fail_ok. done. Qed.
#[global] Instance match_option_ro {A B} (o : option A) (f : A -> Tx B) (g : Tx B) :
  (forall a, ReadOnly (f a)) -> ReadOnly g -> ReadOnly (match o with Some a => f a | None => g end).
Proof. intros. by destruct o. Qed.

#[global] Instance lockAuthority_ro : ReadOnly lockAuthority.
Proof. unfold lockAuthority. apply _. Qed.
#[global] Instance lockNode_ro n i : ReadOnly (lockNode n i).
Proof. unfold lockNode. apply _. Qed.
#[global] Instance lockAuthenticatedNode_ro r p : ReadOnly (lockAuthenticatedNode r p).
Proof. unfold lockAuthenticatedNode. apply _. Qed.
#[global] Instance lockBudgets_ro ids : ReadOnly (lockBudgets ids).
Proof. unfold lockBudgets. apply _. Qed.
#[global] Instance requireNodeJournalTx_ro a b c : ReadOnly (requireNodeJournalTx a b c).
Proof. unfold requireNodeJournalTx. apply _. Qed.
#[global] Instance RequireRuntimeJournalTx_ro a b c : ReadOnly (RequireRuntimeJournalTx a b c).
Proof. unfold RequireRuntimeJournalTx. apply _. Qed.
#[global] Instance lockClient_ro id : ReadOnly (lockClient id).
Proof. unfold lockClient. apply _. Qed.
#[global] Instance first_term_ro a b : ReadOnly (first_term a b).
Proof. unfold first_term. apply _. Qed.
#[global] Instance managedAuthority_ro a b c : ReadOnly (managedAuthority a b c).
Proof. unfold managedAuthority. apply _. Qed.
#[global] Instance guardManagedReservation_ro now r p : ReadOnly (guardManagedReservation now r p).
Proof. unfold guardManagedReservation. apply _. Qed.
#[global] Instance reserve_grant_ro r p : ReadOnly (reserve_grant r p).
Proof. unfold reserve_grant. apply _. Qed.
#[global] Instance lock_batch_ro p l : ReadOnly (lock_batch p l).
Proof. unfold lock_batch. apply _. Qed.
#[global] Instance credit_scope_ro r : ReadOnly (credit_scope r).
Proof. unfold credit_scope. apply _. Qed.
#[global] Instance replayed_grant_ro d op : ReadOnly (replayed_grant d op).
Proof. unfold replayed_grant. apply bind_ro; [apply _|]. intros []. destruct (op_Result op); apply _. Qed.

(** A guard in front of a transaction. *)
Lemma guard_ok {A B} (m : Tx A) (f : A -> Tx B) s b s' : ReadOnly m ->
  (x ← m; f x) s = Ok (b, s') -> exists a, m s = Ok (a, s) /\ f a s = Ok (b, s').
Proof. intros Hm (a & s1 & H1 & H2)%tx_bind_ok. pose proof (Hm _ _ _ H1). subst s1. eauto. Qed.

(** ** Transactions within a relation *)

Class Keeps (R : relation Fleet) {A} (m : Tx A) : Prop := keeps : forall s a s', m s = Ok (a, s') -> R s s'.

Lemma keeps_ok (R : relation Fleet) {A} (m : Tx A) s a s' : Keeps R m -> m s = Ok (a, s') -> R s s'.
Proof. intros Hm H. by eapply Hm. Qed.

Section Keeps.
Context (R : relation Fleet) {HP : PreOrder R}.

#[global] Instance keeps_ro {A} (m : Tx A) : ReadOnly m -> Keeps R m | 5.
Proof. intros Hm s a s' H. by rewrite (Hm _ _ _ H). Qed.
#[global] Instance keeps_bind {A B} (m : Tx A) (f : A -> Tx B) : Keeps R m -> (forall a, Keeps R (f a)) -> Keeps R (mbind f m) | 10.
Proof. intros Hm Hf s b s'' (a & s' & H1 & H2)%tx_bind_ok. etrans; [by eapply Hm|by eapply Hf]. Qed.
#[global] Instance keeps_write f : (forall s, R s (f s)) -> Keeps R (write f).
Proof. intros Hf s a s' ->%tx_write_ok. apply Hf. Qed.
#[global] Instance keeps_if {A} (b : bool) (m n : Tx A) : Keeps R m -> Keeps R n -> Keeps R (if b then m else n) | 20.
Proof. by destruct b. Qed.
Lemma keeps_get {A} (f : Fleet -> Tx A) : (forall s a s', f s s = Ok (a, s') -> R s s') -> Keeps R (s ← get; f s).
Proof. intros Hf s a s' H. apply guard_ok in H as (s0 & [-> _]%tx_get_ok & H); [|apply _]. by eapply Hf. Qed.
#[global] Instance keeps_option {A B} (o : option A) (f : A -> Tx B) (g : Tx B) :
  (forall a, Keeps R (f a)) -> Keeps R g -> Keeps R (match o with Some a => f a | None => g end) | 20.
Proof. by destruct o. Qed.
#[global] Instance keeps_pair {A B C} (x : A * B) (f : A -> B -> Tx C) : (forall a b, Keeps R (f a b)) -> Keeps R (let '(a, b) := x in f a b) | 20.
Proof. by destruct x. Qed.
#[global] Instance keeps_foldTx {A S} (f : S -> A -> Tx S) a l : (forall s x, Keeps R (f s x)) -> Keeps R (foldTx f a l) | 20.
Proof. intros Hf. revert a. induction l as [|x l IH]; intros a; cbn [foldTx]; apply _. Qed.

(** What held before a [Transaction] holds after it. *)
Lemma keeps_Transaction {A} fault (m : Tx A) s : Keeps R m -> R s (Transaction fault m s).1.
Proof. intros Hm. unfold Transaction. destruct fault; [done|]. destruct (m s) as [[a s']|] eqn:E; [by eapply Hm|done]. Qed.
End Keeps.

(** What a projection of the tables shows is left alone. *)
Definition same {B} (f : Fleet -> B) (s s' : Fleet) : Prop := f s' = f s.
#[global] Instance same_preorder {B} (f : Fleet -> B) : PreOrder (same f).
Proof. split; [by intros s|]. unfold same. intros x y z. congruence. Qed.
#[export] Hint Extern 0 (forall _, same _ _ _) => (intros ?; reflexivity) : typeclass_instances.

Lemma foldTx_cons {A S} (f : S -> A -> Tx S) a x l s b s' :
  foldTx f a (x :: l) s = Ok (b, s') <-> exists a1 s1, f a x s = Ok (a1, s1) /\ foldTx f a1 l s1 = Ok (b, s').
Proof. cbn [foldTx]. apply tx_bind_ok. Qed.
Lemma foldTx_nil {A S} (f : S -> A -> Tx S) a s b s' : foldTx f a [] s = Ok (b, s') <-> b = a /\ s' = s.
Proof. apply tx_ret_ok. Qed.

(** ** Sums *)
Lemma map_sum_ext {K A} `{Countable K} (f g : A -> Z) (m : gmap K A) :
  (forall k a, m !! k = Some a -> f a = g a) -> map_sum f m = map_sum g m.
Proof.
  intros Hfg. unfold map_sum. f_equal. apply list_fmap_ext. intros i a Ha. apply list_elem_of_lookup_2 in Ha.
  apply list_elem_of_fmap in Ha as ([k a'] & -> & Hin). apply elem_of_map_to_list in Hin. simpl. by apply (Hfg k).
Qed.

(** ** Conservation of credit

    The four tables of the ledger, grants, links, budgets and meters, and the balance they
    keep: a limited budget holds in reserve exactly what its grants were issued and have
    not used, and never promises more than its limit; a grant has consumed what its meters
    read. *)

Section Balance.
Implicit Types (G : gmap string FleetGrant) (K : gset (string * string)) (B : gmap string FleetBudget)
  (M : gmap (string * string * string) FleetMeter).

(** Of the grants that draw on a budget: what they still hold, and what they used. *)
Definition held G K (b : string) : Z :=
  map_sum (fun g => if bool_decide ((fg_ID g, b) ∈ K) then IssuedBytes g - ConsumedBytes g else 0) G.
Definition spent G K (b : string) : Z :=
  map_sum (fun g => if bool_decide ((fg_ID g, b) ∈ K) then ConsumedBytes g else 0) G.
(** What the meters of a grant read. *)
Definition metered M (id : string) : Z :=
  map_sum (fun m => if bool_decide (me_GrantID m = id) then me_Uploaded m + me_Downloaded m else 0) M.

Definition grant_ok (g : FleetGrant) : Prop :=
  0 <= ConsumedBytes g <= MaxInt64 /\ 0 <= IssuedBytes g <= MaxInt64 /\ 0 < fg_Revision g <= MaxInt64 /\
  (if fg_Unlimited g then IssuedBytes g = 0 else ConsumedBytes g <= IssuedBytes g).

Record ledger G K B M : Prop := {
  lg_ids : forall id g, G !! id = Some g -> fg_ID g = id;
  lg_grants : forall id g, G !! id = Some g -> grant_ok g /\ ConsumedBytes g = metered M id;
  lg_links : forall g b, (g, b) ∈ K -> is_Some (G !! g) /\ is_Some (B !! b);
  lg_free : forall id b g bu, (id, b) ∈ K -> G !! id = Some g -> B !! b = Some bu -> fg_Unlimited g = true -> bUnlimited bu = true;
  lg_meters : forall k m, M !! k = Some m -> me_GrantID m = k.1.1 /\ 0 <= me_Uploaded m <= MaxInt64 /\ 0 <= me_Downloaded m <= MaxInt64 /\
    is_Some (G !! me_GrantID m);
  lg_budgets : forall b bu, B !! b = Some bu -> 0 <= UsedBytes bu <= MaxInt64 /\
    (bUnlimited bu = false -> ReservedBytes bu = held G K b /\ UsedBytes bu + ReservedBytes bu <= LimitBytes bu <= MaxInt64) }.

Lemma held_update G K b id g : (forall k h, G !! k = Some h -> fg_ID h = k) -> fg_ID g = id ->
  held (<[id := g]> G) K b = held G K b +
    (if bool_decide ((id, b) ∈ K) then (IssuedBytes g - ConsumedBytes g) - from_option (fun h => IssuedBytes h - ConsumedBytes h) 0 (G !! id) else 0).
Proof.
  intros Hid Hg. unfold held. rewrite map_sum_update, Hg. destruct (G !! id) as [h|] eqn:Hh; cbn [from_option].
  - rewrite (Hid id h Hh). case_bool_decide; lia.
  - case_bool_decide; lia.
Qed.

Lemma spent_update G K b id g : (forall k h, G !! k = Some h -> fg_ID h = k) -> fg_ID g = id ->
  spent (<[id := g]> G) K b = spent G K b +
    (if bool_decide ((id, b) ∈ K) then ConsumedBytes g - from_option ConsumedBytes 0 (G !! id) else 0).
Proof.
  intros Hid Hg. unfold spent. rewrite map_sum_update, Hg. destruct (G !! id) as [h|] eqn:Hh; cbn [from_option].
  - rewrite (Hid id h Hh). case_bool_decide; lia.
  - case_bool_decide; lia.
Qed.

Lemma held_nonneg G K b : (forall k h, G !! k = Some h -> grant_ok h) ->
  (forall k h, G !! k = Some h -> (fg_ID h, b) ∈ K -> fg_Unlimited h = false) -> 0 <= held G K b.
Proof.
  intros Hok Hlim. unfold held, map_sum. apply sumZ_nonneg, Forall_fmap, Forall_forall. intros h Hin.
  apply list_elem_of_fmap in Hin as ([k h'] & -> & Hin). apply elem_of_map_to_list in Hin. cbn. case_bool_decide as Hl; [|lia].
  pose proof (Hok k h' Hin) as (? & ? & ? & Hu). rewrite (Hlim k h' Hin Hl) in Hu. lia.
Qed.

(** New links of a new grant do not touch the others. *)
Lemma held_links G K K' b id : (forall k h, G !! k = Some h -> fg_ID h = k) -> G !! id = None ->
  (forall g, g <> id -> (g, b) ∈ K' <-> (g, b) ∈ K) -> held G K' b = held G K b /\ spent G K' b = spent G K b.
Proof.
  intros Hid Hn HK. split; apply map_sum_ext; intros k h Hh; (rewrite (bool_decide_ext _ ((fg_ID h, b) ∈ K)); [done|]);
    apply HK; rewrite (Hid k h Hh); congruence.
Qed.

Lemma metered_update M id k m : metered (<[k := m]> M) id = metered M id +
  (if bool_decide (me_GrantID m = id) then me_Uploaded m + me_Downloaded m else 0) -
  from_option (fun m => if bool_decide (me_GrantID m = id) then me_Uploaded m + me_Downloaded m else 0) 0 (M !! k).
Proof. unfold metered. rewrite map_sum_update. lia. Qed.

Lemma metered_none G K B M id : ledger G K B M -> G !! id = None -> metered M id = 0.
Proof.
  intros [] Hn. unfold metered. rewrite (map_sum_ext _ (fun _ => 0)).
  - unfold map_sum. generalize (map_to_list M).*2. intros l. induction l as [|a l IH]; [done|]. rewrite fmap_cons. cbn [sumZ]. lia.
  - intros k m Hm. rewrite bool_decide_eq_false_2; [done|]. intros <-. destruct (lg_meters0 k m Hm) as (_ & _ & _ & Hs).
    rewrite Hn in Hs. by apply is_Some_None in Hs.
Qed.

(** A limited budget is drawn on by limited grants. *)
Lemma limited_links G K B M b bu : ledger G K B M -> B !! b = Some bu -> bUnlimited bu = false ->
  forall k h, G !! k = Some h -> (fg_ID h, b) ∈ K -> fg_Unlimited h = false.
Proof.
  intros [] Hb Hu k h Hh Hl. destruct (fg_Unlimited h) eqn:E; [|done]. rewrite (lg_ids0 k h Hh) in Hl.
  by rewrite (lg_free0 k b h bu Hl Hh Hb E) in Hu.
Qed.
Lemma reserved_nonneg G K B M b bu : ledger G K B M -> B !! b = Some bu -> bUnlimited bu = false -> 0 <= ReservedBytes bu.
Proof.
  intros HL Hb Hu. pose proof HL as []. destruct (lg_budgets0 b bu Hb) as [_ Hr]. destruct (Hr Hu) as [-> _].
  apply held_nonneg; [intros k h Hh; by apply (lg_grants0 k h)|by eapply limited_links].
Qed.

(** ** Issuing *)

(** Budgets after [bytes] were reserved from those of [ids]. *)
Definition reserved_from B (ids : list string) (bytes : Z) : gmap string FleetBudget :=
  map_imap (fun id b => Some (if bool_decide (id ∈ ids) && negb (bUnlimited b) then with_reserved b (ReservedBytes b + bytes) else b)) B.

Lemma reserved_from_lookup B ids bytes id :
  reserved_from B ids bytes !! id =
  (fun b => if bool_decide (id ∈ ids) && negb (bUnlimited b) then with_reserved b (ReservedBytes b + bytes) else b) <$> B !! id.
Proof. unfold reserved_from. rewrite map_lookup_imap. by destruct (B !! id). Qed.

(** Issuing [bytes] to a grant, old or new, against the budgets it is linked to. *)
Lemma ledger_issue G K K' B M id g old ids bytes :
  ledger G K B M -> fg_ID g = id -> 0 <= bytes -> grant_ok g ->
  IssuedBytes g - ConsumedBytes g = old + bytes -> ConsumedBytes g = metered M id ->
  old = from_option (fun h => IssuedBytes h - ConsumedBytes h) 0 (G !! id) ->
  (forall h, G !! id = Some h -> ConsumedBytes g = ConsumedBytes h /\ fg_Unlimited g = fg_Unlimited h /\ K' = K) ->
  (forall b, (id, b) ∈ K' <-> b ∈ ids) -> (forall h b, h <> id -> (h, b) ∈ K' <-> (h, b) ∈ K) ->
  (forall b, b ∈ ids -> exists bu, B !! b = Some bu /\
    (if bUnlimited bu then True else fg_Unlimited g = false /\ bytes <= LimitBytes bu - UsedBytes bu - ReservedBytes bu)) ->
  ledger (<[id := g]> G) K' (reserved_from B ids bytes) M /\
  (forall b, spent (<[id := g]> G) K' b = spent G K b).
Proof.
  intros HL Hid Hpos Hg Hnew Hmet Hold Hkeep Hids Hother Hfit. pose proof HL as [L1 L2 L3 L4 L5 L6].
  assert (forall b, held G K' b = held G K b /\ spent G K' b = spent G K b) as Hsame.
  { intros b. destruct (G !! id) as [h|] eqn:Eh.
    - destruct (Hkeep h eq_refl) as (_ & _ & ->). done.
    - apply (held_links G K K' b id L1 Eh). intros h Hh. by apply Hother. }
  assert (forall b, held (<[id := g]> G) K' b = held G K b + (if bool_decide (b ∈ ids) then bytes else 0)) as Hheld.
  { intros b. rewrite (held_update G K' b id g L1 Hid). destruct (Hsame b) as [-> _]. rewrite (bool_decide_ext _ _ (Hids b)).
    case_bool_decide; lia. }
  split; [|].
  - split.
    + intros k h. rewrite lookup_insert_Some. intros [[<- <-]|[_ Hh]]; [done|by apply L1].
    + intros k h. rewrite lookup_insert_Some. intros [[<- <-]|[_ Hh]]; [done|by apply L2].
    + intros h b Hb. destruct (decide (h = id)) as [->|Hne].
      * rewrite lookup_insert_eq. split; [done|]. apply Hids in Hb. destruct (Hfit b Hb) as (bu & Hbu & _). rewrite reserved_from_lookup, Hbu. done.
      * rewrite lookup_insert_ne by done. apply Hother in Hb; [|done]. destruct (L3 h b Hb) as [? [bu Hbu]]. split; [done|]. rewrite reserved_from_lookup, Hbu. done.
    + intros h b g' bu Hb Hh Hbu Hu. rewrite reserved_from_lookup in Hbu. apply fmap_Some in Hbu as (bu0 & Hbu0 & ->).
      assert (bUnlimited bu0 = true) as Hu0; [|by rewrite Hu0, andb_false_r].
      apply lookup_insert_Some in Hh as [[<- <-]|[Hne Hh]].
      * apply Hids in Hb. destruct (Hfit b Hb) as (bu' & Hbu' & Hc). rewrite Hbu0 in Hbu'. injection Hbu' as <-. destruct (bUnlimited bu0); [done|]. by destruct Hc as [Hc _]; rewrite Hu in Hc.
      * apply Hother in Hb; [|done]. by apply (L4 h b g' bu0).
    + intros k m Hm. destruct (L5 k m Hm) as (? & ? & ? & Hs). do 3 (split; [done|]). rewrite lookup_insert. by case_decide.
    + intros b bu Hb. rewrite reserved_from_lookup in Hb. apply fmap_Some in Hb as (bu0 & Hb0 & ->). destruct (L6 b bu0 Hb0) as [Hused Hres].
      case_bool_decide as Hin; cbn [andb]; [destruct (bUnlimited bu0) eqn:Hu; cbn [negb]|].
      * split; [done|]. by rewrite Hu.
      * cbn [with_reserved UsedBytes ReservedBytes LimitBytes bUnlimited]. split; [done|]. intros _. destruct (Hres eq_refl) as [Hr Hl].
        rewrite Hheld, bool_decide_eq_true_2 by done. destruct (Hfit b Hin) as (bu' & Hbu' & Hc). rewrite Hb0 in Hbu'. injection Hbu' as <-. rewrite Hu in Hc. lia.
      * split; [done|]. intros Hu. destruct (Hres Hu) as [Hr Hl]. rewrite Hheld, bool_decide_eq_false_2 by done. lia.
  - intros b. rewrite (spent_update G K' b id g L1 Hid). destruct (Hsame b) as [_ ->].
    case_bool_decide; [|lia]. destruct (G !! id) as [h|] eqn:Eh; cbn [from_option].
    + destruct (Hkeep h eq_refl) as (-> & _). lia.
    + rewrite Hmet, (metered_none G K B M id HL Eh). lia.
Qed.

(** ** Charging *)

Definition charge (b : FleetBudget) (delta : Z) : FleetBudget :=
  mkBudget (LimitBytes b) (bUnlimited b) (UsedBytes b + delta) (if bUnlimited b then ReservedBytes b else ReservedBytes b - delta).
Definition charged_to B (ids : list string) (delta : Z) : gmap string FleetBudget :=
  map_imap (fun id b => Some (if bool_decide (id ∈ ids) then charge b delta else b)) B.
Lemma charged_to_lookup B ids delta id :
  charged_to B ids delta !! id = (fun b => if bool_decide (id ∈ ids) then charge b delta else b) <$> B !! id.
Proof. unfold charged_to. rewrite map_lookup_imap. by destruct (B !! id). Qed.

(** A meter of a grant grows by [delta]: the grant has consumed it, and every budget it
    draws on moves it from reserved to used. *)
Lemma ledger_charge G K B M id g ids k m old delta :
  ledger G K B M -> G !! id = Some g -> k.1.1 = id -> me_GrantID m = id ->
  old = default (mkMeter id 0 0) (M !! k) -> me_Uploaded old <= me_Uploaded m <= MaxInt64 -> me_Downloaded old <= me_Downloaded m <= MaxInt64 ->
  delta = (me_Uploaded m - me_Uploaded old) + (me_Downloaded m - me_Downloaded old) ->
  ConsumedBytes g + delta <= MaxInt64 -> (fg_Unlimited g = false -> delta <= IssuedBytes g - ConsumedBytes g) ->
  (forall b, (id, b) ∈ K <-> b ∈ ids) ->
  (forall b, b ∈ ids -> exists bu, B !! b = Some bu /\ UsedBytes bu + delta <= MaxInt64 /\ (bUnlimited bu = false -> delta <= ReservedBytes bu)) ->
  ledger (<[id := consume g delta]> G) K (charged_to B ids delta) (<[k := m]> M) /\
  (forall b, spent (<[id := consume g delta]> G) K b = spent G K b + (if bool_decide (b ∈ ids) then delta else 0)).
Proof.
  intros HL Hg Hk Hm Hold Hup Hdown Hdelta Hmax Hroom Hids Hfit. pose proof HL as [L1 L2 L3 L4 L5 L6].
  assert (me_GrantID old = id /\ 0 <= me_Uploaded old /\ 0 <= me_Downloaded old) as (Ho & Ho1 & Ho2).
  { subst old. destruct (M !! k) as [m0|] eqn:E; [|cbn; split_and!; [done|lia|lia]]. cbn. destruct (L5 k m0 E) as (? & ? & ? & _). split; [congruence|lia]. }
  assert (0 <= delta) as Hd by lia.
  assert (forall i, metered (<[k := m]> M) i = metered M i + (if bool_decide (id = i) then delta else 0)) as Hmet.
  { intros i. rewrite metered_update, Hm. destruct (M !! k) as [m0|] eqn:E; cbn [from_option].
    - change (old = m0) in Hold. subst m0. rewrite Ho. case_bool_decide; lia.
    - change (old = mkMeter id 0 0) in Hold. subst old. cbn in Hdelta. case_bool_decide; lia. }
  assert (forall b, held (<[id := consume g delta]> G) K b = held G K b - (if bool_decide (b ∈ ids) then delta else 0)) as Hheld.
  { intros b. rewrite (held_update G K b id (consume g delta) L1) by (cbn; by apply L1). rewrite Hg, (bool_decide_ext _ _ (Hids b)). cbn.
    case_bool_decide; lia. }
  destruct (L2 id g Hg) as [(G1 & G2 & G3 & G4) Hcons].
  split.
  - split.
    + intros i h. rewrite lookup_insert_Some. intros [[<- <-]|[_ Hh]]; [cbn; by apply L1|by apply L1].
    + intros i h. rewrite lookup_insert_Some, Hmet. intros [[<- <-]|[Hne Hh]].
      * rewrite bool_decide_eq_true_2 by done. cbn. split; [|lia]. unfold grant_ok. cbn. split_and!; try lia.
        destruct (fg_Unlimited g); [done|]. specialize (Hroom eq_refl). lia.
      * rewrite bool_decide_eq_false_2 by done. rewrite Z.add_0_r. by apply L2.
    + intros h b Hb. destruct (L3 h b Hb) as [Hs [bu Hbu]]. split; [rewrite lookup_insert; by case_decide|].
      rewrite charged_to_lookup, Hbu. done.
    + intros h b g' bu Hb Hh Hbu Hu. rewrite charged_to_lookup in Hbu. apply fmap_Some in Hbu as (bu0 & Hbu0 & ->).
      assert (bUnlimited bu0 = true) as E; [|by case_bool_decide].
      apply lookup_insert_Some in Hh as [[<- <-]|[Hne Hh]]; [by apply (L4 id b g bu0)|by apply (L4 h b g' bu0)].
    + intros k' m'. rewrite lookup_insert_Some. intros [[<- <-]|[_ Hm']].
      * rewrite Hm. split; [done|]. split; [lia|]. split; [lia|]. by rewrite lookup_insert_eq.
      * destruct (L5 k' m' Hm') as (? & ? & ? & Hs). do 3 (split; [done|]). rewrite lookup_insert. by case_decide.
    + intros b bu Hb. rewrite charged_to_lookup in Hb. apply fmap_Some in Hb as (bu0 & Hb0 & ->). destruct (L6 b bu0 Hb0) as [Hused Hres].
      rewrite Hheld. case_bool_decide as Hin.
      * destruct (Hfit b Hin) as (bu' & Hbu' & H1 & H2). rewrite Hb0 in Hbu'. injection Hbu' as <-. cbn. split; [lia|]. intros Hu. rewrite Hu. destruct (Hres Hu). lia.
      * split; [done|]. intros Hu. destruct (Hres Hu). lia.
  - intros b. rewrite (spent_update G K b id (consume g delta) L1) by (cbn; by apply L1). rewrite Hg, (bool_decide_ext _ _ (Hids b)). cbn.
    case_bool_decide; lia.
Qed.
End Balance.
