(* ===== verification/FleetSpend.v ===== *)
(** * What reserving and taking in usage do to the ledger *)
From S2P Require Import Prelude Limits Authority Spool Rates Fleet FleetLedger FleetFacts.
Open Scope Z_scope.
Open Scope list_scope.

Definition ledger_ok (s : Fleet) : Prop := ledger (grants s) (links s) (budgets s) (fmeters s).

(** Two states with the same ledger. *)
Definition same_ledger (s s' : Fleet) : Prop :=
  grants s' = grants s /\ links s' = links s /\ budgets s' = budgets s /\ fmeters s' = fmeters s.

(** What a budget was used before any of its grants: it never changes. *)
Definition opening (s : Fleet) (b : string) : Z :=
  from_option UsedBytes 0 (budgets s !! b) - spent (grants s) (links s) b.
Definition openings_kept (s s' : Fleet) : Prop :=
  forall b bu, budgets s !! b = Some bu -> exists bu', budgets s' !! b = Some bu' /\ bUnlimited bu' = bUnlimited bu /\ opening s' b = opening s b.

(** A step of the ledger. *)
Definition ledger_step (s s' : Fleet) : Prop := (ledger_ok s -> ledger_ok s') /\ (ledger_ok s -> openings_kept s s').

#[global] Instance same_ledger_refl : Reflexive same_ledger.
Proof. done. Qed.
#[global] Instance same_ledger_trans : Transitive same_ledger.
Proof. unfold same_ledger. intros x y z. naive_solver congruence. Qed.
#[global] Instance ledger_step_trans : Transitive ledger_step.
Proof.
  intros x y z [H1 H2] [H3 H4]. split; [auto|]. intros Hx b bu Hb. destruct (H2 Hx b bu Hb) as (bu' & Hb' & Hu & Ho).
  destruct (H4 (H1 Hx) b bu' Hb') as (bu'' & ? & ? & ?). exists bu''. split_and!; congruence.
Qed.
Lemma same_ledger_step s s' : same_ledger s s' -> ledger_step s s'.
Proof.
  intros (E1 & E2 & E3 & E4). unfold ledger_step, ledger_ok, openings_kept, opening. rewrite E1, E2, E3, E4. split; [done|].
  intros _ b bu Hb. eauto.
Qed.

Lemma set_budgets_same s : set_budgets (budgets s) s = s.
Proof. by destruct s. Qed.

Section Reserve.
Context {HU : UUIDs} {HW : Wire} {HD : LedgerDigests}.

(** ** Budgets *)

Lemma reserved_from_nil B bytes : reserved_from B [] bytes = B.
Proof.
  apply map_eq. intros i. rewrite reserved_from_lookup, bool_decide_eq_false_2 by apply not_elem_of_nil. cbn [andb]. by destruct (B !! i).
Qed.

Lemma reserved_from_cons B id b ids bytes : id ∉ ids -> B !! id = Some b ->
  reserved_from (<[id := if bUnlimited b then b else with_reserved b (ReservedBytes b + bytes)]> B) ids bytes = reserved_from B (id :: ids) bytes.
Proof.
  intros Hni Hb. apply map_eq. intros i. rewrite !reserved_from_lookup. destruct (decide (i = id)) as [->|Hne].
  - rewrite lookup_insert_eq, Hb. cbn [fmap option_fmap option_map]. rewrite (bool_decide_eq_false_2 (id ∈ ids)) by done.
    rewrite (bool_decide_eq_true_2 (id ∈ id :: ids)) by (by left). by destruct (bUnlimited b).
  - rewrite lookup_insert_ne by done. rewrite (bool_decide_ext (i ∈ ids) (i ∈ id :: ids)); [done|]. rewrite elem_of_cons. naive_solver.
Qed.

Lemma reserve_budget_ok request id s s' : reserve_budget request id s = Ok (tt, s') ->
  exists b, budgets s !! id = Some b /\
  s' = set_budgets (<[id := if bUnlimited b then b else with_reserved b (ReservedBytes b + rq_Bytes request)]> (budgets s)) s /\
  (if bUnlimited b then True else rq_Unlimited request = false /\ rq_Bytes request <= LimitBytes b - UsedBytes b - ReservedBytes b).
Proof.
  unfold reserve_budget. intros H. apply guard_ok in H as (s0 & [-> _]%tx_get_ok & H); [|apply _].
  apply guard_ok in H as (b & [Hb _]%tx_found_ok & H); [|apply _]. apply guard_ok in H as ([] & [Hu _]%tx_refuse_ok & H); [|apply _].
  exists b. split; [done|]. destruct (bUnlimited b) eqn:E.
  - apply tx_ret_ok in H as [_ ->]. split; [|done]. rewrite insert_id by done. by rewrite set_budgets_same.
  - apply guard_ok in H as ([] & [Hr _]%tx_refuse_ok & H); [|apply _]. unfold save_budget in H.
    apply guard_ok in H as ([] & [Hc _]%tx_refuse_ok & H); [|apply _]. apply guard_ok in H as (s1 & [-> _]%tx_get_ok & H); [|apply _].
    apply tx_write_ok in H as ->. split; [done|]. rewrite andb_true_r in Hu. split; [done|]. bools. lia.
Qed.

Lemma reserve_loop request ids s s' : NoDup ids -> foldTx (fun _ id => reserve_budget request id) tt ids s = Ok (tt, s') ->
  s' = set_budgets (reserved_from (budgets s) ids (rq_Bytes request)) s /\
  (forall b, b ∈ ids -> exists bu, budgets s !! b = Some bu /\
    (if bUnlimited bu then True else rq_Unlimited request = false /\ rq_Bytes request <= LimitBytes bu - UsedBytes bu - ReservedBytes bu)).
Proof.
  revert s. induction ids as [|id ids IH]; intros s Hnd H.
  - apply foldTx_nil in H as [_ ->]. rewrite reserved_from_nil, set_budgets_same. split; [done|]. by intros b ?%not_elem_of_nil.
  - apply NoDup_cons in Hnd as [Hni Hnd]. apply foldTx_cons in H as ([] & s1 & (b & Hb & -> & Hfit)%reserve_budget_ok & H).
    apply IH in H as [-> Hrest]; [|done]. cbn [budgets set_budgets] in Hrest |- *. rewrite (reserved_from_cons _ _ _ _ _ Hni Hb). split; [done|].
    intros b' [->|Hb']%elem_of_cons; [eauto|]. destruct (Hrest b' Hb') as (bu & Hbu & ?). rewrite lookup_insert_ne in Hbu by (by intros ->). eauto.
Qed.

Lemma distinct_compact prev l : distinct_ids prev l = true -> Compact l = l.
Proof.
  revert prev. induction l as [|x l IH]; intros prev H; [done|]. cbn [distinct_ids] in H. rewrite !andb_true_iff in H. destruct H as [_ H].
  pose proof (IH _ H) as E. destruct l as [|y l]; [done|]. cbn [distinct_ids] in H. rewrite !andb_true_iff, negb_true_iff, bool_decide_eq_false in H.
  change (Compact (x :: y :: l)) with (if bool_decide (x = y) then Compact (y :: l) else x :: Compact (y :: l)).
  rewrite bool_decide_eq_false_2 by naive_solver. by rewrite E.
Qed.

Lemma sorted_ids_nodup (l : list string) : distinct_ids None (merge_sort String.le l) = true -> NoDup (merge_sort String.le l).
Proof.
  intros H. rewrite <-(distinct_compact _ _ H). apply (Compact_nodup String.le); [|apply (StronglySorted_merge_sort _)].
  intros x y _ _ H1 H2. by apply (anti_symm String.le).
Qed.

Lemma links_of_elem s g b : b ∈ links_of s g <-> (g, b) ∈ links s.
Proof.
  unfold links_of. rewrite merge_sort_Permutation, list_elem_of_fmap. split.
  - intros ([g' b'] & -> & Hin). apply list_elem_of_filter in Hin as [E Hin]. cbn in *. subst. by apply elem_of_elements.
  - intros Hin. exists (g, b). split; [done|]. apply list_elem_of_filter. split; [done|]. by apply elem_of_elements.
Qed.
Lemma links_of_nodup s g : NoDup (links_of s g).
Proof.
  unfold links_of. rewrite merge_sort_Permutation. apply NoDup_fmap_2_strong.
  - intros [g1 b1] [g2 b2] [E1 _]%list_elem_of_filter [E2 _]%list_elem_of_filter E. cbn in *. congruence.
  - apply NoDup_filter, NoDup_elements.
Qed.

(** ** The grant *)

(** The row a reservation starts from. *)
Lemma reserve_grant_ok request placement s g isNew s' :
  ledger_ok s -> reserve_grant request placement s = Ok ((g, isNew), s') ->
  fg_ID g = rq_GrantID request /\ fg_Unlimited g = rq_Unlimited request /\ grant_ok g /\
  ConsumedBytes g = metered (fmeters s) (rq_GrantID request) /\
  match grants s !! rq_GrantID request with
  | None => isNew = true /\ IssuedBytes g = 0 /\ ConsumedBytes g = 0
  | Some h => isNew = false /\ IssuedBytes g = IssuedBytes h /\ ConsumedBytes g = ConsumedBytes h /\ fg_Unlimited g = fg_Unlimited h /\
      (forall b, (rq_GrantID request, b) ∈ links s <-> b ∈ rq_BudgetIDs request)
  end.
Proof.
  intros HL. unfold reserve_grant. intros H. apply guard_ok in H as (s0 & [-> _]%tx_get_ok & H); [|apply _].
  destruct (grants s !! rq_GrantID request) as [h|] eqn:Eh.
  - apply guard_ok in H as ([] & [Hs _]%tx_refuse_ok & H); [|apply _]. apply guard_ok in H as ([] & _ & H); [|apply _].
    apply guard_ok in H as ([] & [Hl _]%tx_refuse_ok & H); [|apply _]. apply tx_ret_ok in H as [[= -> ->] _]. cbn.
    destruct HL as [L1 L2 _ _ _ _]. destruct (L2 _ _ Eh) as [(G1 & G2 & G3 & G4) Hm].
    rewrite !orb_false_iff, !negb_false_iff, eqb_true_iff, Z.eqb_neq in Hs. apply negb_false_iff, bool_decide_eq_true in Hl.
    split; [by apply L1|]. split; [tauto|]. split.
    { destruct Hs as [_ Hs]. unfold grant_ok. cbn. split; [done|]. split; [done|]. split; [lia|done]. }
    do 5 (split; [done|]). intros b. rewrite <-Hl. symmetry. apply links_of_elem.
  - apply tx_ret_ok in H as [[= -> ->] _]. cbn. split_and!; try done; [|by rewrite (metered_none _ _ _ _ _ HL Eh)].
    unfold grant_ok, MaxInt64. cbn. split_and!; try lia. by destruct (rq_Unlimited request).
Qed.

(** The tables a reservation writes. *)
Lemma reserve_claimed_writes now request placement digest s g' s' : NoDup (rq_BudgetIDs request) ->
  reserve_claimed now request placement digest s = Ok (g', s') ->
  exists g isNew, reserve_grant request placement s = Ok ((g, isNew), s) /\ g' = issue g (rq_Bytes request) /\
  exceeds (IssuedBytes g) (rq_Bytes request) = false /\
  (forall b, b ∈ rq_BudgetIDs request -> exists bu, budgets s !! b = Some bu /\
    (if bUnlimited bu then True else rq_Unlimited request = false /\ rq_Bytes request <= LimitBytes bu - UsedBytes bu - ReservedBytes bu)) /\
  s' = set_operations (<[rq_OperationID request := mkOperation digest (GrantResult g')]> (operations s))
        (set_links ((if isNew : bool then list_to_set ((fun id => (fg_ID g', id)) <$> rq_BudgetIDs request) else ∅) ∪ links s)
          (set_grants (<[fg_ID g' := g']> (grants s)) (set_budgets (reserved_from (budgets s) (rq_BudgetIDs request) (rq_Bytes request)) s))).
Proof.
  intros Hnd H. unfold reserve_claimed in H. do 4 (apply guard_ok in H as (? & _ & H); [|apply _]).
  apply guard_ok in H as ([g isNew] & Hrow & H); [|apply _]. apply guard_ok in H as ([] & [Hex _]%tx_refuse_ok & H); [|apply _].
  apply tx_bind_ok in H as ([] & s1 & Hloop & H). apply reserve_loop in Hloop as [-> Hfit]; [|done].
  exists g, isNew. cbv zeta in H. set (g1 := issue g (rq_Bytes request)) in *.
  apply tx_bind_ok in H as ([] & s2 & Hsave & H). unfold save_grant in Hsave.
  apply guard_ok in Hsave as ([] & _ & Hsave); [|apply _]. apply guard_ok in Hsave as (s0 & [-> _]%tx_get_ok & Hsave); [|apply _].
  apply tx_write_ok in Hsave as ->. apply tx_bind_ok in H as ([] & s3 & Hlinks & H).
  apply tx_bind_ok in H as ([] & s4 & Hop & H). apply tx_ret_ok in H as [-> ->]. unfold record_result in Hop.
  apply guard_ok in Hop as (s0 & [-> _]%tx_get_ok & Hop); [|apply _]. apply tx_write_ok in Hop as ->.
  do 4 (split; [done|]). destruct isNew.
  - unfold create_links in Hlinks. apply guard_ok in Hlinks as (s0 & [-> _]%tx_get_ok & Hlinks); [|apply _].
    apply guard_ok in Hlinks as ([] & _ & Hlinks); [|apply _]. by apply tx_write_ok in Hlinks as ->.
  - apply tx_ret_ok in Hlinks as [_ ->]. rewrite (left_id_L ∅ (∪)). done.
Qed.

(** The bytes of a request go with its kind. *)
Definition request_ok (request : ReserveRequest) : Prop :=
  0 <= rq_Bytes request /\ (rq_Unlimited request = true -> rq_Bytes request = 0).

Lemma reserve_claimed_step now request placement digest s g' s' : NoDup (rq_BudgetIDs request) -> request_ok request ->
  reserve_claimed now request placement digest s = Ok (g', s') -> ledger_step s s'.
Proof.
  intros Hnd [Hb Hub] H. apply reserve_claimed_writes in H as (g & isNew & Hrow & -> & Hex & Hfit & ->); [|done].
  unfold exceeds in Hex. rewrite !orb_false_iff, !Z.ltb_ge in Hex.
  assert (ledger_ok s -> let g' := issue g (rq_Bytes request) in
    let s' := set_links ((if isNew : bool then list_to_set ((fun id => (fg_ID g', id)) <$> rq_BudgetIDs request) else ∅) ∪ links s)
          (set_grants (<[fg_ID g' := g']> (grants s)) (set_budgets (reserved_from (budgets s) (rq_BudgetIDs request) (rq_Bytes request)) s)) in
    ledger_ok s' /\ forall b, spent (grants s') (links s') b = spent (grants s) (links s) b) as Hmain.
  { intros HL. cbv zeta. destruct (reserve_grant_ok _ _ _ _ _ _ HL Hrow) as (E1 & E2 & Hok & Hmet & Hcase).
    unfold ledger_ok. cbn [grants links budgets fmeters set_links set_grants set_budgets issue fg_ID]. rewrite E1.
    set (id := rq_GrantID request) in *. destruct Hok as (G1 & G2 & G3 & G4).
    eapply (ledger_issue _ _ _ _ _ _ _ (IssuedBytes g - ConsumedBytes g)); try done; cbn [issue fg_ID IssuedBytes ConsumedBytes fg_Unlimited]; try done.
    - unfold grant_ok. cbn. split; [done|]. split; [lia|]. split; [done|]. destruct (fg_Unlimited g) eqn:Eu; [|lia]. rewrite G4, Hub; [done|congruence].
    - lia.
    - destruct (grants s !! id) as [h|]; cbn; [destruct Hcase as (_ & -> & -> & _); done|destruct Hcase as (_ & -> & ->); done].
    - intros h Eh. rewrite Eh in Hcase. destruct Hcase as (-> & _ & ? & ? & _). split_and!; try done. apply (left_id_L ∅ (∪)).
    - intros b. rewrite elem_of_union. destruct (grants s !! id) as [h|] eqn:Eh.
      + destruct Hcase as (-> & _ & _ & _ & Hlk). rewrite Hlk. split; [|by right]. by intros [?%not_elem_of_empty|?].
      + destruct Hcase as (-> & _ & _). rewrite elem_of_list_to_set, list_elem_of_fmap. split.
        * intros [(b' & [= <-] & ?)|Hin]; [done|]. destruct HL as [_ _ L3 _ _ _]. destruct (L3 _ _ Hin) as [Hs _]. rewrite Eh in Hs. by apply is_Some_None in Hs.
        * intros Hin. left. eauto.
    - intros h b Hne. rewrite elem_of_union. destruct isNew; [|set_solver]. rewrite elem_of_list_to_set, list_elem_of_fmap.
      split; [|by right]. intros [(b' & E & _)|?]; [|done]. injection E as E _. by destruct Hne.
    - intros b Hb'. destruct (Hfit b Hb') as (bu & Hbu & Hc). exists bu. split; [done|]. destruct (bUnlimited bu); [done|]. by rewrite E2. }
  split.
  - intros HL. apply (Hmain HL).
  - intros HL b bu Hbu. destruct (Hmain HL) as [_ Hsp]. cbv zeta in Hsp.
    eexists. cbn [budgets set_operations set_links set_grants set_budgets]. rewrite reserved_from_lookup, Hbu. split; [done|].
    split; [by destruct (bool_decide _), (bUnlimited bu) eqn:?|]. unfold opening. cbn [budgets grants links set_operations set_links set_grants set_budgets] in *.
    rewrite reserved_from_lookup, Hbu. cbn [fmap option_fmap option_map from_option]. rewrite <-(Hsp b). f_equal. by destruct (bool_decide _), (bUnlimited bu) eqn:?.
Qed.

Lemma claim_same id digest s op s' : claim id digest s = Ok (op, s') -> same_ledger s s' /\ (op = None -> operations s !! id = None).
Proof.
  unfold claim. intros H. apply guard_ok in H as (s0 & [-> _]%tx_get_ok & H); [|apply _]. destruct (operations s !! id) eqn:E.
  - apply tx_ret_ok in H as [-> ->]. done.
  - apply tx_bind_ok in H as ([] & s1 & ->%tx_write_ok & [-> ->]%tx_ret_ok). done.
Qed.

Lemma reserve_step now request placement s g s' : reserve now request placement s = Ok (g, s') -> ledger_step s s'.
Proof.
  unfold reserve. intros H. apply guard_ok in H as ([] & [Hv _]%tx_refuse_ok & H); [|apply _].
  apply guard_ok in H as ([] & [Hd _]%tx_refuse_ok & H); [|apply _]. apply negb_false_iff in Hd. cbn [rq_BudgetIDs with_budgets] in Hd.
  unfold reserve_tx in H. apply guard_ok in H as ([] & _ & H); [|apply _]. apply tx_bind_ok in H as (op & s1 & [Hc _]%claim_same & H).
  transitivity s1; [by apply same_ledger_step|]. destruct op as [op|].
  - apply read_only in H as ->. by apply same_ledger_step.
  - apply reserve_claimed_step in H; [done|by apply sorted_ids_nodup|]. unfold request_ok. cbn. unfold invalid_reserve in Hv.
    rewrite !orb_false_iff in Hv. destruct Hv as [[_ H1] H2]. destruct (rq_Unlimited request); cbn in *; [apply negb_false_iff, Z.eqb_eq in H1; lia|].
    apply Z.leb_gt in H2. split; [lia|done].
Qed.
End Reserve.

(** ** Taking in a batch *)

Section Ingest.
Context {HU : UUIDs} {HW : Wire} {HD : LedgerDigests}.

Definition overlay (l : list (string * string * string * FleetMeter)) (M : gmap (string * string * string) FleetMeter) :=
  foldl (fun M row => <[row.1 := row.2]> M) M l.
Lemma overlay_other l M k : k ∉ l.*1 -> overlay l M !! k = M !! k.
Proof.
  unfold overlay. revert M. induction l as [|[k' m] l IH]; intros M Hk; [done|]. cbn in *. rewrite not_elem_of_cons in Hk.
  rewrite IH by tauto. apply lookup_insert_ne. naive_solver.
Qed.
Lemma overlay_app l k m M : overlay (l ++ [(k, m)]) M = <[k := m]> (overlay l M).
Proof. unfold overlay. by rewrite foldl_app. Qed.

Lemma charge_loop delta ids : forall bs bs', NoDup ids -> foldM (charge_budget delta) bs ids = Ok bs' ->
  bs' = charged_to bs ids delta /\
  forall b, b ∈ ids -> exists bu, bs !! b = Some bu /\ exceeds (UsedBytes bu) delta = false /\ (bUnlimited bu = false -> delta <= ReservedBytes bu).
Proof.
  induction ids as [|id ids IH]; intros bs bs' Hnd H; cbn [foldM] in H.
  - injection H as <-. split; [|by intros b ?%not_elem_of_nil]. apply map_eq. intros i. rewrite charged_to_lookup.
    rewrite bool_decide_eq_false_2 by apply not_elem_of_nil. by destruct (bs !! i).
  - apply NoDup_cons in Hnd as [Hni Hnd]. destruct (charge_budget delta bs id) as [bs1|] eqn:E; [|done]. unfold charge_budget in E.
    destruct (bs !! id) as [b|] eqn:Eb; [|done]. destruct (exceeds (UsedBytes b) delta) eqn:Ex; cbn [orb] in E; [done|].
    destruct (negb (bUnlimited b) && (ReservedBytes b <? delta)) eqn:Er; [done|]. injection E as <-.
    destruct (IH _ _ Hnd H) as [-> Hrest]. split.
    + apply map_eq. intros i. rewrite !charged_to_lookup. destruct (decide (i = id)) as [->|Hne].
      * rewrite lookup_insert_eq, Eb, (bool_decide_eq_false_2 (id ∈ ids)) by done. rewrite bool_decide_eq_true_2 by (by left). done.
      * rewrite lookup_insert_ne by done. rewrite (bool_decide_ext (i ∈ ids) (i ∈ id :: ids)); [done|]. rewrite elem_of_cons. naive_solver.
    + intros b' [->|Hb']%elem_of_cons.
      * exists b. split_and!; [done..|]. intros Hu. rewrite Hu in Er. cbn in Er. lia.
      * destruct (Hrest b' Hb') as (bu & Hbu & ?). rewrite lookup_insert_ne in Hbu by (by intros ->). eauto.
Qed.

(** The rows in memory and the tables around them, after some checkpoints. *)
Record taken (s : Fleet) (gs : gmap string FleetGrant) (bs : gmap string FleetBudget) (t : taking) : Prop := {
  tk_ledger : ledger (t_grants t ∪ grants s) (links s) (t_budgets t ∪ budgets s) (overlay (changedMeters t) (fmeters s));
  tk_grants : dom (t_grants t) = dom gs;
  tk_budgets : dom (t_budgets t) = dom bs;
  tk_links : forall id b, id ∈ dom gs -> (id, b) ∈ links s -> b ∈ dom bs;
  tk_same_grants : forall id, id ∉ changedGrants t -> t_grants t !! id = gs !! id;
  tk_same_budgets : forall b, b ∉ changedBudgets t -> t_budgets t !! b = bs !! b;
  tk_changed : changedGrants t ⊆ dom gs /\ changedBudgets t ⊆ dom bs;
  tk_opening : forall b bu, budgets s !! b = Some bu -> exists bu', (t_budgets t ∪ budgets s) !! b = Some bu' /\ bUnlimited bu' = bUnlimited bu /\
    LimitBytes bu' = LimitBytes bu /\
    UsedBytes bu' - spent (t_grants t ∪ grants s) (links s) b = UsedBytes bu - spent (grants s) (links s) b }.

Lemma charged_union bs B ids delta : (forall b, b ∈ ids -> is_Some (bs !! b)) ->
  charged_to (bs ∪ B) ids delta = charged_to bs ids delta ∪ B.
Proof.
  intros Hin. apply map_eq. intros i. rewrite lookup_union, !charged_to_lookup, lookup_union.
  destruct (bs !! i) as [b|] eqn:Eb; cbn.
  - by destruct (B !! i).
  - destruct (B !! i) as [b|]; cbn; [|done]. case_bool_decide as Hi; [|done]. destruct (Hin i Hi) as [? ?]. congruence.
Qed.

Lemma dom_charged bs ids delta : dom (charged_to bs ids delta) = dom bs.
Proof. apply set_eq. intros i. rewrite !elem_of_dom, charged_to_lookup. by rewrite fmap_is_Some. Qed.

(** A delta of nothing leaves a budget and a grant as they are. *)
Lemma charge_zero b : charge b 0 = b.
Proof. destruct b as [l u us r]. unfold charge. cbn. f_equal; [lia|]. destruct u; lia. Qed.
Lemma consume_zero g : consume g 0 = g.
Proof. destruct g. unfold consume. cbn. f_equal. lia. Qed.

(** What is true of a checkpoint that was taken. *)
Lemma take_checkpoint_ok byGrant old t c t' : take_checkpoint byGrant old t c = Ok t' ->
  exists g bs deltas, let m := default (mkMeter (cGrantId c) 0 0) (old !! checkpoint_key c) in
  let delta := (Uploaded c - me_Uploaded m) + (Downloaded c - me_Downloaded m) in
  t_grants t !! cGrantId c = Some g /\ me_Uploaded m <= Uploaded c /\ me_Downloaded m <= Downloaded c /\
  exceeds (ConsumedBytes g) delta = false /\ (fg_Unlimited g = false -> delta <= IssuedBytes g - ConsumedBytes g) /\
  foldM (charge_budget delta) (t_budgets t) (byGrant (fg_ID g)) = Ok bs /\
  t' = mkTaking (<[cGrantId c := consume g delta]> (t_grants t)) bs
         (changedMeters t ++ [(checkpoint_key c, mkMeter (cGrantId c) (Uploaded c) (Downloaded c))])
         (if 0 <? delta then {[cGrantId c]} ∪ changedGrants t else changedGrants t)
         (if 0 <? delta then list_to_set (byGrant (fg_ID g)) ∪ changedBudgets t else changedBudgets t) deltas.
Proof.
  unfold take_checkpoint. destruct (t_grants t !! cGrantId c) as [g|]; [|done]. case_match; [done|]. cbv zeta.
  set (m := default _ _). destruct ((Uploaded c <? me_Uploaded m) || (Downloaded c <? me_Downloaded m)) eqn:Eg; [done|].
  case_match; [done|]. set (delta := _ + _). destruct (add_delta _ _ _ _ _) as [deltas|]; [|done]. cbn [mbind result_bind].
  destruct (exceeds (ConsumedBytes g) delta) eqn:Ex; cbn [orb]; [done|].
  destruct (negb (fg_Unlimited g) && (IssuedBytes g - ConsumedBytes g <? delta)) eqn:Er; [done|].
  destruct (foldM _ _ _) as [bs|] eqn:Ef; cbn [mbind result_bind]; [|done]. intros [= <-]. exists g, bs, deltas.
  rewrite orb_false_iff, !Z.ltb_ge in Eg. destruct Eg. split_and!; try done. intros Hu. rewrite Hu in Er. cbn in Er. lia.
Qed.

Lemma taken_step s gs bs t c t' :
  taken s gs bs t -> 0 <= Uploaded c <= MaxInt64 -> 0 <= Downloaded c <= MaxInt64 -> checkpoint_key c ∉ (changedMeters t).*1 ->
  take_checkpoint (links_of s) (fmeters s) t c = Ok t' -> taken s gs bs t'.
Proof.
  intros [T1 T2 T3 T4 T5 T6 [T7 T7'] T8] Hup Hdown Hkey H. apply take_checkpoint_ok in H as (g & bs' & deltas & H). cbv zeta in H.
  set (m := default _ _) in *. set (delta := _ + _) in *. destruct H as (Hg & Hm1 & Hm2 & Hex & Hroom & Hloop & ->).
  set (id := cGrantId c) in *. pose proof T1 as [L1 L2 L3 L4 L5 L6].
  assert ((t_grants t ∪ grants s) !! id = Some g) as HG by (by apply lookup_union_Some_l).
  assert (fg_ID g = id) as Hid by (by apply L1). rewrite Hid in *.
  apply charge_loop in Hloop as [-> Hfit]; [|apply links_of_nodup].
  unfold exceeds in Hex. rewrite !orb_false_iff, !Z.ltb_ge in Hex.
  assert (forall b, b ∈ links_of s id -> is_Some (t_budgets t !! b)) as Hsome by (intros b Hb; destruct (Hfit b Hb) as (bu & -> & _); done).
  assert (dom (<[id := consume g delta]> (t_grants t)) = dom gs) as Hdom
    by (rewrite dom_insert_L, <-T2; apply subseteq_union_1_L, singleton_subseteq_l, elem_of_dom; by exists g).
  destruct (ledger_charge (t_grants t ∪ grants s) (links s) (t_budgets t ∪ budgets s) (overlay (changedMeters t) (fmeters s)) id g
    (links_of s id) (checkpoint_key c) (mkMeter id (Uploaded c) (Downloaded c)) m delta) as [HL Hsp]; try done; cbn [me_Uploaded me_Downloaded]; try lia.
  { unfold m. by rewrite overlay_other. }
  { intros b. symmetry. apply links_of_elem. }
  { intros b Hb. destruct (Hfit b Hb) as (bu & Hbu & Hx & Hr). exists bu. split; [by apply lookup_union_Some_l|].
    unfold exceeds in Hx. rewrite !orb_false_iff, !Z.ltb_ge in Hx. split; [lia|done]. }
  rewrite charged_union, insert_union_l in HL by done.
  split; cbn [t_grants t_budgets changedMeters changedGrants changedBudgets].
  - by rewrite overlay_app.
  - done.
  - by rewrite dom_charged.
  - done.
  - intros i Hi. destruct (decide (i = id)) as [->|Hne].
    + assert (delta = 0) as -> by (destruct (Z.ltb_spec 0 delta); [clear -Hi; set_solver|lia]). rewrite lookup_insert_eq, consume_zero, <-Hg. apply T5.
      clear -Hi. cbn in Hi. done.
    + rewrite lookup_insert_ne by done. apply T5. clear -Hi. destruct (0 <? delta); set_solver.
  - intros b Hb. rewrite charged_to_lookup. destruct (Z.ltb_spec 0 delta).
    + rewrite bool_decide_eq_false_2 by (clear -Hb; set_solver). rewrite <-T6 by (clear -Hb; set_solver). by destruct (t_budgets t !! b).
    + assert (delta = 0) as -> by lia. rewrite <-T6 by done. destruct (t_budgets t !! b); [|done]. cbn. f_equal. case_bool_decide; [apply charge_zero|done].
  - destruct (0 <? delta); [|done]. split.
    + apply union_subseteq. split; [|done]. apply singleton_subseteq_l. rewrite <-T2. apply elem_of_dom. by exists g.
    + apply union_subseteq. split; [|done]. intros b Hb. apply elem_of_list_to_set in Hb. rewrite <-T3. apply elem_of_dom. by apply Hsome.
  - intros b bu Hbu. destruct (T8 b bu Hbu) as (bu' & Hbu' & E1 & E2 & E3). rewrite <-charged_union by done.
    rewrite charged_to_lookup, Hbu'. eexists. split; [done|]. cbn beta. rewrite <-insert_union_l, Hsp.
    case_bool_decide; cbn; split_and!; try done; lia.
Qed.

(** *** The whole batch *)

Definition meter_row (c : UsageCheckpoint) : string * string * string * FleetMeter :=
  (checkpoint_key c, mkMeter (cGrantId c) (Uploaded c) (Downloaded c)).

(** Counters of the wire are unsigned. *)
Definition unsigned (c : UsageCheckpoint) : Prop := 0 <= Uploaded c /\ 0 <= Downloaded c.

Lemma valid_checkpoints_ok seen l : valid_checkpoints seen l = true ->
  NoDup (checkpoint_key <$> l) /\ (forall k, k ∈ checkpoint_key <$> l -> k ∉ seen) /\ Forall (fun c => valid_checkpoint c = true) l.
Proof.
  revert seen. induction l as [|c l IH]; intros seen H; cbn [valid_checkpoints] in H.
  { split; [apply NoDup_nil_2|]. split; [by intros k ?%not_elem_of_nil|by constructor]. }
  rewrite !andb_true_iff, negb_true_iff, bool_decide_eq_false in H. destruct H as [[Hv Hs] Hr]. destruct (IH _ Hr) as (I1 & I2 & I3).
  rewrite fmap_cons. split_and!; [apply NoDup_cons; split; [|done]| |by constructor].
  - intros Hin. specialize (I2 _ Hin). set_solver.
  - intros k [->|Hk]%elem_of_cons; [done|]. specialize (I2 k Hk). set_solver.
Qed.

Lemma taken_fold s gs bs l : forall t t', taken s gs bs t -> Forall (fun c => valid_checkpoint c = true) l -> Forall unsigned l ->
  NoDup ((changedMeters t).*1 ++ (checkpoint_key <$> l)) ->
  foldM (take_checkpoint (links_of s) (fmeters s)) t l = Ok t' ->
  taken s gs bs t' /\ changedMeters t' = changedMeters t ++ (meter_row <$> l).
Proof.
  induction l as [|c l IH]; intros t t' Ht Hv Hu Hnd H; cbn [foldM] in H.
  - injection H as <-. split; [done|]. by rewrite app_nil_r.
  - destruct (take_checkpoint _ _ t c) as [t1|] eqn:E; [|done]. apply Forall_cons in Hv as [Hc Hv]. apply Forall_cons in Hu as [[U1 U2] Hu].
    rewrite fmap_cons in Hnd. apply NoDup_app in Hnd as (N1 & N2 & N3). apply NoDup_cons in N3 as [N3 N4].
    assert (checkpoint_key c ∉ (changedMeters t).*1) as Hk by (intros Hk; apply (N2 _ Hk); by left).
    unfold valid_checkpoint in Hc. rewrite !andb_true_iff, !Z.leb_le in Hc.
    assert (taken s gs bs t1) as Ht1 by (eapply taken_step; [done| | |done|done]; lia).
    apply take_checkpoint_ok in E as (g & bs' & deltas & E). cbv zeta in E. destruct E as (_ & _ & _ & _ & _ & _ & ->).
    destruct (fun N => IH _ t' Ht1 Hv Hu N H) as [I1 I2].
    + cbn [changedMeters]. rewrite fmap_app. apply NoDup_app. split_and!; [apply NoDup_app; split_and!; [done| |apply NoDup_singleton]| |done].
      * cbn. intros x Hx ->%list_elem_of_singleton. done.
      * intros x [Hx|Hx]%elem_of_app Hin; [apply (N2 _ Hx); by right|]. cbn in Hx. apply list_elem_of_singleton in Hx as ->. done.
    + split; [done|]. rewrite I2. cbn [changedMeters]. by rewrite <-app_assoc.
Qed.

Lemma write_meters l s s' : foldTx write_meter tt l s = Ok (tt, s') -> s' = set_fmeters (overlay l (fmeters s)) s.
Proof.
  revert s. induction l as [|row l IH]; intros s H.
  - apply foldTx_nil in H as [_ ->]. by destruct s.
  - apply foldTx_cons in H as ([] & s1 & Hw & H). unfold write_meter in Hw. apply guard_ok in Hw as ([] & _ & Hw); [|apply _].
    apply guard_ok in Hw as (s0 & [-> _]%tx_get_ok & Hw); [|apply _]. apply tx_write_ok in Hw as ->. by apply IH in H as ->.
Qed.

Lemma write_budgets bs l s s' : foldTx (write_budget bs) tt l s = Ok (tt, s') ->
  exists B, s' = set_budgets B s /\ forall i, B !! i = if bool_decide (i ∈ l) then bs !! i else budgets s !! i.
Proof.
  revert s. induction l as [|id l IH]; intros s H.
  - apply foldTx_nil in H as [_ ->]. exists (budgets s). by rewrite set_budgets_same.
  - apply foldTx_cons in H as ([] & s1 & Hw & H). unfold write_budget, save_budget in Hw. apply guard_ok in Hw as (b & [Hb _]%tx_found_ok & Hw); [|apply _].
    apply guard_ok in Hw as ([] & _ & Hw); [|apply _]. apply guard_ok in Hw as (s0 & [-> _]%tx_get_ok & Hw); [|apply _]. apply tx_write_ok in Hw as ->.
    apply IH in H as (B & -> & HB). exists B. split; [done|]. intros i. rewrite HB. cbn [budgets set_budgets].
    destruct (decide (i = id)) as [->|Hne].
    + rewrite (bool_decide_eq_true_2 (id ∈ id :: l)) by (by left). rewrite lookup_insert_eq, Hb. by case_bool_decide.
    + rewrite lookup_insert_ne by done. rewrite (bool_decide_ext (i ∈ l) (i ∈ id :: l)); [done|]. rewrite elem_of_cons. naive_solver.
Qed.

Lemma write_grants gs l s s' : (forall i g, gs !! i = Some g -> fg_ID g = i) -> foldTx (write_grant gs) tt l s = Ok (tt, s') ->
  exists G, s' = set_grants G s /\ forall i, G !! i = if bool_decide (i ∈ l) then gs !! i else grants s !! i.
Proof.
  intros Hid. revert s. induction l as [|id l IH]; intros s H.
  - apply foldTx_nil in H as [_ ->]. exists (grants s). split; [by destruct s|done].
  - apply foldTx_cons in H as ([] & s1 & Hw & H). unfold write_grant, save_grant in Hw. apply guard_ok in Hw as (g & [Hg _]%tx_found_ok & Hw); [|apply _].
    apply guard_ok in Hw as ([] & _ & Hw); [|apply _]. apply guard_ok in Hw as (s0 & [-> _]%tx_get_ok & Hw); [|apply _]. apply tx_write_ok in Hw as ->.
    apply IH in H as (G & -> & HG). exists G. split; [done|]. intros i. rewrite HG. cbn [grants set_grants]. rewrite (Hid id g Hg).
    destruct (decide (i = id)) as [->|Hne].
    + rewrite (bool_decide_eq_true_2 (id ∈ id :: l)) by (by left). rewrite lookup_insert_eq, Hg. by case_bool_decide.
    + rewrite lookup_insert_ne by done. rewrite (bool_decide_ext (i ∈ l) (i ∈ id :: l)); [done|]. rewrite elem_of_cons. naive_solver.
Qed.

(** Term usage is written to its own two tables. *)
Lemma add_usage_writes now deltas owners id s s' : add_usage now deltas owners tt id s = Ok (tt, s') ->
  exists U D, s' = set_usage_days D (set_term_usages U s).
Proof.
  unfold add_usage. intros H. apply guard_ok in H as (s0 & [-> _]%tx_get_ok & H); [|apply _]. destruct (terms s !! id) as [term|].
  - apply guard_ok in H as ([] & _ & H); [|apply _]. apply guard_ok in H as (d & _ & H); [|apply _]. cbv zeta in H.
    apply guard_ok in H as ([] & _ & H); [|apply _]. apply tx_bind_ok in H as ([] & s1 & ->%tx_write_ok & ->%tx_write_ok). by eexists _, _.
  - apply tx_ret_ok in H as [_ ->]. exists (term_usages s), (usage_days s). by destruct s.
Qed.

Lemma recordTermUsage_writes now deltas s s' : recordTermUsage now deltas s = Ok (tt, s') -> exists U D, s' = set_usage_days D (set_term_usages U s).
Proof.
  unfold recordTermUsage. intros H. apply guard_ok in H as (owners & _ & H); [|apply _]. revert s H.
  generalize (Compact (merge_sort String.le ((map_to_list deltas).*1).*2)). intros l. induction l as [|id l IH]; intros s H.
  - apply foldTx_nil in H as [_ ->]. exists (term_usages s), (usage_days s). by destruct s.
  - apply foldTx_cons in H as ([] & s1 & (U1 & D1 & ->)%add_usage_writes & H). apply IH in H as (U & D & ->). by exists U, D.
Qed.

Lemma lock_batch_ok p ids s gs bs bids s' : lock_batch p ids s = Ok ((gs, bs, bids), s') ->
  s' = s /\ gs = filter (fun row => row.1 ∈ ids) (grants s) /\ bs = filter (fun row => row.1 ∈ bids) (budgets s) /\
  (forall g b, g ∈ ids -> (g, b) ∈ links s -> b ∈ bids) /\
  map_Forall (fun _ g => fg_NodeID g = pNodeID p /\ fg_InstallationID g = pInstallationID p) gs.
Proof.
  intros H. pose proof (read_only _ _ _ H) as ->. unfold lock_batch in H. apply guard_ok in H as (s0 & [-> _]%tx_get_ok & H); [|apply _]. cbv zeta in H.
  set (ids' := Compact _) in *. apply guard_ok in H as (bs' & Hb & H); [|apply _]. apply guard_ok in H as ([] & _ & H); [|apply _].
  apply guard_ok in H as ([] & [Hn _]%tx_refuse_ok & H); [|apply _]. apply tx_ret_ok in H as [[= -> -> ->] _].
  unfold lockBudgets in Hb. apply guard_ok in Hb as ([] & _ & Hb); [|apply _]. apply guard_ok in Hb as (s0 & [-> _]%tx_get_ok & Hb); [|apply _].
  cbv zeta in Hb. apply guard_ok in Hb as ([] & _ & Hb); [|apply _]. apply tx_ret_ok in Hb as [-> _]. split_and!; try done.
  - intros g b Hg Hl. unfold ids'. rewrite Compact_elem, merge_sort_Permutation. apply list_elem_of_fmap. exists (g, b). split; [done|].
    apply list_elem_of_filter. split; [done|]. by apply elem_of_elements.
  - apply negb_false_iff, bool_decide_eq_true in Hn. eapply map_Forall_impl; [exact Hn|]. intros i g (? & ? & _). done.
Qed.

Lemma taken_start s (ids bids : list string) : ledger_ok s -> (forall g b, g ∈ ids -> (g, b) ∈ links s -> b ∈ bids) ->
  let gs := filter (fun row : string * FleetGrant => row.1 ∈ ids) (grants s) in let bs := filter (fun row : string * FleetBudget => row.1 ∈ bids) (budgets s) in
  taken s gs bs (mkTaking gs bs [] ∅ ∅ ∅).
Proof.
  intros HL Hl. cbv zeta. assert (forall m1 m2 : gmap string FleetGrant, m1 ⊆ m2 -> m1 ∪ m2 = m2) as U1 by (intros; by apply map_subseteq_union).
  assert (forall m1 m2 : gmap string FleetBudget, m1 ⊆ m2 -> m1 ∪ m2 = m2) as U2 by (intros; by apply map_subseteq_union).
  split; cbn [t_grants t_budgets changedMeters changedGrants changedBudgets]; try done;
    rewrite ?U1, ?U2 by apply map_filter_subseteq; try done.
  - intros id b (g & Hg)%elem_of_dom Hk. apply map_lookup_filter_Some in Hg as [_ Hin]. apply elem_of_dom.
    destruct HL as [_ _ L3 _ _ _]. destruct (L3 id b Hk) as [_ [bu Hbu]]. exists bu. apply map_lookup_filter_Some. split; [done|]. cbn. by apply (Hl id).
  - intros b bu Hbu. exists bu. split_and!; done.
Qed.

(** A batch that was taken: every meter reads what it reported, and the ledger follows. *)
Lemma take_batch_step now p b s s' : validBatch b = true -> Forall unsigned (Checkpoints b) -> ledger_ok s ->
  take_batch now p b s = Ok (tt, s') ->
  ledger_ok s' /\ openings_kept s s' /\ fmeters s' = overlay (meter_row <$> Checkpoints b) (fmeters s) /\ links s' = links s /\
  (forall bid bu, budgets s !! bid = Some bu -> exists bu', budgets s' !! bid = Some bu' /\ LimitBytes bu' = LimitBytes bu) /\
  cursors s' = <[(pNodeID p, pInstallationID p) := mkCursor (Sequence b) (usage_digest b)]> (cursors s) /\ operations s' = operations s /\
  fence s' = fence s /\ nodes s' = nodes s.
Proof.
  intros Hv Hu HL H. unfold take_batch in H. cbv zeta in H. apply tx_bind_ok in H as ([[gs bs] bids] & s1 & Hlock & H).
  apply lock_batch_ok in Hlock as (-> & Hgs & Hbs & Hlk & Hown). apply guard_ok in H as (s0 & [-> _]%tx_get_ok & H); [|apply _].
  apply tx_bind_ok in H as (t & s1 & [Hf ->]%tx_lift_ok & H).
  unfold validBatch in Hv. rewrite !andb_true_iff in Hv. destruct Hv as [_ Hv]. apply valid_checkpoints_ok in Hv as (V1 & _ & V3).
  pose proof (taken_start s (sorted_grants b) bids HL Hlk) as Hstart. cbv zeta in Hstart. rewrite <-Hgs, <-Hbs in Hstart.
  destruct (taken_fold s gs bs (Checkpoints b) _ t Hstart V3 Hu V1 Hf) as [Ht Hmeters]. cbn [changedMeters app] in Hmeters.
  apply tx_bind_ok in H as ([] & s1 & ->%write_meters & H). apply tx_bind_ok in H as ([] & s2 & (B & -> & HB)%write_budgets & H).
  destruct Ht as [T1 T2 T3 T4 T5 T6 [T7 T7'] T8]. pose proof T1 as [L1 _ _ _ _ _].
  apply tx_bind_ok in H as ([] & s3 & Hw & H). apply write_grants in Hw as (G & -> & HG);
    [|intros i g Hg; apply L1; by apply lookup_union_Some_l].
  apply tx_bind_ok in H as ([] & s4 & (U & D & ->)%recordTermUsage_writes & H). apply tx_write_ok in H as ->.
  cbn [grants links budgets fmeters cursors set_grants set_budgets set_fmeters set_usage_days set_term_usages set_cursors] in *.
  assert (B = t_budgets t ∪ budgets s) as EB.
  { apply map_eq. intros i. rewrite HB, lookup_union. destruct (t_budgets t !! i) as [x|] eqn:Ex.
    - case_bool_decide as Hi; [by destruct (budgets s !! i)|]. assert (i ∈ dom bs) as Hd by (rewrite <-T3; apply elem_of_dom; by exists x).
      assert (i ∉ changedBudgets t) as Hc.
      { intros Hc. apply Hi, list_elem_of_filter. split; [done|]. apply elem_of_dom in Hd as [y Hy]. rewrite Hbs in Hy. by apply map_lookup_filter_Some in Hy as [_ ?]. }
      rewrite T6, Hbs in Ex by done. apply map_lookup_filter_Some in Ex as [-> _]. done.
    - rewrite (left_id_L None (∪)). case_bool_decide as Hi; [|done]. apply list_elem_of_filter in Hi as [Hi _]. apply T7' in Hi.
      rewrite <-T3 in Hi. apply elem_of_dom in Hi as [? ?]. congruence. }
  assert (G = t_grants t ∪ grants s) as EG.
  { apply map_eq. intros i. rewrite HG, lookup_union. destruct (t_grants t !! i) as [x|] eqn:Ex.
    - case_bool_decide as Hi; [by destruct (grants s !! i)|]. assert (i ∈ dom gs) as Hd by (rewrite <-T2; apply elem_of_dom; by exists x).
      assert (i ∉ changedGrants t) as Hc.
      { intros Hc. apply Hi, list_elem_of_filter. split; [done|]. apply elem_of_dom in Hd as [y Hy]. rewrite Hgs in Hy. by apply map_lookup_filter_Some in Hy as [_ ?]. }
      rewrite T5, Hgs in Ex by done. apply map_lookup_filter_Some in Ex as [-> _]. done.
    - rewrite (left_id_L None (∪)). case_bool_decide as Hi; [|done]. apply list_elem_of_filter in Hi as [Hi _]. apply T7 in Hi.
      rewrite <-T2 in Hi. apply elem_of_dom in Hi as [? ?]. congruence. }
  subst B G. unfold ledger_ok, openings_kept, opening.
  cbn [grants links budgets fmeters cursors set_grants set_budgets set_fmeters set_usage_days set_term_usages set_cursors].
  rewrite Hmeters. rewrite Hmeters in T1. split; [done|]. split; [|split; [done|split; [done|split]]].
  - intros b' bu Hbu. destruct (T8 b' bu Hbu) as (bu' & Hbu' & ? & _ & ?). exists bu'. rewrite Hbu, Hbu'. done.
  - intros b' bu Hbu. destruct (T8 b' bu Hbu) as (bu' & Hbu' & _ & ? & _). by exists bu'.
  - done.
Qed.
End Ingest.
