(* ===== verification/FleetRuns.v ===== *)
(** * Runs of the control plane

    Every transaction the development models, and the panel's own writes around them, as
    one step relation; what each of them does to the ledger, and that answered operations
    are kept. *)
From S2P Require Import Prelude Limits Authority Spool Rates Fleet FleetLedger FleetRates FleetLifecycle FleetFacts FleetSpend.
Open Scope Z_scope.
Open Scope list_scope.

(** ** Transactions as steps *)

Lemma Transaction_cases {A} fault (body : Tx A) s (P : Fleet -> Prop) :
  P s -> (forall a s', body s = Ok (a, s') -> P s') -> P (Transaction fault body s).1.
Proof. intros Hs Hb. unfold Transaction. destruct fault; [done|]. destruct (body s) as [[a s']|] eqn:E; [by eapply Hb|done]. Qed.

(** Operations are answered for good. *)
Definition operations_kept (s s' : Fleet) : Prop := forall id op, operations s !! id = Some op -> operations s' !! id = Some op.
#[global] Instance operations_kept_trans : Transitive operations_kept.
Proof. intros x y z H1 H2 id op H. auto. Qed.
Lemma operations_same s s' : operations s' = operations s -> operations_kept s s'.
Proof. intros E id op H. by rewrite E. Qed.

(** Neither the ledger nor the operations. *)
Definition outside (s s' : Fleet) : Prop := same_ledger s s' /\ operations s' = operations s.
#[global] Instance outside_refl : Reflexive outside.
Proof. done. Qed.
#[global] Instance outside_trans : Transitive outside.
Proof. intros x y z [H1 E1] [H2 E2]. split; [by etrans|congruence]. Qed.

#[global] Instance outside_preorder : PreOrder outside.
Proof. split; apply _. Qed.
(** A transaction that stays outside both. *)
Notation Outside := (Keeps outside).

Section Frames.
Context {HU : UUIDs} {HW : Wire} {HD : LedgerDigests} {HR : RateDigests} {HC : LifecycleDigests}.

#[global] Instance create_rate_budget_outside id row : Outside (create_rate_budget id row).
Proof. apply (keeps_get outside). intros s a s'. case_match; [by intros [_ ->]%tx_ret_ok|by intros ->%tx_write_ok]. Qed.
#[global] Instance set_rate_budget_outside id c t r d : Outside (set_rate_budget id c t r d).
Proof.
  unfold set_rate_budget. do 3 (apply (keeps_bind outside); [apply _|intros ?]). apply (keeps_get outside). intros s b s' H.
  do 4 (apply guard_ok in H as (? & _ & H); [|apply _]). by apply tx_write_ok in H as ->.
Qed.
#[global] Instance SetRateBudget_tx_outside id c t r d : Outside (SetRateBudget_tx id c t r d).
Proof. unfold SetRateBudget_tx. apply _. Qed.
#[global] Instance admit_increase_ro now g t b acc o : ReadOnly (admit_increase now g t b acc o).
Proof.
  unfold admit_increase. cbv zeta. apply bind_ro; [apply _|]. intros []. apply bind_ro; [|intros []; apply _].
  destruct t; [|apply _]. destruct (negb _); apply _.
Qed.
#[global] Instance share_scope_ro r : ReadOnly (share_scope r).
Proof. unfold share_scope. apply _. Qed.
#[global] Instance save_share_outside r acc o : Outside (save_share r acc o).
Proof.
  unfold save_share. cbv zeta. do 2 (apply (keeps_bind outside); [apply _|intros []]). apply (keeps_get outside). intros s b s' H.
  apply guard_ok in H as ([] & _ & H); [|apply _]. by apply tx_bind_ok in H as ([] & s1 & ->%tx_write_ok & [_ ->]%tx_ret_ok).
Qed.
#[global] Instance confirm_share_outside p g r a : Outside (confirm_share p g r a).
Proof.
  unfold confirm_share. do 2 (apply (keeps_bind outside); [apply _|intros ?]). apply (keeps_get outside). intros s b s' H.
  do 5 (apply guard_ok in H as (? & _ & H); [|apply _]). by apply tx_write_ok in H as ->.
Qed.
#[global] Instance acknowledgeConfiguration_outside p bundle : Outside (acknowledgeConfiguration p bundle).
Proof.
  unfold acknowledgeConfiguration. destruct bundle; [|apply _]. cbv zeta. do 4 (apply (keeps_bind outside); [apply _|intros ?]).
  apply (keeps_foldTx outside). intros ? share. unfold write_share. apply (keeps_bind outside); [apply _|]. intros []. by apply (keeps_write outside).
Qed.
#[global] Instance recordStoppedGrants_outside n r bundle : Outside (recordStoppedGrants n r bundle).
Proof.
  unfold recordStoppedGrants. destruct bundle; [|apply _]. cbv zeta. do 3 (apply (keeps_bind outside); [apply _|intros ?]). by apply (keeps_write outside).
Qed.
#[global] Instance bind_client_outside p f i d : Outside (bind_client p f i d).
Proof.
  unfold bind_client. do 2 (apply (keeps_bind outside); [apply _|intros ?]). apply (keeps_get outside). intros s b s' H.
  destruct (filter _ _) as [|[? c] l].
  - apply guard_ok in H as ([] & _ & H); [|apply _]. by apply tx_bind_ok in H as ([] & s1 & ->%tx_write_ok & [_ ->]%tx_ret_ok).
  - apply read_only in H as ->. done.
Qed.
#[global] Instance reconcile_credentials_outside c g d : Outside (reconcile_credentials c g d).
Proof.
  unfold reconcile_credentials. do 2 (apply (keeps_bind outside); [apply _|intros ?]). apply (keeps_if outside); [apply _|]. apply (keeps_bind outside); [apply _|]. intros [].
  cbv zeta. apply (keeps_bind outside); [by apply (keeps_write outside)|apply _].
Qed.
#[global] Instance save_term_outside t : Outside (save_term t).
Proof. by apply (keeps_write outside). Qed.
#[global] Instance save_client_outside i c : Outside (save_client i c).
Proof. by apply (keeps_write outside). Qed.
#[global] Instance activateRatePool_outside c t : Outside (activateRatePool c t).
Proof. unfold activateRatePool. apply _. Qed.
#[global] Instance pending_terms_ro a b c : ReadOnly (pending_terms a b c).
Proof. unfold pending_terms. apply _. Qed.
#[global] Instance requireStoppedGrants_ro t : ReadOnly (requireStoppedGrants t).
Proof. unfold requireStoppedGrants. apply _. Qed.
#[global] Instance create_term_outside t : Outside (create_term t).
Proof.
  unfold create_term. apply (keeps_get outside). intros s b s' H. apply guard_ok in H as ([] & _ & H); [|apply _].
  apply tx_bind_ok in H as ([] & s1 & ->%tx_write_ok & H). apply guard_ok in H as (s0 & [-> _]%tx_get_ok & H); [|apply _].
  apply guard_ok in H as ([] & _ & H); [|apply _]. by apply tx_write_ok in H as ->.
Qed.
#[global] Instance succeed_term_outside now r c t : Outside (succeed_term now r c t).
Proof. unfold succeed_term. apply _. Qed.
#[global] Instance cancel_outside r : Outside (cancel r).
Proof. unfold cancel. do 2 (apply (keeps_bind outside); [apply _|intros ?]). apply (keeps_bind outside); [apply _|]. intros [term previous]. apply _. Qed.
#[global] Instance complete_outside now r : Outside (complete now r).
Proof. unfold complete. do 2 (apply (keeps_bind outside); [apply _|intros ?]). apply (keeps_bind outside); [apply _|]. intros [term previous]. apply _. Qed.
End Frames.

(** ** Every transaction is a step of the ledger that keeps the answers *)

Definition booked (s s' : Fleet) : Prop := ledger_step s s' /\ operations_kept s s'.
Notation Steps := (Keeps booked).
#[global] Instance booked_preorder : PreOrder booked.
Proof.
  split; [intros s; split; [by apply same_ledger_step|by apply operations_same]|]. intros x y z [L1 K1] [L2 K2]. split; by etrans.
Qed.
#[global] Instance steps_outside {A} (m : Tx A) : Outside m -> Steps m | 5.
Proof. intros Hm s a s' H. destruct (Hm _ _ _ H) as [H1 H2]. split; [by apply same_ledger_step|by apply operations_same]. Qed.

Lemma write_answer s s1 id op : operations s !! id = None -> operations_kept s s1 ->
  operations_kept s (set_operations (<[id := op]> (operations s1)) s1).
Proof. intros Hn Hk id' op' H. cbn. rewrite lookup_insert_ne by congruence. auto. Qed.

Lemma record_result_ok id d r s a s' : record_result id d r s = Ok (a, s') -> s' = set_operations (<[id := mkOperation d r]> (operations s)) s.
Proof. unfold record_result. intros H. apply guard_ok in H as (s0 & [-> _]%tx_get_ok & H); [|apply _]. by apply tx_write_ok in H as ->. Qed.

(** The claim, and whether it was the first. *)
Lemma claim_ok id digest s op s' : claim id digest s = Ok (op, s') ->
  match op with
  | Some o => operations s !! id = Some o /\ s' = s
  | None => operations s !! id = None /\ s' = set_operations (<[id := mkOperation digest NoResult]> (operations s)) s
  end.
Proof.
  unfold claim. intros H. apply guard_ok in H as (s0 & [-> _]%tx_get_ok & H); [|apply _]. destruct (operations s !! id) as [o|] eqn:E.
  - apply tx_ret_ok in H as [-> ->]. done.
  - apply tx_bind_ok in H as ([] & s1 & ->%tx_write_ok & [-> ->]%tx_ret_ok). done.
Qed.

(** An operation claimed, applied and answered. *)
Lemma answered_step {A} (body : Tx A) id digest (r : A -> OpResult) s a s1 s2 s3 :
  Steps body -> claim id digest s = Ok (None, s1) -> body s1 = Ok (a, s2) -> record_result id digest (r a) s2 = Ok (tt, s3) ->
  ledger_step s s3 /\ operations_kept s s3.
Proof.
  intros Hb [Hn ->]%claim_ok H2 ->%record_result_ok. destruct (Hb _ _ _ H2) as [L K]. split.
  - transitivity s2; [|by apply same_ledger_step]. etrans; [|exact L]. by apply same_ledger_step.
  - apply write_answer; [done|]. etrans; [|exact K]. apply write_answer; [done|]. by intros ? ?.
Qed.

Section Steps.
Context {HU : UUIDs} {HW : Wire} {HD : LedgerDigests} {HR : RateDigests} {HC : LifecycleDigests}.

(** A budget no grant draws on yet. *)
#[global] Instance create_budget_steps id limit unlimited opening :
  0 <= opening <= MaxInt64 -> limit <= MaxInt64 -> Steps (create_budget id (mkBudget limit unlimited opening 0)).
Proof.
  intros Ho Hlim s [] s' H. unfold create_budget in H. apply guard_ok in H as (s0 & [-> _]%tx_get_ok & H); [|apply _].
  apply guard_ok in H as ([] & [Hc _]%tx_refuse_ok & H); [|apply _]. apply tx_write_ok in H as ->.
  apply orb_false_iff in Hc as [Hn Hc]. apply bool_decide_eq_false, eq_None_not_Some in Hn. apply negb_false_iff in Hc.
  split; [|by apply operations_same]. unfold ledger_step, ledger_ok, openings_kept, FleetSpend.opening. cbn [grants links budgets fmeters set_budgets]. split.
  - intros [L1 L2 L3 L4 L5 L6]. assert (forall g, (g, id) ∉ links s) as Hfree.
    { intros g Hg. destruct (L3 g id Hg) as [_ [? ?]]. congruence. }
    split; try done.
    + intros g b Hg. destruct (L3 g b Hg) as [? Hb]. split; [done|]. rewrite lookup_insert. by case_decide.
    + intros i b g bu Hl Hg Hb. apply lookup_insert_Some in Hb as [[<- _]|[_ Hb]]; [by destruct (Hfree i)|by apply (L4 i b g bu)].
    + intros b bu Hb. apply lookup_insert_Some in Hb as [[<- <-]|[_ Hb]]; [|by apply L6]. cbn. split; [done|]. intros ->.
      unfold budget_check in Hc. cbn in Hc. rewrite !andb_true_iff, !Z.leb_le in Hc. split; [|lia].
      unfold held. rewrite (map_sum_ext _ (fun _ => 0)); [unfold map_sum; generalize (map_to_list (grants s)).*2; intros l; induction l as [|x l IH]; [done|]; rewrite fmap_cons; cbn [sumZ]; lia|].
      intros k h _. by rewrite bool_decide_eq_false_2.
  - intros _ b bu Hb. exists bu. rewrite lookup_insert_ne by congruence. done.
Qed.

Lemma opening_typed kind spec : validTermSpec kind spec = true ->
  0 <= OpeningUsedBytes spec <= MaxInt64.
Proof.
  unfold validTermSpec. destruct ((tsOpeningUploaded spec <? 0) || _ || _ || _) eqn:E; [done|]. intros _.
  unfold exceeds in E. rewrite !orb_false_iff, !Z.ltb_ge, negb_false_iff, Z.eqb_eq in E. lia.
Qed.

Lemma transition_steps now fresh r : 0 <= OpeningUsedBytes (tq_Spec r) <= MaxInt64 -> QuotaBytes (tq_Spec r) <= MaxInt64 -> Steps (transition now fresh r).
Proof.
  intros Ho Hq. unfold transition. do 6 (apply (keeps_bind booked); [apply _|intros ?]). cbv zeta.
  cbv zeta. apply (keeps_bind booked); [destruct (bool_decide (tq_Kind r = Activation)); apply _|]. intros term. apply (keeps_bind booked); [by apply create_budget_steps|]. intros [].
  do 2 (apply (keeps_bind booked); [apply _|intros []]). apply (keeps_bind booked); [destruct (bool_decide _); apply _|apply _].
Qed.

Lemma lifecycleOperation_steps id request apply_ : Steps apply_ -> Steps (lifecycleOperation id request apply_).
Proof.
  intros Ha s r s' H. unfold lifecycleOperation in H. apply guard_ok in H as ([] & _ & H); [|apply _]. cbv zeta in H.
  apply guard_ok in H as ([] & _ & H); [|apply _]. apply tx_bind_ok in H as (op & s1 & Hc & H). destruct op as [op|].
  - apply claim_ok in Hc as [_ ->]. apply guard_ok in H as ([] & _ & H); [|apply _].
    assert (s' = s) as -> by (destruct (op_Result op); by apply read_only in H). split; [by apply same_ledger_step|by apply operations_same].
  - apply tx_bind_ok in H as (a & s2 & H2 & H). apply tx_bind_ok in H as ([] & s3 & H3 & [-> ->]%tx_ret_ok).
    by eapply (answered_step apply_ id _ TermResult).
Qed.

#[global] Instance request_share_steps now request : Steps (request_share now request).
Proof.
  intros s r s' H. unfold request_share in H. cbv zeta in H. apply guard_ok in H as ([] & _ & H); [|apply _].
  apply tx_bind_ok in H as (op & s1 & Hc & H). destruct op as [op|].
  - apply claim_ok in Hc as [_ ->]. unfold replayed_share in H. apply guard_ok in H as ([] & _ & H); [|apply _].
    assert (s' = s) as -> by (destruct (op_Result op); by apply read_only in H). split; [by apply same_ledger_step|by apply operations_same].
  - apply guard_ok in H as ([[grant term] budget] & _ & H); [|apply _]. apply guard_ok in H as (s0 & [-> _]%tx_get_ok & H); [|apply _].
    apply guard_ok in H as (acc & _ & H); [|apply _]. apply guard_ok in H as ([] & _ & H); [|apply _].
    apply tx_bind_ok in H as (row & s2 & H2 & H). apply tx_bind_ok in H as ([] & s3 & H3 & [-> ->]%tx_ret_ok).
    by eapply (answered_step (save_share request acc _) _ _ ShareResult); [apply _|..].
Qed.

#[global] Instance reserve_steps now request placement : Steps (reserve now request placement).
Proof.
  intros s g s' H. split; [by eapply reserve_step|]. unfold reserve in H. apply guard_ok in H as ([] & _ & H); [|apply _].
  apply guard_ok in H as ([] & [Hd _]%tx_refuse_ok & H); [|apply _]. apply negb_false_iff in Hd. unfold reserve_tx in H. cbv zeta in H.
  apply guard_ok in H as ([] & _ & H); [|apply _]. apply tx_bind_ok in H as (op & s1 & Hc & H). destruct op as [op|].
  - apply claim_ok in Hc as [_ ->]. apply read_only in H as ->. by apply operations_same.
  - apply claim_ok in Hc as [Hn ->]. apply reserve_claimed_writes in H as (g0 & isNew & _ & _ & _ & _ & ->); [|by apply sorted_ids_nodup].
    intros id o Ho. cbn in *. rewrite !lookup_insert_ne by congruence. done.
Qed.

(** A limit moved to where what is used and reserved fits. *)
Lemma limit_parent_steps r id : (forall z, cq_ParentLimitBytes r !! id = Some z -> z <= MaxInt64) -> Steps (limit_parent r tt id).
Proof.
  intros Hz s [] s' H. unfold limit_parent in H. apply guard_ok in H as (s0 & [-> _]%tx_get_ok & H); [|apply _].
  apply guard_ok in H as (b & [Hb _]%tx_found_ok & H); [|apply _]. cbv zeta in H. set (limit := default 0 _) in *.
  apply guard_ok in H as ([] & [Hr _]%tx_refuse_ok & H); [|apply _]. rewrite !orb_false_iff, !Z.ltb_ge in Hr. destruct Hr as [[Hu H1] H2].
  destruct (LimitBytes b =? limit).
  - apply tx_ret_ok in H as [_ ->]. split; [by apply same_ledger_step|by apply operations_same].
  - unfold save_budget in H. apply guard_ok in H as ([] & _ & H); [|apply _]. apply guard_ok in H as (s0 & [-> _]%tx_get_ok & H); [|apply _].
    apply tx_write_ok in H as ->. split; [|by apply operations_same].
    assert (limit <= MaxInt64) as Hm by (unfold limit; destruct (cq_ParentLimitBytes r !! id) as [z|] eqn:E; cbn; [by apply Hz|done]).
    unfold ledger_step, ledger_ok, openings_kept, FleetSpend.opening. cbn [grants links budgets fmeters set_budgets]. split.
    + intros [L1 L2 L3 L4 L5 L6]. split; try done.
      * intros g x Hg. destruct (L3 g x Hg) as [? Hx]. split; [done|]. rewrite lookup_insert. by case_decide.
      * intros i x g bu Hl Hg Hx. apply lookup_insert_Some in Hx as [[<- <-]|[_ Hx]]; [cbn; by apply (L4 i id g b)|by apply (L4 i x g bu)].
      * intros x bu Hx. apply lookup_insert_Some in Hx as [[<- <-]|[_ Hx]]; [|by apply L6]. cbn. destruct (L6 id b Hb) as [? Hres].
        split; [done|]. intros _. destruct (Hres Hu). lia.
    + intros _ x bu Hx. destruct (decide (x = id)) as [->|Hne].
      * exists (with_limit b limit). rewrite !lookup_insert_eq, Hb. simplify_eq. done.
      * exists bu. rewrite !lookup_insert_ne by done. done.
Qed.

(** Limits are [int64]s. *)
Definition credit_typed (r : ClientCreditRequest) : Prop := forall id z, cq_ParentLimitBytes r !! id = Some z -> z <= MaxInt64.

Lemma credit_tx_steps now fresh r : credit_typed r -> Steps (credit_tx now fresh r).
Proof.
  intros Ht s g s' H. unfold credit_tx in H. cbv zeta in H. apply guard_ok in H as ([] & _ & H); [|apply _].
  apply guard_ok in H as ([placement term] & _ & H); [|apply _]. apply tx_bind_ok in H as (op & s1 & Hc & H). destruct op as [op|].
  - apply claim_ok in Hc as [_ ->]. apply read_only in H as ->. split; [by apply same_ledger_step|by apply operations_same].
  - apply tx_bind_ok in H as ([ids amount] & s2 & H2 & H). apply tx_bind_ok in H as (g' & s3 & H3 & H).
    apply tx_bind_ok in H as ([] & s4 & H4 & H). apply tx_bind_ok in H as ([] & s5 & H5 & [-> ->]%tx_ret_ok).
    eapply (answered_step (x ← credit_amount r placement term; let '(ids, amount) := x in
      g ← reserve now (mkReserve (ledger_operation (cq_OperationID r))
        (match CurrentGrantID placement, CurrentGrantTermID placement with Some g, Some t => if bool_decide (t = ft_ID term) then g else fresh | _, _ => fresh end)
        (pl_NodeID placement) (pl_InstallationID placement) (pl_RuntimeID placement) (pl_ClientID placement) (ft_ID term) ids amount false) (cq_PlacementID r);
      _ ← write (fun s => set_placements (<[cq_PlacementID r := with_grant placement (fg_ID g) (ft_ID term)]> (placements s)) s); mret g) _ _ GrantResult);
      [|exact Hc| |exact H5].
    + apply (keeps_bind booked).
      * unfold credit_amount. cbv zeta. apply (keeps_bind booked); [apply _|]. intros _. apply (keeps_bind booked); [|intros []; apply _].
        apply (keeps_foldTx booked). intros [] id. apply limit_parent_steps. intros z. apply Ht.
      * intros [ids' amount']. apply (keeps_bind booked); [apply _|]. intros g0. apply (keeps_bind booked); [|intros []; apply _]. apply steps_outside. by apply (keeps_write outside).
    + apply tx_bind_ok. eexists _, _. split; [exact H2|]. apply tx_bind_ok. eexists _, _. split; [exact H3|]. apply tx_bind_ok. eexists _, _. split; [exact H4|].
      by apply tx_ret_ok.
Qed.

Lemma node_cursor_outside p : Outside (node_cursor p).
Proof.
  apply (keeps_get outside). intros s a s' H. destruct (cursors s !! _); [by apply tx_ret_ok in H as [_ ->]|].
  by apply tx_bind_ok in H as ([] & s1 & ->%tx_write_ok & [_ ->]%tx_ret_ok).
Qed.

Lemma ingest_steps now peer p b : validBatch b = true -> Forall unsigned (Checkpoints b) -> forall s a s', ledger_ok s -> ingest now peer p b s = Ok (a, s') ->
  ledger_ok s' /\ openings_kept s s' /\ operations_kept s s'.
Proof.
  intros Hv Hu s a s' HL H. unfold ingest in H. apply guard_ok in H as ([] & _ & H); [|apply _]. apply guard_ok in H as ([] & _ & H); [|apply _].
  apply tx_bind_ok in H as (c & s1 & H1%node_cursor_outside & H). destruct H1 as [H1 H1'].
  assert (ledger_step s s1) as [L1 O1] by (by apply same_ledger_step). specialize (L1 HL). specialize (O1 HL).
  destruct (Sequence b <=? cu_Sequence c).
  - apply guard_ok in H as ([] & _ & H); [|apply _]. apply tx_ret_ok in H as [_ ->]. split_and!; try done. by apply operations_same.
  - apply guard_ok in H as ([] & _ & H); [|apply _]. apply tx_bind_ok in H as ([] & s2 & H2 & [_ ->]%tx_ret_ok).
    apply take_batch_step in H2 as (L2 & O2 & _ & _ & _ & _ & E & _); try done. split_and!; [done| |by apply operations_same; rewrite E].
    intros b' bu Hb. destruct (O1 b' bu Hb) as (bu' & Hb' & ? & ?). destruct (O2 b' bu' Hb') as (bu'' & ? & ? & ?). exists bu''. split_and!; congruence.
Qed.
End Steps.
