(* ===== verification/FleetTheorems.v ===== *)
(** * What the control plane's ledger promises

    In every run of the modelled transactions: credit is conserved, nothing is billed that
    a meter did not report, usage is taken in once and in order, and a reservation is
    answered once. *)
From S2P Require Import Prelude Limits Authority Instances Spool Rates Fleet FleetLedger FleetRates FleetLifecycle FleetFacts FleetSpend FleetRuns.
Open Scope Z_scope.
Open Scope list_scope.

(** What the rest of the panel writes: nodes, journals, placements and stops, answers of
    its own, the ownership and the revision of a client and, when the client is deleted,
    its panel id; never the ledger, a term or a rate. The two other writers of a rate do
    what a modelled step does: an acknowledged authority batch takes a share's desired rate
    as applied (authority_delivery.go), as [StepConfirm] does, and a stop takes a share's
    desired rate to zero and leaves what is outstanding (stop_configuration.go), as
    [StepShare] for a rate of zero does, but for the answer that step records. *)
Definition identity_of (c : FleetClient) := (CredentialGeneration c, CredentialDigest c, CurrentTermID c, PendingTermID c).
Record panel_write (s s' : Fleet) : Prop := {
  pw_ledger : same_ledger s s';
  pw_cursors : cursors s' = cursors s;
  pw_operations : operations_kept s s';
  pw_terms : terms s' = terms s;
  pw_rates : rate_budgets s' = rate_budgets s /\ rate_shares s' = rate_shares s;
  pw_clients : forall id, identity_of <$> clients s' !! id = identity_of <$> clients s !! id }.

Definition empty_fleet : Fleet := mkFleet (mkFence false ""%string) ∅ ∅ ∅ ∅ ∅ ∅ ∅ ∅ ∅ ∅ ∅ ∅ ∅ ∅ ∅ ∅ ∅ ∅ (mkDelivery ∅ ∅ ∅ ∅).

Section Runs.
Context {HU : UUIDs} {HW : Wire} {HD : LedgerDigests} {HR : RateDigests} {HC : LifecycleDigests}.

(** A rate in bits per second is a [uint64]. *)
Definition rates_typed (r : Rates) : Prop := 0 <= BitsPerSecond (rUpload r) /\ 0 <= BitsPerSecond (rDownload r).

(** Quotas, limits and openings are [int64]s, counters of the wire and rates unsigned; an id
    made by [uuid.NewString] is not empty and nobody's yet. *)
Inductive fleet_step (s : Fleet) : Fleet -> Prop :=
| StepReserve fault now r : fleet_step s (Reserve fault now r s).1
| StepIngest fault now peer p b : Forall unsigned (Checkpoints b) -> fleet_step s (Ingest fault now peer p b s).1
| StepCredit fault now fresh r : credit_typed r -> fleet_step s (ReserveClientCredit fault now fresh r s).1
| StepTransition fault now fresh r : QuotaBytes (tq_Spec r) <= MaxInt64 -> rates_typed (tsRates (tq_Spec r)) -> fresh <> ""%string ->
    fleet_step s (Transition fault now fresh r s).1
| StepComplete fault now r : fleet_step s (CompleteTransition fault now r s).1
| StepCancel fault r : fleet_step s (CancelTransition fault r s).1
| StepBind fault panel fresh id d : (forall i g, grants s !! i = Some g -> fg_ClientID g <> fresh) -> fleet_step s (BindClient fault panel fresh id d s).1
| StepReconcile fault id g d : fleet_step s (ReconcileCredentials fault id g d s).1
| StepRateBudget fault id c t r d : rates_typed d -> fleet_step s (SetRateBudget fault id c t r d s).1
| StepShare fault now r : rates_typed (rr_Desired r) -> fleet_step s (RequestRateShare fault now r s).1
| StepConfirm fault p g r a : fleet_step s (ConfirmRateShare fault p g r a s).1
| StepAcknowledge fault p bundle : fleet_step s (Transaction fault (acknowledgeConfiguration p bundle) s).1
| StepStops fault n r bundle : fleet_step s (Transaction fault (recordStoppedGrants n r bundle) s).1
| StepHold : fleet_step s (Transaction None HoldForRecovery s).1
| StepParent fault id limit opening : 0 <= opening <= MaxInt64 -> limit <= MaxInt64 ->
    fleet_step s (Transaction fault (create_budget id (mkBudget limit false opening 0)) s).1
| StepPanel s' : panel_write s s' -> fleet_step s s'.

Definition reachable (s : Fleet) : Prop := rtc fleet_step empty_fleet s.

Lemma step_ledger s s' : ledger_ok s -> fleet_step s s' -> ledger_ok s' /\ openings_kept s s' /\ operations_kept s s'.
Proof.
  intros HL Hstep. assert (ledger_ok s /\ openings_kept s s /\ operations_kept s s) as Hrefl
    by (split_and!; [done|by intros b bu Hb; exists bu|by intros ? ?]).
  assert (forall {A} (m : Tx A) fault, Steps m ->
    let s' := (Transaction fault m s).1 in ledger_ok s' /\ openings_kept s s' /\ operations_kept s s') as Htx.
  { intros A m fault Hm. cbv zeta. apply (Transaction_cases fault m s (fun s' => ledger_ok s' /\ openings_kept s s' /\ operations_kept s s')); [done|].
    intros a s1 H. destruct (Hm _ _ _ H) as [[H1 H2] H3]. auto. }
  inversion Hstep; subst; clear Hstep.
  - apply Htx, _.
  - unfold Ingest. do 3 (case_match; [done|]). destruct (Transaction fault (ingest now peer p b) s) as [s1 r] eqn:E. cbn [fst].
    change s1 with (s1, r).1. rewrite <-E. apply (Transaction_cases fault _ s (fun s' => ledger_ok s' /\ openings_kept s s' /\ operations_kept s s')); [done|].
    intros a s2 Hi. eapply ingest_steps; [by apply negb_false_iff|done..].
  - unfold ReserveClientCredit. do 2 (case_match; [done|]). apply Htx, credit_tx_steps. done.
  - unfold Transition. case_match eqn:Ev; [done|]. apply Htx, lifecycleOperation_steps, transition_steps; [|done].
    rewrite !orb_false_iff in Ev. destruct Ev as [_ Ev%negb_false_iff]. by eapply opening_typed.
  - unfold CompleteTransition. case_match; [done|]. apply Htx, lifecycleOperation_steps, _.
  - unfold CancelTransition. case_match; [done|]. apply Htx, lifecycleOperation_steps, _.
  - unfold BindClient. case_match; [done|]. apply Htx, _.
  - unfold ReconcileCredentials. case_match; [done|]. apply Htx, _.
  - apply Htx, _.
  - unfold RequestRateShare. case_match; [done|]. apply Htx, _.
  - unfold ConfirmRateShare. case_match; [done|]. apply Htx, _.
  - apply Htx, _.
  - apply Htx, _.
  - apply Htx. apply steps_outside. by apply (keeps_write outside).
  - apply Htx, create_budget_steps; done.
  - destruct H as [P1 _ P3 _ _ _]. destruct (same_ledger_step _ _ P1) as [H1 H2]. split_and!; auto.
Qed.

Lemma run_ledger s s' : ledger_ok s -> rtc fleet_step s s' -> ledger_ok s' /\ openings_kept s s' /\ operations_kept s s'.
Proof.
  intros HL Hrun. induction Hrun as [s|s s1 s2 Hstep _ IH]; [split_and!; [done|by intros b bu Hb; exists bu|by intros ? ?]|].
  destruct (step_ledger _ _ HL Hstep) as (L1 & O1 & K1). destruct (IH L1) as (L2 & O2 & K2). split_and!; [done| |by etrans].
  intros b bu Hb. destruct (O1 b bu Hb) as (bu' & Hb' & ? & ?). destruct (O2 b bu' Hb') as (bu'' & ? & ? & ?). exists bu''. split_and!; congruence.
Qed.

Lemma empty_ledger : ledger_ok empty_fleet.
Proof. split; intros *; cbn; by rewrite ?lookup_empty. Qed.

Lemma reachable_ledger s : reachable s -> ledger_ok s.
Proof. intros H. by destruct (run_ledger _ _ empty_ledger H). Qed.

(** C5: In every reachable state of the control plane, credit is conserved.  A limited budget
    holds in reserve exactly what the grants that draw on it were issued and have not
    consumed, and what is used and reserved together never passes its limit, so its
    grants can never use more; and every grant has consumed exactly what its meters
    reported, a limited one at most what it was issued. *)
Theorem credit_is_conserved s : reachable s ->
  (forall b bu, budgets s !! b = Some bu -> bUnlimited bu = false ->
    ReservedBytes bu = held (grants s) (links s) b /\ 0 <= UsedBytes bu /\ UsedBytes bu + ReservedBytes bu <= LimitBytes bu) /\
  (forall id g, grants s !! id = Some g ->
    ConsumedBytes g = metered (fmeters s) id /\ (fg_Unlimited g = false -> 0 <= ConsumedBytes g <= IssuedBytes g)).
Proof.
  intros [L1 L2 L3 L4 L5 L6]%reachable_ledger. split.
  - intros b bu Hb Hu. destruct (L6 b bu Hb) as [H1 H2]. destruct (H2 Hu) as [H3 H4]. split_and!; [done|lia|lia].
  - intros id g Hg. destruct (L2 id g Hg) as [(H1 & _ & _ & H4) H5]. split; [done|]. intros Hu. rewrite Hu in H4. lia.
Qed.

(** C6: Nobody pays for another: over any run, what a budget is charged is exactly what the
    grants that draw on it have consumed more, to the byte. *)
Theorem budgets_pay_for_their_grants s s' b bu : reachable s -> rtc fleet_step s s' -> budgets s !! b = Some bu ->
  exists bu', budgets s' !! b = Some bu' /\ bUnlimited bu' = bUnlimited bu /\
  UsedBytes bu' - UsedBytes bu = spent (grants s') (links s') b - spent (grants s) (links s) b.
Proof.
  intros HL%reachable_ledger Hrun Hb. destruct (run_ledger _ _ HL Hrun) as (_ & Hk & _). destruct (Hk b bu Hb) as (bu' & Hb' & Hu & Ho).
  exists bu'. split_and!; [done..|]. unfold opening in Ho. rewrite Hb, Hb' in Ho. cbn in Ho. lia.
Qed.

(** ** Usage *)

Definition cursor_at (s : Fleet) (p : Principal) : Z := from_option cu_Sequence 0 (cursors s !! (pNodeID p, pInstallationID p)).

Lemma node_cursor_ok p s c s' : node_cursor p s = Ok (c, s') ->
  cu_Sequence c = cursor_at s p /\ same_ledger s s' /\ fence s' = fence s /\ nodes s' = nodes s /\ (is_Some (cursors s !! (pNodeID p, pInstallationID p)) -> s' = s) /\
  (cu_Sequence c <> 0 -> cursors s !! (pNodeID p, pInstallationID p) = Some c).
Proof.
  unfold node_cursor. intros H. apply guard_ok in H as (s0 & [-> _]%tx_get_ok & H); [|apply _]. unfold cursor_at.
  destruct (cursors s !! (pNodeID p, pInstallationID p)) as [c0|].
  - apply tx_ret_ok in H as [-> ->]. done.
  - apply tx_bind_ok in H as ([] & s1 & ->%tx_write_ok & [-> ->]%tx_ret_ok). split_and!; try done.
Qed.

(** Guards answer by the rows they read. *)
Lemma lockAuthority_frame s s' : fence s' = fence s -> lockAuthority s = Ok (tt, s) -> lockAuthority s' = Ok (tt, s').
Proof. unfold lockAuthority, get, refuse, mbind, Tx_bind. intros ->. by destruct (RecoveryRequired (fence s)). Qed.
Lemma lockAuthenticatedNode_frame peer p s s' : nodes s' = nodes s ->
  lockAuthenticatedNode peer p s = Ok (tt, s) -> lockAuthenticatedNode peer p s' = Ok (tt, s').
Proof.
  unfold lockAuthenticatedNode, lockNode, get, refuse, found, lift, mbind, Tx_bind. intros ->. destruct (nodes s !! pNodeID p) as [node|]; [|done].
  destruct (negb (fn_Enabled node) || _); [done|]. by destruct peer as [[]|].
Qed.

(** C7: A node's usage is taken in once and in order.  A batch that is refused changes
    nothing.  One that is acknowledged is either at or below the node's cursor, and then
    nothing changes and the cursor is acknowledged, for the batch at the cursor only when
    its content is the one that was taken; or it is the next in sequence: every meter it
    names reads what it reports, no other meter changes, and the cursor moves to it, so
    that sending it again is acknowledged and changes nothing. *)
Theorem usage_is_taken_once s now peer p b fault s' r : ledger_ok s -> Forall unsigned (Checkpoints b) -> 0 <= Sequence b ->
  Ingest fault now peer p b s = (s', r) ->
  match r with
  | Fail _ => s' = s
  | Ok ack => DurableSequence ack = AccountedSequence ack /\
      (Sequence b <= cursor_at s p /\ s' = s /\ DurableSequence ack = cursor_at s p /\
         (Sequence b = cursor_at s p -> cu_Digest <$> cursors s !! (pNodeID p, pInstallationID p) = Some (usage_digest b)) \/
       Sequence b = cursor_at s p + 1 /\ DurableSequence ack = Sequence b /\ cursor_at s' p = Sequence b /\
       fmeters s' = overlay (meter_row <$> Checkpoints b) (fmeters s) /\ NoDup (checkpoint_key <$> Checkpoints b) /\ ledger_ok s' /\
       forall now', (Ingest None now' peer p b s').1 = s' /\ (Ingest None now' peer p b s').2 = Ok ack)
  end.
Proof.
  intros HL Hu Hs. unfold Ingest. destruct (validBatch b) eqn:Hv; cbn [negb]; [|by intros [= <- <-]].
  destruct (Require p (bNodeId b) (bInstallationId b)) eqn:Hq; cbn [negb]; [|by intros [= <- <-]].
  destruct (batch_encodes b) eqn:He; cbn [negb]; [|by intros [= <- <-]]. unfold Transaction.
  destruct fault as [e|]; [by intros [= <- <-]|]. destruct (ingest now peer p b s) as [[ack s1]|e] eqn:E; [|by intros [= <- <-]].
  intros [= <- <-]. cbn. split; [done|]. pose proof Hv as Hv'. unfold validBatch in Hv'. rewrite !andb_true_iff, negb_true_iff, Z.eqb_neq in Hv'.
  unfold ingest in E. apply guard_ok in E as ([] & Ha & E); [|apply _]. apply guard_ok in E as ([] & Hn & E); [|apply _].
  apply tx_bind_ok in E as (c & s0 & Hc & E). apply node_cursor_ok in Hc as (Hcur & Hsame & Ef & En & Hkeep & Hread). rewrite <-Hcur.
  destruct (Z.leb_spec (Sequence b) (cu_Sequence c)) as [Hle|Hgt].
  - left. apply guard_ok in E as ([] & [Hdig _]%tx_refuse_ok & E); [|apply _]. apply tx_ret_ok in E as [-> ->].
    assert (cursors s !! (pNodeID p, pInstallationID p) = Some c) as Hat.
    { apply Hread. lia. }
    split_and!; [done|by apply Hkeep; eexists|done|]. intros Heq. rewrite Hat. cbn. rewrite (proj2 (Z.eqb_eq _ _) Heq) in Hdig.
    apply negb_false_iff, bool_decide_eq_true in Hdig. by rewrite Hdig.
  - right. apply guard_ok in E as ([] & [Hseq _]%tx_refuse_ok & E); [|apply _]. apply orb_false_iff in Hseq as [_ Hseq%negb_false_iff%Z.eqb_eq].
    apply tx_bind_ok in E as ([] & s2 & Ht & [-> ->]%tx_ret_ok). assert (ledger_ok s0) as HL0 by (by apply (same_ledger_step s s0 Hsame)).
    apply take_batch_step in Ht as (L2 & _ & Em & _ & _ & Ec & _ & Ef2 & En2); [|done..]. destruct Hsame as (_ & _ & _ & Efm). rewrite Efm in Em.
    assert (cursors s2 !! (pNodeID p, pInstallationID p) = Some (mkCursor (Sequence b) (usage_digest b))) as Hcur2 by (rewrite Ec; apply lookup_insert_eq).
    split; [done|]. split; [done|]. split; [unfold cursor_at; by rewrite Hcur2|]. split; [done|].
    split; [by destruct Hv' as [_ [? _]%valid_checkpoints_ok]|]. split; [done|]. intros now'.
    assert (ingest now' peer p b s2 = Ok (Sequence b, s2)) as ->; [|done]. unfold ingest.
    apply tx_bind_ok. exists tt, s2. split; [eapply lockAuthority_frame; [|exact Ha]; congruence|].
    apply tx_bind_ok. exists tt, s2. split; [eapply lockAuthenticatedNode_frame; [|exact Hn]; congruence|].
    apply tx_bind_ok. exists (mkCursor (Sequence b) (usage_digest b)), s2. split; [unfold node_cursor, get, mbind, Tx_bind; by rewrite Hcur2|].
    cbn [cu_Sequence cu_Digest]. rewrite (proj2 (Z.leb_le _ _)) by lia. rewrite Z.eqb_refl, bool_decide_eq_true_2 by done. done.
Qed.

(** ** Reservations *)

(** The request as it is digested: its budgets in order. *)
Definition canonical (r : ReserveRequest) : ReserveRequest := with_budgets r (merge_sort String.le (rq_BudgetIDs r)).
Definition well_formed (r : ReserveRequest) : Prop := invalid_reserve r = false /\ distinct_ids None (rq_BudgetIDs (canonical r)) = true.

Lemma reserve_answers now r s g s' : reserve now r "" s = Ok (g, s') ->
  well_formed r /\ operations s' !! rq_OperationID r = Some (mkOperation (reserve_digest (canonical r)) (GrantResult g)).
Proof.
  unfold reserve. intros H. apply guard_ok in H as ([] & [Hv _]%tx_refuse_ok & H); [|apply _]. cbv zeta in H. fold (canonical r) in H.
  apply guard_ok in H as ([] & [Hd%negb_false_iff _]%tx_refuse_ok & H); [|apply _]. split; [done|]. unfold reserve_tx in H. cbv zeta in H.
  apply guard_ok in H as ([] & _ & H); [|apply _]. apply tx_bind_ok in H as (op & s1 & Hc & H). destruct op as [op|].
  - apply claim_ok in Hc as [Ho ->]. unfold replayed_grant in H. apply guard_ok in H as ([] & [Hg%negb_false_iff%bool_decide_eq_true _]%tx_refuse_ok & H); [|apply _].
    cbn [rq_OperationID canonical with_budgets] in Ho. destruct op as [d res]; cbn in *. destruct res; try (by apply tx_fail_ok in H).
    apply tx_ret_ok in H as [-> ->]. by rewrite Ho, Hg.
  - apply claim_ok in Hc as [_ ->]. apply reserve_claimed_writes in H as (g0 & isNew & _ & _ & _ & _ & ->); [|by apply sorted_ids_nodup].
    cbn. by rewrite lookup_insert_eq.
Qed.

(** Under a recovery hold nothing else is looked at; without one, the answer recorded under
    the operation's id is the answer. *)
Lemma reserve_replays now r s op : well_formed r -> operations s !! rq_OperationID r = Some op ->
  Reserve None now r s = (s, if RecoveryRequired (fence s) then Fail ErrRecovery
                             else if bool_decide (op_Digest op = reserve_digest (canonical r))
                             then match op_Result op with GrantResult g => Ok g | _ => Fail ErrJSON end else Fail ErrConflict).
Proof.
  intros [Hv Hd] Ho. unfold Reserve, Transaction, reserve, reserve_tx, lockAuthority, claim, replayed_grant, get, refuse, mbind, Tx_bind.
  rewrite Hv. cbv beta iota zeta. fold (canonical r). rewrite Hd. cbn [negb]. destruct (RecoveryRequired (fence s)); [done|].
  change (rq_OperationID (canonical r)) with (rq_OperationID r).
  rewrite Ho. unfold mret, Tx_ret. cbv beta iota. case_bool_decide; cbn [negb]; [by destruct (op_Result op)|done].
Qed.

(** A malformed request is refused before anything is read. *)
Lemma malformed_is_refused now r s : ~ well_formed r -> exists e, Reserve None now r s = (s, Fail e).
Proof.
  intros Hn. unfold Reserve, Transaction. destruct (reserve now r "" s) as [[g s']|e] eqn:E; [|by exists e].
  by apply reserve_answers in E as [Hwf _].
Qed.

(** C8: A reservation is answered once. After it was granted, however long after and whatever
    the ledger did since, every request under its operation id leaves the ledger as it is:
    the same request gets the same grant again, another well-formed request is refused as a
    conflict and a malformed one as malformed; while a recovery hold is up both well-formed
    ones are refused with [ErrRecovery] instead. (Two requests are the same when their
    digests are.) *)
Theorem reservations_are_answered_once now r s s' g s'' :
  ledger_ok s -> Reserve None now r s = (s', Ok g) -> rtc fleet_step s' s'' ->
  (forall now', Reserve None now' r s'' = (s'', if RecoveryRequired (fence s'') then Fail ErrRecovery else Ok g)) /\
  (forall now' r', rq_OperationID r' = rq_OperationID r ->
     (well_formed r' ->
        Reserve None now' r' s'' =
        (s'', if RecoveryRequired (fence s'') then Fail ErrRecovery
              else if bool_decide (reserve_digest (canonical r') = reserve_digest (canonical r)) then Ok g else Fail ErrConflict)) /\
     (~ well_formed r' -> exists e, Reserve None now' r' s'' = (s'', Fail e))).
Proof.
  intros HL Hr Hrun. unfold Reserve, Transaction in Hr. destruct (reserve now r "" s) as [[g' s1]|] eqn:E; [|done]. injection Hr as <- <-.
  pose proof (reserve_step _ _ _ _ _ _ E) as [HL1 _]. destruct (run_ledger _ _ (HL1 HL) Hrun) as (_ & _ & Hk).
  apply reserve_answers in E as [Hwf Ho]. apply Hk in Ho. split.
  - intros now'. rewrite (reserve_replays now' r s'' _ Hwf Ho). cbn. by rewrite bool_decide_eq_true_2.
  - intros now' r' Hid. split; [|apply malformed_is_refused]. intros Hwf'. rewrite <-Hid in Ho.
    rewrite (reserve_replays now' r' s'' _ Hwf' Ho). cbn. by rewrite (bool_decide_ext _ (reserve_digest (canonical r') = reserve_digest (canonical r))).
Qed.
End Runs.

(** ** A fleet with one node *)
Module SampleFleet.
#[export] Instance wire : Wire := {|
  checkpoint_Size := fun _ => 200; batch_Size := fun b => 80 + 203 * Z.of_nat (length (Checkpoints b));
  batch_encodes := fun _ => true; SizeTag := fun _ => 1; SizeVarint := fun _ => 2 |}.
#[export] Instance ledger_digests : LedgerDigests := {|
  reserve_digest := fun r => if rq_Bytes r =? 1000 then "thousand"%string else rq_GrantID r;
  credit_digest := cq_PlacementID; usage_digest := bNodeId; ledger_operation := fun s => ("b" ++ String.substring 1 35 s)%string |}.
#[export] Instance rate_digests : RateDigests := {| share_digest := rr_GrantID |}.
#[export] Instance lifecycle_digests : LifecycleDigests := {| lifecycle_digest := fun _ => "lifecycle"%string |}.

Definition node_id : string := "55555555-5555-4555-8555-555555555555".
Definition installation_id : string := "66666666-6666-4666-8666-666666666666".
Definition budget_id : string := "77777777-7777-4777-8777-777777777777".
Definition operation_id : string := "88888888-8888-4888-8888-888888888888".

(** A node that registered its journals; nothing in the ledger. *)
Definition enrolled : Fleet :=
  mkFleet (mkFence false "") {[node_id := mkNode installation_id true 0 0 0 0 0]}
    {[node_id := mkNodeJournal installation_id (Some Sample.journal_id) false ""]}
    {[(node_id, "wg0"%string) := mkRuntimeJournal "wg0" installation_id "wireguard" Sample.journal_id Sample.term_id 0 "" true 0 0]}
    ∅ ∅ ∅ ∅ ∅ ∅ ∅ ∅ ∅ ∅ ∅ ∅ ∅ ∅ ∅ (mkDelivery ∅ ∅ ∅ ∅).
(** A pool of 5,000 bytes, of which 100 were used before. *)
Definition pooled : Fleet := (Transaction None (create_budget budget_id (mkBudget 5000 false 100 0)) enrolled).1.
Definition request (bytes : Z) : ReserveRequest :=
  mkReserve operation_id Sample.grant_id node_id installation_id "wg0" Sample.client_id Sample.term_id [budget_id] bytes false.
Definition funded : Fleet := (Reserve None 0 (request 1000) pooled).1.
Definition batch : UsageBatch :=
  mkUsageBatch node_id installation_id 1 [mkUsageCheckpoint Sample.client_id Sample.term_id "wg0" Sample.journal_id 300 40 1 Sample.grant_id].
Definition node : Principal := mkPrincipal node_id installation_id.
Definition used : Fleet := (Ingest None 0 (Ok tt) node batch funded).1.
Definition held_fleet : Fleet := (Transaction None HoldForRecovery used).1.

Lemma pooled_reachable : reachable pooled.
Proof.
  eapply rtc_l; [apply (StepPanel empty_fleet enrolled); by split|]. apply rtc_once. by apply (StepParent enrolled None budget_id 5000 100).
Qed.
Lemma used_reachable : reachable used.
Proof.
  eapply rtc_r; [eapply rtc_r; [exact pooled_reachable|exact (StepReserve pooled None 0 (request 1000))]|].
  apply (StepIngest funded None 0 (Ok tt) node batch). by repeat constructor.
Qed.
Lemma used_ledger : grants used !! Sample.grant_id =
    Some (mkFleetGrant Sample.grant_id None node_id installation_id "wg0" Sample.client_id Sample.term_id false 1000 340 1) /\
  budgets used !! budget_id = Some (mkBudget 5000 false 440 660).
Proof. by vm_compute. Qed.
Lemma funded_grant : (Reserve None 0 (request 1000) pooled).2 =
  Ok (mkFleetGrant Sample.grant_id None node_id installation_id "wg0" Sample.client_id Sample.term_id false 1000 0 1).
Proof. vm_compute. reflexivity. Qed.
Lemma used_receipt : (Ingest None 0 (Ok tt) node batch funded).2 = Ok (mkUsageReceipt 1 1).
Proof. vm_compute. reflexivity. Qed.
End SampleFleet.
Import SampleFleet.

Lemma credit_is_conserved_witness :
  660 = held (grants SampleFleet.used) (links SampleFleet.used) SampleFleet.budget_id /\ 440 + 660 <= 5000.
Proof.
  destruct (credit_is_conserved SampleFleet.used SampleFleet.used_reachable) as [Hb _].
  destruct (Hb SampleFleet.budget_id (mkBudget 5000 false 440 660)) as (H1 & _ & H2); [apply SampleFleet.used_ledger|reflexivity|].
  split; [exact H1|exact H2].
Defined.

Lemma budgets_pay_for_their_grants_witness :
  exists bu', budgets SampleFleet.used !! SampleFleet.budget_id = Some bu' /\ bUnlimited bu' = false /\
  UsedBytes bu' - 100 = spent (grants SampleFleet.used) (links SampleFleet.used) SampleFleet.budget_id - 
    spent (grants SampleFleet.pooled) (links SampleFleet.pooled) SampleFleet.budget_id.
Proof.
  apply (budgets_pay_for_their_grants SampleFleet.pooled SampleFleet.used SampleFleet.budget_id (mkBudget 5000 false 100 0)).
  - exact SampleFleet.pooled_reachable.
  - eapply rtc_l; [exact (StepReserve SampleFleet.pooled None 0 (SampleFleet.request 1000))|]. apply rtc_once.
    apply (StepIngest SampleFleet.funded None 0 (Ok tt) SampleFleet.node SampleFleet.batch). by repeat constructor.
  - vm_compute. reflexivity.
Defined.

Lemma usage_is_taken_once_witness : cursor_at SampleFleet.used SampleFleet.node = 1.
Proof.
  assert (ledger_ok SampleFleet.funded) as HL.
  { apply reachable_ledger. eapply rtc_r; [exact SampleFleet.pooled_reachable|exact (StepReserve SampleFleet.pooled None 0 (SampleFleet.request 1000))]. }
  assert (Ingest None 0 (Ok tt) SampleFleet.node SampleFleet.batch SampleFleet.funded = (SampleFleet.used, Ok (mkUsageReceipt 1 1))) as E.
  { rewrite <-SampleFleet.used_receipt. apply surjective_pairing. }
  assert (Forall unsigned (Checkpoints SampleFleet.batch)) as Hu by (by repeat constructor).
  assert (0 <= Sequence SampleFleet.batch) as Hs by (cbn; lia).
  destruct (usage_is_taken_once SampleFleet.funded 0 (Ok tt) SampleFleet.node SampleFleet.batch None SampleFleet.used (Ok (mkUsageReceipt 1 1)) HL Hu Hs E)
    as [_ [(H & _)|(_ & _ & H & _)]]; [|exact H].
  exfalso. assert (cursor_at SampleFleet.funded SampleFleet.node = 0) as E0 by (vm_compute; reflexivity). rewrite E0 in H. cbn in H. lia.
Defined.

Lemma reservations_are_answered_once_witness :
  Reserve None 7 (SampleFleet.request 1000) SampleFleet.used =
    (SampleFleet.used, Ok (mkFleetGrant Sample.grant_id None SampleFleet.node_id SampleFleet.installation_id "wg0" Sample.client_id Sample.term_id false 1000 0 1)) /\
  Reserve None 7 (SampleFleet.request 2000) SampleFleet.used = (SampleFleet.used, Fail ErrConflict) /\
  Reserve None 7 (SampleFleet.request 1000) SampleFleet.held_fleet = (SampleFleet.held_fleet, Fail ErrRecovery).
Proof.
  pose proof (reservations_are_answered_once 0 (SampleFleet.request 1000) SampleFleet.pooled SampleFleet.funded
    (mkFleetGrant Sample.grant_id None SampleFleet.node_id SampleFleet.installation_id "wg0" Sample.client_id Sample.term_id false 1000 0 1)) as H.
  assert (fleet_step SampleFleet.funded SampleFleet.used) as Hs by (apply (StepIngest SampleFleet.funded None 0 (Ok tt) SampleFleet.node SampleFleet.batch); by repeat constructor).
  assert (forall s'', rtc fleet_step SampleFleet.funded s'' -> _) as H' by
    (intros s'' Hr; refine (H s'' _ _ Hr); [apply reachable_ledger, SampleFleet.pooled_reachable|rewrite <-SampleFleet.funded_grant; apply surjective_pairing]).
  destruct (H' _ (rtc_once _ _ Hs)) as [H1 H2]. destruct (H' SampleFleet.held_fleet) as [H3 _].
  { eapply rtc_l; [exact Hs|]. apply rtc_once, StepHold. }
  split; [exact (H1 7)|]. split; [|exact (H3 7)]. destruct (H2 7 (SampleFleet.request 2000) eq_refl) as [H4 _]. apply H4. split; vm_compute; reflexivity.
Defined.
