(* ===== verification/FleetTerms.v ===== *)
(** * The terms of a client

    The state column of a term is a function of what its client points at: the term it is
    in, and the one that is to follow.  Every transaction keeps it so; a client is in one
    term at a time. *)
From S2P Require Import Prelude Limits Authority Instances Spool Rates Fleet FleetLedger FleetRates FleetLifecycle FleetFacts FleetSpend FleetRuns FleetTheorems.
Open Scope Z_scope.
Open Scope list_scope.

(** What the client points at makes of a term. *)
Definition term_state_at (c : FleetClient) (id : string) : TermState :=
  if bool_decide (PendingTermID c = Some id) then Pending
  else if bool_decide (CurrentTermID c = Some id) then (if bool_decide (PendingTermID c = None) then Active else Draining)
  else Closed.

Definition ok_rates (r : Rates) : Prop := ok_rate (rUpload r) /\ ok_rate (rDownload r).

Definition term_ok (C : gmap string FleetClient) (id : string) (t : FleetTerm) : Prop :=
  ft_ID t = id /\ id <> ""%string /\ ok_rates (ft_Rates t) /\ exists c, C !! ft_ClientID t = Some c /\ ft_State t = term_state_at c id.
Definition client_ok (T : gmap string FleetTerm) (id : string) (c : FleetClient) : Prop :=
  (forall t, CurrentTermID c = Some t -> exists row, T !! t = Some row /\ ft_ClientID row = id) /\
  (forall p, PendingTermID c = Some p -> exists row t, T !! p = Some row /\ ft_ClientID row = id /\
     CurrentTermID c = Some t /\ PredecessorID row = Some t /\ t <> p).
Record life (C : gmap string FleetClient) (T : gmap string FleetTerm) : Prop := {
  life_terms : map_Forall (term_ok C) T;
  life_clients : map_Forall (client_ok T) C }.
Definition life_ok (s : Fleet) : Prop := life (clients s) (terms s).

(** ** Updates *)

(** Only the pointers of a client count. *)
Definition pointers (c : FleetClient) : option string * option string := (CurrentTermID c, PendingTermID c).
Lemma term_state_pointers c c' id : pointers c' = pointers c -> term_state_at c' id = term_state_at c id.
Proof. unfold pointers, term_state_at. by intros [= -> ->]. Qed.
Lemma life_pointers C C' T : (forall id, pointers <$> C' !! id = pointers <$> C !! id) -> life C T -> life C' T.
Proof.
  intros Hp [L1 L2]. split.
  - intros id t Ht. destruct (L1 id t Ht) as (? & ? & ? & c & Hc & Hs). split_and!; [done..|]. specialize (Hp (ft_ClientID t)). rewrite Hc in Hp.
    destruct (C' !! ft_ClientID t) as [c'|]; [|done]. injection Hp as Hp1 Hp2. exists c'. split; [done|]. rewrite Hs. symmetry. apply term_state_pointers. by unfold pointers; f_equal.
  - intros id c' Hc'. specialize (Hp id). rewrite Hc' in Hp. destruct (C !! id) as [c|] eqn:Hc; [|done]. injection Hp as Hp1 Hp2.
    unfold client_ok. rewrite Hp1, Hp2. by apply L2.
Qed.

(** One client and its own terms change. *)
Lemma life_update C T c cl cl' T' : life C T -> C !! c = Some cl ->
  (forall id row, ft_ClientID row <> c -> T' !! id = Some row <-> T !! id = Some row) ->
  (forall id row, T' !! id = Some row -> ft_ClientID row = c ->
     ft_ID row = id /\ id <> ""%string /\ ok_rates (ft_Rates row) /\ ft_State row = term_state_at cl' id) ->
  client_ok T' c cl' -> life (<[c := cl']> C) T'.
Proof.
  intros [L1 L2] Hc Hother Hown Hcl. split.
  - intros id t Ht. destruct (decide (ft_ClientID t = c)) as [Hid|Hne].
    + destruct (Hown id t Ht Hid) as (? & ? & ? & ?). split_and!; [done..|]. exists cl'. by rewrite Hid, lookup_insert_eq.
    + destruct (L1 id t) as (? & ? & ? & c0 & ? & ?); [by apply Hother|]. split_and!; [done..|]. exists c0. by rewrite lookup_insert_ne by congruence.
  - intros id c0 H0. apply lookup_insert_Some in H0 as [[<- <-]|[Hne H0]]; [done|]. destruct (L2 id c0 H0) as [P1 P2]. split.
    + intros t Ht. destruct (P1 t Ht) as (row & Hr & Hi). exists row. split; [apply Hother; [congruence|done]|done].
    + intros p Hp. destruct (P2 p Hp) as (row & t & Hr & Hi & H1 & H2 & H3). exists row, t. split_and!; [apply Hother; [congruence|done]|done..].
Qed.

(** Decide a state by comparing ids. *)
Ltac at_pointers := unfold term_state_at, with_terms in *; cbn in *; repeat case_bool_decide; congruence.

(** The first term of a client. *)
Lemma life_begin C T c cl t row : life C T -> C !! c = Some cl -> CurrentTermID cl = None -> PendingTermID cl = None ->
  T !! t = None -> t <> ""%string -> ft_ID row = t -> ft_ClientID row = c -> ft_State row = Active -> ok_rates (ft_Rates row) ->
  life (<[c := with_terms cl (Some t) None]> C) (<[t := row]> T).
Proof.
  intros HL Hc Hcur Hpend Hnew Hne Hid Hcl Hst Hr. apply (life_update C T c cl); [done|done|..].
  - intros id x Hx. rewrite lookup_insert_Some. split; [naive_solver|]. intros H. right. split; [intros ->; congruence|done].
  - intros id x Hx Hxc. apply lookup_insert_Some in Hx as [[<- <-]|[Hx Hx']].
    + split_and!; try done. at_pointers.
    + destruct (life_terms _ _ HL id x Hx') as (? & ? & ? & c0 & Hc0 & Hs). split_and!; [done..|]. rewrite Hxc, Hc in Hc0. injection Hc0 as <-.
      at_pointers.
  - split; cbn; [|done]. intros ? [= <-]. exists row. by rewrite lookup_insert_eq.
Qed.

(** Two terms of a client change with it: the one it is in, and the one that follows. *)
Lemma life_both C T c cl cl' t0 r0 n rn : life C T -> C !! c = Some cl -> t0 <> n ->
  (forall id, id <> t0 -> id <> n -> term_state_at cl' id = Closed /\ term_state_at cl id = Closed) ->
  (forall row, T !! t0 = Some row -> ft_ClientID row = c) -> (forall row, T !! n = Some row -> ft_ClientID row = c) ->
  ft_ID r0 = t0 -> ft_ClientID r0 = c -> t0 <> ""%string -> ok_rates (ft_Rates r0) -> ft_State r0 = term_state_at cl' t0 ->
  ft_ID rn = n -> ft_ClientID rn = c -> n <> ""%string -> ok_rates (ft_Rates rn) -> ft_State rn = term_state_at cl' n ->
  client_ok (<[t0 := r0]> (<[n := rn]> T)) c cl' ->
  life (<[c := cl']> C) (<[t0 := r0]> (<[n := rn]> T)).
Proof.
  intros HL Hc Hne Hclosed Ht0 Htn H1 H2 H3 H4 H5 H6 H7 H8 H9 H10 Hcl. apply (life_update C T c cl); [done|done|..|done].
  - intros id x Hx. rewrite !lookup_insert_Some. split; [naive_solver|]. intros H. right. split; [intros ->; naive_solver|].
    right. split; [intros ->; naive_solver|done].
  - intros id x Hx Hxc. apply lookup_insert_Some in Hx as [[<- <-]|[Hx0 Hx]]; [done|]. apply lookup_insert_Some in Hx as [[<- <-]|[Hxn Hx]]; [done|].
    destruct (life_terms _ _ HL id x Hx) as (? & ? & ? & c0 & Hc0 & Hs). split_and!; [done..|]. rewrite Hxc, Hc in Hc0. injection Hc0 as <-.
    rewrite Hs. destruct (Hclosed id) as [-> ->]; [done..|]. done.
Qed.

(** The row of a term a client points at. *)
Lemma current_row C T c cl t : life C T -> C !! c = Some cl -> CurrentTermID cl = Some t ->
  exists row, T !! t = Some row /\ ft_ClientID row = c /\ term_ok C t row.
Proof. intros [L1 L2] Hc Ht. destruct (L2 c cl Hc) as [P _]. destruct (P t Ht) as (row & Hr & Hi). exists row. split_and!; [done..|by apply L1]. Qed.

(** A successor is pending, and the term before it drains. *)
Lemma life_succeed C T c cl t row0 n rn : life C T -> C !! c = Some cl -> CurrentTermID cl = Some t -> PendingTermID cl = None -> T !! t = Some row0 ->
  T !! n = None -> n <> ""%string -> ft_ID rn = n -> ft_ClientID rn = c -> ft_State rn = Pending -> PredecessorID rn = Some t -> ok_rates (ft_Rates rn) ->
  life (<[c := with_terms cl (Some t) (Some n)]> C) (<[n := rn]> (<[t := with_term_state row0 Draining]> T)).
Proof.
  intros HL Hc Hcur Hpend H0 Hnew Hne Hid Hcl Hst Hpred Hr. destruct (current_row C T c cl t HL Hc Hcur) as (row & Hrow & Hi & Hok).
  rewrite H0 in Hrow. injection Hrow as <-. destruct Hok as (? & ? & ? & _). assert (t <> n) as Htn by (intros ->; congruence).
  rewrite insert_insert_ne by done. apply (life_both C T c cl); try done.
  - intros id Hx Hy. split; at_pointers.
  - intros row1 Hr1. congruence.
  - intros row1 Hr1. congruence.
  - at_pointers.
  - at_pointers.
  - split; cbn.
    + intros ? [= <-]. exists (with_term_state row0 Draining). by rewrite lookup_insert_eq.
    + intros ? [= <-]. exists rn, t. rewrite lookup_insert_ne, lookup_insert_eq by done. done.
Qed.

(** The pending term and the one that drains for it. *)
Lemma pending_row C T c cl p : life C T -> C !! c = Some cl -> PendingTermID cl = Some p ->
  exists row t row0, T !! p = Some row /\ ft_ClientID row = c /\ term_ok C p row /\ CurrentTermID cl = Some t /\ PredecessorID row = Some t /\ t <> p /\
    T !! t = Some row0 /\ ft_ClientID row0 = c /\ term_ok C t row0.
Proof.
  intros HL Hc Hp. destruct (life_clients _ _ HL c cl Hc) as [_ P2]. destruct (P2 p Hp) as (row & t & Hr & Hi & Hcur & Hpred & Hne).
  destruct (current_row C T c cl t HL Hc Hcur) as (row0 & ? & ? & ?). exists row, t, row0. split_and!; try done. by apply (life_terms _ _ HL).
Qed.

(** The end of a transition, either way: one of the two is closed and the other active. *)
Lemma life_settle C T c cl t p r0 rp (complete : bool) : life C T -> C !! c = Some cl -> CurrentTermID cl = Some t -> PendingTermID cl = Some p ->
  ft_ID r0 = t -> ft_ClientID r0 = c -> ok_rates (ft_Rates r0) -> ft_State r0 = (if complete then Closed else Active) ->
  ft_ID rp = p -> ft_ClientID rp = c -> ok_rates (ft_Rates rp) -> ft_State rp = (if complete then Active else Closed) ->
  life (<[c := with_terms cl (Some (if complete then p else t)) None]> C) (<[t := r0]> (<[p := rp]> T)).
Proof.
  intros HL Hc Hcur Hpend H1 H2 H3 H4 H5 H6 H7 H8.
  destruct (pending_row C T c cl p HL Hc Hpend) as (row & t' & row0 & Hp & Hpc & (_ & Hpn & _) & Hcur' & _ & Hne & Ht & Htc & (_ & Htn & _)).
  rewrite Hcur in Hcur'. injection Hcur' as <-. apply (life_both C T c cl); try done.
  - intros id Hx Hy. split; destruct complete; at_pointers.
  - intros row1 Hr. congruence.
  - intros row1 Hr. congruence.
  - destruct complete; at_pointers.
  - destruct complete; at_pointers.
  - split; cbn; [|done]. intros ? [= <-]. destruct complete; eexists; rewrite ?lookup_insert_eq, ?lookup_insert_ne, ?lookup_insert_eq by done; done.
Qed.

(** ** Frames *)

Section Frames.
Context {HU : UUIDs} {HW : Wire} {HD : LedgerDigests} {HR : RateDigests} {HC : LifecycleDigests}.

(** A transaction that writes no client and no term. *)
Definition life_view (s : Fleet) := (clients s, terms s).
Notation SameLife := (Keeps (same life_view)).

#[global] Instance create_rate_budget_life id row : SameLife (create_rate_budget id row).
Proof. apply (keeps_get _). intros s a s'. case_match; [by intros [_ ->]%tx_ret_ok|by intros ->%tx_write_ok]. Qed.
#[global] Instance set_rate_budget_life id c t r d : SameLife (set_rate_budget id c t r d).
Proof.
  unfold set_rate_budget. do 3 (apply (keeps_bind _); [apply _|intros ?]). apply (keeps_get _). intros s b s' H.
  do 4 (apply guard_ok in H as (? & _ & H); [|apply _]). by apply tx_write_ok in H as ->.
Qed.
#[global] Instance SetRateBudget_tx_life id c t r d : SameLife (SetRateBudget_tx id c t r d).
Proof. unfold SetRateBudget_tx. apply _. Qed.
#[global] Instance activateRatePool_life c t : SameLife (activateRatePool c t).
Proof. unfold activateRatePool. apply _. Qed.
#[global] Instance create_budget_life id b : SameLife (create_budget id b).
Proof. apply (keeps_get _). intros s a s' H. apply guard_ok in H as ([] & _ & H); [|apply _]. by apply tx_write_ok in H as ->. Qed.

(** ** Reading rows *)

Lemma lockClient_ok id s c s' : lockClient id s = Ok (c, s') -> clients s !! id = Some c /\ fc_PanelClientID c <> None /\ s' = s.
Proof.
  unfold lockClient. intros H. apply guard_ok in H as (s0 & [-> _]%tx_get_ok & H); [|apply _]. apply guard_ok in H as (c0 & [Hc _]%tx_found_ok & H); [|apply _].
  apply guard_ok in H as ([] & [Hp%bool_decide_eq_false _]%tx_refuse_ok & H); [|apply _]. by apply tx_ret_ok in H as [-> ->].
Qed.
Lemma first_term_ok id c s t s' : first_term id c s = Ok (t, s') -> terms s !! id = Some t /\ ft_ClientID t = c /\ s' = s.
Proof.
  unfold first_term. intros H. apply guard_ok in H as (s0 & [-> _]%tx_get_ok & H); [|apply _]. apply tx_found_ok in H as [H ->].
  destruct (terms s !! id) as [t0|]; [|done]. case_bool_decide; [|done]. by injection H as <-.
Qed.
Lemma create_term_ok t s a s' : create_term t s = Ok (a, s') ->
  terms s !! ft_ID t = None /\ terms s' = <[ft_ID t := t]> (terms s) /\ clients s' = clients s.
Proof.
  unfold create_term. intros H. apply guard_ok in H as (s0 & [-> _]%tx_get_ok & H); [|apply _].
  apply guard_ok in H as ([] & [[Hn _]%orb_false_iff _]%tx_refuse_ok & H); [|apply _]. apply bool_decide_eq_false, eq_None_not_Some in Hn.
  apply tx_bind_ok in H as ([] & s1 & ->%tx_write_ok & H). apply guard_ok in H as (s0 & [-> _]%tx_get_ok & H); [|apply _].
  apply guard_ok in H as ([] & _ & H); [|apply _]. by apply tx_write_ok in H as ->.
Qed.
Lemma startTerm_ok t now t' : startTerm t now = Ok t' ->
  ft_ID t' = ft_ID t /\ ft_ClientID t' = ft_ClientID t /\ ft_State t' = ft_State t /\ ft_Rates t' = ft_Rates t /\ ft_BudgetID t' = ft_BudgetID t.
Proof. unfold startTerm. do 2 (case_match; [done|]). by intros [= <-]. Qed.
Lemma rates_ok r : is_ok (Rates_validate r) = true -> rates_typed r -> ok_rates r.
Proof.
  unfold Rates_validate, validate. cbn. intros H [? ?]. destruct (validate_rate (rUpload r)) as [[]|] eqn:E1; [|done]. cbn in H.
  destruct (validate_rate (rDownload r)) as [[]|] eqn:E2; [|done]. done.
Qed.

Lemma spec_rates_ok kind spec : validTermSpec kind spec = true -> rates_typed (tsRates spec) -> ok_rates (tsRates spec).
Proof.
  unfold validTermSpec. case_match; [done|]. case_match eqn:E; [done|]. intros _. rewrite !orb_false_iff, !negb_false_iff in E. apply rates_ok. tauto.
Qed.

(** ** Every transaction keeps the lives of clients *)

(** The writes a transition ends with. *)
Lemma begin_writes {A} client id budget b term (k : Tx A) s a s' :
  (_ ← create_budget budget b; _ ← create_term term; _ ← save_client id client; k) s = Ok (a, s') -> Keeps (same life_view) k ->
  terms s !! ft_ID term = None /\ terms s' = <[ft_ID term := term]> (terms s) /\ clients s' = <[id := client]> (clients s).
Proof.
  intros H Hk. apply tx_bind_ok in H as ([] & s1 & [= Ec Et]%create_budget_life & H). apply tx_bind_ok in H as ([] & s2 & (Hn & Et2 & Ec2)%create_term_ok & H).
  apply tx_bind_ok in H as ([] & s3 & ->%tx_write_ok & H). apply Hk in H as [= Ec3 Et3]. cbn in *. rewrite <-Et, <-Ec, <-Ec2, <-Et2. done.
Qed.

(** What a transition starts from, and what it writes. *)
Record begins (s s' : Fleet) (c : string) (cl : FleetClient) (term : FleetTerm) : Prop := {
  bg_client : clients s !! c = Some cl /\ PendingTermID cl = None;
  bg_new : terms s !! ft_ID term = None;
  bg_writes : CurrentTermID cl = None /\ ft_State term = Active /\
      clients s' = <[c := with_terms cl (Some (ft_ID term)) None]> (clients s) /\ terms s' = <[ft_ID term := term]> (terms s) \/
    exists t prev, CurrentTermID cl = Some t /\ terms s !! t = Some prev /\ ft_State term = Pending /\ PredecessorID term = Some t /\
      clients s' = <[c := with_terms cl (Some t) (Some (ft_ID term))]> (clients s) /\
      terms s' = <[ft_ID term := term]> (<[t := with_term_state prev Draining]> (terms s)) }.

Lemma transition_writes now fresh r s a s' : life_ok s -> transition now fresh r s = Ok (a, s') ->
  exists cl term, begins s s' (tq_ClientID r) cl term /\ ft_ID term = fresh /\ ft_ClientID term = tq_ClientID r /\ ft_Rates term = tsRates (tq_Spec r).
Proof.
  intros HL H. unfold transition in H. apply tx_bind_ok in H as (cl & s0 & (Hcl & _ & ->)%lockClient_ok & H).
  apply guard_ok in H as ([] & _ & H); [|apply _]. apply guard_ok in H as ([] & [Hp%bool_decide_eq_false%eq_None_not_Some _]%tx_refuse_ok & H); [|apply _]. cbv zeta in H.
  apply guard_ok in H as ([] & _ & H); [|apply _]. apply guard_ok in H as (s0 & [-> _]%tx_get_ok & H); [|apply _].
  apply guard_ok in H as ([] & _ & H); [|apply _]. apply tx_bind_ok in H as (term & s1 & Hterm & H). exists cl.
  destruct (bool_decide (tq_Kind r = Activation)) eqn:Hk.
  - apply guard_ok in Hterm as ([] & [He%negb_false_iff%bool_decide_eq_true _]%tx_refuse_ok & Hterm); [|apply _].
    apply tx_lift_ok in Hterm as [(E1 & E2 & E3 & E4 & _)%startTerm_ok ->]. cbn in E1, E2, E3, E4.
    apply begin_writes in H as (Hn & Ht & Hc); [|apply _]. exists term. rewrite Hp in Hc. split; [split; [done|done|]|done]. left. split_and!; [|done..].
    destruct (CurrentTermID cl) as [t|] eqn:Hcur; [|done]. destruct (current_row _ _ _ _ _ HL Hcl Hcur) as (row & _ & _ & _ & Hne & _). done.
  - apply guard_ok in Hterm as ([] & [He%bool_decide_eq_false _]%tx_refuse_ok & Hterm); [|apply _].
    destruct (CurrentTermID cl) as [t|] eqn:Hcur; [|done]. cbn in He, Hterm. unfold succeed_term in Hterm.
    apply tx_bind_ok in Hterm as (prev & s2 & (Hprev & Hpc & ->)%first_term_ok & Hterm). apply guard_ok in Hterm as ([] & _ & Hterm); [|apply _].
    apply tx_bind_ok in Hterm as ([] & s2 & ->%tx_write_ok & [Et ->]%tx_ret_ok).
    destruct (current_row _ _ _ _ _ HL Hcl Hcur) as (row & Hrow & _ & Hid & _). rewrite Hprev in Hrow. injection Hrow as <-.
    apply begin_writes in H as (Hn & Ht & Hc); [|apply _]. cbn in Hn, Ht, Hc. rewrite Hid in *. apply lookup_insert_None in Hn as [Hn _].
    exists term. split; [split; [done|done|]|by rewrite Et]. right. exists t, prev. split_and!; try done; rewrite Et; cbn; [done|congruence].
Qed.

Lemma transition_life now fresh r s a s' : fresh <> ""%string -> ok_rates (tsRates (tq_Spec r)) -> life_ok s -> transition now fresh r s = Ok (a, s') -> life_ok s'.
Proof.
  intros Hfresh Hrates HL (cl & term & [[Hcl Hp] Hn Hw] & Eid & Ec & Er)%transition_writes; [|done]. unfold life_ok. rewrite <-Er in Hrates. rewrite <-Eid in Hfresh.
  destruct Hw as [(Hcur & Hst & -> & ->)|(t & prev & Hcur & Hprev & Hst & Hpred & -> & ->)]; [by apply life_begin|by apply life_succeed].
Qed.

(** The client and the two terms a completion or a cancellation starts from. *)
Lemma pending_terms_ok id cl p s tp t0 s' : life_ok s -> clients s !! id = Some cl -> PendingTermID cl = Some p ->
  pending_terms id cl p s = Ok ((tp, t0), s') ->
  exists t, CurrentTermID cl = Some t /\ terms s !! p = Some tp /\ terms s !! t = Some t0 /\ ft_ID tp = p /\ ft_ID t0 = t /\ t <> p /\
    ft_ClientID tp = id /\ ft_ClientID t0 = id /\ ok_rates (ft_Rates tp) /\ ok_rates (ft_Rates t0) /\ s' = s.
Proof.
  intros HL Hc Hp H. unfold pending_terms in H. apply tx_bind_ok in H as (x & s0 & (Hx & Hxc & ->)%first_term_ok & H).
  apply tx_bind_ok in H as (y & s0 & (Hy & Hyc & ->)%first_term_ok & H). apply guard_ok in H as ([] & _ & H); [|apply _]. apply tx_ret_ok in H as [[= -> ->] ->].
  destruct (pending_row _ _ _ _ _ HL Hc Hp) as (row & t & row0 & Hr & ? & (? & _ & ? & _) & Ht & _ & Hne & Hr0 & ? & (? & _ & ? & _)).
  rewrite Ht in Hy. cbn in Hy. rewrite Hx in Hr. rewrite Hy in Hr0. injection Hr as <-. injection Hr0 as <-. exists t. by split_and!.
Qed.

(** The writes a transition is settled with. *)
Lemma settle_writes {A} id cl t0 tp (k : Tx A) s a s' :
  (_ ← save_term tp; _ ← save_term t0; _ ← save_client id cl; k) s = Ok (a, s') -> Keeps (same life_view) k ->
  clients s' = <[id := cl]> (clients s) /\ terms s' = <[ft_ID t0 := t0]> (<[ft_ID tp := tp]> (terms s)).
Proof.
  intros H Hk. apply tx_bind_ok in H as ([] & s1 & ->%tx_write_ok & H). apply tx_bind_ok in H as ([] & s2 & ->%tx_write_ok & H).
  apply tx_bind_ok in H as ([] & s3 & ->%tx_write_ok & H). apply Hk in H as [= -> ->]. done.
Qed.

(** What ends a transition: the client goes on in the pending term, or stays in its own. *)
Record settles (s s' : Fleet) (c p : string) (cl : FleetClient) (t : string) (t0 r0 rp : FleetTerm) (done_ : bool) : Prop := {
  st_client : clients s !! c = Some cl /\ CurrentTermID cl = Some t /\ PendingTermID cl = Some p /\ terms s !! t = Some t0;
  st_clients : clients s' = <[c := with_terms cl (Some (if done_ then p else t)) None]> (clients s);
  st_terms : terms s' = <[t := r0]> (<[p := rp]> (terms s));
  st_old : ft_ID r0 = t /\ ft_ClientID r0 = c /\ ok_rates (ft_Rates r0) /\ ft_State r0 = (if done_ then Closed else Active);
  st_pending : ft_ID rp = p /\ ft_ClientID rp = c /\ ok_rates (ft_Rates rp) /\ ft_State rp = (if done_ then Active else Closed) }.

Lemma settles_life s s' c p cl t t0 r0 rp b : life_ok s -> settles s s' c p cl t t0 r0 rp b -> life_ok s'.
Proof.
  intros HL [(? & ? & ? & _) Ec Et (? & ? & ? & ?) (? & ? & ? & ?)]. unfold life_ok. rewrite Ec, Et. by apply (life_settle _ _ _ _ t p _ _ b).
Qed.

Lemma complete_writes now r s a s' : life_ok s -> complete now r s = Ok (a, s') ->
  exists cl t t0 r0 rp, settles s s' (ct_ClientID r) (ct_PendingTermID r) cl t t0 r0 rp true /\ ft_ID t0 = t /\ ft_ClientID t0 = ct_ClientID r /\
    requireStoppedGrants t0 s = Ok (tt, s).
Proof.
  intros HL H. unfold complete in H. apply tx_bind_ok in H as (cl & s0 & (Hcl & _ & ->)%lockClient_ok & H).
  apply guard_ok in H as ([] & [Hg _]%tx_refuse_ok & H); [|apply _]. rewrite !orb_false_iff, !negb_false_iff in Hg. destruct Hg as [[_ Hp%bool_decide_eq_true] _].
  apply tx_bind_ok in H as ([tp t0] & s0 & Hpt & H). apply (pending_terms_ok _ _ _ _ _ _ _ HL Hcl Hp) in Hpt as (t & Ht & _ & Ht0 & I1 & I2 & Hne & C1 & C2 & R1 & R2 & ->).
  apply guard_ok in H as ([] & _ & H); [|apply _]. apply guard_ok in H as (s0 & [-> _]%tx_get_ok & H); [|apply _].
  apply guard_ok in H as (rb & _ & H); [|apply _]. apply guard_ok in H as ([] & _ & H); [|apply _]. apply guard_ok in H as ([] & Hstop & H); [|apply _].
  apply guard_ok in H as (st & [(E1 & E2 & E3 & E4 & _)%startTerm_ok _]%tx_lift_ok & H); [|apply _]. cbv zeta in H.
  apply settle_writes in H as [Hc' Ht']; [|apply _]. cbn [with_credential_generation with_term_state ft_ID] in Hc', Ht'. rewrite E1, I1 in Hc'. rewrite E1, I1, I2 in Ht'.
  exists cl, t, t0. eexists _, _. split; [|done]. split; [done|exact Hc'|exact Ht'|done|]. cbn. split_and!; congruence.
Qed.

Lemma cancel_writes r s a s' : life_ok s -> cancel r s = Ok (a, s') ->
  exists cl t t0 r0 rp, settles s s' (cn_ClientID r) (cn_PendingTermID r) cl t t0 r0 rp false.
Proof.
  intros HL H. unfold cancel in H. apply tx_bind_ok in H as (cl & s0 & (Hcl & _ & ->)%lockClient_ok & H).
  apply guard_ok in H as ([] & [Hg _]%tx_refuse_ok & H); [|apply _]. rewrite !orb_false_iff, !negb_false_iff in Hg. destruct Hg as [[_ Hp%bool_decide_eq_true] _].
  apply tx_bind_ok in H as ([tp t0] & s0 & Hpt & H). apply (pending_terms_ok _ _ _ _ _ _ _ HL Hcl Hp) in Hpt as (t & Ht & _ & Ht0 & I1 & I2 & Hne & C1 & C2 & R1 & R2 & ->).
  cbv zeta in H. apply settle_writes in H as [Hc' Ht']; [|apply _]. cbn [with_term_state ft_ID] in Hc', Ht'. rewrite I1, I2 in Ht'. rewrite Ht in Hc'.
  exists cl, t, t0. eexists _, _. split; [done|exact Hc'|exact Ht'|done|done].
Qed.

Lemma bind_client_ok panel fresh id d s a s' : bind_client panel fresh id d s = Ok (a, s') ->
  s' = s \/ exists cl, clients s !! fresh = None /\ CurrentTermID cl = None /\ PendingTermID cl = None /\ s' = set_clients (<[fresh := cl]> (clients s)) s.
Proof.
  intros H. unfold bind_client in H. do 2 (apply guard_ok in H as ([] & _ & H); [|apply _]). apply guard_ok in H as (s0 & [-> _]%tx_get_ok & H); [|apply _].
  destruct (filter _ _) as [|[x c] l]; [right|left; by apply read_only in H].
  apply guard_ok in H as ([] & [Hn%bool_decide_eq_false%eq_None_not_Some _]%tx_refuse_ok & H); [|apply _]. cbv zeta in H.
  apply tx_bind_ok in H as ([] & s1 & ->%tx_write_ok & [_ ->]%tx_ret_ok). eexists. split; [done|]. split; [|split; [|reflexivity]]; done.
Qed.
Lemma bind_client_life panel fresh id d s a s' : life_ok s -> bind_client panel fresh id d s = Ok (a, s') -> life_ok s'.
Proof.
  intros [L1 L2] [-> |(cl & Hn & Hc & Hp & ->)]%bind_client_ok; [done|]. split; cbn.
  - intros t row Ht. destruct (L1 t row Ht) as (? & ? & ? & c & ? & ?). split_and!; try done. exists c. by rewrite lookup_insert_ne by congruence.
  - apply map_Forall_insert_2; [split; congruence|done].
Qed.

(** ** The ledger's transactions write neither clients nor terms nor rates *)

Definition rate_view (s : Fleet) := (clients s, terms s, rate_budgets s, rate_shares s).
Notation SameRates := (Keeps (same rate_view)).

#[global] Instance claim_rates id d : SameRates (claim id d).
Proof. unfold claim. apply _. Qed.
#[global] Instance record_result_rates id d r : SameRates (record_result id d r).
Proof. unfold record_result. apply _. Qed.
#[global] Instance save_budget_rates id b : SameRates (save_budget id b).
Proof. unfold save_budget. apply _. Qed.
#[global] Instance save_grant_rates g : SameRates (save_grant g).
Proof. unfold save_grant. apply _. Qed.
#[global] Instance reserve_budget_rates r id : SameRates (reserve_budget r id).
Proof. unfold reserve_budget. apply _. Qed.
#[global] Instance create_links_rates g l : SameRates (create_links g l).
Proof. unfold create_links. apply _. Qed.
#[global] Instance reserve_rates now r p : SameRates (reserve now r p).
Proof. unfold reserve, reserve_tx, reserve_claimed. apply _. Qed.
#[global] Instance write_meter_rates u m : SameRates (write_meter u m).
Proof. unfold write_meter. apply _. Qed.
#[global] Instance write_budget_rates bs u id : SameRates (write_budget bs u id).
Proof. unfold write_budget. apply _. Qed.
#[global] Instance write_grant_rates gs u id : SameRates (write_grant gs u id).
Proof. unfold write_grant. apply _. Qed.
#[global] Instance add_usage_rates now d o u id : SameRates (add_usage now d o u id).
Proof. unfold add_usage. apply _. Qed.
#[global] Instance recordTermUsage_rates now d : SameRates (recordTermUsage now d).
Proof. unfold recordTermUsage. apply _. Qed.
#[global] Instance node_cursor_rates p : SameRates (node_cursor p).
Proof. unfold node_cursor. apply _. Qed.
#[global] Instance ingest_rates now peer p b : SameRates (ingest now peer p b).
Proof. unfold ingest, take_batch. apply _. Qed.
#[global] Instance limit_parent_rates r u id : SameRates (limit_parent r u id).
Proof. unfold limit_parent. apply _. Qed.
#[global] Instance credit_tx_rates now fresh r : SameRates (credit_tx now fresh r).
Proof. unfold credit_tx, credit_amount. apply _. Qed.
#[global] Instance recordStoppedGrants_rates n r bundle : SameRates (recordStoppedGrants n r bundle).
Proof. unfold recordStoppedGrants. apply _. Qed.
#[global] Instance HoldForRecovery_rates : SameRates HoldForRecovery.
Proof. unfold HoldForRecovery. apply _. Qed.
#[global] Instance create_budget_rates id b : SameRates (create_budget id b).
Proof. unfold create_budget. apply _. Qed.

#[global] Instance same_rates_life {A} (m : Tx A) : SameRates m -> SameLife m | 50.
Proof. intros Hm s a s' [= ? ? _ _]%Hm. unfold same, life_view. congruence. Qed.

(** Rates have transactions of their own. *)
#[global] Instance replayed_share_ro d op : ReadOnly (replayed_share d op).
Proof. unfold replayed_share. apply bind_ro; [apply _|]. intros []. destruct (op_Result op); apply _. Qed.
#[global] Instance save_share_life r acc o : SameLife (save_share r acc o).
Proof. unfold save_share. apply _. Qed.
#[global] Instance request_share_life now r : SameLife (request_share now r).
Proof. unfold request_share. apply _. Qed.
#[global] Instance confirm_share_life p g r a : SameLife (confirm_share p g r a).
Proof. unfold confirm_share. apply _. Qed.
#[global] Instance write_share_life u r : SameLife (write_share u r).
Proof. unfold write_share. apply _. Qed.
#[global] Instance acknowledgeConfiguration_life p b : SameLife (acknowledgeConfiguration p b).
Proof. unfold acknowledgeConfiguration. apply _. Qed.

(** Credentials move without the pointers. *)
Lemma reconcile_ok c g d s a s' : reconcile_credentials c g d s = Ok (a, s') ->
  s' = s \/ exists cl, clients s !! c = Some cl /\ s' = set_clients (<[c := with_credentials cl d]> (clients s)) s.
Proof.
  intros H. unfold reconcile_credentials in H. apply guard_ok in H as ([] & _ & H); [|apply _].
  apply tx_bind_ok in H as (cl & s0 & (Hcl & _ & ->)%lockClient_ok & H). destruct (_ && _); [left; by apply tx_ret_ok in H as [_ ->]|].
  apply guard_ok in H as ([] & _ & H); [|apply _]. apply tx_bind_ok in H as ([] & s1 & ->%tx_write_ok & [_ ->]%tx_ret_ok). right. by exists cl.
Qed.
Lemma reconcile_life c g d s a s' : life_ok s -> reconcile_credentials c g d s = Ok (a, s') -> life_ok s'.
Proof.
  intros HL [-> |(cl & Hcl & ->)]%reconcile_ok; [done|]. apply (life_pointers (clients s)); [|done].
  intros id. cbn. rewrite lookup_insert. by case_decide; [subst; rewrite Hcl|].
Qed.

(** ** An operation claimed, applied and answered *)
Lemma lifecycleOperation_ok id request body s a s' : lifecycleOperation id request body s = Ok (a, s') ->
  s' = s \/ exists ops s2 ops', body (set_operations ops s) = Ok (a, s2) /\ s' = set_operations ops' s2.
Proof.
  intros H. unfold lifecycleOperation in H. apply guard_ok in H as ([] & _ & H); [|apply _]. cbv zeta in H.
  apply guard_ok in H as ([] & _ & H); [|apply _]. apply tx_bind_ok in H as (op & s1 & Hc%claim_ok & H). destruct op as [op|].
  - destruct Hc as [_ ->]. left. apply guard_ok in H as ([] & _ & H); [|apply _]. destruct (op_Result op); by apply read_only in H.
  - destruct Hc as [_ ->]. right. apply tx_bind_ok in H as (r & s2 & H2 & H). apply tx_bind_ok in H as ([] & s3 & ->%record_result_ok & [-> ->]%tx_ret_ok). eauto.
Qed.
Lemma lifecycleOperation_keeps (P : Fleet -> Prop) id request body : (forall s ops, P s -> P (set_operations ops s)) ->
  (forall s a s', P s -> body s = Ok (a, s') -> P s') -> forall s a s', P s -> lifecycleOperation id request body s = Ok (a, s') -> P s'.
Proof. intros Hops Hb s a s' HP [-> |(ops & s2 & ops' & H & ->)]%lifecycleOperation_ok; eauto. Qed.

Lemma tx_keeps {A} (P : Fleet -> Prop) fault (m : Tx A) s : P s -> (forall a s', m s = Ok (a, s') -> P s') -> P (Transaction fault m s).1.
Proof. intros. by apply Transaction_cases. Qed.

Lemma life_step s s' : life_ok s -> fleet_step s s' -> life_ok s'.
Proof.
  intros HL Hstep. assert (forall s s', same life_view s s' -> life_ok s -> life_ok s') as Hv by (unfold life_ok; intros ? ? [= -> ->]; done).
  assert (forall {A} (m : Tx A) fault, SameLife m -> life_ok (Transaction fault m s).1) as Htx.
  { intros A m fault Hm. apply (Hv s); [|done]. by apply (keeps_Transaction _). }
  assert (forall s ops, life_ok s -> life_ok (set_operations ops s)) as Hops by done.
  inversion Hstep; subst; clear Hstep.
  - apply Htx, _.
  - unfold Ingest. do 3 (case_match; [done|]). specialize (Htx _ (ingest now peer p b) fault _). by destruct (Transaction fault (ingest now peer p b) s).
  - unfold ReserveClientCredit. do 2 (case_match; [done|]). apply Htx, _.
  - unfold Transition. case_match eqn:Ev; [done|]. apply tx_keeps; [done|]. intros a s'. apply lifecycleOperation_keeps; [done| |done].
    intros ? ? ? ?. apply transition_life; [done| |done]. rewrite !orb_false_iff, !negb_false_iff in Ev. destruct Ev as [_ Ev].
    by eapply spec_rates_ok.
  - unfold CompleteTransition. case_match; [done|]. apply tx_keeps; [done|]. intros a s'. apply lifecycleOperation_keeps; [done| |done].
    intros ? ? ? ? (? & ? & ? & ? & ? & ? & _)%complete_writes; [|done]. by eapply settles_life.
  - unfold CancelTransition. case_match; [done|]. apply tx_keeps; [done|]. intros a s'. apply lifecycleOperation_keeps; [done| |done].
    intros ? ? ? ? (? & ? & ? & ? & ? & ?)%cancel_writes; [|done]. by eapply settles_life.
  - unfold BindClient. case_match; [done|]. apply tx_keeps; [done|]. intros a s'. by apply bind_client_life.
  - unfold ReconcileCredentials. case_match; [done|]. apply tx_keeps; [done|]. intros a s'. by apply reconcile_life.
  - apply Htx, _.
  - unfold RequestRateShare. case_match; [done|]. apply Htx, _.
  - unfold ConfirmRateShare. case_match; [done|]. apply Htx, _.
  - apply Htx, _.
  - apply Htx, _.
  - apply Htx, _.
  - apply Htx, _.
  - destruct H as [_ _ _ Ht _ Hc]. unfold life_ok. rewrite Ht. apply (life_pointers (clients s)); [|done]. intros id. specialize (Hc id).
    destruct (clients s' !! id), (clients s !! id); cbn in *; try done. injection Hc as _ _ E1 E2. unfold pointers. congruence.
Qed.

Lemma run_life s s' : life_ok s -> rtc fleet_step s s' -> life_ok s'.
Proof. intros HL Hrun. induction Hrun as [|s s1 s2 Hstep _ IH]; [done|]. apply IH. by eapply life_step. Qed.

Lemma empty_life : life_ok empty_fleet.
Proof. split; cbn; apply map_Forall_empty. Qed.

(** C11: In every reachable state of the control plane the terms are well formed.  A term
    belongs to a client that is there, and its state column says exactly what the client
    points at: pending if it is the term to follow, active or draining if it is the one
    the client is in, by whether another is to follow, and closed otherwise.  The terms a
    client points at are its own, and the pending one names the one it follows. *)
Theorem terms_are_well_formed s : reachable s ->
  (forall id t, terms s !! id = Some t -> ft_ID t = id /\ exists c, clients s !! ft_ClientID t = Some c /\ ft_State t = term_state_at c id) /\
  (forall id c, clients s !! id = Some c ->
    (forall t, CurrentTermID c = Some t -> exists row, terms s !! t = Some row /\ ft_ClientID row = id) /\
    (forall p, PendingTermID c = Some p -> exists row t, terms s !! p = Some row /\ ft_ClientID row = id /\
       CurrentTermID c = Some t /\ PredecessorID row = Some t /\ t <> p)).
Proof.
  intros Hr. destruct (run_life _ _ empty_life Hr) as [L1 L2]. split; [|exact L2]. intros id t Ht. destruct (L1 id t Ht) as (? & _ & _ & ?). done.
Qed.
End Frames.

(** ** A client in its second term *)
Module SampleLife.
Export SampleFleet.
Definition client_id : string := Sample.client_id.
Definition first_id : string := Sample.term_id.
Definition second_id : string := "99999999-9999-4999-8999-999999999999".
Definition digest : string := "0123456789abcdef0123456789abcdef".
Definition pool : Rates := mkRates (mkRate Limited 8000000 65536) (mkRate Limited 8000000 65536).
Definition operation (n : string) : string := ("aaaaaaaa-aaaa-4aaa-8aaa-00000000000" ++ n)%string.

Definition bound : Fleet := (BindClient None true client_id 1 digest enrolled).1.
Definition spec (duration : Z) : TermSpec := mkTermSpec 5000 false 0 0 0 duration 0 pool.
Definition start : TransitionRequest := mkTransition (operation "1") client_id 1 1 "" digest Activation (spec 1000).
Definition started : Fleet := (Transition None 0 first_id start bound).1.
(** The term has run out, and the client is renewed. *)
Definition renew : TransitionRequest := mkTransition (operation "2") client_id 2 1 first_id digest Renewal (spec 1000).
Definition renewing : Fleet := (Transition None (2000 * Millisecond) second_id renew started).1.
Definition completion : CompleteTransitionRequest := mkComplete (operation "3") client_id second_id 3 1 digest.
Definition renewed : Fleet := (CompleteTransition None (3000 * Millisecond) completion renewing).1.

Lemma started_reachable : reachable started.
Proof.
  eapply rtc_l; [apply (StepPanel empty_fleet enrolled); by split|]. eapply rtc_l; [apply (StepBind enrolled None true client_id 1 digest)|].
  - intros i g. cbn. by rewrite lookup_empty.
  - apply rtc_once. by apply (StepTransition bound None 0 first_id start).
Qed.
Lemma renewing_reachable : reachable renewing.
Proof. eapply rtc_r; [exact started_reachable|]. by apply (StepTransition started None (2000 * Millisecond) second_id renew). Qed.
Lemma renewed_reachable : reachable renewed.
Proof. eapply rtc_r; [exact renewing_reachable|]. apply (StepComplete renewing None (3000 * Millisecond) completion). Qed.
End SampleLife.

Lemma terms_are_well_formed_witness :
  (exists c, clients SampleLife.renewing !! SampleLife.client_id = Some c /\ Draining = term_state_at c SampleLife.first_id) /\
  (exists c, clients SampleLife.renewed !! SampleLife.client_id = Some c /\ Closed = term_state_at c SampleLife.first_id).
Proof.
  split.
  - destruct (terms_are_well_formed SampleLife.renewing SampleLife.renewing_reachable) as [H _].
    destruct (terms SampleLife.renewing !! SampleLife.first_id) as [t|] eqn:E; [|exfalso; vm_compute in E; discriminate].
    destruct (H _ _ E) as (_ & c & Hc & Hs). exists c. vm_compute in E. injection E as <-. split; [exact Hc|exact Hs].
  - destruct (terms_are_well_formed SampleLife.renewed SampleLife.renewed_reachable) as [H _].
    destruct (terms SampleLife.renewed !! SampleLife.first_id) as [t|] eqn:E; [|exfalso; vm_compute in E; discriminate].
    destruct (H _ _ E) as (_ & c & Hc & Hs). exists c. vm_compute in E. injection E as <-. split; [exact Hc|exact Hs].
Defined.
