(* ===== verification/FleetPool.v ===== *)
(** * Rates in force: what the shares of a client may use together

    A share's outstanding rates bound what its grant may be using.  They grow only for the
    term the client is in and only as far as the client's pool allows, and are given back
    when the node confirms what was desired. *)
From S2P Require Import Prelude Limits Authority Instances Spool Rates Fleet FleetLedger FleetRates FleetLifecycle FleetFacts FleetSpend FleetRuns FleetTheorems FleetTerms.
Open Scope Z_scope.
Open Scope list_scope.

(** ** Owners of grants *)

Definition named (g : FleetGrant) : string * string * string := (fg_ID g, fg_ClientID g, fg_TermID g).
Definition owners (s : Fleet) : gmap string (string * string * string) := named <$> grants s.
Definition ids_ok (s : Fleet) : Prop := forall id g, grants s !! id = Some g -> fg_ID g = id.
(** No grant is removed or given to another client or term. *)
Definition owned (s s' : Fleet) : Prop := ids_ok s -> ids_ok s' /\ owners s ⊆ owners s'.
#[global] Instance owned_preorder : PreOrder owned.
Proof.
  split; [by intros s|]. intros x y z H1 H2 Hx. destruct (H1 Hx) as [Hy E1]. destruct (H2 Hy) as [Hz E2]. split; [done|]. by etrans.
Qed.
#[global] Instance owned_same {A} (m : Tx A) : Keeps (same grants) m -> Keeps owned m | 50.
Proof. intros Hm s a s' H%Hm Hs. unfold ids_ok, owners, same in *. by rewrite H. Qed.

Lemma owned_insert s s' g : grants s' = <[fg_ID g := g]> (grants s) ->
  (forall g0, grants s !! fg_ID g = Some g0 -> named g0 = named g) -> owned s s'.
Proof.
  intros E Hg Hs. unfold ids_ok, owners. rewrite E. split.
  - intros id x. rewrite lookup_insert_Some. intros [[<- <-]|[_ Hx]]; [done|by apply Hs].
  - apply map_subseteq_spec. intros id x. rewrite !lookup_fmap, !fmap_Some. intros (g0 & Hg0 & ->). destruct (decide (id = fg_ID g)) as [->|Hne].
    + exists g. rewrite lookup_insert_eq. split; [done|]. by apply Hg.
    + exists g0. by rewrite lookup_insert_ne.
Qed.

Section Owners.
Context {HU : UUIDs} {HW : Wire} {HD : LedgerDigests} {HR : RateDigests} {HC : LifecycleDigests}.

(** A grant before the bytes of a request are issued to it: new, or the next revision of the one there. *)
Definition drawn (r : ReserveRequest) (p : string) (old : option FleetGrant) : FleetGrant :=
  match old with
  | None => mkFleetGrant (rq_GrantID r) (if bool_decide (p = ""%string) then None else Some p) (rq_NodeID r) (rq_InstallationID r) (rq_RuntimeID r)
              (rq_ClientID r) (rq_TermID r) (rq_Unlimited r) 0 0 1
  | Some g => mkFleetGrant (fg_ID g) (fg_PlacementID g) (fg_NodeID g) (fg_InstallationID g) (fg_RuntimeID g)
                (fg_ClientID g) (fg_TermID g) (fg_Unlimited g) (IssuedBytes g) (ConsumedBytes g) (fg_Revision g + 1)
  end.

(** A reservation writes one grant, on a node that is not held. *)
Lemma reserve_inserts now r p s g s' : reserve now r p s = Ok (g, s') -> grants s' = grants s \/
  invalid_reserve r = false /\ (exists n, node_journals s !! rq_NodeID r = Some n /\ nj_RecoveryRequired n = false) /\
  (forall h, grants s !! rq_GrantID r = Some h -> fg_NodeID h = rq_NodeID r) /\
  let g := issue (drawn r p (grants s !! rq_GrantID r)) (rq_Bytes r) in grants s' = <[fg_ID g := g]> (grants s).
Proof.
  unfold reserve. intros H. apply guard_ok in H as ([] & [Hv _]%tx_refuse_ok & H); [|apply _].
  apply guard_ok in H as ([] & [Hd _]%tx_refuse_ok & H); [|apply _]. apply negb_false_iff in Hd. unfold reserve_tx in H. cbv zeta in H.
  apply guard_ok in H as ([] & _ & H); [|apply _]. apply tx_bind_ok in H as (op & s1 & Hc & H). destruct op as [op|].
  - apply claim_ok in Hc as [_ ->]. apply read_only in H as ->. by left.
  - apply claim_ok in Hc as [_ ->]. right. split; [done|]. pose proof H as Hj. unfold reserve_claimed in Hj.
    apply guard_ok in Hj as ([] & _ & Hj); [|apply _]. apply guard_ok in Hj as ([] & Hj & _); [|apply _]. unfold RequireRuntimeJournalTx, requireNodeJournalTx in Hj.
    apply guard_ok in Hj as ([] & Hj & _); [|apply _]. apply guard_ok in Hj as (s0 & [-> _]%tx_get_ok & Hj); [|apply _].
    apply guard_ok in Hj as (n & [Hn _]%tx_found_ok & Hj); [|apply _]. apply guard_ok in Hj as ([] & [Hh _]%tx_refuse_ok & _); [|apply _].
    rewrite !orb_false_iff in Hh. split; [exists n; tauto|].
    apply reserve_claimed_writes in H as (g0 & isNew & Hg & -> & _ & _ & ->); [|by apply sorted_ids_nodup]. cbn [grants set_grants set_links set_operations].
    unfold reserve_grant in Hg. apply guard_ok in Hg as (s0 & [-> _]%tx_get_ok & Hg); [|apply _]. cbn in Hg |- *.
    destruct (grants s !! rq_GrantID r) as [h|].
    + apply guard_ok in Hg as ([] & [Hs _]%tx_refuse_ok & Hg); [|apply _]. do 2 (apply guard_ok in Hg as ([] & _ & Hg); [|apply _]).
      apply tx_ret_ok in Hg as [[= -> _] _]. split; [|done]. intros ? [= <-]. rewrite !orb_false_iff, !negb_false_iff, !bool_decide_eq_true in Hs. tauto.
    + by apply tx_ret_ok in Hg as [[= -> _] _].
Qed.

(** A grant but for what was consumed of it. *)
Definition unspent (g : FleetGrant) : FleetGrant :=
  mkFleetGrant (fg_ID g) (fg_PlacementID g) (fg_NodeID g) (fg_InstallationID g) (fg_RuntimeID g) (fg_ClientID g) (fg_TermID g) (fg_Unlimited g)
    (IssuedBytes g) 0 (fg_Revision g).

Lemma take_checkpoint_unspent byGrant meters t c t' : take_checkpoint byGrant meters t c = Ok t' -> unspent <$> t_grants t' = unspent <$> t_grants t.
Proof.
  intros (g & bs & deltas & E)%take_checkpoint_ok. cbv zeta in E. destruct E as (Hg & _ & _ & _ & _ & _ & ->). cbn [t_grants].
  apply map_eq. intros i. rewrite !lookup_fmap, lookup_insert. case_decide; [subst; by rewrite Hg|done].
Qed.
Lemma take_checkpoints_unspent byGrant meters l : forall t t', foldM (take_checkpoint byGrant meters) t l = Ok t' -> unspent <$> t_grants t' = unspent <$> t_grants t.
Proof.
  induction l as [|c l IH]; intros t t' H; cbn [foldM] in H; [by injection H as <-|].
  destruct (take_checkpoint byGrant meters t c) as [t1|] eqn:E; [|done]. rewrite (IH t1 t' H). by eapply take_checkpoint_unspent.
Qed.

Lemma take_batch_unspent now p b s a s' : ids_ok s -> take_batch now p b s = Ok (a, s') -> unspent <$> grants s' = unspent <$> grants s.
Proof.
  intros Hs H. unfold take_batch in H. cbv zeta in H. apply tx_bind_ok in H as ([[gs bs] bids] & s1 & Hlock & H).
  apply lock_batch_ok in Hlock as (-> & -> & _). apply guard_ok in H as (s0 & [-> _]%tx_get_ok & H); [|apply _].
  apply tx_bind_ok in H as (t & s1 & [Hf%take_checkpoints_unspent ->]%tx_lift_ok & H). cbn [t_grants] in Hf.
  apply tx_bind_ok in H as ([] & s1 & ->%write_meters & H). apply tx_bind_ok in H as ([] & s2 & (B & -> & _)%write_budgets & H).
  assert (forall i, unspent <$> t_grants t !! i = unspent <$> (filter (fun row => row.1 ∈ sorted_grants b) (grants s)) !! i) as Hn
    by (intros i; by rewrite <-!lookup_fmap, Hf).
  assert (forall i g, t_grants t !! i = Some g -> exists g0, grants s !! i = Some g0 /\ unspent g = unspent g0) as Hold.
  { intros i g Hg. specialize (Hn i). rewrite Hg in Hn. destruct (filter _ _ !! i) as [g0|] eqn:E; [|done]. apply map_lookup_filter_Some in E as [E _].
    exists g0. split; [done|]. cbn in Hn. congruence. }
  apply tx_bind_ok in H as ([] & s3 & Hw & H). apply write_grants in Hw as (G & -> & HG);
    [|intros i g Hg; destruct (Hold i g Hg) as (g0 & H0 & E); injection E as -> _; by apply Hs].
  apply tx_bind_ok in H as ([] & s4 & (U & D & ->)%recordTermUsage_writes & H). apply tx_write_ok in H as ->. cbn.
  apply map_eq. intros i. rewrite !lookup_fmap, HG. cbn. case_bool_decide as Hi; [|done]. rewrite Hn. apply list_elem_of_filter in Hi as [_ Hi].
  rewrite map_lookup_filter. destruct (grants s !! i); cbn; [|done]. by case_guard.
Qed.
#[global] Instance reserve_owned now r p : Keeps owned (reserve now r p).
Proof.
  intros s g s' H Hs. apply reserve_inserts in H as [E|(_ & _ & _ & E)]; [unfold ids_ok, owners; by rewrite E|]. cbv zeta in E.
  eapply owned_insert; [exact E| |done]. intros h Hh. cbn in Hh. destruct (grants s !! rq_GrantID r) as [g0|] eqn:E0; cbn in Hh; [|congruence].
  rewrite (Hs _ _ E0), E0 in Hh. by injection Hh as <-.
Qed.
#[global] Instance take_batch_owned now p b : Keeps owned (take_batch now p b).
Proof.
  intros s a s' H Hs. apply take_batch_unspent in H; [|done].
  assert (forall id, unspent <$> grants s' !! id = unspent <$> grants s !! id) as E by (intros id; by rewrite <-!lookup_fmap, H).
  split; [|apply map_subseteq_spec]; intros id x Hx; specialize (E id).
  - rewrite Hx in E. destruct (grants s !! id) as [g0|] eqn:E0; [|done]. injection E as -> _. by apply Hs.
  - unfold owners in *. rewrite lookup_fmap in *. destruct (grants s !! id) as [g0|]; [|done]. destruct (grants s' !! id) as [g1|]; [|done].
    unfold unspent, named in *. cbn in *. congruence.
Qed.

Notation SameGrants := (Keeps (same grants)).
#[global] Instance claim_grants id d : SameGrants (claim id d).
Proof. unfold claim. apply _. Qed.
#[global] Instance record_result_grants id d r : SameGrants (record_result id d r).
Proof. unfold record_result. apply _. Qed.
#[global] Instance node_cursor_grants p : SameGrants (node_cursor p).
Proof. unfold node_cursor. apply _. Qed.
#[global] Instance limit_parent_grants r u id : SameGrants (limit_parent r u id).
Proof. unfold limit_parent, save_budget. apply _. Qed.
#[global] Instance credit_amount_grants r p t : SameGrants (credit_amount r p t).
Proof. unfold credit_amount. apply _. Qed.
#[global] Instance ingest_owned now peer p b : Keeps owned (ingest now peer p b).
Proof. unfold ingest. apply _. Qed.
#[global] Instance write_placements_grants f : SameGrants (write (fun s => set_placements (f s) s)).
Proof. apply _. Qed.
#[global] Instance credit_tx_owned now fresh r : Keeps owned (credit_tx now fresh r).
Proof. unfold credit_tx. apply _. Qed.
#[global] Instance recordStoppedGrants_grants n r bundle : SameGrants (recordStoppedGrants n r bundle).
Proof. unfold recordStoppedGrants. apply _. Qed.
#[global] Instance create_budget_grants id b : SameGrants (create_budget id b).
Proof. unfold create_budget. apply _. Qed.
#[global] Instance SetRateBudget_grants id c t r d : SameGrants (SetRateBudget_tx id c t r d).
Proof. unfold SetRateBudget_tx, set_rate_budget, create_rate_budget. apply _. Qed.

(** Transitions write neither grants nor shares. *)
Definition share_view (s : Fleet) := (grants s, rate_shares s).
Notation SameShares := (Keeps (same share_view)).
#[global] Instance SetRateBudget_shares id c t r d : SameShares (SetRateBudget_tx id c t r d).
Proof. unfold SetRateBudget_tx, set_rate_budget, create_rate_budget. apply _. Qed.
#[global] Instance activateRatePool_shares c t : SameShares (activateRatePool c t).
Proof. unfold activateRatePool. apply _. Qed.
#[global] Instance transition_shares now fresh r : SameShares (transition now fresh r).
Proof. unfold transition, succeed_term, save_term, create_budget, create_term, save_client. apply _. Qed.
#[global] Instance complete_shares now r : SameShares (complete now r).
Proof. unfold complete, save_term, save_client. apply _. Qed.
#[global] Instance cancel_shares r : SameShares (cancel r).
Proof. unfold cancel, save_term, save_client. apply _. Qed.
#[global] Instance bind_client_shares p f i d : SameShares (bind_client p f i d).
Proof.
  unfold bind_client. do 2 (apply (keeps_bind _); [apply _|intros ?]). apply (keeps_bind _); [apply _|]. intros s.
  destruct (filter _ _) as [|[x c] l]; apply _.
Qed.
#[global] Instance reconcile_shares c g d : SameShares (reconcile_credentials c g d).
Proof. unfold reconcile_credentials. apply _. Qed.
End Owners.

(** ** Bounds of pools *)

(** Every bound in [s'] is one of [s] or a proper one. *)
Definition offered (s s' : Fleet) : Prop := forall id b, rate_budgets s' !! id = Some b -> ok_rates (rb_Desired b) \/ exists b0, rate_budgets s !! id = Some b0 /\ rb_Desired b = rb_Desired b0.
#[global] Instance offered_preorder : PreOrder offered.
Proof.
  split; [intros s id b H; eauto|]. intros x y z H1 H2 id b Hb. destruct (H2 id b Hb) as [|(b1 & Hb1 & E1)]; [by left|].
  destruct (H1 id b1 Hb1) as [|(b0 & Hb0 & E0)]; [left; congruence|right]. exists b0. split; [done|congruence].
Qed.
#[global] Instance offered_same {A} (m : Tx A) : Keeps (same rate_budgets) m -> Keeps offered m | 50.
Proof. intros Hm s a s' H%Hm id b Hb. rewrite H in Hb. eauto. Qed.

Section Offered.
Context {HU : UUIDs} {HW : Wire} {HD : LedgerDigests} {HR : RateDigests} {HC : LifecycleDigests}.

Lemma SetRateBudget_offered id c t r d : ok_rates d -> Keeps offered (SetRateBudget_tx id c t r d).
Proof.
  intros Hd. unfold SetRateBudget_tx, set_rate_budget, create_rate_budget. do 3 (apply (keeps_bind _); [apply _|intros ?]).
  assert (forall id row, rb_Desired row = d -> forall s, offered s (set_rate_budgets (<[id := row]> (rate_budgets s)) s)) as Hw.
  { intros i row Hrow s i' b. cbn. rewrite lookup_insert_Some. intros [[<- <-]|[_ Hb]]; [left; by rewrite Hrow|eauto]. }
  apply (keeps_bind _); [apply (keeps_get _)|].
  - intros s u s'. case_match; [by intros [_ ->]%tx_ret_ok|intros ->%tx_write_ok]. by apply Hw.
  - intros _. apply (keeps_get _). intros s u s' H. do 4 (apply guard_ok in H as (? & _ & H); [|apply _]). apply tx_write_ok in H as ->. by apply Hw.
Qed.
Lemma activateRatePool_offered c t : ok_rates (ft_Rates t) -> Keeps offered (activateRatePool c t).
Proof.
  intros Ht. unfold activateRatePool. do 2 (apply (keeps_bind _); [apply _|intros ?]). intros s u s' H.
  apply guard_ok in H as (d & [Hd _]%tx_lift_ok & H); [|apply _]. unfold decodeRates in Hd. destruct (Rates_validate _); [|done]. injection Hd as <-.
  by eapply SetRateBudget_offered.
Qed.

Lemma transition_offered now fresh r : ok_rates (tsRates (tq_Spec r)) -> Keeps offered (transition now fresh r).
Proof.
  intros Hr s a s' H. unfold transition in H. do 3 (apply guard_ok in H as (? & _ & H); [|apply _]). cbv zeta in H.
  do 3 (apply guard_ok in H as (? & _ & H); [|apply _]). apply tx_bind_ok in H as (term & s1 & Hterm & H).
  assert (ft_Rates term = tsRates (tq_Spec r) /\ rate_budgets s1 = rate_budgets s) as [Et Es].
  { destruct (bool_decide (tq_Kind r = Activation)).
    - apply guard_ok in Hterm as (? & _ & Hterm); [|apply _]. by apply tx_lift_ok in Hterm as [(_ & _ & _ & -> & _)%startTerm_ok ->].
    - apply guard_ok in Hterm as (? & _ & Hterm); [|apply _]. unfold succeed_term in Hterm. do 2 (apply guard_ok in Hterm as (? & _ & Hterm); [|apply _]).
      by apply tx_bind_ok in Hterm as ([] & s2 & ->%tx_write_ok & [-> ->]%tx_ret_ok). }
  assert (Keeps offered (activateRatePool (tq_ClientID r) term)) as Hk by (apply activateRatePool_offered; by rewrite Et).
  unfold create_budget, create_term, save_client in H. apply (keeps_ok offered) in H; [|apply _]. intros id b Hb.
  destruct (H id b Hb) as [|(b0 & Hb0 & E)]; [by left|right]. exists b0. by rewrite <-Es.
Qed.

Lemma complete_offered now r s a s' : life_ok s -> complete now r s = Ok (a, s') -> offered s s'.
Proof.
  intros HL H. unfold complete in H. apply tx_bind_ok in H as (cl & s0 & (Hcl & _ & ->)%lockClient_ok & H). apply guard_ok in H as (? & _ & H); [|apply _].
  apply guard_ok in H as ([tp t0] & Hpt & H); [|apply _]. unfold pending_terms in Hpt. apply tx_bind_ok in Hpt as (row & s0 & (Hx & _ & ->)%first_term_ok & Hpt).
  do 2 (apply guard_ok in Hpt as (? & _ & Hpt); [|apply _]). apply tx_ret_ok in Hpt as [[= -> _] _].
  do 5 (apply guard_ok in H as (? & _ & H); [|apply _]). apply guard_ok in H as (st & [(_ & _ & _ & E & _)%startTerm_ok _]%tx_lift_ok & H); [|apply _]. cbv zeta in H.
  destruct (life_terms _ _ HL _ _ Hx) as (_ & _ & Hr & _).
  assert (Keeps offered (activateRatePool (ct_ClientID r) (with_credential_generation (with_term_state st Active) (CredentialGeneration cl)))) as Hk
    by (apply activateRatePool_offered; cbn; by rewrite E).
  unfold save_term, save_client in H. by apply (keeps_ok offered) in H; [|apply _].
Qed.
End Offered.

(** ** Shares *)

Definition le_rates (a b : Rates) : Prop := le_rate (rUpload a) (rUpload b) /\ le_rate (rDownload a) (rDownload b).
Lemma le_rates_refl a : ok_rates a -> le_rates a a.
Proof. intros [? ?]. split; by apply le_rate_refl. Qed.
Lemma envelope_rates_ok a b : ok_rates a -> ok_rates b -> ok_rates (envelope_rates a b) /\ le_rates b (envelope_rates a b).
Proof. intros [? ?] [? ?]. split; split; cbn; by (apply envelope_ok || apply envelope_r). Qed.
Lemma ok_NoRates : ok_rates NoRates.
Proof. split; apply ok_NoRate. Qed.
(** Nothing is below nothing. *)
Lemma le_NoRates a : ok_rates a -> le_rates a NoRates -> a = NoRates.
Proof.
  destruct a as [u d]. intros [Hu Hd] [H1 H2]. cbn in *. unfold NoRates in *. cbn in *. ok_cases Hu; ok_cases Hd; rates; try lia; done.
Qed.

(** A share is of a grant that is there; what the grant may be using covers what it was
    asked to use, and is nothing unless its term is the one its client is in. *)
Definition share_ok (s : Fleet) (id : string) (r : FleetRateShare) : Prop :=
  rs_ID r = id /\ ok_rates (rs_Desired r) /\ ok_rates (rs_Outstanding r) /\ le_rates (rs_Desired r) (rs_Outstanding r) /\
  exists i c t, owners s !! id = Some (i, c, t) /\
    forall cl, clients s !! c = Some cl -> rs_Outstanding r <> NoRates -> CurrentTermID cl = Some t.
Record shares_ok (s : Fleet) : Prop := {
  so_shares : map_Forall (share_ok s) (rate_shares s);
  so_bounds : map_Forall (fun _ b => ok_rates (rb_Desired b)) (rate_budgets s) }.

(** Shares that stay as they are, while clients stay in their terms or had nothing in use. *)
Lemma shares_frame s s' : shares_ok s -> rate_shares s' = rate_shares s -> owners s ⊆ owners s' -> offered s s' ->
  (forall id r i c t cl', rate_shares s !! id = Some r -> owners s !! id = Some (i, c, t) -> clients s' !! c = Some cl' -> rs_Outstanding r <> NoRates ->
     CurrentTermID cl' = Some t \/ exists cl, clients s !! c = Some cl /\ CurrentTermID cl' = CurrentTermID cl) ->
  shares_ok s'.
Proof.
  intros [S1 S2] Es Ho Hb Hc. split.
  - rewrite Es. intros id r Hr. destruct (S1 id r Hr) as (? & ? & ? & ? & i & c & t & Hi & Hcl). split_and!; [done..|]. exists i, c, t.
    split; [by eapply lookup_weaken|]. intros cl' Hcl' Hne. destruct (Hc id r i c t cl' Hr Hi Hcl' Hne) as [|(cl & Hcl0 & ->)]; [done|]. by apply Hcl.
  - intros id b H. destruct (Hb id b H) as [|(b0 & Hb0 & ->)]; [done|]. by apply (S2 id).
Qed.

(** A share is given back when the node confirms what was desired. *)
Definition given_back (s s' : Fleet) : Prop := forall id r', rate_shares s' !! id = Some r' ->
  exists r, rate_shares s !! id = Some r /\ rs_ID r' = rs_ID r /\ rs_BudgetID r' = rs_BudgetID r /\ rs_Desired r' = rs_Desired r /\
    (rs_Outstanding r' = rs_Outstanding r \/ rs_Outstanding r' = rs_Desired r).

Lemma given_back_ok s s' : shares_ok s -> given_back s s' -> same grants s s' -> same clients s s' -> same rate_budgets s s' -> shares_ok s'.
Proof.
  intros [S1 S2] Hg Eg Ec Eb. unfold same in *. split; [|by rewrite Eb]. intros id r' Hr'.
  destruct (Hg id r' Hr') as (r & Hr & E1 & _ & E3 & E4). destruct (S1 id r Hr) as (? & ? & Hok & Hle & i & c & t & Hi & Hcl).
  split; [congruence|]. rewrite E3. split; [done|]. split; [destruct E4 as [-> | ->]; done|].
  split; [destruct E4 as [-> | ->]; [done|by apply le_rates_refl]|]. exists i, c, t. unfold owners in *. rewrite Eg. split; [done|].
  intros cl. rewrite Ec. intros Hc Hne. apply (Hcl cl Hc). intros E0. apply Hne. destruct E4 as [-> | ->]; [done|]. apply le_NoRates; [done|]. by rewrite <-E0.
Qed.

Section Shares.
Context {HU : UUIDs} {HW : Wire} {HD : LedgerDigests} {HR : RateDigests} {HC : LifecycleDigests}.

Lemma decodeRates_ok r r' : decodeRates r = Ok r' -> r' = r /\ Rates_validate r = Ok tt.
Proof. unfold decodeRates. destruct (Rates_validate r) as [[]|]; [|done]. by intros [= <-]. Qed.

Lemma confirm_given_back p g rev a s u s' : confirm_share p g rev a s = Ok (u, s') -> given_back s s'.
Proof.
  unfold confirm_share. intros H. do 2 (apply guard_ok in H as (? & _ & H); [|apply _]). apply guard_ok in H as (s0 & [-> _]%tx_get_ok & H); [|apply _].
  apply guard_ok in H as (share & [Hs _]%tx_found_ok & H); [|apply _]. do 2 (apply guard_ok in H as (? & _ & H); [|apply _]).
  apply guard_ok in H as (d & [[-> _]%decodeRates_ok _]%tx_lift_ok & H); [|apply _]. apply guard_ok in H as ([] & [Hr _]%tx_refuse_ok & H); [|apply _].
  apply orb_false_iff in Hr as [_ Hd%negb_false_iff%bool_decide_eq_true]. apply tx_write_ok in H as ->. intros id r'. cbn. rewrite lookup_insert_Some.
  intros [[<- <-]|[_ Hr']]; [exists share|exists r']; cbn; auto 10.
Qed.

Definition confirmed (r : FleetRateShare) : FleetRateShare :=
  mkRateShare (rs_ID r) (rs_BudgetID r) (rs_NodeID r) (rs_InstallationID r) (rs_RuntimeID r) (rs_Revision r) (rs_Revision r) (rs_Desired r) (rs_Desired r).
Lemma acknowledged p claims l : forall acc out, foldM (acknowledge_share p claims) acc l = Ok out ->
  forall r', r' ∈ out -> r' ∈ acc \/ exists r, r ∈ l /\ r' = confirmed r.
Proof.
  induction l as [|r l IH]; intros acc out H r' Hr'; cbn [foldM] in H; [injection H as <-; by left|].
  destruct (acknowledge_share p claims acc r) as [acc1|] eqn:E; [|done]. destruct (IH acc1 out H r' Hr') as [Hin|(r0 & Hr0 & ->)].
  - unfold acknowledge_share in E. destruct (claims !! rs_ID r) as [[g rt]|]; [|done]. case_match; [done|]. case_match; [injection E as <-; by left|].
    destruct (decodeRates (rs_Desired r)) as [d|]; [|done]. cbn in E. case_match; [done|]. injection E as <-.
    apply elem_of_app in Hin as [?| ->%list_elem_of_singleton]; [by left|]. right. exists r. split; [by left|done].
  - right. exists r0. split; [by right|done].
Qed.
Lemma write_shares l : forall s u s', foldTx write_share tt l s = Ok (u, s') ->
  forall id r', rate_shares s' !! id = Some r' -> rate_shares s !! id = Some r' \/ r' ∈ l /\ rs_ID r' = id.
Proof.
  induction l as [|r l IH]; intros s u s' H id r' Hr'; [apply foldTx_nil in H as [_ ->]; by left|].
  apply foldTx_cons in H as ([] & s1 & Hw & H). unfold write_share in Hw. apply guard_ok in Hw as ([] & _ & Hw); [|apply _]. apply tx_write_ok in Hw as ->.
  destruct (IH _ _ _ H id r' Hr') as [Hold|[? ?]]; [|right; split; [by right|done]]. cbn in Hold. apply lookup_insert_Some in Hold as [[<- <-]|[_ ?]]; [|by left].
  right. split; [by left|done].
Qed.

Lemma acknowledge_given_back p bundle s u s' : (forall id r, rate_shares s !! id = Some r -> rs_ID r = id) ->
  acknowledgeConfiguration p bundle s = Ok (u, s') -> given_back s s'.
Proof.
  intros Hid H. assert (given_back s s) as Hrefl by (intros id r Hr; exists r; auto 10).
  unfold acknowledgeConfiguration in H. destruct bundle as [bundle|]; [|by apply tx_ret_ok in H as [_ ->]]. cbv zeta in H.
  apply guard_ok in H as (s0 & [-> _]%tx_get_ok & H); [|apply _]. apply guard_ok in H as (? & _ & H); [|apply _].
  apply guard_ok in H as (out & [Hout _]%tx_lift_ok & H); [|apply _]. apply guard_ok in H as (? & _ & H); [|apply _].
  intros id r' Hr'. destruct (write_shares _ _ _ _ H id r' Hr') as [Hold|[Hin <-]]; [exists r'; auto 10|].
  destruct (acknowledged _ _ _ _ _ Hout r' Hin) as [[]%elem_of_nil|(r & Hr & ->)]. cbn. apply list_elem_of_filter in Hr as [_ Hr].
  apply list_elem_of_fmap in Hr as ([k r0] & -> & Hk%elem_of_map_to_list). cbn. exists r0. rewrite (Hid k r0 Hk). auto 10.
Qed.

(** What the loop over a budget's shares finds. *)
Lemma noted request l : forall acc acc', foldM (note_share request) acc l = Ok acc' ->
  uploads acc' = uploads acc ++ ((fun r => rUpload (rs_Outstanding r)) <$> filter (fun r => rs_ID r <> rr_GrantID request) l) /\
  downloads acc' = downloads acc ++ ((fun r => rDownload (rs_Outstanding r)) <$> filter (fun r => rs_ID r <> rr_GrantID request) l) /\
  ((forall r, r ∈ l -> rs_ID r <> rr_GrantID request) /\ own acc' = own acc /\ previous acc' = previous acc \/
   exists r, r ∈ l /\ rs_ID r = rr_GrantID request /\ own acc' = Some r /\ previous acc' = rs_Outstanding r).
Proof.
  induction l as [|r l IH]; intros acc acc' H; cbn [foldM] in H.
  { injection H as <-. rewrite !app_nil_r. split_and!; [done..|]. left. split; [by intros ? []%elem_of_nil|done]. }
  destruct (note_share request acc r) as [acc1|] eqn:E; [|done]. destruct (IH acc1 acc' H) as (E1 & E2 & E3). clear IH H. unfold note_share in E.
  destruct (decodeRates (rs_Outstanding r)) as [out|] eqn:Ed; [|done]. apply decodeRates_ok in Ed as [-> _]. cbn in E.
  rewrite filter_cons, E1, E2. case_bool_decide as Hid.
  - case_match; [done|]. injection E as <-. cbn in *. rewrite decide_False by (intros Hn; done). split_and!; [done..|].
    right. destruct E3 as [(_ & -> & ->)|(r1 & ? & ? & ? & ?)]; [exists r; split; [by left|done]|exists r1; split; [by right|done]].
  - injection E as <-. cbn in *. rewrite decide_True by done. rewrite !fmap_cons, <-!app_assoc. split_and!; [done..|].
    destruct E3 as [(Hn & -> & ->)|(r1 & ? & ? & ? & ?)]; [left|right; exists r1; split; [by right|done]].
    split; [|done]. intros r1 [-> |Hr1]%elem_of_cons; [done|by apply Hn].
Qed.

Lemma elem_of_shares_of s b r : r ∈ shares_of s b <-> rs_BudgetID r = b /\ exists id, rate_shares s !! id = Some r.
Proof.
  unfold shares_of. rewrite merge_sort_Permutation, list_elem_of_filter, list_elem_of_fmap. split.
  - intros [Hb ([k r0] & -> & Hk%elem_of_map_to_list)]. cbn in *. eauto.
  - intros [Hb [k Hk]]. split; [done|]. exists (k, r). split; [done|]. by apply elem_of_map_to_list.
Qed.

Lemma managed_current c t s term s' : life_ok s -> managedAuthority c t true s = Ok (term, s') -> forall cl, clients s !! c = Some cl -> CurrentTermID cl = Some t.
Proof.
  intros HL H cl Hcl. unfold managedAuthority in H. apply guard_ok in H as (s0 & [-> _]%tx_get_ok & H); [|apply _]. rewrite Hcl in H.
  apply tx_bind_ok in H as (row & s0 & (Hrow & _ & ->)%first_term_ok & H). apply guard_ok in H as ([] & [Hg _]%tx_refuse_ok & H); [|apply _].
  cbn in Hg. rewrite !orb_false_iff, !negb_false_iff, !bool_decide_eq_true in Hg. destruct Hg as [[_ Hc] _]. destruct (life_terms _ _ HL _ _ Hrow) as (E & _). congruence.
Qed.
Lemma managed_none c t b s s' : managedAuthority c t b s = Ok (None, s') -> clients s !! c = None.
Proof.
  intros H. unfold managedAuthority in H. apply guard_ok in H as (s0 & [-> _]%tx_get_ok & H); [|apply _]. destruct (clients s !! c); [|done].
  do 2 (apply guard_ok in H as (? & _ & H); [|apply _]). by apply tx_ret_ok in H as [? _].
Qed.

(** Rates grow for the term the client is in, and within the budget. *)
Lemma admit_increase_ok now g term budget acc out s u s' : life_ok s -> managedAuthority (fg_ClientID g) (fg_TermID g) false s = Ok (term, s) ->
  admit_increase now g term budget acc out s = Ok (u, s') ->
  out = previous acc \/
  (forall cl, clients s !! fg_ClientID g = Some cl -> CurrentTermID cl = Some (fg_TermID g)) /\
  fitsRates (rUpload (rb_Desired budget)) (uploads acc ++ [rUpload out]) = true /\ fitsRates (rDownload (rb_Desired budget)) (downloads acc ++ [rDownload out]) = true.
Proof.
  intros HL Hterm H. unfold admit_increase in H. cbv zeta in H. destruct (decide (out = previous acc)) as [|Hne]; [by left|right].
  rewrite (bool_decide_eq_false_2 _ Hne) in H. cbn [negb andb] in H. apply guard_ok in H as (? & _ & H); [|apply _].
  apply guard_ok in H as ([] & Hact & H); [|destruct term; apply _].
  apply guard_ok in H as (d & [[-> _]%decodeRates_ok _]%tx_lift_ok & H); [|apply _]. apply tx_refuse_ok in H as [Hf _].
  apply orb_false_iff in Hf as [F1%negb_false_iff F2%negb_false_iff]. split; [|done]. destruct term as [term|].
  - apply guard_ok in Hact as (? & _ & Hact); [|apply _]. apply guard_ok in Hact as (t' & Hm & _); [|apply _]. by eapply managed_current.
  - apply managed_none in Hterm. intros cl. congruence.
Qed.

(** The row a request leaves behind. *)
Record requested (s s' : Fleet) (q : RateRequest) (new : FleetRateShare) : Prop := {
  rq_row : rate_shares s' = <[rr_GrantID q := new]> (rate_shares s);
  rq_id : rs_ID new = rr_GrantID q /\ rs_BudgetID new = rr_BudgetID q /\ rs_Desired new = rr_Desired q;
  rq_rest : clients s' = clients s /\ grants s' = grants s /\ rate_budgets s' = rate_budgets s;
  rq_grows : exists g budget prev, grants s !! rr_GrantID q = Some g /\ rate_budgets s !! rr_BudgetID q = Some budget /\
    rs_Outstanding new = envelope_rates prev (rr_Desired q) /\
    match rate_shares s !! rr_GrantID q with Some r0 => rs_BudgetID r0 = rr_BudgetID q /\ prev = rs_Outstanding r0 | None => prev = NoRates end /\
    (rs_Outstanding new = prev \/
     (forall cl, clients s !! fg_ClientID g = Some cl -> CurrentTermID cl = Some (fg_TermID g)) /\
     let others := filter (fun r => rs_ID r <> rr_GrantID q) (shares_of s (rr_BudgetID q)) in
     fitsRates (rUpload (rb_Desired budget)) (((fun r => rUpload (rs_Outstanding r)) <$> others) ++ [rUpload (rs_Outstanding new)]) = true /\
     fitsRates (rDownload (rb_Desired budget)) (((fun r => rDownload (rs_Outstanding r)) <$> others) ++ [rDownload (rs_Outstanding new)]) = true) }.

Lemma save_share_ok q acc out s a s' : save_share q acc out s = Ok (a, s') ->
  exists new, s' = set_rate_shares (<[rr_GrantID q := new]> (rate_shares s)) s /\
    rs_BudgetID new = rr_BudgetID q /\ rs_Desired new = rr_Desired q /\ rs_Outstanding new = out /\
    rs_ID new = rs_ID (default (default (mkRateShare (rr_GrantID q) "" "" "" "" 0 0 NoRates NoRates) (own acc)) (rate_shares s !! rr_GrantID q)) /\
    forall r0, rate_shares s !! rr_GrantID q = Some r0 -> rs_BudgetID r0 = rr_BudgetID q.
Proof.
  unfold save_share. cbv zeta. intros H. do 2 (apply guard_ok in H as (? & _ & H); [|apply _]). apply guard_ok in H as (s0 & [-> _]%tx_get_ok & H); [|apply _].
  apply guard_ok in H as ([] & [Hb%negb_false_iff%bool_decide_eq_true _]%tx_refuse_ok & H); [|apply _].
  apply tx_bind_ok in H as ([] & s1 & ->%tx_write_ok & [_ ->]%tx_ret_ok). eexists. split; [reflexivity|]. cbn. split_and!; try done.
  - destruct (rate_shares s !! rr_GrantID q); [done|]. by destruct (own acc).
  - intros r0 E. by rewrite E in Hb.
Qed.

Lemma request_share_ok now q s a s' : life_ok s -> (forall id r, rate_shares s !! id = Some r -> rs_ID r = id) -> request_share now q s = Ok (a, s') ->
  s' = s \/ exists new, requested s s' q new.
Proof.
  intros HL Hid H. unfold request_share in H. cbv zeta in H. apply guard_ok in H as ([] & _ & H); [|apply _].
  apply tx_bind_ok in H as (op & s1 & Hc%claim_ok & H). destruct op as [op|].
  { destruct Hc as [_ ->]. left. by apply read_only in H. }
  destruct Hc as [_ ->]. right. set (s1 := set_operations _ s) in *. apply guard_ok in H as ([[g term] budget] & Hscope & H); [|apply _].
  unfold share_scope in Hscope. apply guard_ok in Hscope as (? & _ & Hscope); [|apply _]. apply guard_ok in Hscope as (s0 & [-> _]%tx_get_ok & Hscope); [|apply _].
  apply guard_ok in Hscope as (g' & [Hg _]%tx_found_ok & Hscope); [|apply _]. apply guard_ok in Hscope as (term' & Hterm & Hscope); [|apply _].
  apply guard_ok in Hscope as (budget' & [Hb _]%tx_found_ok & Hscope); [|apply _]. apply guard_ok in Hscope as (? & _ & Hscope); [|apply _].
  apply tx_ret_ok in Hscope as [[= -> -> ->] _]. apply guard_ok in H as (s0 & [-> _]%tx_get_ok & H); [|apply _].
  apply guard_ok in H as (acc & [Hacc _]%tx_lift_ok & H); [|apply _]. apply guard_ok in H as ([] & Hadm & H); [|apply _].
  apply admit_increase_ok in Hadm; [|exact HL|exact Hterm]. apply tx_bind_ok in H as (row & s2 & Hsave & H).
  apply save_share_ok in Hsave as (new & -> & E1 & E2 & E3 & E4 & E5). apply tx_bind_ok in H as ([] & s3 & ->%record_result_ok & [_ ->]%tx_ret_ok).
  change (shares_of s1) with (shares_of s) in Hacc. change (rate_shares s1) with (rate_shares s) in *.
  apply noted in Hacc as (U & D & Hown). cbn in U, D.
  assert (match rate_shares s !! rr_GrantID q with Some r0 => rs_BudgetID r0 = rr_BudgetID q /\ previous acc = rs_Outstanding r0 | None => previous acc = NoRates end /\
          rs_ID new = rr_GrantID q) as [Hprev Hnew].
  { rewrite E4. destruct (rate_shares s !! rr_GrantID q) as [r0|] eqn:E0; cbn [default].
    - split; [|by apply Hid]. split; [by apply E5|]. assert (r0 ∈ shares_of s (rr_BudgetID q)) as Hin by (apply elem_of_shares_of; eauto).
      destruct Hown as [(Hn & _)|(r & Hr & Hrid & _ & ->)]; [exfalso; apply (Hn r0 Hin); by apply Hid|].
      apply elem_of_shares_of in Hr as [_ [k Hk]]. rewrite <-Hrid, (Hid k r Hk) in E0. congruence.
    - destruct Hown as [(_ & -> & ->)|(r & Hr & Hrid & _)]; [done|]. apply elem_of_shares_of in Hr as [_ [k Hk]]. rewrite <-Hrid, (Hid k r Hk) in E0. congruence. }
  exists new. split; [done|done|done|]. exists g', budget', (previous acc). split_and!; [done..|]. rewrite E3.
  destruct Hadm as [->|(Hcl & F1 & F2)]; [by left|right]. split; [exact Hcl|]. cbv zeta. rewrite <-U, <-D. done.
Qed.
End Shares.
