(* ===== verification/FleetForwarding.v ===== *)
(** * What the control plane promises about rates and terms

    A client forwards in one term at a time, and its nodes never use more together than
    its pool allows. *)
From S2P Require Import Prelude Limits Authority Instances Spool Rates Fleet FleetLedger FleetRates FleetLifecycle FleetFacts FleetSpend FleetRuns FleetTheorems FleetTerms FleetPool.
Open Scope Z_scope.
Open Scope list_scope.

Section Forwarding.
Context {HU : UUIDs} {HW : Wire} {HD : LedgerDigests} {HR : RateDigests} {HC : LifecycleDigests}.

(** A loop that only checks, checked everything. *)
Lemma foldM_each {A} (f : A -> result unit) l : foldM (fun _ x => f x) tt l = Ok tt -> forall x, x ∈ l -> f x = Ok tt.
Proof.
  induction l as [|y l IH]; cbn [foldM]; intros H x Hx; [by apply elem_of_nil in Hx|]. destruct (f y) as [[]|] eqn:E; [|done].
  apply elem_of_cons in Hx as [-> |Hx]; [done|by apply IH].
Qed.

(** A term is proved stopped when every one of its grants has nothing in use. *)
Lemma stopped_all t0 s : requireStoppedGrants t0 s = Ok (tt, s) ->
  forall id g, grants s !! id = Some g -> fg_ClientID g = ft_ClientID t0 -> fg_TermID g = ft_ID t0 ->
  exists r, rate_shares s !! fg_ID g = Some r /\ rs_Outstanding r = NoRates.
Proof.
  unfold requireStoppedGrants. intros H id g Hg Hc Ht. apply guard_ok in H as (s0 & [-> _]%tx_get_ok & H); [|apply _]. cbv zeta in H.
  apply guard_ok in H as (? & _ & H); [|apply _]. apply tx_lift_ok in H as [H _].
  assert (fg_ID g ∈ fg_ID <$> filter (fun g => fg_ClientID g = ft_ClientID t0 /\ fg_TermID g = ft_ID t0) (map_to_list (grants s)).*2) as Hin.
  { apply list_elem_of_fmap. exists g. split; [done|]. apply list_elem_of_filter. split; [done|]. apply list_elem_of_fmap. exists (id, g).
    split; [done|by apply elem_of_map_to_list]. }
  apply (foldM_each _ _ H) in Hin. unfold stopped in Hin. destruct (rate_shares s !! fg_ID g) as [r|]; [|done].
  exists r. split; [done|]. destruct (stops s !! fg_ID g); [|done]. case_match; [done|]. destruct (decodeRates (rs_Outstanding r)) as [o|] eqn:Ed; [|done].
  apply decodeRates_ok in Ed as [-> _]. cbn in Hin. by case_bool_decide.
Qed.

(** ** Steps *)

Lemma shares_quiet s s' : ids_ok s -> same rate_view s s' -> owned s s' -> shares_ok s -> shares_ok s'.
Proof.
  intros Hi [= Ec _ Eb Es] Ho HS. destruct (Ho Hi) as [_ Hsub]. apply (shares_frame s); [done|done|done| |].
  - intros id b. rewrite Eb. eauto.
  - intros id r i c t cl' _ _ Hcl' _. right. exists cl'. by rewrite <-Ec.
Qed.

Lemma requested_shares s s' q new : shares_ok s -> requested s s' q new -> ok_rates (rr_Desired q) -> shares_ok s'.
Proof.
  intros [S1 S2] [Er (N1 & N2 & N3) (Ec & Eg & Eb) (g & budget & prev & Hg & _ & Hout & Hprev & Hgrow)] Hd.
  assert (ok_rates prev) as Hok.
  { destruct (rate_shares s !! rr_GrantID q) as [r0|] eqn:E0; [|subst prev; apply ok_NoRates]. destruct Hprev as [_ ->].
    destruct (S1 _ _ E0) as (_ & _ & ? & _). done. }
  destruct (envelope_rates_ok prev (rr_Desired q) Hok Hd) as [He1 He2]. split; [|by rewrite Eb]. rewrite Er.
  intros id r. rewrite lookup_insert_Some. intros [[<- <-]|[_ Hr]].
  - split; [done|]. rewrite N3, Hout. split_and!; [done..|]. exists (fg_ID g), (fg_ClientID g), (fg_TermID g). unfold owners. rewrite Eg, lookup_fmap, Hg.
    split; [done|]. intros cl. rewrite Ec. intros Hcl Hne. destruct Hgrow as [E|[Hact _]]; [|by apply Hact]. rewrite <-Hout, E in Hne.
    destruct (rate_shares s !! rr_GrantID q) as [r0|] eqn:E0; [|done]. destruct Hprev as [_ ->].
    destruct (S1 _ _ E0) as (_ & _ & _ & _ & i & c & t & Ho & Hcur). unfold owners in Ho. rewrite lookup_fmap, Hg in Ho. injection Ho as <- <- <-. by apply Hcur.
  - destruct (S1 id r Hr) as (? & ? & ? & ? & i & c & t & Ho & Hcur). split_and!; [done..|]. exists i, c, t. unfold owners. by rewrite Eg, Ec.
Qed.

Lemma transition_shares_ok now fresh r s a s' : ok_rates (tsRates (tq_Spec r)) -> life_ok s -> shares_ok s -> transition now fresh r s = Ok (a, s') -> shares_ok s'.
Proof.
  intros Hr HL HS H. pose proof (keeps_ok (same share_view) _ _ _ _ _ H) as [= Eg Es]. pose proof (transition_offered now fresh r Hr _ _ _ H) as Hof.
  apply transition_writes in H as (cl & term & [[Hcl Hp] _ Hw] & _); [|done]. apply (shares_frame s); [done|done|by unfold owners; rewrite Eg|done|].
  intros id sh i c t cl' Hsh Ho Hcl' Hne. destruct (decide (c = tq_ClientID r)) as [->|Hdiff].
  - destruct (so_shares _ HS id sh Hsh) as (_ & _ & _ & _ & i' & c' & t' & Ho' & Hcur). rewrite Ho in Ho'. injection Ho' as <- <- <-.
    specialize (Hcur cl Hcl Hne). right. exists cl. split; [done|].
    destruct Hw as [(Hnone & _)|(t1 & prev & Hc1 & _ & _ & _ & Ec & _)]; [congruence|]. rewrite Ec, lookup_insert_eq in Hcl'. injection Hcl' as <-. by rewrite Hc1.
  - right. exists cl'. split; [|done]. destruct Hw as [(_ & _ & Ec & _)|(? & ? & _ & _ & _ & _ & Ec & _)]; by rewrite Ec, lookup_insert_ne in Hcl' by done.
Qed.

Lemma complete_shares_ok now r s a s' : ids_ok s -> life_ok s -> shares_ok s -> complete now r s = Ok (a, s') -> shares_ok s'.
Proof.
  intros Hids HL HS H. pose proof (keeps_ok (same share_view) _ _ _ _ _ H) as [= Eg Es]. pose proof (complete_offered _ _ _ _ _ HL H) as Hof.
  apply complete_writes in H as (cl & t & t0 & r0 & rp & [(Hcl & Hcur & _ & _) Ec _ _ _] & Hid & Hc0 & Hstop); [|done].
  apply (shares_frame s); [done|done|by unfold owners; rewrite Eg|done|]. intros id sh i c t1 cl' Hsh Ho Hcl' Hne. rewrite Ec in Hcl'.
  apply lookup_insert_Some in Hcl' as [[<- <-]|[_ Hcl']]; [exfalso|right; by exists cl'].
  destruct (so_shares _ HS id sh Hsh) as (Hsid & _ & _ & _ & i' & c' & t' & Ho' & Hact). rewrite Ho in Ho'. injection Ho' as <- <- <-.
  unfold owners in Ho. rewrite lookup_fmap in Ho. destruct (grants s !! id) as [g|] eqn:Hg; [|done]. injection Ho as E1 E2 E3.
  specialize (Hact cl Hcl Hne). destruct (stopped_all t0 s Hstop id g Hg) as (sh' & Hsh' & Hz); [congruence..|].
  rewrite (Hids id g Hg), Hsh in Hsh'. injection Hsh' as <-. done.
Qed.

Lemma cancel_shares_ok r s a s' : life_ok s -> shares_ok s -> cancel r s = Ok (a, s') -> shares_ok s'.
Proof.
  intros HL HS H. pose proof (keeps_ok (same share_view) _ _ _ _ _ H) as [= Eg Es].
  assert (offered s s') as Hof by (unfold cancel, save_term, save_client in H; by apply (keeps_ok offered) in H; [|apply _]).
  apply cancel_writes in H as (cl & t & t0 & r0 & rp & [(Hcl & Hcur & _ & _) Ec _ _ _]); [|done].
  apply (shares_frame s); [done|done|by unfold owners; rewrite Eg|done|]. intros id sh i c t1 cl' Hsh Ho Hcl' Hne. rewrite Ec in Hcl'.
  apply lookup_insert_Some in Hcl' as [[<- <-]|[_ Hcl']]; right; [by exists cl|by exists cl'].
Qed.

(** ** What is in use *)

Definition in_use (dir : Rates -> Rate) (s : Fleet) (b : string) : list Rate := (fun r => dir (rs_Outstanding r)) <$> shares_of s b.
(** The shares of a pool fit its bound, in both directions. *)
Definition pool_fits (s : Fleet) (b : string) : Prop := forall rb, rate_budgets s !! b = Some rb ->
  within (in_use rUpload s b) (rUpload (rb_Desired rb)) /\ within (in_use rDownload s b) (rDownload (rb_Desired rb)).

(** No share of the budget is above what it was. *)
Definition lowered (b : string) (s s' : Fleet) : Prop := forall id r', rate_shares s' !! id = Some r' -> rs_BudgetID r' = b ->
  (exists r, rate_shares s !! id = Some r /\ rs_BudgetID r' = rs_BudgetID r /\ le_rates (rs_Outstanding r') (rs_Outstanding r)) \/
  rate_shares s !! id = None /\ rs_Outstanding r' = NoRates.

Definition weigh (w : Rate -> Z) (dir : Rates -> Rate) (b : string) (r : FleetRateShare) : Z :=
  if bool_decide (rs_BudgetID r = b) then w (dir (rs_Outstanding r)) else 0.

Lemma in_use_sum w dir s b : sumZ (w <$> in_use dir s b) = map_sum (weigh w dir b) (rate_shares s).
Proof.
  unfold in_use, shares_of, map_sum. rewrite <-list_fmap_compose.
  rewrite (sumZ_perm _ ((w ∘ (fun r => dir (rs_Outstanding r))) <$> filter (fun r => rs_BudgetID r = b) (map_to_list (rate_shares s)).*2))
    by (apply fmap_Permutation, merge_sort_Permutation).
  generalize (map_to_list (rate_shares s)).*2. intros l. induction l as [|r l IH]; [done|]. rewrite filter_cons, fmap_cons. cbn [sumZ].
  unfold weigh at 1. case_decide as E; [rewrite bool_decide_eq_true_2 by done; cbn; by rewrite IH|by rewrite bool_decide_eq_false_2, IH by done].
Qed.

Lemma elem_weigh_zero w dir s b : (forall r, 0 <= weigh w dir b r \/ ~ exists id, rate_shares s !! id = Some r) ->
  map_sum (weigh w dir b) (rate_shares s) = 0 -> forall id r, rate_shares s !! id = Some r -> weigh w dir b r = 0.
Proof.
  intros Hpos Hsum id r Hr. rewrite (map_sum_delete _ _ id), Hr in Hsum. cbn in Hsum.
  assert (0 <= weigh w dir b r) by (destruct (Hpos r) as [|[]]; [done|eauto]).
  assert (map_sum (fun _ => 0) (∅ : gmap string FleetRateShare) <= map_sum (weigh w dir b) (delete id (rate_shares s))) as Hz; [|unfold map_sum in Hz at 1; rewrite map_to_list_empty in Hz; cbn in Hz; lia].
  apply map_sum_le; [intros k a; by rewrite lookup_empty|]. intros k a Ha. apply lookup_delete_Some in Ha as [_ Ha]. destruct (Hpos a) as [|[]]; [done|eauto].
Qed.

Lemma lowered_within (dir : Rates -> Rate) s s' b bound : (dir = rUpload \/ dir = rDownload) -> shares_ok s -> shares_ok s' -> lowered b s s' ->
  within (in_use dir s b) bound -> within (in_use dir s' b) bound.
Proof.
  intros Hdir [S1 _] [S1' _] Hlow. unfold within, sum_bits, sum_burst, unlimiteds. rewrite !in_use_sum. set (unl := fun r => if Mode r =? Unlimited then 1 else 0).
  assert (forall id r, rate_shares s !! id = Some r -> ok_rate (dir (rs_Outstanding r))) as Hok
    by (intros id r Hr; destruct (S1 id r Hr) as (_ & _ & [? ?] & _); destruct Hdir as [-> | ->]; done).
  assert (forall id r, rate_shares s' !! id = Some r -> ok_rate (dir (rs_Outstanding r))) as Hok'
    by (intros id r Hr; destruct (S1' id r Hr) as (_ & _ & [? ?] & _); destruct Hdir as [-> | ->]; done).
  intros [Hu|(Hn & Hb & Hs)]; [by left|right].
  assert (forall id r, rate_shares s !! id = Some r -> weigh unl dir b r = 0) as Hzero.
  { apply elem_weigh_zero; [|done]. intros r. left. unfold weigh, unl. case_bool_decide; [|done]. by case_match. }
  assert (forall w, (w = BitsPerSecond \/ w = BurstBytes \/ w = unl) ->
    map_sum (weigh w dir b) (rate_shares s') <= map_sum (weigh w dir b) (rate_shares s)) as Hmono.
  { intros w Hw. assert (forall id r, rate_shares s !! id = Some r -> 0 <= weigh w dir b r) as Hpos1.
    { intros id r Hr. unfold weigh. case_bool_decide; [|done]. pose proof (Hok id r Hr) as O. ok_cases O; destruct Hw as [-> |[-> | ->]]; cbn; lia. }
    assert (forall id, 0 <= from_option (weigh w dir b) 0 (rate_shares s !! id)) as Hpos by (intros id; destruct (rate_shares s !! id) eqn:E; cbn; [by eapply Hpos1|done]).
    apply map_sum_le.
    - intros id r' Hr'. pose proof (Hok' id r' Hr') as O'. unfold weigh at 1. case_bool_decide as Hrb; [|by apply Hpos].
      unfold weigh. destruct (Hlow id r' Hr' Hrb) as [(r & Hr & Eb & [L1 L2])|[Hnone Hz]].
      + rewrite Hr. cbn. specialize (Hzero id r Hr). unfold weigh in Hzero. pose proof (Hok id r Hr) as O. rewrite bool_decide_eq_true_2 in * by congruence.
        assert (le_rate (dir (rs_Outstanding r')) (dir (rs_Outstanding r))) as L by (destruct Hdir as [-> | ->]; done).
        revert Hzero O O' L. generalize (dir (rs_Outstanding r)) (dir (rs_Outstanding r')). intros x y Hx O O' L. unfold unl in *.
        ok_cases O; ok_cases O'; destruct Hw as [-> |[-> | ->]]; rates; try lia; done.
      + rewrite Hnone, Hz. cbn. destruct Hdir as [-> | ->], Hw as [-> |[-> | ->]]; done.
    - exact Hpos1. }
  assert (0 <= map_sum (weigh unl dir b) (rate_shares s')).
  { apply map_sum_nonneg. intros r. unfold weigh, unl. case_bool_decide; [|done]. by case_match. }
  pose proof (Hmono unl ltac:(auto)). pose proof (Hmono BitsPerSecond ltac:(auto)). pose proof (Hmono BurstBytes ltac:(auto)). split_and!; lia.
Qed.

Definition share_ids (s : Fleet) : Prop := forall id r, rate_shares s !! id = Some r -> rs_ID r = id.
Lemma shares_ids s : shares_ok s -> share_ids s.
Proof. intros [S1 _] id r Hr. by destruct (S1 id r Hr). Qed.

Lemma shares_nodup s b : share_ids s -> NoDup (shares_of s b).
Proof.
  intros Hid. unfold shares_of. rewrite merge_sort_Permutation. apply NoDup_filter. apply (NoDup_fmap_1 rs_ID).
  assert (rs_ID <$> (map_to_list (rate_shares s)).*2 = (map_to_list (rate_shares s)).*1) as ->; [|apply NoDup_fst_map_to_list].
  rewrite <-list_fmap_compose. apply list_fmap_ext. intros i [k r] Hk. apply list_elem_of_lookup_2, elem_of_map_to_list in Hk. cbn. by apply Hid.
Qed.

(** The shares of a budget after one of them was written. *)
Lemma shares_insert s s' k new b : share_ids s -> rate_shares s' = <[k := new]> (rate_shares s) -> rs_ID new = k -> rs_BudgetID new = b ->
  shares_of s' b ≡ₚ filter (fun r => rs_ID r <> k) (shares_of s b) ++ [new].
Proof.
  intros Hid Er Hk Hb. assert (share_ids s') as Hid'.
  { intros id r. rewrite Er, lookup_insert_Some. intros [[<- <-]|[_ Hr]]; [done|by apply Hid]. }
  apply NoDup_Permutation.
  - by apply shares_nodup.
  - apply NoDup_app. split_and!; [by apply NoDup_filter, shares_nodup| |apply NoDup_singleton].
    intros r [Hne _]%list_elem_of_filter ->%list_elem_of_singleton. done.
  - intros r. rewrite elem_of_shares_of, elem_of_app, list_elem_of_filter, elem_of_shares_of, list_elem_of_singleton, Er. split.
    + intros [Hrb [id Hr]]. apply lookup_insert_Some in Hr as [[<- <-]|[Hne Hr]]; [by right|left]. rewrite (Hid id r Hr). eauto.
    + intros [[Hne [Hrb [id Hr]]]| ->]; (split; [done|]); [|exists k; by rewrite lookup_insert_eq].
      exists id. rewrite lookup_insert_ne; [done|]. intros ->. apply Hne. by apply Hid.
Qed.

(** A request either raises nothing, or leaves a pool that fits. *)
Lemma requested_fits s s' q new : shares_ok s -> shares_ok s' -> requested s s' q new -> forall b, lowered b s s' \/ pool_fits s' b.
Proof.
  intros HS HS' [Er (N1 & N2 & N3) (Ec & Eg & Eb) (g & budget & prev & Hg & Hbud & Hout & Hprev & Hgrow)] b.
  assert (forall id r, rate_shares s !! id = Some r -> exists r0, rate_shares s !! id = Some r0 /\ rs_BudgetID r = rs_BudgetID r0 /\ le_rates (rs_Outstanding r) (rs_Outstanding r0)) as Hsame.
  { intros id r Hr. exists r. split_and!; [done..|]. destruct (so_shares _ HS _ _ Hr) as (_ & _ & ? & _). by apply le_rates_refl. }
  destruct (decide (b = rr_BudgetID q)) as [->|Hb]; [|left; intros id r'; rewrite Er, lookup_insert_Some; intros [[<- <-]|[_ Hr]] Hrb; [congruence|left; by apply Hsame]].
  destruct Hgrow as [E|(_ & F1 & F2)]; [left|right].
  - intros id r'. rewrite Er, lookup_insert_Some. intros [[<- <-]|[_ Hr]] _; [|left; by apply Hsame].
    destruct (rate_shares s !! rr_GrantID q) as [r0|] eqn:E0; [left|right; split; [done|congruence]]. destruct Hprev as [Hb ->]. exists r0.
    split_and!; [done|congruence|]. rewrite E. destruct (so_shares _ HS _ _ E0) as (_ & _ & ? & _). by apply le_rates_refl.
  - intros rb Hrb. rewrite Eb, Hbud in Hrb. injection Hrb as <-. destruct (so_bounds _ HS _ _ Hbud) as [B1 B2].
    pose proof (shares_insert s s' _ new _ (shares_ids s HS) Er N1 N2) as Hperm.
    assert (Forall (fun r => ok_rates (rs_Outstanding r)) (shares_of s' (rr_BudgetID q))) as Hall.
    { apply Forall_forall. intros r [_ [id Hr]]%elem_of_shares_of. by destruct (so_shares _ HS' _ _ Hr) as (_ & _ & ? & _). }
    rewrite Hperm in Hall. unfold in_use.
    split; (eapply within_perm; [symmetry; apply fmap_Permutation, Hperm|]); rewrite fmap_app; apply fits_within; try done;
      rewrite <-(fmap_app _ _ [new]); apply Forall_fmap; (eapply Forall_impl; [exact Hall|]); intros r [? ?]; done.
Qed.

Lemma given_back_lowered s s' b : shares_ok s -> given_back s s' -> lowered b s s'.
Proof.
  intros HS Hg id r' Hr' _. destruct (Hg id r' Hr') as (r & Hr & _ & Hb & _ & Ho). left. exists r. split_and!; [done..|].
  destruct (so_shares _ HS _ _ Hr) as (_ & ? & ? & ? & _). destruct Ho as [-> | ->]; [by apply le_rates_refl|done].
Qed.
Lemma same_lowered s s' b : shares_ok s -> rate_shares s' = rate_shares s -> lowered b s s'.
Proof.
  intros HS E id r' Hr' _. rewrite E in Hr'. left. exists r'. split_and!; [done..|]. destruct (so_shares _ HS _ _ Hr') as (_ & _ & ? & _). by apply le_rates_refl.
Qed.

(** ** Every step *)

Definition paced (s s' : Fleet) : Prop := shares_ok s' /\ forall b, lowered b s s' \/ pool_fits s' b.
Lemma paced_same s s' : shares_ok s -> shares_ok s' -> rate_shares s' = rate_shares s -> paced s s'.
Proof. intros HS HS' E. split; [done|]. intros b. left. by apply same_lowered. Qed.

Lemma shares_operations ops s : shares_ok (set_operations ops s) <-> shares_ok s.
Proof. split; intros [S1 S2]; (split; [exact S1|exact S2]). Qed.

(** A transition reads and writes no share. *)
Lemma lifecycle_paced id request body s : ids_ok s -> life_ok s -> shares_ok s -> Keeps (same share_view) body ->
  (forall s a s', ids_ok s -> life_ok s -> shares_ok s -> body s = Ok (a, s') -> shares_ok s') ->
  forall fault, paced s (Transaction fault (lifecycleOperation id request body) s).1.
Proof.
  intros Hi HL HS Hk Hb fault. apply Transaction_cases; [by apply paced_same|]. intros a s' [-> |(ops & s2 & ops' & H & ->)]%lifecycleOperation_ok; [by apply paced_same|].
  pose proof (Hk _ _ _ H) as [= _ Es]. apply Hb in H; [|done|done|by apply shares_operations]. apply paced_same; [done|by apply shares_operations|done].
Qed.

(** Confirmations give back, and write shares alone. *)
Definition but_shares (s : Fleet) := (grants s, clients s, rate_budgets s).
#[local] Instance confirm_but_shares p g r a : Keeps (same but_shares) (confirm_share p g r a).
Proof. unfold confirm_share. apply _. Qed.
#[local] Instance acknowledge_but_shares p bundle : Keeps (same but_shares) (acknowledgeConfiguration p bundle).
Proof. unfold acknowledgeConfiguration, write_share. apply _. Qed.
Lemma given_back_paced s s' : shares_ok s -> given_back s s' -> same grants s s' -> same clients s s' -> same rate_budgets s s' -> paced s s'.
Proof. intros HS Hg E1 E2 E3. split; [by eapply given_back_ok|]. intros b. left. by apply given_back_lowered. Qed.
Lemma confirm_paced p g r a s u s' : shares_ok s -> confirm_share p g r a s = Ok (u, s') -> paced s s'.
Proof.
  intros HS H. pose proof (keeps_ok (same but_shares) _ _ _ _ _ H) as [= E1 E2 E3].
  apply given_back_paced; [done|by eapply confirm_given_back|done..].
Qed.
Lemma acknowledge_paced p bundle s u s' : shares_ok s -> acknowledgeConfiguration p bundle s = Ok (u, s') -> paced s s'.
Proof.
  intros HS H. pose proof (keeps_ok (same but_shares) _ _ _ _ _ H) as [= E1 E2 E3].
  apply given_back_paced; [done|eapply acknowledge_given_back; [by apply shares_ids|done]|done..].
Qed.

Lemma step_paced s s' : ids_ok s -> life_ok s -> shares_ok s -> fleet_step s s' -> paced s s'.
Proof.
  intros Hi HL HS Hstep. assert (paced s s) as Hrefl by (by apply paced_same).
  assert (forall {A} (m : Tx A) fault, Keeps (same rate_view) m -> Keeps owned m -> paced s (Transaction fault m s).1) as Htx.
  { intros A m fault Hm Ho. apply Transaction_cases; [done|]. intros a s1 H. pose proof (Hm _ _ _ H) as Hv. pose proof (Ho _ _ _ H) as Hw.
    apply paced_same; [done|by eapply shares_quiet|]. by injection Hv as _ _ _ E. }
  inversion Hstep; subst; clear Hstep.
  - apply Htx; apply _.
  - unfold Ingest. do 3 (case_match; [done|]). specialize (Htx _ (ingest now peer p b) fault _ _). by destruct (Transaction fault (ingest now peer p b) s).
  - unfold ReserveClientCredit. do 2 (case_match; [done|]). apply Htx; apply _.
  - unfold Transition. case_match eqn:Ev; [done|]. apply lifecycle_paced; [done..|apply _|]. intros. eapply transition_shares_ok; [|done..].
    rewrite !orb_false_iff, !negb_false_iff in Ev. destruct Ev as [_ Ev]. by eapply spec_rates_ok.
  - unfold CompleteTransition. case_match; [done|]. apply lifecycle_paced; [done..|apply _|]. intros. by eapply complete_shares_ok.
  - unfold CancelTransition. case_match; [done|]. apply lifecycle_paced; [done..|apply _|]. intros. by eapply cancel_shares_ok.
  - unfold BindClient. case_match; [done|]. apply Transaction_cases; [done|]. intros u s1 [-> |(cl & Hn & _ & _ & ->)]%bind_client_ok; [done|].
    apply paced_same; [done| |done]. apply (shares_frame s); [done|done|done|by intros ? ? ?; eauto|]. intros i r i' c t cl' Hr Ho Hcl' _. cbn in Hcl'.
    apply lookup_insert_Some in Hcl' as [[<- <-]|[_ Hcl']]; [exfalso|right; by exists cl']. unfold owners in Ho. rewrite lookup_fmap in Ho.
    destruct (grants s !! i) as [g|] eqn:Hg; [|done]. injection Ho as _ E _. by apply (H i g).
  - unfold ReconcileCredentials. case_match; [done|]. apply Transaction_cases; [done|]. intros u s1 [-> |(cl & Hcl & ->)]%reconcile_ok; [done|].
    apply paced_same; [done| |done]. apply (shares_frame s); [done|done|done|by intros ? ? ?; eauto|]. intros i r i' c t cl' Hr Ho Hcl' _. cbn in Hcl'.
    apply lookup_insert_Some in Hcl' as [[<- <-]|[_ Hcl']]; right; [by exists cl|by exists cl'].
  - unfold SetRateBudget. apply Transaction_cases; [done|]. intros u s1 Hb. pose proof (keeps_ok (same share_view) _ _ _ _ _ Hb) as [= Eg Es].
    pose proof (keeps_ok (same life_view) _ _ _ _ _ Hb) as [= Ec _]. apply paced_same; [done| |done].
    apply (shares_frame s); [done|done|by unfold owners; rewrite Eg| |].
    + assert (ok_rates d) as Hd; [|by eapply SetRateBudget_offered]. unfold SetRateBudget_tx in Hb. apply guard_ok in Hb as ([] & [Hv _]%tx_refuse_ok & _); [|apply _].
      unfold invalid_rate_budget in Hv. rewrite !orb_false_iff, !negb_false_iff in Hv. destruct Hv as [_ Hv]. by apply rates_ok.
    + intros i r0 i' c0 t0 cl' _ _ Hcl' _. right. exists cl'. by rewrite <-Ec.
  - unfold RequestRateShare. case_match eqn:Ev; [done|]. apply Transaction_cases; [done|]. intros u s1 Hq.
    apply request_share_ok in Hq as [-> |[new Hnew]]; [done| |done|by apply shares_ids]. assert (shares_ok s1) as HS1.
    { eapply requested_shares; [done..|]. rewrite !orb_false_iff, !negb_false_iff in Ev. destruct Ev as [_ Ev]. by apply rates_ok. }
    split; [done|]. by eapply requested_fits.
  - unfold ConfirmRateShare. case_match; [done|]. apply Transaction_cases; [done|]. intros u s1 Hq. by eapply confirm_paced.
  - apply Transaction_cases; [done|]. intros u s1 Hq. by eapply acknowledge_paced.
  - apply Htx; apply _.
  - apply Htx; unfold HoldForRecovery; apply _.
  - apply Htx; apply _.
  - destruct H as [(Eg & _) _ _ _ [Eb Es] Hc]. apply paced_same; [done| |done]. apply (shares_frame s); [done|done|by unfold owners; rewrite Eg| |].
    + intros i b. rewrite Eb. eauto.
    + intros i r i' c t cl' _ _ Hcl' _. right. specialize (Hc c). rewrite Hcl' in Hc. destruct (clients s !! c) as [cl|]; [|done]. exists cl. split; [done|].
      injection Hc. congruence.
Qed.

Lemma reachable_shares s : reachable s -> ids_ok s /\ life_ok s /\ shares_ok s.
Proof.
  intros Hr. assert (forall s, ledger_ok s -> ids_ok s) as Hids by (intros x [L1 _ _ _ _ _]; exact L1).
  split; [by apply Hids, reachable_ledger|]. split; [by eapply run_life; [apply empty_life|]|].
  apply (rtc_ind_r (R := fleet_step) (fun s => reachable s -> shares_ok s) empty_fleet); [intros _; split; cbn; apply map_Forall_empty| |done|done].
  intros y z Hy Hstep IH _. specialize (IH Hy). eapply step_paced; [by apply Hids, reachable_ledger|by eapply run_life; [apply empty_life|]|done|done].
Qed.

(** C9: A client of the fleet forwards in one term at a time.  Whatever rates a grant may be
    using, in any reachable state, if its client is one the fleet manages then the grant
    belongs to the term that client is in, which is active or draining: by the time the
    client is in its next term, every grant of the one before has nothing left in use. *)
Theorem one_term_forwards s id r : reachable s -> rate_shares s !! id = Some r -> rs_Outstanding r <> NoRates ->
  exists g, grants s !! id = Some g /\
  forall c, clients s !! fg_ClientID g = Some c ->
    CurrentTermID c = Some (fg_TermID g) /\
    exists t, terms s !! fg_TermID g = Some t /\ ft_ClientID t = fg_ClientID g /\ (ft_State t = Active \/ ft_State t = Draining).
Proof.
  intros Hs Hr Hne. destruct (reachable_shares s Hs) as (_ & HL & [S1 _]). destruct (S1 id r Hr) as (_ & _ & _ & _ & i & c & t & Ho & Hcur).
  unfold owners in Ho. rewrite lookup_fmap in Ho. destruct (grants s !! id) as [g|]; [|done]. injection Ho as <- <- <-. exists g. split; [done|].
  intros cl Hcl. specialize (Hcur cl Hcl Hne). split; [done|]. destruct (current_row _ _ _ _ _ HL Hcl Hcur) as (row & Hrow & Hid & _ & _ & _ & c' & Hc' & Hst).
  exists row. split_and!; [done..|]. rewrite Hid, Hcl in Hc'. injection Hc' as <-. rewrite Hst. unfold term_state_at.
  case_bool_decide as Hp; [|rewrite bool_decide_eq_true_2 by done; case_bool_decide; auto].
  destruct (pending_row _ _ _ _ _ HL Hcl Hp) as (? & t & ? & _ & _ & _ & Ht & _ & Hne' & _). congruence.
Qed.

(** ** The pool *)

(** A step that does not move the bound of the pool. *)
Definition bound_kept (b : string) (s s' : Fleet) : Prop :=
  fleet_step s s' /\ rb_Desired <$> rate_budgets s' !! b = rb_Desired <$> rate_budgets s !! b.

Lemma step_fits s s' b : reachable s -> bound_kept b s s' -> pool_fits s b -> pool_fits s' b.
Proof.
  intros Hs [Hstep Eb] Hf. destruct (reachable_shares s Hs) as (Hi & HL & HS). destruct (step_paced s s' Hi HL HS Hstep) as [HS' Hp].
  destruct (Hp b) as [Hlow|]; [|done]. intros rb Hrb. rewrite Hrb in Eb. destruct (rate_budgets s !! b) as [rb0|] eqn:E0; [|done]. injection Eb as ->.
  destruct (Hf rb0 E0) as [H1 H2]. split; (eapply lowered_within; [|exact HS|exact HS'|exact Hlow|done]); auto.
Qed.

(** C10: A client's nodes never use more together than its pool allows.  A rate in use grows
    only in a step that leaves the shares of its pool within the bound, in sum and in both
    directions; so once a pool fits, it fits for as long as its bound is not moved. *)
Theorem pool_is_never_oversubscribed s : reachable s ->
  (forall s' id r', fleet_step s s' -> rate_shares s' !! id = Some r' ->
     ~ le_rates (rs_Outstanding r') (from_option rs_Outstanding NoRates (rate_shares s !! id)) -> pool_fits s' (rs_BudgetID r')) /\
  (forall b s', pool_fits s b -> rtc (bound_kept b) s s' -> pool_fits s' b).
Proof.
  intros Hs. split.
  - intros s' id r' Hstep Hr' Hgrow. destruct (reachable_shares s Hs) as (Hi & HL & HS). destruct (step_paced s s' Hi HL HS Hstep) as [HS' Hp].
    destruct (Hp (rs_BudgetID r')) as [Hlow|]; [exfalso|done]. apply Hgrow. destruct (Hlow id r' Hr' eq_refl) as [(r & -> & _ & ?)|[-> ->]]; [done|].
    apply le_rates_refl, ok_NoRates.
  - intros b s' Hf Hrun. induction Hrun as [|s s1 s2 Hstep _ IH]; [done|]. apply IH; [|by eapply step_fits].
    eapply rtc_r; [exact Hs|]. by destruct Hstep.
Qed.

Lemma decodeRates_proper r : ok_rates r -> decodeRates r = Ok r.
Proof.
  intros [[H1 _] [H2 _]]. unfold decodeRates, Rates_validate, validate. cbn. by rewrite H1, H2.
Qed.

(** Whether a pool is pending is whether it does not fit. *)
Lemma pending_is_exact s b rb : reachable s -> validID b = true -> rate_budgets s !! b = Some rb ->
  exists pending, RateBudgetPending None b s = (s, Ok pending) /\ (pending = false <-> pool_fits s b).
Proof.
  intros Hs Hv Hb. destruct (reachable_shares s Hs) as (_ & _ & [S1 S2]). unfold RateBudgetPending. rewrite Hv. cbn [negb].
  assert (Forall (fun r => ok_rates (rs_Outstanding r)) (shares_of s b)) as Hall
    by (apply Forall_forall; intros r [_ [id Hr]]%elem_of_shares_of; by destruct (S1 _ _ Hr) as (_ & _ & ? & _)).
  assert (forall l acc, Forall (fun r => ok_rates (rs_Outstanding r)) l -> foldM decode_outstanding acc l = Ok (acc ++ (rs_Outstanding <$> l))) as Hfold.
  { intros l. induction l as [|r l IH]; intros acc Hl; [by rewrite app_nil_r|]. apply Forall_cons in Hl as [Hr Hl]. cbn [foldM].
    unfold decode_outstanding at 1. rewrite decodeRates_proper by done. rewrite IH by done. by rewrite <-app_assoc. }
  unfold Transaction, rate_budget_pending, get, found, lift, mbind, Tx_bind. rewrite Hb, (decodeRates_proper _ (S2 _ _ Hb)), (Hfold _ [] Hall). cbn.
  eexists. split; [reflexivity|]. rewrite orb_false_iff, !negb_false_iff, <-!list_fmap_compose. destruct (S2 _ _ Hb) as [B1 B2].
  rewrite !fits_within; try done; try (apply Forall_fmap; eapply Forall_impl; [exact Hall|]; intros r [? ?]; done).
  unfold pool_fits. split; [|intros Hf; by apply Hf]. intros Hf rb' Hrb'. rewrite Hb in Hrb'. by injection Hrb' as <-.
Qed.
End Forwarding.

(** ** A grant with rates in use *)
Module SampleRates.
Export SampleLife.
Definition credit : ReserveRequest :=
  mkReserve (operation "4") Sample.grant_id node_id installation_id "wg0" client_id first_id [first_id] 1000 false.
Definition credited : Fleet := (Reserve None 0 credit started).1.
Definition ask : RateRequest := mkRateRequest (operation "5") Sample.grant_id client_id node_id installation_id "wg0" pool.
Definition shared : Fleet := (RequestRateShare None 0 ask credited).1.
Definition share : FleetRateShare := mkRateShare Sample.grant_id client_id node_id installation_id "wg0" 1 0 pool pool.

Lemma credited_reachable : reachable credited.
Proof. eapply rtc_r; [exact started_reachable|]. exact (StepReserve started None 0 credit). Qed.
Lemma ask_step : fleet_step credited shared.
Proof. by apply (StepShare credited None 0 ask). Qed.
Lemma shared_reachable : reachable shared.
Proof. eapply rtc_r; [exact credited_reachable|exact ask_step]. Qed.
Lemma shared_share : rate_shares shared !! Sample.grant_id = Some share.
Proof. vm_compute. reflexivity. Qed.
Lemma credited_none : rate_shares credited !! Sample.grant_id = None.
Proof. vm_compute. reflexivity. Qed.
Lemma pool_in_use : pool <> NoRates.
Proof. discriminate. Qed.
End SampleRates.

Lemma one_term_forwards_witness :
  exists g, grants SampleRates.shared !! Sample.grant_id = Some g /\
  forall c, clients SampleRates.shared !! fg_ClientID g = Some c ->
    CurrentTermID c = Some (fg_TermID g) /\
    exists t, terms SampleRates.shared !! fg_TermID g = Some t /\ ft_ClientID t = fg_ClientID g /\ (ft_State t = Active \/ ft_State t = Draining).
Proof.
  exact (one_term_forwards SampleRates.shared Sample.grant_id SampleRates.share SampleRates.shared_reachable SampleRates.shared_share SampleRates.pool_in_use).
Defined.

Lemma pool_is_never_oversubscribed_witness : pool_fits SampleRates.shared SampleLife.client_id.
Proof.
  destruct (pool_is_never_oversubscribed SampleRates.credited SampleRates.credited_reachable) as [H _].
  apply (H SampleRates.shared Sample.grant_id SampleRates.share SampleRates.ask_step SampleRates.shared_share).
  rewrite SampleRates.credited_none. intros L. apply le_NoRates in L; [discriminate|]. split; (split; [reflexivity|cbn; lia]).
Defined.
