(* ===== verification/FleetGrants.v ===== *)
(** * Grants over time

    A grant is never removed, never changes its node, runtime, client or term, and is
    never issued less than before. *)
From S2P Require Import Prelude Limits Authority Instances Spool Rates Fleet FleetLedger FleetRates FleetLifecycle FleetFacts FleetSpend FleetRuns FleetTheorems FleetTerms FleetPool.
Open Scope Z_scope.
Open Scope list_scope.

(** Where a grant is used, and for whom. *)
Record place := mkPlace { at_node : string; at_installation : string; at_runtime : string; for_client : string; for_term : string }.
Definition place_of (g : FleetGrant) : place := mkPlace (fg_NodeID g) (fg_InstallationID g) (fg_RuntimeID g) (fg_ClientID g) (fg_TermID g).

Section Grants.
Context {HU : UUIDs} {HW : Wire} {HD : LedgerDigests} {HR : RateDigests} {HC : LifecycleDigests}.

(** Grants as [reserve] creates them. *)
Definition place_ok (p : place) : Prop :=
  validID (at_node p) = true /\ validID (at_installation p) = true /\ runtimeName (at_runtime p) = true /\
  validID (for_client p) = true /\ validID (for_term p) = true.
Definition grants_typed (s : Fleet) : Prop := forall id g, grants s !! id = Some g ->
  fg_ID g = id /\ validID id = true /\ place_ok (place_of g) /\ (fg_Unlimited g = false -> 0 < IssuedBytes g).

Definition issued_more (s s' : Fleet) : Prop := forall id g, grants s !! id = Some g ->
  exists g', grants s' !! id = Some g' /\ place_of g' = place_of g /\ fg_Unlimited g' = fg_Unlimited g /\
  IssuedBytes g <= IssuedBytes g' /\ fg_Revision g <= fg_Revision g'.
Definition grown (s s' : Fleet) : Prop := grants_typed s -> grants_typed s' /\ issued_more s s'.

#[global] Instance grown_preorder : PreOrder grown.
Proof.
  split; [intros s Hs; split; [done|]; intros id g Hg; by exists g|]. intros x y z H1 H2 Hx. destruct (H1 Hx) as [Hy G1]. destruct (H2 Hy) as [Hz G2].
  split; [done|]. intros id g Hg. destruct (G1 id g Hg) as (g1 & Hg1 & ? & ? & ? & ?). destruct (G2 id g1 Hg1) as (g2 & Hg2 & ? & ? & ? & ?).
  exists g2. split_and!; [done|congruence|congruence|lia|lia].
Qed.

Lemma grown_same s s' : grants s' = grants s -> grown s s'.
Proof. intros E Hs. unfold grants_typed, issued_more. rewrite E. split; [done|]. intros id g Hg. by exists g. Qed.
#[global] Instance grown_keeps {A} (m : Tx A) : Keeps (same grants) m -> Keeps grown m | 50.
Proof. intros Hm s a s' H%Hm. by apply grown_same. Qed.
#[global] Instance grants_outside {A} (m : Tx A) : Outside m -> Keeps (same grants) m | 50.
Proof. intros Hm s a s' H. by destruct (Hm _ _ _ H) as [(E & _) _]. Qed.
#[global] Instance grants_shares {A} (m : Tx A) : Keeps (same share_view) m -> Keeps (same grants) m | 50.
Proof. intros Hm s a s' H. by pose proof (Hm _ _ _ H) as [= E _]. Qed.

Lemma reserve_valid r : invalid_reserve r = false ->
  validID (rq_GrantID r) = true /\ place_ok (mkPlace (rq_NodeID r) (rq_InstallationID r) (rq_RuntimeID r) (rq_ClientID r) (rq_TermID r)) /\
  (if rq_Unlimited r then rq_Bytes r = 0 else 0 < rq_Bytes r).
Proof.
  unfold invalid_reserve, place_ok. rewrite !orb_false_iff, !negb_false_iff. intros H. destruct_and! H.
  split_and!; [done..|]. destruct (rq_Unlimited r); cbn in *; [|by apply Z.leb_gt].
  match goal with H : negb (rq_Bytes r =? 0) = false |- _ => by apply negb_false_iff, Z.eqb_eq in H end.
Qed.

#[global] Instance reserve_grown now r p : Keeps grown (reserve now r p).
Proof.
  intros s a s' H. apply reserve_inserts in H as [E|(Hv & _ & _ & E)]; [by apply grown_same|]. cbv zeta in E. intros Hs.
  apply reserve_valid in Hv as (Hid & Hpl & Hb).
  set (g := drawn r p (grants s !! rq_GrantID r)) in *. assert (fg_ID g = rq_GrantID r) as Eg.
  { unfold g. destruct (grants s !! rq_GrantID r) as [h|] eqn:Eh; [|done]. by destruct (Hs _ _ Eh). }
  cbn [issue fg_ID] in E. rewrite Eg in E. unfold grants_typed, issued_more. rewrite E. split.
  - intros id x. rewrite lookup_insert_Some. intros [[<- <-]|[_ Hx]]; [|by apply Hs]. unfold g. destruct (grants s !! rq_GrantID r) as [h|] eqn:Eh; cbn.
    + destruct (Hs _ _ Eh) as (-> & ? & ? & Hp). split_and!; [done..|]. intros Hf. specialize (Hp Hf). destruct (rq_Unlimited r); lia.
    + split_and!; [done..|]. intros Hf. rewrite Hf in Hb. lia.
  - assert (0 <= rq_Bytes r) by (destruct (rq_Unlimited r); lia).
    intros id x Hx. destruct (decide (id = rq_GrantID r)) as [->|Hne]; [|exists x; by rewrite lookup_insert_ne].
    exists (issue g (rq_Bytes r)). rewrite lookup_insert_eq. unfold g. rewrite Hx. cbn. split_and!; [done..|lia|lia].
Qed.

#[global] Instance take_batch_grown now p b : Keeps grown (take_batch now p b).
Proof.
  intros s a s' H Hs. apply take_batch_unspent in H; [|intros id g Hg; by apply Hs].
  assert (forall id, unspent <$> grants s' !! id = unspent <$> grants s !! id) as E by (intros id; by rewrite <-!lookup_fmap, H). split.
  - intros id g Hg. specialize (E id). rewrite Hg in E. destruct (grants s !! id) as [g0|] eqn:E0; [|done]. destruct (Hs id g0 E0) as (? & ? & ? & ?).
    cbn in E. injection E as E1 E2 E3 E4 E5 E6 E7 E8 E9 E10. unfold place_of in *. rewrite E1, E3, E4, E5, E6, E7, E8, E9. done.
  - intros id g Hg. specialize (E id). rewrite Hg in E. destruct (grants s' !! id) as [g'|]; [|done].
    cbn in E. injection E as E1 E2 E3 E4 E5 E6 E7 E8 E9 E10. exists g'. unfold place_of. split_and!; [done|congruence|done|lia|lia].
Qed.
#[global] Instance ingest_grown now peer p b : Keeps grown (ingest now peer p b).
Proof. unfold ingest. apply _. Qed.
#[global] Instance credit_tx_grown now fresh r : Keeps grown (credit_tx now fresh r).
Proof. unfold credit_tx. apply _. Qed.
#[global] Instance request_share_grants now r : Keeps (same grants) (request_share now r).
Proof. unfold request_share, replayed_share. apply _. Qed.
Lemma lifecycleOperation_grants id request m : Keeps (same grants) m -> Keeps (same grants) (lifecycleOperation id request m).
Proof.
  intros Hm. unfold lifecycleOperation. do 3 (apply (keeps_bind _); [apply _|intros ?]). apply (keeps_option _); [|apply _].
  intros op. apply (keeps_bind _); [apply _|]. intros []. destruct (op_Result op); apply _.
Qed.

(** Grants are written by reservations and by usage. *)
Lemma step_grants s s' : fleet_step s s' -> grants s' = grants s \/ (exists now r p g, reserve now r p s = Ok (g, s')) \/
  (exists now peer p b a, ingest now peer p b s = Ok (a, s')) \/ (exists now fresh r g, credit_tx now fresh r s = Ok (g, s')).
Proof.
  intros Hstep. inversion Hstep; subst; clear Hstep.
  - unfold Reserve. apply Transaction_cases; [by left|]. intros g s1 H. right. left. eauto.
  - unfold Ingest. do 3 (case_match; [by left|]). destruct (Transaction fault (ingest now peer p b) s) as [s1 r] eqn:E. cbn [fst].
    change s1 with (s1, r).1. rewrite <-E. apply Transaction_cases; [by left|]. intros a s2 Ha. do 2 right. left. eauto 6.
  - unfold ReserveClientCredit. do 2 (case_match; [by left|]). apply Transaction_cases; [by left|]. intros g s1 H'. do 3 right. eauto.
  - left. unfold Transition. case_match; [done|]. apply (keeps_Transaction (same grants)), lifecycleOperation_grants, _.
  - left. unfold CompleteTransition. case_match; [done|]. apply (keeps_Transaction (same grants)), lifecycleOperation_grants, _.
  - left. unfold CancelTransition. case_match; [done|]. apply (keeps_Transaction (same grants)), lifecycleOperation_grants, _.
  - left. unfold BindClient. case_match; [done|]. apply (keeps_Transaction (same grants)), _.
  - left. unfold ReconcileCredentials. case_match; [done|]. apply (keeps_Transaction (same grants)), _.
  - left. apply (keeps_Transaction (same grants)), _.
  - left. unfold RequestRateShare. case_match; [done|]. apply (keeps_Transaction (same grants)), _.
  - left. unfold ConfirmRateShare. case_match; [done|]. apply (keeps_Transaction (same grants)), _.
  - left. apply (keeps_Transaction (same grants)), _.
  - left. apply (keeps_Transaction (same grants)), _.
  - left. apply (keeps_Transaction (same grants)), grants_outside. by apply (keeps_write outside).
  - left. apply (keeps_Transaction (same grants)), _.
  - left. by destruct H as [(E & _) _ _ _ _ _].
Qed.

Lemma step_grown s s' : fleet_step s s' -> grown s s'.
Proof.
  intros [E|[(now & r & p & g & H)|[(now & peer & p & b & a & H)|(now & fresh & r & g & H)]]]%step_grants; [by apply grown_same|..];
    (by apply (keeps_ok grown) in H; [|apply _]).
Qed.

(** ** Held nodes *)

Definition is_held (s : Fleet) (n : string) : Prop := exists row, node_journals s !! n = Some row /\ nj_RecoveryRequired row = true.

Notation SameJournals := (Keeps (same (fun s => (grants s, node_journals s)))).
#[global] Instance claim_journals id d : SameJournals (claim id d).
Proof. unfold claim. apply _. Qed.
#[global] Instance record_result_journals id d r : SameJournals (record_result id d r).
Proof. unfold record_result. apply _. Qed.
#[global] Instance limit_parent_journals r u id : SameJournals (limit_parent r u id).
Proof. unfold limit_parent, save_budget. apply _. Qed.
#[global] Instance credit_amount_journals r p t : SameJournals (credit_amount r p t).
Proof. unfold credit_amount. apply _. Qed.

(** Nothing is issued to a grant of a held node. *)
Definition unissued (n : string) (s s' : Fleet) : Prop := forall id g', grants s' !! id = Some g' -> fg_NodeID g' = n ->
  exists g, grants s !! id = Some g /\ unspent g' = unspent g.

Lemma reserve_unissued now r p s g s' n : grants_typed s -> is_held s n -> reserve now r p s = Ok (g, s') -> unissued n s s'.
Proof.
  intros Ht (row & Hrow & Hheld) H id g' Hg' Hn. apply reserve_inserts in H as [E|(_ & (m & Hm & Hfree) & Hnode & E)]; [rewrite E in Hg'; eauto|].
  cbv zeta in E. rewrite E in Hg'. apply lookup_insert_Some in Hg' as [[<- <-]|[_ Hg']]; [|eauto]. exfalso. cbn in Hn.
  assert (rq_NodeID r = n) as <-; [|congruence]. destruct (grants s !! rq_GrantID r) as [h|]; [|done]. cbn in Hn. rewrite <-Hn. symmetry. by apply Hnode.
Qed.

Lemma credit_reserves now fresh r s g s' : credit_tx now fresh r s = Ok (g, s') -> grants s' = grants s \/
  exists q p s1 s2 a, reserve now q p s1 = Ok (a, s2) /\ grants s1 = grants s /\ node_journals s1 = node_journals s /\ grants s' = grants s2.
Proof.
  intros H. unfold credit_tx in H. cbv zeta in H. apply guard_ok in H as ([] & _ & H); [|apply _].
  apply guard_ok in H as ([placement term] & _ & H); [|apply _]. apply tx_bind_ok in H as (op & s1 & Hc & H). destruct op as [op|].
  - apply claim_ok in Hc as [_ ->]. apply read_only in H as ->. by left.
  - right. apply tx_bind_ok in H as ([ids amount] & s2 & H2 & H). apply tx_bind_ok in H as (g' & s3 & H3 & H).
    pose proof (keeps_ok (same (fun s => (grants s, node_journals s))) _ _ _ _ _ Hc) as [= E1 E2].
    pose proof (keeps_ok (same (fun s => (grants s, node_journals s))) _ _ _ _ _ H2) as [= E3 E4].
    apply (keeps_ok (same grants)) in H; [|apply _]. eexists _, _, s2, s3, g'. split_and!; [exact H3|congruence|congruence|done].
Qed.

Lemma step_unissued s s' n : grants_typed s -> is_held s n -> fleet_step s s' -> unissued n s s'.
Proof.
  intros Ht Hh [E|[(now & r & p & g & H)|[(now & peer & p & b & a & H)|(now & fresh & r & g & H)]]]%step_grants.
  - intros id g'. rewrite E. eauto.
  - by eapply reserve_unissued.
  - unfold ingest in H. apply guard_ok in H as ([] & _ & H); [|apply _]. apply guard_ok in H as ([] & _ & H); [|apply _].
    apply tx_bind_ok in H as (c & s1 & Hc & H). apply (keeps_ok (same grants)) in Hc; [|apply _]. intros id g'. case_match.
    + apply guard_ok in H as ([] & _ & H); [|apply _]. apply tx_ret_ok in H as [_ ->]. rewrite Hc. eauto.
    + apply guard_ok in H as ([] & _ & H); [|apply _]. apply tx_bind_ok in H as ([] & s2 & H2 & [_ ->]%tx_ret_ok). intros Hg' _.
      apply take_batch_unspent in H2; [|intros i g Hg; apply Ht; by rewrite <-Hc]. rewrite Hc in H2.
      assert (unspent <$> grants s2 !! id = unspent <$> grants s !! id) as E by (by rewrite <-!lookup_fmap, H2). rewrite Hg' in E.
      destruct (grants s !! id) as [g|]; [|done]. exists g. split; [done|]. cbn in E. congruence.
  - apply credit_reserves in H as [E|(q & p & s1 & s2 & a & H & E1 & E2 & E3)]; [intros id g'; rewrite E; eauto|].
    assert (unissued n s1 s2) as Hu.
    { eapply reserve_unissued; [|by unfold is_held; rewrite E2|exact H]. intros id x. rewrite E1. apply Ht. }
    intros id g'. rewrite E3, <-E1. apply Hu.
Qed.
End Grants.
