(* ===== verification/FleetDelivery.v ===== *)
(** * Credit on its way to the nodes, step by step

    The transactions on the journals and on the credit outbox as steps beside those of the
    rest of the control plane, and what they keep. *)
From S2P Require Import Prelude Limits Authority AuthorityWire Instances Spool Rates Fleet FleetLedger FleetRates FleetLifecycle FleetJournals FleetCredit FleetFacts FleetSpend FleetRuns FleetTheorems FleetTerms FleetPool FleetGrants.
Open Scope Z_scope.
Open Scope list_scope.

(** ** Beside the journals and the outboxes *)

Definition main_view (s : Fleet) : Fleet := set_delivery (mkDelivery ∅ ∅ ∅ ∅) (set_node_journals ∅ (set_runtime_journals ∅ s)).
Notation Beside := (Keeps (same main_view)).

Lemma beside_panel s s' : main_view s' = main_view s -> panel_write s s'.
Proof.
  intros E. assert (forall {B} (f : Fleet -> B), f (main_view s') = f (main_view s)) as Hf by (intros B f; by rewrite E). split.
  - unfold same_ledger. split_and!; [exact (Hf _ grants)|exact (Hf _ links)|exact (Hf _ budgets)|exact (Hf _ fmeters)].
  - exact (Hf _ cursors).
  - apply operations_same. exact (Hf _ operations).
  - exact (Hf _ terms).
  - split; [exact (Hf _ rate_budgets)|exact (Hf _ rate_shares)].
  - intros id. pose proof (Hf _ clients) as Hc. cbn in Hc. by rewrite Hc.
Qed.
Lemma beside_fields s s' : main_view s' = main_view s -> grants s' = grants s /\ fence s' = fence s /\ nodes s' = nodes s.
Proof.
  intros E. assert (forall {B} (f : Fleet -> B), f (main_view s') = f (main_view s)) as Hf by (intros B f; by rewrite E).
  split_and!; [exact (Hf _ grants)|exact (Hf _ fence)|exact (Hf _ nodes)].
Qed.

(** ** Journals *)

Definition runtime_identity (j : FleetRuntimeJournal) : string * string * string * string :=
  (rj_InstallationID j, rj_CoreID j, rj_StateJournalID j, rj_CreditJournalID j).

(** A journal registered stays, with its identity; a held node stays as it is. *)
Record journals_kept (s s' : Fleet) : Prop := {
  jk_nodes : forall n row, node_journals s !! n = Some row -> exists row', node_journals s' !! n = Some row' /\
    nj_InstallationID row' = nj_InstallationID row /\ nj_StateJournalID row' = nj_StateJournalID row /\
    (nj_RecoveryRequired row = true -> row' = row);
  jk_runtimes : forall k j, runtime_journals s !! k = Some j -> exists j', runtime_journals s' !! k = Some j' /\ runtime_identity j' = runtime_identity j }.
#[global] Instance journals_kept_preorder : PreOrder journals_kept.
Proof.
  split; [intros s; split; [intros n row Hn; by exists row|intros k j Hj; by exists j]|]. intros x y z [N1 R1] [N2 R2]. split.
  - intros n row Hn. destruct (N1 n row Hn) as (r1 & H1 & E1 & E2 & E3). destruct (N2 n r1 H1) as (r2 & H2 & F1 & F2 & F3). exists r2.
    split_and!; [done|congruence|congruence|]. intros Hh. specialize (E3 Hh). subst r1. by apply F3.
  - intros k j Hj. destruct (R1 k j Hj) as (j1 & H1 & E1). destruct (R2 k j1 H1) as (j2 & H2 & E2). exists j2. split; [done|congruence].
Qed.
Definition journals_of (s : Fleet) := (node_journals s, runtime_journals s).
#[global] Instance journals_same {A} (m : Tx A) : Keeps (same journals_of) m -> Keeps journals_kept m | 50.
Proof.
  intros Hm s a s' H. pose proof (Hm _ _ _ H) as [= E1 E2]. split; rewrite ?E1, ?E2; [intros n row Hn; by exists row|intros k j Hj; by exists j].
Qed.

Section Steps.
Context {HU : UUIDs} {HS : WireDigests} {HW : Wire} {HD : LedgerDigests} {HR : RateDigests} {HC : LifecycleDigests}.

#[global] Instance hold_beside p reason : Beside (holdNodeJournal p reason).
Proof. unfold holdNodeJournal. apply _. Qed.
#[global] Instance hold_kept p reason : Keeps journals_kept (holdNodeJournal p reason).
Proof.
  apply (keeps_get journals_kept). intros s a s' ->%tx_write_ok. split; [|intros k j Hj; by exists j]. intros n row Hn. cbn.
  destruct (decide (n = pNodeID p)) as [->|Hne]; [|exists row; by rewrite lookup_insert_ne]. rewrite Hn, lookup_insert_eq. eexists. split; [done|].
  cbn. split_and!; [done..|]. intros Hh. rewrite Hh. destruct row; cbn in *; congruence.
Qed.
#[global] Instance create_node_journal_beside p j : Beside (create_node_journal p j).
Proof. unfold create_node_journal. apply _. Qed.
#[global] Instance create_node_journal_kept p j : Keeps journals_kept (create_node_journal p j).
Proof.
  apply (keeps_get journals_kept). intros s a s' H. apply guard_ok in H as ([] & [Hr _]%tx_refuse_ok & H); [|apply _]. apply tx_write_ok in H as ->.
  apply orb_false_iff in Hr as [Hr _]. apply bool_decide_eq_false, eq_None_not_Some in Hr. split; [|intros k x Hx; by exists x].
  intros n row Hn. exists row. cbn. by rewrite lookup_insert_ne by congruence.
Qed.
#[global] Instance create_runtime_beside p u j : Beside (create_runtime p u j).
Proof. unfold create_runtime. apply _. Qed.
#[global] Instance create_runtime_kept p u j : Keeps journals_kept (create_runtime p u j).
Proof.
  apply (keeps_get journals_kept). intros s a s' H. apply guard_ok in H as ([] & [Hr _]%tx_refuse_ok & H); [|apply _]. apply tx_write_ok in H as ->.
  apply orb_false_iff in Hr as [Hr _]. apply bool_decide_eq_false, eq_None_not_Some in Hr. split; [intros n row Hn; by exists row|].
  intros k x Hx. exists x. cbn. by rewrite lookup_insert_ne by congruence.
Qed.

(** What every relation of this file needs of a transaction on the journals. *)
Section Registering.
Context (R : relation Fleet) {HP : PreOrder R} (Hh : forall p r, Keeps R (holdNodeJournal p r))
  (Hn : forall p j, Keeps R (create_node_journal p j)) (Hr : forall p u j, Keeps R (create_runtime p u j)).
Lemma register_keeps peer p r : Keeps R (register peer p r).
Proof.
  assert (forall isNew, Keeps R (register_runtimes p r isNew)) as Hruns.
  { intros isNew. unfold register_runtimes. do 2 (apply (keeps_bind R); [apply _|intros ?]). match goal with |- Keeps R (match ?x with _ => _ end) => destruct x end; apply _. }
  unfold register. apply _.
Qed.
Lemma agent_journal_keeps peer p j : Keeps R (agent_journal peer p j).
Proof.
  unfold agent_journal. do 2 (apply (keeps_bind R); [apply _|intros ?]). match goal with |- Keeps R (match ?x with _ => _ end) => destruct x end; apply _.
Qed.
Lemma scoped_keeps {A} peer p q (body : FleetNode -> Tx (option A)) : (forall n, Keeps R (body n)) -> Keeps R (scoped peer p q body).
Proof.
  intros Hb. unfold scoped. apply (keeps_get R). intros s a s' H. destruct (creditScope peer p q s) as [[node s1]|e]; [by eapply Hb|].
  case_bool_decide; [|by apply tx_fail_ok in H]. by apply (keeps_ok R) in H; [|apply _].
Qed.
Lemma RegisterJournals_keeps fault peer p request s : R s (RegisterJournals fault peer p request s).1.
Proof.
  unfold RegisterJournals. destruct (NormalizeRegistration request) as [[r d]|]; [|done]. case_match; [done|].
  pose proof (keeps_Transaction R fault (register peer p r) s (register_keeps _ _ _)) as Ht. by destruct (Transaction fault (register peer p r) s).
Qed.
Lemma RequireAgentJournal_keeps fault peer p j s : R s (RequireAgentJournal fault peer p j s).1.
Proof.
  unfold RequireAgentJournal. case_match; [done|].
  pose proof (keeps_Transaction R fault (agent_journal peer p j) s (agent_journal_keeps _ _ _)) as Ht. by destruct (Transaction fault (agent_journal peer p j) s).
Qed.
Lemma FetchCredit_keeps fault fault' peer p request v s : (forall q n, Keeps R (fetch_credit v p q n)) -> R s (FetchCredit fault fault' peer p request v s).1.
Proof.
  intros Hf. unfold FetchCredit. destruct request as [q|]; [|done]. case_match; [done|].
  pose proof (RequireAgentJournal_keeps fault peer p (AgentStateJournalId q) s) as Ha. destruct (RequireAgentJournal fault peer p (AgentStateJournalId q) s) as [s1 [u|e]]; [|done].
  pose proof (keeps_Transaction R fault' (scoped peer p q (fetch_credit v p q)) s1 (scoped_keeps _ _ _ _ (Hf q))) as Ht.
  destruct (Transaction fault' _ s1). cbn in *. by etrans.
Qed.
Lemma AcknowledgeCredit_keeps fault fault' peer p batch s : (forall b n, Keeps R (acknowledge_credit p b n)) -> R s (AcknowledgeCredit fault fault' peer p batch s).1.
Proof.
  intros Hf. unfold AcknowledgeCredit. destruct batch as [b|]; [|done]. do 2 (case_match; [done|]). destruct (credit_batch_digest b); [|done].
  pose proof (RequireAgentJournal_keeps fault peer p (AgentStateJournalId (cbScope b)) s) as Ha.
  destruct (RequireAgentJournal fault peer p (AgentStateJournalId (cbScope b)) s) as [s1 [u|e]]; [|done].
  pose proof (keeps_Transaction R fault' (scoped peer p (cbScope b) (acknowledge_credit p b)) s1 (scoped_keeps _ _ _ _ (Hf b))) as Ht.
  destruct (Transaction fault' _ s1). cbn in *. by etrans.
Qed.
End Registering.

(** ** Frames *)

#[global] Instance hold_outbox p reason : Keeps (same delivery) (holdNodeJournal p reason).
Proof. unfold holdNodeJournal. apply _. Qed.
#[global] Instance create_node_journal_outbox p j : Keeps (same delivery) (create_node_journal p j).
Proof. unfold create_node_journal. apply _. Qed.
#[global] Instance create_runtime_outbox p u j : Keeps (same delivery) (create_runtime p u j).
Proof. unfold create_runtime. apply _. Qed.

Notation InOutbox := (Keeps (same (fun s => (main_view s, journals_of s)))).
#[global] Instance save_credit_update_in r : InOutbox (save_credit_update r).
Proof. unfold save_credit_update. apply _. Qed.
#[global] Instance queue_credit_in id base : InOutbox (queue_credit id base).
Proof. unfold queue_credit. apply _. Qed.
#[global] Instance fetch_credit_in v p q n : InOutbox (fetch_credit v p q n).
Proof. unfold fetch_credit. apply _. Qed.
#[global] Instance acknowledge_update_in p b u x : InOutbox (acknowledge_update p b u x).
Proof. unfold acknowledge_update. apply _. Qed.
#[global] Instance acknowledge_credit_in p b n : InOutbox (acknowledge_credit p b n).
Proof. unfold acknowledge_credit. apply _. Qed.
#[global] Instance in_outbox_beside {A} (m : Tx A) : InOutbox m -> Beside m | 60.
Proof. intros Hm s a s' H. exact (f_equal fst (Hm _ _ _ H)). Qed.
#[global] Instance in_outbox_journals {A} (m : Tx A) : InOutbox m -> Keeps journals_kept m | 60.
Proof. intros Hm. apply journals_same. intros s a s' H. exact (f_equal snd (Hm _ _ _ H)). Qed.

(** The rest of the control plane writes neither journals nor outboxes. *)
Definition side_view (s : Fleet) := (journals_of s, delivery s).
Notation Aside := (Keeps (same side_view)).
#[global] Instance claim_aside id d : Aside (claim id d).
Proof. unfold claim. apply _. Qed.
#[global] Instance record_result_aside id d r : Aside (record_result id d r).
Proof. unfold record_result. apply _. Qed.
#[global] Instance create_budget_aside id b : Aside (create_budget id b).
Proof. unfold create_budget. apply _. Qed.
#[global] Instance reserve_aside now r p : Aside (reserve now r p).
Proof. unfold reserve, reserve_tx, reserve_claimed, reserve_budget, save_budget, save_grant, create_links. apply _. Qed.
#[global] Instance credit_tx_aside now fresh r : Aside (credit_tx now fresh r).
Proof. unfold credit_tx, credit_amount, limit_parent, save_budget. apply _. Qed.
#[global] Instance take_batch_aside now p b : Aside (take_batch now p b).
Proof. unfold take_batch, write_meter, write_budget, write_grant, recordTermUsage, add_usage, save_budget, save_grant. apply _. Qed.
#[global] Instance ingest_aside now peer p b : Aside (ingest now peer p b).
Proof. unfold ingest, node_cursor. apply _. Qed.
#[global] Instance SetRateBudget_aside id c t r d : Aside (SetRateBudget_tx id c t r d).
Proof. unfold SetRateBudget_tx, set_rate_budget, create_rate_budget. apply _. Qed.
#[global] Instance transition_aside now fresh r : Aside (transition now fresh r).
Proof. unfold transition, succeed_term, save_term, create_term, save_client, activateRatePool. apply _. Qed.
#[global] Instance complete_aside now r : Aside (complete now r).
Proof. unfold complete, save_term, save_client, activateRatePool. apply _. Qed.
#[global] Instance cancel_aside r : Aside (cancel r).
Proof. unfold cancel, save_term, save_client. apply _. Qed.
#[global] Instance bind_client_aside p f i d : Aside (bind_client p f i d).
Proof.
  unfold bind_client. do 3 (apply (keeps_bind _); [apply _|intros ?]). match goal with |- Keeps _ (match ?l with _ => _ end) => destruct l as [|[? ?] ?] end; apply _.
Qed.
#[global] Instance reconcile_aside c g d : Aside (reconcile_credentials c g d).
Proof. unfold reconcile_credentials. apply _. Qed.
#[global] Instance request_share_aside now r : Aside (request_share now r).
Proof. unfold request_share, replayed_share, save_share. apply _. Qed.
#[global] Instance confirm_share_aside p g r a : Aside (confirm_share p g r a).
Proof. unfold confirm_share. apply _. Qed.
#[global] Instance acknowledgeConfiguration_aside p bundle : Aside (acknowledgeConfiguration p bundle).
Proof. unfold acknowledgeConfiguration, write_share. apply _. Qed.
#[global] Instance recordStoppedGrants_aside n r bundle : Aside (recordStoppedGrants n r bundle).
Proof. unfold recordStoppedGrants. apply _. Qed.
Lemma lifecycleOperation_aside id request m : Aside m -> Aside (lifecycleOperation id request m).
Proof.
  intros Hm. unfold lifecycleOperation. do 3 (apply (keeps_bind _); [apply _|intros ?]). apply (keeps_option _); [|apply _].
  intros op. apply (keeps_bind _); [apply _|]. intros []. destruct (op_Result op); apply _.
Qed.

Lemma fleet_aside s s' : fleet_step s s' -> panel_write s s' \/ same side_view s s'.
Proof.
  intros Hstep. inversion Hstep; subst; [right..|by left]; clear Hstep.
  - apply (keeps_Transaction (same side_view)), _.
  - unfold Ingest. do 3 (case_match; [done|]). pose proof (keeps_Transaction (same side_view) fault (ingest now peer p b) s _) as Ht.
    by destruct (Transaction fault (ingest now peer p b) s).
  - unfold ReserveClientCredit. do 2 (case_match; [done|]). apply (keeps_Transaction (same side_view)), _.
  - unfold Transition. case_match; [done|]. apply (keeps_Transaction (same side_view)), lifecycleOperation_aside, _.
  - unfold CompleteTransition. case_match; [done|]. apply (keeps_Transaction (same side_view)), lifecycleOperation_aside, _.
  - unfold CancelTransition. case_match; [done|]. apply (keeps_Transaction (same side_view)), lifecycleOperation_aside, _.
  - unfold BindClient. case_match; [done|]. apply (keeps_Transaction (same side_view)), _.
  - unfold ReconcileCredentials. case_match; [done|]. apply (keeps_Transaction (same side_view)), _.
  - apply (keeps_Transaction (same side_view)), _.
  - unfold RequestRateShare. case_match; [done|]. apply (keeps_Transaction (same side_view)), _.
  - unfold ConfirmRateShare. case_match; [done|]. apply (keeps_Transaction (same side_view)), _.
  - apply (keeps_Transaction (same side_view)), _.
  - apply (keeps_Transaction (same side_view)), _.
  - apply (keeps_Transaction (same side_view)). unfold HoldForRecovery. apply _.
  - apply (keeps_Transaction (same side_view)), _.
Qed.

(** ** Steps *)

Inductive delivery_step (s : Fleet) : Fleet -> Prop :=
| StepRegister fault peer p request : delivery_step s (RegisterJournals fault peer p request s).1
| StepAgent fault peer p journal : delivery_step s (RequireAgentJournal fault peer p journal s).1
| StepQueue fault id base : delivery_step s (QueueCreditUpdate fault id base s).1
| StepFetch fault fault' peer p request v : delivery_step s (FetchCredit fault fault' peer p request v s).1
| StepAckCredit fault fault' peer p batch : delivery_step s (AcknowledgeCredit fault fault' peer p batch s).1
| StepFleet s' : fleet_step s s' -> node_journals s' = node_journals s ->
    (forall k, runtime_identity <$> runtime_journals s' !! k = runtime_identity <$> runtime_journals s !! k) ->
    credit_updates (delivery s') ⊆ credit_updates (delivery s) -> delivery_step s s'.

Definition delivery_reachable (s : Fleet) : Prop := rtc delivery_step empty_fleet s.

Lemma delivery_fleet s s' : delivery_step s s' -> fleet_step s s'.
Proof.
  intros Hstep. inversion Hstep; subst; [..|done]; apply StepPanel, beside_panel.
  - apply (RegisterJournals_keeps (same main_view)); apply _.
  - apply (RequireAgentJournal_keeps (same main_view)); apply _.
  - unfold QueueCreditUpdate. case_match; [done|]. apply (keeps_Transaction (same main_view)), _.
  - apply (FetchCredit_keeps (same main_view)); apply _.
  - apply (AcknowledgeCredit_keeps (same main_view)); apply _.
Qed.
Lemma delivery_reaches s : delivery_reachable s -> reachable s.
Proof. intros H. eapply rtc_subrel; [|exact H]. apply delivery_fleet. Qed.

Lemma step_journals s s' : delivery_step s s' -> journals_kept s s'.
Proof.
  intros Hstep. inversion Hstep; subst.
  - apply (RegisterJournals_keeps journals_kept); apply _.
  - apply (RequireAgentJournal_keeps journals_kept); apply _.
  - unfold QueueCreditUpdate. case_match; [done|]. apply (keeps_Transaction journals_kept), _.
  - apply (FetchCredit_keeps journals_kept); apply _.
  - apply (AcknowledgeCredit_keeps journals_kept); apply _.
  - split; [rewrite H0; intros n row Hn; by exists row|]. intros k j Hj. specialize (H1 k). rewrite Hj in H1.
    destruct (runtime_journals s' !! k) as [j'|]; [|done]. exists j'. split; [done|]. cbn in H1. congruence.
Qed.

(** ** The outbox *)

Record row_ok (s : Fleet) (id : string) (r : FleetCreditUpdate) : Prop := {
  ro_id : cr_GrantID r = id;
  ro_check : credit_update_check r = true;
  ro_base : cr_Base r <= MaxInt64;
  ro_grant : exists g, grants s !! id = Some g /\ fg_Unlimited g = false /\
    place_of g = mkPlace (cr_NodeID r) (cr_InstallationID r) (cr_RuntimeID r) (cr_ClientID r) (cr_TermID r) /\
    cr_Revision r <= fg_Revision g /\ 0 < cr_Ceiling r <= IssuedBytes g;
  ro_journal : exists j, runtime_journals s !! (cr_NodeID r, cr_RuntimeID r) = Some j /\
    rj_StateJournalID j = cr_StateJournalID r /\ rj_CreditJournalID j = cr_CreditJournalID r }.
Definition outbox_ok (s : Fleet) : Prop := map_Forall (row_ok s) (credit_updates (delivery s)).

Lemma row_kept s s' id r : issued_more s s' -> journals_kept s s' -> row_ok s id r -> row_ok s' id r.
Proof.
  intros Hgrow [_ HJ] [R1 R2 R3 (g & G1 & G2 & G3 & G4 & G5) (j & J1 & J2 & J3)].
  destruct (Hgrow id g G1) as (g' & ? & ? & ? & ? & ?). destruct (HJ _ _ J1) as (j' & ? & E). injection E as E1 E2 E3 E4. split; [done..| |].
  - exists g'. split_and!; [done|congruence|congruence|lia|lia|lia].
  - exists j'. split_and!; [done|congruence|congruence].
Qed.
Lemma outbox_kept s s' : issued_more s s' -> journals_kept s s' -> credit_updates (delivery s') ⊆ credit_updates (delivery s) -> outbox_ok s -> outbox_ok s'.
Proof. intros Hg HJ Hsub Hs id r Hr. eapply row_kept; [done..|]. apply Hs. by eapply lookup_weaken. Qed.

(** Queueing writes the grant as it stands. *)
Lemma queue_row id base s u s' : grants_typed s -> base <= MaxInt64 -> queue_credit id base s = Ok (u, s') ->
  exists r, s' = set_credit_updates (<[cr_GrantID r := r]> (credit_updates (delivery s))) s /\ row_ok s (cr_GrantID r) r /\
  exists n, node_journals s !! cr_NodeID r = Some n /\ nj_RecoveryRequired n = false.
Proof.
  intros Ht Hbase H. unfold queue_credit in H. apply guard_ok in H as ([] & _ & H); [|apply _]. apply guard_ok in H as (s0 & [-> _]%tx_get_ok & H); [|apply _].
  apply guard_ok in H as (g & [Hg _]%tx_found_ok & H); [|apply _]. apply guard_ok in H as ([] & _ & H); [|apply _].
  apply guard_ok in H as ([] & [Hu _]%tx_refuse_ok & H); [|apply _]. apply orb_false_iff in Hu as [Hu _].
  apply guard_ok in H as (? & _ & H); [|apply _]. apply guard_ok in H as ([] & Hj & H); [|apply _].
  apply guard_ok in H as (node & _ & H); [|apply _]. apply guard_ok in H as ([] & _ & H); [|apply _].
  apply guard_ok in H as (j & [Hrj _]%tx_found_ok & H); [|apply _]. cbv zeta in H. destruct (Ht id g Hg) as (Hid & _ & _ & Hpos).
  set (incoming := mkCreditUpdate _ _ _ _ _ _ _ _ _ _ _ _ _) in H.
  assert (forall a c, save_credit_update (with_ack incoming a c) s = Ok (u, s') ->
    exists r, s' = set_credit_updates (<[cr_GrantID r := r]> (credit_updates (delivery s))) s /\ row_ok s (cr_GrantID r) r /\
    exists n, node_journals s !! cr_NodeID r = Some n /\ nj_RecoveryRequired n = false) as Hsave.
  { intros a c Hs. unfold save_credit_update in Hs. apply guard_ok in Hs as ([] & [Hc%negb_false_iff _]%tx_refuse_ok & Hs); [|apply _].
    apply guard_ok in Hs as (s0 & [-> _]%tx_get_ok & Hs); [|apply _]. apply tx_write_ok in Hs as ->. exists (with_ack incoming a c). split; [done|]. split.
    - split; [done|done|done| |].
      + exists g. cbn. rewrite Hid. split_and!; [done..|lia|by apply Hpos|lia].
      + exists j. done.
    - unfold RequireRuntimeJournalTx, requireNodeJournalTx in Hj. apply guard_ok in Hj as ([] & Hj & _); [|apply _].
      apply guard_ok in Hj as (s0 & [-> _]%tx_get_ok & Hj); [|apply _]. apply guard_ok in Hj as (n & [Hn _]%tx_found_ok & Hj); [|apply _].
      apply guard_ok in Hj as ([] & [Hh _]%tx_refuse_ok & _); [|apply _]. rewrite !orb_false_iff in Hh. exists n. cbn. tauto. }
  destruct (credit_updates (delivery s) !! fg_ID g) as [previous|]; [|by apply (Hsave 0 0)].
  apply guard_ok in H as ([] & _ & H); [|apply _]. destruct (_ =? _); [by eapply Hsave|by apply (Hsave 0 0)].
Qed.

Lemma fetch_sub v p q n s a s' : fetch_credit v p q n s = Ok (a, s') -> credit_updates (delivery s') ⊆ credit_updates (delivery s).
Proof.
  unfold fetch_credit. intros H. case_match; [by apply tx_ret_ok in H as [_ ->]|]. apply guard_ok in H as (s0 & [-> _]%tx_get_ok & H); [|apply _].
  case_match; [by apply tx_ret_ok in H as [_ ->]|]. cbv zeta in H. case_match; [by apply tx_ret_ok in H as [_ ->]|].
  do 3 (apply guard_ok in H as (? & _ & H); [|apply _]). case_match. apply tx_bind_ok in H as ([] & s1 & ->%tx_write_ok & [_ ->]%tx_ret_ok). cbn. apply map_filter_subseteq.
Qed.

Definition outbox_keeps (s s' : Fleet) : Prop := outbox_ok s -> outbox_ok s'.
#[global] Instance outbox_keeps_preorder : PreOrder outbox_keeps.
Proof. split; [by intros s Hs|]. intros x y z H1 H2 H. auto. Qed.

(** A transaction beside the outbox. *)
Lemma outbox_beside {A} (m : Tx A) : Beside m -> Keeps journals_kept m -> Keeps (same delivery) m -> Keeps outbox_keeps m.
Proof.
  intros H1 H2 H3 s a s' H Hs. apply (outbox_kept s); [|by eapply H2|by rewrite (H3 _ _ _ H)|done]. intros id g Hg. exists g.
  destruct (beside_fields _ _ (H1 _ _ _ H)) as (-> & _). done.
Qed.

#[global] Instance acknowledge_outbox p b u x : Keeps outbox_keeps (acknowledge_update p b u x).
Proof.
  unfold acknowledge_update. destruct x as [x|]; [|apply _]. apply (keeps_get outbox_keeps). intros s a s' H Hs.
  apply guard_ok in H as (row & [Hrow _]%tx_found_ok & H); [|apply _]. cbv zeta in H. apply guard_ok in H as ([] & _ & H); [|apply _].
  case_match; [by apply tx_ret_ok in H as [_ ->]|]. apply guard_ok in H as ([] & _ & H); [|apply _]. unfold save_credit_update in H.
  apply guard_ok in H as ([] & [Hc%negb_false_iff _]%tx_refuse_ok & H); [|apply _]. apply guard_ok in H as (s0 & [-> _]%tx_get_ok & H); [|apply _]. apply tx_write_ok in H as ->.
  intros id r Hr. cbn in Hr. pose proof (Hs _ _ Hrow) as [R1 R2 R3 R4 R5]. apply lookup_insert_Some in Hr as [[<- <-]|[_ Hr]].
  - split; [done..| |done]. cbn. by rewrite R1.
  - destruct (Hs id r Hr) as [Q1 Q2 Q3 Q4 Q5]. by split.
Qed.
#[global] Instance acknowledge_credit_outbox p b n : Keeps outbox_keeps (acknowledge_credit p b n).
Proof. unfold acknowledge_credit. apply _. Qed.

#[global] Instance hold_outbox_keeps p reason : Keeps outbox_keeps (holdNodeJournal p reason).
Proof. apply outbox_beside; apply _. Qed.
#[global] Instance create_node_outbox_keeps p j : Keeps outbox_keeps (create_node_journal p j).
Proof. apply outbox_beside; apply _. Qed.
#[global] Instance create_runtime_outbox_keeps p u j : Keeps outbox_keeps (create_runtime p u j).
Proof. apply outbox_beside; apply _. Qed.

#[global] Instance fetch_outbox v p q n : Keeps outbox_keeps (fetch_credit v p q n).
Proof.
  intros s a s' H Hs. pose proof (keeps_ok (same main_view) _ _ _ _ _ H) as E. apply (outbox_kept s); [|by apply (keeps_ok journals_kept) in H; [|apply _]|by eapply fetch_sub|done].
  intros id g Hg. exists g. destruct (beside_fields _ _ E) as (-> & _). done.
Qed.

Lemma delivery_outbox s s' : grants_typed s -> outbox_ok s -> delivery_step s s' -> grants_typed s' /\ outbox_ok s'.
Proof.
  intros Ht Hs Hstep. destruct (step_grown s s' (delivery_fleet _ _ Hstep) Ht) as [Ht' Hm]. split; [done|]. revert Hs. fold (outbox_keeps s s').
  inversion Hstep; subst.
  - apply (RegisterJournals_keeps outbox_keeps); apply _.
  - apply (RequireAgentJournal_keeps outbox_keeps); apply _.
  - unfold QueueCreditUpdate. case_match eqn:Hv; [done|]. apply (Transaction_cases fault _ s (fun s' => outbox_keeps s s')); [done|]. intros u s1 Hq Hs.
    rewrite !orb_false_iff, Z.ltb_ge in Hv. destruct Hv as [_ Hv]. apply queue_row in Hq as (r & -> & Hr & _); [|done|done]. intros k x. cbn. rewrite lookup_insert_Some.
    intros [[<- <-]|[_ Hx]]; [destruct Hr|destruct (Hs k x Hx)]; by split.
  - apply (FetchCredit_keeps outbox_keeps); apply _.
  - apply (AcknowledgeCredit_keeps outbox_keeps); apply _.
  - intros Hs. apply (outbox_kept s); [done|by eapply step_journals|done|done].
Qed.

Lemma delivery_invariant s : delivery_reachable s -> grants_typed s /\ outbox_ok s.
Proof.
  intros Hr. apply (rtc_ind_r (R := delivery_step) (fun s => grants_typed s /\ outbox_ok s) empty_fleet); [|intros y z _ Hstep []; by eapply delivery_outbox|done].
  split; [intros id g; cbn; by rewrite lookup_empty|apply map_Forall_empty].
Qed.
End Steps.
