(* ===== verification/FleetDelivered.v ===== *)
(** * What the control plane promises about credit and journals

    The credit a node is handed was issued to it, a batch it was handed is settled by
    acknowledging it, and a node held for recovery is issued nothing. *)
From S2P Require Import Prelude Limits Authority AuthorityWire Instances Spool Rates Fleet FleetLedger FleetRates FleetLifecycle FleetJournals FleetCredit FleetFacts FleetSpend FleetRuns FleetTheorems FleetTerms FleetPool FleetGrants FleetDelivery.
Open Scope Z_scope.
Open Scope list_scope.

Section Delivered.
Context {HU : UUIDs} {HS : WireDigests} {HW : Wire} {HD : LedgerDigests} {HR : RateDigests} {HC : LifecycleDigests}.

(** ** Reading a call that succeeded *)

#[global] Instance creditScope_ro peer p q : ReadOnly (creditScope peer p q).
Proof. unfold creditScope. apply _. Qed.

Lemma agent_journal_false peer p j s s' : agent_journal peer p j s = Ok (false, s') ->
  s' = s /\ lockAuthenticatedNode peer p s = Ok (tt, s) /\ requireNodeJournalTx (pNodeID p) (pInstallationID p) j s = Ok (tt, s).
Proof.
  unfold agent_journal. intros H. apply guard_ok in H as ([] & Hl & H); [|apply _]. apply guard_ok in H as (s0 & [-> _]%tx_get_ok & H); [|apply _].
  destruct (requireNodeJournalTx _ _ _ s) as [[[] s1]|e] eqn:E.
  - apply tx_ret_ok in H as [_ ->]. by apply read_only in E as E'; subst s1.
  - do 2 (case_match; [by apply tx_bind_ok in H as (? & ? & _ & [H _]%tx_ret_ok) || by apply tx_fail_ok in H|]).
    case_match; [by apply tx_bind_ok in H as (? & ? & _ & [H _]%tx_ret_ok)|by apply tx_fail_ok in H].
Qed.

Lemma RequireAgentJournal_ok fault peer p j s s' u : RequireAgentJournal fault peer p j s = (s', Ok u) ->
  s' = s /\ RequireAgentJournal None peer p j s = (s, Ok tt) /\ lockAuthenticatedNode peer p s = Ok (tt, s) /\
  requireNodeJournalTx (pNodeID p) (pInstallationID p) j s = Ok (tt, s).
Proof.
  unfold RequireAgentJournal. destruct (negb (ValidID j)); [done|]. unfold Transaction. destruct fault; [done|].
  destruct (agent_journal peer p j s) as [[[] s1]|e] eqn:E; intros [= <- <-]. by apply agent_journal_false in E as (-> & ? & ?).
Qed.

Lemma scoped_some {A} peer p q (body : FleetNode -> Tx (option A)) s a s' : scoped peer p q body s = Ok (Some a, s') ->
  exists node, creditScope peer p q s = Ok (node, s) /\ body node s = Ok (Some a, s').
Proof.
  unfold scoped. intros H. apply guard_ok in H as (s0 & [-> _]%tx_get_ok & H); [|apply _]. destruct (creditScope peer p q s) as [[node s1]|e] eqn:E.
  - apply read_only in E as E'. subst s1. eauto.
  - case_bool_decide; [|by apply tx_fail_ok in H]. by apply tx_bind_ok in H as (? & ? & _ & [H _]%tx_ret_ok).
Qed.

(** What [creditScope] checked. *)
Lemma creditScope_ok peer p q s node s' : creditScope peer p q s = Ok (node, s') ->
  RecoveryRequired (fence s) = false /\ ~ is_held s (pNodeID p) /\ nodes s !! pNodeID p = Some node /\
  exists j, runtime_journals s !! (pNodeID p, RuntimeId q) = Some j /\ rj_StateJournalID j = StateJournalId q /\ rj_CreditJournalID j = CreditJournalId q.
Proof.
  unfold creditScope. intros H. apply guard_ok in H as ([] & Ha & H); [|apply _]. apply guard_ok in H as ([] & _ & H); [|apply _].
  apply guard_ok in H as ([] & Hj & H); [|apply _]. apply guard_ok in H as (s0 & [-> _]%tx_get_ok & H); [|apply _].
  apply guard_ok in H as (j & [Hr _]%tx_found_ok & H); [|apply _]. apply guard_ok in H as ([] & [Hs _]%tx_refuse_ok & H); [|apply _].
  apply tx_found_ok in H as [Hn _]. unfold lockAuthority in Ha. apply guard_ok in Ha as (s0 & [-> _]%tx_get_ok & [Hf _]%tx_refuse_ok); [|apply _].
  rewrite !orb_false_iff, !negb_false_iff, !bool_decide_eq_true in Hs. split; [done|]. split; [|split; [done|exists j; tauto]].
  unfold requireNodeJournalTx in Hj. apply guard_ok in Hj as (s0 & [-> _]%tx_get_ok & Hj); [|apply _].
  apply guard_ok in Hj as (n & [Hj' _]%tx_found_ok & Hj); [|apply _]. apply guard_ok in Hj as ([] & [Hh _]%tx_refuse_ok & _); [|apply _].
  rewrite !orb_false_iff in Hh. intros (row & Hrow & Hheld). rewrite Hj' in Hrow. injection Hrow as <-. destruct Hh as [[Hh _] _]. congruence.
Qed.

Lemma FetchCredit_ok fault fault' peer p request v s s' b : FetchCredit fault fault' peer p request v s = (s', Ok b) ->
  exists q node, request = Some q /\ ValidateCreditRequest (Some q) = Ok tt /\ pNodeID p = NodeId q /\ pInstallationID p = InstallationId q /\
  RequireAgentJournal None peer p (AgentStateJournalId q) s = (s, Ok tt) /\ creditScope peer p q s = Ok (node, s) /\ fetch_credit v p q node s = Ok (Some b, s').
Proof.
  unfold FetchCredit. destruct request as [q|]; [|done]. destruct (ValidateCreditRequest (Some q)) as [[]|] eqn:Ev; [|done].
  destruct (Require p (NodeId q) (InstallationId q)) eqn:Er; [|done]. cbn [is_ok negb orb].
  destruct (RequireAgentJournal fault peer p (AgentStateJournalId q) s) as [s1 [u|e]] eqn:Ea; [|done]. apply RequireAgentJournal_ok in Ea as (-> & Ea & _).
  unfold Transaction. destruct fault'; [done|]. destruct (scoped peer p q (fetch_credit v p q) s) as [[[b'|] s2]|e] eqn:Es; intros [= <- <-].
  apply scoped_some in Es as (node & Hc & Hf). unfold Require in Er. rewrite andb_true_iff, !bool_decide_eq_true in Er. destruct Er. exists q, node. done.
Qed.

(** ** Batches *)


Lemma due_in s p rt base r : outbox_ok s -> r ∈ due s p rt base ->
  credit_updates (delivery s) !! cr_GrantID r = Some r /\ row_ok s (cr_GrantID r) r /\
  cr_NodeID r = pNodeID p /\ cr_InstallationID r = pInstallationID p /\ cr_RuntimeID r = rt /\ cr_Base r = base /\ cr_AckRevision r < cr_Revision r.
Proof.
  intros Hs Hr. unfold due in Hr. apply elem_of_take in Hr as (i & Hr & _). apply list_elem_of_lookup_2 in Hr. rewrite merge_sort_Permutation in Hr.
  apply list_elem_of_filter in Hr as [H Hr]. apply list_elem_of_fmap in Hr as ([k x] & -> & Hx). apply elem_of_map_to_list in Hx. cbn [snd] in *.
  pose proof (Hs k x Hx) as Hrow. pose proof (ro_id _ _ _ Hrow) as E. rewrite E. done.
Qed.

Lemma due_nodup s p rt base : outbox_ok s -> NoDup (cr_GrantID <$> due s p rt base) /\ (length (due s p rt base) <= 32)%nat.
Proof.
  intros Hs. unfold due. split; [|rewrite length_take; lia]. rewrite fmap_take. eapply sublist_NoDup; [|apply sublist_take].
  rewrite merge_sort_Permutation. apply NoDup_fmap_filter.
  assert (cr_GrantID <$> (map_to_list (credit_updates (delivery s))).*2 = (map_to_list (credit_updates (delivery s))).*1) as ->; [|apply NoDup_fst_map_to_list].
  rewrite <-list_fmap_compose. apply list_fmap_ext. intros i [k r] Hk. apply list_elem_of_lookup_2, elem_of_map_to_list in Hk. cbn. by apply (ro_id s), Hs.
Qed.

Lemma sort_updates q allowed l : forall acc out, foldM (sort_update q allowed) acc l = Ok out ->
  out.1 = acc.1 ++ filter (fun r => cr_GrantID r ∈ allowed) l /\ out.2 = acc.2 ++ (cr_GrantID <$> filter (fun r => cr_GrantID r ∉ allowed) l) /\
  forall r, r ∈ l -> cr_GrantID r ∈ allowed -> cr_StateJournalID r = StateJournalId q /\ cr_CreditJournalID r = CreditJournalId q.
Proof.
  induction l as [|x l IH]; intros acc out H; cbn [foldM] in H.
  { injection H as <-. cbn. rewrite !app_nil_r. split_and!; [done..|]. by intros r ?%elem_of_nil. }
  destruct (sort_update q allowed acc x) as [a1|] eqn:E; [|done]. apply IH in H as (H1 & H2 & H3). unfold sort_update in E. rewrite !filter_cons.
  case_bool_decide as Hin; cbn [negb] in E.
  - destruct (negb _ || _) eqn:Ej; [done|]. injection E as <-. rewrite orb_false_iff, !negb_false_iff, !bool_decide_eq_true in Ej. cbn in H1, H2.
    rewrite decide_True, decide_False by (done || tauto). split_and!; [by rewrite H1, <-app_assoc|done|]. intros r [-> |Hr]%elem_of_cons Ha; [done|by apply H3].
  - injection E as <-. cbn in H1, H2. rewrite decide_False, decide_True by done. split_and!; [done|by rewrite H2, <-app_assoc|].
    intros r [-> |Hr]%elem_of_cons Ha; [done|by apply H3].
Qed.

(** A batch is empty, or made of rows that are due and stay in the outbox. *)
Record handed (s s' : Fleet) (p : Principal) (q : RuntimeScope) (node : FleetNode) (b : CreditUpdateBatch) (kept : list FleetCreditUpdate) : Prop := {
  ha_applied : AppliedRevision node <> 0 /\ DesiredRevision node = AppliedRevision node;
  ha_batch : b = mkCreditBatch q (AppliedRevision node) (Some <$> (wire_update <$> kept));
  ha_some : kept <> [];
  ha_few : NoDup (cr_GrantID <$> kept) /\ (length kept <= 32)%nat;
  ha_rows : forall r, r ∈ kept -> r ∈ due s p (RuntimeId q) (AppliedRevision node) /\ cr_StateJournalID r = StateJournalId q /\
    cr_CreditJournalID r = CreditJournalId q /\ credit_updates (delivery s') !! cr_GrantID r = Some r }.

Lemma fetched v p q node s b s' : outbox_ok s -> fetch_credit v p q node s = Ok (Some b, s') ->
  b = mkCreditBatch q 0 [] \/ exists kept, handed s s' p q node b kept.
Proof.
  intros Hs H. unfold fetch_credit in H. cbv zeta in H. destruct ((AppliedRevision node =? 0) || _) eqn:Ea; [apply tx_ret_ok in H as [[= ->] _]; by left|].
  apply guard_ok in H as (s0 & [-> _]%tx_get_ok & H); [|apply _]. case_match; [apply tx_ret_ok in H as [[= ->] _]; by left|].
  case_match eqn:Ed; [apply tx_ret_ok in H as [[= ->] _]; by left|]. clear Ed. apply guard_ok in H as (val & _ & H); [|apply _].
  apply guard_ok in H as (allowed & _ & H); [|apply _]. apply guard_ok in H as ([kept discarded] & [Hsort _]%tx_lift_ok & H); [|apply _].
  apply tx_bind_ok in H as ([] & s1 & ->%tx_write_ok & H). apply tx_ret_ok in H as [Hb ->]. apply sort_updates in Hsort as (Hk & Hd & Hj). cbn in Hk, Hd.
  injection Hb as ->. case_bool_decide as Hne; [by left|right]. exists kept. subst kept discarded.
  rewrite orb_false_iff, Z.eqb_neq, negb_false_iff, Z.eqb_eq in Ea. destruct (due_nodup s p (RuntimeId q) (AppliedRevision node) Hs) as [Hnd Hlen].
  split; [by destruct Ea|done|done| |].
  - split; [by apply NoDup_fmap_filter|]. etrans; [apply length_filter|done].
  - intros r [Hin Hr]%list_elem_of_filter. destruct (Hj r Hr Hin) as [? ?]. split_and!; [done..|]. cbn. apply map_lookup_filter_Some.
    split; [by apply (due_in s p (RuntimeId q) (AppliedRevision node))|]. cbn. intros (x & E & [Hx _]%list_elem_of_filter)%list_elem_of_fmap. congruence.
Qed.

(** Credits that pass the node's validation. *)
Lemma validate_credits_ok l : forall seen, NoDup (cGrantID <$> l) -> (forall c, c ∈ l -> cGrantID c ∉ seen) ->
  (forall c, c ∈ l -> ValidID (cGrantID c) = true /\ ValidID (cClientID c) = true /\ ValidID (cTermID c) = true /\
     0 < cPolicyRevision c <= MaxInt64 /\ 0 < cCreditRevision c <= MaxInt64 /\ 0 < cCreditCeiling c <= MaxInt64) -> validate_credits seen l = Ok tt.
Proof.
  induction l as [|c l IH]; intros seen Hnd Hseen Hok; [done|]. cbn [validate_credits]. rewrite fmap_cons, NoDup_cons in Hnd. destruct Hnd as [Hc Hnd].
  destruct (Hok c) as (-> & -> & -> & H1 & H2 & H3); [by left|]. cbn [negb orb].
  rewrite !(proj2 (Z.eqb_neq _ _)), !(proj2 (Z.ltb_ge _ _)), bool_decide_eq_false_2 by (lia || (apply Hseen; by left)). cbn [orb]. apply IH; [done| |].
  - intros c' Hc'. apply not_elem_of_union. split; [|by apply Hseen; right]. intros E%elem_of_singleton. apply Hc, list_elem_of_fmap. eauto.
  - intros c' Hc'. apply Hok. by right.
Qed.

Definition credit_of (base : Z) (u : CreditUpdate) : Credit := mkCredit (wGrantId u) (wClientId u) (wTermId u) base (wCreditRevision u) (wCreditCeiling u).
Lemma credits_some base l : forall acc, credits_from base acc (Some <$> l) = acc ++ (credit_of base <$> l).
Proof. induction l as [|u l IH]; intros acc; cbn; [by rewrite app_nil_r|]. rewrite IH. by rewrite <-app_assoc. Qed.

(** The rows of a batch, as the node will read them. *)
Lemma handed_valid s s' p q node b kept : delivery_reachable s -> ValidateCreditRequest (Some q) = Ok tt -> handed s s' p q node b kept ->
  forall allow, ValidateCreditBatch (Some b) allow = Ok tt.
Proof.
  intros Hr Hq [[Ha1 Ha2] -> Hne [Hnd Hlen] Hrows] allow. destruct (delivery_invariant s Hr) as [Ht Ho]. pose proof (reachable_ledger s (delivery_reaches s Hr)) as [_ L2 _ _ _ _].
  unfold ValidateCreditBatch. cbn [cbScope Updates BaseConfigurationRevision]. rewrite Hq. cbn [mbind result_bind]. rewrite bool_decide_eq_false_2 by (by destruct kept).
  cbn [andb]. unfold Credits. cbn [BaseConfigurationRevision Updates]. rewrite credits_some. cbn [app]. unfold ValidateCredits. rewrite !length_fmap.
  rewrite !bool_decide_eq_false_2 by (unfold MaxCreditUpdates; try lia; by destruct kept). cbn [orb]. apply validate_credits_ok.
  - rewrite <-!list_fmap_compose. done.
  - intros c _. apply not_elem_of_empty.
  - intros c (u & -> & (r & -> & Hkept)%list_elem_of_fmap)%list_elem_of_fmap. destruct (Hrows r Hkept) as (Hdue & _).
    apply due_in in Hdue as (_ & [R1 R2 R3 (g & G1 & G2 & G3 & G4 & G5) _] & _ & _ & _ & Hbase & _); [|done].
    destruct (Ht _ _ G1) as (_ & Hid & (_ & _ & _ & Hcl & Htm) & _). rewrite G3 in Hcl, Htm. destruct (L2 _ _ G1) as [(_ & ? & ? & _) _].
    unfold credit_update_check in R2. rewrite !andb_true_iff, !Z.ltb_lt, !Z.leb_le in R2. cbn. split_and!; [done..|lia|lia|lia|lia|lia|lia].
Qed.

(** C12: The credit a node is handed was issued to it.  Whatever a fetch of credit answers, in
    any state the control plane reaches, the batch passes the node's own validation; the
    fleet is not in recovery and the node is not held; and every update in it names a
    limited grant of that node, installation and runtime, with its client and term, and
    gives no more than was issued to the grant and no later a revision. *)
Theorem handed_out_credit_is_issued s fault fault' peer p request v s' b :
  delivery_reachable s -> FetchCredit fault fault' peer p request v s = (s', Ok b) ->
  let q := cbScope b in
  request = Some q /\ pNodeID p = NodeId q /\ ValidateCreditBatch (Some b) true = Ok tt /\ RecoveryRequired (fence s') = false /\ ~ is_held s' (NodeId q) /\
  forall o, o ∈ Updates b -> exists u g, o = Some u /\ grants s' !! wGrantId u = Some g /\ fg_Unlimited g = false /\
    place_of g = mkPlace (NodeId q) (InstallationId q) (RuntimeId q) (wClientId u) (wTermId u) /\
    0 < wCreditRevision u <= fg_Revision g /\ 0 < wCreditCeiling u <= IssuedBytes g.
Proof.
  intros Hr Hf. apply FetchCredit_ok in Hf as (q & node & -> & Hq & Hn & Hi & _ & Hscope & Hf). apply creditScope_ok in Hscope as (Hfence & Hheld & _).
  pose proof (keeps_ok (same main_view) _ _ _ _ _ Hf) as Hmain. pose proof (keeps_ok (same (fun s => (main_view s, journals_of s))) _ _ _ _ _ Hf) as Hjour.
  assert (node_journals s' = node_journals s) as Enj by exact (f_equal (fun x => fst (snd x)) Hjour).
  destruct (beside_fields _ _ Hmain) as (Eg & Ef & _). destruct (delivery_invariant s Hr) as [Ht Ho].
  assert (RecoveryRequired (fence s') = false /\ ~ is_held s' (NodeId q)) as [E1 E2] by (unfold is_held in *; rewrite Ef, Enj, <-Hn; done).
  apply fetched in Hf as [-> |(kept & Hk)]; [| |done].
  - cbn [cbScope Updates]. split_and!; [done|done|unfold ValidateCreditBatch; cbn [cbScope]; by rewrite Hq|done|done|]. by intros o ?%elem_of_nil.
  - pose proof (handed_valid _ _ _ _ _ _ _ Hr Hq Hk true) as Hv. destruct Hk as [_ -> _ _ Hrows]. cbn [cbScope]. split_and!; [done..|].
    cbn [Updates]. intros o (u & -> & (r & -> & Hin)%list_elem_of_fmap)%list_elem_of_fmap. exists (wire_update r). destruct (Hrows r Hin) as (Hdue & _).
    apply due_in in Hdue as (_ & [R1 R2 R3 (g & G1 & G2 & G3 & G4 & G5) _] & D1 & D2 & D3 & _); [|done]. exists g. rewrite Eg. cbn.
    unfold credit_update_check in R2. rewrite !andb_true_iff, !Z.ltb_lt, !Z.leb_le in R2. rewrite G3, <-Hn, <-Hi, D1, D2, D3. split_and!; try done; lia.
Qed.

(** ** Acknowledging *)

Lemma requireNodeJournalTx_frame n i j s s' : node_journals s' = node_journals s ->
  requireNodeJournalTx n i j s = Ok (tt, s) -> requireNodeJournalTx n i j s' = Ok (tt, s').
Proof.
  intros E. unfold requireNodeJournalTx, get, refuse, found, mbind, Tx_bind. rewrite E. destruct (node_journals s !! n) as [row|]; [|done].
  destruct (nj_RecoveryRequired row || _ || _); [done|]. by destruct (negb _ && _).
Qed.
Lemma RequireAgentJournal_frame peer p j s s' : nodes s' = nodes s -> node_journals s' = node_journals s ->
  RequireAgentJournal None peer p j s = (s, Ok tt) -> RequireAgentJournal None peer p j s' = (s', Ok tt).
Proof.
  intros En Ej H. pose proof H as (_ & _ & Hl & Hq)%RequireAgentJournal_ok. apply (lockAuthenticatedNode_frame _ _ _ s') in Hl; [|done].
  apply (requireNodeJournalTx_frame _ _ _ _ s') in Hq; [|done]. revert H. unfold RequireAgentJournal. destruct (negb (ValidID j)); [done|]. intros _.
  unfold Transaction, agent_journal, get, mbind, Tx_bind. rewrite Hl. cbv beta iota. by rewrite Hq.
Qed.
Lemma creditScope_frame peer p q s s' node : fence s' = fence s -> nodes s' = nodes s -> journals_of s' = journals_of s ->
  creditScope peer p q s = Ok (node, s) -> creditScope peer p q s' = Ok (node, s').
Proof.
  intros Ef En [= Ej Er]. unfold creditScope. intros H. apply guard_ok in H as ([] & Ha & H); [|apply _]. apply guard_ok in H as ([] & Hl & H); [|apply _].
  apply guard_ok in H as ([] & Hj & H); [|apply _]. apply (lockAuthority_frame _ s') in Ha; [|done]. apply (lockAuthenticatedNode_frame _ _ _ s') in Hl; [|done].
  apply (requireNodeJournalTx_frame _ _ _ _ s') in Hj; [|done]. apply tx_bind_ok. exists tt, s'. split; [done|]. apply tx_bind_ok. exists tt, s'. split; [done|].
  apply tx_bind_ok. exists tt, s'. split; [done|]. revert H. unfold get, found, refuse, mbind, Tx_bind. rewrite Er, En.
  destruct (runtime_journals s !! _) as [j|]; [|done]. destruct (negb _ || _ || _); [done|]. destruct (nodes s !! pNodeID p); [|done]. by intros [= ->].
Qed.

(** A row the batch speaks of. *)
Definition spoken (p : Principal) (b : CreditUpdateBatch) (r : FleetCreditUpdate) : Prop :=
  cr_NodeID r = pNodeID p /\ cr_InstallationID r = pInstallationID p /\ cr_RuntimeID r = RuntimeId (cbScope b) /\
  cr_StateJournalID r = StateJournalId (cbScope b) /\ cr_CreditJournalID r = CreditJournalId (cbScope b) /\ cr_Base r = BaseConfigurationRevision b /\
  credit_update_check r = true.
Definition acked (r : FleetCreditUpdate) : FleetCreditUpdate := with_ack r (cr_Revision r) (cr_Ceiling r).
Lemma acked_check r : credit_update_check r = true -> credit_update_check (acked r) = true.
Proof. unfold credit_update_check. cbn. rewrite !andb_true_iff, !Z.ltb_lt, !Z.leb_le. lia. Qed.

Lemma set_credit_updates_id s : set_credit_updates (credit_updates (delivery s)) s = s.
Proof. unfold set_credit_updates, set_delivery. destruct s as []. cbn. f_equal. by match goal with |- _ = ?d => destruct d end. Qed.

Lemma acknowledge_row p b r row s : spoken p b r -> row = r \/ row = acked r -> credit_updates (delivery s) !! cr_GrantID r = Some row ->
  acknowledge_update p b tt (Some (wire_update r)) s = Ok (tt, s) /\ row = acked r \/
  acknowledge_update p b tt (Some (wire_update r)) s = Ok (tt, set_credit_updates (<[cr_GrantID r := acked r]> (credit_updates (delivery s))) s).
Proof.
  intros (S1 & S2 & S3 & S4 & S5 & S6 & S7) Hrow Hr. unfold acknowledge_update, get, found, refuse, save_credit_update, mbind, Tx_bind. cbv zeta.
  change (wGrantId (wire_update r)) with (cr_GrantID r). rewrite Hr. cbv beta iota.
  assert ((negb (bool_decide (cr_NodeID row = pNodeID p)) || negb (bool_decide (cr_InstallationID row = pInstallationID p)) ||
    negb (bool_decide (cr_RuntimeID row = RuntimeId (cbScope b))) || negb (bool_decide (cr_ClientID row = wClientId (wire_update r))) ||
    negb (bool_decide (cr_TermID row = wTermId (wire_update r))) || negb (bool_decide (cr_StateJournalID row = StateJournalId (cbScope b))) ||
    negb (bool_decide (cr_CreditJournalID row = CreditJournalId (cbScope b))) || negb (cr_Base row =? BaseConfigurationRevision b)) = false) as ->.
  { rewrite !orb_false_iff, !negb_false_iff, !bool_decide_eq_true, Z.eqb_eq. destruct Hrow as [-> | ->]; done. }
  destruct Hrow as [-> | ->].
  - cbn [wire_update wCreditRevision wCreditCeiling]. destruct ((cr_AckRevision r =? cr_Revision r) && (cr_AckCeiling r =? cr_Ceiling r)) eqn:E.
    + left. split; [done|]. apply andb_true_iff in E as [E1%Z.eqb_eq E2%Z.eqb_eq]. unfold acked. rewrite <-E1, <-E2 at 1. by destruct r.
    + right. rewrite !Z.eqb_refl. cbn [negb orb]. fold (acked r). by rewrite acked_check.
  - left. cbn [wire_update acked with_ack wCreditRevision wCreditCeiling cr_AckRevision cr_AckCeiling]. by rewrite !Z.eqb_refl.
Qed.

Lemma acknowledge_rows p b l : NoDup (cr_GrantID <$> l) -> forall s,
  (forall r, r ∈ l -> spoken p b r /\ (credit_updates (delivery s) !! cr_GrantID r = Some r \/ credit_updates (delivery s) !! cr_GrantID r = Some (acked r))) ->
  exists s', foldTx (acknowledge_update p b) tt (Some <$> (wire_update <$> l)) s = Ok (tt, s') /\
  (forall r, r ∈ l -> credit_updates (delivery s') !! cr_GrantID r = Some (acked r)) /\
  (forall id, id ∉ (cr_GrantID <$> l) -> credit_updates (delivery s') !! id = credit_updates (delivery s) !! id) /\
  ((forall r, r ∈ l -> credit_updates (delivery s) !! cr_GrantID r = Some (acked r)) -> s' = s).
Proof.
  induction l as [|r l IH]; intros Hnd s Hl. { exists s. split; [done|]. split_and!; [by intros r ?%elem_of_nil|done|done]. }
  rewrite fmap_cons, NoDup_cons in Hnd. destruct Hnd as [Hr Hnd]. destruct (Hl r) as [Hsp Hrow]; [by left|].
  assert (exists s1, acknowledge_update p b tt (Some (wire_update r)) s = Ok (tt, s1) /\ credit_updates (delivery s1) !! cr_GrantID r = Some (acked r) /\
    (forall id, id <> cr_GrantID r -> credit_updates (delivery s1) !! id = credit_updates (delivery s) !! id) /\
    (credit_updates (delivery s) !! cr_GrantID r = Some (acked r) -> s1 = s)) as (s1 & H1 & H2 & H3 & H4).
  { destruct (acknowledge_row p b r (default r (credit_updates (delivery s) !! cr_GrantID r)) s) as [[Ha E]|Ha]; [done| | | |].
    - destruct Hrow as [-> | ->]; auto.
    - by destruct Hrow as [-> | ->].
    - exists s. split_and!; try done. destruct Hrow as [Hrow|Hrow]; rewrite Hrow in *; cbn in E; congruence.
    - exists (set_credit_updates (<[cr_GrantID r := acked r]> (credit_updates (delivery s))) s). split_and!; [done|by cbn; rewrite lookup_insert_eq| |].
      + intros id Hne. cbn. by rewrite lookup_insert_ne.
      + intros E. rewrite insert_id by done. apply set_credit_updates_id. }
  destruct (IH Hnd s1) as (s2 & G1 & G2 & G3 & G4).
  { intros x Hx. rewrite H3; [by apply Hl; right|]. intros E. apply Hr, list_elem_of_fmap. eauto. }
  exists s2. split; [cbn [fmap list_fmap]; apply foldTx_cons; eauto|]. split_and!.
  - intros x [-> |Hx]%elem_of_cons; [|by apply G2]. by rewrite G3.
  - intros id [Hne Hid]%not_elem_of_cons. rewrite G3, H3; done.
  - intros Hall. rewrite <-H4 at 1 by (apply Hall; by left). apply G4. intros x Hx. rewrite H3; [apply Hall; by right|]. intros E. apply Hr, list_elem_of_fmap. eauto.
Qed.

(** Acknowledging a batch that is valid, in scope and speaks of rows that are there. *)
Lemma acknowledge_settles peer p b d node kept s :
  ValidateCreditBatch (Some b) false = Ok tt -> pNodeID p = NodeId (cbScope b) -> pInstallationID p = InstallationId (cbScope b) -> credit_batch_digest b = Ok d ->
  RequireAgentJournal None peer p (AgentStateJournalId (cbScope b)) s = (s, Ok tt) -> creditScope peer p (cbScope b) s = Ok (node, s) ->
  AppliedRevision node = BaseConfigurationRevision b -> DesiredRevision node = AppliedRevision node ->
  Updates b = Some <$> (wire_update <$> kept) -> NoDup (cr_GrantID <$> kept) ->
  (forall r, r ∈ kept -> spoken p b r /\ (credit_updates (delivery s) !! cr_GrantID r = Some r \/ credit_updates (delivery s) !! cr_GrantID r = Some (acked r))) ->
  exists s', AcknowledgeCredit None None peer p (Some b) s = (s', Ok d) /\ same (fun s => (main_view s, journals_of s)) s s' /\
  (forall r, r ∈ kept -> credit_updates (delivery s') !! cr_GrantID r = Some (acked r)) /\
  (forall id, id ∉ (cr_GrantID <$> kept) -> credit_updates (delivery s') !! id = credit_updates (delivery s) !! id) /\
  ((forall r, r ∈ kept -> credit_updates (delivery s) !! cr_GrantID r = Some (acked r)) -> s' = s).
Proof.
  intros Hv Hn Hi Hd Ha Hs Hb1 Hb2 Hu Hnd Hrows. destruct (acknowledge_rows p b kept Hnd s Hrows) as (s' & Hf & H1 & H2 & H3). exists s'.
  assert (acknowledge_credit p b node s = Ok (Some tt, s')) as Hack.
  { unfold acknowledge_credit. rewrite Hu, Hb2, Hb1, !Z.eqb_refl. cbn [negb orb]. apply tx_bind_ok. exists tt, s. split; [done|]. apply tx_bind_ok. exists tt, s'. done. }
  split_and!; [|by apply (keeps_ok (same (fun s => (main_view s, journals_of s)))) in Hack; [|apply _]|done..].
  unfold AcknowledgeCredit. rewrite Hv. cbn [is_ok negb]. unfold Require. rewrite !bool_decide_eq_true_2 by done. cbn [andb negb]. rewrite Hd, Ha.
  unfold Transaction, scoped, get, mbind, Tx_bind. rewrite Hs. cbv beta iota. by rewrite Hack.
Qed.

(** C13: A batch of credit is settled by acknowledging it.  Acknowledging a batch that was
    fetched succeeds with the batch's digest, marks every update of it as received at the
    revision and the ceiling it was sent with, leaves every other row alone, and takes
    the whole batch off what is due; acknowledging it again changes nothing. *)
Theorem acknowledged_credit_is_settled s fault fault' peer p request v s' b d :
  delivery_reachable s -> FetchCredit fault fault' peer p request v s = (s', Ok b) -> Updates b <> [] -> credit_batch_digest b = Ok d ->
  exists s'', AcknowledgeCredit None None peer p (Some b) s' = (s'', Ok d) /\ AcknowledgeCredit None None peer p (Some b) s'' = (s'', Ok d) /\
  (forall u, Some u ∈ Updates b -> exists r, credit_updates (delivery s'') !! wGrantId u = Some r /\
     cr_AckRevision r = wCreditRevision u /\ cr_AckCeiling r = wCreditCeiling u /\ forall rt base, r ∉ due s'' p rt base) /\
  (forall id, (forall u, Some u ∈ Updates b -> wGrantId u <> id) -> credit_updates (delivery s'') !! id = credit_updates (delivery s') !! id).
Proof.
  intros Hr Hfetch Hne Hd. pose proof (StepFetch s fault fault' peer p request v) as Hstep. rewrite Hfetch in Hstep. cbn [fst] in Hstep.
  apply FetchCredit_ok in Hfetch as (q & node & -> & Hq & Hn & Hi & Ha & Hscope & Hf).
  pose proof (keeps_ok (same (fun s => (main_view s, journals_of s))) _ _ _ _ _ Hf) as Hsame. destruct (delivery_invariant s Hr) as [_ Ho].
  apply fetched in Hf as [-> |(kept & Hk)]; [done| |done]. pose proof (handed_valid _ _ _ _ _ _ _ Hr Hq Hk false) as Hv.
  destruct Hk as [[_ Hb2] -> _ [Hnd _] Hrows]. set (b := mkCreditBatch q (AppliedRevision node) (Some <$> (wire_update <$> kept))) in *.
  assert (forall x, same (fun s => (main_view s, journals_of s)) s x ->
    RequireAgentJournal None peer p (AgentStateJournalId q) x = (x, Ok tt) /\ creditScope peer p q x = Ok (node, x)) as Hframe.
  { intros x Hx. destruct (beside_fields _ _ (f_equal fst Hx)) as (_ & Ef & En). pose proof (f_equal snd Hx) as Ej. cbn in Ej. split.
    - eapply RequireAgentJournal_frame; [exact En|by injection Ej|done].
    - by eapply creditScope_frame. }
  assert (forall r, r ∈ kept -> spoken p b r) as Hsp.
  { intros r Hin. destruct (Hrows r Hin) as (Hdue & ? & ? & _). apply due_in in Hdue as (_ & [R1 R2 R3 R4 R5] & D1 & D2 & D3 & D4 & _); [|done]. by split_and!. }
  destruct (Hframe s' Hsame) as [Ha1 Hs1].
  destruct (acknowledge_settles peer p b d node kept s' Hv Hn Hi Hd Ha1 Hs1 eq_refl Hb2 eq_refl Hnd) as (s'' & H1 & H2 & H3 & H4 & _).
  { intros r Hin. split; [by apply Hsp|]. left. by apply Hrows. }
  destruct (Hframe s'') as [Ha2 Hs2]; [by etrans|].
  destruct (acknowledge_settles peer p b d node kept s'' Hv Hn Hi Hd Ha2 Hs2 eq_refl Hb2 eq_refl Hnd) as (s3 & G1 & _ & _ & _ & G5).
  { intros r Hin. split; [by apply Hsp|]. right. by apply H3. }
  assert (s3 = s'') as -> by by apply G5.
  assert (outbox_ok s'') as Ho''.
  { apply delivery_invariant. eapply rtc_r; [eapply rtc_r; [exact Hr|exact Hstep]|]. pose proof (StepAckCredit s' None None peer p (Some b)) as Hs. by rewrite H1 in Hs. }
  exists s''. split_and!; [done..| |].
  - intros u (x & [= ->] & (r & -> & Hin)%list_elem_of_fmap)%list_elem_of_fmap. exists (acked r). split_and!; [by apply H3|done|done|].
    intros rt base Hdue. apply due_in in Hdue as (_ & _ & _ & _ & _ & _ & Hlt); [|done]. cbn in Hlt. lia.
  - intros id Hid. apply H4. intros (r & -> & Hin)%list_elem_of_fmap. apply (Hid (wire_update r)); [|done]. apply list_elem_of_fmap. exists (wire_update r).
    split; [done|]. apply list_elem_of_fmap. eauto.
Qed.

(** ** Held nodes *)

Lemma held_agent fault peer p j s : is_held s (pNodeID p) -> exists e, RequireAgentJournal fault peer p j s = (s, Fail e).
Proof.
  intros (row & Hrow & Hheld). unfold RequireAgentJournal. case_match; [eauto|]. unfold Transaction. destruct fault; [eauto|].
  destruct (agent_journal peer p j s) as [[held s1]|e] eqn:E; [|eauto]. exists ErrRecovery. unfold agent_journal in E.
  apply guard_ok in E as ([] & _ & E); [|apply _]. apply guard_ok in E as (s0 & [-> _]%tx_get_ok & E); [|apply _].
  assert (requireNodeJournalTx (pNodeID p) (pInstallationID p) j s = Fail ErrRecovery) as Er.
  { unfold requireNodeJournalTx, get, found, refuse, mbind, Tx_bind. by rewrite Hrow, Hheld. }
  rewrite Er, bool_decide_eq_true_2 in E by done. apply tx_bind_ok in E as ([] & s2 & E & [-> ->]%tx_ret_ok). unfold holdNodeJournal in E.
  apply guard_ok in E as (s0 & [-> _]%tx_get_ok & E); [|apply _]. apply tx_write_ok in E as ->. rewrite Hrow, Hheld, insert_id; [by destruct s|].
  rewrite Hrow. by destruct row; cbn in *; subst.
Qed.
Lemma held_fetch fault fault' peer p request v s : is_held s (pNodeID p) -> exists e, FetchCredit fault fault' peer p request v s = (s, Fail e).
Proof.
  intros Hh. unfold FetchCredit. destruct request as [q|]; [|eauto]. case_match; [eauto|].
  destruct (held_agent fault peer p (AgentStateJournalId q) s Hh) as [e ->]. eauto.
Qed.
Lemma held_acknowledge fault fault' peer p batch s : is_held s (pNodeID p) -> exists e, AcknowledgeCredit fault fault' peer p batch s = (s, Fail e).
Proof.
  intros Hh. unfold AcknowledgeCredit. destruct batch as [b|]; [|eauto]. do 2 (case_match; [eauto|]). destruct (credit_batch_digest b); [|eauto].
  destruct (held_agent fault peer p (AgentStateJournalId (cbScope b)) s Hh) as [e ->]. eauto.
Qed.

(** No update for the node but those there were. *)
Definition dimmed (n : string) (s s' : Fleet) : Prop :=
  forall id r, credit_updates (delivery s') !! id = Some r -> cr_NodeID r = n -> credit_updates (delivery s) !! id = Some r.
#[global] Instance dimmed_preorder n : PreOrder (dimmed n).
Proof. split; [by intros s id r|]. intros x y z H1 H2 id r Hr Hn. auto. Qed.
#[global] Instance dimmed_same n {A} (m : Tx A) : Keeps (same delivery) m -> Keeps (dimmed n) m | 50.
Proof. intros Hm s a s' H id r. by rewrite (Hm _ _ _ H). Qed.
#[global] Instance dimmed_fetch n v p q node : Keeps (dimmed n) (fetch_credit v p q node).
Proof. intros s a s' H id r Hr _. eapply lookup_weaken; [exact Hr|by eapply fetch_sub]. Qed.
Lemma dimmed_acknowledge n p b node : pNodeID p <> n -> Keeps (dimmed n) (acknowledge_credit p b node).
Proof.
  intros Hne. assert (forall u x, Keeps (dimmed n) (acknowledge_update p b u x)) as Hu; [|unfold acknowledge_credit; apply _].
  intros u [x|]; [|apply _]. apply (keeps_get (dimmed n)). intros s a s' H. apply guard_ok in H as (row & [Hrow _]%tx_found_ok & H); [|apply _]. cbv zeta in H.
  apply guard_ok in H as ([] & [Hs _]%tx_refuse_ok & H); [|apply _]. rewrite !orb_false_iff, !negb_false_iff, !bool_decide_eq_true in Hs.
  case_match; [by apply tx_ret_ok in H as [_ ->]|]. apply guard_ok in H as ([] & _ & H); [|apply _]. unfold save_credit_update in H.
  apply guard_ok in H as ([] & _ & H); [|apply _]. apply guard_ok in H as (s0 & [-> _]%tx_get_ok & H); [|apply _]. apply tx_write_ok in H as ->.
  intros id r Hr Hn. cbn in Hr. apply lookup_insert_Some in Hr as [[<- <-]|[_ Hr]]; [|done]. cbn in Hn. destruct Hs as [[[[[[[Hs _] _] _] _] _] _] _]. congruence.
Qed.

Lemma step_dimmed s s' n : grants_typed s -> is_held s n -> delivery_step s s' -> dimmed n s s'.
Proof.
  intros Ht Hh Hstep. inversion Hstep; subst.
  - apply (RegisterJournals_keeps (dimmed n)); apply _.
  - apply (RequireAgentJournal_keeps (dimmed n)); apply _.
  - unfold QueueCreditUpdate. case_match eqn:Hv; [done|]. apply (Transaction_cases fault _ s (fun s' => dimmed n s s')); [done|]. intros u s1 Hq.
    rewrite !orb_false_iff, Z.ltb_ge in Hv. apply queue_row in Hq as (r & -> & _ & m & Hm & Hfree); [|done|tauto]. intros k x Hx Hn. cbn in Hx.
    apply lookup_insert_Some in Hx as [[<- <-]|[_ Hx]]; [|done]. destruct Hh as (row & Hrow & Hheld). congruence.
  - apply (FetchCredit_keeps (dimmed n)); apply _.
  - destruct (decide (pNodeID p = n)) as [<-|Hne].
    + destruct (held_acknowledge fault fault' peer p batch s Hh) as [e ->]. done.
    + apply (AcknowledgeCredit_keeps (dimmed n)); [apply _..|]. intros b node. by apply dimmed_acknowledge.
  - intros id r Hr _. by eapply lookup_weaken.
Qed.

(** C14: A node held for recovery is issued nothing.  Whatever the control plane does from
    there, the node stays held for the reason it was; no grant of it is created or issued
    more bytes; no credit is queued for it that was not before; and it is refused credit,
    acknowledgements and registrations without a change. *)
Theorem held_nodes_are_issued_nothing s s' n row :
  delivery_reachable s -> node_journals s !! n = Some row -> nj_RecoveryRequired row = true -> rtc delivery_step s s' ->
  node_journals s' !! n = Some row /\
  (forall id g', grants s' !! id = Some g' -> fg_NodeID g' = n -> exists g, grants s !! id = Some g /\ unspent g' = unspent g) /\
  (forall id r, credit_updates (delivery s') !! id = Some r -> cr_NodeID r = n -> credit_updates (delivery s) !! id = Some r) /\
  (forall fault fault' peer p request v, pNodeID p = n -> exists e, FetchCredit fault fault' peer p request v s' = (s', Fail e)) /\
  (forall fault fault' peer p batch, pNodeID p = n -> exists e, AcknowledgeCredit fault fault' peer p batch s' = (s', Fail e)) /\
  (forall fault peer p request, pNodeID p = n -> exists e, RegisterJournals fault peer p request s' = (s', Fail e)).
Proof.
  intros Hr Hrow Hheld Hrun. assert (node_journals s' !! n = Some row /\ unissued n s s' /\ dimmed n s s') as (Hrow' & Hu & Hd).
  { induction Hrun as [s|s s1 s2 Hstep _ IH]; [split_and!; [done|intros id g' Hg' _; eauto|by intros id r]|].
    assert (is_held s n) as Hh by (by exists row). destruct (delivery_invariant s Hr) as [Ht _].
    destruct (jk_nodes _ _ (step_journals _ _ Hstep) n row Hrow) as (row' & Hrow1 & _ & _ & E). rewrite (E Hheld) in Hrow1.
    destruct IH as (H1 & H2 & H3); [by eapply rtc_r|done|]. split_and!; [done| |].
    - intros id g' Hg' Hn. destruct (H2 id g' Hg' Hn) as (g1 & Hg1 & E1). assert (fg_NodeID g1 = n) as Hn1 by (unfold unspent in E1; congruence).
      destruct (step_unissued s s1 n Ht Hh (delivery_fleet _ _ Hstep) id g1 Hg1 Hn1) as (g & Hg & E2). exists g. split; [done|congruence].
    - etrans; [by eapply step_dimmed|done]. }
  assert (is_held s' n) as Hh by (by exists row). split_and!; [done..| | |].
  - intros * <-. by apply held_fetch.
  - intros * <-. by apply held_acknowledge.
  - intros * <-. unfold RegisterJournals. destruct (NormalizeRegistration request) as [[r d]|]; [|eauto]. case_match; [eauto|].
    unfold Transaction. destruct fault; [eauto|]. destruct (register peer p r s') as [[held s1]|e] eqn:E; [|eauto]. unfold register in E.
    apply guard_ok in E as ([] & _ & E); [|apply _]. apply guard_ok in E as (s0 & [-> _]%tx_get_ok & E); [|apply _].
    rewrite Hrow', Hheld in E. apply tx_ret_ok in E as [-> ->]. eauto.
Qed.
End Delivered.

(** ** A node that is sent credit *)
Module SampleDelivery.
Export SampleLife.
#[export] Instance wire_digests : WireDigests := {|
  registration_digest := fun r => Ok (jrNodeId r); credit_batch_digest := fun b => Ok (NodeId (cbScope b)); report_encoding := fun _ => Ok (0, ""%string) |}.

Definition agent_id : string := operation "a".
Definition state_id : string := operation "b".
Definition credit_id : string := operation "c".
Definition placement_id : string := operation "d".
Definition scope : RuntimeScope := mkScope node_id installation_id agent_id "wg0" state_id credit_id.
Definition registration : JournalRegistration :=
  mkRegistration node_id installation_id agent_id [Some (AuthorityWire.mkIdentity "wg0" "wireguard" state_id credit_id)].

(** A node that applied its fifth configuration registers, and a client is started. *)
Definition staffed : Fleet := set_nodes {[node_id := mkNode installation_id true 0 5 5 5 0]} empty_fleet.
Definition registered : Fleet := (RegisterJournals None (Ok tt) node (Some registration) staffed).1.
Definition joined : Fleet := (BindClient None true client_id 1 digest registered).1.
Definition begun : Fleet := (Transition None 0 first_id start joined).1.
(** The runtime reports ready and the client, now owned, is placed on it. *)
Definition owned_client (c : FleetClient) : FleetClient :=
  mkClient (fc_PanelClientID c) (fc_Revision c) (CredentialGeneration c) (CredentialDigest c) (CurrentTermID c) (PendingTermID c) true.
Definition ready (j : FleetRuntimeJournal) : FleetRuntimeJournal :=
  mkRuntimeJournal (rj_RuntimeID j) (rj_InstallationID j) (rj_CoreID j) (rj_StateJournalID j) (rj_CreditJournalID j) 1 "" true 0 0.
Definition placement : FleetPlacement := mkPlacement client_id node_id installation_id "wg0" 1 true 1 digest digest None None.
Definition placed : Fleet :=
  mkFleet (fence begun) (nodes begun) (node_journals begun) (ready <$> runtime_journals begun) (budgets begun) (grants begun) (links begun) (cursors begun)
    (fmeters begun) (operations begun) (owned_client <$> clients begun) (terms begun) (term_usages begun) (usage_days begun) (stops begun) (rate_budgets begun)
    (rate_shares begun) {[placement_id := placement]} {[(placement_id, "in"%string) := Some 1]} (delivery begun).
Definition credit_request : ClientCreditRequest := mkCreditRequest (operation "4") placement_id 1 2 1 first_id digest [] ∅ 1000 0 false.
Definition issued : Fleet := (ReserveClientCredit None 0 Sample.grant_id credit_request placed).1.
Definition queued : Fleet := (QueueCreditUpdate None Sample.grant_id 5 issued).1.
Definition allow_all (l : list FleetCreditUpdate) (_ : Fleet) : result (gset string) := Ok (list_to_set (cr_GrantID <$> l)).
Definition fetch (s : Fleet) : Fleet * result CreditUpdateBatch := FetchCredit None None (Ok tt) node (Some scope) (Some allow_all) s.
Definition batch : CreditUpdateBatch := mkCreditBatch scope 5 [Some (mkWireCredit Sample.grant_id client_id first_id 1 1000)].
(** The node comes back with another journal. *)
Definition lost : Fleet := (RequireAgentJournal None (Ok tt) node placement_id queued).1.

Lemma fleet_delivery s s' : fleet_step s s' -> same side_view s s' -> delivery_step s s'.
Proof. intros H [= E1 E2 E3]. apply StepFleet; [done|done|by rewrite E2|by rewrite E3]. Qed.

Lemma joined_step : delivery_step registered joined.
Proof.
  apply fleet_delivery.
  - apply (StepBind registered None true client_id 1 digest). intros i g. pose proof (RegisterJournals_keeps (same main_view) _ _ _ None (Ok tt) node (Some registration) staffed) as Hm.
    destruct (beside_fields _ _ Hm) as (E & _). unfold registered. rewrite E. cbn [staffed grants set_nodes empty_fleet]. by rewrite lookup_empty.
  - unfold joined, BindClient. case_match; [done|]. apply (keeps_Transaction (same side_view)), _.
Qed.
Lemma begun_step : delivery_step joined begun.
Proof.
  apply fleet_delivery; [by apply (StepTransition joined None 0 first_id start)|]. unfold begun, Transition. case_match; [done|].
  apply (keeps_Transaction (same side_view)), lifecycleOperation_aside, _.
Qed.
Lemma placed_step : delivery_step begun placed.
Proof.
  unfold placed. generalize begun. intros s. apply StepFleet; [apply StepPanel; split|..];
    cbn [grants links budgets fmeters cursors operations terms rate_budgets rate_shares clients same_ledger node_journals runtime_journals delivery];
    [done|done|by apply operations_same|done|done| |done| |done].
  - intros id. rewrite lookup_fmap. by destruct (clients s !! id) as [[]|].
  - intros k. rewrite lookup_fmap. by destruct (runtime_journals s !! k).
Qed.
Lemma issued_step : delivery_step placed issued.
Proof.
  apply fleet_delivery.
  - apply (StepCredit placed None 0 Sample.grant_id credit_request). intros id z Hz. cbn [credit_request cq_ParentLimitBytes] in Hz. by rewrite lookup_empty in Hz.
  - unfold issued, ReserveClientCredit. case_match; [done|]. cbv zeta. case_match; [done|]. apply (keeps_Transaction (same side_view)), _.
Qed.
Lemma queued_reachable : delivery_reachable queued.
Proof.
  eapply rtc_l; [apply (StepFleet empty_fleet staffed); [apply StepPanel; by split|done..]|].
  eapply rtc_l; [apply (StepRegister staffed None (Ok tt) node (Some registration))|]. eapply rtc_l; [apply joined_step|]. eapply rtc_l; [apply begun_step|].
  eapply rtc_l; [apply placed_step|]. eapply rtc_l; [apply issued_step|]. apply rtc_once, (StepQueue issued None Sample.grant_id 5).
Qed.
Lemma fetched_batch : fetch queued = ((fetch queued).1, Ok batch).
Proof. assert ((fetch queued).2 = Ok batch) as <- by (vm_compute; reflexivity). apply surjective_pairing. Qed.
Lemma lost_reachable : delivery_reachable lost.
Proof. eapply rtc_r; [exact queued_reachable|apply (StepAgent queued None (Ok tt) node placement_id)]. Qed.
Lemma lost_held : node_journals lost !! node_id = Some (mkNodeJournal installation_id (Some agent_id) true "NODE_STATE_JOURNAL_REPLACED").
Proof. vm_compute. reflexivity. Qed.
End SampleDelivery.
Import SampleDelivery.

Lemma handed_out_credit_is_issued_witness : ValidateCreditBatch (Some SampleDelivery.batch) true = Ok tt /\
  exists g, grants (SampleDelivery.fetch SampleDelivery.queued).1 !! Sample.grant_id = Some g /\ 1000 <= IssuedBytes g.
Proof.
  destruct (handed_out_credit_is_issued SampleDelivery.queued None None (Ok tt) SampleFleet.node (Some SampleDelivery.scope) (Some SampleDelivery.allow_all)
    (SampleDelivery.fetch SampleDelivery.queued).1 SampleDelivery.batch SampleDelivery.queued_reachable SampleDelivery.fetched_batch) as (_ & _ & Hv & _ & _ & Hu).
  split; [exact Hv|]. destruct (Hu (Some (mkWireCredit Sample.grant_id SampleLife.client_id SampleLife.first_id 1 1000))) as (u & g & Eu & Hg & _ & _ & _ & _ & Hc).
  - apply list_elem_of_here.
  - injection Eu as <-. exists g. split; [exact Hg|exact Hc].
Defined.

Lemma acknowledged_credit_is_settled_witness :
  exists s'', AcknowledgeCredit None None (Ok tt) SampleFleet.node (Some SampleDelivery.batch) (SampleDelivery.fetch SampleDelivery.queued).1 = (s'', Ok SampleFleet.node_id) /\
  AcknowledgeCredit None None (Ok tt) SampleFleet.node (Some SampleDelivery.batch) s'' = (s'', Ok SampleFleet.node_id).
Proof.
  destruct (acknowledged_credit_is_settled SampleDelivery.queued None None (Ok tt) SampleFleet.node (Some SampleDelivery.scope) (Some SampleDelivery.allow_all)
    (SampleDelivery.fetch SampleDelivery.queued).1 SampleDelivery.batch SampleFleet.node_id SampleDelivery.queued_reachable SampleDelivery.fetched_batch) as (s'' & H1 & H2 & _).
  - discriminate.
  - reflexivity.
  - exists s''. split; [exact H1|exact H2].
Defined.

Lemma held_nodes_are_issued_nothing_witness :
  exists e, FetchCredit None None (Ok tt) SampleFleet.node (Some SampleDelivery.scope) (Some SampleDelivery.allow_all) SampleDelivery.lost = (SampleDelivery.lost, Fail e).
Proof.
  destruct (held_nodes_are_issued_nothing SampleDelivery.lost SampleDelivery.lost SampleFleet.node_id
    (mkNodeJournal SampleFleet.installation_id (Some SampleDelivery.agent_id) true "NODE_STATE_JOURNAL_REPLACED")
    SampleDelivery.lost_reachable SampleDelivery.lost_held eq_refl (rtc_refl _ _)) as (_ & _ & _ & H & _).
  apply H. reflexivity.
Defined.
