(* ===== verification/Routing.v ===== *)
(** * Compiling routing intent: internal/routing/plan.go and diag.go

    [Plan] turns the operator's rules into Xray rules, the outbounds and fronts they
    need and a diagnosis of every (rule, inbound) pair.  A JSON value is an inductive,
    an Xray rule the object its body marshals to ([json.Marshal] orders the keys), a
    synthesized outbound its tag and protocol; criteria are valid JSON, as they come
    out of a decoder.  White space around the words of a network list is ASCII. *)
From S2P Require Import Prelude Decimal Netip Egress.
Open Scope string_scope.
Open Scope Z_scope.

(** ** Vocabulary *)

Inductive json := JNull | JString (s : string) | JStrings (l : list string) | JRaw (text : string).
#[global] Instance json_eq_dec : EqDecision json.
Proof. solve_decision. Defined.

Abbreviation body := (gmap string json).

Definition DestOutbound : string := "outbound".
Definition DestBalancer : string := "balancer".
Definition DestExit : string := "exit".
Definition DestDirect : string := "direct".
Definition DestBlock : string := "block".
Definition ScopeAll : string := "all".

Definition PatternProxy : string := "proxy".
Definition PatternInspected : string := "inspected".
Definition PatternMarked : string := "marked".
Definition PatternInert : string := "inert".
Definition SeverityOK : string := "ok".
Definition SeverityWarn : string := "warn".
Definition SeverityInert : string := "inert".
Definition SeverityBlocked : string := "blocked".

Definition KeyNoFront : string := "pages.xray.routing.refuse.noFront".
Definition KeyCriterionUnsupported : string := "pages.xray.routing.refuse.criterionUnsupported".
Definition KeyExitMissing : string := "pages.xray.routing.refuse.exitMissing".
Definition KeyNoExitDriver : string := "pages.xray.routing.refuse.noExitDriver".
Definition KeyNoSnat : string := "pages.xray.routing.refuse.noSnat".
Definition KeyNoDefaultOutbound : string := "pages.xray.routing.refuse.noDefaultOutbound".
Definition KeyExitTCPOnly : string := "pages.xray.routing.refuse.exitTcpOnly".
Definition KeyExitTCPNarrowed : string := "pages.xray.routing.warn.exitTcpNarrowed".
Definition KeyExitContained : string := "pages.xray.routing.warn.exitContained".

(** core.IngressHandle and core.ExitHandle. *)
Record IngressHandle := mkIngress {
  hDevice : string; hTag : string; hSources : list Prefix; BlockedKey : string }.
Definition Fronted (h : IngressHandle) : bool :=
  bool_decide (hDevice h <> "") || negb (Nat.eqb (length (hSources h)) 0).
Inductive ExitHandleKind := ExitNone | ExitDevice | ExitSocksPort | ExitXrayOutbound.
Record ExitHandle := mkExitHandle {
  xDevice : string; SocksPort : Z; XrayTag : string; xSource : string; TCPOnly : bool }.
Definition SourceOwnerPanel : string := "panel".

Definition PayloadCriteria : list string := ["domain"; "protocol"; "attrs"].
Definition Criterion_NeedsInspection (c : string) : bool := bool_decide (c ∈ PayloadCriteria).

Record Subject := mkSubject {
  InboundID : Z; sTag : string; Handle : IngressHandle; Bridged : bool;
  CriteriaMask : option (list string) }.
Record Dest := mkDest { Kind : string; dTag : string; ExitID : Z }.
Record Rule := mkRule {
  rID : Z; SortIndex : Z; Enable : bool; Scope_ : string; IngressIDs : list Z; rDest : Dest;
  Criteria : gmap string json; Inspect : bool }.
Record ResolvedExit := mkExit {
  eID : Z; Label : string; eKind : ExitHandleKind; eHandle : ExitHandle; Contained : bool }.
Record FrontSpec := mkFront { fID : Z; Sniff : bool }.

Record Input := mkInput {
  Rules : list Rule; Subjects : list Subject; Exits : list ResolvedExit;
  Blackhole : string; Direct : string; FrontIDFor : Z -> option Z }.

Record Diag := mkDiag {
  RuleID : Z; SubjectTag : string; Pattern : string; Severity : string; MessageKey : string;
  Args : gmap string string }.

(** The outbounds the compile synthesizes: a blackhole, the loopback SOCKS port of an
    exit, a marked freedom socket. *)
Inductive protocol := PBlackhole | PSocks (port : Z) | PMarked (mark : Z).
Record Outbound := mkOutbound { oTag : string; oProtocol : protocol }.

Record Compiled := mkCompiled {
  XrayRules : list body; Outbounds : list Outbound; Fronts : list FrontSpec;
  InspectTags : list string; Diags : list Diag }.

(** ** Helpers *)

Definition Rule_NeedsInspection (r : Rule) : bool :=
  Inspect r || existsb Criterion_NeedsInspection (map_to_list (Criteria r)).*1.

(** [sort.SliceStable]: insertion after the elements that are not greater. *)
Fixpoint insert_by {A} (key : A -> Z) (x : A) (l : list A) : list A :=
  match l with
  | [] => [x]
  | y :: rest => if key x <? key y then x :: l else y :: insert_by key x rest
  end.
Definition sort_by {A} (key : A -> Z) (l : list A) : list A :=
  foldl (fun acc x => insert_by key x acc) [] l.

(** The first criterion, in order, outside the subject's mask. *)
Definition forbiddenCriterion (rule : Rule) (subject : Subject) : option string :=
  match CriteriaMask subject with
  | None => None
  | Some mask =>
      head (filter (fun key => key ∉ mask) (merge_sort String.le (map_to_list (Criteria rule)).*1))
  end.

Fixpoint findExit (exits : list ResolvedExit) (id : Z) : option ResolvedExit :=
  match exits with
  | [] => None
  | exit :: rest => if eID exit =? id then Some exit else findExit rest id
  end.

Definition exitOutboundTag (id : Z) : string := "pex" +:+ Itoa id.
Definition synthBlockTag : string := "pexblock".

Definition blackholeOutbound (tag : string) : Outbound := mkOutbound tag PBlackhole.
Definition markedOutbound (tag : string) (mark : Z) : Outbound := mkOutbound tag (PMarked mark).
Definition socksOutbound (tag : string) (port : Z) : Outbound := mkOutbound tag (PSocks port).
Definition synthesizedTag (o : Outbound) : string := oTag o.

Definition inspectedBy (rules : list Rule) (subject : Subject) : bool :=
  existsb (fun rule => Enable rule && Rule_NeedsInspection rule &&
             negb (bool_decide (is_Some (forbiddenCriterion rule subject)))) rules.

Definition guardRule (tag blackhole : string) : body :=
  <[ "type" := JString "field" ]> (<[ "inboundTag" := JStrings [tag] ]>
    (<[ "ip" := JStrings ["geoip:private"] ]> {[ "outboundTag" := JString blackhole ]})).

Definition udpCompanion (narrowed : body) (blackhole : string) : body :=
  <[ "outboundTag" := JString blackhole ]> (<[ "network" := JString "udp" ]> narrowed).

(** ** Narrowing to TCP *)

Inductive narrowResult := narrowSilent | narrowWarned | narrowRefused.

Definition comma : Ascii.ascii := Ascii.Ascii false false true true false true false false.

Fixpoint Split (s : string) (word : string) : list string :=
  match s with
  | EmptyString => [word]
  | String c rest =>
      if bool_decide (c = comma) then word :: Split rest "" else Split rest (word +:+ String c "")
  end.

Definition is_space (c : Ascii.ascii) : bool :=
  let n := Ascii.nat_of_ascii c in ((9 <=? n) && (n <=? 13))%nat || (n =? 32)%nat.
Definition lower (c : Ascii.ascii) : Ascii.ascii :=
  let n := Ascii.nat_of_ascii c in
  if ((65 <=? n) && (n <=? 90))%nat then Ascii.ascii_of_nat (n + 32) else c.
Fixpoint ToLower (s : string) : string :=
  match s with EmptyString => "" | String c rest => String (lower c) (ToLower rest) end.
Fixpoint trim_left (s : string) : string :=
  match s with
  | String c rest => if is_space c then trim_left rest else s
  | EmptyString => ""
  end.
Fixpoint trim_right (s : string) : string :=
  match s with
  | EmptyString => ""
  | String c rest =>
      let rest := trim_right rest in
      if bool_decide (rest = "") && is_space c then "" else String c rest
  end.
Definition TrimSpace (s : string) : string := trim_right (trim_left s).

(** [json.Unmarshal] into a string: null leaves it empty. *)
Definition unmarshal_string (raw : json) : option string :=
  match raw with JString s => Some s | JNull => Some "" | _ => None end.

Definition network_words (network : string) : list string :=
  (fun part => TrimSpace (ToLower part)) <$> Split network "".

Definition narrowToTCP (b : body) : body * narrowResult :=
  let tcp := <[ "network" := JString "tcp" ]> b in
  match b !! "network" with
  | None => (tcp, narrowWarned)
  | Some raw =>
      match unmarshal_string raw with
      | None => (tcp, narrowWarned)
      | Some network =>
          let hasTCP := bool_decide ("tcp" ∈ network_words network) in
          let hasUDP := bool_decide ("udp" ∈ network_words network) in
          if hasUDP && negb hasTCP then (b, narrowRefused)
          else if hasUDP then (tcp, narrowWarned)
          else (b, narrowSilent)
      end
  end.

(** ** One (rule, subject) pair *)

Definition blockDest (in_ : Input) (b : body) : body * option Outbound :=
  if bool_decide (Blackhole in_ <> "")
  then (<[ "outboundTag" := JString (Blackhole in_) ]> b, None)
  else (<[ "outboundTag" := JString synthBlockTag ]> b, Some (blackholeOutbound synthBlockTag)).

(** [mkDiag] with its fields in the order the code sets them. *)
Definition inert (rule : Rule) (subject : Subject) (key : string) (args : gmap string string) : Diag :=
  mkDiag (rID rule) (sTag subject) PatternInert SeverityInert key args.

Abbreviation answer := (option body * Diag * option Outbound)%type.

Definition compileExit (in_ : Input) (rule : Rule) (subject : Subject) (b : body)
    (exit : ResolvedExit) : answer :=
  let ok := fun p => mkDiag (rID rule) (sTag subject) p SeverityOK "" ∅ in
  let named := {[ "exit" := Label exit ]} in
  match eKind exit with
  | ExitXrayOutbound =>
      (Some (<[ "outboundTag" := JString (XrayTag (eHandle exit)) ]> b), ok PatternProxy, None)
  | ExitSocksPort =>
      let name := exitOutboundTag (eID exit) in
      let outbound := Some (socksOutbound name (SocksPort (eHandle exit))) in
      let '(b, narrowed) := if TCPOnly (eHandle exit) then narrowToTCP b else (b, narrowSilent) in
      let b' := <[ "outboundTag" := JString name ]> b in
      match narrowed with
      | narrowRefused => (None, inert rule subject KeyExitTCPOnly named, None)
      | narrowWarned =>
          (Some b', mkDiag (rID rule) (sTag subject) PatternProxy SeverityWarn KeyExitTCPNarrowed named,
           outbound)
      | narrowSilent => (Some b', ok PatternProxy, outbound)
      end
  | ExitDevice =>
      if bool_decide (xSource (eHandle exit) = SourceOwnerPanel) || bool_decide (xDevice (eHandle exit) = "")
      then (None, inert rule subject
                    (if bool_decide (xDevice (eHandle exit) = "") then KeyNoExitDriver else KeyNoSnat) named,
            None)
      else if Contained exit then
        let '(b, outbound) := blockDest in_ b in
        (Some b, mkDiag (rID rule) (sTag subject) PatternMarked SeverityWarn KeyExitContained named, outbound)
      else
        let name := exitOutboundTag (eID exit) in
        (Some (<[ "outboundTag" := JString name ]> b), ok PatternMarked,
         Some (markedOutbound name (Mark (eID exit))))
  | ExitNone => (None, inert rule subject KeyExitMissing ∅, None)
  end.

Definition compileRule (in_ : Input) (rule : Rule) (subject : Subject) (tag pattern : string) : answer :=
  let ok := mkDiag (rID rule) (sTag subject) pattern SeverityOK "" ∅ in
  match forbiddenCriterion rule subject with
  | Some bad =>
      (None, inert rule subject KeyCriterionUnsupported
               (<[ "criterion" := bad ]> {[ "subject" := sTag subject ]}), None)
  | None =>
      let b := <[ "inboundTag" := JStrings [tag] ]> (<[ "type" := JString "field" ]> (Criteria rule)) in
      let kind := Kind (rDest rule) in
      if bool_decide (kind = DestOutbound) then
        (Some (<[ "outboundTag" := JString (dTag (rDest rule)) ]> b), ok, None)
      else if bool_decide (kind = DestBalancer) then
        (Some (<[ "balancerTag" := JString (dTag (rDest rule)) ]> b), ok, None)
      else if bool_decide (kind = DestDirect) then
        if bool_decide (Direct in_ = "")
        then (None, inert rule subject KeyNoDefaultOutbound {[ "protocol" := "freedom" ]}, None)
        else (Some (<[ "outboundTag" := JString (Direct in_) ]> b), ok, None)
      else if bool_decide (kind = DestBlock) then
        let '(b, outbound) := blockDest in_ b in (Some b, ok, outbound)
      else if bool_decide (kind = DestExit) then
        match findExit (Exits in_) (ExitID (rDest rule)) with
        | None => (None, inert rule subject KeyExitMissing ∅, None)
        | Some exit => compileExit in_ rule subject b exit
        end
      else (None, inert rule subject KeyExitMissing ∅, None)
  end.

(** ** The whole plan *)

(** The output so far, and the tags of the outbounds it holds. *)
Record planning := mkPlanning { out : Compiled; emitted : gset string }.

Definition add_rule (b : body) (p : planning) : planning :=
  let o := out p in
  mkPlanning (mkCompiled (XrayRules o ++ [b]) (Outbounds o) (Fronts o) (InspectTags o) (Diags o))
    (emitted p).
Definition add_diag (d : Diag) (p : planning) : planning :=
  let o := out p in
  mkPlanning (mkCompiled (XrayRules o) (Outbounds o) (Fronts o) (InspectTags o) (Diags o ++ [d]))
    (emitted p).
Definition add_front (f : FrontSpec) (p : planning) : planning :=
  let o := out p in
  mkPlanning (mkCompiled (XrayRules o) (Outbounds o) (Fronts o ++ [f]) (InspectTags o) (Diags o))
    (emitted p).
Definition add_inspect (tag : string) (p : planning) : planning :=
  let o := out p in
  mkPlanning (mkCompiled (XrayRules o) (Outbounds o) (Fronts o) (InspectTags o ++ [tag]) (Diags o))
    (emitted p).
(** An outbound is emitted once. *)
Definition add_outbound (x : Outbound) (p : planning) : planning :=
  if bool_decide (synthesizedTag x ∈ emitted p) then p
  else
    let o := out p in
    mkPlanning (mkCompiled (XrayRules o) (Outbounds o ++ [x]) (Fronts o) (InspectTags o) (Diags o))
      ({[ synthesizedTag x ]} ∪ emitted p).

(** [blackholeTag]: the template's blackhole, or one synthesized. *)
Definition blackholeTag (in_ : Input) (p : planning) : planning * string :=
  if bool_decide (Blackhole in_ <> "") then (p, Blackhole in_)
  else (add_outbound (blackholeOutbound synthBlockTag) p, synthBlockTag).

Definition add_guard (in_ : Input) (tag : string) (p : planning) : planning :=
  let '(p, hole) := blackholeTag in_ p in add_rule (guardRule tag hole) p.

Definition plan_rule (in_ : Input) (subject : Subject) (tag pattern : string) (p : planning) (rule : Rule)
    : planning :=
  let '(xrayRule, diag, outbound) := compileRule in_ rule subject tag pattern in
  let p := add_diag diag p in
  let p := match xrayRule with Some b => add_rule b p | None => p end in
  let p :=
    if bool_decide (MessageKey diag = KeyExitTCPNarrowed) then
      let '(p, hole) := blackholeTag in_ p in add_rule (udpCompanion (default ∅ xrayRule) hole) p
    else p in
  match outbound with Some o => add_outbound o p | None => p end.

Definition groupRules (in_ : Input) : Z -> list Rule :=
  fun id =>
    concat ((fun rule =>
      if negb (Enable rule) then []
      else
        let ids := if bool_decide (Scope_ rule = ScopeAll) then InboundID <$> Subjects in_
                   else IngressIDs rule in
        (fun _ => rule) <$> filter (fun i => i = id) ids) <$> sort_by SortIndex (Rules in_)).

Definition plan_subject (in_ : Input) (p : planning) (subject : Subject) : planning :=
  let rules := groupRules in_ (InboundID subject) in
  let report := fun severity key args =>
    foldl (fun p rule => add_diag (mkDiag (rID rule) (sTag subject) PatternInert severity key args) p) p rules in
  if bool_decide (rules = []) then p
  else if bool_decide (BlockedKey (Handle subject) <> "")
  then report SeverityBlocked (BlockedKey (Handle subject)) ∅
  else
    let tag := hTag (Handle subject) in
    if bool_decide (tag = "") then
      match FrontIDFor in_ (InboundID subject) with
      | Some frontID =>
          if ValidID frontID then
            let tag := Device frontID in
            let p := add_front (mkFront frontID (inspectedBy rules subject)) p in
            foldl (plan_rule in_ subject tag PatternInspected) (add_guard in_ tag p) rules
          else report SeverityInert KeyNoFront {[ "subject" := sTag subject ]}
      | None => report SeverityInert KeyNoFront {[ "subject" := sTag subject ]}
      end
    else
      let p := if inspectedBy rules subject then add_inspect tag p else p in
      let p := if Bridged subject then add_guard in_ tag p else p in
      foldl (plan_rule in_ subject tag PatternProxy) p rules.

(** A rule for every inbound that compiled for one is not refused for the others. *)
Definition relax_diag (compiled : gset Z) (d : Diag) : Diag :=
  if bool_decide (RuleID d ∈ compiled) &&
     (bool_decide (Severity d = SeverityInert) || bool_decide (Severity d = SeverityBlocked))
  then mkDiag (RuleID d) (SubjectTag d) (Pattern d) SeverityWarn (MessageKey d) (Args d)
  else d.

Definition relaxScopeAll (in_ : Input) (c : Compiled) : Compiled :=
  let all : gset Z := list_to_set (rID <$> filter (fun r => Scope_ r = ScopeAll) (Rules in_)) in
  let compiled : gset Z :=
    list_to_set (RuleID <$> filter (fun d =>
      RuleID d ∈ all /\ (Severity d = SeverityOK \/ Severity d = SeverityWarn)) (Diags c)) in
  mkCompiled (XrayRules c) (Outbounds c) (Fronts c) (InspectTags c) (relax_diag compiled <$> Diags c).

Definition Plan (in_ : Input) : Compiled :=
  relaxScopeAll in_
    (out (foldl (plan_subject in_) (mkPlanning (mkCompiled [] [] [] [] []) ∅)
            (sort_by InboundID (Subjects in_)))).

Definition Warnings (c : Compiled) : list Diag := filter (fun d => Severity d = SeverityWarn) (Diags c).
Definition Refusals (c : Compiled) : list Diag :=
  filter (fun d => Severity d = SeverityInert \/ Severity d = SeverityBlocked) (Diags c).
