(* ===== verification/RoutingTheorems.v ===== *)
(** * What a compiled routing plan guarantees *)
From S2P Require Import Prelude Decimal Egress Routing.
Open Scope string_scope.
Open Scope Z_scope.

(** ** Outbounds *)

(** A tag the operator's own configuration answers to. *)
Definition template (in_ : Input) (t : string) : Prop :=
  (t = Blackhole in_ /\ t <> "") \/ (t = Direct in_ /\ t <> "") \/
  (exists r, r ∈ Rules in_ /\ Kind (rDest r) = DestOutbound /\ t = dTag (rDest r)) \/
  (exists x, x ∈ Exits in_ /\ eKind x = ExitXrayOutbound /\ t = XrayTag (eHandle x)) \/
  (exists r, r ∈ Rules in_ /\ Criteria r !! "outboundTag" = Some (JString t)).

(** An exit whose socket may be marked: its device is up, the panel need not rewrite
    sources, and the host has the rule that catches the mark. *)
Definition markable (x : ResolvedExit) : Prop :=
  eKind x = ExitDevice /\ xSource (eHandle x) <> SourceOwnerPanel /\ xDevice (eHandle x) <> "" /\
  Contained x = false.

(** An outbound the plan may synthesize. *)
Definition legit (in_ : Input) (o : Outbound) : Prop :=
  (Blackhole in_ = "" /\ o = blackholeOutbound synthBlockTag) \/
  exists x, findExit (Exits in_) (eID x) = Some x /\
    ((eKind x = ExitSocksPort /\ o = socksOutbound (exitOutboundTag (eID x)) (SocksPort (eHandle x))) \/
     (markable x /\ o = markedOutbound (exitOutboundTag (eID x)) (Mark (eID x)))).

Definition served (in_ : Input) (tags : gset string) (b : body) : Prop :=
  forall t, b !! "outboundTag" = Some (JString t) -> template in_ t \/ t ∈ tags.

Record plan_ok (in_ : Input) (p : planning) : Prop := {
  po_tags : emitted p = list_to_set (oTag <$> Outbounds (out p));
  po_nodup : NoDup (oTag <$> Outbounds (out p));
  po_legit : Forall (legit in_) (Outbounds (out p));
  po_rules : Forall (served in_ (emitted p)) (XrayRules (out p)) }.

Lemma findExit_in exits id x : findExit exits id = Some x -> x ∈ exits /\ eID x = id.
Proof.
  induction exits as [|y exits IH]; simpl; [done|]. split_guard.
  - intros [= <-]. split; [by left|done].
  - intros H. destruct (IH H). split; [by right|done].
Qed.

Lemma served_mono in_ tags tags' b : tags ⊆ tags' -> served in_ tags b -> served in_ tags' b.
Proof. intros Hs Hb t Ht. destruct (Hb t Ht); [by left|right; set_solver]. Qed.

Lemma add_rule_ok in_ b p : plan_ok in_ p -> served in_ (emitted p) b -> plan_ok in_ (add_rule b p).
Proof. intros [] Hb. split; try done. simpl. apply Forall_app. split; [done|]. by constructor. Qed.

Lemma add_diag_ok in_ d p : plan_ok in_ p -> plan_ok in_ (add_diag d p).
Proof. by intros []. Qed.

Lemma add_outbound_ok in_ o p :
  plan_ok in_ p -> legit in_ o ->
  plan_ok in_ (add_outbound o p) /\ emitted p ⊆ emitted (add_outbound o p) /\
  oTag o ∈ emitted (add_outbound o p).
Proof.
  intros [] Ho. unfold add_outbound, synthesizedTag. case_bool_decide as He; [done|]. simpl.
  split_and!; [|set_solver..]. split; simpl.
  - rewrite po_tags0, fmap_app, list_to_set_app_L. set_solver.
  - rewrite fmap_app. apply NoDup_app. split_and!; [done| |apply NoDup_singleton].
    intros t Ht Ht'. apply list_elem_of_singleton in Ht' as ->. apply He. rewrite po_tags0. set_solver.
  - apply Forall_app. split; [done|]. by constructor.
  - eapply Forall_impl; [done|]. intros b. apply served_mono. set_solver.
Qed.

Lemma blackholeTag_ok in_ p p' hole :
  plan_ok in_ p -> blackholeTag in_ p = (p', hole) ->
  plan_ok in_ p' /\ emitted p ⊆ emitted p' /\ (template in_ hole \/ hole ∈ emitted p').
Proof.
  intros Hp. unfold blackholeTag. case_bool_decide as Hb.
  - intros [= <- <-]. split_and!; [done..|]. left. by left.
  - intros [= <- <-].
    destruct (add_outbound_ok in_ (blackholeOutbound synthBlockTag) p Hp) as (? & ? & ?); [by left|auto].
Qed.

(** What a compiled pair points at is the template's or comes with it. *)
Lemma blockDest_ok in_ b b' o :
  blockDest in_ b = (b', o) ->
  (forall x, o = Some x -> legit in_ x) /\
  (forall t, b' !! "outboundTag" = Some (JString t) -> template in_ t \/ exists x, o = Some x /\ oTag x = t).
Proof.
  unfold blockDest. case_bool_decide as Hb.
  - intros [= <- <-]. split; [done|]. intros t. rewrite lookup_insert_eq. intros [= <-]. left. by left.
  - intros [= <- <-]. split; [intros x [= <-]; by left|].
    intros t. rewrite lookup_insert_eq. intros [= <-]. right. eauto.
Qed.

Definition pair_ok (in_ : Input) (a : answer) : Prop :=
  let '(xr, diag, ob) := a in
  (forall o, ob = Some o -> legit in_ o) /\
  (forall b t, xr = Some b -> b !! "outboundTag" = Some (JString t) ->
     template in_ t \/ exists o, ob = Some o /\ oTag o = t).

Lemma pair_ok_none in_ d : pair_ok in_ (None, d, None).
Proof. by split. Qed.

Lemma pair_ok_template in_ b d t :
  template in_ t -> pair_ok in_ (Some (<[ "outboundTag" := JString t ]> b), d, None).
Proof.
  intros Ht. split; [done|]. intros b' t' [= <-]. rewrite lookup_insert_eq. intros [= <-]. by left.
Qed.

Lemma pair_ok_outbound in_ b d o :
  legit in_ o -> pair_ok in_ (Some (<[ "outboundTag" := JString (oTag o) ]> b), d, Some o).
Proof.
  intros Ho. split; [by intros ? [= <-]|]. intros b' t [= <-]. rewrite lookup_insert_eq. intros [= <-].
  right. eauto.
Qed.

Lemma compileExit_ok in_ rule subject b exit :
  findExit (Exits in_) (eID exit) = Some exit -> pair_ok in_ (compileExit in_ rule subject b exit).
Proof.
  intros Hx. pose proof (findExit_in _ _ _ Hx) as [Hin _]. unfold compileExit.
  destruct (eKind exit) eqn:Hk; [apply pair_ok_none| | |].
  - split_guard; [apply pair_ok_none|]. destruct G as [Hs Hd]. destruct (Contained exit) eqn:Hc.
    + destruct (blockDest in_ b) as [b' o] eqn:Hb. destruct (blockDest_ok _ _ _ _ Hb) as [H1 H2].
      split; [done|]. intros b0 t [= <-]. apply H2.
    + apply (pair_ok_outbound in_ _ _ (markedOutbound _ _)). right. exists exit. split; [done|]. by right.
  - destruct (if TCPOnly _ then _ else _) as [b' narrowed].
    destruct narrowed; [| |apply pair_ok_none];
      (apply (pair_ok_outbound in_ _ _ (socksOutbound _ _)); right; exists exit; auto).
  - apply pair_ok_template. do 3 right. left. eauto.
Qed.

Lemma compileRule_ok in_ rule subject tag pattern :
  rule ∈ Rules in_ -> pair_ok in_ (compileRule in_ rule subject tag pattern).
Proof.
  intros Hr. unfold compileRule. destruct (forbiddenCriterion rule subject); [apply pair_ok_none|].
  case_bool_decide. { apply pair_ok_template. do 2 right. left. eauto. }
  case_bool_decide.
  { split; [done|]. intros b t [= <-]. rewrite !lookup_insert_ne by done. intros Ht. left.
    do 4 right. eauto. }
  case_bool_decide.
  { case_bool_decide; [apply pair_ok_none|]. apply pair_ok_template. right. by left. }
  case_bool_decide.
  { destruct (blockDest in_ _) as [b' o] eqn:Hb. destruct (blockDest_ok _ _ _ _ Hb) as [Hl Hp].
    split; [done|]. intros b0 t [= <-]. apply Hp. }
  case_bool_decide; [|apply pair_ok_none].
  destruct (findExit _ _) as [exit|] eqn:Hx; [|apply pair_ok_none].
  apply compileExit_ok. destruct (findExit_in _ _ _ Hx) as [_ Hid]. by rewrite Hid.
Qed.

(** The parts of the output are independent. *)
Lemma add_outbound_rule o b p : add_outbound o (add_rule b p) = add_rule b (add_outbound o p).
Proof. unfold add_outbound, add_rule. simpl. by case_bool_decide. Qed.
Lemma add_outbound_diag o d p : add_outbound o (add_diag d p) = add_diag d (add_outbound o p).
Proof. unfold add_outbound, add_diag. simpl. by case_bool_decide. Qed.

(** An outbound added at most, and what it serves. *)
Definition emit (ob : option Outbound) (p : planning) : planning :=
  match ob with Some o => add_outbound o p | None => p end.

Lemma emit_ok in_ ob p :
  plan_ok in_ p -> (forall o, ob = Some o -> legit in_ o) ->
  plan_ok in_ (emit ob p) /\ emitted p ⊆ emitted (emit ob p) /\
  (forall o, ob = Some o -> oTag o ∈ emitted (emit ob p)).
Proof.
  intros Hp Ho. destruct ob as [o|]; simpl; [|done].
  destruct (add_outbound_ok in_ o p Hp) as (? & ? & ?); [auto|]. split_and!; auto. by intros ? [= <-].
Qed.

Lemma emit_rule ob b p : emit ob (add_rule b p) = add_rule b (emit ob p).
Proof. destruct ob; [apply add_outbound_rule|done]. Qed.

Lemma blackholeTag_rule in_ b p :
  blackholeTag in_ (add_rule b p) =
    let '(p', hole) := blackholeTag in_ p in (add_rule b p', hole).
Proof. unfold blackholeTag. case_bool_decide; [done|]. by rewrite add_outbound_rule. Qed.

Lemma companion_served in_ tags b hole :
  template in_ hole \/ hole ∈ tags -> served in_ tags (udpCompanion b hole).
Proof. intros H t. unfold udpCompanion. rewrite lookup_insert_eq. by intros [= <-]. Qed.

Lemma plan_rule_ok in_ subject tag pattern p rule :
  plan_ok in_ p -> rule ∈ Rules in_ -> plan_ok in_ (plan_rule in_ subject tag pattern p rule).
Proof.
  intros Hp Hr. unfold plan_rule.
  pose proof (compileRule_ok in_ rule subject tag pattern Hr) as Hok.
  destruct (compileRule in_ rule subject tag pattern) as [[xr d] ob]. destruct Hok as [Hleg Hpt].
  apply (add_diag_ok _ d) in Hp. set (p0 := add_diag d p) in *. clearbody p0.
  change (match ob with Some o => add_outbound o ?q | None => ?q end) with (emit ob q).
  assert (forall q, plan_ok in_ q -> plan_ok in_ (match xr with Some b => add_rule b (emit ob q) | None => emit ob q end) /\
            emitted q ⊆ emitted (emit ob q)) as Hgo.
  { intros q Hq. destruct (emit_ok in_ ob q Hq Hleg) as (He & Hsub & Htag). split; [|done].
    destruct xr as [b|]; [|done]. apply add_rule_ok; [done|]. intros t Ht.
    destruct (Hpt b t eq_refl Ht) as [?|(o & Ho & <-)]; auto. }
  case_bool_decide.
  - destruct xr as [b|]; [rewrite blackholeTag_rule|];
      destruct (blackholeTag in_ p0) as [p1 hole] eqn:Hb; rewrite !emit_rule;
      destruct (blackholeTag_ok _ _ _ _ Hp Hb) as (H1 & _ & H2); destruct (Hgo _ H1) as [H3 Hs];
      (apply add_rule_ok; [exact H3|]); apply companion_served; simpl; destruct H2; auto.
  - destruct xr as [b|]; [rewrite emit_rule|]; apply Hgo; done.
Qed.

(** ** Order *)

Section Sorting.
Context {A : Type} (key : A -> Z).

Lemma insert_by_perm x l : insert_by key x l ≡ₚ x :: l.
Proof.
  induction l as [|y l IH]; simpl; [done|]. destruct (_ <? _); [done|]. by rewrite IH, Permutation_swap.
Qed.

Lemma insert_by_sorted x l :
  StronglySorted (fun a b => key a <= key b) l ->
  StronglySorted (fun a b => key a <= key b) (insert_by key x l).
Proof.
  induction l as [|y l IH]; intros Hs; simpl; [repeat constructor|].
  pose proof Hs as [Hl Hy]%StronglySorted_inv. destruct (key x <? key y) eqn:Hlt; bools.
  - constructor; [done|]. constructor; [lia|]. eapply Forall_impl; [exact Hy|]. simpl. lia.
  - constructor; [auto|]. rewrite insert_by_perm. by constructor.
Qed.

Lemma sort_by_perm l : sort_by key l ≡ₚ l.
Proof.
  unfold sort_by. assert (forall acc, foldl (fun acc x => insert_by key x acc) acc l ≡ₚ l ++ acc) as H.
  { induction l as [|x l IH]; intros acc; simpl; [done|]. rewrite IH, insert_by_perm.
    by rewrite Permutation_middle. }
  by rewrite H, app_nil_r.
Qed.

Lemma sort_by_sorted l : StronglySorted (fun a b => key a <= key b) (sort_by key l).
Proof.
  unfold sort_by. assert (forall acc, StronglySorted (fun a b => key a <= key b) acc ->
    StronglySorted (fun a b => key a <= key b) (foldl (fun acc x => insert_by key x acc) acc l)) as H.
  { induction l as [|x l IH]; intros acc Ha; simpl; [done|]. apply IH. by apply insert_by_sorted. }
  apply H. constructor.
Qed.

End Sorting.

(** The rules of one inbound: the enabled ones that name it or every inbound. *)
Lemma groupRules_in in_ id rule :
  rule ∈ groupRules in_ id <->
    rule ∈ Rules in_ /\ Enable rule = true /\
    (if bool_decide (Scope_ rule = ScopeAll) then id ∈ InboundID <$> Subjects in_ else id ∈ IngressIDs rule).
Proof.
  unfold groupRules. rewrite elem_of_concat. split.
  - intros (l & (r & -> & Hr)%list_elem_of_fmap & Hin). rewrite sort_by_perm in Hr.
    destruct (Enable r) eqn:He; simpl in Hin; [|by apply elem_of_nil in Hin].
    apply list_elem_of_fmap in Hin as (i & -> & [-> Hi]%list_elem_of_filter).
    split_and!; [done..|]. by case_bool_decide.
  - intros (Hr & He & Hid). eexists. split.
    + apply list_elem_of_fmap. exists rule. split; [done|]. by rewrite sort_by_perm.
    + rewrite He. simpl. apply list_elem_of_fmap. exists id. split; [done|]. apply list_elem_of_filter.
      split; [done|]. by case_bool_decide.
Qed.

Lemma fmap_const_sorted {A B} (R : A -> A -> Prop) (r : A) (l : list B) :
  R r r -> StronglySorted R ((fun _ => r) <$> l).
Proof.
  intros Hr. induction l as [|x l IH]; simpl; constructor; [done|]. apply Forall_fmap.
  apply Forall_forall. auto.
Qed.

Lemma groupRules_sorted in_ id :
  StronglySorted (fun a b => SortIndex a <= SortIndex b) (groupRules in_ id).
Proof.
  unfold groupRules. pose proof (sort_by_sorted SortIndex (Rules in_)) as Hs.
  induction Hs as [|r l _ IH Hr]; [constructor|]. cbn [fmap list_fmap concat].
  apply StronglySorted_app. split_and!; [| |exact IH].
  - intros a b Ha Hb. assert (a = r) as ->.
    { destruct (negb (Enable r)); [by apply elem_of_nil in Ha|].
      by apply list_elem_of_fmap in Ha as (? & -> & _). }
    apply elem_of_concat in Hb as (l' & (r' & -> & Hr')%list_elem_of_fmap & Hb).
    destruct (negb (Enable r')); [by apply elem_of_nil in Hb|].
    apply list_elem_of_fmap in Hb as (? & -> & _). rewrite Forall_forall in Hr. auto.
  - destruct (negb (Enable r)); [constructor|]. apply fmap_const_sorted. lia.
Qed.

Lemma plan_rules_ok in_ subject tag pattern rules : forall p,
  plan_ok in_ p -> (forall r, r ∈ rules -> r ∈ Rules in_) ->
  plan_ok in_ (foldl (plan_rule in_ subject tag pattern) p rules).
Proof.
  induction rules as [|r rules IH]; intros p Hp Hr; simpl; [done|].
  apply IH; [|set_solver]. apply plan_rule_ok; [done|set_solver].
Qed.

Lemma add_guard_ok in_ tag p : plan_ok in_ p -> plan_ok in_ (add_guard in_ tag p).
Proof.
  intros Hp. unfold add_guard. destruct (blackholeTag in_ p) as [p' hole] eqn:Hb.
  destruct (blackholeTag_ok _ _ _ _ Hp Hb) as (Hp' & _ & Hh). apply add_rule_ok; [done|].
  intros t. unfold guardRule. rewrite !lookup_insert_ne by done. rewrite lookup_singleton_eq.
  by intros [= <-].
Qed.

Lemma plan_subject_ok in_ p subject : plan_ok in_ p -> plan_ok in_ (plan_subject in_ p subject).
Proof.
  intros Hp. unfold plan_subject. case_bool_decide; [done|].
  set (rules := groupRules in_ (InboundID subject)).
  assert (forall r, r ∈ rules -> r ∈ Rules in_) as Hin by (intros r [? _]%groupRules_in; done).
  assert (forall f : Rule -> Diag, plan_ok in_ (foldl (fun p r => add_diag (f r) p) p rules)) as Hrep.
  { intros f. clear Hin. revert p Hp. induction rules as [|r l IH]; intros p Hp; simpl; [done|].
    apply IH. by apply add_diag_ok. }
  case_bool_decide; [apply (Hrep (fun r => mkDiag (rID r) _ _ _ _ _))|].
  case_bool_decide.
  - destruct (FrontIDFor in_ (InboundID subject)) as [f|]; [|apply (Hrep (fun r => mkDiag (rID r) _ _ _ _ _))].
    destruct (ValidID f); [|apply (Hrep (fun r => mkDiag (rID r) _ _ _ _ _))].
    apply plan_rules_ok; [|done]. apply add_guard_ok. by destruct Hp.
  - apply plan_rules_ok; [|done].
    assert (plan_ok in_ (if inspectedBy rules subject then add_inspect (hTag (Handle subject)) p else p)) as Hp'
      by (destruct (inspectedBy rules subject); [by destruct Hp|done]).
    destruct (Bridged subject); [by apply add_guard_ok|done].
Qed.

Lemma planned_ok in_ subjects : forall p,
  plan_ok in_ p -> plan_ok in_ (foldl (plan_subject in_) p subjects).
Proof. induction subjects as [|s l IH]; intros p Hp; simpl; [done|]. apply IH. by apply plan_subject_ok. Qed.

(** A compiled plan always loads and never leaks: no outbound tag is emitted twice
    (Xray refuses the whole configuration for one), every rule's outbound is either the
    operator's own or one the plan emits, and the plan emits only what it may: a
    blackhole when the template has none, the SOCKS port of a SOCKS exit, and a marked
    socket only for a device exit whose device exists, whose source addresses are not
    the panel's to rewrite and whose mark the host catches. *)
Theorem plan_outbounds (in_ : Input) :
  NoDup (oTag <$> Outbounds (Plan in_)) /\
  (forall b t, b ∈ XrayRules (Plan in_) -> b !! "outboundTag" = Some (JString t) ->
     template in_ t \/ exists o, o ∈ Outbounds (Plan in_) /\ oTag o = t) /\
  (forall o, o ∈ Outbounds (Plan in_) -> legit in_ o).
Proof.
  unfold Plan, relaxScopeAll. cbn [Outbounds XrayRules].
  destruct (planned_ok in_ (sort_by InboundID (Subjects in_)) (mkPlanning (mkCompiled [] [] [] [] []) ∅))
    as [Ht Hn Hl Hr]; [by split; simpl; try constructor|].
  pose proof (proj1 (Forall_forall _ _) Hl) as Hl'. pose proof (proj1 (Forall_forall _ _) Hr) as Hr'.
  split_and!; [done| |done].
  intros b t Hb Hbt. destruct (Hr' b Hb t Hbt) as [?|Hin]; [by left|right].
  rewrite Ht, elem_of_list_to_set in Hin. apply list_elem_of_fmap in Hin as (o & -> & Ho). eauto.
Qed.

(** ** Diagnoses *)

#[local] Open Scope list_scope.

Abbreviation pairs l := ((fun d => (RuleID d, SubjectTag d)) <$> l).

(** A compiled pair is diagnosed under its own names, and emits a rule exactly when it
    is not refused. *)
Definition diagnosed (rule : Rule) (subject : Subject) (a : answer) : Prop :=
  let '(xr, diag, ob) := a in
  RuleID diag = rID rule /\ SubjectTag diag = sTag subject /\
  (is_Some xr <-> Severity diag = SeverityOK \/ Severity diag = SeverityWarn) /\
  (xr = None <-> Severity diag = SeverityInert).

Lemma diagnosed_inert rule subject key args :
  diagnosed rule subject (None, inert rule subject key args, None).
Proof.
  do 2 (split; [done|]). split; split; try done. simpl. intros [H|H]; discriminate H.
Qed.

Lemma diagnosed_some rule subject b p s key args ob :
  s = SeverityOK \/ s = SeverityWarn ->
  diagnosed rule subject (Some b, mkDiag (rID rule) (sTag subject) p s key args, ob).
Proof.
  intros Hs. do 2 (split; [done|]). split; simpl; split; try done. intros ->. by destruct Hs.
Qed.

#[local] Hint Resolve diagnosed_inert diagnosed_some : pui.

Lemma compileRule_diagnosed in_ rule subject tag pattern :
  diagnosed rule subject (compileRule in_ rule subject tag pattern).
Proof.
  unfold compileRule, compileExit.
  destruct (forbiddenCriterion rule subject); [auto with pui|].
  repeat case_bool_decide; auto with pui.
  - destruct (blockDest in_ _) as [b o]. auto with pui.
  - destruct (findExit _ _) as [exit|]; [|auto with pui].
    destruct (eKind exit); [auto with pui| | |auto with pui].
    + destruct (_ || _); [auto with pui|]. destruct (Contained exit); [|auto with pui].
      destruct (blockDest in_ _) as [b o]. auto with pui.
    + destruct (if TCPOnly _ then _ else _) as [b n]. destruct n; auto with pui.
Qed.

Lemma add_outbound_diags o p : Diags (out (add_outbound o p)) = Diags (out p).
Proof. unfold add_outbound. by case_bool_decide. Qed.

Lemma blackholeTag_diags in_ p : Diags (out (blackholeTag in_ p).1) = Diags (out p).
Proof. unfold blackholeTag. case_bool_decide; [done|]. apply add_outbound_diags. Qed.

Lemma add_guard_diags in_ tag p : Diags (out (add_guard in_ tag p)) = Diags (out p).
Proof.
  unfold add_guard. pose proof (blackholeTag_diags in_ p) as H.
  by destruct (blackholeTag in_ p) as [p' hole].
Qed.

Lemma plan_rule_diags in_ subject tag pattern p rule :
  pairs (Diags (out (plan_rule in_ subject tag pattern p rule))) =
    pairs (Diags (out p)) ++ [(rID rule, sTag subject)].
Proof.
  unfold plan_rule. pose proof (compileRule_diagnosed in_ rule subject tag pattern) as Hd.
  destruct (compileRule in_ rule subject tag pattern) as [[xr d] ob]. destruct Hd as (Hi & Hs & _).
  set (p1 := match xr with Some b => add_rule b (add_diag d p) | None => add_diag d p end).
  assert (Diags (out p1) = Diags (out p) ++ [d]) as Hp1 by (unfold p1; by destruct xr).
  clearbody p1. match goal with |- context [match ob with Some o => add_outbound o ?q | None => _ end] =>
    assert (Diags (out q) = Diags (out p1)) as Hq; [|set (p2 := q) in *; clearbody p2] end.
  { case_bool_decide; [|done]. pose proof (blackholeTag_diags in_ p1) as Hb.
    by destruct (blackholeTag in_ p1) as [p2 hole]. }
  assert (Diags (out (match ob with Some o => add_outbound o p2 | None => p2 end)) = Diags (out p2)) as ->
    by (destruct ob; [apply add_outbound_diags|done]).
  rewrite Hq, Hp1, fmap_app. simpl. by rewrite Hi, Hs.
Qed.

Lemma plan_rules_diags in_ subject tag pattern rules : forall p,
  pairs (Diags (out (foldl (plan_rule in_ subject tag pattern) p rules))) =
    pairs (Diags (out p)) ++ ((fun r => (rID r, sTag subject)) <$> rules).
Proof.
  induction rules as [|r rules IH]; intros p; simpl; [by rewrite app_nil_r|].
  by rewrite IH, plan_rule_diags, <- (assoc_L (++)).
Qed.

Lemma plan_subject_diags in_ p subject :
  pairs (Diags (out (plan_subject in_ p subject))) =
    pairs (Diags (out p)) ++
      ((fun r => (rID r, sTag subject)) <$> groupRules in_ (InboundID subject)).
Proof.
  unfold plan_subject. set (rules := groupRules in_ (InboundID subject)).
  case_bool_decide as Hnil. { rewrite Hnil. by rewrite app_nil_r. }
  assert (forall sev key args,
    pairs (Diags (out (foldl (fun p r => add_diag (mkDiag (rID r) (sTag subject) PatternInert sev key args) p) p rules))) =
    pairs (Diags (out p)) ++ ((fun r => (rID r, sTag subject)) <$> rules)) as Hrep.
  { intros sev key args. clearbody rules. clear Hnil. revert p. induction rules as [|r l IH]; intros p; simpl;
      [by rewrite app_nil_r|]. rewrite IH. simpl. by rewrite fmap_app, <- (assoc_L (++)). }
  case_bool_decide; [apply Hrep|]. case_bool_decide.
  - destruct (FrontIDFor in_ (InboundID subject)) as [f|]; [|apply Hrep].
    destruct (ValidID f); [|apply Hrep]. by rewrite plan_rules_diags, add_guard_diags.
  - rewrite plan_rules_diags. f_equal. f_equal.
    destruct (Bridged subject); [rewrite add_guard_diags|]; by destruct (inspectedBy rules subject).
Qed.

Lemma planned_diags in_ subjects : forall p,
  pairs (Diags (out (foldl (plan_subject in_) p subjects))) =
    pairs (Diags (out p)) ++
      concat ((fun s => (fun r => (rID r, sTag s)) <$> groupRules in_ (InboundID s)) <$> subjects).
Proof.
  induction subjects as [|s l IH]; intros p; simpl; [by rewrite app_nil_r|].
  by rewrite IH, plan_subject_diags, <- (assoc_L (++)).
Qed.

(** The operator is told about every pair and first match is kept: the diagnoses
    are exactly one for each enabled rule on each inbound it applies to, inbound by
    inbound and in the operator's order; the rules of an inbound are the enabled ones
    that name it (or every inbound), by sort index; and a pair compiles to an Xray rule
    exactly when its own diagnosis is ok or a warning. *)
Theorem plan_reports_every_pair (in_ : Input) :
  pairs (Diags (Plan in_)) =
    concat ((fun s => (fun r => (rID r, sTag s)) <$> groupRules in_ (InboundID s)) <$>
              sort_by InboundID (Subjects in_)) /\
  (forall id, StronglySorted (fun a b => SortIndex a <= SortIndex b) (groupRules in_ id)) /\
  (forall id rule, rule ∈ groupRules in_ id <->
     rule ∈ Rules in_ /\ Enable rule = true /\
     (if bool_decide (Scope_ rule = ScopeAll) then id ∈ InboundID <$> Subjects in_ else id ∈ IngressIDs rule)) /\
  (forall rule subject tag pattern, diagnosed rule subject (compileRule in_ rule subject tag pattern)).
Proof.
  split_and!; [|apply groupRules_sorted|intros; apply groupRules_in|intros; apply compileRule_diagnosed].
  unfold Plan, relaxScopeAll. cbn [Diags]. rewrite <- list_fmap_compose.
  rewrite (list_fmap_ext _ (fun d => (RuleID d, SubjectTag d))).
  - by rewrite planned_diags.
  - intros i d _. unfold compose, relax_diag. by destruct (_ && _).
Qed.

(** ** Containment *)

Definition from (tag : string) (b : body) : Prop := b !! "inboundTag" = Some (JStrings [tag]).

Lemma narrowToTCP_from tag b : from tag b -> from tag (narrowToTCP b).1.
Proof.
  unfold narrowToTCP, from. intros Hb. destruct (b !! "network") as [raw|]; [|simpl; by rewrite lookup_insert_ne].
  destruct (unmarshal_string raw); [|simpl; by rewrite lookup_insert_ne].
  repeat case_bool_decide; simpl; try done; by rewrite lookup_insert_ne.
Qed.

Lemma blockDest_from in_ tag b : from tag b -> from tag (blockDest in_ b).1.
Proof. unfold blockDest, from. intros Hb. case_bool_decide; simpl; by rewrite lookup_insert_ne. Qed.

Lemma compileRule_from in_ rule subject tag pattern b :
  (compileRule in_ rule subject tag pattern).1.1 = Some b -> from tag b.
Proof.
  unfold compileRule. destruct (forbiddenCriterion rule subject); [done|].
  set (b0 := <[ "inboundTag" := JStrings [tag] ]> (<[ "type" := JString "field" ]> (Criteria rule))).
  assert (from tag b0) as Hb0 by (unfold from, b0; apply lookup_insert_eq). clearbody b0.
  assert (forall k v, k <> "inboundTag" -> from tag (<[ k := v ]> b0)) as Hins
    by (intros k v Hk; unfold from; by rewrite lookup_insert_ne).
  case_bool_decide; [intros [= <-]; by apply Hins|]. case_bool_decide; [intros [= <-]; by apply Hins|].
  case_bool_decide. { case_bool_decide; [done|]. intros [= <-]. by apply Hins. }
  case_bool_decide.
  { pose proof (blockDest_from in_ tag b0 Hb0). destruct (blockDest in_ b0). by intros [= <-]. }
  case_bool_decide; [|done]. destruct (findExit _ _) as [exit|]; [|done]. unfold compileExit.
  destruct (eKind exit); [done| | |intros [= <-]; by apply Hins].
  - destruct (_ || _); [done|]. destruct (Contained exit); [|intros [= <-]; by apply Hins].
    pose proof (blockDest_from in_ tag b0 Hb0). destruct (blockDest in_ b0). by intros [= <-].
  - assert (from tag (if TCPOnly (eHandle exit) then narrowToTCP b0 else (b0, narrowSilent)).1) as Hn.
    { destruct (TCPOnly _); [by apply narrowToTCP_from|done]. }
    destruct (if TCPOnly _ then _ else _) as [b1 n]. simpl in Hn. unfold from in *.
    destruct n; [| |done]; intros [= <-]; by rewrite lookup_insert_ne.
Qed.

Lemma add_outbound_rules o p : XrayRules (out (add_outbound o p)) = XrayRules (out p).
Proof. unfold add_outbound. by case_bool_decide. Qed.

Lemma blackholeTag_rules in_ p :
  XrayRules (out (blackholeTag in_ p).1) = XrayRules (out p) /\
  ((blackholeTag in_ p).2 = Blackhole in_ \/ (blackholeTag in_ p).2 = synthBlockTag).
Proof. unfold blackholeTag. case_bool_decide; [auto|]. split; [apply add_outbound_rules|by right]. Qed.

(** A rule adds rules of its own inbound. *)
Lemma plan_rule_rules in_ subject tag pattern p rule :
  exists rest, XrayRules (out (plan_rule in_ subject tag pattern p rule)) = XrayRules (out p) ++ rest /\
    Forall (from tag) rest.
Proof.
  unfold plan_rule. pose proof (compileRule_from in_ rule subject tag pattern) as Hf.
  pose proof (compileRule_diagnosed in_ rule subject tag pattern) as Hd.
  assert (MessageKey (compileRule in_ rule subject tag pattern).1.2 = KeyExitTCPNarrowed ->
          is_Some (compileRule in_ rule subject tag pattern).1.1) as Hk.
  { clear. unfold compileRule, compileExit. destruct (forbiddenCriterion rule subject); [done|].
    repeat case_bool_decide; try done; try (destruct (blockDest in_ _); done).
    destruct (findExit _ _) as [exit|]; [|done]. destruct (eKind exit); try done.
    - destruct (_ || _); [simpl; by case_bool_decide|].
      destruct (Contained exit); [by destruct (blockDest in_ _)|done].
    - destruct (if TCPOnly _ then _ else _) as [b n]. by destruct n. }
  destruct (compileRule in_ rule subject tag pattern) as [[xr d] ob]. simpl in Hf, Hk. clear Hd.
  assert (forall q, XrayRules (out (match ob with Some o => add_outbound o q | None => q end)) =
                    XrayRules (out q)) as Hob by (intros q; destruct ob; [apply add_outbound_rules|done]).
  rewrite Hob. case_bool_decide as Hkey.
  - destruct (Hk Hkey) as [b ->]. specialize (Hf b eq_refl). simpl.
    destruct (blackholeTag_rules in_ (add_rule b (add_diag d p))) as [Hr _].
    destruct (blackholeTag in_ (add_rule b (add_diag d p))) as [p' hole]. simpl in *. rewrite Hr.
    exists [b; udpCompanion b hole]. rewrite <- (assoc_L (++)). split; [done|].
    repeat constructor; [done|]. unfold from, udpCompanion in *. by rewrite !lookup_insert_ne.
  - destruct xr as [b|]; [exists [b]; simpl; auto|exists []]. by rewrite app_nil_r.
Qed.

Lemma plan_rules_rules in_ subject tag pattern rules : forall p,
  exists rest, XrayRules (out (foldl (plan_rule in_ subject tag pattern) p rules)) = XrayRules (out p) ++ rest /\
    Forall (from tag) rest.
Proof.
  induction rules as [|r rules IH]; intros p; simpl; [exists []; by rewrite app_nil_r|].
  destruct (IH (plan_rule in_ subject tag pattern p r)) as (rest & -> & Hr).
  destruct (plan_rule_rules in_ subject tag pattern p r) as (rest0 & -> & Hr0).
  exists (rest0 ++ rest). rewrite (assoc_L (++)). split; [done|]. by apply Forall_app.
Qed.

(** The tag a contained subject's rules match on: its front's device, or the bridge. *)
Definition contained_tag (in_ : Input) (s : Subject) : option string :=
  if bool_decide (hTag (Handle s) = "") then
    f ← FrontIDFor in_ (InboundID s); if ValidID f then Some (Device f) else None
  else if Bridged s then Some (hTag (Handle s)) else None.

(** The tag the rules of a subject match on, when it has any. *)
Definition rules_tag (in_ : Input) (s : Subject) : option string :=
  if bool_decide (hTag (Handle s) = "") then
    f ← FrontIDFor in_ (InboundID s); if ValidID f then Some (Device f) else None
  else Some (hTag (Handle s)).

(** Outbounds are only ever added. *)
Definition grows (p q : planning) : Prop := exists more, Outbounds (out q) = Outbounds (out p) ++ more.
Lemma grows_refl p : grows p p.
Proof. exists []. by rewrite app_nil_r. Qed.
Lemma grows_trans p q r : grows p q -> grows q r -> grows p r.
Proof. intros [m1 H1] [m2 H2]. exists (m1 ++ m2). by rewrite H2, H1, (assoc_L (++)). Qed.
Lemma add_outbound_grows o p : grows p (add_outbound o p).
Proof. unfold add_outbound. case_bool_decide; [apply grows_refl|by eexists]. Qed.
Lemma blackholeTag_grows in_ p : grows p (blackholeTag in_ p).1.
Proof. unfold blackholeTag. case_bool_decide; [apply grows_refl|apply add_outbound_grows]. Qed.
Lemma plan_rule_grows in_ subject tag pattern p rule : grows p (plan_rule in_ subject tag pattern p rule).
Proof.
  unfold plan_rule. destruct (compileRule in_ rule subject tag pattern) as [[xr d] ob].
  set (p1 := match xr with Some b => add_rule b (add_diag d p) | None => add_diag d p end). assert (grows p p1) as H1 by (destruct xr; exists []; by rewrite app_nil_r).
  set (p2 := if bool_decide (MessageKey d = KeyExitTCPNarrowed) then _ else p1). assert (grows p1 p2) as H2.
  { subst p2. case_bool_decide; [|apply grows_refl]. pose proof (blackholeTag_grows in_ p1) as Hbg. by destruct (blackholeTag in_ p1). }
  eapply grows_trans; [exact H1|]. eapply grows_trans; [exact H2|]. destruct ob; [apply add_outbound_grows|apply grows_refl].
Qed.
Lemma plan_rules_grows in_ subject tag pattern rules : forall p, grows p (foldl (plan_rule in_ subject tag pattern) p rules).
Proof. induction rules as [|r rules IH]; intros p; [apply grows_refl|]. eapply grows_trans; [apply plan_rule_grows|apply IH]. Qed.

(** An outbound that drops what reaches it: the template's, or one the plan emits. *)
Definition drops (in_ : Input) (outbounds : list Outbound) (hole : string) : Prop :=
  hole <> "" /\ (hole = Blackhole in_ \/ (Blackhole in_ = "" /\ blackholeOutbound hole ∈ outbounds)).
Lemma drops_grows in_ p q hole : grows p q -> drops in_ (Outbounds (out p)) hole -> drops in_ (Outbounds (out q)) hole.
Proof. intros [more E] [H1 H2]. split; [done|]. rewrite E, elem_of_app. tauto. Qed.
Lemma exit_is_no_block id : exitOutboundTag id <> synthBlockTag.
Proof. unfold exitOutboundTag, synthBlockTag. cbn. intros [= E]. change (Itoa id = "block") in E. pose proof (free_Itoa (Ascii.Ascii false true false false false true true false) id eq_refl ltac:(done)) as H. by rewrite E in H. Qed.
Lemma blackholeTag_drops in_ p : plan_ok in_ p -> drops in_ (Outbounds (out (blackholeTag in_ p).1)) (blackholeTag in_ p).2.
Proof.
  intros Hp. unfold blackholeTag. case_bool_decide as Hb; [by split; [|left]|]. split; [done|]. right. split; [done|]. cbn [fst snd].
  unfold add_outbound, synthesizedTag. case_bool_decide as He; [|cbn; apply elem_of_app; right; left]. cbn in He. rewrite (po_tags _ _ Hp), elem_of_list_to_set in He. apply list_elem_of_fmap in He as (o & Eo & Ho).
  pose proof (proj1 (Forall_forall _ _) (po_legit _ _ Hp) o Ho) as [[_ ->]|(x & _ & [[_ ->]|[_ ->]])]; [done|..]; by destruct (exit_is_no_block (eID x)).
Qed.

(** The rules a subject adds: none, or rules of its own tag, and for a contained subject
    the guard first. *)
Lemma plan_subject_rules in_ p s : plan_ok in_ p ->
  grows p (plan_subject in_ p s) /\ exists rest, XrayRules (out (plan_subject in_ p s)) = XrayRules (out p) ++ rest /\
    (rest = [] \/ exists tag, rules_tag in_ s = Some tag /\ Forall (from tag) rest /\
       (contained_tag in_ s = Some tag -> exists hole tail, rest = guardRule tag hole :: tail /\ drops in_ (Outbounds (out (plan_subject in_ p s))) hole)) /\
    (groupRules in_ (InboundID s) <> [] /\ BlockedKey (Handle s) = "" /\ is_Some (contained_tag in_ s) -> rest <> []).
Proof.
  intros Hp. unfold plan_subject, rules_tag, contained_tag. set (rules := groupRules in_ (InboundID s)).
  assert (forall q, XrayRules (out q) = XrayRules (out p) -> Outbounds (out q) = Outbounds (out p) -> forall (r : list body -> Prop) (n : Prop), ~ n -> grows p q /\ exists rest, XrayRules (out q) = XrayRules (out p) ++ rest /\ (rest = [] \/ r rest) /\ (n -> rest <> [])) as Hnone.
  { intros q E1 E2 r n Hn. split; [exists []; by rewrite app_nil_r|]. exists []. rewrite app_nil_r. split; [done|]. split; [by left|done]. }
  assert (forall f : Rule -> Diag, let q := foldl (fun p r => add_diag (f r) p) p rules in XrayRules (out q) = XrayRules (out p) /\ Outbounds (out q) = Outbounds (out p)) as Hrep.
  { intros f. cbn zeta. clear. revert p. induction rules as [|r l IH]; intros p; [done|]. cbn [foldl]. destruct (IH (add_diag (f r) p)) as [-> ->]. done. }
  assert (forall q tag pattern, plan_ok in_ q -> XrayRules (out q) = XrayRules (out p) -> Outbounds (out q) = Outbounds (out p) ->
    let q' := foldl (plan_rule in_ s tag pattern) (add_guard in_ tag q) rules in grows p q' /\ exists tail hole, XrayRules (out q') = XrayRules (out p) ++ guardRule tag hole :: tail /\
      Forall (from tag) (guardRule tag hole :: tail) /\ drops in_ (Outbounds (out q')) hole) as Hguard.
  { intros q tag pattern Hq E1 E2. cbn zeta. destruct (plan_rules_rules in_ s tag pattern rules (add_guard in_ tag q)) as (rest & -> & Hr). pose proof (plan_rules_grows in_ s tag pattern rules (add_guard in_ tag q)) as Hg.
    unfold add_guard in *. destruct (blackholeTag_rules in_ q) as [Hx _]. pose proof (blackholeTag_drops in_ q Hq) as Hd. pose proof (blackholeTag_grows in_ q) as Hbg. destruct (blackholeTag in_ q) as [q1 hole]. cbn [fst snd] in *.
    assert (grows q1 (foldl (plan_rule in_ s tag pattern) (add_rule (guardRule tag hole) q1) rules)) as Hg' by done. split.
    - eapply grows_trans; [|exact Hg']. destruct Hbg as [more E]. exists more. by rewrite E, E2.
    - exists rest, hole. cbn [add_rule out XrayRules]. rewrite Hx, E1, <- (assoc_L (++)). split; [done|]. split; [|by eapply drops_grows]. constructor; [|done]. unfold from, guardRule. rewrite lookup_insert_ne by done. apply lookup_insert_eq. }
  case_bool_decide; [apply Hnone; [done..|]; by intros (? & ? & [? ?])|]. case_bool_decide. { destruct (Hrep (fun r => mkDiag (rID r) (sTag s) PatternInert SeverityBlocked (BlockedKey (Handle s)) ∅)). apply Hnone; [done..|]; by intros (? & ? & [? ?]). }
  case_bool_decide as Ht.
  - pose proof (Hrep (fun r => mkDiag (rID r) (sTag s) PatternInert SeverityInert KeyNoFront {[ "subject" := sTag s ]})) as [R1 R2]. destruct (FrontIDFor in_ (InboundID s)) as [f|]; [|apply Hnone; [done..|]; by intros (? & ? & [? ?])]. cbn [mbind option_bind].
    destruct (ValidID f); [|apply Hnone; [done..|]; by intros (? & ? & [? ?])]. set (q := add_front _ p). destruct (Hguard q (Device f) PatternInspected ltac:(by destruct Hp) eq_refl eq_refl) as (Hg & tail & hole & E & Hf & Hd). split; [done|]. eexists. split; [exact E|]. split; [right|done].
    exists (Device f). split; [done|]. split; [done|]. intros _. by exists hole, tail.
  - set (tag := hTag (Handle s)) in *. set (q := if inspectedBy rules s then add_inspect tag p else p).
    assert (plan_ok in_ q /\ XrayRules (out q) = XrayRules (out p) /\ Outbounds (out q) = Outbounds (out p)) as (Hq & E1 & E2) by (subst q; destruct (inspectedBy rules s); [by destruct Hp|done]).
    destruct (Bridged s) eqn:Hbr.
    + destruct (Hguard q tag PatternProxy Hq E1 E2) as (Hg & tail & hole & E & Hf & Hd). split; [done|]. eexists. split; [exact E|]. split; [right|done]. exists tag. split; [done|]. split; [done|]. intros _. by exists hole, tail.
    + destruct (plan_rules_rules in_ s tag PatternProxy rules q) as (rest & E & Hf). split; [destruct (plan_rules_grows in_ s tag PatternProxy rules q) as [more Em]; exists more; by rewrite Em, E2|]. exists rest. rewrite E, E1. split; [done|]. split; [right|by intros (_ & _ & [? ?])]. exists tag.
      split; [done|]. split; [done|]. done.
Qed.

(** The first rule that matches on [tag], if there is one, is a guard. *)
Definition guarded (in_ : Input) (tag : string) (rules : list body) (outbounds : list Outbound) : Prop :=
  Forall (fun b => ~ from tag b) rules \/
  exists before hole after, rules = before ++ guardRule tag hole :: after /\ Forall (fun b => ~ from tag b) before /\ drops in_ outbounds hole.
Lemma subjects_guarded in_ tag l : (forall s, s ∈ l -> rules_tag in_ s = Some tag -> contained_tag in_ s = Some tag) -> forall p,
  plan_ok in_ p -> guarded in_ tag (XrayRules (out p)) (Outbounds (out p)) ->
  let q := foldl (plan_subject in_) p l in guarded in_ tag (XrayRules (out q)) (Outbounds (out q)).
Proof.
  induction l as [|s l IH]; intros Hl p Hp Hg; [done|]. cbn [foldl]. apply IH; [intros; apply Hl; [by right|done]|by apply plan_subject_ok|].
  destruct (plan_subject_rules in_ p s Hp) as (Hgr & rest & E & Hrest & _). rewrite E. destruct Hg as [Hno|(before & hole & after & Er & Hb & Hd)].
  2:{ right. exists before, hole, (after ++ rest). rewrite Er, <- (assoc_L (++)). split; [done|]. split; [done|]. by eapply drops_grows. }
  destruct Hrest as [->|(t & Ht & Hf & Hc)]; [left; by rewrite app_nil_r|]. destruct (decide (t = tag)) as [->|Hne].
  - destruct (Hc (Hl s ltac:(left) Ht)) as (hole & tail & -> & Hd). right. by exists (XrayRules (out p)), hole, tail.
  - left. apply Forall_app. split; [done|]. eapply Forall_impl; [exact Hf|]. unfold from. intros b Hb Hb'. rewrite Hb in Hb'. congruence.
Qed.

(** A contained subject with rules has its guard. *)
Lemma subject_guarded in_ tag p s : plan_ok in_ p ->
  groupRules in_ (InboundID s) <> [] -> BlockedKey (Handle s) = "" -> contained_tag in_ s = Some tag -> Exists (from tag) (XrayRules (out (plan_subject in_ p s))).
Proof.
  intros Hp H1 H2 H3. destruct (plan_subject_rules in_ p s Hp) as (_ & rest & E & Hrest & Hne). rewrite E. apply Exists_app. right. specialize (Hne (conj H1 (conj H2 (ex_intro _ tag H3)))).
  destruct Hrest as [?|(t & Ht & Hf & _)]; [done|]. destruct rest as [|b rest]; [done|]. left. apply Forall_cons in Hf as [Hf _]. enough (t = tag) by by subst. revert Ht H3. unfold rules_tag, contained_tag.
  case_bool_decide; [intros E1 E2; rewrite E1 in E2; congruence|]. destruct (Bridged s); congruence.
Qed.
Lemma rules_kept in_ tag l : forall p, plan_ok in_ p -> Exists (from tag) (XrayRules (out p)) -> Exists (from tag) (XrayRules (out (foldl (plan_subject in_) p l))).
Proof.
  induction l as [|s l IH]; intros p Hp H; [done|]. cbn [foldl]. apply IH; [by apply plan_subject_ok|]. destruct (plan_subject_rules in_ p s Hp) as (_ & rest & E & _). rewrite E. apply Exists_app. by left.
Qed.

(** C34: fronts and bridges are contained.  When an inbound is a front or a bridge, has
    rules and is not blocked, and every inbound whose rules match on its tag is one too,
    the plan has a rule for that tag, and the first one is the guard: private addresses go
    to an outbound that drops them, ahead of anything the operator wrote.  That outbound
    is the template's blackhole or, when it has none, one the plan emits. *)
Theorem fronts_are_contained (in_ : Input) (s : Subject) (tag : string) :
  s ∈ Subjects in_ -> groupRules in_ (InboundID s) <> [] -> BlockedKey (Handle s) = "" -> contained_tag in_ s = Some tag ->
  (forall s', s' ∈ Subjects in_ -> rules_tag in_ s' = Some tag -> contained_tag in_ s' = Some tag) ->
  exists before hole after, XrayRules (Plan in_) = before ++ guardRule tag hole :: after /\ Forall (fun b => ~ from tag b) before /\
    hole <> "" /\ (hole = Blackhole in_ \/ (Blackhole in_ = "" /\ mkOutbound hole PBlackhole ∈ Outbounds (Plan in_))).
Proof.
  intros Hs Hne Hb Ht Hall. unfold Plan, relaxScopeAll. cbn [XrayRules Outbounds]. set (p0 := mkPlanning _ ∅).
  assert (plan_ok in_ p0) as Hp0 by (by split; cbn; try constructor). assert (guarded in_ tag (XrayRules (out p0)) (Outbounds (out p0))) as Hg0 by (left; constructor).
  assert (forall s', s' ∈ sort_by InboundID (Subjects in_) -> s' ∈ Subjects in_) as Hin by (intros s' Hs'; by rewrite sort_by_perm in Hs').
  destruct (subjects_guarded in_ tag (sort_by InboundID (Subjects in_)) (fun s' H => Hall s' (Hin s' H)) p0 Hp0 Hg0) as [Hno|Hyes]; [exfalso|exact Hyes].
  assert (s ∈ sort_by InboundID (Subjects in_)) as Hmem by by rewrite sort_by_perm. apply list_elem_of_split in Hmem as (l1 & l2 & El).
  assert (Exists (from tag) (XrayRules (out (foldl (plan_subject in_) p0 (sort_by InboundID (Subjects in_)))))) as Hex.
  { rewrite El, foldl_app. cbn [foldl]. assert (plan_ok in_ (foldl (plan_subject in_) p0 l1)) as Hp1 by by apply planned_ok. apply rules_kept; [by apply plan_subject_ok|]. by apply subject_guarded. }
  apply Exists_exists in Hex as (b & Hb1 & Hb2). by apply (proj1 (Forall_forall _ _) Hno b Hb1).
Qed.

(** ** TCP-only exits *)

(** Narrowing a rule for a TCP-only exit: refused exactly when its network names UDP
    and not TCP; otherwise the rule that goes through carries no UDP, because it is
    pinned to TCP (and the operator is warned exactly when that changed what was said)
    or because its network list names something else than UDP. *)
Theorem narrowed_to_tcp (b b' : body) (r : narrowResult) :
  narrowToTCP b = (b', r) ->
  let network := match b !! "network" with Some raw => unmarshal_string raw | None => None end in
  let names w := match network with Some n => w ∈ network_words n | None => False end in
  (r = narrowRefused <-> names "udp" /\ ~ names "tcp") /\
  (r = narrowWarned <-> network = None \/ (names "udp" /\ names "tcp")) /\
  (r = narrowWarned -> b' = <[ "network" := JString "tcp" ]> b) /\
  (r <> narrowWarned -> b' = b) /\
  (r = narrowSilent <-> (exists n, network = Some n) /\ ~ names "udp").
Proof.
  unfold narrowToTCP. cbv zeta. destruct (b !! "network") as [raw|].
  - destruct (unmarshal_string raw) as [n|].
    + repeat case_bool_decide; simpl; intros [= <- <-]; split_and!; try tauto; try naive_solver.
    + intros [= <- <-]. split_and!; naive_solver.
  - intros [= <- <-]. split_and!; naive_solver.
Qed.

(** A network criterion that is present and empty says nothing, and is left alone. *)
Example empty_network_is_not_narrowed :
  narrowToTCP {[ "network" := JString "" ]} = ({[ "network" := JString "" ]}, narrowSilent).
Proof. vm_compute. reflexivity. Qed.

(** ** A concrete plan *)

Definition sample_subject : Subject := mkSubject 4 "wg-in" (mkIngress "wg0" "" [] "") false None.
Definition sample_rule : Rule :=
  mkRule 1 0 true ScopeAll [] (mkDest DestBlock "" 0) ∅ false.
Definition sample_input : Input :=
  mkInput [sample_rule] [sample_subject] [] "" "direct" (fun _ => Some 7).

Lemma fronts_are_contained_witness : exists before hole after, XrayRules (Plan sample_input) = before ++ guardRule "peg7" hole :: after /\ Forall (fun b => ~ from "peg7" b) before /\
  hole <> "" /\ (hole = "" \/ ("" = "" /\ mkOutbound hole PBlackhole ∈ Outbounds (Plan sample_input))).
Proof.
  apply (fronts_are_contained sample_input sample_subject "peg7"); [left|vm_compute; discriminate|reflexivity|by vm_compute|].
  intros s [->|Hs]%elem_of_cons; [intros _; by vm_compute|by apply not_elem_of_nil in Hs].
Defined.

Definition sample_both : body := {[ "network" := JString "TCP, udp" ]}.
Definition sample_tcp : body := <[ "network" := JString "tcp" ]> sample_both.

Lemma sample_narrowed : narrowToTCP sample_both = (sample_tcp, narrowWarned).
Proof. vm_compute. reflexivity. Qed.

Lemma narrowed_to_tcp_witness : sample_tcp = <[ "network" := JString "tcp" ]> sample_both.
Proof.
  exact (proj1 (proj2 (proj2 (narrowed_to_tcp sample_both sample_tcp narrowWarned sample_narrowed)))
    eq_refl).
Defined.
