(* ===== verification/Cycle.v ===== *)
(** * When a client's usage is reset next: policy/cycle.go

    A UTC time is its civil date and the nanoseconds since midnight.  [Date] is time.Date
    as the code calls it: months carry into years, and a day that is not in its month
    carries once, into the month before or after (the days asked for run from 0 to 38).
    [day_number] counts days and is the measure of the theorems. *)
From S2P Require Import Prelude.
Open Scope string_scope.
Open Scope Z_scope.

Record Time := mkTime { t_year : Z; t_month : Z; t_day : Z; t_clock : Z }.
(** [time.Time{}]: January 1 of year 1. *)
Definition zero_time : Time := mkTime 1 1 1 0.

Definition leap (y : Z) : bool := (y mod 4 =? 0) && (negb (y mod 100 =? 0) || (y mod 400 =? 0)).
Definition days_in (y m : Z) : Z :=
  if m =? 2 then (if leap y then 29 else 28) else if (m =? 4) || (m =? 6) || (m =? 9) || (m =? 11) then 30 else 31.

Definition Date (y m d clock : Z) : Time :=
  let y := y + (m - 1) / 12 in
  let m := (m - 1) mod 12 + 1 in
  if d <? 1 then
    let y' := if m =? 1 then y - 1 else y in
    let m' := if m =? 1 then 12 else m - 1 in
    mkTime y' m' (d + days_in y' m') clock
  else if days_in y m <? d then mkTime (if m =? 12 then y + 1 else y) (if m =? 12 then 1 else m + 1) (d - days_in y m) clock
  else mkTime y m d clock.
Definition AddDate (t : Time) (years months days : Z) : Time := Date (t_year t + years) (t_month t + months) (t_day t + days) (t_clock t).

Definition NextReset (last : Time) (cycle : string) : Time :=
  if bool_decide (cycle = "weekly") then AddDate last 0 0 7
  else if negb (bool_decide (cycle = "monthly")) then zero_time
  else
    let first := Date (t_year last) (t_month last + 1) 1 (t_clock last) in
    let end_ := t_day (AddDate first 0 1 (-1)) in
    AddDate first 0 0 (Z.min (t_day last) end_ - 1).

(** ** Counting days *)

Definition valid (t : Time) : Prop := 1 <= t_month t <= 12 /\ 1 <= t_day t <= days_in (t_year t) (t_month t).
(** Days of whole years, the year beginning in March, and of whole months. *)
Definition year_days (y : Z) : Z := 365 * y + y / 4 - y / 100 + y / 400.
Definition month_offset (m : Z) : Z := (153 * ((m + 9) mod 12) + 2) / 5.
Definition month_start (y m : Z) : Z := year_days (if m <=? 2 then y - 1 else y) + month_offset m.
Definition day_number (t : Time) : Z := month_start (t_year t) (t_month t) + t_day t.

Lemma days_in_range y m : 28 <= days_in y m <= 31.
Proof. unfold days_in. repeat case_match; lia. Qed.
Lemma leap_days y : year_days y = year_days (y - 1) + 365 + if leap y then 1 else 0.
Proof.
  unfold leap, year_days. destruct (y mod 4 =? 0) eqn:E1, (y mod 100 =? 0) eqn:E2, (y mod 400 =? 0) eqn:E3; bools; cbn [andb orb negb]; Z.to_euclidean_division_equations; lia.
Qed.

Ltac months m Hm := let E := fresh in assert (m = 1 \/ m = 2 \/ m = 3 \/ m = 4 \/ m = 5 \/ m = 6 \/ m = 7 \/ m = 8 \/ m = 9 \/ m = 10 \/ m = 11 \/ m = 12) as E by lia;
  repeat (destruct E as [-> |E]); [..|subst m].

(** A month starts where the month before ends. *)
Lemma month_follows y m : 1 <= m <= 12 ->
  month_start (if m =? 12 then y + 1 else y) (if m =? 12 then 1 else m + 1) = month_start y m + days_in y m.
Proof.
  intros Hm. pose proof (leap_days y) as L. unfold month_start, days_in.
  months m Hm; repeat match goal with |- context [month_offset ?k] => let v := eval vm_compute in (month_offset k) in change (month_offset k) with v end;
    repeat match goal with |- context [?a <=? 2] => let v := eval vm_compute in (a <=? 2) in change (a <=? 2) with v end;
    cbn -[Z.mul Z.add Z.sub year_days leap]; rewrite ?Z.add_simpl_r; destruct (leap y); lia.
Qed.

Lemma Date_valid y m d c : -27 <= d <= 56 -> valid (Date y m d c) /\ t_clock (Date y m d c) = c /\
  day_number (Date y m d c) = month_start (y + (m - 1) / 12) ((m - 1) mod 12 + 1) + d.
Proof.
  intros Hd. unfold Date. set (y1 := y + _). set (m1 := _ mod 12 + 1). assert (1 <= m1 <= 12) as Hm by (subst m1; Z.to_euclidean_division_equations; lia).
  pose proof (days_in_range y1 m1) as R. unfold valid, day_number. destruct (d <? 1) eqn:E1; bools; [|destruct (days_in y1 m1 <? d) eqn:E2; bools]; cbn [t_year t_month t_day t_clock].
  - set (y0 := if m1 =? 1 then y1 - 1 else y1). set (m0 := if m1 =? 1 then 12 else m1 - 1). pose proof (days_in_range y0 m0). assert (1 <= m0 <= 12) as Hm0 by (subst m0; case_match; bools; lia).
    pose proof (month_follows y0 m0 Hm0) as F. replace (if m0 =? 12 then y0 + 1 else y0) with y1 in F; [replace (if m0 =? 12 then 1 else m0 + 1) with m1 in F; [split_and!; lia|]|];
      subst y0 m0; destruct (m1 =? 1) eqn:E; bools; cbn; try lia; destruct (m1 - 1 =? 12) eqn:E'; bools; lia.
  - pose proof (month_follows y1 m1 ltac:(lia)) as F. set (y2 := if m1 =? 12 then y1 + 1 else y1) in *. set (m2 := if m1 =? 12 then 1 else m1 + 1) in *. pose proof (days_in_range y2 m2).
    split_and!; try lia; subst m2; case_match; bools; lia.
  - split_and!; lia.
Qed.

Lemma in_year y m : 1 <= m <= 12 -> month_start (y + (m - 1) / 12) ((m - 1) mod 12 + 1) = month_start y m.
Proof. intros Hm. rewrite Z.div_small, Z.mod_small by lia. f_equal; lia. Qed.
Lemma Date_in_month y m d c : 1 <= m <= 12 -> 1 <= d <= days_in y m -> Date y m d c = mkTime y m d c.
Proof.
  intros Hm Hd. unfold Date. rewrite Z.div_small, Z.mod_small, Z.add_0_r, Z.sub_add by lia. rewrite (proj2 (Z.ltb_ge d 1)) by lia. by rewrite (proj2 (Z.ltb_ge (days_in y m) d)) by lia.
Qed.
Lemma first_of_next y m c : 1 <= m <= 12 -> Date y (m + 1) 1 c = mkTime (if m =? 12 then y + 1 else y) (if m =? 12 then 1 else m + 1) 1 c.
Proof.
  intros Hm. pose proof (days_in_range (if m =? 12 then y + 1 else y) (if m =? 12 then 1 else m + 1)) as R. destruct (m =? 12) eqn:E; bools.
  - subst m. unfold Date. change ((12 + 1 - 1) / 12) with 1. change ((12 + 1 - 1) mod 12 + 1) with 1. cbn [Z.ltb Z.compare Pos.compare Pos.compare_cont]. rewrite (proj2 (Z.ltb_ge (days_in (y + 1) 1) 1)) by lia. done.
  - apply Date_in_month; lia.
Qed.
(** The day before the first of the month after is the last of the month. *)
Lemma last_day y m c : 1 <= m <= 12 -> t_day (AddDate (mkTime y m 1 c) 0 1 (-1)) = days_in y m.
Proof.
  intros Hm. unfold AddDate, Date. cbn [t_year t_month t_day t_clock]. rewrite Z.add_0_r. replace (1 + -1 <? 1) with true by done. cbn [t_day].
  destruct (decide (m = 12)) as [->|Hne]; [reflexivity|]. rewrite Z.div_small, Z.mod_small, Z.add_0_r by lia. rewrite (proj2 (Z.eqb_neq _ 1)) by lia. replace (m + 1 - 1 + 1 - 1) with m by lia. lia.
Qed.

(** The next reset falls at the same time of day.  A weekly cycle adds seven days.  A monthly
    one moves to the next month and keeps the day of the month, or takes the month's last
    day when it is shorter, so it is 28 to 31 days later and never skips a month; any
    other cycle has no next reset. *)
Theorem next_reset_is_the_next_period last cycle : valid last ->
  let next := NextReset last cycle in
  (cycle = "weekly" -> valid next /\ t_clock next = t_clock last /\ day_number next = day_number last + 7) /\
  (cycle = "monthly" -> valid next /\ t_clock next = t_clock last /\ 12 * t_year next + t_month next = 12 * t_year last + t_month last + 1 /\
     t_day next = Z.min (t_day last) (days_in (t_year next) (t_month next)) /\ 28 <= day_number next - day_number last <= 31) /\
  (cycle <> "weekly" -> cycle <> "monthly" -> next = zero_time).
Proof.
  intros [Hm Hd] next. pose proof (days_in_range (t_year last) (t_month last)) as R. split_and!.
  - intros ->. subst next. unfold NextReset, AddDate. rewrite bool_decide_eq_true_2, !Z.add_0_r by done.
    destruct (Date_valid (t_year last) (t_month last) (t_day last + 7) (t_clock last)) as (V & C & N); [lia|]. split_and!; [done..|]. rewrite N, in_year by done. unfold day_number. lia.
  - intros ->. subst next. unfold NextReset. rewrite bool_decide_eq_false_2, bool_decide_eq_true_2 by done. cbn [negb]. rewrite first_of_next by done.
    pose proof (month_follows (t_year last) (t_month last) Hm) as F. set (y := if _ =? 12 then _ else _) in *. set (m := if _ =? 12 then 1 else _) in *.
    assert (1 <= m <= 12 /\ 12 * y + m = 12 * t_year last + t_month last + 1) as [Hm' Hnext] by (subst y m; case_match; bools; lia).
    pose proof (days_in_range y m) as R'. rewrite last_day by done. unfold AddDate. cbn [t_year t_month t_day t_clock]. rewrite !Z.add_0_r, Date_in_month by lia.
    unfold valid, day_number. cbn [t_year t_month t_day t_clock]. rewrite F. lia.
  - intros H1 H2. subst next. unfold NextReset. by rewrite !bool_decide_eq_false_2.
Qed.

Lemma next_reset_is_the_next_period_witness :
  NextReset (mkTime 2027 1 31 5) "monthly" = mkTime 2027 2 28 5 /\ valid (NextReset (mkTime 2027 1 31 5) "monthly") /\ day_number (NextReset (mkTime 2028 2 27 5) "weekly") = day_number (mkTime 2028 2 27 5) + 7.
Proof.
  split; [reflexivity|]. split.
  - refine (proj1 (proj1 (proj2 (next_reset_is_the_next_period (mkTime 2027 1 31 5) "monthly" _)) eq_refl)). unfold valid. vm_compute. intuition congruence.
  - refine (proj2 (proj2 (proj1 (next_reset_is_the_next_period (mkTime 2028 2 27 5) "weekly" _) eq_refl))). unfold valid. vm_compute. intuition congruence.
Defined.
