(* ===== verification/WireguardKeys.v ===== *)
(** * WireGuard keys as text: util/wireguard/wireguard.go

    A key is 32 bytes; its text is hex, or base64 of the standard or the URL alphabet
    with or without padding.  [decodeWireguardKey] reads any of them, [KeyToHex] writes
    hex.  Text is a list of characters, a byte an integer below 256.  encoding/base64
    drops line ends and reports the offset of an illegal character; the offset is left
    out of the error here. *)
From S2P Require Import Prelude.
Open Scope string_scope.
Open Scope Z_scope.
Open Scope list_scope.

Abbreviation text := (list Ascii.ascii).
Definition chr (n : Z) : Ascii.ascii := Ascii.ascii_of_N (Z.to_N n).
Definition ord (c : Ascii.ascii) : Z := Z.of_N (Ascii.N_of_ascii c).

(** ** encoding/hex *)

Definition hex_digit (n : Z) : Ascii.ascii := if n <? 10 then chr (48 + n) else chr (87 + n).
Definition hex_value (c : Ascii.ascii) : option Z :=
  let n := ord c in
  if (48 <=? n) && (n <=? 57) then Some (n - 48)
  else if (97 <=? n) && (n <=? 102) then Some (n - 87)
  else if (65 <=? n) && (n <=? 70) then Some (n - 55) else None.

Fixpoint hex_EncodeToString (l : list Z) : text :=
  match l with
  | [] => []
  | b :: rest => hex_digit (b / 16) :: hex_digit (b mod 16) :: hex_EncodeToString rest
  end.
Fixpoint hex_DecodeString (s : text) : option (list Z) :=
  match s with
  | [] => Some []
  | a :: b :: rest => x ← hex_value a; y ← hex_value b; l ← hex_DecodeString rest; Some (x * 16 + y :: l)
  | [_] => None
  end.

(** ** encoding/base64 *)

Definition base64_value (c62 c63 : Z) (c : Ascii.ascii) : option Z :=
  let n := ord c in
  if (65 <=? n) && (n <=? 90) then Some (n - 65)
  else if (97 <=? n) && (n <=? 122) then Some (n - 71)
  else if (48 <=? n) && (n <=? 57) then Some (n + 4)
  else if n =? c62 then Some 62 else if n =? c63 then Some 63 else None.
Definition base64_digit (c62 c63 n : Z) : Ascii.ascii :=
  if n <? 26 then chr (n + 65) else if n <? 52 then chr (n + 71) else if n <? 62 then chr (n - 4) else if n =? 62 then chr c62 else chr c63.

Definition std_value := base64_value 43 47.
Definition url_value := base64_value 45 95.
Definition std_digit := base64_digit 43 47.
Definition url_digit := base64_digit 45 95.

(** Sextets to bytes: groups of four, then two or three left over. *)
Fixpoint sextets (l : list Z) : option (list Z) :=
  match l with
  | [] => Some []
  | a :: b :: c :: d :: rest =>
      let n := ((a * 64 + b) * 64 + c) * 64 + d in
      l ← sextets rest; Some (n / 65536 :: (n / 256) mod 256 :: n mod 256 :: l)
  | [a; b; c] => let n := (a * 64 + b) * 64 + c in Some [n / 1024; (n / 4) mod 256]
  | [a; b] => Some [(a * 64 + b) / 16]
  | [_] => None
  end.
Fixpoint to_sextets (l : list Z) : list Z :=
  match l with
  | [] => []
  | a :: b :: c :: rest =>
      let n := (a * 256 + b) * 256 + c in n / 262144 :: (n / 4096) mod 64 :: (n / 64) mod 64 :: n mod 64 :: to_sextets rest
  | [a; b] => let n := (a * 256 + b) * 4 in [n / 4096; (n / 64) mod 64; n mod 64]
  | [a] => let n := a * 16 in [n / 64; n mod 64]
  end.

(** [RawStdEncoding] and [RawURLEncoding]: no padding, line ends ignored. *)
Definition raw_DecodeString (value : Ascii.ascii -> option Z) (s : text) : option (list Z) :=
  l ← mapM value (filter (fun c => ord c <> 10 /\ ord c <> 13) s); sextets l.
Definition raw_EncodeToString (digit : Z -> Ascii.ascii) (l : list Z) : text := digit <$> to_sextets l.
Definition pad (s : text) : text := s ++ repeat (chr 61) (Z.to_nat ((- Z.of_nat (length s)) mod 4)).

(** ** wireguard.go *)

Fixpoint TrimRight (s : text) : text :=
  match s with
  | [] => []
  | c :: rest => match TrimRight rest with [] => if ord c =? 61 then [] else [c] | t => c :: t end
  end.

Definition err_empty : string := "wireguard: empty key".
Definition err_length : string := "wireguard: key must decode to 32 bytes".
Definition err_base64 : string := "illegal base64 data".

Definition of_length (raw : list Z) : string + list Z := if Nat.eqb (length raw) 32 then inr raw else inl err_length.

Definition decodeWireguardKey (key : text) : string + list Z :=
  match key with
  | [] => inl err_empty
  | _ =>
      match (if Nat.eqb (length key) 64 then hex_DecodeString key else None) with
      | Some raw => of_length raw
      | None =>
          let trimmed := TrimRight key in
          match (if existsb (fun c => (ord c =? 43) || (ord c =? 47)) trimmed then raw_DecodeString std_value trimmed else raw_DecodeString url_value trimmed) with
          | Some raw => of_length raw
          | None => inl err_base64
          end
      end
  end.

Definition KeyToHex (key : text) : string + text :=
  match key with
  | [] => inr []
  | _ => match decodeWireguardKey key with inl e => inl e | inr raw => inr (hex_EncodeToString raw) end
  end.

(** crypto/rand and curve25519: the random bytes are an argument, the base-point
    multiplication a parameter. *)
Section Generate.
Context (ScalarBaseMult : list Z -> list Z).

Definition clamp (priv : list Z) : list Z :=
  alter (fun b => Z.lor (Z.land b 127) 64) 31%nat (alter (fun b => Z.land b 248) 0%nat priv).
Definition std_EncodeToString (l : list Z) : text := pad (raw_EncodeToString std_digit l).

Definition GenerateWireguardKeypair (random : list Z) : text * text :=
  let priv := clamp random in (std_EncodeToString priv, std_EncodeToString (ScalarBaseMult priv)).
Definition GenerateWireguardPSK (random : list Z) : text := std_EncodeToString random.
Definition PublicKeyFromPrivate (privateKey : text) : string + text :=
  match decodeWireguardKey privateKey with inl e => inl e | inr priv => inr (std_EncodeToString (ScalarBaseMult priv)) end.
End Generate.

(** ** Reading back what was written *)

Definition bytes (l : list Z) : Prop := Forall (fun b => 0 <= b < 256) l.
Definition key_of (raw : list Z) : Prop := bytes raw /\ length raw = 32%nat.

Lemma list_ind3 {A} (P : list A -> Prop) : P [] -> (forall a, P [a]) -> (forall a b, P [a; b]) -> (forall a b c l, P l -> P (a :: b :: c :: l)) -> forall l, P l.
Proof. intros H0 H1 H2 H3. fix IH 1. intros [|a [|b [|c l]]]; [done|done|done|apply H3, IH]. Qed.

Ltac euclid := Z.to_euclidean_division_equations; lia.
Lemma sextets_back l : bytes l -> sextets (to_sextets l) = Some l.
Proof.
  unfold bytes. induction l as [|a|a b|a b c l IH] using list_ind3; intros H; [done| | |].
  - apply Forall_singleton in H. cbn [to_sextets sextets]. do 2 f_equal. euclid.
  - rewrite !Forall_cons in H. destruct H as (Ha & Hb & _). cbn [to_sextets sextets]. do 2 f_equal; [euclid|f_equal; euclid].
  - rewrite !Forall_cons in H. destruct H as (Ha & Hb & Hc & H). cbn [to_sextets sextets]. rewrite (IH H). cbn [mbind option_bind].
    do 2 f_equal; [euclid|]. f_equal; [euclid|]. f_equal. euclid.
Qed.
Lemma to_sextets_range l : bytes l -> Forall (fun n => 0 <= n < 64) (to_sextets l).
Proof.
  unfold bytes. induction l as [|a|a b|a b c l IH] using list_ind3; intros; [done|..]; cbn [to_sextets]; repeat match goal with H : Forall _ (_ :: _) |- _ => apply Forall_cons in H as [? H] end;
    repeat (apply Forall_cons; split; [euclid|]); auto.
Qed.
Lemma to_sextets_length l : (3 * length (to_sextets l) = 4 * length l \/ 3 * length (to_sextets l) = 4 * length l + 2 \/ 3 * length (to_sextets l) = 4 * length l + 1)%nat.
Proof. induction l as [|a|a b|a b c l IH] using list_ind3; cbn [to_sextets length]; lia. Qed.

(** A property of the 64 digits, or of the 16, checked on each. *)
Lemma digits_all (k : nat) (P : Z -> Prop) `{forall n, Decision (P n)} : forallb (fun n => bool_decide (P n)) (Z.of_nat <$> seq 0 k) = true -> forall n, 0 <= n < Z.of_nat k -> P n.
Proof.
  intros E n Hn. rewrite forallb_forall in E. apply (bool_decide_eq_true (P n)), E, list_elem_of_In, list_elem_of_fmap. exists (Z.to_nat n). split; [lia|]. apply elem_of_seq. lia.
Qed.
Ltac by_digits k := lazymatch goal with Hn : 0 <= ?n < _ |- _ => revert n Hn; refine (digits_all k _ _); vm_compute; reflexivity end.

Lemma std_back n : 0 <= n < 64 -> std_value (std_digit n) = Some n.
Proof. intros Hn. by_digits 64%nat. Qed.
Lemma url_back n : 0 <= n < 64 -> url_value (url_digit n) = Some n.
Proof. intros Hn. by_digits 64%nat. Qed.
Lemma hex_back n : 0 <= n < 16 -> hex_value (hex_digit n) = Some n.
Proof. intros Hn. by_digits 16%nat. Qed.
Lemma url_no_plus n : 0 <= n < 64 -> ord (url_digit n) <> 43 /\ ord (url_digit n) <> 47.
Proof. intros Hn. by_digits 64%nat. Qed.
Lemma std_legible n : 0 <= n < 64 -> ord (std_digit n) <> 10 /\ ord (std_digit n) <> 13 /\ ord (std_digit n) <> 61.
Proof. intros Hn. by_digits 64%nat. Qed.
Lemma url_legible n : 0 <= n < 64 -> ord (url_digit n) <> 10 /\ ord (url_digit n) <> 13 /\ ord (url_digit n) <> 61.
Proof. intros Hn. by_digits 64%nat. Qed.

(** The alphabets differ in two characters only. *)
Lemma alphabets_agree c : ord c <> 43 -> ord c <> 47 -> forall n, std_value c = Some n -> url_value c = Some n.
Proof.
  unfold std_value, url_value, base64_value. intros H1 H2 n. repeat case_match; bools; try done; lia.
Qed.

Section Text.
Context (value : Ascii.ascii -> option Z) (digit : Z -> Ascii.ascii).
Context (Hback : forall n, 0 <= n < 64 -> value (digit n) = Some n).
Context (Hleg : forall n, 0 <= n < 64 -> ord (digit n) <> 10 /\ ord (digit n) <> 13 /\ ord (digit n) <> 61).

Lemma mapM_digits ns : Forall (fun n => 0 <= n < 64) ns -> mapM value (digit <$> ns) = Some ns.
Proof. induction 1 as [|n ns Hn _ IH]; [done|]. rewrite fmap_cons. cbn [mapM]. rewrite Hback by done. cbn. by rewrite IH. Qed.
Lemma no_line_ends ns : Forall (fun n => 0 <= n < 64) ns -> filter (fun c => ord c <> 10 /\ ord c <> 13) (digit <$> ns) = digit <$> ns.
Proof. induction 1 as [|n ns Hn _ IH]; [done|]. rewrite fmap_cons, filter_cons_True, IH; [done|]. destruct (Hleg n Hn) as (? & ? & ?). done. Qed.
Lemma raw_back l : bytes l -> raw_DecodeString value (raw_EncodeToString digit l) = Some l.
Proof.
  intros H. unfold raw_DecodeString, raw_EncodeToString. pose proof (to_sextets_range l H) as Hr. rewrite no_line_ends, mapM_digits by done. by apply sextets_back.
Qed.
Lemma trim_digits k ns : Forall (fun n => 0 <= n < 64) ns -> TrimRight ((digit <$> ns) ++ repeat (chr 61) k) = digit <$> ns.
Proof.
  assert (TrimRight (repeat (chr 61) k) = []) as Hp. { induction k as [|k IH]; [done|]. cbn [repeat TrimRight]. by rewrite IH. }
  induction 1 as [|n ns Hn _ IH]; [done|]. rewrite fmap_cons, <-app_comm_cons. cbn [TrimRight]. rewrite IH.
  destruct (digit <$> ns); [|done]. destruct (Hleg n Hn) as (_ & _ & H). by rewrite (proj2 (Z.eqb_neq _ _)).
Qed.
End Text.

Lemma mapM_agree (f g : Ascii.ascii -> option Z) s l : (forall c, c ∈ s -> forall n, f c = Some n -> g c = Some n) -> mapM f s = Some l -> mapM g s = Some l.
Proof.
  revert l. induction s as [|c s IH]; intros l H E; [done|]. cbn in *. destruct (f c) as [n|] eqn:Ec; [|done]. rewrite (H c (or_introl eq_refl) _ Ec) || rewrite (H c ltac:(left) _ Ec).
  cbn in *. destruct (mapM f s) as [l'|] eqn:Es; [|done]. rewrite (IH l'); [done| |done]. intros c' Hc'. apply H. by right.
Qed.

Lemma existsb_false {A} (p : A -> bool) l : existsb p l = false <-> forall x, x ∈ l -> p x = false.
Proof.
  split.
  - intros H x Hx. destruct (p x) eqn:E; [|done]. rewrite <-H. symmetry. apply existsb_exists. exists x. by rewrite list_elem_of_In in Hx.
  - intros H. destruct (existsb p l) eqn:E; [|done]. apply existsb_exists in E as (x & Hx & Hp). rewrite H in Hp; [done|]. by apply list_elem_of_In.
Qed.

(** What a padded or unpadded text of either alphabet decodes to. *)
Lemma base64_read raw k (std : bool) : key_of raw -> (k <= 20)%nat ->
  decodeWireguardKey (raw_EncodeToString (if std then std_digit else url_digit) raw ++ repeat (chr 61) k) = inr raw.
Proof.
  intros [Hb Hl] Hk. set (digit := if std then std_digit else url_digit). pose proof (to_sextets_range raw Hb) as Hr.
  assert (length (raw_EncodeToString digit raw) = 43%nat) as Hlen. { unfold raw_EncodeToString. rewrite length_fmap. pose proof (to_sextets_length raw). lia. }
  assert (TrimRight (raw_EncodeToString digit raw ++ repeat (chr 61) k) = raw_EncodeToString digit raw) as Ht.
  { apply trim_digits; [|done]. subst digit. destruct std; [apply std_legible|apply url_legible]. }
  unfold decodeWireguardKey. rewrite length_app, repeat_length, Hlen. replace (Nat.eqb (43 + k) 64) with false by (symmetry; apply Nat.eqb_neq; lia). rewrite Ht.
  destruct (raw_EncodeToString digit raw ++ _) as [|c0 rest] eqn:E0; [apply (f_equal length) in E0; rewrite length_app, Hlen in E0; done|].
  enough ((if existsb (fun c => (ord c =? 43) || (ord c =? 47)) (raw_EncodeToString digit raw) then raw_DecodeString std_value (raw_EncodeToString digit raw)
           else raw_DecodeString url_value (raw_EncodeToString digit raw)) = Some raw) as -> by (unfold of_length; by rewrite Hl).
  subst digit. destruct std.
  - pose proof (raw_back _ _ std_back std_legible raw Hb) as Hstd. destruct (existsb _ _) eqn:Ex; [done|].
    unfold raw_DecodeString in *. destruct (mapM std_value _) as [l|] eqn:Em; [|done]. apply (mapM_agree _ url_value) in Em; [by rewrite Em|].
    intros c Hc n. apply list_elem_of_filter in Hc as [_ Hc]. rewrite existsb_false in Ex. specialize (Ex _ Hc). bools. by apply alphabets_agree.
  - rewrite (proj2 (existsb_false _ _)); [by apply raw_back; [apply url_back|apply url_legible|]|]. intros c Hc. unfold raw_EncodeToString in Hc.
    apply list_elem_of_fmap in Hc as (n & -> & Hn). rewrite Forall_forall in Hr. destruct (url_no_plus n (Hr _ Hn)). bools. done.
Qed.

Lemma hex_read l : bytes l -> hex_DecodeString (hex_EncodeToString l) = Some l.
Proof.
  induction 1 as [|b l Hb _ IH]; [done|]. cbn [hex_EncodeToString hex_DecodeString]. rewrite !hex_back by euclid. cbn [mbind option_bind]. rewrite IH. cbn. do 2 f_equal. euclid.
Qed.
Lemma hex_length l : length (hex_EncodeToString l) = (2 * length l)%nat.
Proof. induction l as [|b l IH]; [done|]. cbn [hex_EncodeToString length]. lia. Qed.

Lemma std_read raw : key_of raw -> decodeWireguardKey (std_EncodeToString raw) = inr raw.
Proof. intros H. unfold std_EncodeToString, pad. apply (base64_read raw _ true H). euclid. Qed.
Lemma hex_key_read raw : key_of raw -> decodeWireguardKey (hex_EncodeToString raw) = inr raw.
Proof.
  intros [Hb Hl]. pose proof (hex_length raw) as H. unfold decodeWireguardKey. rewrite H, Hl, hex_read by done. cbn [Nat.mul Nat.add Nat.eqb].
  destruct (hex_EncodeToString raw); [cbn in H; lia|]. unfold of_length. by rewrite Hl.
Qed.

(** C39: a key written in any of the forms the panel meets, hex or base64 of either alphabet
    with padding or without, is read back as the same 32 bytes, and [KeyToHex] renders
    each of them as the hex form the core expects. *)
Theorem keys_read_back raw : key_of raw ->
  Forall (fun key => decodeWireguardKey key = inr raw /\ KeyToHex key = inr (hex_EncodeToString raw))
    [hex_EncodeToString raw; std_EncodeToString raw; raw_EncodeToString std_digit raw; pad (raw_EncodeToString url_digit raw); raw_EncodeToString url_digit raw].
Proof.
  intros H. assert (forall key, decodeWireguardKey key = inr raw -> decodeWireguardKey key = inr raw /\ KeyToHex key = inr (hex_EncodeToString raw)) as Hk.
  { intros [|c key] E; [done|]. unfold KeyToHex. by rewrite E. }
  repeat apply Forall_cons_2; [..|done]; apply Hk; [by apply hex_key_read|by apply std_read|..].
  - rewrite <-(app_nil_r (raw_EncodeToString _ _)). apply (base64_read raw 0 true H). lia.
  - apply (base64_read raw _ false H). euclid.
  - rewrite <-(app_nil_r (raw_EncodeToString _ _)). apply (base64_read raw 0 false H). lia.
Qed.

Definition sample_key : list Z := Z.of_nat <$> seq 220 32.
Lemma sample_key_ok : key_of sample_key.
Proof. split; [|done]. unfold bytes. apply (bool_decide_eq_true _). vm_compute. reflexivity. Qed.
Lemma keys_read_back_witness : KeyToHex (std_EncodeToString sample_key) = inr (hex_EncodeToString sample_key).
Proof. pose proof (keys_read_back sample_key sample_key_ok) as H. rewrite !Forall_cons in H. apply H. Defined.

Lemma clamp_low b : 0 <= b < 256 -> (0 <= Z.land b 248 < 256) /\ Z.land b 248 mod 8 = 0.
Proof. intros Hb. by_digits 256%nat. Qed.
Lemma clamp_high b : 0 <= b < 256 -> 64 <= Z.lor (Z.land b 127) 64 < 128.
Proof. intros Hb. by_digits 256%nat. Qed.
Lemma clamp_key l : key_of l -> key_of (clamp l).
Proof.
  intros [Hb Hl]. split; [|unfold clamp; by rewrite !length_alter]. unfold clamp, bytes. apply Forall_alter; [apply Forall_alter; [done|]|]; intros b _ H.
  - by apply clamp_low.
  - pose proof (clamp_high b H). lia.
Qed.

(** A generated pair belongs together: the public key the panel derives from the private
    text is the one that was generated with it, the private key is clamped (its low three
    bits clear, its top bit clear and the next one set), and both are read by the core. *)
Theorem generated_pair_matches (ScalarBaseMult : list Z -> list Z) random : key_of random -> (forall k, key_of k -> key_of (ScalarBaseMult k)) ->
  let '(priv, pub) := GenerateWireguardKeypair ScalarBaseMult random in
  PublicKeyFromPrivate ScalarBaseMult priv = inr pub /\ KeyToHex pub = inr (hex_EncodeToString (ScalarBaseMult (clamp random))) /\
  exists k first last, decodeWireguardKey priv = inr k /\ k !! 0%nat = Some first /\ first mod 8 = 0 /\ k !! 31%nat = Some last /\ 64 <= last < 128.
Proof.
  intros Hr Hs. pose proof (clamp_key _ Hr) as Hc. unfold GenerateWireguardKeypair, PublicKeyFromPrivate. rewrite (std_read _ Hc). split_and!; [done| |].
  - unfold KeyToHex. pose proof (std_read _ (Hs _ Hc)) as E. destruct (std_EncodeToString _); [done|]. by rewrite E.
  - destruct Hr as [Hb Hl]. destruct random as [|b0 random]; [done|]. destruct (lookup_lt_is_Some_2 (b0 :: random) 31%nat) as [b31 E31]; [lia|].
    pose proof (Forall_lookup_1 _ _ _ _ Hb E31) as H31. cbv beta in H31. apply Forall_cons in Hb as [Hb0 _]. cbv beta in Hb0. exists (clamp (b0 :: random)), (Z.land b0 248), (Z.lor (Z.land b31 127) 64).
    split_and!; [done..| |unfold clamp; by rewrite list_lookup_alter_eq, list_lookup_alter_ne, E31|apply clamp_high; lia|apply clamp_high; lia]. by apply clamp_low.
Qed.

Lemma generated_pair_matches_witness : PublicKeyFromPrivate (@rev Z) (GenerateWireguardKeypair (@rev Z) sample_key).1 = inr (GenerateWireguardKeypair (@rev Z) sample_key).2.
Proof.
  refine (proj1 (generated_pair_matches (@rev Z) sample_key sample_key_ok _)). intros k [Hb Hl]. split; [|by rewrite length_rev]. unfold bytes in *. by apply Forall_rev.
Defined.
