(* ===== verification/WgDevice.v ===== *)
(** * Kernel WireGuard devices: wireguard/device.go and plane.go

    The desired state of an inbound's device and the differences from what the kernel
    holds.  A key is its 32 bytes, an allowed network ([net.IPNet]) an address with the
    length of its mask, a UDP address its IP and port; netip.ParsePrefix, ParseAddr and
    net.ResolveUDPAddr are an interface ([Parsers]), and the text of a network is that of
    the prefix net.IPNet prints, a 4-in-6 network as its IPv4 form. *)
From S2P Require Import Prelude Decimal Netip WireguardKeys.
Open Scope string_scope.
Open Scope Z_scope.
Open Scope list_scope.

Abbreviation Key := (list Z).
Definition zero_key : Key := repeat 0 32.
Definition Key_String (k : Key) : string := String.string_of_list_ascii (std_EncodeToString k).
Abbreviation IPNet := Prefix.
Record UDPAddr := mkUDP { u_ip : Addr; u_port : Z }.

Class Parsers := { ParsePrefix : string -> option Prefix; ParseAddr : string -> option Addr; ResolveUDPAddr : string -> option UDPAddr }.
(** What is parsed is a valid prefix or a valid address, which may have a zone. *)
Class ParsersLaws `{!Parsers} : Prop := {
  ParsePrefix_valid : forall s p, ParsePrefix s = Some p -> Prefix_IsValid p = true;
  ParseAddr_valid : forall s a, ParseAddr s = Some a -> IsValid a = true }.

(** ** Desired state *)

Record Peer := mkPeer { Email : string; PublicKey : string; PreSharedKey : string; AllowedIPs : list string; KeepAlive : Z; Endpoint : string }.
Record Instance_ := mkInstance {
  ID : Z; Tag : string; Port : Z; PrivateKey : string; Address : list string; MTU : Z; FWMark : Z; Peers : list Peer; TransportPadding : Z }.

(** Errors, one constructor per message. *)
Inductive wg_error :=
| UnusablePrivateKey (id : Z) (e : string) | InvalidAddress (v : string) | UnusablePublicKey (email e : string) | NoPublicKey (email : string)
| UnusablePSK (email e : string) | InvalidAllowedIP (v : string) | UnreachableEndpoint (v : string)
| SharedPublicKey (other email : string) | SharedAllowedIP (other email prefix : string)
| PlaneErr (e : error) | NoDevice (name : string)
| AddAddrErr (p : Prefix) (e : error) | DropAddrErr (p : Prefix) (e : error) | RouteErr (p : Prefix) (e : error) | UnrouteErr (p : Prefix) (e : error)
| DeleteErr (name : string) (e : error) | InboundErr (id : Z) (l : list wg_error).

Definition interfacePrefix : string := "pwg".
Definition UplinkPrefix : string := "pux".
Definition nameIn (prefix : string) (id : Z) : string := prefix +:+ Itoa id.
Definition InterfaceName (id : Z) : string := nameIn interfacePrefix id.
Definition ownedIDIn (prefix name : string) : option Z :=
  rest ← CutPrefix name prefix; id ← Atoi rest; if (id <=? 0) || negb (bool_decide (nameIn prefix id = name)) then None else Some id.

Definition DefaultMTU : Z := 1420.
Definition MinMTU : Z := 1280.
Definition DeviceMTU (configured transportPadding : Z) : Z :=
  if 0 <? configured then configured else let derived := DefaultMTU - transportPadding in if derived <? MinMTU then MinMTU else derived.
Definition linkMTU := DeviceMTU.

(** ** Parsing *)

Definition parseKey (s : string) : string + Key :=
  let s := TrimSpace s in
  if bool_decide (s = "") then inr zero_key
  else match KeyToHex (String.list_ascii_of_string s) with
       | inl e => inl e
       | inr encoded =>
           match hex_DecodeString encoded with
           | None => inl "encoding/hex: invalid byte"
           | Some raw => if Nat.eqb (length raw) 32 then inr raw else inl "wgtypes: incorrect key size"
           end
       end.

Record PeerConfig := mkPeerConfig {
  pc_key : Key; pc_remove : bool; pc_updateOnly : bool; pc_psk : option Key; pc_endpoint : option UDPAddr; pc_keepalive : option Z;
  pc_replace : bool; pc_allowed : list IPNet }.
Definition removal (k : Key) : PeerConfig := mkPeerConfig k true false None None None false [].

(** A peer as the kernel reports it. *)
Record WPeer := mkWPeer {
  wp_key : Key; wp_psk : Key; wp_endpoint : option UDPAddr; wp_keepalive : Z; wp_handshake : option Z; wp_rx : Z; wp_tx : Z; wp_allowed : list IPNet }.
Record Device := mkDevice { d_private : Key; d_port : Z; d_fwmark : Z; d_peers : list WPeer }.
Record LinkState := mkLinkState { ls_index : Z; ls_mtu : Z; ls_up : bool; ls_created : bool }.
Record Snapshot := mkSnapshot { s_exists : bool; s_link : LinkState; s_device : Device; s_addrs : list Prefix; s_routes : list Prefix }.
Definition no_link : LinkState := mkLinkState 0 0 false false.
Definition no_snapshot : Snapshot := mkSnapshot false no_link (mkDevice zero_key 0 0 []) [] [].

Section Parsing.
Context {HP : Parsers} {HT : PrefixText}.

(** A prefix, or an address as the prefix of itself: [netip.PrefixFrom] drops its zone.
    Blank entries are skipped. *)
Definition parse_entry (v : string) : option Prefix :=
  match ParsePrefix v with
  | Some p => Some p
  | None => (fun addr => mkPrefix (WithoutZone addr) (BitLen addr)) <$> ParseAddr v
  end.
Fixpoint parse_entries (bad : string -> wg_error) (f : Prefix -> Prefix) (values : list string) : wg_error + list Prefix :=
  match values with
  | [] => inr []
  | v :: rest =>
      let v := TrimSpace v in
      if bool_decide (v = "") then parse_entries bad f rest
      else match parse_entry v with
           | None => inl (bad v)
           | Some p => match parse_entries bad f rest with inl e => inl e | inr out => inr (f p :: out) end
           end
  end.
Definition parseAllowedIPs (values : list string) : wg_error + list Prefix := parse_entries InvalidAllowedIP Masked values.
Definition parsePrefixes (values : list string) : wg_error + list Prefix := parse_entries InvalidAddress id values.

Definition toIPNet (p : Prefix) : IPNet := mkPrefix (WithoutZone (pAddr p)) (pBits p).
Definition toPrefix (n : IPNet) : option Prefix :=
  let addr := Unmap (pAddr n) in if BitLen addr <? pBits n then None else Some (mkPrefix addr (pBits n)).
(** [IPNet.String]: a 4-in-6 network under its IPv4 mask. *)
Definition printed (n : IPNet) : Prefix :=
  if bool_decide (Unmap (pAddr n) = pAddr n) || (pBits n <? 96) then n else mkPrefix (Unmap (pAddr n)) (pBits n - 96).
Definition IPNet_String (n : IPNet) : string := prefix_string (printed n).

Definition parseEndpoint (value : string) : wg_error + option UDPAddr :=
  let value := TrimSpace value in
  if bool_decide (value = "") then inr None else match ResolveUDPAddr value with Some a => inr (Some a) | None => inl (UnreachableEndpoint value) end.

Definition desiredPeer (p : Peer) : wg_error + PeerConfig :=
  match parseKey (PublicKey p) with
  | inl e => inl (UnusablePublicKey (Email p) e)
  | inr key =>
      if bool_decide (key = zero_key) then inl (NoPublicKey (Email p))
      else match parseKey (PreSharedKey p) with
           | inl e => inl (UnusablePSK (Email p) e)
           | inr psk =>
               match parseAllowedIPs (AllowedIPs p) with
               | inl e => inl e
               | inr allowed =>
                   match parseEndpoint (Endpoint p) with
                   | inl e => inl e
                   | inr endpoint => inr (mkPeerConfig key false false (Some psk) endpoint (Some (i64 (KeepAlive p * Second))) true (toIPNet <$> allowed))
                   end
               end
           end
  end.

Fixpoint claimedAllowedIP (claimed : gmap string string) (allowed : list IPNet) : option (string * string) :=
  match allowed with
  | [] => None
  | n :: rest => match claimed !! IPNet_String n with Some other => if bool_decide (other = "") then None else Some (IPNet_String n, other) | None => claimedAllowedIP claimed rest end
  end.

(** The loop of [desiredPeers] with its two maps. *)
Fixpoint desired_loop (seen : gmap Key string) (claimed : gmap string string) (peers : list Peer) : list PeerConfig * list wg_error :=
  match peers with
  | [] => ([], [])
  | p :: rest =>
      match desiredPeer p with
      | inl err => let '(out, rejected) := desired_loop seen claimed rest in (out, err :: rejected)
      | inr cfg =>
          match seen !! pc_key cfg with
          | Some other => let '(out, rejected) := desired_loop seen claimed rest in (out, SharedPublicKey other (Email p) :: rejected)
          | None =>
              match claimedAllowedIP claimed (pc_allowed cfg) with
              | Some (prefix, other) => let '(out, rejected) := desired_loop seen claimed rest in (out, SharedAllowedIP other (Email p) prefix :: rejected)
              | None =>
                  let claimed := foldl (fun m n => <[IPNet_String n := Email p]> m) claimed (pc_allowed cfg) in
                  let '(out, rejected) := desired_loop (<[pc_key cfg := Email p]> seen) claimed rest in (cfg :: out, rejected)
              end
          end
      end
  end.
Definition desiredPeers (peers : list Peer) : list PeerConfig * list wg_error := desired_loop ∅ ∅ peers.
End Parsing.

(** ** Differences *)

Definition udp_same (a b : UDPAddr) : bool := bool_decide (Unmap (u_ip a) = Unmap (u_ip b)) && (u_port a =? u_port b).
#[global] Instance string_le_total : Total String.le := _.

Section Diffs.
Context {HT : PrefixText}.

Definition sorted_texts (l : list IPNet) : list string := merge_sort String.le (IPNet_String <$> l).
Definition peerEqual (cur : WPeer) (want : PeerConfig) : bool :=
  match pc_psk want, pc_keepalive want with
  | Some psk, Some keepalive =>
      (match pc_endpoint want with None => true | Some e => match wp_endpoint cur with None => false | Some c => udp_same c e end end) &&
      bool_decide (wp_psk cur = psk) && (wp_keepalive cur =? keepalive) && Nat.eqb (length (wp_allowed cur)) (length (pc_allowed want)) &&
      bool_decide (sorted_texts (wp_allowed cur) = sorted_texts (pc_allowed want))
  | _, _ => false
  end.

(** Of two peers under one key the later is held. *)
Definition held_peers (current : list WPeer) : gmap Key WPeer := foldl (fun m p => <[wp_key p := p]> m) ∅ current.
Definition diffPeers (current : list WPeer) (desired : list PeerConfig) (full : bool) : list PeerConfig :=
  let have := held_peers current in
  filter (fun cfg => negb (negb full && match have !! pc_key cfg with Some cur => peerEqual cur cfg | None => false end) = true) desired ++
  (removal ∘ wp_key <$> filter (fun p => wp_key p ∉ pc_key <$> desired) current).

Fixpoint upsertPeer (current : list WPeer) (want : PeerConfig) : PeerConfig * bool :=
  match current with
  | [] => (want, true)
  | p :: rest => if bool_decide (wp_key p = pc_key want) then (want, negb (peerEqual p want)) else upsertPeer rest want
  end.

Record deviceDelta := mkDelta { dd_private : option Key; dd_port : option Z; dd_fwmark : option Z }.
Definition no_delta : deviceDelta := mkDelta None None None.
Definition delta_empty (d : deviceDelta) : bool := match d with mkDelta None None None => true | _ => false end.
Definition diffDevice (cur : Device) (key : Key) (port fwmark : Z) (full : bool) : deviceDelta :=
  mkDelta (if full || negb (bool_decide (d_private cur = key)) then Some key else None)
    (if negb (port =? 0) && (full || negb (d_port cur =? port)) then Some port else None)
    (if full || negb (d_fwmark cur =? fwmark) then Some fwmark else None).

(** [IsLinkLocalUnicast]: 169.254.0.0/16 and fe80::/10, a 4-in-6 address by its IPv4 form. *)
Definition IsLinkLocalUnicast (a : Addr) : bool :=
  match Unmap a with Addr4 ip => ip / 65536 =? 43518 | Addr6 ip _ => ip / 2 ^ 118 =? 1018 | AddrInvalid => false end.

(** The entries of [desired] not held and the entries of [current] not desired, by their
    text, leaving out the entries [spared]. *)
Definition diff_prefixes (spared : Prefix -> bool) (current desired : list Prefix) : list Prefix * list Prefix :=
  let have := prefix_string <$> filter (fun p => spared p = false) current in
  let want := prefix_string <$> desired in
  (filter (fun p => prefix_string p ∉ have) desired, filter (fun p => spared p = false /\ prefix_string p ∉ want) current).
Definition diffAddrs (current desired : list Prefix) : list Prefix * list Prefix :=
  diff_prefixes (fun p => IsLinkLocalUnicast (pAddr p)) current desired.

Definition coveredByAddrs (p : Prefix) (addrs : list Prefix) : bool :=
  existsb (fun a => let network := Masked a in (pBits network <=? pBits p) && Contains network (pAddr p)) addrs.
Definition kernelOwned (p : Prefix) (addrs : list Prefix) : bool := IsLinkLocalUnicast (pAddr p) || coveredByAddrs p addrs.

(** One network of one peer. *)
Definition add_route (addrs : list Prefix) (out : list Prefix) (n : IPNet) : list Prefix :=
  match toPrefix n with
  | None => out
  | Some prefix =>
      if (pBits prefix =? 0) || coveredByAddrs prefix addrs then out
      else if bool_decide (prefix_string prefix ∈ prefix_string <$> out) then out else out ++ [prefix]
  end.
Definition desiredRoutes (addrs : list Prefix) (peers : list PeerConfig) : list Prefix :=
  foldl (add_route addrs) [] (concat (pc_allowed <$> filter (fun p => pc_remove p = false) peers)).
Definition diffRoutes (current desired addrs : list Prefix) : list Prefix * list Prefix :=
  diff_prefixes (fun p => kernelOwned p addrs) current desired.
End Diffs.

(** ** The host network stack *)

Class Plane (W : Type) := {
  plane_Probe : W -> result unit;
  plane_Snapshot : W -> string -> result Snapshot;
  plane_Links : W -> result (list string);
  EnsureLink : W -> string -> Z -> W * result LinkState;
  DeleteLink : W -> string -> W * result unit;
  (** the scalars and the peers of one push; [ReplacePeers] is never set *)
  Configure : W -> string -> deviceDelta -> list PeerConfig -> W * result unit;
  AddAddr : W -> string -> Prefix -> W * result unit;
  DelAddr : W -> string -> Prefix -> W * result unit;
  AddRoute : W -> string -> Prefix -> W * result unit;
  DelRoute : W -> string -> Prefix -> W * result unit }.
