(* ===== verification/WgKernel.v ===== *)
(** * The network stack the WireGuard engine is driven with: wireguard/wgtest/kernel.go

    In memory, with the kernel's answers: a removed peer loses its counters, a prefix a
    later peer claims moves to it, an address brings its connected route and takes it
    away, and a route is added or deleted once.  The record of pushes and the accessors of
    the tests are left out; the count of pushes is kept. *)
From S2P Require Import Prelude Netip WireguardKeys WgDevice.
Open Scope string_scope.
Open Scope Z_scope.
Open Scope list_scope.

Record counter := mkCnt { c_up : Z; c_down : Z; c_handshake : option Z; c_endpoint : option UDPAddr }.
Record link := mkLink {
  l_index : Z; l_mtu : Z; l_up : bool; l_private : Key; l_port : Z; l_fwmark : Z; l_peers : gmap Key WPeer; l_counters : gmap Key counter;
  l_addrs : list Prefix; l_routes : list Prefix }.
Record Kernel := mkKernel { links : gmap string link; nextIndex : Z; LinkCreates : Z; LinkDeletes : Z; Configures : Z; ProbeErr : option error }.
Definition New : Kernel := mkKernel ∅ 10 0 0 0 None.

Definition ErrNoDevice : error := ErrorText "wireguard: the device is gone".
Definition ErrCarries : error := ErrorText "wgtest: the device already carries the address".
Definition ErrRoutes : error := ErrorText "wgtest: the device already routes the prefix".
Definition ErrNoRoute : error := ErrorText "wgtest: the device does not route the prefix".

Definition on_link (f : link -> link) (name : string) (k : Kernel) : Kernel :=
  mkKernel (alter f name (links k)) (nextIndex k) (LinkCreates k) (LinkDeletes k) (Configures k) (ProbeErr k).
Definition with_peers (peers : gmap Key WPeer) (counters : gmap Key counter) (l : link) : link :=
  mkLink (l_index l) (l_mtu l) (l_up l) (l_private l) (l_port l) (l_fwmark l) peers counters (l_addrs l) (l_routes l).
Definition with_net (addrs routes : list Prefix) (l : link) : link :=
  mkLink (l_index l) (l_mtu l) (l_up l) (l_private l) (l_port l) (l_fwmark l) (l_peers l) (l_counters l) addrs routes.
Definition with_scalars (private : Key) (port fwmark : Z) (l : link) : link :=
  mkLink (l_index l) (l_mtu l) (l_up l) private port fwmark (l_peers l) (l_counters l) (l_addrs l) (l_routes l).

(** ** Reading *)

Definition report (counters : gmap Key counter) (key : Key) (p : WPeer) : WPeer :=
  match counters !! key with
  | Some c => mkWPeer (wp_key p) (wp_psk p) (c_endpoint c) (wp_keepalive p) (c_handshake c) (c_up c) (c_down c) (wp_allowed p)
  | None => p
  end.
Definition stray (key : Key) (c : counter) : WPeer := mkWPeer key zero_key (c_endpoint c) 0 (c_handshake c) (c_up c) (c_down c) [].
Definition by_text (a b : WPeer) : Prop := String.le (Key_String (wp_key a)) (Key_String (wp_key b)).
#[global] Instance by_text_dec a b : Decision (by_text a b) := _.
Definition device (l : link) : Device :=
  mkDevice (l_private l) (l_port l) (l_fwmark l)
    (merge_sort by_text (((fun kp => report (l_counters l) kp.1 kp.2) <$> map_to_list (l_peers l)) ++
                         ((fun kc => stray kc.1 kc.2) <$> filter (fun kc => l_peers l !! kc.1 = None) (map_to_list (l_counters l))))).

Definition Kernel_Snapshot (k : Kernel) (name : string) : result Snapshot :=
  match links k !! name with
  | None => Ok no_snapshot
  | Some l => Ok (mkSnapshot true (mkLinkState (l_index l) (l_mtu l) (l_up l) false) (device l) (l_addrs l) (l_routes l))
  end.
Definition Kernel_Links (k : Kernel) : result (list string) := Ok (merge_sort String.le (map_to_list (links k)).*1).

(** ** Writing *)

Definition Kernel_EnsureLink (k : Kernel) (name : string) (mtu : Z) : Kernel * result LinkState :=
  match links k !! name with
  | None =>
      let index := nextIndex k + 1 in
      let l := mkLink index mtu true zero_key 0 0 ∅ ∅ [] [] in
      (mkKernel (<[name := l]> (links k)) index (LinkCreates k + 1) (LinkDeletes k) (Configures k) (ProbeErr k), Ok (mkLinkState index mtu true true))
  | Some l =>
      let mtu' := if 0 <? mtu then mtu else l_mtu l in
      (on_link (fun l => mkLink (l_index l) mtu' true (l_private l) (l_port l) (l_fwmark l) (l_peers l) (l_counters l) (l_addrs l) (l_routes l)) name k,
       Ok (mkLinkState (l_index l) mtu' true false))
  end.
Definition Kernel_DeleteLink (k : Kernel) (name : string) : Kernel * result unit :=
  if bool_decide (is_Some (links k !! name)) then (mkKernel (delete name (links k)) (nextIndex k) (LinkCreates k) (LinkDeletes k + 1) (Configures k) (ProbeErr k), Ok tt)
  else (k, Ok tt).

Section Writes.
Context {HT : PrefixText}.

(** A prefix a peer claims leaves whoever else holds it. *)
Definition without_net (n : IPNet) (p : WPeer) : WPeer :=
  mkWPeer (wp_key p) (wp_psk p) (wp_endpoint p) (wp_keepalive p) (wp_handshake p) (wp_rx p) (wp_tx p) (filter (fun have => IPNet_String have <> IPNet_String n) (wp_allowed p)).
Definition move_net (key : Key) (peers : gmap Key WPeer) (n : IPNet) : gmap Key WPeer :=
  map_imap (fun k p => Some (if bool_decide (k = key) then p else without_net n p)) peers.
Definition upserted (cur : WPeer) (pc : PeerConfig) : WPeer :=
  mkWPeer (wp_key cur) (default (wp_psk cur) (pc_psk pc)) (match pc_endpoint pc with Some e => Some e | None => wp_endpoint cur end)
    (default (wp_keepalive cur) (pc_keepalive pc)) (wp_handshake cur) (wp_rx cur) (wp_tx cur) ((if pc_replace pc then [] else wp_allowed cur) ++ pc_allowed pc).
Definition configure_peer (pm : gmap Key WPeer * gmap Key counter) (pc : PeerConfig) : gmap Key WPeer * gmap Key counter :=
  let '(peers, counters) := pm in
  let key := pc_key pc in
  if pc_remove pc then (delete key peers, delete key counters)
  else match peers !! key with
       | None =>
           if pc_updateOnly pc then pm
           else (<[key := upserted (mkWPeer key zero_key None 0 None 0 0 []) pc]> (foldl (move_net key) peers (pc_allowed pc)), delete key counters)
       | Some cur => (<[key := upserted cur pc]> (foldl (move_net key) peers (pc_allowed pc)), counters)
       end.
Definition Kernel_Configure (k : Kernel) (name : string) (dev : deviceDelta) (peers : list PeerConfig) : Kernel * result unit :=
  match links k !! name with
  | None => (k, Fail ErrNoDevice)
  | Some l =>
      let l := with_scalars (default (l_private l) (dd_private dev)) (default (l_port l) (dd_port dev)) (default (l_fwmark l) (dd_fwmark dev)) l in
      let '(ps, cs) := foldl configure_peer (l_peers l, l_counters l) peers in
      (mkKernel (<[name := with_peers ps cs l]> (links k)) (nextIndex k) (LinkCreates k) (LinkDeletes k) (Configures k + 1) (ProbeErr k), Ok tt)
  end.
End Writes.

Definition Kernel_AddAddr (k : Kernel) (name : string) (addr : Prefix) : Kernel * result unit :=
  match links k !! name with
  | None => (k, Fail ErrNoDevice)
  | Some l =>
      if bool_decide (addr ∈ l_addrs l) then (k, Fail ErrCarries)
      else (on_link (fun l => with_net (l_addrs l ++ [addr]) (if bool_decide (Masked addr ∈ l_routes l) then l_routes l else l_routes l ++ [Masked addr]) l) name k, Ok tt)
  end.
Definition Kernel_DelAddr (k : Kernel) (name : string) (addr : Prefix) : Kernel * result unit :=
  (on_link (fun l => with_net (filter (fun p => p <> addr) (l_addrs l)) (filter (fun p => p <> Masked addr) (l_routes l)) l) name k, Ok tt).
Definition Kernel_AddRoute (k : Kernel) (name : string) (dst : Prefix) : Kernel * result unit :=
  match links k !! name with
  | None => (k, Fail ErrNoDevice)
  | Some l => if bool_decide (dst ∈ l_routes l) then (k, Fail ErrRoutes) else (on_link (fun l => with_net (l_addrs l) (l_routes l ++ [dst]) l) name k, Ok tt)
  end.
Definition Kernel_DelRoute (k : Kernel) (name : string) (dst : Prefix) : Kernel * result unit :=
  match links k !! name with
  | None => (k, Ok tt)
  | Some l => if bool_decide (dst ∈ l_routes l) then (on_link (fun l => with_net (l_addrs l) (filter (fun p => p <> dst) (l_routes l)) l) name k, Ok tt) else (k, Fail ErrNoRoute)
  end.

(** Traffic a peer moved, a session it opened, and what happens outside the panel. *)
Definition FeedTraffic (k : Kernel) (name : string) (key : Key) (up down now : Z) : Kernel :=
  on_link (fun l => let e := c ← l_counters l !! key; c_endpoint c in with_peers (l_peers l) (<[key := mkCnt up down (Some now) e]> (l_counters l)) l) name k.
Definition FeedSession (k : Kernel) (name : string) (key : Key) (source : Addr) (handshake : Z) : Kernel :=
  on_link (fun l => let c := default (mkCnt 0 0 None None) (l_counters l !! key) in
    with_peers (l_peers l) (<[key := mkCnt (c_up c) (c_down c) (Some handshake) (Some (mkUDP source 51820))]> (l_counters l)) l) name k.
Definition RecreateLink (k : Kernel) (name : string) : Kernel :=
  if bool_decide (is_Some (links k !! name)) then
    mkKernel (<[name := mkLink (nextIndex k + 1) 0 true zero_key 0 0 ∅ ∅ [] []]> (links k)) (nextIndex k + 1) (LinkCreates k + 1) (LinkDeletes k + 1) (Configures k) (ProbeErr k)
  else k.
Definition FlushPeers (k : Kernel) (name : string) : Kernel := on_link (with_peers ∅ ∅) name k.

#[global] Instance KernelPlane {HT : PrefixText} : Plane Kernel := {|
  plane_Probe k := match ProbeErr k with Some e => Fail e | None => Ok tt end;
  plane_Snapshot := Kernel_Snapshot;
  plane_Links := Kernel_Links;
  EnsureLink := Kernel_EnsureLink;
  DeleteLink := Kernel_DeleteLink;
  Configure := Kernel_Configure;
  AddAddr := Kernel_AddAddr;
  DelAddr := Kernel_DelAddr;
  AddRoute := Kernel_AddRoute;
  DelRoute := Kernel_DelRoute |}.
