(* ===== verification/WgManager.v ===== *)
(** * The WireGuard engine: wireguard/manager.go, identity.go and probe.go

    The devices of the inbounds, converged on desired state against any [Plane], and the
    traffic that is billed from them.  A Go map of records is a [gmap]; a loop over one
    runs in the order of its listing.  The clock is an argument; log lines are left out,
    and the once-only warning with them.  Errors joined by the code are lists, nil when
    empty; traffic is summed in an int64. *)
From S2P Require Import Prelude Decimal Netip Counters WireguardKeys WgDevice.
Open Scope string_scope.
Open Scope Z_scope.
Open Scope list_scope.

Record Traffic := mkTraffic { tTag : string; tEmail : string; Up : Z; Down : Z }.
Definition keySep : Ascii.ascii := Ascii.ascii_of_nat 0.
Definition upKey : string := String keySep "up".
Definition downKey : string := String keySep "down".
Definition handshakeWindow : Z := 180 * Second.

Record managed := mkManaged {
  m_tag : string; generation : Z; m_counter : Counter; byEmail : gmap string Key; byKey : gmap Key string; pending : option (gmap string Traffic) }.
Record Manager := mkManager { prefix : string; devices : gmap Z managed }.

Definition with_tag (t : string) (r : managed) : managed := mkManaged t (generation r) (m_counter r) (byEmail r) (byKey r) (pending r).
Definition with_generation (g : Z) (r : managed) : managed := mkManaged (m_tag r) g (m_counter r) (byEmail r) (byKey r) (pending r).
Definition with_index (e : gmap string Key) (k : gmap Key string) (r : managed) : managed := mkManaged (m_tag r) (generation r) (m_counter r) e k (pending r).
Definition with_counter (c : Counter) (r : managed) : managed := mkManaged (m_tag r) (generation r) c (byEmail r) (byKey r) (pending r).
Definition with_pending (p : option (gmap string Traffic)) (r : managed) : managed := mkManaged (m_tag r) (generation r) (m_counter r) (byEmail r) (byKey r) p.

(** ** Who owns a key *)

Definition index_peer (m : gmap string Key * gmap Key string) (p : Peer) : gmap string Key * gmap Key string :=
  match parseKey (PublicKey p) with
  | inl _ => m
  | inr key =>
      if bool_decide (Email p = "") || bool_decide (key = zero_key) || bool_decide (is_Some (m.2 !! key)) then m
      else (<[Email p := key]> m.1, <[key := Email p]> m.2)
  end.
Definition index_held (old : gmap Key string) (m : gmap string Key * gmap Key string) (p : WPeer) : gmap string Key * gmap Key string :=
  match old !! wp_key p with
  | None => m
  | Some email =>
      if bool_decide (is_Some (m.2 !! wp_key p)) then m
      else (if bool_decide (is_Some (m.1 !! email)) then m.1 else <[email := wp_key p]> m.1, <[wp_key p := email]> m.2)
  end.
Definition reindex (peers : list Peer) (held : list WPeer) (r : managed) : managed :=
  let '(e, k) := foldl (index_held (byKey r)) (foldl index_peer (∅, ∅) peers) held in with_index e k r.

Definition track (email : string) (key : Key) (r : managed) : managed :=
  if bool_decide (email = "") then r
  else
    let bk := match byEmail r !! email with Some old => if bool_decide (old = key) then byKey r else delete old (byKey r) | None => byKey r end in
    with_index (<[email := key]> (byEmail r)) (<[key := email]> bk) r.
Definition forget_key (key : Key) (c : Counter) : Counter := Forget (Key_String key +:+ downKey) (Forget (Key_String key +:+ upKey) c).
Definition forget (email : string) (key : Key) (r : managed) : managed :=
  with_counter (forget_key key (m_counter r)) (with_index (delete email (byEmail r)) (delete key (byKey r)) r).
Definition forgetRemoved (changes : list PeerConfig) (r : managed) : managed :=
  with_counter (foldl (fun c pc => if pc_remove pc then forget_key (pc_key pc) c else c) (m_counter r) changes) r.

(** ** Billing *)

(** wgtypes.ParseKey: padded standard base64 of 32 bytes. *)
Definition ParseKey (s : string) : option Key :=
  let t := filter (fun c => ord c <> 10 /\ ord c <> 13) (String.list_ascii_of_string s) in
  if Nat.eqb (length t) 44 && bool_decide (drop 43 t = [chr 61]) then raw_DecodeString std_value (take 43 t) else None.

Definition attribute_one (r : managed) (into : gmap string Traffic) (kd : string * Z) : gmap string Traffic :=
  let '(raw, direction) := Cut keySep kd.1 in
  match ParseKey raw with
  | None => into
  | Some key =>
      match byKey r !! key with
      | None => into
      | Some email =>
          let acc := default (mkTraffic (m_tag r) email 0 0) (into !! email) in
          <[email := if bool_decide (direction = "up") then mkTraffic (tTag acc) (tEmail acc) (i64 (Up acc + kd.2)) (Down acc)
                     else mkTraffic (tTag acc) (tEmail acc) (Up acc) (i64 (Down acc + kd.2))]> into
      end
  end.
Definition attribute (deltas : gmap string Z) (into : gmap string Traffic) (r : managed) : gmap string Traffic :=
  foldl (attribute_one r) into (map_to_list deltas).
Definition takePending (r : managed) : gmap string Traffic * managed := (default ∅ (pending r), with_pending None r).

Definition deviceReadings (snap : Snapshot) (generation : Z) : gmap string Z * string :=
  (foldl (fun m p => <[Key_String (wp_key p) +:+ downKey := wp_tx p]> (<[Key_String (wp_key p) +:+ upKey := wp_rx p]> m)) ∅ (d_peers (s_device snap)),
   Itoa (ls_index (s_link snap)) +:+ ":" +:+ Itoa generation).
Definition drainLocked (snap : Snapshot) (r : managed) : managed :=
  if negb (primed (m_counter r)) then r
  else
    let '(readings, ep) := deviceReadings snap (generation r) in
    let '(c, deltas) := Counter_Observe ep readings (m_counter r) in
    with_counter c (with_pending (Some (attribute deltas (default ∅ (pending r)) r)) r).

(** ** The manager *)

Definition Name (m : Manager) (id : Z) : string := nameIn (prefix m) id.
Definition owned (m : Manager) (name : string) : option Z := ownedIDIn (prefix m) name.
Definition NewNamedManager (p : string) : Manager := mkManager p ∅.
Definition NewManager : Manager := NewNamedManager interfacePrefix.
Definition fresh_record : managed := mkManaged "" 0 NewCounter ∅ ∅ None.
Definition record (m : Manager) (id : Z) : managed := default fresh_record (devices m !! id).
Definition set_record (id : Z) (r : managed) (m : Manager) : Manager := mkManager (prefix m) (<[id := r]> (devices m)).

Section Engine.
Context {HP : Parsers} {HT : PrefixText} {W : Type} {HW : Plane W}.

(** What a write that failed adds to the report. *)
Definition reported (f : error -> wg_error) (r : result unit) : list wg_error := match r with Ok _ => [] | Fail e => [f e] end.

Fixpoint each (op : W -> Prefix -> W * result unit) (f : Prefix -> error -> wg_error) (w : W) (l : list Prefix) : W * list wg_error :=
  match l with
  | [] => (w, [])
  | p :: rest => let '(w1, r) := op w p in let '(w2, fs) := each op f w1 rest in (w2, reported (f p) r ++ fs)
  end.
(** The addresses dropped bring back the connected routes that went with them. *)
Fixpoint drop_addrs (name : string) (w : W) (l : list Prefix) : W * (list Prefix * list wg_error) :=
  match l with
  | [] => (w, ([], []))
  | p :: rest =>
      let '(w1, r) := DelAddr w name p in
      let '(w2, (dropped, fs)) := drop_addrs name w1 rest in
      match r with Ok _ => (w2, (Masked p :: dropped, fs)) | Fail e => (w2, (dropped, DropAddrErr p e :: fs)) end
  end.
Definition syncAddrs (w : W) (name : string) (current desired : list Prefix) : W * (list Prefix * list wg_error) :=
  let '(add, del) := diffAddrs current desired in
  let '(w1, fs1) := each (fun w p => AddAddr w name p) AddAddrErr w add in
  let '(w2, (dropped, fs2)) := drop_addrs name w1 del in
  (w2, (dropped, fs1 ++ fs2)).
Definition syncRoutes (w : W) (name : string) (current desired addrs gone : list Prefix) : W * list wg_error :=
  let '(add, del) := diffRoutes current desired addrs in
  let '(w1, fs1) := each (fun w p => AddRoute w name p) RouteErr w add in
  let '(w2, fs2) := each (fun w p => DelRoute w name p) UnrouteErr w1 (filter (fun p => p ∉ gone) del) in
  (w2, fs1 ++ fs2).

Definition ensureDeviceLocked (m : Manager) (w : W) (inst : Instance_) (key : Key) : W * (wg_error + Snapshot * bool) :=
  let name := Name m (ID inst) in
  let '(w1, r) := EnsureLink w name (linkMTU (MTU inst) (TransportPadding inst)) in
  match r with
  | Fail e => (w1, inl (PlaneErr e))
  | Ok state =>
      match plane_Snapshot w1 name with
      | Fail e => (w1, inl (PlaneErr e))
      | Ok snap =>
          if negb (s_exists snap) then (w1, inl (NoDevice name))
          else
            let delta := diffDevice (s_device snap) key (Port inst) (FWMark inst) (ls_created state) in
            if delta_empty delta then (w1, inr (snap, ls_created state))
            else match Configure w1 name delta [] with
                 | (w2, Ok _) => (w2, inr (snap, ls_created state))
                 | (w2, Fail e) => (w2, inl (PlaneErr e))
                 end
      end
  end.

(** The clients that were rejected, and every other failure. *)
Definition ensureLocked (m : Manager) (w : W) (inst : Instance_) : Manager * W * (list wg_error * list wg_error) :=
  let name := Name m (ID inst) in
  match parseKey (PrivateKey inst) with
  | inl e => (m, w, ([], [UnusablePrivateKey (ID inst) e]))
  | inr key =>
      match parsePrefixes (Address inst) with
      | inl e => (m, w, ([], [e]))
      | inr addrs =>
          let '(peers, rejected) := desiredPeers (Peers inst) in
          match ensureDeviceLocked m w inst key with
          | (w1, inl e) => (m, w1, (rejected, [e]))
          | (w1, inr (snap, created)) =>
              let rec := with_tag (Tag inst) (record m (ID inst)) in
              let rec := if created then with_generation (generation rec + 1) rec else rec in
              let changes := diffPeers (d_peers (s_device snap)) peers created in
              let rec := if existsb pc_remove changes then drainLocked snap rec else rec in
              let '(w2, cfgErr) := if Nat.eqb (length changes) 0 then (w1, Ok tt) else Configure w1 name no_delta changes in
              let rec := if negb (Nat.eqb (length changes) 0) && is_ok cfgErr then forgetRemoved changes rec else rec in
              let held := if is_ok cfgErr then [] else d_peers (s_device snap) in
              let rec := reindex (Peers inst) held rec in
              let '(w3, (dropped, fs1)) := syncAddrs w2 name (s_addrs snap) addrs in
              let '(w4, fs2) := syncRoutes w3 name (s_routes snap) (desiredRoutes addrs peers) addrs dropped in
              (set_record (ID inst) rec m, w4, (rejected, reported PlaneErr cfgErr ++ fs1 ++ fs2))
          end
      end
  end.

Definition removeLocked (m : Manager) (w : W) (id : Z) : Manager * W * list wg_error :=
  let name := Name m id in
  let rec := (fun r => match plane_Snapshot w name with Ok snap => if s_exists snap then drainLocked snap r else r | Fail _ => r end) <$> devices m !! id in
  let m := match rec with Some r => set_record id r m | None => m end in
  let '(w1, r) := DeleteLink w name in
  match r with
  | Fail e => (m, w1, [DeleteErr name e])
  | Ok _ =>
      match rec with
      | Some r => if bool_decide (default ∅ (pending r) = ∅) then (mkManager (prefix m) (delete id (devices m)), w1, []) else (m, w1, [])
      | None => (mkManager (prefix m) (delete id (devices m)), w1, [])
      end
  end.

Fixpoint remove_each (m : Manager) (w : W) (ids : list Z) : Manager * W * list wg_error :=
  match ids with
  | [] => (m, w, [])
  | id :: rest => let '(m1, w1, fs1) := removeLocked m w id in let '(m2, w2, fs2) := remove_each m1 w1 rest in (m2, w2, fs1 ++ fs2)
  end.
Fixpoint ensure_each (m : Manager) (w : W) (l : list Instance_) : Manager * W * list wg_error :=
  match l with
  | [] => (m, w, [])
  | inst :: rest =>
      let '(m1, w1, (rejected, fs)) := ensureLocked m w inst in
      let '(m2, w2, fs2) := ensure_each m1 w1 rest in
      (m2, w2, (if Nat.eqb (length (rejected ++ fs)) 0 then [] else [InboundErr (ID inst) (rejected ++ fs)]) ++ fs2)
  end.
Definition Reconcile (m : Manager) (w : W) (desired : list Instance_) (retain : list Z) : Manager * W * list wg_error :=
  let want : gset Z := list_to_set ((ID <$> desired) ++ retain) in
  let '(names, fs0) := match plane_Links w with Ok names => (names, []) | Fail e => ([], [PlaneErr e]) end in
  let unwanted : gset Z := (dom (devices m) ∪ list_to_set (omap (owned m) names)) ∖ want in
  let '(m1, w1, fs1) := remove_each m w (elements unwanted) in
  let '(m2, w2, fs2) := ensure_each m1 w1 desired in
  (m2, w2, fs0 ++ fs1 ++ fs2).

Definition Ensure (m : Manager) (w : W) (inst : Instance_) : Manager * W * list wg_error :=
  let '(m', w', (rejected, fs)) := ensureLocked m w inst in (m', w', rejected ++ fs).
Definition Remove := removeLocked.
Definition StopAll (m : Manager) : Manager * list wg_error := (m, []).

(** ** One client *)

Definition peerSnapshot (m : Manager) (w : W) (inst : Instance_) : wg_error + Snapshot :=
  match plane_Snapshot w (Name m (ID inst)) with
  | Fail e => inl (PlaneErr e)
  | Ok snap => if s_exists snap then inr snap else inl (NoDevice (Name m (ID inst)))
  end.
(** The second half of [AddPeer], once the key is known to be free or the client's own. *)
Definition add_tracked (m : Manager) (w : W) (inst : Instance_) (p : Peer) (want : PeerConfig) (rec : managed) : Manager * W * list wg_error :=
  let name := Name m (ID inst) in
  match peerSnapshot m w inst with
  | inl e => (m, w, [e])
  | inr snap =>
      let rec := if bool_decide (Tag inst = "") then rec else with_tag (Tag inst) rec in
      let rec := track (Email p) (pc_key want) rec in
      let m := set_record (ID inst) rec m in
      let '(cfg, changed) := upsertPeer (d_peers (s_device snap)) want in
      if negb changed then (m, w, [])
      else match Configure w name no_delta [cfg] with
           | (w1, Fail e) => (m, w1, [PlaneErr e])
           | (w1, Ok _) =>
               match parsePrefixes (Address inst) with
               | inl e => (m, w1, [e])
               | inr addrs =>
                   let '(add, _) := diffRoutes (s_routes snap) (desiredRoutes addrs [cfg]) addrs in
                   let '(w2, fs) := each (fun w p => AddRoute w name p) RouteErr w1 add in (m, w2, fs)
               end
           end
  end.
Definition AddPeer (m : Manager) (w : W) (inst : Instance_) (p : Peer) : Manager * W * list wg_error :=
  match desiredPeer p with
  | inl e => (m, w, [e])
  | inr want =>
      let rec := record m (ID inst) in
      let m := set_record (ID inst) rec m in
      match byKey rec !! pc_key want with
      | Some other => if bool_decide (other = Email p) then add_tracked m w inst p want rec else (m, w, [SharedPublicKey other (Email p)])
      | None => add_tracked m w inst p want rec
      end
  end.

Definition usable (s : string) : option Key := match parseKey s with inr key => if bool_decide (key = zero_key) then None else Some key | inl _ => None end.
Fixpoint peer_key (email : string) (l : list Peer) : option Key :=
  match l with
  | [] => None
  | p :: rest => if bool_decide (Email p = email) then match usable (PublicKey p) with Some key => Some key | None => peer_key email rest end else peer_key email rest
  end.
Definition resolveLocked (m : Manager) (inst : Instance_) (email fallbackKey : string) : option Key :=
  match (rec ← devices m !! ID inst; byEmail rec !! email) with
  | Some key => Some key
  | None => match peer_key email (Peers inst) with Some key => Some key | None => usable fallbackKey end
  end.

Definition RemovePeer (m : Manager) (w : W) (inst : Instance_) (email fallbackKey : string) : Manager * W * list wg_error :=
  let name := Name m (ID inst) in
  match resolveLocked m inst email fallbackKey with
  | None => (m, w, [])
  | Some key =>
      let rec := record m (ID inst) in
      let m := set_record (ID inst) rec m in
      match plane_Snapshot w name with
      | Fail e => (m, w, [PlaneErr e])
      | Ok snap =>
          if negb (s_exists snap) then (set_record (ID inst) (forget email key rec) m, w, [])
          else
            let rec := if bool_decide (Tag inst = "") then rec else with_tag (Tag inst) rec in
            let rec := drainLocked snap rec in
            let m := set_record (ID inst) rec m in
            match Configure w name no_delta [removal key] with
            | (w1, Fail e) => (m, w1, [PlaneErr e])
            | (w1, Ok _) =>
                let m := set_record (ID inst) (forget email key rec) m in
                match parsePrefixes (Address inst) with
                | inl e => (m, w1, [e])
                | inr [] => (m, w1, [])
                | inr addrs =>
                    let remaining := (fun p => mkPeerConfig (wp_key p) false false None None None false (wp_allowed p)) <$>
                      filter (fun p => wp_key p <> key) (d_peers (s_device snap)) in
                    let '(_, del) := diffRoutes (s_routes snap) (desiredRoutes addrs remaining) addrs in
                    let '(w2, fs) := each (fun w p => DelRoute w name p) UnrouteErr w1 del in (m, w2, fs)
                end
            end
      end
  end.

(** ** Reading *)

Definition isOnline (now : Z) (handshake : option Z) : bool := match handshake with None => false | Some h => now - h <=? handshakeWindow end.
Definition flatten (billed : gmap string Traffic) : list Traffic := (map_to_list billed).*2.
Definition scrapeDevice (now : Z) (m : Manager) (w : W) (id : Z) : Manager * (list Traffic * list string) :=
  match devices m !! id with
  | None => (m, ([], []))
  | Some rec =>
      let '(billed, rec) := takePending rec in
      let m := set_record id rec m in
      match plane_Snapshot w (Name m id) with
      | Fail _ => (m, (flatten billed, []))
      | Ok snap =>
          if negb (s_exists snap) then (m, (flatten billed, []))
          else
            let online := omap (fun p => if isOnline now (wp_handshake p) then byKey rec !! wp_key p else None) (d_peers (s_device snap)) in
            let '(readings, ep) := deviceReadings snap (generation rec) in
            let '(c, deltas) := Counter_Observe ep readings (m_counter rec) in
            (set_record id (with_counter c rec) m, (flatten (attribute deltas billed rec), online))
      end
  end.
Fixpoint scrape_each (now : Z) (m : Manager) (w : W) (ids : list Z) : Manager * (list Traffic * list string) :=
  match ids with
  | [] => (m, ([], []))
  | id :: rest =>
      let '(m1, (billed, connected)) := scrapeDevice now m w id in
      let '(m2, (out, online)) := scrape_each now m1 w rest in (m2, (billed ++ out, connected ++ online))
  end.
Definition CollectTraffic (now : Z) (m : Manager) (w : W) : Manager * (list Traffic * list string) := scrape_each now m w (map_to_list (devices m)).*1.

Inductive HealthState := HealthFailed (e : error) | HealthStopped | HealthDown | HealthReady.
Definition health_of (m : Manager) (w : W) (id : Z) : HealthState :=
  match plane_Snapshot w (Name m id) with
  | Fail e => HealthFailed e
  | Ok snap => if negb (s_exists snap) then HealthStopped else if negb (ls_up (s_link snap)) then HealthDown else HealthReady
  end.
Definition Health (m : Manager) (w : W) : list (Z * string * HealthState) :=
  (fun id => (id, default "" (m_tag <$> devices m !! id), health_of m w id)) <$> merge_sort Z.le (map_to_list (devices m)).*1.

(** identity.go: who is on the wire, and the prefixes the kernel holds for each client. *)
Record Session := mkSession { se_email : string; se_source : Addr; se_handshake : option Z; se_local : list Addr }.
Definition hostAddrs (allowed : list IPNet) : list Addr :=
  omap (fun n => p ← toPrefix n; if pBits p =? BitLen (pAddr p) then Some (pAddr p) else None) allowed.
Definition session_of (now : Z) (r : managed) (p : WPeer) : option Session :=
  email ← byKey r !! wp_key p; e ← wp_endpoint p;
  if isOnline now (wp_handshake p) && IsValid (u_ip e) then Some (mkSession email (Unmap (u_ip e)) (wp_handshake p) (hostAddrs (wp_allowed p))) else None.
Definition deviceEndpoints (now : Z) (m : Manager) (w : W) (id : Z) : list Session :=
  match devices m !! id with
  | None => []
  | Some rec => match plane_Snapshot w (Name m id) with
                | Ok snap => if s_exists snap then omap (session_of now rec) (d_peers (s_device snap)) else []
                | Fail _ => []
                end
  end.
Definition Endpoints (now : Z) (m : Manager) (w : W) : list Session := concat (deviceEndpoints now m w <$> (map_to_list (devices m)).*1).
Definition PeerAllowedIPs (m : Manager) (w : W) (id : Z) : wg_error + gmap string (list Prefix) :=
  match devices m !! id with
  | None => inl (NoDevice (Name m id))
  | Some rec =>
      match plane_Snapshot w (Name m id) with
      | Fail e => inl (PlaneErr e)
      | Ok snap =>
          if negb (s_exists snap) then inl (NoDevice (Name m id))
          else inr (foldl (fun out p => match byKey rec !! wp_key p with
                                        | None => out
                                        | Some email => foldl (fun out n => match toPrefix n with Some q => <[email := default [] (out !! email) ++ [q]]> out | None => out end) out (wp_allowed p)
                                        end) ∅ (d_peers (s_device snap)))
      end
  end.
Definition Preflight (w : W) : result unit := plane_Probe w.
End Engine.
