(* ===== verification/WgFacts.v ===== *)
(** * Facts about a WireGuard device and its differences

    What [desiredPeers] accepts, what a push does to the peers of a device, what the
    address and route passes do to its addresses and routes; keys as text, and what a
    collection reads of a device and bills from it. *)
From S2P Require Import Prelude Decimal Netip Counters WireguardKeys WgDevice WgKernel WgManager.
Open Scope string_scope.
Open Scope Z_scope.
Open Scope list_scope.

Section Facts.
Context {HP : Parsers} {HPL : ParsersLaws} {HT : PrefixText} {HTL : PrefixTextLaws}.

(** ** The served set *)

Abbreviation texts l := (IPNet_String <$> l).
Definition disjoint_texts (a b : list IPNet) : Prop := forall t, t ∈ texts a -> t ∉ texts b.

(** A push that writes a client whole. *)
Definition whole (cfg : PeerConfig) : Prop :=
  pc_remove cfg = false /\ pc_updateOnly cfg = false /\ pc_replace cfg = true /\ is_Some (pc_psk cfg) /\ is_Some (pc_keepalive cfg).
(** Clients the kernel can hold together: one per key, no network shared. *)
Fixpoint apart (l : list PeerConfig) : Prop :=
  match l with
  | [] => True
  | cfg :: rest => whole cfg /\ (forall c, c ∈ rest -> pc_key c <> pc_key cfg /\ disjoint_texts (pc_allowed cfg) (pc_allowed c)) /\ apart rest
  end.

Lemma desiredPeer_whole p cfg : desiredPeer p = inr cfg -> whole cfg /\ pc_key cfg <> zero_key /\ parseKey (PublicKey p) = inr (pc_key cfg).
Proof.
  unfold desiredPeer. destruct (parseKey (PublicKey p)) as [|key]; [done|]. case_bool_decide as Hz; [done|]. destruct (parseKey (PreSharedKey p)); [done|].
  destruct (parseAllowedIPs _); [done|]. destruct (parseEndpoint _); [done|]. intros [= <-]. cbn. split_and!; try done; eauto.
Qed.

Lemma claimed_none (claimed : gmap string string) l : map_Forall (fun _ e => e <> "") claimed -> claimedAllowedIP claimed l = None -> forall t, t ∈ texts l -> claimed !! t = None.
Proof.
  intros Hc. induction l as [|n l IH]; cbn [claimedAllowedIP]; intros H t Ht; [by apply not_elem_of_nil in Ht|].
  destruct (claimed !! IPNet_String n) as [o|] eqn:E; [case_bool_decide as Ho; [by destruct (Hc _ _ E)|done]|]. apply elem_of_cons in Ht as [->|Ht]; [done|by apply IH].
Qed.
Lemma claim_fold (claimed : gmap string string) email l t : foldl (fun m n => <[IPNet_String n := email]> m) claimed l !! t = if bool_decide (t ∈ texts l) then Some email else claimed !! t.
Proof.
  revert claimed. induction l as [|n l IH]; intros claimed; [done|]. cbn [foldl]. rewrite IH, fmap_cons. destruct (decide (t = IPNet_String n)) as [->|Hne].
  - rewrite (bool_decide_eq_true_2 (_ ∈ _ :: _)) by left. case_bool_decide; [done|apply lookup_insert_eq].
  - rewrite lookup_insert_ne by done. rewrite (bool_decide_ext (t ∈ _ :: _) (t ∈ texts l)); [done|]. rewrite elem_of_cons. naive_solver.
Qed.

Lemma desired_loop_apart peers : Forall (fun p => Email p <> "") peers -> forall seen claimed out rejected,
  map_Forall (fun _ e => e <> "") claimed -> desired_loop seen claimed peers = (out, rejected) ->
  apart out /\ forall cfg, cfg ∈ out -> seen !! pc_key cfg = None /\ forall t, t ∈ texts (pc_allowed cfg) -> claimed !! t = None.
Proof.
  induction 1 as [|p peers Hp _ IH]; intros seen claimed out rejected Hcl E; cbn in E. { injection E as <- <-. split; [done|]. intros c Hc. by apply not_elem_of_nil in Hc. }
  destruct (desiredPeer p) as [e|cfg] eqn:Ed. { destruct (desired_loop seen claimed peers) as [o r] eqn:El. injection E as <- <-. by eapply IH. }
  destruct (seen !! pc_key cfg) eqn:Es. { destruct (desired_loop seen claimed peers) as [o r] eqn:El. injection E as <- <-. by eapply IH. }
  destruct (claimedAllowedIP claimed (pc_allowed cfg)) as [[pre oth]|] eqn:Ec. { destruct (desired_loop seen claimed peers) as [o r] eqn:El. injection E as <- <-. by eapply IH. }
  set (claimed' := foldl _ claimed _) in E. destruct (desired_loop _ claimed' peers) as [o r] eqn:El. injection E as <- <-.
  assert (map_Forall (fun _ e => e <> "") claimed') as Hcl'. { intros t e. subst claimed'. rewrite claim_fold. case_bool_decide; [by intros [= <-]|apply Hcl]. }
  destruct (IH _ _ _ _ Hcl' El) as [Ha Hout]. pose proof (claimed_none _ _ Hcl Ec) as Hfree. split.
  - split_and!; [by apply desiredPeer_whole in Ed as [? _]| |done]. intros c Hc. destruct (Hout c Hc) as [Hs Ht]. split.
    + intros Ek. rewrite <-Ek, lookup_insert_eq in Hs. done.
    + intros t Hin Hin'. specialize (Ht t Hin'). subst claimed'. rewrite claim_fold, bool_decide_eq_true_2 in Ht; done.
  - intros c [->|Hc]%elem_of_cons; [done|]. destruct (Hout c Hc) as [Hs Ht]. apply lookup_insert_None in Hs as [Hs _]. split; [done|]. intros t Hin. specialize (Ht t Hin). subst claimed'.
    rewrite claim_fold in Ht. by case_bool_decide.
Qed.

(** ** A push of peers *)

Lemma move_net_lookup key peers n k : move_net key peers n !! k = (fun p => if bool_decide (k = key) then p else without_net n p) <$> peers !! k.
Proof. unfold move_net. rewrite map_lookup_imap. by destruct (peers !! k). Qed.
Lemma without_other n p : IPNet_String n ∉ texts (wp_allowed p) -> without_net n p = p.
Proof.
  intros H. destruct p as [k psk e ka h rx tx allowed]. unfold without_net. cbn in *. f_equal. induction allowed as [|a l IH]; [done|]. rewrite fmap_cons, not_elem_of_cons in H. destruct H as [Hne H].
  rewrite filter_cons_True by congruence. f_equal. by apply IH.
Qed.
Lemma moves_keep key nets : forall peers k p, peers !! k = Some p -> (k <> key -> disjoint_texts (wp_allowed p) nets) -> foldl (move_net key) peers nets !! k = Some p.
Proof.
  induction nets as [|n nets IH]; intros peers k p Hk Hd; [done|]. cbn [foldl]. apply IH.
  - rewrite move_net_lookup, Hk. cbn. case_bool_decide as E; [done|]. f_equal. apply without_other. intros Hin. apply (Hd E _ Hin). by left.
  - intros E t Hin Hin'. apply (Hd E t Hin). by right.
Qed.
Lemma moves_dom key nets : forall peers k, foldl (move_net key) peers nets !! k = None <-> peers !! k = None.
Proof.
  induction nets as [|n nets IH]; intros peers k; [done|]. cbn [foldl]. rewrite IH, move_net_lookup. by destruct (peers !! k).
Qed.

(** A peer as a push of a whole client leaves it. *)
Definition written (cfg : PeerConfig) (p : WPeer) : Prop :=
  pc_psk cfg = Some (wp_psk p) /\ pc_keepalive cfg = Some (wp_keepalive p) /\ wp_allowed p = pc_allowed cfg /\ wp_key p = pc_key cfg.
Definition keyed (peers : gmap Key WPeer) : Prop := forall k p, peers !! k = Some p -> wp_key p = k.

Lemma configure_one pm cfg : whole cfg -> keyed pm.1 ->
  (exists p, (configure_peer pm cfg).1 !! pc_key cfg = Some p /\ written cfg p) /\
  (forall k p, k <> pc_key cfg -> pm.1 !! k = Some p -> disjoint_texts (wp_allowed p) (pc_allowed cfg) -> (configure_peer pm cfg).1 !! k = Some p) /\
  (forall k, k <> pc_key cfg -> (configure_peer pm cfg).1 !! k = None <-> pm.1 !! k = None).
Proof.
  intros (Hr & Hu & Hrep & [psk Hpsk] & [ka Hka]) Hkey. destruct pm as [peers counters]. unfold configure_peer. rewrite Hr, Hu. cbn [fst] in *.
  destruct (peers !! pc_key cfg) as [cur|] eqn:E; cbn [fst]; (split_and!; [eexists; split; [apply lookup_insert_eq|]| |]).
  1,4: unfold written, upserted; cbn; rewrite Hpsk, Hka, Hrep; cbn; split_and!; [done..|]; try done; by apply Hkey.
  1,3: intros k p Hne Hk Hd; rewrite lookup_insert_ne by done; by apply moves_keep.
  1,2: intros k Hne; rewrite lookup_insert_ne by done; apply moves_dom.
Qed.
Lemma configure_keyed pm cfg : keyed pm.1 -> keyed (configure_peer pm cfg).1.
Proof.
  destruct pm as [peers counters]. unfold configure_peer, keyed. cbn [fst]. intros Hk. destruct (pc_remove cfg). { cbn. intros k p [_ H]%lookup_delete_Some. eauto. }
  assert (forall nets peers, (forall k p, peers !! k = Some p -> wp_key p = k) -> forall k p, foldl (move_net (pc_key cfg)) peers nets !! k = Some p -> wp_key p = k) as Hm.
  { clear. induction nets as [|n nets IH]; intros peers H; [done|]. cbn [foldl]. apply IH. intros k p. rewrite move_net_lookup. destruct (peers !! k) as [q|] eqn:E; [|done]. cbn. intros [= <-]. case_bool_decide; exact (H _ _ E). }
  destruct (peers !! pc_key cfg) as [cur|] eqn:E; [|destruct (pc_updateOnly cfg); [done|]]; cbn; intros k p; rewrite lookup_insert_Some; intros [[<- <-]|[Hne H]]; cbn; try done; eauto.
Qed.

(** Pushing clients that are apart: each is written, and a peer none of them touches stays. *)
Lemma configure_apart l : apart l -> forall pm, keyed pm.1 ->
  let pm' := foldl configure_peer pm l in
  (forall cfg, cfg ∈ l -> exists p, pm'.1 !! pc_key cfg = Some p /\ written cfg p) /\
  (forall k p, k ∉ pc_key <$> l -> pm.1 !! k = Some p -> (forall cfg, cfg ∈ l -> disjoint_texts (wp_allowed p) (pc_allowed cfg)) -> pm'.1 !! k = Some p) /\
  (forall k, k ∉ pc_key <$> l -> pm'.1 !! k = None <-> pm.1 !! k = None) /\ keyed pm'.1.
Proof.
  induction l as [|cfg l IH]; intros Ha pm Hk; cbn [foldl]. { split_and!; [intros c Hc; by apply not_elem_of_nil in Hc|done..]. }
  destruct Ha as (Hw & Hfar & Ha). destruct (configure_one pm cfg Hw Hk) as ((p & Ep & Hp) & Hkeep & Hdom). specialize (IH Ha _ (configure_keyed pm cfg Hk)) as (I1 & I2 & I3 & I4).
  assert (pc_key cfg ∉ pc_key <$> l) as Hnin. { intros (c & E & Hc)%list_elem_of_fmap. by destruct (Hfar c Hc) as [Hne _]. }
  split_and!; [| | |done].
  - intros c [->|Hc]%elem_of_cons; [|by apply I1]. exists p. split; [|done]. apply I2; [done|done|]. intros c Hc. destruct Hp as (_ & _ & -> & _). by apply Hfar.
  - intros k q Hk' Eq Hd. rewrite fmap_cons, not_elem_of_cons in Hk'. destruct Hk' as [Hne Hk']. apply I2; [done|apply Hkeep; [done|done|apply Hd; left]|]. intros c Hc. apply Hd. by right.
  - intros k Hk'. rewrite fmap_cons, not_elem_of_cons in Hk'. destruct Hk' as [Hne Hk']. rewrite I3, Hdom; done.
Qed.
Lemma configure_removals ks : forall pm, (foldl configure_peer pm (removal <$> ks)).1 = foldl (fun m k => delete k m) pm.1 ks.
Proof. induction ks as [|k ks IH]; intros [peers counters]; [done|]. cbn [fmap list_fmap foldl]. by rewrite IH. Qed.
Lemma deletes_lookup {V} (ks : list Key) : forall (m : gmap Key V) k, foldl (fun m k => delete k m) m ks !! k = if bool_decide (k ∈ ks) then None else m !! k.
Proof.
  induction ks as [|x ks IH]; intros m k; [done|]. cbn [foldl]. rewrite IH. destruct (decide (k = x)) as [->|Hne].
  - rewrite (bool_decide_eq_true_2 (_ ∈ _ :: _)) by left. case_bool_decide; [done|apply lookup_delete_eq].
  - rewrite lookup_delete_ne by done. rewrite (bool_decide_ext (k ∈ _ :: _) (k ∈ ks)); [done|]. rewrite elem_of_cons. naive_solver.
Qed.
End Facts.

(** ** What a pass leaves on a WireGuard device

    The peers after the push of [diffPeers], the addresses and routes after [syncAddrs]
    and [syncRoutes], on the in-memory network stack. *)

(** ** Prefixes *)

Abbreviation valid p := (Prefix_IsValid p = true).
Lemma valid_bits p : valid p <-> pAddr p <> AddrInvalid /\ 0 <= pBits p <= BitLen (pAddr p) /\ WithoutZone (pAddr p) = pAddr p.
Proof.
  unfold Prefix_IsValid, IsValid. rewrite !andb_true_iff, negb_true_iff, bool_decide_eq_false, !Z.leb_le. destruct p as [[|ip|ip z] b]; cbn; [naive_solver..|].
  rewrite bool_decide_eq_true. split; [naive_solver|]. intros (? & ? & [= E]). naive_solver.
Qed.
Lemma Contains_self p : valid (Masked p) -> Contains (Masked p) (pAddr (Masked p)) = true.
Proof.
  intros H. unfold Contains. rewrite H. cbn [andb]. unfold Masked in *. destruct (Prefix_IsValid p); [|done]. cbn in *. destruct (pAddr p) as [|ip|ip z]; [done|apply Z.eqb_refl|].
  rewrite bool_decide_eq_true_2 by done. apply Z.eqb_refl.
Qed.
Lemma connected_covered a addrs : valid a -> a ∈ addrs -> coveredByAddrs (Masked a) addrs = true.
Proof. intros Hv Ha. apply existsb_exists. exists a. rewrite <-list_elem_of_In. split; [done|]. cbv beta zeta. rewrite Contains_self by by apply Masked_valid. apply andb_true_iff. split; [|done]. apply Z.leb_refl. Qed.
Lemma toIPNet_valid p : valid p -> valid (toIPNet p).
Proof. rewrite !valid_bits. destruct p as [[|ip|ip z] b]; cbn; naive_solver. Qed.
Lemma toPrefix_valid n p : valid n -> toPrefix n = Some p -> valid p.
Proof.
  unfold toPrefix. destruct (Z.ltb_spec (BitLen (Unmap (pAddr n))) (pBits n)) as [|Hb]; [done|]. intros Hv [= <-]. revert Hv Hb. rewrite !valid_bits. destruct n as [[|ip|ip z] b]; cbn; [naive_solver..|]. case_bool_decide; cbn; naive_solver.
Qed.

Section Converge.
Context {HP : Parsers} {HPL : ParsersLaws} {HT : PrefixText} {HTL : PrefixTextLaws}.
Abbreviation texts l := (IPNet_String <$> l).

Lemma host_prefix_valid a : IsValid a = true -> valid (mkPrefix (WithoutZone a) (BitLen a)).
Proof. by destruct a. Qed.
Lemma parse_entries_valid bad f values out : (forall p, valid p -> valid (f p)) -> parse_entries bad f values = inr out -> Forall (fun p => valid p) out.
Proof.
  intros Hf. revert out. induction values as [|v values IH]; intros out; cbn [parse_entries]. { intros [= <-]. constructor. }
  case_bool_decide; [apply IH|]. destruct (parse_entry _) as [p|] eqn:Ep; [|done]. destruct (parse_entries bad f values) as [|o] eqn:E; [done|]. intros [= <-]. constructor; [|by apply IH].
  apply Hf. unfold parse_entry in Ep. destruct (ParsePrefix _) eqn:E1; [injection Ep as ->; by eapply ParsePrefix_valid|]. destruct (ParseAddr _) eqn:E2; [|done]. injection Ep as <-. apply ParseAddr_valid in E2. by apply host_prefix_valid.
Qed.
Lemma desiredPeer_valid p cfg : desiredPeer p = inr cfg -> Forall (fun n => valid n) (pc_allowed cfg).
Proof.
  unfold desiredPeer. destruct (parseKey (PublicKey p)); [done|]. case_bool_decide; [done|]. destruct (parseKey (PreSharedKey p)); [done|].
  destruct (parseAllowedIPs _) eqn:E; [done|]. destruct (parseEndpoint _); [done|]. intros [= <-]. cbn. apply Forall_fmap, (Forall_impl _ _ _ (parse_entries_valid _ _ _ _ Masked_valid E)). intros. by apply toIPNet_valid.
Qed.
(** Every client served is one of the inbound's. *)
Lemma desired_loop_from peers : forall seen claimed cfg, cfg ∈ (desired_loop seen claimed peers).1 -> exists p, p ∈ peers /\ desiredPeer p = inr cfg.
Proof.
  induction peers as [|p peers IH]; intros seen claimed cfg H; cbn in H; [by apply not_elem_of_nil in H|].
  assert (forall s c, cfg ∈ (desired_loop s c peers).1 -> exists q, q ∈ p :: peers /\ desiredPeer q = inr cfg) as Hl. { intros s c Hc. destruct (IH s c cfg Hc) as (q & Hq & E). exists q. split; [by right|done]. }
  destruct (desiredPeer p) as [e|c] eqn:Ed. { destruct (desired_loop seen claimed peers) as [o r] eqn:E. apply (Hl seen claimed). by rewrite E. }
  destruct (seen !! pc_key c). { destruct (desired_loop seen claimed peers) as [o r] eqn:E. apply (Hl seen claimed). by rewrite E. }
  destruct (claimedAllowedIP claimed (pc_allowed c)) as [[]|]. { destruct (desired_loop seen claimed peers) as [o r] eqn:E. apply (Hl seen claimed). by rewrite E. }
  destruct (desired_loop _ _ peers) as [o r] eqn:E. cbn in H. apply elem_of_cons in H as [->|H]; [exists p; split; [left|done]|]. eapply Hl. by rewrite E.
Qed.

(** ** Peers *)

(** A peer that is the client's: its secret, its keepalive and its networks. *)
Definition serves (cfg : PeerConfig) (p : WPeer) : Prop :=
  wp_key p = pc_key cfg /\ pc_psk cfg = Some (wp_psk p) /\ pc_keepalive cfg = Some (wp_keepalive p) /\ texts (wp_allowed p) ≡ₚ texts (pc_allowed cfg).
Definition counted (pm : gmap Key WPeer * gmap Key counter) : Prop := forall k, pm.1 !! k = None -> pm.2 !! k = None.
Record link_ok (l : link) : Prop := {
  ok_keyed : keyed (l_peers l);
  ok_counted : counted (l_peers l, l_counters l);
  ok_addrs : Forall (fun p => valid p) (l_addrs l);
  ok_routes : Forall (fun p => valid p) (l_routes l) }.

Lemma configure_counted l : forall pm, counted pm -> counted (foldl configure_peer pm l).
Proof.
  induction l as [|pc l IH]; intros pm Hc; [done|]. cbn [foldl]. apply IH. destruct pm as [peers counters]. unfold configure_peer, counted in *. cbn [fst snd] in *.
  destruct (pc_remove pc); cbn [fst snd]. { intros k. rewrite !lookup_delete_None. naive_solver. }
  destruct (peers !! pc_key pc) eqn:E; [|destruct (pc_updateOnly pc); [done|]]; cbn [fst snd]; intros k; rewrite lookup_insert_None, moves_dom; intros [Hn Hne]; [by apply Hc|].
  rewrite lookup_delete_ne by done. by apply Hc.
Qed.
Lemma foldl_keyed l : forall pm, keyed pm.1 -> keyed (foldl configure_peer pm l).1.
Proof. induction l as [|pc l IH]; intros pm H; [done|]. cbn [foldl]. by apply IH, configure_keyed. Qed.

Lemma report_same counters k q : wp_key (report counters k q) = wp_key q /\ wp_psk (report counters k q) = wp_psk q /\ wp_keepalive (report counters k q) = wp_keepalive q /\ wp_allowed (report counters k q) = wp_allowed q.
Proof. unfold report. by destruct (counters !! k). Qed.
Lemma peers_of_device l p : keyed (l_peers l) -> counted (l_peers l, l_counters l) -> p ∈ d_peers (device l) <-> exists q, l_peers l !! wp_key p = Some q /\ p = report (l_counters l) (wp_key p) q.
Proof.
  intros Hk Hc. cbn [device d_peers]. rewrite merge_sort_Permutation, elem_of_app, !list_elem_of_fmap. split.
  - intros [([k q] & -> & Hq)|([k c] & -> & Hf)].
    + apply elem_of_map_to_list in Hq. exists q. cbn. destruct (report_same (l_counters l) k q) as [-> _]. by rewrite (Hk _ _ Hq).
    + apply list_elem_of_filter in Hf as [Hn Hin]. apply elem_of_map_to_list in Hin. cbn in Hn. specialize (Hc k Hn). cbn in Hc. congruence.
  - intros (q & Hq & Ep). left. exists (wp_key p, q). split; [done|]. by apply elem_of_map_to_list.
Qed.
Lemma device_peers l p : link_ok l -> p ∈ d_peers (device l) <-> exists q, l_peers l !! wp_key p = Some q /\ p = report (l_counters l) (wp_key p) q.
Proof. intros [Hk Hc _ _]. by apply peers_of_device. Qed.
Lemma held_lookup current : forall (m : gmap Key WPeer) k p, foldl (fun m p => <[wp_key p := p]> m) m current !! k = Some p -> (p ∈ current /\ wp_key p = k) \/ m !! k = Some p.
Proof.
  induction current as [|c current IH]; intros m k p H; [by right|]. cbn [foldl] in H. destruct (IH _ _ _ H) as [[Hin E]|H']; [left; split; [by right|done]|].
  apply lookup_insert_Some in H' as [[<- <-]|[_ H']]; [left; split; [left|done]|by right].
Qed.

Lemma apart_filter (P : PeerConfig -> Prop) `{!forall x, Decision (P x)} l : apart l -> apart (filter P l).
Proof.
  induction l as [|c l IH]; [done|]. intros (Hw & Hf & Ha). rewrite filter_cons. case_decide; [|by apply IH]. split_and!; [done| |by apply IH].
  intros d [_ Hd]%list_elem_of_filter. by apply Hf.
Qed.
Lemma apart_whole l c : apart l -> c ∈ l -> whole c.
Proof. induction l as [|d l IH]; intros Ha Hc; [by apply not_elem_of_nil in Hc|]. destruct Ha as (Hw & _ & Ha). apply elem_of_cons in Hc as [->|Hc]; auto. Qed.
Lemma apart_two l c d : apart l -> c ∈ l -> d ∈ l -> c <> d -> pc_key c <> pc_key d /\ disjoint_texts (pc_allowed c) (pc_allowed d).
Proof.
  induction l as [|x l IH]; intros Ha Hc Hd Hne; [by apply not_elem_of_nil in Hc|]. destruct Ha as (_ & Hf & Ha).
  apply elem_of_cons in Hc as [->|Hc]; apply elem_of_cons in Hd as [->|Hd]; [done| |..|by apply IH].
  - destruct (Hf d Hd) as [Hk Hdis]. split; [congruence|done].
  - destruct (Hf c Hc) as [Hk Hdis]. split; [done|]. intros t H1 H2. by apply (Hdis t).
Qed.
Lemma peerEqual_serves cur cfg : wp_key cur = pc_key cfg -> peerEqual cur cfg = true -> serves cfg cur.
Proof.
  unfold peerEqual, serves. intros Hk. destruct (pc_psk cfg) as [psk|]; [|done]. destruct (pc_keepalive cfg) as [ka|]; [|done]. intros H.
  apply andb_true_iff in H as [H Hs]. apply andb_true_iff in H as [H _]. apply andb_true_iff in H as [H Hka]. apply andb_true_iff in H as [_ Hp].
  apply bool_decide_eq_true in Hs. apply bool_decide_eq_true in Hp. apply Z.eqb_eq in Hka. split_and!; [done|by subst..|].
  unfold sorted_texts in Hs. rewrite <-(merge_sort_Permutation String.le (texts (wp_allowed cur))), Hs. apply merge_sort_Permutation.
Qed.
Lemma written_serves cfg p : written cfg p -> serves cfg p.
Proof. intros (H1 & H2 & H3 & H4). split_and!; [done..|]. by rewrite H3. Qed.

Lemma peers_converge l peers full : link_ok l -> apart peers ->
  let ps := (foldl configure_peer (l_peers l, l_counters l) (diffPeers (d_peers (device l)) peers full)).1 in
  (forall cfg, cfg ∈ peers -> exists p, ps !! pc_key cfg = Some p /\ serves cfg p) /\ (forall k p, ps !! k = Some p -> k ∈ pc_key <$> peers).
Proof.
  intros Hok Ha. unfold diffPeers. set (have := held_peers _). set (A := filter _ peers). rewrite foldl_app.
  assert (apart A) as HA by by apply apart_filter.
  destruct (configure_apart A HA (l_peers l, l_counters l) (ok_keyed _ Hok)) as (I1 & I2 & I3 & _).
  assert (forall c, c ∈ A -> c ∈ peers) as HAsub by (intros c Hc; by apply list_elem_of_filter in Hc as [_ ?]).
  rewrite (list_fmap_compose wp_key removal). rewrite configure_removals. cbn zeta. setoid_rewrite deletes_lookup. split.
  - intros cfg Hcfg. rewrite bool_decide_eq_false_2.
    2:{ intros (p & E & Hp)%list_elem_of_fmap. apply list_elem_of_filter in Hp as [Hn _]. apply Hn. rewrite <-E. by apply list_elem_of_fmap_2. }
    destruct (negb full && match have !! pc_key cfg with Some cur => peerEqual cur cfg | None => false end) eqn:Ekept.
    + apply andb_true_iff in Ekept as [Ef Ek]. destruct (have !! pc_key cfg) as [cur|] eqn:Eh; [|done].
      assert (cur ∈ d_peers (device l) /\ wp_key cur = pc_key cfg) as [Hin Hkey]. { destruct (held_lookup _ _ _ _ Eh) as [?|E0]; [done|]. by rewrite lookup_empty in E0. }
      pose proof (peerEqual_serves _ _ Hkey Ek) as Hs. apply (device_peers l cur Hok) in Hin as (q & Hq & Ecur). rewrite Hkey in Hq, Ecur.
      destruct (report_same (l_counters l) (pc_key cfg) q) as (E1 & E2 & E3 & E4). rewrite <-Ecur in *. unfold serves in *. rewrite E1, E2, E3, E4 in Hs.
      assert (forall c, c ∈ A -> c <> cfg) as Hne. { intros c [Hc _]%list_elem_of_filter ->. rewrite Eh, Ek in Hc. by destruct full. }
      exists q. split; [|done]. apply I2; [|done|].
      * intros (c & E & Hc)%list_elem_of_fmap. by destruct (apart_two peers c cfg Ha (HAsub c Hc) Hcfg (Hne c Hc)) as [? _].
      * intros c Hc t Hin Hin'. destruct Hs as (_ & _ & _ & Hperm). rewrite Hperm in Hin. destruct (apart_two peers c cfg Ha (HAsub c Hc) Hcfg (Hne c Hc)) as [_ Hdis]. by apply (Hdis t).
    + destruct (I1 cfg) as (p & Ep & Hp); [apply list_elem_of_filter; split; [by rewrite Ekept|done]|]. exists p. split; [done|by apply written_serves].
  - intros k p. case_bool_decide as Hk; [done|]. intros Hp. destruct (decide (k ∈ pc_key <$> peers)) as [|Hn]; [done|]. exfalso.
    assert (k ∉ pc_key <$> A) as HnA. { intros (c & -> & Hc)%list_elem_of_fmap. apply Hn, list_elem_of_fmap_2. by apply HAsub. }
    destruct (l_peers l !! k) as [q|] eqn:Eq; [|by rewrite (proj2 (I3 k HnA) Eq) in Hp]. apply Hk, list_elem_of_fmap. exists (report (l_counters l) k q).
    destruct (report_same (l_counters l) k q) as [E1 _]. rewrite (ok_keyed _ Hok _ _ Eq) in E1. split; [done|]. apply list_elem_of_filter. rewrite E1. split; [done|].
    apply device_peers; [done|]. rewrite E1. eauto.
Qed.

(** ** Addresses and routes *)

(** [k'] is [k] but for the link [name]. *)
Definition only (name : string) (k k' : Kernel) : Prop := forall other, other <> name -> links k' !! other = links k !! other.
Lemma only_trans name k1 k2 k3 : only name k1 k2 -> only name k2 k3 -> only name k1 k3.
Proof. intros H1 H2 o Ho. by rewrite H2, H1. Qed.
Lemma only_on_link f name k : only name k (on_link f name k).
Proof. intros o Ho. cbn. by rewrite lookup_alter_ne. Qed.
Lemma on_link_lookup f name k l : links k !! name = Some l -> links (on_link f name k) !! name = Some (f l).
Proof. intros H. cbn. by rewrite lookup_alter_eq, H. Qed.

Lemma with_net_self l : with_net (l_addrs l) (l_routes l) l = l.
Proof. by destruct l. Qed.
(** The link [name] of [k'] carries other addresses and routes, and no other link changed. *)
Definition renet (name : string) (k : Kernel) (l : link) (k' : Kernel) (addrs routes : list Prefix) : Prop :=
  only name k k' /\ links k' !! name = Some (with_net addrs routes l).
Lemma renet_refl name k l : links k !! name = Some l -> renet name k l k (l_addrs l) (l_routes l).
Proof. intros H. split; [done|]. by rewrite with_net_self. Qed.
Lemma renet_step f name k l k' a r a' r' : links k !! name = Some l -> f l = with_net a r l -> renet name (on_link f name k) (f l) k' a' r' -> renet name k l k' a' r'.
Proof. intros Hl Hf [H1 H2]. split; [eapply only_trans; [apply only_on_link|exact H1]|]. by rewrite H2, Hf. Qed.
Lemma filter_cons_away (d : Prefix) (del l : list Prefix) : filter (fun p => p ∉ del /\ p <> d) l = filter (fun p => p ∉ d :: del) l.
Proof. apply list_filter_iff. intros p. rewrite not_elem_of_cons. tauto. Qed.
Lemma filter_away_none (l : list Prefix) : filter (fun p => p ∉ []) l = l.
Proof. induction l as [|p l IH]; [done|]. rewrite filter_cons_True by apply not_elem_of_nil. by rewrite IH. Qed.

Lemma add_addrs_net name add : forall k l k', links k !! name = Some l -> each (fun w p => AddAddr w name p) AddAddrErr k add = (k', []) ->
  exists rs, renet name k l k' (l_addrs l ++ add) rs /\ forall r, r ∈ rs <-> r ∈ l_routes l \/ r ∈ Masked <$> add.
Proof.
  induction add as [|a add IH]; intros k l k' Hl E; cbn [each] in E.
  { injection E as <-. exists (l_routes l). rewrite app_nil_r. split; [by apply renet_refl|]. intros r. rewrite fmap_nil, elem_of_nil. tauto. }
  cbn [AddAddr KernelPlane] in E. unfold Kernel_AddAddr in E. rewrite Hl in E. case_bool_decide as Hin; [by destruct (each _ _ k add)|].
  set (f := fun l0 => with_net _ _ l0) in E. destruct (each _ _ (on_link f name k) add) as [k2 fs] eqn:E2. injection E as <- E. destruct fs; [|done].
  destruct (IH _ (f l) _ (on_link_lookup f name k l Hl) E2) as (rs & Hr & Hm). exists rs. split.
  - change (l_addrs (f l)) with (l_addrs l ++ [a]) in Hr. rewrite <-app_assoc in Hr. eapply (renet_step f); [done|reflexivity|exact Hr].
  - intros r. rewrite Hm. cbn. rewrite elem_of_cons. case_bool_decide as Hma; [naive_solver|]. rewrite elem_of_app, list_elem_of_singleton. tauto.
Qed.
Lemma drop_addrs_net name del : forall k l, links k !! name = Some l ->
  exists k' rs, drop_addrs name k del = (k', (Masked <$> del, [])) /\ renet name k l k' (filter (fun p => p ∉ del) (l_addrs l)) rs /\
    forall r, r ∈ rs <-> r ∈ l_routes l /\ r ∉ Masked <$> del.
Proof.
  induction del as [|d del IH]; intros k l Hl; cbn [drop_addrs].
  { exists k, (l_routes l). split_and!; [done| |]. 2:{ intros r. rewrite fmap_nil, elem_of_nil. tauto. }
    rewrite filter_away_none. by apply renet_refl. }
  cbn [DelAddr KernelPlane]. unfold Kernel_DelAddr. set (f := fun l0 => with_net _ _ l0). destruct (IH _ (f l) (on_link_lookup f name k l Hl)) as (k' & rs & E & Hr & Hm).
  rewrite E. exists k', rs. split_and!; [done| |].
  - cbn in Hr. rewrite list_filter_filter, filter_cons_away in Hr. eapply (renet_step f); [done|reflexivity|exact Hr].
  - intros r. rewrite Hm. cbn. rewrite list_elem_of_filter, not_elem_of_cons. tauto.
Qed.
Lemma add_routes_net name add : forall k l k', links k !! name = Some l -> each (fun w p => AddRoute w name p) RouteErr k add = (k', []) ->
  renet name k l k' (l_addrs l) (l_routes l ++ add).
Proof.
  induction add as [|a add IH]; intros k l k' Hl E; cbn [each] in E. { injection E as <-. rewrite app_nil_r. by apply renet_refl. }
  cbn [AddRoute KernelPlane] in E. unfold Kernel_AddRoute in E. rewrite Hl in E. case_bool_decide as Hin; [by destruct (each _ _ k add)|].
  set (f := fun l0 => with_net _ _ l0) in E. destruct (each _ _ (on_link f name k) add) as [k2 fs] eqn:E2. injection E as <- E. destruct fs; [|done].
  pose proof (IH _ (f l) _ (on_link_lookup f name k l Hl) E2) as Hr. cbn in Hr. rewrite <-app_assoc in Hr. eapply (renet_step f); [done|reflexivity|exact Hr].
Qed.
Lemma del_routes_net name del : forall k l k', links k !! name = Some l -> each (fun w p => DelRoute w name p) UnrouteErr k del = (k', []) ->
  renet name k l k' (l_addrs l) (filter (fun p => p ∉ del) (l_routes l)).
Proof.
  induction del as [|d del IH]; intros k l k' Hl E; cbn [each] in E.
  { injection E as <-. rewrite filter_away_none. by apply renet_refl. }
  cbn [DelRoute KernelPlane] in E. unfold Kernel_DelRoute in E. rewrite Hl in E. case_bool_decide as Hin; [|by destruct (each _ _ k del)].
  set (f := fun l0 => with_net _ _ l0) in E. destruct (each _ _ (on_link f name k) del) as [k2 fs] eqn:E2. injection E as <- E. destruct fs; [|done].
  pose proof (IH _ (f l) _ (on_link_lookup f name k l Hl) E2) as Hr. cbn in Hr. rewrite list_filter_filter, filter_cons_away in Hr. eapply (renet_step f); [done|reflexivity|exact Hr].
Qed.
End Converge.

(** ** Keys as text *)

Lemma hex_value_range c n : hex_value c = Some n -> 0 <= n < 16.
Proof. unfold hex_value. repeat case_match; intros; simplify_eq; bools; lia. Qed.
Lemma hex_decode_bytes s : forall l, hex_DecodeString s = Some l -> bytes l.
Proof.
  induction s as [s IH] using (induction_ltof1 _ (@length Ascii.ascii)). unfold ltof in IH. intros l.
  destruct s as [|a [|b s]]; cbn [hex_DecodeString]; [by intros [= <-]; constructor|done|]. destruct (hex_value a) as [x|] eqn:Ea; [|done]. destruct (hex_value b) as [y|] eqn:Eb; [|done]. cbn [mbind option_bind].
  destruct (hex_DecodeString s) as [l'|] eqn:E; [|done]. intros [= <-]. apply hex_value_range in Ea, Eb. constructor; [lia|]. apply (IH s); [cbn; lia|done].
Qed.
Lemma parseKey_key s k : parseKey s = inr k -> key_of k.
Proof.
  unfold parseKey. case_bool_decide.
  - intros [= <-]. split; [|done]. unfold bytes, zero_key. apply Forall_forall. intros x Hx%list_elem_of_In%repeat_spec. lia.
  - destruct (KeyToHex _); [done|]. destruct (hex_DecodeString _) as [raw|] eqn:E; [|done]. destruct (Nat.eqb_spec (length raw) 32); [|done]. intros [= <-]. split; [by eapply hex_decode_bytes|done].
Qed.
Lemma encoded_text k : key_of k -> exists t, std_EncodeToString k = t ++ [chr 61] /\ length t = 43%nat /\ raw_DecodeString std_value t = Some k /\
  (forall c, c ∈ t ++ [chr 61] -> ord c <> 10 /\ ord c <> 13) /\ keySep ∉ t ++ [chr 61].
Proof.
  intros [Hb Hl]. exists (raw_EncodeToString std_digit k). pose proof (to_sextets_range k Hb) as Hr.
  assert (length (raw_EncodeToString std_digit k) = 43%nat) as Hlen. { unfold raw_EncodeToString. rewrite length_fmap. pose proof (to_sextets_length k). lia. }
  assert (forall c, c ∈ raw_EncodeToString std_digit k ++ [chr 61] -> ord c <> 10 /\ ord c <> 13 /\ ord c <> 0) as Hc.
  { intros c [(n & -> & Hn)%list_elem_of_fmap| ->%list_elem_of_singleton]%elem_of_app; [|done]. rewrite Forall_forall in Hr. specialize (Hr n Hn). cbv beta in Hr. clear - Hr. by_digits 64%nat. }
  split_and!; [|done|by apply raw_back; [apply std_back|apply std_legible|]|intros c H; by destruct (Hc c H) as (? & ? & ?)|].
  - unfold std_EncodeToString, pad. by rewrite Hlen.
  - intros H. destruct (Hc _ H) as (_ & _ & H0). by apply H0.
Qed.
Lemma ParseKey_String k : key_of k -> ParseKey (Key_String k) = Some k.
Proof.
  intros H. destruct (encoded_text k H) as (t & E & Hl & Hd & Hc & _). unfold ParseKey, Key_String. rewrite E, String.list_ascii_of_string_of_list_ascii.
  assert (filter (fun c => ord c <> 10 /\ ord c <> 13) (t ++ [chr 61]) = t ++ [chr 61]) as ->.
  { clear - Hc. induction (t ++ [chr 61]) as [|c l IH]; [done|]. rewrite filter_cons_True, IH; [done| |apply Hc; left]. intros x Hx. apply Hc. by right. }
  rewrite length_app, Hl. cbn [length Nat.add Nat.eqb andb]. rewrite drop_app_length', take_app_length' by done. by rewrite bool_decide_eq_true_2.
Qed.
Lemma Cut_text s : forall t, keySep ∉ s -> Cut keySep (String.string_of_list_ascii s +:+ String keySep t) = (String.string_of_list_ascii s, t).
Proof.
  induction s as [|c s IH]; intros t H; [done|]. rewrite not_elem_of_cons in H. destruct H as [Hne H]. change (String.string_of_list_ascii (c :: s) +:+ String keySep t) with (String c (String.string_of_list_ascii s +:+ String keySep t)). cbn [Cut]. rewrite bool_decide_eq_false_2 by congruence. by rewrite IH.
Qed.

(** What a reading is kept under. *)
Abbreviation reading k d := (Key_String k +:+ String keySep d).
Lemma Cut_reading k d : key_of k -> Cut keySep (reading k d) = (Key_String k, d).
Proof. intros H. destruct (encoded_text k H) as (t & E & _ & _ & _ & Hn). unfold Key_String. rewrite E. by apply Cut_text. Qed.
Lemma reading_inj k d k' d' : key_of k -> key_of k' -> reading k d = reading k' d' -> k = k' /\ d = d'.
Proof.
  intros H H' E%(f_equal (Cut keySep)). rewrite !Cut_reading in E by done. injection E as Ek ->. split; [|done].
  apply (f_equal ParseKey) in Ek. rewrite !ParseKey_String in Ek by done. by injection Ek.
Qed.

(** ** Who a delta is billed to *)

(** The client and the direction of what is kept under a name. *)
Definition owner (r : managed) (name : string) : option (string * string) :=
  let '(raw, direction) := Cut keySep name in key ← ParseKey raw; email ← byKey r !! key; Some (email, direction).
Definition billed_more (r : managed) (e : string) (acc : option Traffic) (kd : string * Z) : option Traffic :=
  let t := default (mkTraffic (m_tag r) e 0 0) acc in
  Some (if bool_decide ((Cut keySep kd.1).2 = "up") then mkTraffic (tTag t) (tEmail t) (i64 (Up t + kd.2)) (Down t)
        else mkTraffic (tTag t) (tEmail t) (Up t) (i64 (Down t + kd.2))).
Definition owned_by (r : managed) (e : string) (kd : string * Z) : Prop := fst <$> owner r kd.1 = Some e.
#[global] Instance owned_by_dec r e kd : Decision (owned_by r e kd).
Proof. unfold owned_by. apply _. Defined.

Lemma attribute_one_lookup r into kd e : attribute_one r into kd !! e = if decide (owned_by r e kd) then billed_more r e (into !! e) kd else into !! e.
Proof.
  destruct (decide (owned_by r e kd)) as [H|H]; unfold owned_by, owner in H; unfold attribute_one, billed_more; destruct (Cut keySep kd.1) as [raw d];
    (destruct (ParseKey raw) as [key|]; cbn in *; [|done]); (destruct (byKey r !! key) as [email|]; cbn in *; [|done]).
  - injection H as ->. rewrite lookup_insert_eq. by destruct (bool_decide (d = "up")).
  - by rewrite lookup_insert_ne by congruence.
Qed.
Lemma attribute_lookup r l : forall into e, foldl (attribute_one r) into l !! e = foldl (billed_more r e) (into !! e) (filter (owned_by r e) l).
Proof. induction l as [|kd l IH]; intros into e; [done|]. cbn [foldl]. rewrite IH, filter_cons, attribute_one_lookup. by destruct (decide (owned_by r e kd)). Qed.
Definition one (m : gmap string Z) (a : string) : list (string * Z) := match m !! a with Some v => [(a, v)] | None => [] end.
Lemma elem_one m a kd : kd ∈ one m a <-> kd.1 = a /\ m !! a = Some kd.2.
Proof. destruct kd as [n v]. unfold one. destruct (m !! a) as [x|]; [rewrite list_elem_of_singleton|]; cbn; [naive_solver|]. split; [by intros ?%not_elem_of_nil|by intros [_ ?]]. Qed.
Lemma filter_two (P : string * Z -> Prop) `{!forall x, Decision (P x)} (m : gmap string Z) a b : a <> b -> (forall kd, m !! kd.1 = Some kd.2 -> P kd <-> kd.1 = a \/ kd.1 = b) ->
  filter P (map_to_list m) ≡ₚ one m a ++ one m b.
Proof.
  intros Hab HP. apply NoDup_Permutation.
  - apply NoDup_filter, NoDup_map_to_list.
  - apply NoDup_app. split_and!; [unfold one; case_match; [apply NoDup_singleton|constructor]| |unfold one; case_match; [apply NoDup_singleton|constructor]]. intros kd [<- _]%elem_one [E _]%elem_one. done.
  - intros [n v]. rewrite list_elem_of_filter, elem_of_map_to_list, elem_of_app, !elem_one. cbn. split.
    + intros [Hp Hm]. apply HP in Hp; [|done]. cbn in Hp. destruct Hp as [->| ->]; auto.
    + intros [[-> Hm]|[-> Hm]]; (split; [apply HP; cbn; auto|done]).
Qed.

(** Of the deltas of one client, the bill. *)
Lemma bill_of r e (deltas : gmap string Z) key : key_of key -> (forall kd, deltas !! kd.1 = Some kd.2 -> owned_by r e kd <-> kd.1 = reading key "up" \/ kd.1 = reading key "down") ->
  (forall d v, deltas !! reading key d = Some v -> 0 <= v < 9223372036854775808) ->
  attribute deltas ∅ r !! e = match deltas !! reading key "up", deltas !! reading key "down" with None, None => None | u, d => Some (mkTraffic (m_tag r) e (default 0 u) (default 0 d)) end.
Proof.
  intros Hk Ho Hv. unfold attribute. rewrite attribute_lookup, lookup_empty. assert (reading key "up" <> reading key "down") as Hne by (intros [_ E]%reading_inj; done).
  pose proof (filter_two (owned_by r e) deltas _ _ Hne Ho) as Hp. unfold one in Hp. assert (forall v, 0 <= v < 9223372036854775808 -> i64 (0 + v) = v) as Hi. { intros v Hr. apply i64_small. unfold is_i64, MinInt64, MaxInt64. lia. }
  pose proof (Hv "up") as Hu. pose proof (Hv "down") as Hd.
  assert (forall d, bool_decide ((Cut keySep (reading key d)).2 = "up") = bool_decide (d = "up")) as Hdir by (intros d; by rewrite Cut_reading).
  destruct (deltas !! reading key "up") as [u|], (deltas !! reading key "down") as [d|]; cbn [app] in Hp.
  - specialize (Hu u eq_refl). specialize (Hd d eq_refl). symmetry in Hp. apply Permutation_length_2_inv in Hp as [-> | ->]; cbn [foldl]; unfold billed_more; cbn [fst snd]; rewrite !Hdir; cbn; rewrite !Hi by done; done.
  - specialize (Hu u eq_refl). symmetry in Hp. apply Permutation_length_1_inv in Hp as ->. cbn [foldl]. unfold billed_more. cbn [fst snd]. rewrite Hdir. cbn. by rewrite Hi.
  - specialize (Hd d eq_refl). symmetry in Hp. apply Permutation_length_1_inv in Hp as ->. cbn [foldl]. unfold billed_more. cbn [fst snd]. rewrite Hdir. cbn. by rewrite Hi.
  - apply Permutation_nil_r in Hp as ->. done.
Qed.
(** Whatever the deltas are, a bill is of a client of the index and under its own tag. *)
Lemma bill_names r (deltas : gmap string Z) e t : attribute deltas ∅ r !! e = Some t -> tTag t = m_tag r /\ tEmail t = e /\ exists key, byKey r !! key = Some e.
Proof.
  unfold attribute. rewrite attribute_lookup, lookup_empty. intros H. assert (exists kd, owned_by r e kd) as [kd Hkd].
  { destruct (filter (owned_by r e) (map_to_list deltas)) as [|kd l] eqn:E; [done|]. exists kd. assert (kd ∈ filter (owned_by r e) (map_to_list deltas)) as Hin by (rewrite E; left). by apply list_elem_of_filter in Hin as [? _]. }
  assert (forall l acc, (forall t, acc = Some t -> tTag t = m_tag r /\ tEmail t = e) -> forall t, foldl (billed_more r e) acc l = Some t -> tTag t = m_tag r /\ tEmail t = e) as Hf.
  { induction l as [|x l IH]; intros acc Ha; [done|]. cbn [foldl]. apply IH. unfold billed_more. intros s [= <-]. destruct acc as [a|]; cbn; case_bool_decide; cbn; auto. }
  destruct (Hf _ None ltac:(done) _ H) as [H1 H2]. split_and!; [done..|].
  unfold owned_by, owner in Hkd. destruct (Cut keySep kd.1) as [raw d]. destruct (ParseKey raw) as [key|]; [|done]. cbn in Hkd. destruct (byKey r !! key) as [em|] eqn:E; [|done]. cbn in Hkd. injection Hkd as ->. eauto.
Qed.

(** ** What is read of a device *)

Definition add_readings (m : gmap string Z) (p : WPeer) : gmap string Z := <[reading (wp_key p) "down" := wp_tx p]> (<[reading (wp_key p) "up" := wp_rx p]> m).
Lemma readings_of peers key d v : key_of key -> (forall p, p ∈ peers -> key_of (wp_key p) /\ (wp_key p = key -> (d = "up" /\ wp_rx p = v) \/ (d = "down" /\ wp_tx p = v))) ->
  forall m, m !! reading key d = Some v \/ (exists p, p ∈ peers /\ wp_key p = key) -> foldl add_readings m peers !! reading key d = Some v.
Proof.
  intros Hk. induction peers as [|p peers IH]; intros Hp m Hm. { destruct Hm as [Hm|(p & Hp' & _)]; [done|by apply not_elem_of_nil in Hp']. }
  cbn [foldl]. destruct (Hp p ltac:(left)) as [Hkp Hv]. apply IH; [intros q Hq; apply Hp; by right|]. unfold add_readings.
  destruct (decide (wp_key p = key)) as [E|Hne].
  - left. destruct (Hv E) as [[-> <-]|[-> <-]]; rewrite E; [|apply lookup_insert_eq]. rewrite lookup_insert_ne, lookup_insert_eq; [done|]. by intros [_ ?]%reading_inj.
  - rewrite !lookup_insert_ne by (intros [? _]%reading_inj; done). destruct Hm as [Hm|(q & [->|Hq]%elem_of_cons & E)]; [by left|done|right; eauto].
Qed.
Lemma readings_named peers n v : forall m, foldl add_readings m peers !! n = Some v -> m !! n = Some v \/ exists p, p ∈ peers /\ (n = reading (wp_key p) "up" \/ n = reading (wp_key p) "down").
Proof.
  induction peers as [|p peers IH]; intros m H; [by left|]. cbn [foldl] in H. destruct (IH _ H) as [H'|(q & Hq & E)]; [|right; exists q; split; [by right|done]].
  unfold add_readings in H'. apply lookup_insert_Some in H' as [[<- _]|[_ H']]; [right; exists p; split; [left|auto]|]. apply lookup_insert_Some in H' as [[<- _]|[_ H']]; [right; exists p; split; [left|auto]|by left].
Qed.

(** The deltas of the second of two readings of one source. *)
Lemma second_deltas ep ra rb c name : (observe ep rb (observe ep ra c).1).2 !! name = match rb !! name with Some v => delta (last (observe ep ra c).1 !! name) v | None => None end.
Proof.
  rewrite observe_delta, observe_primed. assert (restarted (observe ep ra c).1 ep = false) as ->; [|done]. unfold restarted.
  assert (bool_decide (ep = "") = true \/ epoch (observe ep ra c).1 = ep) as [-> | ->].
  - case_bool_decide as E; [by left|right]. unfold observe. rewrite (bool_decide_eq_false_2 (ep = "")) by done. destruct (primed c); cbn; [|done]. unfold expire. by case_bool_decide.
  - by rewrite andb_false_r.
  - rewrite (bool_decide_eq_true_2 (ep = ep)) by done. by rewrite andb_false_r.
Qed.

(** ** Collections *)

Section Collect.
Context {HP : Parsers} {HT : PrefixText} {W : Type} {HW : Plane W}.
Implicit Types (m : Manager) (w : W) (r : managed).

(** What a collection does with one record and the device of it. *)
Definition scraped now w name r : managed * (list Traffic * list string) :=
  let '(billed, rec) := takePending r in
  match plane_Snapshot w name with
  | Fail _ => (rec, (flatten billed, []))
  | Ok snap =>
      if negb (s_exists snap) then (rec, (flatten billed, []))
      else
        let '(readings, ep) := deviceReadings snap (generation rec) in
        let '(c, deltas) := Counter_Observe ep readings (m_counter rec) in
        (with_counter c rec, (flatten (attribute deltas billed rec), omap (fun p => if isOnline now (wp_handshake p) then byKey rec !! wp_key p else None) (d_peers (s_device snap))))
  end.
Lemma scrapeDevice_scraped now m w id r : devices m !! id = Some r -> scrapeDevice now m w id = (set_record id (scraped now w (Name m id) r).1 m, (scraped now w (Name m id) r).2).
Proof.
  intros E. unfold scrapeDevice, scraped. rewrite E. unfold takePending. change (Name (set_record id (with_pending None r) m) id) with (Name m id).
  destruct (plane_Snapshot w (Name m id)) as [snap|]; [|done]. destruct (negb (s_exists snap)); [done|]. destruct (deviceReadings _ _) as [rd ep]. destruct (Counter_Observe _ _ _) as [c ds].
  unfold set_record. cbn. by rewrite insert_insert_eq.
Qed.
Definition scrape_of now m w id : list Traffic := from_option (fun r => (scraped now w (Name m id) r).2.1) [] (devices m !! id).
Lemma scrape_each_scraped now w ids : forall m, NoDup ids -> (forall id, id ∈ ids -> is_Some (devices m !! id)) ->
  let '(m', (out, _)) := scrape_each now m w ids in prefix m' = prefix m /\ out = concat (scrape_of now m w <$> ids) /\
  forall id, devices m' !! id = if bool_decide (id ∈ ids) then (fun r => (scraped now w (Name m id) r).1) <$> devices m !! id else devices m !! id.
Proof.
  induction ids as [|i ids IH]; intros m Hnd Hs; cbn [scrape_each]. { split_and!; [done..|]. intros id. rewrite bool_decide_eq_false_2; [done|]. apply not_elem_of_nil. }
  apply NoDup_cons in Hnd as [Hi Hnd]. destruct (Hs i ltac:(left)) as [r Er]. rewrite (scrapeDevice_scraped _ _ _ _ _ Er). destruct (scraped now w (Name m i) r) as [r' [billed con]] eqn:Esc. cbn [fst snd].
  set (m1 := set_record i r' m). assert (forall id, id <> i -> devices m1 !! id = devices m !! id) as Hm1 by (intros id Hne; unfold m1, set_record; cbn; by rewrite lookup_insert_ne).
  specialize (IH m1 Hnd ltac:(intros id Hid; rewrite Hm1; [apply Hs; by right|by intros ->])). destruct (scrape_each now m1 w ids) as [m2 [out online]]. destruct IH as (Hp & Ho & Hd). split_and!; [done| |].
  - rewrite fmap_cons. cbn [concat]. f_equal. { unfold scrape_of. rewrite Er. cbn [from_option]. by rewrite Esc. } rewrite Ho. f_equal. apply list_fmap_ext. intros j id Hid. unfold scrape_of. rewrite Hm1; [done|]. intros ->. apply Hi. by eapply list_elem_of_lookup_2.
  - intros id. rewrite Hd. destruct (decide (id = i)) as [->|Hne].
    + rewrite (bool_decide_eq_false_2 (i ∈ ids)), (bool_decide_eq_true_2 (i ∈ i :: ids)) by (done || left). unfold m1, set_record. cbn [devices]. rewrite lookup_insert_eq, Er. cbn [fmap option_fmap option_map]. by rewrite Esc.
    + rewrite Hm1 by done. rewrite (bool_decide_ext (id ∈ i :: ids) (id ∈ ids)); [done|]. rewrite elem_of_cons. tauto.
Qed.
Lemma collected now m w : let '(m', (out, _)) := CollectTraffic now m w in prefix m' = prefix m /\ out = concat (scrape_of now m w <$> (map_to_list (devices m)).*1) /\
  forall id, devices m' !! id = (fun r => (scraped now w (Name m id) r).1) <$> devices m !! id.
Proof.
  unfold CollectTraffic. assert (forall id, id ∈ (map_to_list (devices m)).*1 <-> is_Some (devices m !! id)) as Hin.
  { intros id. rewrite list_elem_of_fmap. split; [intros ([j r] & -> & H%elem_of_map_to_list); eauto|]. intros [r H]. exists (id, r). split; [done|]. by apply elem_of_map_to_list. }
  pose proof (scrape_each_scraped now w _ m (NoDup_fst_map_to_list (devices m)) (fun id H => proj1 (Hin id) H)) as H. destruct (scrape_each now m w _) as [m' [out online]]. destruct H as (H1 & H2 & H3). split_and!; [done..|].
  intros id. rewrite H3. case_bool_decide as Hi; [done|]. destruct (devices m !! id) eqn:E; [|done]. exfalso. apply Hi, Hin. rewrite E. eauto.
Qed.

Lemma scraped_kept now w name r : let r' := (scraped now w name r).1 in m_tag r' = m_tag r /\ generation r' = generation r /\ byKey r' = byKey r /\ pending r' = None.
Proof.
  unfold scraped, takePending. destruct (plane_Snapshot w name) as [snap|]; [|done]. destruct (negb (s_exists snap)); [done|]. destruct (deviceReadings _ _) as [rd ep]. by destruct (Counter_Observe _ _ _) as [c ds].
Qed.
Lemma scraped_tags now w name r t : pending r = None -> t ∈ (scraped now w name r).2.1 -> tTag t = m_tag r /\ exists key, byKey r !! key = Some (tEmail t).
Proof.
  intros Hp. unfold scraped, takePending. rewrite Hp. cbn [default]. assert (t ∈ flatten ∅ -> False) as H0. { unfold flatten. rewrite map_to_list_empty. cbn. apply not_elem_of_nil. }
  destruct (plane_Snapshot w name) as [snap|]; [|by intros ?%H0]. destruct (negb (s_exists snap)); [by intros ?%H0|]. destruct (deviceReadings _ _) as [rd ep]. destruct (Counter_Observe _ _ _) as [c ds].
  cbn. unfold flatten. intros ([e t'] & -> & Hin%elem_of_map_to_list)%list_elem_of_fmap. cbn. apply bill_names in Hin as (H1 & H2 & H3). by rewrite H2.
Qed.
Lemma filter_of_fmap {A B} (f : A -> B) (P : B -> Prop) `{!forall x, Decision (P x)} (l : list A) : filter P (f <$> l) = f <$> filter (P ∘ f) l.
Proof. induction l as [|x l IH]; [done|]. rewrite fmap_cons, !filter_cons, IH. unfold compose. by destruct (decide (P (f x))). Qed.
Lemma filter_flatten (P : Traffic -> Prop) `{!forall x, Decision (P x)} (b : gmap string Traffic) e : (forall e' t, b !! e' = Some t -> P t <-> e' = e) ->
  filter P (flatten b) = option_list (b !! e).
Proof.
  intros HP'. unfold flatten. rewrite filter_of_fmap.
  destruct (b !! e) as [t0|] eqn:E; cbn [option_list].
  - assert (filter (P ∘ snd) (map_to_list b) ≡ₚ [(e, t0)]) as Hp; [|symmetry in Hp; by apply Permutation_length_1_inv in Hp as ->].
    apply NoDup_Permutation; [apply NoDup_filter, NoDup_map_to_list|apply NoDup_singleton|]. intros [e' t]. rewrite list_elem_of_filter, elem_of_map_to_list, list_elem_of_singleton. cbn. split.
    + intros [H1 H2]. apply (HP' _ _ H2) in H1 as ->. congruence.
    + intros [= -> ->]. split; [by apply (HP' _ _ E)|done].
  - rewrite (elem_of_nil_inv (filter _ _)); [done|]. intros [e' t] [H1 H2%elem_of_map_to_list]%list_elem_of_filter. apply (HP' _ _ H2) in H1 as ->. congruence.
Qed.
Lemma filter_concat_at {A B} (P : B -> Prop) `{!forall x, Decision (P x)} (f : A -> list B) l x : NoDup l -> x ∈ l -> (forall y t, y ∈ l -> t ∈ f y -> P t -> y = x) -> filter P (concat (f <$> l)) = filter P (f x).
Proof.
  assert (forall l, (forall y t, y ∈ l -> t ∈ f y -> ~ P t) -> filter P (concat (f <$> l)) = []) as Hn.
  { intros l' Hl. apply elem_of_nil_inv. intros t [Ht Hin]%list_elem_of_filter. apply list_elem_of_In, in_concat in Hin as (u & Hu & Hin). apply list_elem_of_In, list_elem_of_fmap in Hu as (y & -> & Hy). apply list_elem_of_In in Hin. by apply (Hl y t). }
  induction l as [|y l IH]; intros Hnd Hx Hat; [by apply not_elem_of_nil in Hx|]. apply NoDup_cons in Hnd as [Hy Hnd]. rewrite fmap_cons. cbn [concat]. rewrite filter_app. apply elem_of_cons in Hx as [->|Hx].
  - rewrite Hn, app_nil_r; [done|]. intros z t Hz Ht HPt. apply Hy. rewrite <-(Hat z t); [done|by right|done..].
  - rewrite IH; [|done..|intros z t Hz; apply Hat; by right]. rewrite (elem_of_nil_inv (filter P (f y))); [done|]. intros t [HPt Ht]%list_elem_of_filter. apply Hy. rewrite (Hat y t); [done|left|done..].
Qed.
End Collect.
