(* ===== verification/WgCore.v ===== *)
(** * The WireGuard core: cores/internal/wireguard/core.go and convert.go

    The adapter between the panel's inbounds and the engine: which inbounds are served,
    kept or removed, and the traffic it hands on.  The half of the settings JSON the
    code reads is an interface ([SettingsText]); a float64 credential is given by its
    [int] conversion.  RenderClient (share.go) and the answers that are constants are
    left out. *)
From S2P Require Import Prelude Decimal Netip Counters WireguardKeys WgDevice WgKernel WgManager WgFacts.
Open Scope string_scope.
Open Scope Z_scope.
Open Scope list_scope.

Record deviceSettings := mkSettings { SecretKey : string; ds_Address : list string; ds_MTU : Z; ds_FWMark : Z; S4 : Z }.
Class SettingsText := {
  decode_device : string -> result deviceSettings;
  (** the email and public key of each client *)
  decode_clients : string -> option (list (string * string)) }.

Inductive credential := CredText (s : string) | CredTexts (l : list string) | CredItems (l : list (option string)) | CredFloat (int : Z) | CredInt (n : Z).
Record User := mkUser { u_Email : string; u_Enable : bool; Credentials : gmap string credential }.
Record InboundInstance := mkInbound { i_ID : Z; i_Tag : string; i_Port : Z; i_Enable : bool; Settings : string; Users : list User }.
Inductive Action := ActionNoop | ActionHotApply | ActionRestart.
#[global] Instance Action_eq_dec : EqDecision Action.
Proof. solve_decision. Defined.

(** ** Conversion *)

Definition CredString (c : gmap string credential) (key : string) : string := match c !! key with Some (CredText s) => s | _ => "" end.
Definition credStrings (c : gmap string credential) (key : string) : list string :=
  match c !! key with Some (CredTexts l) => l | Some (CredItems l) => omap id l | _ => [] end.
Definition credInt (c : gmap string credential) (key : string) : Z := match c !! key with Some (CredFloat n) | Some (CredInt n) => n | _ => 0 end.

Definition toPeer (u : User) : option Peer :=
  let key := CredString (Credentials u) "publicKey" in
  if bool_decide (u_Email u = "") || bool_decide (key = "") then None
  else Some (mkPeer (u_Email u) key (CredString (Credentials u) "preSharedKey") (credStrings (Credentials u) "allowedIPs") (credInt (Credentials u) "keepAlive") "").

Definition Join (sep : string) (l : list string) : string :=
  match l with [] => "" | s :: rest => foldl (fun acc t => acc +:+ sep +:+ t) s rest end.
Definition Sorted_ (l : list string) : list string := merge_sort String.le l.
Definition DeviceFingerprint (inst : Instance_) : string :=
  Join "|" [Itoa (Port inst); PrivateKey inst; Itoa (MTU inst); Itoa (FWMark inst); Join "," (Sorted_ (Address inst))].
Definition peer_row (p : Peer) : string :=
  PublicKey p +:+ ";psk=" +:+ PreSharedKey p +:+ ";ips=" +:+ Join "," (Sorted_ (AllowedIPs p)) +:+ ";ka=" +:+ Itoa (KeepAlive p).
Definition PeersFingerprint (inst : Instance_) : string := Join "|" (Sorted_ (peer_row <$> Peers inst)).

Definition ErrNoSecret : error := ErrorText "the inbound carries no secretKey".

Section Core.
Context {HJ : SettingsText}.

Definition ApplySettings (inst : Instance_) (settings : string) : result Instance_ :=
  if bool_decide (settings = "") then Ok inst
  else match decode_device settings with
       | Fail e => Fail e
       | Ok parsed => Ok (mkInstance (ID inst) (Tag inst) (Port inst) (TrimSpace (SecretKey parsed)) (ds_Address parsed) (ds_MTU parsed) (ds_FWMark parsed) (Peers inst) (S4 parsed))
       end.
Definition PeerKeyFromSettings (settings email : string) : string :=
  if bool_decide (settings = "") || bool_decide (email = "") then ""
  else match decode_clients settings with
       | None => ""
       | Some clients => default "" ((fun c => TrimSpace c.2) <$> head (filter (fun c => c.1 = email) clients))
       end.

Definition bare (inst : InboundInstance) : Instance_ := mkInstance (i_ID inst) (i_Tag inst) (i_Port inst) "" [] 0 0 [] 0.
Definition with_users (users : list User) (out : Instance_) : Instance_ :=
  mkInstance (ID out) (Tag out) (Port out) (PrivateKey out) (Address out) (MTU out) (FWMark out)
    (Peers out ++ omap (fun u => p ← toPeer u; if u_Enable u then Some p else None) users) (TransportPadding out).
(** The engine's instance, whether it is served, and why it cannot be read. *)
Definition toEngine (inst : InboundInstance) : Instance_ * bool * option error :=
  match ApplySettings (bare inst) (Settings inst) with
  | Fail e => (bare inst, false, Some e)
  | Ok out =>
      let out := with_users (Users inst) out in
      if i_Enable inst && bool_decide (PrivateKey out = "") then (out, false, Some ErrNoSecret) else (out, i_Enable inst, None)
  end.
Definition served (inst : InboundInstance) : option Instance_ := match toEngine inst with (out, true, None) => Some out | _ => None end.
Definition unreadable (inst : InboundInstance) : option error := snd (toEngine inst).

Definition PlanChange (before after : InboundInstance) : Action :=
  match toEngine before, toEngine after with
  | (b, bServe, None), (a, aServe, None) =>
      if negb (Bool.eqb bServe aServe) then ActionRestart
      else if negb (bool_decide (DeviceFingerprint b = DeviceFingerprint a)) || negb (bool_decide (PeersFingerprint b = PeersFingerprint a)) then ActionHotApply
      else ActionNoop
  | _, _ => ActionHotApply
  end.

(** ** The core *)

Inductive core_error := Unreadable (id : Z) (e : error) | NoPublicKeyOf (email : string) | Engine (e : wg_error).
Record Core := mkCore { mgr : Manager; online : list string; pendingTags : gmap string (Z * Z) }.
Definition with_mgr (m : Manager) (c : Core) : Core := mkCore m (online c) (pendingTags c).
Context {HP : Parsers} {HT : PrefixText} {W : Type} {HW : Plane W}.

Definition engine (c : Core) (r : Manager * W * list wg_error) : Core * W * list core_error := (with_mgr r.1.1 c, r.1.2, Engine <$> r.2).

Definition Core_Reconcile (c : Core) (w : W) (desired : list InboundInstance) : Core * W * list core_error :=
  let keep := omap (fun d => (fun _ => i_ID d) <$> unreadable d) desired in
  let '(c', w', fs) := engine c (Reconcile (mgr c) w (omap served desired) keep) in
  (c', w', omap (fun d => Unreadable (i_ID d) <$> unreadable d) desired ++ fs).
Definition ApplyInstance (c : Core) (w : W) (inst : InboundInstance) : Core * W * list core_error :=
  match toEngine inst with
  | (_, _, Some e) => (c, w, [Unreadable (i_ID inst) e])
  | (_, false, None) => engine c (Remove (mgr c) w (i_ID inst))
  | (want, true, None) => engine c (Ensure (mgr c) w want)
  end.
Definition DropInstance (c : Core) (w : W) (inst : InboundInstance) : Core * W * list core_error := engine c (Remove (mgr c) w (i_ID inst)).
Definition AddUser (c : Core) (w : W) (inst : InboundInstance) (user : User) : Core * W * list core_error :=
  match toEngine inst with
  | (_, _, Some e) => (c, w, [Unreadable (i_ID inst) e])
  | (_, false, None) => (c, w, [])
  | (want, true, None) =>
      if negb (u_Enable user) then (c, w, [])
      else match toPeer user with
           | None => (c, w, [NoPublicKeyOf (u_Email user)])
           | Some peer => engine c (AddPeer (mgr c) w want peer)
           end
  end.
Definition RemoveUser (c : Core) (w : W) (inst : InboundInstance) (email : string) : Core * W * list core_error :=
  engine c (RemovePeer (mgr c) w (fst (fst (toEngine inst))) email (PeerKeyFromSettings (Settings inst) email)).

Definition stash_one (m : gmap string (Z * Z)) (t : Traffic) : gmap string (Z * Z) :=
  if bool_decide (tTag t = "") then m
  else let acc := default (0, 0) (m !! tTag t) in <[tTag t := (i64 (acc.1 + Up t), i64 (acc.2 + Down t))]> m.
Definition stashTagTraffic (billed : list Traffic) (m : gmap string (Z * Z)) : gmap string (Z * Z) := foldl stash_one m billed.
Definition Core_CollectTraffic (now : Z) (c : Core) (w : W) : Core * list Traffic :=
  let '(m, (billed, connected)) := CollectTraffic now (mgr c) w in (mkCore m connected (stashTagTraffic billed (pendingTags c)), billed).
Definition tag_le (a b : string * (Z * Z)) : Prop := String.le a.1 b.1.
#[global] Instance tag_le_dec a b : Decision (tag_le a b) := _.
Definition CollectTagTraffic (c : Core) : Core * list (string * (Z * Z)) := (mkCore (mgr c) (online c) ∅, merge_sort tag_le (map_to_list (pendingTags c))).
Definition OnlineEmails (c : Core) : list string := online c.

Definition IsSingleIP (p : Prefix) : bool := IsValid (pAddr p) && (pBits p =? BitLen (pAddr p)).
Definition hostPrefixes (held : list Prefix) : list Prefix := filter (fun p => IsSingleIP p = true) held.
(** [errors.Is] with ErrNoDevice. *)
Fixpoint wraps (e target : error) : bool := bool_decide (e = target) || match e with ErrorJoin a b => wraps a target || wraps b target | _ => false end.
Definition no_device (e : wg_error) : bool := match e with NoDevice _ => true | PlaneErr e => wraps e ErrNoDevice | _ => false end.
(** No target while the device is not there. *)
Definition ShapingTargets (c : Core) (w : W) (inst : InboundInstance) : core_error + option (string * gmap string (list Prefix)) :=
  match PeerAllowedIPs (mgr c) w (i_ID inst) with
  | inl e => if no_device e then inr None else inl (Engine e)
  | inr held =>
      let keyed m u := let hosts := hostPrefixes (default [] (held !! u_Email u)) in if bool_decide (hosts = []) then m else <[u_Email u := hosts]> m in
      inr (Some (Name (mgr c) (i_ID inst), foldl keyed ∅ (Users inst)))
  end.
End Core.

(** ** What a pass over the inbounds leaves on the host *)

Section Reconcile.
Context {HJ : SettingsText} {HP : Parsers} {HT : PrefixText}.

Lemma served_id d inst : served d = Some inst -> ID inst = i_ID d.
Proof.
  unfold served, toEngine, ApplySettings. case_bool_decide; [|destruct (decode_device _); [|done]]; cbn; destruct (i_Enable d); cbn; try case_bool_decide; try done; by intros [= <-].
Qed.
Lemma each_only name op f : (forall w p, only name w (op w p).1) -> forall l (w : Kernel), only name w (each op f w l).1.
Proof.
  intros Hop. induction l as [|p l IH]; intros w; [done|]. cbn. specialize (Hop w p). destruct (op w p) as [w1 r]. specialize (IH w1). destruct (each op f w1 l) as [w2 fs]. by eapply only_trans.
Qed.
Lemma AddAddr_only k name p : only name k (Kernel_AddAddr k name p).1.
Proof. unfold Kernel_AddAddr. destruct (links k !! name); [|done]. case_bool_decide; [done|apply only_on_link]. Qed.
Lemma AddRoute_only k name p : only name k (Kernel_AddRoute k name p).1.
Proof. unfold Kernel_AddRoute. destruct (links k !! name); [|done]. case_bool_decide; [done|apply only_on_link]. Qed.
Lemma DelRoute_only k name p : only name k (Kernel_DelRoute k name p).1.
Proof. unfold Kernel_DelRoute. destruct (links k !! name); [|done]. case_bool_decide; [apply only_on_link|done]. Qed.
Lemma Configure_only k name d ps : only name k (Kernel_Configure k name d ps).1.
Proof. unfold Kernel_Configure. destruct (links k !! name); [|done]. destruct (foldl _ _ _). intros o Ho. cbn. by rewrite lookup_insert_ne. Qed.
Lemma EnsureLink_only k name mtu : only name k (Kernel_EnsureLink k name mtu).1.
Proof. unfold Kernel_EnsureLink. destruct (links k !! name); [apply only_on_link|]. intros o Ho. cbn. by rewrite lookup_insert_ne. Qed.
Lemma drop_addrs_only name l : forall k : Kernel, only name k (drop_addrs name k l).1.
Proof.
  induction l as [|p l IH]; intros k; [done|]. cbn [drop_addrs DelAddr KernelPlane]. unfold Kernel_DelAddr. set (k1 := on_link _ name k). specialize (IH k1). destruct (drop_addrs name k1 l) as [k2 [d fs]].
  eapply only_trans; [apply only_on_link|exact IH].
Qed.
Lemma syncAddrs_only (k : Kernel) name cur des : only name k (syncAddrs k name cur des).1.
Proof.
  unfold syncAddrs. destruct (diffAddrs cur des) as [add del]. pose proof (each_only name (fun w p => AddAddr w name p) AddAddrErr (fun w p => AddAddr_only w name p) add k) as H1. destruct (each _ _ k add) as [k1 f1].
  pose proof (drop_addrs_only name del k1) as H2. destruct (drop_addrs name k1 del) as [k2 [d f2]]. by eapply only_trans.
Qed.
Lemma syncRoutes_only (k : Kernel) name cur des addrs gone : only name k (syncRoutes k name cur des addrs gone).1.
Proof.
  unfold syncRoutes. destruct (diffRoutes cur des addrs) as [add del]. pose proof (each_only name (fun w p => AddRoute w name p) RouteErr (fun w p => AddRoute_only w name p) add k) as H1. destruct (each _ _ k add) as [k1 f1].
  pose proof (each_only name (fun w p => DelRoute w name p) UnrouteErr (fun w p => DelRoute_only w name p) (filter (fun p => p ∉ gone) del) k1) as H2. destruct (each _ _ k1 _) as [k2 f2]. by eapply only_trans.
Qed.
Lemma ensureDevice_only m (k : Kernel) inst key : only (Name m (ID inst)) k (ensureDeviceLocked m k inst key).1.
Proof.
  unfold ensureDeviceLocked. cbn [EnsureLink plane_Snapshot Configure KernelPlane]. set (name := Name m (ID inst)). pose proof (EnsureLink_only k name (linkMTU (MTU inst) (TransportPadding inst))) as H1.
  destruct (Kernel_EnsureLink k name _) as [k1 [st|]]; [|done]. destruct (Kernel_Snapshot k1 name) as [snap|]; [|done]. destruct (negb (s_exists snap)); [done|]. destruct (delta_empty _); [done|].
  set (d := diffDevice _ _ _ _ _). pose proof (Configure_only k1 name d []) as H2. destruct (Kernel_Configure k1 name d []) as [k2 [|]]; by eapply only_trans.
Qed.
(** A pass over an inbound touches its own device, whatever it reports. *)
Lemma ensureLocked_only m (k : Kernel) inst : only (Name m (ID inst)) k (ensureLocked m k inst).1.2 /\ prefix (ensureLocked m k inst).1.1 = prefix m.
Proof.
  unfold ensureLocked. destruct (parseKey _) as [|key]; [done|]. destruct (parsePrefixes _) as [|l]; [done|]. destruct (desiredPeers _) as [peers rej]. set (name := Name m (ID inst)).
  pose proof (ensureDevice_only m k inst key) as H1. fold name in H1. destruct (ensureDeviceLocked m k inst _) as [k1 [|[snap created]]]; [done|]. cbv zeta. cbn [fst] in H1. set (changes := diffPeers _ _ _).
  assert (only name k1 (if Nat.eqb (length changes) 0 then (k1, Ok tt) else Configure k1 name no_delta changes).1) as H2 by (destruct (Nat.eqb _ _); [done|apply Configure_only]).
  destruct (if Nat.eqb (length changes) 0 then _ else _) as [k2 r]. cbn [fst] in H2. pose proof (syncAddrs_only k2 name (s_addrs snap) l) as H3. destruct (syncAddrs _ _ _ _) as [k3 [dropped fs1]]. cbn [fst] in H3.
  pose proof (syncRoutes_only k3 name (s_routes snap) (desiredRoutes l peers) l dropped) as H4. destruct (syncRoutes _ _ _ _ _ _) as [k4 fs2]. cbn in *. split; [|done].
  eapply only_trans; [exact H1|]. eapply only_trans; [exact H2|]. by eapply only_trans.
Qed.
Lemma ensure_each_only l : forall m (k : Kernel) n, (forall inst, inst ∈ l -> Name m (ID inst) <> n) -> links (ensure_each m k l).1.2 !! n = links k !! n.
Proof.
  induction l as [|inst l IH]; intros m k n Hn; [done|]. cbn. destruct (ensureLocked_only m k inst) as [H1 H2]. destruct (ensureLocked m k inst) as [[m1 k1] [rej fs]]. cbn in H1, H2.
  assert (links (ensure_each m1 k1 l).1.2 !! n = links k1 !! n) as H3. { apply IH. intros i Hi. unfold Name. rewrite H2. apply Hn. by right. }
  destruct (ensure_each m1 k1 l) as [[m2 k2] fs2]. cbn in *. rewrite H3. apply H1. intros ->. by apply (Hn inst); [left|].
Qed.

Lemma removeLocked_links m (k : Kernel) id : links (removeLocked m k id).1.2 = delete (Name m id) (links k) /\ prefix (removeLocked m k id).1.1 = prefix m /\ (removeLocked m k id).2 = [].
Proof.
  unfold removeLocked. cbn [DeleteLink KernelPlane]. set (rec := _ <$> _). set (m1 := match rec with Some r => _ | None => _ end). assert (prefix m1 = prefix m) as Hp by by destruct rec.
  unfold Kernel_DeleteLink. case_bool_decide as Hl; cbn zeta; destruct rec; try case_bool_decide; cbn; split_and!; try done.
  all: symmetry; apply delete_id, eq_None_not_Some; done.
Qed.
Lemma remove_each_links ids : forall m (k : Kernel) n,
  links (remove_each m k ids).1.2 !! n = (if bool_decide (n ∈ Name m <$> ids) then None else links k !! n) /\ prefix (remove_each m k ids).1.1 = prefix m /\ (remove_each m k ids).2 = [].
Proof.
  induction ids as [|id ids IH]; intros m k n; [done|]. cbn [remove_each]. destruct (removeLocked_links m k id) as (H1 & H2 & H3). destruct (removeLocked m k id) as [[m1 k1] f1]. cbn in H1, H2, H3.
  destruct (IH m1 k1 n) as (I1 & I2 & I3). destruct (remove_each m1 k1 ids) as [[m2 k2] f2]. cbn [fst snd] in *. rewrite I1, I2, I3, H2, H3. split_and!; [|done..]. unfold Name in *. rewrite H2, H1, fmap_cons.
  destruct (decide (n = nameIn (prefix m) id)) as [->|Hne].
  - rewrite (bool_decide_eq_true_2 (_ ∈ _ :: _)) by left. rewrite lookup_delete_eq. by destruct (bool_decide (nameIn (prefix m) id ∈ (fun id : Z => nameIn (prefix m) id) <$> ids)).
  - rewrite lookup_delete_ne by done. rewrite (bool_decide_ext (n ∈ _ :: _) (n ∈ nameIn (prefix m) <$> ids)); [done|]. rewrite elem_of_cons. naive_solver.
Qed.

Lemma Name_inj m a b : Name m a = Name m b -> a = b.
Proof. unfold Name, nameIn. intros H. apply Itoa_inj. by apply (inj (String.append (prefix m))). Qed.
Lemma owned_name m name id : owned m name = Some id -> Name m id = name.
Proof.
  unfold owned, ownedIDIn, Name. destruct (CutPrefix name (prefix m)) as [rest|]; [|done]. cbn. destruct (Atoi rest) as [n|]; [|done]. cbn. destruct (n <=? 0); [done|]. cbn. case_bool_decide; [|done]. by intros [= <-].
Qed.

(** The devices of the host after [Manager.Reconcile], one by one. *)
Lemma reconcile_links m (k : Kernel) desired retain n : let k' := (Reconcile m k desired retain).1.2 in
  ((forall id, Name m id <> n) -> links k' !! n = links k !! n) /\
  (forall id, n = Name m id -> id ∉ ID <$> desired -> id ∈ retain -> links k' !! n = links k !! n) /\
  (forall id, owned m n = Some id -> id ∉ ID <$> desired -> id ∉ retain -> links k' !! n = None).
Proof.
  unfold Reconcile. cbn [plane_Links KernelPlane Kernel_Links]. set (want := (list_to_set ((ID <$> desired) ++ retain) : gset Z)). set (unwanted := (dom (devices m) ∪ _) ∖ want).
  destruct (remove_each_links (elements unwanted) m k n) as (H1 & H2 & _). destruct (remove_each m k (elements unwanted)) as [[m1 k1] f1]. cbn [fst snd] in H1, H2.
  assert (forall i, Name m1 i = Name m i) as Hname by (intros i; unfold Name; by rewrite H2).
  assert ((forall inst, inst ∈ desired -> Name m (ID inst) <> n) -> links (ensure_each m1 k1 desired).1.2 !! n = links k1 !! n) as H3.
  { intros Hn. apply ensure_each_only. intros i Hi. rewrite Hname. by apply Hn. }
  destruct (ensure_each m1 k1 desired) as [[m2 k2] f2]. cbn [fst snd] in *.
  assert (forall id, n = Name m id -> id ∉ ID <$> desired -> forall inst, inst ∈ desired -> Name m (ID inst) <> n) as Hd. { intros id -> Hid inst Hin E%Name_inj. apply Hid. rewrite <-E. by apply list_elem_of_fmap_2. }
  split_and!.
  - intros Hf. rewrite H3 by (intros; apply Hf). rewrite H1, bool_decide_eq_false_2; [done|]. intros (i & E & _)%list_elem_of_fmap. by destruct (Hf i).
  - intros id E Hid Hr. rewrite H3 by by eapply Hd. rewrite H1, bool_decide_eq_false_2; [done|]. intros (i & E' & Hi)%list_elem_of_fmap. rewrite E in E'. apply Name_inj in E' as <-.
    apply elem_of_elements, elem_of_difference in Hi as [_ Hi]. apply Hi. subst want. rewrite elem_of_list_to_set, elem_of_app. by right.
  - intros id Ho Hid Hr. apply owned_name in Ho as E. rewrite H3 by (eapply Hd; [by symmetry|done]). rewrite H1. case_bool_decide as Hin; [done|]. destruct (links k !! n) as [l|] eqn:El; [|done]. exfalso. apply Hin.
    rewrite <-E. apply list_elem_of_fmap_2, elem_of_elements, elem_of_difference. split.
    + apply elem_of_union_r, elem_of_list_to_set, list_elem_of_omap. exists n. split; [|done]. rewrite merge_sort_Permutation. apply list_elem_of_fmap. exists (n, l). split; [done|]. by apply elem_of_map_to_list.
    + subst want. rewrite elem_of_list_to_set, elem_of_app. tauto.
Qed.

(** C20: a pass over the panel's inbounds ([Core.Reconcile]), whatever it reports: a device
    of the host that no inbound id names is not touched; the device of an inbound whose
    settings cannot be read, or that lost its key, is left as it is; and a device under
    one of the panel's names that belongs to no inbound that is served or unreadable is
    gone, whether this process created it or an earlier one. *)
Theorem reconcile_removes_the_unwanted (c : Core) (k : Kernel) desired n : let k' := (Core_Reconcile c k desired).1.2 in
  ((forall id, Name (mgr c) id <> n) -> links k' !! n = links k !! n) /\
  (forall d e, d ∈ desired -> n = Name (mgr c) (i_ID d) -> unreadable d = Some e -> (forall d', d' ∈ desired -> i_ID d' = i_ID d -> served d' = None) ->
     links k' !! n = links k !! n) /\
  (forall id, owned (mgr c) n = Some id -> (forall d, d ∈ desired -> i_ID d = id -> served d = None /\ unreadable d = None) -> links k' !! n = None).
Proof.
  unfold Core_Reconcile, engine. set (keep := omap (fun d => (fun _ => i_ID d) <$> unreadable d) desired). assert (forall i, i ∈ ID <$> omap served desired -> exists d, d ∈ desired /\ i_ID d = i /\ served d <> None) as Hs.
  { intros i (x & -> & Hx)%list_elem_of_fmap. apply list_elem_of_omap in Hx as (d & Hd & Es). exists d. split; [done|]. split; [|by rewrite Es]. symmetry. by apply served_id. }
  destruct (reconcile_links (mgr c) k (omap served desired) keep n) as (H1 & H2 & H3). destruct (Reconcile (mgr c) k (omap served desired) keep) as [[m k'] fs]. cbn [fst snd] in *. split_and!; [done|..].
  - intros d e Hd -> Eu Hno. apply (H2 (i_ID d)); [done| |].
    + intros (d' & Hd' & Ei & Hn)%Hs. by apply Hn, Hno.
    + apply list_elem_of_omap. exists d. by rewrite Eu.
  - intros id Ho Hno. apply (H3 id Ho).
    + intros (d' & Hd' & Ei & Hn)%Hs. by apply Hn, Hno.
    + intros (d & Hd & Eu)%list_elem_of_omap. destruct (unreadable d) eqn:E; [|done]. injection Eu as Eu. destruct (Hno d Hd Eu). congruence.
Qed.
End Reconcile.

(** A host with a device of an inbound that was deleted (3), one whose settings no longer
    parse (2), and an interface of its own. *)
Module SampleHost.
#[local] Instance settings : SettingsText := {|
  decode_device s := if bool_decide (s = "good") then Ok (mkSettings "AAECAwQFBgcICQoLDA0ODxAREhMUFRYXGBkaGxwdHh8=" [] 0 0 0) else Fail (ErrorText "invalid character");
  decode_clients _ := None |}.
#[local] Instance no_parsers : Parsers := {| ParsePrefix _ := None; ParseAddr _ := None; ResolveUDPAddr _ := None |}.
#[local] Existing Instance SampleText.sample_text.
Definition blank (index : Z) : link := mkLink index 1420 true zero_key 0 0 ∅ ∅ [] [].
Definition host : Kernel := mkKernel (list_to_map [("pwg2", blank 2); ("pwg3", blank 3); ("eth0", blank 4)]) 10 0 0 0 None.
Definition inbound (id : Z) (text : string) : InboundInstance := mkInbound id "in" 51820 true text [].
Definition desired : list InboundInstance := [inbound 1 "good"; inbound 2 "bad"].
Definition core : Core := mkCore NewManager [] ∅.
Definition after : Kernel := (Core_Reconcile core host desired).1.2.

Lemma desired_served d : d ∈ desired -> i_ID d = 2 -> served d = None.
Proof. intros [->|[->|H]%elem_of_cons]%elem_of_cons; [done|done|by apply not_elem_of_nil in H]. Qed.
Lemma reconcile_removes_the_unwanted_witness : links after !! "pwg3" = None /\ links after !! "pwg2" = Some (blank 2) /\ links after !! "eth0" = Some (blank 4) /\ is_Some (links after !! "pwg1").
Proof.
  split_and!.
  - apply (proj2 (proj2 (reconcile_removes_the_unwanted core host desired "pwg3")) 3); [done|]. intros d [->|[->|H]%elem_of_cons]%elem_of_cons; [done|done|by apply not_elem_of_nil in H].
  - exact (proj1 (proj2 (reconcile_removes_the_unwanted core host desired "pwg2")) (inbound 2 "bad") (ErrorText "invalid character") ltac:(right; left) eq_refl eq_refl desired_served).
  - apply (proj1 (reconcile_removes_the_unwanted core host desired "eth0")). intros id. discriminate.
  - vm_compute. eauto.
Defined.
End SampleHost.

(** ** The totals of an inbound *)

Section Totals.
Context {HP : Parsers} {HT : PrefixText} {W : Type} {HW : Plane W}.

(** Scrapes at the given times, with what they handed to the panel. *)
Fixpoint scrapes (c : Core) (l : list (Z * W)) : Core * list Traffic :=
  match l with
  | [] => (c, [])
  | (now, w) :: rest => let '(c1, billed) := Core_CollectTraffic now c w in let '(c2, out) := scrapes c1 rest in (c2, billed ++ out)
  end.
Definition of_tag (t : string) (f : Traffic -> Z) (l : list Traffic) : Z := foldr Z.add 0 (f <$> filter (fun x => tTag x = t) l).

Lemma i64_add_l a b : i64 (i64 a + b) = i64 (a + b).
Proof. unfold i64. f_equal. replace ((a + 9223372036854775808) mod 18446744073709551616 - 9223372036854775808 + b + 9223372036854775808) with ((a + 9223372036854775808) mod 18446744073709551616 + b) by lia. rewrite Zplus_mod_idemp_l. f_equal. lia. Qed.
Lemma of_tag_cons t f x l : of_tag t f (x :: l) = (if bool_decide (tTag x = t) then f x else 0) + of_tag t f l.
Proof. unfold of_tag. rewrite filter_cons. case_decide as E; [rewrite bool_decide_eq_true_2 by done; done|]. rewrite bool_decide_eq_false_2 by done. lia. Qed.
(** The stash holds, for each tag that occurs, the sums of what was billed under it. *)
Definition stashed (m : gmap string (Z * Z)) (l : list Traffic) : Prop :=
  forall t, m !! t = if bool_decide (t <> "" /\ t ∈ tTag <$> l) then Some (i64 (of_tag t Up l), i64 (of_tag t Down l)) else None.
Lemma of_tag_app t f l l' : of_tag t f (l ++ l') = of_tag t f l + of_tag t f l'.
Proof. induction l as [|x l IH]; [done|]. rewrite <-app_comm_cons, !of_tag_cons, IH. lia. Qed.
Lemma of_tag_absent t f l : t ∉ tTag <$> l -> of_tag t f l = 0.
Proof. induction l as [|x l IH]; [done|]. rewrite fmap_cons, not_elem_of_cons, of_tag_cons. intros [Hne H]. rewrite bool_decide_eq_false_2, IH by congruence || done. lia. Qed.
Lemma stash_one_stashed m l x : stashed m l -> stashed (stash_one m x) (l ++ [x]).
Proof.
  intros H t. unfold stash_one. rewrite !of_tag_app, !of_tag_cons, fmap_app. unfold of_tag at 2 4. cbn [filter list_filter fmap list_fmap foldr]. rewrite !Z.add_0_r.
  assert (t ∈ (tTag <$> l) ++ [tTag x] <-> t ∈ tTag <$> l \/ t = tTag x) as Hin by (rewrite elem_of_app, list_elem_of_singleton; done).
  destruct (decide (tTag x = t)) as [<-|Hne].
  - rewrite !(bool_decide_eq_true_2 (tTag x = tTag x)) by done. destruct (decide (tTag x = "")) as [E|E].
    { rewrite (bool_decide_eq_true_2 (tTag x = "")), H by done. rewrite !bool_decide_eq_false_2 by (intros [? _]; done). done. }
    rewrite (bool_decide_eq_false_2 (tTag x = "")), lookup_insert_eq by done. rewrite (bool_decide_eq_true_2 (_ /\ _ ∈ _ ++ _)) by (split; [done|by apply Hin; right]). rewrite H.
    case_bool_decide as Hold; cbn; [by rewrite !i64_add_l|]. assert (tTag x ∉ tTag <$> l) as Hno by tauto. by rewrite !of_tag_absent.
  - rewrite !(bool_decide_eq_false_2 (tTag x = t)), !Z.add_0_r by done. rewrite (bool_decide_ext (_ /\ t ∈ _ ++ _) (t <> "" /\ t ∈ tTag <$> l)) by (rewrite Hin; naive_solver). rewrite <-H.
    case_bool_decide; [done|]. by apply lookup_insert_ne.
Qed.
Lemma stash_stashed billed : forall m l, stashed m l -> stashed (stashTagTraffic billed m) (l ++ billed).
Proof. induction billed as [|x billed IH]; intros m l H; [by rewrite app_nil_r|]. cbn. rewrite (app_assoc l [x] billed : l ++ x :: billed = _). by apply IH, stash_one_stashed. Qed.
Lemma scrapes_stashed l : forall c old, stashed (pendingTags c) old -> stashed (pendingTags (scrapes c l).1) (old ++ (scrapes c l).2).
Proof.
  induction l as [|[now w] l IH]; intros c old H; [by rewrite app_nil_r|]. cbn [scrapes]. unfold Core_CollectTraffic. destruct (CollectTraffic now (mgr c) w) as [m [billed connected]].
  specialize (IH (mkCore m connected (stashTagTraffic billed (pendingTags c))) (old ++ billed)). destruct (scrapes _ l) as [c2 out]. cbn in *. rewrite app_assoc. by apply IH, stash_stashed.
Qed.

(** Between two collections of inbound totals, however many scrapes there are and
    whatever they read, the second collection hands out one total for each inbound the
    clients were billed under, and it is the sum of what was billed to them (in int64);
    asked again it hands out nothing.  So an inbound's total never drifts from its
    clients'. *)
Theorem inbound_totals_are_their_clients (c : Core) (l : list (Z * W)) :
  let '(c', handed) := scrapes (CollectTagTraffic c).1 l in
  (forall t u d, (t, (u, d)) ∈ (CollectTagTraffic c').2 <-> t <> "" /\ t ∈ tTag <$> handed /\ u = i64 (of_tag t Up handed) /\ d = i64 (of_tag t Down handed)) /\
  NoDup (CollectTagTraffic c').2.*1 /\ (CollectTagTraffic (CollectTagTraffic c').1).2 = [].
Proof.
  assert (stashed (pendingTags (CollectTagTraffic c).1) []) as H0. { intros t. rewrite bool_decide_eq_false_2; [done|]. intros [_ Ht]. by apply not_elem_of_nil in Ht. }
  pose proof (scrapes_stashed l _ _ H0) as H. destruct (scrapes _ l) as [c' handed]. cbn in H |- *. split_and!; [|rewrite merge_sort_Permutation; apply NoDup_fst_map_to_list|done].
  intros t u d. rewrite merge_sort_Permutation, elem_of_map_to_list, H by done. case_bool_decide as E; [|naive_solver]. naive_solver.
Qed.
End Totals.
