(* ===== verification/WgTheorems.v ===== *)
(** * Theorems on the WireGuard engine

    A pass that reports no failure leaves the device in its abstract desired state, and a
    collection bills each client for what moved under its key; on the in-memory network
    stack of wgtest/kernel.go. *)
From S2P Require Import Prelude Decimal Netip Counters WireguardKeys WgDevice WgKernel WgManager WgFacts.
Open Scope string_scope.
Open Scope Z_scope.
Open Scope list_scope.

Section Theorems.
Context {HP : Parsers} {HPL : ParsersLaws} {HT : PrefixText} {HTL : PrefixTextLaws}.

(** ** Differences of prefixes *)

Lemma text_elem p (l : list Prefix) : valid p -> Forall (fun q => valid q) l -> prefix_string p ∈ prefix_string <$> l <-> p ∈ l.
Proof.
  intros Hp Hl. split; [|by apply list_elem_of_fmap_2]. intros (q & E & Hq)%list_elem_of_fmap. rewrite Forall_forall in Hl.
  by rewrite (prefix_string_inj p q Hp (Hl q Hq) E).
Qed.
Lemma diff_prefixes_spec spared cur des : Forall (fun p => valid p) cur -> Forall (fun p => valid p) des ->
  (forall p, p ∈ (diff_prefixes spared cur des).1 <-> p ∈ des /\ ~ (p ∈ cur /\ spared p = false)) /\
  (forall p, p ∈ (diff_prefixes spared cur des).2 <-> p ∈ cur /\ spared p = false /\ p ∉ des).
Proof.
  intros Hc Hd. split; intros p; cbn; rewrite list_elem_of_filter.
  - split; intros [H1 H2].
    + split; [done|]. intros [H3 H4]. apply H1, list_elem_of_fmap_2, list_elem_of_filter. done.
    + split; [|done]. rewrite text_elem, list_elem_of_filter; [tauto|by apply (proj1 (Forall_forall _ _) Hd)|]. apply Forall_forall. intros q [_ Hq]%list_elem_of_filter. by apply (proj1 (Forall_forall _ _) Hc).
  - split.
    + intros [[H1 H2] H3]. split_and!; [done..|]. intros H4. by apply H2, list_elem_of_fmap_2.
    + intros (H1 & H2 & H3). split_and!; [done| |done]. rewrite text_elem; [done|by apply (proj1 (Forall_forall _ _) Hc)|done].
Qed.

(** A network of a served client that needs a route of its own. *)
Definition wants_route (addrs : list Prefix) (served : list PeerConfig) (r : Prefix) : Prop :=
  exists cfg n, cfg ∈ served /\ n ∈ pc_allowed cfg /\ toPrefix n = Some r /\ pBits r <> 0 /\ coveredByAddrs r addrs = false.

Lemma add_route_spec addrs nets : Forall (fun n => valid n) nets -> forall out, Forall (fun p => valid p) out ->
  Forall (fun p => valid p) (foldl (add_route addrs) out nets) /\
  forall r, r ∈ foldl (add_route addrs) out nets <-> r ∈ out \/ exists n, n ∈ nets /\ toPrefix n = Some r /\ pBits r <> 0 /\ coveredByAddrs r addrs = false.
Proof.
  induction 1 as [|n nets Hn _ IH]; intros out Ho; cbn [foldl]. { split; [done|]. intros r. split; [by left|]. intros [|(n & H & _)]; [done|]. by apply not_elem_of_nil in H. }
  assert (Forall (fun p => valid p) (add_route addrs out n) /\ forall r, r ∈ add_route addrs out n <-> r ∈ out \/ (toPrefix n = Some r /\ pBits r <> 0 /\ coveredByAddrs r addrs = false)) as [Hv Hs].
  { assert (forall Q : Prefix -> Prop, (forall r, toPrefix n = Some r -> ~ Q r) -> forall r, r ∈ out <-> r ∈ out \/ (toPrefix n = Some r /\ Q r)) as Hno by (intros Q HQ r; naive_solver).
    unfold add_route. destruct (toPrefix n) as [p|] eqn:Ep; [|split; [done|]; by apply Hno]. pose proof (toPrefix_valid n p Hn Ep) as Hp.
    destruct (Z.eqb_spec (pBits p) 0) as [|Hb]; cbn [orb]; [split; [done|]; apply Hno; intros r [= <-]; intuition congruence|]. destruct (coveredByAddrs p addrs) eqn:Ec; [split; [done|]; apply Hno; intros r [= <-]; intuition congruence|].
    case_bool_decide as Hin; rewrite text_elem in Hin by done. { split; [done|]. naive_solver. }
    split; [apply Forall_app; split; [done|by constructor]|]. intros r. rewrite elem_of_app, list_elem_of_singleton. naive_solver. }
  destruct (IH _ Hv) as [H1 H2]. split; [done|]. intros r. rewrite H2, Hs. setoid_rewrite elem_of_cons. naive_solver.
Qed.
Lemma desiredRoutes_spec addrs served : (forall c, c ∈ served -> pc_remove c = false /\ Forall (fun n => valid n) (pc_allowed c)) ->
  Forall (fun p => valid p) (desiredRoutes addrs served) /\ forall r, r ∈ desiredRoutes addrs served <-> wants_route addrs served r.
Proof.
  intros H. assert (forall n, n ∈ concat (pc_allowed <$> filter (fun p => pc_remove p = false) served) <-> exists c, c ∈ served /\ n ∈ pc_allowed c) as Hn.
  { intros n. rewrite elem_of_concat. setoid_rewrite list_elem_of_fmap. split.
    - intros (l & (c & -> & Hc) & Hn). apply list_elem_of_filter in Hc as [_ Hc]. eauto.
    - intros (c & Hc & Hn). exists (pc_allowed c). split; [|done]. exists c. split; [done|]. apply list_elem_of_filter. split; [by apply H|done]. }
  destruct (add_route_spec addrs (concat (pc_allowed <$> filter (fun p => pc_remove p = false) served))) with (out := @nil Prefix) as [Hv Hs]; [|constructor|].
  { apply Forall_forall. intros n (c & Hc & Hin)%Hn. destruct (H c Hc) as [_ Hf]. by apply (proj1 (Forall_forall _ _) Hf). }
  split; [done|]. intros r. unfold desiredRoutes. rewrite Hs. unfold wants_route. split.
  - intros [H0|(n & Hin & Hr)]; [by apply not_elem_of_nil in H0|]. apply Hn in Hin as (c & Hc & Hin). exists c, n. tauto.
  - intros (c & n & Hc & Hin & Hr). right. exists n. split; [apply Hn; eauto|done].
Qed.

(** ** The address and the route pass *)

(** The networks of the addresses a pass drops. *)
Definition left_behind (was addrs : list Prefix) : list Prefix := Masked <$> (diffAddrs was addrs).2.
Lemma left_behind_spec was addrs r : Forall (fun p => valid p) was -> Forall (fun p => valid p) addrs ->
  r ∈ left_behind was addrs <-> exists a, r = Masked a /\ a ∈ was /\ IsLinkLocalUnicast (pAddr a) = false /\ a ∉ addrs.
Proof.
  intros Hw Ha. unfold left_behind. rewrite list_elem_of_fmap. destruct (diff_prefixes_spec (fun p => IsLinkLocalUnicast (pAddr p)) was addrs Hw Ha) as [_ H].
  split; intros (a & E & Hin); exists a; (split; [done|]); by apply H.
Qed.

Lemma syncAddrs_net name k l k' addrs dropped : links k !! name = Some l -> Forall (fun p => valid p) (l_addrs l) -> Forall (fun p => valid p) addrs ->
  syncAddrs k name (l_addrs l) addrs = (k', (dropped, [])) ->
  dropped = left_behind (l_addrs l) addrs /\ exists a' r', renet name k l k' a' r' /\
    (forall p, p ∈ a' <-> p ∈ addrs \/ (p ∈ l_addrs l /\ IsLinkLocalUnicast (pAddr p) = true)) /\
    (forall r, r ∈ r' -> r ∉ dropped /\ (r ∈ l_routes l \/ exists a, a ∈ addrs /\ r = Masked a)) /\
    (forall r, r ∈ l_routes l -> r ∉ dropped -> r ∈ r').
Proof.
  intros Hl Hv Ha. unfold syncAddrs, left_behind, diffAddrs. destruct (diff_prefixes_spec (fun p => IsLinkLocalUnicast (pAddr p)) (l_addrs l) addrs Hv Ha) as [Hadd Hdel].
  destruct (diff_prefixes _ (l_addrs l) addrs) as [add del]. cbn [fst snd] in *. destruct (each _ AddAddrErr k add) as [k1 fs1] eqn:E1.
  destruct (drop_addrs name k1 del) as [k2 [d fs2]] eqn:E2. intros [= <- <- E]. apply app_eq_nil in E as [-> ->].
  destruct (add_addrs_net name add k l k1 Hl E1) as (rs & [Ho Hr] & Hrs). destruct (drop_addrs_net name del k1 _ Hr) as (k2' & rs' & E2' & [Ho' Hr'] & Hrs').
  rewrite E2 in E2'. injection E2' as <- ->. split; [done|]. eexists _, rs'. split; [split; [by eapply only_trans|exact Hr']|]. cbn [l_addrs l_routes with_net] in *. split_and!.
  - intros p. rewrite list_elem_of_filter, elem_of_app, Hadd, Hdel. destruct (IsLinkLocalUnicast (pAddr p)); destruct (decide (p ∈ addrs)), (decide (p ∈ l_addrs l)); intuition congruence.
  - intros r Hin. apply Hrs' in Hin as [Hin Hnd]. split; [done|]. apply Hrs in Hin as [Hin|(a & -> & Hin)%list_elem_of_fmap]; [by left|]. right. exists a. split; [by apply Hadd|done].
  - intros r Hin Hnd. apply Hrs'. split; [|done]. apply Hrs. by left.
Qed.

Lemma syncRoutes_net name k l k' was desired addrs gone : links k !! name = Some l -> Forall (fun p => valid p) was -> Forall (fun p => valid p) desired ->
  (forall r, r ∈ l_routes l -> r ∉ gone /\ (r ∈ was \/ kernelOwned r addrs = true)) -> (forall r, r ∈ was -> r ∉ gone -> r ∈ l_routes l) ->
  syncRoutes k name was desired addrs gone = (k', []) ->
  exists r', renet name k l k' (l_addrs l) r' /\ (forall r, r ∈ desired -> r ∉ gone -> r ∈ r') /\ (forall r, r ∈ r' -> kernelOwned r addrs = false -> r ∈ desired) /\
    (forall r, r ∈ r' -> r ∈ l_routes l \/ r ∈ desired).
Proof.
  intros Hl Hv Hd Hfrom Hkeep. unfold syncRoutes, diffRoutes. destruct (diff_prefixes_spec (fun p => kernelOwned p addrs) was desired Hv Hd) as [Hadd Hdel].
  destruct (diff_prefixes _ was desired) as [add del]. cbn [fst snd] in *. destruct (each _ RouteErr k add) as [k1 fs1] eqn:E1.
  destruct (each _ UnrouteErr k1 _) as [k2 fs2] eqn:E2. intros [= <- E]. apply app_eq_nil in E as [-> ->].
  destruct (add_routes_net name add k l k1 Hl E1) as [Ho Hr]. destruct (del_routes_net name _ k1 _ k2 Hr E2) as [Ho' Hr'].
  eexists. split; [split; [by eapply only_trans|exact Hr']|]. cbn [l_addrs l_routes with_net] in *. setoid_rewrite list_elem_of_filter. setoid_rewrite elem_of_app. setoid_rewrite list_elem_of_filter.
  setoid_rewrite Hadd. setoid_rewrite Hdel. split_and!.
  - intros r Hin Hng. split; [tauto|]. destruct (decide (r ∈ was)); [left; by apply Hkeep|right; tauto].
  - intros r [Hn [Hin|[Hin _]]] Hno; [|done]. destruct (Hfrom r Hin) as [Hng [Hw|Hk]]; [|congruence]. destruct (decide (r ∈ desired)); [done|]. destruct Hn. tauto.
  - tauto.
Qed.

(** ** The device *)

Definition carried (k : Kernel) (name : string) : list Prefix := match links k !! name with Some l => l_addrs l | None => [] end.
Lemma DeviceMTU_pos c t : 0 < DeviceMTU c t.
Proof. unfold DeviceMTU, MinMTU. destruct (Z.ltb_spec 0 c); [done|]. case_match; [done|]. bools. lia. Qed.

(** What [EnsureLink] leaves. *)
Lemma EnsureLink_net k name mtu : 0 < mtu -> (forall l, links k !! name = Some l -> link_ok l) -> exists k' l st,
  Kernel_EnsureLink k name mtu = (k', Ok st) /\ links k' !! name = Some l /\ only name k k' /\ link_ok l /\ l_up l = true /\ l_mtu l = mtu /\ l_addrs l = carried k name.
Proof.
  intros Hm Hok. unfold Kernel_EnsureLink, carried. destruct (links k !! name) as [l|] eqn:E.
  - rewrite (proj2 (Z.ltb_lt 0 mtu) Hm). eexists _, _, _. split; [done|]. split; [by apply on_link_lookup|]. split; [apply only_on_link|]. destruct (Hok l eq_refl). by split_and!.
  - eexists _, _, _. split; [done|]. cbn. split; [apply lookup_insert_eq|]. split; [intros o Ho; cbn; by rewrite lookup_insert_ne|]. split_and!; try done.
Qed.
Lemma ensureDevice_net m k inst key k1 snap created : (forall l, links k !! Name m (ID inst) = Some l -> link_ok l) ->
  ensureDeviceLocked m k inst key = (k1, inr (snap, created)) -> exists l,
  links k1 !! Name m (ID inst) = Some l /\ only (Name m (ID inst)) k k1 /\ link_ok l /\
  (l_up l = true /\ l_mtu l = linkMTU (MTU inst) (TransportPadding inst) /\ l_private l = key /\ (Port inst <> 0 -> l_port l = Port inst) /\ l_fwmark l = FWMark inst) /\
  l_addrs l = carried k (Name m (ID inst)) /\ d_peers (s_device snap) = d_peers (device l) /\ s_addrs snap = l_addrs l /\ s_routes snap = l_routes l.
Proof.
  intros Hok. unfold ensureDeviceLocked. set (name := Name m (ID inst)) in *. cbn [EnsureLink plane_Snapshot Configure KernelPlane].
  destruct (EnsureLink_net k name _ (DeviceMTU_pos (MTU inst) (TransportPadding inst)) Hok) as (kl & l & st & E & Hl & Ho & Hlok & Hup & Hmtu & Hca). unfold linkMTU in *. rewrite E.
  unfold Kernel_Snapshot. rewrite Hl. cbn [s_exists negb s_device]. destruct (diffDevice (device l) key (Port inst) (FWMark inst) (ls_created st)) as [dp dq df] eqn:Ed.
  assert (default (l_private l) dp = key /\ (Port inst <> 0 -> default (l_port l) dq = Port inst) /\ default (l_fwmark l) df = FWMark inst) as Hdelta.
  { revert Ed. unfold diffDevice. intros [= <- <- <-]. destruct (ls_created st); cbn;
    destruct (Z.eqb_spec (Port inst) 0), (Z.eqb_spec (l_port l) (Port inst)), (Z.eqb_spec (l_fwmark l) (FWMark inst)); try case_bool_decide; cbn; by split_and!. }
  destruct (delta_empty _) eqn:Ee.
  - intros [= <- <- <-]. exists l. destruct dp, dq, df; try done.
  - unfold Kernel_Configure. rewrite Hl. cbn. intros [= <- <- <-]. eexists. split; [apply lookup_insert_eq|]. destruct Hlok, Hdelta as (H1 & H2 & H3). split; [|by split_and!].
    eapply only_trans; [exact Ho|]. intros o Hno. cbn. by rewrite lookup_insert_ne.
Qed.
(** ** A pass *)

(** The device an inbound asks for.  [was] are the addresses carried before the pass: the
    network of one that was dropped took a route with it. *)
Record converged (inst : Instance_) (key : Key) (addrs : list Prefix) (served : list PeerConfig) (was : list Prefix) (l : link) : Prop := {
  cv_device : l_up l = true /\ l_mtu l = linkMTU (MTU inst) (TransportPadding inst) /\ l_private l = key /\ (Port inst <> 0 -> l_port l = Port inst) /\ l_fwmark l = FWMark inst;
  cv_served : forall cfg, cfg ∈ served -> exists p, l_peers l !! pc_key cfg = Some p /\ serves cfg p;
  cv_nobody_else : forall k p, l_peers l !! k = Some p -> k ∈ pc_key <$> served;
  cv_addrs : forall p, p ∈ l_addrs l <-> p ∈ addrs \/ (p ∈ was /\ IsLinkLocalUnicast (pAddr p) = true);
  cv_routed : forall r, wants_route addrs served r -> r ∉ left_behind was addrs -> r ∈ l_routes l;
  cv_no_stray : forall r, r ∈ l_routes l -> kernelOwned r addrs = false -> wants_route addrs served r }.

(** The push of the peers: nothing when nothing differs. *)
Lemma push_net name k l k' peers full r : links k !! name = Some l -> link_ok l -> apart peers ->
  (let changes := diffPeers (d_peers (device l)) peers full in if Nat.eqb (length changes) 0 then (k, Ok tt) else Configure k name no_delta changes) = (k', r) ->
  r = Ok tt /\ only name k k' /\ exists ps cs, links k' !! name = Some (with_peers ps cs l) /\ keyed ps /\ counted (ps, cs) /\
    (forall cfg, cfg ∈ peers -> exists p, ps !! pc_key cfg = Some p /\ serves cfg p) /\ (forall k p, ps !! k = Some p -> k ∈ pc_key <$> peers).
Proof.
  intros Hl Hok Ha. destruct (peers_converge l peers full Hok Ha) as [H1 H2]. set (changes := diffPeers _ peers full) in *. cbn [Configure KernelPlane].
  pose proof (foldl_keyed changes (l_peers l, l_counters l) (ok_keyed _ Hok)) as Hkd. pose proof (configure_counted changes _ (ok_counted _ Hok)) as Hcd.
  destruct (Nat.eqb_spec (length changes) 0) as [E0|E0]; intros E.
  - injection E as <- <-. split; [done|]. split; [done|]. apply nil_length_inv in E0. rewrite E0 in *. cbn in *. exists (l_peers l), (l_counters l). split; [|done]. rewrite Hl. by destruct l.
  - unfold Kernel_Configure in E. rewrite Hl in E. cbn in E. destruct (foldl configure_peer (l_peers l, l_counters l) changes) as [ps cs]. injection E as <- <-. split; [done|]. split.
    + intros o Ho. cbn. by rewrite lookup_insert_ne.
    + exists ps, cs. split; [|done]. cbn. rewrite lookup_insert_eq. by destruct l.
Qed.

Lemma served_ok peers : Forall (fun p => Email p <> "") peers -> apart (desiredPeers peers).1 /\ forall c, c ∈ (desiredPeers peers).1 -> pc_remove c = false /\ Forall (fun n => valid n) (pc_allowed c).
Proof.
  intros He. destruct (desiredPeers peers) as [out rejected] eqn:E. destruct (desired_loop_apart peers He ∅ ∅ out rejected (map_Forall_empty _) E) as [Ha _]. split; [done|]. intros c Hc. split.
  - by apply (apart_whole out c Ha) in Hc as [? _].
  - destruct (desired_loop_from peers ∅ ∅ c) as (p & _ & Ep); [by change (c ∈ (desiredPeers peers).1); rewrite E|]. by apply desiredPeer_valid in Ep.
Qed.

Lemma ensure_pass m k inst m' k' rejected :
  Forall (fun p => Email p <> "") (Peers inst) -> (forall l, links k !! Name m (ID inst) = Some l -> link_ok l) ->
  ensureLocked m k inst = (m', k', (rejected, [])) ->
  exists key addrs l, parseKey (PrivateKey inst) = inr key /\ parsePrefixes (Address inst) = inr addrs /\ links k' !! Name m (ID inst) = Some l /\ link_ok l /\
    converged inst key addrs (desiredPeers (Peers inst)).1 (carried k (Name m (ID inst))) l /\
    rejected = (desiredPeers (Peers inst)).2 /\ forall other, other <> Name m (ID inst) -> links k' !! other = links k !! other.
Proof.
  intros He Hok. unfold ensureLocked. set (name := Name m (ID inst)) in *. destruct (parseKey (PrivateKey inst)) as [|key] eqn:Ekey; [done|].
  destruct (parsePrefixes (Address inst)) as [|addrs] eqn:Ea; [done|]. pose proof (parse_entries_valid _ _ _ _ (fun p H => H) Ea) as Hav.
  destruct (served_ok _ He) as [Hap Hsv]. destruct (desiredPeers (Peers inst)) as [peers rej]. cbn [fst snd] in *. destruct (desiredRoutes_spec addrs peers Hsv) as [Hrv Hrs].
  destruct (ensureDeviceLocked m k inst key) as [k1 [e|[snap created]]] eqn:Ed; [done|].
  destruct (ensureDevice_net m k inst key k1 snap created Hok Ed) as (l & Hl & Ho1 & Hlok & Hdev & Hca & -> & -> & ->). fold name in Hl, Ho1, Hca.
  destruct (let changes := diffPeers (d_peers (device l)) peers created in if Nat.eqb (length changes) 0 then (k1, Ok tt) else Configure k1 name no_delta changes) as [k2 r] eqn:Ep.
  cbv zeta. destruct (push_net name k1 l k2 peers created r Hl Hlok Hap Ep) as (-> & Ho2 & ps & cs & Hl2 & Hkd & Hcd & Hserved & Hnobody).
  destruct (syncAddrs k2 name (l_addrs l) addrs) as [k3 [dropped fs1]] eqn:E3. destruct (syncRoutes k3 name (l_routes l) (desiredRoutes addrs peers) addrs dropped) as [k4 fs2] eqn:E4.
  intros [= <- <- <- E]. cbn in E. apply app_eq_nil in E as [-> ->]. destruct Hlok as [_ _ Hva Hvr].
  destruct (syncAddrs_net name k2 _ k3 addrs dropped Hl2 Hva Hav E3) as (-> & a' & r' & [Ho3 Hl3] & Ha' & Hr' & Hkeep). cbn [l_addrs l_routes with_peers] in *.
  destruct (syncRoutes_net name k3 _ k4 (l_routes l) _ addrs (left_behind (l_addrs l) addrs) Hl3 Hvr Hrv) as (rs & [Ho4 Hl4] & R1 & R2 & R3); [| |done|].
  { intros r Hr. cbn in Hr. destruct (Hr' r Hr) as [Hnd [?|(a & Hin & ->)]]; (split; [done|]); [by left|]. right. unfold kernelOwned. rewrite connected_covered; [apply orb_true_r| |done]. by apply (proj1 (Forall_forall _ _) Hav). }
  { intros r. cbn. apply Hkeep. }
  exists key, addrs. eexists. split; [done|]. split; [done|]. split; [exact Hl4|]. rewrite <-Hca. split_and!; [| |done|].
  - split; [done..|apply Forall_forall|apply Forall_forall]; cbn.
    + intros p Hp. apply Ha' in Hp as [Hp|[Hp _]]; [by apply (proj1 (Forall_forall _ _) Hav)|by apply (proj1 (Forall_forall _ _) Hva)].
    + intros q Hq. destruct (R3 q Hq) as [Hq'|Hq']; [|by apply (proj1 (Forall_forall _ _) Hrv)]. cbn in Hq'. destruct (Hr' q Hq') as [_ [?|(a & Hin & ->)]]; [by apply (proj1 (Forall_forall _ _) Hvr)|].
      apply Masked_valid. by apply (proj1 (Forall_forall _ _) Hav).
  - split; cbn; [done..| |]; intros q; rewrite <-Hrs; auto.
  - intros o Hno. by rewrite Ho4, Ho3, Ho2, Ho1.
Qed.

(** C17: a pass over an inbound ([Manager.ensureLocked]) that reports no failure leaves its
    device exactly as the inbound asks, whatever the device held before: up, with the
    configured key, port, mark and MTU; one peer for each client that was accepted, with
    its secret, its keepalive and its networks, and no other peer; the configured
    addresses and no others but link-local ones; a route for every network of a client
    the addresses do not cover, but for the network of an address the pass dropped, and no
    other route the kernel does not own.  No other device is touched, and the device is
    fit for the next pass.  Clients that were rejected are reported and change nothing of
    this. *)
Theorem ensure_converges m k inst m' k' rejected :
  Forall (fun p => Email p <> "") (Peers inst) -> (forall l, links k !! Name m (ID inst) = Some l -> link_ok l) ->
  ensureLocked m k inst = (m', k', (rejected, [])) ->
  exists key addrs l, parseKey (PrivateKey inst) = inr key /\ parsePrefixes (Address inst) = inr addrs /\ links k' !! Name m (ID inst) = Some l /\ link_ok l /\
    converged inst key addrs (desiredPeers (Peers inst)).1 (carried k (Name m (ID inst))) l /\
    rejected = (desiredPeers (Peers inst)).2 /\ forall other, other <> Name m (ID inst) -> links k' !! other = links k !! other.
Proof. exact (ensure_pass m k inst m' k' rejected). Qed.
(** ** Who is billed *)

(** The client a key is billed to: the first that names it. *)
Fixpoint claimant (key : Key) (peers : list Peer) : option string :=
  match peers with
  | [] => None
  | p :: rest => if bool_decide (usable (PublicKey p) = Some key) && negb (bool_decide (Email p = "")) then Some (Email p) else claimant key rest
  end.
Lemma index_claimant peers : forall m key, (foldl index_peer m peers).2 !! key = match m.2 !! key with Some e => Some e | None => claimant key peers end.
Proof.
  induction peers as [|p peers IH]; intros m key; cbn [foldl claimant]; [by destruct (m.2 !! key)|]. rewrite IH. unfold index_peer, usable.
  destruct (parseKey (PublicKey p)) as [e|k]; [by rewrite bool_decide_eq_false_2|]. destruct (decide (Email p = "")) as [E|E].
  { rewrite !(bool_decide_eq_true_2 (Email p = "")), andb_false_r by done. done. }
  rewrite !(bool_decide_eq_false_2 (Email p = "")), andb_true_r by done. cbn [orb]. destruct (decide (k = zero_key)) as [Ez|Ez].
  { rewrite !(bool_decide_eq_true_2 (k = zero_key)), (bool_decide_eq_false_2 (None = Some key)) by done. done. }
  rewrite !(bool_decide_eq_false_2 (k = zero_key)) by done. cbn [orb]. destruct (decide (k = key)) as [->|Hne].
  - rewrite (bool_decide_eq_true_2 (Some key = Some key)) by done. case_bool_decide as Hs; [by destruct Hs as [e ->]|]. cbn [snd]. rewrite lookup_insert_eq. by rewrite (proj2 (eq_None_not_Some _) Hs).
  - rewrite (bool_decide_eq_false_2 (Some k = Some key)) by congruence. case_bool_decide; [done|]. cbn [snd]. by rewrite lookup_insert_ne.
Qed.

(** With nobody rejected every client is accepted, under a key of its own. *)
Lemma all_accepted peers : forall seen claimed out, desired_loop seen claimed peers = (out, []) ->
  (forall key, key ∈ dom seen -> forall p, p ∈ peers -> usable (PublicKey p) <> Some key) /\
  forall p, p ∈ peers -> Email p <> "" -> exists cfg, desiredPeer p = inr cfg /\ cfg ∈ out /\ claimant (pc_key cfg) peers = Some (Email p).
Proof.
  induction peers as [|q peers IH]; intros seen claimed out E. { split; [intros ? ? p Hp|intros p Hp]; by apply not_elem_of_nil in Hp. }
  cbn in E. destruct (desiredPeer q) as [e|cfg] eqn:Ed; [by destruct (desired_loop seen claimed peers)|]. destruct (seen !! pc_key cfg) eqn:Es; [by destruct (desired_loop seen claimed peers)|].
  destruct (claimedAllowedIP claimed (pc_allowed cfg)) as [[]|]; [by destruct (desired_loop seen claimed peers)|]. destruct (desired_loop (<[_ := _]> seen) _ peers) as [o rj] eqn:El.
  injection E as <- ->. destruct (IH _ _ _ El) as [Hk Hall]. apply desiredPeer_whole in Ed as Hw. destruct Hw as (_ & Hz & Ekey).
  assert (usable (PublicKey q) = Some (pc_key cfg)) as Hu by (unfold usable; rewrite Ekey; by case_bool_decide). split.
  - intros key Hin p [->|Hp]%elem_of_cons; [|apply Hk; [set_solver|done]]. rewrite Hu. intros [= <-]. apply elem_of_dom in Hin as [? ?]. congruence.
  - intros p [->|Hp]%elem_of_cons He; cbn [claimant].
    + exists cfg. split; [done|]. split; [left|]. rewrite Hu, bool_decide_eq_true_2, bool_decide_eq_false_2 by done. done.
    + destruct (Hall p Hp He) as (c & Hc & Hin & Hcl). exists c. split; [done|]. split; [by right|]. rewrite Hu, bool_decide_eq_false_2; [done|]. intros [= Ek].
      apply (Hk (pc_key cfg)) with p; [set_solver|done|]. apply desiredPeer_whole in Hc as (_ & Hzc & Ekc). unfold usable. rewrite Ekc, Ek. rewrite Ek in *. by case_bool_decide.
Qed.

Lemma ensure_index m k inst m' k' rejected : ensureLocked m k inst = (m', k', (rejected, [])) -> forall key, byKey (record m' (ID inst)) !! key = claimant key (Peers inst).
Proof.
  unfold ensureLocked. destruct (parseKey _); [done|]. destruct (parsePrefixes _); [done|]. destruct (desiredPeers _) as [peers rej]. destruct (ensureDeviceLocked _ _ _ _) as [k1 [|[snap created]]]; [done|].
  cbv zeta. set (changes := diffPeers _ _ _). destruct (if Nat.eqb _ _ then _ else _) as [k2 r]. destruct (syncAddrs _ _ _ _) as [k3 [dropped fs1]]. destruct (syncRoutes _ _ _ _ _ _) as [k4 fs2].
  intros [= <- _ _ E]. apply app_eq_nil in E as [E _]. destruct r as [[]|]; [|done]. intros key. unfold record, set_record. cbn [devices]. rewrite lookup_insert_eq. cbn [default is_ok]. unfold reindex. cbn [foldl].
  destruct (foldl index_peer (∅, ∅) (Peers inst)) as [e b] eqn:Ei. cbn. pose proof (index_claimant (Peers inst) (∅, ∅) key) as H. rewrite Ei in H. cbn in H. by rewrite H, lookup_empty.
Qed.
(** ** The clients of an inbound *)

Definition received (l : link) (key : Key) : Z := from_option (fun q => wp_rx (report (l_counters l) key q)) 0 (l_peers l !! key).
Definition transmitted (l : link) (key : Key) : Z := from_option (fun q => wp_tx (report (l_counters l) key q)) 0 (l_peers l !! key).
(** A device between two readings: the same device with the same peers, whose counters
    (int64s) only move forward. *)
Record carries_on (l l' : link) : Prop := {
  co_index : l_index l' = l_index l;
  co_peers : l_peers l' = l_peers l;
  co_counted : counted (l_peers l', l_counters l');
  co_received : forall key, 0 <= received l key <= received l' key /\ received l' key <= MaxInt64;
  co_transmitted : forall key, 0 <= transmitted l key <= transmitted l' key /\ transmitted l' key <= MaxInt64 }.

(** Checked on the peers the device has. *)
Definition forward (l l' : link) : Prop :=
  map_Forall (fun key _ => is_Some (l_peers l' !! key)) (l_counters l') /\
  map_Forall (fun key _ => (0 <= received l key <= received l' key /\ received l' key <= MaxInt64) /\ 0 <= transmitted l key <= transmitted l' key /\ transmitted l' key <= MaxInt64) (l_peers l).
#[global] Instance forward_dec l l' : Decision (forward l l').
Proof. unfold forward. apply _. Defined.
Lemma forward_carries_on l l' : l_index l' = l_index l -> l_peers l' = l_peers l -> forward l l' -> carries_on l l'.
Proof.
  intros Hi Hp [Hc Hf]. assert (forall key, l_peers l !! key = None -> received l key = 0 /\ received l' key = 0 /\ transmitted l key = 0 /\ transmitted l' key = 0) as H0.
  { intros key E. unfold received, transmitted. by rewrite Hp, E. }
  split; [done|done|..].
  - intros key. cbn. intros E. destruct (l_counters l' !! key) eqn:Ec; [|done]. destruct (Hc _ _ Ec). congruence.
  - intros key. destruct (l_peers l !! key) as [q|] eqn:E; [by destruct (Hf _ _ E)|]. destruct (H0 key E) as (-> & -> & _). unfold MaxInt64. lia.
  - intros key. destruct (l_peers l !! key) as [q|] eqn:E; [by destruct (Hf _ _ E)|]. destruct (H0 key E) as (_ & _ & -> & ->). unfold MaxInt64. lia.
Qed.

(** A snapshot's readings, client by client. *)
Lemma readings_of_device l key q g : keyed (l_peers l) -> counted (l_peers l, l_counters l) -> (forall key' q', l_peers l !! key' = Some q' -> key_of key') -> l_peers l !! key = Some q ->
  let rd := (deviceReadings (mkSnapshot true (mkLinkState (l_index l) (l_mtu l) (l_up l) false) (device l) (l_addrs l) (l_routes l)) g).1 in
  rd !! reading key "up" = Some (received l key) /\ rd !! reading key "down" = Some (transmitted l key).
Proof.
  intros Hk Hc Hkeys Hq. cbn zeta. unfold deviceReadings. cbn [fst s_device]. fold add_readings. unfold received, transmitted. rewrite Hq. cbn [from_option].
  assert (forall p, p ∈ d_peers (device l) -> key_of (wp_key p) /\ (wp_key p = key -> p = report (l_counters l) key q)) as Hp.
  { intros p (q' & Hq' & Ep)%peers_of_device; [|done..]. split; [by eapply Hkeys|]. intros E. rewrite E in *. congruence. }
  assert (exists p, p ∈ d_peers (device l) /\ wp_key p = key) as Hex.
  { exists (report (l_counters l) key q). destruct (report_same (l_counters l) key q) as [E _]. rewrite (Hk _ _ Hq) in E. split; [|done]. apply peers_of_device; [done..|]. rewrite E. eauto. }
  split; apply readings_of; try (by eapply Hkeys); try (by right); intros p Hin; destruct (Hp p Hin) as [H1 H2]; (split; [done|]); intros E; rewrite (H2 E); auto.
Qed.
Lemma readings_of_nobody l g n v : keyed (l_peers l) -> counted (l_peers l, l_counters l) ->
  (deviceReadings (mkSnapshot true (mkLinkState (l_index l) (l_mtu l) (l_up l) false) (device l) (l_addrs l) (l_routes l)) g).1 !! n = Some v ->
  exists key q, l_peers l !! key = Some q /\ (n = reading key "up" \/ n = reading key "down").
Proof.
  intros Hk Hc H. apply readings_named in H as [H|(p & (q & Hq & _)%peers_of_device & E)]; [by rewrite lookup_empty in H| |done..]. eauto.
Qed.

Lemma delta_forward a b : 0 <= a <= b -> delta (Some a) b = if 0 <? b - a then Some (b - a) else None.
Proof. intros H. unfold delta. rewrite (proj2 (Z.ltb_ge b 0)), (proj2 (Z.ltb_ge b a)) by lia. done. Qed.

(** The second of two collections of one device. *)
Lemma second_collection now1 now2 (ka kb : Kernel) name la lb r e key q :
  links ka !! name = Some la -> links kb !! name = Some lb -> carries_on la lb -> keyed (l_peers la) -> counted (l_peers la, l_counters la) ->
  (forall key' q', l_peers la !! key' = Some q' -> key_of key') -> l_peers la !! key = Some q -> byKey r !! key = Some e ->
  (forall key', byKey r !! key' = Some e -> key' = key) ->
  let up := received lb key - received la key in let down := transmitted lb key - transmitted la key in
  filter (fun t => tTag t = m_tag r /\ tEmail t = e) (scraped now2 kb name (scraped now1 ka name r).1).2.1 =
  if bool_decide (up = 0 /\ down = 0) then [] else [mkTraffic (m_tag r) e up down].
Proof.
  intros Ha Hb [Hidx Hpeers Hcb Hrx Htx] Hk Hca Hkeys Hq He Hone up down. assert (key_of key) as Hkey by by eapply Hkeys.
  pose proof (readings_of_device la key q (generation r) Hk Hca Hkeys Hq) as [Ra Ta]. cbn zeta in Ra, Ta.
  pose proof (readings_of_device lb key q (generation r)) as H. rewrite Hpeers in H. specialize (H Hk ltac:(by rewrite <-Hpeers) Hkeys Hq) as [Rb Tb]. cbn zeta in Rb, Tb.
  pose proof (readings_of_nobody lb (generation r)) as Hno. rewrite Hpeers in Hno. specialize (fun n v => Hno n v Hk ltac:(by rewrite <-Hpeers)).
  unfold scraped at 2. unfold takePending. cbn [plane_Snapshot KernelPlane]. unfold Kernel_Snapshot at 1. rewrite Ha. cbn [s_exists negb]. change (generation (with_pending None r)) with (generation r).
  set (sa := mkSnapshot true _ (device la) _ _) in *. destruct (deviceReadings sa (generation r)) as [ra ep] eqn:Ea. cbn [fst] in Ra, Ta.
  destruct (Counter_Observe ep ra (m_counter (with_pending None r))) as [c1 d1] eqn:Ec1. cbn [fst].
  unfold scraped, takePending. cbn [plane_Snapshot KernelPlane]. unfold Kernel_Snapshot. rewrite Hb. cbn [s_exists negb pending with_counter with_pending generation m_counter default].
  set (sb := mkSnapshot true _ (device lb) _ _) in *. destruct (deviceReadings sb (generation r)) as [rb ep'] eqn:Eb. cbn [fst] in Rb, Tb, Hno.
  assert (ep' = ep) as ->. { unfold deviceReadings in Ea, Eb. injection Ea as _ <-. injection Eb as _ <-. cbn. by rewrite Hidx. }
  unfold Counter_Observe in *. destruct (observe ep rb c1) as [c2 deltas] eqn:Ec2. cbn [fst snd].
  assert (forall n, deltas !! n = match rb !! n with Some v => delta (last c1 !! n) v | None => None end) as Hd.
  { intros n. pose proof (second_deltas ep ra rb (m_counter (with_pending None r)) n) as H. rewrite Ec1 in H. cbn [fst] in H. by rewrite Ec2 in H. }
  specialize (Hrx key). specialize (Htx key).
  assert (deltas !! reading key "up" = if 0 <? up then Some up else None) as Du.
  { rewrite Hd, Rb. pose proof (observe_seen ep ra (m_counter (with_pending None r)) _ _ Ra ltac:(lia)) as Hl. rewrite Ec1 in Hl. cbn [fst] in Hl. rewrite Hl. apply delta_forward; lia. }
  assert (deltas !! reading key "down" = if 0 <? down then Some down else None) as Dd.
  { rewrite Hd, Tb. pose proof (observe_seen ep ra (m_counter (with_pending None r)) _ _ Ta ltac:(lia)) as Hl. rewrite Ec1 in Hl. cbn [fst] in Hl. rewrite Hl. apply delta_forward; lia. }
  assert (0 <= up /\ 0 <= down) as [Hup Hdown] by (subst up down; lia).
  set (r2 := with_pending None _). assert (byKey r2 = byKey r /\ m_tag r2 = m_tag r) as [Ebk Etg] by done.
  rewrite (filter_flatten _ _ e).
  2:{ intros e' t Ht. apply bill_names in Ht as (H1 & H2 & _). rewrite H1, H2, Etg. naive_solver. }
  rewrite (bill_of r2 e deltas key Hkey).
  - rewrite Du, Dd, Etg. destruct (Z.ltb_spec 0 up), (Z.ltb_spec 0 down); cbn [option_list from_option id]; case_bool_decide; try lia; try done; (first [replace down with 0 by lia | replace up with 0 by lia]); done.
  - intros [n v] Hn. cbn [fst snd] in *. rewrite Hd in Hn. destruct (rb !! n) as [x|] eqn:Er; [|done]. destruct (Hno n x Er) as (key' & q' & Hq' & En). pose proof (Hkeys _ _ Hq') as Hk'.
    unfold owned_by, owner. cbn [fst]. assert (exists d, n = reading key' d /\ (d = "up" \/ d = "down")) as (d & -> & Hdir) by (destruct En as [->| ->]; eauto). rewrite Cut_reading by done. rewrite ParseKey_String by done. cbn [mbind option_bind]. rewrite Ebk. split.
    + destruct (byKey r !! key') as [e'|] eqn:E'; [|done]. cbn. intros [= ->]. apply Hone in E' as ->. destruct Hdir as [->| ->]; auto.
    + intros H. assert (key' = key) as -> by (by destruct H as [[? _]%reading_inj|[? _]%reading_inj]). by rewrite He.
  - intros d v Hv. rewrite Hd in Hv. destruct (rb !! reading key d) as [x|] eqn:Er; [|done]. destruct (Hno _ _ Er) as (key' & q' & Hq' & En). pose proof (Hkeys _ _ Hq') as Hk'.
    assert (d = "up" \/ d = "down") as [->| ->] by (destruct En as [[_ ->]%reading_inj|[_ ->]%reading_inj]; auto).
    + assert (deltas !! reading key "up" = Some v) as E by (by rewrite Hd, Er). rewrite Du in E. destruct (Z.ltb_spec 0 up); [|done]. injection E as <-. unfold MaxInt64 in *. lia.
    + assert (deltas !! reading key "down" = Some v) as E by (by rewrite Hd, Er). rewrite Dd in E. destruct (Z.ltb_spec 0 down); [|done]. injection E as <-. unfold MaxInt64 in *. lia.
Qed.

(** The record a clean pass leaves. *)
Lemma ensure_record m k inst m' k' rejected : ensureLocked m k inst = (m', k', (rejected, [])) -> prefix m' = prefix m /\ exists r, devices m' !! ID inst = Some r /\ m_tag r = Tag inst.
Proof.
  unfold ensureLocked. destruct (parseKey _); [done|]. destruct (parsePrefixes _); [done|]. destruct (desiredPeers _) as [peers rej]. destruct (ensureDeviceLocked _ _ _ _) as [k1 [|[snap created]]]; [done|].
  cbv zeta. set (changes := diffPeers _ _ _). destruct (if Nat.eqb _ _ then _ else _) as [k2 r]. destruct (syncAddrs _ _ _ _) as [k3 [dropped fs1]]. destruct (syncRoutes _ _ _ _ _ _) as [k4 fs2].
  intros [= <- _ _ _]. split; [done|]. unfold set_record. cbn [devices]. rewrite lookup_insert_eq. eexists. split; [done|].
  set (r0 := if existsb _ _ then _ else _). assert (m_tag r0 = Tag inst) as H0. { subst r0. assert (m_tag (if created then with_generation (generation (with_tag (Tag inst) (record m (ID inst))) + 1) (with_tag (Tag inst) (record m (ID inst))) else with_tag (Tag inst) (record m (ID inst))) = Tag inst) as H1 by by destruct created.
    destruct (existsb _ _); [|done]. unfold drainLocked. destruct (negb _); [done|]. destruct (deviceReadings _ _). by destruct (Counter_Observe _ _ _). }
  unfold reindex. set (r1 := if _ && _ then forgetRemoved changes r0 else r0). assert (m_tag r1 = Tag inst) as H1 by (subst r1; by destruct (_ && _)). by destruct (foldl _ _ _).
Qed.
Lemma claimant_from peers key e : claimant key peers = Some e -> exists p, p ∈ peers /\ Email p = e /\ usable (PublicKey p) = Some key.
Proof.
  induction peers as [|p peers IH]; cbn [claimant]; [done|]. destruct (bool_decide (usable (PublicKey p) = Some key) && negb (bool_decide (Email p = ""))) eqn:E.
  - intros [= <-]. apply andb_true_iff in E as [E%bool_decide_eq_true _]. exists p. split; [left|done].
  - intros (q & Hq & ?)%IH. exists q. split; [by right|done].
Qed.
Lemma claimant_once peers : NoDup (Email <$> peers) -> forall key key' e, claimant key peers = Some e -> claimant key' peers = Some e -> key' = key.
Proof.
  intros Hnd key key' e (p & Hp & <- & Hu)%claimant_from (q & Hq & E & Hu')%claimant_from. enough (q = p) as -> by congruence.
  apply list_elem_of_lookup in Hp as [i Hi], Hq as [j Hj]. assert (i = j) as <-; [|congruence]. eapply NoDup_lookup; [exact Hnd| |]; rewrite list_lookup_fmap; [by rewrite Hi|by rewrite Hj, <-E].
Qed.

(** C19: when a pass over an inbound reports nothing, every client of it is on the device
    under its own key, with its own secret and networks, and is billed for exactly what
    moves under that key: of two collections made after the pass, with the device's
    counters moving forward in between, the second hands out for that client one entry
    under the inbound's tag, with the bytes the kernel counted since the first, received
    as up and transmitted as down (no entry when nothing moved), and no entry under that
    tag is anybody else's.  Conditions: the clients' emails are there and distinct, no
    other device has the inbound's tag, and between the pass and the second collection
    the device is neither recreated nor given other peers ([carries_on]). *)
Theorem clients_are_billed m k inst m' k' now1 ka m1 out1 now2 kb m2 billed online l la lb :
  Forall (fun p => Email p <> "") (Peers inst) -> NoDup (Email <$> Peers inst) -> (forall l, links k !! Name m (ID inst) = Some l -> link_ok l) ->
  ensureLocked m k inst = (m', k', ([], [])) -> (forall id r, devices m' !! id = Some r -> m_tag r = Tag inst -> id = ID inst) ->
  CollectTraffic now1 m' ka = (m1, out1) -> CollectTraffic now2 m1 kb = (m2, (billed, online)) ->
  links k' !! Name m (ID inst) = Some l -> links ka !! Name m (ID inst) = Some la -> links kb !! Name m (ID inst) = Some lb -> carries_on l la -> carries_on la lb ->
  (forall p, p ∈ Peers inst -> exists cfg q, desiredPeer p = inr cfg /\ l_peers l !! pc_key cfg = Some q /\ serves cfg q /\
     let up := received lb (pc_key cfg) - received la (pc_key cfg) in let down := transmitted lb (pc_key cfg) - transmitted la (pc_key cfg) in
     filter (fun t => tTag t = Tag inst /\ tEmail t = Email p) billed = if bool_decide (up = 0 /\ down = 0) then [] else [mkTraffic (Tag inst) (Email p) up down]) /\
  (forall t, t ∈ billed -> tTag t = Tag inst -> tEmail t ∈ Email <$> Peers inst).
Proof.
  intros He Hnd Hok E Htags E1 E2 Hl Hla Hlb Hca Hcb. destruct (ensure_pass m k inst m' k' [] He Hok E) as (pk & addrs & l' & _ & _ & Hl' & Hok' & Hcv & Hrej & _). rewrite Hl in Hl'. injection Hl' as <-.
  destruct (ensure_record m k inst m' k' [] E) as (Hpre & r & Er & Etag). pose proof (ensure_index m k inst m' k' [] E) as Hidx. unfold record in Hidx. rewrite Er in Hidx. cbn [from_option id] in Hidx.
  pose proof (collected now1 m' ka) as H1. rewrite E1 in H1. destruct out1 as [o1 on1]. destruct H1 as (Hp1 & _ & Hd1). pose proof (collected now2 m1 kb) as H2. rewrite E2 in H2. destruct H2 as (_ & Hout & _).
  assert (forall id, Name m1 id = Name m id /\ Name m' id = Name m id) as Hname by (intros id; unfold Name; by rewrite Hp1, Hpre).
  set (r1 := (scraped now1 ka (Name m (ID inst)) r).1). assert (devices m1 !! ID inst = Some r1) as Er1. { rewrite Hd1, Er. cbn. by rewrite (proj2 (Hname _)). }
  assert (forall id t, t ∈ scrape_of now2 m1 kb id -> tTag t = Tag inst -> id = ID inst /\ exists key, claimant key (Peers inst) = Some (tEmail t)) as Hmine.
  { intros id t Hin Ht. unfold scrape_of in Hin. rewrite Hd1 in Hin. destruct (devices m' !! id) as [ri|] eqn:Ei; [|by apply not_elem_of_nil in Hin]. cbn [fmap option_fmap option_map from_option] in Hin.
    destruct (scraped_kept now1 ka (Name m' id) ri) as (K1 & _ & K3 & K4). apply scraped_tags in Hin as [T1 [key T2]]; [|done]. rewrite K1 in T1. rewrite K3 in T2. assert (id = ID inst) as -> by (apply (Htags id ri); congruence).
    split; [done|]. exists key. rewrite <-Hidx. congruence. }
  assert (ID inst ∈ (map_to_list (devices m1)).*1) as Hin1. { apply list_elem_of_fmap. exists (ID inst, r1). split; [done|]. by apply elem_of_map_to_list. }
  split.
  - intros p Hp. destruct (desiredPeers (Peers inst)) as [out rj] eqn:Eo. cbn in Hrej, Hcv. subst rj. destruct (all_accepted (Peers inst) _ _ _ Eo) as [_ Hall].
    destruct (Hall p Hp) as (cfg & Ec & Hin & Hcl); [by apply (proj1 (Forall_forall _ _) He)|]. destruct (cv_served _ _ _ _ _ _ Hcv cfg Hin) as (q & Hq & Hs). exists cfg, q. split_and!; [done..|]. cbv zeta.
    rewrite Hout, (filter_concat_at _ _ _ (ID inst)); [|apply NoDup_fst_map_to_list|done|intros id t _ Ht [Htg _]; by apply (Hmine id t)].
    unfold scrape_of. rewrite Er1. cbn [from_option]. rewrite (proj1 (Hname _)), <-Etag. pose proof (co_peers _ _ Hca) as Hpe.
    apply (second_collection now1 now2 ka kb _ la lb r (Email p) (pc_key cfg) q); rewrite ?Hpe; try done.
    + apply (ok_keyed _ Hok').
    + rewrite <-Hpe. apply (co_counted _ _ Hca).
    + intros key' q' (c & -> & Hc)%(cv_nobody_else _ _ _ _ _ _ Hcv)%list_elem_of_fmap. unfold desiredPeers in Eo. destruct (desired_loop_from (Peers inst) ∅ ∅ c) as (p' & _ & Ep'); [by rewrite Eo|].
      apply desiredPeer_whole in Ep' as (_ & _ & Ek). by eapply parseKey_key.
    + by rewrite Hidx.
    + intros key'. rewrite Hidx. intros H. by eapply (claimant_once (Peers inst) Hnd).
  - intros t Ht Htg. rewrite Hout in Ht. apply list_elem_of_In, in_concat in Ht as (u & Hu & Ht). apply list_elem_of_In, list_elem_of_fmap in Hu as (id & -> & _). apply list_elem_of_In in Ht.
    destruct (Hmine id t Ht Htg) as (_ & key & (p & Hp & <- & _)%claimant_from). by apply list_elem_of_fmap_2.
Qed.
(** ** A converged device *)

Lemma held_some current : forall (m : gmap Key WPeer) k, (is_Some (m !! k) \/ exists p, p ∈ current /\ wp_key p = k) -> is_Some (foldl (fun m p => <[wp_key p := p]> m) m current !! k).
Proof.
  induction current as [|c current IH]; intros m k H; cbn [foldl]. { destruct H as [H|(p & H & _)]; [done|by apply not_elem_of_nil in H]. }
  apply IH. destruct (decide (wp_key c = k)) as [<-|Hne]; [left; rewrite lookup_insert_eq; eauto|]. rewrite lookup_insert_ne by done. destruct H as [H|(p & [->|Hp]%elem_of_cons & E)]; eauto; done.
Qed.
Lemma serves_peerEqual cfg q counters : pc_endpoint cfg = None -> serves cfg q -> peerEqual (report counters (pc_key cfg) q) cfg = true.
Proof.
  intros He (_ & H1 & H2 & H3). unfold peerEqual. destruct (report_same counters (pc_key cfg) q) as (_ & -> & -> & ->). rewrite H1, H2, He. cbn [andb].
  rewrite bool_decide_eq_true_2, Z.eqb_refl by done. cbn [andb]. apply Permutation_length in H3 as Hlen. rewrite !length_fmap in Hlen. rewrite Hlen, Nat.eqb_refl. cbn [andb]. apply bool_decide_eq_true.
  unfold sorted_texts. apply (Sorted_unique String.le); [apply Sorted_merge_sort, _..|]. by rewrite !merge_sort_Permutation.
Qed.
Lemma diffPeers_none l served : link_ok l -> (forall cfg, cfg ∈ served -> pc_endpoint cfg = None /\ exists p, l_peers l !! pc_key cfg = Some p /\ serves cfg p) ->
  (forall k p, l_peers l !! k = Some p -> k ∈ pc_key <$> served) -> diffPeers (d_peers (device l)) served false = [].
Proof.
  intros Hok Hs Hn. unfold diffPeers. rewrite (elem_of_nil_inv (filter _ served)); [rewrite (elem_of_nil_inv (filter _ (d_peers _))); [done|]|].
  - intros p [Hk Hp]%list_elem_of_filter. apply device_peers in Hp as (q & Hq & _); [|done]. by apply Hk, (Hn _ q).
  - intros cfg [Hc Hin]%list_elem_of_filter. destruct (Hs cfg Hin) as (He & q & Hq & Hsv). destruct (report_same (l_counters l) (pc_key cfg) q) as [E1 _]. rewrite (ok_keyed _ Hok _ _ Hq) in E1.
    destruct (held_some (d_peers (device l)) ∅ (pc_key cfg)) as [cur Ecur].
    { right. exists (report (l_counters l) (pc_key cfg) q). split; [|done]. apply device_peers; [done|]. rewrite E1. eauto. }
    unfold held_peers in Hc. rewrite Ecur in Hc. destruct (held_lookup _ _ _ _ Ecur) as [[Hcur Ek]|E0]; [|by rewrite lookup_empty in E0].
    apply device_peers in Hcur as (q' & Hq' & Er); [|done]. rewrite Ek in Hq', Er. rewrite Hq in Hq'. injection Hq' as <-. by rewrite Er, serves_peerEqual in Hc.
Qed.
Lemma ensureDevice_quiet m k inst key l : links k !! Name m (ID inst) = Some l -> l_up l = true -> l_mtu l = linkMTU (MTU inst) (TransportPadding inst) ->
  l_private l = key -> (Port inst <> 0 -> l_port l = Port inst) -> l_fwmark l = FWMark inst ->
  ensureDeviceLocked m k inst key = (k, inr (mkSnapshot true (mkLinkState (l_index l) (l_mtu l) true false) (device l) (l_addrs l) (l_routes l), false)).
Proof.
  intros Hl Hup Hmtu Hkey Hport Hmark. unfold ensureDeviceLocked. cbn [EnsureLink plane_Snapshot KernelPlane]. unfold Kernel_EnsureLink. rewrite Hl. rewrite <-Hmtu. pose proof (DeviceMTU_pos (MTU inst) (TransportPadding inst)) as Hpos.
  fold (linkMTU (MTU inst) (TransportPadding inst)) in Hpos. rewrite <-Hmtu in Hpos. rewrite (proj2 (Z.ltb_lt _ _) Hpos). set (f := fun l0 => mkLink _ _ _ _ _ _ _ _ _ _).
  assert (on_link f (Name m (ID inst)) k = k) as Ek. { destruct k. unfold on_link. cbn in *. f_equal. apply map_eq. intros i. rewrite lookup_alter. case_decide as Ei; [|done]. subst i. rewrite Hl. cbn. f_equal. subst f. cbn. destruct l. cbn in *. by subst. }
  rewrite Ek. unfold Kernel_Snapshot. rewrite Hl. cbn [s_exists negb s_device ls_created]. rewrite Hup.
  assert (diffDevice (device l) key (Port inst) (FWMark inst) false = no_delta) as ->; [|done].
  unfold diffDevice. cbn. rewrite bool_decide_eq_true_2, Hmark, Z.eqb_refl by done. cbn. destruct (Z.eqb_spec (Port inst) 0); [done|]. by rewrite Hport, Z.eqb_refl.
Qed.

(** C18: a device that is as its inbound asks is left alone: the next pass succeeds, pushes
    nothing, changes no address and no route, and reports only the clients it rejects.
    The clients are not dialled out (no endpoint to compare), and neither the addresses
    nor the routes are link-local, which the engine takes for the kernel's own. *)
Theorem converged_is_left_alone m k inst key addrs was l :
  Forall (fun p => Email p <> "") (Peers inst) -> links k !! Name m (ID inst) = Some l -> link_ok l ->
  parseKey (PrivateKey inst) = inr key -> parsePrefixes (Address inst) = inr addrs ->
  converged inst key addrs (desiredPeers (Peers inst)).1 was l ->
  Forall (fun c => pc_endpoint c = None) (desiredPeers (Peers inst)).1 -> Forall (fun a => IsLinkLocalUnicast (pAddr a) = false) addrs ->
  (forall r, wants_route addrs (desiredPeers (Peers inst)).1 r -> IsLinkLocalUnicast (pAddr r) = false /\ r ∈ l_routes l) ->
  exists m', ensureLocked m k inst = (m', k, ((desiredPeers (Peers inst)).2, [])).
Proof.
  intros He Hl Hok Ekey Ea Hcv Hend Hll Hroutes. unfold ensureLocked. rewrite Ekey, Ea. pose proof (parse_entries_valid _ _ _ _ (fun p H => H) Ea) as Hav.
  destruct (served_ok _ He) as [_ Hsv]. destruct (desiredPeers (Peers inst)) as [peers rej]. cbn [fst snd] in *. destruct (desiredRoutes_spec addrs peers Hsv) as [Hrv Hrs].
  destruct Hcv as [(Hup & Hmtu & Hpk & Hport & Hmark) Hserved Hnobody Haddrs _ Hstray]. rewrite (ensureDevice_quiet m k inst key l) by done. cbn [s_device s_addrs s_routes].
  rewrite (diffPeers_none l peers Hok); [|intros c Hc; split; [by apply (proj1 (Forall_forall _ _) Hend)|by apply Hserved]|done]. cbn [length Nat.eqb existsb is_ok negb andb].
  destruct Hok as [_ _ Hva Hvr]. destruct (diff_prefixes_spec (fun p => IsLinkLocalUnicast (pAddr p)) (l_addrs l) addrs Hva Hav) as [A1 A2].
  destruct (diff_prefixes_spec (fun p => kernelOwned p addrs) (l_routes l) (desiredRoutes addrs peers) Hvr Hrv) as [R1 R2].
  unfold syncAddrs, diffAddrs, syncRoutes, diffRoutes. destruct (diff_prefixes _ (l_addrs l) addrs) as [aa ad]. destruct (diff_prefixes _ (l_routes l) _) as [ra rd]. cbn [fst snd] in *.
  rewrite (elem_of_nil_inv aa), (elem_of_nil_inv ad), (elem_of_nil_inv ra), (elem_of_nil_inv rd); [cbn; eauto|..].
  - intros r (H1 & H2 & H3)%R2. by apply H3, Hrs, Hstray.
  - intros r [H1 H2]%R1. apply Hrs in H1. destruct (Hroutes r H1) as [H3 H4]. apply H2. split; [done|]. unfold kernelOwned. rewrite H3. by destruct H1 as (? & ? & _ & _ & _ & _ & ->).
  - intros a (H1 & H2 & H3)%A2. apply Haddrs in H1 as [?|[_ ?]]; congruence.
  - intros a [H1 H2]%A1. apply H2. split; [by apply Haddrs; left|]. by apply (proj1 (Forall_forall _ _) Hll).
Qed.
End Theorems.

(** ** A server *)

Module SampleServer.
#[local] Existing Instance SampleText.sample_text.
#[local] Existing Instance SampleText.sample_text_laws.

(** A parser that knows a few prefixes. *)
Definition table : list (string * Prefix) :=
  [("10.8.0.1/24", mkPrefix (Addr4 168296449) 24); ("10.9.0.1/24", mkPrefix (Addr4 168361985) 24); ("10.8.0.2/32", mkPrefix (Addr4 168296450) 32);
   ("10.8.0.3/32", mkPrefix (Addr4 168296451) 32); ("10.8.0.0/24", mkPrefix (Addr4 168296448) 24); ("192.168.9.0/24", mkPrefix (Addr4 3232237824) 24);
   ("169.254.7.0/24", mkPrefix (Addr4 2851997440) 24)].
Fixpoint known (t : list (string * Prefix)) (s : string) : option Prefix :=
  match t with [] => None | (n, p) :: rest => if bool_decide (n = s) then Some p else known rest s end.
#[local] Instance parsers : Parsers := {|
  ParsePrefix := known table;
  ParseAddr _ := None; ResolveUDPAddr _ := None |}.
Lemma parsers_laws : ParsersLaws.
Proof.
  split; [|done]. intros s p. cbn [ParsePrefix parsers]. assert (Forall (fun kp => valid kp.2) table) as H by (repeat constructor). revert H. generalize table.
  induction 1 as [|[n q] t Hq _ IH]; [done|]. cbn. case_bool_decide; [by intros [= <-]|done].
Qed.
#[local] Existing Instance parsers_laws.

Definition k0 : string := "AAECAwQFBgcICQoLDA0ODxAREhMUFRYXGBkaGxwdHh8=".
Definition k1 : string := "ICEiIyQlJicoKSorLC0uLzAxMjM0NTY3ODk6Ozw9Pj8=".
Definition k2 : string := "QEFCQ0RFRkdISUpLTE1OT1BRUlNUVVZXWFlaW1xdXl8=".
Definition k3 : string := "YGFiY2RlZmdoaWprbG1ub3BxcnN0dXZ3eHl6e3x9fn8=".
Definition server (address : string) (peers : list Peer) : Instance_ := mkInstance 1 "in-1" 51820 k0 [address] 0 0 peers 0.
Definition ana (allowed : list string) : Peer := mkPeer "ana" k1 "" allowed 25 "".
Definition ben (allowed : list string) : Peer := mkPeer "ben" k2 k3 allowed 0 "".
Definition cyn (key : string) (allowed : list string) : Peer := mkPeer "cyn" key "" allowed 0 "".

Definition pass (mk : Manager * Kernel) (inst : Instance_) : Manager * Kernel := (ensureLocked mk.1 mk.2 inst).1.
Definition outcome (mk : Manager * Kernel) (inst : Instance_) : list wg_error * list wg_error := (ensureLocked mk.1 mk.2 inst).2.
Definition start : Manager * Kernel := (NewManager, New).
Definition first : Instance_ := server "10.8.0.1/24" [ana ["10.8.0.2/32"]; ben ["10.8.0.3/32"]].
(** Ben leaves, Cyn comes with a network of her own, and Ana gets Ben's address. *)
Definition second : Instance_ := server "10.8.0.1/24" [ana ["10.8.0.3/32"]; cyn k3 ["192.168.9.0/24"]].

Lemma emails_named (a b : list string) : Forall (fun p => Email p <> "") [ana a; ben b].
Proof. repeat constructor; done. Qed.
Lemma start_ok (name : string) : forall l, links start.2 !! name = Some l -> link_ok l.
Proof. intros l. cbn. by rewrite lookup_empty. Qed.
Lemma first_pass : ensureLocked start.1 start.2 first = ((pass start first).1, (pass start first).2, ([], [])).
Proof. vm_compute. reflexivity. Qed.
Lemma second_pass : ensureLocked (pass start first).1 (pass start first).2 second = ((pass (pass start first) second).1, (pass (pass start first) second).2, ([], [])).
Proof. vm_compute. reflexivity. Qed.
Lemma first_name : Name (pass start first).1 (ID second) = "pwg1".
Proof. by vm_compute. Qed.
Lemma first_ok l : links (pass start first).2 !! "pwg1" = Some l -> link_ok l.
Proof.
  destruct (ensure_pass start.1 start.2 first (pass start first).1 (pass start first).2 [] (emails_named _ _) (start_ok _) first_pass) as (key & addrs & l' & _ & _ & Hl & Hok & _). intros H.
  change (Name start.1 (ID first)) with "pwg1" in Hl. rewrite H in Hl. by injection Hl as ->.
Qed.

(** The first client that names a key is billed for it, whether or not it is served: Ana is
    rejected for a network that does not parse, Cyn is served under the same key, and Ana
    is billed. *)
Lemma rejected_client_is_billed : let inst := server "10.8.0.1/24" [ana ["nonsense"]; cyn k1 ["10.8.0.2/32"]] in
  outcome start inst = ([InvalidAllowedIP "nonsense"], []) /\ (pc_key <$> (desiredPeers (Peers inst)).1) = omap usable [k1] /\
  (byKey (record (pass start inst).1 1) !!.) <$> omap usable [k1] = [Some "ana"].
Proof. by vm_compute. Qed.
(** The route of a network leaves with an address of it that is dropped, and the pass that
    drops it reports nothing. *)
Lemma route_leaves_with_address : let before := server "10.8.0.1/24" [ana ["10.8.0.0/24"]] in let after := server "10.9.0.1/24" [ana ["10.8.0.0/24"]] in
  outcome (pass start before) after = ([], []) /\
  l_routes <$> (links (pass (pass start before) after).2 !! "pwg1") = Some [mkPrefix (Addr4 168361984) 24] /\
  l_routes <$> (links (pass (pass (pass start before) after) after).2 !! "pwg1") = Some [mkPrefix (Addr4 168361984) 24; mkPrefix (Addr4 168296448) 24].
Proof. by vm_compute. Qed.
(** A link-local network of a client is routed by the first pass and refused by every later one. *)
Lemma link_local_fails_again : let inst := server "10.8.0.1/24" [ana ["169.254.7.0/24"]] in
  outcome start inst = ([], []) /\ outcome (pass start inst) inst = ([], [RouteErr (mkPrefix (Addr4 2851997440) 24) ErrRoutes]).
Proof. by vm_compute. Qed.

(** The second pass of the sample moves Ben's address to Ana, drops Ben and routes Cyn. *)
Lemma ensure_converges_witness : exists key addrs l, parseKey (PrivateKey second) = inr key /\ parsePrefixes (Address second) = inr addrs /\
  links (pass (pass start first) second).2 !! "pwg1" = Some l /\ link_ok l /\ converged second key addrs (desiredPeers (Peers second)).1 (carried (pass start first).2 "pwg1") l /\
  [] = (desiredPeers (Peers second)).2 /\ forall other, other <> "pwg1" -> links (pass (pass start first) second).2 !! other = links (pass start first).2 !! other.
Proof.
  pose proof (ensure_converges (pass start first).1 (pass start first).2 second (pass (pass start first) second).1 (pass (pass start first) second).2 []) as H.
  rewrite first_name in H. apply H; [repeat constructor; done|exact first_ok|exact second_pass].
Defined.
(** Cyn moves 100 bytes up and 40 down before the first collection, 500 and 600 after it. *)
Definition cyn_key : Key := default zero_key (usable k3).
Definition served_host : Manager * Kernel := pass (pass start first) second.
Definition early : Kernel := FeedTraffic served_host.2 "pwg1" cyn_key 100 40 5.
Definition late : Kernel := FeedTraffic early "pwg1" cyn_key 600 640 9.
Definition link_in (k : Kernel) : link := default (mkLink 0 0 false zero_key 0 0 ∅ ∅ [] []) (links k !! "pwg1").
Definition once := CollectTraffic 10 served_host.1 early.
Definition twice := CollectTraffic 20 once.1 late.
Lemma link_there k : bool_decide (is_Some (links k !! "pwg1")) = true -> links k !! "pwg1" = Some (link_in k).
Proof. intros [l E]%bool_decide_eq_true. unfold link_in. by rewrite E. Qed.
Lemma one_device id r : devices served_host.1 !! id = Some r -> m_tag r = Tag second -> id = ID second.
Proof.
  assert ((map_to_list (devices served_host.1)).*1 = [1]) as E by (vm_compute; reflexivity). intros H _. assert (id ∈ (map_to_list (devices served_host.1)).*1) as Hin.
  { apply list_elem_of_fmap. exists (id, r). split; [done|]. by apply elem_of_map_to_list. } rewrite E in Hin. by apply list_elem_of_singleton in Hin.
Qed.
Lemma served_pass : ensureLocked (pass start first).1 (pass start first).2 second = (served_host.1, served_host.2, ([], [])).
Proof. unfold served_host. apply second_pass. Qed.
Lemma collected_once : CollectTraffic 10 served_host.1 early = (once.1, once.2).
Proof. unfold once. apply surjective_pairing. Qed.
Lemma collected_twice : CollectTraffic 20 once.1 late = (twice.1, (twice.2.1, twice.2.2)).
Proof. unfold twice. by destruct (CollectTraffic 20 once.1 late) as [? [? ?]]. Qed.
Lemma emails_apart : NoDup (Email <$> Peers second).
Proof. apply (bool_decide_eq_true _). vm_compute. reflexivity. Qed.
Lemma host_links : links served_host.2 !! "pwg1" = Some (link_in served_host.2) /\ links early !! "pwg1" = Some (link_in early) /\ links late !! "pwg1" = Some (link_in late).
Proof. split_and!; apply link_there; vm_compute; reflexivity. Qed.
Lemma host_moves : carries_on (link_in served_host.2) (link_in early) /\ carries_on (link_in early) (link_in late).
Proof. split; (apply forward_carries_on; [vm_compute; reflexivity..|apply (bool_decide_eq_true _); vm_compute; reflexivity]). Qed.
Lemma key_of_client p cfg key : desiredPeer p = inr cfg -> (match desiredPeer p with inr c => pc_key c | inl _ => zero_key end) = key -> pc_key cfg = key.
Proof. by intros ->. Qed.
Lemma clients_are_billed_witness :
  filter (fun t => tTag t = Tag second /\ tEmail t = Email (cyn k3 ["192.168.9.0/24"])) twice.2.1 = [mkTraffic "in-1" "cyn" 500 600] /\
  filter (fun t => tTag t = Tag second /\ tEmail t = Email (ana ["10.8.0.3/32"])) twice.2.1 = [].
Proof.
  pose proof (clients_are_billed (pass start first).1 (pass start first).2 second served_host.1 served_host.2 10 early once.1 once.2 20 late twice.1 twice.2.1 twice.2.2
    (link_in served_host.2) (link_in early) (link_in late)) as H. rewrite first_name in H.
  destruct host_links as (L0 & La & Lb), host_moves as [Ma Mb].
  specialize (H ltac:(by repeat constructor) emails_apart first_ok served_pass one_device collected_once collected_twice L0 La Lb Ma Mb) as [H _].
  split.
  - destruct (H (cyn k3 ["192.168.9.0/24"])) as (cfg & q & Ec & _ & _ & E); [right; left|]. cbv zeta in E. rewrite E. clear E.
    rewrite (key_of_client _ _ cyn_key Ec) by (vm_compute; reflexivity). vm_compute. reflexivity.
  - destruct (H (ana ["10.8.0.3/32"])) as (cfg & q & Ec & _ & _ & E); [left|]. cbv zeta in E. rewrite E. clear E.
    rewrite (key_of_client _ _ (default zero_key (usable k1)) Ec) by (vm_compute; reflexivity). vm_compute. reflexivity.
Defined.

Definition settled : Manager * Kernel := pass start second.
Lemma settled_pass : ensureLocked start.1 start.2 second = (settled.1, settled.2, ([], [])).
Proof. vm_compute. reflexivity. Qed.
Lemma settled_name : Name settled.1 (ID second) = "pwg1".
Proof. by vm_compute. Qed.
Lemma second_named : Forall (fun p => Email p <> "") (Peers second).
Proof. repeat constructor; done. Qed.
Lemma second_served : Forall (fun c => pc_endpoint c = None) (desiredPeers (Peers second)).1.
Proof. vm_compute. repeat constructor. Qed.
Lemma second_routes r : wants_route [mkPrefix (Addr4 168296449) 24] (desiredPeers (Peers second)).1 r -> IsLinkLocalUnicast (pAddr r) = false.
Proof.
  destruct (desiredRoutes_spec [mkPrefix (Addr4 168296449) 24] _ (proj2 (served_ok _ second_named))) as [_ Hs]. rewrite <-Hs.
  assert (desiredRoutes [mkPrefix (Addr4 168296449) 24] (desiredPeers (Peers second)).1 = [mkPrefix (Addr4 3232237824) 24]) as -> by by vm_compute. by intros ->%list_elem_of_singleton.
Qed.

Lemma settled_facts : exists key l, parseKey (PrivateKey second) = inr key /\ links settled.2 !! "pwg1" = Some l /\ link_ok l /\
  converged second key [mkPrefix (Addr4 168296449) 24] (desiredPeers (Peers second)).1 [] l.
Proof.
  pose proof (ensure_pass start.1 start.2 second settled.1 settled.2 [] second_named (start_ok _) settled_pass) as H. destruct H as (key & addrs & l & Ek & Ea & Hl & Hok & Hcv & _ & _).
  change (Name start.1 (ID second)) with "pwg1" in Hl, Hcv. assert (Eb : parsePrefixes (Address second) = inr [mkPrefix (Addr4 168296449) 24]) by by vm_compute. rewrite Ea in Eb. injection Eb as ->. eauto 10.
Qed.

(** The pass after the first: nothing to do. *)
Lemma converged_is_left_alone_witness : exists m', ensureLocked settled.1 settled.2 second = (m', settled.2, ((desiredPeers (Peers second)).2, [])).
Proof.
  pose proof settled_facts as H0. destruct H0 as (key & l & Ek & Hl & Hok & Hcv). pose proof (converged_is_left_alone settled.1 settled.2 second key [mkPrefix (Addr4 168296449) 24] [] l) as H.
  rewrite settled_name in H. apply (H second_named Hl Hok Ek ltac:(by vm_compute) Hcv second_served); [repeat constructor|]. intros r Hr. split; [by apply second_routes|].
  apply (cv_routed _ _ _ _ _ _ Hcv r Hr). apply not_elem_of_nil.
Defined.
End SampleServer.
