(* ===== verification/HotDiff.v ===== *)
(** * Changing a running core: xray/hot_diff.go, hot_apply.go and config.go

    [ComputeHotDiff] compares two generated configurations and says which calls of the
    core's API turn an instance running the first into one running the second, or that
    only a restart can; [ApplyHotDiff] makes the calls.  A raw section is its text, and
    encoding/json is an interface on texts ([JSONText]); the fields of a decoded object
    are listed in key order, and a loop over a Go map runs in the order of its listing.
    A Go error is its text, [None] for nil; case folding is of ASCII letters. *)
From S2P Require Import Prelude.
Open Scope string_scope.
Open Scope Z_scope.
Open Scope list_scope.

(** ** Data *)

(** A value of type any: what decoding with [UseNumber] gives, a number being its digits;
    and what other callers put in a user's map, a float64 being a fraction. *)
Inductive value :=
| VNull | VBool (b : bool) | VNumber (digits : string) | VString (s : string) | VArray (l : list value) | VObject (fields : list (string * value))
| VFloat (num : Z) (den : positive) | VUint32 (n : Z) | VUint32s (l : list Z) | VStrings (l : list string).
Abbreviation object := (list (string * value)).

Fixpoint field (k : string) (o : object) : option value :=
  match o with
  | [] => None
  | (k', v) :: rest => if bool_decide (k' = k) then Some v else field k rest
  end.
Definition without (ks : list string) (o : object) : object := filter (fun f => f.1 ∉ ks) o.

Record InboundConfig := mkInboundConfig {
  Listen : string; Port : Z; Protocol : string; Settings : string; StreamSettings : string; Tag : string; Sniffing : string }.

Record Config := mkConfig {
  LogConfig : string; RouterConfig : string; DNSConfig : string; InboundConfigs : list InboundConfig; OutboundConfigs : string;
  Transport : string; Policy_ : string; API : string; Stats : string; Reverse : string; FakeDNS : string; Observatory : string;
  BurstObservatory : string; Metrics : string; Geodata : string; Env : string }.

Record UserOp := mkUserOp { uTag : string; uProtocol : string; uEmail : string; uUser : option object }.

Record HotDiff := mkDiff {
  RemovedInboundTags : list string; AddedInbounds : list string; RemovedUsers : list UserOp; AddedUsers : list UserOp;
  DroppedClients : list UserOp; RemovedOutboundTags : list string; AddedOutbounds : list string; RoutingConfig : option string }.

(** encoding/json: [Decoder.Decode] of a first value with [UseNumber], [Marshal] of a
    decoded value, and [Unmarshal] of a whole text into the types the code names: any
    value, a list of raw elements, [struct{ Tag string }], [struct{ Security string }],
    the raw [reverse] of every client of a settings section, empty when absent; and
    [Marshal] of an inbound, which refuses raw sections that are not JSON. *)
Class JSONText := {
  Decode : string -> option value;
  Marshal : value -> string;
  Unmarshal : string -> option value;
  unmarshal_array : string -> option (list string);
  unmarshal_tag : string -> option string;
  unmarshal_security : string -> option string;
  unmarshal_reverse : string -> option (list string);
  marshal_inbound : InboundConfig -> option string }.

(** ** Configurations, byte for byte: config.go, core/inbound.go *)

Definition InboundConfig_Equals (c other : InboundConfig) : bool :=
  bool_decide (Listen c = Listen other) && (Port c =? Port other) && bool_decide (Protocol c = Protocol other) &&
  bool_decide (Settings c = Settings other) && bool_decide (StreamSettings c = StreamSettings other) && bool_decide (Tag c = Tag other) &&
  bool_decide (Sniffing c = Sniffing other).

Fixpoint inbounds_equal (l l' : list InboundConfig) : bool :=
  match l, l' with
  | a :: l, b :: l' => InboundConfig_Equals a b && inbounds_equal l l'
  | _, _ => true
  end.

Definition Config_Equals (c other : Config) : bool :=
  Nat.eqb (length (InboundConfigs c)) (length (InboundConfigs other)) && inbounds_equal (InboundConfigs c) (InboundConfigs other) &&
  bool_decide (LogConfig c = LogConfig other) && bool_decide (RouterConfig c = RouterConfig other) && bool_decide (DNSConfig c = DNSConfig other) &&
  bool_decide (OutboundConfigs c = OutboundConfigs other) && bool_decide (Transport c = Transport other) && bool_decide (Policy_ c = Policy_ other) &&
  bool_decide (API c = API other) && bool_decide (Stats c = Stats other) && bool_decide (Reverse c = Reverse other) &&
  bool_decide (FakeDNS c = FakeDNS other) && bool_decide (Observatory c = Observatory other) && bool_decide (BurstObservatory c = BurstObservatory other) &&
  bool_decide (Metrics c = Metrics other) && bool_decide (Geodata c = Geodata other) && bool_decide (Env c = Env other).

Section Diff.
Context `{!JSONText}.

(** ** Comparing sections *)

(** Empty input and null are both the empty text. *)
Definition canonicalJSON (raw : string) : option string :=
  if bool_decide (raw = "") then Some ""
  else match Decode raw with
       | None => None
       | Some VNull => Some ""
       | Some v => Some (Marshal v)
       end.

Definition rawEqualNormalized (a b : string) : bool :=
  bool_decide (a = b) || match canonicalJSON a, canonicalJSON b with Some na, Some nb => bool_decide (na = nb) | _, _ => false end.

Definition inboundEqualNormalized (a b : InboundConfig) : bool :=
  (Port a =? Port b) && bool_decide (Protocol a = Protocol b) && bool_decide (Tag a = Tag b) && rawEqualNormalized (Listen a) (Listen b) &&
  rawEqualNormalized (Settings a) (Settings b) && rawEqualNormalized (StreamSettings a) (StreamSettings b) && rawEqualNormalized (Sniffing a) (Sniffing b).

(** [Decode] into a map: null leaves it nil. *)
Definition decode_map (raw : string) : option (option object) :=
  match Decode raw with
  | Some (VObject o) => Some (Some o)
  | Some VNull => Some None
  | _ => None
  end.

(** ** Inbounds *)

Record clientEntry := mkClient { user : object; norm : string }.

Fixpoint index_clients (clients : gmap string clientEntry) (l : list value) : option (gmap string clientEntry) :=
  match l with
  | [] => Some clients
  | VObject obj :: rest =>
      match field "email" obj with
      | Some (VString email) =>
          if bool_decide (email = "") then None
          else if bool_decide (is_Some (clients !! email)) then None
          else index_clients (<[email := mkClient obj (Marshal (VObject obj))]> clients) rest
      | _ => None
      end
  | _ => None
  end.

Definition splitSettingsClients (raw : string) : option (gmap string clientEntry * string) :=
  if bool_decide (raw = "") then None
  else match decode_map raw with
       | Some (Some settings) =>
           match field "clients" settings with
           | Some (VArray l) => clients ← index_clients ∅ l; Some (clients, Marshal (VObject (without ["clients"] settings)))
           | _ => None
           end
       | _ => None
       end.

Definition inboundUsesReality (ib : InboundConfig) : bool :=
  if bool_decide (StreamSettings ib = "") then false
  else match unmarshal_security (StreamSettings ib) with Some s => bool_decide (s = "reality") | None => false end.

Definition inboundHasReverseClient (ib : InboundConfig) : bool :=
  match unmarshal_reverse (Settings ib) with
  | Some l => existsb (fun r => negb (bool_decide (r = "")) && match Unmarshal r with Some VNull | None => false | Some _ => true end) l
  | None => false
  end.

Definition userDiffableProtocols : list string := ["vless"; "vmess"; "trojan"; "hysteria"].

Definition with_users (d : HotDiff) (removed added : list UserOp) : HotDiff :=
  mkDiff (RemovedInboundTags d) (AddedInbounds d) (RemovedUsers d ++ removed) (AddedUsers d ++ added) (DroppedClients d)
    (RemovedOutboundTags d) (AddedOutbounds d) (RoutingConfig d).
Definition with_dropped (d : HotDiff) (l : list UserOp) : HotDiff :=
  mkDiff (RemovedInboundTags d) (AddedInbounds d) (RemovedUsers d) (AddedUsers d) (DroppedClients d ++ l)
    (RemovedOutboundTags d) (AddedOutbounds d) (RoutingConfig d).
Definition with_inbounds (d : HotDiff) (removed added : list string) : HotDiff :=
  mkDiff (RemovedInboundTags d ++ removed) (AddedInbounds d ++ added) (RemovedUsers d) (AddedUsers d) (DroppedClients d)
    (RemovedOutboundTags d) (AddedOutbounds d) (RoutingConfig d).

(** The first loop: a client gone or changed; the second: a client that is new. *)
Definition differs (newClients : gmap string clientEntry) (c : string * clientEntry) : Prop :=
  match newClients !! c.1 with Some n => norm c.2 <> norm n | None => True end.
#[global] Instance differs_dec m c : Decision (differs m c).
Proof. unfold differs. destruct (m !! c.1); apply _. Defined.
Definition changed (oldClients newClients : gmap string clientEntry) : list (string * clientEntry) :=
  filter (differs newClients) (map_to_list oldClients).
Definition fresh (oldClients newClients : gmap string clientEntry) : list (string * clientEntry) :=
  filter (fun c => oldClients !! c.1 = None) (map_to_list newClients).

Definition diffInboundUsers (oldIb newIb : InboundConfig) (diff : HotDiff) : option HotDiff :=
  if negb (Port oldIb =? Port newIb) || negb (bool_decide (Protocol oldIb = Protocol newIb)) || negb (bool_decide (Tag oldIb = Tag newIb)) then None
  else if negb (bool_decide (Protocol oldIb ∈ userDiffableProtocols)) then None
  else if negb (rawEqualNormalized (Listen oldIb) (Listen newIb)) || negb (rawEqualNormalized (StreamSettings oldIb) (StreamSettings newIb)) ||
          negb (rawEqualNormalized (Sniffing oldIb) (Sniffing newIb)) then None
  else
    old ← splitSettingsClients (Settings oldIb);
    new ← splitSettingsClients (Settings newIb);
    if negb (bool_decide (old.2 = new.2)) then None
    else
      let op email u := mkUserOp (Tag oldIb) (Protocol oldIb) email u in
      Some (with_users diff ((fun c => op c.1 None) <$> changed old.1 new.1)
              (omap (fun c => (fun n => op c.1 (Some (user n))) <$> new.1 !! c.1) (changed old.1 new.1) ++
               ((fun c => op c.1 (Some (user c.2))) <$> fresh old.1 new.1))).

(** Clients of the old inbound whose email is gone. *)
Definition dropped (oldIb newIb : InboundConfig) : list UserOp :=
  match splitSettingsClients (Settings oldIb), splitSettingsClients (Settings newIb) with
  | Some (oldClients, _), Some (newClients, _) =>
      (fun c => mkUserOp (Tag newIb) (Protocol newIb) c.1 None) <$> filter (fun c => newClients !! c.1 = None) (map_to_list oldClients)
  | _, _ => []
  end.

Definition inboundsByTag (inbounds : list InboundConfig) : option (gmap string InboundConfig) :=
  (fix go (byTag : gmap string InboundConfig) (l : list InboundConfig) :=
     match l with
     | [] => Some byTag
     | ib :: rest =>
         if bool_decide (Tag ib = "") then None
         else if bool_decide (is_Some (byTag !! Tag ib)) then None
         else go (<[Tag ib := ib]> byTag) rest
     end) ∅ inbounds.

Definition apiTagFromConfig (api : string) : string :=
  if bool_decide (api = "") then "api"
  else match unmarshal_tag api with Some t => if bool_decide (t = "") then "api" else t | None => "api" end.

Definition is_api (apiTag : string) (ib : InboundConfig) : bool := bool_decide (Tag ib = apiTag) || bool_decide (Tag ib = "api").

(** One inbound of the old configuration; [None] means a restart. *)
Definition diff_old (apiTag : string) (newByTag : gmap string InboundConfig) (diff : HotDiff) (oldIb : InboundConfig) : option HotDiff :=
  match newByTag !! Tag oldIb with
  | Some newIb =>
      if inboundEqualNormalized oldIb newIb then Some diff
      else if is_api apiTag oldIb then None
      else if inboundHasReverseClient oldIb || inboundHasReverseClient newIb then None
      else
        let diff := with_dropped diff (dropped oldIb newIb) in
        match diffInboundUsers oldIb newIb diff with
        | Some diff => Some diff
        | None =>
            if inboundUsesReality oldIb || inboundUsesReality newIb then None
            else raw ← marshal_inbound newIb; Some (with_inbounds diff [Tag oldIb] [raw])
        end
  | None => if is_api apiTag oldIb then None else Some (with_inbounds diff [Tag oldIb] [])
  end.
(** One inbound of the new configuration. *)
Definition diff_new (apiTag : string) (oldByTag : gmap string InboundConfig) (diff : HotDiff) (newIb : InboundConfig) : option HotDiff :=
  if bool_decide (is_Some (oldByTag !! Tag newIb)) then Some diff
  else if is_api apiTag newIb then None
  else raw ← marshal_inbound newIb; Some (with_inbounds diff [] [raw]).

Fixpoint foldO {A S} (f : S -> A -> option S) (s : S) (l : list A) : option S :=
  match l with
  | [] => Some s
  | x :: rest => s ← f s x; foldO f s rest
  end.

Definition diffInbounds (oldCfg newCfg : Config) (diff : HotDiff) : option HotDiff :=
  oldByTag ← inboundsByTag (InboundConfigs oldCfg);
  newByTag ← inboundsByTag (InboundConfigs newCfg);
  let apiTag := apiTagFromConfig (API newCfg) in
  diff ← foldO (diff_old apiTag newByTag) diff (InboundConfigs oldCfg);
  foldO (diff_new apiTag oldByTag) diff (InboundConfigs newCfg).

(** ** Outbounds *)

Record outboundEntry := mkEntry { tag : string; raw : string; onorm : string }.

Fixpoint parse_elems (seen : gset string) (l : list string) : option (list outboundEntry) :=
  match l with
  | [] => Some []
  | elem :: rest =>
      tag ← unmarshal_tag elem;
      if bool_decide (tag = "") then None
      else if bool_decide (tag ∈ seen) then None
      else norm ← canonicalJSON elem; entries ← parse_elems ({[tag]} ∪ seen) rest; Some (mkEntry tag elem norm :: entries)
  end.
Definition parseOutbounds (raw : string) : option (list outboundEntry) :=
  if bool_decide (raw = "") then Some [] else elems ← unmarshal_array raw; parse_elems ∅ elems.

Definition entries_by_tag (l : list outboundEntry) : gmap string outboundEntry := list_to_map ((fun e => (tag e, e)) <$> l).
Definition with_outbounds (d : HotDiff) (removed added : list string) : HotDiff :=
  mkDiff (RemovedInboundTags d) (AddedInbounds d) (RemovedUsers d) (AddedUsers d) (DroppedClients d)
    (RemovedOutboundTags d ++ removed) (AddedOutbounds d ++ added) (RoutingConfig d).

(** The first outbound is the core's default handler. *)
Definition same_default (oldOut newOut : list outboundEntry) : bool :=
  match oldOut, newOut with
  | [], [] => true
  | o :: _, n :: _ => bool_decide (tag o = tag n) && bool_decide (onorm o = onorm n)
  | _, _ => false
  end.

Definition outdated (newByTag : gmap string outboundEntry) (e : outboundEntry) : Prop :=
  match newByTag !! tag e with Some n => onorm e <> onorm n | None => True end.
#[global] Instance outdated_dec m e : Decision (outdated m e).
Proof. unfold outdated. destruct (m !! tag e); apply _. Defined.

Definition diffOutbounds (oldCfg newCfg : Config) (diff : HotDiff) : option HotDiff :=
  oldOut ← parseOutbounds (OutboundConfigs oldCfg);
  newOut ← parseOutbounds (OutboundConfigs newCfg);
  if negb (same_default oldOut newOut) then None
  else
    let oldByTag := entries_by_tag oldOut in
    let newByTag := entries_by_tag newOut in
    let gone := filter (outdated newByTag) oldOut in
    Some (with_outbounds diff (tag <$> gone)
            (omap (fun e => raw <$> newByTag !! tag e) gone ++ (raw <$> filter (fun e => oldByTag !! tag e = None) newOut))).

(** ** Routing *)

Definition reloadable : list string := ["rules"; "balancers"].
Definition routingWithoutReloadable (raw : string) : option string :=
  if bool_decide (raw = "") then Some (Marshal (VObject []))
  else match decode_map raw with
       | Some (Some o) => Some (Marshal (VObject (without reloadable o)))
       | Some None => Some (Marshal VNull)
       | None => None
       end.
Definition with_routing (d : HotDiff) (r : string) : HotDiff :=
  mkDiff (RemovedInboundTags d) (AddedInbounds d) (RemovedUsers d) (AddedUsers d) (DroppedClients d)
    (RemovedOutboundTags d) (AddedOutbounds d) (Some r).

Definition diffRouting (oldCfg newCfg : Config) (diff : HotDiff) : option HotDiff :=
  if bool_decide (RouterConfig oldCfg = RouterConfig newCfg) then Some diff
  else if bool_decide (RouterConfig oldCfg = "") || bool_decide (RouterConfig newCfg = "") then None
  else
    oldRest ← routingWithoutReloadable (RouterConfig oldCfg);
    newRest ← routingWithoutReloadable (RouterConfig newCfg);
    if negb (bool_decide (oldRest = newRest)) then None else Some (with_routing diff (RouterConfig newCfg)).

(** ** The diff *)

(** Sections without a reload API. *)
Definition static (c : Config) : list string :=
  [LogConfig c; DNSConfig c; Transport c; Policy_ c; API c; Stats c; Reverse c; FakeDNS c; Observatory c; BurstObservatory c; Metrics c; Geodata c; Env c].

Definition ComputeHotDiff (oldCfg newCfg : option Config) : option HotDiff :=
  match oldCfg, newCfg with
  | Some oldCfg, Some newCfg =>
      if negb (forallb (fun s => rawEqualNormalized s.1 s.2) (zip (static oldCfg) (static newCfg))) then None
      else
        diff ← diffInbounds oldCfg newCfg (mkDiff [] [] [] [] [] [] [] None);
        diff ← diffOutbounds oldCfg newCfg diff;
        diffRouting oldCfg newCfg diff
  | _, _ => None
  end.

Definition user_key (u : UserOp) : string := uTag u ++ String (Ascii.ascii_of_nat 0) (uEmail u).
Definition none {A} (l : list A) : bool := Nat.eqb (length l) 0.
Definition DropsUsers (d : HotDiff) : bool :=
  negb (none (DroppedClients d)) || existsb (fun u => negb (existsb (fun a => bool_decide (user_key a = user_key u)) (AddedUsers d))) (RemovedUsers d).

Definition Empty (d : HotDiff) : bool :=
  none (RemovedInboundTags d) && none (AddedInbounds d) && none (RemovedUsers d) && none (AddedUsers d) &&
  none (RemovedOutboundTags d) && none (AddedOutbounds d) && bool_decide (RoutingConfig d = None).
End Diff.
