(* ===== verification/XrayApi.v ===== *)
(** * Calls of the core's API: xray/api.go

    The methods of [XrayAPI] that change what the core runs, with the accounts
    [buildUserAccount] makes of a client.  The core is outside: [Conf] is its configuration
    loader (json.Unmarshal into its types, then Build), [XrayCore] the gRPC services an
    instance answers.  A Go error is its text, [None] for nil; case folding is of ASCII
    letters.  The asset location the loader reads from the environment is not modelled. *)
From S2P Require Import Prelude WireguardKeys HotDiff.
Open Scope string_scope.
Open Scope Z_scope.
Open Scope list_scope.

(** ** Errors of the core *)

Definition ascii_lower (c : Ascii.ascii) : Ascii.ascii :=
  let n := Ascii.nat_of_ascii c in if (65 <=? Z.of_nat n) && (Z.of_nat n <=? 90) then Ascii.ascii_of_nat (n + 32) else c.
Fixpoint ToLower (s : string) : string := match s with EmptyString => EmptyString | String c rest => String (ascii_lower c) (ToLower rest) end.
Definition Contains (s sub : string) : bool := match String.index 0 sub s with Some _ => true | None => false end.

Definition IsMissingHandlerErr (err : option string) : bool :=
  match err with None => false | Some e => Contains (ToLower e) "not found" || Contains (ToLower e) "not enough information" end.
Definition IsExistingTagErr (err : option string) : bool :=
  match err with None => false | Some e => Contains (ToLower e) "existing tag" end.
Definition IsUserExistsErr (err : option string) : bool :=
  match err with None => false | Some e => Contains (ToLower e) "already exists" end.

(** common.NewError ends a message with a line end; %q quotes a key. *)
Definition nl : string := String (Ascii.ascii_of_nat 10) EmptyString.
Definition quote : string := String (Ascii.ascii_of_nat 34) EmptyString.
Definition quoted (s : string) : string := quote +:+ s +:+ quote.

(** ** Accounts *)

Inductive CipherType := AES_128_GCM | AES_256_GCM | CHACHA20_POLY1305 | XCHACHA20_POLY1305 | CipherType_UNKNOWN.

Inductive account :=
| VmessAccount (Id : string)
| VlessAccount (Id Flow : string) (Reverse : option string) (Testseed : list Z) (Testpre : Z)
| TrojanAccount (Password : string)
| ShadowsocksAccount (Password : string) (Cipher : CipherType)
| Shadowsocks2022Account (Key : string)
| HysteriaAccount (Auth : string)
| WireguardPeer (PublicKey PreSharedKey : string) (AllowedIps : list string) (KeepAlive : string).

Definition duplicateEmailAccountTypes (a : account) : bool :=
  match a with ShadowsocksAccount _ _ | HysteriaAccount _ | WireguardPeer _ _ _ _ => true | _ => false end.

(** %T *)
Definition type_name (v : value) : string :=
  match v with
  | VNull => "<nil>" | VBool _ => "bool" | VNumber _ => "json.Number" | VString _ => "string" | VArray _ => "[]interface {}" | VObject _ => "map[string]interface {}"
  | VFloat _ _ => "float64" | VUint32 _ => "uint32" | VUint32s _ => "[]uint32" | VStrings _ => "[]string"
  end.
Definition wrong_type (key : string) (v : value) : string := "invalid type for user field " +:+ quoted key +:+ ": " +:+ type_name v.

Definition getRequiredUserString (user : object) (key : string) : string + string :=
  match field key user with
  | None | Some VNull => inl ("missing required user field " +:+ quoted key)
  | Some (VString s) => inr s
  | Some v => inl (wrong_type key v)
  end.
Definition getOptionalUserString (user : object) (key : string) : string + string :=
  match field key user with
  | None | Some VNull => inr ""
  | Some (VString s) => inr s
  | Some v => inl (wrong_type key v)
  end.

Definition collectStringSlice (v : option value) : list string :=
  match v with
  | Some (VStrings l) => filter (fun s => s <> "") l
  | Some (VArray l) => omap (fun e => match e with VString s => if bool_decide (s = "") then None else Some s | _ => None end) l
  | _ => []
  end.

Definition shadowsocks2022Ciphers : list string := ["2022-blake3-aes-128-gcm"; "2022-blake3-aes-256-gcm"; "2022-blake3-chacha20-poly1305"].
Definition isShadowsocks2022Cipher (cipher : string) : bool := bool_decide (ToLower cipher ∈ shadowsocks2022Ciphers).
Definition shadowsocksCipherType (cipher : string) : CipherType :=
  let c := ToLower cipher in
  if bool_decide (c ∈ ["aes-128-gcm"; "aead_aes_128_gcm"]) then AES_128_GCM
  else if bool_decide (c ∈ ["aes-256-gcm"; "aead_aes_256_gcm"]) then AES_256_GCM
  else if bool_decide (c ∈ ["chacha20-poly1305"; "aead_chacha20_poly1305"; "chacha20-ietf-poly1305"]) then CHACHA20_POLY1305
  else if bool_decide (c ∈ ["xchacha20-poly1305"; "aead_xchacha20_poly1305"; "xchacha20-ietf-poly1305"]) then XCHACHA20_POLY1305
  else CipherType_UNKNOWN.

(** Errors as [inl]. *)
Definition try {A B} (x : string + A) (f : A -> string + B) : string + B := match x with inl e => inl e | inr a => f a end.

Definition shadowsocksCipherName (user : object) : string + string :=
  try (getOptionalUserString user "cipher") (fun cipher => if bool_decide (cipher = "") then getOptionalUserString user "method" else inr cipher).

Definition vlessFlowVision : string := "xtls-rprx-vision".
Definition vlessFlowVisionUDP443 : string := "xtls-rprx-vision-udp443".

(** uint32 of a number: only a float64 is one here; the rest stay zero. *)
Definition uint32_of (v : value) : Z := match v with VFloat n d => (n / Z.pos d) mod 2 ^ 32 | _ => 0 end.
Definition testseed_of (v : option value) : list Z :=
  match v with
  | Some (VArray l) => if 4 <=? Z.of_nat (length l) then uint32_of <$> l else []
  | Some (VUint32s l) => if 4 <=? Z.of_nat (length l) then l else []
  | _ => []
  end.
Definition testpre_of (v : option value) : Z :=
  match v with
  | Some (VFloat n d) => if 0 <? n then (n / Z.pos d) mod 2 ^ 32 else 0
  | Some (VUint32 n) => if 0 <? n then n else 0
  | _ => 0
  end.

Definition key_hex (name key : string) : string + string :=
  match KeyToHex (String.list_ascii_of_string key) with inl e => inl ("wireguard " +:+ name +:+ ": " +:+ e) | inr t => inr (String.string_of_list_ascii t) end.

Section Accounts.
Context `{!JSONText}.

Definition reverseTag (v : option value) : string :=
  match v with
  | None | Some VNull => ""
  | Some v => default "" (unmarshal_tag (Marshal v))
  end.

(** No account, and no error, for a protocol that cannot be altered live. *)
Definition buildUserAccount (protocolName : string) (user : object) : string + option account :=
  if bool_decide (protocolName = "vmess") then try (getRequiredUserString user "id") (fun userID => inr (Some (VmessAccount userID)))
  else if bool_decide (protocolName = "vless") then
    try (getRequiredUserString user "id") (fun userID =>
    try (getOptionalUserString user "flow") (fun userFlow =>
    let userFlow := if bool_decide (userFlow = vlessFlowVisionUDP443) then vlessFlowVision else userFlow in
    let tag := reverseTag (field "reverse" user) in
    inr (Some (VlessAccount userID userFlow (if bool_decide (tag = "") then None else Some tag) (testseed_of (field "testseed" user)) (testpre_of (field "testpre" user))))))
  else if bool_decide (protocolName = "trojan") then try (getRequiredUserString user "password") (fun password => inr (Some (TrojanAccount password)))
  else if bool_decide (protocolName = "shadowsocks") then
    try (shadowsocksCipherName user) (fun cipher =>
    try (getRequiredUserString user "password") (fun password =>
    if isShadowsocks2022Cipher cipher then inr (Some (Shadowsocks2022Account password))
    else match shadowsocksCipherType cipher with
         | CipherType_UNKNOWN => inl ("shadowsocks: unknown cipher " +:+ quoted cipher +:+ ", cannot build an account for the running inbound")
         | ct => inr (Some (ShadowsocksAccount password ct))
         end))
  else if bool_decide (protocolName = "hysteria") then try (getRequiredUserString user "auth") (fun auth => inr (Some (HysteriaAccount auth)))
  else if bool_decide (protocolName = "wireguard") then
    try (getRequiredUserString user "publicKey") (fun pubB64 =>
    try (key_hex "publicKey" pubB64) (fun pubHex =>
    try (getOptionalUserString user "preSharedKey") (fun pskB64 =>
    try (key_hex "preSharedKey" pskB64) (fun pskHex =>
    match collectStringSlice (field "allowedIPs" user) with
    | [] => inl ("wireguard: allowedIPs required" +:+ nl)
    | allowed => try (getOptionalUserString user "keepAlive") (fun keepAlive => inr (Some (WireguardPeer pubHex pskHex allowed keepAlive)))
    end))))
  else inr None.
End Accounts.

(** ** The core *)

(** An inbound the core serves: what its listener is made of, and its users by email. *)
Record handler := mkHandler {
  h_port : Z; h_protocol : string; h_listen : option string; h_stream : option string; h_sniffing : option string;
  h_settings : bool * option string; h_users : gmap string account }.

(** Its configuration loader: an inbound with its tag, an outbound with its tag and
    canonical text, the rules and balancers of a routing section; and the account the
    loader makes of a client of an inbound's settings. *)
Class Conf := {
  Rules : Type;
  build_inbound : string -> string + string * handler;
  build_outbound : string -> string + string * string;
  build_routing : string -> string + Rules;
  conf_account : string -> object -> account }.

(** HandlerService and RoutingService; [AddRule] replaces ([ShouldAppend: false]). *)
Class XrayCore (S : Type) `{!Conf} := {
  rpc_AddInbound : S -> string * handler -> S * option string;
  rpc_RemoveInbound : S -> string -> S * option string;
  rpc_AddOutbound : S -> string * string -> S * option string;
  rpc_RemoveOutbound : S -> string -> S * option string;
  rpc_AddUser : S -> string -> string -> account -> S * option string;
  rpc_RemoveUser : S -> string -> string -> S * option string;
  rpc_AddRule : S -> Rules -> S * option string }.

(** ** The methods *)

(** Which clients are connected. *)
Record XrayAPI := mkAPI { HandlerServiceClient : bool; RoutingServiceClient : bool }.

Section Methods.
Context `{!JSONText, !Conf} {S : Type} `{!XrayCore S}.

Definition no_handler_service : string := "xray HandlerServiceClient is not initialized" +:+ nl.
Definition no_routing_service : string := "xray RoutingServiceClient is not initialized" +:+ nl.

Definition AddInbound (x : XrayAPI) (s : S) (inbound : string) : S * option string :=
  if negb (HandlerServiceClient x) then (s, Some no_handler_service)
  else match build_inbound inbound with inl err => (s, Some err) | inr config => rpc_AddInbound s config end.
Definition DelInbound (x : XrayAPI) (s : S) (tag : string) : S * option string :=
  if negb (HandlerServiceClient x) then (s, Some no_handler_service) else rpc_RemoveInbound s tag.
Definition AddOutbound (x : XrayAPI) (s : S) (outbound : string) : S * option string :=
  if negb (HandlerServiceClient x) then (s, Some no_handler_service)
  else match build_outbound outbound with inl err => (s, Some err) | inr config => rpc_AddOutbound s config end.
Definition DelOutbound (x : XrayAPI) (s : S) (tag : string) : S * option string :=
  if negb (HandlerServiceClient x) then (s, Some no_handler_service) else rpc_RemoveOutbound s tag.
Definition ApplyRoutingConfig (x : XrayAPI) (s : S) (routing : string) : S * option string :=
  if negb (RoutingServiceClient x) then (s, Some no_routing_service)
  else match build_routing routing with inl err => (s, Some err) | inr config => rpc_AddRule s config end.

Definition RemoveUser (x : XrayAPI) (s : S) (inboundTag email : string) : S * option string :=
  if negb (HandlerServiceClient x) then (s, Some no_handler_service)
  else let '(s1, err) := rpc_RemoveUser s inboundTag email in (s1, (fun e => "failed to remove user: " +:+ e) <$> err).

Definition AddUser (x : XrayAPI) (s : S) (Protocol inboundTag : string) (user : object) : S * option string :=
  match getRequiredUserString user "email" with
  | inl err => (s, Some err)
  | inr userEmail =>
      match buildUserAccount Protocol user with
      | inl err => (s, Some err)
      | inr None => (s, None)
      | inr (Some account) =>
          if negb (HandlerServiceClient x) then (s, Some no_handler_service)
          else
            let s := if duplicateEmailAccountTypes account then (RemoveUser x s inboundTag userEmail).1 else s in
            rpc_AddUser s inboundTag userEmail account
      end
  end.
End Methods.
