(* ===== verification/TunnelMonitor.v ===== *)
(** * Watching a tunnel: tunnelmonitor/monitor.go

    A probe that fails a configured number of times in a row restarts the core, and not
    again before a cooldown has passed.  A step is given what its probe met (no answer, or
    an HTTP status), the clock, and what the recovery function would answer; durations are
    nanoseconds.  time.ParseDuration is a parameter; case folding and the spaces trimmed
    are those of ASCII.  The count of failures is an unbounded integer: it grows by one a
    probe. *)
From S2P Require Import Prelude Decimal XrayApi.
Open Scope string_scope.
Open Scope Z_scope.
Open Scope list_scope.

(** ** Configuration *)

Definition defaultHealthURL : string := "https://www.cloudflare.com/cdn-cgi/trace".
Definition defaultInterval : Z := 30 * Second.
Definition defaultTimeout : Z := 10 * Second.
Definition defaultFailureThreshold : Z := 3.
Definition defaultCooldown : Z := 300 * Second.

Record MonitorConfig := mkMonitorConfig { Enabled : bool; URL : string; ProxyURL : string; Interval : Z; Timeout : Z; FailureThreshold : Z; Cooldown : Z }.
Definition DefaultConfig : MonitorConfig := mkMonitorConfig false defaultHealthURL "" defaultInterval defaultTimeout defaultFailureThreshold defaultCooldown.

Definition Normalize (c : MonitorConfig) : MonitorConfig :=
  mkMonitorConfig (Enabled c) (if bool_decide (TrimSpace (URL c) = "") then TrimSpace defaultHealthURL else TrimSpace (URL c)) (TrimSpace (ProxyURL c))
    (if Interval c <? Second then defaultInterval else Interval c) (if Timeout c <? Second then defaultTimeout else Timeout c)
    (if FailureThreshold c <? 1 then defaultFailureThreshold else FailureThreshold c) (if Cooldown c <? Second then defaultCooldown else Cooldown c).

Definition parseBool (value : string) : bool := bool_decide (ToLower (TrimSpace value) ∈ ["1"; "true"; "yes"; "y"; "on"; "enable"; "enabled"]).
Definition firstNonEmpty (value fallback : string) : string := if bool_decide (TrimSpace value = "") then fallback else TrimSpace value.

Section Environment.
Context (ParseDuration : string -> option Z) (Getenv : string -> string).

Definition parseDurationEnv (name : string) (fallback : Z) : Z :=
  let value := TrimSpace (Getenv name) in if bool_decide (value = "") then fallback else default fallback (ParseDuration value).
Definition parseIntEnv (name : string) (fallback : Z) : Z :=
  let value := TrimSpace (Getenv name) in if bool_decide (value = "") then fallback else default fallback (Atoi value).
Definition ConfigFromEnv : MonitorConfig :=
  let cfg := DefaultConfig in
  Normalize (mkMonitorConfig (parseBool (Getenv "PUI_TUNNEL_HEALTH_MONITOR")) (firstNonEmpty (Getenv "PUI_TUNNEL_HEALTH_URL") (URL cfg))
    (TrimSpace (Getenv "PUI_TUNNEL_HEALTH_PROXY")) (parseDurationEnv "PUI_TUNNEL_HEALTH_INTERVAL" (Interval cfg))
    (parseDurationEnv "PUI_TUNNEL_HEALTH_TIMEOUT" (Timeout cfg)) (parseIntEnv "PUI_TUNNEL_HEALTH_FAILURES" (FailureThreshold cfg))
    (parseDurationEnv "PUI_TUNNEL_HEALTH_COOLDOWN" (Cooldown cfg))).
End Environment.

(** ** The monitor *)

(** [recover] is [None] when no function is configured, else whether it would succeed. *)
Record Tick := mkTick { status : option Z; now : Z; recover : option bool }.
Record Monitor := mkMonitor { cfg : MonitorConfig; failures : Z; lastRecovery : option Z }.
Inductive monitor_error := NilMonitor | ProbeFailed (n threshold : Z) | CooldownActive (n threshold : Z) | NoRecovery | RecoveryFailed | ProbeError.

Definition newWithClient (c : MonitorConfig) : Monitor := mkMonitor (Normalize c) 0 None.
Definition probe (t : Tick) : bool := match status t with Some code => negb ((code <? 200) || (400 <=? code)) | None => false end.

Definition Step (m : Monitor) (t : Tick) : Monitor * (bool * option monitor_error) :=
  if probe t then (mkMonitor (cfg m) 0 (lastRecovery m), (false, None))
  else
    let n := failures m + 1 in
    let threshold := FailureThreshold (cfg m) in
    if n <? threshold then (mkMonitor (cfg m) n (lastRecovery m), (false, Some (ProbeFailed n threshold)))
    else if match lastRecovery m with Some last => now t - last <? Cooldown (cfg m) | None => false end then
      (mkMonitor (cfg m) threshold (lastRecovery m), (false, Some (CooldownActive threshold threshold)))
    else match recover t with
         | None => (mkMonitor (cfg m) threshold (lastRecovery m), (false, Some NoRecovery))
         | Some false => (mkMonitor (cfg m) n (lastRecovery m), (false, Some RecoveryFailed))
         | Some true => (mkMonitor (cfg m) 0 (Some (now t)), (true, Some ProbeError))
         end.
(** [Step] of a possibly nil monitor; [Run] steps at every tick while it is enabled. *)
Definition StepNil (m : option Monitor) (t : Tick) : option Monitor * (bool * option monitor_error) :=
  match m with None => (None, (false, Some NilMonitor)) | Some m => let '(m', r) := Step m t in (Some m', r) end.
Fixpoint steps (m : Monitor) (l : list Tick) : list (Tick * bool) :=
  match l with
  | [] => []
  | t :: rest => let '(m', (recovered, _)) := Step m t in (t, recovered) :: steps m' rest
  end.
Definition Run (m : option Monitor) (l : list Tick) : list (Tick * bool) :=
  match m with Some m => if Enabled (cfg m) then steps m l else [] | None => [] end.

(** ** Restarts are earned and spaced *)

Definition quiet (x : Tick * bool) : Prop := probe x.1 = false /\ x.2 = false.
(** What a restart at [t], after the steps [pre], requires. *)
Definition earned (c : MonitorConfig) (pre : list (Tick * bool)) (t : Tick) : Prop :=
  probe t = false /\ (exists before w, pre = before ++ w /\ Z.of_nat (length w) + 1 = FailureThreshold c /\ Forall quiet w) /\
  forall before t' w, pre = before ++ (t', true) :: w -> Forall (fun x => x.2 = false) w -> Cooldown c <= now t - now t'.

(** The monitor after the steps [pre]: it counts failures at their end, and remembers the last restart. *)
Record tracks (c : MonitorConfig) (m : Monitor) (pre : list (Tick * bool)) : Prop := {
  tr_cfg : cfg m = c;
  tr_count : exists before w, pre = before ++ w /\ Z.of_nat (length w) = failures m /\ Forall quiet w;
  tr_last : forall before t' w, pre = before ++ (t', true) :: w -> Forall (fun x => x.2 = false) w -> lastRecovery m = Some (now t') }.

Lemma Normalize_bounds c : 1 <= FailureThreshold (Normalize c) /\ Second <= Cooldown (Normalize c) /\ Second <= Interval (Normalize c) /\ Second <= Timeout (Normalize c).
Proof. unfold Normalize, defaultFailureThreshold, defaultCooldown, defaultInterval, defaultTimeout, Second. cbn. repeat case_match; bools; lia. Qed.

(** The last [k] of a run of quiet steps. *)
Lemma quiet_suffix (pre before w : list (Tick * bool)) k : pre = before ++ w -> Forall quiet w -> 0 <= k <= Z.of_nat (length w) ->
  exists before' w', pre = before' ++ w' /\ Z.of_nat (length w') = k /\ Forall quiet w'.
Proof.
  intros -> Hw Hk. exists (before ++ take (length w - Z.to_nat k) w), (drop (length w - Z.to_nat k) w). rewrite <-app_assoc, take_drop. split_and!; [done|rewrite length_drop; lia|by apply Forall_drop].
Qed.

(** The last restart of a run that ends with a step that was none. *)
Lemma last_restart_before (pre before : list (Tick * bool)) x t' w : pre ++ [x] = before ++ (t', true) :: w -> Forall (fun x => x.2 = false) w -> x.2 = false ->
  exists w', pre = before ++ (t', true) :: w' /\ Forall (fun x => x.2 = false) w'.
Proof.
  intros E Hw Hx. destruct w as [|y w' _] using rev_ind.
  - apply app_inj_tail in E as [_ ->]. done.
  - rewrite app_comm_cons, app_assoc in E. apply app_inj_tail in E as [-> _]. apply Forall_app in Hw as [Hw _]. eauto.
Qed.

Lemma tracks_step c m pre t m' recovered err : 1 <= FailureThreshold c -> tracks c m pre -> Step m t = (m', (recovered, err)) ->
  tracks c m' (pre ++ [(t, recovered)]) /\ (recovered = true -> earned c pre t).
Proof.
  intros Hc [Ecfg (before & w & Epre & Hlen & Hw) Hlast] E. unfold Step in E. rewrite Ecfg in E.
  assert (forall r k, r = false -> probe t = false -> 0 <= k <= failures m + 1 -> exists before w, pre ++ [(t, r)] = before ++ w /\ Z.of_nat (length w) = k /\ Forall quiet w) as Hgrow.
  { intros r k -> Hp Hk. apply (quiet_suffix _ before (w ++ [(t, false)])); [by rewrite Epre, app_assoc|by apply Forall_app; split; [|repeat constructor]|rewrite length_app; cbn; lia]. }
  assert (forall r, r = false -> forall before t' w, pre ++ [(t, r)] = before ++ (t', true) :: w -> Forall (fun x => x.2 = false) w -> lastRecovery m = Some (now t')) as Hkeep.
  { intros r -> b t' w' Ew Hw'. destruct (last_restart_before _ _ _ _ _ Ew Hw' eq_refl) as (w0 & E0 & Hw0). eapply Hlast; eauto. }
  destruct (probe t) eqn:Ep. { injection E as <- <- <-. split; [|done]. split; cbn; [done| |by apply Hkeep]. exists (pre ++ [(t, false)]), []. rewrite app_nil_r. by repeat constructor. }
  destruct (_ <? _) eqn:Et. { injection E as <- <- <-. split; [|done]. bools. split; cbn; [done|apply Hgrow; [done|done|lia]|by apply Hkeep]. }
  bools. destruct (match lastRecovery m with Some _ => _ | None => false end) eqn:Ecd.
  { injection E as <- <- <-. split; [|done]. split; cbn; [done|apply Hgrow; [done|done|lia]|by apply Hkeep]. }
  destruct (recover t) as [[]|].
  - injection E as <- <- <-. split; [split; cbn; [done| |]|intros _; split_and!; [done| |]].
    + exists (pre ++ [(t, true)]), []. rewrite app_nil_r. by repeat constructor.
    + intros b t' w' Ew Hw'. destruct w' as [|y w'' _] using rev_ind; [by apply app_inj_tail in Ew as [_ [= ->]]|]. rewrite app_comm_cons, app_assoc in Ew. apply app_inj_tail in Ew as [_ <-].
      apply Forall_app in Hw' as [_ Hy]. inversion Hy as [|? ? Hf]. cbn in Hf. discriminate Hf.
    + destruct (quiet_suffix pre before w (FailureThreshold c - 1)) as (b & w' & ? & ? & ?); [done|done|lia|]. exists b, w'. split_and!; [done|lia|done].
    + intros b t' w' Ew Hw'. rewrite (Hlast _ _ _ Ew Hw') in Ecd. by apply Z.ltb_ge in Ecd.
  - injection E as <- <- <-. split; [|done]. split; cbn; [done|apply Hgrow; [done|done|lia]|by apply Hkeep].
  - injection E as <- <- <-. split; [|done]. split; cbn; [done|apply Hgrow; [done|done|lia]|by apply Hkeep].
Qed.
Lemma steps_earned c : 1 <= FailureThreshold c -> forall l m pre, tracks c m pre -> forall done_ t rest, steps m l = done_ ++ (t, true) :: rest -> earned c (pre ++ done_) t.
Proof.
  intros Hc. induction l as [|x l IH]; intros m pre Htr done_ t rest E; cbn in E; [by destruct done_|]. destruct (Step m x) as [m' [r err]] eqn:Es.
  destruct (tracks_step _ _ _ _ _ _ _ Hc Htr Es) as [Htr' He]. destruct done_ as [|d done_]; injection E as E1 E2.
  - subst x r. rewrite app_nil_r. by apply He.
  - subst d. rewrite (app_assoc pre [_] done_ : pre ++ (x, r) :: done_ = _). eapply IH; eauto.
Qed.

(** Over any run, whatever the probes meet and whatever the recovery function answers, the
    monitor restarts the core only after the configured number of probes has failed in a
    row, none of them having restarted it, and never before the cooldown since the last
    restart has passed; threshold and cooldown are at least one and one second. *)
Theorem restarts_are_earned_and_spaced c l done_ t rest : Run (Some (newWithClient c)) l = done_ ++ (t, true) :: rest ->
  1 <= FailureThreshold (Normalize c) /\ Second <= Cooldown (Normalize c) /\ earned (Normalize c) done_ t.
Proof.
  intros H. pose proof (Normalize_bounds c) as (B1 & B2 & _). split; [done|]. split; [done|]. unfold Run in H. destruct (Enabled _); [|by destruct done_].
  apply (steps_earned (Normalize c) B1 l (newWithClient c) []) in H; [done|]. split; [done|exists [], []; done|]. intros b t' w E. by destruct b.
Qed.

(** A run of failing probes does restart it, when the function succeeds and no cooldown holds. *)
Lemma restart_follows m t : probe t = false -> FailureThreshold (cfg m) <= failures m + 1 -> recover t = Some true ->
  (forall last, lastRecovery m = Some last -> Cooldown (cfg m) <= now t - last) -> Step m t = (mkMonitor (cfg m) 0 (Some (now t)), (true, Some ProbeError)).
Proof.
  intros Hp Hn Hr Hl. unfold Step. rewrite Hp, (proj2 (Z.ltb_ge _ _)), Hr by lia. destruct (lastRecovery m) as [last|]; [|done]. by rewrite (proj2 (Z.ltb_ge _ _)) by (by apply Hl).
Qed.

Definition sample_ticks : list Tick :=
  (fun n => mkTick None (n * 30 * Second) (Some true)) <$> [1; 2; 3; 4; 5; 6; 7; 8; 9; 10; 11; 12; 13; 14].
Definition sample_config : MonitorConfig := mkMonitorConfig true "" "" 0 0 0 0.
Lemma restarts_are_earned_and_spaced_witness :
  (fun x => x.2) <$> Run (Some (newWithClient sample_config)) sample_ticks = [false; false; true; false; false; false; false; false; false; false; false; false; true; false] /\
  earned (Normalize sample_config) (take 12 (Run (Some (newWithClient sample_config)) sample_ticks)) (mkTick None (13 * 30 * Second) (Some true)).
Proof.
  split; [vm_compute; reflexivity|].
  refine (proj2 (proj2 (restarts_are_earned_and_spaced sample_config sample_ticks (take 12 (Run (Some (newWithClient sample_config)) sample_ticks)) (mkTick None (13 * 30 * Second) (Some true))
    (drop 13 (Run (Some (newWithClient sample_config)) sample_ticks)) _))). vm_compute. reflexivity.
Defined.
