(* ===== verification/HotApply.v ===== *)
(** * Applying a diff to a running core: xray/hot_apply.go

    The calls [ApplyHotDiff] makes, and what a core that was started with a configuration
    is running ([meaning]): the measure of a hot application.  [ConfLaws] and [XrayLaws]
    say what the core documents of its loader and of its services, a call's effect being
    on what the instance runs ([Running]); a call may fail for any other reason too, and
    an instance may hold part of a change already ([between]). *)
From S2P Require Import Prelude HotDiff XrayApi.
Open Scope string_scope.
Open Scope Z_scope.
Open Scope list_scope.

Section Apply.
Context `{!JSONText, !Conf} {S : Type} `{!XrayCore S}.

Definition tagOf (raw : string) : option string :=
  match unmarshal_tag raw with Some t => if bool_decide (t = "") then None else Some t | None => None end.

(** Add; when it is there already, remove it and add it again. *)
Definition reconciling (add : S -> S * option string) (exists_ : option string -> bool) (del : option (S -> S * option string)) (s : S) : S * option string :=
  let '(s1, err) := add s in
  if bool_decide (err = None) || negb (exists_ err) then (s1, err)
  else match del with
       | None => (s1, err)
       | Some del =>
           let '(s2, delErr) := del s1 in
           if negb (bool_decide (delErr = None)) && negb (IsMissingHandlerErr delErr) then (s2, delErr) else add s2
       end.

Definition addUserReconciling (x : XrayAPI) (s : S) (u : UserOp) : S * option string :=
  reconciling (fun s => AddUser x s (uProtocol u) (uTag u) (default [] (uUser u))) IsUserExistsErr (Some (fun s => RemoveUser x s (uTag u) (uEmail u))) s.
Definition addInboundReconciling (x : XrayAPI) (s : S) (inbound : string) : S * option string :=
  reconciling (fun s => AddInbound x s inbound) IsExistingTagErr ((fun t s => DelInbound x s t) <$> tagOf inbound) s.
Definition addOutboundReconciling (x : XrayAPI) (s : S) (outbound : string) : S * option string :=
  reconciling (fun s => AddOutbound x s outbound) IsExistingTagErr ((fun t s => DelOutbound x s t) <$> tagOf outbound) s.

(** A loop that stops at the first failure; to find nothing to remove is not one. *)
Definition removed (r : S * option string) : S * bool := (r.1, bool_decide (r.2 = None) || IsMissingHandlerErr r.2).
Definition added (r : S * option string) : S * bool := (r.1, bool_decide (r.2 = None)).
Fixpoint calls {A} (f : S -> A -> S * bool) (s : S) (l : list A) : S * bool :=
  match l with
  | [] => (s, true)
  | x :: rest => let '(s1, ok) := f s x in if ok then calls f s1 rest else (s1, false)
  end.
Definition and_then (r : S * bool) (f : S -> S * bool) : S * bool := if r.2 then f r.1 else r.

Definition ApplyHotDiff (api : option XrayAPI) (diff : option HotDiff) (s : S) : S * bool :=
  match api, diff with
  | Some x, Some d =>
      let r := calls (fun s u => removed (RemoveUser x s (uTag u) (uEmail u))) s (RemovedUsers d) in
      let r := and_then r (fun s => calls (fun s t => removed (DelInbound x s t)) s (RemovedInboundTags d)) in
      let r := and_then r (fun s => calls (fun s t => removed (DelOutbound x s t)) s (RemovedOutboundTags d)) in
      let r := and_then r (fun s => calls (fun s ob => added (addOutboundReconciling x s ob)) s (AddedOutbounds d)) in
      let r := and_then r (fun s => calls (fun s ib => added (addInboundReconciling x s ib)) s (AddedInbounds d)) in
      let r := and_then r (fun s => calls (fun s u => added (addUserReconciling x s u)) s (AddedUsers d)) in
      and_then r (fun s => match RoutingConfig d with None => (s, true) | Some routing => added (ApplyRoutingConfig x s routing) end)
  | _, _ => (s, false)
  end.

(** ** The callers: web/service/xray.go, cores/internal/xray/core.go *)

(** A process: the configuration it is taken to run, the port of its API, and the core. *)
Record Process := mkProcess { p_config : option Config; p_apiPort : Z; p_core : S }.
Definition SetConfig (p : Process) (c : option Config) : Process := mkProcess c (p_apiPort p) (p_core p).
Definition set_core (p : Process) (s : S) : Process := mkProcess (p_config p) (p_apiPort p) s.

(** [restart] is the setting that a dropped client restarts the core, [init] what
    connecting to the API gave.  The egress pass that follows is not modelled. *)
Definition tryHotApply (restart : bool) (init : option XrayAPI) (p : Process) (newCfg : option Config) : Process * bool :=
  match ComputeHotDiff (p_config p) newCfg with
  | None => (p, false)
  | Some diff =>
      if Empty diff then (SetConfig p newCfg, true)
      else if DropsUsers diff && restart then (p, false)
      else if p_apiPort p <=? 0 then (p, false)
      else match init with
           | None => (p, false)
           | Some hotAPI =>
               let '(s, ok) := ApplyHotDiff (Some hotAPI) (Some diff) (p_core p) in
               if ok then (SetConfig (set_core p s) newCfg, true) else (set_core p s, false)
           end
  end.

(** [bindings] is what checking the new configuration's listeners reported. *)
Definition hotApply (bindings : option string) (api : option XrayAPI) (p : Process) (newCfg : option Config) : Process * (bool * option string) :=
  match bindings with
  | Some err => (p, (false, Some err))
  | None =>
      match ComputeHotDiff (p_config p) newCfg with
      | None => (p, (false, None))
      | Some diff =>
          if Empty diff then (SetConfig p newCfg, (true, None))
          else match api with
               | None => (p, (false, None))
               | Some api =>
                   let '(s, ok) := ApplyHotDiff (Some api) (Some diff) (p_core p) in
                   if ok then (SetConfig (set_core p s) newCfg, (true, None)) else (set_core p s, (false, None))
               end
      end
  end.
End Apply.
Arguments Process : clear implicits.

(** ** What an instance is running *)

(** Sections fixed at the start, inbounds and outbounds by tag, the default outbound, and
    routing: what is fixed, and the rules. *)
Record Running `{!Conf} := mkRunning {
  r_static : list (option string); r_inbounds : gmap string handler; r_default : option string; r_outbounds : gmap string string;
  r_rest : option string; r_rules : option Rules }.

Section Meaning.
Context `{!JSONText, !Conf}.

Definition put_inbounds (f : gmap string handler -> gmap string handler) (r : Running) : Running :=
  mkRunning _ (r_static r) (f (r_inbounds r)) (r_default r) (r_outbounds r) (r_rest r) (r_rules r).
Definition put_outbounds (f : gmap string string -> gmap string string) (r : Running) : Running :=
  mkRunning _ (r_static r) (r_inbounds r) (r_default r) (f (r_outbounds r)) (r_rest r) (r_rules r).
Definition put_rules (x : option Rules) (r : Running) : Running :=
  mkRunning _ (r_static r) (r_inbounds r) (r_default r) (r_outbounds r) (r_rest r) x.
Definition on_users (f : gmap string account -> gmap string account) (h : handler) : handler :=
  mkHandler (h_port h) (h_protocol h) (h_listen h) (h_stream h) (h_sniffing h) (h_settings h) (f (h_users h)).
Definition user_at (r : Running) (t e : string) : option account := h ← r_inbounds r !! t; h_users h !! e.

Definition handler_of (ib : InboundConfig) : handler :=
  match splitSettingsClients (Settings ib) with
  | Some (clients, rest) => mkHandler (Port ib) (Protocol ib) (canonicalJSON (Listen ib)) (canonicalJSON (StreamSettings ib)) (canonicalJSON (Sniffing ib))
                              (true, Some rest) ((fun c => conf_account (Protocol ib) (user c)) <$> clients)
  | None => mkHandler (Port ib) (Protocol ib) (canonicalJSON (Listen ib)) (canonicalJSON (StreamSettings ib)) (canonicalJSON (Sniffing ib))
              (false, canonicalJSON (Settings ib)) ∅
  end.

(** An instance that was started with the configuration. *)
Definition meaning (c : Config) : Running :=
  let out := default [] (parseOutbounds (OutboundConfigs c)) in
  mkRunning _ (canonicalJSON <$> static c) (list_to_map ((fun ib => (Tag ib, handler_of ib)) <$> InboundConfigs c)) (tag <$> head out)
    (onorm <$> entries_by_tag out) (routingWithoutReloadable (RouterConfig c)) (match build_routing (RouterConfig c) with inr x => Some x | inl _ => None end).

(** A handler of one kind whose users are each as before or as after. *)
Definition users_between (o n h : handler) : Prop :=
  h = on_users (fun _ => h_users h) o /\ n = on_users (fun _ => h_users n) o /\ forall e, h_users h !! e = h_users o !! e \/ h_users h !! e = h_users n !! e.

(** An instance that holds any part of the change from [o] to [n]: all of it, nothing, or
    what a call that failed, or another caller of the API, left there. *)
Record between (o n r : Running) : Prop := {
  bt_static : r_static r = r_static o;
  bt_default : r_default r = r_default o;
  bt_rest : r_rest r = r_rest o;
  bt_rules : r_rules r = r_rules o \/ r_rules r = r_rules n;
  bt_outbounds : forall t, r_outbounds r !! t = r_outbounds o !! t \/ r_outbounds r !! t = r_outbounds n !! t;
  bt_inbounds : forall t, r_inbounds r !! t = r_inbounds o !! t \/ r_inbounds r !! t = r_inbounds n !! t \/
    exists ho hn h, r_inbounds o !! t = Some ho /\ r_inbounds n !! t = Some hn /\ r_inbounds r !! t = Some h /\ users_between ho hn h }.

(** ** What encoding/json and the core document *)

(** A decoded value, or a part of one. *)
Inductive part : value -> value -> Prop :=
| part_whole v : part v v
| part_field v k w o : field k o = Some w -> part v w -> part v (VObject o)
| part_element v w l : w ∈ l -> part v w -> part v (VArray l).
Definition decoded (v : value) : Prop := exists t w, Decode t = Some w /\ part v w.

Class JSONLaws : Prop := {
  Marshal_inj : forall v v', decoded v -> decoded v' -> Marshal v = Marshal v' -> v = v';
  Marshal_text : forall v, Marshal v <> "";
  marshal_tag : forall ib raw, marshal_inbound ib = Some raw -> unmarshal_tag raw = Some (Tag ib) }.

(** A client whose account the panel can build as the core would: no test numbers, which
    it reads only as float64, and a flow an inbound knows. *)
Definition plain_user (u : object) : Prop :=
  field "testseed" u = None /\ field "testpre" u = None /\ field "flow" u <> Some (VString vlessFlowVisionUDP443).

(** The loader: an inbound and an outbound as written, and the account of a client by
    protocol: its id, password or auth, and for vless its flow and the tag of its reverse. *)
Class ConfLaws : Prop := {
  build_inbound_law : forall ib raw c, marshal_inbound ib = Some raw -> build_inbound raw = inr c -> c = (Tag ib, handler_of ib);
  build_outbound_law : forall raw t n c, unmarshal_tag raw = Some t -> canonicalJSON raw = Some n -> build_outbound raw = inr c -> c = (t, n);
  conf_vmess : forall u id, field "id" u = Some (VString id) -> conf_account "vmess" u = VmessAccount id;
  conf_vless : forall u id flow, plain_user u -> field "id" u = Some (VString id) -> getOptionalUserString u "flow" = inr flow ->
    conf_account "vless" u = VlessAccount id flow (let t := reverseTag (field "reverse" u) in if bool_decide (t = "") then None else Some t) [] 0;
  conf_trojan : forall u pw, field "password" u = Some (VString pw) -> conf_account "trojan" u = TrojanAccount pw;
  conf_hysteria : forall u auth, field "auth" u = Some (VString auth) -> conf_account "hysteria" u = HysteriaAccount auth }.

(** The services.  An outbound added where there is none would become the default; a user
    is added under an email that is free or, where the inbound indexes its users by
    credential, is held by the same account. *)
Class XrayLaws (S : Type) `{!XrayCore S} := {
  running : S -> Running;
  AddInbound_law : forall s c, let '(s', err) := rpc_AddInbound s c in
    (err = None -> running s' = put_inbounds (insert c.1 c.2) (running s)) /\ (IsExistingTagErr err = true -> running s' = running s);
  RemoveInbound_law : forall s t, let '(s', err) := rpc_RemoveInbound s t in
    err = None \/ IsMissingHandlerErr err = true -> running s' = put_inbounds (delete t) (running s);
  AddOutbound_law : forall s c, is_Some (r_default (running s)) -> let '(s', err) := rpc_AddOutbound s c in
    (err = None -> running s' = put_outbounds (insert c.1 c.2) (running s)) /\ (IsExistingTagErr err = true -> running s' = running s);
  RemoveOutbound_law : forall s t, r_default (running s) <> Some t -> let '(s', err) := rpc_RemoveOutbound s t in
    err = None \/ IsMissingHandlerErr err = true -> running s' = put_outbounds (delete t) (running s);
  AddUser_law : forall s t e a, (duplicateEmailAccountTypes a = true -> user_at (running s) t e = None \/ user_at (running s) t e = Some a) ->
    let '(s', err) := rpc_AddUser s t e a in
    (err = None -> running s' = put_inbounds (alter (on_users (insert e a)) t) (running s)) /\ (IsUserExistsErr err = true -> running s' = running s);
  RemoveUser_law : forall s t e, let '(s', err) := rpc_RemoveUser s t e in
    (err = None \/ IsMissingHandlerErr err = true -> running s' = put_inbounds (alter (on_users (delete e)) t) (running s)) /\
    (running s' = running s \/ running s' = put_inbounds (alter (on_users (delete e)) t) (running s));
  AddRule_law : forall s x, let '(s', err) := rpc_AddRule s x in err = None -> running s' = put_rules (Some x) (running s) }.
End Meaning.
