(* ===== verification/HotFacts.v ===== *)
(** * What a diff says, tag by tag

    The operations a diff holds for one inbound ([view]), and that carrying them out on a
    handler that holds any part of the change makes it the new one; the same for the
    users of an inbound. *)
From S2P Require Import Prelude HotDiff XrayApi HotApply.
Open Scope string_scope.
Open Scope Z_scope.
Open Scope list_scope.

Section Facts.
Context {HJ : JSONText} {HC : Conf} {HL : JSONLaws}.

(** ** Sections *)

Lemma rawEqual_canonical a b : rawEqualNormalized a b = true -> canonicalJSON a = canonicalJSON b.
Proof.
  unfold rawEqualNormalized. case_bool_decide; [by subst|]. cbn [orb]. destruct (canonicalJSON a), (canonicalJSON b); try done. case_bool_decide; congruence.
Qed.

(** A section read as null, or as a value. *)
Lemma canonical_cases raw t : canonicalJSON raw = Some t ->
  t = "" /\ (raw = "" \/ Decode raw = Some VNull) \/ exists v, raw <> "" /\ Decode raw = Some v /\ v <> VNull /\ t = Marshal v.
Proof.
  unfold canonicalJSON. case_bool_decide; [intros [= <-]; auto|]. destruct (Decode raw) as [v|]; [|done].
  destruct v; intros [= <-]; [by auto|right; eexists; done..].
Qed.
Lemma decoded_whole t v : Decode t = Some v -> decoded v.
Proof. intros H. exists t, v. split; [done|constructor]. Qed.

Lemma rawEqual_split a b : rawEqualNormalized a b = true -> splitSettingsClients a = splitSettingsClients b.
Proof.
  intros H. pose proof (rawEqual_canonical _ _ H) as E. destruct (canonicalJSON a) as [t|] eqn:Ea.
  - symmetry in E. apply canonical_cases in Ea, E. unfold splitSettingsClients, decode_map. destruct Ea as [[-> Ha]|(v & Ha & Da & Na & ->)], E as [[E Hb]|(w & Hb & Db & Nb & E)].
    + destruct Ha as [-> |Da], Hb as [-> |Db]; rewrite ?Da, ?Db; repeat case_bool_decide; done.
    + by destruct (Marshal_text w).
    + by destruct (Marshal_text v).
    + rewrite !bool_decide_eq_false_2 by done. rewrite Da, Db. assert (v = w) as ->; [|done]. apply Marshal_inj; [by eapply decoded_whole..|done].
  - unfold rawEqualNormalized in H. rewrite Ea in H. rewrite orb_false_r, bool_decide_eq_true in H. by subst.
Qed.

Lemma equal_handlers a b : inboundEqualNormalized a b = true -> handler_of a = handler_of b.
Proof.
  unfold inboundEqualNormalized. rewrite !andb_true_iff, Z.eqb_eq, !bool_decide_eq_true. intros ((((((E1 & E2) & E3) & H1) & H2) & H3) & H4).
  unfold handler_of. rewrite (rawEqual_split _ _ H2), E1, E2. apply rawEqual_canonical in H1, H2, H3, H4. by rewrite H1, H2, H3, H4.
Qed.

(** ** Clients *)

Definition entry_ok (e : string) (c : clientEntry) : Prop :=
  norm c = Marshal (VObject (user c)) /\ field "email" (user c) = Some (VString e) /\ decoded (VObject (user c)).
Lemma index_clients_ok l : (forall v, v ∈ l -> decoded v) -> forall acc m, index_clients acc l = Some m -> map_Forall entry_ok acc -> map_Forall entry_ok m.
Proof.
  induction l as [|v l IH]; intros Hd acc m H Hacc; cbn in H; [by injection H as <-|]. destruct v as [| | | | |obj| | | |]; try done.
  destruct (field "email" obj) as [[| | |email| | | | | |]|] eqn:E; try done. do 2 (case_bool_decide; [done|]). apply IH in H; [done|intros v Hv; apply Hd; by right|].
  apply map_Forall_insert_2; [|done]. split_and!; [done..|]. apply Hd. by left.
Qed.
Lemma split_ok raw m rest : splitSettingsClients raw = Some (m, rest) -> map_Forall entry_ok m.
Proof.
  unfold splitSettingsClients. case_bool_decide; [done|]. unfold decode_map. destruct (Decode raw) as [[]|] eqn:Ed; try done.
  destruct (field "clients" fields) as [[| | | |l| | | | |]|] eqn:Ef; try done.
  destruct (index_clients ∅ l) as [m'|] eqn:E; [|done]. intros [= -> _]. eapply index_clients_ok; [|done|done].
  intros v Hv. exists raw, (VObject fields). split; [done|]. eapply part_field; [done|]. eapply part_element; [done|]. constructor.
Qed.
Lemma same_norm e e' c c' : entry_ok e c -> entry_ok e' c' -> norm c = norm c' -> user c = user c'.
Proof. intros (N & _ & D) (N' & _ & D') E. rewrite N, N' in E. apply Marshal_inj in E; [|done..]. congruence. Qed.

(** ** Operations on users *)

Definition op_account (u : UserOp) : account := conf_account (uProtocol u) (default [] (uUser u)).
Definition remove_users (l : list UserOp) (m : gmap string account) : gmap string account := foldl (fun m u => delete (uEmail u) m) m l.
Definition insert_users (l : list UserOp) (m : gmap string account) : gmap string account := foldl (fun m u => <[uEmail u := op_account u]> m) m l.

Lemma remove_users_lookup l m e : remove_users l m !! e = if bool_decide (e ∈ uEmail <$> l) then None else m !! e.
Proof.
  revert m. induction l as [|u l IH]; intros m; [done|]. cbn. fold (remove_users l (delete (uEmail u) m)). rewrite IH.
  destruct (decide (e = uEmail u)) as [->|Hne].
  - rewrite (bool_decide_eq_true_2 (uEmail u ∈ uEmail u :: _)) by left. case_bool_decide; [done|apply lookup_delete_eq].
  - rewrite lookup_delete_ne by done. rewrite (bool_decide_ext (e ∈ uEmail u :: _) (e ∈ uEmail <$> l)); [done|]. rewrite elem_of_cons. naive_solver.
Qed.
Lemma insert_users_lookup l m e (f : string -> option account) : (forall u, u ∈ l -> f (uEmail u) = Some (op_account u)) ->
  insert_users l m !! e = if bool_decide (e ∈ uEmail <$> l) then f e else m !! e.
Proof.
  revert m. induction l as [|u l IH]; intros m Hf; [done|]. cbn. fold (insert_users l (<[uEmail u := op_account u]> m)).
  rewrite IH by (intros x Hx; apply Hf; by right). destruct (decide (e = uEmail u)) as [->|Hne].
  - rewrite (bool_decide_eq_true_2 (uEmail u ∈ uEmail u :: _)) by left. case_bool_decide; [done|]. rewrite lookup_insert_eq. symmetry. apply Hf. by left.
  - rewrite lookup_insert_ne by done. rewrite (bool_decide_ext (e ∈ uEmail u :: _) (e ∈ uEmail <$> l)); [done|]. rewrite elem_of_cons. naive_solver.
Qed.

Definition removals (t p : string) (oc nc : gmap string clientEntry) : list UserOp := (fun c => mkUserOp t p c.1 None) <$> changed oc nc.
Definition additions (t p : string) (oc nc : gmap string clientEntry) : list UserOp :=
  omap (fun c => (fun n => mkUserOp t p c.1 (Some (user n))) <$> nc !! c.1) (changed oc nc) ++ ((fun c => mkUserOp t p c.1 (Some (user c.2))) <$> fresh oc nc).
Definition accounts (p : string) (m : gmap string clientEntry) : gmap string account := (fun c => conf_account p (user c)) <$> m.

Lemma elem_removals t p oc nc e : e ∈ uEmail <$> removals t p oc nc <-> exists c, oc !! e = Some c /\ differs nc (e, c).
Proof.
  unfold removals, changed. rewrite <-list_fmap_compose, list_elem_of_fmap. split.
  - intros ([e' c] & -> & [Hd Hin]%list_elem_of_filter). exists c. by apply elem_of_map_to_list in Hin.
  - intros (c & Hc & Hd). exists (e, c). split; [done|]. apply list_elem_of_filter. split; [done|]. by apply elem_of_map_to_list.
Qed.
Lemma elem_additions t p oc nc u : u ∈ additions t p oc nc ->
  uTag u = t /\ uProtocol u = p /\ exists n, nc !! uEmail u = Some n /\ uUser u = Some (user n) /\
  (oc !! uEmail u = None \/ exists c, oc !! uEmail u = Some c /\ differs nc (uEmail u, c)).
Proof.
  unfold additions. rewrite elem_of_app, list_elem_of_omap, list_elem_of_fmap. intros [([e c] & Hin & Hu)|([e c] & -> & Hin)]; cbn in *.
  - destruct (nc !! e) as [n|] eqn:En; [|done]. injection Hu as <-. cbn. split_and!; [done..|]. exists n. split_and!; [done..|]. right. exists c.
    apply list_elem_of_filter in Hin as [Hd Hin]. by apply elem_of_map_to_list in Hin.
  - apply list_elem_of_filter in Hin as [Hd Hin]. apply elem_of_map_to_list in Hin. cbn in *. split_and!; [done..|]. exists c. auto.
Qed.
Lemma additions_emails t p oc nc e n : nc !! e = Some n -> (oc !! e = None \/ exists c, oc !! e = Some c /\ norm c <> norm n) -> e ∈ uEmail <$> additions t p oc nc.
Proof.
  intros Hn H. apply list_elem_of_fmap. exists (mkUserOp t p e (Some (user n))). split; [done|]. unfold additions. rewrite elem_of_app, list_elem_of_omap, list_elem_of_fmap.
  destruct H as [H|(c & Hc & Hd)]; [right|left].
  - exists (e, n). split; [done|]. apply list_elem_of_filter. split; [done|]. by apply elem_of_map_to_list.
  - exists (e, c). cbn. rewrite Hn. split; [|done]. apply list_elem_of_filter. split; [unfold differs; cbn; by rewrite Hn|]. by apply elem_of_map_to_list.
Qed.

(** Removing and adding users makes users that are each as before or as after the new ones. *)
Lemma users_converge t p oc nc m : map_Forall entry_ok oc -> map_Forall entry_ok nc -> (forall e, m !! e = accounts p oc !! e \/ m !! e = accounts p nc !! e) ->
  insert_users (additions t p oc nc) (remove_users (removals t p oc nc) m) = accounts p nc.
Proof.
  intros Ho Hn Hm. apply map_eq. intros e. rewrite (insert_users_lookup _ _ _ (fun e => accounts p nc !! e)).
  2:{ intros u (_ & Hp & n & E & Hu & _)%elem_additions. unfold accounts, op_account. by rewrite lookup_fmap, E, Hu, Hp. }
  case_bool_decide as Ha; [done|]. rewrite remove_users_lookup. specialize (Hm e). unfold accounts in *. rewrite !lookup_fmap in *. destruct (nc !! e) as [n|] eqn:En.
  - assert (exists c, oc !! e = Some c /\ norm c = norm n) as (c & Hc & E).
    { destruct (oc !! e) as [c|] eqn:Ec; [|destruct Ha; eapply additions_emails; eauto]. exists c. split; [done|]. destruct (decide (norm c = norm n)) as [|Hd]; [done|].
      destruct Ha. eapply additions_emails; eauto. }
    rewrite bool_decide_eq_false_2. 2:{ intros (c' & Hc' & Hd)%elem_removals. unfold differs in Hd. cbn in Hd. rewrite En in Hd. congruence. }
    rewrite Hc in Hm. cbn in *. rewrite (same_norm _ _ _ _ (Ho _ _ Hc) (Hn _ _ En) E) in Hm. by destruct Hm.
  - destruct (oc !! e) as [c|] eqn:Ec; [|case_bool_decide; [done|by destruct Hm]]. rewrite bool_decide_eq_true_2; [done|]. apply elem_removals. exists c. split; [done|]. unfold differs. cbn. by rewrite En.
Qed.
(** What is there when a user is added: nothing, or the user. *)
Lemma users_free t p oc nc m u : (forall e, m !! e = accounts p oc !! e \/ m !! e = accounts p nc !! e) -> u ∈ additions t p oc nc ->
  remove_users (removals t p oc nc) m !! uEmail u = None \/ remove_users (removals t p oc nc) m !! uEmail u = Some (op_account u).
Proof.
  intros Hm (_ & Hp & n & E & Hu & Hor)%elem_additions. rewrite remove_users_lookup. case_bool_decide as Hr; [by left|]. specialize (Hm (uEmail u)).
  unfold accounts, op_account in *. rewrite !lookup_fmap, E in Hm. rewrite Hu, Hp. destruct Hor as [H|(c & Hc & Hd)].
  - rewrite H in Hm. destruct Hm; [by left|by right].
  - destruct Hr. apply elem_removals. eauto.
Qed.
End Facts.

(** ** What a diff holds for one tag

    [view d G t] is what the diff says of the inbound [t]: users to remove, whether the
    handler goes, the inbound added under the tag, users to add; [G] lists the inbounds
    behind the texts of [AddedInbounds].  [diffInbounds] leaves at every tag what [said]
    allows, from the old and the new inbound of that tag. *)

Section Views.
Context {HJ : JSONText} {HC : Conf} {HL : JSONLaws}.

Definition tview : Type := list UserOp * list string * list InboundConfig * list UserOp.
Definition view (d : HotDiff) (G : list InboundConfig) (t : string) : tview :=
  (filter (fun u => uTag u = t) (RemovedUsers d), filter (fun x => x = t) (RemovedInboundTags d), filter (fun ib => Tag ib = t) G, filter (fun u => uTag u = t) (AddedUsers d)).
Definition blank : tview := ([], [], [], []).

(** Two inbounds that differ in their clients only. *)
Record users_differ (o n : InboundConfig) (oc nc : gmap string clientEntry) : Prop := {
  ud_protocol : Protocol o ∈ userDiffableProtocols;
  ud_port : Port n = Port o;
  ud_same : Protocol n = Protocol o;
  ud_listen : canonicalJSON (Listen n) = canonicalJSON (Listen o);
  ud_stream : canonicalJSON (StreamSettings n) = canonicalJSON (StreamSettings o);
  ud_sniffing : canonicalJSON (Sniffing n) = canonicalJSON (Sniffing o);
  ud_settings : exists rest, splitSettingsClients (Settings o) = Some (oc, rest) /\ splitSettingsClients (Settings n) = Some (nc, rest) }.

Lemma diffInboundUsers_cases o n d d' : diffInboundUsers o n d = Some d' ->
  exists oc nc, users_differ o n oc nc /\ d' = with_users d (removals (Tag o) (Protocol o) oc nc) (additions (Tag o) (Protocol o) oc nc).
Proof.
  unfold diffInboundUsers. destruct (Port o =? Port n) eqn:E1; [|done]. destruct (bool_decide (Protocol o = Protocol n)) eqn:E2; [|done].
  destruct (bool_decide (Tag o = Tag n)); [|done]. destruct (bool_decide (_ ∈ userDiffableProtocols)) eqn:E3; [|done].
  destruct (rawEqualNormalized (Listen o) _) eqn:R1; [|done]. destruct (rawEqualNormalized (StreamSettings o) _) eqn:R2; [|done]. destruct (rawEqualNormalized (Sniffing o) _) eqn:R3; [|done].
  cbn [negb orb]. destruct (splitSettingsClients (Settings o)) as [[oc orest]|] eqn:So; [|done]. destruct (splitSettingsClients (Settings n)) as [[nc nrest]|] eqn:Sn; [|done]. cbn.
  destruct (bool_decide (orest = nrest)) eqn:E4; [|done]. intros [= <-]. apply bool_decide_eq_true in E2, E3, E4. apply Z.eqb_eq in E1. apply rawEqual_canonical in R1, R2, R3.
  exists oc, nc. split; [|done]. split; [done|congruence..|]. exists orest. by rewrite E4 in *.
Qed.

(** The three outcomes for an inbound of the old configuration that is in the new one. *)
Definition matched (o n : InboundConfig) (v : tview) : Prop :=
  inboundEqualNormalized o n = true /\ v = blank \/
  (exists oc nc, users_differ o n oc nc /\ v = (removals (Tag o) (Protocol o) oc nc, [], [], additions (Tag o) (Protocol o) oc nc)) \/
  v = ([], [Tag o], [n], []).
Definition said (o n : option InboundConfig) (v : tview) : Prop :=
  match o, n with
  | None, None => v = blank
  | None, Some n => v = ([], [], [n], [])
  | Some o, None => v = ([], [Tag o], [], [])
  | Some o, Some n => matched o n v
  end.

Definition written (nb : gmap string InboundConfig) (d : HotDiff) (G : list InboundConfig) : Prop :=
  Forall2 (fun ib raw => marshal_inbound ib = Some raw /\ nb !! Tag ib = Some ib) G (AddedInbounds d).

(** One round of a loop: only the tag at hand changes. *)
Record round (nb : gmap string InboundConfig) (t : string) (d : HotDiff) (G : list InboundConfig) (d' : HotDiff) (G' : list InboundConfig) : Prop := {
  rd_written : written nb d G -> written nb d' G';
  rd_frame : forall t', t' <> t -> view d' G' t' = view d G t' }.

Lemma filter_all_out {A} (P : A -> Prop) `{!forall x, Decision (P x)} (l : list A) : (forall x, x ∈ l -> ~ P x) -> filter P l = [].
Proof. intros Hl. induction l as [|x l IH]; [done|]. rewrite filter_cons_False by (apply Hl; by left). apply IH. intros y Hy. apply Hl. by right. Qed.
Lemma filter_all_in {A} (P : A -> Prop) `{!forall x, Decision (P x)} (l : list A) : (forall x, x ∈ l -> P x) -> filter P l = l.
Proof. intros Hl. induction l as [|x l IH]; [done|]. rewrite filter_cons_True by (apply Hl; by left). f_equal. apply IH. intros y Hy. apply Hl. by right. Qed.

(** A round that adds operations of its own tag. *)
Lemma round_users nb t d G ru au : (forall u, u ∈ ru ++ au -> uTag u = t) ->
  round nb t d G (with_users d ru au) G /\ (view d G t = blank -> view (with_users d ru au) G t = (ru, [], [], au)).
Proof.
  intros Ht. assert (forall u, u ∈ ru -> uTag u = t) as Hr by (intros u Hu; apply Ht, elem_of_app; by left).
  assert (forall u, u ∈ au -> uTag u = t) as Ha by (intros u Hu; apply Ht, elem_of_app; by right). split; [split|].
  - done.
  - intros t' Hne. unfold view. cbn. rewrite !filter_app, (filter_all_out (fun u => uTag u = t') ru), (filter_all_out (fun u => uTag u = t') au), !app_nil_r; [done|..]; intros u Hu; (rewrite (Hr u Hu) || rewrite (Ha u Hu)); congruence.
  - unfold view. cbn. intros [= E1 E2 E3 E4]. by rewrite !filter_app, E1, E2, E3, E4, (filter_all_in (fun u => uTag u = t) ru), (filter_all_in (fun u => uTag u = t) au).
Qed.
Lemma round_inbounds nb t d G (gone : bool) (ib : option InboundConfig) (raws : list string) :
  (match ib with None => raws = [] | Some n => exists raw, raws = [raw] /\ marshal_inbound n = Some raw /\ nb !! t = Some n /\ Tag n = t end) ->
  let d' := with_inbounds d (if gone then [t] else []) raws in
  let new := match ib with Some n => [n] | None => [] end in
  round nb t d G d' (G ++ new) /\ (view d G t = blank -> view d' (G ++ new) t = ([], if gone then [t] else [], new, [])).
Proof.
  intros Hib d' new. assert (forall n, n ∈ new -> Tag n = t) as Hn.
  { intros n Hin. subst new. destruct ib as [n'|]; [|by apply not_elem_of_nil in Hin]. apply list_elem_of_singleton in Hin as ->. by destruct Hib as (? & ? & ? & ? & ?). }
  assert (forall x, x ∈ (if gone then [t] else []) -> x = t) as Hg. { intros x Hx. destruct gone; [by apply list_elem_of_singleton in Hx|by apply not_elem_of_nil in Hx]. }
  split; [split|].
  - unfold written. subst d' new. cbn. intros H. apply Forall2_app; [done|]. destruct ib as [n|]; [|by rewrite Hib]. destruct Hib as (raw & -> & Hm & Hnb & <-). by repeat constructor.
  - intros t' Hne. unfold view. subst d'. cbn. rewrite !filter_app. rewrite (filter_all_out (fun x => x = t') (if gone then [t] else [])), (filter_all_out (fun ib => Tag ib = t') new), !app_nil_r; [done|..].
    + intros x Hx. rewrite (Hn x Hx). congruence.
    + intros x Hx. rewrite (Hg x Hx). congruence.
  - unfold view. subst d'. cbn. intros [= E1 E2 E3 E4]. by rewrite !filter_app, E1, E2, E3, E4, (filter_all_in (fun x => x = t)), (filter_all_in (fun ib => Tag ib = t)).
Qed.

Lemma diff_old_round api nb d G o d' : diff_old api nb d o = Some d' -> (forall n, nb !! Tag o = Some n -> Tag n = Tag o) ->
  exists G', round nb (Tag o) d G d' G' /\ (view d G (Tag o) = blank -> said (Some o) (nb !! Tag o) (view d' G' (Tag o))).
Proof.
  intros H Hnb. unfold diff_old in H. destruct (nb !! Tag o) as [n|] eqn:En.
  - destruct (inboundEqualNormalized o n) eqn:Eq. { injection H as <-. exists G. split; [by split|]. intros ->. left. done. }
    destruct (is_api _ _); [done|]. destruct (_ || _); [done|]. set (d1 := with_dropped d (dropped o n)) in *.
    destruct (diffInboundUsers o n d1) as [d2|] eqn:Eu.
    + injection H as <-. apply diffInboundUsers_cases in Eu as (oc & nc & Hud & ->). exists G.
      destruct (round_users nb (Tag o) d1 G (removals (Tag o) (Protocol o) oc nc) (additions (Tag o) (Protocol o) oc nc)) as [[Hw Hf] Hv].
      { intros u [Hu|Hu]%elem_of_app; [|by apply elem_additions in Hu as [? _]]. unfold removals in Hu. by apply list_elem_of_fmap in Hu as (? & -> & _). }
      split; [by split|]. intros E. right. left. exists oc, nc. split; [done|]. by apply Hv.
    + destruct (_ || _); [done|]. destruct (marshal_inbound n) as [raw|] eqn:Em; [|done]. injection H as <-.
      destruct (round_inbounds nb (Tag o) d1 G true (Some n) [raw]) as [[Hw Hf] Hv]; [exists raw; auto|]. exists (G ++ [n]). split; [by split|]. intros E. right. right. by apply Hv.
  - destruct (is_api _ _); [done|]. injection H as <-. destruct (round_inbounds nb (Tag o) d G true None []) as [[Hw Hf] Hv]; [done|]. rewrite app_nil_r in Hf, Hv, Hw. exists G. split; [by split|done].
Qed.
Lemma diff_new_round api nb ob d G n d' : diff_new api ob d n = Some d' -> nb !! Tag n = Some n ->
  exists G', round nb (Tag n) d G d' G' /\ (is_Some (ob !! Tag n) -> view d' G' (Tag n) = view d G (Tag n)) /\
    (ob !! Tag n = None -> view d G (Tag n) = blank -> said None (nb !! Tag n) (view d' G' (Tag n))).
Proof.
  intros H Hnb. unfold diff_new in H. case_bool_decide as Hs.
  - injection H as <-. exists G. split_and!; [by split|done|]. intros E. rewrite E in Hs. by destruct Hs.
  - destruct (is_api _ _); [done|]. destruct (marshal_inbound n) as [raw|] eqn:Em; [|done]. injection H as <-.
    destruct (round_inbounds nb (Tag n) d G false (Some n) [raw]) as [Hr Hv]; [exists raw; auto|]. exists (G ++ [n]). split_and!; [done|done|]. intros _ E. rewrite Hnb. by apply Hv.
Qed.

(** A loop over inbounds of different tags: what a round leaves at its tag stays. *)
Lemma loop_rounds nb (f : HotDiff -> InboundConfig -> option HotDiff) (Q : InboundConfig -> tview -> tview -> Prop) l :
  (forall d G x d', x ∈ l -> f d x = Some d' -> exists G', round nb (Tag x) d G d' G' /\ Q x (view d G (Tag x)) (view d' G' (Tag x))) -> NoDup (Tag <$> l) ->
  forall d G d', foldO f d l = Some d' ->
  exists G', (written nb d G -> written nb d' G') /\ (forall t, t ∉ Tag <$> l -> view d' G' t = view d G t) /\ (forall x, x ∈ l -> Q x (view d G (Tag x)) (view d' G' (Tag x))).
Proof.
  intros Hf. induction l as [|x l IH]; intros Hnd d G d' H; cbn in H.
  - injection H as <-. exists G. split_and!; [done|done|]. intros x Hx. by apply not_elem_of_nil in Hx.
  - apply NoDup_cons in Hnd as [Hx Hnd]. destruct (f d x) as [d1|] eqn:E1; [|done]. cbn in H. destruct (Hf d G x d1) as (G1 & [Hw Hfr] & HQ); [by left|done|].
    destruct (IH ltac:(intros; apply Hf; [by right|done]) Hnd d1 G1 d' H) as (G' & Hw' & Hfr' & HQ'). exists G'. split_and!; [tauto| |].
    + intros t Ht. rewrite fmap_cons, not_elem_of_cons in Ht. destruct Ht as [Hne Ht]. by rewrite Hfr', Hfr.
    + intros y Hy. apply elem_of_cons in Hy as [->|Hy]; [by rewrite (Hfr' (Tag x))|]. rewrite <-(Hfr (Tag y)); [by apply HQ'|]. intros E. apply Hx. rewrite <-E. by apply list_elem_of_fmap_2.
Qed.

Lemma inboundsByTag_spec l m : inboundsByTag l = Some m -> NoDup (Tag <$> l) /\ (forall t ib, m !! t = Some ib <-> ib ∈ l /\ Tag ib = t).
Proof.
  unfold inboundsByTag. match goal with |- ?g ∅ l = _ -> _ => set (go := g) end.
  enough (forall acc, go acc l = Some m -> (forall t ib, acc !! t = Some ib -> Tag ib = t) ->
    NoDup (Tag <$> l) /\ (forall ib, ib ∈ l -> acc !! Tag ib = None) /\ (forall t ib, m !! t = Some ib <-> acc !! t = Some ib \/ ib ∈ l /\ Tag ib = t)) as Hgo.
  { intros H. destruct (Hgo ∅ H) as (Hnd & _ & Hm); [done|]. split; [done|]. intros t ib. rewrite Hm, lookup_empty. naive_solver. }
  induction l as [|ib l IH]; intros acc H Hacc; cbn in H.
  - injection H as <-. split_and!; [constructor|intros ? Hin; by apply not_elem_of_nil in Hin|]. intros t ib. split; [by left|]. intros [|[Hin _]]; [done|]. by apply not_elem_of_nil in Hin.
  - case_bool_decide; [done|]. case_bool_decide as Hs; [done|]. rewrite <-eq_None_not_Some in Hs. destruct (IH _ H) as (Hnd & Hfree & Hm).
    { intros t x. rewrite lookup_insert_Some. naive_solver. }
    assert (Tag ib ∉ Tag <$> l) as Hnin. { intros (y & E & Hy)%list_elem_of_fmap. specialize (Hfree y Hy). rewrite <-E, lookup_insert_eq in Hfree. done. }
    split_and!; [by constructor| |].
    + intros y [->|Hy]%elem_of_cons; [done|]. specialize (Hfree y Hy). by apply lookup_insert_None in Hfree as [? _].
    + intros t y. rewrite Hm, lookup_insert_Some, elem_of_cons. split; [naive_solver|]. intros [E|[[->|Hy] E]]; [|by left; left|by right].
      destruct (decide (Tag ib = t)) as [Et|Hne]; [|by left; right]. rewrite <-Et, Hs in E. done.
Qed.

(** What [diffInbounds] holds at every tag. *)
Lemma diffInbounds_said old new d : diffInbounds old new (mkDiff [] [] [] [] [] [] [] None) = Some d ->
  exists ob nb G, inboundsByTag (InboundConfigs old) = Some ob /\ inboundsByTag (InboundConfigs new) = Some nb /\ written nb d G /\ forall t, said (ob !! t) (nb !! t) (view d G t).
Proof.
  unfold diffInbounds. destruct (inboundsByTag (InboundConfigs old)) as [ob|] eqn:Eo; [|done]. destruct (inboundsByTag (InboundConfigs new)) as [nb|] eqn:En; [|done]. cbn.
  set (api := apiTagFromConfig _). destruct (foldO (diff_old api nb) _ _) as [d1|] eqn:E1; [|done]. cbn. intros E2.
  destruct (inboundsByTag_spec _ _ Eo) as [Ndo Ho]. destruct (inboundsByTag_spec _ _ En) as [Ndn Hn].
  destruct (loop_rounds nb (diff_old api nb) (fun o v v' => v = blank -> said (Some o) (nb !! Tag o) v') (InboundConfigs old)) with (d := mkDiff [] [] [] [] [] [] [] None) (G := @nil InboundConfig) (d' := d1) as (G1 & W1 & F1 & Q1); [|done|done|].
  { intros d0 G0 x d0' Hx H0. eapply diff_old_round; [exact H0|]. intros n Hnx. by apply Hn in Hnx as [_ ?]. }
  destruct (loop_rounds nb (diff_new api ob) (fun n v v' => (is_Some (ob !! Tag n) -> v' = v) /\ (ob !! Tag n = None -> v = blank -> said None (nb !! Tag n) v')) (InboundConfigs new)) with (d := d1) (G := G1) (d' := d) as (G2 & W2 & F2 & Q2); [|done|done|].
  { intros d0 G0 x d0' Hx H0. eapply diff_new_round; [exact H0|]. by apply Hn. }
  exists ob, nb, G2. split_and!; [done|done|apply W2, W1; constructor|]. intros t.
  assert (said (ob !! t) (if ob !! t then nb !! t else None) (view d1 G1 t)) as H1.
  { destruct (ob !! t) as [o|] eqn:E; [|cbn]. - apply Ho in E as [Hin <-]. by apply Q1.
    - rewrite F1; [done|]. intros (o & -> & Hin)%list_elem_of_fmap. by rewrite (proj2 (Ho (Tag o) o) (conj Hin eq_refl)) in E. }
  destruct (nb !! t) as [n|] eqn:E.
  - pose proof E as [Hin <-]%Hn. destruct (Q2 n Hin) as [Hs Hnone]. destruct (ob !! Tag n) as [o|] eqn:Eob; [rewrite Hs by eauto; done|]. rewrite <-E. by apply Hnone.
  - rewrite F2; [by destruct (ob !! t)|]. intros (n & -> & Hin)%list_elem_of_fmap. by rewrite (proj2 (Hn (Tag n) n) (conj Hin eq_refl)) in E.
Qed.

(** ** Carrying it out *)

(** The handler after its users and it itself are removed and a new one is added, then
    after users are added. *)
Definition swapped (v : tview) (h : option handler) : option handler :=
  match last v.1.2 with
  | Some n => Some (handler_of n)
  | None => match v.1.1.2 with [] => on_users (remove_users v.1.1.1) <$> h | _ => None end
  end.
Definition carried_out (v : tview) (h : option handler) : option handler := on_users (insert_users v.2) <$> swapped v h.

(** Part of the change at one tag, as in [between]. *)
Definition partly (o n h : option handler) : Prop :=
  h = o \/ h = n \/ exists ho hn hr, o = Some ho /\ n = Some hn /\ h = Some hr /\ users_between ho hn hr.

Lemma on_users_id f h : f (h_users h) = h_users h -> on_users f h = h.
Proof. destruct h. unfold on_users. cbn. by intros ->. Qed.
Lemma on_users_none (h : option handler) : on_users (insert_users []) <$> h = h.
Proof. destruct h as [h|]; [|done]. cbn. f_equal. by apply on_users_id. Qed.
Lemma on_users_same (h : option handler) : on_users (remove_users []) <$> h = h.
Proof. destruct h as [h|]; [|done]. cbn. f_equal. by apply on_users_id. Qed.

(** Where only clients differ, a handler that holds part of the change is the old one with other users. *)
Lemma users_differ_partly o n oc nc h : users_differ o n oc nc -> partly (Some (handler_of o)) (Some (handler_of n)) h ->
  exists m, h = Some (on_users (fun _ => m) (handler_of o)) /\ handler_of n = on_users (fun _ => accounts (Protocol o) nc) (handler_of o) /\
    forall e, m !! e = accounts (Protocol o) oc !! e \/ m !! e = accounts (Protocol o) nc !! e.
Proof.
  intros [_ Hp Hpr Hl Hst Hsn (rest & Eo & En)] H.
  assert (handler_of n = on_users (fun _ => accounts (Protocol o) nc) (handler_of o)) as Ehn. { unfold handler_of, on_users. rewrite Eo, En. cbn. by rewrite Hp, Hpr, Hl, Hst, Hsn. }
  assert (h_users (handler_of o) = accounts (Protocol o) oc) as Eho by (unfold handler_of; by rewrite Eo).
  destruct H as [->|[->|(ho & hn & hr & [= <-] & [= <-] & -> & (Er & _ & Hor))]].
  - exists (h_users (handler_of o)). split_and!; [by destruct (handler_of o)|done|]. rewrite Eho. by left.
  - exists (accounts (Protocol o) nc). split_and!; [by rewrite Ehn|done|by right].
  - exists (h_users hr). split_and!; [by rewrite <-Er|done|]. intros e. rewrite Eho, Ehn in Hor. apply Hor.
Qed.

Lemma said_converges o n v h : said o n v -> partly (handler_of <$> o) (handler_of <$> n) h -> carried_out v h = handler_of <$> n.
Proof.
  unfold carried_out, swapped. destruct o as [o|], n as [n|]; cbn [said]; intros Hs Hp; cbn [fmap option_fmap option_map] in Hp.
  - change (handler_of <$> Some n) with (Some (handler_of n)). destruct Hs as [[Eq ->]|[(oc & nc & Hd & ->)| ->]]; cbn [blank fst snd last].
    + rewrite on_users_none, on_users_same. pose proof (equal_handlers _ _ Eq) as E. destruct Hp as [->|[->|(ho & hn & hr & [= <-] & [= <-] & -> & (Er & _ & Hor))]]; [by rewrite E|done|].
      cbn. f_equal. rewrite Er, E. apply on_users_id. apply map_eq. intros e. rewrite <-E in Hor |- *. by destruct (Hor e).
    + destruct (users_differ_partly _ _ _ _ _ Hd Hp) as (m & -> & -> & Hm). cbn. f_equal. unfold on_users. cbn. f_equal.
      destruct Hd as [_ _ _ _ _ _ (rest & Eo & En)]. eapply users_converge; [by eapply split_ok..|done].
    + by rewrite on_users_none.
  - subst v. cbn. done.
  - subst v. apply on_users_none.
  - subst v. cbn. destruct Hp as [->|[->|(ho & hn & hr & ? & _)]]; done.
Qed.

(** Users are added to an inbound that is there, under an email that is free or already theirs. *)
Lemma said_additions o n v h u : said o n v -> partly (handler_of <$> o) (handler_of <$> n) h -> u ∈ v.2 ->
  exists o' n' oc nc, o = Some o' /\ n = Some n' /\ users_differ o' n' oc nc /\ u ∈ additions (Tag o') (Protocol o') oc nc /\
  exists hm, swapped v h = Some hm /\ (h_users hm !! uEmail u = None \/ h_users hm !! uEmail u = Some (op_account u)).
Proof.
  unfold swapped. destruct o as [o|], n as [n|]; cbn [said]; intros Hs Hp Hu; cbn [fmap option_fmap option_map] in Hp.
  2-4: subst v; by apply not_elem_of_nil in Hu.
  destruct Hs as [[Eq ->]|[(oc & nc & Hd & ->)| ->]]; [by apply not_elem_of_nil in Hu| |by apply not_elem_of_nil in Hu]. cbn [fst snd last] in *.
  exists o, n, oc, nc. split_and!; [done..|]. destruct (users_differ_partly _ _ _ _ _ Hd Hp) as (m & -> & _ & Hm). eexists. split; [done|]. cbn. by apply users_free.
Qed.
End Views.
