(* ===== verification/HotRun.v ===== *)
(** * What the calls of a diff do

    Every call that does not fail has its effect on what the instance runs, also when the
    thing to add was there and is replaced; so a loop of calls that succeeds is the
    composition of the effects, and its result can be read tag by tag. *)
From S2P Require Import Prelude HotDiff XrayApi HotApply HotFacts.
Open Scope string_scope.
Open Scope Z_scope.
Open Scope list_scope.

(** ** Errors *)

Lemma ToLower_app a b : ToLower (a +:+ b) = ToLower a +:+ ToLower b.
Proof. induction a as [|c a IH]; [done|]. change (String c a +:+ b) with (String c (a +:+ b)). cbn [ToLower]. by rewrite IH. Qed.
(** A text in front that lacks the first letter of what is sought. *)
Lemma Contains_app p s k sub : bool_decide (k ∈ String.list_ascii_of_string p) = false -> Contains (p +:+ s) (String k sub) = Contains s (String k sub).
Proof.
  intros H. apply bool_decide_eq_false in H. induction p as [|c p IH]; [done|]. cbn in H. apply not_elem_of_cons in H as [Hne H].
  change (String c p +:+ s) with (String c (p +:+ s)). rewrite <-(IH H). unfold Contains. cbn. destruct (Ascii.ascii_dec k c); [done|]. by destruct (String.index 0 _ _).
Qed.
Lemma missing_wrapped err : IsMissingHandlerErr ((fun e => "failed to remove user: " +:+ e) <$> err) = IsMissingHandlerErr err.
Proof.
  destruct err as [e|]; [|done]. cbn [fmap option_fmap option_map IsMissingHandlerErr]. rewrite ToLower_app. f_equal; by apply Contains_app.
Qed.

Section Run.
Context {HJ : JSONText} {HC : Conf} {HL : JSONLaws} {HCL : ConfLaws} {S : Type} {HX : XrayCore S} {HXL : XrayLaws S}.
Implicit Types (s : S) (r : Running).

Definition rm_user (t e : string) (r : Running) : Running := put_inbounds (alter (on_users (delete e)) t) r.
Definition add_user (t e : string) (a : account) (r : Running) : Running := put_inbounds (alter (on_users (insert e a)) t) r.

Lemma alter_twice (f g k : handler -> handler) t r : (forall h, f (g h) = k h) -> put_inbounds (alter f t) (put_inbounds (alter g t) r) = put_inbounds (alter k t) r.
Proof.
  intros H. unfold put_inbounds. cbn. f_equal. apply map_eq. intros t'. destruct (decide (t = t')) as [->|Hne].
  - rewrite !lookup_alter_eq. destruct (r_inbounds r !! t'); [|done]. cbn. by rewrite H.
  - by rewrite !lookup_alter_ne.
Qed.
Lemma add_rm t e a r : add_user t e a (rm_user t e r) = add_user t e a r.
Proof. apply alter_twice. intros h. unfold on_users. cbn. by rewrite insert_delete_eq. Qed.
Lemma rm_rm t e r : rm_user t e (rm_user t e r) = rm_user t e r.
Proof. apply alter_twice. intros h. unfold on_users. cbn. by rewrite delete_delete_eq. Qed.
Lemma user_at_rm t e r : user_at (rm_user t e r) t e = None.
Proof. unfold user_at, rm_user. cbn. rewrite lookup_alter_eq. destruct (r_inbounds r !! t); [|done]. cbn. apply lookup_delete_eq. Qed.

(** ** Removals *)

Lemma removed_ok (p : S * option string) s' : removed p = (s', true) -> p.1 = s' /\ (p.2 = None \/ IsMissingHandlerErr p.2 = true).
Proof. unfold removed. intros [= -> H]. split; [done|]. apply orb_true_iff in H as [H|H]; [left; by apply bool_decide_eq_true in H|by right]. Qed.

Lemma RemoveUser_effect x s t e s' err : RemoveUser x s t e = (s', err) ->
  (err = None \/ IsMissingHandlerErr err = true -> running s' = rm_user t e (running s)) /\ (running s' = running s \/ running s' = rm_user t e (running s)).
Proof.
  unfold RemoveUser. destruct (HandlerServiceClient x); cbn [negb].
  - pose proof (RemoveUser_law s t e) as H. destruct (rpc_RemoveUser s t e) as [s1 err1]. destruct H as [H1 H2]. intros [= <- <-]. split; [|done].
    rewrite missing_wrapped. intros [E|E]; apply H1; [left; by destruct err1|by right].
  - intros [= <- <-]. split; [|by left]. intros [|E]; [done|]. vm_compute in E. done.
Qed.
Lemma DelInbound_effect x s t s' err : DelInbound x s t = (s', err) -> err = None \/ IsMissingHandlerErr err = true -> running s' = put_inbounds (delete t) (running s).
Proof.
  unfold DelInbound. destruct (HandlerServiceClient x); cbn [negb].
  - pose proof (RemoveInbound_law s t) as H. intros E. by rewrite E in H.
  - intros [= <- <-] [|E]; [done|]. vm_compute in E. done.
Qed.
Lemma DelOutbound_effect x s t s' err : r_default (running s) <> Some t -> DelOutbound x s t = (s', err) ->
  err = None \/ IsMissingHandlerErr err = true -> running s' = put_outbounds (delete t) (running s).
Proof.
  unfold DelOutbound. intros Hd. destruct (HandlerServiceClient x); cbn [negb].
  - pose proof (RemoveOutbound_law s t Hd) as H. intros E. by rewrite E in H.
  - intros [= <- <-] [|E]; [done|]. vm_compute in E. done.
Qed.

(** ** Additions *)

Lemma added_ok (p : S * option string) s' : added p = (s', true) -> p = (s', None).
Proof. unfold added. destruct p as [s1 err]. cbn. intros [= -> H]. by apply bool_decide_eq_true in H as ->. Qed.

(** An addition that had to make room has the effect of one that had not. *)
Lemma reconciling_effect (eff undo : Running -> Running) (ok : Running -> Prop) add ex del s s' :
  (forall r, eff (undo r) = eff r) -> (forall r, undo (undo r) = undo r) -> (forall r, ok r -> ok (undo r)) ->
  (forall s s' err, ok (running s) -> add s = (s', err) ->
    (err = None -> running s' = eff (running s)) /\ (ex err = true -> running s' = running s \/ running s' = undo (running s))) ->
  (forall d s s' err, del = Some d -> ok (running s) -> d s = (s', err) -> err = None \/ IsMissingHandlerErr err = true -> running s' = undo (running s)) ->
  ok (running s) -> reconciling add ex del s = (s', None) -> running s' = eff (running s).
Proof.
  intros He Hu Hok Hadd Hdel H. unfold reconciling. destruct (add s) as [s1 err] eqn:E1. destruct (Hadd _ _ _ H E1) as [Hnone Hex].
  case_bool_decide as En; [subst err; cbn; intros [= ->]; by apply Hnone|]. cbn [orb]. destruct (ex err) eqn:Eex; cbn [negb]; [|intros [= -> ->]; done].
  destruct del as [d|]; [|intros [= -> ->]; done]. destruct (d s1) as [s2 derr] eqn:E2.
  assert (running s1 = running s \/ running s1 = undo (running s)) as H1 by auto. assert (ok (running s1)) as Hok1 by (destruct H1 as [-> | ->]; auto).
  pose proof (Hdel d s1 s2 derr eq_refl Hok1 E2) as Hd. destruct (negb _ && negb _) eqn:Ed; [intros [= -> ->]; cbn in Ed; done|].
  assert (running s2 = undo (running s)) as H2.
  { rewrite Hd; [destruct H1 as [-> | ->]; auto|]. apply andb_false_iff in Ed as [Ed|Ed]; apply negb_false_iff in Ed; [left; by apply bool_decide_eq_true in Ed|by right]. }
  intros E3. destruct (Hadd s2 s' None) as [Hl _]; [rewrite H2; auto|done|]. rewrite Hl, H2 by done. apply He.
Qed.

Lemma addInbound_effect x s ib raw s' : marshal_inbound ib = Some raw -> addInboundReconciling x s raw = (s', None) ->
  running s' = put_inbounds (insert (Tag ib) (handler_of ib)) (running s).
Proof.
  intros Hm. apply (reconciling_effect _ (put_inbounds (delete (Tag ib))) (fun _ => True)); [..|done].
  - intros r. unfold put_inbounds. cbn. by rewrite insert_delete_eq.
  - intros r. unfold put_inbounds. cbn. by rewrite delete_delete_eq.
  - done.
  - intros s0 s1 err _. unfold AddInbound. destruct (HandlerServiceClient x); cbn [negb].
    + destruct (build_inbound raw) as [e|c] eqn:Eb; [intros [= <- <-]; split; [done|by left]|]. pose proof (AddInbound_law s0 c) as H. intros E. rewrite E in H.
      rewrite (build_inbound_law _ _ _ Hm Eb) in H. destruct H as [H1 H2]. split; [done|]. left. auto.
    + intros [= <- <-]. split; [done|by left].
  - intros d s0 s1 err Hd _. unfold tagOf in Hd. rewrite (marshal_tag _ _ Hm) in Hd. case_bool_decide; [done|]. injection Hd as <-. apply DelInbound_effect.
Qed.
Lemma addOutbound_effect x s raw t n s' : unmarshal_tag raw = Some t -> canonicalJSON raw = Some n -> is_Some (r_default (running s)) -> r_default (running s) <> Some t ->
  addOutboundReconciling x s raw = (s', None) -> running s' = put_outbounds (insert t n) (running s).
Proof.
  intros Ht Hn H1 H2. apply (reconciling_effect _ (put_outbounds (delete t)) (fun r => is_Some (r_default r) /\ r_default r <> Some t)); [..|done].
  - intros r. unfold put_outbounds. cbn. by rewrite insert_delete_eq.
  - intros r. unfold put_outbounds. cbn. by rewrite delete_delete_eq.
  - done.
  - intros s0 s1 err [Hd _]. unfold AddOutbound. destruct (HandlerServiceClient x); cbn [negb].
    + destruct (build_outbound raw) as [e|c] eqn:Eb; [intros [= <- <-]; split; [done|by left]|]. pose proof (AddOutbound_law s0 c Hd) as H. intros E. rewrite E in H.
      rewrite (build_outbound_law _ _ _ _ Ht Hn Eb) in H. destruct H as [H3 H4]. split; [done|]. left. auto.
    + intros [= <- <-]. split; [done|by left].
  - intros d s0 s1 err Hd [_ Hne]. unfold tagOf in Hd. rewrite Ht in Hd. case_bool_decide; [done|]. injection Hd as <-. by apply DelOutbound_effect.
Qed.

(** ** Users *)

Lemma required_string u k a : getRequiredUserString u k = inr a -> field k u = Some (VString a).
Proof. unfold getRequiredUserString. destruct (field k u) as [[]|]; try done. by intros [= ->]. Qed.

(** The account the panel builds is the one the core's loader builds. *)
Lemma account_built p u a : p ∈ userDiffableProtocols -> plain_user u -> buildUserAccount p u = inr a -> a = Some (conf_account p u).
Proof.
  intros Hp (H1 & H2 & H3). unfold buildUserAccount, try. unfold userDiffableProtocols in Hp. rewrite !elem_of_cons in Hp. destruct Hp as [->|[->|[->|[->|Hp]]]]; [..|by apply not_elem_of_nil in Hp].
  - cbn [bool_decide decide_rel]. rewrite bool_decide_eq_false_2, bool_decide_eq_true_2 by done. destruct (getRequiredUserString u "id") as [|id] eqn:Ei; [done|]. apply required_string in Ei.
    destruct (getOptionalUserString u "flow") as [|flow] eqn:Ef; [done|]. rewrite H1, H2. cbn [testseed_of testpre_of].
    rewrite (bool_decide_eq_false_2 (flow = _)). { intros [= <-]. rewrite (conf_vless u id flow); done. }
    intros ->. unfold getOptionalUserString in Ef. destruct (field "flow" u) as [[]|]; try done. by injection Ef as ->.
  - rewrite bool_decide_eq_true_2 by done. destruct (getRequiredUserString u "id") as [|id] eqn:Ei; [done|]. apply required_string in Ei. intros [= <-]. by rewrite (conf_vmess u id).
  - rewrite 2!bool_decide_eq_false_2, bool_decide_eq_true_2 by done. destruct (getRequiredUserString u "password") as [|id] eqn:Ei; [done|]. apply required_string in Ei. intros [= <-]. by rewrite (conf_trojan u id).
  - rewrite 4!bool_decide_eq_false_2, bool_decide_eq_true_2 by done. destruct (getRequiredUserString u "auth") as [|id] eqn:Ei; [done|]. apply required_string in Ei. intros [= <-]. by rewrite (conf_hysteria u id).
Qed.

Definition good_op (u : UserOp) : Prop :=
  uProtocol u ∈ userDiffableProtocols /\ exists o, uUser u = Some o /\ field "email" o = Some (VString (uEmail u)) /\ plain_user o.
Definition free_for (u : UserOp) (r : Running) : Prop := user_at r (uTag u) (uEmail u) = None \/ user_at r (uTag u) (uEmail u) = Some (op_account u).

Lemma addUser_effect x s u s' : good_op u -> free_for u (running s) -> addUserReconciling x s u = (s', None) ->
  running s' = add_user (uTag u) (uEmail u) (op_account u) (running s).
Proof.
  intros (Hp & o & Ho & Hem & Hpl). apply (reconciling_effect _ (rm_user (uTag u) (uEmail u)) (free_for u)).
  - intros r. apply add_rm.
  - intros r. apply rm_rm.
  - intros r _. left. apply user_at_rm.
  - intros s0 s1 err Hfree. rewrite Ho. cbn [default]. unfold AddUser, free_for, op_account in *. rewrite Ho in *. cbn [default from_option id] in *.
    unfold getRequiredUserString at 1. rewrite Hem. destruct (buildUserAccount (uProtocol u) o) as [e|a] eqn:Eb; [intros [= <- <-]; split; [done|by left]|].
    rewrite (account_built _ _ _ Hp Hpl Eb). set (a' := conf_account _ o) in *. destruct (HandlerServiceClient x) eqn:Ex; cbn [negb]; [|intros [= <- <-]; split; [done|by left]].
    set (s2 := if duplicateEmailAccountTypes a' then _ else s0). assert (running s2 = running s0 \/ running s2 = rm_user (uTag u) (uEmail u) (running s0)) as H2.
    { subst s2. destruct (duplicateEmailAccountTypes a'); [|by left]. destruct (RemoveUser x s0 (uTag u) (uEmail u)) as [s3 e3] eqn:E3. by apply RemoveUser_effect in E3 as [_ E3]. }
    pose proof (AddUser_law s2 (uTag u) (uEmail u) a') as H. intros E. rewrite E in H. destruct H as [Ha Hb].
    { intros _. destruct H2 as [-> | ->]; [done|]. left. apply user_at_rm. }
    split; [intros En; rewrite (Ha En)|intros En; rewrite (Hb En); done]. destruct H2 as [-> | ->]; [done|]. apply add_rm.
  - intros d s0 s1 err [= <-] _ E. by apply RemoveUser_effect in E as [E _].
Qed.
End Run.

(** ** The loops of a hot application

    A loop of calls that succeeds composes the effects of its calls; what the composition
    holds at one tag depends on the operations for that tag only. *)

Section Loops.
Context {HJ : JSONText} {HC : Conf} {HL : JSONLaws} {HCL : ConfLaws} {S : Type} {HX : XrayCore S} {HXL : XrayLaws S}.
Implicit Types (s : S) (r : Running).

Lemma and_then_ok (p : S * bool) f s' : and_then p f = (s', true) -> exists s1, p = (s1, true) /\ f s1 = (s', true).
Proof. unfold and_then. destruct p as [s1 []]; cbn; [eauto|done]. Qed.

(** Calls made for the entries of a list, each standing for one of another list. *)
Lemma calls_effect {A B} (R : A -> B -> Prop) (eff : A -> Running -> Running) (I : Running -> Prop) (f : S -> B -> S * bool) l k :
  Forall2 R l k -> (forall x y s s', x ∈ l -> R x y -> I (running s) -> f s y = (s', true) -> running s' = eff x (running s)) ->
  (forall x r, x ∈ l -> I r -> I (eff x r)) ->
  forall s s', I (running s) -> calls f s k = (s', true) -> running s' = foldl (fun r x => eff x r) (running s) l.
Proof.
  induction 1 as [|x y l k HR Hl IH]; intros Hf HI s s' H0 H; cbn in H; [by injection H as <-|].
  destruct (f s y) as [s1 ok] eqn:E. destruct ok; [|done]. assert (running s1 = eff x (running s)) as E1 by (eapply Hf; eauto; left). cbn. rewrite <-E1. apply IH.
  - intros x' y' s0 s0' Hin. apply Hf. by right.
  - intros x' r Hin. apply HI. by right.
  - rewrite E1. apply HI; [left|done].
  - done.
Qed.
Lemma calls_effect_same {A} (eff : A -> Running -> Running) (I : Running -> Prop) (f : S -> A -> S * bool) l :
  (forall x s s', x ∈ l -> I (running s) -> f s x = (s', true) -> running s' = eff x (running s)) -> (forall x r, x ∈ l -> I r -> I (eff x r)) ->
  forall s s', I (running s) -> calls f s l = (s', true) -> running s' = foldl (fun r x => eff x r) (running s) l.
Proof.
  intros Hf HI. apply (calls_effect (fun x y => x = y) eff I f l l); [by apply Forall2_same_length_lookup_2; [|intros; congruence]| |done].
  intros x y s s' Hin <-. by apply Hf.
Qed.

Lemma fold_inbounds {A} (g : A -> gmap string handler -> gmap string handler) l r :
  foldl (fun r x => put_inbounds (g x) r) r l = put_inbounds (fun m => foldl (fun m x => g x m) m l) r.
Proof. revert r. induction l as [|x l IH]; intros r; [by destruct r|]. cbn. by rewrite IH. Qed.
Lemma fold_outbounds {A} (g : A -> gmap string string -> gmap string string) l r :
  foldl (fun r x => put_outbounds (g x) r) r l = put_outbounds (fun m => foldl (fun m x => g x m) m l) r.
Proof. revert r. induction l as [|x l IH]; intros r; [by destruct r|]. cbn. by rewrite IH. Qed.

(** ** Results at one tag *)

Lemma fold_users_lookup (step : UserOp -> gmap string account -> gmap string account) l (m : gmap string handler) t :
  foldl (fun m u => alter (on_users (step u)) (uTag u) m) m l !! t =
  on_users (fun users => foldl (fun users u => step u users) users (filter (fun u => uTag u = t) l)) <$> m !! t.
Proof.
  revert m. induction l as [|u l IH]; intros m; cbn [foldl].
  - change (filter _ []) with (@nil UserOp). cbn. destruct (m !! t); [|done]. cbn. f_equal. by rewrite on_users_id.
  - rewrite IH. destruct (decide (uTag u = t)) as [E|Hne].
    + rewrite filter_cons_True, E, lookup_alter_eq by done. by destruct (m !! t).
    + by rewrite filter_cons_False, lookup_alter_ne.
Qed.
Lemma fold_delete_lookup {V} (l : list string) (m : gmap string V) t :
  foldl (fun m x => delete x m) m l !! t = match filter (fun x => x = t) l with [] => m !! t | _ => None end.
Proof.
  induction l as [|x l IH] using rev_ind; [done|]. rewrite foldl_app, filter_app. cbn [foldl]. destruct (decide (x = t)) as [->|Hne].
  - rewrite lookup_delete_eq, filter_cons_True by done. by destruct (filter _ l).
  - rewrite lookup_delete_ne, IH, filter_cons_False by done. by rewrite app_nil_r.
Qed.
Lemma fold_insert_lookup {A V} (key : A -> string) (val : A -> V) l (m : gmap string V) t :
  foldl (fun m x => <[key x := val x]> m) m l !! t = match last (filter (fun x => key x = t) l) with Some x => Some (val x) | None => m !! t end.
Proof.
  induction l as [|x l IH] using rev_ind; [done|]. rewrite foldl_app, filter_app. cbn [foldl]. destruct (decide (key x = t)) as [<-|Hne].
  - rewrite lookup_insert_eq, filter_cons_True by done. change (filter _ []) with (@nil A). by rewrite last_snoc.
  - rewrite lookup_insert_ne, IH, filter_cons_False by done. by rewrite app_nil_r.
Qed.

(** What the inbounds of an instance are after the operations of a diff, tag by tag. *)
Lemma inbounds_after d G (m : gmap string handler) t :
  foldl (fun m u => alter (on_users (insert (uEmail u) (op_account u))) (uTag u) m)
    (foldl (fun m ib => <[Tag ib := handler_of ib]> m)
      (foldl (fun m x => delete x m) (foldl (fun m u => alter (on_users (delete (uEmail u))) (uTag u) m) m (RemovedUsers d)) (RemovedInboundTags d)) G) (AddedUsers d) !! t =
  carried_out (view d G t) (m !! t).
Proof.
  rewrite (fold_users_lookup (fun u => insert (uEmail u) (op_account u))), fold_insert_lookup, fold_delete_lookup, (fold_users_lookup (fun u => delete (uEmail u))). done.
Qed.
Lemma inbounds_swapped d G (m : gmap string handler) t :
  foldl (fun m ib => <[Tag ib := handler_of ib]> m)
    (foldl (fun m x => delete x m) (foldl (fun m u => alter (on_users (delete (uEmail u))) (uTag u) m) m (RemovedUsers d)) (RemovedInboundTags d)) G !! t =
  swapped (view d G t) (m !! t).
Proof. rewrite fold_insert_lookup, fold_delete_lookup, (fold_users_lookup (fun u => delete (uEmail u))). done. Qed.

(** ** Outbounds *)

Lemma parse_elems_ok l : forall seen es, parse_elems seen l = Some es ->
  NoDup (tag <$> es) /\ forall e, e ∈ es -> tag e ∉ seen /\ unmarshal_tag (raw e) = Some (tag e) /\ canonicalJSON (raw e) = Some (onorm e).
Proof.
  induction l as [|x l IH]; intros seen es H; cbn in H. { injection H as <-. split; [constructor|]. intros e He. by apply not_elem_of_nil in He. }
  destruct (unmarshal_tag x) as [t|] eqn:Et; [|done]. cbn in H. case_bool_decide; [done|]. case_bool_decide as Hs; [done|].
  destruct (canonicalJSON x) as [n|] eqn:En; [|done]. cbn in H. destruct (parse_elems _ l) as [es'|] eqn:E; [|done]. cbn in H. injection H as <-.
  apply IH in E as [Hnd He]. split.
  - constructor; [|done]. intros (e & E & Hin)%list_elem_of_fmap. cbn in E. destruct (He e Hin) as [Hne _]. set_solver.
  - intros e [->|Hin]%elem_of_cons; [done|]. destruct (He e Hin) as (Hne & ? & ?). split_and!; [set_solver|done..].
Qed.
Lemma parseOutbounds_ok text es : parseOutbounds text = Some es ->
  NoDup (tag <$> es) /\ forall e, e ∈ es -> unmarshal_tag (raw e) = Some (tag e) /\ canonicalJSON (raw e) = Some (onorm e).
Proof.
  unfold parseOutbounds. case_bool_decide. { intros [= <-]. split; [constructor|]. intros e He. by apply not_elem_of_nil in He. }
  destruct (unmarshal_array text) as [l|]; [|done]. cbn. intros [Hnd He]%parse_elems_ok. split; [done|]. intros e Hin. by apply He in Hin as [_ Hin].
Qed.
Lemma entries_by_tag_spec l : NoDup (tag <$> l) -> forall t e, entries_by_tag l !! t = Some e <-> e ∈ l /\ tag e = t.
Proof.
  intros Hnd t e. unfold entries_by_tag. rewrite <-elem_of_list_to_map by (by rewrite <-list_fmap_compose). rewrite list_elem_of_fmap. split.
  - by intros (e' & [= -> ->] & Hin).
  - intros [Hin <-]. eauto.
Qed.

(** The entries whose texts are added, and those whose tags are removed. *)
Definition gone_entries (o n : list outboundEntry) : list outboundEntry := filter (outdated (entries_by_tag n)) o.
Definition new_entries (o n : list outboundEntry) : list outboundEntry :=
  omap (fun e => entries_by_tag n !! tag e) (gone_entries o n) ++ filter (fun e => entries_by_tag o !! tag e = None) n.

Lemma diffOutbounds_cases old new d d' : diffOutbounds old new d = Some d' ->
  exists o n, parseOutbounds (OutboundConfigs old) = Some o /\ parseOutbounds (OutboundConfigs new) = Some n /\ same_default o n = true /\
    d' = with_outbounds d (tag <$> gone_entries o n) (raw <$> new_entries o n).
Proof.
  unfold diffOutbounds. destruct (parseOutbounds (OutboundConfigs old)) as [o|]; [|done]. destruct (parseOutbounds (OutboundConfigs new)) as [n|]; [|done]. cbn.
  destruct (same_default o n) eqn:E; [|done]. cbn. intros [= <-]. exists o, n. split_and!; [done..|]. f_equal. unfold new_entries. rewrite fmap_app. f_equal. by rewrite list_fmap_omap.
Qed.

Lemma same_default_heads o n : same_default o n = true ->
  o = [] /\ n = [] \/ exists a o' b n', o = a :: o' /\ n = b :: n' /\ tag a = tag b /\ onorm a = onorm b.
Proof. destruct o as [|a o'], n as [|b n']; try done; [by left|]. cbn. rewrite andb_true_iff, !bool_decide_eq_true. intros [? ?]. right. eauto 10. Qed.

Section Entries.
Context (o n : list outboundEntry) (Ndo : NoDup (tag <$> o)) (Ndn : NoDup (tag <$> n)).

Lemma elem_gone e : e ∈ gone_entries o n <-> e ∈ o /\ outdated (entries_by_tag n) e.
Proof. unfold gone_entries. rewrite list_elem_of_filter. tauto. Qed.
Lemma elem_new e : e ∈ new_entries o n <-> e ∈ n /\ (entries_by_tag o !! tag e = None \/ exists e', entries_by_tag o !! tag e = Some e' /\ onorm e' <> onorm e).
Proof.
  unfold new_entries. rewrite elem_of_app, list_elem_of_omap, list_elem_of_filter. split.
  - intros [(e' & [He' Hd]%elem_gone & E)|[E He]]; [|auto]. unfold outdated in Hd. rewrite E in Hd. apply entries_by_tag_spec in E as [Hin Et]; [|done]. split; [done|]. right. exists e'.
    split; [|done]. by apply entries_by_tag_spec.
  - intros [Hin [E|(e' & E & Hne)]]; [by right|left]. apply entries_by_tag_spec in E as [He' Et]; [|done]. pose proof (proj2 (entries_by_tag_spec n Ndn (tag e) e) (conj Hin eq_refl)) as En.
    exists e'. rewrite Et. split; [|done]. apply elem_gone. split; [done|]. unfold outdated. by rewrite Et, En.
Qed.

(** Neither the tags removed nor those added are the default's. *)
Lemma default_kept e : same_default o n = true -> e ∈ gone_entries o n \/ e ∈ new_entries o n -> is_Some (tag <$> head o) /\ tag <$> head o <> Some (tag e).
Proof.
  intros [[Eo En]|(o0 & o' & n0 & n' & Eo & En & Et & Eq)]%same_default_heads H.
  - unfold new_entries, gone_entries in H. rewrite Eo, En in H. destruct H as [H|H]; by apply not_elem_of_nil in H.
  - rewrite Eo at 1 2. cbn [head fmap option_fmap option_map]. split; [eauto|]. intros [= E].
    assert (entries_by_tag o !! tag o0 = Some o0) as Ho by (apply entries_by_tag_spec; [done|rewrite Eo; split; [left|done]]).
    assert (entries_by_tag n !! tag o0 = Some n0) as Hn by (apply entries_by_tag_spec; [done|rewrite En, Et; split; [left|done]]).
    destruct H as [H|H].
    + apply elem_gone in H as [Hin Hd]. unfold outdated in Hd. rewrite <-E, Hn in Hd. assert (entries_by_tag o !! tag o0 = Some e) as He by (apply entries_by_tag_spec; auto). congruence.
    + apply elem_new in H as [Hin Hd]. rewrite <-E, Ho in Hd. assert (entries_by_tag n !! tag o0 = Some e) as He by (apply entries_by_tag_spec; auto). naive_solver.
Qed.

(** Outbounds that are each as before or as after become the new ones. *)
Lemma outbounds_converge (m : gmap string string) : (forall t, m !! t = (onorm <$> entries_by_tag o) !! t \/ m !! t = (onorm <$> entries_by_tag n) !! t) ->
  foldl (fun m e => <[tag e := onorm e]> m) (foldl (fun m x => delete x m) m (tag <$> gone_entries o n)) (new_entries o n) = onorm <$> entries_by_tag n.
Proof.
  intros Hm. apply map_eq. intros t. specialize (Hm t). rewrite fold_insert_lookup, fold_delete_lookup. rewrite !lookup_fmap in *.
  destruct (last (filter _ (new_entries o n))) as [e|] eqn:El.
  - apply last_Some_elem_of, list_elem_of_filter in El as [<- [Hin _]%elem_new]. by rewrite (proj2 (entries_by_tag_spec n Ndn (tag e) e) (conj Hin eq_refl)).
  - apply last_None in El. assert (forall e, e ∈ new_entries o n -> tag e <> t) as Hnone. { intros e He Et. assert (e ∈ filter (fun e => tag e = t) (new_entries o n)) as H by (by apply list_elem_of_filter). rewrite El in H. by apply not_elem_of_nil in H. }
    destruct (entries_by_tag n !! t) as [x|] eqn:En.
    + pose proof En as [Hx Et]%entries_by_tag_spec; [|done]. destruct (entries_by_tag o !! t) as [y|] eqn:Eo.
      2:{ destruct (Hnone x); [|done]. apply elem_new. rewrite Et. auto. }
      destruct (decide (onorm y = onorm x)) as [E|Hne]. 2:{ destruct (Hnone x); [|done]. apply elem_new. rewrite Et. eauto. }
      replace (filter _ (tag <$> gone_entries o n)) with (@nil string); [cbn in Hm; rewrite E in Hm; by destruct Hm|]. symmetry. apply filter_all_out. intros t' (g & -> & [Hg Hd]%elem_gone)%list_elem_of_fmap Eg.
      unfold outdated in Hd. rewrite Eg, En in Hd. assert (entries_by_tag o !! t = Some g) as H by (by apply entries_by_tag_spec). congruence.
    + destruct (filter _ (tag <$> gone_entries o n)) eqn:Ef; [|done]. destruct (entries_by_tag o !! t) as [y|] eqn:Eo; [|by destruct Hm].
      pose proof Eo as [Hy Et]%entries_by_tag_spec; [|done]. assert (t ∈ filter (fun x => x = t) (tag <$> gone_entries o n)) as H; [|rewrite Ef in H; by apply not_elem_of_nil in H].
      apply list_elem_of_filter. split; [done|]. rewrite <-Et. apply list_elem_of_fmap_2, elem_gone. split; [done|]. unfold outdated. by rewrite Et, En.
Qed.
End Entries.
End Loops.
