(* ===== verification/HotTheorems.v ===== *)
(** * A small JSON and a core in memory

    A stand-in for encoding/json that knows a few texts, and a core that keeps what it
    runs in memory; both satisfy the laws the theorems assume of the real ones. *)
From S2P Require Import Prelude HotDiff XrayApi HotApply HotFacts HotRun.
Open Scope string_scope.
Open Scope Z_scope.
Open Scope list_scope.

(** ** A printer that tells decoded values apart *)

Module Printer.
Abbreviation chars := (list Ascii.ascii).
Definition c (n : nat) : Ascii.ascii := Ascii.ascii_of_nat n.
(** Every item is announced by a 1, the end by a 0. *)
Fixpoint str (s : string) : chars := match s with EmptyString => [c 48] | String a rest => c 49 :: a :: str rest end.
Fixpoint code (v : value) : chars :=
  match v with
  | VNull => [c 110] | VBool true => [c 116] | VBool false => [c 102]
  | VNumber d => c 35 :: str d | VString s => c 115 :: str s
  | VArray l => c 91 :: (fix go l := match l with [] => [c 48] | v :: rest => c 49 :: code v ++ go rest end) l
  | VObject o => c 123 :: (fix go o := match o with [] => [c 48] | (k, v) :: rest => c 49 :: str k ++ code v ++ go rest end) o
  | _ => [c 63]
  end.
Fixpoint clean (v : value) : bool :=
  match v with
  | VNull | VBool _ | VNumber _ | VString _ => true
  | VArray l => forallb clean l
  | VObject o => forallb (fun f => clean f.2) o
  | _ => false
  end.

Lemma str_inj s : forall s' r r', str s ++ r = str s' ++ r' -> s = s' /\ r = r'.
Proof.
  induction s as [|a s IH]; intros [|a' s'] r r'; cbn; try done; [by intros [= ->]|]. intros [= -> E]. by apply IH in E as [-> ->].
Qed.

(** Decoding is unambiguous, whatever follows. *)
Lemma code_inj : forall v v' r r', clean v = true -> clean v' = true -> code v ++ r = code v' ++ r' -> v = v' /\ r = r'.
Proof.
  fix IH 1. intros v v' r r' Hv Hv' E. destruct v as [|[]|d|s|l|o|num den|u|us|ss]; try done.
  1-3: destruct v' as [|[]| | | | | | | |]; try done; cbn in E; injection E as E; by rewrite E.
  - destruct v' as [|[]|d'| | | | | | |]; try done. cbn in E. injection E as E. by apply str_inj in E as [-> ->].
  - destruct v' as [|[]| |s'| | | | | |]; try done. cbn in E. injection E as E. by apply str_inj in E as [-> ->].
  - destruct v' as [|[]| | |l'| | | | |]; try done. cbn [clean] in Hv, Hv'. cbn [code app] in E. injection E as E. revert l' Hv' E.
    induction l as [|x l IHl]; intros [|x' l'] Hv' E; try done; [cbn in E; by injection E as ->|]. cbn in Hv, Hv'. apply andb_true_iff in Hv as [Hx Hv], Hv' as [Hx' Hv'].
    cbn [app] in E. injection E as E. rewrite <-!app_assoc in E. apply IH in E as [-> E]; [|done..]. apply IHl in E as [[= ->] ->]; done.
  - destruct v' as [|[]| | | |o'| | | |]; try done. cbn [clean] in Hv, Hv'. cbn [code app] in E. injection E as E. revert o' Hv' E.
    induction o as [|[k x] o IHo]; intros [|[k' x'] o'] Hv' E; try done; [cbn in E; by injection E as ->|]. cbn in Hv, Hv'. apply andb_true_iff in Hv as [Hx Hv], Hv' as [Hx' Hv'].
    cbn [app] in E. injection E as E. rewrite <-!app_assoc in E. apply str_inj in E as [-> E]. apply IH in E as [-> E]; [|done..]. apply IHo in E as [[= ->] ->]; done.
Qed.

Definition print (v : value) : string := String.string_of_list_ascii (code v).
Lemma print_inj v v' : clean v = true -> clean v' = true -> print v = print v' -> v = v'.
Proof.
  intros H H' E. unfold print in E. apply (f_equal String.list_ascii_of_string) in E. rewrite !String.list_ascii_of_string_of_list_ascii in E.
  apply (code_inj v v' [] []); [done..|]. by rewrite !app_nil_r.
Qed.
Lemma print_text v : print v <> "".
Proof. unfold print. by destruct v as [|[]| | | | | | | |]. Qed.

Lemma field_elem k o w : field k o = Some w -> (k, w) ∈ o.
Proof. induction o as [|[k' w'] o IH]; cbn; [done|]. case_bool_decide as Hk; [intros [= ->]; subst; by left|]. intros Hf. right. auto. Qed.
Lemma clean_part v w : part v w -> clean w = true -> clean v = true.
Proof.
  induction 1 as [v|v k w o Hf Hp IH|v w l Hin Hp IH]; [done|..]; intros H; apply IH; cbn in H; rewrite forallb_forall in H; [apply (H (k, w)), list_elem_of_In, field_elem, Hf|by apply H, list_elem_of_In].
Qed.
End Printer.

(** ** Texts *)

Module Texts.
Definition client (email id : string) : value := VObject [("email", VString email); ("id", VString id)].
Definition settings (clients : list value) : value := VObject [("clients", VArray clients); ("decryption", VString "none")].
Definition outbound (t p : string) : value := VObject [("protocol", VString p); ("tag", VString t)].

Definition table : list (string * value) :=
  [("users-1", settings [client "ann" "id-a"; client "bob" "id-b"; client "cid" "id-c"]);
   ("users-2", settings [client "ann" "id-a"; client "bob" "id-new"; client "dan" "id-d"]);
   ("plain", settings []);
   ("freedom", outbound "direct" "freedom"); ("socks", outbound "out" "socks"); ("http", outbound "out" "http"); ("vless", outbound "far" "vless");
   ("rules-1", VObject [("domainStrategy", VString "AsIs"); ("rules", VArray [])]);
   ("rules-2", VObject [("domainStrategy", VString "AsIs"); ("rules", VArray [VString "field"])]);
   ("[1]", VArray [outbound "direct" "freedom"; outbound "out" "socks"]);
   ("[2]", VArray [outbound "direct" "freedom"; outbound "out" "http"; outbound "far" "vless"]);
   ("inbound-b", VObject [("tag", VString "in-b")])].
Fixpoint find (t : string) (l : list (string * value)) : option value :=
  match l with [] => None | (k, v) :: rest => if bool_decide (k = t) then Some v else find t rest end.

Definition in_a (users : string) : InboundConfig := mkInboundConfig "" 443 "vless" users "" "in-a" "".
Definition in_b (port : Z) : InboundConfig := mkInboundConfig "" port "trojan" "plain" "" "in-b" "".
#[global] Instance inbound_eq_dec : EqDecision InboundConfig.
Proof. solve_decision. Defined.

#[global] Instance texts : JSONText := {|
  Decode t := find t table;
  Marshal := Printer.print;
  Unmarshal t := find t table;
  unmarshal_array t := if bool_decide (t = "[1]") then Some ["freedom"; "socks"] else if bool_decide (t = "[2]") then Some ["freedom"; "http"; "vless"] else None;
  unmarshal_tag t := match find t table with Some (VObject o) => match field "tag" o with Some (VString s) => Some s | None => Some "" | _ => None end | _ => None end;
  unmarshal_security t := Some "";
  unmarshal_reverse t := Some [];
  marshal_inbound ib := if bool_decide (ib = in_b 81) then Some "inbound-b" else None |}.

Lemma table_clean t v : find t table = Some v -> Printer.clean v = true.
Proof.
  assert (forallb (fun f => Printer.clean f.2) table = true) as H by (vm_compute; reflexivity). induction table as [|[k w] l IH]; [done|]. cbn in *. apply andb_true_iff in H as [Hw H].
  case_bool_decide; [by intros [= <-]|auto].
Qed.
#[global] Instance texts_laws : JSONLaws.
Proof.
  split.
  - intros v v' (t & w & Ht & Hp) (t' & w' & Ht' & Hp'). apply table_clean in Ht, Ht'. apply Printer.print_inj; by eapply Printer.clean_part.
  - apply Printer.print_text.
  - intros ib raw. cbn. case_bool_decide as E; [|done]. intros [= <-]. by rewrite E.
Qed.

(** ** The loader *)

Definition str_of (u : object) (k : string) : string := match field k u with Some (VString s) => s | _ => "" end.
Definition account_of (p : string) (u : object) : account :=
  if bool_decide (p = "vmess") then VmessAccount (str_of u "id")
  else if bool_decide (p = "vless") then
    VlessAccount (str_of u "id") (str_of u "flow") (let t := reverseTag (field "reverse" u) in if bool_decide (t = "") then None else Some t) [] 0
  else if bool_decide (p = "trojan") then TrojanAccount (str_of u "password")
  else HysteriaAccount (str_of u "auth").
(** [handler_of] with the accounts above. *)
Definition built (ib : InboundConfig) : handler :=
  match splitSettingsClients (Settings ib) with
  | Some (clients, rest) => mkHandler (Port ib) (Protocol ib) (canonicalJSON (Listen ib)) (canonicalJSON (StreamSettings ib)) (canonicalJSON (Sniffing ib))
                              (true, Some rest) ((fun c => account_of (Protocol ib) (user c)) <$> clients)
  | None => mkHandler (Port ib) (Protocol ib) (canonicalJSON (Listen ib)) (canonicalJSON (StreamSettings ib)) (canonicalJSON (Sniffing ib))
              (false, canonicalJSON (Settings ib)) ∅
  end.
#[global] Instance loader : Conf := {|
  Rules := string;
  build_inbound raw := if bool_decide (raw = "inbound-b") then inr ("in-b", built (in_b 81)) else inl "unknown inbound";
  build_outbound raw := match unmarshal_tag raw, canonicalJSON raw with Some t, Some n => inr (t, n) | _, _ => inl "unknown outbound" end;
  build_routing raw := if bool_decide (raw = "") then inl "no routing" else inr raw;
  conf_account := account_of |}.
#[global] Instance loader_laws : ConfLaws.
Proof.
  split.
  - intros ib raw c Hm Hb. cbn in Hm. case_bool_decide as E; [|done]. injection Hm as <-. cbn in Hb. injection Hb as <-. by rewrite E.
  - intros raw t n c Ht Hn Hb. change (match unmarshal_tag raw, canonicalJSON raw with Some t, Some n => inr (t, n) | _, _ => inl "unknown outbound" end = inr c) in Hb. rewrite Ht, Hn in Hb. by injection Hb.
  - intros u id E. change (VmessAccount (str_of u "id") = VmessAccount id). unfold str_of. by rewrite E.
  - intros u id flow Hp E Ef. set (rev := let t := reverseTag (field "reverse" u) in if bool_decide (t = "") then None else Some t). change (VlessAccount (str_of u "id") (str_of u "flow") rev [] 0 = VlessAccount id flow rev [] 0).
    unfold str_of. rewrite E. unfold getOptionalUserString in Ef. destruct (field "flow" u) as [[]|]; try done; by injection Ef as <-.
  - intros u id E. change (TrojanAccount (str_of u "password") = TrojanAccount id). unfold str_of. by rewrite E.
  - intros u id E. change (HysteriaAccount (str_of u "auth") = HysteriaAccount id). unfold str_of. by rewrite E.
Qed.
End Texts.

(** ** The core *)

Module Memory.
Section Memory.
Context {HJ : JSONText} {HC : Conf}.
Implicit Types (r : Running).

Definition exists_err : option string := Some "app/proxyman/inbound: existing tag found".
Definition missing_err : option string := Some "handler not found".
Definition user_err : option string := Some "User already exists.".

#[global] Instance core : XrayCore Running := {|
  rpc_AddInbound r c := if bool_decide (is_Some (r_inbounds r !! c.1)) then (r, exists_err) else (put_inbounds (insert c.1 c.2) r, None);
  rpc_RemoveInbound r t := if bool_decide (is_Some (r_inbounds r !! t)) then (put_inbounds (delete t) r, None) else (r, missing_err);
  rpc_AddOutbound r c := if bool_decide (is_Some (r_outbounds r !! c.1)) then (r, exists_err) else (put_outbounds (insert c.1 c.2) r, None);
  rpc_RemoveOutbound r t := if bool_decide (is_Some (r_outbounds r !! t)) then (put_outbounds (delete t) r, None) else (r, missing_err);
  rpc_AddUser r t e a :=
    if bool_decide (is_Some (r_inbounds r !! t)) then
      if bool_decide (is_Some (user_at r t e)) && negb (duplicateEmailAccountTypes a) then (r, user_err) else (put_inbounds (alter (on_users (insert e a)) t) r, None)
    else (r, missing_err);
  rpc_RemoveUser r t e := if bool_decide (is_Some (user_at r t e)) then (put_inbounds (alter (on_users (delete e)) t) r, None) else (r, missing_err);
  rpc_AddRule r x := (put_rules (Some x) r, None) |}.

Lemma put_same_inbounds f r : f (r_inbounds r) = r_inbounds r -> put_inbounds f r = r.
Proof. destruct r. unfold put_inbounds. cbn. by intros ->. Qed.
Lemma put_same_outbounds f r : f (r_outbounds r) = r_outbounds r -> put_outbounds f r = r.
Proof. destruct r. unfold put_outbounds. cbn. by intros ->. Qed.
(** A user that is not there is removed by doing nothing. *)
Lemma rm_absent r t e : ~ is_Some (user_at r t e) -> put_inbounds (alter (on_users (delete e)) t) r = r.
Proof.
  intros H. apply put_same_inbounds, map_eq. intros t'. destruct (decide (t = t')) as [<-|Hne]; [|by rewrite lookup_alter_ne]. rewrite lookup_alter_eq. unfold user_at in H.
  destruct (r_inbounds r !! t) as [h|]; [|done]. cbn in *. f_equal. unfold on_users. rewrite delete_id; [by destruct h|]. by apply eq_None_not_Some.
Qed.
#[global] Instance core_laws : XrayLaws Running.
Proof.
  refine {| running := fun r => r |}.
  - intros r c. cbn. by case_bool_decide.
  - intros r t. cbn. case_bool_decide as H; [done|]. intros _. symmetry. apply put_same_inbounds, delete_id. by apply eq_None_not_Some.
  - intros r c _. cbn. by case_bool_decide.
  - intros r t _. cbn. case_bool_decide as H; [done|]. intros _. symmetry. apply put_same_outbounds, delete_id. by apply eq_None_not_Some.
  - intros r t e a _. cbn. case_bool_decide; [|done]. by destruct (_ && _).
  - intros r t e. cbn. case_bool_decide as H; [by auto|]. split; [|by left]. intros _. symmetry. by apply rm_absent.
  - intros r x. done.
Defined.
End Memory.
End Memory.

(** ** A hot application converges

    Theorems about [ComputeHotDiff] and [ApplyHotDiff] together, with a small core in
    memory and a small JSON to apply them to. *)

Section Theorems.
Context {HJ : JSONText} {HC : Conf} {HL : JSONLaws} {HCL : ConfLaws} {S : Type} {HX : XrayCore S} {HXL : XrayLaws S}.
Implicit Types (s : S) (r : Running).

(** Every client is one whose account the panel builds as the core would: it carries no
    [testseed] and no [testpre], and its flow is not xtls-rprx-vision-udp443. *)
Definition plain_config (c : Config) : Prop :=
  forall ib clients rest, ib ∈ InboundConfigs c -> splitSettingsClients (Settings ib) = Some (clients, rest) -> map_Forall (fun _ e => plain_user (user e)) clients.

(** ** The parts of a diff *)

Definition inbounds_only (d d' : HotDiff) : Prop :=
  RemovedOutboundTags d' = RemovedOutboundTags d /\ AddedOutbounds d' = AddedOutbounds d /\ RoutingConfig d' = RoutingConfig d.
Lemma foldO_keeps {A} (f : HotDiff -> A -> option HotDiff) l : (forall d x d', f d x = Some d' -> inbounds_only d d') ->
  forall d d', foldO f d l = Some d' -> inbounds_only d d'.
Proof.
  intros Hf. induction l as [|x l IH]; intros d d' H; cbn in H; [by injection H as <-|]. destruct (f d x) as [d1|] eqn:E; [|done]. apply Hf in E. cbn in H. apply IH in H.
  unfold inbounds_only in *. intuition congruence.
Qed.
Lemma diffInbounds_only old new d d' : diffInbounds old new d = Some d' -> inbounds_only d d'.
Proof.
  unfold diffInbounds. destruct (inboundsByTag (InboundConfigs old)) as [ob|]; [|done]. destruct (inboundsByTag (InboundConfigs new)) as [nb|]; [|done]. cbn. destruct (foldO (diff_old _ _) _ _) as [d1|] eqn:E1; [|done]. cbn. intros E2.
  enough (inbounds_only d d1 /\ inbounds_only d1 d') by (unfold inbounds_only in *; intuition congruence).
  split; [eapply foldO_keeps; [|exact E1]|eapply foldO_keeps; [|exact E2]]; clear; intros d x d'.
  - unfold diff_old. destruct (_ !! _) as [n|]; [|destruct (is_api _ _); [done|]; by intros [= <-]]. destruct (inboundEqualNormalized _ _); [by intros [= <-]|].
    destruct (is_api _ _); [done|]. destruct (_ || _); [done|]. destruct (diffInboundUsers _ _ _) as [d2|] eqn:Eu.
    + apply diffInboundUsers_cases in Eu as (? & ? & _ & ->). by intros [= <-].
    + destruct (_ || _); [done|]. destruct (marshal_inbound n); [|done]. by intros [= <-].
  - unfold diff_new. case_bool_decide; [by intros [= <-]|]. destruct (is_api _ _); [done|]. destruct (marshal_inbound x); [|done]. by intros [= <-].
Qed.

Lemma by_tag_meaning l m : inboundsByTag l = Some m -> list_to_map ((fun ib => (Tag ib, handler_of ib)) <$> l) = handler_of <$> m.
Proof.
  intros [Hnd Hm]%inboundsByTag_spec. apply map_eq. intros t. rewrite lookup_fmap. apply option_eq. intros h.
  rewrite <-elem_of_list_to_map by (by rewrite <-list_fmap_compose). rewrite list_elem_of_fmap, fmap_Some. split.
  - intros (ib & [= -> ->] & Hin). exists ib. split; [|done]. by apply Hm.
  - intros (ib & [Hin <-]%Hm & ->). eauto.
Qed.
Lemma static_same l l' : length l = length l' -> forallb (fun p => rawEqualNormalized p.1 p.2) (zip l l') = true -> canonicalJSON <$> l = canonicalJSON <$> l'.
Proof.
  revert l'. induction l as [|a l IH]; intros [|b l'] Hlen; try done. cbn. rewrite andb_true_iff. intros [E H]. f_equal; [by apply rawEqual_canonical|]. apply IH; [by injection Hlen|done].
Qed.
Lemma diffRouting_cases old new d d' : diffRouting old new d = Some d' ->
  routingWithoutReloadable (RouterConfig old) = routingWithoutReloadable (RouterConfig new) /\
  (RouterConfig old = RouterConfig new /\ d' = d \/ d' = with_routing d (RouterConfig new)).
Proof.
  unfold diffRouting. case_bool_decide as E; [intros [= <-]; rewrite E; auto|]. destruct (_ || _); [done|]. destruct (routingWithoutReloadable (RouterConfig old)) as [a|]; [|done].
  destruct (routingWithoutReloadable (RouterConfig new)) as [b|]; [|done]. cbn. case_bool_decide as Er; [|done]. cbn. intros [= <-]. rewrite Er. auto.
Qed.

(** Everything a diff says. *)
Record diff_says (old new : Config) (d : HotDiff) (ob nb : gmap string InboundConfig) (G : list InboundConfig) (o n : list outboundEntry) : Prop := {
  ds_static : canonicalJSON <$> static old = canonicalJSON <$> static new;
  ds_ob : inboundsByTag (InboundConfigs old) = Some ob;
  ds_nb : inboundsByTag (InboundConfigs new) = Some nb;
  ds_written : written nb d G;
  ds_said : forall t, said (ob !! t) (nb !! t) (view d G t);
  ds_o : parseOutbounds (OutboundConfigs old) = Some o;
  ds_n : parseOutbounds (OutboundConfigs new) = Some n;
  ds_default : same_default o n = true;
  ds_gone : RemovedOutboundTags d = tag <$> gone_entries o n;
  ds_new : AddedOutbounds d = raw <$> new_entries o n;
  ds_rest : routingWithoutReloadable (RouterConfig old) = routingWithoutReloadable (RouterConfig new);
  ds_routing : RouterConfig old = RouterConfig new /\ RoutingConfig d = None \/ RoutingConfig d = Some (RouterConfig new) }.
Lemma ComputeHotDiff_says old new d : ComputeHotDiff (Some old) (Some new) = Some d -> exists ob nb G o n, diff_says old new d ob nb G o n.
Proof.
  unfold ComputeHotDiff. destruct (forallb _ _) eqn:Es; [|done]. cbn [negb]. destruct (diffInbounds _ _ _) as [d1|] eqn:E1; [|done]. cbn [mbind option_bind].
  destruct (diffOutbounds _ _ _) as [d2|] eqn:E2; [|done]. cbn [mbind option_bind]. intros E3. pose proof (diffInbounds_only _ _ _ _ E1) as (K1 & K2 & K3).
  apply diffInbounds_said in E1 as (ob & nb & G & Eo & En & Hw & Hs). apply diffOutbounds_cases in E2 as (o & n & Po & Pn & Hd & ->). apply diffRouting_cases in E3 as [Hr Hc].
  exists ob, nb, G, o, n. cbn in K1, K2, K3. destruct Hc as [[Et ->]| ->]; split; try done; try (by apply static_same); cbn; [by rewrite K1|by rewrite K2|by left|by rewrite K1|by rewrite K2|by right].
Qed.

(** ** Applying it *)

Section Converge.
Context (old new : Config) (d : HotDiff) (ob nb : gmap string InboundConfig) (G : list InboundConfig) (o n : list outboundEntry).
Context (Hsays : diff_says old new d ob nb G o n) (Hplain : plain_config new).

Lemma partly_at r t : between (meaning old) (meaning new) r -> partly (handler_of <$> ob !! t) (handler_of <$> nb !! t) (r_inbounds r !! t).
Proof.
  intros H. pose proof (bt_inbounds _ _ _ H t) as Ht. destruct Hsays. cbn in Ht. rewrite !(by_tag_meaning _ _ ds_ob0), !(by_tag_meaning _ _ ds_nb0), !lookup_fmap in Ht.
  unfold partly. destruct Ht as [->|[->|(ho & hn & h & -> & -> & -> & Hu)]]; [by left|by right; left|]. right. right. exists ho, hn, h. auto.
Qed.
Lemma added_from u r : between (meaning old) (meaning new) r -> u ∈ AddedUsers d -> good_op u /\
  (forall u', u' ∈ AddedUsers d -> uTag u' = uTag u -> uEmail u' = uEmail u -> op_account u' = op_account u) /\
  exists hm, swapped (view d G (uTag u)) (r_inbounds r !! uTag u) = Some hm /\ (h_users hm !! uEmail u = None \/ h_users hm !! uEmail u = Some (op_account u)).
Proof.
  intros Hb Hu. assert (forall u', u' ∈ AddedUsers d -> uTag u' = uTag u -> u' ∈ (view d G (uTag u)).2) as Hin by (intros u' H1 H2; by apply list_elem_of_filter).
  pose proof (said_additions _ _ _ _ u (ds_said _ _ _ _ _ _ _ _ Hsays (uTag u)) (partly_at r (uTag u) Hb) (Hin u Hu eq_refl)) as (o' & n' & oc & nc & Eo & En & Hd & Ha & Hsw).
  pose proof (ud_settings _ _ _ _ Hd) as (rest & So & Sn).
  pose proof (elem_additions _ _ _ _ _ Ha) as (Ht & Hp & c & Hc & Huser & _). pose proof (split_ok _ _ _ Sn _ _ Hc) as (_ & Hem & _).
  split_and!; [split; [rewrite Hp; apply Hd|exists (user c); split_and!; [done..|]]| |done].
  - eapply (Hplain n'); [|exact Sn|exact Hc]. by apply (inboundsByTag_spec _ _ (ds_nb _ _ _ _ _ _ _ _ Hsays)) in En as [? _].
  - intros u' Hu' Et Ee. pose proof (said_additions _ _ _ _ u' (ds_said _ _ _ _ _ _ _ _ Hsays (uTag u)) (partly_at r (uTag u) Hb) (Hin u' Hu' Et)) as (o2 & n2 & oc2 & nc2 & Eo2 & En2 & Hd2 & Ha2 & _).
    rewrite Eo in Eo2. rewrite En in En2. injection Eo2 as <-. injection En2 as <-. pose proof (ud_settings _ _ _ _ Hd2) as (rest2 & So2 & Sn2). rewrite Sn in Sn2. injection Sn2 as <- <-.
    apply elem_additions in Ha2 as (_ & Hp2 & c2 & Hc2 & Hu2 & _). rewrite Ee, Hc in Hc2. injection Hc2 as <-. unfold op_account. by rewrite Huser, Hu2, Hp, Hp2.
Qed.

(** The phases. *)
Lemma phase_users_out x s s' : calls (fun s u => removed (RemoveUser x s (uTag u) (uEmail u))) s (RemovedUsers d) = (s', true) ->
  running s' = put_inbounds (fun m => foldl (fun m u => alter (on_users (delete (uEmail u))) (uTag u) m) m (RemovedUsers d)) (running s).
Proof.
  intros H. rewrite <-fold_inbounds. revert H. apply (calls_effect_same _ (fun _ => True)); [|done|done]. intros u s0 s0' _ _ [E1 E2]%removed_ok.
  destruct (RemoveUser _ _ _ _) as [s1 err] eqn:E. cbn in *. subst s1. by apply RemoveUser_effect in E as [E _]; apply E.
Qed.
Lemma phase_inbounds_out x s s' : calls (fun s t => removed (DelInbound x s t)) s (RemovedInboundTags d) = (s', true) ->
  running s' = put_inbounds (fun m => foldl (fun m t => delete t m) m (RemovedInboundTags d)) (running s).
Proof.
  intros H. rewrite <-fold_inbounds. revert H. apply (calls_effect_same _ (fun _ => True)); [|done|done]. intros t s0 s0' _ _ [E1 E2]%removed_ok.
  destruct (DelInbound _ _ _) as [s1 err] eqn:E. cbn in *. subst s1. by eapply DelInbound_effect.
Qed.
Lemma entries_nodup : NoDup (tag <$> o) /\ NoDup (tag <$> n).
Proof. destruct Hsays. apply parseOutbounds_ok in ds_o0, ds_n0. tauto. Qed.
Lemma phase_outbounds_out x s s' : r_default (running s) = tag <$> head o -> calls (fun s t => removed (DelOutbound x s t)) s (RemovedOutboundTags d) = (s', true) ->
  running s' = put_outbounds (fun m => foldl (fun m t => delete t m) m (tag <$> gone_entries o n)) (running s).
Proof.
  intros Hd. rewrite <-fold_outbounds, (ds_gone _ _ _ _ _ _ _ _ Hsays). destruct entries_nodup as [No Nn].
  apply (calls_effect_same _ (fun r => r_default r = tag <$> head o)); [|done|done]. intros t s0 s0' Hin H0 [E1 E2]%removed_ok.
  destruct (DelOutbound _ _ _) as [s1 err] eqn:E. cbn in *. subst s1. eapply DelOutbound_effect; [|done|done]. rewrite H0. apply list_elem_of_fmap in Hin as (e & -> & He).
  apply (default_kept o n No Nn e); [apply Hsays|by left].
Qed.
Lemma phase_outbounds_in x s s' : r_default (running s) = tag <$> head o -> calls (fun s ob => added (addOutboundReconciling x s ob)) s (AddedOutbounds d) = (s', true) ->
  running s' = put_outbounds (fun m => foldl (fun m e => <[tag e := onorm e]> m) m (new_entries o n)) (running s).
Proof.
  intros Hd. rewrite <-fold_outbounds, (ds_new _ _ _ _ _ _ _ _ Hsays). destruct entries_nodup as [No Nn].
  apply (calls_effect (fun e t => t = raw e) _ (fun r => r_default r = tag <$> head o)); [| |done|done].
  - apply Forall2_fmap_r, Forall2_same_length_lookup_2; [done|]. intros; congruence.
  - intros e t s0 s0' Hin -> H0 E%added_ok. destruct (default_kept o n No Nn e) as [D1 D2]; [apply Hsays|by right|]. apply elem_new in Hin as [Hin _]; [|done..].
    destruct (parseOutbounds_ok _ _ (ds_n _ _ _ _ _ _ _ _ Hsays)) as [_ Hraw]. destruct (Hraw e Hin). eapply addOutbound_effect; [done|done|by rewrite H0|by rewrite H0|done].
Qed.
Lemma phase_inbounds_in x s s' : calls (fun s ib => added (addInboundReconciling x s ib)) s (AddedInbounds d) = (s', true) ->
  running s' = put_inbounds (fun m => foldl (fun m ib => <[Tag ib := handler_of ib]> m) m G) (running s).
Proof.
  intros H. rewrite <-fold_inbounds. revert H. apply (calls_effect (fun ib raw => marshal_inbound ib = Some raw) _ (fun _ => True)); [| |done|done].
  - eapply Forall2_impl; [apply Hsays|]. by intros ib raw [? _].
  - intros ib raw s0 s0' _ Hm _ E%added_ok. by eapply addInbound_effect.
Qed.
Lemma phase_users_in x s s' : (forall u, u ∈ AddedUsers d -> good_op u /\ free_for u (running s) /\
    forall u', u' ∈ AddedUsers d -> uTag u' = uTag u -> uEmail u' = uEmail u -> op_account u' = op_account u) ->
  calls (fun s u => added (addUserReconciling x s u)) s (AddedUsers d) = (s', true) ->
  running s' = put_inbounds (fun m => foldl (fun m u => alter (on_users (insert (uEmail u) (op_account u))) (uTag u) m) m (AddedUsers d)) (running s).
Proof.
  intros Hu. rewrite <-fold_inbounds. apply (calls_effect_same _ (fun r => forall u, u ∈ AddedUsers d -> free_for u r)).
  - intros u s0 s0' Hin H0 E%added_ok. destruct (Hu u Hin) as (Hg & _ & _). apply (addUser_effect x); auto.
  - intros u r Hin H0 v Hv. specialize (H0 v Hv). destruct (Hu v Hv) as (_ & _ & Hsame). unfold free_for, user_at, put_inbounds in *. cbn.
    destruct (decide (uTag u = uTag v)) as [Et|Hne]; [|by rewrite lookup_alter_ne]. rewrite Et, lookup_alter_eq. destruct (r_inbounds r !! uTag v) as [h|]; [|by left]. cbn in *.
    destruct (decide (uEmail u = uEmail v)) as [Ee|Hne]; [|by rewrite lookup_insert_ne]. rewrite Ee, lookup_insert_eq, (Hsame u) by done. by right.
  - intros u Hin. by destruct (Hu u Hin) as (_ & ? & _).
Qed.

Lemma routed x s s' (rules : option Rules) : rules = r_rules (meaning old) \/ rules = r_rules (meaning new) ->
  running s = mkRunning _ (r_static (meaning old)) (handler_of <$> nb) (tag <$> head o) (onorm <$> entries_by_tag n) (r_rest (meaning old)) rules ->
  match RoutingConfig d with None => (s, true) | Some routing => added (ApplyRoutingConfig x s routing) end = (s', true) -> running s' = meaning new.
Proof.
  intros Hrules Hs H. assert (running s' = mkRunning _ (r_static (meaning new)) (handler_of <$> nb) (tag <$> head n) (onorm <$> entries_by_tag n) (r_rest (meaning new)) (r_rules (meaning new))) as ->.
  - cbn [meaning r_static r_rest] in *. destruct Hsays. rewrite ds_static0, ds_rest0 in Hs. replace (tag <$> head o) with (tag <$> head n) in Hs.
    2:{ apply same_default_heads in ds_default0 as [[-> ->]|(a & o' & b & n' & -> & -> & Et & _)]; [done|]. cbn. by rewrite Et. }
    destruct ds_routing0 as [[Et E]|E]; rewrite E in H.
    + injection H as <-. rewrite Hs. f_equal. cbn [r_rules meaning] in *. rewrite Et in Hrules. by destruct Hrules.
    + apply added_ok in H. unfold ApplyRoutingConfig in H. destruct (negb _); [done|]. cbn. destruct (build_routing (RouterConfig new)) as [|rl]; [done|].
      pose proof (AddRule_law s rl) as L. rewrite H in L. rewrite L, Hs by done. done.
  - unfold meaning. destruct Hsays. by rewrite (by_tag_meaning _ _ ds_nb0), ds_n0.
Qed.
Lemma apply_converges x s s' : between (meaning old) (meaning new) (running s) -> ApplyHotDiff (Some x) (Some d) s = (s', true) -> running s' = meaning new.
Proof.
  intros Hb H. cbn in H. apply and_then_ok in H as (s6 & H & H7). apply and_then_ok in H as (s5 & H & H6). apply and_then_ok in H as (s4 & H & H5).
  apply and_then_ok in H as (s3 & H & H4). apply and_then_ok in H as (s2 & H & H3). apply and_then_ok in H as (s1 & H1 & H2).
  apply phase_users_out in H1. apply phase_inbounds_out in H2. pose proof (bt_default _ _ _ Hb) as Hdef. cbn in Hdef. rewrite (ds_o _ _ _ _ _ _ _ _ Hsays) in Hdef. cbn in Hdef.
  apply phase_outbounds_out in H3; [|by rewrite H2, H1]. apply phase_outbounds_in in H4; [|by rewrite H3, H2, H1]. apply phase_inbounds_in in H5.
  assert (forall t, r_inbounds (running s5) !! t = swapped (view d G t) (r_inbounds (running s) !! t)) as Hmid. { intros t. rewrite H5, H4, H3, H2, H1. apply inbounds_swapped. }
  apply phase_users_in in H6.
  2:{ intros u Hu. destruct (added_from u _ Hb Hu) as (Hg & Hsame & hm & Es & Hfree). split_and!; [done| |done]. unfold free_for, user_at. by rewrite Hmid, Es. }
  assert (r_inbounds (running s6) = handler_of <$> nb) as Hin.
  { apply map_eq. intros t. rewrite H6, H5, H4, H3, H2, H1. cbn. rewrite inbounds_after, lookup_fmap. eapply said_converges; [apply Hsays|by apply partly_at]. }
  assert (r_outbounds (running s6) = onorm <$> entries_by_tag n) as Hout.
  { rewrite H6, H5, H4, H3, H2, H1. cbn. destruct entries_nodup. apply outbounds_converge; [done..|]. intros t. pose proof (bt_outbounds _ _ _ Hb t) as Ht. cbn in Ht.
    by rewrite (ds_o _ _ _ _ _ _ _ _ Hsays), (ds_n _ _ _ _ _ _ _ _ Hsays) in Ht. }
  assert (running s6 = mkRunning _ (r_static (running s)) (handler_of <$> nb) (r_default (running s)) (onorm <$> entries_by_tag n) (r_rest (running s)) (r_rules (running s))) as H.
  { rewrite <-Hin, <-Hout, H6, H5, H4, H3, H2, H1. done. }
  rewrite (bt_static _ _ _ Hb), Hdef, (bt_rest _ _ _ Hb) in H. eapply (routed x s6 s' (r_rules (running s))); [apply Hb|exact H|exact H7].
Qed.
End Converge.

Lemma applied_in_step x old new d s s' : between (meaning old) (meaning new) (running s) -> plain_config new ->
  ComputeHotDiff (Some old) (Some new) = Some d -> ApplyHotDiff (Some x) (Some d) s = (s', true) -> running s' = meaning new.
Proof. intros Hb Hp (ob & nb & G & o & n & Hs)%ComputeHotDiff_says. by eapply apply_converges. Qed.

(** C15: when [ComputeHotDiff] finds a diff and [ApplyHotDiff] carries it out without a failure,
    the core runs what one started with the new configuration would: every inbound with
    its users, every outbound, the routing rules, and the sections that cannot be
    reloaded, which did not change.  It may start from any part of the change ([between]):
    from the old configuration, from an attempt that broke off, or with handlers and users
    of the change that other callers of the API had already put there or taken away.
    Condition on the new configuration ([plain_config]): none of its clients carries
    [testseed] or [testpre], which the panel reads only as float64 and so loses, or the
    flow xtls-rprx-vision-udp443, which the panel rewrites; for such a client the account
    added to a running core is not the one the core would load. *)
Theorem hot_apply_converges x old new d s s' : between (meaning old) (meaning new) (running s) -> plain_config new ->
  ComputeHotDiff (Some old) (Some new) = Some d -> ApplyHotDiff (Some x) (Some d) s = (s', true) -> running s' = meaning new.
Proof. apply applied_in_step. Qed.

Lemma empty_applies x d s : Empty d = true -> ApplyHotDiff (Some x) (Some d) s = (s, true).
Proof.
  destruct d as [[] [] [] [] ? [] [] r]; try done. unfold Empty. cbn. intros H. by apply bool_decide_eq_true in H as ->.
Qed.
Lemma empty_in_step old new d s : between (meaning old) (meaning new) (running s) -> plain_config new ->
  ComputeHotDiff (Some old) (Some new) = Some d -> Empty d = true -> running s = meaning new.
Proof. intros Hb Hp Hd He. eapply (applied_in_step (mkAPI true true)); [done..|]. by apply empty_applies. Qed.

(** C16: the configuration a process is recorded to run is the one it runs.  Both callers record
    a new configuration only when they report success, and then the core runs it, whether
    calls were made or the diff was empty; on any other outcome the record is the old one,
    for the restart that follows to compare with.  Conditions: before the call the core
    runs the recorded configuration or any part of the change from it to the new one
    ([between]), and no client of the new configuration carries [testseed], [testpre] or
    the flow xtls-rprx-vision-udp443 ([plain_config]), whose accounts the panel does not
    build as the core does. *)
Theorem recorded_config_is_running restart init bindings p old new :
  p_config p = Some old -> between (meaning old) (meaning new) (running (p_core p)) -> plain_config new ->
  (let '(p', ok) := tryHotApply restart init p (Some new) in
   if ok then p_config p' = Some new /\ running (p_core p') = meaning new else p_config p' = Some old) /\
  (let '(p', (ok, err)) := hotApply bindings init p (Some new) in
   if ok then p_config p' = Some new /\ running (p_core p') = meaning new else p_config p' = Some old).
Proof.
  intros Hold Hb Hp. split.
  - unfold tryHotApply. rewrite Hold. destruct (ComputeHotDiff _ _) as [d|] eqn:Ed; [|done]. destruct (Empty d) eqn:Ee; [split; [done|by eapply empty_in_step]|].
    destruct (_ && _); [done|]. destruct (_ <=? 0); [done|]. destruct init as [x|]; [|done]. destruct (ApplyHotDiff _ _ _) as [s' []] eqn:Ea; [|done]. split; [done|by eapply applied_in_step].
  - unfold hotApply. destruct bindings; [done|]. rewrite Hold. destruct (ComputeHotDiff _ _) as [d|] eqn:Ed; [|done]. destruct (Empty d) eqn:Ee; [split; [done|by eapply empty_in_step]|].
    destruct init as [x|]; [|done]. destruct (ApplyHotDiff _ _ _) as [s' []] eqn:Ea; [|done]. split; [done|by eapply applied_in_step].
Qed.

(** A number that was decoded with [UseNumber] is not a float64: a client's test seed, whatever
    it holds, becomes zeros in the account that is added to a running core, and its
    count is dropped. *)
Lemma decoded_numbers_are_lost u id flow l a : field "id" u = Some (VString id) -> getOptionalUserString u "flow" = inr flow ->
  field "testseed" u = Some (VArray l) -> (4 <= length l)%nat -> Forall (fun v => exists digits, v = VNumber digits) l -> field "testpre" u = Some (VNumber a) ->
  exists flow' reverse, buildUserAccount "vless" u = inr (Some (VlessAccount id flow' reverse (repeat 0 (length l)) 0)).
Proof.
  intros Hid Hf Hs Hlen Hl Hp. unfold buildUserAccount, getRequiredUserString, try. rewrite bool_decide_eq_false_2, bool_decide_eq_true_2 by done. rewrite Hid, Hf, Hs, Hp. cbn [testseed_of testpre_of].
  rewrite (proj2 (Z.leb_le _ _)) by lia. do 2 eexists. do 3 f_equal. clear - Hl. induction Hl as [|v l [digits ->] _ IH]; [done|]. cbn. by f_equal.
Qed.
End Theorems.

(** ** The theorems at a change of users, of an inbound's port, of outbounds and of rules *)

Lemma between_start `{!Conf} (o n : Running) : between o n o.
Proof. split; auto. Qed.

Module Sample.
Import Texts Memory.
Definition config (inbounds : list InboundConfig) (outbounds routing : string) : Config :=
  mkConfig "" routing "" inbounds outbounds "" "" "" "" "" "" "" "" "" "" "".
Definition old := config [in_a "users-1"; in_b 80] "[1]" "rules-1".
Definition new := config [in_a "users-2"; in_b 81] "[2]" "rules-2".
Definition diff : HotDiff := default (mkDiff [] [] [] [] [] [] [] None) (ComputeHotDiff (Some old) (Some new)).
Definition api := mkAPI true true.

(** The diff leaves ann connected, and replaces what it must. *)
Example diff_computed :
  ComputeHotDiff (Some old) (Some new) = Some diff /\ RemovedInboundTags diff = ["in-b"] /\ AddedInbounds diff = ["inbound-b"] /\
  RemovedOutboundTags diff = ["out"] /\ AddedOutbounds diff = ["http"; "vless"] /\ RoutingConfig diff = Some "rules-2" /\
  (length (RemovedUsers diff) = 2 /\ length (AddedUsers diff) = 2)%nat /\ DropsUsers diff = true.
Proof. split_and!; vm_compute; reflexivity. Qed.

Definition clients_of (ib : InboundConfig) : list object := (fun e => user e.2) <$> map_to_list (default ∅ (fst <$> splitSettingsClients (Settings ib))).
Lemma new_plain : plain_config new.
Proof.
  intros ib clients rest Hin E. assert (Forall plain_user (clients_of ib)) as H.
  - cbn [InboundConfigs new config] in Hin. rewrite !elem_of_cons in Hin. destruct Hin as [->|[->|Hin]]; [..|by apply not_elem_of_nil in Hin].
    + assert (clients_of (in_a "users-2") = [[("email", VString "ann"); ("id", VString "id-a")]; [("email", VString "bob"); ("id", VString "id-new")]; [("email", VString "dan"); ("id", VString "id-d")]]) as ->; [vm_compute; reflexivity|]. by repeat constructor.
    + assert (clients_of (in_b 81) = []) as ->; [vm_compute; reflexivity|constructor].
  - apply map_Forall_to_list. unfold clients_of in H. rewrite E in H. cbn in H. rewrite Forall_fmap in H. eapply Forall_impl; [exact H|]. by intros [].
Qed.
End Sample.

Lemma hot_apply_converges_witness :
  (ApplyHotDiff (Some Sample.api) (Some Sample.diff) (meaning Sample.old)).2 = true /\
  (ApplyHotDiff (Some Sample.api) (Some Sample.diff) (meaning Sample.old)).1 = meaning Sample.new.
Proof.
  assert ((ApplyHotDiff (Some Sample.api) (Some Sample.diff) (meaning Sample.old)).2 = true) as H by (vm_compute; reflexivity). split; [exact H|].
  destruct (ApplyHotDiff (Some Sample.api) (Some Sample.diff) (meaning Sample.old)) as [r ok] eqn:E. cbn [snd] in H. subst ok.
  pose proof (hot_apply_converges (HXL := Memory.core_laws) Sample.api Sample.old Sample.new Sample.diff (meaning Sample.old) r (between_start _ _) Sample.new_plain (proj1 Sample.diff_computed) E) as C.
  exact C.
Defined.

Definition sample_process : Process (@Running Texts.loader) := mkProcess (Some Sample.old) 62789 (meaning Sample.old).
Lemma recorded_config_is_running_witness :
  (tryHotApply false (Some Sample.api) sample_process (Some Sample.new)).2 = true /\ (tryHotApply true (Some Sample.api) sample_process (Some Sample.new)).2 = false /\
  (let '(p', ok) := tryHotApply false (Some Sample.api) sample_process (Some Sample.new) in
   if ok then p_config p' = Some Sample.new /\ running (p_core p') = meaning Sample.new else p_config p' = Some Sample.old).
Proof.
  split; [vm_compute; reflexivity|]. split; [vm_compute; reflexivity|].
  pose proof (recorded_config_is_running (HXL := Memory.core_laws) false (Some Sample.api) None sample_process Sample.old Sample.new eq_refl (between_start _ _) Sample.new_plain) as [H _].
  exact H.
Defined.
