(* ===== verification/ShapingNames.v ===== *)
(** * Shaping: names, handles and rates

    internal/shaping/alloc.go, rate.go and namespaces.go: the devices the panel may
    shape are the ones whose name rebuilds itself from the numbers it carries; the
    mirror of a device, the handle of a class and the kernel's unit of a rate are
    functions of the device, of a minor and of a number of bits per second. *)
From stdpp Require Import pretty.
From Stdlib Require Import Ascii.
From S2P Require Import Prelude Decimal Netip.
Open Scope string_scope.
Open Scope Z_scope.
Open Scope list_scope.

Definition wireguardPrefix : string := "pwg".
Definition amneziawgPrefix : string := "pawg".
Definition egressPrefix : string := "peg".
Definition ifbPrefix : string := "pifb".
Definition MinID : Z := 1.
Definition maxDeviceName : Z := 15.

Definition ErrNotOwned : error := ErrorText "shaping: the device is not this panel's to shape".
Definition ErrBadNamespace : error := ErrorText "shaping: the device namespace is not usable".
Definition ErrDuplicateNamespace : error :=
  ErrorText "shaping: the device namespace is already registered".

(** [len] of a string. *)
Definition len (s : string) : Z := Z.of_nat (String.length s).

(** ** Device names *)

Definition mirrorDevice (suffix : string) : string := ifbPrefix +:+ suffix.
Definition IFBDevice (id : Z) : string := mirrorDevice (Itoa id).

Definition familyDevice (prefix : string) (id n : Z) : string :=
  prefix +:+ Itoa id +:+ "-" +:+ Itoa n.

(** [strings.Cut] at the first occurrence of one character. *)
Fixpoint Cut (s : string) (sep : Ascii.ascii) : option (string * string) :=
  match s with
  | EmptyString => None
  | String c rest =>
      if bool_decide (c = sep) then Some ("", rest)
      else match Cut rest sep with
           | Some (before, after) => Some (String c before, after)
           | None => None
           end
  end.

Definition ownedFamilyID (name prefix : string) : option Z :=
  match CutPrefix name prefix with
  | None => None
  | Some rest =>
      if maxDeviceName <? len name then None
      else
        match Cut rest "-"%char with
        | None => None
        | Some (idPart, nPart) =>
            match Atoi idPart with
            | None => None
            | Some id =>
                if id <? MinID then None
                else
                  match Atoi nPart with
                  | None => None
                  | Some n =>
                      if (n <? 0) || bool_decide (familyDevice prefix id n <> name) then None
                      else Some id
                  end
            end
        end
  end.

Definition ownedID (name prefix : string) : option Z :=
  match CutPrefix name prefix with
  | None => None
  | Some rest =>
      if maxDeviceName <? len name then None
      else
        match Atoi rest with
        | None => None
        | Some id =>
            if (id <? MinID) || bool_decide (prefix +:+ Itoa id <> name) then None else Some id
        end
  end.

Definition ownedMirror (name : string) : option string :=
  match CutPrefix name ifbPrefix with
  | None => None
  | Some rest =>
      if bool_decide (is_Some (ownedID name ifbPrefix)) then Some rest
      else if bool_decide (is_Some (ownedFamilyID name ifbPrefix)) then Some rest
      else None
  end.

(** ** Handles *)

Definition rootMajor : Z := 1.
Definition rootHandle : Z := Z.shiftl rootMajor 16.
Definition rootParent : Z := 4294967295.   (* 0xffffffff *)
Definition defaultMinor : Z := 65535.      (* 0xffff *)
Definition firstMinor : Z := 16.           (* 0x10 *)
Definition filterPrioV4 : Z := 100.
Definition filterPrioV6 : Z := 101.

Definition Is6 (a : Addr) : bool := match a with Addr6 _ _ => true | _ => false end.

Definition ourPriority (p : Prefix) : Z := if Is6 (pAddr p) then filterPrioV6 else filterPrioV4.

(** Both on [uint32]. *)
Definition classHandle (minor : Z) : Z := Z.lor rootHandle minor.
Definition classMinor (handle : Z) : Z * bool :=
  let major := Z.shiftr handle 16 mod 65536 in
  let minor := handle mod 65536 in
  (minor, (major =? rootMajor) && negb (minor =? 0)).

#[global] Arguments classHandle : simpl never.
#[global] Arguments classMinor : simpl never.

(** ** Rates *)

Definition UnlimitedBps : Z := 1000000000000.

Definition KernelBytesPerSec (bitsPerSec : Z) : Z :=
  if bitsPerSec <=? 0 then 0 else bitsPerSec / 8.

Definition r2q : Z := 10.

Definition quantumFor (bytesPerSec : Z) : Z :=
  let quantum := bytesPerSec / r2q in
  if quantum <? 1000 then 1000
  else if 200000 <? quantum then 200000
  else quantum.

(** ** Namespaces *)

Record Namespaces := mkNamespaces { shapeable : list string; families : list string }.

Definition DefaultNamespaces : Namespaces :=
  mkNamespaces [wireguardPrefix; amneziawgPrefix; egressPrefix] [].

Definition claimedLocked (ns : Namespaces) (prefix : string) : bool :=
  bool_decide (prefix ∈ shapeable ns) || bool_decide (prefix ∈ families ns).

Definition letter (c : Ascii.ascii) : bool :=
  let n := Z.of_nat (Ascii.nat_of_ascii c) in (97 <=? n) && (n <=? 122).
Fixpoint letters (s : string) : bool :=
  match s with EmptyString => true | String c rest => letter c && letters rest end.

Definition checkPrefix (prefix : string) : result unit :=
  if bool_decide (prefix = "") then Fail (ErrorText "shaping: Register()")
  else if negb (letters prefix) then Fail ErrBadNamespace
  else if maxDeviceName <? len prefix + 1 then Fail ErrBadNamespace
  else Ok tt.

Definition Register (ns : Namespaces) (prefix : string) : Namespaces * result unit :=
  match checkPrefix prefix with
  | Fail e => (ns, Fail e)
  | Ok _ =>
      if claimedLocked ns prefix then (ns, Fail ErrDuplicateNamespace)
      else (mkNamespaces (shapeable ns ++ [prefix]) (families ns), Ok tt)
  end.

Definition RegisterFamily (ns : Namespaces) (prefix : string) : Namespaces * result unit :=
  match checkPrefix prefix with
  | Fail e => (ns, Fail e)
  | Ok _ =>
      if claimedLocked ns prefix then (ns, Fail ErrDuplicateNamespace)
      else (mkNamespaces (shapeable ns) (families ns ++ [prefix]), Ok tt)
  end.

Definition Shapeable (ns : Namespaces) : list string := merge_sort String.le (shapeable ns).
Definition Families (ns : Namespaces) : list string := merge_sort String.le (families ns).

(** The first of a list of namespaces that answers. *)
Fixpoint first_of {A} (f : string -> option A) (prefixes : list string) : option A :=
  match prefixes with
  | [] => None
  | p :: rest => match f p with Some a => Some a | None => first_of f rest end
  end.

Definition DeviceID (ns : Namespaces) (device : string) : option Z :=
  match ownedID device ifbPrefix with
  | Some id => Some id
  | None =>
      match ownedFamilyID device ifbPrefix with
      | Some id => Some id
      | None =>
          match first_of (ownedID device) (shapeable ns) with
          | Some id => Some id
          | None => first_of (ownedFamilyID device) (families ns)
          end
      end
  end.

Definition Owns (ns : Namespaces) (device : string) : bool := bool_decide (is_Some (DeviceID ns device)).

(** [strings.TrimPrefix] of a name under a prefix it has. *)
Definition TrimPrefix (s prefix : string) : string := default s (CutPrefix s prefix).

Definition suffixOf (ns : Namespaces) (device : string) : option string :=
  let under := fun (owned : string -> string -> option Z) p =>
    match owned device p with Some _ => Some (TrimPrefix device p) | None => None end in
  match first_of (under ownedID) (shapeable ns) with
  | Some s => Some s
  | None => first_of (under ownedFamilyID) (families ns)
  end.

Definition MirrorOf (ns : Namespaces) (device : string) : option string :=
  match suffixOf ns device with Some suffix => Some (mirrorDevice suffix) | None => None end.

Definition parentsOf (ns : Namespaces) (suffix : string) : list string :=
  merge_sort String.le
    (((fun p => p +:+ suffix) <$> shapeable ns) ++ ((fun p => p +:+ suffix) <$> families ns)).

(** ** Names read back *)

Lemma append_assoc (a b c : string) : (a +:+ b) +:+ c = a +:+ b +:+ c.
Proof. induction a as [|x a IH]; [done|]. exact (f_equal (String x) IH). Qed.

Lemma Cut_spec s sep before after :
  Cut s sep = Some (before, after) <-> free sep before = true /\ s = before +:+ String sep after.
Proof.
  revert before. induction s as [|c s IH]; intros before; simpl.
  - split; [done|]. intros [_ H]. by destruct before.
  - case_bool_decide as Hc.
    + subst c. split; [by intros [= <- <-]|]. intros [Hf Hs]. destruct before as [|d before].
      * by injection Hs as ->.
      * injection Hs as -> _. simpl in Hf. by rewrite bool_decide_eq_true_2 in Hf.
    + destruct (Cut s sep) as [[b a]|].
      * split.
        -- intros [= <- <-]. destruct (proj1 (IH b) eq_refl) as [Hb ->]. simpl.
           by rewrite bool_decide_eq_false_2.
        -- intros [Hf Hs]. destruct before as [|d before]; injection Hs as -> Hs; [done|].
           simpl in Hf. apply andb_true_iff in Hf as [_ Hf].
           pose proof (proj2 (IH before) (conj Hf Hs)) as [= -> ->]. done.
      * split; [done|]. intros [Hf Hs]. destruct before as [|d before]; injection Hs as -> Hs; [done|].
        simpl in Hf. apply andb_true_iff in Hf as [_ Hf]. by pose proof (proj2 (IH before) (conj Hf Hs)).
Qed.

Lemma len_app a b : len (a +:+ b) = len a + len b.
Proof.
  unfold len. induction a as [|c a IH]; [done|]. change (String c a +:+ b) with (String c (a +:+ b)).
  cbn [String.length]. lia.
Qed.

(** A name of the panel's: the prefix, then an id. *)
Definition names_inbound (prefix name : string) (id : Z) : Prop :=
  MinID <= id <= MaxInt64 /\ name = prefix +:+ Itoa id /\ len name <= maxDeviceName.

(** Or the prefix, an id and the index of a session. *)
Definition names_session (prefix name : string) (id : Z) : Prop :=
  exists n, MinID <= id <= MaxInt64 /\ 0 <= n <= MaxInt64 /\ name = familyDevice prefix id n /\
    len name <= maxDeviceName.

Lemma Atoi_range s z : Atoi s = Some z -> is_i64 z.
Proof. unfold Atoi. intros H. guards H. injection H as <-. by apply bool_decide_eq_true in G0. Qed.

Lemma ownedID_spec name prefix id : ownedID name prefix = Some id <-> names_inbound prefix name id.
Proof.
  unfold ownedID, names_inbound, MinID. destruct (CutPrefix name prefix) as [rest|] eqn:Hc.
  2:{ split; [done|]. intros (_ & Hn & _). apply CutPrefix_spec in Hn. congruence. }
  apply CutPrefix_spec in Hc. split.
  - intros H. guards H. injection H as <-. bools. apply Atoi_range in G0.
    split_and!; [lia|machine| |lia]. symmetry. by apply dec_stable.
  - intros (Hid & Hn & Hl). rewrite (proj2 (Z.ltb_ge _ _)) by lia.
    assert (rest = Itoa id) as -> by (apply (inj (String.append prefix)); congruence).
    rewrite Atoi_Itoa by machine. rewrite (proj2 (Z.ltb_ge _ _)) by lia.
    by rewrite bool_decide_eq_false_2 by auto.
Qed.

Lemma familyDevice_split prefix id n :
  familyDevice prefix id n = prefix +:+ (Itoa id +:+ String "-" (Itoa n)).
Proof. done. Qed.

Lemma Itoa_plain c z : 0 <= z -> digit c = None -> free c (Itoa z) = true.
Proof.
  intros Hz Hc. unfold Itoa, pretty, pretty_Z. destruct z as [|p|p]; [|by apply free_pretty_N|lia].
  by apply (free_pretty_N c 0).
Qed.

Lemma ownedFamilyID_spec name prefix id :
  ownedFamilyID name prefix = Some id <-> names_session prefix name id.
Proof.
  unfold ownedFamilyID, names_session, MinID. destruct (CutPrefix name prefix) as [rest|] eqn:Hc.
  2:{ split; [done|]. intros (n & _ & _ & Hn & _). rewrite familyDevice_split in Hn.
      apply CutPrefix_spec in Hn. congruence. }
  apply CutPrefix_spec in Hc. split.
  - intros H. guards H. injection H as <-. bools. apply Atoi_range in G2, G4.
    eexists. split_and!; [lia|machine|eassumption|machine| |lia]. symmetry. by apply dec_stable.
  - intros (n & Hid & Hn & Hname & Hl). rewrite (proj2 (Z.ltb_ge _ _)) by lia.
    assert (rest = Itoa id +:+ String "-" (Itoa n)) as ->.
    { apply (inj (String.append prefix)). rewrite <-familyDevice_split. congruence. }
    rewrite (proj2 (Cut_spec _ _ (Itoa id) (Itoa n))).
    2:{ split; [|done]. apply Itoa_plain; [lia|done]. }
    rewrite Atoi_Itoa by machine. rewrite (proj2 (Z.ltb_ge _ _)) by lia.
    rewrite Atoi_Itoa by machine. rewrite (proj2 (Z.ltb_ge _ _)) by lia.
    by rewrite bool_decide_eq_false_2 by auto.
Qed.

(** ** Namespaces *)

(** Every namespace is letters only, and claimed once. *)
Record namespaces_ok (ns : Namespaces) : Prop := {
  ns_letters : forall p, p ∈ shapeable ns ++ families ns -> letters p = true;
  ns_distinct : NoDup (shapeable ns ++ families ns);
}.

(** What a wiring may call, in order. *)
Inductive registration := Plain (prefix : string) | Family (prefix : string).

Definition register (ns : Namespaces) (r : registration) : Namespaces :=
  match r with Plain p => (Register ns p).1 | Family p => (RegisterFamily ns p).1 end.

Lemma checkPrefix_letters p u : checkPrefix p = Ok u -> letters p = true.
Proof. unfold checkPrefix. intros H. guards H. by bools. Qed.

Lemma namespaces_ok_more ns p l l' :
  namespaces_ok ns -> letters p = true -> claimedLocked ns p = false ->
  l ++ l' ≡ₚ p :: shapeable ns ++ families ns -> namespaces_ok (mkNamespaces l l').
Proof.
  intros [Hl Hd] Hp Hc Heq. unfold claimedLocked in Hc. bools. split; simpl.
  - intros q. rewrite Heq. intros [->|Hq]%elem_of_cons; auto.
  - rewrite Heq. constructor; [|done]. rewrite elem_of_app. tauto.
Qed.

Lemma register_ok ns r : namespaces_ok ns -> namespaces_ok (register ns r).
Proof.
  intros Hok. destruct r as [p|p]; simpl; unfold Register, RegisterFamily.
  all: destruct (checkPrefix p) as [u|] eqn:Hc; [|done]; apply checkPrefix_letters in Hc.
  all: destruct (claimedLocked ns p) eqn:Hcl; [done|]; simpl.
  all: apply (namespaces_ok_more ns p); [done..|]; solve_Permutation.
Qed.

Lemma default_ok : namespaces_ok DefaultNamespaces.
Proof.
  split.
  - simpl. intros p Hp. repeat (apply elem_of_cons in Hp as [->|Hp]; [reflexivity|]).
    by apply not_elem_of_nil in Hp.
  - apply (bool_decide_eq_true_1 _). reflexivity.
Qed.

Lemma registered_ok rs : namespaces_ok (foldl register DefaultNamespaces rs).
Proof.
  assert (forall ns, namespaces_ok ns -> namespaces_ok (foldl register ns rs)) as H.
  { induction rs as [|r rs IH]; intros ns Hns; simpl; [done|]. apply IH. by apply register_ok. }
  apply H, default_ok.
Qed.

(** The namespace [prefix] owns a device: one name per inbound, or per session. *)
Definition owned_by (ns : Namespaces) (device prefix : string) (id : Z) : Prop :=
  (prefix ∈ shapeable ns /\ ownedID device prefix = Some id) \/
  (prefix ∈ families ns /\ ownedFamilyID device prefix = Some id).

Lemma digit_not_letter c : is_Some (digit c) -> letter c = false.
Proof. unfold digit, letter. intros [d Hd]. guards Hd. bools. lia. Qed.

Lemma Itoa_head z : 0 <= z -> exists c rest, Itoa z = String c rest /\ letter c = false.
Proof.
  intros Hz. assert (exists n : N, Itoa z = pretty n) as [n ->].
  { unfold Itoa, pretty, pretty_Z. destruct z as [|p|p]; [by exists 0%N|by exists (Npos p)|lia]. }
  destruct (pretty n) as [|c rest] eqn:Hp; [by apply pretty_N_nonempty in Hp|].
  exists c, rest. split; [done|]. eapply digit_not_letter, pretty_N_head, Hp.
Qed.

(** A letters-only prefix ends where the digits begin. *)
Lemma letters_split p p' s s' :
  letters p = true -> letters p' = true ->
  (exists c r, s = String c r /\ letter c = false) ->
  (exists c r, s' = String c r /\ letter c = false) ->
  p +:+ s = p' +:+ s' -> p = p' /\ s = s'.
Proof.
  revert p'. induction p as [|c p IH]; intros [|c' p'] Hp Hp' Hs Hs' Heq; simpl in *.
  - done.
  - destruct Hs as (d & r & -> & Hd). injection Heq as -> _. by rewrite Hd in Hp'.
  - destruct Hs' as (d & r & -> & Hd). injection Heq as -> _. by rewrite Hd in Hp.
  - apply andb_true_iff in Hp as [_ Hp]. apply andb_true_iff in Hp' as [_ Hp'].
    injection Heq as -> Heq. by destruct (IH p' Hp Hp' Hs Hs' Heq) as [-> ->].
Qed.

(** What follows the prefix in an owned name. *)
Definition numbers (s : string) (id : Z) : Prop :=
  MinID <= id <= MaxInt64 /\
  (s = Itoa id \/ exists n, 0 <= n <= MaxInt64 /\ s = Itoa id +:+ String "-" (Itoa n)).

Lemma numbers_head s id : numbers s id -> exists c r, s = String c r /\ letter c = false.
Proof.
  intros [Hid Hs]. unfold MinID in *. destruct (Itoa_head id ltac:(lia)) as (c & r & Hc & Hl).
  destruct Hs as [->|(n & _ & ->)]; rewrite Hc; eauto.
Qed.

Lemma numbers_inj s id id' : numbers s id -> numbers s id' -> id = id'.
Proof.
  intros [Hid Hs] [Hid' Hs']. unfold MinID in *. destruct Hs as [->|(n & Hn & ->)].
  - destruct Hs' as [Heq|(n & Hn & Heq)]; [by apply Itoa_inj|].
    assert (free "-" (Itoa id) = true) as Hf by (apply Itoa_plain; [lia|done]).
    rewrite Heq, free_app in Hf. apply andb_true_iff in Hf as [_ Hf]. done.
  - destruct Hs' as [Heq|(n' & Hn' & Heq)].
    + assert (free "-" (Itoa id') = true) as Hf by (apply Itoa_plain; [lia|done]).
      rewrite <-Heq, free_app in Hf. apply andb_true_iff in Hf as [_ Hf]. done.
    + apply split_at in Heq as [Heq _]; [by apply Itoa_inj| |]; apply Itoa_plain; done || lia.
Qed.

Lemma inbound_numbers prefix name id :
  ownedID name prefix = Some id -> exists s, name = prefix +:+ s /\ numbers s id.
Proof. intros (? & -> & ?)%ownedID_spec. exists (Itoa id). split; [done|]. split; auto. Qed.

Lemma session_numbers prefix name id :
  ownedFamilyID name prefix = Some id -> exists s, name = prefix +:+ s /\ numbers s id.
Proof.
  intros (n & ? & ? & -> & ?)%ownedFamilyID_spec. exists (Itoa id +:+ String "-" (Itoa n)).
  split; [done|]. split; [done|]. right. eauto.
Qed.

Lemma owned_by_numbers ns device p id :
  namespaces_ok ns -> owned_by ns device p id ->
  letters p = true /\ exists s, device = p +:+ s /\ numbers s id.
Proof.
  intros Hok [[Hin H]|[Hin H]]; (split; [apply (ns_letters _ Hok); set_solver|]).
  - by apply inbound_numbers.
  - by apply session_numbers.
Qed.

Lemma first_of_Some {A} (f : string -> option A) l a :
  first_of f l = Some a -> exists p, p ∈ l /\ f p = Some a.
Proof.
  induction l as [|p l IH]; simpl; [done|]. destruct (f p) eqn:Hp.
  - intros [= ->]. exists p. set_solver.
  - intros Hl. destruct (IH Hl) as (q & Hq & Hf). exists q. set_solver.
Qed.

Lemma first_of_is_Some {A} (f : string -> option A) l p :
  p ∈ l -> is_Some (f p) -> is_Some (first_of f l).
Proof.
  intros Hp [a Ha]. induction l as [|q l IH]; [by apply not_elem_of_nil in Hp|]. simpl.
  destruct (f q) eqn:Hq; [eauto|]. apply IH. apply elem_of_cons in Hp as [<-|]; [congruence|done].
Qed.

Lemma TrimPrefix_app p s : TrimPrefix (p +:+ s) p = s.
Proof. unfold TrimPrefix. by rewrite (proj2 (CutPrefix_spec p (p +:+ s) s)). Qed.

Lemma suffixOf_spec ns device p id s :
  namespaces_ok ns -> owned_by ns device p id -> device = p +:+ s -> suffixOf ns device = Some s.
Proof.
  intros Hok Hown ->. destruct (owned_by_numbers _ _ _ _ Hok Hown) as (Hp & s0 & Heq & Hs).
  apply (inj (String.append p)) in Heq as <-.
  assert (forall q s', owned_by ns (p +:+ s) q s' -> TrimPrefix (p +:+ s) q = s) as Hany.
  { intros q id' Hq. destruct (owned_by_numbers _ _ _ _ Hok Hq) as (Hlq & s' & Heq & Hs').
    rewrite Heq, TrimPrefix_app.
    by destruct (letters_split p q s s' Hp Hlq (numbers_head _ _ Hs) (numbers_head _ _ Hs') Heq). }
  unfold suffixOf. cbv zeta. destruct (first_of _ (shapeable ns)) as [t|] eqn:H1.
  { apply first_of_Some in H1 as (q & Hq & Hf). guards Hf. injection Hf as <-. f_equal.
    eapply Hany. left. eauto. }
  destruct (first_of _ (families ns)) as [t|] eqn:H2.
  { apply first_of_Some in H2 as (q & Hq & Hf). guards Hf. injection Hf as <-. f_equal.
    eapply Hany. right. eauto. }
  exfalso. destruct Hown as [[Hin Ho]|[Hin Ho]].
  - apply eq_None_not_Some in H1. apply H1. apply (first_of_is_Some _ _ p); [done|]. rewrite Ho. eauto.
  - apply eq_None_not_Some in H2. apply H2. apply (first_of_is_Some _ _ p); [done|]. rewrite Ho. eauto.
Qed.

Lemma DeviceID_spec ns device p id :
  namespaces_ok ns -> owned_by ns device p id -> DeviceID ns device = Some id.
Proof.
  intros Hok Hown. destruct (owned_by_numbers _ _ _ _ Hok Hown) as (Hp & s & Heq & Hs).
  assert (forall q id', letters q = true -> (exists s', device = q +:+ s' /\ numbers s' id') -> id' = id)
    as Hany.
  { intros q id' Hq (s' & Heq' & Hs'). rewrite Heq in Heq'.
    destruct (letters_split p q s s' Hp Hq (numbers_head _ _ Hs) (numbers_head _ _ Hs') Heq') as [_ <-].
    by eapply numbers_inj. }
  unfold DeviceID. destruct (ownedID device ifbPrefix) eqn:H1.
  { apply inbound_numbers in H1. f_equal. by apply (Hany ifbPrefix). }
  destruct (ownedFamilyID device ifbPrefix) eqn:H2.
  { apply session_numbers in H2. f_equal. by apply (Hany ifbPrefix). }
  destruct (first_of _ (shapeable ns)) as [t|] eqn:H3.
  { apply first_of_Some in H3 as (q & Hq & Hf). apply inbound_numbers in Hf. f_equal.
    eapply (Hany q); [|done]. apply (ns_letters _ Hok). set_solver. }
  destruct (first_of _ (families ns)) as [t|] eqn:H4.
  { apply first_of_Some in H4 as (q & Hq & Hf). apply session_numbers in Hf. f_equal.
    eapply (Hany q); [|done]. apply (ns_letters _ Hok). set_solver. }
  exfalso. destruct Hown as [[Hin Ho]|[Hin Ho]].
  - apply eq_None_not_Some in H3. apply H3. apply (first_of_is_Some _ _ p); [done|]. rewrite Ho. eauto.
  - apply eq_None_not_Some in H4. apply H4. apply (first_of_is_Some _ _ p); [done|]. rewrite Ho. eauto.
Qed.

Lemma ownedMirror_spec s id :
  numbers s id -> len (mirrorDevice s) <= maxDeviceName -> ownedMirror (mirrorDevice s) = Some s.
Proof.
  intros [Hid Hs] Hl. unfold ownedMirror. unfold mirrorDevice in *.
  rewrite (proj2 (CutPrefix_spec ifbPrefix (ifbPrefix +:+ s) s)) by done.
  case_bool_decide as H1; [done|]. case_bool_decide as H2; [done|]. exfalso.
  destruct Hs as [->|(n & Hn & ->)].
  - apply H1. exists id. by apply ownedID_spec.
  - apply H2. exists id. apply ownedFamilyID_spec. exists n. done.
Qed.

(** Whatever namespaces the wiring registers, a device name belongs to at most one
    of them and reads back to one inbound: the prefix, the id and the numbers after the
    prefix are determined by the name; the panel owns the device and its mirror is named
    by those same numbers; the mirror's own name, where the kernel can carry it, reads
    back to them, and the device is among those the collection of stranded mirrors
    looks at before it removes that mirror. *)
Theorem device_names_split_once (rs : list registration) (device p p' : string) (id id' : Z) :
  let ns := foldl register DefaultNamespaces rs in
  owned_by ns device p id -> owned_by ns device p' id' ->
  p = p' /\ id = id' /\ DeviceID ns device = Some id /\ Owns ns device = true /\
  exists suffix,
    device = p +:+ suffix /\ suffixOf ns device = Some suffix /\
    MirrorOf ns device = Some (mirrorDevice suffix) /\
    (len (mirrorDevice suffix) <= maxDeviceName -> ownedMirror (mirrorDevice suffix) = Some suffix) /\
    device ∈ parentsOf ns suffix.
Proof.
  intros ns H1 H2. pose proof (registered_ok rs) as Hok. fold ns in Hok.
  destruct (owned_by_numbers _ _ _ _ Hok H1) as (Hp & s & Heq & Hs).
  destruct (owned_by_numbers _ _ _ _ Hok H2) as (Hp' & s' & Heq' & Hs').
  rewrite Heq in Heq'.
  destruct (letters_split p p' s s' Hp Hp' (numbers_head _ _ Hs) (numbers_head _ _ Hs') Heq') as [<- <-].
  assert (DeviceID ns device = Some id) as Hid by eauto using DeviceID_spec.
  assert (suffixOf ns device = Some s) as Hsuf by eauto using suffixOf_spec.
  split_and!; [done|by eapply numbers_inj|done|unfold Owns; rewrite Hid; by apply bool_decide_eq_true_2|].
  exists s. split_and!; [done|done|unfold MirrorOf; by rewrite Hsuf|by eapply ownedMirror_spec|].
  unfold parentsOf. rewrite merge_sort_Permutation, elem_of_app, !list_elem_of_fmap.
  destruct H1 as [[Hin _]|[Hin _]]; [left|right]; eauto.
Qed.

Lemma device_names_split_once_witness :
  let ns := foldl register DefaultNamespaces [Family "poc"; Plain "pwg"] in
  DeviceID ns "poc2-3" = Some 2 /\ Owns ns "poc2-3" = true.
Proof.
  destruct (device_names_split_once [Family "poc"; Plain "pwg"] "poc2-3" "poc" "poc" 2 2
    ltac:(right; split; [apply (bool_decide_eq_true_1 _); reflexivity|vm_compute; reflexivity])
    ltac:(right; split; [apply (bool_decide_eq_true_1 _); reflexivity|vm_compute; reflexivity]))
    as (_ & _ & H & H' & _).
  exact (conj H H').
Defined.

(** Two devices of different namespaces can derive one mirror: the plan of a pass has to
    notice, and does. *)
Example two_devices_one_mirror :
  MirrorOf DefaultNamespaces "pwg7" = Some "pifb7" /\ MirrorOf DefaultNamespaces "peg7" = Some "pifb7".
Proof. split; vm_compute; reflexivity. Qed.

(** ** Handles *)

Lemma classHandle_add minor : 0 <= minor < 65536 -> classHandle minor = 65536 + minor.
Proof.
  intros Hm. unfold classHandle, rootHandle, rootMajor. rewrite <-Z.add_nocarry_lor; [done|].
  apply Z.bits_inj'. intros n Hn. rewrite Z.land_spec, Z.bits_0.
  change (Z.shiftl 1 16) with (2 ^ 16). rewrite Z.pow2_bits_eqb by lia.
  destruct (Z.eqb_spec 16 n) as [<-|]; [|done].
  rewrite <-(Z.mod_small minor (2 ^ 16)) by lia. by rewrite Z.mod_pow2_bits_high by lia.
Qed.

Lemma classMinor_classHandle minor : 0 < minor < 65536 -> classMinor (classHandle minor) = (minor, true).
Proof.
  intros Hm. rewrite classHandle_add by lia. unfold classMinor, rootMajor.
  rewrite Z.shiftr_div_pow2 by lia. change (2 ^ 16) with 65536.
  replace ((65536 + minor) / 65536) with 1 by (apply Z.div_unique with minor; lia).
  replace ((65536 + minor) mod 65536) with minor by (apply Z.mod_unique with 1; lia).
  rewrite (proj2 (Z.eqb_neq minor 0)) by lia. done.
Qed.

Lemma classMinor_Some handle minor :
  0 <= handle < 4294967296 -> classMinor handle = (minor, true) ->
  0 < minor < 65536 /\ handle = classHandle minor.
Proof.
  unfold classMinor, rootMajor. rewrite Z.shiftr_div_pow2 by lia. change (2 ^ 16) with 65536.
  intros Hh [= <- Hb]. bools. pose proof (Z.mod_pos_bound handle 65536 ltac:(lia)).
  assert (handle / 65536 < 65536) by (apply Z.div_lt_upper_bound; lia).
  assert (0 <= handle / 65536) by (apply Z.div_pos; lia). rewrite Z.mod_small in * by lia.
  split; [lia|]. rewrite classHandle_add by lia. pose proof (Z.div_mod handle 65536). lia.
Qed.

Lemma classHandle_inj m m' :
  0 <= m < 65536 -> 0 <= m' < 65536 -> classHandle m = classHandle m' -> m = m'.
Proof. intros ? ?. rewrite !classHandle_add by lia. lia. Qed.
