(* ===== verification/ShapingKernel.v ===== *)
(** * Shaping: the traffic-control stack

    internal/shaping/plane.go and internal/shaping/shapetest/kernel.go: the objects the
    manager reads and writes, the interface it uses them through ([Plane]), and the
    in-memory stack the repository drives the manager with, whose answers are the ones
    measured on a kernel.  Errors are identified by the sentinel they wrap; the lock, the
    count of reads and the accessors of the tests are left out. *)
From stdpp Require Import pretty.
From Stdlib Require Import Ascii.
From S2P Require Import Prelude Decimal Netip ShapingNames.
Open Scope string_scope.
Open Scope Z_scope.
Open Scope list_scope.

(** ** Objects *)

Definition QdiscHTB : string := "htb".
Definition QdiscSfq : string := "sfq".
Definition QdiscClsact : string := "clsact".

Definition clsactHandle : Z := 4294901760. (* 0xffff0000 *)
Definition clsactParent : Z := 4294967281. (* 0xfffffff1 *)
Definition ingressBlock : Z := 4294967282. (* 0xfffffff2 *)
Definition egressBlock : Z := 4294967283.  (* 0xfffffff3 *)

Record QdiscSpec := mkQdisc {
  qDevice : string; qType : string; qHandle : Z; qParent : Z; qDefault : Z }.
Record ClassSpec := mkClass {
  cDevice : string; cHandle : Z; cParent : Z; RateBytesPerSec : Z; CeilBytesPerSec : Z }.
Inductive MatchField := MatchDst | MatchSrc.
Record FilterSpec := mkFilter {
  fDevice : string; fParent : Z; fPriority : Z; fMatch : MatchField; fPrefix : Prefix;
  ClassID : Z; Redirect : string; fHandle : Z }.

#[global] Instance QdiscSpec_eq_dec : EqDecision QdiscSpec.
Proof. solve_decision. Defined.
#[global] Instance ClassSpec_eq_dec : EqDecision ClassSpec.
Proof. solve_decision. Defined.
#[global] Instance MatchField_eq_dec : EqDecision MatchField.
Proof. solve_decision. Defined.
#[global] Instance FilterSpec_eq_dec : EqDecision FilterSpec.
Proof. solve_decision. Defined.

(** The rule as the diff compares it, without the handle the kernel assigns. *)
Definition with_handle (f : FilterSpec) (handle : Z) : FilterSpec :=
  mkFilter (fDevice f) (fParent f) (fPriority f) (fMatch f) (fPrefix f) (ClassID f) (Redirect f) handle.
Definition identity (f : FilterSpec) : FilterSpec := with_handle f 0.

Record Snapshot := mkSnapshot {
  Exists : bool; Qdiscs : list QdiscSpec; Classes : list ClassSpec; Filters : list FilterSpec;
  sLinks : list string }.

(** ** The interface *)

Definition ErrNoDevice : error := ErrorText "shaping: the device is gone".
Definition ErrAlreadyInstalled : error := ErrorText "shaping: the object is already installed".
Definition ErrNotInstalled : error := ErrorText "shaping: the object is not installed".
Definition ErrInUse : error := ErrorText "shaping: the object is still in use".
Definition ErrPriorityInUse : error :=
  ErrorText "shaping: another address family already holds that filter priority".

(** Reads leave the host as it is; a write answers with the host after it. *)
Class Plane (W : Type) := {
  plane_Snapshot : W -> string -> result Snapshot;
  plane_Links : W -> result (list string);
  EnsureIFB : W -> string -> W * result unit;
  DeleteIFB : W -> string -> W * result unit;
  AddQdisc : W -> QdiscSpec -> W * result unit;
  DelQdisc : W -> QdiscSpec -> W * result unit;
  AddClass : W -> ClassSpec -> W * result unit;
  ChangeClass : W -> ClassSpec -> W * result unit;
  DelClass : W -> ClassSpec -> W * result unit;
  AddFilter : W -> FilterSpec -> W * result unit;
  DelFilter : W -> FilterSpec -> W * result unit;
}.

(** ** The stack *)

(** An entry of the log of writes. *)
Inductive op :=
| OpIFBAdd (name : string) | OpIFBDel (name : string)
| OpQdiscAdd (q : QdiscSpec) | OpQdiscDel (q : QdiscSpec)
| OpClassAdd (c : ClassSpec) | OpClassChange (c : ClassSpec) | OpClassDel (c : ClassSpec)
| OpFilterAdd (f : FilterSpec) | OpFilterDel (f : FilterSpec).

Record Kernel := mkKernel {
  links : list string; qdiscs : list QdiscSpec; classes : list ClassSpec; filters : list FilterSpec;
  nextLeaf : Z; nextFilter : gmap (string * Z * Z) Z;
  ops : list op;
  SnapshotErr : string -> option error; LinksErr : option error; Fails : op -> option error }.

Definition New_kernel : Kernel :=
  mkKernel [] [] [] [] 32768 ∅ [] (fun _ => None) None (fun _ => None).

(** The four lists and the two counters, one at a time. *)
Definition with_links (k : Kernel) (l : list string) : Kernel :=
  mkKernel l (qdiscs k) (classes k) (filters k) (nextLeaf k) (nextFilter k) (ops k)
    (SnapshotErr k) (LinksErr k) (Fails k).
Definition with_qdiscs (k : Kernel) (l : list QdiscSpec) : Kernel :=
  mkKernel (links k) l (classes k) (filters k) (nextLeaf k) (nextFilter k) (ops k)
    (SnapshotErr k) (LinksErr k) (Fails k).
Definition with_classes (k : Kernel) (l : list ClassSpec) : Kernel :=
  mkKernel (links k) (qdiscs k) l (filters k) (nextLeaf k) (nextFilter k) (ops k)
    (SnapshotErr k) (LinksErr k) (Fails k).
Definition with_filters (k : Kernel) (l : list FilterSpec) : Kernel :=
  mkKernel (links k) (qdiscs k) (classes k) l (nextLeaf k) (nextFilter k) (ops k)
    (SnapshotErr k) (LinksErr k) (Fails k).
Definition with_nextLeaf (k : Kernel) (n : Z) : Kernel :=
  mkKernel (links k) (qdiscs k) (classes k) (filters k) n (nextFilter k) (ops k)
    (SnapshotErr k) (LinksErr k) (Fails k).
Definition with_nextFilter (k : Kernel) (m : gmap (string * Z * Z) Z) : Kernel :=
  mkKernel (links k) (qdiscs k) (classes k) (filters k) (nextLeaf k) m (ops k)
    (SnapshotErr k) (LinksErr k) (Fails k).
Definition with_ops (k : Kernel) (l : list op) : Kernel :=
  mkKernel (links k) (qdiscs k) (classes k) (filters k) (nextLeaf k) (nextFilter k) l
    (SnapshotErr k) (LinksErr k) (Fails k).

(** [slices.IndexFunc] with [slices.Delete], and with an assignment. *)
Fixpoint remove_first {A} (p : A -> bool) (l : list A) : list A :=
  match l with [] => [] | x :: rest => if p x then rest else x :: remove_first p rest end.
Fixpoint replace_first {A} (p : A -> bool) (y : A) (l : list A) : list A :=
  match l with [] => [] | x :: rest => if p x then y :: rest else x :: replace_first p y rest end.

Definition chain (f : FilterSpec) : string * Z * Z := (fDevice f, fParent f, fPriority f).

Definition takeHandle (k : Kernel) (f : FilterSpec) : Kernel * Z :=
  let n := (default 0 (nextFilter k !! chain f) + 1) mod 4294967296 in
  (with_nextFilter k (<[ chain f := n ]> (nextFilter k)), n).

Definition sameRule (a b : FilterSpec) : bool := bool_decide (identity a = identity b).

Definition family (f : FilterSpec) : Z := if Is6 (pAddr (fPrefix f)) then 6 else 4.

Definition Links (k : Kernel) : result (list string) :=
  match LinksErr k with Some e => Fail e | None => Ok (links k) end.

Definition kernel_Snapshot (k : Kernel) (device : string) : result Snapshot :=
  match SnapshotErr k device with
  | Some e => Fail e
  | None =>
      if bool_decide (device ∈ links k)
      then Ok (mkSnapshot true
                 (filter (fun q => qDevice q = device) (qdiscs k))
                 (filter (fun c => cDevice c = device) (classes k))
                 (filter (fun f => fDevice f = device) (filters k)) (links k))
      else Ok (mkSnapshot false [] [] [] (links k))
  end.

(** A write is logged before the injected failure answers. *)
Definition logged (k : Kernel) (o : op) (body : Kernel -> Kernel * result unit) : Kernel * result unit :=
  let k := with_ops k (ops k ++ [o]) in
  match Fails k o with Some e => (k, Fail e) | None => body k end.

Definition present (device : string) (body : Kernel -> Kernel * result unit) (k : Kernel)
    : Kernel * result unit :=
  if bool_decide (device ∈ links k) then body k else (k, Fail ErrNoDevice).

Definition implicitQdisc (device : string) : QdiscSpec := mkQdisc device "noqueue" 0 rootParent 0.

Definition addLink (k : Kernel) (name : string) : Kernel :=
  if bool_decide (name ∈ links k) then k
  else with_qdiscs (with_links k (merge_sort String.le (links k ++ [name])))
         (qdiscs k ++ [implicitQdisc name]).

Definition delLink (k : Kernel) (name : string) : Kernel :=
  with_filters
    (with_classes
       (with_qdiscs (with_links k (filter (fun l => l <> name) (links k)))
          (filter (fun q => qDevice q <> name) (qdiscs k)))
       (filter (fun c => cDevice c <> name) (classes k)))
    (filter (fun f => fDevice f <> name) (filters k)).

Definition dropTree (k : Kernel) (device : string) : Kernel :=
  with_filters
    (with_classes
       (with_qdiscs k (filter (fun q => ~ (qDevice q = device /\ qParent q <> clsactParent)) (qdiscs k)))
       (filter (fun c => cDevice c <> device) (classes k)))
    (filter (fun f => ~ (fDevice f = device /\ fParent f <> ingressBlock /\ fParent f <> egressBlock))
       (filters k)).

Definition kernel_EnsureIFB (k : Kernel) (name : string) : Kernel * result unit :=
  logged k (OpIFBAdd name) (fun k => (addLink k name, Ok tt)).

Definition kernel_DeleteIFB (k : Kernel) (name : string) : Kernel * result unit :=
  logged k (OpIFBDel name) (fun k =>
    if bool_decide (name ∈ links k) then (delLink k name, Ok tt) else (k, Fail ErrNotInstalled)).

(** The qdisc at the same device and parent. *)
Definition same_place (spec q : QdiscSpec) : bool :=
  bool_decide (qDevice q = qDevice spec) && (qParent q =? qParent spec).

Definition install_qdisc (k : Kernel) (spec : QdiscSpec) : Kernel :=
  if qHandle spec =? 0 then
    let leaf := mkQdisc (qDevice spec) (qType spec) (Z.shiftl (nextLeaf k) 16) (qParent spec) (qDefault spec) in
    with_nextLeaf (with_qdiscs k (qdiscs k ++ [leaf])) ((nextLeaf k + 1) mod 65536)
  else with_qdiscs k (qdiscs k ++ [spec]).

Definition kernel_AddQdisc (k : Kernel) (spec : QdiscSpec) : Kernel * result unit :=
  logged k (OpQdiscAdd spec) (present (qDevice spec) (fun k =>
    match List.find (same_place spec) (qdiscs k) with
    | Some at_ =>
        if negb (qParent at_ =? rootParent) || negb (qHandle at_ =? 0) then (k, Fail ErrAlreadyInstalled)
        else (install_qdisc (with_qdiscs k (remove_first (same_place spec) (qdiscs k))) spec, Ok tt)
    | None => (install_qdisc k spec, Ok tt)
    end)).

Definition kernel_DelQdisc (k : Kernel) (spec : QdiscSpec) : Kernel * result unit :=
  logged k (OpQdiscDel spec) (present (qDevice spec) (fun k =>
    match List.find (same_place spec) (qdiscs k) with
    | None => (k, Fail ErrNotInstalled)
    | Some at_ =>
        if qParent at_ =? rootParent then
          let k := dropTree k (qDevice spec) in
          (with_qdiscs k (qdiscs k ++ [implicitQdisc (qDevice spec)]), Ok tt)
        else
          let k := with_qdiscs k (remove_first (same_place spec) (qdiscs k)) in
          if qParent spec =? clsactParent then
            (with_filters k
               (filter (fun f => ~ (fDevice f = qDevice spec /\ (fParent f = ingressBlock \/ fParent f = egressBlock)))
                  (filters k)), Ok tt)
          else (k, Ok tt)
    end)).

(** [classAt] *)
Definition same_class (spec c : ClassSpec) : bool :=
  bool_decide (cDevice c = cDevice spec) && (cHandle c =? cHandle spec).

Definition kernel_AddClass (k : Kernel) (spec : ClassSpec) : Kernel * result unit :=
  logged k (OpClassAdd spec) (present (cDevice spec) (fun k =>
    if existsb (same_class spec) (classes k) then (k, Fail ErrAlreadyInstalled)
    else (with_classes k (classes k ++ [spec]), Ok tt))).

Definition kernel_ChangeClass (k : Kernel) (spec : ClassSpec) : Kernel * result unit :=
  logged k (OpClassChange spec) (present (cDevice spec) (fun k =>
    if negb (existsb (same_class spec) (classes k)) then (k, Fail ErrNotInstalled)
    else (with_classes k (replace_first (same_class spec) spec (classes k)), Ok tt))).

Definition kernel_DelClass (k : Kernel) (spec : ClassSpec) : Kernel * result unit :=
  logged k (OpClassDel spec) (present (cDevice spec) (fun k =>
    if negb (existsb (same_class spec) (classes k)) then (k, Fail ErrNotInstalled)
    else if existsb (fun f => bool_decide (fDevice f = cDevice spec) && (ClassID f =? cHandle spec)) (filters k)
    then (k, Fail ErrInUse)
    else (with_qdiscs (with_classes k (remove_first (same_class spec) (classes k)))
            (filter (fun q => ~ (qDevice q = cDevice spec /\ qParent q = cHandle spec)) (qdiscs k)), Ok tt))).

(** The answer the installed filters give to a new one, the first that objects. *)
Fixpoint objection (spec : FilterSpec) (l : list FilterSpec) : option error :=
  match l with
  | [] => None
  | have :: rest =>
      if negb (bool_decide (fDevice have = fDevice spec)) || negb (fParent have =? fParent spec)
      then objection spec rest
      else if (fPriority have =? fPriority spec) && negb (family have =? family spec)
      then Some ErrPriorityInUse
      else if sameRule have spec then Some ErrAlreadyInstalled
      else objection spec rest
  end.

Definition put_filter (spec : FilterSpec) (k : Kernel) : Kernel * result unit :=
  match objection spec (filters k) with
  | Some e => (k, Fail e)
  | None =>
      let '(k, handle) := takeHandle k spec in
      (with_filters k (filters k ++ [with_handle spec handle]), Ok tt)
  end.

Definition kernel_AddFilter (k : Kernel) (spec : FilterSpec) : Kernel * result unit :=
  logged k (OpFilterAdd spec) (present (fDevice spec) (fun k =>
    if bool_decide (Redirect spec <> "") then present (Redirect spec) (put_filter spec) k
    else put_filter spec k)).

Definition kernel_DelFilter (k : Kernel) (spec : FilterSpec) : Kernel * result unit :=
  logged k (OpFilterDel spec) (present (fDevice spec) (fun k =>
    if existsb (fun f => bool_decide (f = spec)) (filters k)
    then (with_filters k (remove_first (fun f => bool_decide (f = spec)) (filters k)), Ok tt)
    else (k, Fail ErrNotInstalled))).

#[global] Instance KernelPlane : Plane Kernel := {|
  plane_Snapshot := kernel_Snapshot; plane_Links := Links;
  EnsureIFB := kernel_EnsureIFB; DeleteIFB := kernel_DeleteIFB;
  AddQdisc := kernel_AddQdisc; DelQdisc := kernel_DelQdisc;
  AddClass := kernel_AddClass; ChangeClass := kernel_ChangeClass; DelClass := kernel_DelClass;
  AddFilter := kernel_AddFilter; DelFilter := kernel_DelFilter |}.

(** What happens to the host behind the manager's back. *)
Definition AddLink (k : Kernel) (names : list string) : Kernel := foldl addLink k names.
Definition DelLink (k : Kernel) (name : string) : Kernel := delLink k name.

Definition seed_filter (k : Kernel) (f : FilterSpec) : Kernel :=
  if fHandle f =? 0 then
    let '(k, handle) := takeHandle k f in with_filters k (filters k ++ [with_handle f handle])
  else with_filters k (filters k ++ [f]).
Definition Seed (k : Kernel) (qs : list QdiscSpec) (cs : list ClassSpec) (fs : list FilterSpec) : Kernel :=
  foldl seed_filter (with_classes (with_qdiscs k (qdiscs k ++ qs)) (classes k ++ cs)) fs.

Definition Retarget (k : Kernel) (prefix : Prefix) (classID : Z) : Kernel :=
  with_filters k ((fun f =>
    if bool_decide (fPrefix f = prefix) && negb (ClassID f =? 0)
    then mkFilter (fDevice f) (fParent f) (fPriority f) (fMatch f) (fPrefix f) classID (Redirect f) (fHandle f)
    else f) <$> filters k).

Definition Retune (k : Kernel) (device : string) (handle bytesPerSec : Z) : Kernel :=
  match List.find (fun c => bool_decide (cDevice c = device) && (cHandle c =? handle)) (classes k) with
  | Some c =>
      with_classes k (replace_first (fun c => bool_decide (cDevice c = device) && (cHandle c =? handle))
        (mkClass (cDevice c) (cHandle c) (cParent c) bytesPerSec bytesPerSec) (classes k))
  | None => k
  end.
