(* ===== verification/Shaping.v ===== *)
(** * Shaping: the manager

    internal/shaping/manager.go: one pass over the host, from the population wanted on
    each device to the reads and writes that bring the kernel's trees to it.  The host
    is any [Plane]; a pass threads it and collects the failures ([errors.Join] is their
    list, a wrapped error its text joined with its cause).  [key]s are texts, so the text
    of a prefix is a parameter.  The search for a free class id is bounded by the number
    of ids there are: [None] is the loop that never ends. *)
From stdpp Require Import pretty.
From Stdlib Require Import Ascii.
From S2P Require Import Prelude Decimal Netip ShapingNames ShapingKernel.
Open Scope string_scope.
Open Scope Z_scope.
Open Scope list_scope.

Definition ErrForeignObject : error :=
  ErrorText "shaping: an object on the device belongs to somebody else".
Definition ErrDuplicateKey : error := ErrorText "shaping: two subjects claim the same selector".

(** [fmt.Errorf] of a text and a wrapped error. *)
Definition wrap (what : string) (e : error) : error := ErrorJoin (ErrorText what) e.

(** ** What is wanted *)

Record Key := mkKey { kPrefix : Prefix; kMark : Z }.
Record Limits := mkLimits { UpBps : Z; DownBps : Z }.
Record Subject := mkSubject { ID : string; Keys : list Key; sLimits : Limits }.
Record DeviceWant := mkWant { wDevice : string; Subjects : list Subject }.

Record shaped := mkShaped { sh_id : string; prefixes : list Prefix; rate : Z }.
Record devicePlan := mkPlan {
  device : string; mirror : string; download : list shaped; upload : list shaped }.

#[global] Instance Limits_eq_dec : EqDecision Limits.
Proof. solve_decision. Defined.
#[global] Instance shaped_eq_dec : EqDecision shaped.
Proof. solve_decision. Defined.

(** [strings.Join] with a comma. *)
Fixpoint join_comma (l : list string) : string :=
  match l with
  | [] => ""
  | [x] => x
  | x :: rest => x +:+ "," +:+ join_comma rest
  end.

Definition comparePrefix (a b : Prefix) : Prop := addr_le (pAddr a) (pAddr b).
#[global] Instance comparePrefix_dec a b : Decision (comparePrefix a b).
Proof. unfold comparePrefix. apply _. Defined.

(** The zero [netip.Prefix]. *)
Definition zero_prefix : Prefix := mkPrefix AddrInvalid 0.

(** The first loop of [planDevice]: who claims which selector. *)
Record claims := mkClaims {
  c_failures : list error; owner : gmap Prefix string; duplicated : gset Prefix;
  keys : gmap string (list Prefix) }.

Definition host_prefix (k : Key) : bool :=
  Prefix_IsValid (kPrefix k) && (pBits (kPrefix k) =? BitLen (pAddr (kPrefix k))).

(** One selector of one subject, with the selectors it holds so far. *)
Definition claim_key (id : string) (acc : claims * list Prefix) (k : Key) : claims * list Prefix :=
  let '(c, held) := acc in
  let failed := fun e => mkClaims (c_failures c ++ [e]) (owner c) (duplicated c) (keys c) in
  if negb (kMark k =? 0) && negb (Prefix_IsValid (kPrefix k))
  then (failed (ErrorText "shaping: a subject selects on a mark"), held)
  else if negb (host_prefix k)
  then (failed (ErrorText "shaping: a subject selects on a prefix that is not a host's"), held)
  else
    let prefix := Masked (kPrefix k) in
    match owner c !! prefix with
    | Some first =>
        if bool_decide (first <> id)
        then (mkClaims (c_failures c ++ [wrap "shaping" ErrDuplicateKey]) (owner c)
                ({[ prefix ]} ∪ duplicated c) (keys c), held)
        else (mkClaims (c_failures c) (<[ prefix := id ]> (owner c)) (duplicated c) (keys c),
              held ++ [prefix])
    | None =>
        (mkClaims (c_failures c) (<[ prefix := id ]> (owner c)) (duplicated c) (keys c), held ++ [prefix])
    end.

Definition claim_subject (c : claims) (s : Subject) : claims :=
  let '(c, held) := foldl (claim_key (ID s)) (c, []) (Keys s) in
  mkClaims (c_failures c) (owner c) (duplicated c) (<[ ID s := held ]> (keys c)).

Definition claim_all (subjects : list Subject) : claims :=
  foldl claim_subject (mkClaims [] ∅ ∅ ∅) subjects.

(** The selectors a subject keeps, sorted and without repetitions. *)
Definition settle (dup : gset Prefix) (held : list Prefix) : list Prefix :=
  Compact (merge_sort comparePrefix (filter (fun p => p ∉ dup) held)).

(** The second loop: [slices.DeleteFunc], [slices.SortFunc] and [slices.Compact] work in
    place on the array [keys] holds, and clear what they cut off, so an entry is the id
    of the array and the length of the slice of it. *)
Record slice := mkSlice { sl_id : string; sl_len : nat; sl_rate : Z }.

Definition split_subject (dup : gset Prefix)
    (acc : gmap string (list Prefix) * list slice * list slice) (s : Subject)
    : gmap string (list Prefix) * list slice * list slice :=
  let '(arrays, down, up) := acc in
  let held := default [] (arrays !! ID s) in
  let kept := settle dup held in
  let arrays := <[ ID s := kept ++ replicate (length held - length kept) zero_prefix ]> arrays in
  if bool_decide (kept = []) then (arrays, down, up)
  else
    let add := fun l bps =>
      if 0 <? KernelBytesPerSec bps
      then l ++ [mkSlice (ID s) (length kept) (KernelBytesPerSec bps)] else l in
    (arrays, add down (DownBps (sLimits s)), add up (UpBps (sLimits s))).

Definition read_slice (arrays : gmap string (list Prefix)) (s : slice) : shaped :=
  mkShaped (sl_id s) (take (sl_len s) (default [] (arrays !! sl_id s))) (sl_rate s).

(** ** The kernel's side *)

Record devices := mkDevices {
  v_device : string; rooted : bool; v_classes : gmap Z ClassSpec; leaves : gmap Z QdiscSpec;
  v_filters : list FilterSpec }.

Definition rootQdisc (device : string) : QdiscSpec :=
  mkQdisc device QdiscHTB rootHandle rootParent defaultMinor.
Definition clsactQdisc (device : string) : QdiscSpec :=
  mkQdisc device QdiscClsact clsactHandle clsactParent 0.

Definition ours (f : FilterSpec) (m : MatchField) : bool :=
  Prefix_IsValid (fPrefix f) && (fPriority f =? ourPriority (fPrefix f)) &&
  bool_decide (fMatch f = m) && bool_decide (Redirect f = "").

Definition settledDel (e : error) : bool :=
  bool_decide (e = ErrNotInstalled) || bool_decide (e = ErrNoDevice).

(** The root qdisc and the leaves, by parent. *)
Definition view_qdisc (device : string) (acc : bool * gmap Z QdiscSpec) (q : QdiscSpec)
    : result (bool * gmap Z QdiscSpec) :=
  let '(rooted, leaves) := acc in
  if qParent q =? rootParent then
    if bool_decide (q = rootQdisc device) then Ok (true, leaves)
    else if qHandle q =? 0 then Ok acc
    else Fail (wrap "shaping" ErrForeignObject)
  else if qParent q =? clsactParent then Ok acc
  else Ok (rooted, <[ qParent q := q ]> leaves).

Definition view_class (cs : gmap Z ClassSpec) (c : ClassSpec) : gmap Z ClassSpec :=
  let '(minor, ok) := classMinor (cHandle c) in
  if ok && (cParent c =? rootHandle) then <[ minor := c ]> cs else cs.

Definition view_filter (m : MatchField) (fs : list FilterSpec) (f : FilterSpec) : result (list FilterSpec) :=
  if negb (fParent f =? rootHandle) then Ok fs
  else if ours f m then Ok (fs ++ [f])
  else if fPriority f <=? filterPrioV6 then Fail (wrap "shaping" ErrForeignObject)
  else Ok fs.

Definition ownedView (snap : Snapshot) (device : string) (m : MatchField) : result devices :=
  match foldM (view_qdisc device) (false, ∅) (Qdiscs snap) with
  | Fail e => Fail e
  | Ok (rooted, leaves) =>
      if negb rooted then Ok (mkDevices device false ∅ leaves [])
      else
        match foldM (view_filter m) [] (Filters snap) with
        | Fail e => Fail e
        | Ok fs => Ok (mkDevices device true (foldl view_class ∅ (Classes snap)) leaves fs)
        end
  end.

Definition with_v_classes (v : devices) (cs : gmap Z ClassSpec) : devices :=
  mkDevices (v_device v) (rooted v) cs (leaves v) (v_filters v).
Definition with_leaves (v : devices) (l : gmap Z QdiscSpec) : devices :=
  mkDevices (v_device v) (rooted v) (v_classes v) l (v_filters v).

(** [index] *)
Definition indexed (fs : list FilterSpec) (f : FilterSpec) : bool :=
  bool_decide (identity f ∈ identity <$> fs).

(** The keys of a map from minors, sorted. *)
Definition sorted_minors (cs : gmap Z ClassSpec) : list Z :=
  merge_sort Z.le (map_to_list cs).*1.

(** ** Class ids *)

(** The smallest of a list of candidates, [slices.Min]. *)
Definition Min (l : list Z) : option Z :=
  match l with [] => None | x :: rest => Some (foldl Z.min x rest) end.

Definition by_prefix (fs : list FilterSpec) : gmap Prefix Z :=
  foldl (fun m f => let '(minor, ok) := classMinor (ClassID f) in
                    if ok then <[ fPrefix f := minor ]> m else m) ∅ fs.

Definition zero_class : ClassSpec := mkClass "" 0 0 0 0.

(** The loop that looks for a free id, on [uint16], for as many turns as there are ids. *)
Definition id_space : nat := Z.to_nat 65536.
Fixpoint next_free (taken : Z -> bool) (fuel : nat) (next : Z) : option Z :=
  match fuel with
  | O => None
  | S fuel => if taken next then next_free taken fuel ((next + 1) mod 65536) else Some next
  end.

Section Keyed.
Context {PT : PrefixText}.

Definition key (s : shaped) : string := join_comma (prefix_string <$> prefixes s).

Definition key_le (a b : shaped) : Prop := String.le (key a) (key b).
#[global] Instance key_le_dec a b : Decision (key_le a b).
Proof. unfold key_le. apply _. Defined.

Definition sortSubjects (l : list shaped) : list shaped := merge_sort key_le l.

(** Who selects a class, by its id. *)
Definition claimant (byPrefix : gmap Prefix Z) (k : string) (m : gmap Z (gset string)) (p : Prefix)
    : gmap Z (gset string) :=
  match byPrefix !! p with
  | Some minor => <[ minor := {[ k ]} ∪ default ∅ (m !! minor) ]> m
  | None => m
  end.
Definition claimants (byPrefix : gmap Prefix Z) (subjects : list shaped) : gmap Z (gset string) :=
  foldl (fun m s => foldl (claimant byPrefix (key s)) m (prefixes s)) ∅ subjects.

Definition adopt (byPrefix : gmap Prefix Z) (contested : gmap Z (gset string))
    (acc : gmap string Z * gset Z) (s : shaped) : gmap string Z * gset Z :=
  let '(out, claimed) := acc in
  let candidates := omap (fun p =>
    match byPrefix !! p with
    | Some minor =>
        if negb (bool_decide (minor ∈ claimed)) &&
           bool_decide (size (default ∅ (contested !! minor)) = 1%nat)
        then Some minor else None
    | None => None
    end) (prefixes s) in
  match Min candidates with
  | None => acc
  | Some minor => (<[ key s := minor ]> out, {[ minor ]} ∪ claimed)
  end.

Definition allocate (cs : gmap Z ClassSpec) (acc : option (gmap string Z * gset Z * Z)) (s : shaped)
    : option (gmap string Z * gset Z * Z) :=
  match acc with
  | None => None
  | Some (out, claimed, next) =>
      match out !! key s with
      | Some _ => Some (out, claimed, next)
      | None =>
          let taken := fun n =>
            bool_decide (n ∈ claimed) || bool_decide (default zero_class (cs !! n) <> zero_class) in
          match next_free taken id_space next with
          | None => None
          | Some n => Some (<[ key s := n ]> out, {[ n ]} ∪ claimed, n)
          end
      end
  end.

Definition assignMinors (subjects : list shaped) (v : devices) : option (gmap string Z) :=
  let byPrefix := by_prefix (v_filters v) in
  let contested := claimants byPrefix subjects in
  let '(out, claimed) := foldl (adopt byPrefix contested) (∅, {[ defaultMinor ]}) subjects in
  match foldl (allocate (v_classes v)) (Some (out, claimed, firstMinor)) subjects with
  | Some (out, _, _) => Some out
  | None => None
  end.

Definition planDevice (ns : Namespaces) (w : DeviceWant) : devicePlan * list error :=
  if negb (Owns ns (wDevice w)) then (mkPlan "" "" [] [], [wrap "shaping" ErrNotOwned])
  else
    match MirrorOf ns (wDevice w) with
    | None => (mkPlan "" "" [] [], [wrap "shaping" ErrNotOwned])
    | Some mirror =>
        let c := claim_all (Subjects w) in
        let '(arrays, down, up) := foldl (split_subject (duplicated c)) (keys c, [], []) (Subjects w) in
        (mkPlan (wDevice w) mirror (sortSubjects (read_slice arrays <$> down))
           (sortSubjects (read_slice arrays <$> up)), c_failures c)
    end.

(** ** Converging *)

Section Manager.
Context {W : Type} {PL : Plane W}.

(** A write whose failure is reported, and a removal already settled is not. *)
Definition report (what : string) (r : W * result unit) : W * list error :=
  match r with (w, Ok _) => (w, []) | (w, Fail e) => (w, [wrap what e]) end.
Definition report_del (what : string) (r : W * result unit) : W * list error :=
  match r with
  | (w, Ok _) => (w, [])
  | (w, Fail e) => if settledDel e then (w, []) else (w, [wrap what e])
  end.

(** A loop that appends its failures. *)
Definition each {A S} (f : S -> A -> S * list error) (s : S) (l : list A) : S * list error :=
  foldl (fun acc a => let '(s, failures) := acc in
                      let '(s, more) := f s a in (s, failures ++ more)) (s, []) l.

Definition ensureClass (st : W * devices) (want : Z * Z) : (W * devices) * list error :=
  let '(w, v) := st in
  let '(minor, rate) := want in
  let want := mkClass (v_device v) (classHandle minor) rootHandle rate rate in
  let written :=
    match v_classes v !! minor with
    | Some have =>
        if bool_decide (have = want) then (w, Ok tt) else ChangeClass w want
    | None => AddClass w want
    end in
  match written with
  | (w, Fail e) => ((w, v), [wrap "shaping: install or retune a class" e])
  | (w, Ok _) =>
      let v := with_v_classes v (<[ minor := want ]> (v_classes v)) in
      match leaves v !! cHandle want with
      | Some _ => ((w, v), [])
      | None =>
          let leaf := mkQdisc (v_device v) QdiscSfq 0 (cHandle want) 0 in
          match AddQdisc w leaf with
          | (w, Fail e) => ((w, v), [wrap "shaping: install a leaf" e])
          | (w, Ok _) => ((w, with_leaves v (<[ cHandle want := leaf ]> (leaves v))), [])
          end
      end
  end.

Definition dropClass (st : W * devices) (minor : Z) : (W * devices) * list error :=
  let '(w, v) := st in
  let handle := classHandle minor in
  let '(w, v, failures) :=
    match leaves v !! handle with
    | Some _ =>
        let '(w, failures) :=
          report_del "shaping: remove a leaf" (DelQdisc w (mkQdisc (v_device v) QdiscSfq 0 handle 0)) in
        (w, with_leaves v (delete handle (leaves v)), failures)
    | None => (w, v, [])
    end in
  let '(w, more) :=
    report_del "shaping: remove a class" (DelClass w (default zero_class (v_classes v !! minor))) in
  ((w, with_v_classes v (delete minor (v_classes v))), failures ++ more).

Definition remove_filter (w : W) (f : FilterSpec) : W * list error :=
  report_del "shaping: remove a filter" (DelFilter w f).
Definition install_filter (w : W) (f : FilterSpec) : W * list error :=
  report "shaping: install a filter" (AddFilter w f).

Definition teardown (w : W) (device : string) (v : devices) : W * list error :=
  if negb (rooted v) then (w, [])
  else
    let '(w, e1) := each remove_filter w (v_filters v) in
    let '((w, _), e2) := each dropClass (w, v) (sorted_minors (v_classes v)) in
    let '(w, e3) := report_del "shaping: remove the root qdisc" (DelQdisc w (rootQdisc device)) in
    (w, e1 ++ e2 ++ e3).

(** The filters one tree is to have. *)
Definition want_filters (device : string) (m : MatchField) (assigned : gmap string Z)
    (subjects : list shaped) : list FilterSpec :=
  concat ((fun s => (fun p =>
    mkFilter device rootHandle (ourPriority p) m p
      (classHandle (default 0 (assigned !! key s))) "" 0) <$> prefixes s) <$> subjects).

(** The rest of the pass once the class ids are assigned: removals, then additions. *)
Definition converge_assigned (st : W * devices) (device : string) (m : MatchField)
    (subjects : list shaped) (assigned : gmap string Z) : W * list error :=
  let '(w, v) := st in
  let wantFilters := want_filters device m assigned subjects in
  let '(w, e1) :=
    each remove_filter w (filter (fun f => indexed wantFilters f = false) (v_filters v)) in
  let live := fun minor => minor = defaultMinor \/ minor ∈ (map_to_list assigned).*2 in
  let '((w, v), e2) := each dropClass (w, v) (filter (fun minor => ~ live minor) (sorted_minors (v_classes v))) in
  let '((w, v), e3) :=
    each ensureClass (w, v) ((fun s => (default 0 (assigned !! key s), rate s)) <$> subjects) in
  let '(w, e4) :=
    each install_filter w (filter (fun f => indexed (v_filters v) f = false) wantFilters) in
  (w, e1 ++ e2 ++ e3 ++ e4).

(** [None]: there is no free class id, and the search for one does not end. *)
Definition convergeTree (w : W) (device : string) (snap : Snapshot) (m : MatchField)
    (subjects : list shaped) : option (W * list error) :=
  if negb (Exists snap) then Some (w, [])
  else
    match ownedView snap device m with
    | Fail e => Some (w, [e])
    | Ok v =>
        if bool_decide (subjects = []) then Some (teardown w device v)
        else
          let root := if rooted v then (w, Ok tt) else AddQdisc w (rootQdisc device) in
          match root with
          | (w, Fail e) => Some (w, [wrap "shaping: install the root qdisc" e])
          | (w, Ok _) =>
              let '((w, v), e1) := ensureClass (w, v) (defaultMinor, KernelBytesPerSec UnlimitedBps) in
              match assignMinors subjects v with
              | None => None
              | Some assigned =>
                  let '(w, e2) := converge_assigned (w, v) device m subjects assigned in
                  Some (w, e1 ++ e2)
              end
          end
    end.

(** ** The ingress hook *)

(** The filters of the ingress block that are ours, and how many others there are
    behind them on the shared hook. *)
Definition ingress_filter (acc : list FilterSpec * nat) (f : FilterSpec) : result (list FilterSpec * nat) :=
  let '(have, behind) := acc in
  if fParent f =? egressBlock then Ok (have, S behind)
  else if negb (fParent f =? ingressBlock) then Ok acc
  else if Prefix_IsValid (fPrefix f) && (fPriority f =? ourPriority (fPrefix f)) &&
          bool_decide (fMatch f = MatchSrc)
  then Ok (have ++ [f], behind)
  else if fPriority f <=? filterPrioV6 then Fail (wrap "shaping" ErrForeignObject)
  else Ok (have, S behind).

Definition want_redirects (plan : devicePlan) : list FilterSpec :=
  concat ((fun s => (fun p =>
    mkFilter (device plan) ingressBlock (ourPriority p) MatchSrc p 0 (mirror plan) 0)
      <$> prefixes s) <$> upload plan).

Definition convergeIngress (w : W) (plan : devicePlan) (snap : Snapshot) : W * list error :=
  if negb (Exists snap) then (w, [])
  else
    let want := want_redirects plan in
    match foldM ingress_filter ([], 0%nat) (Filters snap) with
    | Fail e => (w, [e])
    | Ok (have, behind) =>
        let hooked := existsb (fun q => qParent q =? clsactParent) (Qdiscs snap) in
        let hook :=
          if negb (bool_decide (want = [])) && negb hooked
          then let '(w, r) := AddQdisc w (clsactQdisc (device plan)) in (w, r, true)
          else (w, Ok tt, hooked) in
        match hook with
        | (w, Fail e, _) => (w, [wrap "shaping: install the ingress hook" e])
        | (w, Ok _, hooked) =>
            let '(w, e1) := each remove_filter w (filter (fun f => indexed want f = false) have) in
            let '(w, e2) := each install_filter w (filter (fun f => indexed have f = false) want) in
            let '(w, e3) :=
              if bool_decide (want = []) && hooked && (behind =? 0)%nat
              then report_del "shaping: remove the ingress hook" (DelQdisc w (clsactQdisc (device plan)))
              else (w, []) in
            (w, e1 ++ e2 ++ e3)
        end
    end.

(** ** Devices and mirrors *)

Definition convergeDevice (plan : devicePlan) (w : W) : option (W * list error) :=
  let mirrored :=
    if bool_decide (upload plan = []) then Some (w, [])
    else
      match plane_Snapshot w (mirror plan) with
      | Fail e => Some (w, [wrap "shaping: read a mirror" e])
      | Ok snap =>
          if Exists snap then convergeTree w (mirror plan) snap MatchSrc (upload plan)
          else
            match EnsureIFB w (mirror plan) with
            | (w, Fail e) => Some (w, [wrap "shaping: create a mirror" e])
            | (w, Ok _) =>
                convergeTree w (mirror plan)
                  (mkSnapshot true (Qdiscs snap) (Classes snap) (Filters snap) (sLinks snap))
                  MatchSrc (upload plan)
            end
      end in
  '(w, e1) ← mirrored;
  match plane_Snapshot w (device plan) with
  | Fail e => Some (w, e1 ++ [wrap "shaping: read a device" e])
  | Ok snap =>
      '(w, e2) ← convergeTree w (device plan) snap MatchDst (download plan);
      let '(w, e3) := convergeIngress w plan snap in
      Some (w, e1 ++ e2 ++ e3)
  end.

(** The parent that still redirects into a mirror, "" when none does. *)
Fixpoint redirecting_parent (w : W) (mirror : string) (links parents : list string) : result string :=
  match parents with
  | [] => Ok ""
  | parent :: rest =>
      if negb (bool_decide (parent ∈ links)) then redirecting_parent w mirror links rest
      else
        match plane_Snapshot w parent with
        | Fail e => Fail (wrap "shaping: read a parent" e)
        | Ok snap =>
            if existsb (fun f => bool_decide (Redirect f = mirror)) (Filters snap) then Ok parent
            else redirecting_parent w mirror links rest
        end
  end.
Definition stillRedirectedInto (ns : Namespaces) (w : W) (suffix mirror : string) (links : list string)
    : result string :=
  redirecting_parent w mirror links (parentsOf ns suffix).

Definition collect_mirror (ns : Namespaces) (wanted : gset string) (links : list string) (w : W)
    (name : string) : W * list error :=
  match ownedMirror name with
  | None => (w, [])
  | Some suffix =>
      if bool_decide (name ∈ wanted) then (w, [])
      else
        match stillRedirectedInto ns w suffix name links with
        | Fail e => (w, [e])
        | Ok pinned =>
            if bool_decide (pinned <> "") then (w, [])
            else report_del "shaping: remove a stranded mirror" (DeleteIFB w name)
        end
  end.

Definition collectMirrors (ns : Namespaces) (wanted : gset string) (w : W) : W * list error :=
  match plane_Links w with
  | Fail e => (w, [wrap "shaping: enumerate devices" e])
  | Ok links => each (collect_mirror ns wanted links) w links
  end.

(** The plans of a pass, one per mirror. *)
Definition plan_want (ns : Namespaces) (acc : list devicePlan * gmap string string * list error)
    (want : DeviceWant) : list devicePlan * gmap string string * list error :=
  let '(plans, mirrors, failures) := acc in
  let '(plan, errs) := planDevice ns want in
  let failures := failures ++ errs in
  if bool_decide (device plan = "") then (plans, mirrors, failures)
  else
    match mirrors !! mirror plan with
    | Some _ => (plans, mirrors, failures ++ [ErrorText "shaping: two devices derive one mirror"])
    | None => (plans ++ [plan], <[ mirror plan := device plan ]> mirrors, failures)
    end.

Definition converge_plan (acc : option (W * list error)) (plan : devicePlan) : option (W * list error) :=
  '(w, failures) ← acc;
  '(w, more) ← convergeDevice plan w;
  Some (w, failures ++ more).

Definition Converge (ns : Namespaces) (want : list DeviceWant) (w : W) : option (W * list error) :=
  let '(plans, _, failures) := foldl (plan_want ns) ([], ∅, []) want in
  let wantedMirrors : gset string :=
    list_to_set (mirror <$> filter (fun p => upload p <> []) plans) in
  '(w, failures) ← foldl converge_plan (Some (w, failures)) plans;
  let '(w, more) := collectMirrors ns wantedMirrors w in
  Some (w, failures ++ more).

(** ** Reading back *)

Definition redirectedInto (snap : Snapshot) (mirror : string) : gset Prefix :=
  list_to_set (fPrefix <$> filter (fun f =>
    fParent f = ingressBlock /\ Redirect f = mirror /\ Prefix_IsValid (fPrefix f) = true) (Filters snap)).

Definition rates_of (cs : list ClassSpec) : gmap Z Z :=
  foldl (fun m c => let '(minor, ok) := classMinor (cHandle c) in
    if ok && (cParent c =? rootHandle) then <[ minor := RateBytesPerSec c ]> m else m) ∅ cs.

Definition readRates (snap : Snapshot) (m : MatchField) : gmap Prefix Z :=
  if negb (Exists snap) then ∅
  else
    let rates := rates_of (Classes snap) in
    foldl (fun out f =>
      if negb (fParent f =? rootHandle) || negb (ours f m) then out
      else
        let '(minor, ok) := classMinor (ClassID f) in
        if ok && negb (minor =? defaultMinor) then
          match rates !! minor with Some r => <[ fPrefix f := r ]> out | None => out end
        else out) ∅ (Filters snap).

Definition enforced_subject (down up : gmap Prefix Z) (fed : gset Prefix) (s : Subject) : Limits :=
  foldl (fun l k =>
    let prefix := Masked (kPrefix k) in
    let l := match down !! prefix with
             | Some r => mkLimits (UpBps l) (i64 (i64 r * 8)) | None => l end in
    match up !! prefix with
    | Some r => if bool_decide (prefix ∈ fed) then mkLimits (i64 (i64 r * 8)) (DownBps l) else l
    | None => l
    end) (mkLimits 0 0) (Keys s).

Definition Enforced (ns : Namespaces) (want : DeviceWant) (w : W)
    : result (gmap string Limits) * list error :=
  let '(plan, planErr) := planDevice ns want in
  if bool_decide (device plan = "") then (Ok ∅, planErr)
  else
    match plane_Snapshot w (device plan) with
    | Fail e => (Fail (wrap "shaping: read a device" e), [])
    | Ok dev =>
        match plane_Snapshot w (mirror plan) with
        | Fail e => (Fail (wrap "shaping: read a mirror" e), [])
        | Ok mir =>
            let down := readRates dev MatchDst in
            let up := readRates mir MatchSrc in
            let fed := redirectedInto dev (mirror plan) in
            (Ok (foldl (fun out s =>
               let l := enforced_subject down up fed s in
               if bool_decide (l <> mkLimits 0 0) then <[ ID s := l ]> out else out) ∅ (Subjects want)),
             planErr)
        end
    end.
End Manager.
End Keyed.
