(* ===== verification/ShapingMinors.v ===== *)
(** * Shaping: class ids

    What [assignMinors] promises: an id for every subject, never the same one for two,
    never the default class's, and the one the kernel's own filters already name when
    only that subject's do.  The ids are 16 bits wide, so the promise is for as many
    subjects and classes as there are ids; past that the search wraps around. *)
From stdpp Require Import pretty.
From Stdlib Require Import Ascii.
From S2P Require Import Prelude Decimal Netip ShapingNames ShapingKernel Shaping.
Open Scope string_scope.
Open Scope Z_scope.
Open Scope list_scope.

(** ** The search *)

Lemma next_free_run taken fuel next m :
  0 <= next -> next <= m < 65536 -> (Z.to_nat (m - next) < fuel)%nat ->
  (forall n, next <= n < m -> taken n = true) -> taken m = false ->
  next_free taken fuel next = Some m.
Proof.
  revert next. induction fuel as [|fuel IH]; intros next H0 Hm Hf Ht Hfree; [lia|]. simpl.
  destruct (decide (next = m)) as [->|Hne]; [by rewrite Hfree|].
  rewrite Ht by lia. rewrite Z.mod_small by lia. apply IH; [lia|lia|lia| |done].
  intros n Hn. apply Ht. lia.
Qed.

(** The least free id from [next] on, when there is one. *)
Lemma least_free taken next last :
  0 <= next -> next <= last -> taken last = false ->
  exists m, next <= m <= last /\ taken m = false /\ forall n, next <= n < m -> taken n = true.
Proof.
  intros H0 Hle Hlast. assert (exists k, last = next + Z.of_nat k) as [k Hk]
    by (exists (Z.to_nat (last - next)); lia).
  clear Hle. revert next H0 Hk. induction k as [|k IH]; intros next H0 Hk.
  - exists next. assert (last = next) as -> by lia. split_and!; [lia|lia|done|lia].
  - destruct (taken next) eqn:Ht.
    + destruct (IH (next + 1)) as (m & ? & ? & Hm); [lia|lia|]. exists m. split_and!; [lia|lia|done|].
      intros n Hn. destruct (decide (n = next)) as [->|]; [done|]. apply Hm. lia.
    + exists next. split_and!; [lia|lia|done|lia].
Qed.

Lemma next_free_found taken next last :
  0 <= next -> next <= last < 65536 -> taken last = false ->
  exists m, next_free taken id_space next = Some m /\ next <= m <= last /\ taken m = false /\
    forall n, next <= n < m -> taken n = true.
Proof.
  intros H0 Hl Hlast. destruct (least_free taken next last) as (m & Hm & Hfree & Ht); [lia|lia|done|].
  exists m. split_and!; [|lia|lia|done|done]. apply next_free_run; [lia|lia|unfold id_space; lia|done|done].
Qed.

(** Past the last id the search goes on from zero. *)
Lemma next_free_wraps taken next :
  0 <= next < 65536 -> (forall n, next <= n < 65536 -> taken n = true) -> taken 0 = false ->
  next <> 0 -> next_free taken id_space next = Some 0.
Proof.
  intros Hn Ht H0 Hne.
  assert (forall k fuel at_, (k < fuel)%nat -> 0 <= at_ -> at_ + Z.of_nat k = 65536 ->
    (forall n, at_ <= n < 65536 -> taken n = true) -> (0 < k)%nat -> next_free taken fuel at_ = Some 0) as Hgo.
  { induction k as [|k IH]; intros fuel at_ Hf Ha Hk Htk Hp; [lia|]. destruct fuel as [|fuel]; [lia|].
    cbn [next_free]. rewrite Htk by lia. destruct (decide (k = 0)%nat) as [->|].
    - assert (at_ = 65535) as -> by lia. change ((65535 + 1) mod 65536) with 0.
      destruct fuel as [|fuel]; [lia|]. cbn [next_free]. by rewrite H0.
    - rewrite Z.mod_small by lia. apply IH; [lia|lia|lia| |lia]. intros z ?. apply Htk. lia. }
  apply (Hgo (Z.to_nat (65536 - next))); [unfold id_space; lia|lia|lia|done|lia].
Qed.

(** Fewer taken ids than there are leave one free. *)
Lemma free_minor (taken : gset Z) :
  (Z.of_nat (size taken) < 65519) -> exists m, firstMinor <= m < defaultMinor /\ m ∉ taken.
Proof.
  intros Hsize. unfold firstMinor, defaultMinor.
  destruct (decide (List.Exists (fun m => m ∉ taken) (seqZ 16 65519))) as [Hex|Hno].
  - apply List.Exists_exists in Hex as (m & Hin & Hm). apply list_elem_of_In, elem_of_seqZ in Hin.
    exists m. split; [lia|done].
  - exfalso. assert ((list_to_set (seqZ 16 65519) : gset Z) ⊆ taken) as Hsub.
    { intros m Hm. apply elem_of_list_to_set in Hm. destruct (decide (m ∈ taken)); [done|].
      exfalso. apply Hno. apply List.Exists_exists. exists m. split; [|done]. by apply list_elem_of_In. }
    apply subseteq_size in Hsub. rewrite size_list_to_set, length_seqZ in Hsub by apply NoDup_seqZ. lia.
Qed.

(** ** What the filters say *)

Lemma by_prefix_Some fs p m :
  by_prefix fs !! p = Some m ->
  0 < m < 65536 /\ exists f, f ∈ fs /\ fPrefix f = p /\ classMinor (ClassID f) = (m, true).
Proof.
  unfold by_prefix. set (step := fun (b : gmap Prefix Z) f => _).
  assert (forall b, foldl step b fs !! p = Some m ->
    b !! p = Some m \/ exists f, f ∈ fs /\ fPrefix f = p /\ classMinor (ClassID f) = (m, true)) as Hgo.
  { induction fs as [|f fs IH]; intros b; simpl; [auto|]. intros H.
    destruct (IH _ H) as [Hb|(g & ? & ?)]; [|right; exists g; rewrite elem_of_cons; auto]. subst step. cbv beta in Hb.
    destruct (classMinor (ClassID f)) as [minor []] eqn:Hc; [|auto].
    destruct (decide (fPrefix f = p)) as [<-|Hne].
    - rewrite lookup_insert_eq in Hb. injection Hb as ->. right. exists f. rewrite elem_of_cons. auto.
    - rewrite lookup_insert_ne in Hb by done. auto. }
  intros H. destruct (Hgo ∅ H) as [Hb|(f & Hin & Hp & Hc)]; [by rewrite lookup_empty in Hb|].
  split; [|eauto]. unfold classMinor in Hc. injection Hc as <- Hok. bools.
  pose proof (Z.mod_pos_bound (ClassID f) 65536). lia.
Qed.

(** When every filter of a prefix names one class, so does the index. *)
Lemma by_prefix_unique fs p m :
  (exists f, f ∈ fs /\ fPrefix f = p) ->
  (forall f, f ∈ fs -> fPrefix f = p -> classMinor (ClassID f) = (m, true)) ->
  by_prefix fs !! p = Some m.
Proof.
  unfold by_prefix. set (step := fun (b : gmap Prefix Z) f => _). intros Hex Hall.
  assert (forall b, (forall f, f ∈ fs -> fPrefix f = p -> classMinor (ClassID f) = (m, true)) ->
    (exists f, f ∈ fs /\ fPrefix f = p) \/ b !! p = Some m -> foldl step b fs !! p = Some m) as Hgo.
  { clear. induction fs as [|f fs IH]; intros b Hall Hex; simpl.
    - destruct Hex as [(f & Hf & _)|]; [by apply not_elem_of_nil in Hf|done].
    - apply IH; [intros g Hg; apply Hall; rewrite elem_of_cons; auto|].
      destruct (decide (fPrefix f = p)) as [Hp|Hp].
      + right. subst step. cbv beta. rewrite (Hall f) by (done || rewrite elem_of_cons; auto). by rewrite Hp, lookup_insert_eq.
      + destruct Hex as [(g & Hg & Hgp)|Hb].
        * left. exists g. split; [|done]. apply elem_of_cons in Hg as [->|]; done.
        * right. subst step. cbv beta. destruct (classMinor (ClassID f)) as [? []]; [|done].
          by rewrite lookup_insert_ne. }
  apply Hgo; auto.
Qed.

Lemma Min_elem l m : Min l = Some m -> m ∈ l.
Proof.
  destruct l as [|x l]; [done|]. simpl. intros [= <-].
  assert (forall x, foldl Z.min x l = x \/ foldl Z.min x l ∈ l) as H.
  { induction l as [|y l IH]; intros z; simpl; [auto|].
    destruct (IH (Z.min z y)) as [->|]; [|set_solver].
    destruct (Z.min_spec z y) as [[_ ->]|[_ ->]]; set_solver. }
  destruct (H x) as [->|]; set_solver.
Qed.

Lemma Min_const l m : l <> [] -> (forall x, x ∈ l -> x = m) -> Min l = Some m.
Proof.
  intros Hne Hall. destruct (Min l) as [x|] eqn:Hx; [|by destruct l].
  f_equal. apply Hall. by apply Min_elem.
Qed.

Section Assign.
Context {PT : PrefixText}.

Lemma claimants_elem bp subjects m k :
  k ∈ default ∅ (claimants bp subjects !! m) <->
  exists s p, s ∈ subjects /\ p ∈ prefixes s /\ key s = k /\ bp !! p = Some m.
Proof.
  assert (forall k' l b, k ∈ default ∅ (foldl (claimant bp k') b l !! m) <->
    k ∈ default ∅ (b !! m) \/ exists p, p ∈ l /\ k' = k /\ bp !! p = Some m) as Hin.
  { intros k' l. induction l as [|p l IH]; intros b; simpl.
    - split; [auto|]. intros [?|(p & Hp & _)]; [done|by apply not_elem_of_nil in Hp].
    - rewrite IH. unfold claimant. setoid_rewrite elem_of_cons. destruct (bp !! p) as [m'|] eqn:Hp.
      + destruct (decide (m' = m)) as [->|Hne].
        * rewrite lookup_insert_eq. simpl. rewrite elem_of_union, elem_of_singleton. naive_solver.
        * rewrite lookup_insert_ne by done. naive_solver.
      + naive_solver. }
  assert (forall b, k ∈ default ∅
      (foldl (fun b s => foldl (claimant bp (key s)) b (prefixes s)) b subjects !! m) <->
    k ∈ default ∅ (b !! m) \/ exists s p, s ∈ subjects /\ p ∈ prefixes s /\ key s = k /\ bp !! p = Some m)
    as Hgo.
  { induction subjects as [|s subjects IH]; intros b; simpl.
    - split; [auto|]. intros [?|(s & p & Hs & _)]; [done|by apply not_elem_of_nil in Hs].
    - rewrite IH, Hin. setoid_rewrite elem_of_cons. naive_solver. }
  unfold claimants. rewrite Hgo, lookup_empty. simpl. naive_solver set_solver.
Qed.

(** Every id handed out is claimed, in range, and held once; nothing else is claimed. *)
Record fair (out : gmap string Z) (claimed : gset Z) : Prop := {
  fair_default : defaultMinor ∈ claimed;
  fair_out k m : out !! k = Some m -> m ∈ claimed /\ 0 < m < defaultMinor;
  fair_inj k k' m : out !! k = Some m -> out !! k' = Some m -> k = k';
  fair_cover m : m ∈ claimed -> m = defaultMinor \/ exists k, out !! k = Some m;
}.

Lemma fair_insert out claimed k m :
  fair out claimed -> out !! k = None -> m ∉ claimed -> 0 < m < defaultMinor ->
  fair (<[ k := m ]> out) ({[ m ]} ∪ claimed).
Proof.
  intros [Hd Ho Hi Hc] Hk Hm Hr. split.
  - set_solver.
  - intros k' m'. destruct (decide (k = k')) as [<-|Hne].
    + rewrite lookup_insert_eq. intros [= <-]. set_solver.
    + rewrite lookup_insert_ne by done. intros [? ?]%Ho. set_solver.
  - intros k1 k2 m'. destruct (decide (k = k1)) as [<-|H1], (decide (k = k2)) as [<-|H2];
      rewrite ?lookup_insert_eq, ?lookup_insert_ne by done; [done|..].
    + intros [= <-] [? _]%Ho. done.
    + intros [? _]%Ho [= <-]. done.
    + apply Hi.
  - intros m' [->%elem_of_singleton|Hin]%elem_of_union.
    + right. exists k. apply lookup_insert_eq.
    + destruct (Hc m' Hin) as [->|[k' Hk']]; [auto|]. right. exists k'.
      rewrite lookup_insert_ne; [done|]. intros <-. congruence.
Qed.

Lemma fair_size out claimed : fair out claimed -> (size claimed <= S (size out))%nat.
Proof.
  intros H. set (vs := (map_to_list out).*2).
  assert (claimed ⊆ {[ defaultMinor ]} ∪ (list_to_set vs : gset Z)) as Hsub.
  { intros m Hm. destruct (fair_cover _ _ H m Hm) as [->|[k Hk]]; [set_solver|].
    apply elem_of_union_r, elem_of_list_to_set. unfold vs. apply list_elem_of_fmap.
    exists (k, m). split; [done|]. by apply elem_of_map_to_list. }
  apply subseteq_size in Hsub. etrans; [exact Hsub|]. rewrite size_union_alt, size_singleton.
  assert (forall l : list Z, size (list_to_set l : gset Z) <= length l)%nat as Hl.
  { induction l as [|x l IH]; [done|]. cbn [list_to_set length]. rewrite size_union_alt, size_singleton.
    pose proof (subseteq_size ((list_to_set l : gset Z) ∖ {[x]}) (list_to_set l) ltac:(set_solver)). lia. }
  pose proof (subseteq_size ((list_to_set vs : gset Z) ∖ {[defaultMinor]}) (list_to_set vs) ltac:(set_solver)).
  specialize (Hl vs). unfold vs in *. rewrite length_fmap, length_map_to_list in *. lia.
Qed.

(** ** Adopting *)

Lemma adopt_cases bp contested out claimed s :
  (forall p m, bp !! p = Some m -> 0 < m < 65536) ->
  defaultMinor ∈ claimed ->
  adopt bp contested (out, claimed) s = (out, claimed) \/
  exists m p, adopt bp contested (out, claimed) s = (<[ key s := m ]> out, {[ m ]} ∪ claimed) /\
    p ∈ prefixes s /\ bp !! p = Some m /\ m ∉ claimed /\ 0 < m < defaultMinor.
Proof.
  intros Hbp Hd. unfold adopt. set (cands := omap _ _). destruct (Min cands) as [m|] eqn:Hm; [|auto].
  right. exists m. apply Min_elem in Hm. unfold cands in Hm. apply list_elem_of_omap in Hm as (p & Hp & Hf).
  destruct (bp !! p) as [m'|] eqn:Hb; [|done]. split_guard_in Hf; [|done]. injection Hf as ->.
  destruct_and!. exists p. pose proof (Hbp p m Hb). split_and!; try done; [lia|].
  assert (m <> defaultMinor) by (intros ->; done). unfold defaultMinor in *. lia.
Qed.

Lemma adopts_fair bp contested subjects : forall out claimed,
  (forall p m, bp !! p = Some m -> 0 < m < 65536) ->
  NoDup (key <$> subjects) -> (forall s, s ∈ subjects -> out !! key s = None) -> fair out claimed ->
  let r := foldl (adopt bp contested) (out, claimed) subjects in
  fair r.1 r.2 /\ forall k, is_Some (r.1 !! k) -> is_Some (out !! k) \/ k ∈ key <$> subjects.
Proof.
  induction subjects as [|s subjects IH]; intros out claimed Hbp Hnd Hnone Hfair; cbv zeta;
    cbn [foldl]; [simpl; auto|].
  apply NoDup_cons in Hnd as [Hs Hnd]. setoid_rewrite elem_of_cons in Hnone.
  destruct (adopt_cases bp contested out claimed s Hbp (fair_default _ _ Hfair))
    as [->|(m & p & -> & _ & _ & Hm & Hr)].
  - destruct (IH out claimed Hbp Hnd) as [H1 H2]; [auto|done|]. split; [done|].
    intros k Hk. destruct (H2 k Hk); set_solver.
  - destruct (IH (<[ key s := m ]> out) ({[ m ]} ∪ claimed) Hbp Hnd) as [H1 H2].
    + intros t Ht. rewrite lookup_insert_ne; [auto|]. intros Heq. apply Hs. rewrite Heq.
      by apply list_elem_of_fmap_2.
    + apply fair_insert; auto.
    + split; [done|]. intros k Hk. destruct (H2 k Hk) as [Hin|?]; [|set_solver].
      destruct (decide (key s = k)) as [<-|]; [set_solver|]. rewrite lookup_insert_ne in Hin by done. auto.
Qed.

(** ** Allocating *)

(** Every id below [next] is taken. *)
Definition swept (cs : gmap Z ClassSpec) (claimed : gset Z) (next : Z) : Prop :=
  forall n, firstMinor <= n < next -> n ∈ claimed \/ is_Some (cs !! n).

Lemma allocate_one cs out claimed next s (K : gset string) :
  fair out claimed -> firstMinor <= next -> swept cs claimed next ->
  dom out ⊆ K -> key s ∈ K -> Z.of_nat (size K + size cs) < 65519 -> out !! key s = None ->
  exists n, allocate cs (Some (out, claimed, next)) s = Some (<[ key s := n ]> out, {[ n ]} ∪ claimed, n) /\
    n ∉ claimed /\ next <= n < defaultMinor /\ swept cs ({[ n ]} ∪ claimed) n.
Proof.
  intros Hfair Hnext Hsw Hdom HK Hbound Hnone. unfold allocate. rewrite Hnone. cbv zeta.
  set (taken := fun n => _ || _).
  destruct (free_minor (claimed ∪ dom cs)) as (last & Hlast & Hfree).
  { assert (size (dom out) < size K)%nat as Hlt.
    { apply subset_size. split; [done|]. intros Hsub. apply Hsub, elem_of_dom in HK as [? ?]. congruence. }
    rewrite size_dom in Hlt. pose proof (fair_size _ _ Hfair). rewrite size_union_alt.
    pose proof (subseteq_size (dom cs ∖ claimed) (dom cs) ltac:(set_solver)) as Hd.
    rewrite size_dom in Hd. lia. }
  assert (forall n, taken n = true -> n ∈ claimed \/ is_Some (cs !! n)) as Htk.
  { intros n Hn. unfold taken in Hn. bools. destruct Hn as [Hn|Hn]; [auto|].
    right. destruct (cs !! n); [eauto|done]. }
  unfold firstMinor, defaultMinor in *. apply not_elem_of_union in Hfree as [Hf1 Hf2].
  apply not_elem_of_dom in Hf2.
  assert (next <= last) as Hle.
  { destruct (Z.le_gt_cases next last); [done|]. destruct (Hsw last) as [?|[? ?]]; [unfold firstMinor; lia|done|congruence]. }
  destruct (next_free_found taken next last) as (n & -> & Hn & Hfree & Hrun); [lia|lia| |].
  { unfold taken. rewrite bool_decide_eq_false_2 by done. rewrite Hf2.
    rewrite bool_decide_eq_false_2; [done|]. auto. }
  exists n. split_and!; [done| |lia|lia|].
  - unfold taken in Hfree. by bools.
  - intros j Hj. destruct (Z.lt_ge_cases j next).
    + destruct (Hsw j) as [?|?]; [unfold firstMinor in *; lia|set_solver|auto].
    + destruct (Htk j (Hrun j ltac:(lia))); [set_solver|auto].
Qed.

Lemma allocates cs subjects (K : gset string) : forall out claimed next,
  fair out claimed -> firstMinor <= next -> swept cs claimed next ->
  dom out ⊆ K -> (forall s, s ∈ subjects -> key s ∈ K) -> Z.of_nat (size K + size cs) < 65519 ->
  exists out' claimed' next',
    foldl (allocate cs) (Some (out, claimed, next)) subjects = Some (out', claimed', next') /\
    fair out' claimed' /\ out ⊆ out' /\ dom out' ⊆ K /\
    forall s, s ∈ subjects -> is_Some (out' !! key s).
Proof.
  induction subjects as [|s subjects IH]; intros out claimed next Hfair Hnext Hsw Hdom HK Hb; cbn [foldl].
  - exists out, claimed, next. split_and!; try done. intros s Hs. by apply not_elem_of_nil in Hs.
  - setoid_rewrite elem_of_cons in HK. destruct (out !! key s) as [m|] eqn:Hm.
    + assert (allocate cs (Some (out, claimed, next)) s = Some (out, claimed, next)) as ->
        by (unfold allocate; by rewrite Hm).
      destruct (IH out claimed next) as (out' & cl' & nx' & He & Hf & Hsub & Hd & Hall); auto.
      exists out', cl', nx'. split_and!; try done. intros t [->|Ht]%elem_of_cons; [|auto].
      exists m. by eapply lookup_weaken.
    + destruct (allocate_one cs out claimed next s K) as (n & -> & Hn & Hr & Hsw'); auto.
      unfold firstMinor, defaultMinor in *.
      destruct (IH (<[ key s := n ]> out) ({[ n ]} ∪ claimed) n) as (out' & cl' & nx' & He & Hf & Hsub & Hd & Hall);
        auto; [|lia| |].
      * apply fair_insert; auto. unfold defaultMinor. lia.
      * rewrite dom_insert. specialize (HK s). set_solver.
      * exists out', cl', nx'. split_and!; try done.
        -- etrans; [|exact Hsub]. by apply insert_subseteq.
        -- intros t [->|Ht]%elem_of_cons; [|auto]. exists n. eapply lookup_weaken; [|exact Hsub].
           apply lookup_insert_eq.
Qed.
(** ** The whole assignment *)

Lemma fair_start : fair ∅ {[ defaultMinor ]}.
Proof. split; [set_solver|done|done|]. intros m Hm. left. set_solver. Qed.

Lemma assign_from out claimed subjects cs :
  NoDup (key <$> subjects) -> Z.of_nat (length subjects + size cs) < 65519 ->
  fair out claimed -> (forall k, is_Some (out !! k) -> k ∈ key <$> subjects) ->
  exists out' claimed' next',
    foldl (allocate cs) (Some (out, claimed, firstMinor)) subjects = Some (out', claimed', next') /\
    fair out' claimed' /\ out ⊆ out' /\ (forall k, is_Some (out' !! k) <-> k ∈ key <$> subjects).
Proof.
  intros Hnd Hb Hfair Hdom. set (K := list_to_set (key <$> subjects) : gset string).
  destruct (allocates cs subjects K out claimed firstMinor) as (out' & cl' & nx' & He & Hf & Hsub & Hd & Hall).
  - done.
  - lia.
  - intros n Hn. lia.
  - intros k Hk. apply elem_of_dom in Hk. apply elem_of_list_to_set. auto.
  - intros s Hs. apply elem_of_list_to_set. by apply list_elem_of_fmap_2.
  - unfold K. rewrite size_list_to_set by done. rewrite length_fmap. lia.
  - exists out', cl', nx'. split_and!; try done. intros k. split.
    + intros Hk. apply elem_of_dom in Hk. apply Hd in Hk. by apply elem_of_list_to_set in Hk.
    + intros (s & -> & Hs)%list_elem_of_fmap. auto.
Qed.

Lemma assign_spec subjects v :
  NoDup (key <$> subjects) -> Z.of_nat (length subjects + size (v_classes v)) < 65519 ->
  exists out claimed, assignMinors subjects v = Some out /\ fair out claimed /\
    forall k, is_Some (out !! k) <-> k ∈ key <$> subjects.
Proof.
  intros Hnd Hb. unfold assignMinors. set (bp := by_prefix (v_filters v)).
  destruct (adopts_fair bp (claimants bp subjects) subjects ∅ {[ defaultMinor ]}) as [Hf Hk].
  - intros p m Hm. by apply by_prefix_Some in Hm as [? _].
  - done.
  - intros s _. apply lookup_empty.
  - apply fair_start.
  - destruct (foldl (adopt _ _) _ _) as [out claimed]. simpl in *.
    destruct (assign_from out claimed subjects (v_classes v)) as (out' & cl' & nx' & -> & Hf' & _ & Hall);
      [done|done|done| |by exists out', cl'].
    intros k Hs. destruct (Hk k Hs) as [[? He]|?]; [by rewrite lookup_empty in He|done].
Qed.

(** A tree that is already as wanted keeps its ids. *)
Section Kept.
Context (M : gmap string Z) (bp : gmap Prefix Z) (all : list shaped).
Hypothesis M_range : forall s, s ∈ all -> exists m, M !! key s = Some m /\ 0 < m < defaultMinor.
Hypothesis M_inj : forall s t m, s ∈ all -> t ∈ all -> M !! key s = Some m -> M !! key t = Some m -> key s = key t.
Hypothesis M_filters : forall s p, s ∈ all -> p ∈ prefixes s -> bp !! p = M !! key s.
Hypothesis all_select : forall s, s ∈ all -> prefixes s <> [].

Lemma claimants_one s m :
  s ∈ all -> M !! key s = Some m -> size (default ∅ (claimants bp all !! m)) = 1%nat.
Proof using M_inj M_filters all_select.
  intros Hs Hm. replace (default ∅ (claimants bp all !! m)) with ({[ key s ]} : gset string);
    [apply size_singleton|].
  apply set_eq. intros k. rewrite claimants_elem, elem_of_singleton. split.
  - intros ->. destruct (prefixes s) as [|p l] eqn:Hp; [by apply all_select in Hp|].
    assert (p ∈ prefixes s) as Hin by (rewrite Hp; apply elem_of_cons; auto).
    exists s, p. split_and!; try done. by rewrite (M_filters s p).
  - intros (t & p & Ht & Hp & <- & Hb). rewrite (M_filters t p) in Hb by done. by apply (M_inj t s m).
Qed.

Lemma adopt_kept s m out claimed :
  s ∈ all -> M !! key s = Some m -> m ∉ claimed ->
  adopt bp (claimants bp all) (out, claimed) s = (<[ key s := m ]> out, {[ m ]} ∪ claimed).
Proof using M_inj M_filters all_select.
  intros Hs Hm Hcl. unfold adopt. rewrite (Min_const _ m); [done| |].
  - destruct (prefixes s) as [|p l] eqn:Hp; [by apply all_select in Hp|].
    assert (p ∈ prefixes s) as Hin by (rewrite Hp; apply elem_of_cons; auto). simpl.
    rewrite (M_filters s p), Hm by done. rewrite bool_decide_eq_false_2 by done.
    by rewrite bool_decide_eq_true_2 by (by apply (claimants_one s)).
  - intros x (p & Hp & Hx)%list_elem_of_omap. rewrite (M_filters s p), Hm in Hx by done.
    split_guard_in Hx; [|done]. by injection Hx.
Qed.

Lemma adopts_kept subjects : forall out claimed,
  (forall s, s ∈ subjects -> s ∈ all) -> NoDup (key <$> subjects) ->
  (forall s m, s ∈ subjects -> M !! key s = Some m -> m ∉ claimed) ->
  forall s, s ∈ subjects ->
    (foldl (adopt bp (claimants bp all)) (out, claimed) subjects).1 !! key s = M !! key s.
Proof using M_range M_inj M_filters all_select.
  induction subjects as [|s subjects IH]; intros out claimed Hall Hnd Hcl t Ht.
  { by apply not_elem_of_nil in Ht. }
  setoid_rewrite elem_of_cons in Hall. setoid_rewrite elem_of_cons in Hcl. cbn [foldl].
  apply NoDup_cons in Hnd as [Hs Hnd]. destruct (M_range s) as (m & Hm & Hr); [auto|].
  rewrite (adopt_kept s m); [|auto|done|apply (Hcl s); auto].
  assert (forall u, u ∈ subjects -> key u <> key s) as Hneq.
  { intros u Hu Heq. apply Hs. rewrite <-Heq. by apply list_elem_of_fmap_2. }
  assert (forall k m' l out cl, k ∉ key <$> l -> (out : gmap string Z) !! k = m' ->
    (foldl (adopt bp (claimants bp all)) (out, cl) l).1 !! k = m') as Hkeep.
  { clear. intros k m' l. induction l as [|u l IH]; intros out cl Hk Ho; [done|]. cbn [foldl].
    apply not_elem_of_cons in Hk as [Hku Hk].
    assert (exists o c, adopt bp (claimants bp all) (out, cl) u = (o, c) /\ o !! key u = o !! key u /\
      o !! k = out !! k) as (o & c & -> & _ & Ho').
    { unfold adopt. destruct (Min _); eexists _, _; split_and!; try done. by rewrite lookup_insert_ne. }
    apply IH; [done|]. congruence. }
  apply elem_of_cons in Ht as [->|Ht].
  - rewrite (Hkeep (key s) (Some m)); [done|done|apply lookup_insert_eq].
  - apply IH; [auto|done| |done]. intros u m' Hu Hm'. apply not_elem_of_union. split; [|eauto].
    apply not_elem_of_singleton. intros ->. apply (Hneq u Hu). apply (M_inj u s m); auto.
Qed.
End Kept.

Lemma allocates_none cs subjects out claimed next :
  (forall s, s ∈ subjects -> is_Some (out !! key s)) ->
  foldl (allocate cs) (Some (out, claimed, next)) subjects = Some (out, claimed, next).
Proof.
  induction subjects as [|s subjects IH]; intros Hall; [done|]. setoid_rewrite elem_of_cons in Hall.
  cbn [foldl]. destruct (Hall s) as [m Hm]; [auto|].
  assert (allocate cs (Some (out, claimed, next)) s = Some (out, claimed, next)) as ->
    by (unfold allocate; by rewrite Hm).
  apply IH. auto.
Qed.

Lemma assign_kept subjects v M :
  NoDup (key <$> subjects) ->
  (forall s, s ∈ subjects -> exists m, M !! key s = Some m /\ 0 < m < defaultMinor) ->
  (forall s t m, s ∈ subjects -> t ∈ subjects -> M !! key s = Some m -> M !! key t = Some m -> key s = key t) ->
  (forall k, is_Some (M !! k) -> k ∈ key <$> subjects) ->
  (forall s p, s ∈ subjects -> p ∈ prefixes s -> by_prefix (v_filters v) !! p = M !! key s) ->
  (forall s, s ∈ subjects -> prefixes s <> []) ->
  assignMinors subjects v = Some M.
Proof.
  intros Hnd Hr Hi Hdom Hf Hne. unfold assignMinors. set (bp := by_prefix (v_filters v)) in *.
  destruct (adopts_fair bp (claimants bp subjects) subjects ∅ {[ defaultMinor ]}) as [Hfair Hk].
  { intros p m Hm. by apply by_prefix_Some in Hm as [? _]. } { done. } { intros s _. apply lookup_empty. }
  { apply fair_start. }
  assert (forall s, s ∈ subjects ->
    (foldl (adopt bp (claimants bp subjects)) (∅, {[ defaultMinor ]}) subjects).1 !! key s = M !! key s) as HM.
  { apply adopts_kept; auto. intros s m Hs Hm Hin%elem_of_singleton. destruct (Hr s Hs) as (m' & Hm' & ?).
    rewrite Hm in Hm'. injection Hm' as <-. lia. }
  destruct (foldl (adopt _ _) _ _) as [out claimed]. simpl in *.
  rewrite allocates_none.
  2:{ intros s Hs. rewrite HM by done. destruct (Hr s Hs) as (m & -> & _). eauto. }
  f_equal. apply map_eq. intros k. destruct (decide (k ∈ key <$> subjects)) as [Hin|Hin].
  - apply list_elem_of_fmap in Hin as (s & -> & Hs). by apply HM.
  - transitivity (None : option Z); [|symmetry]; apply eq_None_not_Some; intros H; apply Hin.
    + destruct (Hk k H) as [[? He]|?]; [by rewrite lookup_empty in He|done].
    + by apply Hdom.
Qed.
End Assign.
