(* ===== verification/ShapingPlan.v ===== *)
(** * Shaping: the plan of a device

    What [planDevice] promises of the two populations it splits a want into: a subject
    is shaped by exactly the host addresses it alone claims, at the rate asked for, and
    two subjects never share one. *)
From stdpp Require Import pretty.
From Stdlib Require Import Ascii.
From S2P Require Import Prelude Decimal Netip ShapingNames ShapingKernel Shaping.
Open Scope string_scope.
Open Scope Z_scope.
Open Scope list_scope.

(** ** Claims *)

(** A selector of the list names this host. *)
Definition selects (ks : list Key) (p : Prefix) : Prop :=
  exists k, k ∈ ks /\ host_prefix k = true /\ Masked (kPrefix k) = p.

Lemma selects_cons k ks p :
  selects (k :: ks) p <-> (host_prefix k = true /\ Masked (kPrefix k) = p) \/ selects ks p.
Proof. unfold selects. setoid_rewrite elem_of_cons. naive_solver. Qed.

Lemma selects_nil p : ~ selects [] p.
Proof. intros (k & Hk & _). by apply not_elem_of_nil in Hk. Qed.

Lemma selects_app ks ks' p : selects (ks ++ ks') p <-> selects ks p \/ selects ks' p.
Proof. unfold selects. setoid_rewrite elem_of_app. naive_solver. Qed.

(** One selector, by cases: it names no host, or it is the subject's, or it is not. *)
Lemma claim_key_cases id c held k :
  let r := claim_key id (c, held) k in
  keys r.1 = keys c /\
  ((host_prefix k = false /\ owner r.1 = owner c /\ duplicated r.1 = duplicated c /\ r.2 = held) \/
   (host_prefix k = true /\
    exists x, owner c !! Masked (kPrefix k) = Some x /\ x <> id /\ owner r.1 = owner c /\
      duplicated r.1 = {[ Masked (kPrefix k) ]} ∪ duplicated c /\ r.2 = held) \/
   (host_prefix k = true /\ (owner c !! Masked (kPrefix k) = None \/ owner c !! Masked (kPrefix k) = Some id) /\
    owner r.1 = <[ Masked (kPrefix k) := id ]> (owner c) /\ duplicated r.1 = duplicated c /\
    r.2 = held ++ [Masked (kPrefix k)])).
Proof.
  unfold claim_key. destruct (host_prefix k) eqn:Hh.
  - rewrite (proj2 (andb_false_iff _ _)).
    2:{ right. unfold host_prefix in Hh. apply andb_true_iff in Hh as [-> _]. done. }
    simpl. destruct (owner c !! Masked (kPrefix k)) as [x|] eqn:Ho.
    + case_bool_decide as Hx; simpl; (split; [done|]).
      * right. left. split; [done|]. exists x. done.
      * right. right. subst x. auto.
    + simpl. split; [done|]. right. right. auto.
  - split_guard; simpl; (split; [done|]); auto.
Qed.

Lemma claim_keys id ks : forall c held,
  let r := foldl (claim_key id) (c, held) ks in
  keys r.1 = keys c /\
  (forall p x, owner r.1 !! p = Some x <->
    owner c !! p = Some x \/ (owner c !! p = None /\ selects ks p /\ x = id)) /\
  (forall p, p ∈ duplicated r.1 <->
    p ∈ duplicated c \/ (selects ks p /\ exists x, owner c !! p = Some x /\ x <> id)) /\
  (forall p, p ∈ r.2 <->
    p ∈ held \/ (selects ks p /\ (owner c !! p = None \/ owner c !! p = Some id))).
Proof.
  induction ks as [|k ks IH]; intros c held; cbv zeta; cbn [foldl].
  { simpl. pose proof selects_nil. split_and!; [done|..]; intros; naive_solver. }
  pose proof (claim_key_cases id c held k) as Hk. cbv zeta in Hk.
  destruct (claim_key id (c, held) k) as [c1 held1]. simpl in Hk. destruct Hk as [Hkeys Hk].
  destruct (IH c1 held1) as (H1 & H2 & H3 & H4). cbv zeta in *.
  setoid_rewrite H2. setoid_rewrite H3. setoid_rewrite H4. setoid_rewrite selects_cons.
  split; [by rewrite H1|]. destruct Hk as [(Hh & -> & -> & ->)|[(Hh & x & Hx & Hne & -> & -> & ->)|
    (Hh & Hx & -> & -> & ->)]]; rewrite Hh.
  - split_and!; intros; naive_solver.
  - split_and!; intros.
    + naive_solver.
    + rewrite elem_of_union, elem_of_singleton. naive_solver.
    + naive_solver.
  - split_and!.
    + intros p y. destruct (decide (Masked (kPrefix k) = p)) as [<-|Hp];
        [rewrite lookup_insert_eq|rewrite lookup_insert_ne by done]; naive_solver.
    + intros p. destruct (decide (Masked (kPrefix k) = p)) as [<-|Hp];
        [rewrite lookup_insert_eq|rewrite lookup_insert_ne by done]; naive_solver.
    + intros p. rewrite elem_of_app, list_elem_of_singleton.
      destruct (decide (Masked (kPrefix k) = p)) as [<-|Hp];
        [rewrite lookup_insert_eq|rewrite lookup_insert_ne by done]; naive_solver.
Qed.

(** A subject claims a host. *)
Definition claims_host (s : Subject) (p : Prefix) : Prop := selects (Keys s) p.

(** What the first loop knows of the subjects it has seen. *)
Record claims_ok (seen : list Subject) (c : claims) : Prop := {
  co_owner p x : owner c !! p = Some x -> exists s, s ∈ seen /\ ID s = x /\ claims_host s p;
  co_owned p s : s ∈ seen -> claims_host s p -> is_Some (owner c !! p);
  co_dup p : p ∈ duplicated c <->
    exists s t, s ∈ seen /\ t ∈ seen /\ claims_host s p /\ claims_host t p /\ ID s <> ID t;
  co_keys s : s ∈ seen -> exists held, keys c !! ID s = Some held /\
    forall p, p ∈ held <-> claims_host s p /\ owner c !! p = Some (ID s);
}.

Lemma claim_subject_ok seen c s :
  claims_ok seen c -> (forall t, t ∈ seen -> ID t <> ID s) -> claims_ok (seen ++ [s]) (claim_subject c s).
Proof.
  intros [Ho Hod Hd Hk] Hnew. unfold claim_subject.
  pose proof (claim_keys (ID s) (Keys s) c []) as H. cbv zeta in H.
  destruct (foldl _ _ _) as [c' held]. simpl in H. destruct H as (H1 & H2 & H3 & H4).
  assert (forall t, t ∈ seen ++ [s] <-> t ∈ seen \/ t = s) as Hin
    by (intros t; by rewrite elem_of_app, list_elem_of_singleton).
  split; simpl; setoid_rewrite Hin.
  - intros p x [Hx|(Hx & Hs & ->)]%H2; [|by exists s; auto].
    destruct (Ho p x Hx) as (t & ? & ? & ?). exists t. auto.
  - intros p t [Ht| ->] Hc.
    + destruct (Hod p t Ht Hc) as [x Hx]. exists x. apply H2. auto.
    + destruct (owner c !! p) as [x|] eqn:Hx; [exists x|exists (ID s)]; apply H2; auto.
  - intros p. rewrite H3, Hd. split.
    + intros [(t & u & ? & ? & ? & ? & ?)|(Hs & x & Hx & Hne)].
      * exists t, u. auto.
      * destruct (Ho p x Hx) as (t & Ht & <- & Hc). exists t, s. auto 6.
    + intros (t & u & [Ht| ->] & [Hu| ->] & Hct & Hcu & Hne).
      * left. exists t, u. auto.
      * right. split; [done|]. destruct (Hod p t Ht Hct) as [x Hx]. exists x. split; [done|].
        destruct (Ho p x Hx) as (z & Hz & <- & _). by apply Hnew.
      * right. split; [done|]. destruct (Hod p u Hu Hcu) as [x Hx]. exists x. split; [done|].
        destruct (Ho p x Hx) as (z & Hz & <- & _). by apply Hnew.
      * done.
  - rewrite H1. intros t [Ht| ->].
    + destruct (Hk t Ht) as (h & Hh & Hiff). exists h. rewrite lookup_insert_ne by (by apply not_eq_sym, Hnew).
      split; [done|]. intros p. rewrite Hiff, H2. pose proof (Hnew t Ht). naive_solver.
    + exists held. rewrite lookup_insert_eq. split; [done|]. intros p. rewrite H4, H2.
      assert (owner c !! p <> Some (ID s)).
      { intros Hx. destruct (Ho p (ID s) Hx) as (z & Hz & Heq & _). by apply (Hnew z). }
      pose proof (not_elem_of_nil p). unfold claims_host. naive_solver.
Qed.

Lemma claim_all_ok subjects : NoDup (ID <$> subjects) -> claims_ok subjects (claim_all subjects).
Proof.
  intros Hnd. unfold claim_all.
  assert (forall rest seen c, NoDup (ID <$> seen ++ rest) -> claims_ok seen c ->
    claims_ok (seen ++ rest) (foldl claim_subject c rest)) as Hgo.
  { induction rest as [|s rest IH]; intros seen c Hn Hc; simpl; [by rewrite app_nil_r|].
    replace (seen ++ s :: rest) with ((seen ++ [s]) ++ rest) in * by (by rewrite <-app_assoc).
    apply IH; [done|]. apply claim_subject_ok; [done|]. intros t Ht Heq.
    rewrite fmap_app, fmap_app in Hn. apply NoDup_app in Hn as (Hn & _ & _).
    apply NoDup_app in Hn as (_ & Hd & _). apply (Hd (ID t)); [by apply list_elem_of_fmap_2|].
    rewrite Heq. set_solver. }
  apply (Hgo subjects []); [done|]. split; simpl.
  - intros p x H. by rewrite lookup_empty in H.
  - intros p s H. by apply not_elem_of_nil in H.
  - intros p. split; [set_solver|]. intros (s & t & H & _). by apply not_elem_of_nil in H.
  - intros s H. by apply not_elem_of_nil in H.
Qed.

(** ** The selectors kept *)

#[global] Instance comparePrefix_total : Total comparePrefix.
Proof. intros a b. apply addr_le_total. Qed.
#[global] Instance comparePrefix_trans : Transitive comparePrefix.
Proof. intros a b c. unfold comparePrefix. by apply addr_le_trans. Qed.

Lemma settle_elem dup held p : p ∈ settle dup held <-> p ∈ held /\ p ∉ dup.
Proof. unfold settle. rewrite Compact_elem, merge_sort_Permutation, list_elem_of_filter. naive_solver. Qed.

(** The address of one host, with every bit of it significant. *)
Definition is_host (p : Prefix) : Prop := Prefix_IsValid p = true /\ pBits p = BitLen (pAddr p).

Lemma network_whole len v : network len len v = v.
Proof. unfold network. rewrite Z.sub_diag, Z.pow_0_r, Z.mod_1_r. lia. Qed.

Lemma selects_host ks p : selects ks p -> is_host p.
Proof.
  intros (k & _ & Hh & <-). unfold host_prefix in Hh. bools. destruct k as [[a bits] mark]. simpl in *.
  subst bits. unfold is_host, Masked. rewrite H. simpl. unfold Prefix_IsValid in *. simpl in *.
  destruct a as [|ip|ip z]; simpl in *; [done|done|]. by destruct (bool_decide (z = "")).
Qed.

Lemma host_antisym p q : is_host p -> is_host q -> comparePrefix p q -> comparePrefix q p -> p = q.
Proof.
  intros [_ Hp] [_ Hq] H1 H2. pose proof (addr_le_antisym _ _ H1 H2) as Heq.
  destruct p as [a b], q as [a' b']. simpl in *. congruence.
Qed.

Lemma settle_NoDup dup held : (forall p, p ∈ held -> is_host p) -> NoDup (settle dup held).
Proof.
  intros Hh. apply (Compact_nodup comparePrefix).
  - intros p q. rewrite !merge_sort_Permutation, !list_elem_of_filter. intros [_ Hp] [_ Hq].
    apply host_antisym; auto.
  - apply (StronglySorted_merge_sort _).
Qed.

(** ** The second loop *)

(** What one subject adds to a tree. *)
Definition slices_of (dup : gset Prefix) (arrays : gmap string (list Prefix)) (bps : Limits -> Z)
    (s : Subject) : list slice :=
  let kept := settle dup (default [] (arrays !! ID s)) in
  if bool_decide (kept = []) then []
  else if 0 <? KernelBytesPerSec (bps (sLimits s))
  then [mkSlice (ID s) (length kept) (KernelBytesPerSec (bps (sLimits s)))] else [].

Lemma split_loop dup subjects : forall arrays down up,
  NoDup (ID <$> subjects) ->
  exists arrays',
    foldl (split_subject dup) (arrays, down, up) subjects =
      (arrays', down ++ concat (slices_of dup arrays DownBps <$> subjects),
       up ++ concat (slices_of dup arrays UpBps <$> subjects)) /\
    (forall id, id ∉ ID <$> subjects -> arrays' !! id = arrays !! id) /\
    (forall s, s ∈ subjects ->
      take (length (settle dup (default [] (arrays !! ID s)))) (default [] (arrays' !! ID s)) =
      settle dup (default [] (arrays !! ID s))).
Proof.
  induction subjects as [|s subjects IH]; intros arrays down up Hnd; cbn [foldl].
  { exists arrays. simpl. rewrite !app_nil_r. split_and!; [done|done|]. intros s Hs.
    by apply not_elem_of_nil in Hs. }
  rewrite fmap_cons in Hnd. apply NoDup_cons in Hnd as [Hs Hnd].
  set (kept := settle dup (default [] (arrays !! ID s))).
  set (arrays1 := <[ ID s := kept ++ replicate (length (default [] (arrays !! ID s)) - length kept) zero_prefix ]> arrays).
  assert (split_subject dup (arrays, down, up) s =
    (arrays1, down ++ slices_of dup arrays DownBps s, up ++ slices_of dup arrays UpBps s)) as ->.
  { unfold split_subject, slices_of. fold kept. fold arrays1. case_bool_decide; [by rewrite !app_nil_r|].
    destruct (0 <? KernelBytesPerSec (DownBps _)), (0 <? KernelBytesPerSec (UpBps _));
      by rewrite ?app_nil_r. }
  assert (forall t, t ∈ subjects -> arrays1 !! ID t = arrays !! ID t) as Hsame.
  { intros t Ht. unfold arrays1. rewrite lookup_insert_ne; [done|]. intros Heq. apply Hs. rewrite Heq.
    by apply list_elem_of_fmap_2. }
  destruct (IH arrays1 (down ++ slices_of dup arrays DownBps s) (up ++ slices_of dup arrays UpBps s) Hnd)
    as (arrays' & -> & Hout & Hin).
  exists arrays'. split_and!.
  - rewrite <-!(assoc_L (++)). cbn [fmap list_fmap concat].
    assert (forall bps, slices_of dup arrays1 bps <$> subjects = slices_of dup arrays bps <$> subjects) as Heq.
    { intros bps. apply list_fmap_ext. intros i t Ht. unfold slices_of.
      by rewrite Hsame by (by apply list_elem_of_lookup_2 in Ht). }
    by rewrite !Heq.
  - intros id Hid. rewrite fmap_cons in Hid. apply not_elem_of_cons in Hid as [Hne Hid].
    rewrite Hout by done. unfold arrays1. by rewrite lookup_insert_ne.
  - intros t [->|Ht]%elem_of_cons.
    + rewrite Hout by done. unfold arrays1. rewrite lookup_insert_eq. simpl. fold kept. by rewrite take_app_length.
    + rewrite <-(Hsame t Ht). by apply Hin.
Qed.

(** ** The plan *)

Section Plan.
Context {PT : PrefixText} {PTL : PrefixTextLaws}.

(** A host a subject claims and nobody else does. *)
Definition claims_alone (w : DeviceWant) (s : Subject) (p : Prefix) : Prop :=
  claims_host s p /\ forall t, t ∈ Subjects w -> claims_host t p -> ID t = ID s.

(** The population of one tree is exactly the subjects with a rate in its direction
    and a host of their own. *)
Definition population (w : DeviceWant) (bps : Limits -> Z) (l : list shaped) : Prop :=
  forall e, e ∈ l <-> exists s, s ∈ Subjects w /\ sh_id e = ID s /\
    rate e = KernelBytesPerSec (bps (sLimits s)) /\ 0 < rate e /\
    prefixes e = settle (duplicated (claim_all (Subjects w))) (default [] (keys (claim_all (Subjects w)) !! ID s)) /\
    prefixes e <> [].

Lemma kept_spec w s p :
  NoDup (ID <$> Subjects w) -> s ∈ Subjects w ->
  p ∈ settle (duplicated (claim_all (Subjects w))) (default [] (keys (claim_all (Subjects w)) !! ID s)) <->
  claims_alone w s p.
Proof.
  intros Hnd Hs. destruct (claim_all_ok _ Hnd) as [Ho Hod Hd Hk]. rewrite settle_elem.
  destruct (Hk s Hs) as (held & -> & Hheld). simpl. rewrite Hheld, Hd. unfold claims_alone. split.
  - intros [[Hc Hown] Hno]. split; [done|]. intros t Ht Hct.
    destruct (decide (ID t = ID s)) as [|Hne]; [done|]. exfalso. apply Hno. exists t, s. auto.
  - intros [Hc Hall]. split_and!; [done| |].
    + destruct (Hod p s Hs Hc) as [x Hx]. destruct (Ho p x Hx) as (t & Ht & <- & Hct).
      by rewrite Hx, (Hall t).
    + intros (t & u & Ht & Hu & Hct & Hcu & Hne). apply Hne. by rewrite (Hall t), (Hall u).
Qed.

Lemma slices_population w bps arrays :
  NoDup (ID <$> Subjects w) ->
  let c := claim_all (Subjects w) in
  (forall s, s ∈ Subjects w ->
    take (length (settle (duplicated c) (default [] (keys c !! ID s)))) (default [] (arrays !! ID s)) =
    settle (duplicated c) (default [] (keys c !! ID s))) ->
  population w bps
    (sortSubjects (read_slice arrays <$> concat (slices_of (duplicated c) (keys c) bps <$> Subjects w))).
Proof.
  intros Hnd c Htake e. unfold sortSubjects. rewrite merge_sort_Permutation, list_elem_of_fmap. split.
  - intros (sl & -> & Hsl). apply elem_of_concat in Hsl as (l & Hl & Hsl).
    apply list_elem_of_fmap in Hl as (s & -> & Hs). unfold slices_of in Hsl. cbv zeta in Hsl.
    case_bool_decide as Hk; [by apply not_elem_of_nil in Hsl|].
    split_guard_in Hsl; [|by apply not_elem_of_nil in Hsl]. apply list_elem_of_singleton in Hsl as ->.
    exists s. unfold read_slice. cbn [sh_id prefixes rate sl_id sl_len sl_rate]. rewrite Htake by done. done.
  - intros (s & Hs & Hid & Hr & Hpos & Hp & Hne). destruct e as [id ps r]. simpl in *. subst id ps.
    exists (mkSlice (ID s) (length (settle (duplicated c) (default [] (keys c !! ID s)))) r). split.
    + unfold read_slice. simpl. by rewrite Htake.
    + apply elem_of_concat. eexists. split; [by apply list_elem_of_fmap_2|]. unfold slices_of. cbv zeta.
      rewrite bool_decide_eq_false_2 by done. rewrite (proj2 (Z.ltb_lt _ _)) by lia.
      rewrite Hr. apply list_elem_of_singleton. done.
Qed.

(** ** Distinct keys *)

Lemma join_comma_inj l l' :
  Forall (fun x => x <> "" /\ free ","%char x = true) l ->
  Forall (fun x => x <> "" /\ free ","%char x = true) l' ->
  join_comma l = join_comma l' -> l = l'.
Proof.
  revert l'. induction l as [|x l IH]; intros l' Hl Hl' Heq.
  - destruct l' as [|y l']; [done|]. apply Forall_cons in Hl' as [[Hy _] _]. exfalso.
    destruct l'; simpl in Heq; destruct y; done.
  - apply Forall_cons in Hl as [[Hx Hxc] Hl]. destruct l' as [|y l'].
    + exfalso. destruct l; simpl in Heq; destruct x; done.
    + apply Forall_cons in Hl' as [[Hy Hyc] Hl'].
      assert (forall z (r : list string), r <> [] -> join_comma (z :: r) = z +:+ String "," (join_comma r)) as Hj
        by (by intros z [|]).
      destruct (decide (l = [])) as [->|Hln], (decide (l' = [])) as [->|Hln'].
      * simpl in Heq. by rewrite Heq.
      * rewrite (Hj y l') in Heq by done. simpl in Heq. subst x. rewrite free_app in Hxc. simpl in Hxc.
        rewrite andb_false_r in Hxc. done.
      * rewrite (Hj x l) in Heq by done. simpl in Heq. subst y. rewrite free_app in Hyc. simpl in Hyc.
        rewrite andb_false_r in Hyc. done.
      * rewrite !Hj in Heq by done. apply split_at in Heq as [-> Heq]; [|done|done]. f_equal. by apply IH.
Qed.

Lemma key_inj s t :
  Forall (fun p => Prefix_IsValid p = true) (prefixes s) ->
  Forall (fun p => Prefix_IsValid p = true) (prefixes t) -> key s = key t -> prefixes s = prefixes t.
Proof using PTL.
  intros Hs Ht Heq. unfold key in Heq. apply join_comma_inj in Heq.
  - revert Heq. generalize dependent (prefixes t). generalize dependent (prefixes s).
    induction 1 as [|p l Hp Hl IH]; intros [|q l'] Hl' Heq; try done.
    apply Forall_cons in Hl' as [Hq Hl']. injection Heq as Hpq Heq. f_equal; [|by apply IH].
    by apply prefix_string_inj.
  - apply Forall_fmap. apply Forall_true. intros p. simpl. split; [apply prefix_string_nonempty|apply prefix_string_comma].
  - apply Forall_fmap. apply Forall_true. intros p. simpl. split; [apply prefix_string_nonempty|apply prefix_string_comma].
Qed.

(** What a tree is built from. *)
Record wf_tree (l : list shaped) : Prop := {
  wt_keys : NoDup (key <$> l);
  wt_select s : s ∈ l -> prefixes s <> [];
  wt_host s p : s ∈ l -> p ∈ prefixes s -> is_host p;
  wt_once s : s ∈ l -> NoDup (prefixes s);
  wt_disjoint s t p : s ∈ l -> t ∈ l -> p ∈ prefixes s -> p ∈ prefixes t -> s = t;
  wt_rate s : s ∈ l -> 0 < rate s;
}.

Lemma slices_ids dup arrays bps subjects :
  NoDup (ID <$> subjects) -> NoDup (sl_id <$> concat (slices_of dup arrays bps <$> subjects)).
Proof.
  assert (forall s sl, sl ∈ slices_of dup arrays bps s -> sl_id sl = ID s) as Hid.
  { intros s sl. unfold slices_of. cbv zeta. case_bool_decide; [by intros ?%not_elem_of_nil|].
    split_guard; [by intros ->%list_elem_of_singleton|by intros ?%not_elem_of_nil]. }
  induction subjects as [|s subjects IH]; intros Hnd; [constructor|].
  rewrite fmap_cons in Hnd. apply NoDup_cons in Hnd as [Hs Hnd]. cbn [fmap list_fmap concat].
  rewrite fmap_app. apply NoDup_app. split_and!; [| |by apply IH].
  - unfold slices_of. cbv zeta. case_bool_decide; [constructor|].
    split_guard; [apply NoDup_singleton|constructor].
  - intros id (sl & -> & Hsl)%list_elem_of_fmap (sl' & Heq & Hsl')%list_elem_of_fmap.
    apply elem_of_concat in Hsl' as (l & (t & -> & Ht)%list_elem_of_fmap & Hsl').
    apply Hs. rewrite <-(Hid s sl Hsl), Heq, (Hid t sl' Hsl'). by apply list_elem_of_fmap_2.
Qed.

Lemma population_wf w bps l :
  NoDup (ID <$> Subjects w) -> population w bps l -> NoDup (sh_id <$> l) -> wf_tree l.
Proof using PTL.
  intros Hnd Hpop Hids.
  assert (forall s p, s ∈ l -> p ∈ prefixes s -> is_host p) as Hhost.
  { intros e p He Hp. apply Hpop in He as (s & Hs & _ & _ & _ & Hps & _). rewrite Hps in Hp.
    apply kept_spec in Hp as [Hc _]; [|done|done]. by eapply selects_host. }
  assert (forall s t p, s ∈ l -> t ∈ l -> p ∈ prefixes s -> p ∈ prefixes t -> s = t) as Hdis.
  { intros e e' p He He' Hp Hp'. pose proof (proj1 (Hpop e) He) as (s & Hs & Hid & _ & _ & Hps & _).
    pose proof (proj1 (Hpop e') He') as (s' & Hs' & Hid' & _ & _ & Hps' & _).
    rewrite Hps in Hp. rewrite Hps' in Hp'. apply kept_spec in Hp as [Hc _]; [|done|done].
    apply kept_spec in Hp' as [Hc' Hall]; [|done|done].
    assert (sh_id e = sh_id e') as Heq by (rewrite Hid, Hid'; by apply Hall).
    clear -Hids He He' Heq. induction l as [|x l IH]; [by apply not_elem_of_nil in He|].
    rewrite fmap_cons in Hids. apply NoDup_cons in Hids as [Hx Hids].
    apply elem_of_cons in He as [->|He], He' as [->|He']; auto; exfalso; apply Hx.
    - rewrite Heq. by apply list_elem_of_fmap_2.
    - rewrite <-Heq. by apply list_elem_of_fmap_2. }
  assert (forall s, s ∈ l -> prefixes s <> []) as Hne.
  { intros e He. apply Hpop in He. naive_solver. }
  split; try done.
  - apply NoDup_fmap_2_strong.
    + intros s t Hs Ht Hk.
      assert (forall x, x ∈ l -> Forall (fun p => Prefix_IsValid p = true) (prefixes x)) as Hv
        by (intros x Hx; apply Forall_forall; intros p Hp; by destruct (Hhost x p Hx Hp)).
      apply key_inj in Hk; [|by apply Hv|by apply Hv]. destruct (prefixes s) as [|p ps] eqn:Hp.
      { by destruct (Hne s Hs). }
      apply (Hdis s t p); [done|done| |]; rewrite ?Hp, <-?Hk; apply elem_of_cons; auto.
    + by apply NoDup_fmap_1 in Hids.
  - intros e He. apply Hpop in He as (s & Hs & _ & _ & _ & -> & _). apply settle_NoDup.
    intros p Hp. destruct (claim_all_ok _ Hnd) as [_ _ _ Hk]. destruct (Hk s Hs) as (held & Hheld & Hiff).
    rewrite Hheld in Hp. apply Hiff in Hp as [Hc _]. by eapply selects_host.
  - intros e He. apply Hpop in He. naive_solver.
Qed.

Lemma planDevice_trees ns w plan failures :
  NoDup (ID <$> Subjects w) -> planDevice ns w = (plan, failures) -> device plan <> "" ->
  device plan = wDevice w /\ MirrorOf ns (wDevice w) = Some (mirror plan) /\
  (population w DownBps (download plan) /\ wf_tree (download plan)) /\
  (population w UpBps (upload plan) /\ wf_tree (upload plan)).
Proof using PTL.
  intros Hnd. unfold planDevice. destruct (Owns ns (wDevice w)); simpl; [|by intros [= <- _]].
  destruct (MirrorOf ns (wDevice w)) as [m|]; [|by intros [= <- _]].
  destruct (split_loop (duplicated (claim_all (Subjects w))) (Subjects w) (keys (claim_all (Subjects w))) [] [] Hnd)
    as (arrays & -> & _ & Htake).
  intros [= <- _] _. simpl. split; [done|]. split; [done|].
  assert (forall bps, let l := sortSubjects (read_slice arrays <$>
      concat (slices_of (duplicated (claim_all (Subjects w))) (keys (claim_all (Subjects w))) bps <$> Subjects w)) in
    population w bps l /\ wf_tree l) as Hboth; [|split; apply Hboth].
  intros bps. cbv zeta. pose proof (slices_population w bps arrays Hnd Htake) as Hpop.
  split; [done|]. eapply population_wf; [done|done|]. unfold sortSubjects. rewrite merge_sort_Permutation.
  rewrite <-list_fmap_compose. change (sh_id ∘ read_slice arrays) with sl_id. by apply slices_ids.
Qed.

(** C26: of a want whose subjects have distinct ids, the plan shapes a subject in a
    direction exactly when it asks for a rate the kernel can hold and claims a host
    address nobody else claims; it is then selected by exactly those addresses, at
    exactly that rate.  An address claimed twice is shaped for neither claimant, and no
    two entries share an address or a diff key. *)
Theorem plan_is_exclusive ns w plan failures :
  NoDup (ID <$> Subjects w) -> planDevice ns w = (plan, failures) -> device plan <> "" ->
  device plan = wDevice w /\ MirrorOf ns (wDevice w) = Some (mirror plan) /\
  wf_tree (download plan) /\ wf_tree (upload plan) /\
  forall bps l, (bps = DownBps /\ l = download plan) \/ (bps = UpBps /\ l = upload plan) ->
    (forall e, e ∈ l -> exists s, s ∈ Subjects w /\ sh_id e = ID s /\
      rate e = KernelBytesPerSec (bps (sLimits s)) /\ forall p, p ∈ prefixes e <-> claims_alone w s p) /\
    (forall s, s ∈ Subjects w -> 0 < KernelBytesPerSec (bps (sLimits s)) -> (exists p, claims_alone w s p) ->
      exists e, e ∈ l /\ sh_id e = ID s).
Proof using PTL.
  intros Hnd Hplan Hdev. destruct (planDevice_trees _ _ _ _ Hnd Hplan Hdev) as (H1 & H2 & [Hd Hwd] & [Hu Hwu]).
  split_and!; [done..|]. intros bps l Hl.
  assert (population w bps l) as Hpop by (destruct Hl as [[-> ->]|[-> ->]]; done). split.
  - intros e He. apply Hpop in He as (s & Hs & Hid & Hr & _ & Hp & _). exists s. split_and!; [done..|].
    intros p. rewrite Hp. by apply kept_spec.
  - intros s Hs Hpos [p Hp]. apply (kept_spec w s p Hnd Hs) in Hp.
    eexists (mkShaped (ID s) _ _). split; [|done]. apply Hpop. exists s. simpl. split_and!; [done..|].
    intros Hnil. rewrite Hnil in Hp. by apply not_elem_of_nil in Hp.
Qed.
End Plan.

(** ** A concrete want *)

Import SampleText.

Definition sample_key (ip : Z) : Key := mkKey (mkPrefix (Addr4 ip) 32) 0.
Definition sample_want : DeviceWant :=
  mkWant "pwg7" [mkSubject "alice" [sample_key 1; sample_key 9] (mkLimits 8000 16000);
                 mkSubject "bob" [sample_key 2; sample_key 9] (mkLimits 0 8000)].
Definition sample_plan : devicePlan := (planDevice DefaultNamespaces sample_want).1.

Lemma sample_planned :
  planDevice DefaultNamespaces sample_want = (sample_plan, [wrap "shaping" ErrDuplicateKey]) /\
  device sample_plan = "pwg7" /\ NoDup (ID <$> Subjects sample_want).
Proof.
  split; [|split]; [vm_compute; reflexivity|vm_compute; reflexivity|].
  apply (bool_decide_eq_true_1 _). vm_compute. reflexivity.
Qed.

Lemma plan_is_exclusive_witness :
  wf_tree (download sample_plan) /\ MirrorOf DefaultNamespaces "pwg7" = Some (mirror sample_plan).
Proof.
  destruct sample_planned as (Hplan & Hdev & Hnd).
  destruct (plan_is_exclusive DefaultNamespaces sample_want sample_plan _ Hnd Hplan
    ltac:(rewrite Hdev; discriminate)) as (_ & Hm & Hwf & _).
  exact (conj Hwf Hm).
Defined.
