(* ===== verification/ShapingStack.v ===== *)
(** * Shaping: what each write does to one device

    The stack of [ShapingKernel] seen from one device: the lists a snapshot of it would
    read, how every write changes them, and that no other device's change. *)
From stdpp Require Import pretty.
From Stdlib Require Import Ascii.
From S2P Require Import Prelude Decimal Netip ShapingNames ShapingKernel Shaping.
Open Scope string_scope.
Open Scope Z_scope.
Open Scope list_scope.

(** ** The lists of one device *)

Definition dq (k : Kernel) (d : string) : list QdiscSpec := filter (fun q => qDevice q = d) (qdiscs k).
Definition dc (k : Kernel) (d : string) : list ClassSpec := filter (fun c => cDevice c = d) (classes k).
Definition df (k : Kernel) (d : string) : list FilterSpec := filter (fun f => fDevice f = d) (filters k).

(** Nothing but one device, the log and the counters differ. *)
Record frame (d : string) (k k' : Kernel) : Prop := {
  fr_links : links k' = links k;
  fr_fails : Fails k' = Fails k;
  fr_snapshot : SnapshotErr k' = SnapshotErr k;
  fr_linkserr : LinksErr k' = LinksErr k;
  fr_qdiscs e : e <> d -> dq k' e = dq k e;
  fr_classes e : e <> d -> dc k' e = dc k e;
  fr_filters e : e <> d -> df k' e = df k e;
}.

#[global] Instance frame_preorder d : PreOrder (frame d).
Proof.
  split; [by split|]. intros k1 k2 k3 [? ? ? ? Ha Hb Hc] [? ? ? ? Ha' Hb' Hc'].
  split; try congruence; intros e He; [by rewrite Ha', Ha|by rewrite Hb', Hb|by rewrite Hc', Hc].
Qed.

Section Lists.
Context {A : Type} (dev : A -> string).

Lemma find_device (P : A -> bool) d l :
  (forall x, P x = true -> dev x = d) -> List.find P l = List.find P (filter (fun x => dev x = d) l).
Proof.
  intros HP. induction l as [|x l IH]; [done|]. simpl. destruct (P x) eqn:Hx.
  - rewrite filter_cons_True by auto. simpl. by rewrite Hx.
  - destruct (decide (dev x = d)) as [Hd|Hd].
    + rewrite filter_cons_True by done. simpl. by rewrite Hx.
    + by rewrite filter_cons_False.
Qed.

Lemma existsb_device (P : A -> bool) d l :
  (forall x, P x = true -> dev x = d) -> existsb P l = existsb P (filter (fun x => dev x = d) l).
Proof.
  intros HP. induction l as [|x l IH]; [done|]. simpl. destruct (decide (dev x = d)) as [Hd|Hd].
  - rewrite filter_cons_True by done. simpl. by rewrite IH.
  - rewrite filter_cons_False by done. rewrite IH. destruct (P x) eqn:Hx; [|done]. by apply HP in Hx.
Qed.

Lemma remove_first_device (P : A -> bool) d l :
  (forall x, P x = true -> dev x = d) ->
  filter (fun x => dev x = d) (remove_first P l) = remove_first P (filter (fun x => dev x = d) l).
Proof.
  intros HP. induction l as [|x l IH]; [done|]. simpl. destruct (P x) eqn:Hx.
  - rewrite (filter_cons_True _ x l) by auto. simpl. by rewrite Hx.
  - destruct (decide (dev x = d)) as [Hd|Hd].
    + rewrite !filter_cons_True by done. simpl. by rewrite Hx, IH.
    + by rewrite !filter_cons_False.
Qed.

Lemma remove_first_other (P : A -> bool) d e l :
  (forall x, P x = true -> dev x = d) -> e <> d ->
  filter (fun x => dev x = e) (remove_first P l) = filter (fun x => dev x = e) l.
Proof.
  intros HP He. induction l as [|x l IH]; [done|]. simpl. destruct (P x) eqn:Hx.
  - rewrite filter_cons_False; [done|]. rewrite (HP x Hx). auto.
  - rewrite !filter_cons. by rewrite IH.
Qed.

Lemma replace_first_device (P : A -> bool) y d l :
  (forall x, P x = true -> dev x = d) -> dev y = d ->
  filter (fun x => dev x = d) (replace_first P y l) = replace_first P y (filter (fun x => dev x = d) l).
Proof.
  intros HP Hy. induction l as [|x l IH]; [done|]. simpl. destruct (P x) eqn:Hx.
  - rewrite (filter_cons_True _ x l), (filter_cons_True _ y l) by auto. simpl. by rewrite Hx.
  - destruct (decide (dev x = d)) as [Hd|Hd].
    + rewrite !filter_cons_True by done. simpl. by rewrite Hx, IH.
    + by rewrite !filter_cons_False.
Qed.

Lemma replace_first_other (P : A -> bool) y d e l :
  (forall x, P x = true -> dev x = d) -> dev y = d -> e <> d ->
  filter (fun x => dev x = e) (replace_first P y l) = filter (fun x => dev x = e) l.
Proof.
  intros HP Hy He. induction l as [|x l IH]; [done|]. simpl. destruct (P x) eqn:Hx.
  - rewrite !filter_cons_False; [done| |]; [rewrite (HP x Hx)|rewrite Hy]; auto.
  - rewrite !filter_cons. by rewrite IH.
Qed.

Lemma filter_snoc_device x d l :
  filter (fun x => dev x = d) (l ++ [x]) =
  filter (fun x => dev x = d) l ++ (if bool_decide (dev x = d) then [x] else []).
Proof. rewrite filter_app, filter_cons, filter_nil. by case_bool_decide; case_decide. Qed.

End Lists.

Section Keys.
Context {A : Type}.

(** A key no two elements share makes the first match the only one. *)
Lemma remove_first_unique {B} (f : A -> B) (P : A -> bool) b l :
  NoDup (f <$> l) -> (forall x, x ∈ l -> P x = true <-> f x = b) ->
  (forall x, x ∈ remove_first P l <-> x ∈ l /\ f x <> b) /\ NoDup (f <$> remove_first P l).
Proof.
  induction l as [|x l IH]; intros Hnd HP; simpl.
  { split; [|constructor]. intros x. split; [by intros ?%not_elem_of_nil|by intros [?%not_elem_of_nil _]]. }
  rewrite fmap_cons in Hnd. apply NoDup_cons in Hnd as [Hx Hnd]. setoid_rewrite elem_of_cons in HP.
  destruct (P x) eqn:HPx.
  - split; [|done]. intros y. rewrite elem_of_cons. apply (HP x) in HPx; [|auto]. split.
    + intros Hy. split; [auto|]. intros Hyb. apply Hx. rewrite HPx, <-Hyb. by apply list_elem_of_fmap_2.
    + intros [[->|Hy] Hne]; done.
  - destruct IH as [IH1 IH2]; [done|auto|].
    assert (f x <> b) as Hne by (intros Heq; apply (HP x) in Heq; [congruence|auto]). split.
    + intros y. rewrite !elem_of_cons, IH1. naive_solver.
    + rewrite fmap_cons. apply NoDup_cons. split; [|done].
      intros (y & Heq & [Hy _]%IH1)%list_elem_of_fmap. apply Hx. rewrite Heq. by apply list_elem_of_fmap_2.
Qed.

Lemma replace_first_unique {B} (f : A -> B) (P : A -> bool) b y l :
  NoDup (f <$> l) -> (forall x, x ∈ l -> P x = true <-> f x = b) -> f y = b -> existsb P l = true ->
  (forall x, x ∈ replace_first P y l <-> x = y \/ (x ∈ l /\ f x <> b)) /\
  f <$> replace_first P y l = f <$> l.
Proof.
  induction l as [|x l IH]; intros Hnd HP Hy Hex; [done|].
  rewrite fmap_cons in Hnd. apply NoDup_cons in Hnd as [Hx Hnd]. setoid_rewrite elem_of_cons in HP.
  simpl in *. destruct (P x) eqn:HPx.
  - apply (HP x) in HPx; [|auto]. split; [|by rewrite !fmap_cons, HPx, Hy].
    intros z. rewrite !elem_of_cons. split.
    + intros [->|Hz]; [auto|]. right. split; [auto|]. intros Hzb. apply Hx. rewrite HPx, <-Hzb.
      by apply list_elem_of_fmap_2.
    + naive_solver.
  - destruct IH as [IH1 IH2]; [done|auto|done|done|].
    assert (f x <> b) as Hne by (intros Heq; apply (HP x) in Heq; [congruence|auto]). split.
    + intros z. rewrite !elem_of_cons, IH1. naive_solver.
    + by rewrite !fmap_cons, IH2.
Qed.

Lemma filter_comm (P Q : A -> Prop) `{!forall x, Decision (P x)} `{!forall x, Decision (Q x)} (l : list A) :
  filter P (filter Q l) = filter Q (filter P l).
Proof. rewrite !list_filter_filter. apply list_filter_iff. naive_solver. Qed.

Lemma existsb_spec (P : A -> bool) l : existsb P l = true <-> exists x, x ∈ l /\ P x = true.
Proof. rewrite existsb_exists. by setoid_rewrite list_elem_of_In. Qed.

Lemma find_spec (P : A -> bool) l :
  (exists x, List.find P l = Some x /\ x ∈ l /\ P x = true) \/
  (List.find P l = None /\ forall x, x ∈ l -> P x = false).
Proof.
  destruct (List.find P l) as [x|] eqn:Hf.
  - apply find_some in Hf as [Hin HP]. left. exists x. by rewrite list_elem_of_In.
  - right. split; [done|]. intros x Hin%list_elem_of_In. by eapply find_none in Hf.
Qed.
End Keys.

(** ** Writes that succeed *)

(** A host that answers, and the uniqueness the kernel keeps on one device. *)
Record quiet (k : Kernel) (d : string) : Prop := {
  qu_link : d ∈ links k;
  qu_fails o : Fails k o = None;
  qu_qdiscs : NoDup (qParent <$> dq k d);
  qu_classes : NoDup (cHandle <$> dc k d);
  qu_filters : NoDup (identity <$> df k d);
}.

(** The device after a write: the lists named, everything else in place. *)
Record wrote (d : string) (k k' : Kernel) : Prop := {
  wr_frame : frame d k k';
  wr_quiet : quiet k' d;
}.

Lemma logged_quiet k d o body :
  quiet k d -> logged k o body = body (with_ops k (ops k ++ [o])).
Proof. intros Hq. unfold logged. simpl. by rewrite (qu_fails _ _ Hq). Qed.

Lemma present_quiet k d body : quiet k d -> present d body k = body k.
Proof. intros Hq. unfold present. by rewrite bool_decide_eq_true_2 by apply Hq. Qed.

Lemma quiet_ops k d l : quiet k d -> quiet (with_ops k l) d.
Proof. intros []. by split. Qed.

Lemma same_class_spec d spec c : cDevice spec = d -> cDevice c = d ->
  same_class spec c = true <-> cHandle c = cHandle spec.
Proof. intros <- Hc. unfold same_class. rewrite andb_true_iff, bool_decide_eq_true, Z.eqb_eq. naive_solver. Qed.

Lemma same_class_device spec c : same_class spec c = true -> cDevice c = cDevice spec.
Proof. unfold same_class. intros H. by bools. Qed.

Lemma same_place_device spec q : same_place spec q = true -> qDevice q = qDevice spec.
Proof. unfold same_place. intros H. by bools. Qed.

Lemma same_place_spec d spec q : qDevice spec = d -> qDevice q = d ->
  same_place spec q = true <-> qParent q = qParent spec.
Proof. intros <- Hc. unfold same_place. rewrite andb_true_iff, bool_decide_eq_true, Z.eqb_eq. naive_solver. Qed.

Lemma dc_device k d c : c ∈ dc k d -> cDevice c = d.
Proof. unfold dc. by intros [? _]%list_elem_of_filter. Qed.
Lemma dq_device k d q : q ∈ dq k d -> qDevice q = d.
Proof. unfold dq. by intros [? _]%list_elem_of_filter. Qed.
Lemma df_device k d f : f ∈ df k d -> fDevice f = d.
Proof. unfold df. by intros [? _]%list_elem_of_filter. Qed.

Lemma AddClass_ok k d c :
  quiet k d -> cDevice c = d -> (forall c', c' ∈ dc k d -> cHandle c' <> cHandle c) ->
  exists k', AddClass k c = (k', Ok tt) /\ wrote d k k' /\
    dc k' d = dc k d ++ [c] /\ dq k' d = dq k d /\ df k' d = df k d.
Proof.
  intros Hq Hd Hnew. simpl. unfold kernel_AddClass. rewrite (logged_quiet k d), Hd by done.
  rewrite (present_quiet _ d) by (by apply quiet_ops). simpl.
  destruct (existsb (same_class c) (classes k)) eqn:Hex.
  { exfalso. rewrite (existsb_device cDevice _ d) in Hex by (rewrite <-Hd; apply same_class_device).
    apply existsb_spec in Hex as (c' & Hc' & Hs). apply (Hnew c' Hc').
    by apply (same_class_spec d) in Hs; [|done|by eapply dc_device]. }
  eexists. split; [done|]. unfold dc, dq, df. simpl. rewrite filter_snoc_device, bool_decide_eq_true_2 by done.
  split_and!; try done. split.
  - split; try done. intros e He. unfold dc. simpl. rewrite filter_snoc_device, bool_decide_eq_false_2 by congruence.
    by rewrite app_nil_r.
  - destruct Hq. split; try done. unfold dc. simpl. rewrite filter_snoc_device, bool_decide_eq_true_2 by done.
    rewrite fmap_app. apply NoDup_app. split_and!; [done| |apply NoDup_singleton].
    intros h (c' & -> & Hc')%list_elem_of_fmap Hh%list_elem_of_singleton. by apply (Hnew c').
Qed.

Lemma ChangeClass_ok k d c :
  quiet k d -> cDevice c = d -> (exists c', c' ∈ dc k d /\ cHandle c' = cHandle c) ->
  exists k', ChangeClass k c = (k', Ok tt) /\ wrote d k k' /\
    (forall x, x ∈ dc k' d <-> x = c \/ (x ∈ dc k d /\ cHandle x <> cHandle c)) /\
    dq k' d = dq k d /\ df k' d = df k d.
Proof.
  intros Hq Hd (c' & Hc' & Hh). simpl. unfold kernel_ChangeClass. rewrite (logged_quiet k d), Hd by done.
  rewrite (present_quiet _ d) by (by apply quiet_ops). simpl.
  assert (forall x, same_class c x = true -> cDevice x = d) as Hdev by (rewrite <-Hd; apply same_class_device).
  assert (existsb (same_class c) (dc k d) = true) as Hex.
  { apply existsb_spec. exists c'. split; [done|]. by apply (same_class_spec d); [|eapply dc_device|]. }
  rewrite (existsb_device cDevice _ d) by done. fold (dc k d). rewrite Hex. simpl.
  destruct (replace_first_unique cHandle (same_class c) (cHandle c) c (dc k d)) as [H1 H2].
  { apply Hq. } { intros x Hx. apply (same_class_spec d); [done|by eapply dc_device]. } { done. } { done. }
  eexists. split; [done|]. unfold dc at 1. simpl. rewrite (replace_first_device cDevice) by done. fold (dc k d).
  split_and!; try done. split.
  - split; try done. intros e He. unfold dc. simpl. by rewrite (replace_first_other cDevice _ _ d).
  - destruct Hq. split; try done. unfold dc. simpl. rewrite (replace_first_device cDevice) by done.
    fold (dc k d). by rewrite H2.
Qed.

Lemma DelClass_ok k d c :
  quiet k d -> cDevice c = d -> (exists c', c' ∈ dc k d /\ cHandle c' = cHandle c) ->
  (forall f, f ∈ df k d -> ClassID f <> cHandle c) ->
  exists k', DelClass k c = (k', Ok tt) /\ wrote d k k' /\
    (forall x, x ∈ dc k' d <-> x ∈ dc k d /\ cHandle x <> cHandle c) /\
    (forall q, q ∈ dq k' d <-> q ∈ dq k d /\ qParent q <> cHandle c) /\ df k' d = df k d.
Proof.
  intros Hq Hd (c' & Hc' & Hh) Hfree. simpl. unfold kernel_DelClass. rewrite (logged_quiet k d), Hd by done.
  rewrite (present_quiet _ d) by (by apply quiet_ops). simpl.
  assert (forall x, same_class c x = true -> cDevice x = d) as Hdev by (rewrite <-Hd; apply same_class_device).
  assert (existsb (same_class c) (dc k d) = true) as Hex.
  { apply existsb_spec. exists c'. split; [done|]. by apply (same_class_spec d); [|eapply dc_device|]. }
  rewrite (existsb_device cDevice _ d) by done. fold (dc k d). rewrite Hex. simpl.
  destruct (existsb _ (filters k)) eqn:Hsel.
  { exfalso. apply existsb_spec in Hsel as (f & Hf & Hs). bools. apply (Hfree f); [|done].
    unfold df. by apply list_elem_of_filter. }
  destruct (remove_first_unique cHandle (same_class c) (cHandle c) (dc k d)) as [H1 H2].
  { apply Hq. } { intros x Hx. apply (same_class_spec d); [done|by eapply dc_device]. }
  eexists. split; [done|]. unfold dc at 1. simpl. rewrite (remove_first_device cDevice) by done.
  fold (dc k d). split_and!; try done.
  - split.
    + split; try done; intros e He; [unfold dq|unfold dc]; simpl.
      * rewrite list_filter_filter. apply list_filter_iff. naive_solver.
      * by rewrite (remove_first_other cDevice _ d).
    + destruct Hq. split; try done; [unfold dq|unfold dc]; simpl.
      * rewrite filter_comm. by apply NoDup_fmap_filter.
      * rewrite (remove_first_device cDevice) by done. fold (dc k d). done.
  - intros q. unfold dq. simpl. rewrite !list_elem_of_filter. split.
    + intros (Hqd & Hnot & Hin). split; [done|]. intros Hp. apply Hnot. by rewrite Hqd, Hp.
    + intros ((Hqd & Hin) & Hp). split_and!; [done| |done]. by intros [_ ?].
Qed.

Lemma install_qdisc_lists k spec d :
  qDevice spec = d ->
  exists q, dq (install_qdisc k spec) d = dq k d ++ [q] /\ qDevice q = d /\ qParent q = qParent spec /\
    (qHandle spec <> 0 -> q = spec) /\
    (forall e, e <> d -> dq (install_qdisc k spec) e = dq k e) /\
    classes (install_qdisc k spec) = classes k /\ filters (install_qdisc k spec) = filters k /\
    links (install_qdisc k spec) = links k /\ Fails (install_qdisc k spec) = Fails k /\
    SnapshotErr (install_qdisc k spec) = SnapshotErr k /\ LinksErr (install_qdisc k spec) = LinksErr k.
Proof.
  intros Hd. unfold install_qdisc. destruct (Z.eqb_spec (qHandle spec) 0) as [Hz|Hz].
  all: eexists; split; [unfold dq; simpl; rewrite filter_snoc_device, bool_decide_eq_true_2 by done; done|].
  all: simpl; split_and!; try done; intros e He; unfold dq; simpl;
    rewrite filter_snoc_device, bool_decide_eq_false_2 by (simpl; congruence); by rewrite app_nil_r.
Qed.

Lemma AddQdisc_new k d spec :
  quiet k d -> qDevice spec = d -> (forall q, q ∈ dq k d -> qParent q <> qParent spec) ->
  exists k' q, AddQdisc k spec = (k', Ok tt) /\ wrote d k k' /\
    dq k' d = dq k d ++ [q] /\ qDevice q = d /\ qParent q = qParent spec /\ (qHandle spec <> 0 -> q = spec) /\
    dc k' d = dc k d /\ df k' d = df k d.
Proof.
  intros Hq Hd Hnew. simpl. unfold kernel_AddQdisc. rewrite (logged_quiet k d), Hd by done.
  rewrite (present_quiet _ d) by (by apply quiet_ops). simpl.
  rewrite (find_device qDevice _ d) by (rewrite <-Hd; apply same_place_device). fold (dq k d).
  destruct (find_spec (same_place spec) (dq k d)) as [(q & _ & Hin & Hs)|[-> _]].
  { exfalso. apply (Hnew q Hin). by apply (same_place_spec d) in Hs; [|done|by eapply dq_device]. }
  destruct (install_qdisc_lists (with_ops k (ops k ++ [OpQdiscAdd spec])) spec d Hd)
    as (q & Hdq & Hqd & Hqp & Hqs & Hoth & Hc & Hf & Hl & Hfl & Hse & Hle).
  eexists _, q. split; [done|].
  assert (forall e, dc (install_qdisc (with_ops k (ops k ++ [OpQdiscAdd spec])) spec) e = dc k e) as Hdc
    by (intros e; unfold dc; by rewrite Hc).
  assert (forall e, df (install_qdisc (with_ops k (ops k ++ [OpQdiscAdd spec])) spec) e = df k e) as Hdf
    by (intros e; unfold df; by rewrite Hf).
  split_and!; try done. split; [by split|]. split.
  - rewrite Hl. apply Hq.
  - intros o. rewrite Hfl. apply Hq.
  - rewrite Hdq, fmap_app. apply NoDup_app. split_and!; [apply Hq| |apply NoDup_singleton].
    intros p (x & -> & Hx)%list_elem_of_fmap Hp%list_elem_of_singleton. apply (Hnew x Hx). by rewrite Hp.
  - rewrite Hdc. apply Hq.
  - rewrite Hdf. apply Hq.
Qed.

Lemma AddQdisc_root k d :
  quiet k d -> (forall q, q ∈ dq k d -> qParent q = rootParent -> qHandle q = 0) ->
  exists k', AddQdisc k (rootQdisc d) = (k', Ok tt) /\ wrote d k k' /\
    (forall x, x ∈ dq k' d <-> x = rootQdisc d \/ (x ∈ dq k d /\ qParent x <> rootParent)) /\
    dc k' d = dc k d /\ df k' d = df k d.
Proof.
  intros Hq Hroot. set (k1 := with_ops k (ops k ++ [OpQdiscAdd (rootQdisc d)])).
  destruct (find_spec (same_place (rootQdisc d)) (dq k d)) as [(q & Hfind & Hin & Hs)|[_ Hnone]].
  - simpl. unfold kernel_AddQdisc. rewrite (logged_quiet k d) by done. change (qDevice (rootQdisc d)) with d.
    rewrite (present_quiet _ d) by (by apply quiet_ops). fold k1.
    rewrite (find_device qDevice _ d) by (intros x Hx; by apply same_place_device in Hx).
    change (filter _ (qdiscs k1)) with (dq k d). rewrite Hfind.
    apply (same_place_spec d) in Hs; [|done|by eapply dq_device]. simpl in Hs.
    rewrite Hs, (Hroot q Hin Hs). change (negb (rootParent =? rootParent) || negb (0 =? 0)) with false. cbv iota.
    set (k2 := with_qdiscs k1 _).
    destruct (remove_first_unique qParent (same_place (rootQdisc d)) rootParent (dq k d)) as [H1 H2].
    { apply Hq. } { intros x Hx. apply (same_place_spec d); [done|by eapply dq_device]. }
    assert (dq k2 d = remove_first (same_place (rootQdisc d)) (dq k d)) as Hk2.
    { unfold dq, k2. simpl. apply (remove_first_device qDevice). intros x Hx. by apply same_place_device in Hx. }
    destruct (install_qdisc_lists k2 (rootQdisc d) d eq_refl)
      as (x & Hdq & _ & _ & Hqs & Hoth & Hc & Hf & Hl & Hfl & Hse & Hle).
    specialize (Hqs ltac:(done)) as ->. eexists. split; [done|].
    assert (forall e, dc (install_qdisc k2 (rootQdisc d)) e = dc k e) as Hdc by (intros e; unfold dc; by rewrite Hc).
    assert (forall e, df (install_qdisc k2 (rootQdisc d)) e = df k e) as Hdf by (intros e; unfold df; by rewrite Hf).
    split_and!; [| |done|done].
    + split.
      * split; try done. intros e He. rewrite Hoth by done. unfold dq, k2. simpl.
        apply (remove_first_other qDevice _ d); [|done]. intros x Hx. by apply same_place_device in Hx.
      * split; rewrite ?Hl, ?Hdc, ?Hdf, ?Hfl; try apply Hq.
        rewrite Hdq, Hk2, fmap_app. apply NoDup_app. split_and!; [done| |apply NoDup_singleton].
        intros p (y & -> & [_ Hy]%H1)%list_elem_of_fmap Hp%list_elem_of_singleton. done.
    + intros y. rewrite Hdq, Hk2, elem_of_app, list_elem_of_singleton, H1. naive_solver.
  - destruct (AddQdisc_new k d (rootQdisc d)) as (k' & x & -> & Hw & Hdq & _ & _ & Hx & Hdc & Hdf); [done|done| |].
    { intros q Hin Hp. specialize (Hnone q Hin).
      rewrite (proj2 (same_place_spec d (rootQdisc d) q eq_refl (dq_device _ _ _ Hin))) in Hnone; done. }
    specialize (Hx ltac:(done)) as ->. exists k'. split_and!; try done.
    intros y. rewrite Hdq, elem_of_app, list_elem_of_singleton. split; [|naive_solver].
    intros [Hy| ->]; [|auto]. right. split; [done|]. intros Hp. specialize (Hnone y Hy).
    rewrite (proj2 (same_place_spec d (rootQdisc d) y eq_refl (dq_device _ _ _ Hy))) in Hnone; done.
Qed.

Lemma DelQdisc_leaf k d spec :
  quiet k d -> qDevice spec = d -> qParent spec <> rootParent -> qParent spec <> clsactParent ->
  (exists q, q ∈ dq k d /\ qParent q = qParent spec) ->
  exists k', DelQdisc k spec = (k', Ok tt) /\ wrote d k k' /\
    (forall x, x ∈ dq k' d <-> x ∈ dq k d /\ qParent x <> qParent spec) /\
    dc k' d = dc k d /\ df k' d = df k d.
Proof.
  intros Hq Hd Hr Hc (q0 & Hq0 & Hp0). simpl. unfold kernel_DelQdisc. rewrite (logged_quiet k d), Hd by done.
  rewrite (present_quiet _ d) by (by apply quiet_ops). simpl.
  assert (forall x, same_place spec x = true -> qDevice x = d) as Hdev by (rewrite <-Hd; apply same_place_device).
  rewrite (find_device qDevice _ d) by done. fold (dq k d).
  destruct (find_spec (same_place spec) (dq k d)) as [(q & -> & Hin & Hs)|[_ Hnone]].
  2:{ specialize (Hnone q0 Hq0). rewrite (proj2 (same_place_spec d spec q0 Hd (dq_device _ _ _ Hq0))) in Hnone; done. }
  apply (same_place_spec d) in Hs; [|done|by eapply dq_device].
  rewrite Hs, (proj2 (Z.eqb_neq _ _) Hr), (proj2 (Z.eqb_neq _ _) Hc).
  destruct (remove_first_unique qParent (same_place spec) (qParent spec) (dq k d)) as [H1 H2].
  { apply Hq. } { intros x Hx. apply (same_place_spec d); [done|by eapply dq_device]. }
  eexists. split; [done|]. unfold dq at 1. simpl. rewrite (remove_first_device qDevice) by done. fold (dq k d).
  split_and!; try done. split.
  - split; try done. intros e He. unfold dq. simpl. by apply (remove_first_other qDevice _ d).
  - destruct Hq. split; try done. unfold dq. simpl. rewrite (remove_first_device qDevice) by done. done.
Qed.

(** ** Filters *)

Lemma DelFilter_ok k d f :
  quiet k d -> f ∈ df k d ->
  exists k', DelFilter k f = (k', Ok tt) /\ wrote d k k' /\
    (forall x, x ∈ df k' d <-> x ∈ df k d /\ x <> f) /\ dc k' d = dc k d /\ dq k' d = dq k d.
Proof.
  intros Hq Hin. pose proof (df_device _ _ _ Hin) as Hd. simpl. unfold kernel_DelFilter.
  rewrite (logged_quiet k d), Hd by done. rewrite (present_quiet _ d) by (by apply quiet_ops). simpl.
  set (P := fun f' => bool_decide (f' = f)).
  assert (forall x, P x = true -> fDevice x = d) as Hdev by (intros x Hx; unfold P in Hx; bools; by subst x).
  rewrite (existsb_device fDevice P d) by done. fold (df k d).
  rewrite (proj2 (existsb_spec P (df k d))) by (exists f; split; [done|by apply bool_decide_eq_true_2]).
  assert (forall x, x ∈ df k d -> P x = true <-> identity x = identity f) as HP.
  { intros x Hx. unfold P. rewrite bool_decide_eq_true. split; [by intros ->|]. intros Heq.
    pose proof (qu_filters _ _ Hq) as Hnd.
    clear -Hnd Hx Hin Heq. induction (df k d) as [|y l IH]; [by apply not_elem_of_nil in Hx|].
    rewrite fmap_cons in Hnd. apply NoDup_cons in Hnd as [Hy Hnd].
    apply elem_of_cons in Hx as [->|Hx], Hin as [->|Hin]; auto; exfalso; apply Hy.
    - rewrite Heq. by apply list_elem_of_fmap_2.
    - rewrite <-Heq. by apply list_elem_of_fmap_2. }
  destruct (remove_first_unique identity P (identity f) (df k d)) as [H1 H2]; [apply Hq|done|].
  eexists. split; [done|]. unfold df at 1. simpl. rewrite (remove_first_device fDevice) by done. fold (df k d).
  split_and!; try done.
  - split.
    + split; try done. intros e He. unfold df. simpl. by apply (remove_first_other fDevice _ d).
    + destruct Hq. split; try done. unfold df. simpl. rewrite (remove_first_device fDevice) by done. done.
  - intros x. rewrite H1. split; intros [Hx Hne]; (split; [done|]).
    + intros ->. done.
    + intros Heq. apply Hne. apply HP in Heq; [|done]. unfold P in Heq. by bools.
Qed.

Lemma objection_none spec l :
  (forall have, have ∈ l -> fDevice have = fDevice spec -> fParent have = fParent spec ->
    (fPriority have = fPriority spec -> family have = family spec) /\ identity have <> identity spec) ->
  objection spec l = None.
Proof.
  induction l as [|have l IH]; intros Hl; [done|]. setoid_rewrite elem_of_cons in Hl. cbn [objection].
  assert (objection spec l = None) as IH' by (apply IH; auto).
  split_guard; [done|]. destruct_and!. destruct (Hl have) as [Hf Hi]; [auto|done|done|].
  rewrite (proj2 (andb_false_iff _ _)).
  2:{ destruct (Z.eqb_spec (fPriority have) (fPriority spec)) as [He|He]; [right|by left].
      apply Hf in He. rewrite He, Z.eqb_refl. done. }
  unfold sameRule. by rewrite bool_decide_eq_false_2.
Qed.

Lemma AddFilter_ok k d f :
  quiet k d -> fDevice f = d -> (Redirect f = "" \/ Redirect f ∈ links k) ->
  (forall have, have ∈ df k d -> fParent have = fParent f ->
    (fPriority have = fPriority f -> family have = family f) /\ identity have <> identity f) ->
  identity f ∉ identity <$> df k d ->
  exists k' h, AddFilter k f = (k', Ok tt) /\ wrote d k k' /\
    df k' d = df k d ++ [with_handle f h] /\ dc k' d = dc k d /\ dq k' d = dq k d.
Proof.
  intros Hq Hd Hred Hobj Hnew. simpl. unfold kernel_AddFilter. rewrite (logged_quiet k d), Hd by done.
  rewrite (present_quiet _ d) by (by apply quiet_ops). set (k1 := with_ops k _).
  assert (objection f (filters k1) = None) as Hno.
  { apply objection_none. intros have Hh Hdev Hp. apply Hobj; [|done]. unfold df.
    apply list_elem_of_filter. by rewrite <-Hd. }
  assert (exists k' h, put_filter f k1 = (k', Ok tt) /\ wrote d k k' /\
    df k' d = df k d ++ [with_handle f h] /\ dc k' d = dc k d /\ dq k' d = dq k d) as Hinst.
  { unfold put_filter. rewrite Hno. unfold takeHandle. set (h := (_ + 1) mod _).
    eexists _, h. split; [done|]. unfold df at 1. simpl. rewrite filter_snoc_device, bool_decide_eq_true_2 by done.
    fold (df k d). split_and!; try done. split.
    - split; try done. intros e He. unfold df. simpl.
      rewrite filter_snoc_device, bool_decide_eq_false_2 by (simpl; congruence). by rewrite app_nil_r.
    - destruct Hq. split; try done. unfold df. simpl. rewrite filter_snoc_device, bool_decide_eq_true_2 by done.
      rewrite fmap_app. apply NoDup_app. split_and!; [done| |apply NoDup_singleton].
      intros i Hi Hx%list_elem_of_singleton. apply Hnew. rewrite Hx in Hi. exact Hi. }
  case_bool_decide as Hr; [|done]. destruct Hred as [Hr0|Hl]; [done|].
  unfold present. by rewrite bool_decide_eq_true_2.
Qed.

Lemma DelQdisc_root k d :
  quiet k d -> (exists q, q ∈ dq k d /\ qParent q = rootParent) ->
  exists k', DelQdisc k (rootQdisc d) = (k', Ok tt) /\ wrote d k k' /\
    (forall x, x ∈ dq k' d <-> x = implicitQdisc d \/ (x ∈ dq k d /\ qParent x = clsactParent)) /\
    dc k' d = [] /\
    (forall f, f ∈ df k' d <-> f ∈ df k d /\ (fParent f = ingressBlock \/ fParent f = egressBlock)).
Proof.
  intros Hq (q0 & Hq0 & Hp0). simpl. unfold kernel_DelQdisc. rewrite (logged_quiet k d) by done.
  change (qDevice (rootQdisc d)) with d. rewrite (present_quiet _ d) by (by apply quiet_ops). set (k1 := with_ops k _).
  rewrite (find_device qDevice _ d) by (intros x Hx; by apply same_place_device in Hx).
  change (filter _ (qdiscs k1)) with (dq k d).
  destruct (find_spec (same_place (rootQdisc d)) (dq k d)) as [(q & -> & Hin & Hs)|[_ Hnone]].
  2:{ specialize (Hnone q0 Hq0).
      rewrite (proj2 (same_place_spec d (rootQdisc d) q0 eq_refl (dq_device _ _ _ Hq0))) in Hnone; done. }
  apply (same_place_spec d) in Hs; [|done|by eapply dq_device]. simpl in Hs. rewrite Hs, Z.eqb_refl.
  set (k2 := dropTree k1 d). set (k3 := with_qdiscs k2 _). exists k3. split; [done|].
  assert (forall x, x ∈ dq k3 d <-> x = implicitQdisc d \/ (x ∈ dq k d /\ qParent x = clsactParent)) as Hdq.
  { intros x. unfold dq, k3. simpl. rewrite filter_snoc_device, bool_decide_eq_true_2 by done.
    rewrite elem_of_app, list_elem_of_singleton, !list_elem_of_filter. split.
    - intros [(Hd & Hn & Hx)| ->]; [|auto]. right. split; [done|].
      destruct (decide (qParent x = clsactParent)); [done|]. by destruct Hn.
    - intros [->|((Hd & Hx) & Hc)]; [auto|]. left. split_and!; [done| |done]. by intros [_ ?]. }
  assert (forall e, e <> d -> dq k3 e = dq k e) as Hdqe.
  { intros e He. unfold dq, k3. simpl. rewrite filter_snoc_device, bool_decide_eq_false_2 by (simpl; congruence).
    rewrite app_nil_r. rewrite list_filter_filter. apply list_filter_iff. intros x. split; [by intros [? _]|].
    intros Hx. split; [done|]. intros [? _]. congruence. }
  assert (dc k3 d = []) as Hdc.
  { unfold dc, k3. simpl. rewrite list_filter_filter.
    destruct (filter _ (classes k)) as [|c l] eqn:Hl; [done|]. exfalso.
    assert (c ∈ c :: l) as Hc by (apply elem_of_cons; auto). rewrite <-Hl in Hc.
    apply list_elem_of_filter in Hc as [[? ?] _]. done. }
  assert (forall f, f ∈ df k3 d <-> f ∈ df k d /\ (fParent f = ingressBlock \/ fParent f = egressBlock)) as Hdf.
  { intros f. unfold df, k3. simpl. rewrite !list_elem_of_filter. split.
    - intros (Hd & Hn & Hf). split; [done|]. destruct (decide (fParent f = ingressBlock)); [auto|].
      destruct (decide (fParent f = egressBlock)); [auto|]. by destruct Hn.
    - intros ((Hd & Hf) & Hb). split_and!; [done| |done]. intros (_ & ? & ?). by destruct Hb. }
  split_and!; try done. split.
  - split; try done; intros e He; [unfold dc|unfold df]; unfold k3; simpl;
      rewrite list_filter_filter; apply list_filter_iff; intros x; (split; [by intros [? _]|]);
      intros Hx; (split; [done|]); [congruence|]. intros [? _]. congruence.
  - destruct Hq. split; try done.
    + unfold dq, k3. simpl. rewrite filter_snoc_device, bool_decide_eq_true_2 by done.
      rewrite fmap_app. apply NoDup_app. split_and!; [|  |apply NoDup_singleton].
      * rewrite filter_comm. by apply NoDup_fmap_filter.
      * intros p (x & -> & Hx)%list_elem_of_fmap Hp%list_elem_of_singleton. simpl in Hp.
        apply list_elem_of_filter in Hx as [Hxd Hx]. apply list_elem_of_filter in Hx as [Hn _].
        apply Hn. split; [done|]. rewrite Hp. done.
    + rewrite Hdc. constructor.
    + unfold df, k3. simpl. rewrite filter_comm. by apply NoDup_fmap_filter.
Qed.
