(* ===== verification/ShapingLoops.v ===== *)
(** * Shaping: the loops of a pass

    The view the manager keeps of a device and the stack it writes to stay in step
    through every class ensured or dropped and every filter removed or installed. *)
From stdpp Require Import pretty.
From Stdlib Require Import Ascii.
From S2P Require Import Prelude Decimal Netip ShapingNames ShapingKernel Shaping ShapingMinors ShapingPlan ShapingStack.
Open Scope string_scope.
Open Scope Z_scope.
Open Scope list_scope.

Lemma each_nil {A S} (f : S -> A -> S * list error) s : each f s [] = (s, []).
Proof. done. Qed.

Lemma each_cons {A S} (f : S -> A -> S * list error) s x l :
  each f s (x :: l) = let '(s1, e1) := f s x in let '(s2, e2) := each f s1 l in (s2, e1 ++ e2).
Proof.
  unfold each. cbn [foldl]. destruct (f s x) as [s1 e1]. rewrite app_nil_l.
  assert (forall s e, foldl (fun acc a => let '(s, failures) := acc in let '(s, more) := f s a in (s, failures ++ more))
      (s, e) l =
    let '(s2, e2) := foldl (fun acc a => let '(s, failures) := acc in let '(s, more) := f s a in (s, failures ++ more))
      (s, []) l in (s2, e ++ e2)) as Hgo.
  { induction l as [|y l IH]; intros s' e; cbn [foldl]; [by rewrite app_nil_r|].
    destruct (f s' y) as [s2 e2]. rewrite (IH s2 (e ++ e2)), (IH s2 ([] ++ e2)).
    destruct (foldl _ _ l) as [s3 e3]. by rewrite <-(assoc_L (++)). }
  apply Hgo.
Qed.

(** ** The view and the stack *)

Record coupled (k : Kernel) (d : string) (v : devices) : Prop := {
  cp_quiet : quiet k d;
  cp_device : v_device v = d;
  cp_class minor c : v_classes v !! minor = Some c ->
    c ∈ dc k d /\ cHandle c = classHandle minor /\ 0 < minor < 65536;
  cp_classes c : c ∈ dc k d -> exists minor, v_classes v !! minor = Some c;
  cp_leaves p : is_Some (leaves v !! p) <->
    p <> rootParent /\ p <> clsactParent /\ exists q, q ∈ dq k d /\ qParent q = p;
}.

(** A write that leaves the device's hooks: its root qdisc and its clsact. *)
Record tree_write (d : string) (k k' : Kernel) : Prop := {
  tw_frame : frame d k k';
  tw_hooks q : qParent q = rootParent \/ qParent q = clsactParent -> q ∈ dq k' d <-> q ∈ dq k d;
}.

#[global] Instance tree_write_preorder d : PreOrder (tree_write d).
Proof.
  split.
  - intros k. split; [reflexivity|done].
  - intros k1 k2 k3 [H1 H2] [H3 H4]. split; [by etrans|]. intros q Hq. by rewrite H4, H2.
Qed.

Lemma class_not_hook minor :
  0 < minor < 65536 -> classHandle minor <> rootParent /\ classHandle minor <> clsactParent.
Proof. intros ?. rewrite classHandle_add by lia. unfold rootParent, clsactParent. lia. Qed.

Lemma coupled_handle k d v minor c c' :
  coupled k d v -> v_classes v !! minor = Some c -> c' ∈ dc k d -> cHandle c' = classHandle minor -> c' = c.
Proof.
  intros Hc Hm Hin Hh. destruct (cp_class _ _ _ Hc _ _ Hm) as (_ & _ & Hr).
  destruct (cp_classes _ _ _ Hc c' Hin) as [n Hn].
  destruct (cp_class _ _ _ Hc _ _ Hn) as (_ & Hh' & Hr').
  rewrite Hh in Hh'. apply classHandle_inj in Hh'; [|lia|lia]. congruence.
Qed.

Lemma coupled_fresh k d v minor c :
  coupled k d v -> 0 < minor < 65536 -> v_classes v !! minor = None -> c ∈ dc k d -> cHandle c <> classHandle minor.
Proof.
  intros Hc Hr Hn Hin Hh. destruct (cp_classes _ _ _ Hc c Hin) as [n Hm].
  destruct (cp_class _ _ _ Hc _ _ Hm) as (_ & Hh' & Hr'). rewrite Hh in Hh'.
  apply classHandle_inj in Hh'; [|lia|lia]. congruence.
Qed.

(** The class wanted for a minor. *)
Definition class_for (d : string) (minor rate : Z) : ClassSpec :=
  mkClass d (classHandle minor) rootHandle rate rate.

(** Writing the class: the stack then holds it in place of any other of its id. *)
Lemma write_class k d v minor rate :
  coupled k d v -> 0 < minor < 65536 ->
  let want := class_for d minor rate in
  let r := match v_classes v !! minor with
           | Some have => if bool_decide (have = want) then (k, Ok tt) else ChangeClass k want
           | None => AddClass k want
           end in
  r.2 = Ok tt /\ tree_write d k r.1 /\ df r.1 d = df k d /\
  coupled r.1 d (with_v_classes v (<[ minor := want ]> (v_classes v))) /\
  (v_classes v !! minor = Some want -> r.1 = k).
Proof.
  intros Hc Hr want. cbv zeta.
  assert (forall k', quiet k' d -> (forall x, x ∈ dc k' d <-> x = want \/ (x ∈ dc k d /\ cHandle x <> cHandle want)) ->
    dq k' d = dq k d -> coupled k' d (with_v_classes v (<[ minor := want ]> (v_classes v)))) as Hcouple.
  { intros k' Hq Hdc Hdq. split; simpl; [done|apply Hc| | |].
    - intros n c. destruct (decide (minor = n)) as [<-|Hne].
      + rewrite lookup_insert_eq. intros [= <-]. rewrite Hdc. auto.
      + rewrite lookup_insert_ne by done. intros Hn. destruct (cp_class _ _ _ Hc _ _ Hn) as (Hin & Hh & Hr').
        split_and!; [|done|lia|lia]. apply Hdc. right. split; [done|]. rewrite Hh. intros Heq.
        simpl in Heq. apply classHandle_inj in Heq; [|lia|lia]. congruence.
    - intros c [->|[Hin Hne]]%Hdc; [exists minor; apply lookup_insert_eq|].
      destruct (cp_classes _ _ _ Hc c Hin) as [n Hn]. exists n. rewrite lookup_insert_ne; [done|].
      intros <-. apply Hne. by destruct (cp_class _ _ _ Hc _ _ Hn) as (_ & -> & _).
    - intros p. rewrite Hdq. apply Hc. }
  destruct (v_classes v !! minor) as [have|] eqn:Hm.
  - case_bool_decide as Heq.
    + subst have. simpl. split_and!; try done. rewrite insert_id by done. by destruct v.
    + destruct (cp_class _ _ _ Hc _ _ Hm) as (Hin & Hh & _).
      destruct (ChangeClass_ok k d want (cp_quiet _ _ _ Hc) eq_refl) as (k' & He & [Hf Hq] & Hdc & Hdq & Hdf);
        [by exists have|].
      rewrite He. simpl. split_and!; try done; [|by apply Hcouple|congruence].
      split; [done|]. intros q _. by rewrite Hdq.
  - destruct (AddClass_ok k d want (cp_quiet _ _ _ Hc) eq_refl) as (k' & He & [Hf Hq] & Hdc & Hdq & Hdf).
    { intros c' Hin. by apply (coupled_fresh k d v). }
    rewrite He. simpl. split_and!; try done; [split; [done|intros q _; by rewrite Hdq]|].
    apply Hcouple; [done| |done]. intros x. rewrite Hdc, elem_of_app, list_elem_of_singleton. split.
    + intros [Hx| ->]; [|auto]. right. split; [done|]. by apply (coupled_fresh k d v).
    + naive_solver.
Qed.

Lemma ensureClass_ok k d v minor rate :
  coupled k d v -> 0 < minor < 65536 ->
  exists k' v', ensureClass (k, v) (minor, rate) = ((k', v'), []) /\ coupled k' d v' /\ tree_write d k k' /\
    df k' d = df k d /\ v_filters v' = v_filters v /\
    v_classes v' = <[ minor := class_for d minor rate ]> (v_classes v) /\
    (forall p, is_Some (leaves v' !! p) <-> p = classHandle minor \/ is_Some (leaves v !! p)) /\
    (v_classes v !! minor = Some (class_for d minor rate) -> is_Some (leaves v !! classHandle minor) -> k' = k).
Proof.
  intros Hc Hr. destruct (write_class k d v minor rate Hc Hr) as (Hok & Htw & Hdf & Hcp & Hsame).
  unfold ensureClass. rewrite (cp_device _ _ _ Hc). fold (class_for d minor rate).
  set (r := match v_classes v !! minor with Some _ => _ | None => _ end) in *.
  destruct r as [k1 res]. simpl in *. subst res.
  set (v1 := with_v_classes v (<[ minor := class_for d minor rate ]> (v_classes v))) in *.
  destruct (leaves v !! classHandle minor) as [leaf|] eqn:Hl.
  - exists k1, v1. split_and!; try done; [|by intros ? ?; apply Hsame].
    intros p. split; [auto|]. intros [->|?]; [|done]. simpl. by rewrite Hl.
  - destruct (class_not_hook minor Hr) as [Hn1 Hn2]. change (v_device v1) with (v_device v).
    rewrite (cp_device _ _ _ Hc). change (cHandle (class_for d minor rate)) with (classHandle minor).
    destruct (AddQdisc_new k1 d (mkQdisc d QdiscSfq 0 (classHandle minor) 0) (cp_quiet _ _ _ Hcp) eq_refl)
      as (k2 & q & He & [Hf Hq] & Hdq & Hqd & Hqp & _ & Hdc & Hdf2).
    { intros q Hin Hp. assert (is_Some (leaves v1 !! classHandle minor)) as [? Hs].
      { apply (cp_leaves _ _ _ Hcp). eauto. }
      simpl in Hs. congruence. }
    cbn [AddQdisc KernelPlane] in He. rewrite He.
    eexists k2, _. split; [done|]. simpl in Hqp. split_and!; try done.
    + split; simpl; [done|apply Hcp| | |].
      * intros n c Hn. rewrite Hdc. by apply (cp_class _ _ _ Hcp).
      * intros c. rewrite Hdc. apply (cp_classes _ _ _ Hcp).
      * intros p. rewrite Hdq. setoid_rewrite elem_of_app. setoid_rewrite list_elem_of_singleton.
        destruct (decide (classHandle minor = p)) as [<-|Hp].
        -- rewrite lookup_insert_eq. split; [|eauto]. intros _. split_and!; try done. exists q. auto.
        -- rewrite lookup_insert_ne by done. change (leaves v) with (leaves v1).
           rewrite (cp_leaves _ _ _ Hcp p). split.
           ++ intros (? & ? & x & ? & ?). split_and!; try done. exists x. auto.
           ++ intros (? & ? & x & [Hx| ->] & <-); [|by rewrite Hqp in Hp]. split_and!; try done. by exists x.
    + etrans; [exact Htw|]. split; [done|]. intros x Hx. rewrite Hdq, elem_of_app, list_elem_of_singleton.
      split; [|auto]. intros [?| ->]; [done|]. rewrite Hqp in Hx. by destruct Hx.
    + by rewrite Hdf2.
    + intros p. simpl. destruct (decide (classHandle minor = p)) as [<-|Hp].
      * rewrite lookup_insert_eq. split; [auto|eauto].
      * rewrite lookup_insert_ne by done. naive_solver.
Qed.

Lemma dropClass_ok k d v minor c :
  coupled k d v -> v_classes v !! minor = Some c -> (forall f, f ∈ df k d -> ClassID f <> classHandle minor) ->
  exists k' v', dropClass (k, v) minor = ((k', v'), []) /\ coupled k' d v' /\ tree_write d k k' /\
    df k' d = df k d /\ v_filters v' = v_filters v /\ v_classes v' = delete minor (v_classes v) /\
    (forall p, is_Some (leaves v' !! p) <-> p <> classHandle minor /\ is_Some (leaves v !! p)).
Proof.
  intros Hc Hm Hfree. destruct (cp_class _ _ _ Hc _ _ Hm) as (Hin & Hh & Hr).
  destruct (class_not_hook minor Hr) as [Hn1 Hn2]. unfold dropClass.
  assert (exists k1 v1, match leaves v !! classHandle minor with
      | Some _ => let '(w, failures) := report_del "shaping: remove a leaf"
            (DelQdisc k (mkQdisc (v_device v) QdiscSfq 0 (classHandle minor) 0)) in
          (w, with_leaves v (delete (classHandle minor) (leaves v)), failures)
      | None => (k, v, []) end = (k1, v1, []) /\ wrote d k k1 /\ dc k1 d = dc k d /\ df k1 d = df k d /\
      (forall q, q ∈ dq k1 d <-> q ∈ dq k d /\ qParent q <> classHandle minor) /\
      v_device v1 = d /\ v_filters v1 = v_filters v /\ v_classes v1 = v_classes v /\
      leaves v1 = delete (classHandle minor) (leaves v)) as
    (k1 & v1 & -> & [Hf1 Hq1] & Hdc1 & Hdf1 & Hdq1 & Hvd & Hvf & Hvc & Hvl).
  { destruct (leaves v !! classHandle minor) as [leaf|] eqn:Hl.
    - rewrite (cp_device _ _ _ Hc).
      destruct (DelQdisc_leaf k d (mkQdisc d QdiscSfq 0 (classHandle minor) 0) (cp_quiet _ _ _ Hc) eq_refl Hn1 Hn2)
        as (k1 & -> & Hw & Hdq & Hdc & Hdf).
      { destruct (proj1 (cp_leaves _ _ _ Hc (classHandle minor))) as (_ & _ & q & ? & ?); [eauto|]. by exists q. }
      simpl. eexists _, _. split; [done|]. split_and!; try done; apply Hc.
    - exists k, v. split; [done|]. split_and!; try done.
      + split; [reflexivity|apply Hc].
      + intros q. split; [|by intros [? _]]. intros Hq. split; [done|]. intros Hp.
        assert (is_Some (leaves v !! classHandle minor)) as [? Hs] by (apply (cp_leaves _ _ _ Hc); eauto).
        congruence.
      + apply Hc.
      + symmetry. by apply delete_id. }
  rewrite Hvc, Hm. simpl default.
  destruct (DelClass_ok k1 d c Hq1 (dc_device _ _ _ Hin)) as (k2 & -> & [Hf2 Hq2] & Hdc2 & Hdq2 & Hdf2).
  { exists c. by rewrite Hdc1. }
  { intros f. rewrite Hdf1, Hh. apply Hfree. }
  simpl. eexists k2, _. split; [done|]. rewrite Hh in *. split_and!; simpl; try done.
  - split; simpl; [done|done| | |].
    + intros n x. destruct (decide (minor = n)) as [<-|Hne].
      { by rewrite lookup_delete_eq. }
      rewrite lookup_delete_ne by done. intros Hx. destruct (cp_class _ _ _ Hc _ _ Hx) as (? & Hhx & ?).
      split_and!; [|done|lia|lia]. apply Hdc2. rewrite Hdc1. split; [done|]. rewrite Hhx. intros Heq.
      apply classHandle_inj in Heq; [|lia|lia]. congruence.
    + intros x [Hx Hne]%Hdc2. rewrite Hdc1 in Hx. destruct (cp_classes _ _ _ Hc x Hx) as [n Hn]. exists n.
      rewrite lookup_delete_ne; [done|]. intros <-. apply Hne.
      by destruct (cp_class _ _ _ Hc _ _ Hn) as (_ & -> & _).
    + intros p. rewrite Hvl. destruct (decide (classHandle minor = p)) as [<-|Hp].
      * rewrite lookup_delete_eq. split; [by intros [? ?]|]. intros (_ & _ & q & Hq & Hpq).
        apply Hdq2 in Hq as [_ ?]. done.
      * rewrite lookup_delete_ne by done. rewrite (cp_leaves _ _ _ Hc p).
        setoid_rewrite Hdq2. setoid_rewrite Hdq1. naive_solver.
  - etrans; [split; [exact Hf1|]|split; [exact Hf2|]].
    + intros q Hq. rewrite Hdq1. split; [by intros [? _]|]. intros ?. split; [done|]. intros Hp.
      rewrite Hp in Hq. by destruct Hq.
    + intros q Hq. rewrite Hdq2. split; [by intros [? _]|]. intros ?. split; [done|]. intros Hp.
      rewrite Hp in Hq. by destruct Hq.
  - by rewrite Hdf2.
  - intros p. rewrite Hvl. destruct (decide (classHandle minor = p)) as [<-|Hp].
    + rewrite lookup_delete_eq. split; [by intros [? ?]|naive_solver].
    + rewrite lookup_delete_ne by done. naive_solver.
Qed.

(** ** Loops over classes *)

Definition put_classes (d : string) (cs : gmap Z ClassSpec) (wants : list (Z * Z)) : gmap Z ClassSpec :=
  foldl (fun m w => <[ w.1 := class_for d w.1 w.2 ]> m) cs wants.

Lemma ensure_loop d wants : forall k v,
  coupled k d v -> Forall (fun w => 0 < w.1 < 65536) wants ->
  exists k' v', each ensureClass (k, v) wants = ((k', v'), []) /\ coupled k' d v' /\ tree_write d k k' /\
    df k' d = df k d /\ v_filters v' = v_filters v /\ v_classes v' = put_classes d (v_classes v) wants /\
    (forall p, is_Some (leaves v' !! p) <-> (exists w, w ∈ wants /\ p = classHandle w.1) \/ is_Some (leaves v !! p)) /\
    ((forall w, w ∈ wants -> v_classes v !! w.1 = Some (class_for d w.1 w.2) /\ is_Some (leaves v !! classHandle w.1)) ->
     k' = k).
Proof.
  induction wants as [|[minor rate] wants IH]; intros k v Hc Hall.
  { exists k, v. rewrite each_nil. split_and!; try done. intros p. split; [auto|].
    intros [(w & Hw & _)|?]; [by apply not_elem_of_nil in Hw|done]. }
  apply Forall_cons in Hall as [Hr Hall]. simpl in Hr. rewrite each_cons.
  destruct (ensureClass_ok k d v minor rate Hc Hr) as (k1 & v1 & -> & Hc1 & Htw1 & Hdf1 & Hvf1 & Hvc1 & Hl1 & Hsame1).
  destruct (IH k1 v1 Hc1 Hall) as (k2 & v2 & -> & Hc2 & Htw2 & Hdf2 & Hvf2 & Hvc2 & Hl2 & Hsame2).
  exists k2, v2. split_and!; try done.
  - by etrans.
  - congruence.
  - congruence.
  - rewrite Hvc2, Hvc1. done.
  - intros p. rewrite Hl2, Hl1. setoid_rewrite elem_of_cons. split.
    + intros [(w & ? & ?)|[->|?]]; [left; exists w; auto|left; exists (minor, rate); auto|auto].
    + intros [(w & [->|?] & ->)|?]; [auto|left; eauto|auto].
  - intros Hw. setoid_rewrite elem_of_cons in Hw. destruct (Hw (minor, rate)) as [Hm Hlf]; [auto|].
    simpl in Hm, Hlf. rewrite Hsame2; [by apply Hsame1|]. intros w Hin. destruct (Hw w) as [Hwm Hwl]; [auto|].
    rewrite Hvc1, insert_id by done. split; [done|]. apply Hl1. auto.
Qed.

Lemma drop_loop d minors : forall k v,
  coupled k d v -> NoDup minors ->
  (forall n, n ∈ minors -> is_Some (v_classes v !! n) /\ forall f, f ∈ df k d -> ClassID f <> classHandle n) ->
  exists k' v', each dropClass (k, v) minors = ((k', v'), []) /\ coupled k' d v' /\ tree_write d k k' /\
    df k' d = df k d /\ v_filters v' = v_filters v /\
    (forall n, v_classes v' !! n = if decide (n ∈ minors) then None else v_classes v !! n) /\
    (forall p, is_Some (leaves v' !! p) <-> (forall n, n ∈ minors -> p <> classHandle n) /\ is_Some (leaves v !! p)).
Proof.
  induction minors as [|n minors IH]; intros k v Hc Hnd Hall.
  { exists k, v. rewrite each_nil. split_and!; try done. intros p. split; [|by intros [_ ?]].
    intros ?. split; [|done]. by intros n ?%not_elem_of_nil. }
  setoid_rewrite elem_of_cons in Hall. apply NoDup_cons in Hnd as [Hn Hnd]. rewrite each_cons.
  destruct (Hall n) as [[c Hcn] Hfree]; [auto|].
  destruct (dropClass_ok k d v n c Hc Hcn Hfree) as (k1 & v1 & -> & Hc1 & Htw1 & Hdf1 & Hvf1 & Hvc1 & Hl1).
  destruct (IH k1 v1 Hc1 Hnd) as (k2 & v2 & -> & Hc2 & Htw2 & Hdf2 & Hvf2 & Hvc2 & Hl2).
  { intros m Hm. rewrite Hdf1. destruct (Hall m) as [Hcm Hfm]; [auto|]. split; [|done].
    rewrite Hvc1, lookup_delete_ne; [done|]. by intros ->. }
  exists k2, v2. split_and!; try done.
  - by etrans.
  - congruence.
  - congruence.
  - intros m. rewrite Hvc2, Hvc1. destruct (decide (m ∈ minors)) as [Hm|Hm].
    + by rewrite decide_True by (apply elem_of_cons; auto).
    + destruct (decide (m = n)) as [->|Hne].
      * by rewrite decide_True, lookup_delete_eq by (apply elem_of_cons; auto).
      * rewrite decide_False by (rewrite elem_of_cons; tauto). by rewrite lookup_delete_ne.
  - intros p. rewrite Hl2, Hl1. setoid_rewrite elem_of_cons. split.
    + intros (H1 & H2 & H3). split; [|done]. intros m [->|?]; auto.
    + intros (H1 & H2). split_and!; auto.
Qed.

(** ** Loops over filters *)

(** A device whose qdiscs and classes did not change. *)
Record filter_write (d : string) (k k' : Kernel) : Prop := {
  fw_tree : tree_write d k k';
  fw_quiet : quiet k' d;
  fw_dq : dq k' d = dq k d;
  fw_dc : dc k' d = dc k d;
}.

Lemma filter_write_refl d k : quiet k d -> filter_write d k k.
Proof. by split. Qed.
Lemma filter_write_trans d k1 k2 k3 : filter_write d k1 k2 -> filter_write d k2 k3 -> filter_write d k1 k3.
Proof. intros [] []. split; [by etrans|done|congruence|congruence]. Qed.

Lemma wrote_filters d k k' : wrote d k k' -> dq k' d = dq k d -> dc k' d = dc k d -> filter_write d k k'.
Proof. intros [Hf Hq] Hdq Hdc. split; [|done..]. split; [done|]. intros q _. by rewrite Hdq. Qed.

Lemma coupled_filters d k k' v : coupled k d v -> filter_write d k k' -> coupled k' d v.
Proof.
  intros [H1 H2 H3 H4 H5] [_ Hq Hdq Hdc]. split; [done|done| | |].
  - intros n c. rewrite Hdc. apply H3.
  - intros c. rewrite Hdc. apply H4.
  - intros p. rewrite Hdq. apply H5.
Qed.

Lemma remove_loop d fs : forall k,
  quiet k d -> NoDup fs -> (forall f, f ∈ fs -> f ∈ df k d) ->
  exists k', each remove_filter k fs = (k', []) /\ filter_write d k k' /\
    (forall x, x ∈ df k' d <-> x ∈ df k d /\ x ∉ fs).
Proof.
  induction fs as [|f fs IH]; intros k Hq Hnd Hall.
  { exists k. rewrite each_nil. split_and!; [done|by apply filter_write_refl|]. intros x.
    split; [|by intros [? _]]. intros ?. split; [done|]. apply not_elem_of_nil. }
  apply NoDup_cons in Hnd as [Hf Hnd]. setoid_rewrite elem_of_cons in Hall. rewrite each_cons.
  destruct (DelFilter_ok k d f Hq) as (k1 & He & Hw & Hdf & Hdc & Hdq); [auto|].
  unfold remove_filter at 1. rewrite He. cbn [report_del].
  destruct (IH k1) as (k2 & -> & Hfw & Hdf2); [apply Hw|done| |].
  { intros g Hg. apply Hdf. split; [auto|]. intros ->. done. }
  exists k2. split_and!; [done| |].
  - eapply filter_write_trans; [by apply wrote_filters|done].
  - intros x. rewrite Hdf2, Hdf, not_elem_of_cons. tauto.
Qed.

Lemma install_loop d fs : forall k,
  quiet k d -> NoDup fs ->
  (forall f, f ∈ fs -> fDevice f = d /\ identity f = f /\ (Redirect f = "" \/ Redirect f ∈ links k)) ->
  (forall f g, f ∈ fs -> (g ∈ df k d \/ g ∈ fs) -> fParent g = fParent f -> fPriority g = fPriority f ->
    family g = family f) ->
  (forall f g, f ∈ fs -> g ∈ df k d -> identity g <> f) ->
  exists k' extra, each install_filter k fs = (k', []) /\ filter_write d k k' /\
    df k' d = df k d ++ extra /\ identity <$> extra = fs.
Proof.
  induction fs as [|f fs IH]; intros k Hq Hnd Hall Hfam Hnew.
  { exists k, []. rewrite each_nil, app_nil_r. split_and!; [done|by apply filter_write_refl|done|done]. }
  apply NoDup_cons in Hnd as [Hf Hnd]. setoid_rewrite elem_of_cons in Hall.
  setoid_rewrite elem_of_cons in Hfam. setoid_rewrite elem_of_cons in Hnew. rewrite each_cons.
  destruct (Hall f) as (Hd & Hid & Hred); [auto|].
  destruct (AddFilter_ok k d f Hq Hd Hred) as (k1 & h & He & Hw & Hdf & Hdc & Hdq).
  { intros have Hin Hp. split; [intros Hpr; by apply Hfam; auto|]. rewrite Hid. apply Hnew; auto. }
  { rewrite Hid. intros (g & Heq & Hg)%list_elem_of_fmap. apply (Hnew f g); auto. }
  unfold install_filter at 1. rewrite He. cbn [report].
  destruct (IH k1) as (k2 & extra & -> & Hfw & Hdf2 & Hex).
  - apply Hw.
  - done.
  - intros g Hg. rewrite (fr_links _ _ _ (wr_frame _ _ _ Hw)). apply Hall. auto.
  - intros g x Hg Hx Hp Hpr. rewrite Hdf, elem_of_app, list_elem_of_singleton in Hx.
    destruct Hx as [[Hx| ->]|Hx]; [apply Hfam; auto| |apply Hfam; auto].
    change (family (with_handle f h)) with (family f). apply Hfam; auto.
  - intros g x Hg Hx. rewrite Hdf, elem_of_app, list_elem_of_singleton in Hx. destruct Hx as [Hx| ->].
    + apply Hnew; auto.
    + change (identity (with_handle f h)) with (identity f). rewrite Hid. by intros ->.
  - exists k2, (with_handle f h :: extra). split_and!; [done| | |].
    + eapply filter_write_trans; [by apply wrote_filters|done].
    + rewrite Hdf2, Hdf, <-(assoc_L (++)). done.
    + rewrite fmap_cons, Hex. f_equal. by change (identity (with_handle f h)) with (identity f).
Qed.

(** ** Shaping: reading a device

    What [ownedView] makes of a snapshot of the stack: when nothing on the device is
    somebody else's and ahead of the panel's, the view holds every class, leaf and
    filter of the panel's, and stays in step with the stack from then on. *)

(** ** The parts of a view *)

(** A root qdisc the panel may keep or replace. *)
Definition roots_ok (d : string) (qs : list QdiscSpec) : Prop :=
  forall q, q ∈ qs -> qParent q = rootParent -> q = rootQdisc d \/ qHandle q = 0.

Lemma view_qdiscs d qs : forall r0 l0,
  match foldM (view_qdisc d) (r0, l0) qs with
  | Ok (r, l) =>
      roots_ok d qs /\ (r = true <-> r0 = true \/ rootQdisc d ∈ qs) /\
      forall p, is_Some (l !! p) <-> is_Some (l0 !! p) \/
        (p <> rootParent /\ p <> clsactParent /\ exists q, q ∈ qs /\ qParent q = p)
  | Fail _ => ~ roots_ok d qs
  end.
Proof.
  induction qs as [|q qs IH]; intros r0 l0; cbn [foldM].
  { split_and!.
    - intros q Hq. by apply not_elem_of_nil in Hq.
    - split; [auto|]. intros [?|H]; [done|by apply not_elem_of_nil in H].
    - intros p. split; [auto|]. intros [?|(_ & _ & q & Hq & _)]; [done|by apply not_elem_of_nil in Hq]. }
  unfold view_qdisc at 1.
  destruct (Z.eqb_spec (qParent q) rootParent) as [Hp|Hp].
  - case_bool_decide as Heq; [|destruct (Z.eqb_spec (qHandle q) 0) as [Hz|Hz]].
    + specialize (IH true l0). destruct (foldM _ _ qs) as [[r l]|e].
      * destruct IH as (H1 & H2 & H3). split_and!.
        -- intros x [->|Hx]%elem_of_cons Hr; [auto|by apply H1].
        -- rewrite H2, elem_of_cons. subst q. naive_solver.
        -- intros p. rewrite H3. setoid_rewrite elem_of_cons. split; [|naive_solver]. naive_solver.
      * intros H. apply IH. intros x Hx. apply H. apply elem_of_cons; auto.
    + specialize (IH r0 l0). destruct (foldM _ _ qs) as [[r l]|e].
      * destruct IH as (H1 & H2 & H3). split_and!.
        -- intros x [->|Hx]%elem_of_cons Hr; [auto|by apply H1].
        -- rewrite H2, elem_of_cons. naive_solver.
        -- intros p. rewrite H3. setoid_rewrite elem_of_cons. naive_solver.
      * intros H. apply IH. intros x Hx. apply H. apply elem_of_cons; auto.
    + intros H. destruct (H q) as [?|?]; auto. apply elem_of_cons; auto.
  - destruct (Z.eqb_spec (qParent q) clsactParent) as [Hc|Hc].
    + specialize (IH r0 l0). destruct (foldM _ _ qs) as [[r l]|e].
      * destruct IH as (H1 & H2 & H3). split_and!.
        -- intros x [->|Hx]%elem_of_cons Hr; [done|by apply H1].
        -- rewrite H2, elem_of_cons. split; [naive_solver|]. intros [?|[Hq|?]]; auto. by subst q.
        -- intros p. rewrite H3. setoid_rewrite elem_of_cons. naive_solver.
      * intros H. apply IH. intros x Hx. apply H. apply elem_of_cons; auto.
    + specialize (IH r0 (<[ qParent q := q ]> l0)). destruct (foldM _ _ qs) as [[r l]|e].
      * destruct IH as (H1 & H2 & H3). split_and!.
        -- intros x [->|Hx]%elem_of_cons Hr; [done|by apply H1].
        -- rewrite H2, elem_of_cons. split; [naive_solver|]. intros [?|[Hq|?]]; auto. by subst q.
        -- intros p. rewrite H3. setoid_rewrite elem_of_cons. destruct (decide (qParent q = p)) as [<-|Hne].
           ++ rewrite lookup_insert_eq. split; [|eauto]. intros _. right. eauto 6.
           ++ rewrite lookup_insert_ne by done. naive_solver.
      * intros H. apply IH. intros x Hx. apply H. apply elem_of_cons; auto.
Qed.

(** A class of the panel's. *)
Definition class_ok (c : ClassSpec) : Prop :=
  cParent c = rootHandle /\ exists minor, 0 < minor < 65536 /\ cHandle c = classHandle minor.

Lemma view_classes cs : forall m0,
  NoDup (cHandle <$> cs) -> (forall c, c ∈ cs -> class_ok c) ->
  forall minor c, 0 < minor < 65536 ->
    foldl view_class m0 cs !! minor = Some c <->
    (c ∈ cs /\ cHandle c = classHandle minor) \/
    (m0 !! minor = Some c /\ forall x, x ∈ cs -> cHandle x <> classHandle minor).
Proof.
  induction cs as [|x cs IH]; intros m0 Hnd Hok minor c Hr; cbn [foldl].
  { split; [|intros [[H _]|[? _]]; [by apply not_elem_of_nil in H|done]].
    intros ?. right. split; [done|]. by intros x ?%not_elem_of_nil. }
  rewrite fmap_cons in Hnd. apply NoDup_cons in Hnd as [Hx Hnd]. setoid_rewrite elem_of_cons in Hok.
  rewrite IH by auto. setoid_rewrite elem_of_cons.
  destruct (Hok x) as [Hpar (n & Hn & Hh)]; [auto|].
  assert (view_class m0 x = <[ n := x ]> m0) as ->.
  { unfold view_class. rewrite Hh, classMinor_classHandle by done. by rewrite Hpar, Z.eqb_refl. }
  destruct (decide (n = minor)) as [->|Hne].
  - rewrite lookup_insert_eq. split.
    + intros [[? ?]|[[= <-] ?]]; auto.
    + intros [[[->|?] ?]|[? Hno]]; [|auto|by destruct (Hno x); auto].
      right. split; [done|]. intros y Hy Hhy. apply Hx. rewrite Hh, <-Hhy. by apply list_elem_of_fmap_2.
  - rewrite lookup_insert_ne by done.
    assert (cHandle x <> classHandle minor) by (rewrite Hh; intros ?%classHandle_inj; lia). naive_solver.
Qed.

Lemma view_classes_range cs minor c :
  (forall c, c ∈ cs -> class_ok c) -> foldl view_class ∅ cs !! minor = Some c -> 0 < minor < 65536.
Proof.
  intros Hok. assert (forall m0, (forall n, is_Some (m0 !! n) -> 0 < n < 65536) ->
    foldl view_class m0 cs !! minor = Some c -> 0 < minor < 65536) as Hgo; [|apply Hgo; intros n [? Hn]; by rewrite lookup_empty in Hn].
  induction cs as [|x cs IH]; intros m0 Hm; cbn [foldl]; [intros ?; apply Hm; eauto|].
  setoid_rewrite elem_of_cons in Hok. apply IH; [auto|]. destruct (Hok x) as [Hpar (n & Hn & Hh)]; [auto|].
  unfold view_class. rewrite Hh, classMinor_classHandle by done. rewrite Hpar, Z.eqb_refl. simpl.
  intros j. destruct (decide (n = j)) as [->|Hne]; [done|]. rewrite lookup_insert_ne by done. apply Hm.
Qed.

(** The filters of the panel's tree, and nobody's ahead of them. *)
Definition tree_filter (m : MatchField) (f : FilterSpec) : Prop := fParent f = rootHandle /\ ours f m = true.
#[global] Instance tree_filter_dec m f : Decision (tree_filter m f).
Proof. unfold tree_filter. apply _. Defined.

Definition none_ahead (m : MatchField) (fs : list FilterSpec) : Prop :=
  forall f, f ∈ fs -> fParent f = rootHandle -> ours f m = true \/ filterPrioV6 < fPriority f.

Lemma view_filters m fs : forall acc,
  match foldM (view_filter m) acc fs with
  | Ok out => none_ahead m fs /\ out = acc ++ filter (tree_filter m) fs
  | Fail _ => ~ none_ahead m fs
  end.
Proof.
  induction fs as [|f fs IH]; intros acc; cbn [foldM].
  { split; [by intros f ?%not_elem_of_nil|]. by rewrite filter_nil, app_nil_r. }
  unfold view_filter at 1.
  destruct (Z.eqb_spec (fParent f) rootHandle) as [Hp|Hp]; simpl.
  - destruct (ours f m) eqn:Ho; [|destruct (Z.leb_spec (fPriority f) filterPrioV6) as [Hle|Hgt]].
    + specialize (IH (acc ++ [f])). destruct (foldM _ _ fs) as [out|e].
      * destruct IH as [H1 ->]. rewrite filter_cons_True by done. rewrite <-(assoc_L (++)). split; [|done].
        intros x [->|Hx]%elem_of_cons Hxp; auto.
      * intros H. apply IH. intros x Hx. apply H. apply elem_of_cons; auto.
    + intros H. destruct (H f) as [?|?]; [apply elem_of_cons; auto|done|congruence|lia].
    + specialize (IH acc). destruct (foldM _ _ fs) as [out|e].
      * destruct IH as [H1 ->]. rewrite filter_cons_False by (intros [_ ?]; congruence). split; [|done].
        intros x [->|Hx]%elem_of_cons Hxp; auto.
      * intros H. apply IH. intros x Hx. apply H. apply elem_of_cons; auto.
  - specialize (IH acc). destruct (foldM _ _ fs) as [out|e].
    + destruct IH as [H1 ->]. rewrite filter_cons_False by (by intros [? _]). split; [|done].
      intros x [->|Hx]%elem_of_cons Hxp; [done|auto].
    + intros H. apply IH. intros x Hx. apply H. apply elem_of_cons; auto.
Qed.

(** ** A device the kernel could hold *)

(** What the kernel guarantees of a device before a pass: objects are unique where it
    keeps them unique, a class hangs off the panel's root, without that root there is no
    tree below it, and nobody else's filter selects one of its classes. *)
Record tree_ok (k : Kernel) (d : string) (m : MatchField) : Prop := {
  to_quiet : quiet k d;
  to_class c : c ∈ dc k d -> class_ok c;
  to_bare : rootQdisc d ∉ dq k d ->
    dc k d = [] /\ (forall q, q ∈ dq k d -> qParent q = rootParent \/ qParent q = clsactParent) /\
    (forall f, f ∈ df k d -> fParent f <> rootHandle);
  to_select f minor : f ∈ df k d -> 0 < minor < 65536 -> ClassID f = classHandle minor -> tree_filter m f;
}.

Definition snapshot_of (k : Kernel) (d : string) : Snapshot :=
  mkSnapshot true (dq k d) (dc k d) (df k d) (links k).

Lemma kernel_Snapshot_ok k d :
  d ∈ links k -> SnapshotErr k d = None -> plane_Snapshot k d = Ok (snapshot_of k d).
Proof. intros Hl He. simpl. unfold kernel_Snapshot. rewrite He. by rewrite bool_decide_eq_true_2. Qed.

Lemma planeView_spec k d m :
  tree_ok k d m ->
  match ownedView (snapshot_of k d) d m with
  | Ok v =>
      roots_ok d (dq k d) /\ none_ahead m (df k d) /\ coupled k d v /\
      v_filters v = filter (tree_filter m) (df k d) /\ (rooted v = true <-> rootQdisc d ∈ dq k d)
  | Fail _ => ~ (roots_ok d (dq k d) /\ none_ahead m (df k d))
  end.
Proof.
  intros [Hq Hcl Hbare Hsel]. unfold ownedView. simpl Qdiscs. simpl Filters. simpl Classes.
  pose proof (view_qdiscs d (dq k d) false ∅) as Hv. destruct (foldM _ _ (dq k d)) as [[r l]|e]; [|tauto].
  destruct Hv as (Hroots & Hr & Hl). destruct r; simpl.
  - pose proof (view_filters m (df k d) []) as Hf. destruct (foldM _ _ (df k d)) as [fs|e]; [|tauto].
    destruct Hf as [Hahead ->]. assert (rootQdisc d ∈ dq k d) as Hin by naive_solver. split_and!; try done.
    split; simpl; [done|done| | |].
    + intros n c Hn. pose proof (view_classes_range _ _ _ Hcl Hn) as Hrange.
      apply view_classes in Hn; [|apply Hq|done|done]. destruct Hn as [[? ?]|[Hn _]]; [done|].
      by rewrite lookup_empty in Hn.
    + intros c Hin'. destruct (Hcl c Hin') as [_ (n & Hn & Hh)]. exists n.
      apply view_classes; [apply Hq|done|done|]. auto.
    + intros p. rewrite Hl. split; [intros [[? He]|?]; [by rewrite lookup_empty in He|done]|auto].
  - assert (rootQdisc d ∉ dq k d) as Hnin by naive_solver.
    destruct (Hbare Hnin) as (Hdc & Hdq & Hdf).
    assert (filter (tree_filter m) (df k d) = []) as Hnone.
    { destruct (filter (tree_filter m) (df k d)) as [|f fs] eqn:He; [done|]. exfalso.
      assert (f ∈ f :: fs) as Hf by (apply elem_of_cons; auto). rewrite <-He in Hf.
      apply list_elem_of_filter in Hf as [[? _] Hf]. by apply (Hdf f). }
    split_and!; try done.
    + intros f Hf Hp. by destruct (Hdf f Hf).
    + split; simpl; [done|done| | |].
      * intros n c Hn. by rewrite lookup_empty in Hn.
      * rewrite Hdc. by intros c ?%not_elem_of_nil.
      * intros p. rewrite Hl. split; [intros [[? He]|?]; [by rewrite lookup_empty in He|done]|auto].
Qed.

Lemma ownedView_ok k d m :
  tree_ok k d m -> roots_ok d (dq k d) -> none_ahead m (df k d) ->
  exists v, ownedView (snapshot_of k d) d m = Ok v /\ coupled k d v /\
    v_filters v = filter (tree_filter m) (df k d) /\ (rooted v = true <-> rootQdisc d ∈ dq k d).
Proof.
  intros Hok Hr Ha. pose proof (planeView_spec k d m Hok) as H.
  destruct (ownedView _ _ _) as [v|e]; [|tauto]. exists v. tauto.
Qed.

(** ** Filters wanted *)

Section Wanted.
Context {PT : PrefixText}.

Lemma want_filters_elem d m M subjects g :
  g ∈ want_filters d m M subjects <-> exists s p, s ∈ subjects /\ p ∈ prefixes s /\
    g = mkFilter d rootHandle (ourPriority p) m p (classHandle (default 0 (M !! key s))) "" 0.
Proof.
  unfold want_filters. rewrite elem_of_concat. split.
  - intros (l & (s & -> & Hs)%list_elem_of_fmap & (p & -> & Hp)%list_elem_of_fmap). eauto 6.
  - intros (s & p & Hs & Hp & ->). eexists. split; [by apply list_elem_of_fmap_2|].
    apply list_elem_of_fmap. eauto.
Qed.

Lemma want_filters_NoDup d m M subjects : wf_tree subjects -> NoDup (want_filters d m M subjects).
Proof.
  intros Hwf. apply (NoDup_fmap_1 fPrefix).
  assert (fPrefix <$> want_filters d m M subjects = concat (prefixes <$> subjects)) as ->.
  { unfold want_filters. clear Hwf. induction subjects as [|s l IH]; [done|].
    cbn [fmap list_fmap concat]. rewrite fmap_app. f_equal; [|done]. rewrite <-list_fmap_compose.
    apply list_fmap_id. }
  pose proof (wt_keys _ Hwf) as Hnd. apply NoDup_fmap_1 in Hnd.
  assert (forall l, (forall s, s ∈ l -> s ∈ subjects) -> NoDup l -> NoDup (concat (prefixes <$> l))) as Hgo;
    [|by apply Hgo].
  induction l as [|s l IH]; intros Hsub Hl; [constructor|]. setoid_rewrite elem_of_cons in Hsub.
  apply NoDup_cons in Hl as [Hs Hl]. cbn [fmap list_fmap concat]. apply NoDup_app. split_and!.
  - apply (wt_once _ Hwf). auto.
  - intros p Hp (ps & (t & -> & Ht)%list_elem_of_fmap & Hpt)%elem_of_concat.
    apply Hs. by rewrite (wt_disjoint _ Hwf s t p) by auto.
  - apply IH; auto.
Qed.

Lemma want_filters_tree d m M subjects g :
  wf_tree subjects -> g ∈ want_filters d m M subjects -> tree_filter m g /\ identity g = g /\ fDevice g = d.
Proof.
  intros Hwf (s & p & Hs & Hp & ->)%want_filters_elem. split_and!; try done. split; [done|].
  unfold ours. simpl. destruct (wt_host _ Hwf s p Hs Hp) as [-> _]. rewrite Z.eqb_refl.
  by rewrite !bool_decide_eq_true_2.
Qed.

Lemma tree_filter_identity m f g : identity f = identity g -> tree_filter m f -> tree_filter m g.
Proof.
  intros Heq [Hp Ho]. change (fParent (identity f) = rootHandle) in Hp. change (ours (identity f) m = true) in Ho.
  rewrite Heq in Hp, Ho. by split.
Qed.

Lemma indexed_spec fs f : indexed fs f = true <-> exists g, g ∈ fs /\ identity g = identity f.
Proof.
  unfold indexed. rewrite bool_decide_eq_true, list_elem_of_fmap. split; intros (g & ? & ?); exists g; auto.
Qed.

(** The priority of a filter of the panel's says its family. *)
Lemma tree_family m f g :
  tree_filter m f -> fPriority f = fPriority g -> tree_filter m g -> family f = family g.
Proof.
  intros [_ Hf] Heq [_ Hg]. unfold ours in *. bools. unfold family. unfold ourPriority in *.
  destruct (Is6 (pAddr (fPrefix f))), (Is6 (pAddr (fPrefix g))); try done;
    unfold filterPrioV4, filterPrioV6 in *; lia.
Qed.

Lemma tree_priority m f : tree_filter m f -> fPriority f <= filterPrioV6.
Proof.
  intros [_ Ho]. unfold ours in Ho. bools. unfold ourPriority, filterPrioV4, filterPrioV6 in *.
  destruct (Is6 _); lia.
Qed.
End Wanted.
