(* ===== verification/ShapingTheorems.v ===== *)
(** * Shaping: what a pass achieves

    On the stack of [ShapingKernel]: a pass over a device brings its tree to exactly the
    population asked for, whatever of the panel's it held before, and a second pass
    writes nothing. *)
From stdpp Require Import pretty.
From Stdlib Require Import Ascii.
From S2P Require Import Prelude Decimal Netip ShapingNames ShapingKernel Shaping ShapingMinors ShapingPlan ShapingStack ShapingLoops.
Open Scope string_scope.
Open Scope Z_scope.
Open Scope list_scope.

Section Converges.
Context {PT : PrefixText} {PTL : PrefixTextLaws}.

(** The class unclassified traffic falls into. *)
Definition default_class (d : string) : ClassSpec := class_for d defaultMinor (KernelBytesPerSec UnlimitedBps).

(** An id for every subject, none of them shared or the default's. *)
Record ids_ok (subjects : list shaped) (M : gmap string Z) : Prop := {
  id_range s : s ∈ subjects -> exists n, M !! key s = Some n /\ 0 < n < defaultMinor;
  id_inj s t n : s ∈ subjects -> t ∈ subjects -> M !! key s = Some n -> M !! key t = Some n -> key s = key t;
  id_dom k : is_Some (M !! k) -> k ∈ key <$> subjects;
}.

(** The tree of a device is exactly a population's. *)
Record exact_tree (k : Kernel) (d : string) (m : MatchField) (subjects : list shaped) (M : gmap string Z)
    : Prop := {
  ex_ids : ids_ok subjects M;
  ex_root : rootQdisc d ∈ dq k d;
  ex_classes c : c ∈ dc k d <->
    c = default_class d \/ exists s n, s ∈ subjects /\ M !! key s = Some n /\ c = class_for d n (rate s);
  ex_leaves c : c ∈ dc k d -> exists q, q ∈ dq k d /\ qParent q = cHandle c;
  ex_filters f : f ∈ df k d -> tree_filter m f -> identity f ∈ want_filters d m M subjects;
  ex_wanted g : g ∈ want_filters d m M subjects -> exists f, f ∈ df k d /\ identity f = g;
}.

Lemma assign_ids subjects v :
  NoDup (key <$> subjects) -> Z.of_nat (length subjects + size (v_classes v)) < 65519 ->
  exists M, assignMinors subjects v = Some M /\ ids_ok subjects M.
Proof.
  intros Hnd Hb. destruct (assign_spec subjects v Hnd Hb) as (M & claimed & -> & Hf & Hdom).
  exists M. split; [done|]. split.
  - intros s Hs. destruct (proj2 (Hdom (key s)) (list_elem_of_fmap_2 key subjects s Hs)) as [n Hn].
    exists n. split; [done|]. by destruct (fair_out _ _ Hf _ _ Hn).
  - intros s t n _ _. apply (fair_inj _ _ Hf).
  - intros k. apply Hdom.
Qed.

(** The classes the loop of a pass leaves, by id. *)
Definition class_wants (M : gmap string Z) (l : list shaped) : list (Z * Z) :=
  (fun s => (default 0 (M !! key s), rate s)) <$> l.

Lemma put_classes_lookup d M subjects :
  ids_ok subjects M -> forall l cs, (forall s, s ∈ l -> s ∈ subjects) -> NoDup (key <$> l) ->
  (forall s i, s ∈ l -> M !! key s = Some i ->
    put_classes d cs (class_wants M l) !! i = Some (class_for d i (rate s))) /\
  (forall i, (forall s, s ∈ l -> M !! key s <> Some i) -> put_classes d cs (class_wants M l) !! i = cs !! i).
Proof.
  intros Hid. induction l as [|s l IH]; intros cs Hsub Hl.
  { split; [by intros s i ?%not_elem_of_nil|done]. }
  setoid_rewrite elem_of_cons in Hsub. rewrite fmap_cons in Hl. apply NoDup_cons in Hl as [Hs Hl].
  destruct (id_range _ _ Hid s) as (j & Hj & _); [auto|].
  assert (put_classes d cs (class_wants M (s :: l)) =
    put_classes d (<[ j := class_for d j (rate s) ]> cs) (class_wants M l)) as ->.
  { unfold class_wants, put_classes. rewrite fmap_cons. cbn [foldl]. by rewrite Hj. }
  destruct (IH (<[ j := class_for d j (rate s) ]> cs)) as [H1 H2]; [auto|done|]. split.
  - intros t i [->|Ht]%elem_of_cons Hi; [|by apply H1].
    assert (i = j) as -> by congruence. rewrite H2; [apply lookup_insert_eq|].
    intros u Hu Hui. apply Hs. rewrite (id_inj _ _ Hid s u j) by auto. by apply list_elem_of_fmap_2.
  - intros i Hi. setoid_rewrite elem_of_cons in Hi. rewrite H2 by auto.
    rewrite lookup_insert_ne; [done|]. intros ->. apply (Hi s); auto.
Qed.

(** ** Removals and additions *)

(** The state a pass starts its removals from. *)
Record before_assigned (k : Kernel) (d : string) (m : MatchField) (v : devices) : Prop := {
  ba_coupled : coupled k d v;
  ba_default : v_classes v !! defaultMinor = Some (default_class d);
  ba_leaf : is_Some (leaves v !! classHandle defaultMinor);
  ba_filters : v_filters v = filter (tree_filter m) (df k d);
  ba_ahead : none_ahead m (df k d);
  ba_select f minor : f ∈ df k d -> 0 < minor < 65536 -> ClassID f = classHandle minor -> tree_filter m f;
  ba_root : rootQdisc d ∈ dq k d;
}.

Lemma tree_filters_NoDup k d m : quiet k d -> NoDup (filter (tree_filter m) (df k d)).
Proof. intros Hq. apply NoDup_filter. eapply NoDup_fmap_1, Hq. Qed.

(** The first loop removes the filters nobody wants. *)
Lemma removals_ok k d m v M subjects :
  before_assigned k d m v -> wf_tree subjects ->
  exists k', each remove_filter k (filter (fun f => indexed (want_filters d m M subjects) f = false) (v_filters v)) =
      (k', []) /\ filter_write d k k' /\
    forall f, f ∈ df k' d <-> f ∈ df k d /\ (tree_filter m f -> identity f ∈ want_filters d m M subjects).
Proof.
  intros Hb Hwf. set (gone := filter _ (v_filters v)).
  assert (forall f, f ∈ gone <-> f ∈ df k d /\ tree_filter m f /\ identity f ∉ want_filters d m M subjects) as Hgone.
  { intros f. unfold gone. rewrite (ba_filters _ _ _ _ Hb), !list_elem_of_filter.
    assert (indexed (want_filters d m M subjects) f = false <-> identity f ∉ want_filters d m M subjects) as ->;
      [|tauto].
    rewrite <-not_true_iff_false, indexed_spec. apply not_iff_compat. split.
    - intros (g & Hg & <-). by destruct (want_filters_tree _ _ _ _ _ Hwf Hg) as (_ & -> & _).
    - intros Hin. exists (identity f). split; [done|]. done. }
  destruct (remove_loop d gone k) as (k' & He & Hfw & Hdf).
  - apply (cp_quiet _ _ _ (ba_coupled _ _ _ _ Hb)).
  - unfold gone. apply NoDup_filter. rewrite (ba_filters _ _ _ _ Hb).
    apply tree_filters_NoDup, (cp_quiet _ _ _ (ba_coupled _ _ _ _ Hb)).
  - intros f. rewrite Hgone. tauto.
  - exists k'. split_and!; [done|done|]. intros f. rewrite Hdf, Hgone.
    destruct (decide (identity f ∈ want_filters d m M subjects)); tauto.
Qed.

(** The second drops the classes of nobody. *)
Lemma drops_ok k k1 d m v M subjects :
  before_assigned k d m v -> wf_tree subjects -> ids_ok subjects M -> filter_write d k k1 ->
  (forall f, f ∈ df k1 d <-> f ∈ df k d /\ (tree_filter m f -> identity f ∈ want_filters d m M subjects)) ->
  exists k' v', each dropClass (k1, v)
      (filter (fun minor => ~ (minor = defaultMinor \/ minor ∈ (map_to_list M).*2)) (sorted_minors (v_classes v))) =
      ((k', v'), []) /\ coupled k' d v' /\ tree_write d k1 k' /\ df k' d = df k1 d /\ v_filters v' = v_filters v /\
    v_classes v' !! defaultMinor = Some (default_class d) /\ is_Some (leaves v' !! classHandle defaultMinor) /\
    (forall n, n <> defaultMinor -> (forall key, M !! key <> Some n) -> v_classes v' !! n = None).
Proof.
  intros Hb Hwf Hid Hfw Hdf. set (dead := filter _ (sorted_minors (v_classes v))).
  assert (forall n, n ∈ dead <-> is_Some (v_classes v !! n) /\ n <> defaultMinor /\ forall key, M !! key <> Some n) as Hdead.
  { intros n. unfold dead, sorted_minors. rewrite list_elem_of_filter, merge_sort_Permutation.
    rewrite !list_elem_of_fmap. split.
    - intros (Hn & [n' c] & -> & Hc%elem_of_map_to_list). simpl in *. split_and!; [eauto|tauto|].
      intros key Hk. apply Hn. right. exists (key, n'). split; [done|]. by apply elem_of_map_to_list.
    - intros ([c Hc] & Hne & Hno). split.
      + intros [?|([key n'] & -> & Hk%elem_of_map_to_list)]; [done|]. by apply (Hno key).
      + exists (n, c). split; [done|]. by apply elem_of_map_to_list. }
  destruct (drop_loop d dead k1 v) as (k' & v' & He & Hc & Htw & Hdf' & Hvf & Hvc & Hl).
  - eapply coupled_filters; [apply Hb|done].
  - unfold dead, sorted_minors. apply NoDup_filter. rewrite merge_sort_Permutation. apply NoDup_fst_map_to_list.
  - intros n Hn. apply Hdead in Hn as (Hs & Hne & Hno). split; [done|]. intros f Hf Hcl.
    destruct Hs as [c Hs]. destruct (cp_class _ _ _ (ba_coupled _ _ _ _ Hb) _ _ Hs) as (_ & _ & Hr).
    apply Hdf in Hf as [Hf Hw]. pose proof (ba_select _ _ _ _ Hb f n Hf Hr Hcl) as Ht.
    apply Hw, want_filters_elem in Ht as (s & p & Hin & _ & Heq).
    destruct (id_range _ _ Hid s Hin) as (i & Hi & Hri). rewrite Hi in Heq. apply (f_equal ClassID) in Heq.
    simpl in Heq. rewrite Hcl in Heq. unfold defaultMinor in *. apply classHandle_inj in Heq; [|lia|lia].
    subst i. by apply (Hno (key s)).
  - assert (defaultMinor ∉ dead) as Hnd by (rewrite Hdead; tauto).
    exists k', v'. split_and!; try done.
    + rewrite Hvc, decide_False by done. exact (ba_default _ _ _ _ Hb).
    + apply Hl. split; [|exact (ba_leaf _ _ _ _ Hb)]. intros n Hn Heq. apply Hdead in Hn as ([c Hs] & Hne & _).
      destruct (cp_class _ _ _ (ba_coupled _ _ _ _ Hb) _ _ Hs) as (_ & _ & Hr). unfold defaultMinor in *.
      apply classHandle_inj in Heq; lia.
    + intros n Hne Hno. rewrite Hvc. case_decide as Hn; [done|]. destruct (v_classes v !! n) as [c|] eqn:Hs; [|done].
      exfalso. apply Hn, Hdead. eauto.
Qed.

(** The last installs the filters that are missing. *)
Lemma installs_ok k k1 d m v M subjects :
  before_assigned k d m v -> wf_tree subjects -> quiet k1 d ->
  (forall f, f ∈ df k1 d <-> f ∈ df k d /\ (tree_filter m f -> identity f ∈ want_filters d m M subjects)) ->
  exists k' extra,
    each install_filter k1
      (filter (fun f => indexed (v_filters v) f = false) (want_filters d m M subjects)) = (k', []) /\
    filter_write d k1 k' /\ df k' d = df k1 d ++ extra /\
    (forall f, f ∈ extra -> tree_filter m f /\ identity f ∈ want_filters d m M subjects) /\
    (forall g, g ∈ want_filters d m M subjects -> exists f, f ∈ df k' d /\ identity f = g).
Proof.
  intros Hb Hwf Hq Hdf. set (new := filter _ (want_filters d m M subjects)).
  assert (forall g, g ∈ new -> g ∈ want_filters d m M subjects /\ indexed (v_filters v) g = false) as Hnew
    by (intros g; unfold new; rewrite list_elem_of_filter; tauto).
  assert (forall f, f ∈ df k1 d -> fParent f = rootHandle -> tree_filter m f \/ filterPrioV6 < fPriority f) as Hahead.
  { intros f [Hf _]%Hdf Hp. destruct (ba_ahead _ _ _ _ Hb f Hf Hp); [left; by split|auto]. }
  destruct (install_loop d new k1) as (k' & extra & He & Hfw & Hdf' & Hex).
  - done.
  - unfold new. apply NoDup_filter. by apply want_filters_NoDup.
  - intros g [Hg _]%Hnew. destruct (want_filters_tree _ _ _ _ _ Hwf Hg) as ([_ Ho] & Hi & Hd).
    split_and!; [done|done|]. left. unfold ours in Ho. by bools.
  - intros g x [Hg _]%Hnew Hx Hp Hpr. destruct (want_filters_tree _ _ _ _ _ Hwf Hg) as (Ht & _ & _).
    destruct Hx as [Hx|[Hx _]%Hnew].
    + destruct (Hahead x Hx) as [Hxt|Hlt]; [rewrite Hp; apply Ht|by eapply tree_family|].
      apply tree_priority in Ht. lia.
    + destruct (want_filters_tree _ _ _ _ _ Hwf Hx) as (Hxt & _ & _). by eapply tree_family.
  - intros g x [Hg Hidx]%Hnew Hx Heq. destruct (want_filters_tree _ _ _ _ _ Hwf Hg) as (Ht & Hi & _).
    apply not_true_iff_false in Hidx. apply Hidx, indexed_spec. exists x. rewrite Hi. split; [|done].
    rewrite (ba_filters _ _ _ _ Hb). apply list_elem_of_filter. split; [|by apply Hdf].
    eapply tree_filter_identity; [|exact Ht]. congruence.
  - assert (forall f, f ∈ extra -> identity f ∈ want_filters d m M subjects) as Hin.
    { intros f Hf. apply Hnew. rewrite <-Hex. by apply list_elem_of_fmap_2. }
    exists k', extra. split_and!; [done|done|done| |].
    + intros f Hf. split; [|auto]. destruct (want_filters_tree _ _ _ _ _ Hwf (Hin f Hf)) as (Ht & Hi & _).
      by eapply tree_filter_identity.
    + intros g Hg. destruct (want_filters_tree _ _ _ _ _ Hwf Hg) as (Ht & Hi & _). rewrite Hdf'.
      destruct (indexed (v_filters v) g) eqn:Hidx.
      * apply indexed_spec in Hidx as (f & Hf & Heq). rewrite Hi in Heq.
        rewrite (ba_filters _ _ _ _ Hb) in Hf. apply list_elem_of_filter in Hf as [Hft Hf].
        exists f. split; [|done]. apply elem_of_app. left. apply Hdf. split; [done|]. by rewrite Heq.
      * assert (g ∈ new) as Hgn by (unfold new; by apply list_elem_of_filter).
        rewrite <-Hex in Hgn. apply list_elem_of_fmap in Hgn as (f & -> & Hf). exists f.
        split; [|done]. apply elem_of_app. auto.
Qed.

Lemma converge_assigned_ok k d m v M subjects :
  before_assigned k d m v -> wf_tree subjects -> ids_ok subjects M ->
  exists k', converge_assigned (k, v) d m subjects M = (k', []) /\ exact_tree k' d m subjects M /\
    tree_write d k k' /\ quiet k' d /\
    (forall f, f ∈ df k' d -> f ∈ df k d \/ tree_filter m f) /\
    (forall f, ~ tree_filter m f -> f ∈ df k d -> f ∈ df k' d).
Proof.
  intros Hb Hwf Hid. unfold converge_assigned.
  destruct (removals_ok k d m v M subjects Hb Hwf) as (k1 & -> & Hfw1 & Hdf1).
  destruct (drops_ok k k1 d m v M subjects Hb Hwf Hid Hfw1 Hdf1)
    as (k2 & v2 & -> & Hc2 & Htw2 & Hdf2 & Hvf2 & Hdef2 & Hlf2 & Hnone2).
  assert (forall s, s ∈ subjects -> exists n, M !! key s = Some n /\ 0 < n < 65536) as Hrange.
  { intros s Hs. destruct (id_range _ _ Hid s Hs) as (n & ? & ?). exists n. split; [done|]. unfold defaultMinor in *. lia. }
  destruct (ensure_loop d (class_wants M subjects) k2 v2 Hc2) as (k3 & v3 & He3 & Hc3 & Htw3 & Hdf3 & Hvf3 & Hvc3 & Hl3 & _).
  { apply Forall_fmap, Forall_forall. intros s Hs. destruct (Hrange s Hs) as (n & Hn & ?). simpl. by rewrite Hn. }
  unfold class_wants in He3. rewrite He3.
  assert (forall f, f ∈ df k3 d <-> f ∈ df k d /\ (tree_filter m f -> identity f ∈ want_filters d m M subjects)) as Hdf3'
    by (intros f; by rewrite Hdf3, Hdf2).
  destruct (installs_ok k k3 d m v M subjects Hb Hwf (cp_quiet _ _ _ Hc3) Hdf3') as (k4 & extra & He4 & Hfw4 & Hdf4 & Hex4 & Hwant4).
  rewrite Hvf3, Hvf2, He4. exists k4. split; [done|].
  destruct (put_classes_lookup d M subjects Hid subjects (v_classes v2)) as [Hput1 Hput2];
    [done|apply (wt_keys _ Hwf)|]. rewrite <-Hvc3 in Hput1, Hput2.
  assert (tree_write d k k4) as Htw.
  { etrans; [apply (fw_tree _ _ _ Hfw1)|]. etrans; [exact Htw2|]. etrans; [exact Htw3|]. apply (fw_tree _ _ _ Hfw4). }
  assert (forall s n, s ∈ subjects -> M !! key s = Some n -> n <> defaultMinor) as Hnd.
  { intros s n Hs Hn. destruct (id_range _ _ Hid s Hs) as (n' & Hn' & ?). assert (n' = n) by congruence. lia. }
  assert (v_classes v3 !! defaultMinor = Some (default_class d)) as Hdef.
  { rewrite Hput2; [done|]. intros s Hs Hn. by apply (Hnd s defaultMinor). }
  assert (forall n c, v_classes v3 !! n = Some c ->
    (n = defaultMinor /\ c = default_class d) \/ exists s, s ∈ subjects /\ M !! key s = Some n /\ c = class_for d n (rate s)) as Hv3.
  { intros n c Hn. destruct (decide (n = defaultMinor)) as [->|Hne]; [left; split; congruence|]. right.
    destruct (decide (List.Exists (fun s => M !! key s = Some n) subjects)) as [Hexs|Hno].
    - apply List.Exists_exists in Hexs as (s & Hs%list_elem_of_In & Hm). exists s. split_and!; [done|done|].
      rewrite (Hput1 s n Hs Hm) in Hn. congruence.
    - exfalso. rewrite Hput2, Hnone2 in Hn; [done|done| |].
      + intros key' Hk. destruct (proj1 (list_elem_of_fmap _ _ _) (id_dom _ _ Hid key' ltac:(eauto))) as (s & -> & Hs).
        apply Hno, List.Exists_exists. exists s. by rewrite <-list_elem_of_In.
      + intros s Hs Hm. apply Hno, List.Exists_exists. exists s. by rewrite <-list_elem_of_In. }
  split_and!; [|done|apply Hfw4| |].
  - split.
    + done.
    + apply (tw_hooks _ _ _ Htw); [auto|apply Hb].
    + intros c. rewrite (fw_dc _ _ _ Hfw4). split.
      * intros Hc. destruct (cp_classes _ _ _ Hc3 c Hc) as [n Hn].
        destruct (Hv3 n c Hn) as [[_ ->]|(s & ? & ? & ?)]; [auto|right; eauto 6].
      * intros [->|(s & n & Hs & Hn & ->)]; eapply (cp_class _ _ _ Hc3); [exact Hdef|by apply Hput1].
    + intros c. rewrite (fw_dc _ _ _ Hfw4), (fw_dq _ _ _ Hfw4). intros Hc.
      destruct (cp_classes _ _ _ Hc3 c Hc) as [n Hn]. destruct (cp_class _ _ _ Hc3 _ _ Hn) as (_ & -> & _).
      assert (is_Some (leaves v3 !! classHandle n)) as Hleaf.
      { apply Hl3. destruct (Hv3 n c Hn) as [[-> _]|(s & Hs & Hm & _)]; [auto|]. left.
        exists (n, rate s). split; [|done]. apply list_elem_of_fmap. exists s. by rewrite Hm. }
      apply (cp_leaves _ _ _ Hc3) in Hleaf as (_ & _ & ?). done.
    + intros f. rewrite Hdf4, elem_of_app. intros [Hf|Hf] Ht; [apply Hdf3' in Hf as [_ Hw]; auto|by apply Hex4].
    + done.
  - intros f. rewrite Hdf4, elem_of_app. intros [Hf|Hf]; [left; by apply Hdf3'|right; by apply Hex4].
  - intros f Hn Hf. rewrite Hdf4, elem_of_app. left. apply Hdf3'. tauto.
Qed.

(** ** A pass over one tree *)

Lemma coupled_size k d v : coupled k d v -> (size (v_classes v) <= length (dc k d))%nat.
Proof.
  intros Hc. rewrite <-length_map_to_list, <-(length_fmap snd). apply submseteq_length, NoDup_submseteq.
  - apply NoDup_fmap_2_strong; [|apply NoDup_map_to_list].
    intros [n c] [n' c'] H1%elem_of_map_to_list H2%elem_of_map_to_list Heq. simpl in *. subst c'.
    destruct (cp_class _ _ _ Hc _ _ H1) as (_ & Hh & ?). destruct (cp_class _ _ _ Hc _ _ H2) as (_ & Hh' & ?).
    rewrite Hh in Hh'. apply classHandle_inj in Hh'; [by subst|lia|lia].
  - intros c ([n c'] & -> & H%elem_of_map_to_list)%list_elem_of_fmap. by destruct (cp_class _ _ _ Hc _ _ H).
Qed.

Lemma filter_nothing {A} (P : A -> Prop) `{!forall x, Decision (P x)} (l : list A) :
  (forall x, x ∈ l -> ~ P x) -> filter P l = [].
Proof.
  intros Hno. destruct (filter P l) as [|x r] eqn:He; [done|]. exfalso.
  assert (x ∈ filter P l) as Hx by (rewrite He; apply elem_of_cons; auto).
  apply list_elem_of_filter in Hx as [Hp Hx]. by apply (Hno x).
Qed.

(** The root qdisc, found or installed. *)
Lemma root_ok k d m v :
  tree_ok k d m -> roots_ok d (dq k d) -> coupled k d v -> (rooted v = true <-> rootQdisc d ∈ dq k d) ->
  exists k1, (if rooted v then (k, Ok tt) else AddQdisc k (rootQdisc d)) = (k1, Ok tt) /\
    frame d k k1 /\ coupled k1 d v /\ rootQdisc d ∈ dq k1 d /\ dc k1 d = dc k d /\ df k1 d = df k d /\
    (rootQdisc d ∈ dq k d -> k1 = k).
Proof.
  intros Hok Hroots Hc Hr. destruct (rooted v).
  - exists k. split_and!; try done. by apply Hr.
  - assert (rootQdisc d ∉ dq k d) as Hnin by (intros H; by apply Hr in H).
    destruct (AddQdisc_root k d (to_quiet _ _ _ Hok)) as (k1 & -> & [Hf Hq] & Hdq & Hdc & Hdf).
    { intros q Hq Hp. destruct (Hroots q Hq Hp) as [->|?]; done. }
    exists k1. split_and!; try done; [|apply Hdq; auto].
    split; [done|apply Hc| | |].
    + intros n c. rewrite Hdc. apply (cp_class _ _ _ Hc).
    + intros c. rewrite Hdc. apply (cp_classes _ _ _ Hc).
    + intros p. rewrite (cp_leaves _ _ _ Hc). setoid_rewrite Hdq. split.
      * intros (? & ? & q & ? & <-). split_and!; try done. exists q. auto.
      * intros (Hp & Hp' & q & [->|[? ?]] & <-); [done|]. split_and!; try done. by exists q.
Qed.

Lemma default_range : 0 < defaultMinor < 65536.
Proof. unfold defaultMinor. lia. Qed.

Lemma convergeTree_ok k d m subjects v :
  tree_ok k d m -> ownedView (snapshot_of k d) d m = Ok v -> wf_tree subjects -> subjects <> [] ->
  Z.of_nat (length subjects + length (dc k d)) < 65518 ->
  exists k' M, convergeTree k d (snapshot_of k d) m subjects = Some (k', []) /\
    exact_tree k' d m subjects M /\ tree_ok k' d m /\ roots_ok d (dq k' d) /\ none_ahead m (df k' d) /\
    frame d k k' /\ (forall f, ~ tree_filter m f -> f ∈ df k' d <-> f ∈ df k d).
Proof.
  intros Hok Hview Hwf Hne Hbound. pose proof (planeView_spec k d m Hok) as Hv. rewrite Hview in Hv.
  destruct Hv as (Hroots & Hahead & Hc & Hvf & Hr). unfold convergeTree. rewrite Hview. simpl Exists. simpl negb.
  cbv iota. rewrite bool_decide_eq_false_2 by done. cbv zeta.
  destruct (root_ok k d m v Hok Hroots Hc Hr) as (k1 & -> & Hf1 & Hc1 & Hroot1 & Hdc1 & Hdf1 & _).
  destruct (ensureClass_ok k1 d v defaultMinor (KernelBytesPerSec UnlimitedBps) Hc1 default_range)
    as (k2 & v2 & -> & Hc2 & Htw2 & Hdf2 & Hvf2 & Hvc2 & Hl2 & _).
  destruct (assign_ids subjects v2) as (M & -> & Hid); [apply (wt_keys _ Hwf)| |].
  { pose proof (coupled_size _ _ _ Hc1) as Hs. rewrite Hdc1 in Hs. rewrite Hvc2.
    destruct (v_classes v !! defaultMinor) as [c|] eqn:Hd.
    - rewrite map_size_insert_Some by eauto. lia.
    - rewrite map_size_insert_None by done. lia. }
  assert (before_assigned k2 d m v2) as Hb.
  { split; try done.
    - rewrite Hvc2. apply lookup_insert_eq.
    - apply Hl2. auto.
    - rewrite Hvf2, Hvf, Hdf2, Hdf1. done.
    - by rewrite Hdf2, Hdf1.
    - intros f n. rewrite Hdf2, Hdf1. apply (to_select _ _ _ Hok).
    - apply (tw_hooks _ _ _ Htw2); [by left|done]. }
  destruct (converge_assigned_ok k2 d m v2 M subjects Hb Hwf Hid) as (k3 & -> & Hex & Htw3 & Hq3 & Hback & Hkeep).
  rewrite Hdf2, Hdf1 in *.
  assert (forall n r, 0 < n < 65536 -> class_ok (class_for d n r)) as Hcls by (intros n r Hn; split; eauto).
  exists k3, M. split_and!; try done.
  - split; [done| | |].
    + intros c [->|(s & n & Hs & Hn & ->)]%(ex_classes _ _ _ _ _ Hex); apply Hcls; [apply default_range|].
      destruct (id_range _ _ Hid s Hs) as (n' & Hn' & ?). assert (n' = n) by congruence. unfold defaultMinor in *. lia.
    + intros H. by destruct H; apply (ex_root _ _ _ _ _ Hex).
    + intros f n Hf Hn Hcl. destruct (Hback f Hf); [by eapply (to_select _ _ _ Hok)|done].
  - intros q Hq Hp. left. pose proof (qu_qdiscs _ _ Hq3) as Hnd. pose proof (ex_root _ _ _ _ _ Hex) as Hroot.
    clear -Hnd Hroot Hq Hp. induction (dq k3 d) as [|x l IH]; [by apply not_elem_of_nil in Hq|].
    rewrite fmap_cons in Hnd. apply NoDup_cons in Hnd as [Hx Hnd].
    apply elem_of_cons in Hq as [->|Hq], Hroot as [Heq|Hroot]; auto; exfalso; apply Hx.
    + rewrite Hp. by apply (list_elem_of_fmap_2 qParent) in Hroot.
    + subst x. change (qParent (rootQdisc d)) with rootParent. rewrite <-Hp. by apply list_elem_of_fmap_2.
  - intros f Hf Hp. destruct (Hback f Hf) as [Hold|[_ ?]]; [by apply Hahead|auto].
  - etrans; [exact Hf1|]. etrans; [apply (tw_frame _ _ _ Htw2)|apply (tw_frame _ _ _ Htw3)].
  - intros f Hn. split; [|by apply Hkeep]. intros Hf. by destruct (Hback f Hf).
Qed.

(** ** A tree that is as wanted *)

Lemma exact_prefix k d m M subjects f s p :
  exact_tree k d m subjects M -> wf_tree subjects -> f ∈ df k d -> tree_filter m f -> fPrefix f = p ->
  s ∈ subjects -> p ∈ prefixes s -> ClassID f = classHandle (default 0 (M !! key s)).
Proof.
  intros Hex Hwf Hf Ht Hp Hs Hps. apply (ex_filters _ _ _ _ _ Hex) in Ht; [|done].
  apply want_filters_elem in Ht as (s' & p' & Hs' & Hp' & Heq).
  pose proof (f_equal fPrefix Heq) as Hpre. pose proof (f_equal ClassID Heq) as Hcl. simpl in Hpre, Hcl.
  assert (p' = p) as -> by congruence. by rewrite (wt_disjoint _ Hwf s s' p).
Qed.

Lemma exact_assigned k d m M subjects v :
  exact_tree k d m subjects M -> wf_tree subjects -> v_filters v = filter (tree_filter m) (df k d) ->
  assignMinors subjects v = Some M.
Proof.
  intros Hex Hwf Hvf. pose proof (ex_ids _ _ _ _ _ Hex) as Hid.
  apply assign_kept; [apply (wt_keys _ Hwf)|apply (id_range _ _ Hid)|apply (id_inj _ _ Hid)|apply (id_dom _ _ Hid)|
    |apply (wt_select _ Hwf)].
  intros s p Hs Hp. destruct (id_range _ _ Hid s Hs) as (n & Hn & Hr). rewrite Hn. unfold defaultMinor in Hr.
  rewrite Hvf. apply by_prefix_unique.
  - set (g := mkFilter d rootHandle (ourPriority p) m p (classHandle (default 0 (M !! key s))) "" 0).
    assert (g ∈ want_filters d m M subjects) as Hg by (apply want_filters_elem; unfold g; eauto 6).
    destruct (want_filters_tree _ _ _ _ _ Hwf Hg) as (Ht & Hi & _).
    destruct (ex_wanted _ _ _ _ _ Hex g Hg) as (f & Hf & Heq).
    exists f. split; [|by apply (f_equal fPrefix) in Heq]. apply list_elem_of_filter. split; [|done].
    apply (tree_filter_identity m g f); [congruence|done].
  - intros f [Ht Hf]%list_elem_of_filter Hfp. rewrite (exact_prefix k d m M subjects f s p), Hn by done.
    simpl. apply classMinor_classHandle. lia.
Qed.

Lemma exact_stays k d m M subjects :
  tree_ok k d m -> exact_tree k d m subjects M -> wf_tree subjects -> subjects <> [] ->
  roots_ok d (dq k d) -> none_ahead m (df k d) ->
  convergeTree k d (snapshot_of k d) m subjects = Some (k, []).
Proof.
  intros Hok Hex Hwf Hne Hroots Hahead.
  destruct (ownedView_ok k d m Hok Hroots Hahead) as (v & Hview & Hc & Hvf & Hr).
  pose proof (ex_ids _ _ _ _ _ Hex) as Hid.
  assert (forall n c, v_classes v !! n = Some c <-> c ∈ dc k d /\ cHandle c = classHandle n /\ 0 < n < 65536) as Hcls.
  { intros n c. split; [apply (cp_class _ _ _ Hc)|]. intros (Hin & Hh & Hn).
    destruct (v_classes v !! n) as [x|] eqn:Hx.
    - f_equal. symmetry. by eapply coupled_handle.
    - exfalso. by eapply (coupled_fresh k d v n c). }
  assert (forall c, c ∈ dc k d -> is_Some (leaves v !! cHandle c)) as Hleaf.
  { intros c Hin. destruct (to_class _ _ _ Hok c Hin) as [_ (n & Hn & Hh)].
    destruct (class_not_hook n Hn). apply (cp_leaves _ _ _ Hc). rewrite Hh. split_and!; try done.
    rewrite <-Hh. by apply (ex_leaves _ _ _ _ _ Hex). }
  unfold convergeTree. rewrite Hview. simpl Exists. simpl negb. cbv iota.
  rewrite bool_decide_eq_false_2 by done. cbv zeta.
  destruct (root_ok k d m v Hok Hroots Hc Hr) as (k1 & -> & _ & _ & _ & _ & _ & Hsame).
  rewrite (Hsame (ex_root _ _ _ _ _ Hex)). clear k1 Hsame.
  assert (default_class d ∈ dc k d) as Hdef by (apply (ex_classes _ _ _ _ _ Hex); auto).
  assert (v_classes v !! defaultMinor = Some (default_class d)) as Hvdef
    by (apply Hcls; split_and!; [done|done|apply default_range..]).
  destruct (ensureClass_ok k d v defaultMinor (KernelBytesPerSec UnlimitedBps) Hc default_range)
    as (k2 & v2 & -> & Hc2 & _ & _ & Hvf2 & Hvc2 & Hl2 & Hsame).
  rewrite (Hsame Hvdef (Hleaf _ Hdef)) in *. clear k2 Hsame. rewrite insert_id in Hvc2 by done.
  rewrite (exact_assigned k d m M subjects v2) by (done || by rewrite Hvf2).
  assert (forall s n, s ∈ subjects -> M !! key s = Some n -> v_classes v !! n = Some (class_for d n (rate s))) as Hsub.
  { intros s n Hs Hn. destruct (id_range _ _ Hid s Hs) as (n' & Hn' & Hrn). assert (n' = n) as -> by congruence.
    apply Hcls. unfold defaultMinor in *. split_and!; [|done|lia|lia]. apply (ex_classes _ _ _ _ _ Hex). eauto 6. }
  unfold converge_assigned. rewrite filter_nothing.
  2:{ intros f. rewrite Hvf2, Hvf. intros [Ht Hf]%list_elem_of_filter Hidx. apply not_true_iff_false in Hidx.
      apply Hidx, indexed_spec. exists (identity f). split; [|done]. by apply (ex_filters _ _ _ _ _ Hex). }
  rewrite each_nil. rewrite (filter_nothing _ (sorted_minors (v_classes v2))).
  2:{ intros n. unfold sorted_minors. rewrite merge_sort_Permutation, Hvc2.
      intros ([n' c] & -> & Hn%elem_of_map_to_list)%list_elem_of_fmap Hlive. apply Hlive.
      apply Hcls in Hn as (Hin & Hh & Hrn). simpl in *.
      apply (ex_classes _ _ _ _ _ Hex) in Hin as [->|(s & i & Hs & Hi & ->)]; simpl in Hh.
      - left. symmetry. apply classHandle_inj; [apply default_range || (unfold defaultMinor; lia)|lia|done].
      - right. destruct (id_range _ _ Hid s Hs) as (i' & Hi' & Hri). assert (i' = i) as -> by congruence.
        unfold defaultMinor in *. apply classHandle_inj in Hh; [|lia|lia]. subst i.
        apply list_elem_of_fmap. exists (key s, n'). split; [done|]. by apply elem_of_map_to_list. }
  rewrite each_nil.
  destruct (ensure_loop d (class_wants M subjects) k v2 Hc2) as (k3 & v3 & He3 & Hc3 & _ & _ & Hvf3 & _ & _ & Hsame).
  { apply Forall_fmap, Forall_forall. intros s Hs. destruct (id_range _ _ Hid s Hs) as (n & Hn & ?). simpl.
    rewrite Hn. simpl. unfold defaultMinor in *. lia. }
  unfold class_wants in He3. rewrite He3. rewrite Hsame.
  2:{ intros w (s & -> & Hs)%list_elem_of_fmap. destruct (id_range _ _ Hid s Hs) as (n & Hn & ?). simpl. rewrite Hn.
      simpl. rewrite Hvc2. split; [by apply Hsub|]. apply Hl2. right.
      apply (Hleaf (class_for d n (rate s))). by apply (Hcls n), Hsub. }
  rewrite filter_nothing; [done|]. intros g Hg Hidx. apply not_true_iff_false in Hidx. apply Hidx.
  destruct (want_filters_tree _ _ _ _ _ Hwf Hg) as (Ht & Hi & _).
  destruct (ex_wanted _ _ _ _ _ Hex g Hg) as (f & Hf & Heq). apply indexed_spec. exists f. split; [|congruence].
  rewrite Hvf3, Hvf2, Hvf. apply list_elem_of_filter. split; [|done].
  eapply tree_filter_identity; [|exact Ht]. congruence.
Qed.

(** C25: a pass over a device whose objects are the panel's or behind the panel's brings its
    tree, whatever classes and filters it held, to exactly the population asked for: the
    root qdisc and the default class, one class per subject at its rate with its leaf
    under it, and one filter per address selecting that class; it reports no failure,
    leaves every other filter and every other device alone, and a second pass over the
    result writes nothing.  Where an object of somebody else's is in the way, nothing is
    written at all.  Conditions: the device exists and the kernel refuses no write
    ([tree_ok], with what the kernel keeps unique); there is at least one subject, and the
    subjects are such as the plan produces ([wf_tree]); and the subjects and the classes
    the device holds are together fewer than 65,518, past which the class ids run out and
    wrap. *)
Theorem tree_converges (k : Kernel) (d : string) (m : MatchField) (subjects : list shaped) :
  tree_ok k d m -> wf_tree subjects -> subjects <> [] ->
  Z.of_nat (length subjects + length (dc k d)) < 65518 ->
  match ownedView (snapshot_of k d) d m with
  | Ok _ =>
      exists k' M, convergeTree k d (snapshot_of k d) m subjects = Some (k', []) /\
        exact_tree k' d m subjects M /\ frame d k k' /\
        (forall f, ~ tree_filter m f -> f ∈ df k' d <-> f ∈ df k d) /\
        convergeTree k' d (snapshot_of k' d) m subjects = Some (k', [])
  | Fail e => convergeTree k d (snapshot_of k d) m subjects = Some (k, [e])
  end.
Proof using PTL.
  intros Hok Hwf Hne Hb. destruct (ownedView (snapshot_of k d) d m) as [v|e] eqn:Hview.
  - destruct (convergeTree_ok k d m subjects v) as (k' & M & He & Hex & Hok' & Hr & Ha & Hf & Hkeep); [done..|].
    exists k', M. split_and!; try done. by apply (exact_stays k' d m M).
  - unfold convergeTree. simpl. by rewrite Hview.
Qed.

(** ** A device nothing wants shaped *)

Lemma teardown_rooted k d m v :
  tree_ok k d m -> coupled k d v -> v_filters v = filter (tree_filter m) (df k d) -> rooted v = true ->
  rootQdisc d ∈ dq k d ->
  exists k', teardown k d v = (k', []) /\ frame d k k' /\ quiet k' d /\ dc k' d = [] /\
    (forall q, q ∈ dq k' d <-> q = implicitQdisc d \/ (q ∈ dq k d /\ qParent q = clsactParent)) /\
    (forall f, f ∈ df k' d <-> f ∈ df k d /\ (fParent f = ingressBlock \/ fParent f = egressBlock)).
Proof.
  intros Hok Hc Hvf Hr Hroot. unfold teardown. rewrite Hr. simpl negb. cbv iota.
  destruct (remove_loop d (v_filters v) k) as (k1 & -> & Hfw & Hdf1).
  { apply Hc. } { rewrite Hvf. apply tree_filters_NoDup, Hc. }
  { intros f. rewrite Hvf, list_elem_of_filter. tauto. }
  destruct (drop_loop d (sorted_minors (v_classes v)) k1 v) as (k2 & v2 & -> & Hc2 & Htw2 & Hdf2 & _ & Hvc2 & _).
  - by eapply coupled_filters.
  - unfold sorted_minors. rewrite merge_sort_Permutation. apply NoDup_fst_map_to_list.
  - intros n. unfold sorted_minors. rewrite merge_sort_Permutation.
    intros ([n' c] & -> & Hn%elem_of_map_to_list)%list_elem_of_fmap. simpl. split; [eauto|].
    intros f [Hf Hnot]%Hdf1 Hcl. destruct (cp_class _ _ _ Hc _ _ Hn) as (_ & _ & Hrn). apply Hnot.
    rewrite Hvf. apply list_elem_of_filter. split; [|done]. by eapply (to_select _ _ _ Hok).
  - assert (tree_write d k k2) as Htw by (etrans; [apply (fw_tree _ _ _ Hfw)|done]).
    destruct (DelQdisc_root k2 d (cp_quiet _ _ _ Hc2)) as (k3 & -> & [Hf3 Hq3] & Hdq3 & Hdc3 & Hdf3).
    { exists (rootQdisc d). split; [|done]. apply (tw_hooks _ _ _ Htw); auto. }
    exists k3. cbn [report_del]. split_and!; try done.
    + etrans; [apply (tw_frame _ _ _ Htw)|done].
    + intros q. rewrite Hdq3. split; (intros [?|[Hq Hp]]; [auto|]); right; (split; [|done]);
        apply (tw_hooks _ _ _ Htw); auto.
    + intros f. rewrite Hdf3, Hdf2, Hdf1. split; [tauto|]. intros [Hf Hb]. split_and!; try done.
      rewrite Hvf, list_elem_of_filter. intros [[Hp _] _]. rewrite Hp in Hb. by destruct Hb.
Qed.

(** A device nothing wants shaped loses the panel's whole tree and nothing else: no
    class is left and the root qdisc is the kernel's own again, the filters of the
    ingress hook stay, no other device changes, the pass fails nowhere, and a second one
    writes nothing. *)
Theorem tree_is_torn_down (k : Kernel) (d : string) (m : MatchField) (v : devices) :
  tree_ok k d m -> ownedView (snapshot_of k d) d m = Ok v ->
  exists k', convergeTree k d (snapshot_of k d) m [] = Some (k', []) /\ frame d k k' /\
    dc k' d = [] /\ rootQdisc d ∉ dq k' d /\
    (forall q, qParent q = clsactParent -> q ∈ dq k' d <-> q ∈ dq k d) /\
    (forall f, fParent f = ingressBlock \/ fParent f = egressBlock -> f ∈ df k' d <-> f ∈ df k d) /\
    (forall f, f ∈ df k' d -> ~ tree_filter m f) /\
    convergeTree k' d (snapshot_of k' d) m [] = Some (k', []).
Proof.
  intros Hok Hview. pose proof (planeView_spec k d m Hok) as Hv. rewrite Hview in Hv.
  destruct Hv as (Hroots & Hahead & Hc & Hvf & Hr). unfold convergeTree at 1. rewrite Hview. simpl Exists.
  simpl negb. cbv iota. rewrite bool_decide_eq_true_2 by done. destruct (rooted v) eqn:Hrv.
  - destruct (teardown_rooted k d m v) as (k' & -> & Hf & Hq & Hdc & Hdq & Hdf); [done..|by apply Hr|].
    assert (rootQdisc d ∉ dq k' d) as Hnin by (intros [|[_ ?]]%Hdq; done).
    assert (tree_ok k' d m) as Hok'.
    { split; [done| | |].
      - rewrite Hdc. by intros c ?%not_elem_of_nil.
      - intros _. split_and!; [done| |].
        + intros q [->|[_ ?]]%Hdq; auto.
        + intros f [_ [Hp|Hp]]%Hdf; by rewrite Hp.
      - intros f n [Hin _]%Hdf. by apply (to_select _ _ _ Hok). }
    exists k'. split_and!; try done.
    + intros q Hp. rewrite Hdq. split; [|auto]. intros [->|[? _]]; done.
    + intros f Hb. rewrite Hdf. tauto.
    + intros f [_ Hb]%Hdf [Hp _]. rewrite Hp in Hb. by destruct Hb.
    + destruct (ownedView_ok k' d m Hok') as (v' & Hview' & _ & _ & Hr').
      * intros q [->|[_ Hp]]%Hdq Hp'; [auto|]. by rewrite Hp in Hp'.
      * intros f [_ Hb]%Hdf Hp. rewrite Hp in Hb. by destruct Hb.
      * unfold convergeTree. rewrite Hview'. simpl. unfold teardown.
        destruct (rooted v'); [exfalso; apply Hnin; by apply Hr'|done].
  - assert (rootQdisc d ∉ dq k d) as Hnin by (intros H; by apply Hr in H).
    destruct (to_bare _ _ _ Hok Hnin) as (Hdc & Hdq & Hdf).
    exists k. unfold teardown. rewrite Hrv. split_and!; try done.
    + intros f Hf [Hp _]. by apply (Hdf f).
    + unfold convergeTree. rewrite Hview. simpl. unfold teardown. by rewrite Hrv.
Qed.

(** ** What the kernel then enforces *)

Lemma rates_of_spec cs n c :
  NoDup (cHandle <$> cs) -> (forall c, c ∈ cs -> class_ok c) -> c ∈ cs -> cHandle c = classHandle n ->
  0 < n < 65536 -> rates_of cs !! n = Some (RateBytesPerSec c).
Proof.
  unfold rates_of. set (step := fun (m : gmap Z Z) c => _).
  assert (forall cs m0, NoDup (cHandle <$> cs) -> (forall c, c ∈ cs -> class_ok c) -> 0 < n < 65536 ->
    cHandle c = classHandle n ->
    c ∈ cs \/ (m0 !! n = Some (RateBytesPerSec c) /\ forall x, x ∈ cs -> cHandle x <> classHandle n) ->
    foldl step m0 cs !! n = Some (RateBytesPerSec c)) as Hgo.
  { clear cs. induction cs as [|x cs IH]; intros m0 Hnd Hok Hr Hh Hin; cbn [foldl].
    { destruct Hin as [H|[H _]]; [by apply not_elem_of_nil in H|done]. }
    rewrite fmap_cons in Hnd. apply NoDup_cons in Hnd as [Hx Hnd]. setoid_rewrite elem_of_cons in Hok.
    setoid_rewrite elem_of_cons in Hin. destruct (Hok x) as [Hpar (i & Hi & Hhx)]; [auto|].
    apply IH; auto. assert (step m0 x = <[ i := RateBytesPerSec x ]> m0) as ->.
    { unfold step. rewrite Hhx, classMinor_classHandle by done. by rewrite Hpar, Z.eqb_refl. }
    assert (forall y, y ∈ cs -> cHandle y = cHandle x -> False) as Hno.
    { intros y Hy Heq. apply Hx. rewrite <-Heq. by apply list_elem_of_fmap_2. }
    destruct Hin as [[->|Hin]|[Hm Hall]]; [|auto|].
    - right. assert (i = n) as -> by (apply classHandle_inj; [lia|lia|congruence]).
      rewrite lookup_insert_eq. split; [done|]. intros y Hy Heq. apply (Hno y Hy). congruence.
    - right. assert (i <> n) by (intros ->; apply (Hall x); auto). rewrite lookup_insert_ne by done. auto. }
  intros Hnd Hok Hin Hh Hr. apply Hgo; auto.
Qed.

Lemma readRates_spec k d m p n r :
  tree_ok k d m -> n <> defaultMinor -> 0 < n < 65536 -> class_for d n r ∈ dc k d ->
  (exists f, f ∈ df k d /\ tree_filter m f /\ fPrefix f = p) ->
  (forall f, f ∈ df k d -> tree_filter m f -> fPrefix f = p -> ClassID f = classHandle n) ->
  readRates (snapshot_of k d) m !! p = Some r.
Proof.
  intros Hok Hne Hn Hcl Hex Hall. unfold readRates. simpl Exists. simpl negb. cbv iota zeta. simpl Classes. simpl Filters.
  assert (rates_of (dc k d) !! n = Some r) as Hrate.
  { apply (rates_of_spec (dc k d) n (class_for d n r)); [apply (to_quiet _ _ _ Hok)|apply (to_class _ _ _ Hok)|done|done|done]. }
  set (step := fun (out : gmap Prefix Z) f => _).
  assert (forall f out, tree_filter m f -> fPrefix f = p -> ClassID f = classHandle n -> step out f = <[ p := r ]> out) as Hhit.
  { intros f out [Hp Ho] Hfp Hc. unfold step. rewrite Hp, Ho, Z.eqb_refl. simpl negb. simpl orb. cbv iota.
    rewrite Hc, classMinor_classHandle by done. rewrite (proj2 (Z.eqb_neq n defaultMinor)) by done. simpl.
    by rewrite Hrate, Hfp. }
  assert (forall f out, ~ (tree_filter m f /\ fPrefix f = p) -> step out f !! p = out !! p) as Hmiss.
  { intros f out Hnot. unfold step. destruct (Z.eqb_spec (fParent f) rootHandle) as [Hp|]; [|done].
    destruct (ours f m) eqn:Ho; [|done]. cbn [negb orb]. destruct (classMinor (ClassID f)) as [i ok].
    split_guard; [|done]. destruct (rates_of (dc k d) !! i); [|done].
    rewrite lookup_insert_ne; [done|]. intros ?. apply Hnot. by repeat split. }
  assert (forall l out, (forall f, f ∈ l -> f ∈ df k d) ->
    (exists f, f ∈ l /\ tree_filter m f /\ fPrefix f = p) \/ out !! p = Some r ->
    foldl step out l !! p = Some r) as Hgo; [|apply Hgo; auto].
  induction l as [|f l IH]; intros out Hsub Hin; cbn [foldl].
  { destruct Hin as [(f & Hf & _)|?]; [by apply not_elem_of_nil in Hf|done]. }
  setoid_rewrite elem_of_cons in Hsub. setoid_rewrite elem_of_cons in Hin. apply IH; [auto|].
  destruct (decide (tree_filter m f /\ fPrefix f = p)) as [[Ht Hp]|Hnot].
  - right. rewrite Hhit by auto. apply lookup_insert_eq.
  - rewrite Hmiss by done. destruct Hin as [(g & [->|Hg] & Ht & Hp)|?]; [tauto|left; eauto|auto].
Qed.

(** The readback of a converged tree is what was asked for: for every address of
    every subject, the kernel's own chain from filter to class to rate answers the rate
    of that subject. *)
Theorem readback_is_the_rate (k : Kernel) (d : string) (m : MatchField) (subjects : list shaped) k' :
  tree_ok k d m -> wf_tree subjects -> subjects <> [] ->
  Z.of_nat (length subjects + length (dc k d)) < 65518 ->
  convergeTree k d (snapshot_of k d) m subjects = Some (k', []) ->
  forall s p, s ∈ subjects -> p ∈ prefixes s -> readRates (snapshot_of k' d) m !! p = Some (rate s).
Proof.
  intros Hok Hwf Hne Hb He s p Hs Hp. destruct (ownedView (snapshot_of k d) d m) as [v|e] eqn:Hview.
  2:{ unfold convergeTree in He. simpl in He. rewrite Hview in He. simplify_eq. }
  destruct (convergeTree_ok k d m subjects v) as (k1 & M & He1 & Hex & Hok' & _); [done..|].
  rewrite He in He1. injection He1 as <-.
  destruct (id_range _ _ (ex_ids _ _ _ _ _ Hex) s Hs) as (n & Hn & Hr).
  apply (readRates_spec k' d m p n); [done|lia|unfold defaultMinor in *; lia| | |].
  - apply (ex_classes _ _ _ _ _ Hex). eauto 6.
  - set (g := mkFilter d rootHandle (ourPriority p) m p (classHandle (default 0 (M !! key s))) "" 0).
    assert (g ∈ want_filters d m M subjects) as Hg by (apply want_filters_elem; unfold g; eauto 6).
    destruct (want_filters_tree _ _ _ _ _ Hwf Hg) as (Ht & Hi & _).
    destruct (ex_wanted _ _ _ _ _ Hex g Hg) as (f & Hf & Heq). exists f. split_and!; [done| |].
    + apply (tree_filter_identity m g f); [congruence|done].
    + by apply (f_equal fPrefix) in Heq.
  - intros f Hf Ht Hfp. by rewrite (exact_prefix k' d m M subjects f s p), Hn.
Qed.
End Converges.

(** ** Class ids *)

Section Ids.
Context {PT : PrefixText}.

(** C35: while the subjects of a device and the classes it holds are fewer than the ids
    there are for them, the search for ids ends: every subject gets one, no two share
    one, none is the default class's or zero, and nobody else gets any. *)
Theorem class_ids_are_found (subjects : list shaped) (v : devices) :
  NoDup (key <$> subjects) -> Z.of_nat (length subjects + size (v_classes v)) < 65519 ->
  exists M, assignMinors subjects v = Some M /\
    (forall s, s ∈ subjects -> exists n, M !! key s = Some n /\ 0 < n < defaultMinor /\
      classMinor (classHandle n) = (n, true)) /\
    (forall s t n, s ∈ subjects -> t ∈ subjects -> M !! key s = Some n -> M !! key t = Some n -> key s = key t) /\
    (forall k, is_Some (M !! k) <-> k ∈ key <$> subjects).
Proof.
  intros Hnd Hb. destruct (assign_ids subjects v Hnd Hb) as (M & He & [Hr Hi Hd]).
  exists M. split_and!; [done| |done|].
  - intros s Hs. destruct (Hr s Hs) as (n & Hn & Hrn). exists n. split_and!; [done|lia|lia|].
    apply classMinor_classHandle. unfold defaultMinor in Hrn. lia.
  - intros k. split; [apply Hd|]. intros (s & -> & Hs)%list_elem_of_fmap. destruct (Hr s Hs) as (n & -> & _). eauto.
Qed.

(** With every id taken the search wraps around to zero, the root's own handle. *)
Lemma exhausted_ids_wrap (s : shaped) (v : devices) :
  (forall n, firstMinor <= n < defaultMinor -> exists c, v_classes v !! n = Some c /\ c <> zero_class) ->
  v_classes v !! 0 = None -> v_filters v = [] ->
  assignMinors [s] v = Some {[ key s := 0 ]} /\ classHandle 0 = rootHandle.
Proof.
  intros Hfull H0 Hf. split; [|done]. unfold assignMinors. rewrite Hf. cbn [foldl].
  assert (adopt (by_prefix []) (claimants (by_prefix []) [s]) (∅, {[ defaultMinor ]}) s = (∅, {[ defaultMinor ]})) as ->.
  { change (by_prefix []) with (∅ : gmap Prefix Z).
    unfold adopt. replace (omap _ (prefixes s)) with (@nil Z); [done|]. symmetry.
    induction (prefixes s) as [|p l IH]; [done|]. cbn [omap list_omap]. by rewrite lookup_empty. }
  unfold allocate. rewrite lookup_empty. cbv zeta. rewrite next_free_wraps; [done|..].
  - unfold firstMinor. lia.
  - intros n Hn. apply orb_true_iff. destruct (decide (n = defaultMinor)) as [->|Hne].
    + left. apply bool_decide_eq_true. set_solver.
    + right. destruct (Hfull n) as (c & -> & Hc); [unfold defaultMinor in *; lia|]. by apply bool_decide_eq_true.
  - rewrite H0. rewrite bool_decide_eq_false_2 by set_solver. by rewrite bool_decide_eq_false_2 by (intros ?; done).
  - done.
Qed.
End Ids.

(** ** A concrete device *)

Module Sample.
Import SampleText.

Definition host (ip : Z) : Prefix := mkPrefix (Addr4 ip) 32.
Definition population : list shaped := [mkShaped "alice" [host 1] 1000; mkShaped "bob" [host 2; host 3] 2000].
Definition kernel : Kernel := AddLink New_kernel ["pwg7"].
Definition view : devices := mkDevices "pwg7" false ∅ ∅ [].

Lemma sample_population_keys : NoDup (key <$> population).
Proof. apply (bool_decide_eq_true_1 _). vm_compute. reflexivity. Qed.

Lemma sample_population_wf : wf_tree population.
Proof.
  split; [apply sample_population_keys|..]; unfold population; intros s.
  - rewrite !elem_of_cons. intros [->|[->|?%not_elem_of_nil]]; done.
  - intros p. rewrite !elem_of_cons. intros [->|[->|?%not_elem_of_nil]]; simpl; [| |done];
      rewrite !elem_of_cons; intros Hp; destruct_or!; try (by apply not_elem_of_nil in Hp); subst; done.
  - rewrite !elem_of_cons. intros [->|[->|?%not_elem_of_nil]]; simpl; [| |done];
      apply (bool_decide_eq_true_1 _); vm_compute; reflexivity.
  - intros t p. rewrite !elem_of_cons. intros Hs Ht Hp Hq. destruct_or!; subst; simpl in *;
      try (by apply not_elem_of_nil in Hs); try (by apply not_elem_of_nil in Ht); try done;
      rewrite !elem_of_cons in Hp; rewrite !elem_of_cons in Hq; destruct_or!;
      try (by apply not_elem_of_nil in Hp); try (by apply not_elem_of_nil in Hq); subst; simplify_eq.
  - rewrite !elem_of_cons. intros [->|[->|?%not_elem_of_nil]]; simpl; [lia|lia|done].
Qed.

Lemma kernel_ok : tree_ok kernel "pwg7" MatchDst.
Proof.
  assert (dq kernel "pwg7" = [implicitQdisc "pwg7"]) as Hq by reflexivity.
  assert (dc kernel "pwg7" = []) as Hc by reflexivity. assert (df kernel "pwg7" = []) as Hf by reflexivity.
  split.
  - split; rewrite ?Hq, ?Hc, ?Hf.
    + change (links kernel) with ["pwg7"]. apply elem_of_cons. auto.
    + intros o. reflexivity.
    + apply NoDup_singleton.
    + apply NoDup_nil_2.
    + apply NoDup_nil_2.
  - rewrite Hc. by intros c ?%not_elem_of_nil.
  - intros _. rewrite Hq, Hf. split_and!; [done| |].
    + intros q ->%list_elem_of_singleton. by left.
    + by intros f ?%not_elem_of_nil.
  - rewrite Hf. by intros f n ?%not_elem_of_nil.
Qed.
End Sample.
Import SampleText Sample.

Lemma class_ids_are_found_witness : exists M, assignMinors population view = Some M.
Proof.
  destruct (class_ids_are_found population view sample_population_keys ltac:(vm_compute; reflexivity)) as (M & He & _).
  exists M. exact He.
Defined.

Lemma sample_view : ownedView (snapshot_of kernel "pwg7") "pwg7" MatchDst = Ok view.
Proof. vm_compute. reflexivity. Qed.

Lemma tree_converges_witness :
  exists k', convergeTree kernel "pwg7" (snapshot_of kernel "pwg7") MatchDst population = Some (k', []) /\
    convergeTree k' "pwg7" (snapshot_of k' "pwg7") MatchDst population = Some (k', []).
Proof.
  pose proof (tree_converges kernel "pwg7" MatchDst population kernel_ok sample_population_wf
    ltac:(discriminate) ltac:(vm_compute; reflexivity)) as H.
  rewrite sample_view in H. destruct H as (k' & M & He & _ & _ & _ & Hagain).
  exists k'. exact (conj He Hagain).
Defined.

Lemma sample_converges :
  exists k', convergeTree kernel "pwg7" (snapshot_of kernel "pwg7") MatchDst population = Some (k', []) /\
    tree_ok k' "pwg7" MatchDst /\ rootQdisc "pwg7" ∈ dq k' "pwg7" /\
    exists v, ownedView (snapshot_of k' "pwg7") "pwg7" MatchDst = Ok v.
Proof.
  destruct (convergeTree_ok kernel "pwg7" MatchDst population view kernel_ok sample_view sample_population_wf
    ltac:(discriminate) ltac:(vm_compute; reflexivity)) as (k' & M & He & Hex & Hok & Hr & Ha & _).
  exists k'. split_and!; [done|done|apply (ex_root _ _ _ _ _ Hex)|].
  destruct (ownedView_ok k' "pwg7" MatchDst Hok Hr Ha) as (v & Hv & _). by exists v.
Qed.

Lemma tree_is_torn_down_witness :
  exists k' k'', convergeTree kernel "pwg7" (snapshot_of kernel "pwg7") MatchDst population = Some (k', []) /\
    rootQdisc "pwg7" ∈ dq k' "pwg7" /\
    convergeTree k' "pwg7" (snapshot_of k' "pwg7") MatchDst [] = Some (k'', []) /\ dc k'' "pwg7" = [].
Proof.
  destruct sample_converges as (k' & He & Hok & Hroot & v & Hv).
  destruct (tree_is_torn_down k' "pwg7" MatchDst v Hok Hv) as (k'' & He' & _ & Hdc & _).
  exists k', k''. exact (conj He (conj Hroot (conj He' Hdc))).
Defined.

Lemma readback_is_the_rate_witness :
  exists k', convergeTree kernel "pwg7" (snapshot_of kernel "pwg7") MatchDst population = Some (k', []) /\
    readRates (snapshot_of k' "pwg7") MatchDst !! host 2 = Some 2000.
Proof.
  destruct sample_converges as (k' & He & _). exists k'. split; [exact He|].
  apply (readback_is_the_rate kernel "pwg7" MatchDst population k' kernel_ok sample_population_wf
    ltac:(discriminate) ltac:(vm_compute; reflexivity) He (mkShaped "bob" [host 2; host 3] 2000) (host 2)).
  - apply elem_of_cons. right. apply elem_of_cons. left. reflexivity.
  - apply elem_of_cons. left. reflexivity.
Defined.
