(* ===== verification/ShapingMirrors.v ===== *)
(** * Shaping: collecting mirrors

    The last step of a pass on the stack of [ShapingKernel]: the mirror devices nobody
    wants are removed, and only those.  A mirror some device still redirects into stays,
    because removing it would cut that client off. *)
From stdpp Require Import pretty.
From Stdlib Require Import Ascii.
From S2P Require Import Prelude Decimal Netip ShapingNames ShapingKernel Shaping ShapingStack ShapingLoops.
Open Scope string_scope.
Open Scope Z_scope.
Open Scope list_scope.

(** A device and its objects are as they were. *)
Record kept (k k' : Kernel) (d : string) : Prop := {
  kp_link : d ∈ links k' <-> d ∈ links k;
  kp_qdiscs : dq k' d = dq k d;
  kp_classes : dc k' d = dc k d;
  kp_filters : df k' d = df k d;
}.

Lemma kept_refl k d : kept k k d.
Proof. by split. Qed.
Lemma kept_trans k1 k2 k3 d : kept k1 k2 d -> kept k2 k3 d -> kept k1 k3 d.
Proof. intros [Ha ? ? ?] [Hb ? ? ?]. split; [by rewrite Hb, Ha|congruence..]. Qed.
Lemma kept_ops k l d : kept k (with_ops k l) d.
Proof. by split. Qed.

Lemma filter_other {A} (dev : A -> string) d e (l : list A) :
  e <> d -> filter (fun x => dev x = e) (filter (fun x => dev x <> d) l) = filter (fun x => dev x = e) l.
Proof. intros He. apply list_filter_filter_l. intros x Hx. congruence. Qed.

Lemma kept_delLink k name d : d <> name -> kept k (delLink k name) d.
Proof.
  intros Hd. split; [simpl; rewrite list_elem_of_filter; tauto|..].
  - unfold dq. simpl. by apply filter_other.
  - unfold dc. simpl. by apply filter_other.
  - unfold df. simpl. by apply filter_other.
Qed.

(** The host a step leaves: unchanged but for the log, or without one device. *)
Definition same_host (k k' : Kernel) : Prop := k' = k \/ exists l, k' = with_ops k l.

Lemma collect_mirror_cases ns wanted ls k name :
  let k' := (collect_mirror ns wanted ls k name).1 in
  same_host k k' \/
  exists l suffix, k' = delLink (with_ops k l) name /\ ownedMirror name = Some suffix /\ name ∉ wanted /\
    stillRedirectedInto ns k suffix name ls = Ok "".
Proof.
  cbv zeta. unfold collect_mirror. destruct (ownedMirror name) as [suffix|] eqn:Ho; [|left; by left].
  case_bool_decide as Hw; [left; by left|].
  destruct (stillRedirectedInto ns k suffix name ls) as [pinned|e] eqn:Hs; [|left; by left].
  case_bool_decide as Hp; [left; by left|]. simpl. unfold kernel_DeleteIFB, logged. simpl.
  destruct (Fails k (OpIFBDel name)) as [e|].
  - left. right. exists (ops k ++ [OpIFBDel name]). cbn [report_del]. by destruct (settledDel e).
  - case_bool_decide as Hl; simpl.
    + right. eexists _, suffix. split_and!; [done|done|done|]. rewrite Hs. f_equal. by destruct (decide (pinned = "")).
    + left. right. by eexists.
Qed.

Lemma same_host_kept k k' d : same_host k k' -> kept k k' d.
Proof. intros [->|(l & ->)]; [apply kept_refl|apply kept_ops]. Qed.

(** A device the step does not remove is kept. *)
Lemma collect_mirror_kept ns wanted ls k name d :
  (d = name -> ownedMirror name = None \/ name ∈ wanted \/
    forall suffix, ownedMirror name = Some suffix -> stillRedirectedInto ns k suffix name ls <> Ok "") ->
  kept k (collect_mirror ns wanted ls k name).1 d.
Proof.
  intros Hd. destruct (collect_mirror_cases ns wanted ls k name) as [Hs|(l & suffix & -> & Ho & Hw & Hr)].
  - by apply same_host_kept.
  - eapply kept_trans; [apply (kept_ops k l)|]. apply kept_delLink. intros Heq.
    destruct (Hd Heq) as [?|[?|Hf]]; [congruence|done|]. by destruct (Hf suffix Ho).
Qed.

(** ** What still feeds a mirror *)

Lemma redirecting_parent_found (k : Kernel) mirror ls parents parent f :
  parent ∈ parents -> parent ∈ ls -> "" ∉ parents -> parent ∈ links k -> f ∈ df k parent -> Redirect f = mirror ->
  redirecting_parent k mirror ls parents <> Ok "".
Proof.
  intros Hp Hl Hne Hk Hf Hr. induction parents as [|x rest IH]; [by apply not_elem_of_nil in Hp|].
  apply not_elem_of_cons in Hne as [Hx Hne]. cbn [redirecting_parent].
  destruct (decide (x = parent)) as [->|Hxp].
  - rewrite bool_decide_eq_true_2 by done. cbn [negb]. cbn [plane_Snapshot KernelPlane].
    unfold kernel_Snapshot. destruct (SnapshotErr k parent); [done|]. rewrite bool_decide_eq_true_2 by done.
    simpl. rewrite (proj2 (existsb_spec _ _)); [by intros [= ->]|].
    exists f. split; [done|]. by apply bool_decide_eq_true_2.
  - apply elem_of_cons in Hp as [?|Hp]; [congruence|]. case_bool_decide; cbn [negb]; [|by apply IH].
    destruct (plane_Snapshot k x) as [snap|e]; [|done]. destruct (existsb _ _); [by intros [= ->]|by apply IH].
Qed.

Lemma redirecting_parent_none (k : Kernel) mirror ls parents :
  (forall d, SnapshotErr k d = None) ->
  (forall parent f, parent ∈ parents -> parent ∈ links k -> f ∈ df k parent -> Redirect f <> mirror) ->
  redirecting_parent k mirror ls parents = Ok "".
Proof.
  intros Hs Hno. induction parents as [|x rest IH]; [done|]. setoid_rewrite elem_of_cons in Hno.
  cbn [redirecting_parent]. rewrite IH by eauto. case_bool_decide; cbn [negb]; [|done].
  cbn [plane_Snapshot KernelPlane]. unfold kernel_Snapshot. rewrite Hs.
  case_bool_decide as Hl; [|done]. destruct (existsb _ _) eqn:Hex; [|done].
  apply existsb_spec in Hex as (f & Hf & Hr). bools. by destruct (Hno x f (or_introl eq_refl) Hl Hf).
Qed.

Lemma ownedMirror_suffix name suffix :
  ownedMirror name = Some suffix -> name = ifbPrefix +:+ suffix /\ exists id, numbers suffix id.
Proof.
  unfold ownedMirror. destruct (CutPrefix name ifbPrefix) as [rest|] eqn:Hc; [|done].
  apply CutPrefix_spec in Hc.
  case_bool_decide as H1; [|case_bool_decide as H2; [|done]]; intros [= <-]; (split; [done|]).
  - destruct H1 as [id (s & Hn & Hs)%inbound_numbers]. exists id.
    by replace rest with s by (apply (inj (String.append ifbPrefix)); congruence).
  - destruct H2 as [id (s & Hn & Hs)%session_numbers]. exists id.
    by replace rest with s by (apply (inj (String.append ifbPrefix)); congruence).
Qed.

Lemma parents_named ns suffix : suffix <> "" -> "" ∉ parentsOf ns suffix.
Proof.
  intros Hs. unfold parentsOf. rewrite merge_sort_Permutation, elem_of_app, !list_elem_of_fmap.
  intros [(p & Heq & _)|(p & Heq & _)]; by destruct p.
Qed.

(** A device outside the mirrors that redirects into one. *)
Definition feeds (ns : Namespaces) (k : Kernel) (parent name : string) : Prop :=
  parent ∈ links k /\ ownedMirror parent = None /\
  (exists suffix, ownedMirror name = Some suffix /\ parent ∈ parentsOf ns suffix) /\
  exists f, f ∈ df k parent /\ Redirect f = name.

Lemma feeds_kept ns k k' parent name : kept k k' parent -> feeds ns k parent name -> feeds ns k' parent name.
Proof.
  intros [Hl _ _ Hf] (H1 & H2 & H3 & f & H4 & H5). split_and!; try done; [by apply Hl|].
  exists f. by rewrite Hf.
Qed.

Lemma feeds_pinned ns k ls parent name suffix :
  feeds ns k parent name -> parent ∈ ls -> ownedMirror name = Some suffix ->
  stillRedirectedInto ns k suffix name ls <> Ok "".
Proof.
  intros (Hl & _ & (suffix' & Ho & Hp) & f & Hf & Hr) Hls Ho'. assert (suffix' = suffix) as -> by congruence.
  apply (redirecting_parent_found k name ls _ parent f); try done. apply parents_named.
  destruct (ownedMirror_suffix _ _ Ho) as [_ [id Hn]]. destruct (numbers_head _ _ Hn) as (c & r & -> & _). done.
Qed.

(** ** The collection *)

Lemma each_kept {A} (f : Kernel -> A -> Kernel * list error) d l : forall k,
  (forall k' x, x ∈ l -> kept k k' d -> kept k' (f k' x).1 d) -> kept k (each f k l).1 d.
Proof.
  induction l as [|x l IH]; intros k Hf; [apply kept_refl|]. rewrite each_cons.
  pose proof (Hf k x ltac:(apply elem_of_cons; auto) (kept_refl k d)) as Hx.
  destruct (f k x) as [k1 e1] eqn:He. simpl in Hx.
  assert (kept k1 (each f k1 l).1 d) as Hl.
  { apply IH. intros k' y Hy Hk. apply Hf; [apply elem_of_cons; auto|]. by eapply kept_trans. }
  destruct (each f k1 l) as [k2 e2]. by eapply kept_trans.
Qed.

(** The collection in a host that answers every call. *)
Lemma collect_loop_removes ns wanted ls name suffix l : forall k,
  (forall o, Fails k o = None) -> (forall d, SnapshotErr k d = None) -> NoDup l ->
  (forall x, x ∈ l -> x ∈ links k) -> ownedMirror name = Some suffix -> name ∉ wanted ->
  (forall parent f, parent ∈ parentsOf ns suffix -> parent ∈ links k -> f ∈ df k parent -> Redirect f <> name) ->
  (name ∈ l \/ name ∉ links k) -> name ∉ links (each (collect_mirror ns wanted ls) k l).1.
Proof.
  induction l as [|x l IH]; intros k Hfail Hsnap Hnd Hin Ho Hw Hno Hname.
  { destruct Hname as [H|H]; [by apply not_elem_of_nil in H|done]. }
  apply NoDup_cons in Hnd as [Hx Hnd]. setoid_rewrite elem_of_cons in Hin. rewrite each_cons.
  set (k1 := (collect_mirror ns wanted ls k x).1).
  assert ((forall o, Fails k1 o = None) /\ (forall d, SnapshotErr k1 d = None) /\
    (forall d, d <> x -> kept k k1 d) /\ (forall d, d ∈ links k1 -> d ∈ links k) /\
    (forall d f, f ∈ df k1 d -> f ∈ df k d) /\ (x = name -> name ∉ links k1)) as (H1 & H2 & H3 & H4 & H5 & H6).
  { destruct (collect_mirror_cases ns wanted ls k x) as [Hs|(ol & sx & He & Hox & Hwx & Hr)].
    - fold k1 in Hs. assert (links k1 = links k /\ Fails k1 = Fails k /\ SnapshotErr k1 = SnapshotErr k /\
        filters k1 = filters k) as (Hl & Hf & Hse & Hfl) by (by destruct Hs as [->|(ol & ->)]).
      rewrite Hl, Hf, Hse. split_and!; try done.
      + intros d _. by apply same_host_kept.
      + intros d f. unfold df. by rewrite Hfl.
      + intros -> Hlk. exfalso. revert Hs. unfold k1, collect_mirror. rewrite Ho, bool_decide_eq_false_2 by done.
        unfold stillRedirectedInto. rewrite redirecting_parent_none by done.
        rewrite bool_decide_eq_false_2 by auto. simpl. unfold kernel_DeleteIFB, logged. simpl.
        rewrite Hfail, bool_decide_eq_true_2 by done. simpl.
        assert (name ∉ links (delLink (with_ops k (ops k ++ [OpIFBDel name])) name)) as Hgone
          by (simpl; rewrite list_elem_of_filter; tauto).
        intros [Heq|(ol & Heq)]; apply Hgone; rewrite Heq; done.
    - fold k1 in He. rewrite He. split_and!; try done.
      + intros d Hd. eapply kept_trans; [apply (kept_ops k ol)|]. by apply kept_delLink.
      + intros d. simpl. rewrite list_elem_of_filter. tauto.
      + intros d f. unfold df. simpl. rewrite !list_elem_of_filter. tauto.
      + intros ->. simpl. rewrite list_elem_of_filter. tauto. }
  assert (exists e1, collect_mirror ns wanted ls k x = (k1, e1)) as [e1 ->].
  { unfold k1. destruct (collect_mirror ns wanted ls k x) as [a b]. by exists b. }
  assert (name ∉ links (each (collect_mirror ns wanted ls) k1 l).1) as Hgoal.
  { apply IH; try done.
    - intros y Hy. apply H3; [by intros ->|]. auto.
    - intros parent f Hp Hl Hf. apply (Hno parent); [done|auto|auto].
    - destruct Hname as [[->|?]%elem_of_cons|?]; [right; auto|auto|right; auto]. }
  destruct (each _ k1 l) as [k2 e2]. done.
Qed.

(** The collection of mirrors removes nothing but mirrors nobody wants: every device that
    is not a mirror of the panel's, every mirror a plan of this pass wants, and every
    mirror that a live device still redirects into is left with all its objects,
    whatever fails on the way.  On a host that answers, a mirror nobody wants and nothing
    redirects into is gone afterwards. *)
Theorem mirrors_are_collected (ns : Namespaces) (wanted : gset string) (k : Kernel) :
  let k' := (collectMirrors ns wanted k).1 in
  (forall d, ownedMirror d = None \/ d ∈ wanted -> kept k k' d) /\
  (forall parent name, feeds ns k parent name -> kept k k' name /\ feeds ns k' parent name) /\
  (forall name suffix, (forall o, Fails k o = None) -> (forall d, SnapshotErr k d = None) -> LinksErr k = None ->
    NoDup (links k) -> ownedMirror name = Some suffix -> name ∉ wanted ->
    (forall parent f, parent ∈ parentsOf ns suffix -> parent ∈ links k -> f ∈ df k parent -> Redirect f <> name) ->
    name ∉ links k').
Proof.
  cbv zeta. unfold collectMirrors. cbn [plane_Links KernelPlane]. unfold Links.
  destruct (LinksErr k) as [e|]; [split_and!; [intros; apply kept_refl|intros; split; [apply kept_refl|done]|done]|].
  assert (forall d, ownedMirror d = None \/ d ∈ wanted ->
    kept k (each (collect_mirror ns wanted (links k)) k (links k)).1 d) as Hkeep.
  { intros d Hd. apply each_kept. intros k1 x _ _. apply collect_mirror_kept. intros ->. tauto. }
  split_and!.
  - done.
  - intros parent name Hf. assert (ownedMirror parent = None) as Hpn by apply Hf.
    split; [|eapply feeds_kept; [apply Hkeep; auto|done]].
    assert (kept k (each (collect_mirror ns wanted (links k)) k (links k)).1 name /\
      kept k (each (collect_mirror ns wanted (links k)) k (links k)).1 parent) as [? _]; [|done].
    assert (forall l k1, kept k k1 name -> kept k k1 parent ->
      kept k (each (collect_mirror ns wanted (links k)) k1 l).1 name /\
      kept k (each (collect_mirror ns wanted (links k)) k1 l).1 parent) as Hgo; [|apply Hgo; apply kept_refl].
    induction l as [|x l IH]; intros k1 Hn Hp; [done|]. rewrite each_cons.
    assert (feeds ns k1 parent name) as Hf1 by (by eapply feeds_kept).
    pose proof (collect_mirror_kept ns wanted (links k) k1 x name) as Hkn.
    pose proof (collect_mirror_kept ns wanted (links k) k1 x parent) as Hkp.
    destruct (collect_mirror ns wanted (links k) k1 x) as [k2 e2]. simpl in Hkn, Hkp.
    destruct (IH k2) as [H1 H2].
    + eapply kept_trans; [exact Hn|]. apply Hkn. intros <-. right. right. intros suffix Ho.
      eapply feeds_pinned; [done| |done]. apply Hf.
    + eapply kept_trans; [exact Hp|]. apply Hkp. intros <-. by left.
    + by destruct (each _ k2 l) as [k3 e3].
  - intros name suffix Hfail Hsnap _ Hnd Ho Hw Hno. apply (collect_loop_removes ns wanted (links k) name suffix); try done.
    destruct (decide (name ∈ links k)); auto.
Qed.

(** ** A concrete host: one mirror in use, one left behind *)

Module SampleHost.
Definition redirect : FilterSpec :=
  mkFilter "pwg7" 4294967280 1 MatchSrc (mkPrefix (Addr4 1) 32) 0 "pifb7" 1.
Definition host : Kernel :=
  with_filters (AddLink New_kernel ["eth0"; "pwg7"; "pifb7"; "pifb9"]) [redirect].
Definition after : Kernel := (collectMirrors DefaultNamespaces ∅ host).1.
End SampleHost.

Lemma mirrors_are_collected_witness :
  "pifb9" ∉ links SampleHost.after /\
  kept SampleHost.host SampleHost.after "pifb7" /\ kept SampleHost.host SampleHost.after "eth0".
Proof.
  destruct (mirrors_are_collected DefaultNamespaces ∅ SampleHost.host) as (Hkeep & Hfed & Hgone).
  split; [|split].
  - apply (Hgone "pifb9" "9"); try reflexivity; try (intros; reflexivity).
    + apply (bool_decide_eq_true_1 _). vm_compute. reflexivity.
    + apply not_elem_of_empty.
    + intros parent f Hp _ Hf.
      assert (parent <> "pwg7") as Hne by (intros ->; revert Hp; apply (bool_decide_eq_false_1 _); vm_compute; reflexivity).
      unfold df in Hf. apply list_elem_of_filter in Hf as [Hd Hf].
      apply list_elem_of_singleton in Hf as ->. exfalso. apply Hne. symmetry. exact Hd.
  - apply (Hfed "pwg7" "pifb7"). split; [|split; [|split]].
    + apply (bool_decide_eq_true_1 _). vm_compute. reflexivity.
    + vm_compute. reflexivity.
    + exists "7". split; [vm_compute; reflexivity|]. apply (bool_decide_eq_true_1 _). vm_compute. reflexivity.
    + exists SampleHost.redirect. split; [|reflexivity]. apply (bool_decide_eq_true_1 _). vm_compute. reflexivity.
  - apply Hkeep. left. vm_compute. reflexivity.
Defined.
